(* ===== verification/_CoqProject ===== *)
-Q . S2P
Prelude.v
Words.v
Mem.v
LibString.v
Memblock.v
Buddy.v
BuddyInit.v
Bitmap.v
FdTable.v
OpenFile.v
Scatterlist.v
VirtioRing.v
VirtioSpec.v
VirtioProofs.v
VirtioRefine.v
VirtioBlk.v
VirtioTypes.v
Vsprintf.v
HeapLogic.v
KList.v
RbTree.v
RbTreeProofs.v
RbTreeSpec.v
XArray.v
XArrayArith.v
XArrayProofs.v
XArraySpec.v
RadixTree.v
IrqDesc.v
Slab.v
SlabProofs.v
SlabOps.v
SlabSpec.v
SlabHeap.v
Kmalloc.v
Fdt.v
FdtSpec.v
OfTree.v
OfUnflatten.v
OfBuild.v
OfExample.v
OfNav.v
OfNavSpec.v
OfAddr.v
PageTable.v
PageTableSpec.v
Ext2.v
Ext2Spec.v
Ext2Example.v
RbAugment.v
RbAugErase.v
VmArea.v
VmAreaSpec.v
VmMap.v
VmMapSpec.v
ModLoad.v
ModReloc.v
ModLayout.v
ModImage.v
Vmap.v
VmapSpec.v
VmapAlloc.v
VmapBoot.v
Dcache.v
Namei.v
VfsMount.v
