(* ===== verification/Prelude.v ===== *)
(** * xlinux: a verification development

    xlinux is a small RISC-V kernel in C, built from modules that follow the
    structure of Linux.  This library models its memory management and page
    tables, its index structures and base libraries, the device tree, the ext2
    file system, file descriptors, interrupt numbers and the virtio block path,
    and proves the properties they rest on.

    ** The program

    At boot, [startup/] sets up paging and [early_dt/] reads the device tree and
    registers memory with the boot allocator ([memblock/memblock.c]), which
    keeps two sorted arrays of ranges (memory and reserved) and serves the
    first allocations.  [buddy/buddy.c] sizes the zones from these tables; then
    [memblock_free_all] hands every free range over to it, and from then on
    [__alloc_pages_nodemask] and [__free_pages] manage pages in power-of-two
    blocks.  Above are the object caches ([slab/]), virtual memory ([vma/],
    [mm/], [pgalloc/]), the scheduler and fork, the device model ([kobject/],
    [platform/], [of/]), block devices and drivers ([block/], [virtio*/]) and
    the file systems ([fs/], [ext2/], [filemap/]).  A block request
    travels through [virtio_blk/virtio_blk.c] into a ring shared with the device
    ([virtio/virtio_ring.c]) and comes back by interrupt; pages are found by
    index in a sparse array ([xarray/xarray.c]), interrupt descriptors in a radix
    tree ([radix_tree/radix-tree.c]).  Linked lists ([include/list.h]), red-black
    trees ([rbtree/rbtree.c]), bitmaps ([bitmap/bitmap.c], [lib/find_bit.c]), the
    string routines ([lib/string.c]) and formatted output ([lib/vsprintf.c]) are
    used throughout.

    ** The files

    - [Prelude] (this file): words of 64 and 32 bits as [Z] with the wrap-around
      written out ([u64], [s32], ...), the result type [outcome] ([Panic] for
      [panic] and [BUG_ON], [Fault] for accesses outside the modelled objects,
      [NoFuel] for a bound that was too small), the state monad [ST] over it,
      the hint databases [words] and [xlinux], and lemmas on bits and words.
    - [Words]: the arithmetic macros and bit operations of [include/]
      ([types.h], [kernel.h], [bits.h], [log2.h], [ffs.h], [hash.h],
      [word-at-a-time.h], [page.h]), each proved equal to its mathematical
      meaning.
    - [Mem]: byte memory, for code that works on characters.
    - [LibString]: [lib/string.c], [startup/string.c], [include/string.h] and
      the user-copy routines.
    - [Memblock]: [memblock/memblock.c] and [include/memblock.h].  The state is
      the pair of region tables; [covers] reads a table as a set of addresses.
    - [Buddy], [BuddyInit]: [buddy/buddy.c], [include/mmzone.h],
      [page-flags.h], [page_ref.h], [gfp.h].  The state is the page array (a map
      from frame numbers to [struct page]), the zones with their free lists, the
      per-CPU list and the zonelist.  [BuddyInit] holds the set-up code and the
      hand-over from [Memblock].
    - [Bitmap]: [lib/find_bit.c], [bitmap/bitmap.c], [include/bitmap.h]; a bitmap
      is an array of words, [bit] reads it as a set.
    - [FdTable]: [fs/file.c], [include/fdtable.h]: the table of open files, its
      invariant ([fd_ok]) and the map it stands for ([represents]); [OpenFile]:
      the flags and the system call of [fs/open.c], a client of it.
    - [Scatterlist]: [scatterlist/scatterlist.c].
    - [VirtioRing]: [virtio/virtio_ring.c], driver side, with the memory shared with
      the device; [VirtioSpec]: what a device does with it, and the three lists of
      requests a queue stands for; [VirtioProofs], [VirtioRefine]: the invariant and
      the simulation; [VirtioTypes]: the ranges of the fields; [VirtioBlk]: the
      request path of [virtio_blk/virtio_blk.c].
    - [Vsprintf]: [lib/vsprintf.c].
    - [HeapLogic]: a separation logic, an instance of the logic interface of
      Iris, for structures linked by pointers; memory is a map from addresses
      to words.
    - [RbTree], [RbTreeProofs], [RbTreeSpec]: [rbtree/rbtree.c] and
      [include/rbtree.h] as programs on such memory, the proofs of
      their steps, and their contract.
    - [KList]: [include/list.h], circular lists and hash lists.
    - [XArray], [XArrayArith], [XArrayProofs], [XArraySpec]: [xarray/xarray.c], the
      arithmetic of its indices, its proofs and contract; [RadixTree]:
      [radix_tree/radix-tree.c] on the same nodes.  Their node allocator is an
      argument with the promise [NodeAlloc].
    - [IrqDesc]: [irq/irqdesc.c] and callers, a client of [Bitmap] and [RadixTree].
    - [Slab], [SlabProofs], [SlabOps], [SlabSpec], [SlabHeap]: [slab/slab.c], the
      invariant of a slab, that the operations keep it, what creation
      establishes, and the cache as a heap.  The page allocator is an argument
      with the promise [PageSource].  [Kmalloc]: the general caches.
    - [Fdt], [FdtSpec]: the flattened device tree ([include/fdt.h],
      [early_dt/early_dt.c]) and what a blob encodes; [OfTree], [OfUnflatten],
      [OfBuild]: [of/of.c], the tree of nodes in memory, made in pages of [Buddy];
      [OfNav], [OfNavSpec], [OfAddr]: lookup, addresses and interrupts of nodes
      ([of/base.c], [of/property.c], [of/address.c], [of_irq/of_irq.c]);
      [OfExample]: a tree.
    - [PageTable], [PageTableSpec]: [pgalloc/pgalloc.c], [ioremap/ioremap.c] and
      [include/pgtable.h]: tables of three levels in byte memory, made in pages
      of [Buddy]; [vm_ok] is the tree they form, [walk] the translation.
    - [Ext2], [Ext2Spec], [Ext2Example]: [ext2/*.c], with the buffer, page and
      inode caches as arguments; a small file system.

    ** What the theorems show

    - Boot allocator: after any sequence of operations the tables are sorted,
      merged and exact, allocations are disjoint from each other and from
      reservations ([boot_allocations_disjoint]); adding a range is set union
      ([add_range_exact]); iterating free ranges visits exactly the free
      addresses ([free_ranges_exact]); releasing all memory releases only free
      pages, in aligned blocks that tile the ranges ([memblock_free_all_safe],
      [free_pages_memory_tiles]).
    - Page allocator: freeing and allocating change the set of free pages by
      exactly the block ([free_one_page_exact], [rmqueue_smallest_exact],
      [alloc_pages_exact_block]); under any interleaving pages are conserved
      and outstanding blocks disjoint ([zone_pages_conserved]); the hand-over at
      boot establishes the invariant ([boot_release_exact]).  Two theorems are
      about defects: blocks are never coalesced ([free_never_coalesces]) and an
      allocated block is never returned ([freed_allocation_leaks]).
    - Red-black trees: insertion and removal keep the red-black conditions and
      change the in-order sequence by exactly the node, touching no other
      memory, in logarithmic time; iteration visits the sequence.
    - Lists: every sequence of operations acts as on a plain sequence
      ([list_ops_refine], [hlist_ops_refine]).
    - Sparse arrays and radix trees: a store or insertion updates the function
      from indices to entries at exactly one index or fails with an error and
      changes nothing; a load reads it ([xas_store_updates], [xa_load_reads],
      [radix_insert_lookup]); a radix tree that is not empty cannot be extended
      ([radix_extend_panics]).
    - Virtqueues: under any interleaving of driver and device a queue behaves as
      three lists of requests ([virtqueue_refines]), its fields keep their C types
      ([virtqueue_typed]) and its memory is laid out without overlap
      ([vring_layout]); a block request has the layout of the virtio standard
      ([queue_rq_layout]), and one interrupt completes everything the device has
      finished ([interrupt_completes_all]).
    - Bitmaps, descriptors, interrupts: the search finds the lowest free area
      ([zero_area_lowest]), the three versions of [bitmap_set] agree
      ([bitmap_set_exact]); the descriptor table implements a map with lowest
      free descriptors ([fd_table_refines]) and an open changes it by exactly the
      new file ([openat_exact]); interrupt numbers are fresh and lowest and bitmap
      and tree stay consistent ([irq_alloc_exact]).
    - Object caches: a created cache behaves as a heap of separate aligned objects,
      whatever the sequence of operations on it ([cache_is_heap]); [kmalloc] picks the
      smallest general cache that fits ([kmalloc_best_fit]).
    - Device tree: the scan of the blob visits every node in order
      ([flat_scan_exact]), unflattening builds exactly the tree of the blob in memory
      ([unflatten_exact]), lookups by path and phandle find the node that
      the tree has ([path_lookup_exact], [phandle_lookup_exact]), and memory is
      recorded in whole pages ([memory_whole_pages]).
    - Page tables: mapping device memory and faults in anonymous areas change the
      translation of exactly their addresses, with fresh zeroed pages for faults, and
      keep the tables a tree of separate pages ([ioremap_maps],
      [anonymous_fault_maps]); a new address space shares the kernel half
      ([pgd_alloc_shares]).
    - ext2: mounting establishes a consistent super block whatever the device
      holds ([mount_consistent]); inodes are read from their place on the device
      ([iget_exact]); a block of a file is found through the tables of its inode
      ([block_path_roundtrip], [get_blocks_exact]); a name is found in a
      directory exactly if it has an entry ([dir_lookup_exact]).
    - Strings and formats: copies, comparisons and the word-at-a-time user copy
      agree with their byte-wise meaning, with bounds and errors; [vsnprintf]
      implements the meaning of its format with truncation, and parsing undoes
      printing.

    ** Bounds and fuel

    A loop that C bounds by a count recurses on the count.  A loop bounded by
    data takes fuel, and every theorem about it either supplies a bound that is
    proved sufficient (the length of the string, the number of regions, twice
    the logarithm of the size of a tree) or holds for the fuel the definition
    itself computes from its state; [NoFuel] is a result no theorem admits.

    ** What is not modelled

    Messages, locks (the kernel is built without them), and the assembly
    sources except the effect of [memcpy] and [memset].  The parts listed in
    the manifest as not modelled are the device model, the scheduler, the areas
    of an address space, the page cache and most of the virtual file system.
    Path lookup and, outside its own files, the object allocator are arguments of
    their clients.  Planned next, in this order: virtual memory areas
    ([vma/vma.c], [mm/mmap.c]), the page cache ([filemap/filemap.c]), buffers
    ([fs/buffer.c]), path lookup ([fs/namei.c]). *)

From Stdlib Require Import ZArith Lia.
From stdpp Require Import base tactics numbers list gmap strings.

#[global] Open Scope Z_scope.

#[global] Arguments Z.eqb : simpl never.
#[global] Arguments Z.leb : simpl never.
#[global] Arguments Z.ltb : simpl never.
#[global] Arguments Z.add : simpl never.
#[global] Arguments Z.sub : simpl never.
#[global] Arguments Z.mul : simpl never.
#[global] Arguments Z.pow : simpl never.
#[global] Arguments Z.of_nat : simpl never.
#[global] Arguments Z.to_nat : simpl never.

(** ** Machine integers

    A C integer of width [w] is a [Z] kept in range by writing out the
    wrap-around where the C expression can leave it. *)

Definition u64 (x : Z) : Z := x mod 2 ^ 64.
Definition u32 (x : Z) : Z := x mod 2 ^ 32.
Definition u16 (x : Z) : Z := x mod 2 ^ 16.
Definition u8 (x : Z) : Z := x mod 2 ^ 8.

(** Two's complement reading of the low 32 (64) bits, the C conversions to
    [int] and [long]; [s8] is the conversion to a (signed) [char]. *)
Definition s32 (x : Z) : Z := (x + 2 ^ 31) mod 2 ^ 32 - 2 ^ 31.
Definition s64 (x : Z) : Z := (x + 2 ^ 63) mod 2 ^ 64 - 2 ^ 63.
Definition s8 (x : Z) : Z := (x + 2 ^ 7) mod 2 ^ 8 - 2 ^ 7.

Definition ULONG_MAX : Z := 2 ^ 64 - 1.

(** Error numbers of [include/errno.h]; a function returns them negated. *)
Definition ENOENT : Z := 2.
Definition ENOMEM : Z := 12.
Definition EBUSY : Z := 16.
Definition EEXIST : Z := 17.
Definition EINVAL : Z := 22.
Definition EMFILE : Z := 24.
Definition ENAMETOOLONG : Z := 36.

(** File types of [include/stat.h]. *)
Definition S_IFMT : Z := 0xf000.
Definition S_IFREG : Z := 0x8000.
Definition S_IFDIR : Z := 0x4000.

(** The value fits the unsigned 64-bit type. *)
Definition is_u64 (x : Z) : Prop := 0 <= x < 2 ^ 64.

Declare Scope word_scope.
Delimit Scope word_scope with W.
Notation "a +u b" := (u64 (a + b)) (at level 50, left associativity) : word_scope.
Notation "a -u b" := (u64 (a - b)) (at level 50, left associativity) : word_scope.
Notation "a *u b" := (u64 (a * b)) (at level 40, left associativity) : word_scope.
Notation "a <<u b" := (u64 (Z.shiftl a b)) (at level 45, left associativity) : word_scope.
Notation "a >>u b" := (Z.shiftr a b) (at level 45, left associativity) : word_scope.
Notation "a &u b" := (Z.land a b) (at level 47, left associativity) : word_scope.
Notation "a |u b" := (Z.lor a b) (at level 48, left associativity) : word_scope.
Notation "~u a" := (u64 (Z.lnot a)) (at level 35, right associativity) : word_scope.

(** ** Outcomes

    [Panic] is the kernel's [panic()] or [BUG_ON()], which halt the machine;
    [Fault] is an access outside the objects the model knows (undefined
    behaviour in C); [NoFuel] says that a loop's bound was too small, which
    the termination theorems rule out. *)
Inductive outcome (A : Type) : Type :=
  | Ok (a : A)
  | Panic (msg : string)
  | Fault
  | NoFuel.
Arguments Ok {A} a.
Arguments Panic {A} msg%_string_scope.
Arguments Fault {A}.
Arguments NoFuel {A}.

#[export] Instance outcome_ret : MRet outcome := fun A a => Ok a.
#[export] Instance outcome_bind : MBind outcome := fun A B f m =>
  match m with
  | Ok a => f a
  | Panic s => Panic s
  | Fault => Fault
  | NoFuel => NoFuel
  end.
#[export] Instance outcome_fmap : FMap outcome := fun A B f m =>
  match m with
  | Ok a => Ok (f a)
  | Panic s => Panic s
  | Fault => Fault
  | NoFuel => NoFuel
  end.

(** A read of an object that may be missing. *)
Definition deref {A} (o : option A) : outcome A :=
  match o with Some a => Ok a | None => Fault end.

(** Array accesses. *)
Definition aget {A} (l : list A) (i : Z) : outcome A := if i <? 0 then Fault else deref (l !! Z.to_nat i).
Definition aset {A} (l : list A) (i : Z) (x : A) : outcome (list A) :=
  if (0 <=? i) && (i <? Z.of_nat (length l)) then Ok (<[Z.to_nat i := x]> l) else Fault.

(** [BUG_ON(c)]. *)
Definition bug_on (c : bool) (msg : string) : outcome unit :=
  if c then Panic msg else Ok tt.
Arguments bug_on c msg%_string_scope.

Definition is_ok {A} (m : outcome A) : Prop := exists a, m = Ok a.

(** State passing over [outcome]: the effect of code that mutates memory. *)
Definition ST (S A : Type) : Type := S -> outcome (A * S).
#[export] Instance st_ret {S} : MRet (ST S) := fun A a s => Ok (a, s).
#[export] Instance st_bind {S} : MBind (ST S) := fun A B f m s =>
  match m s with
  | Ok (a, s') => f a s'
  | Panic e => Panic e
  | Fault => Fault
  | NoFuel => NoFuel
  end.
Definition st_get {S} : ST S S := fun s => Ok (s, s).
Definition st_put {S} (s : S) : ST S unit := fun _ => Ok (tt, s).
Definition st_panic {S A} (msg : string) : ST S A := fun _ => Panic msg.
Arguments st_panic {S A} msg%_string_scope.
Definition st_lift {S A} (m : outcome A) : ST S A := fun s =>
  match m with
  | Ok a => Ok (a, s)
  | Panic e => Panic e
  | Fault => Fault
  | NoFuel => NoFuel
  end.

(** Running the first statement of a program. *)
Lemma bind_ok {S A B} (m : ST S A) (f : A -> ST S B) s a s' : m s = Ok (a, s') -> (m ≫= f) s = f a s'.
Proof. intros E. unfold mbind, st_bind. rewrite E. reflexivity. Qed.
Lemma bind_panic {S A B} (m : ST S A) (f : A -> ST S B) s msg : m s = Panic msg -> (m ≫= f) s = Panic msg.
Proof. intros E. unfold mbind, st_bind. rewrite E. reflexivity. Qed.
Lemma bind_get {S B} (f : S -> ST S B) s : (st_get ≫= f) s = f s s.
Proof. reflexivity. Qed.
Lemma bind_lift {S A B} (m : outcome A) (f : A -> ST S B) s a : m = Ok a -> (st_lift m ≫= f) s = f a s.
Proof. intros ->. reflexivity. Qed.

Lemma bind_ext {S A B} (m : ST S A) (f g : A -> ST S B) s : (forall a s', m s = Ok (a, s') -> f a s' = g a s') -> (m ≫= f) s = (m ≫= g) s.
Proof. intros H. unfold mbind, st_bind. destruct (m s) as [[a s']| | |]; try reflexivity. apply H. reflexivity. Qed.

(** ** Automation *)

Create HintDb words.
Create HintDb xlinux.

(** Case analysis on the comparisons of the goal or of a hypothesis. *)
Ltac zcases :=
  repeat match goal with
  | |- context [Z.ltb ?a ?b] => destruct (Z.ltb_spec a b)
  | |- context [Z.leb ?a ?b] => destruct (Z.leb_spec a b)
  | |- context [Z.eqb ?a ?b] => destruct (Z.eqb_spec a b)
  end.
Ltac zcases_in H :=
  repeat match type of H with
  | context [Z.ltb ?a ?b] => destruct (Z.ltb_spec a b)
  | context [Z.leb ?a ?b] => destruct (Z.leb_spec a b)
  | context [Z.eqb ?a ?b] => destruct (Z.eqb_spec a b)
  end.

(** Bit-wise equality of two integers: [bits k Hk] leaves the goal on bit [k]. *)
Ltac bits k Hk :=
  apply Z.bits_inj'; intros k Hk;
  repeat rewrite ?Z.land_spec, ?Z.lor_spec, ?Z.lxor_spec,
                 ?Z.lnot_spec, ?Z.ldiff_spec, ?Z.shiftr_spec by lia.

(** ** Lemmas on words *)

Lemma u64_small x : is_u64 x -> u64 x = x.
Proof. unfold is_u64, u64. intros. apply Z.mod_small. lia. Qed.

Lemma u64_range x : is_u64 (u64 x).
Proof. unfold is_u64, u64. apply Z.mod_pos_bound. lia. Qed.
#[export] Hint Resolve u64_small u64_range : words.

Lemma s64_small x : - 2 ^ 63 <= x < 2 ^ 63 -> s64 x = x.
Proof. intros H. unfold s64. rewrite Z.mod_small by lia. lia. Qed.
Lemma s32_small x : - 2 ^ 31 <= x < 2 ^ 31 -> s32 x = x.
Proof. intros H. unfold s32. rewrite Z.mod_small by lia. lia. Qed.

Lemma u64_nonneg_lt x : 0 <= u64 x < 2 ^ 64.
Proof. apply u64_range. Qed.

Lemma testbit_ones n k : 0 <= n -> 0 <= k -> Z.testbit (2 ^ n - 1) k = (k <? n).
Proof.
  intros Hn Hk. replace (2 ^ n - 1) with (Z.ones n) by (rewrite Z.ones_equiv; lia).
  destruct (Z.ltb_spec k n).
  - apply Z.ones_spec_low. lia.
  - apply Z.ones_spec_high. lia.
Qed.

Lemma testbit_u64 x k : 0 <= k -> Z.testbit (u64 x) k = (k <? 64) && Z.testbit x k.
Proof.
  intros Hk. unfold u64. destruct (Z.ltb_spec k 64).
  - rewrite Z.mod_pow2_bits_low by lia. reflexivity.
  - rewrite Z.mod_pow2_bits_high by lia. reflexivity.
Qed.

Lemma testbit_is_u64 x k : is_u64 x -> 64 <= k -> Z.testbit x k = false.
Proof.
  intros Hx Hk. rewrite <- (u64_small x Hx), testbit_u64 by lia.
  destruct (Z.ltb_spec k 64); [lia | reflexivity].
Qed.

(** [~x] on the unsigned 64-bit type. *)
Lemma u64_lnot x : is_u64 x -> u64 (Z.lnot x) = 2 ^ 64 - 1 - x.
Proof.
  intros Hx. unfold u64, Z.lnot, is_u64 in *.
  replace (Z.pred (- x)) with (2 ^ 64 - 1 - x + (-1) * 2 ^ 64) by lia.
  rewrite Z.mod_add by lia. apply Z.mod_small. lia.
Qed.

(** [x & ~(2^k - 1)] rounds [x] down to a multiple of [2^k]. *)
Lemma land_not_ones x k : is_u64 x -> 0 <= k ->
  Z.land x (u64 (Z.lnot (2 ^ k - 1))) = x - x mod 2 ^ k.
Proof.
  intros Hx Hk.
  assert (Z.land x (u64 (Z.lnot (2 ^ k - 1))) = Z.ldiff x (Z.ones k)) as ->.
  { bits j Hj. rewrite testbit_u64, Z.lnot_spec, testbit_ones, Z.testbit_ones_nonneg by lia.
    destruct (Z.ltb_spec j 64); [reflexivity|].
    rewrite testbit_is_u64 by (assumption || lia). reflexivity. }
  rewrite Z.ldiff_ones_r, Z.shiftr_div_pow2, Z.shiftl_mul_pow2 by lia.
  pose proof (Z.div_mod x (2 ^ k)). lia.
Qed.

(** A sum of words without common bits is their bitwise or. *)
Lemma lor_add_disjoint a b : Z.land a b = 0 -> Z.lor a b = a + b.
Proof. intros D. pose proof (Z.add_lor_land a b). lia. Qed.

(** [x & (2^k - 1)] is the remainder. *)
Lemma land_ones_mod x k : 0 <= k -> Z.land x (2 ^ k - 1) = x mod 2 ^ k.
Proof.
  intros Hk. replace (2 ^ k - 1) with (Z.ones k) by (rewrite Z.ones_equiv; lia).
  apply Z.land_ones. assumption.
Qed.

Lemma land_nonneg_le x m : 0 <= x -> 0 <= m -> 0 <= Z.land x m <= x.
Proof.
  intros Hx Hm. split; [apply Z.land_nonneg; lia|].
  assert (x = Z.lor (Z.land x m) (Z.ldiff x m)) as E.
  { bits k Hk. destruct (Z.testbit x k), (Z.testbit m k); reflexivity. }
  assert (Z.land (Z.land x m) (Z.ldiff x m) = 0) as D.
  { bits k Hk. rewrite Z.bits_0. destruct (Z.testbit x k), (Z.testbit m k); reflexivity. }
  pose proof (Z.add_lor_land (Z.land x m) (Z.ldiff x m)) as S.
  rewrite D, <- E in S.
  assert (0 <= Z.ldiff x m) by (apply Z.ldiff_nonneg; lia). lia.
Qed.

Lemma mod_pow2_zero_bits x n : 0 <= n ->
  x mod 2 ^ n = 0 <-> forall k, 0 <= k < n -> Z.testbit x k = false.
Proof.
  intros Hn. split.
  - intros H k Hk. rewrite <- (Z.mod_pow2_bits_low x n k), H by lia. apply Z.bits_0.
  - intros H. apply Z.bits_inj'. intros k Hk. rewrite Z.bits_0.
    destruct (Z.lt_ge_cases k n).
    + rewrite Z.mod_pow2_bits_low by lia. apply H. lia.
    + apply Z.mod_pow2_bits_high. lia.
Qed.

Lemma pow2_pos k : 0 <= k -> 0 < 2 ^ k.
Proof. intros. apply Z.pow_pos_nonneg; lia. Qed.
#[export] Hint Resolve pow2_pos : words.

(** ** Lemmas on arrays *)

(** The array [l] has [x] at index [i]. *)
Definition at_ {A} (l : list A) (i : Z) (x : A) : Prop := 0 <= i /\ l !! Z.to_nat i = Some x.

Lemma at_aget {A} (l : list A) i x : at_ l i x -> aget l i = Ok x.
Proof. intros [H E]. unfold aget. destruct (Z.ltb_spec i 0); [lia|]. rewrite E. reflexivity. Qed.
Lemma at_in {A} (l : list A) i : 0 <= i < Z.of_nat (length l) -> exists x, at_ l i x.
Proof. intros H. destruct (lookup_lt_is_Some_2 l (Z.to_nat i)) as [x E]; [lia|]. exists x. split; [lia|exact E]. Qed.
Lemma aset_ok {A} (l : list A) i x : 0 <= i < Z.of_nat (length l) -> aset l i x = Ok (<[Z.to_nat i := x]> l).
Proof. intros H. unfold aset. destruct (Z.leb_spec 0 i), (Z.ltb_spec i (Z.of_nat (length l))); try lia. reflexivity. Qed.
Lemma at_set_eq {A} (l : list A) i x : 0 <= i < Z.of_nat (length l) -> at_ (<[Z.to_nat i := x]> l) i x.
Proof. intros H. split; [lia|]. apply list_lookup_insert_eq. lia. Qed.
Lemma at_set_ne {A} (l : list A) i j x y : 0 <= i -> i <> j -> at_ l j y -> at_ (<[Z.to_nat i := x]> l) j y.
Proof. intros Hi Hn [Hj E]. split; [exact Hj|]. rewrite list_lookup_insert_ne by lia. exact E. Qed.
Lemma at_fun {A} (l : list A) i x y : at_ l i x -> at_ l i y -> x = y.
Proof. intros [_ E1] [_ E2]. congruence. Qed.
Lemma at_range {A} (l : list A) i x : at_ l i x -> 0 <= i < Z.of_nat (length l).
Proof. intros [H E]. apply lookup_lt_Some in E. lia. Qed.
