(* ===== verification/Words.v ===== *)
(** * Word-level helpers of include/

    The macros and inline functions of [include/types.h], [include/kernel.h],
    [include/bits.h], [include/ffs.h], [include/log2.h], [include/hash.h],
    [include/page.h] and [include/word-at-a-time.h] that the components use:
    comparisons, alignment, bit search, logarithms, hashing, page-frame
    arithmetic and the zero-byte detection of the string routines.  Each
    optimised routine is proved equal to its mathematical reading. *)

From Stdlib Require Import ZArith Lia.
From stdpp Require Import base tactics numbers list.
From S2P Require Import Prelude.

(** ** include/types.h *)

Definition min (a b : Z) : Z := if a <? b then a else b.
Definition max (a b : Z) : Z := if a >? b then a else b.
Definition clamp (val lo hi : Z) : Z := min (max val lo) hi.

(** [_ALIGN(x, a)] and [_ALIGN_DOWN(x, a)] at type [unsigned long]. *)
Definition _ALIGN_MASK (x mask : Z) : Z := (((x +u mask) &u (~u mask)))%W.
Definition _ALIGN (x a : Z) : Z := _ALIGN_MASK x (a -u 1)%W.
Definition _ALIGN_DOWN (x a : Z) : Z := _ALIGN (x -u (a -u 1))%W a.
Definition IS_ALIGNED (x a : Z) : bool := (x &u (a -u 1))%W =? 0.

Definition swab32 (x : Z) : Z :=
  let x := u32 x in
  u32 (Z.lor (Z.lor (Z.lor (Z.shiftl (Z.land x 0xff) 24)
                           (Z.shiftl (Z.land x 0xff00) 8))
                    (Z.shiftr (Z.land x 0xff0000) 8))
             (Z.shiftr (Z.land x 0xff000000) 24)).

(** ** include/kernel.h *)

Definition round_down (x y : Z) : Z := (x &u (~u (y -u 1)))%W.
Definition round_up (x y : Z) : Z := (((x -u 1) |u (y -u 1)) +u 1)%W.

Definition REPEAT_BYTE (x : Z) : Z := u64 ((2 ^ 64 - 1) / 0xff * x).

Definition MAX_ERRNO : Z := 4095.
Definition IS_ERR_VALUE (x : Z) : bool := u64 (- MAX_ERRNO) <=? x.

(** ** include/bits.h *)

Definition BITS_PER_LONG : Z := 64.
Definition BIT_MASK (nr : Z) : Z := (1 <<u (nr mod BITS_PER_LONG))%W.
Definition BIT_WORD (nr : Z) : Z := nr / BITS_PER_LONG.
Definition DIV_ROUND_UP (n d : Z) : Z := ((n +u d) -u 1)%W / d.

(** ** include/page.h *)

Definition PAGE_SHIFT : Z := 12.
Definition PAGE_SIZE : Z := 2 ^ PAGE_SHIFT.
Definition PAGE_ALIGN (addr : Z) : Z := _ALIGN addr PAGE_SIZE.
Definition PFN_UP (x : Z) : Z := (((x +u PAGE_SIZE) -u 1) >>u PAGE_SHIFT)%W.
Definition PFN_DOWN (x : Z) : Z := (x >>u PAGE_SHIFT)%W.
Definition PFN_PHYS (x : Z) : Z := (x <<u PAGE_SHIFT)%W.

(** ** include/log2.h *)

Definition is_power_of_2 (n : Z) : bool :=
  negb (n =? 0) && ((n &u (n -u 1))%W =? 0).

(** One step of the binary search in [__ffs]: if the low [w] bits are clear,
    count them and shift them out. *)
Definition ffs_step (w : Z) (p : Z * Z) : Z * Z :=
  let '(num, word) := p in
  if Z.land word (2 ^ w - 1) =? 0 then (num + w, Z.shiftr word w) else (num, word).

Definition __ffs (word : Z) : Z :=
  let '(num, word) :=
    ffs_step 2 (ffs_step 4 (ffs_step 8 (ffs_step 16 (ffs_step 32 (0, word))))) in
  if Z.land word 1 =? 0 then num + 1 else num.

(** One step of [__fls] on a word of [n] bits: if the top [w] bits are clear,
    discount them and shift them out. *)
Definition fls_step (n w : Z) (p : Z * Z) : Z * Z :=
  let '(num, word) := p in
  if Z.land word ((2 ^ w - 1) * 2 ^ (n - w)) =? 0
  then (num - w, Z.shiftl word w mod 2 ^ n) else (num, word).

Definition fls (x : Z) : Z :=
  if x =? 0 then 0 else
  let '(r, x) :=
    fls_step 32 2 (fls_step 32 4 (fls_step 32 8 (fls_step 32 16 (32, x)))) in
  if Z.land x 0x80000000 =? 0 then r - 1 else r.

Definition __fls (word : Z) : Z :=
  let '(num, word) :=
    fls_step 64 2 (fls_step 64 4 (fls_step 64 8 (fls_step 64 16
      (fls_step 64 32 (BITS_PER_LONG - 1, word))))) in
  if Z.land word (2 ^ 63) =? 0 then num - 1 else num.

Definition fls64 (x : Z) : Z := if x =? 0 then 0 else __fls x + 1.
Definition fls_long (l : Z) : Z := fls64 l.
Definition __ilog2_u32 (n : Z) : Z := fls n - 1.
Definition __ilog2_u64 (n : Z) : Z := fls64 n - 1.

Definition get_count_order_long (l : Z) : Z :=
  if l =? 0 then -1
  else if negb ((l &u (l -u 1))%W =? 0) then fls_long l
  else fls_long l - 1.

(** The run-time branch of [get_order] (the argument is no compile-time
    constant). *)
Definition get_order (size : Z) : Z := fls64 (Z.shiftr (u64 (size - 1)) PAGE_SHIFT).

Definition __roundup_pow_of_two (n : Z) : Z := (1 <<u (fls_long (u64 (n - 1))))%W.
Definition __rounddown_pow_of_two (n : Z) : Z := (1 <<u (fls_long n - 1))%W.

(** ** include/ffs.h *)

(** [ffs] works on an [int]; [>>] on a negative [int] is arithmetic. *)
Definition ffs (x : Z) : Z :=
  if x =? 0 then 0 else
  let '(r, x) :=
    ffs_step 2 (ffs_step 4 (ffs_step 8 (ffs_step 16 (1, x)))) in
  if Z.land x 1 =? 0 then r + 1 else r.

(** ** include/hash.h *)

Definition GOLDEN_RATIO_32 : Z := 0x61C88647.
Definition GOLDEN_RATIO_64 : Z := 0x61C8864680B583EB.
Definition hash_64 (val bits : Z) : Z :=
  u32 (Z.shiftr (u64 (val * GOLDEN_RATIO_64)) (64 - bits)).
Definition hash_32 (val bits : Z) : Z :=
  Z.shiftr (u32 (val * GOLDEN_RATIO_32)) (32 - bits).

(** ** include/word-at-a-time.h *)

Definition one_bits : Z := REPEAT_BYTE 0x01.
Definition high_bits : Z := REPEAT_BYTE 0x80.
Definition has_zero (val : Z) : Z :=
  (((val -u one_bits) &u (~u val)) &u high_bits)%W.
Definition prep_zero_mask (val bits : Z) : Z := bits.
Definition create_zero_mask (bits : Z) : Z :=
  ((((bits -u 1) &u (~u bits))) >>u 7)%W.
Definition find_zero (mask : Z) : Z := Z.shiftr (fls64 mask) 3.

Example words_ex :
  [__ffs 40; __fls 40; fls 40; ffs 40; get_order 4097; get_order 4096;
   _ALIGN 4097 4096; round_up 4097 4096; swab32 0x11223344; get_count_order_long 5;
   find_zero (create_zero_mask (has_zero 0x1122330011))]
  = [3; 5; 6; 4; 1; 0; 8192; 8192; 0x44332211; 3; 1].
Proof. vm_compute. reflexivity. Qed.

(** ** Alignment *)

Lemma min_spec a b : min a b = Z.min a b.
Proof. unfold min. zcases; lia. Qed.

Lemma max_spec a b : max a b = Z.max a b.
Proof. unfold max. rewrite Z.gtb_ltb. zcases; lia. Qed.

Lemma clamp_spec v lo hi : clamp v lo hi = Z.min (Z.max v lo) hi.
Proof. unfold clamp. rewrite min_spec, max_spec. reflexivity. Qed.

Lemma u64_pow2_pred k : 0 <= k < 64 -> u64 (2 ^ k - 1) = 2 ^ k - 1.
Proof.
  intros Hk. apply u64_small. unfold is_u64.
  pose proof (pow2_pos k). pose proof (Z.pow_lt_mono_r 2 k 64). lia.
Qed.

Lemma round_down_spec x k : is_u64 x -> 0 <= k < 64 ->
  round_down x (2 ^ k) = x - x mod 2 ^ k.
Proof.
  intros Hx Hk. unfold round_down. rewrite u64_pow2_pred by lia.
  apply land_not_ones; [assumption | lia].
Qed.

Lemma _ALIGN_spec x k : is_u64 x -> 0 <= k < 64 -> x + 2 ^ k - 1 < 2 ^ 64 ->
  _ALIGN x (2 ^ k) = (x + 2 ^ k - 1) - (x + 2 ^ k - 1) mod 2 ^ k.
Proof.
  intros Hx Hk Hov. unfold _ALIGN, _ALIGN_MASK.
  rewrite u64_pow2_pred by lia. pose proof (pow2_pos k).
  unfold is_u64 in Hx.
  assert (is_u64 (x + (2 ^ k - 1))) as Hu by (unfold is_u64; lia).
  rewrite (u64_small _ Hu), land_not_ones by (assumption || lia).
  f_equal; [|f_equal]; lia.
Qed.

(** Rounding to a multiple of a power of two: the result of [_ALIGN] is the
    least multiple of [2^k] at or above [x]. *)
Lemma _ALIGN_least x k : is_u64 x -> 0 <= k < 64 -> x + 2 ^ k - 1 < 2 ^ 64 ->
  _ALIGN x (2 ^ k) mod 2 ^ k = 0 /\ x <= _ALIGN x (2 ^ k) < x + 2 ^ k.
Proof.
  intros Hx Hk Hov. rewrite _ALIGN_spec by assumption.
  pose proof (pow2_pos k). set (p := 2 ^ k) in *.
  pose proof (Z.mod_pos_bound (x + p - 1) p).
  pose proof (Z.div_mod (x + p - 1) p). split; [|lia].
  replace (_ - _) with (0 + ((x + p - 1) / p) * p) by lia.
  rewrite Z.mod_add by lia. apply Z.mod_0_l. lia.
Qed.

(** ** Bit search *)

(** [lowest_bit w n]: bit [n] of [w] is set and no lower bit is. *)
Definition lowest_bit (w n : Z) : Prop :=
  0 <= n /\ Z.testbit w n = true /\ forall k, 0 <= k < n -> Z.testbit w k = false.

(** What a step of [__ffs] keeps: the sum of the count and of the lowest set
    bit's position; and it halves the range of that position. *)
Lemma ffs_step_spec w num word n : 0 <= w -> lowest_bit word n -> n < 2 * w ->
  let '(num', word') := ffs_step w (num, word) in
  lowest_bit word' (num + n - num') /\ num + n - num' < w.
Proof.
  intros Hw (Hn0 & Hn1 & Hn2) Hlt. unfold ffs_step.
  rewrite land_ones_mod by assumption.
  destruct (Z.eqb_spec (word mod 2 ^ w) 0) as [Z0|NZ].
  - rewrite mod_pow2_zero_bits in Z0 by assumption.
    assert (w <= n) by (destruct (Z.lt_ge_cases n w); [rewrite Z0 in Hn1 by lia; discriminate | lia]).
    split; [|lia]. split; [lia|]. rewrite Z.shiftr_spec by lia.
    replace (num + n - (num + w) + w) with n by lia. split; [assumption|].
    intros k Hk. rewrite Z.shiftr_spec by lia. apply Hn2. lia.
  - replace (num + n - num) with n by lia. split; [repeat split; assumption|].
    destruct (Z.lt_ge_cases n w); [assumption|]. exfalso. apply NZ.
    apply mod_pow2_zero_bits; [assumption|]. intros k Hk. apply Hn2. lia.
Qed.

Lemma lowest_bit_exists w : is_u64 w -> w <> 0 -> exists n, lowest_bit w n /\ n < 64.
Proof.
  intros Hw Hnz.
  assert (forall m, 0 <= m -> (forall k, 0 <= k < m -> Z.testbit w k = false) \/
                     exists n, lowest_bit w n /\ n < m) as H.
  { apply natlike_ind; [left; lia|]. intros m Hm [Hnone|(n & Hn & Hlt)].
    - destruct (Z.testbit w m) eqn:E.
      + right. exists m. repeat split; auto; lia.
      + left. intros k Hk. destruct (Z.eq_dec k m) as [->|]; [assumption|apply Hnone; lia].
    - right. exists n. split; [assumption|lia]. }
  destruct (H 64 ltac:(lia)) as [Hnone|?]; [|assumption].
  exfalso. apply Hnz. apply Z.bits_inj'. intros k Hk. rewrite Z.bits_0.
  destruct (Z.lt_ge_cases k 64); [apply Hnone; lia | apply testbit_is_u64; [assumption|lia]].
Qed.

Lemma lowest_bit_unique w n m : lowest_bit w n -> lowest_bit w m -> n = m.
Proof.
  intros (A & B & C) (A' & B' & C').
  destruct (Z.lt_trichotomy n m) as [H|[H|H]]; [|assumption|].
  - rewrite C' in B by lia. discriminate.
  - rewrite C in B' by lia. discriminate.
Qed.

Ltac ffs_steps n :=
  repeat match goal with
  | H : lowest_bit ?word ?m |- context [ffs_step ?w (?num, ?word)] =>
      let H1 := fresh "L" in let H2 := fresh "B" in
      pose proof (ffs_step_spec w num word m ltac:(lia) H ltac:(lia)) as H1;
      destruct (ffs_step w (num, word)) as [? ?];
      destruct H1 as [H1 H2]; clear H
  end.

Lemma ffs_last word num n : lowest_bit word (n - num) -> n - num < 2 ->
  (if Z.land word 1 =? 0 then num + 1 else num) = n.
Proof.
  intros (A & B & C) Hlt. change 1 with (2 ^ 1 - 1) at 1. rewrite land_ones_mod by lia.
  change (2 ^ 1) with 2. rewrite Zmod_odd, <- Z.bit0_odd.
  destruct (Z.testbit word 0) eqn:E; simpl.
  - destruct (Z.eq_dec (n - num) 0); [lia|]. rewrite C in E by lia. discriminate.
  - destruct (Z.eq_dec (n - num) 0) as [H0|]; [rewrite H0 in B; congruence | lia].
Qed.

Lemma __ffs_lowest word : is_u64 word -> word <> 0 ->
  lowest_bit word (__ffs word) /\ __ffs word < 64.
Proof.
  intros Hw Hnz. destruct (lowest_bit_exists word Hw Hnz) as (n & Hn & Hlt).
  enough (__ffs word = n) as -> by auto. unfold __ffs. pose proof Hn as Hk.
  ffs_steps n. apply ffs_last; [|lia].
  eapply eq_rect; [eassumption|]. lia.
Qed.

Lemma top_bits_clear n w word : 0 <= w <= n -> 0 <= word < 2 ^ n ->
  Z.land word ((2 ^ w - 1) * 2 ^ (n - w)) = 0 <-> word < 2 ^ (n - w).
Proof.
  intros Hw Hword.
  assert (Z.land word ((2 ^ w - 1) * 2 ^ (n - w)) = (word / 2 ^ (n - w)) * 2 ^ (n - w)) as ->.
  { rewrite <- Z.shiftl_mul_pow2 by lia.
    rewrite <- Z.shiftr_div_pow2, <- (Z.shiftl_mul_pow2 (Z.shiftr _ _)) by lia.
    bits k Hk. destruct (Z.lt_ge_cases k (n - w)).
    - rewrite !Z.shiftl_spec_low by lia. apply andb_false_r.
    - rewrite !Z.shiftl_spec_high, Z.shiftr_spec, testbit_ones by lia.
      replace (k - (n - w) + (n - w)) with k by lia.
      destruct (Z.ltb_spec (k - (n - w)) w); [apply andb_true_r|].
      assert (Z.testbit word k = false) as ->; [|reflexivity].
      destruct (Z.eq_dec word 0) as [->|]; [apply Z.bits_0|].
      assert (Z.log2 word < n) by (apply Z.log2_lt_pow2; lia).
      apply Z.bits_above_log2; lia. }
  pose proof (pow2_pos (n - w) ltac:(lia)) as Hp. split.
  - intros H. pose proof (Z.div_mod word (2 ^ (n - w))).
    pose proof (Z.mod_pos_bound word (2 ^ (n - w))). nia.
  - intros H. rewrite Z.div_small by lia. reflexivity.
Qed.

(** A step of [__fls] keeps the count plus the logarithm, and halves the
    distance of the logarithm from the word's top. *)
Lemma fls_step_spec n w num word : 0 <= w -> 2 * w <= n -> 0 < word < 2 ^ n ->
  n - 2 * w <= Z.log2 word ->
  let '(num', word') := fls_step n w (num, word) in
  0 < word' < 2 ^ n /\ n - w <= Z.log2 word' /\ num' + Z.log2 word' = num + Z.log2 word.
Proof.
  intros Hw Hwn Hword Hlog. unfold fls_step.
  destruct (Z.eqb_spec (Z.land word ((2 ^ w - 1) * 2 ^ (n - w))) 0) as [E|E];
    rewrite top_bits_clear in E by lia.
  - assert (0 < word * 2 ^ w < 2 ^ n) as Hb.
    { pose proof (pow2_pos w Hw). replace (2 ^ n) with (2 ^ (n - w) * 2 ^ w); [nia|].
      rewrite <- Z.pow_add_r by lia. f_equal. lia. }
    rewrite Z.shiftl_mul_pow2, Z.mod_small by lia.
    rewrite Z.log2_mul_pow2 by lia. lia.
  - assert (n - w <= Z.log2 word) by (apply Z.log2_le_pow2; lia). lia.
Qed.

Lemma fls_last n word num : 1 <= n -> 0 < word < 2 ^ n -> n - 2 <= Z.log2 word ->
  (if Z.land word (2 ^ (n - 1)) =? 0 then num - 1 else num) = num + Z.log2 word - (n - 1).
Proof.
  intros Hn Hword Hlog.
  replace (2 ^ (n - 1)) with ((2 ^ 1 - 1) * 2 ^ (n - 1)) by lia.
  assert (Z.log2 word < n) by (apply Z.log2_lt_pow2; lia).
  destruct (Z.eqb_spec (Z.land word ((2 ^ 1 - 1) * 2 ^ (n - 1))) 0) as [E|E];
    rewrite top_bits_clear in E by lia.
  - assert (Z.log2 word < n - 1) by (apply Z.log2_lt_pow2; lia). lia.
  - assert (n - 1 <= Z.log2 word) by (apply Z.log2_le_pow2; lia). lia.
Qed.

Ltac fls_steps n :=
  repeat match goal with
  | H : 0 < ?word < 2 ^ n, H' : _ <= Z.log2 ?word
    |- context [fls_step n ?w (?num, ?word)] =>
      let H1 := fresh "W" in let H2 := fresh "B" in let H3 := fresh "E" in
      pose proof (fls_step_spec n w num word ltac:(lia) ltac:(lia) H ltac:(lia)) as H1;
      destruct (fls_step n w (num, word)) as [? ?];
      destruct H1 as (H1 & H2 & H3); clear H H'
  end.

Lemma __fls_log2 word : 0 < word < 2 ^ 64 -> __fls word = Z.log2 word.
Proof.
  intros Hw. unfold __fls, BITS_PER_LONG. pose proof Hw as Hw'.
  pose proof (Z.log2_nonneg word) as Hl. change 0 with (64 - 2 * 32) in Hl.
  fls_steps 64. change (2 ^ 63) with (2 ^ (64 - 1)). rewrite fls_last by lia. lia.
Qed.

Lemma fls64_log2 x : is_u64 x -> fls64 x = if x =? 0 then 0 else Z.log2 x + 1.
Proof.
  intros Hx. unfold fls64, is_u64 in *. destruct (Z.eqb_spec x 0); [reflexivity|].
  rewrite __fls_log2 by lia. reflexivity.
Qed.

Lemma fls_log2 x : 0 <= x < 2 ^ 32 -> fls x = if x =? 0 then 0 else Z.log2 x + 1.
Proof.
  intros Hx. unfold fls. destruct (Z.eqb_spec x 0); [reflexivity|].
  assert (0 < x < 2 ^ 32) as Hw by lia. pose proof Hw as Hw'.
  pose proof (Z.log2_nonneg x) as Hl. change 0 with (32 - 2 * 16) in Hl.
  fls_steps 32. change 0x80000000 with (2 ^ (32 - 1)). rewrite fls_last by lia. lia.
Qed.

(** ** Orders and powers of two *)

(** The allocation order of a size: the least [o] with [size <= 2^o] pages. *)
Lemma get_order_spec size : 0 < size < 2 ^ 64 ->
  let o := get_order size in
  0 <= o <= 52 /\ size <= 2 ^ o * PAGE_SIZE /\ (o = 0 \/ 2 ^ (o - 1) * PAGE_SIZE < size).
Proof.
  intros Hs. unfold get_order, PAGE_SIZE, PAGE_SHIFT.
  rewrite u64_small by (unfold is_u64; lia). rewrite Z.shiftr_div_pow2 by lia.
  set (q := (size - 1) / 2 ^ 12).
  assert (2 ^ 12 * q <= size - 1 < 2 ^ 12 * q + 2 ^ 12) as Hq.
  { pose proof (Z.div_mod (size - 1) (2 ^ 12)).
    pose proof (Z.mod_pos_bound (size - 1) (2 ^ 12)). unfold q. lia. }
  rewrite fls64_log2 by (unfold is_u64; lia).
  destruct (Z.eqb_spec q 0); [simpl; lia|].
  pose proof (Z.log2_spec q ltac:(lia)) as Hl. pose proof (Z.log2_nonneg q).
  assert (Z.log2 q < 52) by (apply Z.log2_lt_pow2; lia).
  rewrite <- Z.add_1_r in Hl.
  replace (Z.log2 q + 1 - 1) with (Z.log2 q) by lia. lia.
Qed.

Lemma __roundup_pow_of_two_spec n : 1 <= n <= 2 ^ 63 ->
  exists k, __roundup_pow_of_two n = 2 ^ k /\ 0 <= k /\ n <= 2 ^ k /\ (n = 1 \/ 2 ^ k < 2 * n).
Proof.
  intros Hn. unfold __roundup_pow_of_two, fls_long.
  rewrite (u64_small (n - 1)) by (unfold is_u64; lia).
  rewrite fls64_log2 by (unfold is_u64; lia).
  destruct (Z.eqb_spec (n - 1) 0).
  - exists 0. rewrite Z.shiftl_mul_pow2 by lia. change (u64 (1 * 2 ^ 0)) with 1. lia.
  - pose proof (Z.log2_spec (n - 1) ltac:(lia)) as Hl. pose proof (Z.log2_nonneg (n - 1)).
    assert (Z.log2 (n - 1) < 63) by (apply Z.log2_lt_pow2; lia).
    exists (Z.log2 (n - 1) + 1). rewrite Z.shiftl_mul_pow2, Z.mul_1_l by lia.
    rewrite <- Z.add_1_r in Hl. pose proof (Z.pow_lt_mono_r 2 (Z.log2 (n - 1) + 1) 64).
    rewrite u64_small by (unfold is_u64; lia).
    rewrite Z.pow_add_r in * by lia. lia.
Qed.

Lemma is_power_of_2_spec n : is_u64 n ->
  is_power_of_2 n = true <-> exists k, 0 <= k < 64 /\ n = 2 ^ k.
Proof.
  intros Hn. unfold is_power_of_2. split.
  - intros [Hnz Hl]%andb_true_iff. apply negb_true_iff, Z.eqb_neq in Hnz.
    apply Z.eqb_eq in Hl. unfold is_u64 in Hn.
    rewrite u64_small in Hl by (unfold is_u64; lia).
    exists (Z.log2 n). pose proof (Z.log2_nonneg n).
    split; [split; [lia|apply Z.log2_lt_pow2; lia]|].
    pose proof (Z.log2_spec n ltac:(lia)) as [H1 _].
    destruct (Z.eq_dec n (2 ^ Z.log2 n)) as [|Hne]; [assumption|exfalso].
    assert (Z.log2 (n - 1) = Z.log2 n) as E.
    { apply Z.log2_unique; [lia|]. pose proof (Z.log2_spec n). lia. }
    assert (Z.testbit (Z.land n (n - 1)) (Z.log2 n) = true) as Hb.
    { rewrite Z.land_spec, Z.bit_log2 by lia. simpl. rewrite <- E. apply Z.bit_log2.
      pose proof (pow2_pos (Z.log2 n)). lia. }
    rewrite Hl, Z.bits_0 in Hb. discriminate.
  - intros (k & Hk & ->). pose proof (pow2_pos k). apply andb_true_iff. split.
    + apply negb_true_iff, Z.eqb_neq. lia.
    + rewrite u64_pow2_pred, land_ones_mod by lia. rewrite Z.mod_same by lia. reflexivity.
Qed.

(** ** Zero bytes in a word *)

Definition byte_of (w i : Z) : Z := (w / 2 ^ (8 * i)) mod 256.

Lemma byte_shift w i : 0 <= i -> w / 2 ^ (8 * (i + 1)) = (w / 2 ^ (8 * i)) / 256.
Proof.
  intros Hi. rewrite Z.div_div by lia. f_equal.
  change 256 with (2 ^ 8). rewrite <- Z.pow_add_r by lia. f_equal. lia.
Qed.

(** While the bytes below [i] are not zero, subtracting [0x0101...] borrows
    nothing from byte [i] on. *)
Lemma sub_ones_no_borrow w i : 0 <= i ->
  (forall j, 0 <= j < i -> byte_of w j <> 0 /\ byte_of one_bits j = 1) ->
  (w - one_bits) / 2 ^ (8 * i) = w / 2 ^ (8 * i) - one_bits / 2 ^ (8 * i).
Proof.
  revert i. apply (natlike_ind (fun i => (_ : Prop) -> _)).
  - intros _. rewrite !Z.div_1_r. reflexivity.
  - intros i Hi IH Hb. rewrite <- Z.add_1_r, !byte_shift, IH by (lia || (intros; apply Hb; lia)).
    destruct (Hb i ltac:(lia)) as [Hn H1]. unfold byte_of in *.
    set (q := w / 2 ^ (8 * i)) in *. set (r := one_bits / 2 ^ (8 * i)) in *.
    pose proof (Z.div_mod q 256). pose proof (Z.div_mod r 256).
    pose proof (Z.mod_pos_bound q 256). symmetry.
    apply Z.div_unique with (q mod 256 - 1); lia.
Qed.

Lemma one_bits_byte i : 0 <= i < 8 -> byte_of one_bits i = 1.
Proof.
  intros Hi. assert (i = 0 \/ i = 1 \/ i = 2 \/ i = 3 \/ i = 4 \/ i = 5 \/ i = 6 \/ i = 7)
    as C by lia. destruct_or! C; subst; vm_compute; reflexivity.
Qed.

Lemma high_bits_bit k : 0 <= k < 64 -> Z.testbit high_bits k = (k mod 8 =? 7).
Proof.
  intros Hk. rewrite <- (Z2Nat.id k) by lia.
  assert (forallb (fun k => eqb (Z.testbit high_bits (Z.of_nat k)) (Z.of_nat k mod 8 =? 7))
            (seq 0 64) = true) as H by (vm_compute; reflexivity).
  rewrite forallb_forall in H. apply eqb_prop, H, in_seq. lia.
Qed.

Lemma testbit7_byte w i : 0 <= i -> Z.testbit w (8 * i + 7) = Z.testbit (byte_of w i) 7.
Proof.
  intros Hi. unfold byte_of. change 256 with (2 ^ 8).
  rewrite Z.mod_pow2_bits_low, <- Z.shiftr_div_pow2, Z.shiftr_spec by lia. f_equal. lia.
Qed.

Lemma byte_pred_bit7 b : 0 <= b < 256 ->
  Z.testbit ((b - 1) mod 256) 7 && negb (Z.testbit b 7) = (b =? 0).
Proof.
  intros Hb. rewrite <- (Z2Nat.id b) by lia.
  assert (forallb (fun n => let b := Z.of_nat n in
            eqb (Z.testbit ((b - 1) mod 256) 7 && negb (Z.testbit b 7)) (b =? 0))
            (seq 0 256) = true) as H by (vm_compute; reflexivity).
  rewrite forallb_forall in H. apply eqb_prop, (H (Z.to_nat b)), in_seq. lia.
Qed.

Lemma has_zero_bit w i : is_u64 w -> 0 <= i < 8 ->
  (forall j, 0 <= j < i -> byte_of w j <> 0) ->
  Z.testbit (has_zero w) (8 * i + 7) = (byte_of w i =? 0).
Proof.
  intros Hw Hi Hb. unfold has_zero.
  rewrite !Z.land_spec, !testbit_u64, Z.lnot_spec, high_bits_bit by lia.
  replace ((8 * i + 7) mod 8) with 7 by (rewrite Z.add_comm, Z.mul_comm, Z.mod_add by lia; reflexivity).
  rewrite Z.eqb_refl, andb_true_r. destruct (Z.ltb_spec (8 * i + 7) 64); [|lia].
  rewrite !andb_true_l, (testbit7_byte (w - one_bits)), (testbit7_byte w) by lia.
  unfold byte_of at 1. rewrite sub_ones_no_borrow by
    (lia || (intros j Hj; split; [apply Hb; lia | apply one_bits_byte; lia])).
  rewrite Zminus_mod. fold (byte_of w i) (byte_of one_bits i).
  rewrite one_bits_byte by lia.
  apply byte_pred_bit7. unfold byte_of. apply Z.mod_pos_bound. lia.
Qed.

Lemma high_bits_range : is_u64 high_bits.
Proof. split; [discriminate | reflexivity]. Qed.

Lemma has_zero_other_bits w k : 0 <= k -> k mod 8 <> 7 -> Z.testbit (has_zero w) k = false.
Proof.
  intros Hk Hm. unfold has_zero. rewrite Z.land_spec. destruct (Z.lt_ge_cases k 64).
  - rewrite high_bits_bit by lia. apply Z.eqb_neq in Hm. rewrite Hm. apply andb_false_r.
  - rewrite (testbit_is_u64 high_bits k high_bits_range) by lia. apply andb_false_r.
Qed.

Lemma has_zero_range w : is_u64 (has_zero w).
Proof.
  unfold has_zero. set (y := Z.land (u64 (w - one_bits)) (u64 (Z.lnot w))).
  pose proof high_bits_range as [Hh1 Hh2].
  assert (0 <= y) by (apply Z.land_nonneg; left; apply u64_range).
  pose proof (land_nonneg_le high_bits y Hh1 ltac:(assumption)).
  rewrite Z.land_comm. unfold is_u64. lia.
Qed.

(** The mask of bits below the lowest set bit, and the byte it points to. *)
Lemma zero_mask_lowest m n : is_u64 m -> lowest_bit m n -> n < 64 ->
  Z.land (u64 (m - 1)) (u64 (Z.lnot m)) = 2 ^ n - 1.
Proof.
  intros Hm (Hn & Hb & Hlow) Hlt.
  assert (m <> 0) by (intros ->; rewrite Z.bits_0 in Hb; discriminate).
  unfold is_u64 in Hm. rewrite (u64_small (m - 1)) by (unfold is_u64; lia).
  assert (m mod 2 ^ n = 0) as Hmod by (apply mod_pow2_zero_bits; [lia|exact Hlow]).
  pose proof (pow2_pos n Hn) as Hp.
  assert (m = 2 ^ n * (m / 2 ^ n)) as Hq by (pose proof (Z.div_mod m (2 ^ n)); lia).
  assert (Z.testbit (m / 2 ^ n) 0 = true) as Hodd.
  { rewrite <- Z.shiftr_div_pow2, Z.shiftr_spec by lia. exact Hb. }
  set (q := m / 2 ^ n) in *.
  assert (m - 1 = (q - 1) * 2 ^ n + (2 ^ n - 1)) as E by lia.
  bits k Hk. rewrite testbit_u64, Z.lnot_spec, testbit_ones by lia.
  destruct (Z.lt_ge_cases k n).
  - rewrite (Hlow k) by lia. destruct (Z.ltb_spec k 64), (Z.ltb_spec k n); try lia.
    simpl. rewrite andb_true_r, E, <- (Z.mod_pow2_bits_low _ n) by lia.
    rewrite Z.add_comm, Z.mod_add, Z.mod_small, testbit_ones by lia.
    destruct (Z.ltb_spec k n); [reflexivity|lia].
  - destruct (Z.ltb_spec k n); [lia|].
    assert (Z.testbit (m - 1) k = Z.testbit (q - 1) (k - n)) as ->.
    { rewrite E. replace k with (k - n + n) at 1 by lia.
      rewrite <- Z.shiftr_spec, Z.shiftr_div_pow2, Z.add_comm, Z.div_add, Z.div_small by lia.
      reflexivity. }
    assert (Z.testbit m k = Z.testbit q (k - n)) as ->.
    { unfold q. rewrite <- Z.shiftr_div_pow2, Z.shiftr_spec by lia. f_equal. lia. }
    destruct (Z.ltb_spec k 64); [|apply andb_false_r]. simpl.
    destruct (Z.eq_dec k n) as [->|].
    + replace (n - n) with 0 by lia. rewrite Hodd. apply andb_false_r.
    + rewrite Z.bit0_odd, Z.odd_spec in Hodd. destruct Hodd as [t Ht].
      replace (k - n) with (Z.succ (k - n - 1)) by lia.
      replace (q - 1) with (2 * t) by lia. rewrite Ht.
      rewrite Z.testbit_even_succ, Z.testbit_odd_succ by lia. apply andb_negb_r.
Qed.

Lemma find_zero_ones i : 0 <= i < 8 ->
  find_zero (Z.shiftr (2 ^ (8 * i + 7) - 1) 7) = i.
Proof.
  intros Hi. assert (i = 0 \/ i = 1 \/ i = 2 \/ i = 3 \/ i = 4 \/ i = 5 \/ i = 6 \/ i = 7)
    as C by lia. destruct_or! C; subst; vm_compute; reflexivity.
Qed.

Lemma has_zero_lowest w i : is_u64 w -> 0 <= i < 8 ->
  (forall j, 0 <= j < i -> byte_of w j <> 0) -> byte_of w i = 0 ->
  lowest_bit (has_zero w) (8 * i + 7).
Proof.
  intros Hw Hi Hb H0. split; [lia|]. split.
  - rewrite has_zero_bit, H0 by assumption. reflexivity.
  - intros k Hk. destruct (Z.eq_dec (k mod 8) 7) as [E|E]; [|apply has_zero_other_bits; lia].
    assert (k = 8 * (k / 8) + 7) as -> by (pose proof (Z.div_mod k 8); lia).
    pose proof (Z.div_pos k 8). pose proof (Z.div_mod k 8).
    rewrite has_zero_bit by (try assumption; intros; try apply Hb; lia).
    apply Z.eqb_neq. apply Hb. lia.
Qed.

(** Zero-byte detection on a word: [has_zero] is 0 exactly when no byte of the
    word is zero, and otherwise [find_zero] of the mask is the index of the
    first (lowest) zero byte. *)
Lemma first_zero_byte w i : is_u64 w -> 0 <= i < 8 ->
  (forall j, 0 <= j < i -> byte_of w j <> 0) -> byte_of w i = 0 ->
  has_zero w <> 0 /\
  find_zero (create_zero_mask (prep_zero_mask w (has_zero w))) = i.
Proof.
  intros Hw Hi Hb H0. pose proof (has_zero_lowest w i Hw Hi Hb H0) as Hl. split.
  - intros E. destruct Hl as (_ & B & _). rewrite E, Z.bits_0 in B. discriminate.
  - unfold create_zero_mask, prep_zero_mask.
    rewrite (zero_mask_lowest _ (8 * i + 7)) by (auto using has_zero_range; lia).
    apply find_zero_ones. assumption.
Qed.

Lemma no_zero_byte w : is_u64 w -> (forall j, 0 <= j < 8 -> byte_of w j <> 0) -> has_zero w = 0.
Proof.
  intros Hw Hb. apply Z.bits_inj'. intros k Hk. rewrite Z.bits_0.
  destruct (Z.lt_ge_cases k 64); [|apply testbit_is_u64; [apply has_zero_range|lia]].
  destruct (Z.eq_dec (k mod 8) 7) as [E|E]; [|apply has_zero_other_bits; lia].
  assert (k = 8 * (k / 8) + 7) as -> by (pose proof (Z.div_mod k 8); lia).
  pose proof (Z.div_pos k 8). pose proof (Z.div_mod k 8).
  rewrite has_zero_bit by (try assumption; intros; try apply Hb; lia).
  apply Z.eqb_neq, Hb. lia.
Qed.
