(* ===== verification/Mem.v ===== *)
(** * Byte memory

    The memory the string, formatting and user-copy routines work on: a finite
    map from addresses to bytes.  An address is a [Z]; an access outside the
    map is a [Fault].  Pointer arithmetic that leaves the address space is
    undefined in C and is not modelled.  [bytes_at m p l] says that memory
    holds the bytes [l] from [p] on; [cstr m p l] that a NUL-terminated string
    [l] starts at [p].  [eq_outside] is the frame relation of the writers. *)

From Stdlib Require Import ZArith Lia.
From stdpp Require Import base tactics numbers list gmap.
From S2P Require Import Prelude.

Abbreviation mem := (gmap Z Z).

Definition load8 (m : mem) (p : Z) : outcome Z := deref (m !! p).

(** A store to an address that is not mapped faults. *)
Definition store8 (m : mem) (p c : Z) : outcome mem :=
  match m !! p with
  | Some _ => Ok (<[p := u8 c]> m)
  | None => Fault
  end.

(** A little-endian 64-bit load and store. *)
Fixpoint load_le (n : nat) (m : mem) (p : Z) : outcome Z :=
  match n with
  | O => Ok 0
  | S n' => c ← load8 m p; w ← load_le n' m (p + 1); Ok (c + 256 * w)
  end.
Definition load64 (m : mem) (p : Z) : outcome Z := load_le 8 m p.

Fixpoint store_le (n : nat) (m : mem) (p v : Z) : outcome mem :=
  match n with
  | O => Ok m
  | S n' => m' ← store8 m p (v mod 256); store_le n' m' (p + 1) (v / 256)
  end.
Definition store64 (m : mem) (p v : Z) : outcome mem := store_le 8 m p v.

(** [memset], an assembly routine of the kernel ([startup/memset.S]). *)
Fixpoint memset_loop (n : nat) (m : mem) (p c : Z) : outcome mem :=
  match n with
  | O => Ok m
  | S n' => m' ← store8 m p c; memset_loop n' m' (p + 1) c
  end.
Definition memset (m : mem) (p c count : Z) : outcome mem := memset_loop (Z.to_nat count) m p c.

Fixpoint bytes_at (m : mem) (p : Z) (l : list Z) : Prop :=
  match l with
  | [] => True
  | b :: l' => m !! p = Some b /\ bytes_at m (p + 1) l'
  end.

Definition byte_ok (b : Z) : Prop := 0 <= b < 256.
Definition char_ok (b : Z) : Prop := 0 < b < 256.

(** A NUL-terminated string. *)
Definition cstr (m : mem) (p : Z) (l : list Z) : Prop :=
  bytes_at m p (l ++ [0]) /\ Forall char_ok l.

(** The [n] bytes from [p] are mapped (and can be written). *)
Definition writable (m : mem) (p n : Z) : Prop :=
  forall a, p <= a < p + n -> is_Some (m !! a).

(** The memories agree outside [p, p+n). *)
Definition eq_outside (p n : Z) (m m' : mem) : Prop :=
  forall a, ~ (p <= a < p + n) -> m' !! a = m !! a.

#[export] Instance eq_outside_equiv p n : Equivalence (eq_outside p n).
Proof.
  split.
  - intros m a Ha. reflexivity.
  - intros m m' H a Ha. symmetry. auto.
  - intros m1 m2 m3 H12 H23 a Ha. rewrite H23, H12 by assumption. reflexivity.
Qed.

Lemma eq_outside_weaken p n p' n' m m' :
  p <= p' -> p' + n' <= p + n -> eq_outside p' n' m m' -> eq_outside p n m m'.
Proof. intros H1 H2 H a Ha. apply H. lia. Qed.

Lemma bytes_at_lookup m p l :
  bytes_at m p l <-> forall i b, l !! i = Some b -> m !! (p + Z.of_nat i) = Some b.
Proof.
  revert p. induction l as [|b l IH]; intros p; simpl.
  - split; [intros _ i b Hi; discriminate Hi | trivial].
  - rewrite IH. split.
    + intros [H0 Hl] [|i] c Hc; simpl in Hc.
      * simplify_eq. rewrite Z.add_0_r. assumption.
      * replace (p + Z.of_nat (S i)) with (p + 1 + Z.of_nat i) by lia. auto.
    + intros H. split; [rewrite <- (Z.add_0_r p); apply (H 0%nat b); reflexivity|].
      intros i c Hc. replace (p + 1 + Z.of_nat i) with (p + Z.of_nat (S i)) by lia.
      apply H. assumption.
Qed.

Lemma bytes_at_app m p l1 l2 :
  bytes_at m p (l1 ++ l2) <-> bytes_at m p l1 /\ bytes_at m (p + Z.of_nat (length l1)) l2.
Proof.
  revert p. induction l1 as [|b l IH]; intros p; simpl.
  - rewrite Z.add_0_r. tauto.
  - rewrite IH. replace (p + 1 + Z.of_nat (length l)) with (p + Z.of_nat (S (length l))) by lia.
    tauto.
Qed.

Lemma bytes_at_writable m p l : bytes_at m p l -> writable m p (Z.of_nat (length l)).
Proof.
  rewrite bytes_at_lookup. intros H a Ha.
  destruct (l !! Z.to_nat (a - p)) as [b|] eqn:E.
  - exists b. rewrite <- (H _ _ E). f_equal. lia.
  - apply lookup_ge_None in E. lia.
Qed.

(** Memories that agree on a region hold the same bytes there. *)
Lemma bytes_at_ext m m' p l :
  (forall a, p <= a < p + Z.of_nat (length l) -> m' !! a = m !! a) ->
  bytes_at m p l -> bytes_at m' p l.
Proof.
  rewrite !bytes_at_lookup. intros H Hb i b Hi. pose proof (lookup_lt_Some _ _ _ Hi).
  rewrite H by lia. auto.
Qed.

Lemma bytes_at_frame m m' q n p l :
  eq_outside q n m m' -> q + n <= p \/ p + Z.of_nat (length l) <= q ->
  bytes_at m p l -> bytes_at m' p l.
Proof. intros H D. apply bytes_at_ext. intros a Ha. apply H. lia. Qed.

(** The bytes of a region are determined by the memory. *)
Lemma bytes_at_fun m p l l' :
  bytes_at m p l -> bytes_at m p l' -> length l = length l' -> l = l'.
Proof.
  revert p l'. induction l as [|b l IH]; intros p [|b' l'] H H' E; simpl in *;
    [reflexivity|discriminate|discriminate|].
  destruct H as [H0 H], H' as [H0' H']. f_equal; [congruence|]. eapply IH; eauto.
Qed.

Lemma cstr_nil m p : cstr m p [] <-> m !! p = Some 0.
Proof. unfold cstr. simpl. split; [tauto|]. intros. auto. Qed.

Lemma cstr_cons m p b l :
  cstr m p (b :: l) <-> m !! p = Some b /\ char_ok b /\ cstr m (p + 1) l.
Proof. unfold cstr. simpl. rewrite Forall_cons. tauto. Qed.

Lemma load8_ok m p b : m !! p = Some b -> load8 m p = Ok b.
Proof. unfold load8. intros ->. reflexivity. Qed.

Lemma store8_ok m p c : is_Some (m !! p) -> store8 m p c = Ok (<[p := u8 c]> m).
Proof. unfold store8. intros [b ->]. reflexivity. Qed.

Lemma u8_byte b : byte_ok b -> u8 b = b.
Proof. unfold u8, byte_ok. intros. apply Z.mod_small. lia. Qed.

Lemma char_byte b : char_ok b -> byte_ok b.
Proof. unfold char_ok, byte_ok. lia. Qed.

Lemma char_bytes l : Forall char_ok l -> Forall byte_ok l.
Proof. intros H. eapply Forall_impl; [exact H | exact char_byte]. Qed.
#[export] Hint Resolve load8_ok store8_ok char_byte char_bytes : xlinux.

(** Storing keeps what is mapped mapped. *)
Lemma writable_insert m p n q c : writable m p n -> writable (<[q := c]> m) p n.
Proof.
  intros H a Ha. destruct (decide (q = a)) as [->|Hne].
  - rewrite lookup_insert_eq. eauto.
  - rewrite lookup_insert_ne by assumption. auto.
Qed.

Lemma writable_eq_outside m m' p n q k :
  writable m p n -> eq_outside q k m m' -> writable m' q k -> writable m' p n.
Proof.
  intros Hw He Hq a Ha. destruct (decide (q <= a < q + k)); [auto|].
  rewrite He by assumption. auto.
Qed.
#[export] Hint Resolve writable_insert : xlinux.

(** ** Words in memory *)

Fixpoint le_word (l : list Z) : Z :=
  match l with
  | [] => 0
  | b :: l' => b + 256 * le_word l'
  end.

Lemma load_le_spec m p l : bytes_at m p l -> load_le (length l) m p = Ok (le_word l).
Proof.
  revert p. induction l as [|b l IH]; intros p H; simpl in *; [reflexivity|].
  destruct H as [H0 H]. rewrite (load8_ok _ _ _ H0). simpl. rewrite (IH _ H). reflexivity.
Qed.

Lemma le_word_range l : Forall byte_ok l -> 0 <= le_word l < 2 ^ (8 * Z.of_nat (length l)).
Proof.
  induction 1 as [|b l Hb _ IH]; simpl le_word; [simpl; lia|]. unfold byte_ok in Hb.
  replace (8 * Z.of_nat (length (b :: l))) with (8 + 8 * Z.of_nat (length l)) by (simpl; lia).
  rewrite Z.pow_add_r by lia. change (2 ^ 8) with 256. lia.
Qed.

Lemma le_word_byte l i b : Forall byte_ok l -> l !! i = Some b ->
  (le_word l / 2 ^ (8 * Z.of_nat i)) mod 256 = b.
Proof.
  intros Hl. revert i. induction Hl as [|c l Hc Hl IH]; intros i Hi; [discriminate Hi|].
  simpl le_word. destruct i as [|i]; simpl in Hi.
  - simplify_eq. rewrite Z.mul_0_r, Z.div_1_r, Z.mul_comm, Z.mod_add by lia.
    unfold byte_ok in Hc. apply Z.mod_small. lia.
  - rewrite <- (IH i Hi). f_equal.
    replace (8 * Z.of_nat (S i)) with (8 + 8 * Z.of_nat i) by lia.
    rewrite Z.pow_add_r, <- Z.div_div by lia. change (2 ^ 8) with 256. f_equal.
    rewrite Z.mul_comm, Z.div_add by lia. unfold byte_ok in Hc.
    rewrite Z.div_small by lia. lia.
Qed.

Lemma store_le_spec l : Forall byte_ok l -> forall m p, writable m p (Z.of_nat (length l)) ->
  exists m', store_le (length l) m p (le_word l) = Ok m' /\
    bytes_at m' p l /\ eq_outside p (Z.of_nat (length l)) m m'.
Proof.
  induction 1 as [|b l Hb Hl IH]; intros m p Hw; simpl.
  - exists m. split; [reflexivity|]. split; [trivial|reflexivity].
  - unfold byte_ok in Hb. simpl length in Hw.
    replace ((b + 256 * le_word l) mod 256) with b
      by (rewrite Z.mul_comm, Z.mod_add by lia; symmetry; apply Z.mod_small; lia).
    replace ((b + 256 * le_word l) / 256) with (le_word l)
      by (rewrite Z.mul_comm, Z.div_add, Z.div_small by lia; lia).
    rewrite store8_ok by (apply Hw; lia). simpl. rewrite u8_byte by (unfold byte_ok; lia).
    destruct (IH (<[p := b]> m) (p + 1)) as (m' & E & Hb' & Ho).
    { apply writable_insert. intros a Ha. apply Hw. lia. }
    exists m'. split; [exact E|]. split.
    + split; [|exact Hb']. rewrite Ho by lia. apply lookup_insert_eq.
    + intros a Ha. rewrite Ho by lia. apply lookup_insert_ne. lia.
Qed.
