(* ===== verification/LibString.v ===== *)
(** * lib/string.c, startup/string.c and the string helpers of include/

    One definition per C function, on the byte memory of [Mem].  [char] is
    unsigned on RISC-V, so a [char] is a byte in [0, 256).  A routine that only
    reads returns an [outcome] value; one that writes returns the new memory
    too.  A loop bounded by a count recurses on the count; a loop bounded by
    the terminating NUL takes a fuel argument, and the theorems show that any
    fuel above the string's length is enough.  NULL is address 0. *)

From Stdlib Require Import ZArith Lia.
From stdpp Require Import base tactics numbers list gmap strings.
Import list.
From S2P Require Import Prelude Words Mem.

(** ** Character classes: [_ctype] and the macros of include/types.h *)

Definition _U : Z := 0x01.
Definition _L : Z := 0x02.
Definition _D : Z := 0x04.
Definition _C : Z := 0x08.
Definition _P : Z := 0x10.
Definition _S : Z := 0x20.
Definition _X : Z := 0x40.
Definition _SP : Z := 0x80.

Definition _ctype : list Z :=
  let r := fun n x => replicate n x in
  r 8%nat _C ++ [_C; Z.lor _C _S; Z.lor _C _S; Z.lor _C _S; Z.lor _C _S; Z.lor _C _S; _C; _C]
  ++ r 8%nat _C ++ r 8%nat _C
  ++ [Z.lor _S _SP] ++ r 7%nat _P ++ r 8%nat _P
  ++ r 8%nat _D ++ r 2%nat _D ++ r 6%nat _P
  ++ [_P] ++ r 6%nat (Z.lor _U _X) ++ [_U] ++ r 8%nat _U ++ r 8%nat _U ++ r 3%nat _U ++ r 5%nat _P
  ++ [_P] ++ r 6%nat (Z.lor _L _X) ++ [_L] ++ r 8%nat _L ++ r 8%nat _L ++ r 3%nat _L ++ r 4%nat _P ++ [_C]
  ++ r 16%nat 0 ++ r 16%nat 0
  ++ [Z.lor _S _SP] ++ r 15%nat _P ++ r 16%nat _P
  ++ r 16%nat _U ++ r 7%nat _U ++ [_P] ++ r 7%nat _U ++ [_L]
  ++ r 16%nat _L ++ r 7%nat _L ++ [_P] ++ r 8%nat _L.

Definition __ismask (x : Z) : Z := nth (Z.to_nat (u8 x)) _ctype 0.
Definition isdigit (c : Z) : bool := (0x30 <=? c) && (c <=? 0x39).
Definition islower (c : Z) : bool := negb (Z.land (__ismask c) _L =? 0).
Definition isupper (c : Z) : bool := negb (Z.land (__ismask c) _U =? 0).
Definition isspace (c : Z) : bool := negb (Z.land (__ismask c) _S =? 0).
Definition isxdigit (c : Z) : bool := negb (Z.land (__ismask c) (Z.lor _D _X) =? 0).

Definition __tolower (c : Z) : Z := if isupper c then u8 (c - (0x41 - 0x61)) else c.
Definition __toupper (c : Z) : Z := if islower c then u8 (c - (0x61 - 0x41)) else c.
Definition _tolower (c : Z) : Z := u8 (Z.lor c 0x20).

(** ** Readers bounded by a count *)

Fixpoint memchr_loop (n : nat) (m : mem) (p c : Z) : outcome Z :=
  match n with
  | O => Ok 0
  | S n' => b ← load8 m p; if u8 c =? b then Ok p else memchr_loop n' m (p + 1) c
  end.
Definition memchr (m : mem) (s c n : Z) : outcome Z := memchr_loop (Z.to_nat n) m s c.

Fixpoint memcmp_loop (n : nat) (m : mem) (su1 su2 : Z) : outcome Z :=
  match n with
  | O => Ok 0
  | S n' =>
      a ← load8 m su1; b ← load8 m su2;
      let res := a - b in
      if negb (res =? 0) then Ok res else memcmp_loop n' m (su1 + 1) (su2 + 1)
  end.
Definition memcmp (m : mem) (cs ct count : Z) : outcome Z :=
  memcmp_loop (Z.to_nat count) m cs ct.

Fixpoint strncmp_loop (n : nat) (m : mem) (cs ct : Z) : outcome Z :=
  match n with
  | O => Ok 0
  | S n' =>
      c1 ← load8 m cs; c2 ← load8 m ct;
      if negb (c1 =? c2) then Ok (if c1 <? c2 then -1 else 1)
      else if c1 =? 0 then Ok 0
      else strncmp_loop n' m (cs + 1) (ct + 1)
  end.
Definition strncmp (m : mem) (cs ct count : Z) : outcome Z :=
  strncmp_loop (Z.to_nat count) m cs ct.

Fixpoint strnlen_loop (n : nat) (m : mem) (sc : Z) : outcome Z :=
  match n with
  | O => Ok sc
  | S n' => c ← load8 m sc; if c =? 0 then Ok sc else strnlen_loop n' m (sc + 1)
  end.
Definition strnlen (m : mem) (s count : Z) : outcome Z :=
  sc ← strnlen_loop (Z.to_nat count) m s; Ok (sc - s).

(** ** Readers bounded by the NUL *)

Fixpoint strlen_loop (fuel : nat) (m : mem) (sc : Z) : outcome Z :=
  match fuel with
  | O => NoFuel
  | S f => c ← load8 m sc; if c =? 0 then Ok sc else strlen_loop f m (sc + 1)
  end.
Definition strlen (fuel : nat) (m : mem) (s : Z) : outcome Z :=
  sc ← strlen_loop fuel m s; Ok (sc - s).

Fixpoint strcmp (fuel : nat) (m : mem) (cs ct : Z) : outcome Z :=
  match fuel with
  | O => NoFuel
  | S f =>
      c1 ← load8 m cs; c2 ← load8 m ct;
      if negb (c1 =? c2) then Ok (if c1 <? c2 then -1 else 1)
      else if c1 =? 0 then Ok 0
      else strcmp f m (cs + 1) (ct + 1)
  end.

Fixpoint strchr (fuel : nat) (m : mem) (s c : Z) : outcome Z :=
  match fuel with
  | O => NoFuel
  | S f =>
      b ← load8 m s;
      if negb (b =? u8 c) then (if b =? 0 then Ok 0 else strchr f m (s + 1) c)
      else Ok s
  end.

Fixpoint strrchr_loop (fuel : nat) (m : mem) (s c last : Z) : outcome Z :=
  match fuel with
  | O => NoFuel
  | S f =>
      b ← load8 m s;
      let last := if b =? u8 c then s else last in
      if b =? 0 then Ok last else strrchr_loop f m (s + 1) c last
  end.
Definition strrchr (fuel : nat) (m : mem) (s c : Z) : outcome Z :=
  strrchr_loop fuel m s c 0.

Fixpoint strchrnul (fuel : nat) (m : mem) (s c : Z) : outcome Z :=
  match fuel with
  | O => NoFuel
  | S f =>
      b ← load8 m s;
      if negb (b =? 0) && negb (b =? u8 c) then strchrnul f m (s + 1) c else Ok s
  end.

(** The inner loop of [strcspn]: is [b] in the string at [r]? *)
Fixpoint strcspn_in (fuel : nat) (m : mem) (b r : Z) : outcome bool :=
  match fuel with
  | O => NoFuel
  | S f =>
      c ← load8 m r;
      if c =? 0 then Ok false
      else if b =? c then Ok true else strcspn_in f m b (r + 1)
  end.
Fixpoint strcspn_loop (fuel rfuel : nat) (m : mem) (p reject count : Z) : outcome Z :=
  match fuel with
  | O => NoFuel
  | S f =>
      b ← load8 m p;
      if b =? 0 then Ok count
      else hit ← strcspn_in rfuel m b reject;
           if (hit : bool) then Ok count else strcspn_loop f rfuel m (p + 1) reject (count + 1)
  end.
Definition strcspn (fuel rfuel : nat) (m : mem) (s reject : Z) : outcome Z :=
  strcspn_loop fuel rfuel m s reject 0.

Fixpoint strcasecmp (fuel : nat) (m : mem) (s1 s2 : Z) : outcome Z :=
  match fuel with
  | O => NoFuel
  | S f =>
      b1 ← load8 m s1; b2 ← load8 m s2;
      let c1 := __tolower b1 in
      let c2 := __tolower b2 in
      if (c1 =? c2) && negb (c1 =? 0) then strcasecmp f m (s1 + 1) (s2 + 1)
      else Ok (c1 - c2)
  end.

Fixpoint skip_spaces (fuel : nat) (m : mem) (str : Z) : outcome Z :=
  match fuel with
  | O => NoFuel
  | S f => b ← load8 m str; if isspace b then skip_spaces f m (str + 1) else Ok str
  end.

Definition kbasename (fuel : nat) (m : mem) (path : Z) : outcome Z :=
  tail ← strrchr fuel m path 0x2f;
  Ok (if negb (tail =? 0) then tail + 1 else path).

(** ** Writers *)

Fixpoint copy_up (n : nat) (m : mem) (tmp s : Z) : outcome mem :=
  match n with
  | O => Ok m
  | S n' => b ← load8 m s; m' ← store8 m tmp b; copy_up n' m' (tmp + 1) (s + 1)
  end.
Fixpoint copy_down (n : nat) (m : mem) (tmp s : Z) : outcome mem :=
  match n with
  | O => Ok m
  | S n' =>
      let tmp := tmp - 1 in
      let s := s - 1 in
      b ← load8 m s; m' ← store8 m tmp b; copy_down n' m' tmp s
  end.
Definition memmove (m : mem) (dest src count : Z) : outcome (Z * mem) :=
  if dest <=? src
  then m' ← copy_up (Z.to_nat count) m dest src; Ok (dest, m')
  else m' ← copy_down (Z.to_nat count) m (dest + count) (src + count); Ok (dest, m').

(** [memcpy] and [memset] are assembly ([startup/memcpy.S],
    [startup/memset.S]); on regions that do not overlap, an ascending copy. *)
Definition memcpy (m : mem) (dest src count : Z) : outcome (Z * mem) :=
  m' ← copy_up (Z.to_nat count) m dest src; Ok (dest, m').

Fixpoint strreplace (fuel : nat) (m : mem) (s old new : Z) : outcome (Z * mem) :=
  match fuel with
  | O => NoFuel
  | S f =>
      b ← load8 m s;
      if b =? 0 then Ok (s, m)
      else m' ← (if b =? u8 old then store8 m s new else Ok m);
           strreplace f m' (s + 1) old new
  end.

Definition strlcpy (fuel : nat) (m : mem) (dest src size : Z) : outcome (Z * mem) :=
  ret ← strlen fuel m src;
  if negb (size =? 0) then
    let len := if size <=? ret then size - 1 else ret in
    '(_, m) ← memcpy m dest src len;
    m ← store8 m (dest + len) 0;
    Ok (ret, m)
  else Ok (ret, m).

Fixpoint strcpy_loop (fuel : nat) (m : mem) (dest src : Z) : outcome mem :=
  match fuel with
  | O => NoFuel
  | S f =>
      b ← load8 m src; m' ← store8 m dest b;
      if b =? 0 then Ok m' else strcpy_loop f m' (dest + 1) (src + 1)
  end.
Definition strcpy (fuel : nat) (m : mem) (dest src : Z) : outcome (Z * mem) :=
  m' ← strcpy_loop fuel m dest src; Ok (dest, m').

Fixpoint strncpy_loop (n : nat) (m : mem) (tmp src : Z) : outcome mem :=
  match n with
  | O => Ok m
  | S n' =>
      b ← load8 m src; m' ← store8 m tmp b;
      strncpy_loop n' m' (tmp + 1) (if negb (b =? 0) then src + 1 else src)
  end.
Definition strncpy (m : mem) (dest src count : Z) : outcome (Z * mem) :=
  m' ← strncpy_loop (Z.to_nat count) m dest src; Ok (dest, m').

(** ** Copies of user strings, a word at a time *)

Definition EFAULT : Z := 14.

(** [__access_ok] with [seg] the thread's address limit ([get_fs().seg]). *)
Definition __access_ok (seg addr size : Z) : bool :=
  (size <=? seg) && (addr <=? u64 (seg - size)).

Fixpoint do_strncpy_from_user (fuel : nat) (m : mem) (dst src max res : Z)
  : outcome (Z * mem) :=
  if 8 <=? max then
    match fuel with
    | O => NoFuel
    | S f =>
        c ← load64 m (src + res);
        m' ← store64 m (dst + res) c;
        let data := has_zero c in
        if negb (data =? 0) then
          let data := prep_zero_mask c data in
          let data := create_zero_mask data in
          Ok (res + find_zero data, m')
        else do_strncpy_from_user f m' dst src (max - 8) (res + 8)
    end
  else Panic "do_strncpy_from_user".

(** The loop runs at most [max / 8] times. *)
Definition strncpy_from_user (seg : Z) (m : mem) (dst src count : Z) : outcome (Z * mem) :=
  if count <=? 0 then Ok (0, m)
  else if src <? seg then
    let max := seg - src in
    let max := if count <? max then count else max in
    if __access_ok seg src max
    then do_strncpy_from_user (Z.to_nat (max / 8)) m dst src max 0
    else Ok (- EFAULT, m)
  else Ok (- EFAULT, m).

Definition aligned_byte_mask (n : Z) : Z := u64 (u64 (Z.shiftl 1 (8 * n)) - 1).

Fixpoint do_strnlen_user_loop (fuel : nat) (m : mem) (src align count max res c : Z)
  : outcome Z :=
  match fuel with
  | O => NoFuel
  | S f =>
      let data := has_zero c in
      if negb (data =? 0) then
        let data := prep_zero_mask c data in
        let data := create_zero_mask data in
        Ok (res + find_zero data + 1 - align)
      else
        let res := res + 8 in
        if max <=? 8 then
          let res := res - align in
          if count <=? res then Ok (count + 1) else Ok 0
        else
          c ← load64 m (src + res);
          do_strnlen_user_loop f m src align count (max - 8) res c
  end.
Definition do_strnlen_user (m : mem) (src count max : Z) : outcome Z :=
  let align := Z.land (8 - 1) src in
  let src := src - align in
  let max := max + align in
  c ← load64 m src;
  let c := Z.lor c (aligned_byte_mask align) in
  do_strnlen_user_loop (S (Z.to_nat (max / 8))) m src align count max 0 c.

Definition strnlen_user (seg : Z) (m : mem) (str count : Z) : outcome Z :=
  if count <=? 0 then Ok 0
  else if str <? seg then
    let max := seg - str in
    let max := if count <? max then count else max in
    if __access_ok seg str max then do_strnlen_user m str count max else Ok 0
  else Ok 0.

Definition str_ex_mem : mem :=
  list_to_map (zip (seqZ 1000 64)
    ([0x2f; 0x61; 0x2f; 0x62; 0x63; 0; 0x41; 0x42; 0; 0x31; 0x32] ++ replicate 53 7)).
Example string_ex :
  (strlen 20 str_ex_mem 1000, strrchr 20 str_ex_mem 1000 0x2f, strchr 20 str_ex_mem 1000 0x62,
   kbasename 20 str_ex_mem 1000, strncmp str_ex_mem 1000 1002 2,
   (fst <$> strncpy_from_user 2000 str_ex_mem 1032 1000 16),
   strnlen_user 2000 str_ex_mem 1001 100)
  = (Ok 5, Ok 1002, Ok 1003, Ok 1003, Ok (-1), Ok 5, Ok 5).
Proof. vm_compute. reflexivity. Qed.

(** ** Reference functions on lists of bytes *)

(** Lexicographic comparison, as C reports it. *)
Fixpoint lex_cmp (l1 l2 : list Z) : Z :=
  match l1, l2 with
  | a :: l1', b :: l2' => if a =? b then lex_cmp l1' l2' else if a <? b then -1 else 1
  | _, _ => 0
  end.

(** Index of the first element that satisfies [f]. *)
Fixpoint find_index (f : Z -> bool) (l : list Z) : option nat :=
  match l with
  | [] => None
  | b :: l' => if f b then Some O else S <$> find_index f l'
  end.

(** Index of the last one. *)
Fixpoint find_last_index (f : Z -> bool) (l : list Z) : option nat :=
  match l with
  | [] => None
  | b :: l' =>
      match find_last_index f l' with
      | Some i => Some (S i)
      | None => if f b then Some O else None
      end
  end.

(** A pointer into the string at [s], or NULL. *)
Definition ptr_at (s : Z) (o : option nat) : Z :=
  match o with Some i => s + Z.of_nat i | None => 0 end.

Lemma ptr_at_succ s o : ptr_at (s + 1) o = ptr_at s (S <$> o) \/ o = None.
Proof. destruct o; simpl; [left; lia|right; reflexivity]. Qed.

Lemma ptr_at_shift s o : ptr_at (s + 1) o = ptr_at s (S <$> o).
Proof. destruct o; simpl; lia. Qed.

Lemma lex_cmp_eq l1 l2 : length l1 = length l2 -> lex_cmp l1 l2 = 0 <-> l1 = l2.
Proof.
  revert l2. induction l1 as [|a l1 IH]; intros [|b l2] E; simpl in *; try discriminate.
  - tauto.
  - injection E as E. destruct (Z.eqb_spec a b) as [->|Hne].
    + rewrite IH by assumption. split; congruence.
    + destruct (a <? b); split; try lia; congruence.
Qed.

(** One step of a reader: load the byte the string holds there. *)
Ltac step_load :=
  match goal with
  | H : ?m !! ?p = Some ?b |- context [load8 ?m ?p] =>
      rewrite (load8_ok m p b H); simpl
  end.

Lemma strlen_ok fuel m s l : cstr m s l -> (length l < fuel)%nat ->
  strlen fuel m s = Ok (Z.of_nat (length l)).
Proof.
  intros H Hf. unfold strlen.
  enough (strlen_loop fuel m s = Ok (s + Z.of_nat (length l))) as -> by (simpl; f_equal; lia).
  revert fuel s H Hf. induction l as [|b l IH]; intros [|f] s H Hf; simpl in *; try lia.
  - apply cstr_nil in H. step_load. f_equal. lia.
  - apply cstr_cons in H as (H0 & Hc & H). unfold char_ok in Hc. step_load.
    destruct (Z.eqb_spec b 0); [lia|]. rewrite (IH _ _ H) by lia. f_equal. lia.
Qed.

Lemma strnlen_ok m s l count : cstr m s l -> 0 <= count ->
  strnlen m s count = Ok (Z.min (Z.of_nat (length l)) count).
Proof.
  intros H Hc. unfold strnlen.
  enough (strnlen_loop (Z.to_nat count) m s =
          Ok (s + Z.of_nat (Nat.min (length l) (Z.to_nat count)))) as -> by (simpl; f_equal; lia).
  clear Hc. revert s H. generalize (Z.to_nat count) as n. induction l as [|b l IH];
    intros [|n] s H; simpl in *; try (f_equal; lia).
  - apply cstr_nil in H. step_load. f_equal. lia.
  - apply cstr_cons in H as (H0 & Hc & H). unfold char_ok in Hc. step_load.
    destruct (Z.eqb_spec b 0); [lia|]. rewrite (IH _ _ H). f_equal. lia.
Qed.

Lemma memchr_ok m s l c : bytes_at m s l ->
  memchr m s c (Z.of_nat (length l)) = Ok (ptr_at s (find_index (fun b => u8 c =? b) l)).
Proof.
  unfold memchr. rewrite Nat2Z.id. revert s. induction l as [|b l IH]; intros s H; simpl in *;
    [reflexivity|]. destruct H as [H0 H]. step_load. destruct (u8 c =? b).
  - simpl. f_equal. lia.
  - rewrite (IH _ H), ptr_at_shift. reflexivity.
Qed.

Lemma strchr_ok fuel m s l c : cstr m s l -> (length l < fuel)%nat ->
  strchr fuel m s c = Ok (ptr_at s (find_index (fun b => b =? u8 c) (l ++ [0]))).
Proof.
  revert fuel s. induction l as [|b l IH]; intros [|f] s H Hf; simpl in *; try lia.
  - apply cstr_nil in H. step_load. destruct (0 =? u8 c); simpl; f_equal; lia.
  - apply cstr_cons in H as (H0 & Hc & H). unfold char_ok in Hc. step_load.
    destruct (b =? u8 c); cbn [negb]; [simpl; f_equal; lia|].
    destruct (Z.eqb_spec b 0); [lia|]. rewrite (IH _ _ H), ptr_at_shift; [reflexivity | lia].
Qed.

Lemma strchrnul_ok fuel m s l c : cstr m s l -> (length l < fuel)%nat ->
  strchrnul fuel m s c =
    Ok (s + Z.of_nat (default (length l) (find_index (fun b => b =? u8 c) l))).
Proof.
  revert fuel s. induction l as [|b l IH]; intros [|f] s H Hf; simpl in *; try lia.
  - apply cstr_nil in H. step_load. f_equal. lia.
  - apply cstr_cons in H as (H0 & Hc & H). unfold char_ok in Hc. step_load.
    destruct (Z.eqb_spec b 0); [lia|]. destruct (b =? u8 c); simpl; [f_equal; lia|].
    rewrite (IH _ _ H) by lia. destruct (find_index _ l); simpl; f_equal; lia.
Qed.

Lemma find_last_index_app f l x :
  find_last_index f (l ++ [x]) =
  if f x then Some (length l) else find_last_index f l.
Proof.
  induction l as [|b l IH]; simpl; [destruct (f x); reflexivity|].
  rewrite IH. destruct (f x); reflexivity.
Qed.

Lemma strrchr_loop_ok fuel m s l c last : cstr m s l -> (length l < fuel)%nat ->
  strrchr_loop fuel m s c last =
    Ok (match find_last_index (fun b => b =? u8 c) (l ++ [0]) with
        | Some i => s + Z.of_nat i | None => last end).
Proof.
  revert fuel s last. induction l as [|b l IH]; intros [|f] s last H Hf; simpl in *; try lia.
  - apply cstr_nil in H. step_load. destruct (0 =? u8 c); simpl; f_equal; lia.
  - apply cstr_cons in H as (H0 & Hc & H). unfold char_ok in Hc. step_load.
    destruct (Z.eqb_spec b 0); [lia|]. rewrite (IH _ _ _ H) by lia.
    destruct (find_last_index _ (l ++ [0])); [simpl; f_equal; lia|].
    destruct (b =? u8 c); simpl; f_equal; lia.
Qed.

Lemma strrchr_ok fuel m s l c : cstr m s l -> (length l < fuel)%nat ->
  strrchr fuel m s c = Ok (ptr_at s (find_last_index (fun b => b =? u8 c) (l ++ [0]))).
Proof. intros H Hf. unfold strrchr. rewrite (strrchr_loop_ok _ _ _ l) by assumption. reflexivity. Qed.

(** The two compared strings agree or differ before either ends. *)
Lemma strcmp_ok fuel m cs ct l1 l2 : cstr m cs l1 -> cstr m ct l2 ->
  (length l1 < fuel)%nat -> strcmp fuel m cs ct = Ok (lex_cmp (l1 ++ [0]) (l2 ++ [0])).
Proof.
  revert fuel cs ct l2. induction l1 as [|a l1 IH]; intros [|f] cs ct l2 H1 H2 Hf; simpl in *; try lia.
  - apply cstr_nil in H1. step_load. destruct l2 as [|b l2].
    + apply cstr_nil in H2. step_load. reflexivity.
    + apply cstr_cons in H2 as (H2 & Hb & _). unfold char_ok in Hb. step_load.
      destruct (Z.eqb_spec 0 b); [lia|]. reflexivity.
  - apply cstr_cons in H1 as (H1 & Ha & H1'). unfold char_ok in Ha. step_load. destruct l2 as [|b l2].
    + apply cstr_nil in H2. step_load. destruct (Z.eqb_spec a 0); [lia|]. reflexivity.
    + apply cstr_cons in H2 as (H2 & Hb & H2'). step_load.
      destruct (Z.eqb_spec a b) as [->|]; [|reflexivity]. simpl.
      destruct (Z.eqb_spec b 0); [lia|]. apply IH; [assumption..|lia].
Qed.

(** [strncmp] is the lexicographic comparison of the first [count] bytes
    of the two strings, the terminating NULs included. *)
Theorem strncmp_lexicographic m cs ct l1 l2 count : cstr m cs l1 -> cstr m ct l2 ->
  strncmp m cs ct count =
    Ok (lex_cmp (take (Z.to_nat count) (l1 ++ [0])) (take (Z.to_nat count) (l2 ++ [0]))).
Proof.
  unfold strncmp. generalize (Z.to_nat count) as n. clear count. intros n. revert cs ct l1 l2.
  induction n as [|n IH]; intros cs ct l1 l2 H1 H2; [reflexivity|].
  destruct l1 as [|a l1], l2 as [|b l2]; simpl.
  - apply cstr_nil in H1, H2. do 2 step_load. destruct n; reflexivity.
  - apply cstr_nil in H1. apply cstr_cons in H2 as (H2 & Hb & _). unfold char_ok in Hb.
    do 2 step_load. destruct (Z.eqb_spec 0 b); [lia|]. reflexivity.
  - apply cstr_nil in H2. apply cstr_cons in H1 as (H1 & Ha & _). unfold char_ok in Ha.
    do 2 step_load. destruct (Z.eqb_spec a 0); [lia|]. reflexivity.
  - apply cstr_cons in H1 as (H1 & Ha & H1'). apply cstr_cons in H2 as (H2 & Hb & H2').
    unfold char_ok in *. do 2 step_load. destruct (Z.eqb_spec a b) as [->|]; [|reflexivity]. simpl.
    destruct (Z.eqb_spec b 0); [lia|]. apply IH; assumption.
Qed.

Lemma memcmp_ok m cs ct l1 l2 : bytes_at m cs l1 -> bytes_at m ct l2 -> length l1 = length l2 ->
  exists r, memcmp m cs ct (Z.of_nat (length l1)) = Ok r /\ (r = 0 <-> l1 = l2).
Proof.
  unfold memcmp. rewrite Nat2Z.id. revert cs ct l2.
  induction l1 as [|a l1 IH]; intros cs ct [|b l2] H1 H2 E; simpl in *; try discriminate.
  - exists 0. tauto.
  - destruct H1 as [H1 H1'], H2 as [H2 H2']. injection E as E. do 2 step_load.
    destruct (Z.eqb_spec (a - b) 0); simpl.
    + destruct (IH _ _ _ H1' H2' E) as (r & Hr & Hiff). exists r. split; [exact Hr|].
      rewrite Hiff. split; [intros ->; f_equal; lia | congruence].
    + exists (a - b). split; [reflexivity|]. split; [lia|]. intros [= -> ->]. lia.
Qed.

(** ** Correctness of the writers *)

Lemma copy_up_ok l : Forall byte_ok l -> forall m dst src,
  bytes_at m src l -> writable m dst (Z.of_nat (length l)) ->
  dst <= src \/ src + Z.of_nat (length l) <= dst ->
  exists m', copy_up (length l) m dst src = Ok m' /\ bytes_at m' dst l /\
    eq_outside dst (Z.of_nat (length l)) m m'.
Proof.
  induction 1 as [|b l Hb Hl IH]; intros m dst src Hs Hw Hd; simpl in *.
  - exists m. split; [reflexivity|]. split; [trivial|reflexivity].
  - destruct Hs as [H0 Hs]. step_load.
    rewrite store8_ok, u8_byte by (assumption || (apply Hw; lia)). simpl.
    destruct (IH (<[dst := b]> m) (dst + 1) (src + 1)) as (m' & E & Hb' & Ho).
    + eapply bytes_at_frame with (q := dst) (n := 1); [|lia|exact Hs].
      intros a Ha. apply lookup_insert_ne. lia.
    + apply writable_insert. intros a Ha. apply Hw. lia.
    + lia.
    + exists m'. split; [exact E|]. split.
      * split; [|exact Hb']. rewrite Ho by lia. apply lookup_insert_eq.
      * intros a Ha. rewrite Ho by lia. apply lookup_insert_ne. lia.
Qed.

Lemma copy_down_ok l : Forall byte_ok l -> forall m dst src,
  bytes_at m src l -> writable m dst (Z.of_nat (length l)) -> src <= dst ->
  exists m', copy_down (length l) m (dst + Z.of_nat (length l)) (src + Z.of_nat (length l)) = Ok m' /\
    bytes_at m' dst l /\ eq_outside dst (Z.of_nat (length l)) m m'.
Proof.
  induction l as [|b l IH] using rev_ind; intros Hall m dst src Hs Hw Hd.
  - exists m. split; [reflexivity|]. split; [exact I|reflexivity].
  - apply Forall_app in Hall as [Hl Hb]. inversion_clear Hb as [|? ? Hb' _].
    apply bytes_at_app in Hs as [Hs Hlast]. simpl in Hlast. destruct Hlast as [Hlast _].
    rewrite length_app in *. simpl length in *. rewrite Nat.add_1_r in *.
    set (n := length l) in *. cbn [copy_down].
    replace (dst + Z.of_nat (S n) - 1) with (dst + Z.of_nat n) by lia.
    replace (src + Z.of_nat (S n) - 1) with (src + Z.of_nat n) by lia.
    rewrite (load8_ok _ _ _ Hlast). simpl.
    rewrite store8_ok, u8_byte by (assumption || (apply Hw; lia)). simpl.
    destruct (IH Hl (<[dst + Z.of_nat n := b]> m) dst src) as (m' & E & Hb1 & Ho).
    + eapply bytes_at_frame with (q := dst + Z.of_nat n) (n := 1); [|lia|exact Hs].
      intros a Ha. apply lookup_insert_ne. lia.
    + apply writable_insert. intros a Ha. apply Hw. lia.
    + assumption.
    + exists m'. split; [exact E|]. split.
      * apply bytes_at_app. split; [exact Hb1|]. split; [|exact I].
        fold n. rewrite Ho by lia. apply lookup_insert_eq.
      * intros a Ha. rewrite Ho by lia. apply lookup_insert_ne. lia.
Qed.

(** [memmove] copies [count] bytes also when the two regions overlap: the
    destination ends up with the bytes the source had before the call, the call
    returns [dest], and no byte outside the destination changes. *)
Theorem memmove_copies m dest src l : Forall byte_ok l -> bytes_at m src l ->
  writable m dest (Z.of_nat (length l)) ->
  exists m', memmove m dest src (Z.of_nat (length l)) = Ok (dest, m') /\
    bytes_at m' dest l /\ eq_outside dest (Z.of_nat (length l)) m m'.
Proof.
  intros Hl Hs Hw. unfold memmove. rewrite Nat2Z.id. destruct (Z.leb_spec dest src).
  - destruct (copy_up_ok l Hl m dest src Hs Hw) as (m' & -> & ?); [lia|]. exists m'. auto.
  - destruct (copy_down_ok l Hl m dest src Hs Hw) as (m' & -> & ?); [lia|]. exists m'. auto.
Qed.

(** The string [strlcpy] leaves: as much of [l] as fits, and a NUL. *)
Definition strlcpy_result (size : Z) (l : list Z) : list Z := take (Z.to_nat size - 1) l ++ [0].

(** [strlcpy] returns the length of the source and leaves in the
    destination the longest prefix that fits in [size - 1] bytes followed by a
    NUL, writing nothing outside the [size] bytes of the destination. *)
Theorem strlcpy_truncates fuel m dest src l size : cstr m src l -> (length l < fuel)%nat -> 0 < size ->
  writable m dest size -> dest + size <= src \/ src + Z.of_nat (length l) + 1 <= dest ->
  exists m', strlcpy fuel m dest src size = Ok (Z.of_nat (length l), m') /\
    bytes_at m' dest (strlcpy_result size l) /\ eq_outside dest size m m'.
Proof.
  intros Hc Hf Hs Hw Hd. unfold strlcpy, strlcpy_result. rewrite (strlen_ok _ _ _ l) by assumption.
  simpl. destruct (Z.eqb_spec size 0); [lia|]. simpl.
  destruct Hc as [Hb Hl]. apply bytes_at_app in Hb as [Hb _].
  set (t := take (Z.to_nat size - 1) l).
  assert ((if size <=? Z.of_nat (length l) then size - 1 else Z.of_nat (length l)) =
          Z.of_nat (length t)) as ->.
  { unfold t. rewrite length_take. zcases; lia. }
  assert (Z.of_nat (length t) < size) by (unfold t; rewrite length_take; lia).
  assert (Z.of_nat (length t) <= Z.of_nat (length l)) by (unfold t; rewrite length_take; lia).
  assert (bytes_at m src t) as Ht.
  { rewrite <- (take_drop (Z.to_nat size - 1) l) in Hb. apply bytes_at_app in Hb as [Hb _]. exact Hb. }
  unfold memcpy. rewrite Nat2Z.id.
  destruct (copy_up_ok t) with (m := m) (dst := dest) (src := src) as (m' & -> & Hb' & Ho).
  - apply char_bytes. apply Forall_take. assumption.
  - assumption.
  - intros a Ha. apply Hw. lia.
  - lia.
  - simpl. rewrite store8_ok.
    2:{ rewrite Ho by lia. apply Hw. lia. }
    simpl. eexists. split; [reflexivity|]. split.
    + apply bytes_at_app. split.
      * eapply bytes_at_ext; [|exact Hb']. intros a Ha. apply lookup_insert_ne. lia.
      * split; [|exact I]. rewrite u8_byte by (unfold byte_ok; lia). apply lookup_insert_eq.
    + intros a Ha. rewrite lookup_insert_ne by lia. apply Ho. lia.
Qed.

(** [strncpy] copies at most [count] bytes and pads with NULs. *)
Lemma strncpy_ok m dest src l count : cstr m src l -> 0 <= count ->
  writable m dest count -> dest + count <= src \/ src + Z.of_nat (length l) + 1 <= dest ->
  exists m', strncpy m dest src count = Ok (dest, m') /\
    bytes_at m' dest (take (Z.to_nat count) (l ++ replicate (Z.to_nat count) 0)) /\
    eq_outside dest count m m'.
Proof.
  intros Hc H0 Hw Hd. unfold strncpy.
  assert (exists n, count = Z.of_nat n) as [n ->] by (exists (Z.to_nat count); lia).
  rewrite Nat2Z.id.
  enough (exists m', strncpy_loop n m dest src = Ok m' /\
     bytes_at m' dest (take n (l ++ replicate n 0)) /\ eq_outside dest (Z.of_nat n) m m')
    as (m' & -> & ?) by (exists m'; auto).
  clear H0. revert m dest src l Hc Hw Hd. induction n as [|n IH]; intros m dest src l Hc Hw Hd.
  - exists m. split; [reflexivity|]. rewrite take_0. split; [exact I|reflexivity].
  - destruct l as [|b l].
    + pose proof Hc as Hc'. apply cstr_nil in Hc as Hz. cbn [strncpy_loop]. step_load.
      rewrite store8_ok by (apply Hw; lia). simpl.
      destruct (IH (<[dest := 0]> m) (dest + 1) src []) as (m' & E & Hb & Ho).
      * apply cstr_nil. rewrite lookup_insert_ne by (simpl in *; lia). assumption.
      * apply writable_insert. intros a Ha. apply Hw. lia.
      * simpl in *. lia.
      * exists m'. split; [exact E|]. split.
        -- split; [rewrite Ho by lia; apply lookup_insert_eq|]. simpl in Hb. exact Hb.
        -- intros a Ha. rewrite Ho by lia. apply lookup_insert_ne. lia.
    + apply cstr_cons in Hc as (Hb0 & Hch & Hc). cbn [strncpy_loop]. step_load.
      rewrite store8_ok, u8_byte by (auto with xlinux; apply Hw; lia). simpl.
      unfold char_ok in Hch. destruct (Z.eqb_spec b 0); [lia|]. simpl in Hd. simpl.
      destruct (IH (<[dest := b]> m) (dest + 1) (src + 1) l) as (m' & E & Hb & Ho).
      * destruct Hc as [Hc Hl]. split; [|exact Hl].
        eapply bytes_at_frame with (q := dest) (n := 1); [|rewrite length_app; simpl; lia|exact Hc].
        intros a Ha. apply lookup_insert_ne. lia.
      * apply writable_insert. intros a Ha. apply Hw. lia.
      * lia.
      * exists m'. split; [exact E|]. split.
        -- split; [rewrite Ho by lia; apply lookup_insert_eq|].
           replace (take n (l ++ 0 :: replicate n 0)) with (take n (l ++ replicate n 0)); [exact Hb|].
           change (0 :: replicate n 0) with (replicate (S n) 0).
           rewrite !take_app, !take_replicate. do 2 f_equal. lia.
        -- intros a Ha. rewrite Ho by lia. apply lookup_insert_ne. lia.
Qed.

(** ** Correctness of the word-at-a-time copies *)

Lemma word_byte l i b : Forall byte_ok l -> l !! i = Some b ->
  byte_of (le_word l) (Z.of_nat i) = b.
Proof. apply le_word_byte. Qed.

Lemma le_word_u64 l : Forall byte_ok l -> length l = 8%nat -> is_u64 (le_word l).
Proof. intros Hl E. pose proof (le_word_range l Hl) as H. rewrite E in H. exact H. Qed.

(** A word that holds the end of a string: the zero byte found is the NUL. *)
Lemma word_with_nul pre post : Forall char_ok pre -> Forall byte_ok post ->
  length (pre ++ 0 :: post) = 8%nat ->
  let c := le_word (pre ++ 0 :: post) in
  has_zero c <> 0 /\
  find_zero (create_zero_mask (prep_zero_mask c (has_zero c))) = Z.of_nat (length pre).
Proof.
  intros Hpre Hpost E c.
  assert (Forall byte_ok (pre ++ 0 :: post)) as Hall.
  { apply Forall_app. split; [auto with xlinux|]. constructor; [unfold byte_ok; lia|assumption]. }
  rewrite length_app in E. simpl in E. apply first_zero_byte.
  - apply le_word_u64; [assumption|rewrite length_app; simpl; lia].
  - lia.
  - intros j Hj. destruct (lookup_lt_is_Some_2 pre (Z.to_nat j)) as [b Hb]; [lia|].
    rewrite <- (Z2Nat.id j) by lia. unfold c. rewrite (word_byte _ _ b); [|assumption|].
    + pose proof (Forall_lookup_1 _ _ _ _ Hpre Hb) as Hx. unfold char_ok in Hx. lia.
    + rewrite lookup_app_l by (eapply lookup_lt_Some; eassumption). assumption.
  - unfold c. apply word_byte; [assumption|]. rewrite lookup_app_r, Nat.sub_diag by lia. reflexivity.
Qed.

Lemma word_without_nul l : Forall char_ok l -> length l = 8%nat -> has_zero (le_word l) = 0.
Proof.
  intros Hl E. apply no_zero_byte; [apply le_word_u64; auto with xlinux|].
  intros j Hj. destruct (lookup_lt_is_Some_2 l (Z.to_nat j)) as [b Hb]; [lia|].
  rewrite <- (Z2Nat.id j) by lia. rewrite (word_byte _ _ b) by auto with xlinux.
  pose proof (Forall_lookup_1 _ _ _ _ Hl Hb) as Hx. unfold char_ok in Hx. lia.
Qed.

Lemma load64_ok m p l : bytes_at m p l -> length l = 8%nat -> load64 m p = Ok (le_word l).
Proof. intros H E. unfold load64. rewrite <- E. apply load_le_spec. assumption. Qed.

Lemma store64_ok m p l : Forall byte_ok l -> length l = 8%nat -> writable m p 8 ->
  exists m', store64 m p (le_word l) = Ok m' /\ bytes_at m' p l /\ eq_outside p 8 m m'.
Proof.
  intros Hl E Hw. unfold store64. destruct (store_le_spec l Hl m p) as (m' & H & ?).
  - rewrite E. exact Hw.
  - rewrite E in *. eauto.
Qed.

(** Copy and load of one word at offset [res]: what both branches of the loop
    start with. *)
Lemma user_word m dst src res l : Forall byte_ok l -> length l = 8%nat ->
  bytes_at m (src + res) l -> writable m (dst + res) 8 ->
  load64 m (src + res) = Ok (le_word l) /\
  exists m', store64 m (dst + res) (le_word l) = Ok m' /\ bytes_at m' (dst + res) l /\
    eq_outside (dst + res) 8 m m'.
Proof. intros Hl E Hs Hw. split; [apply load64_ok|apply store64_ok]; assumption. Qed.

Lemma split8 {A} (l : list A) : (8 <= length l)%nat ->
  exists l1 l2, l = l1 ++ l2 /\ length l1 = 8%nat.
Proof.
  intros H. exists (take 8 l), (drop 8 l). rewrite take_drop, length_take. split; [reflexivity|lia].
Qed.

(** The source region: the string, its NUL and the rest of the last word. *)
Definition user_region (l post : list Z) (k : nat) : Prop :=
  Forall char_ok l /\ Forall byte_ok post /\ length (l ++ 0 :: post) = (8 * S k)%nat /\
  (8 * k <= length l)%nat.

Lemma do_strncpy_from_user_ok k : forall fuel m dst src max res l post,
  user_region l post k -> 8 * Z.of_nat (S k) <= max -> (k < fuel)%nat ->
  bytes_at m (src + res) (l ++ 0 :: post) -> writable m (dst + res) (8 * Z.of_nat (S k)) ->
  dst + res + 8 * Z.of_nat (S k) <= src + res \/ src + res + 8 * Z.of_nat (S k) <= dst + res ->
  exists m', do_strncpy_from_user fuel m dst src max res = Ok (res + Z.of_nat (length l), m') /\
    bytes_at m' (dst + res) (l ++ 0 :: post) /\
    eq_outside (dst + res) (8 * Z.of_nat (S k)) m m'.
Proof.
  induction k as [|k IH]; intros [|fuel] m dst src max res l post (Hl & Hp & E & Hk) Hmax Hf Hs Hw Hd;
    try lia; simpl do_strncpy_from_user; destruct (Z.leb_spec 8 max); try lia.
  - assert (Forall byte_ok (l ++ 0 :: post)) as Hall.
    { apply Forall_app. split; [auto with xlinux|]. constructor; [unfold byte_ok; lia|assumption]. }
    destruct (user_word m dst src res (l ++ 0 :: post)) as (-> & m' & Est & Hb & Ho);
      [assumption|lia|assumption|intros a Ha; apply Hw; lia|].
    simpl. rewrite Est. simpl. destruct (word_with_nul l post Hl Hp ltac:(lia)) as [Hz ->].
    apply Z.eqb_neq in Hz. rewrite Hz. simpl. exists m'. split; [reflexivity|]. split; [exact Hb|].
    exact Ho.
  - rewrite length_app in E. simpl in E.
    destruct (split8 l) as (l1 & l2 & -> & E1); [lia|].
    apply Forall_app in Hl as [Hl1 Hl2]. rewrite length_app in E, Hk |- *.
    rewrite <- app_assoc in Hs |- *. apply bytes_at_app in Hs as [Hs1 Hs2]. rewrite E1 in Hs2.
    destruct (user_word m dst src res l1) as (-> & m1 & Est & Hb & Ho);
      [auto with xlinux|assumption|assumption|intros a Ha; apply Hw; lia|].
    simpl. rewrite Est. simpl. rewrite (word_without_nul l1 Hl1 E1). simpl.
    destruct (IH fuel m1 dst src (max - 8) (res + 8) l2 post) as (m' & Er & Hb' & Ho').
    + split; [assumption|]. split; [assumption|]. rewrite length_app. simpl. lia.
    + lia.
    + lia.
    + rewrite Z.add_assoc. eapply bytes_at_frame; [exact Ho| |exact Hs2].
      rewrite length_app. simpl. lia.
    + rewrite Z.add_assoc. intros a Ha. rewrite Ho by lia. apply Hw. lia.
    + lia.
    + exists m'. split; [rewrite Er; f_equal; f_equal; lia|]. rewrite Z.add_assoc in *. split.
      * apply bytes_at_app. rewrite E1. split; [|exact Hb'].
        eapply bytes_at_frame; [exact Ho'| |exact Hb]. lia.
      * intros a Ha. rewrite Ho', Ho by lia. reflexivity.
Qed.

(** When the first [max / 8] words hold no NUL, the loop runs off its end. *)
Lemma do_strncpy_from_user_panic n : forall fuel m dst src max res l,
  Forall char_ok l -> length l = (8 * n)%nat -> 8 * Z.of_nat n <= max < 8 * Z.of_nat n + 8 ->
  (n <= fuel)%nat -> bytes_at m (src + res) l -> writable m (dst + res) (8 * Z.of_nat n) ->
  dst + res + 8 * Z.of_nat n <= src + res \/ src + res + 8 * Z.of_nat n <= dst + res ->
  do_strncpy_from_user fuel m dst src max res = Panic "do_strncpy_from_user".
Proof.
  induction n as [|n IH]; intros fuel m dst src max res l Hl E Hmax Hf Hs Hw Hd.
  - destruct fuel; simpl; destruct (Z.leb_spec 8 max); (lia || reflexivity).
  - destruct fuel as [|fuel]; [lia|]. simpl. destruct (Z.leb_spec 8 max); [|lia].
    destruct (split8 l) as (l1 & l2 & -> & E1); [lia|].
    apply Forall_app in Hl as [Hl1 Hl2]. rewrite length_app in E.
    apply bytes_at_app in Hs as [Hs1 Hs2]. rewrite E1 in Hs2.
    destruct (user_word m dst src res l1) as (-> & m1 & Est & Hb & Ho);
      [auto with xlinux|assumption|assumption|intros a Ha; apply Hw; lia|].
    simpl. rewrite Est. simpl. rewrite (word_without_nul l1 Hl1 E1). simpl.
    apply IH with (l := l2); rewrite ?Z.add_assoc; try assumption; try lia.
    + eapply bytes_at_frame; [exact Ho| |exact Hs2]. lia.
    + intros a Ha. rewrite Ho by lia. apply Hw. lia.
Qed.

Lemma access_ok_prefix seg src max : 0 <= src < seg -> seg < 2 ^ 64 -> 0 < max <= seg - src ->
  __access_ok seg src max = true.
Proof.
  intros Hs Hseg Hm. unfold __access_ok. rewrite u64_small by (unfold is_u64; lia).
  apply andb_true_iff. split; apply Z.leb_le; lia.
Qed.

(** The limit [strncpy_from_user] passes to its loop. *)
Definition user_max (seg src count : Z) : Z := Z.min (seg - src) count.

Lemma strncpy_from_user_loop seg m dst src count : 0 <= src < seg -> seg < 2 ^ 64 -> 0 < count ->
  strncpy_from_user seg m dst src count =
  do_strncpy_from_user (Z.to_nat (user_max seg src count / 8)) m dst src (user_max seg src count) 0.
Proof.
  intros Hs Hseg Hc. unfold strncpy_from_user, user_max.
  destruct (Z.leb_spec count 0); [lia|]. destruct (Z.ltb_spec src seg); [|lia].
  replace (if count <? seg - src then count else seg - src) with (Z.min (seg - src) count)
    by (zcases; lia).
  rewrite access_ok_prefix by lia. reflexivity.
Qed.


(** The comment on [do_strncpy_from_user] says that it returns [count] when
    it hits the count.  The byte-wise tail was removed: when the words that fit
    in the limit hold no NUL, the call panics. *)
Theorem strncpy_from_user_unterminated_panics seg m dst src count l :
  Forall char_ok l -> 0 <= src < seg -> seg < 2 ^ 64 -> 0 < count ->
  Z.of_nat (length l) = 8 * (user_max seg src count / 8) ->
  bytes_at m src l -> writable m dst (Z.of_nat (length l)) ->
  dst + Z.of_nat (length l) <= src \/ src + Z.of_nat (length l) <= dst ->
  strncpy_from_user seg m dst src count = Panic "do_strncpy_from_user".
Proof.
  intros Hl Hs Hseg Hc El Hb Hw Hd.
  rewrite strncpy_from_user_loop by assumption. set (max := user_max seg src count) in *.
  assert (0 < max) by (unfold max, user_max; lia).
  pose proof (Z.div_mod max 8). pose proof (Z.mod_pos_bound max 8).
  apply do_strncpy_from_user_panic with (n := Z.to_nat (max / 8)) (l := l);
    rewrite ?Z.add_0_r, ?Z2Nat.id in * by lia; rewrite ?El in *; try assumption; try lia.
Qed.

(** [strncpy_from_user] refuses a source at or above the address limit
    with [-EFAULT], copies nothing for a count that is not positive, and leaves
    memory alone in both cases. *)
Theorem strncpy_from_user_errors seg m dst src count :
  (count <= 0 -> strncpy_from_user seg m dst src count = Ok (0, m)) /\
  (0 < count -> seg <= src -> strncpy_from_user seg m dst src count = Ok (- EFAULT, m)).
Proof.
  unfold strncpy_from_user. split; intros.
  - destruct (Z.leb_spec count 0); [reflexivity|lia].
  - destruct (Z.leb_spec count 0); [lia|]. destruct (Z.ltb_spec src seg); [lia|reflexivity].
Qed.

(** ** Witnesses *)

Definition w_mem : mem :=
  list_to_map (zip (seqZ 1000 48) ([1; 2; 3; 4; 5; 6; 7; 0] ++ replicate 8 9 ++ replicate 32 7)).

Lemma w_mem_writable p n : 1000 <= p -> p + n <= 1048 -> writable w_mem p n.
Proof.
  intros Hp Hn.
  assert (bytes_at w_mem 1000 ([1; 2; 3; 4; 5; 6; 7; 0] ++ replicate 8 9 ++ replicate 32 7)) as H
    by (vm_compute; repeat split).
  apply bytes_at_writable in H. simpl length in H. intros a Ha. apply H.
  change (Z.of_nat 48) with 48. lia.
Qed.

Ltac solve_bytes := repeat constructor; unfold byte_ok, char_ok; lia.

Lemma memmove_copies_witness : exists m',
  memmove w_mem 1002 1000 5 = Ok (1002, m') /\ bytes_at m' 1002 [1; 2; 3; 4; 5] /\
  eq_outside 1002 5 w_mem m'.
Proof.
  apply (memmove_copies w_mem 1002 1000 [1; 2; 3; 4; 5]).
  - solve_bytes.
  - vm_compute. repeat split.
  - apply w_mem_writable; simpl; lia.
Defined.

Lemma w_mem_cstr : cstr w_mem 1000 [1; 2; 3; 4; 5; 6; 7].
Proof. split; [vm_compute; repeat split | solve_bytes]. Qed.

Lemma strlcpy_truncates_witness : exists m',
  strlcpy 8 w_mem 1020 1000 4 = Ok (7, m') /\ bytes_at m' 1020 [1; 2; 3; 0] /\
  eq_outside 1020 4 w_mem m'.
Proof.
  apply (strlcpy_truncates 8 w_mem 1020 1000 [1; 2; 3; 4; 5; 6; 7] 4).
  - exact w_mem_cstr.
  - simpl. lia.
  - lia.
  - apply w_mem_writable; lia.
  - simpl. lia.
Defined.

Lemma strncmp_lexicographic_witness : strncmp w_mem 1000 1003 2 = Ok (-1).
Proof.
  refine (eq_trans (strncmp_lexicographic w_mem 1000 1003 [1; 2; 3; 4; 5; 6; 7] [4; 5; 6; 7] 2 _ _) _).
  - exact w_mem_cstr.
  - split; [vm_compute; repeat split | solve_bytes].
  - vm_compute. reflexivity.
Defined.


Lemma strncpy_from_user_unterminated_panics_witness :
  strncpy_from_user 1040 w_mem 1024 1008 8 = Panic "do_strncpy_from_user".
Proof.
  apply (strncpy_from_user_unterminated_panics 1040 w_mem 1024 1008 8 (replicate 8 9)).
  - solve_bytes.
  - lia.
  - lia.
  - lia.
  - vm_compute. reflexivity.
  - vm_compute. repeat split.
  - apply w_mem_writable; simpl; lia.
  - simpl. lia.
Defined.

Lemma strncpy_from_user_errors_witness :
  strncpy_from_user 1040 w_mem 1024 1040 8 = Ok (-14, w_mem).
Proof. apply (strncpy_from_user_errors 1040 w_mem 1024 1040 8); lia. Defined.
