(* ===== verification/Memblock.v ===== *)
(** * memblock/memblock.c: the boot-time memory allocator

    Two arrays of regions, the memory there is and the memory reserved, each
    with a count and a capacity.  [memblock_add_range] adds a range in two
    passes and merges neighbours; the iterators enumerate memory that is not
    reserved; the allocator takes the highest fitting address and reserves it;
    [memblock_free_all] hands what is left to the page allocator as aligned
    blocks.  Physical addresses are unsigned 64-bit. *)

From Stdlib Require Import ZArith Lia.
From stdpp Require Import base tactics numbers list strings.
From S2P Require Import Prelude Words Mem LibString.
Import list.

(** ** Data *)

Record memblock_region := Region { base : Z; size : Z }.
Record memblock_type := MkType {
  cnt : Z; rmax : Z; total_size : Z; regions : list memblock_region; name : string }.
Record memblock := MkMemblock {
  bottom_up : bool; current_limit : Z; memory : memblock_type; reserved : memblock_type }.

#[export] Instance memblock_region_eq_dec : EqDecision memblock_region.
Proof. solve_decision. Defined.

Definition INIT_MEMBLOCK_REGIONS : Z := 128.
Definition PHYS_ADDR_MAX : Z := 2 ^ 64 - 1.
Definition ULLONG_MAX : Z := 2 ^ 64 - 1.
Definition MEMBLOCK_ALLOC_ANYWHERE : Z := 2 ^ 64 - 1.
Definition SMP_CACHE_BYTES : Z := 64.

(** The static initialiser: one empty dummy entry in each array. *)
Definition memblock_init : memblock :=
  let empty := replicate (Z.to_nat INIT_MEMBLOCK_REGIONS) (Region 0 0) in
  {| bottom_up := false;
     current_limit := MEMBLOCK_ALLOC_ANYWHERE;
     memory := {| cnt := 1; rmax := INIT_MEMBLOCK_REGIONS; total_size := 0;
                  regions := empty; name := "memory" |};
     reserved := {| cnt := 1; rmax := INIT_MEMBLOCK_REGIONS; total_size := 0;
                    regions := empty; name := "reserved" |} |}.

(** ** Arrays of regions *)

Definition region_at (t : memblock_type) (i : Z) : outcome memblock_region :=
  if 0 <=? i then deref (regions t !! Z.to_nat i) else Fault.

Definition set_region (t : memblock_type) (i : Z) (r : memblock_region) : memblock_type :=
  {| cnt := cnt t; rmax := rmax t; total_size := total_size t;
     regions := <[Z.to_nat i := r]> (regions t); name := name t |}.

(** [memmove] of [n] elements within the array, from index [src] to [dst]. *)
Definition move_regions (t : memblock_type) (dst src n : Z) : outcome memblock_type :=
  let l := regions t in
  let d := Z.to_nat dst in let s := Z.to_nat src in let k := Z.to_nat n in
  if ((0 <=? dst) && (0 <=? src) && (0 <=? n) &&
      (dst + n <=? Z.of_nat (length l)) && (src + n <=? Z.of_nat (length l)))
  then Ok {| cnt := cnt t; rmax := rmax t; total_size := total_size t;
             regions := take d l ++ take k (drop s l) ++ drop (d + k) l; name := name t |}
  else Fault.

Definition with_cnt (t : memblock_type) (c : Z) : memblock_type :=
  {| cnt := c; rmax := rmax t; total_size := total_size t; regions := regions t; name := name t |}.
Definition with_total (t : memblock_type) (n : Z) : memblock_type :=
  {| cnt := cnt t; rmax := rmax t; total_size := n; regions := regions t; name := name t |}.

(** ** Adding a range *)

(** The capped size; the caller adds it to [base]. *)
Definition memblock_cap_size (base size : Z) : Z := min size (u64 (PHYS_ADDR_MAX - base)).

Definition memblock_insert_region (t : memblock_type) (idx base size : Z)
  : outcome memblock_type :=
  t ← move_regions t (idx + 1) idx (cnt t - idx);
  let t := set_region t idx (Region base size) in
  let t := with_cnt t (cnt t + 1) in
  Ok (with_total t (u64 (total_size t + size))).

(** The loop of [memblock_merge_regions]; [cnt - i] falls at each step. *)
Fixpoint memblock_merge_loop (fuel : nat) (i : Z) (t : memblock_type) : outcome memblock_type :=
  if i <? cnt t - 1 then
    match fuel with
    | O => NoFuel
    | S f =>
        this ← region_at t i;
        next ← region_at t (i + 1);
        if negb (u64 (base this + size this) =? base next)
        then memblock_merge_loop f (i + 1) t
        else
          let t := set_region t i (Region (base this) (u64 (size this + size next))) in
          t ← move_regions t (i + 1) (i + 2) (cnt t - (i + 2));
          memblock_merge_loop f i (with_cnt t (cnt t - 1))
    end
  else Ok t.
Definition memblock_merge_regions (t : memblock_type) : outcome memblock_type :=
  memblock_merge_loop (Z.to_nat (cnt t)) 0 t.

(** One pass of [memblock_add_range] over the regions: the loop ends at the
    first region above the new range or at the end of the array. *)
Fixpoint add_range_loop (fuel : nat) (insert : bool) (t : memblock_type)
    (idx nr_new base_ end_ : Z) : outcome (memblock_type * Z * Z * Z) :=
  if idx <? cnt t then
    match fuel with
    | O => NoFuel
    | S f =>
        rgn ← region_at t idx;
        let rbase := base rgn in
        let rend := u64 (rbase + size rgn) in
        if end_ <=? rbase then Ok (t, idx, nr_new, base_)
        else if rend <=? base_ then add_range_loop f insert t (idx + 1) nr_new base_ end_
        else
          '(t, idx, nr_new) ←
            (if base_ <? rbase then
               if insert
               then t ← memblock_insert_region t idx base_ (u64 (rbase - base_));
                    Ok (t, idx + 1, nr_new + 1)
               else Ok (t, idx, nr_new + 1)
             else Ok (t, idx, nr_new));
          add_range_loop f insert t (idx + 1) nr_new (min rend end_) end_
    end
  else Ok (t, idx, nr_new, base_).

(** The remaining portion, after the loop. *)
Definition add_range_rest (insert : bool) (end_ : Z) (p : memblock_type * Z * Z * Z)
  : outcome (memblock_type * Z) :=
  let '(t, idx, nr_new, base_) := p in
  if base_ <? end_ then
    if insert
    then t ← memblock_insert_region t idx base_ (u64 (end_ - base_)); Ok (t, nr_new + 1)
    else Ok (t, nr_new + 1)
  else Ok (t, nr_new).
Definition add_range_pass (insert : bool) (t : memblock_type) (base_ end_ : Z)
  : outcome (memblock_type * Z) :=
  p ← add_range_loop (Z.to_nat (cnt t)) insert t 0 0 base_ end_;
  add_range_rest insert end_ p.

Definition memblock_add_range (t : memblock_type) (base_ size_ : Z)
  : outcome (Z * memblock_type) :=
  let size_ := memblock_cap_size base_ size_ in
  let end_ := u64 (base_ + size_) in
  if size_ =? 0 then Ok (0, t)
  else
    r0 ← region_at t 0;
    if size r0 =? 0
    then Ok (0, with_total (set_region t 0 (Region base_ size_)) size_)
    else
      '(t, nr_new) ← add_range_pass false t base_ end_;
      if nr_new =? 0 then Ok (0, t)
      else if rmax t <? cnt t + nr_new then Panic "overflow"
      else
        '(t, nr_new) ← add_range_pass true t base_ end_;
        if nr_new =? 0 then Ok (0, t)
        else t ← memblock_merge_regions t; Ok (0, t).

Definition set_memory (mb : memblock) (t : memblock_type) : memblock :=
  {| bottom_up := bottom_up mb; current_limit := current_limit mb; memory := t;
     reserved := reserved mb |}.
Definition set_reserved (mb : memblock) (t : memblock_type) : memblock :=
  {| bottom_up := bottom_up mb; current_limit := current_limit mb; memory := memory mb;
     reserved := t |}.

Definition memblock_add (mb : memblock) (base size : Z) : outcome (Z * memblock) :=
  '(r, t) ← memblock_add_range (memory mb) base size; Ok (r, set_memory mb t).
Definition memblock_reserve (mb : memblock) (base size : Z) : outcome (Z * memblock) :=
  '(r, t) ← memblock_add_range (reserved mb) base size; Ok (r, set_reserved mb t).

(** ** Iterating over memory that is not reserved *)

(** The two [int] indices packed in a [u64] cursor. *)
Definition pack_idx (idx_a idx_b : Z) : Z := Z.lor (u32 idx_a) (u64 (Z.shiftl (u64 idx_b) 32)).
Definition unpack_a (idx : Z) : Z := s32 (Z.land idx 0xffffffff).
Definition unpack_b (idx : Z) : Z := s32 (Z.shiftr idx 32).

(** The gap below reservation [idx_b]: from the end of the reservation before
    it to its start. *)
Definition gap_start (tb : memblock_type) (idx_b : Z) : outcome Z :=
  if idx_b =? 0 then Ok 0
  else r ← region_at tb (idx_b - 1); Ok (u64 (base r + size r)).
Definition gap_end (tb : memblock_type) (idx_b : Z) : outcome Z :=
  if idx_b <? cnt tb then r ← region_at tb idx_b; Ok (base r) else Ok PHYS_ADDR_MAX.

(** A range to report with the next cursor, or the index [idx_b] at which the
    inner loop stopped. *)
Inductive inner_result :=
  | Found (start end_ cursor : Z)
  | Stopped (idx_b : Z).

Fixpoint next_mem_range_inner (fuel : nat) (tb : memblock_type) (m_start m_end idx_a idx_b : Z)
  : outcome inner_result :=
  if idx_b <? cnt tb + 1 then
    match fuel with
    | O => NoFuel
    | S f =>
        r_start ← gap_start tb idx_b;
        r_end ← gap_end tb idx_b;
        if m_end <=? r_start then Ok (Stopped idx_b)
        else if m_start <? r_end then
          let '(a, b) := if m_end <=? r_end then (idx_a + 1, idx_b) else (idx_a, idx_b + 1) in
          Ok (Found (max m_start r_start) (min m_end r_end) (pack_idx a b))
        else next_mem_range_inner f tb m_start m_end idx_a (idx_b + 1)
    end
  else Ok (Stopped idx_b).

Fixpoint next_mem_range_outer (fuel : nat) (ta : memblock_type) (otb : option memblock_type)
    (idx_a idx_b : Z)
  : outcome (option (Z * Z * Z)) :=
  if idx_a <? cnt ta then
    match fuel with
    | O => NoFuel
    | S f =>
        m ← region_at ta idx_a;
        let m_start := base m in
        let m_end := u64 (base m + size m) in
        match otb with
        | None => Ok (Some (m_start, m_end, pack_idx (idx_a + 1) idx_b))
        | Some tb =>
            r ← next_mem_range_inner (S (S (Z.to_nat (cnt tb)))) tb m_start m_end idx_a idx_b;
            match (r : inner_result) with
            | Found s e c => Ok (Some (s, e, c))
            | Stopped idx_b => next_mem_range_outer f ta otb (idx_a + 1) idx_b
            end
        end
    end
  else Ok None.

(** [__next_mem_range]: the range and the next cursor, or [None] where the C
    code sets the cursor to [ULLONG_MAX]. *)
Definition __next_mem_range (idx : Z) (ta : memblock_type) (otb : option memblock_type)
  : outcome (option (Z * Z * Z)) :=
  next_mem_range_outer (S (Z.to_nat (cnt ta))) ta otb (unpack_a idx) (unpack_b idx).

(** [for_each_free_mem_range]: the ranges the loop visits, in order.  The
    macro ends the loop when the cursor is [ULLONG_MAX]. *)
Fixpoint for_each_mem_range (fuel : nat) (ta : memblock_type) (otb : option memblock_type) (idx : Z)
  : outcome (list (Z * Z)) :=
  match fuel with
  | O => NoFuel
  | S f =>
      r ← __next_mem_range idx ta otb;
      match (r : option (Z * Z * Z)) with
      | None => Ok []
      | Some (s, e, c) =>
          if c =? ULLONG_MAX then Ok []
          else l ← for_each_mem_range f ta otb c; Ok ((s, e) :: l)
      end
  end.

(** The loop makes at most one step per memory region and per gap. *)
Definition for_each_free_mem_range (mb : memblock) : outcome (list (Z * Z)) :=
  for_each_mem_range (S (Z.to_nat (cnt (memory mb)) + S (Z.to_nat (cnt (reserved mb)))))
    (memory mb) (Some (reserved mb)) 0.

(** ** The same, from the top *)

Fixpoint next_mem_range_rev_inner (fuel : nat) (tb : memblock_type) (m_start m_end idx_a idx_b : Z)
  : outcome inner_result :=
  if 0 <=? idx_b then
    match fuel with
    | O => NoFuel
    | S f =>
        r_start ← gap_start tb idx_b;
        r_end ← gap_end tb idx_b;
        if r_end <=? m_start then Ok (Stopped idx_b)
        else if r_start <? m_end then
          let '(a, b) := if r_start <=? m_start then (idx_a - 1, idx_b) else (idx_a, idx_b - 1) in
          Ok (Found (max m_start r_start) (min m_end r_end) (pack_idx a b))
        else next_mem_range_rev_inner f tb m_start m_end idx_a (idx_b - 1)
    end
  else Ok (Stopped idx_b).

Fixpoint next_mem_range_rev_outer (fuel : nat) (ta : memblock_type) (otb : option memblock_type)
    (idx_a idx_b : Z) : outcome (option (Z * Z * Z)) :=
  if 0 <=? idx_a then
    match fuel with
    | O => NoFuel
    | S f =>
        m ← region_at ta idx_a;
        let m_start := base m in
        let m_end := u64 (base m + size m) in
        match otb with
        | None => Ok (Some (m_start, m_end, pack_idx (idx_a - 1) idx_b))
        | Some tb =>
            r ← next_mem_range_rev_inner (S (S (Z.to_nat idx_b))) tb m_start m_end idx_a idx_b;
            match (r : inner_result) with
            | Found s e c => Ok (Some (s, e, c))
            | Stopped idx_b => next_mem_range_rev_outer f ta otb (idx_a - 1) idx_b
            end
        end
    end
  else Ok None.

Definition __next_mem_range_rev (idx : Z) (ta : memblock_type) (otb : option memblock_type)
  : outcome (option (Z * Z * Z)) :=
  let '(idx_a, idx_b) :=
    if idx =? ULLONG_MAX
    then (cnt ta - 1, match otb with Some tb => cnt tb | None => 0 end)
    else (unpack_a idx, unpack_b idx) in
  next_mem_range_rev_outer (S (S (Z.to_nat idx_a))) ta otb idx_a idx_b.

(** ** Allocation *)

(** [__memblock_find_range_top_down]; the first call of the iterator passes
    [ULLONG_MAX], later ones end the loop on it. *)
Fixpoint find_range_top_down_loop (fuel : nat) (mb : memblock) (idx start end_ size align : Z)
  : outcome Z :=
  match fuel with
  | O => NoFuel
  | S f =>
      r ← __next_mem_range_rev idx (memory mb) (Some (reserved mb));
      match (r : option (Z * Z * Z)) with
      | None => Ok 0
      | Some (this_start, this_end, c) =>
          if c =? ULLONG_MAX then Ok 0
          else
            let this_start := clamp this_start start end_ in
            let this_end := clamp this_end start end_ in
            if this_end <? size then find_range_top_down_loop f mb c start end_ size align
            else
              let cand := round_down (u64 (this_end - size)) align in
              if this_start <=? cand then Ok cand
              else find_range_top_down_loop f mb c start end_ size align
      end
  end.
Definition __memblock_find_range_top_down (mb : memblock) (start end_ size align : Z) : outcome Z :=
  find_range_top_down_loop
    (S (S (Z.to_nat (cnt (memory mb)) + S (Z.to_nat (cnt (reserved mb))))))
    mb ULLONG_MAX start end_ size align.

Definition memblock_find_in_range_node (mb : memblock) (size align : Z) : outcome Z :=
  __memblock_find_range_top_down mb PAGE_SIZE (current_limit mb) size align.

(** [stopped] is the flag [_memblock_stopped]. *)
Definition memblock_alloc_range_nid (stopped : bool) (mb : memblock) (size align : Z)
  : outcome (Z * memblock) :=
  if stopped then Panic "memblock has been stopped!"
  else
    let align := if align =? 0 then SMP_CACHE_BYTES else align in
    found ← memblock_find_in_range_node mb size align;
    if found =? 0 then Ok (0, mb)
    else
      '(err, mb) ← memblock_reserve mb found size;
      if negb (err =? 0) then Ok (0, mb) else Ok (found, mb).

Definition memblock_phys_alloc_range := memblock_alloc_range_nid.

(** [phys_to_virt]; the offset of the linear map is [va_pa_offset]. *)
Definition phys_to_virt (va_pa_offset pa : Z) : Z := (pa +u va_pa_offset)%W.

Definition memblock_alloc_internal (va_pa_offset : Z) (stopped : bool) (mb : memblock) (size align : Z)
  : outcome (Z * memblock) :=
  '(alloc, mb) ← memblock_alloc_range_nid stopped mb size align;
  if alloc =? 0 then Ok (0, mb) else Ok (phys_to_virt va_pa_offset alloc, mb).

(** [memblock_alloc_try_nid]: the block is cleared through its virtual
    address. *)
Definition memblock_alloc_try_nid (va_pa_offset : Z) (stopped : bool) (mb : memblock) (m : mem) (size align : Z)
  : outcome (Z * memblock * mem) :=
  '(ptr, mb) ← memblock_alloc_internal va_pa_offset stopped mb size align;
  if ptr =? 0 then Ok (ptr, mb, m)
  else m ← memset m ptr 0 size; Ok (ptr, mb, m).

Definition memblock_start_of_DRAM (mb : memblock) : outcome Z :=
  r ← region_at (memory mb) 0; Ok (base r).
Definition memblock_end_of_DRAM (mb : memblock) : outcome Z :=
  r ← region_at (memory mb) (cnt (memory mb) - 1); Ok (u64 (base r + size r)).

(** ** Handing memory to the page allocator *)

Definition MAX_ORDER : Z := 11.

(** [while (start + (1UL << order) > end) order--;] *)
Fixpoint shrink_order (fuel : nat) (start end_ order : Z) : outcome Z :=
  if end_ <? u64 (start + u64 (Z.shiftl 1 order)) then
    match fuel with
    | O => NoFuel
    | S f => shrink_order f start end_ (order - 1)
    end
  else Ok order.

(** The blocks [(pfn, order)] that [__free_pages_memory] passes to
    [memblock_free_pages], in order. *)
Fixpoint __free_pages_memory (fuel : nat) (start end_ : Z) : outcome (list (Z * Z)) :=
  if start <? end_ then
    match fuel with
    | O => NoFuel
    | S f =>
        order ← shrink_order 64 start end_ (min (MAX_ORDER - 1) (__ffs start));
        l ← __free_pages_memory f (u64 (start + u64 (Z.shiftl 1 order))) end_;
        Ok ((start, order) :: l)
    end
  else Ok [].

(** The blocks and the number of pages of one free range. *)
Definition __free_memory_core (max_low_pfn start end_ : Z) : outcome (list (Z * Z) * Z) :=
  let start_pfn := PFN_UP start in
  let end_pfn := min (PFN_DOWN end_) max_low_pfn in
  if end_pfn <=? start_pfn then Ok ([], 0)
  else
    l ← __free_pages_memory (Z.to_nat (end_pfn - start_pfn)) start_pfn end_pfn;
    Ok (l, u64 (end_pfn - start_pfn)).

(** [__next_reserved_mem_region]: inclusive bounds of reservation [idx]. *)
Definition __next_reserved_mem_region (mb : memblock) (idx : Z) : outcome (option (Z * Z * Z)) :=
  if idx <? cnt (reserved mb)
  then r ← region_at (reserved mb) idx;
       Ok (Some (base r, u64 (u64 (base r + size r) - 1), idx + 1))
  else Ok None.

Fixpoint for_each_reserved_mem_region (fuel : nat) (mb : memblock) (idx : Z)
  : outcome (list (Z * Z)) :=
  match fuel with
  | O => NoFuel
  | S f =>
      r ← __next_reserved_mem_region mb idx;
      match (r : option (Z * Z * Z)) with
      | None => Ok []
      | Some (s, e, c) => l ← for_each_reserved_mem_region f mb c; Ok ((s, e) :: l)
      end
  end.

(** The second loop of [free_low_memory_core_early]. *)
Fixpoint free_ranges_loop (max_low_pfn : Z) (ranges : list (Z * Z)) (count : Z)
  : outcome (list (Z * Z) * Z) :=
  match ranges with
  | [] => Ok ([], count)
  | (s, e) :: rest =>
      '(l, n) ← __free_memory_core max_low_pfn s e;
      '(l', c) ← free_ranges_loop max_low_pfn rest (u64 (count + n));
      Ok (l ++ l', c)
  end.

(** The calls it makes through [reserve_bootmem_region_fn] and
    [free_pages_core_fn], as lists of arguments, and the number of pages. *)
Definition free_low_memory_core_early (max_low_pfn : Z) (mb : memblock)
  : outcome (list (Z * Z) * list (Z * Z) * Z) :=
  res ← for_each_reserved_mem_region (S (Z.to_nat (cnt (reserved mb)))) mb 0;
  ranges ← for_each_free_mem_range mb;
  '(l, count) ← free_ranges_loop max_low_pfn ranges 0;
  Ok (res, l, count).

(** The globals [memblock_free_all] works on: the allocator, the flags
    [_memblock_stopped] and [reset_managed_pages_done], the zones'
    [managed_pages] and [_totalram_pages]. *)
Record boot_state := MkBoot {
  bs_memblock : memblock; bs_stopped : bool; bs_reset_done : bool;
  bs_managed_pages : list Z; bs_totalram_pages : Z }.

Definition reset_node_managed_pages (managed : list Z) : list Z := (fun _ => 0) <$> managed.

Definition reset_all_zones_managed_pages (st : boot_state) : boot_state :=
  if bs_reset_done st then st
  else {| bs_memblock := bs_memblock st; bs_stopped := bs_stopped st; bs_reset_done := true;
          bs_managed_pages := reset_node_managed_pages (bs_managed_pages st);
          bs_totalram_pages := bs_totalram_pages st |}.

(** The pages released, the calls made and the new globals. *)
Definition memblock_free_all (max_low_pfn : Z) (st : boot_state)
  : outcome (Z * list (Z * Z) * list (Z * Z) * boot_state) :=
  if bs_stopped st then Panic "memblock has been stopped!"
  else
    let st := {| bs_memblock := bs_memblock st; bs_stopped := true;
                 bs_reset_done := bs_reset_done st; bs_managed_pages := bs_managed_pages st;
                 bs_totalram_pages := bs_totalram_pages st |} in
    let st := reset_all_zones_managed_pages st in
    '(res, l, pages) ← free_low_memory_core_early max_low_pfn (bs_memblock st);
    let st := {| bs_memblock := bs_memblock st; bs_stopped := bs_stopped st;
                 bs_reset_done := bs_reset_done st; bs_managed_pages := bs_managed_pages st;
                 bs_totalram_pages := s64 (bs_totalram_pages st + pages) |} in
    Ok (pages, res, l, st).

(** [__next_mem_pfn_range]: the next memory region that holds a whole page. *)
Fixpoint __next_mem_pfn_range (fuel : nat) (mb : memblock) (idx : Z)
  : outcome (option (Z * Z * Z)) :=
  let idx := idx + 1 in
  if idx <? cnt (memory mb) then
    match fuel with
    | O => NoFuel
    | S f =>
        r ← region_at (memory mb) idx;
        let s := PFN_UP (base r) in
        let e := PFN_DOWN (u64 (base r + size r)) in
        if e <=? s then __next_mem_pfn_range f mb idx else Ok (Some (s, e, idx))
    end
  else Ok None.

Definition mb_ex : outcome memblock :=
  '(_, mb) ← memblock_add memblock_init 0x80000000 0x8000000;
  '(_, mb) ← memblock_reserve mb 0x80200000 0x400000;
  '(_, mb) ← memblock_reserve mb 0x80700000 0x3000;
  '(_, mb) ← memblock_reserve mb 0x80600000 0x180000;
  '(_, mb) ← memblock_alloc_range_nid false mb 0x3001 0x1000;
  Ok mb.
Example mb_ex_regions :
  (fun mb => (take (Z.to_nat (cnt (reserved mb))) (regions (reserved mb)), total_size (reserved mb)))
    <$> mb_ex
  = Ok ([Region 0x80200000 0x580000; Region 0x87ffc000 0x3001], 0x580000 + 0x3001).
Proof. vm_compute. reflexivity. Qed.
Example mb_ex_free :
  (mb ← mb_ex; for_each_free_mem_range mb)
  = Ok [(0x80000000, 0x80200000); (0x80780000, 0x87ffc000); (0x87fff001, 0x88000000)].
Proof. vm_compute. reflexivity. Qed.
Example free_pages_ex :
  __free_pages_memory 100 0x80001 0x80010
  = Ok [(0x80001, 0); (0x80002, 1); (0x80004, 2); (0x80008, 3)].
Proof. vm_compute. reflexivity. Qed.

(** ** Lists of regions *)

Definition rend (r : memblock_region) : Z := base r + size r.
Definition in_region (r : memblock_region) (x : Z) : Prop := base r <= x < rend r.

(** The addresses a list of regions covers. *)
Definition covers (l : list memblock_region) (x : Z) : Prop := Exists (fun r => in_region r x) l.

(** Ascending regions that do not overlap, at or above [lo]; none is empty and
    none passes the last address. *)
Fixpoint ascending (lo : Z) (l : list memblock_region) : Prop :=
  match l with
  | [] => True
  | r :: l' => lo <= base r /\ 0 < size r /\ rend r <= PHYS_ADDR_MAX /\ ascending (rend r) l'
  end.

(** Ascending with a gap between neighbours: what merging establishes. *)
Fixpoint separated (l : list memblock_region) : Prop :=
  match l with
  | r :: ((r' :: _) as l') => rend r < base r' /\ separated l'
  | _ => True
  end.

(** The list that the inserting pass builds. *)
Fixpoint ins_ranges (l : list memblock_region) (b e : Z) : list memblock_region :=
  match l with
  | [] => if b <? e then [Region b (e - b)] else []
  | r :: l' =>
      if e <=? base r then (if b <? e then Region b (e - b) :: l else l)
      else if rend r <=? b then r :: ins_ranges l' b e
      else (if b <? base r then [Region b (base r - b)] else [])
           ++ r :: ins_ranges l' (Z.min (rend r) e) e
  end.

(** Merging neighbours, with [r] the region being grown. *)
Fixpoint merge_from (r : memblock_region) (l : list memblock_region) : list memblock_region :=
  match l with
  | [] => [r]
  | r' :: l' =>
      if rend r =? base r' then merge_from (Region (base r) (size r + size r')) l'
      else r :: merge_from r' l'
  end.
Definition merge_ranges (l : list memblock_region) : list memblock_region :=
  match l with [] => [] | r :: l' => merge_from r l' end.

Fixpoint sum_sizes (l : list memblock_region) : Z :=
  match l with [] => 0 | r :: l' => size r + sum_sizes l' end.

Lemma covers_cons r l x : covers (r :: l) x <-> in_region r x \/ covers l x.
Proof. apply Exists_cons. Qed.

Lemma covers_nil x : covers [] x <-> False.
Proof. apply Exists_nil. Qed.

Lemma covers_app l1 l2 x : covers (l1 ++ l2) x <-> covers l1 x \/ covers l2 x.
Proof. apply Exists_app. Qed.

Lemma ascending_weaken lo lo' l : lo' <= lo -> ascending lo l -> ascending lo' l.
Proof. destruct l; simpl; [trivial|]. intros. intuition lia. Qed.

Lemma ascending_covers lo l x : ascending lo l -> covers l x -> lo <= x < PHYS_ADDR_MAX.
Proof.
  revert lo. induction l as [|r l IH]; intros lo H Hc; [destruct (proj1 (covers_nil x) Hc)|].
  destruct H as (H1 & H2 & H3 & H4). apply covers_cons in Hc as [Hc|Hc].
  - unfold in_region, rend in *. lia.
  - specialize (IH _ H4 Hc). unfold rend in *. lia.
Qed.

(** Inserting adds exactly the new range and keeps the order. *)
Lemma ins_ranges_spec l lo b e : ascending lo l -> b <= e -> e <= PHYS_ADDR_MAX ->
  ascending (if b <? e then Z.min lo b else lo) (ins_ranges l b e) /\
  (forall x, covers (ins_ranges l b e) x <-> covers l x \/ b <= x < e).
Proof.
  revert lo b. induction l as [|r l IH]; intros lo b Ha Hbe He; simpl.
  - destruct (Z.ltb_spec b e); simpl; split.
    + unfold rend; simpl; intuition lia.
    + intros x. rewrite covers_cons, covers_nil. unfold in_region, rend. simpl. intuition lia.
    + trivial.
    + intros x. rewrite covers_nil. intuition lia.
  - destruct Ha as (H1 & H2 & H3 & H4). destruct (Z.leb_spec e (base r)).
    + destruct (Z.ltb_spec b e); split.
      * simpl. unfold rend in *. simpl. intuition lia.
      * intros x. rewrite !covers_cons. unfold in_region, rend. simpl. intuition lia.
      * simpl. auto.
      * intros x. intuition lia.
    + destruct (Z.leb_spec (rend r) b).
      * destruct (IH (rend r) b H4 Hbe He) as [A C]. split.
        -- simpl. destruct (Z.ltb_spec b e); [replace (Z.min (rend r) b) with (rend r) in A by lia|];
             intuition lia.
        -- intros x. rewrite !covers_cons, C. tauto.
      * destruct (IH (rend r) (Z.min (rend r) e) H4 ltac:(lia) He) as [A C].
        apply (ascending_weaken _ (rend r)) in A; [|destruct (Z.ltb_spec (Z.min (rend r) e) e); lia]. split.
        -- destruct (Z.ltb_spec b (base r)), (Z.ltb_spec b e); simpl; unfold rend in *; simpl;
             intuition lia.
        -- intros x. rewrite covers_app, covers_cons, C, covers_cons.
           assert (covers (if b <? base r then [Region b (base r - b)] else []) x <->
                   b <= x < base r) as ->.
           { destruct (Z.ltb_spec b (base r)); [rewrite covers_cons|]; rewrite covers_nil;
               unfold in_region, rend; simpl; intuition lia. }
           unfold in_region, rend in *. intuition lia.
Qed.

Lemma merge_from_spec l : forall r lo, ascending lo (r :: l) ->
  ascending lo (merge_from r l) /\ separated (merge_from r l) /\
  (forall x, covers (merge_from r l) x <-> covers (r :: l) x) /\
  (exists n tl, merge_from r l = Region (base r) n :: tl).
Proof.
  induction l as [|r' l IH]; intros r lo (H1 & H2 & H3 & H4); simpl.
  - split; [tauto|]. split; [trivial|]. split; [tauto|]. destruct r; eauto.
  - destruct H4 as (H5 & H6 & H7 & H8). destruct (Z.eqb_spec (rend r) (base r')) as [E|NE].
    + destruct (IH (Region (base r) (size r + size r')) lo) as (A & S & C & n & tl & E2).
      * simpl. unfold rend in *. simpl. rewrite <- E in *.
        replace (base r + (size r + size r')) with (base r + size r + size r') by lia.
        intuition lia.
      * split; [exact A|]. split; [exact S|]. split; [|eauto].
        intros x. rewrite C, !covers_cons. unfold in_region, rend in *. simpl. intuition lia.
    + destruct (IH r' (rend r)) as (A & S & C & n & tl & E); [simpl; auto|]. split.
      * simpl. auto.
      * split; [rewrite E in S |- *; split; [simpl; lia|exact S]|]. split.
        -- intros x. rewrite !covers_cons, C, !covers_cons. tauto.
        -- destruct r; eauto.
Qed.

Lemma merge_ranges_spec l lo : ascending lo l ->
  ascending lo (merge_ranges l) /\ separated (merge_ranges l) /\
  (forall x, covers (merge_ranges l) x <-> covers l x).
Proof.
  destruct l as [|r l]; simpl; [tauto|]. intros H.
  destruct (merge_from_spec l r lo H) as (A & S & C & _). auto.
Qed.

Lemma sum_sizes_app l1 l2 : sum_sizes (l1 ++ l2) = sum_sizes l1 + sum_sizes l2.
Proof. induction l1; simpl; lia. Qed.

Lemma merge_ranges_sum l : sum_sizes (merge_ranges l) = sum_sizes l.
Proof.
  destruct l as [|r l]; [reflexivity|]. simpl. revert r.
  induction l as [|r' l IH]; intros r; simpl; [lia|].
  destruct (_ =? _); simpl; rewrite IH; simpl; lia.
Qed.

(** ** From arrays to lists of regions *)

Definition rgns (t : memblock_type) : list memblock_region := take (Z.to_nat (cnt t)) (regions t).

(** The count is between 1 and the capacity, the length of the array. *)
Definition shape (t : memblock_type) : Prop :=
  1 <= cnt t <= rmax t /\ rmax t = Z.of_nat (length (regions t)) /\ rmax t < 2 ^ 30.

Lemma length_rgns t : shape t -> Z.of_nat (length (rgns t)) = cnt t.
Proof. intros [H1 [H2 _]]. unfold rgns. rewrite length_take. lia. Qed.

Lemma region_at_rgns t i r : shape t -> rgns t !! i = Some r -> region_at t (Z.of_nat i) = Ok r.
Proof.
  intros Hs H. unfold region_at. destruct (Z.leb_spec 0 (Z.of_nat i)); [|lia].
  rewrite Nat2Z.id. unfold rgns in H. apply lookup_take_Some in H as [-> _]. reflexivity.
Qed.

Lemma region_at_app t i r pre l : shape t -> rgns t = pre ++ r :: l -> i = Z.of_nat (length pre) ->
  region_at t i = Ok r.
Proof.
  intros Hs E ->. apply region_at_rgns; [assumption|]. rewrite E.
  rewrite lookup_app_r, Nat.sub_diag by lia. reflexivity.
Qed.

Lemma shift_up {A} (L : list A) (i c : nat) r : (i <= c < length L)%nat ->
  take (S c) (<[i := r]> (take (S i) L ++ take (c - i) (drop i L) ++ drop (S c) L)) =
  take i (take c L) ++ r :: drop i (take c L).
Proof.
  intros H. destruct (lookup_lt_is_Some_2 L i) as [x Hx]; [lia|].
  rewrite (take_S_r _ _ _ Hx), <- app_assoc. simpl.
  rewrite insert_app_r_alt by (rewrite length_take; lia).
  replace (i - length (take i L))%nat with 0%nat by (rewrite length_take; lia). simpl.
  rewrite take_take, Nat.min_l by lia. rewrite skipn_firstn_comm.
  replace (S c) with (length (take i L) + S (length (take (c - i) (drop i L))))%nat
    by (rewrite !length_take, length_drop; lia).
  rewrite firstn_app_2. f_equal. simpl. f_equal. rewrite take_app_le by lia.
  apply take_ge. lia.
Qed.

Lemma shift_down {A} (L : list A) (i c : nat) : (S i < c <= length L)%nat ->
  take (c - 1) (take (S i) L ++ take (c - (S (S i))) (drop (S (S i)) L) ++ drop (S i + (c - S (S i))) L) =
  take (S i) (take c L) ++ drop (S (S i)) (take c L).
Proof.
  intros H. rewrite take_take, Nat.min_l, skipn_firstn_comm by lia.
  replace (c - 1)%nat with (length (take (S i) L) + (length (take (c - S (S i)) (drop (S (S i)) L)) + 0))%nat
    by (rewrite !length_take, length_drop; lia).
  rewrite firstn_app_2, firstn_app_2. simpl. rewrite app_nil_r. reflexivity.
Qed.

Lemma memblock_insert_region_spec t idx b s pre l : shape t -> cnt t < rmax t ->
  rgns t = pre ++ l -> idx = Z.of_nat (length pre) ->
  exists t', memblock_insert_region t idx b s = Ok t' /\ shape t' /\ rmax t' = rmax t /\
    name t' = name t /\ rgns t' = pre ++ Region b s :: l /\ total_size t' = u64 (total_size t + s).
Proof.
  intros Hs Hc E ->. pose proof Hs as (H1 & H2 & H3).
  pose proof (length_rgns t Hs) as Hl. rewrite E, length_app in Hl.
  unfold memblock_insert_region, move_regions.
  replace (Z.to_nat (Z.of_nat (length pre) + 1)) with (S (length pre)) by lia.
  rewrite Nat2Z.id.
  replace (Z.to_nat (cnt t - Z.of_nat (length pre))) with (Z.to_nat (cnt t) - length pre)%nat by lia.
  repeat match goal with |- context [Z.leb ?x ?y] => destruct (Z.leb_spec x y); [|lia] end.
  simpl. eexists. split; [reflexivity|].
  pose proof (shift_up (regions t) (length pre) (Z.to_nat (cnt t)) (Region b s) ltac:(lia)) as Hsh.
  fold (rgns t) in Hsh. rewrite E, take_app_length, drop_app_length in Hsh.
  unfold shape, rgns, with_total, with_cnt, set_region. simpl. rewrite Nat2Z.id.
  replace (Z.to_nat (cnt t + 1)) with (S (Z.to_nat (cnt t))) by lia.
  replace (length pre + (Z.to_nat (cnt t) - length pre))%nat with (Z.to_nat (cnt t)) by lia.
  split; [|auto].
  rewrite length_insert, !length_app, !length_take, !length_drop. lia.
Qed.

Lemma memblock_merge_loop_spec l : forall fuel t i pre r, shape t -> rgns t = pre ++ r :: l ->
  i = Z.of_nat (length pre) -> (length l <= fuel)%nat -> ascending 0 (r :: l) ->
  exists t', memblock_merge_loop fuel i t = Ok t' /\ shape t' /\ rmax t' = rmax t /\
    name t' = name t /\ rgns t' = pre ++ merge_from r l /\ total_size t' = total_size t.
Proof.
  induction l as [|r' l IH]; intros fuel t i pre r Hs E -> Hf Ha.
  - pose proof (length_rgns t Hs) as Hl. rewrite E, length_app in Hl. simpl in Hl.
    exists t. split; [|auto]. destruct fuel; simpl; destruct (Z.ltb_spec (Z.of_nat (length pre)) (cnt t - 1));
      (lia || reflexivity).
  - pose proof Hs as (H1 & H2 & H3). pose proof (length_rgns t Hs) as Hl.
    rewrite E, length_app in Hl. simpl in Hl. destruct fuel as [|fuel]; [simpl in Hf; lia|].
    cbn [memblock_merge_loop]. destruct (Z.ltb_spec (Z.of_nat (length pre)) (cnt t - 1)); [|lia].
    rewrite (region_at_app t (Z.of_nat (length pre)) r pre (r' :: l)) by (assumption || reflexivity).
    assert (rgns t = (pre ++ [r]) ++ r' :: l) as E' by (rewrite <- app_assoc; exact E).
    rewrite (region_at_app t (Z.of_nat (length pre) + 1) r' (pre ++ [r]) l); [|assumption..|rewrite length_app; simpl; lia].
    simpl in Ha. destruct Ha as (A1 & A2 & A3 & A4 & A5 & A6 & A7). unfold PHYS_ADDR_MAX, rend in *.
    cbn [mbind outcome_bind]. rewrite (u64_small (base r + size r)) by (unfold is_u64; lia).
    simpl. unfold rend. destruct (Z.eqb_spec (base r + size r) (base r')) as [Eb|Nb]; simpl.
    + rewrite u64_small by (unfold is_u64; lia).
      unfold move_regions. simpl. rewrite length_insert.
      repeat match goal with |- context [Z.leb ?x ?y] => destruct (Z.leb_spec x y); [|lia] end.
      simpl. rewrite Nat2Z.id.
      set (rr := Region (base r) (size r + size r')).
      replace (Z.to_nat (Z.of_nat (length pre) + 1)) with (S (length pre)) by lia.
      replace (Z.to_nat (Z.of_nat (length pre) + 2)) with (S (S (length pre))) by lia.
      replace (Z.to_nat (cnt t - (Z.of_nat (length pre) + 2))) with (Z.to_nat (cnt t) - S (S (length pre)))%nat by lia.
      set (t2 := with_cnt _ _).
      assert (rgns t2 = pre ++ rr :: l) as E2.
      { unfold t2, rgns, with_cnt. simpl.
        replace (Z.to_nat (cnt t - 1)) with (Z.to_nat (cnt t) - 1)%nat by lia.
        rewrite shift_down by (rewrite length_insert; lia).
        assert (take (Z.to_nat (cnt t)) (<[length pre := rr]> (regions t)) = pre ++ rr :: r' :: l) as ->.
        { rewrite take_insert_lt by lia. fold (rgns t). rewrite E.
          rewrite insert_app_r_alt, Nat.sub_diag by lia. reflexivity. }
        replace (pre ++ rr :: r' :: l) with ((pre ++ [rr]) ++ r' :: l) by (rewrite <- app_assoc; reflexivity).
        assert (length (pre ++ [rr]) = S (length pre)) as El by (rewrite length_app; simpl; lia).
        rewrite <- El at 1. rewrite take_app_length, <- app_assoc. simpl. f_equal. f_equal.
        rewrite drop_app_ge by lia.
        replace (S (S (length pre)) - length (pre ++ [rr]))%nat with 1%nat by lia. reflexivity. }
      destruct (IH fuel t2 (Z.of_nat (length pre)) pre rr) as (t' & Er & S' & R' & N' & G' & T').
      * unfold shape, t2, with_cnt. simpl.
        rewrite !length_app, !length_take, !length_drop, length_insert. lia.
      * exact E2.
      * reflexivity.
      * simpl in Hf. lia.
      * unfold rr. simpl. unfold rend. simpl.
        replace (base r + (size r + size r')) with (base r' + size r') by lia. intuition lia.
      * exists t'. split; [exact Er|]. split; [exact S'|]. split; [exact R'|]. split; [exact N'|].
        split; [exact G'|exact T'].
    + destruct (IH fuel t (Z.of_nat (length pre) + 1) (pre ++ [r]) r') as (t' & Er & S' & R' & N' & G' & T').
      * assumption.
      * exact E'.
      * rewrite length_app. simpl. lia.
      * simpl in Hf. lia.
      * simpl. unfold rend. intuition lia.
      * exists t'. split; [exact Er|]. split; [exact S'|]. split; [exact R'|]. split; [exact N'|].
        split; [rewrite G', <- app_assoc; reflexivity|exact T'].
Qed.

Lemma u64_add_l a b : u64 (u64 a + b) = u64 (a + b).
Proof. unfold u64. apply Z.add_mod_idemp_l. lia. Qed.

Lemma ins_ranges_length l b e : (length l <= length (ins_ranges l b e))%nat.
Proof.
  revert b. induction l as [|r l IH]; intros b; simpl; [lia|].
  destruct (_ <=? _); [destruct (_ <? _); simpl; lia|].
  destruct (_ <=? _); [simpl; specialize (IH b); lia|].
  rewrite length_app. simpl. specialize (IH (Z.min (rend r) e)). lia.
Qed.

Definition bindp (m : outcome (memblock_type * Z * Z * Z)) (insert : bool) (e : Z) :=
  p ← m; add_range_rest insert e p.

(** The counting pass changes nothing and counts the regions to come. *)
Lemma add_range_count l : forall fuel t idx nr b e pre lo, shape t -> rgns t = pre ++ l ->
  idx = Z.of_nat (length pre) -> (length l <= fuel)%nat -> ascending lo l -> 0 <= lo ->
  0 <= b <= e -> e <= PHYS_ADDR_MAX ->
  bindp (add_range_loop fuel false t idx nr b e) false e =
  Ok (t, nr + Z.of_nat (length (ins_ranges l b e) - length l)).
Proof.
  induction l as [|r l IH]; intros fuel t idx nr b e pre lo Hs E -> Hf Ha Hlo Hb He;
    pose proof (length_rgns t Hs) as Hl; rewrite E, length_app in Hl; simpl in Hl.
  - assert (add_range_loop fuel false t (Z.of_nat (length pre)) nr b e = Ok (t, Z.of_nat (length pre), nr, b)) as ->.
    { destruct fuel; simpl; destruct (Z.ltb_spec (Z.of_nat (length pre)) (cnt t)); (lia || reflexivity). }
    simpl. destruct (b <? e); simpl; do 2 f_equal; lia.
  - destruct fuel as [|fuel]; [simpl in Hf; lia|]. simpl in Hf. cbn [add_range_loop].
    destruct (Z.ltb_spec (Z.of_nat (length pre)) (cnt t)); [|lia].
    rewrite (region_at_app t (Z.of_nat (length pre)) r pre l) by (assumption || reflexivity).
    destruct Ha as (A1 & A2 & A3 & A4). unfold rend, PHYS_ADDR_MAX in *.
    cbn [mbind outcome_bind]. rewrite (u64_small (base r + size r)) by (unfold is_u64; lia).
    assert (rgns t = (pre ++ [r]) ++ l) as E' by (rewrite <- app_assoc; exact E).
    assert (Z.of_nat (length pre) + 1 = Z.of_nat (length (pre ++ [r]))) as Ei
      by (rewrite length_app; simpl; lia).
    simpl ins_ranges. unfold rend. destruct (Z.leb_spec e (base r)).
    + simpl. destruct (b <? e); simpl; do 2 f_equal; lia.
    + destruct (Z.leb_spec (base r + size r) b).
      * rewrite (IH fuel t _ nr b e (pre ++ [r]) (base r + size r)) by (assumption || lia).
        reflexivity.
      * rewrite min_spec. destruct (Z.ltb_spec b (base r)); cbn [mbind outcome_bind];
          rewrite (IH fuel t _ _ (Z.min (base r + size r) e) e (pre ++ [r]) (base r + size r))
            by (assumption || lia);
          pose proof (ins_ranges_length l (Z.min (base r + size r) e) e);
          simpl; do 2 f_equal; lia.
Qed.

(** [t'] is [t] with the regions [l'] and [d] bytes more. *)
Definition grown (t t' : memblock_type) (l' : list memblock_region) (d : Z) : Prop :=
  shape t' /\ rmax t' = rmax t /\ name t' = name t /\ rgns t' = l' /\
  total_size t' = u64 (total_size t + d).

Lemma grown_refl t : shape t -> is_u64 (total_size t) -> grown t t (rgns t) 0.
Proof.
  intros Hs Hu. unfold grown. rewrite Z.add_0_r, u64_small by assumption. auto.
Qed.

Lemma grown_trans t1 t2 t3 l2 l3 d d' : grown t1 t2 l2 d -> grown t2 t3 l3 d' ->
  grown t1 t3 l3 (d + d').
Proof.
  intros (S1 & R1 & N1 & G1 & T1) (S2 & R2 & N2 & G2 & T2). unfold grown.
  rewrite T2, T1, u64_add_l, Z.add_assoc. intuition congruence.
Qed.

Lemma grown_insert t idx b s pre l : shape t -> cnt t < rmax t ->
  rgns t = pre ++ l -> idx = Z.of_nat (length pre) ->
  exists t', memblock_insert_region t idx b s = Ok t' /\ grown t t' (pre ++ Region b s :: l) s.
Proof.
  intros Hs Hc E Hi. destruct (memblock_insert_region_spec t idx b s pre l Hs Hc E Hi)
    as (t' & ? & ? & ? & ? & ? & ?). exists t'. unfold grown. tauto.
Qed.

(** The inserting pass builds the list [ins_ranges]. *)
Lemma add_range_insert l : forall fuel t idx nr b e pre lo, shape t -> is_u64 (total_size t) ->
  rgns t = pre ++ l -> idx = Z.of_nat (length pre) -> (length l <= fuel)%nat ->
  ascending lo l -> 0 <= lo -> 0 <= b <= e -> e <= PHYS_ADDR_MAX ->
  Z.of_nat (length pre + length (ins_ranges l b e)) <= rmax t ->
  exists t', bindp (add_range_loop fuel true t idx nr b e) true e =
      Ok (t', nr + Z.of_nat (length (ins_ranges l b e) - length l)) /\
    grown t t' (pre ++ ins_ranges l b e) (sum_sizes (ins_ranges l b e) - sum_sizes l).
Proof.
  induction l as [|r l IH]; intros fuel t idx nr b e pre lo Hs Hu E -> Hf Ha Hlo Hb He Hm;
    pose proof (length_rgns t Hs) as Hl; rewrite E, length_app in Hl; simpl in Hl.
  - assert (add_range_loop fuel true t (Z.of_nat (length pre)) nr b e = Ok (t, Z.of_nat (length pre), nr, b)) as ->.
    { destruct fuel; simpl; destruct (Z.ltb_spec (Z.of_nat (length pre)) (cnt t)); (lia || reflexivity). }
    simpl in *. destruct (Z.ltb_spec b e); simpl in *.
    + rewrite u64_small by (unfold is_u64, PHYS_ADDR_MAX in *; lia).
      destruct (grown_insert t (Z.of_nat (length pre)) b (e - b) pre []) as (t' & -> & G);
        [assumption|lia|assumption|reflexivity|].
      exists t'. split; [simpl; do 2 f_equal; lia|]. replace (e - b + 0 - 0) with (e - b) by lia. exact G.
    + exists t. split; [do 2 f_equal; lia|]. rewrite <- E. apply grown_refl; assumption.
  - destruct fuel as [|fuel]; [simpl in Hf; lia|]. simpl in Hf. cbn [add_range_loop].
    destruct (Z.ltb_spec (Z.of_nat (length pre)) (cnt t)); [|lia].
    rewrite (region_at_app t (Z.of_nat (length pre)) r pre l) by (assumption || reflexivity).
    destruct Ha as (A1 & A2 & A3 & A4). unfold rend, PHYS_ADDR_MAX in *.
    cbn [mbind outcome_bind]. rewrite (u64_small (base r + size r)) by (unfold is_u64; lia).
    assert (rgns t = (pre ++ [r]) ++ l) as E' by (rewrite <- app_assoc; exact E).
    assert (Z.of_nat (length pre) + 1 = Z.of_nat (length (pre ++ [r]))) as Ei
      by (rewrite length_app; simpl; lia).
    simpl ins_ranges in Hm |- *. unfold rend in Hm |- *. destruct (Z.leb_spec e (base r)).
    + simpl in Hm |- *. destruct (Z.ltb_spec b e); simpl in Hm |- *.
      * rewrite u64_small by (unfold is_u64; lia).
        destruct (grown_insert t (Z.of_nat (length pre)) b (e - b) pre (r :: l)) as (t' & -> & G);
          [assumption|lia|assumption|reflexivity|].
        exists t'. split; [simpl; do 2 f_equal; lia|].
        replace (_ - (_ + _)) with (e - b) by lia. exact G.
      * exists t. split; [do 2 f_equal; lia|]. rewrite <- E, Z.sub_diag. apply grown_refl; assumption.
    + destruct (Z.leb_spec (base r + size r) b).
      * destruct (IH fuel t (Z.of_nat (length pre) + 1) nr b e (pre ++ [r]) (base r + size r))
          as (t' & -> & G); try (assumption || lia).
        { rewrite length_app. simpl in *. lia. }
        exists t'. split; [reflexivity|]. rewrite <- app_assoc in G. simpl in G |- *.
        replace (_ - (_ + _)) with (sum_sizes (ins_ranges l b e) - sum_sizes l) by lia. exact G.
      * rewrite min_spec. set (b' := Z.min (base r + size r) e) in *.
        pose proof (ins_ranges_length l b' e) as Hlen.
        destruct (Z.ltb_spec b (base r)); cbn [mbind outcome_bind].
        -- rewrite u64_small by (unfold is_u64; lia).
           destruct (grown_insert t (Z.of_nat (length pre)) b (base r - b) pre (r :: l)) as (t1 & -> & G1);
             [assumption|simpl in Hm; lia|assumption|reflexivity|]. cbn [mbind outcome_bind].
           pose proof G1 as (S1 & R1 & N1 & E1 & T1).
           destruct (IH fuel t1 (Z.of_nat (length pre) + 1 + 1) (nr + 1) b' e
                        (pre ++ [Region b (base r - b); r]) (base r + size r)) as (t' & -> & G);
             try (assumption || lia).
           { rewrite T1. apply u64_range. }
           { rewrite E1, <- app_assoc. reflexivity. }
           { rewrite length_app. simpl. lia. }
           { rewrite length_app. simpl in *. lia. }
           exists t'. split; [simpl; do 2 f_equal; lia|].
           pose proof (grown_trans _ _ _ _ _ _ _ G1 G) as G2. rewrite <- app_assoc in G2. simpl in G2 |- *.
           replace (_ - (_ + sum_sizes l)) with (base r - b + (sum_sizes (ins_ranges l b' e) - sum_sizes l)) by lia.
           exact G2.
        -- destruct (IH fuel t (Z.of_nat (length pre) + 1) nr b' e (pre ++ [r]) (base r + size r))
             as (t' & -> & G); try (assumption || lia).
           { rewrite length_app. simpl in *. lia. }
           exists t'. split; [reflexivity|]. rewrite <- app_assoc in G. simpl in G |- *.
           replace (_ - (_ + _)) with (sum_sizes (ins_ranges l b' e) - sum_sizes l) by lia. exact G.
Qed.

(** ** The invariant of a region array *)

(** Either only the empty dummy entry, or ascending regions with gaps between
    them; the total is the sum of the sizes. *)
Definition wf_type (t : memblock_type) : Prop :=
  shape t /\ total_size t = sum_sizes (rgns t) /\
  (rgns t = [Region 0 0] \/ (ascending 0 (rgns t) /\ separated (rgns t))).

Lemma ins_ranges_same l b e : length (ins_ranges l b e) = length l -> ins_ranges l b e = l.
Proof.
  revert b. induction l as [|r l IH]; intros b; simpl.
  - destruct (b <? e); [discriminate|reflexivity].
  - destruct (e <=? base r); [destruct (b <? e); [simpl; lia|reflexivity]|].
    destruct (rend r <=? b).
    + simpl. intros [= H]. f_equal. auto.
    + rewrite length_app. pose proof (ins_ranges_length l (Z.min (rend r) e) e).
      destruct (b <? base r); simpl; intros H1; [lia|]. injection H1 as H1. f_equal. auto.
Qed.

Lemma sum_sizes_bound lo l : ascending lo l -> lo <= PHYS_ADDR_MAX ->
  0 <= sum_sizes l <= PHYS_ADDR_MAX - lo.
Proof.
  revert lo. induction l as [|r l IH]; intros lo Ha Hlo; simpl; [lia|].
  destruct Ha as (A1 & A2 & A3 & A4). specialize (IH _ A4 A3). unfold rend in *. lia.
Qed.

Lemma wf_type_u64 t : wf_type t -> is_u64 (total_size t).
Proof.
  intros (_ & -> & [->|[Ha _]]); simpl; unfold is_u64; [lia|].
  pose proof (sum_sizes_bound 0 _ Ha). unfold PHYS_ADDR_MAX in *. lia.
Qed.

Lemma covers_dummy b x : covers [Region b 0] x <-> False.
Proof. rewrite covers_cons, covers_nil. unfold in_region, rend. simpl. lia. Qed.

Lemma bindp_pass t insert b e fuel :
  fuel = Z.to_nat (cnt t) -> add_range_pass insert t b e = bindp (add_range_loop fuel insert t 0 0 b e) insert e.
Proof. intros ->. reflexivity. Qed.

(** The insertion passes and the merge, on an array that is not empty. *)
Lemma add_range_nonempty t b e : shape t -> total_size t = sum_sizes (rgns t) ->
  ascending 0 (rgns t) -> separated (rgns t) -> 0 <= b <= e -> e <= PHYS_ADDR_MAX ->
  let m := '(t, nr_new) ← add_range_pass false t b e;
           if nr_new =? 0 then Ok (0, t)
           else if rmax t <? cnt t + nr_new then Panic "overflow"
           else '(t, nr_new) ← add_range_pass true t b e;
                if nr_new =? 0 then Ok (0, t)
                else t ← memblock_merge_regions t; Ok (0, t) in
  (m = Panic "overflow" /\ rmax t < Z.of_nat (length (ins_ranges (rgns t) b e))) \/
  exists t', m = Ok (0, t') /\ wf_type t' /\ rmax t' = rmax t /\
    forall x, covers (rgns t') x <-> covers (rgns t) x \/ b <= x < e.
Proof.
  intros Hs Ht Ha Hsep Hb He.
  assert (is_u64 (total_size t)) as Hu.
  { apply wf_type_u64. split; [assumption|]. split; [assumption|]. auto. }
  pose proof (length_rgns t Hs) as Hl. pose proof (ins_ranges_length (rgns t) b e) as Hlen.
  destruct (ins_ranges_spec (rgns t) 0 b e Ha ltac:(lia) He) as [Ai Ci].
  rewrite (bindp_pass t false b e _ eq_refl).
  rewrite (add_range_count (rgns t) _ t 0 0 b e [] 0) by (assumption || reflexivity || lia).
  cbn [mbind outcome_bind]. rewrite Z.add_0_l.
  destruct (Z.eqb_spec (Z.of_nat (length (ins_ranges (rgns t) b e) - length (rgns t))) 0) as [E0|N0].
  - right. exists t. split; [reflexivity|]. split; [split; [assumption|]; auto|]. split; [reflexivity|].
    intros x. rewrite <- Ci, ins_ranges_same by lia. reflexivity.
  - destruct (Z.ltb_spec (rmax t) (cnt t + Z.of_nat (length (ins_ranges (rgns t) b e) - length (rgns t))));
      [left; split; [reflexivity|lia]|].
    rewrite (bindp_pass t true b e _ eq_refl).
    destruct (add_range_insert (rgns t) (Z.to_nat (cnt t)) t 0 0 b e [] 0)
      as (t1 & -> & S1 & R1 & N1 & G1 & T1); try (assumption || reflexivity || lia).
    { simpl. lia. }
    cbn [mbind outcome_bind]. rewrite Z.add_0_l.
    destruct (Z.eqb_spec (Z.of_nat (length (ins_ranges (rgns t) b e) - length (rgns t))) 0); [lia|].
    simpl in G1. destruct (ins_ranges (rgns t) b e) as [|r l] eqn:Ei; [simpl in *; lia|].
    assert (ascending 0 (r :: l)) as Ai' by (eapply ascending_weaken; [|exact Ai]; destruct (b <? e); lia).
    unfold memblock_merge_regions.
    destruct (memblock_merge_loop_spec l (Z.to_nat (cnt t1)) t1 0 [] r)
      as (t' & -> & S' & R' & N' & G' & T'); try (assumption || reflexivity).
    { pose proof (length_rgns t1 S1) as Hl1. rewrite G1 in Hl1. simpl in Hl1. lia. }
    right. exists t'. split; [reflexivity|]. simpl in G'.
    destruct (merge_from_spec l r 0 Ai') as (Am & Sm & Cm & _).
    split; [|split; [congruence|intros x; rewrite G', Cm, Ci; reflexivity]].
    split; [assumption|]. split; [|right; rewrite G'; auto].
    change (merge_from r l) with (merge_ranges (r :: l)) in G'.
    rewrite T', T1, G', merge_ranges_sum, Ht.
    pose proof (sum_sizes_bound 0 _ Ai'). unfold PHYS_ADDR_MAX in *.
    rewrite u64_small by (unfold is_u64; lia). lia.
Qed.

(** The range a call adds: [size] is capped so that it does not pass the last
    address. *)
Definition add_end (b s : Z) : Z := b + Z.min s (PHYS_ADDR_MAX - b).

(** Adding a range keeps the invariant and adds exactly the range; when the
    array is too small for the regions needed, it panics. *)
Lemma memblock_add_range_spec t b s : wf_type t -> is_u64 b -> is_u64 s ->
  (memblock_add_range t b s = Panic "overflow" /\
     rmax t < Z.of_nat (length (ins_ranges (rgns t) b (add_end b s)))) \/
  exists t', memblock_add_range t b s = Ok (0, t') /\ wf_type t' /\ rmax t' = rmax t /\
    forall x, covers (rgns t') x <-> covers (rgns t) x \/ b <= x < add_end b s.
Proof.
  intros Hwf Hb Hsz. pose proof Hwf as (Hs & Ht & Hc). unfold is_u64 in *.
  unfold memblock_add_range, memblock_cap_size, add_end.
  rewrite min_spec, (u64_small (PHYS_ADDR_MAX - b)) by (unfold is_u64, PHYS_ADDR_MAX; lia).
  set (n := Z.min s (PHYS_ADDR_MAX - b)). assert (0 <= n <= PHYS_ADDR_MAX - b) as Hn
    by (unfold n, PHYS_ADDR_MAX; lia).
  rewrite u64_small by (unfold is_u64, PHYS_ADDR_MAX in *; lia).
  destruct (Z.eqb_spec n 0) as [E0|N0].
  { right. exists t. split; [reflexivity|]. split; [assumption|]. split; [reflexivity|].
    intros x. intuition lia. }
  destruct Hc as [E|[Ha Hsep]].
  - rewrite (region_at_app t 0 (Region 0 0) [] []) by (assumption || reflexivity). simpl.
    right. eexists. split; [reflexivity|].
    pose proof (length_rgns t Hs) as Hl. rewrite E in Hl. simpl in Hl.
    destruct Hs as (S1 & S2 & S3).
    assert (rgns (with_total (set_region t 0 (Region b n)) n) = [Region b n]) as Er.
    { unfold rgns, with_total, set_region in *. simpl. rewrite <- Hl in *.
      destruct (regions t) as [|r0 l0]; [discriminate E|]. reflexivity. }
    split; [|split; [reflexivity|]].
    + split; [|split].
      * unfold shape, with_total, set_region. simpl. rewrite length_insert. auto.
      * rewrite Er. simpl. lia.
      * right. rewrite Er. simpl. unfold rend. simpl. intuition lia.
    + intros x. rewrite Er, E, covers_dummy, covers_cons, covers_nil.
      unfold in_region, rend. simpl. lia.
  - pose proof (length_rgns t Hs) as Hl.
    destruct (rgns t) as [|r l] eqn:E; [destruct Hs; simpl in *; lia|].
    rewrite (region_at_app t 0 r [] l) by (assumption || reflexivity). cbn [mbind outcome_bind].
    destruct (Z.eqb_spec (size r) 0); [destruct Ha as (_ & ? & _); lia|].
    rewrite <- E in *. apply add_range_nonempty; (assumption || lia).
Qed.

(** ** The cursor of the iterators *)

Lemma s32_u32 x : - 2 ^ 31 <= x < 2 ^ 31 -> s32 (x mod 2 ^ 32) = x.
Proof.
  intros H. unfold s32. rewrite Z.add_mod_idemp_l by lia.
  rewrite Z.mod_small by lia. lia.
Qed.

Lemma pack_idx_sum a b : pack_idx a b = a mod 2 ^ 32 + (b mod 2 ^ 32) * 2 ^ 32.
Proof.
  unfold pack_idx, u32.
  assert (u64 (Z.shiftl (u64 b) 32) = (b mod 2 ^ 32) * 2 ^ 32) as ->.
  { unfold u64. rewrite Z.shiftl_mul_pow2 by lia.
    change (2 ^ 64) with (2 ^ 32 * 2 ^ 32). rewrite Z.mul_mod_distr_r by lia.
    f_equal. rewrite Z.rem_mul_r, Z.mul_comm, Z.mod_add by lia.
    apply Z.mod_mod. lia. }
  apply lor_add_disjoint. bits k Hk. rewrite Z.bits_0.
  destruct (Z.lt_ge_cases k 32).
  - rewrite Z.mul_pow2_bits_low by lia. apply andb_false_r.
  - rewrite Z.mod_pow2_bits_high by lia. reflexivity.
Qed.

Lemma unpack_pack a b : - 2 ^ 31 <= a < 2 ^ 31 -> - 2 ^ 31 <= b < 2 ^ 31 ->
  unpack_a (pack_idx a b) = a /\ unpack_b (pack_idx a b) = b.
Proof.
  intros Ha Hb. rewrite pack_idx_sum. unfold unpack_a, unpack_b.
  change 0xffffffff with (2 ^ 32 - 1). rewrite land_ones_mod, Z.shiftr_div_pow2 by lia.
  rewrite Z.mod_add, Z.mod_mod, Z.div_add, Z.div_small by (try apply Z.mod_pos_bound; lia).
  rewrite Z.add_0_l. split; apply s32_u32; assumption.
Qed.

Lemma pack_end a b : - 2 ^ 31 <= a < 2 ^ 31 -> - 2 ^ 31 <= b < 2 ^ 31 ->
  pack_idx a b = ULLONG_MAX -> a = -1 /\ b = -1.
Proof.
  intros Ha Hb E. destruct (unpack_pack a b Ha Hb) as [Ea Eb]. rewrite E in Ea, Eb.
  split; [rewrite <- Ea | rewrite <- Eb]; reflexivity.
Qed.

(** ** Gaps between reservations *)

Fixpoint gaps (lo : Z) (l : list memblock_region) : list (Z * Z) :=
  match l with
  | [] => [(lo, PHYS_ADDR_MAX)]
  | r :: l' => (lo, base r) :: gaps (rend r) l'
  end.

Definition in_range (p : Z * Z) (x : Z) : Prop := fst p <= x < snd p.
Definition in_ranges (l : list (Z * Z)) (x : Z) : Prop := Exists (fun p => in_range p x) l.

(** Intervals in ascending order. *)
Fixpoint asc_ranges (lo : Z) (l : list (Z * Z)) : Prop :=
  match l with
  | [] => True
  | p :: l' => lo <= fst p /\ fst p <= snd p /\ asc_ranges (snd p) l'
  end.

(** As [ascending], empty regions allowed (the dummy entry). *)
Fixpoint weakly_ascending (lo : Z) (l : list memblock_region) : Prop :=
  match l with
  | [] => True
  | r :: l' => lo <= base r /\ 0 <= size r /\ rend r <= PHYS_ADDR_MAX /\ weakly_ascending (rend r) l'
  end.

Definition region_range (r : memblock_region) : Z * Z := (base r, rend r).

Lemma ascending_weakly lo l : ascending lo l -> weakly_ascending lo l.
Proof.
  revert lo. induction l as [|r l IH]; intros lo; simpl; [trivial|].
  intros (? & ? & ? & ?). repeat split; auto; lia.
Qed.

Lemma wf_type_weakly t : wf_type t -> weakly_ascending 0 (rgns t).
Proof.
  intros (_ & _ & [->|[Ha _]]); [simpl; unfold rend, PHYS_ADDR_MAX; simpl; lia|].
  apply ascending_weakly. assumption.
Qed.

Lemma weakly_ranges lo l : weakly_ascending lo l -> asc_ranges lo (region_range <$> l).
Proof.
  revert lo. induction l as [|r l IH]; intros lo; simpl; [trivial|].
  intros (? & ? & ? & ?). unfold rend in *. repeat split; auto; lia.
Qed.

Lemma covers_ranges l x : covers l x <-> in_ranges (region_range <$> l) x.
Proof. unfold covers, in_ranges. rewrite Exists_fmap. reflexivity. Qed.

Lemma asc_ranges_weaken lo lo' l : lo' <= lo -> asc_ranges lo l -> asc_ranges lo' l.
Proof. destruct l; simpl; [trivial|]. intros ? (? & ? & ?). repeat split; auto; lia. Qed.

Lemma gaps_ranges lo l : weakly_ascending lo l -> lo <= PHYS_ADDR_MAX -> asc_ranges lo (gaps lo l).
Proof.
  revert lo. induction l as [|r l IH]; intros lo; simpl.
  - intros _ H. lia.
  - intros (? & ? & ? & ?) ?. repeat split; try lia.
    apply (asc_ranges_weaken (rend r)); [unfold rend; lia|auto].
Qed.

Lemma in_ranges_cons p l x : in_ranges (p :: l) x <-> in_range p x \/ in_ranges l x.
Proof. apply Exists_cons. Qed.

(** The gaps are what the reservations leave. *)
Lemma gaps_complement l lo x : weakly_ascending lo l -> lo <= x < PHYS_ADDR_MAX ->
  in_ranges (gaps lo l) x <-> ~ covers l x.
Proof.
  revert lo. induction l as [|r l IH]; intros lo Hw Hx; simpl.
  - rewrite in_ranges_cons, covers_nil. unfold in_range, in_ranges. simpl.
    rewrite Exists_nil. intuition lia.
  - destruct Hw as (A1 & A2 & A3 & A4). rewrite in_ranges_cons, covers_cons.
    unfold in_range, in_region. simpl. destruct (Z.lt_ge_cases x (rend r)).
    + assert (in_ranges (gaps (rend r) l) x -> False) as N.
      { clear -A3 A4 H. revert A3 A4 H. generalize (rend r). induction l as [|r' l IH]; intros lo A3 A4 H;
          simpl; rewrite in_ranges_cons; unfold in_range; simpl.
        - unfold in_ranges. rewrite Exists_nil. lia.
        - destruct A4 as (? & ? & ? & ?). intros [?|Hi]; [lia|].
          apply IH in Hi; [assumption|assumption|assumption|]. unfold rend in *. lia. }
      assert (covers l x -> False) as N2.
      { clear -A4 H. revert A4 H. generalize (rend r). induction l as [|r' l IH]; intros lo A4 H;
          [rewrite covers_nil; tauto|]. rewrite covers_cons. destruct A4 as (? & ? & ? & ?).
        unfold in_region. intros [?|Hi]; [lia|]. apply (IH (rend r')) in Hi; auto. unfold rend in *. lia. }
      split; [intros [?|?] [?|?]; auto; lia|]. intros Hn. left.
      destruct (Z.lt_ge_cases x (base r)); [lia|]. exfalso. apply Hn. left. lia.
    + rewrite (IH (rend r)) by (assumption || lia). unfold rend in *. intuition lia.
Qed.

Lemma length_gaps lo l : length (gaps lo l) = S (length l).
Proof. revert lo. induction l; intros; simpl; [|rewrite IHl]; reflexivity. Qed.

Lemma gaps_lookup l : forall lo j s e, gaps lo l !! j = Some (s, e) ->
  match j with O => s = lo | S j' => exists r, l !! j' = Some r /\ s = rend r end /\
  match l !! j with Some r => e = base r | None => e = PHYS_ADDR_MAX end.
Proof.
  induction l as [|r l IH]; intros lo [|j] s e H; simpl in H; try discriminate.
  - simplify_eq. split; reflexivity.
  - simplify_eq. split; reflexivity.
  - apply IH in H as [H1 H2]. split; [|exact H2]. destruct j as [|j]; [exists r; auto|exact H1].
Qed.

Lemma weakly_lookup_end lo l j r : weakly_ascending lo l -> 0 <= lo -> l !! j = Some r ->
  0 <= rend r < 2 ^ 64.
Proof.
  revert lo j. induction l as [|r0 l IH]; intros lo [|j] Hw Hlo Hj; simpl in Hj; try discriminate.
  - simplify_eq. destruct Hw as (? & ? & ? & _). unfold rend, PHYS_ADDR_MAX in *. lia.
  - destruct Hw as (? & ? & ? & Hw). eapply IH; [exact Hw| |exact Hj]. unfold rend. lia.
Qed.

Lemma weakly_covers lo l x : weakly_ascending lo l -> covers l x -> lo <= x < PHYS_ADDR_MAX.
Proof.
  revert lo. induction l as [|r l IH]; intros lo Hw H; [apply covers_nil in H; contradiction|].
  destruct Hw as (? & ? & ? & Hw). unfold rend in *.
  apply covers_cons in H as [H|H]; [unfold in_region, rend in H; lia|]. specialize (IH _ Hw H). lia.
Qed.

(** Reading a gap from the array. *)
Lemma gap_bounds t j s e : shape t -> weakly_ascending 0 (rgns t) ->
  gaps 0 (rgns t) !! j = Some (s, e) ->
  gap_start t (Z.of_nat j) = Ok s /\ gap_end t (Z.of_nat j) = Ok e.
Proof.
  intros Hs Hw H. pose proof (length_rgns t Hs) as Hl. apply gaps_lookup in H as [H1 H2].
  unfold gap_start, gap_end. split.
  - destruct (Z.eqb_spec (Z.of_nat j) 0); destruct j as [|j]; try lia; [congruence|].
    destruct H1 as (r & Hr & ->). replace (Z.of_nat (S j) - 1) with (Z.of_nat j) by lia.
    rewrite (region_at_rgns t j r Hs Hr). simpl. f_equal. apply u64_small.
    eapply weakly_lookup_end; [exact Hw|lia|exact Hr].
  - destruct (rgns t !! j) as [r|] eqn:E.
    + pose proof (lookup_lt_Some _ _ _ E). destruct (Z.ltb_spec (Z.of_nat j) (cnt t)); [|lia].
      rewrite (region_at_rgns t j r Hs E). simpl. congruence.
    + apply lookup_ge_None in E. destruct (Z.ltb_spec (Z.of_nat j) (cnt t)); [lia|]. congruence.
Qed.

(** What the inner loop of [__next_mem_range] returns, on the suffix of the
    gaps from index [j]: it skips the gaps that end at or below [ms]. *)
Lemma next_inner_spec tb ms me a : shape tb -> weakly_ascending 0 (rgns tb) ->
  forall G fuel j, drop j (gaps 0 (rgns tb)) = G -> (j <= length (gaps 0 (rgns tb)))%nat ->
  (length G < fuel)%nat ->
  exists skip G' k, G = skip ++ G' /\ k = (j + length skip)%nat /\
    Forall (fun p => snd p <= ms) skip /\
    match G' with
    | [] => next_mem_range_inner fuel tb ms me a (Z.of_nat j) = Ok (Stopped (Z.of_nat k))
    | (gs, ge) :: _ =>
        (me <= gs /\ next_mem_range_inner fuel tb ms me a (Z.of_nat j) = Ok (Stopped (Z.of_nat k))) \/
        (gs < me /\ ms < ge /\
         next_mem_range_inner fuel tb ms me a (Z.of_nat j) =
           Ok (Found (Z.max ms gs) (Z.min me ge)
                 (if me <=? ge then pack_idx (a + 1) (Z.of_nat k)
                  else pack_idx a (Z.of_nat k + 1))))
    end.
Proof.
  intros Hs Hw. pose proof (length_rgns tb Hs) as Hl.
  induction G as [|[gs ge] G IH]; intros fuel j Ed Hj Hf.
  - exists [], [], j. split; [reflexivity|]. split; [simpl; lia|]. split; [constructor|].
    assert (length (drop j (gaps 0 (rgns tb))) = 0%nat) as El by (rewrite Ed; reflexivity).
    rewrite length_drop, length_gaps in El.
    destruct fuel; simpl in *; [lia|]. destruct (Z.ltb_spec (Z.of_nat j) (cnt tb + 1)); [lia|reflexivity].
  - assert (gaps 0 (rgns tb) !! j = Some (gs, ge)) as Hg.
    { rewrite <- (Nat.add_0_r j), <- lookup_drop, Ed. reflexivity. }
    pose proof (lookup_lt_Some _ _ _ Hg) as Hlt. rewrite length_gaps in Hlt.
    destruct (gap_bounds tb j gs ge Hs Hw Hg) as [Eg1 Eg2].
    destruct fuel as [|fuel]; [simpl in Hf; lia|]. cbn [next_mem_range_inner].
    destruct (Z.ltb_spec (Z.of_nat j) (cnt tb + 1)); [|lia].
    rewrite Eg1, Eg2. cbn [mbind outcome_bind].
    destruct (Z.leb_spec me gs).
    + exists [], ((gs, ge) :: G), j. split; [reflexivity|]. split; [simpl; lia|]. split; [constructor|].
      left. auto.
    + destruct (Z.ltb_spec ms ge).
      * exists [], ((gs, ge) :: G), j. split; [reflexivity|]. split; [simpl; lia|]. split; [constructor|].
        right. split; [assumption|]. split; [assumption|]. rewrite max_spec, min_spec.
        destruct (me <=? ge); reflexivity.
      * destruct (IH fuel (S j)) as (skip & G' & k & -> & -> & Hsk & Hres).
        { rewrite <- Nat.add_1_r, <- drop_drop, Ed. reflexivity. }
        { rewrite length_gaps. lia. }
        { simpl in Hf. lia. }
        exists ((gs, ge) :: skip), G', (j + S (length skip))%nat.
        split; [reflexivity|]. split; [reflexivity|]. split; [constructor; [simpl; lia|assumption]|].
        replace (Z.of_nat j + 1) with (Z.of_nat (S j)) by lia.
        replace (S j + length skip)%nat with (j + S (length skip))%nat in Hres by lia. exact Hres.
Qed.

Lemma in_ranges_app l1 l2 x : in_ranges (l1 ++ l2) x <-> in_ranges l1 x \/ in_ranges l2 x.
Proof. apply Exists_app. Qed.

Lemma in_ranges_nil x : in_ranges [] x <-> False.
Proof. apply Exists_nil. Qed.

Lemma asc_ranges_app lo l1 l2 : asc_ranges lo (l1 ++ l2) -> asc_ranges lo l2.
Proof.
  revert lo. induction l1 as [|p l1 IH]; intros lo; simpl; [trivial|].
  intros (H1 & H2 & H3). apply IH in H3. eapply asc_ranges_weaken; [|exact H3]. lia.
Qed.

Lemma asc_ranges_lower lo l : asc_ranges lo l -> Forall (fun p => lo <= fst p) l.
Proof.
  revert lo. induction l as [|p l IH]; intros lo; simpl; [constructor|].
  intros (H1 & H2 & H3). constructor; [assumption|].
  eapply Forall_impl; [apply IH; exact H3|]. simpl. intros. lia.
Qed.

Lemma in_ranges_lower lo l x : Forall (fun p => lo <= fst p) l -> in_ranges l x -> lo <= x.
Proof.
  intros Hf Hi. unfold in_ranges in Hi. apply Exists_exists in Hi as (p & Hp & Hx).
  rewrite Forall_forall in Hf. specialize (Hf p Hp). unfold in_range in Hx. lia.
Qed.

Lemma in_ranges_upper hi l x : Forall (fun p => snd p <= hi) l -> in_ranges l x -> x < hi.
Proof.
  intros Hf Hi. unfold in_ranges in Hi. apply Exists_exists in Hi as (p & Hp & Hx).
  rewrite Forall_forall in Hf. specialize (Hf p Hp). unfold in_range in Hx. lia.
Qed.

(** The addresses still to visit: in a region of [As] and in a gap of [Gs]. *)
Definition to_visit (As Gs : list (Z * Z)) (x : Z) : Prop := in_ranges As x /\ in_ranges Gs x.

(** All that is left starts at or above [lo]. *)
Definition bounded_below (lo : Z) (As Gs : list (Z * Z)) : Prop :=
  Forall (fun p => lo <= fst p) As \/ Forall (fun p => lo <= fst p) Gs.

Section FreeIteration.
Context (ta tb : memblock_type).
Hypothesis Hsa : shape ta.
Hypothesis Hsb : shape tb.
Hypothesis Hwa : weakly_ascending 0 (rgns ta).
Hypothesis Hwb : weakly_ascending 0 (rgns tb).

Let A := region_range <$> rgns ta.
Let G := gaps 0 (rgns tb).

(** One call: what it reports and what it leaves. *)
Definition step_to (i j : nat) (s e : Z) (i' j' : nat) : Prop :=
  (i <= i' <= length A)%nat /\ (j <= j' <= length G)%nat /\ (i + j < i' + j')%nat /\ s <= e /\
  (forall x, to_visit (drop i A) (drop j G) x <->
             s <= x < e \/ to_visit (drop i' A) (drop j' G) x) /\
  (forall lo, bounded_below lo (drop i A) (drop j G) -> lo <= s) /\
  bounded_below e (drop i' A) (drop j' G) /\
  (forall hi, Forall (fun p => snd p <= hi) A -> e <= hi).

(** The two ways the loop leaves a region and a gap that meet: the one that
    ends first is finished. *)
Lemma visit_first x p g As' Gs' : snd p <= snd g -> Forall (fun q => snd g <= fst q) Gs' ->
  to_visit (p :: As') (g :: Gs') x <->
  Z.max (fst p) (fst g) <= x < Z.min (snd p) (snd g) \/ to_visit As' (g :: Gs') x.
Proof.
  intros H HG. unfold to_visit. rewrite !in_ranges_cons. unfold in_range.
  pose proof (in_ranges_lower _ _ x HG). split; [|intuition lia].
  intros [[Hp|Ha] [Hg|Hg]]; try tauto; [left; lia|]. specialize (H0 Hg). lia.
Qed.

Lemma visit_second x p g As' Gs' : snd g <= snd p -> Forall (fun q => snd p <= fst q) As' ->
  to_visit (p :: As') (g :: Gs') x <->
  Z.max (fst p) (fst g) <= x < Z.min (snd p) (snd g) \/ to_visit (p :: As') Gs' x.
Proof.
  intros H HA. unfold to_visit. rewrite !in_ranges_cons. unfold in_range.
  pose proof (in_ranges_lower _ _ x HA). split; [|intuition lia].
  intros [[Hp|Ha] [Hg|Hg]]; try tauto; [left; lia|]. specialize (H0 Ha). lia.
Qed.

(** A region that meets no remaining gap is skipped. *)
Lemma outcome_transfer (m : outcome (option (Z * Z * Z))) i j k p As' G' :
  drop (S i) A = As' -> drop (j + k) G = G' ->
  (forall x, to_visit (drop i A) (drop j G) x <-> to_visit (p :: As') G' x) ->
  (forall lo, bounded_below lo (drop i A) (drop j G) -> bounded_below lo (p :: As') G') ->
  (forall x, in_range p x -> in_ranges G' x -> False) ->
  (m = Ok None /\ forall x, ~ to_visit (drop (S i) A) (drop (j + k) G) x) \/
  (exists s e i' j', m = Ok (Some (s, e, pack_idx (Z.of_nat i') (Z.of_nat j'))) /\
      step_to (S i) (j + k) s e i' j') ->
  (m = Ok None /\ forall x, ~ to_visit (drop i A) (drop j G) x) \/
  exists s e i' j', m = Ok (Some (s, e, pack_idx (Z.of_nat i') (Z.of_nat j'))) /\
      step_to i j s e i' j'.
Proof.
  intros EA EG Hv Hl Hn H.
  assert (forall x, to_visit (drop i A) (drop j G) x <-> to_visit (drop (S i) A) (drop (j + k) G) x) as Hv'.
  { intros x. rewrite Hv, EA, EG. unfold to_visit. rewrite in_ranges_cons. specialize (Hn x). tauto. }
  destruct H as [[E N]|(s & e & i' & j' & E & H1 & H2 & H3 & H4 & H5 & H6 & H7 & H8)].
  - left. split; [exact E|]. intros x. rewrite Hv'. apply N.
  - right. exists s, e, i', j'. split; [exact E|]. split; [lia|]. split; [lia|]. split; [lia|].
    split; [exact H4|]. split; [intros x; rewrite Hv'; apply H5|]. split; [|exact (conj H7 H8)].
    intros lo Hb. apply H6. rewrite EA, EG. apply Hl in Hb as [Hb|Hb]; [inversion Hb; left|right]; assumption.
Qed.

Lemma drop_split {X} (l : list X) j skip rest : drop j l = skip ++ rest ->
  drop (j + length skip) l = rest.
Proof. intros E. rewrite <- drop_drop, E. apply drop_app_length. Qed.

Lemma next_outer_spec : forall As fuel i j, drop i A = As -> (i <= length A)%nat ->
  (j <= length G)%nat -> (length As < fuel)%nat ->
  (next_mem_range_outer fuel ta (Some tb) (Z.of_nat i) (Z.of_nat j) = Ok None /\
     forall x, ~ to_visit (drop i A) (drop j G) x) \/
  exists s e i' j',
    next_mem_range_outer fuel ta (Some tb) (Z.of_nat i) (Z.of_nat j) =
      Ok (Some (s, e, pack_idx (Z.of_nat i') (Z.of_nat j'))) /\ step_to i j s e i' j'.
Proof.
  pose proof (length_rgns ta Hsa) as HlA.
  assert (length A = length (rgns ta)) as ElA by (unfold A; apply length_fmap).
  pose proof (weakly_ranges 0 _ Hwa) as AscA. fold A in AscA.
  assert (asc_ranges 0 G) as AscG by (apply gaps_ranges; [assumption|unfold PHYS_ADDR_MAX; lia]).
  induction As as [|p As IH]; intros fuel i j Ed Hi Hj Hf.
  - left. split; [|intros x [Hx _]; rewrite Ed in Hx; apply in_ranges_nil in Hx; exact Hx].
    assert (length (drop i A) = 0%nat) as El by (rewrite Ed; reflexivity). rewrite length_drop in El.
    destruct fuel; simpl in *; [lia|]. destruct (Z.ltb_spec (Z.of_nat i) (cnt ta)); [lia|reflexivity].
  - assert (A !! i = Some p) as HAi by (rewrite <- (Nat.add_0_r i), <- lookup_drop, Ed; reflexivity).
    pose proof (lookup_lt_Some _ _ _ HAi) as Hlt.
    pose proof HAi as HAi'. unfold A in HAi'. rewrite list_lookup_fmap in HAi'.
    destruct (rgns ta !! i) as [m|] eqn:Em; [|discriminate]. injection HAi' as Ep.
    assert (drop (S i) A = As) as EdS by (rewrite <- Nat.add_1_r, <- drop_drop, Ed; reflexivity).
    pose proof AscA as AscA'. rewrite <- (take_drop i A), Ed in AscA'. apply asc_ranges_app in AscA'.
    destruct AscA' as (P1 & P2 & P3). pose proof (asc_ranges_lower _ _ P3) as P4.
    pose proof AscG as AscG'. rewrite <- (take_drop j G) in AscG'. apply asc_ranges_app in AscG'.
    destruct fuel as [|fuel]; [simpl in Hf; lia|]. simpl in Hf. cbn [next_mem_range_outer].
    destruct (Z.ltb_spec (Z.of_nat i) (cnt ta)); [|lia].
    rewrite (region_at_rgns ta i m Hsa Em). cbn [mbind outcome_bind].
    rewrite u64_small by (eapply weakly_lookup_end; [exact Hwa|lia|exact Em]).
    change (base m + size m) with (rend m).
    destruct (next_inner_spec tb (base m) (rend m) (Z.of_nat i) Hsb Hwb (drop j G)
                (S (S (Z.to_nat (cnt tb)))) j) as (skip & G' & k & EG & -> & Hsk & Hres).
    { reflexivity. } { exact Hj. }
    { rewrite length_drop. unfold G. rewrite length_gaps. pose proof (length_rgns tb Hsb). lia. }
    pose proof (drop_split G j skip G' EG) as EdG.
    assert ((j + length skip <= length G)%nat) as Hk.
    { assert (length (drop j G) = (length skip + length G')%nat) as El by (rewrite EG; apply length_app).
      rewrite length_drop in El. lia. }
    rewrite EG in AscG'. apply asc_ranges_app in AscG'.
    assert (forall x, to_visit (drop i A) (drop j G) x <-> to_visit (p :: As) G' x) as Hskip.
    { intros x. rewrite Ed, EG. unfold to_visit. rewrite in_ranges_app, in_ranges_cons.
      split; [|tauto]. intros [Hx [Hs|Hg]]; [|tauto]. exfalso.
      apply (in_ranges_upper _ _ _ Hsk) in Hs. subst p. unfold in_range in Hx. simpl in *.
      destruct Hx as [Hx|Hx]; [lia|]. apply (in_ranges_lower _ _ _ P4) in Hx. lia. }
    assert (forall lo, bounded_below lo (drop i A) (drop j G) -> bounded_below lo (p :: As) G') as Hlow.
    { intros lo. rewrite Ed, EG. unfold bounded_below. rewrite Forall_app. tauto. }
    replace (Z.of_nat i + 1) with (Z.of_nat (S i)) in * by lia.
    specialize (IH fuel (S i) (j + length skip)%nat EdS ltac:(lia) Hk ltac:(lia)).
    subst p. destruct G' as [|[gs ge] G''].
    + rewrite Hres. cbn [mbind outcome_bind].
      apply (outcome_transfer _ _ _ _ _ As [] EdS EdG Hskip Hlow); [|exact IH].
      intros x _ Hx. apply in_ranges_nil in Hx. exact Hx.
    + pose proof (asc_ranges_lower _ _ AscG') as LG. destruct AscG' as (Q1 & Q2 & Q3).
      pose proof (asc_ranges_lower _ _ Q3) as Q4. simpl fst in *. simpl snd in *.
      destruct Hres as [[Hme Hres]|(Hgs & Hms & Hres)]; rewrite Hres; cbn [mbind outcome_bind].
      * apply (outcome_transfer _ _ _ _ _ As ((gs, ge) :: G'') EdS EdG Hskip Hlow);
          [|exact IH].
        intros x Hx HG. unfold in_range in Hx. simpl in Hx.
        assert (gs <= x); [|lia]. apply in_ranges_cons in HG as [HG|HG];
          [unfold in_range in HG; simpl in HG; lia|].
        apply (in_ranges_lower _ _ _ Q4) in HG. lia.
      * right. exists (Z.max (base m) gs), (Z.min (rend m) ge).
        assert (forall hi, Forall (fun p => snd p <= hi) A -> Z.min (rend m) ge <= hi) as Hhi.
        { intros hi HF. rewrite Forall_lookup in HF. specialize (HF i _ HAi). simpl in HF. lia. }
        destruct (Z.leb_spec (rend m) ge) as [Hle|Hgt].
        -- exists (S i), (j + length skip)%nat. split; [do 4 f_equal; lia|].
           split; [lia|]. split; [lia|]. split; [lia|]. split; [lia|].
           split; [|split; [intros lo Hb; apply Hlow in Hb as [Hb|Hb]; inversion Hb; simpl in *; lia|
                            split; [left; rewrite EdS; eapply Forall_impl; [exact P4|simpl; intros; lia]|exact Hhi]]].
           intros x. rewrite Hskip, EdS, EdG. apply (visit_first x (region_range m) (gs, ge)); simpl; tauto.
        -- exists i, (S (j + length skip)). rewrite Nat2Z.inj_succ. split; [do 4 f_equal; lia|].
           assert (drop (S (j + length skip)) G = G'') as EdG2
             by (rewrite <- Nat.add_1_r, <- drop_drop, EdG; reflexivity).
           assert (length G - (j + length skip) = S (length G''))%nat as LenG
             by (rewrite <- length_drop, EdG; reflexivity).
           split; [lia|]. split; [lia|]. split; [lia|]. split; [lia|].
           split; [|split; [intros lo Hb; apply Hlow in Hb as [Hb|Hb]; inversion Hb; simpl in *; lia|
                            split; [right; rewrite EdG2; eapply Forall_impl; [exact Q4|simpl; intros; lia]|exact Hhi]]].
           intros x. rewrite Hskip, Ed, EdG2. apply (visit_second x (region_range m) (gs, ge)); simpl; try tauto; lia.
Qed.

Lemma cursor_fits i j : (i <= length A)%nat -> (j <= length G)%nat ->
  unpack_a (pack_idx (Z.of_nat i) (Z.of_nat j)) = Z.of_nat i /\
  unpack_b (pack_idx (Z.of_nat i) (Z.of_nat j)) = Z.of_nat j /\
  (pack_idx (Z.of_nat i) (Z.of_nat j) =? ULLONG_MAX) = false.
Proof.
  intros Hi Hj. pose proof (length_rgns ta Hsa) as HlA. pose proof (length_rgns tb Hsb) as HlB.
  unfold A in Hi. unfold G in Hj. rewrite length_fmap in Hi. rewrite length_gaps in Hj.
  destruct Hsa as (C1 & _ & C2). destruct Hsb as (C3 & _ & C4).
  destruct (unpack_pack (Z.of_nat i) (Z.of_nat j)) as [E1 E2]; [lia|lia|].
  split; [exact E1|]. split; [exact E2|]. apply Z.eqb_neq. intros E. apply pack_end in E; lia.
Qed.

(** The whole loop, from any cursor. *)
Lemma for_each_loop_spec : forall fuel i j, (i <= length A)%nat -> (j <= length G)%nat ->
  (length A + length G - (i + j) < fuel)%nat ->
  exists L, for_each_mem_range fuel ta (Some tb) (pack_idx (Z.of_nat i) (Z.of_nat j)) = Ok L /\
    (forall x, in_ranges L x <-> to_visit (drop i A) (drop j G) x) /\
    (forall lo, bounded_below lo (drop i A) (drop j G) -> asc_ranges lo L) /\
    (forall hi, Forall (fun p => snd p <= hi) A -> Forall (fun p => snd p <= hi) L).
Proof.
  induction fuel as [|fuel IH]; intros i j Hi Hj Hf; [lia|].
  cbn [for_each_mem_range]. destruct (cursor_fits i j Hi Hj) as (E1 & E2 & _).
  unfold __next_mem_range. rewrite E1, E2.
  destruct (next_outer_spec (drop i A) (S (Z.to_nat (cnt ta))) i j eq_refl Hi Hj)
    as [[-> N]|(s & e & i' & j' & -> & H1 & H2 & H3 & H4 & H5 & H6 & H7 & H8)].
  { rewrite length_drop. unfold A. rewrite length_fmap. pose proof (length_rgns ta Hsa). lia. }
  - exists []. split; [reflexivity|]. split; [|split; constructor].
    intros x. rewrite in_ranges_nil. split; [tauto|apply N].
  - cbn [mbind outcome_bind]. destruct (cursor_fits i' j' ltac:(lia) ltac:(lia)) as (_ & _ & ->).
    destruct (IH i' j' ltac:(lia) ltac:(lia) ltac:(lia)) as (L & -> & HL1 & HL2 & HL3).
    exists ((s, e) :: L). split; [reflexivity|]. split.
    + intros x. rewrite in_ranges_cons, H5, HL1. reflexivity.
    + split; [intros lo Hlo; split; [apply H6; exact Hlo|split; [exact H4|apply HL2; exact H7]]|].
      intros hi Hhi. constructor; [apply H8|apply HL3]; exact Hhi.
Qed.
End FreeIteration.

Lemma for_each_free_spec mb : wf_type (memory mb) -> wf_type (reserved mb) ->
  exists L, for_each_free_mem_range mb = Ok L /\ asc_ranges 0 L /\
    (forall x, in_ranges L x <-> covers (rgns (memory mb)) x /\ ~ covers (rgns (reserved mb)) x) /\
    forall hi, Forall (fun r => rend r <= hi) (rgns (memory mb)) -> Forall (fun p => snd p <= hi) L.
Proof.
  intros Hm Hr. pose proof (wf_type_weakly _ Hm) as Wm. pose proof (wf_type_weakly _ Hr) as Wr.
  destruct (for_each_loop_spec _ _ (proj1 Hm) (proj1 Hr) Wm Wr
              (S (Z.to_nat (cnt (memory mb)) + S (Z.to_nat (cnt (reserved mb))))) 0 0)
    as (L & E & HL & Ha & Hhi); [lia|lia| |].
  { rewrite length_fmap, length_gaps. pose proof (length_rgns _ (proj1 Hm)).
    pose proof (length_rgns _ (proj1 Hr)). lia. }
  exists L. split; [exact E|]. rewrite !drop_0 in *. split; [|split].
  - apply Ha. left. apply asc_ranges_lower, weakly_ranges. exact Wm.
  - intros x. rewrite HL. unfold to_visit. rewrite <- covers_ranges.
    split; intros [H1 H2]; pose proof (gaps_complement _ 0 x Wr (weakly_covers _ _ _ Wm H1)); tauto.
  - intros hi HF. apply Hhi. rewrite Forall_fmap. exact HF.
Qed.

(** C28: [for_each_free_mem_range] on a well-formed allocator terminates, reports
    ranges in ascending order without overlap, and together they are exactly
    the addresses that lie in a memory region and in no reserved region. *)
Theorem free_ranges_exact mb : wf_type (memory mb) -> wf_type (reserved mb) ->
  exists L, for_each_free_mem_range mb = Ok L /\ asc_ranges 0 L /\
    forall x, in_ranges L x <-> covers (rgns (memory mb)) x /\ ~ covers (rgns (reserved mb)) x.
Proof.
  intros Hm Hr. destruct (for_each_free_spec mb Hm Hr) as (L & E & Ha & HL & _).
  exists L. auto.
Qed.

(** ** The search from the top *)

Section Search.
Context (ta tb : memblock_type).
Hypothesis Hsa : shape ta.
Hypothesis Hsb : shape tb.
Hypothesis Hwa : weakly_ascending 0 (rgns ta).
Hypothesis Hwb : weakly_ascending 0 (rgns tb).

(** A cursor of the backward iteration, and the one after a step. *)
Definition cursor_ok (a b : Z) : Prop := -1 <= a < cnt ta /\ -1 <= b <= cnt tb.
Definition cursor_next (a b a' b' : Z) : Prop :=
  cursor_ok a' b' /\ a' + b' < a + b /\ ~ (a' = -1 /\ b' = -1).

Lemma rev_inner_spec ms me a : 0 <= a < cnt ta -> forall fuel b, cursor_ok a b -> b < Z.of_nat fuel ->
  (exists b', next_mem_range_rev_inner fuel tb ms me a b = Ok (Stopped b') /\ -1 <= b' <= b) \/
  exists gs ge a' b',
    next_mem_range_rev_inner fuel tb ms me a b
      = Ok (Found (Z.max ms gs) (Z.min me ge) (pack_idx a' b')) /\
    (gs, ge) ∈ gaps 0 (rgns tb) /\ cursor_next a b a' b'.
Proof.
  intros Ha. unfold cursor_next, cursor_ok. induction fuel as [|fuel IH]; intros b Hb Hf;
    cbn [next_mem_range_rev_inner]; (destruct (Z.leb_spec 0 b); [|left; exists b; split; [reflexivity|lia]]);
    [lia|].
  destruct (gaps 0 (rgns tb) !! Z.to_nat b) as [[gs ge]|] eqn:Eg.
  2:{ apply lookup_ge_None in Eg. rewrite length_gaps in Eg. pose proof (length_rgns tb Hsb). lia. }
  destruct (gap_bounds tb _ _ _ Hsb Hwb Eg) as [E1 E2]. rewrite Z2Nat.id in E1, E2 by lia.
  rewrite E1, E2. cbn [mbind outcome_bind].
  destruct (Z.leb_spec ge ms); [left; exists b; split; [reflexivity|lia]|].
  destruct (Z.ltb_spec gs me).
  - right. exists gs, ge. rewrite min_spec, max_spec. apply list_elem_of_lookup_2 in Eg.
    destruct (Z.leb_spec gs ms).
    + exists (a - 1), b. split; [reflexivity|]. split; [assumption|lia].
    + exists a, (b - 1). split; [reflexivity|]. split; [assumption|lia].
  - destruct (IH (b - 1)) as [(b' & E & ?)|(s & e & a' & b' & E & ? & ?)]; [lia|lia| |].
    + left. exists b'. split; [exact E|lia].
    + right. exists s, e, a', b'. split; [exact E|]. split; [assumption|lia].
Qed.

(** Addresses of memory outside every reservation, none wrapping. *)
Definition free_span (s e : Z) : Prop := 0 <= s /\ e < 2 ^ 64 /\
  forall x, s <= x < e -> covers (rgns ta) x /\ ~ covers (rgns tb) x.

Lemma free_span_gap m i gs ge : rgns ta !! i = Some m -> (gs, ge) ∈ gaps 0 (rgns tb) ->
  free_span (Z.max (base m) gs) (Z.min (rend m) ge).
Proof.
  intros Hm Hg. pose proof (weakly_lookup_end 0 _ i m Hwa ltac:(lia) Hm) as He.
  assert (gaps_ge := asc_ranges_lower _ _ (gaps_ranges 0 _ Hwb ltac:(unfold PHYS_ADDR_MAX; lia))).
  rewrite Forall_forall in gaps_ge. specialize (gaps_ge _ Hg). simpl in gaps_ge.
  split; [lia|]. split; [lia|]. intros x Hx.
  assert (covers (rgns ta) x) as Hc.
  { apply Exists_exists. exists m. split; [eapply list_elem_of_lookup_2; exact Hm|].
    unfold in_region. lia. }
  split; [exact Hc|]. apply (gaps_complement _ 0 x Hwb (weakly_covers _ _ _ Hwa Hc)).
  apply Exists_exists. exists (gs, ge). split; [exact Hg|]. unfold in_range. simpl. lia.
Qed.

Lemma rev_outer_spec : forall fuel a b, cursor_ok a b -> a < Z.of_nat fuel ->
  next_mem_range_rev_outer fuel ta (Some tb) a b = Ok None \/
  exists s e a' b', next_mem_range_rev_outer fuel ta (Some tb) a b = Ok (Some (s, e, pack_idx a' b')) /\
    free_span s e /\ cursor_next a b a' b'.
Proof.
  unfold cursor_next, cursor_ok.
  induction fuel as [|fuel IH]; intros a b Hab Hf; cbn [next_mem_range_rev_outer];
    (destruct (Z.leb_spec 0 a); [|left; reflexivity]); [lia|].
  destruct (rgns ta !! Z.to_nat a) as [m|] eqn:Em.
  2:{ apply lookup_ge_None in Em. pose proof (length_rgns ta Hsa). lia. }
  pose proof (region_at_rgns ta _ m Hsa Em) as Er. rewrite Z2Nat.id in Er by lia. rewrite Er.
  cbn [mbind outcome_bind].
  rewrite u64_small by (eapply weakly_lookup_end; [exact Hwa|lia|exact Em]).
  change (base m + size m) with (rend m).
  destruct (rev_inner_spec (base m) (rend m) a ltac:(lia) (S (S (Z.to_nat b))) b ltac:(unfold cursor_ok; lia)
              ltac:(lia)) as [(b' & -> & Hb')|(gs & ge & a' & b' & -> & Hg & Hn)]; cbn [mbind outcome_bind].
  - destruct (IH (a - 1) b') as [E|(s & e & a1 & b1 & E & Hs & Hn)]; [lia|lia|left; exact E|].
    right. exists s, e, a1, b1. split; [exact E|]. split; [exact Hs|]. lia.
  - right. eexists _, _, a', b'. split; [reflexivity|]. split; [|exact Hn].
    eapply free_span_gap; [exact Em|exact Hg].
Qed.

Lemma cursor_unpack a b : cursor_ok a b -> ~ (a = -1 /\ b = -1) ->
  unpack_a (pack_idx a b) = a /\ unpack_b (pack_idx a b) = b /\ (pack_idx a b =? ULLONG_MAX) = false.
Proof.
  intros [Ha Hb] Hn. destruct Hsa as (_ & _ & C2). destruct Hsb as (_ & _ & C4).
  destruct Hsa as (? & ? & _). destruct Hsb as (? & ? & _).
  destruct (unpack_pack a b) as [E1 E2]; [lia|lia|]. split; [exact E1|]. split; [exact E2|].
  apply Z.eqb_neq. intros E. apply pack_end in E; lia.
Qed.

(** One call of [__next_mem_range_rev]. *)
Lemma next_rev_spec idx a b : cursor_ok a b ->
  (if idx =? ULLONG_MAX then (cnt ta - 1, cnt tb) else (unpack_a idx, unpack_b idx)) = (a, b) ->
  __next_mem_range_rev idx ta (Some tb) = Ok None \/
  exists s e a' b', __next_mem_range_rev idx ta (Some tb) = Ok (Some (s, e, pack_idx a' b')) /\
    free_span s e /\ cursor_next a b a' b'.
Proof.
  intros Hc E. unfold __next_mem_range_rev. rewrite E. apply rev_outer_spec; [exact Hc|].
  destruct Hc. lia.
Qed.
End Search.

(** What a search result promises: aligned, within the window, free. *)
Definition fits (mb : memblock) (start end_ sz k found : Z) : Prop :=
  found mod 2 ^ k = 0 /\ start <= found /\ found + sz <= end_ /\
  forall x, found <= x < found + sz -> covers (rgns (memory mb)) x /\ ~ covers (rgns (reserved mb)) x.

Lemma clamped_candidate mb s e start end_ sz k :
  free_span (memory mb) (reserved mb) s e -> 0 <= start <= end_ -> end_ < 2 ^ 64 -> 0 < sz -> 0 <= k < 64 ->
  clamp e start end_ >= sz ->
  clamp s start end_ <= round_down (u64 (clamp e start end_ - sz)) (2 ^ k) ->
  fits mb start end_ sz k (round_down (u64 (clamp e start end_ - sz)) (2 ^ k)).
Proof.
  intros (S1 & S2 & S3) Hse He Hsz Hk Hge. rewrite !clamp_spec in *.
  assert (is_u64 (Z.min (Z.max e start) end_ - sz)) as Hu by (unfold is_u64; lia).
  rewrite (u64_small _ Hu), round_down_spec by assumption.
  set (c := Z.min (Z.max e start) end_ - sz) in *.
  pose proof (Z.mod_pos_bound c (2 ^ k) (pow2_pos k ltac:(lia))) as Hm. intros Hle.
  split; [|split; [lia|split; [lia|]]].
  - rewrite <- Zminus_mod_idemp_l, Z.sub_diag. apply Z.mod_0_l. pose proof (pow2_pos k). lia.
  - intros x Hx. apply S3. lia.
Qed.

Lemma find_loop_spec mb start end_ sz k : wf_type (memory mb) -> wf_type (reserved mb) ->
  0 <= start <= end_ -> end_ < 2 ^ 64 -> 0 < sz -> 0 <= k < 64 ->
  forall fuel idx a b, cursor_ok (memory mb) (reserved mb) a b ->
  (if idx =? ULLONG_MAX then (cnt (memory mb) - 1, cnt (reserved mb)) else (unpack_a idx, unpack_b idx)) = (a, b) ->
  a + b + 2 < Z.of_nat fuel ->
  exists found, find_range_top_down_loop fuel mb idx start end_ sz (2 ^ k) = Ok found /\
    (found = 0 \/ fits mb start end_ sz k found).
Proof.
  intros Wm Wr Hse He Hsz Hk. pose proof (wf_type_weakly _ Wm) as Am. pose proof (wf_type_weakly _ Wr) as Ar.
  induction fuel as [|fuel IH]; intros idx a b Hc Ei Hf; [destruct Hc; lia|]. cbn [find_range_top_down_loop].
  destruct (next_rev_spec _ _ (proj1 Wm) (proj1 Wr) Am Ar idx a b Hc Ei)
    as [->|(s & e & a' & b' & -> & Hfree & Hn1 & Hn2 & Hn3)]; cbn [mbind outcome_bind].
  { exists 0. auto. }
  destruct (cursor_unpack _ _ (proj1 Wm) (proj1 Wr) a' b' Hn1 Hn3) as (U1 & U2 & U3). rewrite U3.
  assert (exists found, find_range_top_down_loop fuel mb (pack_idx a' b') start end_ sz (2 ^ k) = Ok found /\
    (found = 0 \/ fits mb start end_ sz k found)) as Hrec.
  { apply (IH _ a' b' Hn1); [|lia]. rewrite U1, U2, U3. reflexivity. }
  destruct (Z.ltb_spec (clamp e start end_) sz); [exact Hrec|].
  destruct (Z.leb_spec (clamp s start end_) (round_down (u64 (clamp e start end_ - sz)) (2 ^ k)));
    [|exact Hrec].
  eexists. split; [reflexivity|]. right. apply (clamped_candidate mb s e); auto; lia.
Qed.

Lemma find_in_range_spec mb sz k : wf_type (memory mb) -> wf_type (reserved mb) ->
  PAGE_SIZE <= current_limit mb < 2 ^ 64 -> 0 < sz -> 0 <= k < 64 ->
  exists found, memblock_find_in_range_node mb sz (2 ^ k) = Ok found /\
    (found = 0 \/ fits mb PAGE_SIZE (current_limit mb) sz k found).
Proof.
  intros Wm Wr Hl Hsz Hk. destruct (proj1 Wm) as (C1 & _). destruct (proj1 Wr) as (C2 & _).
  eapply find_loop_spec with (a := cnt (memory mb) - 1) (b := cnt (reserved mb));
    try assumption; try lia; [unfold PAGE_SIZE in *; simpl in *; lia|unfold cursor_ok; lia|reflexivity].
Qed.

(** The state invariant of the allocator. *)
Definition wf_memblock (mb : memblock) : Prop :=
  wf_type (memory mb) /\ wf_type (reserved mb) /\ PAGE_SIZE <= current_limit mb < 2 ^ 64.

Lemma fits_add_end mb start sz k found : fits mb start (current_limit mb) sz k found ->
  0 <= start -> 0 < sz -> current_limit mb < 2 ^ 64 ->
  is_u64 found /\ is_u64 sz /\ add_end found sz = found + sz.
Proof. intros (_ & H1 & H2 & _) H3 H4 H5. unfold is_u64, add_end, PHYS_ADDR_MAX. lia. Qed.

Lemma alloc_range_spec mb sz k align : wf_memblock mb -> 0 < sz -> 0 <= k < 64 ->
  align = 2 ^ k \/ (align = 0 /\ k = 6) ->
  memblock_alloc_range_nid false mb sz align = Panic "overflow" \/
  memblock_alloc_range_nid false mb sz align = Ok (0, mb) \/
  exists found mb', memblock_alloc_range_nid false mb sz align = Ok (found, mb') /\ found <> 0 /\
    fits mb PAGE_SIZE (current_limit mb) sz k found /\ wf_memblock mb' /\ memory mb' = memory mb /\
    forall x, covers (rgns (reserved mb')) x <-> covers (rgns (reserved mb)) x \/ found <= x < found + sz.
Proof.
  intros (Wm & Wr & Hl) Hsz Hk Ha. unfold memblock_alloc_range_nid.
  assert ((if align =? 0 then SMP_CACHE_BYTES else align) = 2 ^ k) as ->.
  { destruct Ha as [->|[-> ->]]; [|reflexivity]. pose proof (pow2_pos k ltac:(lia)).
    destruct (Z.eqb_spec (2 ^ k) 0); [lia|reflexivity]. }
  destruct (find_in_range_spec mb sz k Wm Wr Hl Hsz Hk) as (found & -> & Hf). cbn [mbind outcome_bind].
  destruct (Z.eqb_spec found 0) as [->|Hnz]; [right; left; reflexivity|].
  destruct Hf as [?|Hf]; [contradiction|].
  destruct (fits_add_end _ _ _ _ _ Hf ltac:(unfold PAGE_SIZE; simpl; lia) Hsz ltac:(lia)) as (U1 & U2 & Ee).
  unfold memblock_reserve.
  destruct (memblock_add_range_spec (reserved mb) found sz Wr U1 U2) as [[-> _]|(t & -> & Wt & _ & Ht)].
  { left. reflexivity. }
  right; right. exists found, (set_reserved mb t). simpl.
  split; [reflexivity|]. split; [exact Hnz|]. split; [exact Hf|]. split; [exact (conj Wm (conj Wt Hl))|].
  split; [reflexivity|]. intros x. rewrite <- Ee. apply Ht.
Qed.

(** An allocation of [size] bytes aligned to a power of two (0 means a cache
    line) either panics because the array of reservations is full, or fails
    and leaves the allocator unchanged, or returns an aligned address at or
    above the first page such that the whole block lay in memory, below the
    limit and in no reservation; afterwards exactly the block has been added
    to the reservations. *)
Theorem alloc_returns_fresh_block mb sz k align : wf_memblock mb -> 0 < sz -> 0 <= k < 64 ->
  align = 2 ^ k \/ (align = 0 /\ k = 6) ->
  memblock_alloc_range_nid false mb sz align = Panic "overflow" \/
  memblock_alloc_range_nid false mb sz align = Ok (0, mb) \/
  exists found mb', memblock_alloc_range_nid false mb sz align = Ok (found, mb') /\ found <> 0 /\
    fits mb PAGE_SIZE (current_limit mb) sz k found /\ wf_memblock mb' /\ memory mb' = memory mb /\
    forall x, covers (rgns (reserved mb')) x <-> covers (rgns (reserved mb)) x \/ found <= x < found + sz.
Proof. apply alloc_range_spec. Qed.

(** ** Sequences of calls *)

(** A completed call of the boot code, with the range it registered. *)
Inductive mb_event :=
  | Added (b s : Z)
  | Reserved (b s : Z)
  | Allocated (b s : Z).

(** The states reached from the initial one by successful calls; the events
    are listed last first. *)
Inductive mb_run : list mb_event -> memblock -> Prop :=
  | run_init : mb_run [] memblock_init
  | run_add l mb b s mb' : mb_run l mb -> is_u64 b -> is_u64 s ->
      memblock_add mb b s = Ok (0, mb') -> mb_run (Added b s :: l) mb'
  | run_reserve l mb b s mb' : mb_run l mb -> is_u64 b -> is_u64 s ->
      memblock_reserve mb b s = Ok (0, mb') -> mb_run (Reserved b s :: l) mb'
  | run_alloc l mb sz k b mb' : mb_run l mb -> 0 < sz -> 0 <= k < 64 -> b <> 0 ->
      memblock_alloc_range_nid false mb sz (2 ^ k) = Ok (b, mb') ->
      mb_run (Allocated b sz :: l) mb'.

Definition adds (ev : mb_event) (x : Z) : Prop :=
  match ev with Added b s => b <= x < add_end b s | _ => False end.
Definition takes (ev : mb_event) (x : Z) : Prop :=
  match ev with
  | Added _ _ => False
  | Reserved b s => b <= x < add_end b s
  | Allocated b s => b <= x < b + s
  end.

(** Every allocated block was memory and was taken by no earlier event. *)
Fixpoint fresh_allocations (l : list mb_event) : Prop :=
  match l with
  | [] => True
  | ev :: l' =>
      match ev with
      | Allocated b s => forall x, b <= x < b + s ->
          Exists (fun ev' => adds ev' x) l' /\ ~ Exists (fun ev' => takes ev' x) l'
      | _ => True
      end /\ fresh_allocations l'
  end.

Lemma wf_memblock_init : wf_memblock memblock_init.
Proof.
  assert (wf_type (memory memblock_init)) as H; [|repeat split; try apply H; vm_compute; congruence].
  split; [vm_compute; intuition congruence|]. split; [reflexivity|left; reflexivity].
Qed.

Lemma mb_run_spec l mb : mb_run l mb ->
  wf_memblock mb /\ fresh_allocations l /\
  (forall x, covers (rgns (memory mb)) x <-> Exists (fun ev => adds ev x) l) /\
  (forall x, covers (rgns (reserved mb)) x <-> Exists (fun ev => takes ev x) l).
Proof.
  induction 1 as [|l mb b s mb' _ (W & F & M & R) Ub Us E|l mb b s mb' _ (W & F & M & R) Ub Us E
                  |l mb sz k b mb' _ (W & F & M & R) Hsz Hk Hb E].
  - split; [apply wf_memblock_init|]. split; [exact I|].
    split; intros x; rewrite Exists_nil; apply (covers_dummy 0).
  - destruct W as (Wm & Wr & Hl). unfold memblock_add in E.
    destruct (memblock_add_range_spec (memory mb) b s Wm Ub Us) as [[E' _]|(t & E' & Wt & _ & Ht)];
      rewrite E' in E; [discriminate|]. injection E as <-. simpl.
    split; [exact (conj Wt (conj Wr Hl))|]. split; [auto|].
    split; intros x; rewrite Exists_cons; simpl; [rewrite Ht, M|rewrite R]; tauto.
  - destruct W as (Wm & Wr & Hl). unfold memblock_reserve in E.
    destruct (memblock_add_range_spec (reserved mb) b s Wr Ub Us) as [[E' _]|(t & E' & Wt & _ & Ht)];
      rewrite E' in E; [discriminate|]. injection E as <-. simpl.
    split; [exact (conj Wm (conj Wt Hl))|]. split; [auto|].
    split; intros x; rewrite Exists_cons; simpl; [rewrite M|rewrite Ht, R]; tauto.
  - destruct (alloc_range_spec mb sz k (2 ^ k) W Hsz Hk (or_introl eq_refl))
      as [E'|[E'|(found & mb1 & E' & _ & (_ & _ & _ & Hfit) & W' & Em & Hr)]];
      rewrite E' in E; simplify_eq. simpl.
    split; [exact W'|]. split; [split; [|exact F]|].
    + intros x Hx. rewrite <- M, <- R. apply Hfit. exact Hx.
    + split; intros x; rewrite Exists_cons; simpl; [rewrite Em, M|rewrite Hr, R]; tauto.
Qed.

(** C1: after any sequence of successful [memblock_add], [memblock_reserve] and
    [memblock_alloc_range_nid] calls from the initial state, both tables are
    sorted, separated and have an exact [total_size]; memory is exactly the
    union of the added ranges and the reservations exactly the union of the
    reserved and allocated ones, and every allocated block was memory and
    disjoint from everything reserved or allocated before it. *)
Theorem boot_allocations_disjoint l mb : mb_run l mb ->
  wf_memblock mb /\ fresh_allocations l /\
  (forall x, covers (rgns (memory mb)) x <-> Exists (fun ev => adds ev x) l) /\
  (forall x, covers (rgns (reserved mb)) x <-> Exists (fun ev => takes ev x) l).
Proof. apply mb_run_spec. Qed.

(** ** Blocks handed to the page allocator *)

(** [l] lists blocks that follow each other from [start] to [end_], each
    naturally aligned and of an order the page allocator has. *)
Fixpoint tiles (start end_ : Z) (l : list (Z * Z)) : Prop :=
  match l with
  | [] => start = end_
  | (p, o) :: l' =>
      p = start /\ 0 <= o < MAX_ORDER /\ p mod 2 ^ o = 0 /\ start + 2 ^ o <= end_ /\
      tiles (start + 2 ^ o) end_ l'
  end.

Lemma mod_pow2_weaken x a b : 0 <= a <= b -> x mod 2 ^ b = 0 -> x mod 2 ^ a = 0.
Proof.
  intros Hab H. apply mod_pow2_zero_bits; [lia|]. intros k Hk.
  apply (proj1 (mod_pow2_zero_bits x b ltac:(lia)) H). lia.
Qed.

Lemma shrink_order_spec fuel : forall start end_ o, 0 <= start < end_ -> end_ < 2 ^ 63 ->
  0 <= o < MAX_ORDER -> o < Z.of_nat fuel ->
  exists o', shrink_order fuel start end_ o = Ok o' /\ 0 <= o' <= o /\ start + 2 ^ o' <= end_.
Proof.
  unfold MAX_ORDER.
  induction fuel as [|fuel IH]; intros start end_ o Hs He Ho Hf; [lia|]. cbn [shrink_order].
  pose proof (Z.pow_le_mono_r 2 o 10 ltac:(lia) ltac:(lia)) as Hp. pose proof (pow2_pos o ltac:(lia)).
  rewrite Z.shiftl_mul_pow2, Z.mul_1_l by lia.
  rewrite (u64_small (2 ^ o)), u64_small by (unfold is_u64; lia).
  destruct (Z.ltb_spec end_ (start + 2 ^ o)).
  - assert (o <> 0) by (intros ->; change (2 ^ 0) with 1 in *; lia).
    destruct (IH start end_ (o - 1)) as (o' & E & G1 & G2); try lia.
    exists o'. split; [exact E|]. split; [lia|assumption].
  - exists o. split; [reflexivity|]. lia.
Qed.

Lemma ffs_order start : is_u64 start ->
  0 <= min (MAX_ORDER - 1) (__ffs start) < MAX_ORDER /\
  start mod 2 ^ (min (MAX_ORDER - 1) (__ffs start)) = 0.
Proof.
  intros Hu. rewrite min_spec. unfold MAX_ORDER. destruct (Z.eq_dec start 0) as [->|Hnz].
  - split; [vm_compute; intuition congruence|reflexivity].
  - destruct (__ffs_lowest start Hu Hnz) as [(H1 & H2 & H3) H4]. split; [lia|].
    apply (mod_pow2_weaken _ _ (__ffs start)); [lia|]. apply mod_pow2_zero_bits; [lia|exact H3].
Qed.

Lemma free_pages_memory_spec fuel : forall start end_, 0 <= start <= end_ -> end_ < 2 ^ 63 ->
  end_ - start <= Z.of_nat fuel ->
  exists l, __free_pages_memory fuel start end_ = Ok l /\ tiles start end_ l.
Proof.
  induction fuel as [|fuel IH]; intros start end_ Hs He Hf; cbn [__free_pages_memory];
    (destruct (Z.ltb_spec start end_);
     [|exists []; split; [reflexivity|simpl; lia]]); [lia|].
  destruct (ffs_order start ltac:(unfold is_u64; lia)) as [Ho Ha].
  destruct (shrink_order_spec 64 start end_ _ ltac:(lia) He Ho) as (o & -> & H1 & H2).
  { assert (MAX_ORDER < 64) by reflexivity. lia. }
  cbn [mbind outcome_bind]. pose proof (pow2_pos o ltac:(lia)).
  rewrite Z.shiftl_mul_pow2, Z.mul_1_l by lia.
  rewrite (u64_small (2 ^ o)), u64_small by (unfold is_u64; lia).
  destruct (IH (start + 2 ^ o) end_) as (l & -> & Hl); [lia|lia|lia|].
  exists ((start, o) :: l). split; [reflexivity|]. simpl. split; [reflexivity|]. split; [lia|].
  split; [|auto]. apply (mod_pow2_weaken _ _ (min (MAX_ORDER - 1) (__ffs start))); [lia|exact Ha].
Qed.

(** [__free_pages_memory] terminates and cuts the page range into naturally
    aligned blocks of orders below [MAX_ORDER] that follow each other without
    gap or overlap from [start] to [end]. *)
Theorem free_pages_memory_tiles start end_ : 0 <= start <= end_ -> end_ < 2 ^ 63 ->
  exists l, __free_pages_memory (Z.to_nat (end_ - start)) start end_ = Ok l /\ tiles start end_ l.
Proof. intros Hs He. apply free_pages_memory_spec; lia. Qed.

Definition block_range (b : Z * Z) : Z * Z := (b.1, b.1 + 2 ^ b.2).
Definition aligned_block (b : Z * Z) : Prop := 0 <= b.2 < MAX_ORDER /\ b.1 mod 2 ^ b.2 = 0.
Fixpoint block_pages (l : list (Z * Z)) : Z :=
  match l with [] => 0 | b :: l' => 2 ^ b.2 + block_pages l' end.

Lemma block_pages_app l1 l2 : block_pages (l1 ++ l2) = block_pages l1 + block_pages l2.
Proof. induction l1; simpl; lia. Qed.

Lemma tiles_blocks l : forall start end_, tiles start end_ l ->
  Forall aligned_block l /\ block_pages l = end_ - start /\ start <= end_ /\
  Forall (fun b => start <= b.1 /\ b.1 + 2 ^ b.2 <= end_) l /\ asc_ranges start (block_range <$> l).
Proof.
  induction l as [|[p o] l IH]; intros start end_; simpl.
  - intros ->. repeat split; try constructor; lia.
  - intros (-> & H1 & H2 & H3 & H4). destruct (IH _ _ H4) as (I1 & I2 & I3 & I4 & I5).
    pose proof (pow2_pos o ltac:(lia)). split; [constructor; [split; assumption|exact I1]|].
    split; [simpl; lia|]. split; [lia|]. split.
    + constructor; [simpl; lia|]. eapply Forall_impl; [exact I4|]. simpl. intros. lia.
    + split; [lia|]. split; [lia|exact I5].
Qed.

Lemma PFN_UP_spec x : 0 <= x <= 2 ^ 64 - 4096 -> PFN_UP x = (x + 4095) / 4096.
Proof.
  intros H. unfold PFN_UP. change PAGE_SIZE with 4096. change PAGE_SHIFT with 12.
  replace (u64 (u64 (x + 4096) - 1)) with (x + 4095).
  - rewrite Z.shiftr_div_pow2 by lia. reflexivity.
  - unfold u64. rewrite Zminus_mod_idemp_l, Z.mod_small; lia.
Qed.

Lemma PFN_DOWN_spec x : PFN_DOWN x = x / 4096.
Proof. unfold PFN_DOWN, PAGE_SHIFT. rewrite Z.shiftr_div_pow2 by lia. reflexivity. Qed.

(** A block of whole pages of the byte range [r], below page [hi]. *)
Definition block_in (r : Z * Z) (hi : Z) (b : Z * Z) : Prop :=
  r.1 <= b.1 * 4096 /\ (b.1 + 2 ^ b.2) * 4096 <= r.2 /\ b.1 + 2 ^ b.2 <= hi.

Lemma free_memory_core_spec hi s e : 0 <= s <= e -> e <= 2 ^ 64 - 4096 ->
  exists l, __free_memory_core hi s e = Ok (l, block_pages l) /\ Forall aligned_block l /\
    Forall (block_in (s, e) hi) l /\ (exists lo, s <= lo * 4096 /\ asc_ranges lo (block_range <$> l)) /\
    block_pages l = Z.max 0 (Z.min (e / 4096) hi - (s + 4095) / 4096).
Proof.
  intros Hs He. unfold __free_memory_core. rewrite PFN_UP_spec, PFN_DOWN_spec, min_spec by lia.
  pose proof (Z.div_mod (s + 4095) 4096 ltac:(lia)). pose proof (Z.mod_pos_bound (s + 4095) 4096 ltac:(lia)).
  pose proof (Z.div_mod e 4096 ltac:(lia)). pose proof (Z.mod_pos_bound e 4096 ltac:(lia)).
  set (a := (s + 4095) / 4096) in *. set (b := Z.min (e / 4096) hi) in *.
  destruct (Z.leb_spec b a).
  { exists []. split; [reflexivity|]. repeat split; try constructor; try (simpl; lia).
    exists a. split; [lia|exact I]. }
  destruct (free_pages_memory_spec (Z.to_nat (b - a)) a b) as (l & -> & Hl); [lia|lia|lia|].
  destruct (tiles_blocks l _ _ Hl) as (I1 & I2 & I3 & I4 & I5).
  exists l. cbn [mbind outcome_bind]. rewrite u64_small, I2 by (unfold is_u64; lia).
  split; [reflexivity|]. split; [exact I1|]. split; [|split; [exists a; split; [lia|exact I5]|lia]].
  eapply Forall_impl; [exact I4|]. intros [p o] [H4 H5]. unfold block_in. simpl in *. lia.
Qed.

Lemma asc_ranges_join lo l1 l2 mid : asc_ranges lo l1 -> Forall (fun p => p.2 <= mid) l1 -> lo <= mid ->
  asc_ranges mid l2 -> asc_ranges lo (l1 ++ l2).
Proof.
  revert lo. induction l1 as [|p l1 IH]; intros lo H1 H2 Hm H3; simpl.
  - eapply asc_ranges_weaken; eassumption.
  - destruct H1 as (? & ? & H1). inversion H2; subst. auto.
Qed.

Lemma free_ranges_loop_spec hi L : forall lo c, asc_ranges lo L -> 0 <= lo ->
  Forall (fun p => p.2 <= 2 ^ 64 - 4096) L -> is_u64 c ->
  exists l, free_ranges_loop hi L c = Ok (l, u64 (c + block_pages l)) /\ Forall aligned_block l /\
    Forall (fun b => Exists (fun r => block_in r hi b) L) l /\
    asc_ranges ((lo + 4095) / 4096) (block_range <$> l).
Proof.
  induction L as [|[s e] L IH]; intros lo c Ha Hlo Hhi Hc.
  - exists []. simpl. rewrite Z.add_0_r, u64_small by assumption. repeat constructor.
  - destruct Ha as (A1 & A2 & A3). simpl in A1, A2, A3. inversion Hhi; subst. simpl in *.
    destruct (free_memory_core_spec hi s e ltac:(lia) ltac:(lia)) as (l & -> & F1 & F2 & (p & Hp & F3) & _).
    cbn [mbind outcome_bind].
    destruct (IH e (u64 (c + block_pages l)) A3 ltac:(lia) ltac:(assumption)) as (l' & -> & G1 & G2 & G3).
    { apply Z.mod_pos_bound. lia. }
    exists (l ++ l'). cbn [mbind outcome_bind]. rewrite block_pages_app.
    split; [f_equal; f_equal; rewrite u64_add_l; f_equal; lia|].
    split; [apply Forall_app; auto|]. split.
    + apply Forall_app. split; [eapply Forall_impl; [exact F2|intros; left; assumption]|].
      eapply Forall_impl; [exact G2|intros; right; assumption].
    + rewrite fmap_app. apply (asc_ranges_join _ _ _ ((e + 4095) / 4096)); [| | |exact G3].
      * eapply asc_ranges_weaken; [|exact F3].
        pose proof (Z.div_mod (lo + 4095) 4096 ltac:(lia)).
        pose proof (Z.mod_pos_bound (lo + 4095) 4096 ltac:(lia)). lia.
      * rewrite Forall_fmap. eapply Forall_impl; [exact F2|]. intros [q o] (_ & B & _). simpl in *.
        apply Z.div_le_lower_bound; lia.
      * apply Z.div_le_mono; lia.
Qed.

(** The inclusive bounds of a reservation. *)
Definition reserved_bounds (mb : memblock) (p : Z * Z) : Prop :=
  exists r, r ∈ rgns (reserved mb) /\ p = (base r, u64 (u64 (base r + size r) - 1)).

Lemma reserved_loop_ok mb : shape (reserved mb) -> forall fuel i, 0 <= i <= cnt (reserved mb) ->
  cnt (reserved mb) - i < Z.of_nat fuel ->
  exists L, for_each_reserved_mem_region fuel mb i = Ok L /\ Forall (reserved_bounds mb) L.
Proof.
  intros Hs. induction fuel as [|fuel IH]; intros i Hi Hf; [lia|].
  cbn [for_each_reserved_mem_region]. unfold __next_reserved_mem_region.
  destruct (Z.ltb_spec i (cnt (reserved mb))).
  - destruct (rgns (reserved mb) !! Z.to_nat i) as [r|] eqn:E.
    2:{ apply lookup_ge_None in E. pose proof (length_rgns _ Hs). lia. }
    pose proof (region_at_rgns _ _ r Hs E) as Er. rewrite Z2Nat.id in Er by lia. rewrite Er.
    cbn [mbind outcome_bind]. destruct (IH (i + 1)) as (L & -> & HL); [lia|lia|].
    eexists. split; [reflexivity|]. constructor; [|exact HL].
    exists r. split; [eapply list_elem_of_lookup_2; exact E|reflexivity].
  - exists []. split; [reflexivity|constructor].
Qed.

Lemma memblock_free_all_spec hi st : bs_stopped st = false -> wf_memblock (bs_memblock st) ->
  Forall (fun r => rend r <= 2 ^ 64 - 4096) (rgns (memory (bs_memblock st))) ->
  exists res l st', memblock_free_all hi st = Ok (u64 (block_pages l), res, l, st') /\
    Forall (reserved_bounds (bs_memblock st)) res /\ Forall aligned_block l /\ asc_ranges 0 (block_range <$> l) /\
    (forall b x, b ∈ l -> b.1 * 4096 <= x < (b.1 + 2 ^ b.2) * 4096 ->
       b.1 + 2 ^ b.2 <= hi /\ covers (rgns (memory (bs_memblock st))) x /\
       ~ covers (rgns (reserved (bs_memblock st))) x) /\
    bs_totalram_pages st' = s64 (bs_totalram_pages st + u64 (block_pages l)) /\
    memblock_free_all hi st' = Panic "memblock has been stopped!".
Proof.
  destruct st as [mb [] rd mg tot]; [discriminate|]. intros _ (Wm & Wr & _) Hhi. simpl in *.
  destruct (for_each_free_spec mb Wm Wr) as (L & EL & Ha & HL & Hend). specialize (Hend _ Hhi).
  destruct (free_ranges_loop_spec hi L 0 0 Ha ltac:(lia) Hend ltac:(unfold is_u64; lia))
    as (l & El & F1 & F2 & F3).
  destruct (reserved_loop_ok mb (proj1 Wr) (S (Z.to_nat (cnt (reserved mb)))) 0) as (res & Er & Hres);
    [destruct (proj1 Wr); lia|lia|].
  exists res, l. eexists. unfold memblock_free_all, free_low_memory_core_early. cbn [bs_stopped].
  replace (bs_memblock (reset_all_zones_managed_pages _)) with mb by (destruct rd; reflexivity).
  rewrite Er, EL. cbn [mbind outcome_bind]. rewrite El. split; [reflexivity|].
  split; [exact Hres|]. split; [exact F1|]. split; [exact F3|]. split; [|split; [destruct rd; reflexivity|destruct rd; reflexivity]].
  intros b x Hb Hx. rewrite Forall_forall in F2. specialize (F2 b Hb).
  rewrite <- HL. unfold in_ranges. apply Exists_exists in F2 as (r & Hr & B1 & B2 & B3).
  split; [exact B3|]. apply Exists_exists. exists r. split; [exact Hr|]. unfold in_range. lia.
Qed.

(** C29: [memblock_free_all], the first time it is called, terminates and hands the
    page allocator naturally aligned blocks of orders below [MAX_ORDER],
    ascending and without overlap (no page twice), below [max_low_pfn], every
    byte of which is memory and outside every reservation; the number of pages
    returned is their total, it is added to [_totalram_pages], and the
    allocator is stopped: a second call panics. *)
Theorem memblock_free_all_safe hi st : bs_stopped st = false -> wf_memblock (bs_memblock st) ->
  Forall (fun r => rend r <= 2 ^ 64 - 4096) (rgns (memory (bs_memblock st))) ->
  exists res l st', memblock_free_all hi st = Ok (u64 (block_pages l), res, l, st') /\
    Forall aligned_block l /\ asc_ranges 0 (block_range <$> l) /\
    (forall b x, b ∈ l -> b.1 * 4096 <= x < (b.1 + 2 ^ b.2) * 4096 ->
       b.1 + 2 ^ b.2 <= hi /\ covers (rgns (memory (bs_memblock st))) x /\
       ~ covers (rgns (reserved (bs_memblock st))) x) /\
    bs_totalram_pages st' = s64 (bs_totalram_pages st + u64 (block_pages l)) /\
    memblock_free_all hi st' = Panic "memblock has been stopped!".
Proof.
  intros Hs Hw Hhi. destruct (memblock_free_all_spec hi st Hs Hw Hhi) as (res & l & st' & E & _ & H).
  exists res, l, st'. split; [exact E|exact H].
Qed.

(** [memblock_add_range] keeps a table sorted, separated and with an exact
    [total_size]; it returns 0 and the table covers exactly what it covered
    plus the range (cut at the last address), or, only when cutting the range
    at the present regions makes more regions than the array holds, it
    panics. *)
Theorem add_range_exact t b s : wf_type t -> is_u64 b -> is_u64 s ->
  (memblock_add_range t b s = Panic "overflow" /\
     rmax t < Z.of_nat (length (ins_ranges (rgns t) b (add_end b s)))) \/
  exists t', memblock_add_range t b s = Ok (0, t') /\ wf_type t' /\ rmax t' = rmax t /\
    forall x, covers (rgns t') x <-> covers (rgns t) x \/ b <= x < add_end b s.
Proof. apply memblock_add_range_spec. Qed.

(** ** The theorems on a concrete boot sequence *)

Definition ok_or {A} (d : A) (m : outcome A) : A := match m with Ok a => a | _ => d end.
Definition ex_added : memblock :=
  ok_or memblock_init (snd <$> memblock_add memblock_init 0x80000000 0x8000000).
Definition ex_reserved : memblock :=
  ok_or memblock_init (snd <$> memblock_reserve ex_added 0x80200000 0x400000).
Definition ex_allocated : memblock :=
  ok_or memblock_init (snd <$> memblock_alloc_range_nid false ex_reserved 0x3000 (2 ^ 12)).

Lemma ex_run :
  mb_run [Allocated 0x87ffd000 0x3000; Reserved 0x80200000 0x400000; Added 0x80000000 0x8000000] ex_allocated.
Proof.
  eapply (run_alloc _ ex_reserved _ 12); [|lia|lia|lia|vm_compute; reflexivity].
  eapply (run_reserve _ ex_added); [|unfold is_u64; lia|unfold is_u64; lia|vm_compute; reflexivity].
  eapply run_add; [apply run_init|unfold is_u64; lia|unfold is_u64; lia|vm_compute; reflexivity].
Qed.

Lemma ex_wf : wf_memblock ex_allocated.
Proof. exact (proj1 (mb_run_spec _ _ ex_run)). Qed.

Lemma boot_allocations_disjoint_witness :
  wf_memblock ex_allocated /\
  fresh_allocations [Allocated 0x87ffd000 0x3000; Reserved 0x80200000 0x400000; Added 0x80000000 0x8000000].
Proof.
  destruct (boot_allocations_disjoint _ _ ex_run) as (W & F & _). exact (conj W F).
Defined.

Lemma add_range_exact_witness :
  rgns (ok_or (memory ex_allocated) (snd <$> memblock_add_range (memory ex_allocated) 0x88000000 0x1000))
    = [Region 0x80000000 0x8001000] /\
  exists t', memblock_add_range (memory ex_allocated) 0x88000000 0x1000 = Ok (0, t') /\ wf_type t'.
Proof.
  split; [vm_compute; reflexivity|].
  destruct (add_range_exact (memory ex_allocated) 0x88000000 0x1000 (proj1 ex_wf)) as [[E _]|(t & E & W & _)].
  - unfold is_u64. lia.
  - unfold is_u64. lia.
  - vm_compute in E. discriminate E.
  - exists t. exact (conj E W).
Defined.

Lemma free_ranges_exact_witness :
  for_each_free_mem_range ex_allocated = Ok [(0x80000000, 0x80200000); (0x80600000, 0x87ffd000)] /\
  exists L, for_each_free_mem_range ex_allocated = Ok L /\ asc_ranges 0 L.
Proof.
  split; [vm_compute; reflexivity|].
  destruct (free_ranges_exact ex_allocated (proj1 ex_wf) (proj1 (proj2 ex_wf))) as (L & E & Ha & _).
  exists L. exact (conj E Ha).
Defined.

Lemma alloc_returns_fresh_block_witness :
  fst <$> memblock_alloc_range_nid false ex_allocated 100 0 = Ok 0x87ffcf80 /\
  exists found mb', memblock_alloc_range_nid false ex_allocated 100 0 = Ok (found, mb') /\
    fits ex_allocated PAGE_SIZE (current_limit ex_allocated) 100 6 found.
Proof.
  split; [vm_compute; reflexivity|].
  destruct (alloc_returns_fresh_block ex_allocated 100 6 0 ex_wf ltac:(lia) ltac:(lia)) as [E|[E|(f & m & E & _ & H & _)]].
  - right. split; reflexivity.
  - vm_compute in E. discriminate E.
  - vm_compute in E. discriminate E.
  - exists f, m. exact (conj E H).
Defined.

Lemma free_pages_memory_tiles_witness :
  __free_pages_memory 12 3 15 = Ok [(3, 0); (4, 2); (8, 2); (12, 1); (14, 0)] /\
  exists l, __free_pages_memory (Z.to_nat (15 - 3)) 3 15 = Ok l /\ tiles 3 15 l.
Proof.
  split; [vm_compute; reflexivity|]. apply (free_pages_memory_tiles 3 15); lia.
Defined.

Lemma memblock_free_all_safe_witness :
  (fun r => (r.1.1.1, r.1.1.2)) <$> memblock_free_all 0x88000 (MkBoot ex_allocated false false [7] 0)
    = Ok (31741, [(0x80200000, 0x805fffff); (0x87ffd000, 0x87ffffff)]) /\
  exists res l st', memblock_free_all 0x88000 (MkBoot ex_allocated false false [7] 0)
    = Ok (u64 (block_pages l), res, l, st') /\ Forall aligned_block l.
Proof.
  split; [vm_compute; reflexivity|].
  destruct (memblock_free_all_safe 0x88000 (MkBoot ex_allocated false false [7] 0) eq_refl ex_wf)
    as (res & l & st' & E & H & _).
  - repeat constructor; vm_compute; congruence.
  - exists res, l, st'. exact (conj E H).
Defined.
