(* ===== verification/Buddy.v ===== *)
(** * buddy/buddy.c: the page allocator

    Page frames are named by their frame number, [struct page *] by the frame
    number of the page, and the array [mem_map] is a finite map.  The [lru]
    links of free pages are the lists [free_list] of the zone's areas and the
    list of the per-cpu set (that the pointer operations of [include/list.h]
    implement lists is the subject of [KList]).  The spin locks, interrupts and
    messages are left out: the code runs on one hart and takes no lock here. *)

From Stdlib Require Import ZArith Lia.
From stdpp Require Import base tactics numbers list strings gmap.
From S2P Require Import Prelude Words Mem LibString Memblock.
Import list.

(** ** Pages *)

Record page := Page { pg_flags : Z; pg_private : Z; page_type : Z; _refcount : Z }.
Abbreviation mem_map := (gmap Z page).

Definition PAGE_TYPE_BASE : Z := 0xf0000000.
Definition PG_buddy : Z := 0x80.
Definition PG_reserved : Z := 12.
Definition MAX_NR_ZONES : Z := 3.
Definition ZONES_PGSHIFT : Z := 62.
Definition ZONES_MASK : Z := 3.

Definition PageBuddy (pg : page) : bool :=
  Z.land (page_type pg) (Z.lor PAGE_TYPE_BASE PG_buddy) =? PAGE_TYPE_BASE.
Definition with_type (t : Z) (pg : page) : page :=
  Page (pg_flags pg) (pg_private pg) t (_refcount pg).
Definition __SetPageBuddy (pg : page) : page :=
  with_type (Z.land (page_type pg) (u32 (Z.lnot PG_buddy))) pg.
Definition __ClearPageBuddy (pg : page) : page := with_type (Z.lor (page_type pg) PG_buddy) pg.

Definition with_flags (fl : Z) (pg : page) : page :=
  Page fl (pg_private pg) (page_type pg) (_refcount pg).
Definition __SetPageReserved (pg : page) : page :=
  with_flags (Z.lor (pg_flags pg) (Z.shiftl 1 PG_reserved)) pg.
Definition __ClearPageReserved (pg : page) : page :=
  with_flags (Z.land (pg_flags pg) (u64 (Z.lnot (Z.shiftl 1 PG_reserved)))) pg.

Definition set_page_private (v : Z) (pg : page) : page :=
  Page (pg_flags pg) v (page_type pg) (_refcount pg).
Definition set_page_count (v : Z) (pg : page) : page :=
  Page (pg_flags pg) (pg_private pg) (page_type pg) v.
Definition set_page_refcounted (pg : page) : page := set_page_count 1 pg.

Definition page_order (pg : page) : Z := u32 (pg_private pg).
Definition page_zonenum (pg : page) : Z := Z.land (Z.shiftr (pg_flags pg) ZONES_PGSHIFT) ZONES_MASK.
Definition page_zone_id (pg : page) : Z := Z.land (Z.shiftr (pg_flags pg) ZONES_PGSHIFT) ZONES_MASK.

Definition get_page (M : mem_map) (p : Z) : outcome page := deref (M !! p).
Definition upd_page (M : mem_map) (p : Z) (f : page -> page) : outcome mem_map :=
  pg ← get_page M p; Ok (<[p := f pg]> M).

(** [page_pfn ^ (1 << order)] *)
Definition __find_buddy_pfn (page_pfn order : Z) : Z := Z.lxor page_pfn (Z.shiftl 1 order).

(** ** Zones *)

Record free_area := Area { free_list : list Z; nr_free : Z }.
Record zone := MkZone {
  zone_start_pfn : Z; managed_pages : Z; spanned_pages : Z; present_pages : Z;
  initialized : bool; free_areas : list free_area }.

Definition with_areas (z : zone) (a : list free_area) : zone :=
  MkZone (zone_start_pfn z) (managed_pages z) (spanned_pages z) (present_pages z) (initialized z) a.
Definition area_at (z : zone) (order : Z) : outcome free_area :=
  if order <? 0 then Fault else deref (free_areas z !! Z.to_nat order).
Definition set_area (z : zone) (order : Z) (a : free_area) : zone :=
  with_areas z (<[Z.to_nat order := a]> (free_areas z)).

Definition add_to_free_list (p : Z) (z : zone) (order : Z) : outcome zone :=
  a ← area_at z order; Ok (set_area z order (Area (p :: free_list a) (u64 (nr_free a + 1)))).
Definition add_to_free_list_tail (p : Z) (z : zone) (order : Z) : outcome zone :=
  a ← area_at z order; Ok (set_area z order (Area (free_list a ++ [p]) (u64 (nr_free a + 1)))).

(** [list_del]: unlink the page from the list of the zone it is on; a page on
    none has no valid neighbours. *)
Definition on_list (z : zone) (p : Z) : bool :=
  existsb (fun a => bool_decide (p ∈ free_list a)) (free_areas z).
Definition list_del_page (p : Z) (z : zone) : outcome zone :=
  if on_list z p
  then Ok (with_areas z ((fun a => Area (filter (fun q => q <> p) (free_list a)) (nr_free a)) <$> free_areas z))
  else Fault.

Definition del_page_from_free_list (M : mem_map) (p : Z) (z : zone) (order : Z)
  : outcome (mem_map * zone) :=
  z ← list_del_page p z;
  M ← upd_page M p __ClearPageBuddy;
  M ← upd_page M p (set_page_private 0);
  a ← area_at z order;
  Ok (M, set_area z order (Area (free_list a) (u64 (nr_free a - 1)))).

Definition page_is_buddy (M : mem_map) (p buddy order : Z) : outcome bool :=
  b ← get_page M buddy;
  if negb (PageBuddy b) then Ok false
  else if negb (page_order b =? order) then Ok false
  else pg ← get_page M p; Ok (page_zone_id pg =? page_zone_id b).

Definition set_page_order (M : mem_map) (p order : Z) : outcome mem_map :=
  M ← upd_page M p (set_page_private order);
  upd_page M p __SetPageBuddy.

Definition buddy_merge_likely (M : mem_map) (pfn buddy_pfn order : Z) : outcome bool :=
  if MAX_ORDER - 2 <=? order then Ok false
  else
    let combined_pfn := Z.land buddy_pfn pfn in
    page_is_buddy M combined_pfn (__find_buddy_pfn combined_pfn (order + 1)) (order + 1).

(** ** Freeing *)

(** The merging loop of [__free_one_page]; [buddy_pfn] is the last value the
    variable was given. *)
Fixpoint free_merge_loop (fuel : nat) (M : mem_map) (z : zone) (pfn order buddy_pfn : Z)
  : outcome (mem_map * zone * Z * Z * Z) :=
  if order <? MAX_ORDER - 1 then
    match fuel with
    | O => NoFuel
    | S f =>
        let buddy_pfn := __find_buddy_pfn pfn order in
        b ← page_is_buddy M pfn buddy_pfn order;
        if negb b then Ok (M, z, pfn, order, buddy_pfn)
        else
          '(M, z) ← del_page_from_free_list M buddy_pfn z order;
          free_merge_loop f M z (Z.land buddy_pfn pfn) (order + 1) buddy_pfn
    end
  else Ok (M, z, pfn, order, buddy_pfn).

Definition __free_one_page (M : mem_map) (pfn : Z) (z : zone) (order : Z) : outcome (mem_map * zone) :=
  '(M, z, pfn, order, buddy_pfn) ← free_merge_loop (Z.to_nat MAX_ORDER) M z pfn order 0;
  M ← set_page_order M pfn order;
  to_tail ← buddy_merge_likely M pfn buddy_pfn order;
  z ← (if (to_tail : bool) then add_to_free_list_tail pfn z order else add_to_free_list pfn z order);
  Ok (M, z).

Record per_cpu_pages := Pcp { pcp_count : Z; pcp_high : Z; pcp_batch : Z; pcp_list : list Z }.

(** A [struct zoneref]: the index of the zone, or none, and [zone_idx]. *)
Record zoneref := Zoneref { zr_zone : option nat; zone_idx : Z }.

(** The globals of the allocator: [mem_map], the node's zones and zonelist, and
    the page set all zones share. *)
Record buddy := MkBuddy {
  b_map : mem_map; node_zones : list zone; boot_pageset : per_cpu_pages; _zonerefs : list zoneref }.

Definition with_map_zones (s : buddy) (M : mem_map) (zs : list zone) : buddy :=
  MkBuddy M zs (boot_pageset s) (_zonerefs s).
Definition with_pageset (s : buddy) (p : per_cpu_pages) : buddy :=
  MkBuddy (b_map s) (node_zones s) p (_zonerefs s).
Definition zone_at (s : buddy) (i : nat) : outcome zone := deref (node_zones s !! i).

(** [page_zone]: the index of the page's zone. *)
Definition page_zone (s : buddy) (p : Z) : outcome nat :=
  pg ← get_page (b_map s) p; Ok (Z.to_nat (page_zonenum pg)).

Definition free_one_page (s : buddy) (zi : nat) (pfn order : Z) : outcome buddy :=
  z ← zone_at s zi;
  '(M, z) ← __free_one_page (b_map s) pfn z order;
  Ok (with_map_zones s M (<[zi := z]> (node_zones s))).

Definition __free_pages_ok (s : buddy) (p order : Z) : outcome buddy :=
  zi ← page_zone s p; free_one_page s zi p order.
Definition free_the_page (s : buddy) (p order : Z) : outcome buddy :=
  if order =? 0 then __free_pages_ok s p order else __free_pages_ok s p order.

Definition with_map (s : buddy) (M : mem_map) : buddy := with_map_zones s M (node_zones s).

(** [put_page_testzero]: the new state and whether the count reached zero. *)
Definition put_page_testzero (s : buddy) (p : Z) : outcome (bool * buddy) :=
  pg ← get_page (b_map s) p;
  let c := s32 (_refcount pg - 1) in
  Ok (c =? 0, with_map s (<[p := set_page_count c pg]> (b_map s))).

Definition __free_pages (s : buddy) (p order : Z) : outcome buddy :=
  '(zero, s) ← put_page_testzero s p;
  if (zero : bool) then free_the_page s p order else Ok s.

Fixpoint free_core_loop (n : nat) (M : mem_map) (p : Z) : outcome mem_map :=
  match n with
  | O => Ok M
  | S n' =>
      M ← upd_page M p __ClearPageReserved;
      M ← upd_page M p (set_page_count 0);
      free_core_loop n' M (p + 1)
  end.
Definition add_managed (z : zone) (n : Z) : zone :=
  MkZone (zone_start_pfn z) (s64 (managed_pages z + n)) (spanned_pages z) (present_pages z)
    (initialized z) (free_areas z).
Definition __free_pages_core (s : buddy) (p order : Z) : outcome buddy :=
  let nr_pages := u32 (Z.shiftl 1 order) in
  M ← free_core_loop (Z.to_nat nr_pages) (b_map s) p;
  let s := with_map s M in
  zi ← page_zone s p;
  z ← zone_at s zi;
  let s := with_map_zones s M (<[zi := add_managed z nr_pages]> (node_zones s)) in
  M ← upd_page (b_map s) p set_page_refcounted;
  __free_pages (with_map s M) p order.

(** ** Allocating *)

Fixpoint expand (fuel : nat) (M : mem_map) (z : zone) (p low high size : Z)
  : outcome (mem_map * zone) :=
  if low <? high then
    match fuel with
    | O => NoFuel
    | S f =>
        let high := high - 1 in
        let size := Z.shiftr size 1 in
        z ← add_to_free_list (p + size) z high;
        M ← set_page_order M (p + size) high;
        expand f M z p low high size
    end
  else Ok (M, z).

Definition get_page_from_free_area (a : free_area) : option Z := head (free_list a).

(** [None] is the null pointer. *)
Fixpoint __rmqueue_smallest (fuel : nat) (M : mem_map) (z : zone) (order current_order : Z)
  : outcome (option Z * mem_map * zone) :=
  if current_order <? MAX_ORDER then
    match fuel with
    | O => NoFuel
    | S f =>
        a ← area_at z current_order;
        match get_page_from_free_area a with
        | None => __rmqueue_smallest f M z order (current_order + 1)
        | Some p =>
            '(M, z) ← del_page_from_free_list M p z current_order;
            '(M, z) ← expand (Z.to_nat MAX_ORDER) M z p order current_order (u64 (s32 (Z.shiftl 1 current_order)));
            Ok (Some p, M, z)
        end
    end
  else Ok (None, M, z).

Definition __rmqueue (M : mem_map) (z : zone) (order : Z) : outcome (Z * mem_map * zone) :=
  '(p, M, z) ← __rmqueue_smallest (Z.to_nat MAX_ORDER) M z order order;
  match (p : option Z) with
  | None => Panic "bad __rmqueue_smallest! order(%u)"
  | Some p => Ok (p, M, z)
  end.

(** The pages are put at the tail of the caller's list; the number taken. *)
Fixpoint rmqueue_bulk (count : nat) (M : mem_map) (z : zone) (order : Z) (l : list Z)
  : outcome (Z * mem_map * zone * list Z) :=
  match count with
  | O => Ok (0, M, z, l)
  | S n =>
      '(p, M, z) ← __rmqueue M z order;
      '(k, M, z, l) ← rmqueue_bulk n M z order (l ++ [p]);
      Ok (k + 1, M, z, l)
  end.

Definition __rmqueue_pcplist (M : mem_map) (z : zone) (pcp : per_cpu_pages)
  : outcome (option Z * mem_map * zone * per_cpu_pages) :=
  '(M, z, pcp) ←
    (match pcp_list pcp with
     | [] =>
         '(k, M, z, l) ← rmqueue_bulk (Z.to_nat (pcp_batch pcp)) M z 0 [];
         Ok (M, z, Pcp (s32 (pcp_count pcp + k)) (pcp_high pcp) (pcp_batch pcp) l)
     | _ :: _ => Ok (M, z, pcp)
     end);
  match pcp_list pcp with
  | [] => Ok (None, M, z, pcp)
  | p :: l => Ok (Some p, M, z, Pcp (s32 (pcp_count pcp - 1)) (pcp_high pcp) (pcp_batch pcp) l)
  end.

Definition rmqueue (s : buddy) (zi : nat) (order : Z) : outcome (Z * buddy) :=
  z ← zone_at s zi;
  if order =? 0 then
    '(p, M, z, pcp) ← __rmqueue_pcplist (b_map s) z (boot_pageset s);
    match (p : option Z) with
    | None => Panic "bad order(%u)"
    | Some p => Ok (p, with_pageset (with_map_zones s M (<[zi := z]> (node_zones s))) pcp)
    end
  else
    '(p, M, z) ← __rmqueue (b_map s) z order;
    Ok (p, with_map_zones s M (<[zi := z]> (node_zones s))).

(** ** The zone list *)

Definition GFP_ZONEMASK : Z := Z.lor 0x01 (Z.lor 0x02 (Z.lor 0x04 0x08)).
Definition __GFP_ZERO : Z := 0x100.
Definition __GFP_HIGHMEM : Z := 0x02.
Definition __GFP_COMP : Z := 0x40000.
Definition ZONE_DMA32 : Z := 0.
Definition ZONE_NORMAL : Z := 1.
Definition ZONE_MOVABLE : Z := 2.
Definition GFP_ZONES_SHIFT : Z := 2.
Definition GFP_ZONE_TABLE : Z :=
  Z.lor (Z.shiftl ZONE_NORMAL (0 * GFP_ZONES_SHIFT))
  (Z.lor (Z.shiftl ZONE_NORMAL (0x01 * GFP_ZONES_SHIFT))
  (Z.lor (Z.shiftl ZONE_NORMAL (0x02 * GFP_ZONES_SHIFT))
         (Z.shiftl ZONE_DMA32 (0x04 * GFP_ZONES_SHIFT)))).
Definition gfp_zone (flags : Z) : Z :=
  let bit := Z.land flags GFP_ZONEMASK in
  Z.land (Z.shiftr GFP_ZONE_TABLE (bit * GFP_ZONES_SHIFT)) (Z.shiftl 1 GFP_ZONES_SHIFT - 1).

(** [__next_zones_zonelist], from the cursor [i]. *)
Fixpoint __next_zones_zonelist (fuel : nat) (zl : list zoneref) (i : nat) (highest_zoneidx : Z)
  : outcome nat :=
  r ← deref (zl !! i);
  if highest_zoneidx <? zone_idx r then
    match fuel with
    | O => NoFuel
    | S f => __next_zones_zonelist f zl (S i) highest_zoneidx
    end
  else Ok i.
Definition next_zones_zonelist (zl : list zoneref) (i : nat) (highest_zoneidx : Z) : outcome nat :=
  r ← deref (zl !! i);
  if zone_idx r <=? highest_zoneidx then Ok i
  else __next_zones_zonelist (length zl) zl i highest_zoneidx.
Definition first_zones_zonelist (zl : list zoneref) (highest_zoneidx : Z) : outcome nat :=
  next_zones_zonelist zl 0 highest_zoneidx.

Definition want_init_on_alloc (flags : Z) : bool := negb (Z.land flags __GFP_ZERO =? 0).

(** [kernel_init_free_pages] clears the pages through the linear map. *)
Fixpoint kernel_init_free_pages (va_pa_offset : Z) (numpages : nat) (m : mem) (p : Z) : outcome mem :=
  match numpages with
  | O => Ok m
  | S n =>
      m ← memset m (phys_to_virt va_pa_offset (PFN_PHYS p)) 0 PAGE_SIZE;
      kernel_init_free_pages va_pa_offset n m (p + 1)
  end.
Definition prep_new_page (va_pa_offset : Z) (m : mem) (p order gfp_flags : Z) : outcome mem :=
  if want_init_on_alloc gfp_flags
  then kernel_init_free_pages va_pa_offset (Z.to_nat (Z.shiftl 1 order)) m p
  else Ok m.

(** The body of the loop of [get_page_from_freelist] never reaches its end:
    [rmqueue] returns a page or panics. *)
Definition get_page_from_freelist (off : Z) (s : buddy) (m : mem) (gfp_mask order : Z) (preferred : nat)
  : outcome (option Z * buddy * mem) :=
  r ← deref (_zonerefs s !! preferred);
  match zr_zone r with
  | None => Ok (None, s, m)
  | Some zi =>
      '(p, s) ← rmqueue s zi order;
      m ← prep_new_page off m p order gfp_mask;
      Ok (Some p, s, m)
  end.

Definition __alloc_pages_nodemask (off : Z) (s : buddy) (m : mem) (gfp_mask order : Z)
  : outcome (Z * buddy * mem) :=
  if MAX_ORDER <=? order then Panic "bad alloc order %u"
  else
    preferred ← first_zones_zonelist (_zonerefs s) (gfp_zone gfp_mask);
    '(p, s, m) ← get_page_from_freelist off s m gfp_mask order preferred;
    match (p : option Z) with
    | Some p => Ok (p, s, m)
    | None => Panic "alloc failed!"
    end.

(** ** Byte addresses *)

(** The address-space constants: [va_pa_offset], [pfn_base] and [max_mapnr]. *)
Record layout := Layout { va_pa_offset : Z; pfn_base : Z; max_mapnr : Z }.

Definition page_address (L : layout) (p : Z) : Z := phys_to_virt (va_pa_offset L) (PFN_PHYS p).
Definition virt_to_pfn (L : layout) (vaddr : Z) : Z := PFN_DOWN (u64 (vaddr - va_pa_offset L)).
Definition pfn_valid (L : layout) (pfn : Z) : bool :=
  (pfn_base L <=? pfn) && (u64 (pfn - pfn_base L) <? max_mapnr L).

Definition __get_free_pages (L : layout) (s : buddy) (m : mem) (gfp_mask order : Z)
  : outcome (Z * buddy * mem) :=
  '(p, s, m) ← __alloc_pages_nodemask (va_pa_offset L) s m (Z.land gfp_mask (u32 (Z.lnot __GFP_HIGHMEM))) order;
  Ok (page_address L p, s, m).

Definition free_pages (L : layout) (s : buddy) (addr order : Z) : outcome buddy :=
  if addr =? 0 then Ok s
  else bug_on (negb (pfn_valid L (virt_to_pfn L addr))) "BUG_ON";;
       __free_pages s (virt_to_pfn L addr) order.

(** [while (used < end) { free_page(used); used += PAGE_SIZE; }] *)
Fixpoint free_page_loop (fuel : nat) (L : layout) (s : buddy) (used end_ : Z) : outcome buddy :=
  if used <? end_ then
    match fuel with
    | O => NoFuel
    | S f => s ← free_pages L s used 0; free_page_loop f L s (u64 (used + PAGE_SIZE)) end_
    end
  else Ok s.

Definition make_alloc_exact (L : layout) (s : buddy) (addr order size : Z) : outcome (Z * buddy) :=
  if addr =? 0 then Ok (addr, s)
  else
    let alloc_end := u64 (addr + u64 (Z.shiftl PAGE_SIZE order)) in
    let used := u64 (addr + PAGE_ALIGN size) in
    s ← free_page_loop (Z.to_nat (Z.shiftl 1 order)) L s used alloc_end;
    Ok (addr, s).

Definition alloc_pages_exact (L : layout) (s : buddy) (m : mem) (size gfp_mask : Z)
  : outcome (Z * buddy * mem) :=
  let order := get_order size in
  bug_on (negb (Z.land gfp_mask __GFP_COMP =? 0)) "BUG_ON";;
  '(addr, s, m) ← __get_free_pages L s m gfp_mask order;
  '(addr, s) ← make_alloc_exact L s addr order size;
  Ok (addr, s, m).

Definition free_pages_exact (fuel : nat) (L : layout) (s : buddy) (virt size : Z) : outcome buddy :=
  free_page_loop fuel L s virt (u64 (virt + PAGE_ALIGN size)).

Definition get_zeroed_page (L : layout) (s : buddy) (m : mem) (gfp_mask : Z) : outcome (Z * buddy * mem) :=
  __get_free_pages L s m (Z.lor gfp_mask __GFP_ZERO) 0.

(** ** Blocks *)

(** A block is a frame number and an order. *)
Definition block : Type := Z * Z.
Definition in_block (b : block) (x : Z) : Prop := b.1 <= x < b.1 + 2 ^ b.2.
Definition aligned (b : block) : Prop := 0 <= b.1 /\ 0 <= b.2 < MAX_ORDER /\ b.1 mod 2 ^ b.2 = 0.
Definition disjoint_blocks (b c : block) : Prop := forall x, in_block b x -> in_block c x -> False.

Definition tag (o : Z) (l : list Z) : list block := (fun p => (p, o)) <$> l.
Fixpoint blocks_from (k : Z) (l : list free_area) : list block :=
  match l with
  | [] => []
  | a :: l' => tag k (free_list a) ++ blocks_from (k + 1) l'
  end.

(** The free blocks of a zone. *)
Definition blocks (z : zone) : list block := blocks_from 0 (free_areas z).
Definition free_page_in (z : zone) (x : Z) : Prop := Exists (fun b => in_block b x) (blocks z).

Lemma elem_of_tag o l b : b ∈ tag o l <-> b.2 = o /\ b.1 ∈ l.
Proof.
  unfold tag. rewrite list_elem_of_fmap. split.
  - intros (p & -> & H). auto.
  - destruct b as [p q]. simpl. intros [-> H]. eauto.
Qed.

Lemma elem_of_blocks_from l : forall k b, b ∈ blocks_from k l <->
  exists i a, l !! i = Some a /\ b.2 = k + Z.of_nat i /\ b.1 ∈ free_list a.
Proof.
  induction l as [|a l IH]; intros k b; simpl.
  - rewrite elem_of_nil. split; [contradiction|]. intros (i & a & H & _). destruct i; discriminate H.
  - rewrite elem_of_app, elem_of_tag, IH. split.
    + intros [[E H]|(i & a' & H1 & H2 & H3)].
      * exists 0%nat, a. split; [reflexivity|]. split; [lia|exact H].
      * exists (S i), a'. split; [exact H1|]. split; [lia|exact H3].
    + intros ([|i] & a' & H1 & H2 & H3); simpl in H1.
      * left. simplify_eq. split; [lia|exact H3].
      * right. exists i, a'. split; [exact H1|]. split; [lia|exact H3].
Qed.

Lemma elem_of_blocks z p o : (p, o) ∈ blocks z <->
  0 <= o /\ exists a, free_areas z !! Z.to_nat o = Some a /\ p ∈ free_list a.
Proof.
  unfold blocks. rewrite elem_of_blocks_from. simpl. split.
  - intros (i & a & H1 & H2 & H3). split; [lia|]. exists a. rewrite H2, Z.add_0_l, Nat2Z.id. auto.
  - intros (H0 & a & H1 & H2). exists (Z.to_nat o), a. split; [exact H1|]. split; [lia|exact H2].
Qed.

(** Replacing one area replaces its blocks. *)
Lemma blocks_from_insert l i a : l !! i = Some a -> forall k, exists pre post,
  blocks_from k l = pre ++ tag (k + Z.of_nat i) (free_list a) ++ post /\
  forall a', blocks_from k (<[i := a']> l) = pre ++ tag (k + Z.of_nat i) (free_list a') ++ post.
Proof.
  revert i. induction l as [|a0 l IH]; intros [|i] H k; simpl in H; try discriminate.
  - simplify_eq. exists [], (blocks_from (k + 1) l). rewrite Z.add_0_r. auto.
  - destruct (IH i H (k + 1)) as (pre & post & E1 & E2).
    exists (tag k (free_list a0) ++ pre), post. simpl. replace (k + Z.of_nat (S i)) with (k + 1 + Z.of_nat i) by lia.
    split; [rewrite E1|intros a'; rewrite E2]; rewrite app_assoc; reflexivity.
Qed.

Lemma blocks_set_area z o a : 0 <= o -> free_areas z !! Z.to_nat o = Some a -> exists rest,
  blocks z ≡ₚ tag o (free_list a) ++ rest /\
  forall a', blocks (set_area z o a') ≡ₚ tag o (free_list a') ++ rest.
Proof.
  intros Ho H. destruct (blocks_from_insert _ _ _ H 0) as (pre & post & E1 & E2).
  rewrite Z2Nat.id, Z.add_0_l in * by lia. exists (pre ++ post).
  split; [unfold blocks; rewrite E1|intros a'; unfold blocks, set_area; simpl; rewrite E2];
    rewrite !app_assoc; apply Permutation_app_tail, Permutation_app_comm.
Qed.

(** ** Buddies *)

Lemma aligned_testbit p o : 0 <= o -> p mod 2 ^ o = 0 -> forall k, 0 <= k < o -> Z.testbit p k = false.
Proof. intros Ho H. apply mod_pow2_zero_bits; assumption. Qed.

Lemma land_even_odd a : Z.land (2 * a) (2 * a + 1) = 2 * a.
Proof.
  bits k Hk. destruct (Z.eq_dec k 0) as [->|]; [rewrite Z.testbit_even_0; reflexivity|].
  replace k with (Z.succ (k - 1)) by lia. rewrite Z.testbit_even_succ, Z.testbit_odd_succ by lia.
  apply andb_diag.
Qed.

(** Bit 0 of a number. *)
Lemma flip_bit0 q : 0 <= q ->
  (Z.lxor q 1 = q + 1 /\ Z.land (Z.lxor q 1) q = q /\ q mod 2 = 0) \/
  (Z.lxor q 1 = q - 1 /\ Z.land (Z.lxor q 1) q = q - 1 /\ 1 <= q /\ (q - 1) mod 2 = 0).
Proof.
  intros Hq. destruct q as [|[p|p|]|p]; [left|right|left|right|lia]; try (vm_compute; intuition congruence).
  - assert (Z.lxor (Zpos p~1) 1 = Zpos p~0) as E by (destruct p; reflexivity). rewrite E.
    split; [lia|]. split; [|split; [lia|replace (Zpos p~1 - 1) with (Zpos p * 2) by lia; apply Z.mod_mul; lia]].
    rewrite (Pos2Z.inj_xI p), (Pos2Z.inj_xO p), land_even_odd. lia.
  - assert (Z.lxor (Zpos p~0) 1 = Zpos p~1) as E by (destruct p; reflexivity). rewrite E.
    split; [lia|]. split; [|replace (Zpos p~0) with (Zpos p * 2) by lia; apply Z.mod_mul; lia].
    rewrite (Pos2Z.inj_xI p), (Pos2Z.inj_xO p), Z.land_comm, land_even_odd. lia.
Qed.

(** The buddy and the combined block, by the bit that distinguishes them. *)
Lemma buddy_cases p o : 0 <= p -> 0 <= o -> p mod 2 ^ o = 0 ->
  (__find_buddy_pfn p o = p + 2 ^ o /\ Z.land (__find_buddy_pfn p o) p = p /\ p mod 2 ^ (o + 1) = 0) \/
  (__find_buddy_pfn p o = p - 2 ^ o /\ Z.land (__find_buddy_pfn p o) p = p - 2 ^ o /\
   0 <= p - 2 ^ o /\ (p - 2 ^ o) mod 2 ^ (o + 1) = 0).
Proof.
  intros Hp Ho Ha. unfold __find_buddy_pfn. rewrite Z.shiftl_mul_pow2, Z.mul_1_l by lia.
  pose proof (pow2_pos o Ho) as P2. pose proof (Z.div_mod p (2 ^ o) ltac:(lia)) as Hd.
  assert (p = p / 2 ^ o * 2 ^ o) as Hq by lia. set (q := p / 2 ^ o) in *. clearbody q. subst p.
  assert (0 <= q) by nia.
  assert (Z.lxor (q * 2 ^ o) (2 ^ o) = Z.lxor q 1 * 2 ^ o) as Hx.
  { rewrite <- !Z.shiftl_mul_pow2, Z.shiftl_lxor by lia. f_equal. rewrite Z.shiftl_mul_pow2; lia. }
  rewrite Hx, <- !Z.shiftl_mul_pow2, <- Z.shiftl_land, !Z.shiftl_mul_pow2 by lia.
  replace (2 ^ (o + 1)) with (2 * 2 ^ o) by (rewrite Z.pow_add_r by lia; lia).
  destruct (flip_bit0 q H) as [(E1 & E2 & E3)|(E1 & E2 & E3 & E4)]; rewrite E2, E1; [left|right].
  - rewrite Z.mul_mod_distr_r, E3 by lia. lia.
  - replace (q * 2 ^ o - 2 ^ o) with ((q - 1) * 2 ^ o) by lia.
    rewrite Z.mul_mod_distr_r, E4 by lia. nia.
Qed.

(** ** The invariant of a zone *)

(** Every mapped page lies in a mapped, naturally aligned run of the largest
    block size ([alloc_node_mem_map] rounds both ends). *)
Definition map_closed (M : mem_map) : Prop := forall p q, is_Some (M !! p) -> p / 1024 = q / 1024 -> is_Some (M !! q).

Record zone_inv (M : mem_map) (z : zone) : Prop := {
  zi_len : length (free_areas z) = Z.to_nat MAX_ORDER;
  zi_count : forall i a, free_areas z !! i = Some a -> nr_free a = u64 (Z.of_nat (length (free_list a)));
  zi_nodup : NoDup (blocks z);
  zi_disjoint : forall b c, b ∈ blocks z -> c ∈ blocks z -> b <> c -> disjoint_blocks b c;
  zi_aligned : Forall aligned (blocks z);
  zi_mapped : forall b, b ∈ blocks z -> is_Some (M !! b.1);
  zi_closed : map_closed M;
  (** a page marked free heads a block of the order it records *)
  zi_marked : forall p pg, M !! p = Some pg -> PageBuddy pg = true -> (p, page_order pg) ∈ blocks z }.

(** A block that can be given to the zone. *)
Definition fresh_block (M : mem_map) (z : zone) (b : block) : Prop :=
  aligned b /\ is_Some (M !! b.1) /\ forall c, c ∈ blocks z -> disjoint_blocks b c.

(** The four top bits of [page_type], which say that the field is a type. *)
Definition type_base (pg : page) : Z := Z.land (page_type pg) PAGE_TYPE_BASE.

(** Only the order and the mark of pages differ. *)
Definition same_pages (M M' : mem_map) : Prop :=
  forall p, match M !! p, M' !! p with
            | Some pg, Some pg' =>
                pg_flags pg = pg_flags pg' /\ _refcount pg = _refcount pg' /\ type_base pg = type_base pg'
            | None, None => True
            | _, _ => False
            end.

#[global] Instance same_pages_equiv : Equivalence same_pages.
Proof.
  split.
  - intros M p. destruct (M !! p); auto.
  - intros M M' H p. specialize (H p). destruct (M !! p), (M' !! p); intuition congruence.
  - intros M1 M2 M3 H1 H2 p. specialize (H1 p). specialize (H2 p).
    destruct (M1 !! p), (M2 !! p), (M3 !! p); try contradiction; intuition congruence.
Qed.

Lemma same_pages_insert M p pg pg' : M !! p = Some pg -> pg_flags pg = pg_flags pg' ->
  _refcount pg = _refcount pg' -> type_base pg = type_base pg' -> same_pages M (<[p := pg']> M).
Proof.
  intros H E1 E2 E3 q. destruct (decide (p = q)) as [->|Hne].
  - rewrite H, lookup_insert_eq. auto.
  - rewrite lookup_insert_ne by assumption. destruct (M !! q); auto.
Qed.

Lemma same_pages_mapped M M' p : same_pages M M' -> is_Some (M !! p) <-> is_Some (M' !! p).
Proof.
  intros H. specialize (H p). destruct (M !! p), (M' !! p); try contradiction;
    rewrite ?is_Some_alt; split; eauto; intros [? ?]; discriminate.
Qed.

Lemma map_closed_same M M' : same_pages M M' -> map_closed M -> map_closed M'.
Proof.
  intros H C p q Hp Hq. apply (same_pages_mapped M M' q H). apply (C p q); [|exact Hq].
  apply (same_pages_mapped M M' p H). exact Hp.
Qed.

(** Marks. *)
Lemma type_base_set pg : type_base pg = type_base (__SetPageBuddy pg).
Proof.
  unfold type_base, __SetPageBuddy, with_type. simpl. bits k Hk.
  destruct (Z.eq_dec k 7) as [->|]; [change (Z.testbit PAGE_TYPE_BASE 7) with false; rewrite !andb_false_r; reflexivity|].
  destruct (Z.testbit PAGE_TYPE_BASE k) eqn:E; [|rewrite !andb_false_r; reflexivity].
  assert (k < 32) as Hk' by (destruct (Z.lt_ge_cases k 32); [assumption|];
    rewrite Z.bits_above_log2 in E by (unfold PAGE_TYPE_BASE; simpl; lia); discriminate).
  unfold u32. rewrite Z.mod_pow2_bits_low, Z.lnot_spec by lia.
  replace (Z.testbit PG_buddy k) with false; [rewrite !andb_true_r; reflexivity|].
  symmetry. change PG_buddy with (2 ^ 7). apply Z.pow2_bits_false. lia.
Qed.

Lemma type_base_clear pg : type_base pg = type_base (__ClearPageBuddy pg).
Proof.
  unfold type_base, __ClearPageBuddy, with_type. simpl. bits k Hk.
  destruct (Z.eq_dec k 7) as [->|]; [change (Z.testbit PAGE_TYPE_BASE 7) with false; rewrite !andb_false_r; reflexivity|].
  replace (Z.testbit PG_buddy k) with false; [rewrite orb_false_r; reflexivity|].
  symmetry. change PG_buddy with (2 ^ 7). apply Z.pow2_bits_false. lia.
Qed.

Lemma type_base_mark o pg : type_base pg = type_base (__SetPageBuddy (set_page_private o pg)).
Proof. rewrite <- type_base_set. reflexivity. Qed.
Lemma type_base_unmark o pg : type_base pg = type_base (set_page_private o (__ClearPageBuddy pg)).
Proof. apply type_base_clear. Qed.

Create HintDb buddy.
#[export] Hint Resolve type_base_mark type_base_unmark : buddy.

Lemma cleared_not_buddy pg : PageBuddy (__ClearPageBuddy pg) = false.
Proof.
  unfold PageBuddy, __ClearPageBuddy, with_type. simpl. apply Z.eqb_neq. intros E.
  assert (Z.testbit (Z.land (Z.lor (page_type pg) PG_buddy) (Z.lor PAGE_TYPE_BASE PG_buddy)) 7 =
          Z.testbit PAGE_TYPE_BASE 7) as T by (rewrite E; reflexivity).
  rewrite Z.land_spec, Z.lor_spec in T. change (Z.testbit PG_buddy 7) with true in T.
  rewrite orb_true_r in T. discriminate T.
Qed.

Lemma in_block_self b : 0 <= b.2 -> in_block b b.1.
Proof. intros H. unfold in_block. pose proof (pow2_pos b.2 H). lia. Qed.

Lemma aligned_order b : aligned b -> 0 <= b.2.
Proof. intros (_ & [H _] & _). exact H. Qed.

(** Two blocks of a zone with the same head are equal. *)
Lemma head_unique M z b c : zone_inv M z -> b ∈ blocks z -> c ∈ blocks z -> b.1 = c.1 -> b = c.
Proof.
  intros I Hb Hc E. destruct (decide (b = c)) as [|Hne]; [assumption|]. exfalso.
  pose proof (zi_aligned _ _ I) as Ha. rewrite Forall_forall in Ha.
  apply (zi_disjoint _ _ I b c Hb Hc Hne b.1); [|rewrite E]; apply in_block_self, aligned_order, Ha; assumption.
Qed.

Lemma area_of_order M z o : zone_inv M z -> 0 <= o < MAX_ORDER ->
  exists a, free_areas z !! Z.to_nat o = Some a /\ area_at z o = Ok a /\
    nr_free a = u64 (Z.of_nat (length (free_list a))).
Proof.
  intros I Ho. destruct (free_areas z !! Z.to_nat o) as [a|] eqn:E.
  - exists a. split; [reflexivity|]. unfold area_at. destruct (Z.ltb_spec o 0); [lia|].
    rewrite E. split; [reflexivity|]. exact (zi_count _ _ I _ _ E).
  - apply lookup_ge_None in E. rewrite (zi_len _ _ I) in E. lia.
Qed.

(** The invariant after a block has been added, at either end of its list, and
    its head marked. *)
Lemma zone_inv_add M z b a l pg : zone_inv M z -> fresh_block M z b ->
  free_areas z !! Z.to_nat b.2 = Some a -> l ≡ₚ b.1 :: free_list a -> M !! b.1 = Some pg ->
  let M' := <[b.1 := __SetPageBuddy (set_page_private b.2 pg)]> M in
  let z' := set_area z b.2 (Area l (u64 (nr_free a + 1))) in
  zone_inv M' z' /\ blocks z' ≡ₚ b :: blocks z /\ same_pages M M'.
Proof.
  intros I (Hal & Hmap & Hdis) Ha Hl Hpg M' z'. pose proof (aligned_order _ Hal) as Ho.
  destruct (blocks_set_area z b.2 a Ho Ha) as (rest & E1 & E2). specialize (E2 (Area l (u64 (nr_free a + 1)))).
  assert (blocks z' ≡ₚ b :: blocks z) as HB.
  { unfold z'. rewrite E2, E1. simpl. unfold tag. rewrite Hl. simpl. destruct b; reflexivity. }
  assert (same_pages M M') as HS by (apply (same_pages_insert _ _ pg); auto with buddy).
  split; [|split; assumption]. destruct I as [I1 I2 I3 I4 I5 I6 I7 I8]. split.
  - unfold z', set_area, with_areas. simpl. rewrite length_insert. exact I1.
  - intros i a' H. unfold z', set_area, with_areas in H. simpl in H.
    apply list_lookup_insert_Some in H as [(_ & <- & _)|(_ & H)]; [|eauto]. simpl.
    rewrite (I2 _ _ Ha), Hl, u64_add_l. f_equal. simpl. lia.
  - rewrite HB. constructor; [|exact I3]. intros Hin. apply (Hdis b Hin b.1); apply in_block_self; exact Ho.
  - intros c d. rewrite HB, !elem_of_cons. intros [->|Hc] [->|Hd] Hne; try congruence.
    + apply Hdis. exact Hd.
    + intros x Hx Hx'. exact (Hdis c Hc x Hx' Hx).
    + apply I4; assumption.
  - rewrite HB. constructor; assumption.
  - intros c. rewrite HB, elem_of_cons. intros Hc. apply (same_pages_mapped M M'); [exact HS|].
    destruct Hc as [->|Hc]; [exact Hmap|apply I6; exact Hc].
  - exact (map_closed_same _ _ HS I7).
  - intros p pg' Hp Hb. rewrite HB. apply lookup_insert_Some in Hp as [[<- <-]|[Hne Hp]].
    + apply elem_of_cons. left. unfold page_order. simpl. destruct b as [p o]. simpl in *.
      destruct Hal as (_ & Ho' & _). simpl in Ho'. unfold MAX_ORDER in Ho'. f_equal. apply Z.mod_small. lia.
    + apply elem_of_cons. right. apply I8; assumption.
Qed.

Lemma upd_page_ok M p f pg : M !! p = Some pg -> upd_page M p f = Ok (<[p := f pg]> M).
Proof. intros H. unfold upd_page, get_page. rewrite H. reflexivity. Qed.

(** Unlinking a block's head leaves the other lists as they are. *)
Lemma list_del_block M z b a : zone_inv M z -> b ∈ blocks z -> free_areas z !! Z.to_nat b.2 = Some a ->
  list_del_page b.1 z = Ok (set_area z b.2 (Area (filter (fun q => q <> b.1) (free_list a)) (nr_free a))).
Proof.
  intros I Hb Ha. unfold list_del_page. destruct b as [p o]. simpl in *.
  pose proof Hb as Hb'. apply elem_of_blocks in Hb' as (Ho & a' & Ha' & Hin). simplify_eq.
  assert (on_list z p = true) as ->.
  { apply existsb_exists. exists a. split; [|apply bool_decide_eq_true; exact Hin].
    apply list_elem_of_In. eapply list_elem_of_lookup_2. exact Ha. }
  f_equal. unfold set_area, with_areas. f_equal. apply list_eq. intros i.
  rewrite list_lookup_fmap. destruct (decide (i = Z.to_nat o)) as [->|Hne].
  - rewrite Ha, list_lookup_insert_eq by (eapply lookup_lt_Some; exact Ha). reflexivity.
  - rewrite list_lookup_insert_ne by congruence. destruct (free_areas z !! i) as [c|] eqn:Ec; [|reflexivity].
    simpl. f_equal. destruct c as [l n]. simpl. f_equal.
    assert (Forall (fun q => q <> p) l) as HF.
    { rewrite Forall_forall. intros q Hq ->. assert ((p, Z.of_nat i) ∈ blocks z) as Hc.
      { apply elem_of_blocks. split; [lia|]. rewrite Nat2Z.id. eauto. }
      pose proof (head_unique M z _ _ I Hb Hc eq_refl) as E. injection E as E. lia. }
    clear -HF. induction HF as [|q l Hq HF IH]; [reflexivity|].
    rewrite filter_cons. destruct (decide (q <> p)); [|contradiction]. f_equal. exact IH.
Qed.

Lemma filter_remove (l : list Z) p : NoDup l -> p ∈ l -> l ≡ₚ p :: filter (fun q => q <> p) l.
Proof.
  induction 1 as [|q l Hq Hn IH]; intros Hp; [apply elem_of_nil in Hp; contradiction|].
  rewrite filter_cons. apply elem_of_cons in Hp as [->|Hp].
  - destruct (decide (q <> q)); [contradiction|]. constructor.
    assert (filter (fun x => x <> q) l = l) as ->; [|reflexivity].
    clear -Hq. induction l as [|x l IH]; [reflexivity|]. rewrite filter_cons.
    apply not_elem_of_cons in Hq as [H1 H2]. destruct (decide (x <> q)) as [|n]; [f_equal; auto|exfalso; apply n; congruence].
  - destruct (decide (q <> p)) as [|E]; [|exfalso; apply E; intros ->; contradiction].
    rewrite (IH Hp) at 1. constructor.
Qed.

Lemma tag_NoDup M z o a : zone_inv M z -> 0 <= o -> free_areas z !! Z.to_nat o = Some a -> NoDup (free_list a).
Proof.
  intros I Ho Ha. destruct (blocks_set_area z o a Ho Ha) as (rest & E & _).
  pose proof (zi_nodup _ _ I) as N. rewrite E in N. apply NoDup_app in N as (N & _ & _).
  unfold tag in N. eapply NoDup_fmap_1. exact N.
Qed.

(** Taking a block out: it is removed, its head unmarked, and it can be given
    back. *)
Lemma del_block_spec M z b : zone_inv M z -> b ∈ blocks z -> exists M' z',
  del_page_from_free_list M b.1 z b.2 = Ok (M', z') /\ zone_inv M' z' /\ blocks z ≡ₚ b :: blocks z' /\
  same_pages M M' /\ fresh_block M' z' b.
Proof.
  intros I Hb. pose proof (zi_aligned _ _ I) as Hal. rewrite Forall_forall in Hal. specialize (Hal b Hb).
  pose proof (aligned_order _ Hal) as Ho. destruct (zi_mapped _ _ I b Hb) as [pg Hpg].
  destruct (area_of_order M z b.2 I (proj1 (proj2 Hal))) as (a & Ha & Hat & Hn).
  pose proof (tag_NoDup _ _ _ _ I Ho Ha) as Hnd.
  assert (b.1 ∈ free_list a) as Hin.
  { destruct b. apply elem_of_blocks in Hb as (_ & a' & Ha' & ?). simpl in *. congruence. }
  pose proof (filter_remove _ _ Hnd Hin) as Hperm. set (l := filter (fun q => q <> b.1) (free_list a)) in *.
  unfold del_page_from_free_list. rewrite (list_del_block M z b a I Hb Ha). fold l.
  cbn [mbind outcome_bind]. rewrite (upd_page_ok _ _ _ _ Hpg). cbn [mbind outcome_bind].
  rewrite (upd_page_ok _ _ _ (__ClearPageBuddy pg)) by apply lookup_insert_eq. cbn [mbind outcome_bind].
  assert (area_at (set_area z b.2 (Area l (nr_free a))) b.2 = Ok (Area l (nr_free a))) as ->.
  { unfold area_at. destruct (Z.ltb_spec b.2 0); [lia|]. simpl.
    rewrite list_lookup_insert_eq by (eapply lookup_lt_Some; exact Ha). reflexivity. }
  cbn [mbind outcome_bind]. rewrite insert_insert_eq. eexists _, _. split; [reflexivity|].
  assert (set_area (set_area z b.2 (Area l (nr_free a))) b.2 (Area l (u64 (nr_free a - 1)))
          = set_area z b.2 (Area l (u64 (nr_free a - 1)))) as Ez.
  { unfold set_area, with_areas. simpl. rewrite list_insert_insert_eq. reflexivity. }
  simpl free_list. simpl nr_free. rewrite Ez.
  set (M' := <[b.1 := set_page_private 0 (__ClearPageBuddy pg)]> M).
  set (z' := set_area z b.2 (Area l (u64 (nr_free a - 1)))).
  destruct (blocks_set_area z b.2 a Ho Ha) as (rest & E1 & E2). specialize (E2 (Area l (u64 (nr_free a - 1)))).
  assert (blocks z ≡ₚ b :: blocks z') as HB.
  { unfold z'. rewrite E2, E1. simpl. unfold tag. rewrite Hperm. simpl. destruct b; reflexivity. }
  assert (same_pages M M') as HS by (apply (same_pages_insert _ _ pg); auto with buddy).
  destruct I as [I1 I2 I3 I4 I5 I6 I7 I8].
  assert (NoDup (b :: blocks z')) as HN by (rewrite <- HB; exact I3). apply NoDup_cons in HN as [HN1 HN2].
  assert (forall c, c ∈ blocks z' -> c ∈ blocks z) as Hsub.
  { intros c Hc. rewrite HB. apply elem_of_cons. right. exact Hc. }
  split; [split|split; [exact HB|split; [exact HS|]]].
  - unfold z', set_area, with_areas. simpl. rewrite length_insert. exact I1.
  - intros i a' H'. unfold z', set_area, with_areas in H'. simpl in H'.
    apply list_lookup_insert_Some in H' as [(_ & <- & _)|(_ & H')]; [|eauto]. simpl.
    rewrite Hn, Hperm. unfold u64. rewrite Zminus_mod_idemp_l. f_equal. simpl. lia.
  - exact HN2.
  - intros c d Hc Hd. apply I4; auto.
  - rewrite HB in I5. inversion I5. assumption.
  - intros c Hc. apply (same_pages_mapped M M' _ HS). auto.
  - exact (map_closed_same _ _ HS I7).
  - intros p pg' Hp Hbud. apply lookup_insert_Some in Hp as [[<- <-]|[Hne Hp]].
    + exfalso. unfold PageBuddy in Hbud. simpl in Hbud. pose proof (cleared_not_buddy pg) as C.
      unfold PageBuddy in C. simpl in C. congruence.
    + specialize (I8 p pg' Hp Hbud). rewrite HB in I8. apply elem_of_cons in I8 as [E|]; [|assumption].
      exfalso. apply Hne. rewrite <- E. reflexivity.
  - split; [exact Hal|]. split; [apply (same_pages_mapped M M' _ HS); rewrite Hpg; eauto|].
    intros c Hc. apply I4; [exact Hb|auto|]. intros ->. contradiction.
Qed.

Lemma same_group p x k : 0 <= k <= 10 -> p mod 2 ^ k = 0 -> p <= x < p + 2 ^ k -> x / 1024 = p / 1024.
Proof.
  intros Hk Hp Hx. pose proof (pow2_pos k ltac:(lia)). pose proof (pow2_pos (10 - k) ltac:(lia)).
  replace 1024 with (2 ^ k * 2 ^ (10 - k)) by (rewrite <- Z.pow_add_r by lia; replace (k + (10 - k)) with 10 by lia; reflexivity).
  rewrite <- !Z.div_div by lia. f_equal. pose proof (Z.div_mod p (2 ^ k) ltac:(lia)) as E.
  rewrite Hp in E. symmetry. apply Z.div_unique with (r := x - p); [left; lia|].
  rewrite E at 2. ring.
Qed.

(** The union of a block and its buddy is the combined block. *)
Lemma buddy_combine p o : aligned (p, o) -> o < MAX_ORDER - 1 ->
  let q := __find_buddy_pfn p o in let c := Z.land q p in
  aligned (c, o + 1) /\ q / 1024 = p / 1024 /\ c / 1024 = p / 1024 /\ aligned (q, o) /\
  forall x, in_block (c, o + 1) x <-> in_block (p, o) x \/ in_block (q, o) x.
Proof.
  intros (Hp & [Ho1 _] & Ha) Ho. simpl in *. unfold MAX_ORDER in Ho.
  pose proof (pow2_pos o Ho1) as P2.
  assert (2 ^ (o + 1) = 2 * 2 ^ o) as E2 by (rewrite Z.pow_add_r by lia; lia).
  unfold aligned, in_block, MAX_ORDER. simpl.
  destruct (buddy_cases p o Hp Ho1 Ha) as [(-> & -> & Hc)|(-> & -> & Hge & Hc)]; rewrite E2 in *.
  - assert ((p + 2 ^ o) mod 2 ^ o = 0) as Hq by (rewrite <- Zplus_mod_idemp_r, Z.mod_same, Z.add_0_r by lia; exact Ha).
    repeat split; try assumption; try lia.
    apply (same_group p _ (o + 1)); rewrite ?E2; try lia.
  - assert ((p - 2 ^ o) mod 2 ^ o = 0) as Hq by (rewrite <- Zminus_mod_idemp_r, Z.mod_same, Z.sub_0_r by lia; exact Ha).
    assert (p / 1024 = (p - 2 ^ o) / 1024) as Eg by (apply (same_group _ _ (o + 1)); rewrite ?E2; try lia; exact Hc).
    repeat split; try assumption; try lia.
Qed.

Lemma page_is_buddy_spec M z p q o : zone_inv M z -> is_Some (M !! p) -> is_Some (M !! q) ->
  exists b, page_is_buddy M p q o = Ok b /\ (b = true -> (q, o) ∈ blocks z).
Proof.
  intros I [pg Hp] [qg Hq]. unfold page_is_buddy, get_page. rewrite Hq, Hp. cbn [deref mbind outcome_bind].
  destruct (PageBuddy qg) eqn:E1; cbn [negb]; [|exists false; split; [reflexivity|discriminate]].
  destruct (Z.eqb_spec (page_order qg) o) as [<-|]; cbn [negb]; [|exists false; split; [reflexivity|discriminate]].
  eexists. split; [reflexivity|]. intros _. exact (zi_marked _ _ I _ _ Hq E1).
Qed.

Lemma free_page_perm z z' b : blocks z ≡ₚ b :: blocks z' ->
  forall x, free_page_in z x <-> in_block b x \/ free_page_in z' x.
Proof. intros HB x. unfold free_page_in. rewrite HB, Exists_cons. reflexivity. Qed.

Lemma free_merge_loop_spec fuel : forall M z pfn order bp, zone_inv M z -> fresh_block M z (pfn, order) ->
  MAX_ORDER - 1 - order < Z.of_nat fuel ->
  exists M' z' pfn' order' bp', free_merge_loop fuel M z pfn order bp = Ok (M', z', pfn', order', bp') /\
    zone_inv M' z' /\ fresh_block M' z' (pfn', order') /\ same_pages M M' /\
    (order' = MAX_ORDER - 1 \/ bp' = __find_buddy_pfn pfn' order') /\
    forall x, in_block (pfn', order') x \/ free_page_in z' x <-> in_block (pfn, order) x \/ free_page_in z x.
Proof.
  induction fuel as [|fuel IH]; intros M z pfn order bp I F Hf;
    pose proof F as (Hal & Hmap & Hdis); pose proof Hal as (Hp0 & [Ho1 Ho2] & Hp2); simpl in *.
  { unfold MAX_ORDER in *. lia. }
  destruct (Z.ltb_spec order (MAX_ORDER - 1)) as [Hlt|Hge].
  2:{ exists M, z, pfn, order, bp. split; [reflexivity|]. split; [exact I|]. split; [exact F|].
      split; [reflexivity|]. split; [left; lia|]. reflexivity. }
  destruct (buddy_combine pfn order Hal Hlt) as (C1 & C2 & C3 & C4 & C5).
  pose proof (zi_closed _ _ I pfn _ Hmap (eq_sym C2)) as Hqm.
  destruct (page_is_buddy_spec M z pfn _ order I Hmap Hqm) as (b & -> & Hb). cbn [mbind outcome_bind].
  destruct b; cbn [negb].
  2:{ eexists M, z, pfn, order, _. split; [reflexivity|]. split; [exact I|]. split; [exact F|].
      split; [reflexivity|]. split; [right; reflexivity|]. reflexivity. }
  specialize (Hb eq_refl). destruct (del_block_spec M z _ I Hb) as (M1 & z1 & E & I1 & HB & HS & F1).
  simpl in E. rewrite E. cbn [mbind outcome_bind].
  destruct (IH M1 z1 (Z.land (__find_buddy_pfn pfn order) pfn) (order + 1) (__find_buddy_pfn pfn order) I1)
    as (M2 & z2 & p2 & o2 & b2 & E2 & I2 & F2 & S2 & L2 & X2).
  - split; [exact C1|]. split.
    + apply (same_pages_mapped _ _ _ HS). apply (zi_closed _ _ I pfn); [exact Hmap|]. symmetry. exact C3.
    + intros c Hc x Hx Hx'. apply C5 in Hx as [Hx|Hx].
      * apply (Hdis c) with x; [|exact Hx|exact Hx']. rewrite HB. apply elem_of_cons. right. exact Hc.
      * exact (proj2 (proj2 F1) c Hc x Hx Hx').
  - lia.
  - exists M2, z2, p2, o2, b2. split; [exact E2|]. split; [exact I2|]. split; [exact F2|].
    split; [rewrite HS; exact S2|]. split; [exact L2|].
    intros x. rewrite X2, C5, (free_page_perm _ _ _ HB). tauto.
Qed.

Lemma set_page_order_ok M p o pg : M !! p = Some pg ->
  set_page_order M p o = Ok (<[p := __SetPageBuddy (set_page_private o pg)]> M).
Proof.
  intros H. unfold set_page_order. rewrite (upd_page_ok _ _ _ _ H). cbn [mbind outcome_bind].
  rewrite (upd_page_ok _ _ _ (set_page_private o pg)) by apply lookup_insert_eq.
  rewrite insert_insert_eq. reflexivity.
Qed.

Lemma buddy_merge_likely_ok M p o bp : map_closed M -> is_Some (M !! p) -> aligned (p, o) ->
  o = MAX_ORDER - 1 \/ bp = __find_buddy_pfn p o -> exists b, buddy_merge_likely M p bp o = Ok b.
Proof.
  intros C Hp Hal Hb. unfold buddy_merge_likely.
  destruct (Z.leb_spec (MAX_ORDER - 2) o) as [|Hlt]; [eauto|]. destruct Hb as [Hb|Hb]; [lia|]. subst bp.
  destruct (buddy_combine p o Hal ltac:(lia)) as (C1 & _ & C3 & _).
  destruct (buddy_combine _ _ C1 ltac:(lia)) as (_ & D2 & _).
  assert (is_Some (M !! Z.land (__find_buddy_pfn p o) p)) as [cg Hc] by (apply (C p); auto).
  destruct (C _ _ (mk_is_Some _ _ Hc) (eq_sym D2)) as [dg Hd].
  unfold page_is_buddy, get_page. rewrite Hd, Hc. cbn [deref mbind outcome_bind].
  destruct (negb _); [eauto|]. destruct (negb _); eauto.
Qed.

Lemma free_one_page_spec M z pfn order : zone_inv M z -> fresh_block M z (pfn, order) ->
  exists M' z', __free_one_page M pfn z order = Ok (M', z') /\ zone_inv M' z' /\ same_pages M M' /\
    forall x, free_page_in z' x <-> in_block (pfn, order) x \/ free_page_in z x.
Proof.
  intros I F. unfold __free_one_page.
  destruct (free_merge_loop_spec (Z.to_nat MAX_ORDER) M z pfn order 0 I F) as
    (M1 & z1 & p & o & bp & -> & I1 & F1 & S1 & L1 & X1).
  { destruct F as ((_ & ? & _) & _). simpl in *. unfold MAX_ORDER in *. lia. }
  cbn [mbind outcome_bind]. pose proof F1 as (Hal & [pg Hpg] & _). simpl in Hpg.
  rewrite (set_page_order_ok _ _ _ _ Hpg). cbn [mbind outcome_bind].
  set (M2 := <[p := __SetPageBuddy (set_page_private o pg)]> M1).
  assert (same_pages M1 M2) as S2 by (apply (same_pages_insert _ _ pg); auto with buddy).
  destruct (buddy_merge_likely_ok M2 p o bp) as [b ->]; [| |exact Hal|exact L1|].
  { exact (map_closed_same _ _ S2 (zi_closed _ _ I1)). }
  { apply (same_pages_mapped _ _ _ S2). rewrite Hpg. eauto. }
  cbn [mbind outcome_bind]. unfold add_to_free_list, add_to_free_list_tail.
  destruct (area_of_order M1 z1 o I1 (proj1 (proj2 Hal))) as (a & Ha & -> & _). cbn [mbind outcome_bind].
  assert (forall l, l ≡ₚ p :: free_list a -> exists M' z',
            Ok (M2, set_area z1 o (Area l (u64 (nr_free a + 1)))) = Ok (M', z') /\ zone_inv M' z' /\
            same_pages M M' /\ forall x, free_page_in z' x <-> in_block (pfn, order) x \/ free_page_in z x) as H.
  { intros l Hl. destruct (zone_inv_add M1 z1 (p, o) a l pg I1 F1 Ha Hl Hpg) as (I2 & B2 & _).
    eexists _, _. split; [reflexivity|]. split; [exact I2|]. split; [rewrite S1; exact S2|].
    intros x. rewrite (free_page_perm _ _ _ B2), X1. reflexivity. }
  destruct b; cbn [mbind outcome_bind]; apply H; [|reflexivity]. rewrite Permutation_app_comm. reflexivity.
Qed.

(** Freeing a block that is not free already succeeds on every zone that
    satisfies the invariant, keeps it, and adds exactly the pages of the block
    to the free pages, whatever merging happens; only the marks and orders of
    pages change. *)
Theorem free_one_page_exact M z pfn order : zone_inv M z -> fresh_block M z (pfn, order) ->
  exists M' z', __free_one_page M pfn z order = Ok (M', z') /\ zone_inv M' z' /\ same_pages M M' /\
    forall x, free_page_in z' x <-> in_block (pfn, order) x \/ free_page_in z x.
Proof. apply free_one_page_spec. Qed.

(** ** Splitting and allocating *)

Lemma aligned_half p o : aligned (p, o) -> 0 < o -> aligned (p, o - 1) /\ aligned (p + 2 ^ (o - 1), o - 1) /\
  forall x, in_block (p, o) x <-> in_block (p, o - 1) x \/ in_block (p + 2 ^ (o - 1), o - 1) x.
Proof.
  intros (H1 & H2 & H3) Ho. simpl in *. pose proof (pow2_pos (o - 1) ltac:(lia)).
  assert (2 ^ o = 2 * 2 ^ (o - 1)) as E by (replace o with (o - 1 + 1) at 1 by lia; rewrite Z.pow_add_r by lia; lia).
  assert (p mod 2 ^ (o - 1) = 0) as Hm by (apply (mod_pow2_weaken _ _ o); [lia|exact H3]).
  unfold aligned, in_block. simpl. rewrite E.
  assert ((p + 2 ^ (o - 1)) mod 2 ^ (o - 1) = 0) as Hm'
    by (rewrite <- Zplus_mod_idemp_r, Z.mod_same, Z.add_0_r by lia; exact Hm).
  repeat split; try assumption; try lia.
Qed.

Lemma expand_spec fuel : forall M z p low high, zone_inv M z -> fresh_block M z (p, high) ->
  0 <= low <= high -> high - low < Z.of_nat fuel ->
  exists M' z', expand fuel M z p low high (2 ^ high) = Ok (M', z') /\ zone_inv M' z' /\ same_pages M M' /\
    fresh_block M' z' (p, low) /\
    forall x, in_block (p, low) x \/ free_page_in z' x <-> in_block (p, high) x \/ free_page_in z x.
Proof.
  induction fuel as [|fuel IH]; intros M z p low high I F Hlh Hf; [lia|]. cbn [expand].
  destruct (Z.ltb_spec low high) as [Hlt|Hge].
  2:{ assert (low = high) as -> by lia. exists M, z. split; [reflexivity|]. split; [exact I|].
      split; [reflexivity|]. split; [exact F|]. reflexivity. }
  pose proof F as (Hal & Hmap & Hdis). destruct (aligned_half p high Hal ltac:(lia)) as (A1 & A2 & A3).
  assert (Z.shiftr (2 ^ high) 1 = 2 ^ (high - 1)) as ->.
  { rewrite Z.shiftr_div_pow2, <- Z.pow_sub_r by lia. reflexivity. }
  set (q := p + 2 ^ (high - 1)) in *. set (h := high - 1) in *.
  assert (is_Some (M !! q)) as Hq.
  { apply (zi_closed _ _ I p); [exact Hmap|]. symmetry. destruct Hal as (_ & H2 & H3). simpl in *.
    unfold MAX_ORDER in H2. apply (same_group p _ high); [lia|exact H3|]. apply A3. right.
    apply in_block_self. simpl. lia. }
  unfold add_to_free_list. destruct (area_of_order M z h I (proj1 (proj2 A2))) as (a & Ha & -> & _).
  cbn [mbind outcome_bind]. destruct Hq as [qg Hqg]. rewrite (set_page_order_ok _ _ _ _ Hqg). cbn [mbind outcome_bind].
  assert (fresh_block M z (q, h)) as Fq.
  { split; [exact A2|]. split; [simpl; rewrite Hqg; eauto|]. intros c Hc x Hx. apply Hdis; [exact Hc|].
    apply A3. right. exact Hx. }
  destruct (zone_inv_add M z (q, h) a (q :: free_list a) qg I Fq Ha ltac:(reflexivity) Hqg) as (I1 & B1 & S1).
  simpl in I1, B1, S1.
  destruct (IH _ _ p low h I1) as (M2 & z2 & E2 & I2 & S2 & F2 & X2); [|lia|lia|].
  - split; [exact A1|]. split; [apply (same_pages_mapped _ _ _ S1); exact Hmap|].
    intros c. rewrite B1, elem_of_cons. intros [->|Hc] x Hx Hx'.
    + unfold in_block in *. simpl in *. unfold q in *. lia.
    + apply (Hdis c Hc x); [apply A3; left; exact Hx|exact Hx'].
  - exists M2, z2. split; [exact E2|]. split; [exact I2|]. split; [rewrite S1; exact S2|]. split; [exact F2|].
    intros x. rewrite X2, A3, (free_page_perm _ _ _ B1). tauto.
Qed.

(** The result of taking a block of order [order] from a zone. *)
Definition taken (M : mem_map) (z : zone) (order p : Z) (M' : mem_map) (z' : zone) : Prop :=
  zone_inv M' z' /\ same_pages M M' /\ fresh_block M' z' (p, order) /\
  (exists o, order <= o /\ (p, o) ∈ blocks z /\ forall c, c ∈ blocks z -> order <= c.2 -> o <= c.2) /\
  forall x, free_page_in z x <-> in_block (p, order) x \/ free_page_in z' x.

Lemma rmqueue_smallest_spec fuel : forall M z order cur, zone_inv M z -> 0 <= order <= cur -> cur <= MAX_ORDER ->
  MAX_ORDER - cur <= Z.of_nat fuel -> (forall c, c ∈ blocks z -> order <= c.2 -> cur <= c.2) ->
  (__rmqueue_smallest fuel M z order cur = Ok (None, M, z) /\ forall c, c ∈ blocks z -> c.2 < order) \/
  exists p M' z', __rmqueue_smallest fuel M z order cur = Ok (Some p, M', z') /\ taken M z order p M' z'.
Proof.
  induction fuel as [|fuel IH]; intros M z order cur I Hoc Hc Hf Hmin; cbn [__rmqueue_smallest];
  pose proof (zi_aligned _ _ I) as Hal; rewrite Forall_forall in Hal;
  destruct (Z.ltb_spec cur MAX_ORDER) as [Hlt|Hge]; [lia| | |].
  1, 3: left; split; [reflexivity|]; intros c Hin; destruct (Z.lt_ge_cases c.2 order) as [|Ho]; [assumption|];
    specialize (Hmin c Hin Ho); destruct (Hal c Hin) as (_ & ? & _); lia.
  destruct (area_of_order M z cur I ltac:(lia)) as (a & Ha & -> & _). cbn [mbind outcome_bind].
  unfold get_page_from_free_area. destruct (free_list a) as [|p l] eqn:El; cbn [head].
  - apply IH; try assumption; try lia. intros [q o] Hin Ho. simpl in *. specialize (Hmin _ Hin Ho). simpl in Hmin.
    destruct (Z.eq_dec o cur) as [->|]; [|lia]. exfalso. apply elem_of_blocks in Hin as (_ & a' & Ha' & Hq).
    simplify_eq. rewrite El in Hq. apply elem_of_nil in Hq. exact Hq.
  - right. assert ((p, cur) ∈ blocks z) as Hin.
    { apply elem_of_blocks. split; [lia|]. exists a. split; [exact Ha|]. rewrite El. apply elem_of_cons. auto. }
    destruct (del_block_spec M z _ I Hin) as (M1 & z1 & E1 & I1 & B1 & S1 & F1). simpl in E1. rewrite E1.
    cbn [mbind outcome_bind].
    assert (u64 (s32 (Z.shiftl 1 cur)) = 2 ^ cur) as ->.
    { pose proof (pow2_pos cur ltac:(lia)). pose proof (Z.pow_le_mono_r 2 cur 10 ltac:(lia)).
      unfold MAX_ORDER in *. rewrite Z.shiftl_mul_pow2, Z.mul_1_l, s32_small by lia.
      apply u64_small. unfold is_u64. lia. }
    destruct (expand_spec (Z.to_nat MAX_ORDER) M1 z1 p order cur I1 F1 ltac:(lia)) as
      (M2 & z2 & -> & I2 & S2 & F2 & X2).
    { unfold MAX_ORDER in *. lia. }
    cbn [mbind outcome_bind]. exists p, M2, z2. split; [reflexivity|]. split; [exact I2|].
    split; [rewrite S1; exact S2|]. split; [exact F2|]. split.
    + exists cur. split; [lia|]. split; [exact Hin|]. exact Hmin.
    + intros x. rewrite (free_page_perm _ _ _ B1), X2. reflexivity.
Qed.

Lemma rmqueue_smallest_from M z order : zone_inv M z -> 0 <= order < MAX_ORDER ->
  (__rmqueue_smallest (Z.to_nat MAX_ORDER) M z order order = Ok (None, M, z) /\ forall c, c ∈ blocks z -> c.2 < order) \/
  exists p M' z', __rmqueue_smallest (Z.to_nat MAX_ORDER) M z order order = Ok (Some p, M', z') /\ taken M z order p M' z'.
Proof.
  intros I Ho. apply rmqueue_smallest_spec; auto; unfold MAX_ORDER in *; lia.
Qed.

(** [__rmqueue_smallest] on a zone that satisfies the invariant terminates.
    It returns no page exactly when every free block is smaller than asked,
    and then changes nothing; otherwise it takes a block of the smallest order
    that fits, returns its naturally aligned start, and the free pages
    afterwards are the free pages before without the pages returned; the
    invariant holds again. *)
Theorem rmqueue_smallest_exact M z order : zone_inv M z -> 0 <= order < MAX_ORDER ->
  (__rmqueue_smallest (Z.to_nat MAX_ORDER) M z order order = Ok (None, M, z) /\
     forall c, c ∈ blocks z -> c.2 < order) \/
  exists p M' z', __rmqueue_smallest (Z.to_nat MAX_ORDER) M z order order = Ok (Some p, M', z') /\
    taken M z order p M' z'.
Proof. apply rmqueue_smallest_from. Qed.

(** ** Runs of the allocator *)

(** Pairwise disjoint blocks. *)
Fixpoint all_disjoint (l : list block) : Prop :=
  match l with
  | [] => True
  | b :: l' => Forall (disjoint_blocks b) l' /\ all_disjoint l'
  end.

#[global] Instance all_disjoint_perm : Proper ((≡ₚ) ==> iff) all_disjoint.
Proof.
  assert (forall l l' : list block, l ≡ₚ l' -> all_disjoint l -> all_disjoint l') as H.
  { induction 1 as [|b l l' HP IH|b c l|l1 l2 l3 _ IH1 _ IH2]; simpl; auto.
    - intros [H1 H2]. split; [rewrite <- HP; exact H1|auto].
    - rewrite !Forall_cons. intros ((H1 & H2) & H3 & H4). repeat split; auto.
      intros x Hx Hx'. exact (H1 x Hx' Hx). }
  intros l l' HP. split; [apply H; exact HP|apply H; symmetry; exact HP].
Qed.

(** The states a zone goes through when blocks are taken with [__rmqueue] and
    blocks that are out are given back with [__free_one_page]; the list holds
    the blocks that are out. *)
Inductive zone_run (M0 : mem_map) (z0 : zone) : list block -> mem_map -> zone -> Prop :=
  | zr_start : zone_run M0 z0 [] M0 z0
  | zr_alloc out M z order p M' z' : zone_run M0 z0 out M z -> 0 <= order < MAX_ORDER ->
      __rmqueue M z order = Ok (p, M', z') -> zone_run M0 z0 ((p, order) :: out) M' z'
  | zr_free out out' M z p order M' z' : zone_run M0 z0 out M z -> out ≡ₚ (p, order) :: out' ->
      __free_one_page M p z order = Ok (M', z') -> zone_run M0 z0 out' M' z'.

Lemma rmqueue_spec M z order p M' z' : zone_inv M z -> 0 <= order < MAX_ORDER ->
  __rmqueue M z order = Ok (p, M', z') -> taken M z order p M' z'.
Proof.
  intros I Ho. unfold __rmqueue.
  destruct (rmqueue_smallest_from M z order I Ho) as [[-> _]|(q & M1 & z1 & -> & T)]; cbn [mbind outcome_bind];
    intros E; simplify_eq. exact T.
Qed.

Lemma fresh_block_transfer M z M' z' b : same_pages M M' ->
  (forall x, free_page_in z' x -> in_block b x -> False) -> fresh_block M z b -> fresh_block M' z' b.
Proof.
  intros HS Hx (H1 & H2 & _). split; [exact H1|]. split; [apply (same_pages_mapped _ _ _ HS); exact H2|].
  intros c Hc x Hb Hcx. apply (Hx x); [|exact Hb]. apply Exists_exists. exists c. auto.
Qed.

Lemma fresh_not_free M z b x : fresh_block M z b -> in_block b x -> free_page_in z x -> False.
Proof.
  intros (_ & _ & H) Hb Hx. apply Exists_exists in Hx as (c & Hc & Hcx). exact (H c Hc x Hb Hcx).
Qed.

Lemma zone_run_spec M0 z0 out M z : zone_inv M0 z0 -> zone_run M0 z0 out M z ->
  zone_inv M z /\ same_pages M0 M /\ all_disjoint out /\ Forall (fresh_block M z) out /\
  forall x, free_page_in z0 x <-> Exists (fun b => in_block b x) out \/ free_page_in z x.
Proof.
  intros I0. induction 1 as [|out M z order p M' z' _ (I & S & D & F & X) Ho E
                             |out out' M z p order M' z' _ (I & S & D & F & X) HP E].
  - split; [exact I0|]. split; [reflexivity|]. split; [exact Logic.I|]. split; [constructor|].
    intros x. rewrite Exists_nil. tauto.
  - destruct (rmqueue_spec _ _ _ _ _ _ I Ho E) as (I' & S' & F' & _ & X').
    assert (Forall (disjoint_blocks (p, order)) out) as HD.
    { eapply Forall_impl; [exact F|]. intros b Hb x Hx Hx'. apply (fresh_not_free _ _ b x Hb Hx').
      apply X'. left. exact Hx. }
    split; [exact I'|]. split; [rewrite S; exact S'|]. split; [split; assumption|]. split.
    + constructor; [exact F'|]. eapply Forall_impl; [exact F|]. intros b Hb.
      apply (fresh_block_transfer M z); [exact S'| |exact Hb].
      intros x Hx Hbx. apply (fresh_not_free _ _ b x Hb Hbx). apply X'. right. exact Hx.
    + intros x. rewrite X, X', Exists_cons. tauto.
  - rewrite HP in D, F. apply Forall_cons in F as [Fb F]. destruct D as [Db D].
    destruct (free_one_page_spec M z p order I Fb) as (M1 & z1 & E1 & I1 & S1 & X1).
    rewrite E1 in E. simplify_eq. split; [exact I1|]. split; [rewrite S; exact S1|]. split; [exact D|]. split.
    + rewrite Forall_forall in *. intros b Hb. apply (fresh_block_transfer M z); [exact S1| |auto].
      intros x Hx Hbx. apply X1 in Hx as [Hx|Hx]; [exact (Db b Hb x Hx Hbx)|].
      exact (fresh_not_free _ _ b x (F b Hb) Hbx Hx).
    + intros x. rewrite X, HP, Exists_cons, X1. tauto.
Qed.

(** C2: however allocations and releases are interleaved, from a zone that
    satisfies the invariant: the invariant holds, the blocks that are out are
    pairwise disjoint and disjoint from the free pages, the free pages and
    the blocks that are out together are exactly the pages free at the start
    (nothing is lost, nothing is handed out twice), and every block that is
    out can be given back. *)
Theorem zone_pages_conserved M0 z0 out M z : zone_inv M0 z0 -> zone_run M0 z0 out M z ->
  zone_inv M z /\ all_disjoint out /\
  (forall b x, b ∈ out -> in_block b x -> ~ free_page_in z x) /\
  (forall x, free_page_in z0 x <-> Exists (fun b => in_block b x) out \/ free_page_in z x) /\
  (forall b, b ∈ out -> exists M' z', __free_one_page M b.1 z b.2 = Ok (M', z')).
Proof.
  intros I0 R. destruct (zone_run_spec _ _ _ _ _ I0 R) as (I & _ & D & F & X).
  rewrite Forall_forall in F. split; [exact I|]. split; [exact D|]. split; [|split; [exact X|]].
  - intros b x Hb Hx. exact (fresh_not_free _ _ b x (F b Hb) Hx).
  - intros [p o] Hb. destruct (free_one_page_spec M z p o I (F _ Hb)) as (M' & z' & E & _). eauto.
Qed.

(** ** The marks of pages whose [page_type] was never set up *)

(** No page has the four bits that make [page_type] a type. *)
Definition untyped (M : mem_map) : Prop := forall p pg, M !! p = Some pg -> type_base pg <> PAGE_TYPE_BASE.

Lemma untyped_not_buddy pg : type_base pg <> PAGE_TYPE_BASE -> PageBuddy pg = false.
Proof.
  intros H. apply Z.eqb_neq. intros E. apply H. unfold type_base.
  transitivity (Z.land (Z.land (page_type pg) (Z.lor PAGE_TYPE_BASE PG_buddy)) PAGE_TYPE_BASE).
  - rewrite <- Z.land_assoc. f_equal.
  - rewrite E. reflexivity.
Qed.

Lemma untyped_same M M' : same_pages M M' -> untyped M -> untyped M'.
Proof.
  intros HS U p pg Hp. specialize (HS p). rewrite Hp in HS. destruct (M !! p) as [pg0|] eqn:E; [|contradiction].
  destruct HS as (_ & _ & <-). exact (U p pg0 E).
Qed.

(** [alloc_node_mem_map] clears the page array and nothing sets
    [page_type] to the value that [PageBuddy] requires, so no free page is
    ever seen as a buddy: in every run from such a state a block that is
    given back is put on the list of its own order and never merged. *)
Theorem free_never_coalesces M0 z0 out M z p order : zone_inv M0 z0 -> untyped M0 ->
  zone_run M0 z0 out M z -> (p, order) ∈ out ->
  exists M' z', __free_one_page M p z order = Ok (M', z') /\ blocks z' ≡ₚ (p, order) :: blocks z.
Proof.
  intros I0 U0 R Hin. destruct (zone_run_spec _ _ _ _ _ I0 R) as (I & S & _ & F & _).
  rewrite Forall_forall in F. specialize (F _ Hin). pose proof (untyped_same _ _ S U0) as U.
  pose proof F as (Hal & [pg Hpg] & _). simpl in Hpg. pose proof Hal as (_ & Ho & _). simpl in Ho.
  assert (forall q b, is_Some (M !! q) -> page_is_buddy M p q b = Ok false) as Hnb.
  { intros q b [qg Hq]. unfold page_is_buddy, get_page. rewrite Hq. cbn [deref mbind outcome_bind].
    rewrite (untyped_not_buddy _ (U q qg Hq)). reflexivity. }
  assert (exists bp, free_merge_loop (Z.to_nat MAX_ORDER) M z p order 0 = Ok (M, z, p, order, bp) /\
            (order = MAX_ORDER - 1 \/ bp = __find_buddy_pfn p order)) as (bp & El & Hbp).
  { change (Z.to_nat MAX_ORDER) with 11%nat. cbn [free_merge_loop].
    destruct (Z.ltb_spec order (MAX_ORDER - 1)) as [Hlt|]; [|exists 0; split; [reflexivity|left; lia]].
    destruct (buddy_combine p order Hal Hlt) as (_ & C2 & _).
    rewrite Hnb by (apply (zi_closed _ _ I p); [rewrite Hpg; eauto|auto]). cbn [mbind outcome_bind negb]. eauto. }
  unfold __free_one_page. rewrite El. cbn [mbind outcome_bind]. rewrite (set_page_order_ok _ _ _ _ Hpg).
  cbn [mbind outcome_bind]. set (M2 := <[p := __SetPageBuddy (set_page_private order pg)]> M).
  assert (same_pages M M2) as S2 by (apply (same_pages_insert _ _ pg); auto with buddy).
  destruct (buddy_merge_likely_ok M2 p order bp) as [b ->]; [| |exact Hal|exact Hbp|].
  { exact (map_closed_same _ _ S2 (zi_closed _ _ I)). }
  { apply (same_pages_mapped _ _ _ S2). rewrite Hpg. eauto. }
  cbn [mbind outcome_bind]. unfold add_to_free_list, add_to_free_list_tail.
  destruct (area_of_order M z order I Ho) as (a & Ha & -> & _). cbn [mbind outcome_bind].
  destruct b; eexists _, _; (split; [reflexivity|]);
    eapply (zone_inv_add M z (p, order) a); try eassumption; [|reflexivity]. rewrite Permutation_app_comm. reflexivity.
Qed.

(** ** The node *)

(** Only flags and counts of pages differ. *)
Definition same_marks (M M' : mem_map) : Prop :=
  forall p, match M !! p, M' !! p with
            | Some pg, Some pg' => page_type pg = page_type pg' /\ pg_private pg = pg_private pg'
            | None, None => True
            | _, _ => False
            end.

#[global] Instance same_marks_equiv : Equivalence same_marks.
Proof.
  split.
  - intros M p. destruct (M !! p); auto.
  - intros M M' H p. specialize (H p). destruct (M !! p), (M' !! p); intuition congruence.
  - intros M1 M2 M3 H1 H2 p. specialize (H1 p). specialize (H2 p).
    destruct (M1 !! p), (M2 !! p), (M3 !! p); try contradiction; intuition congruence.
Qed.

Lemma same_marks_insert M p pg pg' : M !! p = Some pg -> page_type pg = page_type pg' ->
  pg_private pg = pg_private pg' -> same_marks M (<[p := pg']> M).
Proof.
  intros H E1 E2 q. destruct (decide (p = q)) as [->|Hne].
  - rewrite H, lookup_insert_eq. auto.
  - rewrite lookup_insert_ne by assumption. destruct (M !! q); auto.
Qed.

Lemma same_marks_mapped M M' p : same_marks M M' -> is_Some (M !! p) -> is_Some (M' !! p).
Proof. intros H [pg Hp]. specialize (H p). rewrite Hp in H. destruct (M' !! p); [eauto|contradiction]. Qed.

Lemma zone_inv_marks M M' z : same_marks M M' -> zone_inv M z -> zone_inv M' z.
Proof.
  intros H [I1 I2 I3 I4 I5 I6 I7 I8]. split; auto.
  - intros b Hb. eapply same_marks_mapped; [exact H|auto].
  - intros p q Hp Hq. symmetry in H. eapply same_marks_mapped; [symmetry; exact H|].
    apply (I7 p); [eapply same_marks_mapped; [exact H|exact Hp]|exact Hq].
  - intros p pg' Hp Hb. specialize (H p). rewrite Hp in H. destruct (M !! p) as [pg|] eqn:E; [|contradiction].
    destruct H as [E1 E2]. unfold PageBuddy, page_order in *. rewrite <- E1 in Hb. rewrite <- E2. exact (I8 p pg E Hb).
Qed.

Lemma fresh_block_marks M M' z b : same_marks M M' -> fresh_block M z b -> fresh_block M' z b.
Proof.
  intros H (F1 & F2 & F3). split; [exact F1|]. split; [|exact F3]. eapply same_marks_mapped; eassumption.
Qed.

(** The state after [build_all_zonelists_init], and later between calls: every
    page belongs to zone 0 (no code writes the zone bits of [flags]), zone 0
    satisfies the invariant, free pages have count 0, and the per-cpu list is
    empty with a batch of one page. *)
Record buddy_inv (s : buddy) (z : zone) : Prop := {
  bi_zone : node_zones s !! 0%nat = Some z;
  bi_inv : zone_inv (b_map s) z;
  bi_zonenum : forall p pg, b_map s !! p = Some pg -> page_zonenum pg = 0;
  bi_idle : forall x pg, free_page_in z x -> b_map s !! x = Some pg -> _refcount pg = 0;
  bi_pcp : pcp_list (boot_pageset s) = [] /\ pcp_batch (boot_pageset s) = 1;
  bi_zonelist : _zonerefs s !! 0%nat = Some (Zoneref (Some 0%nat) 0) }.

(** How many blocks there are of each order after an allocation: only zone 0
    and the marks change. *)
Definition allocated (s : buddy) (z : zone) (order p : Z) (s' : buddy) : Prop :=
  exists z', buddy_inv s' z' /\ taken (b_map s) z order p (b_map s') z'.

Lemma taken_buddy_inv s z order p M' z' pcp : buddy_inv s z -> taken (b_map s) z order p M' z' ->
  pcp_list pcp = [] -> pcp_batch pcp = 1 ->
  buddy_inv (with_pageset (with_map_zones s M' (<[0%nat := z']> (node_zones s))) pcp) z'.
Proof.
  intros [B1 B2 B3 B4 B5 B6] (I & S & _ & _ & X) P1 P2. split; simpl; auto.
  - apply list_lookup_insert_eq. eapply lookup_lt_Some. exact B1.
  - intros q pg Hq. specialize (S q). rewrite Hq in S. destruct (b_map s !! q) as [pg0|] eqn:E; [|contradiction].
    destruct S as (Ef & _ & _). unfold page_zonenum. rewrite <- Ef. exact (B3 q pg0 E).
  - intros x pg Hx Hq. specialize (S x). rewrite Hq in S. destruct (b_map s !! x) as [pg0|] eqn:E; [|contradiction].
    destruct S as (_ & Er & _). rewrite <- Er. apply (B4 x); [|exact E]. apply X. right. exact Hx.
Qed.

Lemma rmqueue_total M z order : zone_inv M z -> 0 <= order < MAX_ORDER ->
  (__rmqueue M z order = Panic "bad __rmqueue_smallest! order(%u)" /\ forall c, c ∈ blocks z -> c.2 < order) \/
  exists p M' z', __rmqueue M z order = Ok (p, M', z') /\ taken M z order p M' z'.
Proof.
  intros I Ho. unfold __rmqueue.
  destruct (rmqueue_smallest_from M z order I Ho) as [[-> N]|(q & M1 & z1 & -> & T)]; cbn [mbind outcome_bind].
  - left. split; [reflexivity|exact N].
  - right. exists q, M1, z1. split; [reflexivity|exact T].
Qed.

Lemma rmqueue_zone0 s z order : buddy_inv s z -> 0 <= order < MAX_ORDER ->
  (rmqueue s 0 order = Panic "bad __rmqueue_smallest! order(%u)" /\ forall c, c ∈ blocks z -> c.2 < order) \/
  exists p s', rmqueue s 0 order = Ok (p, s') /\ allocated s z order p s'.
Proof.
  intros B Ho. pose proof B as [B1 B2 _ _ [P1 P2] _]. unfold rmqueue, zone_at. rewrite B1. cbn [deref mbind outcome_bind].
  destruct (Z.eqb_spec order 0) as [->|Hne].
  - unfold __rmqueue_pcplist. rewrite P1, P2. change (Z.to_nat 1) with 1%nat. cbn [rmqueue_bulk].
    destruct (rmqueue_total _ _ 0 B2 Ho) as [[-> N]|(p & M' & z' & -> & T)]; cbn [mbind outcome_bind].
    + left. split; [reflexivity|exact N].
    + right. eexists p, _. split; [reflexivity|]. exists z'. split; [|exact T].
      apply (taken_buddy_inv s z 0 p); simpl; auto.
  - destruct (rmqueue_total _ _ order B2 Ho) as [[-> N]|(p & M' & z' & -> & T)]; cbn [mbind outcome_bind].
    + left. split; [reflexivity|exact N].
    + right. eexists p, _. split; [reflexivity|]. exists z'. split; [|exact T].
      apply (taken_buddy_inv s z order p _ _ (boot_pageset s)); auto.
Qed.

Lemma alloc_pages_spec off s z m gfp order : buddy_inv s z -> 0 <= order < MAX_ORDER -> 0 <= gfp ->
  want_init_on_alloc gfp = false ->
  (__alloc_pages_nodemask off s m gfp order = Panic "bad __rmqueue_smallest! order(%u)" /\
     forall c, c ∈ blocks z -> c.2 < order) \/
  exists p s', __alloc_pages_nodemask off s m gfp order = Ok (p, s', m) /\ allocated s z order p s'.
Proof.
  intros B Ho Hg Hw. unfold __alloc_pages_nodemask. destruct (Z.leb_spec MAX_ORDER order); [lia|].
  pose proof (bi_zonelist _ _ B) as Hz.
  assert (0 <= gfp_zone gfp) as Hgz by (unfold gfp_zone; apply Z.land_nonneg; right; vm_compute; congruence).
  unfold first_zones_zonelist, next_zones_zonelist. rewrite Hz. cbn [deref mbind outcome_bind zone_idx].
  destruct (Z.leb_spec 0 (gfp_zone gfp)); [|lia]. cbn [mbind outcome_bind].
  unfold get_page_from_freelist. rewrite Hz. cbn [deref mbind outcome_bind zr_zone].
  destruct (rmqueue_zone0 s z order B Ho) as [[-> N]|(p & s' & -> & A)]; cbn [mbind outcome_bind].
  - left. split; [reflexivity|exact N].
  - right. unfold prep_new_page. rewrite Hw. cbn [mbind outcome_bind]. exists p, s'. split; [reflexivity|exact A].
Qed.

(** [__alloc_pages_nodemask] for an order below [MAX_ORDER] (and without
    clearing) panics exactly when every free block is smaller; otherwise it
    returns the start of an aligned block of free pages, which is no longer
    free, and the node's invariant holds again. *)
Theorem alloc_pages_exact_block off s z m gfp order : buddy_inv s z -> 0 <= order < MAX_ORDER -> 0 <= gfp ->
  want_init_on_alloc gfp = false ->
  (__alloc_pages_nodemask off s m gfp order = Panic "bad __rmqueue_smallest! order(%u)" /\
     forall c, c ∈ blocks z -> c.2 < order) \/
  exists p s', __alloc_pages_nodemask off s m gfp order = Ok (p, s', m) /\ allocated s z order p s'.
Proof. apply alloc_pages_spec. Qed.

(** A page obtained from the allocator still has count 0 (no code on the
    allocation path sets it), so [__free_pages] on it only decrements the
    count to -1: the zones are as before the call and the block is not
    returned to the free lists. *)
Theorem freed_allocation_leaks off s z m gfp order p s' m' : buddy_inv s z -> 0 <= order < MAX_ORDER ->
  0 <= gfp -> want_init_on_alloc gfp = false ->
  __alloc_pages_nodemask off s m gfp order = Ok (p, s', m') ->
  exists s'' pg, __free_pages s' p order = Ok s'' /\ node_zones s'' = node_zones s' /\
    b_map s'' !! p = Some pg /\ _refcount pg = -1.
Proof.
  intros B Ho Hg Hw E.
  destruct (alloc_pages_spec off s z m gfp order B Ho Hg Hw) as [[E' _]|(q & s1 & E' & z' & B' & T)];
    rewrite E' in E; simplify_eq.
  destruct T as (_ & S & (Hal & [pg Hpg] & _) & _ & X). simpl in Hpg.
  assert (_refcount pg = 0) as Hr.
  { specialize (S p). rewrite Hpg in S. destruct (b_map s !! p) as [pg0|] eqn:E0; [|contradiction].
    destruct S as (_ & <- & _). apply (bi_idle _ _ B p); [|exact E0]. apply X. left.
    apply in_block_self. simpl. lia. }
  unfold __free_pages, put_page_testzero, get_page. rewrite Hpg. cbn [deref mbind outcome_bind].
  rewrite Hr. change (s32 (0 - 1)) with (-1). change (-1 =? 0) with false.
  eexists _, _. split; [reflexivity|]. split; [reflexivity|]. split; [apply lookup_insert_eq|reflexivity].
Qed.

(** ** Handing pages over at boot *)

Lemma zonenum_clear_reserved pg : page_zonenum (__ClearPageReserved pg) = page_zonenum pg.
Proof.
  unfold page_zonenum, __ClearPageReserved, with_flags. simpl. bits k Hk.
  unfold ZONES_PGSHIFT, ZONES_MASK. destruct (Z.lt_ge_cases k 2) as [Hlt|Hge].
  - unfold u64. rewrite Z.mod_pow2_bits_low, Z.lnot_spec by lia.
    replace (Z.testbit (Z.shiftl 1 PG_reserved) (k + 62)) with false; [rewrite andb_true_r; reflexivity|].
    symmetry. change (Z.shiftl 1 PG_reserved) with (2 ^ 12). apply Z.pow2_bits_false. lia.
  - rewrite (Z.bits_above_log2 3 k) by (simpl; lia). rewrite !andb_false_r. reflexivity.
Qed.

Lemma free_core_loop_spec n : forall M p, (forall x, p <= x < p + Z.of_nat n -> is_Some (M !! x)) ->
  (forall q pg, M !! q = Some pg -> page_zonenum pg = 0) ->
  exists M', free_core_loop n M p = Ok M' /\ same_marks M M' /\
    (forall q pg, M' !! q = Some pg -> page_zonenum pg = 0) /\
    (forall x pg, M' !! x = Some pg -> p <= x < p + Z.of_nat n -> _refcount pg = 0) /\
    (forall x, ~ (p <= x < p + Z.of_nat n) -> M' !! x = M !! x).
Proof.
  induction n as [|n IH]; intros M p Hm Hz; cbn [free_core_loop].
  - exists M. split; [reflexivity|]. split; [reflexivity|]. split; [exact Hz|]. split; [intros; lia|auto].
  - destruct (Hm p ltac:(lia)) as [pg Hpg]. rewrite (upd_page_ok _ _ _ _ Hpg). cbn [mbind outcome_bind].
    rewrite (upd_page_ok _ _ _ (__ClearPageReserved pg)) by apply lookup_insert_eq. cbn [mbind outcome_bind].
    rewrite insert_insert_eq. set (pg' := set_page_count 0 (__ClearPageReserved pg)).
    destruct (IH (<[p := pg']> M) (p + 1)) as (M' & E & S & Z' & R & O).
    + intros x Hx. destruct (decide (p = x)) as [->|]; [lia|]. rewrite lookup_insert_ne by assumption. apply Hm. lia.
    + intros q qg Hq. apply lookup_insert_Some in Hq as [[<- <-]|[_ Hq]]; [|eauto].
      change (page_zonenum (__ClearPageReserved pg) = 0). rewrite zonenum_clear_reserved. eauto.
    + exists M'. split; [exact E|]. split; [rewrite <- S; apply (same_marks_insert _ _ pg); auto|].
      split; [exact Z'|]. split.
      * intros x xg Hx Hr. destruct (decide (x = p)) as [->|]; [|apply (R x); [exact Hx|lia]].
        rewrite O, lookup_insert_eq in Hx by lia. injection Hx as <-. reflexivity.
      * intros x Hx. rewrite O by lia. apply lookup_insert_ne. lia.
Qed.

Lemma block_mapped M z b x : zone_inv M z -> fresh_block M z b -> in_block b x -> is_Some (M !! x).
Proof.
  intros I ((H1 & H2 & H3) & Hm & _) Hx. apply (zi_closed _ _ I b.1 x Hm). symmetry. unfold MAX_ORDER in H2.
  apply (same_group _ _ b.2); [lia|exact H3|exact Hx].
Qed.

(** [__free_pages_core] releases a block for the first time. *)
Lemma free_pages_core_spec s z p order : buddy_inv s z -> fresh_block (b_map s) z (p, order) ->
  exists s' z', __free_pages_core s p order = Ok s' /\ buddy_inv s' z' /\
    (forall x, is_Some (b_map s' !! x) <-> is_Some (b_map s !! x)) /\
    forall x, free_page_in z' x <-> in_block (p, order) x \/ free_page_in z x.
Proof.
  intros B F. pose proof B as [B1 B2 B3 B4 B5 B6]. pose proof F as (Hal & _ & Hdis).
  pose proof Hal as (Hp & Ho & Ha). simpl in Hp, Ho, Ha. pose proof (pow2_pos order ltac:(lia)) as P2.
  unfold __free_pages_core. assert (u32 (Z.shiftl 1 order) = 2 ^ order) as ->.
  { rewrite Z.shiftl_mul_pow2, Z.mul_1_l by lia. apply Z.mod_small.
    pose proof (Z.pow_le_mono_r 2 order 10). unfold MAX_ORDER in *. lia. }
  destruct (free_core_loop_spec (Z.to_nat (2 ^ order)) (b_map s) p) as (M1 & -> & S1 & Z1 & R1 & O1); [|exact B3|].
  { intros x Hx. apply (block_mapped _ z (p, order)); [exact B2|exact F|]. unfold in_block. simpl. lia. }
  rewrite Z2Nat.id in R1, O1 by lia. cbn [mbind outcome_bind].
  pose proof (fresh_block_marks _ _ _ _ S1 F) as (_ & [pg Hpg] & _). simpl in Hpg.
  unfold page_zone at 1, get_page. simpl b_map. rewrite Hpg. cbn [deref mbind outcome_bind].
  rewrite (Z1 _ _ Hpg). change (Z.to_nat 0) with 0%nat. unfold zone_at at 1. simpl node_zones. rewrite B1.
  cbn [deref mbind outcome_bind]. simpl b_map. rewrite (upd_page_ok _ _ _ _ Hpg). cbn [mbind outcome_bind].
  unfold __free_pages, put_page_testzero, get_page. simpl b_map. rewrite lookup_insert_eq.
  cbn [deref mbind outcome_bind]. simpl _refcount. change (s32 (1 - 1)) with 0. change (0 =? 0) with true.
  rewrite insert_insert_eq. set (M3 := <[p := set_page_count 0 (set_page_refcounted pg)]> M1).
  assert (same_marks M1 M3) as S3 by (apply (same_marks_insert _ _ pg); auto).
  assert (M3 !! p = Some (set_page_count 0 (set_page_refcounted pg))) as Hp3 by apply lookup_insert_eq.
  unfold free_the_page, __free_pages_ok, page_zone, get_page. simpl b_map. rewrite Hp3.
  cbn [deref mbind outcome_bind]. change (page_zonenum _) with (page_zonenum pg). rewrite (Z1 _ _ Hpg).
  change (Z.to_nat 0) with 0%nat. unfold free_one_page, zone_at. simpl node_zones.
  rewrite list_lookup_insert_eq by (eapply lookup_lt_Some; exact B1). cbn [deref mbind outcome_bind]. simpl b_map.
  assert (same_marks (b_map s) M3) as S03 by (rewrite S1; exact S3).
  destruct (free_one_page_spec M3 (add_managed z (2 ^ order)) p order) as (M4 & z4 & -> & I4 & S4 & X4).
  { apply zone_inv_marks with (b_map s); [exact S03|]. destruct B2. split; assumption. }
  { apply fresh_block_marks with (b_map s); [exact S03|exact F]. }
  eexists _, z4. split; [destruct (order =? 0); reflexivity|].
  assert (forall q qg, M3 !! q = Some qg -> page_zonenum qg = 0) as Z3.
  { intros q qg Hq. apply lookup_insert_Some in Hq as [[<- <-]|[_ Hq]]; [exact (Z1 _ _ Hpg)|eauto]. }
  split; [|split; [|exact X4]].
  - split; simpl; auto.
    + apply list_lookup_insert_eq. rewrite length_insert. eapply lookup_lt_Some. exact B1.
    + intros q qg Hq. specialize (S4 q). rewrite Hq in S4. destruct (M3 !! q) as [qg0|] eqn:E; [|contradiction].
      destruct S4 as (Ef & _ & _). unfold page_zonenum. rewrite <- Ef. exact (Z3 q qg0 E).
    + intros x xg Hx Hq. specialize (S4 x). rewrite Hq in S4. destruct (M3 !! x) as [qg0|] eqn:E; [|contradiction].
      destruct S4 as (_ & <- & _). apply X4 in Hx. apply lookup_insert_Some in E as [[<- <-]|[Hne E]]; [reflexivity|].
      destruct (decide (p <= x < p + 2 ^ order)) as [Hin|Hout]; [exact (R1 x qg0 E Hin)|].
      rewrite O1 in E by exact Hout. apply (B4 x); [|exact E]. destruct Hx as [Hx|Hx]; [contradiction|exact Hx].
  - intros x. simpl. rewrite <- (same_pages_mapped _ _ x S4). split; intros Hx.
    + eapply same_marks_mapped; [symmetry; exact S03|exact Hx].
    + eapply same_marks_mapped; [exact S03|exact Hx].
Qed.
