(* ===== verification/BuddyInit.v ===== *)
(** * buddy/buddy.c: setting up the zones

    [zone_sizes_init] computes the extent of the zones from the memory regions
    of [Memblock], [free_area_init_core] sets up empty free lists, the zone
    list is built, and [memblock_free_all] hands the memory over.  The node is
    a record of the fields of [pg_data_t] the code writes; messages are left
    out. *)

From Stdlib Require Import ZArith Lia.
From stdpp Require Import base tactics numbers list strings gmap.
From S2P Require Import Prelude Words Mem LibString Memblock Buddy.
Import list.

(** ** Extent of the memory *)

Definition find_min_pfn_with_active_regions (mb : memblock) : outcome Z :=
  a ← memblock_start_of_DRAM mb; Ok (PFN_DOWN a).

(** [for_each_mem_pfn_range]: the page ranges visited, from index [idx]. *)
Fixpoint mem_pfn_ranges (fuel : nat) (mb : memblock) (idx : Z) : outcome (list (Z * Z)) :=
  match fuel with
  | O => NoFuel
  | S f =>
      r ← __next_mem_pfn_range (Z.to_nat (cnt (memory mb))) mb idx;
      match (r : option (Z * Z * Z)) with
      | None => Ok []
      | Some (s, e, i) => l ← mem_pfn_ranges f mb i; Ok ((s, e) :: l)
      end
  end.
Definition for_each_mem_pfn_range (mb : memblock) : outcome (list (Z * Z)) :=
  mem_pfn_ranges (S (Z.to_nat (cnt (memory mb)))) mb (-1).

Definition get_pfn_range_for_nid (mb : memblock) : outcome (Z * Z) :=
  l ← for_each_mem_pfn_range mb;
  let '(s, e) := fold_left (fun acc p => (min acc.1 p.1, max acc.2 p.2)) l (2 ^ 64 - 1, 0) in
  Ok (if s =? 2 ^ 64 - 1 then 0 else s, e).

(** The spanned pages with the bounds of the zone, where they are set. *)
Definition zone_spanned_pages_in_node (zone_low zone_high node_start_pfn node_end_pfn : Z)
  : Z * option (Z * Z) :=
  if (node_start_pfn =? 0) && (node_end_pfn =? 0) then (0, None)
  else
    let zs := clamp node_start_pfn zone_low zone_high in
    let ze := clamp node_end_pfn zone_low zone_high in
    if (ze <? node_start_pfn) || (node_end_pfn <? zs) then (0, Some (zs, ze))
    else
      let ze := min ze node_end_pfn in
      let zs := max zs node_start_pfn in
      (u64 (ze - zs), Some (zs, ze)).

Definition __absent_pages_in_range (mb : memblock) (range_start_pfn range_end_pfn : Z) : outcome Z :=
  l ← for_each_mem_pfn_range mb;
  Ok (fold_left
        (fun nr_absent p =>
           let s := clamp p.1 range_start_pfn range_end_pfn in
           let e := clamp p.2 range_start_pfn range_end_pfn in
           u64 (nr_absent - u64 (e - s)))
        l (u64 (range_end_pfn - range_start_pfn))).

Definition zone_absent_pages_in_node (mb : memblock) (zone_low zone_high node_start_pfn node_end_pfn : Z)
  : outcome Z :=
  if (node_start_pfn =? 0) && (node_end_pfn =? 0) then Ok 0
  else __absent_pages_in_range mb (clamp node_start_pfn zone_low zone_high)
         (clamp node_end_pfn zone_low zone_high).

(** ** The node *)

Record pglist_data := MkPgdat {
  pg_zones : list zone; nr_zones : Z; node_start_pfn : Z;
  node_present_pages : Z; node_spanned_pages : Z }.

Definition size_zone (z : zone) (start spanned present : Z) : zone :=
  MkZone start (managed_pages z) spanned present (initialized z) (free_areas z).

(** One zone of the loop of [calculate_node_totalpages]. *)
Definition calculate_zone (mb : memblock) (lohi : Z * Z) (s e : Z) (z : zone) : outcome zone :=
  let '(spanned, bounds) := zone_spanned_pages_in_node lohi.1 lohi.2 s e in
  absent ← zone_absent_pages_in_node mb lohi.1 lohi.2 s e;
  let start := match bounds with Some (zs, _) => zs | None => 0 end in
  Ok (size_zone z (if spanned =? 0 then 0 else start) spanned (u64 (spanned - absent))).

Fixpoint calculate_zones (mb : memblock) (limits : list (Z * Z)) (s e : Z) (zs : list zone)
  : outcome (list zone * Z * Z) :=
  match limits, zs with
  | lh :: limits', z :: zs' =>
      z' ← calculate_zone mb lh s e z;
      '(rest, total, real) ← calculate_zones mb limits' s e zs';
      Ok (z' :: rest, u64 (spanned_pages z' + total), u64 (present_pages z' + real))
  | _, _ => Ok ([], 0, 0)
  end.

Definition calculate_node_totalpages (mb : memblock) (limits : list (Z * Z)) (pg : pglist_data)
    (s e : Z) : outcome pglist_data :=
  '(zs, total, real) ← calculate_zones mb limits s e (pg_zones pg);
  Ok (MkPgdat zs (nr_zones pg) (node_start_pfn pg) real total).

Definition sizeof_page : Z := 104.
Definition MAX_ORDER_NR_PAGES : Z := Z.shiftl 1 (MAX_ORDER - 1).
Definition pgdat_end_pfn (pg : pglist_data) : Z := u64 (node_start_pfn pg + node_spanned_pages pg).

(** [alloc_node_mem_map]: the array of [struct page] covers whole blocks of the
    largest order; the map of pages made of the cleared array, and the
    allocator after the allocation. *)
Definition zero_page : page := Page 0 0 0 0.
Definition page_range (start : Z) (n : nat) : list Z := (fun i => start + Z.of_nat i) <$> seq 0 n.
Definition alloc_node_mem_map (mb : memblock) (pg : pglist_data)
  : outcome (mem_map * memblock) :=
  if node_spanned_pages pg =? 0 then Ok (∅, mb)
  else
    let start := (node_start_pfn pg &u ~u (MAX_ORDER_NR_PAGES - 1))%W in
    let end_ := _ALIGN (pgdat_end_pfn pg) MAX_ORDER_NR_PAGES in
    let size := u64 (u64 (end_ - start) * sizeof_page) in
    '(map, mb) ← memblock_alloc_range_nid false mb size SMP_CACHE_BYTES;
    if map =? 0 then Panic "Failed to allocate %ld bytes for node 0 memory map"
    else Ok (list_to_map ((fun p => (p, zero_page)) <$> page_range start (Z.to_nat (end_ - start))), mb).

Definition zone_init_free_lists (z : zone) : zone :=
  with_areas z (replicate (Z.to_nat MAX_ORDER) (Area [] 0)).

Definition init_currently_empty_zone (zone_idx : Z) (nr : Z) (z : zone) (start : Z) : Z * zone :=
  let z := zone_init_free_lists
             (MkZone start (managed_pages z) (spanned_pages z) (present_pages z) (initialized z) (free_areas z)) in
  (if nr <? zone_idx + 1 then zone_idx + 1 else nr,
   MkZone (zone_start_pfn z) (managed_pages z) (spanned_pages z) (present_pages z) true (free_areas z)).

Definition zone_init_internals (z : zone) (remaining_pages : Z) : zone :=
  MkZone (zone_start_pfn z) remaining_pages (spanned_pages z) (present_pages z) (initialized z) (free_areas z).

Definition calc_memmap_size (spanned : Z) : Z := (PAGE_ALIGN (u64 (spanned * sizeof_page)) >>u PAGE_SHIFT)%W.

(** The loop of [free_area_init_core]; [nr_kernel_pages] is accumulated. *)
Fixpoint free_area_init_core (j nr nr_kernel_pages : Z) (zs : list zone) : Z * Z * list zone :=
  match zs with
  | [] => (nr, nr_kernel_pages, [])
  | z :: zs' =>
      let freesize := present_pages z in
      let memmap_pages := calc_memmap_size (spanned_pages z) in
      let remaining := if memmap_pages <=? freesize then u64 (freesize - memmap_pages) else freesize in
      let z' := zone_init_internals z remaining in
      let '(nr', z') :=
        if spanned_pages z =? 0 then (nr, z') else init_currently_empty_zone j nr z' (zone_start_pfn z) in
      let '(nr'', k, rest) := free_area_init_core (j + 1) nr' (u64 (nr_kernel_pages + freesize)) zs' in
      (nr'', k, z' :: rest)
  end.

Definition free_area_init_node (mb : memblock) (limits : list (Z * Z)) (pg : pglist_data) (nr_kernel_pages : Z)
  : outcome (pglist_data * Z * mem_map * memblock) :=
  bug_on (negb (nr_zones pg =? 0)) "BUG_ON";;
  '(s, e) ← get_pfn_range_for_nid mb;
  let pg := MkPgdat (pg_zones pg) (nr_zones pg) s (node_present_pages pg) (node_spanned_pages pg) in
  pg ← calculate_node_totalpages mb limits pg s e;
  '(M, mb) ← alloc_node_mem_map mb pg;
  let '(nr, k, zs) := free_area_init_core 0 (nr_zones pg) nr_kernel_pages (pg_zones pg) in
  Ok (MkPgdat zs nr (node_start_pfn pg) (node_present_pages pg) (node_spanned_pages pg), k, M, mb).

(** The limits of the zones: consecutive from the first page of memory, zone
    [ZONE_MOVABLE] left empty. *)
Fixpoint zone_limits (i : Z) (start_pfn : Z) (max_zone_pfn : list Z) : list (Z * Z) :=
  match max_zone_pfn with
  | [] => []
  | m :: rest =>
      if i =? ZONE_MOVABLE then (0, 0) :: zone_limits (i + 1) start_pfn rest
      else let end_pfn := max m start_pfn in (start_pfn, end_pfn) :: zone_limits (i + 1) end_pfn rest
  end.
Definition free_area_init (mb : memblock) (max_zone_pfn : list Z) (pg : pglist_data) (nr_kernel_pages : Z)
  : outcome (pglist_data * Z * mem_map * memblock) :=
  start_pfn ← find_min_pfn_with_active_regions mb;
  free_area_init_node mb (zone_limits 0 start_pfn max_zone_pfn) pg nr_kernel_pages.

Definition SZ_1G : Z := 0x40000000.
Definition zone_sizes_init (mb : memblock) (max_low_pfn : Z) (pg : pglist_data) (nr_kernel_pages : Z)
  : outcome (pglist_data * Z * mem_map * memblock) :=
  free_area_init mb [min (PFN_DOWN (u64 (4 * SZ_1G))) max_low_pfn; max_low_pfn; 0] pg nr_kernel_pages.

(** ** The zone list and the per-cpu set *)

Definition managed_zone (z : zone) : bool := negb (managed_pages z =? 0).

(** [build_zonerefs_node]: the managed zones, highest first. *)
Fixpoint build_zonerefs_node (zone_type : nat) (zs : list zone) : list zoneref :=
  match zone_type with
  | O => []
  | S t =>
      match zs !! t with
      | Some z => if managed_zone z then [Zoneref (Some t) (Z.of_nat t)] else []
      | None => []
      end ++ build_zonerefs_node t zs
  end.
Definition build_zonelists (zs : list zone) : list zoneref :=
  build_zonerefs_node (Z.to_nat MAX_NR_ZONES) zs ++ [Zoneref None 0].

Definition pageset_update (p : per_cpu_pages) (high batch : Z) : per_cpu_pages :=
  Pcp (pcp_count p) (s32 high) (s32 batch) (pcp_list p).
Definition pageset_set_batch (p : per_cpu_pages) (batch : Z) : per_cpu_pages :=
  pageset_update p (u64 (6 * batch)) (max 1 (u64 (1 * batch))).
Definition pageset_init : per_cpu_pages := Pcp 0 0 0 [].
Definition setup_pageset (batch : Z) : per_cpu_pages := pageset_set_batch pageset_init batch.

(** ** Reserving and releasing at boot *)

Fixpoint reserve_pfns (n : nat) (L : layout) (M : mem_map) (pfn : Z) : outcome mem_map :=
  match n with
  | O => Ok M
  | S n' =>
      M ← (if pfn_valid L pfn then upd_page M pfn __SetPageReserved else Ok M);
      reserve_pfns n' L M (pfn + 1)
  end.
Definition reserve_bootmem_region (L : layout) (M : mem_map) (start end_ : Z) : outcome mem_map :=
  reserve_pfns (Z.to_nat (PFN_UP end_ - PFN_DOWN start)) L M (PFN_DOWN start).

Fixpoint reserve_all (L : layout) (M : mem_map) (l : list (Z * Z)) : outcome mem_map :=
  match l with
  | [] => Ok M
  | (s, e) :: l' => M ← reserve_bootmem_region L M s e; reserve_all L M l'
  end.
Fixpoint release_all (s : buddy) (l : list (Z * Z)) : outcome buddy :=
  match l with
  | [] => Ok s
  | (p, o) :: l' => s ← __free_pages_core s p o; release_all s l'
  end.

Definition set_managed (z : zone) (n : Z) : zone :=
  MkZone (zone_start_pfn z) n (spanned_pages z) (present_pages z) (initialized z) (free_areas z).

(** [memblock_free_all] with the two callbacks of the page allocator; the counts
    [managed_pages] it resets are those of the zones. *)
Definition boot_release (L : layout) (max_low_pfn : Z) (st : boot_state) (s : buddy)
  : outcome (Z * boot_state * buddy) :=
  '(pages, res, l, st) ← memblock_free_all max_low_pfn st;
  M ← reserve_all L (b_map s) res;
  s ← release_all (with_map_zones s M (zip_with set_managed (node_zones s) (bs_managed_pages st))) l;
  Ok (pages, st, s).

Definition RESERVED_CHUNK_SIZE : Z := Z.shiftl PAGE_SIZE 3.

(** [init_module]: the globals after it, with [reserved_chunk_ptr] and the
    number of pages released. *)
Definition buddy_init (va_off pfn_base : Z) (mb : memblock) (totalram : Z)
  : outcome (Z * Z * boot_state * buddy) :=
  end_ ← memblock_end_of_DRAM mb;
  let max_low_pfn := PFN_DOWN end_ in
  let L := Layout va_off pfn_base max_low_pfn in
  let z0 := MkZone 0 0 0 0 false [] in
  '(pg, _, M, mb) ← zone_sizes_init mb max_low_pfn (MkPgdat [z0; z0; z0] 0 0 0 0) 0;
  '(chunk, mb) ← memblock_alloc_internal va_off false mb RESERVED_CHUNK_SIZE PAGE_SIZE;
  let s := MkBuddy M (pg_zones pg) (setup_pageset 0) (build_zonelists (pg_zones pg)) in
  '(pages, st, s) ← boot_release L max_low_pfn
                      (MkBoot mb false false (managed_pages <$> pg_zones pg) totalram) s;
  Ok (chunk, pages, st, s).

(** 8 MB of memory at 2 GB, the kernel in the second MB. *)
Definition boot_ex : outcome (Z * Z * boot_state * buddy) :=
  '(_, mb) ← memblock_add memblock_init 0x80000000 0x800000;
  '(_, mb) ← memblock_reserve mb 0x80200000 0x100000;
  buddy_init 0xffffffdf80000000 0x80000 mb 0.
Example boot_ex_zone0 :
  (fun r => (r.1.1.2, (fun z => (managed_pages z, spanned_pages z, present_pages z)) <$> node_zones r.2,
             ((fun a => free_list a) <$> free_areas (default (MkZone 0 0 0 0 false []) (node_zones r.2 !! 0%nat)))))
    <$> boot_ex
  = Ok (1732, [(1732, 2048, 2048); (0, 0, 0); (0, 0, 0)],
        [[]; []; [0x807c0]; []; []; []; [0x80780]; [0x80700]; [0x80600; 0x80300]; [0x80400; 0x80000]; []]).
Proof. vm_compute. reflexivity. Qed.

(** ** Correctness of the hand-over *)

Lemma zonenum_set_reserved pg : page_zonenum (__SetPageReserved pg) = page_zonenum pg.
Proof.
  unfold page_zonenum, __SetPageReserved, with_flags. simpl. bits k Hk.
  replace (Z.testbit (Z.shiftl 1 PG_reserved) (k + ZONES_PGSHIFT)) with false; [rewrite orb_false_r; reflexivity|].
  symmetry. change (Z.shiftl 1 PG_reserved) with (2 ^ 12). apply Z.pow2_bits_false. unfold ZONES_PGSHIFT. lia.
Qed.

(** Marking pages reserved changes neither marks, zones nor counts. *)
Definition reserved_only (M M' : mem_map) : Prop :=
  same_marks M M' /\
  forall p, match M !! p, M' !! p with
            | Some pg, Some pg' => page_zonenum pg = page_zonenum pg' /\ _refcount pg = _refcount pg'
            | _, _ => True
            end.

Lemma reserved_only_refl M : reserved_only M M.
Proof. split; [reflexivity|]. intros p. destruct (M !! p); auto. Qed.

Lemma reserved_only_trans M1 M2 M3 : reserved_only M1 M2 -> reserved_only M2 M3 -> reserved_only M1 M3.
Proof.
  intros [S1 R1] [S2 R2]. split; [rewrite S1; exact S2|]. intros p. specialize (S1 p). specialize (S2 p).
  specialize (R1 p). specialize (R2 p).
  destruct (M1 !! p), (M2 !! p), (M3 !! p); try contradiction; auto. intuition congruence.
Qed.

Lemma reserve_pfns_spec L n : forall M p, (forall x, p <= x < p + Z.of_nat n -> pfn_valid L x = true -> is_Some (M !! x)) ->
  exists M', reserve_pfns n L M p = Ok M' /\ reserved_only M M'.
Proof.
  induction n as [|n IH]; intros M p Hm; cbn [reserve_pfns]; [exists M; split; [reflexivity|apply reserved_only_refl]|].
  assert (exists M1, (if pfn_valid L p then upd_page M p __SetPageReserved else Ok M) = Ok M1 /\ reserved_only M M1)
    as (M1 & -> & R1).
  { destruct (pfn_valid L p) eqn:E; [|exists M; split; [reflexivity|apply reserved_only_refl]].
    destruct (Hm p ltac:(lia) E) as [pg Hpg]. rewrite (upd_page_ok _ _ _ _ Hpg). eexists. split; [reflexivity|].
    split; [apply (same_marks_insert _ _ pg); auto|]. intros q. destruct (decide (p = q)) as [->|Hne].
    - rewrite Hpg, lookup_insert_eq. split; [symmetry; apply zonenum_set_reserved|reflexivity].
    - rewrite lookup_insert_ne by assumption. destruct (M !! q); auto. }
  cbn [mbind outcome_bind]. destruct (IH M1 (p + 1)) as (M2 & E & R2).
  - intros x Hx Hv. eapply same_marks_mapped; [exact (proj1 R1)|]. apply Hm; [lia|exact Hv].
  - exists M2. split; [exact E|]. eapply reserved_only_trans; eassumption.
Qed.

Lemma ascending_elem lo l r : ascending lo l -> r ∈ l -> lo <= base r /\ 0 < size r /\ rend r <= PHYS_ADDR_MAX.
Proof.
  revert lo. induction l as [|r0 l IH]; intros lo Ha Hr; [apply elem_of_nil in Hr; contradiction|].
  destruct Ha as (A1 & A2 & A3 & A4). unfold rend in *. apply elem_of_cons in Hr as [->|Hr]; [lia|].
  destruct (IH _ A4 Hr). lia.
Qed.

Lemma PFN_UP_wrap x : 2 ^ 64 - 4096 < x < 2 ^ 64 -> PFN_UP x = 0.
Proof.
  intros H. unfold PFN_UP. change PAGE_SIZE with 4096. change PAGE_SHIFT with 12.
  replace (u64 (u64 (x + 4096) - 1)) with (x + 4095 - 2 ^ 64).
  - rewrite Z.shiftr_div_pow2 by lia. apply Z.div_small. change (2 ^ 12) with 4096. lia.
  - unfold u64. rewrite Zminus_mod_idemp_l.
    replace (x + 4096 - 1) with (x + 4095 - 2 ^ 64 + 1 * 2 ^ 64) by lia.
    rewrite Z.mod_add, Z.mod_small; lia.
Qed.

(** Every page [reserve_bootmem_region] marks holds a byte of the region. *)
Lemma reserved_page_byte mb r x : wf_type (reserved mb) -> r ∈ rgns (reserved mb) ->
  base r / 4096 <= x < PFN_UP (u64 (base r + size r - 1)) ->
  exists y, y / 4096 = x /\ covers (rgns (reserved mb)) y.
Proof.
  intros (_ & _ & [E|[Ha _]]) Hr Hx.
  { rewrite E in Hr. apply list_elem_of_singleton in Hr. subst r. exfalso. revert Hx.
    change (PFN_UP _) with 0. simpl. change (0 / 4096) with 0. lia. }
  destruct (ascending_elem 0 _ r Ha Hr) as (B1 & B2 & B3). unfold rend, PHYS_ADDR_MAX in B3.
  rewrite u64_small in Hx by (unfold is_u64; lia).
  assert (base r + size r - 1 <= 2 ^ 64 - 4096) as Hle.
  { destruct (Z.le_gt_cases (base r + size r - 1) (2 ^ 64 - 4096)); [assumption|].
    rewrite PFN_UP_wrap in Hx by lia. pose proof (Z.div_pos (base r) 4096). lia. }
  rewrite PFN_UP_spec in Hx by lia.
  pose proof (Z.div_mod (base r + size r - 1 + 4095) 4096 ltac:(lia)).
  pose proof (Z.mod_pos_bound (base r + size r - 1 + 4095) 4096 ltac:(lia)).
  pose proof (Z.div_mod (base r) 4096 ltac:(lia)). pose proof (Z.mod_pos_bound (base r) 4096 ltac:(lia)).
  exists (Z.max (base r) (x * 4096)). split.
  - symmetry. apply Z.div_unique with (r := Z.max (base r) (x * 4096) - x * 4096); [left|]; lia.
  - apply Exists_exists. exists r. split; [exact Hr|]. unfold in_region, rend. lia.
Qed.

Lemma reserve_all_spec L mb l : wf_type (reserved mb) -> Forall (reserved_bounds mb) l -> forall M,
  (forall x, covers (rgns (reserved mb)) x -> pfn_valid L (x / 4096) = true -> is_Some (M !! (x / 4096))) ->
  exists M', reserve_all L M l = Ok M' /\ reserved_only M M'.
Proof.
  intros W. induction 1 as [|p l (r & Hr & ->) Hl IH]; intros M Hm; cbn [reserve_all];
    [exists M; split; [reflexivity|apply reserved_only_refl]|].
  unfold reserve_bootmem_region. pose proof Hr as Hr'. apply list_elem_of_lookup_1 in Hr' as [i Hi].
  rewrite (u64_small (base r + size r)) by exact (weakly_lookup_end 0 _ i r (wf_type_weakly _ W) ltac:(lia) Hi).
  rewrite PFN_DOWN_spec.
  destruct (reserve_pfns_spec L (Z.to_nat (PFN_UP (u64 (base r + size r - 1)) - base r / 4096)) M (base r / 4096))
    as (M1 & -> & R1).
  - intros x Hx Hv. destruct (reserved_page_byte mb r x W Hr ltac:(lia)) as (y & <- & Hy). apply Hm; assumption.
  - cbn [mbind outcome_bind]. destruct (IH M1) as (M2 & E & R2).
    + intros x Hx Hv. eapply same_marks_mapped; [exact (proj1 R1)|]. apply Hm; assumption.
    + exists M2. split; [exact E|]. eapply reserved_only_trans; eassumption.
Qed.

Lemma buddy_inv_reserved s z M n : buddy_inv s z -> reserved_only (b_map s) M ->
  length n = length (node_zones s) -> exists k,
  buddy_inv (with_map_zones s M (zip_with set_managed (node_zones s) n)) (set_managed z k).
Proof.
  intros [B1 B2 B3 B4 B5 B6] [S R] Hn.
  destruct (n !! 0%nat) as [k|] eqn:Ek.
  2:{ apply lookup_ge_None in Ek. apply lookup_lt_Some in B1. lia. }
  exists k. split; simpl; auto.
  - rewrite lookup_zip_with, B1, Ek. reflexivity.
  - apply (zone_inv_marks (b_map s)); [exact S|]. destruct B2. split; assumption.
  - intros p pg Hp. specialize (R p). specialize (S p). rewrite Hp in R, S. destruct (b_map s !! p) eqn:E; [|contradiction].
    destruct R as [<- _]. eauto.
  - intros x pg Hx Hp. specialize (R x). specialize (S x). rewrite Hp in R, S. destruct (b_map s !! x) eqn:E; [|contradiction].
    destruct R as [_ <-]. eauto.
Qed.

Lemma release_all_spec l : forall lo s z, asc_ranges lo (block_range <$> l) -> Forall aligned_block l -> 0 <= lo ->
  buddy_inv s z -> (forall x, free_page_in z x -> x < lo) ->
  (forall b, b ∈ l -> is_Some (b_map s !! b.1)) ->
  exists s' z', release_all s l = Ok s' /\ buddy_inv s' z' /\
    forall x, free_page_in z' x <-> Exists (fun b => in_block b x) l \/ free_page_in z x.
Proof.
  induction l as [|[p o] l IH]; intros lo s z Ha Hal Hlo B Hlow Hm; cbn [release_all].
  - exists s, z. split; [reflexivity|]. split; [exact B|]. intros x. rewrite Exists_nil. tauto.
  - destruct Ha as (A1 & A2 & A3). simpl in A1, A2, A3. apply Forall_cons in Hal as [[H1 H2] Hal]. simpl in H1, H2.
    destruct (free_pages_core_spec s z p o B) as (s1 & z1 & -> & B1 & D1 & X1).
    { split; [split; [simpl; lia|split; assumption]|]. split; [apply (Hm (p, o)); apply elem_of_cons; auto|].
      intros c Hc x Hx Hx'. assert (x < lo); [|unfold in_block in Hx; simpl in Hx; lia].
      apply Hlow. apply Exists_exists. exists c. auto. }
    cbn [mbind outcome_bind].
    destruct (IH (p + 2 ^ o) s1 z1 A3 Hal ltac:(lia) B1) as (s2 & z2 & E2 & B2 & X2).
    + intros x Hx. apply X1 in Hx as [Hx|Hx]; [unfold in_block in Hx; simpl in Hx; lia|]. specialize (Hlow x Hx). lia.
    + intros b Hb. apply D1. apply Hm. apply elem_of_cons. auto.
    + exists s2, z2. split; [exact E2|]. split; [exact B2|]. intros x. rewrite X2, Exists_cons, X1. tauto.
Qed.

Lemma free_all_managed_length hi st pages res l st' : memblock_free_all hi st = Ok (pages, res, l, st') ->
  length (bs_managed_pages st') = length (bs_managed_pages st).
Proof.
  unfold memblock_free_all. destruct (bs_stopped st); [discriminate|].
  destruct (free_low_memory_core_early _ _) as [[[r l'] n]| | |]; cbn [mbind outcome_bind]; [|discriminate..].
  intros E. simplify_eq. simpl. unfold reset_all_zones_managed_pages. simpl.
  destruct (bs_reset_done st); [reflexivity|]. apply length_fmap.
Qed.

(** The page array [alloc_node_mem_map] makes. *)
Definition zero_map (start : Z) (n : nat) : mem_map :=
  list_to_map ((fun p => (p, zero_page)) <$> page_range start n).

Lemma zero_map_lookup start n p : zero_map start n !! p =
  if (start <=? p) && (p <? start + Z.of_nat n) then Some zero_page else None.
Proof.
  unfold zero_map, page_range. destruct (decide (start <= p < start + Z.of_nat n)) as [Hin|Hout].
  - replace ((start <=? p) && (p <? start + Z.of_nat n)) with true
      by (symmetry; apply andb_true_intro; split; [apply Z.leb_le|apply Z.ltb_lt]; lia).
    apply elem_of_list_to_map_1.
    + rewrite <- list_fmap_compose. apply NoDup_fmap_2; [intros a b; simpl; auto|].
      apply NoDup_fmap_2; [intros a b; lia|apply NoDup_seq].
    + apply list_elem_of_fmap. exists p. split; [reflexivity|]. apply list_elem_of_fmap.
      exists (Z.to_nat (p - start)). split; [lia|]. apply elem_of_seq. lia.
  - replace ((start <=? p) && (p <? start + Z.of_nat n)) with false
      by (symmetry; apply andb_false_iff; destruct (Z.leb_spec start p); [right; apply Z.ltb_ge; lia|auto]).
    apply not_elem_of_list_to_map_1. rewrite <- list_fmap_compose. intros H.
    apply list_elem_of_fmap in H as (q & -> & H). apply list_elem_of_fmap in H as (i & -> & H).
    apply elem_of_seq in H. simpl in Hout. lia.
Qed.

(** The state of the allocator after the zones have been set up. *)
Definition empty_zone : zone := zone_init_free_lists (MkZone 0 0 0 0 true []).
Definition empty_buddy (start : Z) (n : nat) : buddy :=
  MkBuddy (zero_map start n) [empty_zone] (setup_pageset 0) [Zoneref (Some 0%nat) 0; Zoneref None 0].

Lemma empty_buddy_inv start n : start mod 1024 = 0 -> Z.of_nat n mod 1024 = 0 -> buddy_inv (empty_buddy start n) empty_zone.
Proof.
  intros Hs Hn. split; simpl; auto.
  - split.
    + reflexivity.
    + intros i a Hi. apply lookup_replicate in Hi as [-> _]. reflexivity.
    + constructor.
    + intros b c Hb. exfalso. exact (not_elem_of_nil b Hb).
    + constructor.
    + intros b Hb. exfalso. exact (not_elem_of_nil b Hb).
    + intros p q. rewrite !zero_map_lookup. intros [pg Hp] E.
      destruct ((start <=? p) && (p <? start + Z.of_nat n)) eqn:E1; [|discriminate].
      apply andb_true_iff in E1 as [E1 E2]. apply Z.leb_le in E1. apply Z.ltb_lt in E2.
      pose proof (Z.div_mod p 1024 ltac:(lia)). pose proof (Z.mod_pos_bound p 1024 ltac:(lia)).
      pose proof (Z.div_mod q 1024 ltac:(lia)). pose proof (Z.mod_pos_bound q 1024 ltac:(lia)).
      pose proof (Z.div_mod start 1024 ltac:(lia)). pose proof (Z.div_mod (Z.of_nat n) 1024 ltac:(lia)).
      replace ((start <=? q) && (q <? start + Z.of_nat n)) with true; [eauto|]. symmetry.
      apply andb_true_intro. split; [apply Z.leb_le|apply Z.ltb_lt]; lia.
    + intros p pg Hp Hb. rewrite zero_map_lookup in Hp. destruct (_ && _); [|discriminate].
      injection Hp as <-. discriminate Hb.
  - intros p pg Hp. rewrite zero_map_lookup in Hp. destruct (_ && _); [|discriminate]. injection Hp as <-. reflexivity.
  - intros x pg _ Hp. rewrite zero_map_lookup in Hp. destruct (_ && _); [|discriminate]. injection Hp as <-. reflexivity.
Qed.


(** ** The theorems on a concrete node *)

Definition is_okb {A} (m : outcome A) : bool := match m with Ok _ => true | _ => false end.
Lemma ok_or_eq {A} (d : A) m : is_okb m = true -> m = Ok (ok_or d m).
Proof. destruct m; simpl; congruence. Qed.

Lemma Ok_inj {A} (a b : A) : Ok a = Ok b -> a = b.
Proof. congruence. Qed.

Definition w_map : mem_map := zero_map 0x80000 1024.
Definition w_buddy : buddy := empty_buddy 0x80000 1024.
Lemma w_buddy_inv : buddy_inv w_buddy empty_zone.
Proof. apply empty_buddy_inv; reflexivity. Qed.

Lemma w_fresh : fresh_block w_map empty_zone (0x80010, 4).
Proof.
  split; [vm_compute; intuition congruence|]. split; [vm_compute; eauto|].
  intros c Hc. exfalso. exact (not_elem_of_nil c Hc).
Qed.

Lemma free_one_page_exact_witness :
  (blocks ∘ snd <$> __free_one_page w_map 0x80010 empty_zone 4) = Ok [(0x80010, 4)] /\
  exists M' z', __free_one_page w_map 0x80010 empty_zone 4 = Ok (M', z') /\ zone_inv M' z'.
Proof.
  split; [vm_compute; reflexivity|].
  destruct (free_one_page_exact w_map empty_zone 0x80010 4 (bi_inv _ _ w_buddy_inv) w_fresh) as (M' & z' & E & I & _).
  exists M', z'. exact (conj E I).
Defined.

(** A zone with one free block of 16 pages. *)
Definition w_freed : mem_map * zone := ok_or (w_map, empty_zone) (__free_one_page w_map 0x80010 empty_zone 4).
Lemma w_freed_eq : __free_one_page w_map 0x80010 empty_zone 4 = Ok w_freed.
Proof. apply ok_or_eq. vm_compute. reflexivity. Qed.
Lemma w_freed_inv : zone_inv w_freed.1 w_freed.2 /\ same_pages w_map w_freed.1.
Proof.
  destruct (free_one_page_spec w_map empty_zone 0x80010 4 (bi_inv _ _ w_buddy_inv) w_fresh) as (M' & z' & E & I & S & _).
  rewrite w_freed_eq in E. apply Ok_inj in E. rewrite E. exact (conj I S).
Qed.

Lemma rmqueue_smallest_exact_witness :
  (fun r => (r.1.1, blocks r.2)) <$> __rmqueue_smallest (Z.to_nat MAX_ORDER) w_freed.1 w_freed.2 1 1
    = Ok (Some 0x80010, [(0x80012, 1); (0x80014, 2); (0x80018, 3)]) /\
  exists p M' z', __rmqueue_smallest (Z.to_nat MAX_ORDER) w_freed.1 w_freed.2 1 1 = Ok (Some p, M', z') /\
    taken w_freed.1 w_freed.2 1 p M' z'.
Proof.
  split; [vm_compute; reflexivity|].
  destruct (rmqueue_smallest_exact w_freed.1 w_freed.2 1 (proj1 w_freed_inv)) as [[E _]|H].
  - unfold MAX_ORDER. lia.
  - exfalso. apply (f_equal (fmap (fun r => r.1.1))) in E. vm_compute in E. discriminate E.
  - exact H.
Defined.

Definition w_taken : Z * mem_map * zone := ok_or (0, w_map, empty_zone) (__rmqueue w_freed.1 w_freed.2 1).
Lemma w_taken_eq : __rmqueue w_freed.1 w_freed.2 1 = Ok (0x80010, w_taken.1.2, w_taken.2).
Proof.
  assert (fst ∘ fst <$> __rmqueue w_freed.1 w_freed.2 1 = Ok 0x80010) as H by (vm_compute; reflexivity).
  unfold w_taken. destruct (__rmqueue w_freed.1 w_freed.2 1) as [[[p M] z]| | |]; [|discriminate H..].
  simpl in H. injection H as ->. reflexivity.
Qed.
Lemma w_run : zone_run w_freed.1 w_freed.2 [(0x80010, 1)] w_taken.1.2 w_taken.2.
Proof. eapply zr_alloc; [apply zr_start|unfold MAX_ORDER; lia|exact w_taken_eq]. Qed.

Lemma zone_pages_conserved_witness :
  zone_inv w_taken.1.2 w_taken.2 /\ exists M' z', __free_one_page w_taken.1.2 0x80010 w_taken.2 1 = Ok (M', z').
Proof.
  destruct (zone_pages_conserved _ _ _ _ _ (proj1 w_freed_inv) w_run) as (I & _ & _ & _ & H).
  split; [exact I|]. apply (H (0x80010, 1)). left.
Defined.

Lemma w_untyped : untyped w_freed.1.
Proof.
  apply (untyped_same _ _ (proj2 w_freed_inv)). intros p pg Hp. unfold w_map in Hp. rewrite zero_map_lookup in Hp.
  destruct (_ && _); [|discriminate]. injection Hp as <-. discriminate.
Qed.

Lemma free_never_coalesces_witness :
  exists M' z', __free_one_page w_taken.1.2 0x80010 w_taken.2 1 = Ok (M', z') /\
    blocks z' ≡ₚ [(0x80010, 1); (0x80012, 1); (0x80014, 2); (0x80018, 3)].
Proof.
  destruct (free_never_coalesces _ _ _ _ _ 0x80010 1 (proj1 w_freed_inv) w_untyped w_run) as (M' & z' & E & H).
  - left.
  - exists M', z'. split; [exact E|]. rewrite H. vm_compute. reflexivity.
Defined.

(** The node after the first block has been released. *)
Definition w_node : buddy := ok_or w_buddy (__free_pages_core w_buddy 0x80010 4).
Lemma w_node_inv : exists z, buddy_inv w_node z /\ blocks z = [(0x80010, 4)].
Proof.
  destruct (free_pages_core_spec w_buddy empty_zone 0x80010 4 w_buddy_inv w_fresh) as (s & z & E & B & _).
  unfold w_node. rewrite E. simpl. exists z. split; [exact B|].
  assert (blocks <$> (x ← (__free_pages_core w_buddy 0x80010 4); deref (node_zones x !! 0%nat)) = Ok [(0x80010, 4)]) as H
    by (vm_compute; reflexivity).
  rewrite E in H. cbn [mbind outcome_bind] in H. rewrite (bi_zone _ _ B) in H. simpl in H. congruence.
Qed.

Lemma alloc_pages_exact_block_witness :
  exists z p s', __alloc_pages_nodemask 0 w_node ∅ 0xcc0 2 = Ok (p, s', ∅) /\ allocated w_node z 2 p s'.
Proof.
  destruct w_node_inv as (z & B & Hb). exists z.
  destruct (alloc_pages_exact_block 0 w_node z ∅ 0xcc0 2 B) as [[_ N]|H].
  - unfold MAX_ORDER. lia.
  - lia.
  - reflexivity.
  - exfalso. specialize (N (0x80010, 4)). rewrite Hb in N. specialize (N ltac:(left)). simpl in N. lia.
  - exact H.
Defined.

Lemma freed_allocation_leaks_witness :
  exists p s' s'', __alloc_pages_nodemask 0 w_node ∅ 0xcc0 2 = Ok (p, s', ∅) /\
    __free_pages s' p 2 = Ok s'' /\ node_zones s'' = node_zones s'.
Proof.
  destruct w_node_inv as (z & B & Hb).
  destruct (alloc_pages_spec 0 w_node z ∅ 0xcc0 2 B) as [[_ N]|(p & s' & E & _)].
  - unfold MAX_ORDER. lia.
  - lia.
  - reflexivity.
  - exfalso. specialize (N (0x80010, 4)). rewrite Hb in N. specialize (N ltac:(left)). simpl in N. lia.
  - destruct (freed_allocation_leaks 0 w_node z ∅ 0xcc0 2 p s' ∅ B) as (s'' & pg & E' & Hn & _).
    + unfold MAX_ORDER. lia.
    + lia.
    + reflexivity.
    + exact E.
    + exists p, s', s''. exact (conj E (conj E' Hn)).
Defined.

(** One MB of memory, of which two pages are reserved. *)
Definition w_mb0 : memblock := ok_or memblock_init (snd <$> memblock_add memblock_init 0x80000000 0x100000).
Definition w_mb : memblock := ok_or memblock_init (snd <$> memblock_reserve w_mb0 0x80002000 0x2000).
Lemma w_mb_run : mb_run [Reserved 0x80002000 0x2000; Added 0x80000000 0x100000] w_mb.
Proof.
  eapply (run_reserve _ w_mb0); [|unfold is_u64; lia|unfold is_u64; lia|vm_compute; reflexivity].
  eapply run_add; [apply run_init|unfold is_u64; lia|unfold is_u64; lia|vm_compute; reflexivity].
Qed.

Lemma w_mb_mapped x : 0x80000000 <= x < 0x80400000 -> is_Some (b_map w_buddy !! (x / 4096)).
Proof.
  intros Hx. change (b_map w_buddy) with w_map. unfold w_map. rewrite zero_map_lookup.
  pose proof (Z.div_mod x 4096 ltac:(lia)). pose proof (Z.mod_pos_bound x 4096 ltac:(lia)).
  replace (_ && _) with true; [eauto|]. symmetry. apply andb_true_intro. split; [apply Z.leb_le|apply Z.ltb_lt]; lia.
Qed.

