(* ===== verification/Bitmap.v ===== *)
(** * lib/find_bit.c, bitmap/bitmap.c, include/bitmap.h, include/bits.h: bitmaps

    A bitmap is an array of 64-bit words, [list Z]; an access outside the array
    faults.  The search of the lowest free area and the setting of a range of
    bits are proved against the set of bits a bitmap stands for. *)

From Stdlib Require Import ZArith Lia Bool.
From stdpp Require Import base tactics numbers list.
From S2P Require Import Prelude Words.

(** ** The code *)

Definition __set_bit (nr : Z) (addr : list Z) : outcome (list Z) :=
  w ← aget addr (BIT_WORD nr); aset addr (BIT_WORD nr) (Z.lor w (BIT_MASK nr)).
Definition __clear_bit (nr : Z) (addr : list Z) : outcome (list Z) :=
  w ← aget addr (BIT_WORD nr); aset addr (BIT_WORD nr) (Z.land w (u64 (Z.lnot (BIT_MASK nr)))).
Definition test_bit (nr : Z) (addr : list Z) : outcome bool :=
  w ← aget addr (BIT_WORD nr); Ok (negb (Z.land 1 (Z.shiftr w (Z.land nr (BITS_PER_LONG - 1))) =? 0)).

Definition BITMAP_MEM_ALIGNMENT : Z := 8.
Definition BITMAP_MEM_MASK : Z := BITMAP_MEM_ALIGNMENT - 1.
Definition BITMAP_FIRST_WORD_MASK (start : Z) : Z := u64 (Z.shiftl ULONG_MAX (Z.land start (BITS_PER_LONG - 1))).
Definition BITMAP_LAST_WORD_MASK (nbits : Z) : Z := Z.shiftr ULONG_MAX (Z.land (u32 (- nbits)) (BITS_PER_LONG - 1)).

(** The word that holds bit [start], of one bitmap or of the intersection of two. *)
Definition find_word (addr1 : list Z) (addr2 : option (list Z)) (start invert : Z) : outcome Z :=
  tmp ← aget addr1 (start / BITS_PER_LONG);
  tmp ← match addr2 with
        | Some a => w ← aget a (start / BITS_PER_LONG); Ok (Z.land tmp w)
        | None => Ok tmp
        end;
  Ok (Z.lxor tmp invert).
Fixpoint find_bit_loop (fuel : nat) (addr1 : list Z) (addr2 : option (list Z)) (nbits start invert tmp : Z) : outcome Z :=
  if negb (tmp =? 0) then Ok (min (u64 (start + __ffs tmp)) nbits)
  else match fuel with
  | O => NoFuel
  | S f =>
      let start := u64 (start + BITS_PER_LONG) in
      if nbits <=? start then Ok nbits
      else tmp ← find_word addr1 addr2 start invert; find_bit_loop f addr1 addr2 nbits start invert tmp
  end.
Definition _find_next_bit (addr1 : list Z) (addr2 : option (list Z)) (nbits start invert : Z) : outcome Z :=
  if nbits <=? start then Ok nbits
  else
    tmp ← find_word addr1 addr2 start invert;
    let tmp := Z.land tmp (BITMAP_FIRST_WORD_MASK start) in
    find_bit_loop (S (Z.to_nat (nbits / BITS_PER_LONG))) addr1 addr2 nbits (round_down start BITS_PER_LONG) invert tmp.
Definition find_next_zero_bit (addr : list Z) (size offset : Z) : outcome Z := _find_next_bit addr None size offset ULONG_MAX.
Definition find_next_bit (addr : list Z) (size offset : Z) : outcome Z := _find_next_bit addr None size offset 0.

Fixpoint area_loop (fuel : nat) (map : list Z) (size start nr align_mask align_offset : Z) : outcome Z :=
  match fuel with
  | O => NoFuel
  | S f =>
      index ← find_next_zero_bit map size start;
      let index := u64 (_ALIGN_MASK (u64 (index + align_offset)) align_mask - align_offset) in
      let end_ := u64 (index + nr) in
      if size <? end_ then Ok end_
      else
        i ← find_next_bit map end_ index;
        if i <? end_ then area_loop f map size (u64 (i + 1)) nr align_mask align_offset
        else Ok index
  end.
Definition bitmap_find_next_zero_area_off (map : list Z) (size start nr align_mask align_offset : Z) : outcome Z :=
  area_loop (S (Z.to_nat size)) map size start nr align_mask align_offset.
Definition bitmap_find_next_zero_area (map : list Z) (size start nr align_mask : Z) : outcome Z :=
  bitmap_find_next_zero_area_off map size start nr align_mask 0.

(** [*p |= mask]. *)
Definition or_word (map : list Z) (p mask : Z) : outcome (list Z) := w ← aget map p; aset map p (Z.lor w mask).
Fixpoint set_loop (fuel : nat) (map : list Z) (p len bits_to_set mask_to_set : Z) : outcome (list Z * Z * Z * Z) :=
  if 0 <=? len - bits_to_set then
    match fuel with
    | O => NoFuel
    | S f => map ← or_word map p mask_to_set; set_loop f map (p + 1) (len - bits_to_set) BITS_PER_LONG ULONG_MAX
    end
  else Ok (map, p, len, mask_to_set).
Definition __bitmap_set (map : list Z) (start len : Z) : outcome (list Z) :=
  let size := u32 (start + len) in
  '(map, p, len, mask_to_set) ←
    set_loop (S (Z.to_nat (len / BITS_PER_LONG))) map (BIT_WORD start) len (BITS_PER_LONG - start mod BITS_PER_LONG) (BITMAP_FIRST_WORD_MASK start);
  if negb (len =? 0) then or_word map p (Z.land mask_to_set (BITMAP_LAST_WORD_MASK size)) else Ok map.

(** [memset] of bytes of the array: byte [i] is byte [i mod 8] of word [i / 8]. *)
Fixpoint memset_words (map : list Z) (i c : Z) (n : nat) : outcome (list Z) :=
  match n with
  | O => Ok map
  | S n =>
      w ← aget map (i / 8);
      let sh := 8 * (i mod 8) in
      map ← aset map (i / 8) (Z.lor (Z.land w (u64 (Z.lnot (Z.shiftl 255 sh)))) (Z.shiftl c sh));
      memset_words map (i + 1) c n
  end.
(** [const_n], [const_s] and [const_m] are what the compiler answers to
    [__builtin_constant_p] of [nbits], [start & BITMAP_MEM_MASK] and
    [nbits & BITMAP_MEM_MASK]. *)
Definition bitmap_set (const_n const_s const_m : bool) (map : list Z) (start nbits : Z) : outcome (list Z) :=
  if const_n && (nbits =? 1) then __set_bit (s32 start) map
  else if const_s && IS_ALIGNED start BITMAP_MEM_ALIGNMENT && const_m && IS_ALIGNED nbits BITMAP_MEM_ALIGNMENT
  then memset_words map (start / 8) 0xff (Z.to_nat (nbits / 8))
  else __bitmap_set map start (s32 nbits).

(** ** The bits of a bitmap *)

Definition bit (map : list Z) (k : Z) : bool :=
  match map !! Z.to_nat (k / 64) with Some w => Z.testbit w (k mod 64) | None => false end.

(** An array of words that covers bits [0, n). *)
Definition covers (map : list Z) (n : Z) : Prop := Forall is_u64 map /\ n <= 64 * Z.of_nat (length map).
(** [map'] is [map] with the bits changed to [g], which depends on the position and the old bit. *)
Definition rewrites (map map' : list Z) (g : Z -> bool -> bool) : Prop :=
  Forall is_u64 map' /\ length map' = length map /\ forall k, 0 <= k -> bit map' k = g k (bit map k).

Lemma covers_mono map n m : covers map n -> m <= n -> covers map m.
Proof. intros [H1 H2] H. split; [exact H1|lia]. Qed.
Lemma rewrites_covers map map' g n : covers map n -> rewrites map map' g -> covers map' n.
Proof. intros [_ H] (H1 & H2 & _). split; [exact H1|]. rewrite H2. exact H. Qed.
Lemma rewrites_ext map map' g h : rewrites map map' g -> (forall k b, 0 <= k -> g k b = h k b) -> rewrites map map' h.
Proof. intros (H1 & H2 & H3) E. split; [exact H1|]. split; [exact H2|]. intros k Hk. rewrite H3, E by exact Hk. reflexivity. Qed.
Lemma rewrites_trans m1 m2 m3 g h : rewrites m1 m2 g -> rewrites m2 m3 h -> rewrites m1 m3 (fun k b => h k (g k b)).
Proof.
  intros (_ & H2 & H3) (G1 & G2 & G3). split; [exact G1|]. split; [congruence|]. intros k Hk. rewrite G3, H3 by exact Hk. reflexivity.
Qed.

(** The word of a bit: its index is in range, and it is a 64-bit word. *)
Lemma covers_word map n k : covers map n -> 0 <= k < n -> exists w, at_ map (k / 64) w /\ is_u64 w.
Proof.
  intros [H1 H2] Hk. destruct (at_in map (k / 64)) as [w Hw].
  { split; [apply Z.div_pos; lia|]. apply Z.div_lt_upper_bound; lia. }
  exists w. split; [exact Hw|]. destruct Hw as [_ E]. eapply Forall_lookup_1; [exact H1|exact E].
Qed.
Lemma at_bit map k w : at_ map (k / 64) w -> bit map k = Z.testbit w (k mod 64).
Proof. intros [_ E]. unfold bit. rewrite E. reflexivity. Qed.
Lemma bit_pos k : 64 * (k / 64) + k mod 64 = k.
Proof. pose proof (Z.div_mod k 64). lia. Qed.

(** Changing one word changes its 64 bits. *)
Lemma update_word map n p f (g : Z -> bool -> bool) : covers map n -> 0 <= p -> 64 * p < n ->
  (forall w, is_u64 w -> is_u64 (f w) /\ forall j, 0 <= j < 64 -> Z.testbit (f w) j = g j (Z.testbit w j)) ->
  exists map', (w ← aget map p; aset map p (f w)) = Ok map' /\ rewrites map map' (fun k b => if k / 64 =? p then g (k mod 64) b else b).
Proof.
  intros Hc Hp Hn Hf. destruct (covers_word map n (64 * p) Hc ltac:(lia)) as (w & Hw & Uw).
  replace (64 * p / 64) with p in Hw by (rewrite Z.mul_comm, Z.div_mul; lia). pose proof (at_range _ _ _ Hw) as Hr.
  destruct (Hf w Uw) as [U1 U2]. exists (<[Z.to_nat p := f w]> map). rewrite (at_aget _ _ _ Hw). cbn. rewrite aset_ok by exact Hr. split; [reflexivity|].
  split; [apply Forall_insert; [apply Hc|exact U1]|]. split; [apply length_insert|]. intros k Hk.
  pose proof (Z.div_pos k 64 Hk ltac:(lia)). destruct (Z.eqb_spec (k / 64) p) as [E|E].
  - subst p. rewrite (at_bit _ k _ (at_set_eq _ _ (f w) Hr)), (at_bit _ k _ Hw). apply U2, Z.mod_pos_bound. lia.
  - unfold bit. rewrite list_lookup_insert_ne by lia. reflexivity.
Qed.

Lemma is_u64_bits w : 0 <= w -> (forall j, 64 <= j -> Z.testbit w j = false) -> is_u64 w.
Proof.
  intros H0 H. split; [exact H0|]. destruct (Z.eq_dec w 0); [lia|]. apply Z.log2_lt_pow2; [lia|].
  destruct (Z.lt_ge_cases (Z.log2 w) 64) as [|Hl]; [assumption|]. specialize (H _ Hl). rewrite Z.bit_log2 in H by lia. discriminate.
Qed.
Lemma is_u64_lor a b : is_u64 a -> is_u64 b -> is_u64 (Z.lor a b).
Proof.
  intros Ha Hb. apply is_u64_bits; [apply Z.lor_nonneg; unfold is_u64 in *; lia|]. intros j Hj. rewrite Z.lor_spec, !testbit_is_u64 by (assumption || lia). reflexivity.
Qed.
Lemma is_u64_land a b : is_u64 a -> 0 <= b -> is_u64 (Z.land a b).
Proof. intros Ha Hb. unfold is_u64 in *. pose proof (land_nonneg_le a b). lia. Qed.
Lemma is_u64_ones : is_u64 ULONG_MAX.
Proof. unfold is_u64, ULONG_MAX. lia. Qed.
#[export] Hint Resolve is_u64_lor is_u64_land is_u64_ones : words.

(** ** The masks *)

Lemma land_63 x : Z.land x (BITS_PER_LONG - 1) = x mod 64.
Proof. change (BITS_PER_LONG - 1) with (2 ^ 6 - 1). apply land_ones_mod. lia. Qed.
Lemma testbit_ulong_max j : 0 <= j -> Z.testbit ULONG_MAX j = (j <? 64).
Proof. intros. apply testbit_ones; lia. Qed.
Lemma BIT_MASK_bit k j : 0 <= j < 64 -> Z.testbit (BIT_MASK k) j = (j =? k mod 64).
Proof.
  intros Hj. unfold BIT_MASK, BITS_PER_LONG. pose proof (Z.mod_pos_bound k 64 ltac:(lia)). rewrite testbit_u64, Z.shiftl_1_l, Z.pow2_bits_eqb by lia.
  zcases; simpl; lia.
Qed.
Lemma first_mask_bit s j : 0 <= j < 64 -> Z.testbit (BITMAP_FIRST_WORD_MASK s) j = (s mod 64 <=? j).
Proof.
  intros Hj. unfold BITMAP_FIRST_WORD_MASK. rewrite land_63, testbit_u64 by lia. pose proof (Z.mod_pos_bound s 64 ltac:(lia)).
  destruct (Z.ltb_spec j 64); [|lia]. simpl. destruct (Z.leb_spec (s mod 64) j).
  - rewrite Z.shiftl_spec_high, testbit_ulong_max by lia. apply Z.ltb_lt. lia.
  - apply Z.shiftl_spec_low. lia.
Qed.
Lemma last_mask_bit n j : 0 <= n < 2 ^ 32 -> 0 <= j < 64 -> Z.testbit (BITMAP_LAST_WORD_MASK n) j = ((n mod 64 =? 0) || (j <? n mod 64)).
Proof.
  intros Hn Hj. unfold BITMAP_LAST_WORD_MASK. rewrite land_63. unfold u32.
  replace ((- n) mod 2 ^ 32 mod 64) with ((- n) mod 64) by (change (2 ^ 32) with (64 * 2 ^ 26); rewrite Z.rem_mul_r by lia; rewrite Z.mul_comm, Z.mod_add by lia; rewrite Z.mod_mod by lia; reflexivity).
  pose proof (Z.mod_pos_bound (- n) 64 ltac:(lia)). rewrite Z.shiftr_spec, testbit_ulong_max by lia.
  pose proof (Z.mod_pos_bound n 64 ltac:(lia)). destruct (Z.eqb_spec (n mod 64) 0) as [E|E].
  - rewrite Z.mod_opp_l_z by lia. simpl. apply Z.ltb_lt. lia.
  - rewrite Z.mod_opp_l_nz by lia. zcases; simpl; lia.
Qed.
Lemma first_mask_u64 s : is_u64 (BITMAP_FIRST_WORD_MASK s).
Proof. apply u64_range. Qed.
#[export] Hint Resolve first_mask_u64 : words.

(** ** Single bits *)

Lemma same_bit k nr : 0 <= k -> 0 <= nr -> (k / 64 =? nr / 64) && (k mod 64 =? nr mod 64) = (k =? nr).
Proof. intros. pose proof (bit_pos k). pose proof (bit_pos nr). zcases; simpl; subst; try reflexivity; try congruence; lia. Qed.

Lemma __set_bit_spec map n nr : covers map n -> 0 <= nr < n ->
  exists map', __set_bit nr map = Ok map' /\ rewrites map map' (fun k b => b || (k =? nr)).
Proof.
  intros Hc Hr. pose proof (bit_pos nr). pose proof (Z.mod_pos_bound nr 64 ltac:(lia)).
  destruct (update_word map n (nr / 64) (fun w => Z.lor w (BIT_MASK nr)) (fun j b => b || (j =? nr mod 64)) Hc) as (map' & E & R); [lia|lia| |].
  { intros w Uw. split; [apply is_u64_lor; [exact Uw|apply u64_range]|]. intros j Hj. rewrite Z.lor_spec, BIT_MASK_bit by exact Hj. reflexivity. }
  exists map'. split; [exact E|]. eapply rewrites_ext; [exact R|]. intros k b Hk. cbn beta. rewrite <- (same_bit k nr) by lia.
  zcases; simpl; rewrite ?orb_false_r; reflexivity.
Qed.
Lemma __clear_bit_spec map n nr : covers map n -> 0 <= nr < n ->
  exists map', __clear_bit nr map = Ok map' /\ rewrites map map' (fun k b => b && negb (k =? nr)).
Proof.
  intros Hc Hr. pose proof (bit_pos nr). pose proof (Z.mod_pos_bound nr 64 ltac:(lia)).
  destruct (update_word map n (nr / 64) (fun w => Z.land w (u64 (Z.lnot (BIT_MASK nr)))) (fun j b => b && negb (j =? nr mod 64)) Hc) as (map' & E & R); [lia|lia| |].
  { intros w Uw. split; [apply is_u64_land; [exact Uw|apply u64_range]|]. intros j Hj.
    rewrite Z.land_spec, testbit_u64, Z.lnot_spec, BIT_MASK_bit by lia. destruct (Z.ltb_spec j 64); [reflexivity|lia]. }
  exists map'. split; [exact E|]. eapply rewrites_ext; [exact R|]. intros k b Hk. cbn beta. rewrite <- (same_bit k nr) by lia.
  zcases; simpl; rewrite ?andb_true_r; reflexivity.
Qed.
Lemma test_bit_spec map n nr : covers map n -> 0 <= nr < n -> test_bit nr map = Ok (bit map nr).
Proof.
  intros Hc Hr. destruct (covers_word map n nr Hc Hr) as (w & Hw & _). unfold test_bit. change (BIT_WORD nr) with (nr / 64).
  rewrite (at_aget _ _ _ Hw), (at_bit _ _ _ Hw). cbn. f_equal. rewrite land_63, Z.land_comm. change 1 with (2 ^ 1 - 1) at 1.
  pose proof (Z.mod_pos_bound nr 64 ltac:(lia)). rewrite land_ones_mod by lia. change (2 ^ 1) with 2. rewrite Zmod_odd, <- Z.bit0_odd, Z.shiftr_spec by lia.
  rewrite Z.add_0_l. destruct (Z.testbit w (nr mod 64)); reflexivity.
Qed.

(** ** Searching *)

(** [r] is the first position of [lo, hi) where [P] holds, or [hi]. *)
Definition first (P : Z -> bool) (lo hi r : Z) : Prop :=
  lo <= r <= hi /\ (forall k, lo <= k < r -> P k = false) /\ (r < hi -> P r = true).

(** What a search looks for: set or clear bits of one map or of the intersection of two. *)
Definition wanted (addr1 : list Z) (addr2 : option (list Z)) (inv : bool) (k : Z) : bool :=
  xorb (bit addr1 k && match addr2 with Some a => bit a k | None => true end) inv.
Definition flip_all (inv : bool) : Z := if inv then ULONG_MAX else 0.

Section Search.
  Context (addr1 : list Z) (addr2 : option (list Z)) (inv : bool) (nbits : Z).
  Context (C1 : covers addr1 nbits) (C2 : match addr2 with Some a => covers a nbits | None => True end) (Hn : nbits <= 2 ^ 63).

Lemma find_word_spec start : 0 <= start < nbits -> exists w, find_word addr1 addr2 start (flip_all inv) = Ok w /\ is_u64 w /\
  forall j, 0 <= j < 64 -> Z.testbit w j = wanted addr1 addr2 inv (64 * (start / 64) + j).
Proof using C1 C2.
  intros Hs. destruct (covers_word _ _ start C1 Hs) as (w1 & H1 & U1). unfold find_word, BITS_PER_LONG. rewrite (at_aget _ _ _ H1). cbn [mbind outcome_bind].
  assert (exists w, match addr2 with Some a => w ← aget a (start / 64); Ok (Z.land w1 w) | None => Ok w1 end = Ok w /\ is_u64 w /\
    forall j, 0 <= j < 64 -> Z.testbit w j = bit addr1 (64 * (start / 64) + j) && match addr2 with Some a => bit a (64 * (start / 64) + j) | None => true end) as (w & E & U & B).
  { assert (forall a w, at_ a (start / 64) w -> forall j, 0 <= j < 64 -> Z.testbit w j = bit a (64 * (start / 64) + j)) as Hb.
    { intros a w Hw j Hj. assert ((64 * (start / 64) + j) / 64 = start / 64) as E by (rewrite Z.mul_comm, Z.div_add_l, (Z.div_small j) by lia; lia).
      rewrite (at_bit a _ w) by (rewrite E; exact Hw). f_equal. rewrite Z.mul_comm, Z.add_comm, Z.mod_add, Z.mod_small by lia. reflexivity. }
    destruct addr2 as [a|].
    - destruct (covers_word _ _ start C2 Hs) as (w2 & H2 & U2). exists (Z.land w1 w2). rewrite (at_aget _ _ _ H2). split; [reflexivity|].
      split; [apply is_u64_land; [exact U1|apply U2]|]. intros j Hj. rewrite Z.land_spec, (Hb _ _ H1), (Hb _ _ H2) by exact Hj. reflexivity.
    - exists w1. split; [reflexivity|]. split; [exact U1|]. intros j Hj. rewrite andb_true_r. apply Hb; assumption. }
  rewrite E. cbn [mbind outcome_bind]. eexists. split; [reflexivity|]. unfold wanted, flip_all. split.
  - apply is_u64_bits; [apply Z.lxor_nonneg; destruct inv; unfold is_u64, ULONG_MAX in *; lia|]. intros j Hj. rewrite Z.lxor_spec, (testbit_is_u64 w) by (assumption || lia).
    destruct inv; [|rewrite Z.bits_0; reflexivity]. rewrite testbit_is_u64 by (auto with words || lia). reflexivity.
  - intros j Hj. rewrite Z.lxor_spec, B by exact Hj. destruct inv; [|rewrite Z.bits_0; reflexivity].
    rewrite testbit_ulong_max by lia. destruct (Z.ltb_spec j 64); [reflexivity|lia].
Qed.

Lemma find_bit_loop_spec lo fuel : forall start tmp, 0 <= lo < start + 64 -> start mod 64 = 0 -> 0 <= start < nbits -> is_u64 tmp ->
  (forall j, 0 <= j < 64 -> Z.testbit tmp j = (lo <=? start + j) && wanted addr1 addr2 inv (start + j)) ->
  (forall k, lo <= k < start -> wanted addr1 addr2 inv k = false) -> lo < nbits -> nbits - start <= 64 * Z.of_nat fuel ->
  exists r, find_bit_loop fuel addr1 addr2 nbits start (flip_all inv) tmp = Ok r /\ first (wanted addr1 addr2 inv) lo nbits r.
Proof using C1 C2 Hn.
  induction fuel as [|fuel IH]; intros start tmp Hlo Hm Hs Ut Hb Hl Hln Hf; [lia|]. cbn [find_bit_loop].
  destruct (Z.eqb_spec tmp 0) as [->|Hnz]; cbn [negb].
  - assert (forall k, lo <= k < start + 64 -> wanted addr1 addr2 inv k = false) as Hl'.
    { intros k Hk. destruct (Z.lt_ge_cases k start); [apply Hl; lia|]. specialize (Hb (k - start) ltac:(lia)). rewrite Z.bits_0 in Hb.
      replace (start + (k - start)) with k in Hb by lia. destruct (Z.leb_spec lo k); [|lia]. symmetry. exact Hb. }
    unfold BITS_PER_LONG. rewrite u64_small by (unfold is_u64; lia). destruct (Z.leb_spec nbits (start + 64)).
    + exists nbits. split; [reflexivity|]. split; [lia|]. split; [|lia]. intros k Hk. apply Hl'. lia.
    + destruct (find_word_spec (start + 64) ltac:(lia)) as (w & E & U & B). rewrite E. cbn [mbind outcome_bind].
      assert (64 * ((start + 64) / 64) = start + 64) as Ed.
      { pose proof (bit_pos (start + 64)) as Hp. replace ((start + 64) mod 64) with (start mod 64) in Hp by (rewrite <- (Z.mod_add start 1 64) by lia; f_equal; lia). lia. }
      rewrite Ed in B. apply IH; try lia; try assumption.
      * replace (start + 64) with (start + 1 * 64) by lia. rewrite Z.mod_add by lia. exact Hm.
      * intros j Hj. rewrite B by exact Hj. destruct (Z.leb_spec lo (start + 64 + j)); [reflexivity|lia].
  - destruct (__ffs_lowest tmp Ut Hnz) as ((F1 & F2 & F3) & F4). rewrite Hb in F2 by lia. apply andb_true_iff in F2 as [F2 F5]. apply Z.leb_le in F2.
    rewrite u64_small by (unfold is_u64; lia). rewrite min_spec. eexists. split; [reflexivity|]. split; [lia|]. split.
    + intros k Hk. destruct (Z.lt_ge_cases k start); [apply Hl; lia|]. pose proof (F3 (k - start) ltac:(lia)) as F6. rewrite Hb in F6 by lia.
      replace (start + (k - start)) with k in F6 by lia. destruct (Z.leb_spec lo k); [exact F6|lia].
    + intros Hr. rewrite Z.min_l by lia. exact F5.
Qed.

Lemma _find_next_bit_spec start : 0 <= start ->
  exists r, _find_next_bit addr1 addr2 nbits start (flip_all inv) = Ok r /\ (if nbits <=? start then r = nbits else first (wanted addr1 addr2 inv) start nbits r).
Proof using C1 C2 Hn.
  intros H0. unfold _find_next_bit. destruct (Z.leb_spec nbits start); [eauto|].
  destruct (find_word_spec start ltac:(lia)) as (w & E & U & B). rewrite E. cbn [mbind outcome_bind]. cbv zeta.
  replace (round_down start BITS_PER_LONG) with (64 * (start / 64)).
  2: { change BITS_PER_LONG with (2 ^ 6). rewrite round_down_spec by (unfold is_u64; lia). change (2 ^ 6) with 64. pose proof (bit_pos start). lia. }
  pose proof (bit_pos start). pose proof (Z.mod_pos_bound start 64 ltac:(lia)). pose proof (Z.div_pos start 64 H0 ltac:(lia)). apply find_bit_loop_spec; try lia.
  - rewrite Z.mul_comm, Z.mod_mul; lia.
  - apply is_u64_land; [exact U|apply u64_range].
  - intros j Hj. rewrite Z.land_spec, B, first_mask_bit by exact Hj. rewrite andb_comm. f_equal. zcases; lia.
  - unfold BITS_PER_LONG. pose proof (Z.div_mod nbits 64). pose proof (Z.mod_pos_bound nbits 64 ltac:(lia)). pose proof (Z.div_pos nbits 64 ltac:(lia) ltac:(lia)). lia.
Qed.
End Search.

Lemma wanted_one map inv k : wanted map None inv k = xorb (bit map k) inv.
Proof. unfold wanted. rewrite andb_true_r. reflexivity. Qed.
Lemma find_next_zero_bit_spec map size start : covers map size -> size <= 2 ^ 63 -> 0 <= start ->
  exists r, find_next_zero_bit map size start = Ok r /\ (if size <=? start then r = size else first (fun k => negb (bit map k)) start size r).
Proof.
  intros C Hn H0. destruct (_find_next_bit_spec map None true size C Logic.I Hn start H0) as (r & E & Hr). exists r. split; [exact E|].
  destruct (size <=? start); [exact Hr|]. destruct Hr as (R1 & R2 & R3). setoid_rewrite wanted_one in R2. rewrite wanted_one in R3.
  split; [exact R1|]. split; [|intros H]; [intros k Hk; rewrite <- (R2 k Hk)|rewrite <- (R3 H)]; rewrite xorb_true_r; reflexivity.
Qed.
Lemma find_next_bit_spec map size start : covers map size -> size <= 2 ^ 63 -> 0 <= start ->
  exists r, find_next_bit map size start = Ok r /\ (if size <=? start then r = size else first (bit map) start size r).
Proof.
  intros C Hn H0. destruct (_find_next_bit_spec map None false size C Logic.I Hn start H0) as (r & E & Hr). exists r. split; [exact E|].
  destruct (size <=? start); [exact Hr|]. destruct Hr as (R1 & R2 & R3). setoid_rewrite wanted_one in R2. rewrite wanted_one in R3.
  split; [exact R1|]. split; [|intros H]; [intros k Hk; rewrite <- (R2 k Hk)|rewrite <- (R3 H)]; rewrite xorb_false_r; reflexivity.
Qed.

(** ** Free areas *)

(** [nr] clear bits from [a], within the first [size], with [a + off] a multiple of [2 ^ k]. *)
Definition clear_area (map : list Z) (size nr k off a : Z) : Prop :=
  (a + off) mod 2 ^ k = 0 /\ a + nr <= size /\ forall j, a <= j < a + nr -> bit map j = false.

(** The aligned position at or after [i]. *)
Lemma align_up i off k : 0 <= k <= 61 -> 0 <= i < 2 ^ 62 -> 0 <= off < 2 ^ 62 ->
  let a := u64 (_ALIGN_MASK (u64 (i + off)) (2 ^ k - 1) - off) in
  i <= a < i + 2 ^ k /\ (a + off) mod 2 ^ k = 0 /\ forall b, i <= b -> (b + off) mod 2 ^ k = 0 -> a <= b.
Proof.
  intros Hk Hi Ho a. pose proof (pow2_pos k ltac:(lia)). assert (2 ^ k <= 2 ^ 61) by (apply Z.pow_le_mono_r; lia).
  assert (a = u64 (_ALIGN (i + off) (2 ^ k) - off)) as Ea by (unfold a, _ALIGN; rewrite u64_pow2_pred, (u64_small (i + off)) by (unfold is_u64; lia); reflexivity).
  destruct (_ALIGN_least (i + off) k) as (A1 & A2); [unfold is_u64; lia|lia|lia|].
  rewrite u64_small in Ea by (unfold is_u64; lia). rewrite Ea. split; [lia|]. split; [replace (_ALIGN (i + off) (2 ^ k) - off + off) with (_ALIGN (i + off) (2 ^ k)) by lia; exact A1|].
  intros b Hb Hm. apply Z.mod_divide in A1 as [p Hp]; [|lia]. apply Z.mod_divide in Hm as [q Hq]; [|lia].
  assert (p <= q) by nia. nia.
Qed.

Lemma area_loop_spec map size nr k off : covers map size -> 0 <= size < 2 ^ 62 -> 0 < nr < 2 ^ 32 -> 0 <= k <= 61 -> 0 <= off < 2 ^ 62 ->
  forall fuel start, 0 <= start -> size - start < Z.of_nat fuel -> (0 < fuel)%nat ->
  exists r, area_loop fuel map size start nr (2 ^ k - 1) off = Ok r /\
    (start <= r /\ clear_area map size nr k off r /\ (forall a, start <= a < r -> ~ clear_area map size nr k off a) \/
     size < r < size + 2 ^ k + nr /\ forall a, start <= a -> ~ clear_area map size nr k off a).
Proof.
  intros C Hsz Hnr Hk Ho.  induction fuel as [|fuel IH]; intros start H0 Hf Hf0; [lia|]. cbn [area_loop].
  destruct (find_next_zero_bit_spec map size start C ltac:(lia) H0) as (i0 & E0 & R0). rewrite E0. cbn [mbind outcome_bind].
  assert (0 <= i0 <= size /\ forall a, start <= a -> a + nr <= size -> (forall j, a <= j < a + nr -> bit map j = false) -> start <= i0 <= a) as (Hi0 & Hlow).
  { destruct (Z.leb_spec size start) as [Hss|Hss]; [split; [lia|intros; lia]|]. destruct R0 as (R1 & R2 & _). split; [lia|]. intros a Ha Hn Hz.
    split; [lia|]. destruct (Z.lt_ge_cases a i0); [|lia]. specialize (R2 a ltac:(lia)). rewrite Hz in R2 by lia. discriminate. }
  destruct (align_up i0 off k Hk ltac:(lia) Ho) as (A1 & A2 & A3). assert (0 < 2 ^ k <= 2 ^ 61) by (split; [apply pow2_pos; lia|apply Z.pow_le_mono_r; lia]).
  set (idx := u64 (_ALIGN_MASK (u64 (i0 + off)) (2 ^ k - 1) - off)) in *. cbv zeta. rewrite (u64_small (idx + nr)) by (unfold is_u64; lia).
  assert (forall a, start <= a -> clear_area map size nr k off a -> idx <= a) as Hidx.
  { intros a Ha (F1 & F2 & F3). apply A3; [|exact F1]. apply Hlow; assumption. }
  destruct (Z.ltb_spec size (idx + nr)).
  - eexists. split; [reflexivity|]. right. split; [lia|]. intros a Ha F. pose proof (Hidx a Ha F). destruct F as (_ & F2 & _). lia.
  - destruct (find_next_bit_spec map (idx + nr) idx (covers_mono _ _ (idx + nr) C ltac:(lia)) ltac:(lia) ltac:(lia)) as (i & Ei & Ri). rewrite Ei. cbn [mbind outcome_bind].
    destruct (Z.leb_spec (idx + nr) idx); [lia|]. destruct Ri as (S1 & S2 & S3).
    assert (start <= i0) as Hsi by (destruct (Z.leb_spec size start); [lia|apply R0]).
    destruct (Z.ltb_spec i (idx + nr)) as [Hlt|Hge].
    + rewrite u64_small by (unfold is_u64; lia).
      assert (forall a, start <= a -> clear_area map size nr k off a -> i + 1 <= a) as Hnext.
      { intros a Ha F. pose proof (Hidx a Ha F). destruct F as (_ & _ & F3). destruct (Z.lt_ge_cases i a); [lia|].
        rewrite F3 in S3 by lia. specialize (S3 Hlt). discriminate. }
      destruct (IH (i + 1) ltac:(lia) ltac:(lia) ltac:(lia)) as (r & Er & Hr). exists r. split; [exact Er|]. destruct Hr as [(Q1 & Q2 & Q3)|(Q1 & Q2)].
      * left. split; [lia|]. split; [exact Q2|]. intros a Ha F. apply (Q3 a); [|exact F]. split; [apply Hnext; [lia|exact F]|lia].
      * right. split; [exact Q1|]. intros a Ha F. apply (Q2 a); [|exact F]. apply Hnext; assumption.
    + exists idx. split; [reflexivity|]. left. split; [lia|]. split; [split; [exact A2|]; split; [lia|]; intros j Hj; apply S2; lia|].
      intros a Ha F. pose proof (Hidx a ltac:(lia) F). lia.
Qed.

(** ** Setting ranges *)

Definition in_range (lo len k : Z) : bool := (lo <=? k) && (k <? lo + len).

Lemma or_word_spec map n p mask (g : Z -> bool) : covers map n -> 0 <= p -> 64 * p < n -> is_u64 mask -> (forall j, 0 <= j < 64 -> Z.testbit mask j = g j) ->
  exists map', or_word map p mask = Ok map' /\ rewrites map map' (fun k b => b || (k / 64 =? p) && g (k mod 64)).
Proof.
  intros C Hp Hn Um Hm. destruct (update_word map n p (fun w => Z.lor w mask) (fun j b => b || g j) C Hp Hn) as (map' & E & R).
  { intros w Uw. split; [auto with words|]. intros j Hj. rewrite Z.lor_spec, Hm by exact Hj. reflexivity. }
  exists map'. split; [exact E|]. eapply rewrites_ext; [exact R|]. intros k b Hk. cbn beta. destruct (k / 64 =? p); [reflexivity|]. rewrite orb_false_r. reflexivity.
Qed.

(** The rest of the word that holds [s], up to [s + l]. *)
Lemma range_in_word s l k : 0 <= s -> 0 <= k -> s mod 64 + l <= 64 -> (k / 64 =? s / 64) && ((s mod 64 <=? k mod 64) && (k mod 64 <? s mod 64 + l)) = in_range s l k.
Proof.
  intros. unfold in_range. pose proof (bit_pos s). pose proof (bit_pos k). pose proof (Z.mod_pos_bound s 64 ltac:(lia)). pose proof (Z.mod_pos_bound k 64 ltac:(lia)).
  destruct (Z.eqb_spec (k / 64) (s / 64)) as [E|E].
  - rewrite E in *. zcases; simpl; reflexivity || lia.
  - assert (k / 64 < s / 64 \/ s / 64 < k / 64) as [|] by lia; zcases; simpl; reflexivity || lia.
Qed.
Lemma in_range_app lo a b k : 0 <= a -> 0 <= b -> in_range lo a k || in_range (lo + a) b k = in_range lo (a + b) k.
Proof. intros. unfold in_range. zcases; simpl; reflexivity || lia. Qed.
Lemma next_word s : 0 <= s -> (s + (64 - s mod 64)) mod 64 = 0 /\ (s + (64 - s mod 64)) / 64 = s / 64 + 1.
Proof.
  intros H. pose proof (bit_pos s). replace (s + (64 - s mod 64)) with ((s / 64 + 1) * 64) by lia. split; [apply Z.mod_mul; lia|apply Z.div_mul; lia].
Qed.

Lemma set_loop_spec n fuel : forall map s len, covers map n -> 0 <= s -> 0 <= len -> s + len <= n -> s mod 64 + len < 64 * (Z.of_nat fuel + 1) ->
  exists map' l', set_loop fuel map (s / 64) len (64 - s mod 64) (BITMAP_FIRST_WORD_MASK s) =
      Ok (map', (s + l') / 64, len - l', BITMAP_FIRST_WORD_MASK (s + l')) /\
    0 <= l' <= len /\ (s + l') mod 64 + (len - l') < 64 /\ rewrites map map' (fun k b => b || in_range s l' k).
Proof.
  induction fuel as [|fuel IH]; intros map s len C Hs Hl Hn Hf; pose proof (Z.mod_pos_bound s 64 ltac:(lia)); cbn [set_loop].
  all: destruct (Z.leb_spec 0 (len - (64 - s mod 64))) as [Hge|Hlt]; [try lia|].
  1, 3: exists map, 0; rewrite Z.add_0_r, Z.sub_0_r; split; [reflexivity|]; split; [lia|]; split; [lia|];
    split; [apply C|]; split; [reflexivity|]; intros k Hk; unfold in_range; zcases; simpl; rewrite ?orb_false_r; reflexivity || lia.
  pose proof (bit_pos s). pose proof (Z.div_pos s 64 Hs ltac:(lia)).
  destruct (or_word_spec map n (s / 64) (BITMAP_FIRST_WORD_MASK s) (fun j => s mod 64 <=? j) C) as (m1 & E1 & R1); [lia|lia|auto with words|apply first_mask_bit|].
  rewrite E1. cbn [mbind outcome_bind]. destruct (next_word s Hs) as [N1 N2]. set (d := 64 - s mod 64) in *.
  destruct (IH m1 (s + d) (len - d)) as (m2 & l & E2 & L1 & L2 & R2); [eapply rewrites_covers; eassumption|lia|lia|lia|lia|].
  rewrite N1, N2 in E2. replace (BITMAP_FIRST_WORD_MASK (s + d)) with ULONG_MAX in E2 by (unfold BITMAP_FIRST_WORD_MASK; rewrite land_63, N1; reflexivity).
  exists m2, (d + l). change (64 - 0) with 64 in E2. change BITS_PER_LONG with 64. rewrite E2, !Z.add_assoc, Z.sub_add_distr. split; [reflexivity|]. split; [lia|].
  replace (len - d - l) with (len - (d + l)) in L2 by lia. split; [lia|]. eapply rewrites_ext; [exact (rewrites_trans _ _ _ _ _ R1 R2)|].
  intros k b Hk. cbn beta. rewrite <- orb_assoc. f_equal. rewrite <- in_range_app by lia. f_equal. rewrite <- range_in_word by lia.
  pose proof (Z.mod_pos_bound k 64 ltac:(lia)). f_equal. unfold d. zcases; simpl; reflexivity || lia.
Qed.

Lemma __bitmap_set_spec map start len : covers map (start + len) -> 0 <= start -> 0 <= len -> start + len < 2 ^ 32 ->
  exists map', __bitmap_set map start len = Ok map' /\ rewrites map map' (fun k b => b || in_range start len k).
Proof.
  intros C Hs Hl Hn. unfold __bitmap_set, u32, BITS_PER_LONG, BIT_WORD. rewrite Z.mod_small by lia. change BITS_PER_LONG with 64.
  destruct (set_loop_spec (start + len) (S (Z.to_nat (len / 64))) map start len C Hs Hl ltac:(lia)) as (m1 & l & E1 & L1 & L2 & R1).
  { pose proof (bit_pos len). pose proof (Z.mod_pos_bound len 64 ltac:(lia)). pose proof (Z.mod_pos_bound start 64 ltac:(lia)). pose proof (Z.div_pos len 64 Hl ltac:(lia)). lia. }
  rewrite E1. cbn [mbind outcome_bind]. destruct (Z.eqb_spec (len - l) 0) as [E0|E0]; cbn [negb].
  - exists m1. split; [reflexivity|]. replace len with l by lia. exact R1.
  - pose proof (bit_pos (start + l)). pose proof (Z.mod_pos_bound (start + l) 64 ltac:(lia)). pose proof (Z.div_pos (start + l) 64 ltac:(lia) ltac:(lia)).
    assert ((start + len) mod 64 = (start + l) mod 64 + (len - l)) as Em.
    { replace (start + len) with ((start + l) mod 64 + (len - l) + (start + l) / 64 * 64) by lia. rewrite Z.mod_add, Z.mod_small by lia. reflexivity. }
    destruct (or_word_spec m1 (start + len) ((start + l) / 64) (Z.land (BITMAP_FIRST_WORD_MASK (start + l)) (BITMAP_LAST_WORD_MASK (start + len)))
      (fun j => ((start + l) mod 64 <=? j) && (j <? (start + l) mod 64 + (len - l)))) as (m2 & E2 & R2); [eapply rewrites_covers; eassumption|lia|lia| | |].
    + apply is_u64_land; [auto with words|]. apply Z.shiftr_nonneg. unfold ULONG_MAX. lia.
    + intros j Hj. rewrite Z.land_spec, first_mask_bit, last_mask_bit, Em by lia. destruct (Z.eqb_spec ((start + l) mod 64 + (len - l)) 0); [lia|]. reflexivity.
    + exists m2. split; [exact E2|]. eapply rewrites_ext; [exact (rewrites_trans _ _ _ _ _ R1 R2)|]. intros k b Hk. cbn beta. rewrite <- orb_assoc. f_equal.
      rewrite range_in_word, in_range_app by lia. f_equal. lia.
Qed.

Lemma memset_words_spec n c : forall map i, covers map (8 * (i + Z.of_nat c)) -> 0 <= i -> n = 0xff ->
  exists map', memset_words map i n c = Ok map' /\ rewrites map map' (fun k b => b || in_range (8 * i) (8 * Z.of_nat c) k).
Proof.
  induction c as [|c IH]; intros map i C Hi ->.
  { exists map. split; [reflexivity|]. split; [apply C|]. split; [reflexivity|]. intros k Hk. unfold in_range. zcases; simpl; rewrite ?orb_false_r; reflexivity || lia. }
  cbn [memset_words]. cbv zeta. pose proof (Z.div_mod i 8 ltac:(lia)). pose proof (Z.mod_pos_bound i 8 ltac:(lia)). pose proof (Z.div_pos i 8 Hi ltac:(lia)). set (sh := 8 * (i mod 8)).
  assert (forall j, 0 <= j -> Z.testbit (Z.shiftl 255 sh) j = (sh <=? j) && (j <? sh + 8)) as Hb.
  { intros j Hj. change 255 with (2 ^ 8 - 1). destruct (Z.leb_spec sh j); simpl; [|apply Z.shiftl_spec_low; lia].
    rewrite Z.shiftl_spec_high, testbit_ones by lia. zcases; reflexivity || lia. }
  assert (is_u64 (Z.shiftl 255 sh)) as U.
  { apply is_u64_bits; [apply Z.shiftl_nonneg; lia|]. intros j Hj. rewrite Hb by lia. zcases; simpl; reflexivity || lia. }
  destruct (update_word map _ (i / 8) (fun w => Z.lor (Z.land w (u64 (Z.lnot (Z.shiftl 255 sh)))) (Z.shiftl 255 sh)) (fun j b => b || ((sh <=? j) && (j <? sh + 8))) C) as (m1 & E1 & R1); [lia|lia| |].
  { intros w Uw. split; [apply is_u64_lor; [apply is_u64_land; [exact Uw|apply u64_range]|exact U]|]. intros j Hj.
    rewrite Z.lor_spec, Z.land_spec, testbit_u64, Z.lnot_spec, Hb by lia. destruct (Z.ltb_spec j 64); [|lia]. destruct (Z.testbit w j), (sh <=? j), (j <? sh + 8); reflexivity. }
  destruct (IH m1 (i + 1)) as (m2 & E2 & R2); [eapply rewrites_covers; [|exact R1]; eapply covers_mono; [exact C|lia]|lia|reflexivity|].
  exists m2. split.
  { destruct (aget map (i / 8)) as [w| | |]; cbn [mbind outcome_bind] in *; try discriminate. rewrite E1. exact E2. }
  eapply rewrites_ext; [exact (rewrites_trans _ _ _ _ _ R1 R2)|]. intros k b Hk. cbn beta.
  assert (8 * i / 64 = i / 8 /\ (8 * i) mod 64 = sh) as [D1 D2].
  { change 64 with (8 * 8). rewrite Z.div_mul_cancel_l, Z.mul_mod_distr_l by lia. split; reflexivity. }
  pose proof (range_in_word (8 * i) 8 k ltac:(lia) Hk ltac:(lia)) as Hw. rewrite D1, D2 in Hw.
  replace (8 * Z.of_nat (S c)) with (8 + 8 * Z.of_nat c) by lia. rewrite <- in_range_app by lia. replace (8 * i + 8) with (8 * (i + 1)) by lia. rewrite <- Hw.
  destruct (k / 64 =? i / 8); simpl; [rewrite orb_assoc; reflexivity|reflexivity].
Qed.

(** ** Theorems *)

(** The search of a free area always ends.  It returns the lowest suitably
    aligned position, at or after the start, of [nr] clear bits below [size], or
    a value above [size] when there is no such position. *)
Theorem zero_area_lowest map size start nr k off :
  covers map size -> 0 <= size < 2 ^ 62 -> 0 <= start -> 0 < nr < 2 ^ 32 -> 0 <= k <= 61 -> 0 <= off < 2 ^ 62 ->
  exists r, bitmap_find_next_zero_area_off map size start nr (2 ^ k - 1) off = Ok r /\
    (start <= r /\ clear_area map size nr k off r /\ (forall a, start <= a < r -> ~ clear_area map size nr k off a) \/
     size < r < size + 2 ^ k + nr /\ forall a, start <= a -> ~ clear_area map size nr k off a).
Proof. intros C Hz H0 Hn Hk Ho. apply area_loop_spec; try assumption; lia. Qed.

(** whatever the compiler knows of its arguments, so whichever of its three
    implementations it chooses, [bitmap_set] sets the bits of the range and
    changes no other. *)
Theorem bitmap_set_exact const_n const_s const_m map start nbits :
  covers map (start + nbits) -> 0 <= start -> 0 <= nbits -> start + nbits < 2 ^ 31 ->
  exists map', bitmap_set const_n const_s const_m map start nbits = Ok map' /\ length map' = length map /\
    forall k, 0 <= k -> bit map' k = bit map k || (start <=? k) && (k <? start + nbits).
Proof.
  intros C Hs Hn Hb.
  assert (exists map', bitmap_set const_n const_s const_m map start nbits = Ok map' /\ rewrites map map' (fun k b => b || in_range start nbits k)) as (map' & E & (_ & R2 & R3)); [|exists map'; auto].
  unfold bitmap_set. destruct (Z.eqb_spec nbits 1) as [->|]; [destruct const_n; cbn [andb]|rewrite andb_false_r].
  - rewrite s32_small by lia. destruct (__set_bit_spec map (start + 1) start C ltac:(lia)) as (map' & E & R). exists map'. split; [exact E|].
    eapply rewrites_ext; [exact R|]. intros k b Hk. unfold in_range. cbn beta. f_equal. zcases; simpl; reflexivity || lia.
  - replace (IS_ALIGNED 1 BITMAP_MEM_ALIGNMENT) with false by reflexivity. rewrite andb_false_r. rewrite s32_small by lia. apply __bitmap_set_spec; (exact C || lia).
  - destruct (_ && _) eqn:Ha; [|rewrite s32_small by lia; apply __bitmap_set_spec; (exact C || lia)].
    assert (forall x, IS_ALIGNED x BITMAP_MEM_ALIGNMENT = true -> 8 * (x / 8) = x) as Al.
    { intros x Hx. apply Z.eqb_eq in Hx. change (BITMAP_MEM_ALIGNMENT -u 1)%W with (2 ^ 3 - 1) in Hx. rewrite land_ones_mod in Hx by lia. pose proof (Z.div_mod x 8). change (2 ^ 3) with 8 in Hx. lia. }
    apply andb_true_iff in Ha as [Ha Ha2]. apply andb_true_iff in Ha as [Ha _]. apply andb_true_iff in Ha as [_ Ha1]. apply Al in Ha1, Ha2.
    pose proof (Z.div_pos nbits 8 Hn ltac:(lia)). pose proof (Z.div_pos start 8 Hs ltac:(lia)).
    destruct (memset_words_spec 0xff (Z.to_nat (nbits / 8)) map (start / 8)) as (map' & E & R); [eapply covers_mono; [exact C|lia]|lia|reflexivity|].
    exists map'. split; [exact E|]. rewrite Ha1, Z2Nat.id, Ha2 in R by lia. exact R.
Qed.

Lemma zero_area_lowest_witness : exists r, bitmap_find_next_zero_area_off [7; 0] 128 1 2 1 0 = Ok r /\ (clear_area [7; 0] 128 2 1 0 r \/ 128 < r).
Proof.
  destruct (zero_area_lowest [7; 0] 128 1 2 1 0) as (r & E & H); try lia.
  - split; [repeat constructor; unfold is_u64; lia|simpl; lia].
  - exists r. split; [exact E|]. destruct H as [(_ & H & _)|[H _]]; [left; exact H|right; lia].
Defined.

Lemma bitmap_set_exact_witness : exists map', bitmap_set true true true [0; 0] 60 8 = Ok map' /\ bit map' 60 = true /\ bit map' 67 = true /\ bit map' 68 = false.
Proof.
  destruct (bitmap_set_exact true true true [0; 0] 60 8) as (map' & E & _ & H); try lia.
  - split; [repeat constructor; unfold is_u64; lia|simpl; lia].
  - exists map'. split; [exact E|]. rewrite !H by lia. repeat split.
Defined.
