(* ===== verification/FdTable.v ===== *)
(** * fs/file.c, fs/open.c and include/fdtable.h: file descriptors

    The table of open files of a process: an array of file pointers, a bitmap of
    the descriptors in use, a bitmap of its words that are full, and a lower
    bound of the lowest free descriptor.  A [struct file *] is its address; the
    one field of a file that is read here, [f_mode], is an argument.  The table
    is proved to implement a finite map from descriptors to files, in which a
    new descriptor is the lowest free one. *)

From Stdlib Require Import ZArith Lia Bool.
From stdpp Require Import base tactics numbers list gmap strings.
From S2P Require Import Prelude Words Bitmap.

(** ** Data *)

Definition NR_OPEN_DEFAULT : Z := BITS_PER_LONG.
Definition O_CLOEXEC : Z := 0x80000.
Definition FMODE_PATH : Z := 0x4000.
Definition FDPUT_FPUT : Z := 1.

Record fdtable := FdTable { max_fds : Z; fd : list Z; close_on_exec : list Z; open_fds : list Z; full_fds_bits : list Z }.
Record files_struct := Files { fdt : fdtable; next_fd : Z }.

Definition init_files : files_struct :=
  Files (FdTable NR_OPEN_DEFAULT (replicate (Z.to_nat NR_OPEN_DEFAULT) 0) [0] [0] [0]) 0.

(** ** The code *)

Definition find_next_fd (t : fdtable) (start : Z) : outcome Z :=
  let maxfd := max_fds t in
  let maxbit := maxfd / BITS_PER_LONG in
  let bitbit := start / BITS_PER_LONG in
  b ← find_next_zero_bit (full_fds_bits t) maxbit bitbit;
  let bitbit := u32 (u64 (b * BITS_PER_LONG)) in
  if maxfd <? bitbit then Ok maxfd
  else
    let start := if start <? bitbit then bitbit else start in
    r ← find_next_zero_bit (open_fds t) maxfd start;
    Ok (u32 r).

Definition expand_files (files : files_struct) (nr : Z) : outcome Z :=
  if nr <? max_fds (fdt files) then Ok 0 else Panic "expand_files: need expand files table!".

Definition __set_close_on_exec (fd_ : Z) (t : fdtable) : outcome fdtable :=
  c ← __set_bit (s32 fd_) (close_on_exec t);
  Ok (FdTable (max_fds t) (fd t) c (open_fds t) (full_fds_bits t)).
Definition __clear_close_on_exec (fd_ : Z) (t : fdtable) : outcome fdtable :=
  b ← test_bit (s32 fd_) (close_on_exec t);
  if (b : bool) then
    c ← __clear_bit (s32 fd_) (close_on_exec t);
    Ok (FdTable (max_fds t) (fd t) c (open_fds t) (full_fds_bits t))
  else Ok t.

Definition __set_open_fd (fd_ : Z) (t : fdtable) : outcome fdtable :=
  o ← __set_bit (s32 fd_) (open_fds t);
  let fd_ := fd_ / BITS_PER_LONG in
  w ← aget o fd_;
  full ← (if u64 (Z.lnot w) =? 0 then __set_bit (s32 fd_) (full_fds_bits t) else Ok (full_fds_bits t));
  Ok (FdTable (max_fds t) (fd t) (close_on_exec t) o full).
Definition __clear_open_fd (fd_ : Z) (t : fdtable) : outcome fdtable :=
  o ← __clear_bit (s32 fd_) (open_fds t);
  full ← __clear_bit (s32 (fd_ / BITS_PER_LONG)) (full_fds_bits t);
  Ok (FdTable (max_fds t) (fd t) (close_on_exec t) o full).

Definition __alloc_fd (files : files_struct) (start end_ flags : Z) : outcome (Z * files_struct) :=
  let fd_ := if start <? next_fd files then next_fd files else start in
  fd_ ← (if fd_ <? max_fds (fdt files) then find_next_fd (fdt files) fd_ else Ok fd_);
  if end_ <=? fd_ then Ok (- EMFILE, files)
  else
    error ← expand_files files fd_;
    if error <? 0 then Ok (error, files)
    else
      let next := if start <=? next_fd files then u32 (fd_ + 1) else next_fd files in
      t ← __set_open_fd fd_ (fdt files);
      t ← (if negb (Z.land flags O_CLOEXEC =? 0) then __set_close_on_exec fd_ t else __clear_close_on_exec fd_ t);
      Ok (s32 fd_, Files t next).
Definition __get_unused_fd_flags (files : files_struct) (flags nofile : Z) : outcome (Z * files_struct) :=
  __alloc_fd files 0 (u32 nofile) flags.
(** [nofile] is the limit [rlimit(RLIMIT_NOFILE)]. *)
Definition get_unused_fd_flags (nofile : Z) (files : files_struct) (flags : Z) : outcome (Z * files_struct) :=
  __get_unused_fd_flags files flags nofile.

Definition __put_unused_fd (files : files_struct) (fd_ : Z) : outcome files_struct :=
  t ← __clear_open_fd fd_ (fdt files);
  Ok (Files t (if fd_ <? next_fd files then fd_ else next_fd files)).
Definition put_unused_fd (files : files_struct) (fd_ : Z) : outcome files_struct := __put_unused_fd files fd_.

Definition __fd_install (files : files_struct) (fd_ file : Z) : outcome files_struct :=
  old ← aget (fd (fdt files)) fd_;
  if negb (old =? 0) then Panic "__fd_install"
  else
    l ← aset (fd (fdt files)) fd_ file;
    let t := fdt files in
    Ok (Files (FdTable (max_fds t) l (close_on_exec t) (open_fds t) (full_fds_bits t)) (next_fd files)).
Definition fd_install (files : files_struct) (fd_ file : Z) : outcome files_struct := __fd_install files fd_ file.

Definition __fcheck_files (files : files_struct) (fd_ : Z) : outcome Z :=
  if fd_ <? max_fds (fdt files) then aget (fd (fdt files)) fd_ else Ok 0.
Definition fcheck_files (files : files_struct) (fd_ : Z) : outcome Z := __fcheck_files files fd_.

Section Lookup.
  (** The [f_mode] of the file at an address. *)
  Variable f_mode : Z -> Z.

Definition __fget_files (files : files_struct) (fd_ mask refs : Z) : outcome Z :=
  file ← fcheck_files files fd_;
  if negb (file =? 0) then Ok (if negb (Z.land (f_mode file) mask =? 0) then 0 else file) else Ok file.
Definition __fget (files : files_struct) (fd_ mask refs : Z) : outcome Z := __fget_files files fd_ mask refs.
Definition __fget_light (files : files_struct) (fd_ mask : Z) : outcome Z :=
  file ← __fget files fd_ mask 1;
  if file =? 0 then Ok 0 else Ok (Z.lor FDPUT_FPUT file).
Definition __fdget (files : files_struct) (fd_ : Z) : outcome Z := __fget_light files fd_ FMODE_PATH.
Definition __fdget_pos (files : files_struct) (fd_ : Z) : outcome Z := __fdget files fd_.
(** The file and the flags of the [struct fd]. *)
Definition __to_fd (v : Z) : Z * Z := (Z.land v (u64 (Z.lnot 3)), Z.land v 3).
Definition fdget_pos (files : files_struct) (fd_ : Z) : outcome (Z * Z) := v ← __fdget_pos files (u32 fd_); Ok (__to_fd v).
End Lookup.

(** ** The invariant *)

(** A table of [64 * m] descriptors. *)
Record fd_ok (m : Z) (fs : files_struct) : Prop := {
  ok_m : 0 < m < 2 ^ 20;
  ok_max : max_fds (fdt fs) = 64 * m;
  ok_fd : Z.of_nat (length (fd (fdt fs))) = 64 * m;
  ok_open : covers (open_fds (fdt fs)) (64 * m);
  ok_exec : covers (close_on_exec (fdt fs)) (64 * m);
  ok_full : covers (full_fds_bits (fdt fs)) m;
  ok_bits : forall i, 0 <= i < m -> bit (full_fds_bits (fdt fs)) i = true <-> forall k, k / 64 = i -> bit (open_fds (fdt fs)) k = true;
  ok_next : 0 <= next_fd fs <= 64 * m;
  ok_below : forall k, 0 <= k < next_fd fs -> bit (open_fds (fdt fs)) k = true }.

Lemma div64_range k m : 0 <= k < 64 * m <-> 0 <= k / 64 < m.
Proof. pose proof (bit_pos k). pose proof (Z.mod_pos_bound k 64 ltac:(lia)). lia. Qed.

Lemma div64_nonneg k : 0 <= k / 64 -> 0 <= k.
Proof. pose proof (bit_pos k). pose proof (Z.mod_pos_bound k 64 ltac:(lia)). lia. Qed.

(** The word of a bitmap is full when its complement is zero. *)
Lemma full_word map i w : at_ map i w -> is_u64 w -> u64 (Z.lnot w) =? 0 = true <-> forall k, k / 64 = i -> bit map k = true.
Proof.
  intros Hw U. rewrite u64_lnot by exact U. unfold is_u64 in U. split.
  - intros E k Hk. apply Z.eqb_eq in E. subst i. rewrite (at_bit _ _ _ Hw). replace w with (2 ^ 64 - 1) by lia.
    pose proof (Z.mod_pos_bound k 64 ltac:(lia)). rewrite testbit_ones by lia. apply Z.ltb_lt. lia.
  - intros H. apply Z.eqb_eq. enough (w = 2 ^ 64 - 1) by lia. apply Z.bits_inj'. intros j Hj. rewrite testbit_ones by lia.
    destruct (Z.ltb_spec j 64); [|apply testbit_is_u64; (exact U || lia)].
    assert ((64 * i + j) / 64 = i) as E by (rewrite Z.mul_comm, Z.div_add_l, Z.div_small; lia). specialize (H _ E).
    rewrite (at_bit _ _ w) in H by (rewrite E; exact Hw). rewrite Z.mul_comm, Z.add_comm, Z.mod_add, Z.mod_small in H by lia. exact H.
Qed.

(** ** The operations *)

Section Table.
  Context (m : Z) (fs : files_struct) (K : fd_ok m fs).
  Abbreviation opened := (bit (open_fds (fdt fs))).

Lemma find_next_fd_spec start : 0 <= start < 64 * m ->
  exists r, find_next_fd (fdt fs) start = Ok r /\ first (fun k => negb (opened k)) start (64 * m) r.
Proof using K.
  intros Hs. destruct K as [Hm Hmax _ Ho _ Hf Hb _ _]. unfold find_next_fd. rewrite Hmax. unfold BITS_PER_LONG.
  replace (64 * m / 64) with m by (rewrite Z.mul_comm, Z.div_mul; lia). pose proof (proj1 (div64_range start m) Hs) as Hd.
  destruct (find_next_zero_bit_spec _ m (start / 64) Hf ltac:(lia) ltac:(lia)) as (b & E & R). rewrite E. cbn [mbind outcome_bind]. destruct (Z.leb_spec m (start / 64)); [lia|].
  destruct R as (R1 & R2 & R3). replace (u32 (b *u 64)%W) with (b * 64) by (unfold u64, u32; rewrite !Z.mod_small by (rewrite ?Z.mod_small; lia); reflexivity). cbv zeta. destruct (Z.ltb_spec (64 * m) (b * 64)); [lia|].
  set (start' := if start <? b * 64 then b * 64 else start).
  assert (start <= start' <= 64 * m /\ forall k, start <= k < start' -> opened k = true) as (S1 & S2).
  { unfold start'. destruct (Z.ltb_spec start (b * 64)); [|split; intros; lia]. split; [lia|]. intros k Hk.
    assert (start / 64 <= k / 64 < b) by (split; [apply Z.div_le_mono; lia|apply Z.div_lt_upper_bound; lia]).
    apply (Hb (k / 64)); [lia| |reflexivity]. specialize (R2 (k / 64) ltac:(lia)). destruct (bit _ (k / 64)); [reflexivity|discriminate]. }
  destruct (find_next_zero_bit_spec _ (64 * m) start' Ho ltac:(lia) ltac:(lia)) as (r & Er & Rr). rewrite Er. cbn [mbind outcome_bind].
  assert (first (fun k => negb (opened k)) start (64 * m) r) as Hr.
  { destruct (Z.leb_spec (64 * m) start').
    - subst r. split; [lia|]. split; [|lia]. intros k Hk. rewrite S2 by lia. reflexivity.
    - destruct Rr as (Q1 & Q2 & Q3). split; [lia|]. split; [|exact Q3]. intros k Hk. destruct (Z.lt_ge_cases k start'); [rewrite S2 by lia; reflexivity|apply Q2; lia]. }
  exists r. split; [|exact Hr]. destruct Hr as (Hr & _). unfold u32. rewrite Z.mod_small by lia. reflexivity.
Qed.

Lemma set_open_fd_spec n : 0 <= n < 64 * m -> exists t, __set_open_fd n (fdt fs) = Ok t /\
  fd t = fd (fdt fs) /\ close_on_exec t = close_on_exec (fdt fs) /\ (forall k, 0 <= k -> bit (open_fds t) k = opened k || (k =? n)) /\
  forall next, 0 <= next <= 64 * m -> (forall k, 0 <= k < next -> bit (open_fds t) k = true) -> fd_ok m (Files t next).
Proof using K.
  intros Hn. destruct K as [Hm Hmax Hfd Ho Hx Hf Hb _ _]. unfold __set_open_fd. rewrite (s32_small n) by lia.
  destruct (__set_bit_spec _ _ n Ho Hn) as (o & Eo & Ro). rewrite Eo. cbn [mbind outcome_bind]. cbv zeta. change (n / BITS_PER_LONG) with (n / 64).
  pose proof (rewrites_covers _ _ _ _ Ho Ro) as Co. destruct Ro as (Uo & Lo & Bo). destruct (covers_word o _ n Co Hn) as (w & Hw & Uw). rewrite (at_aget _ _ _ Hw). cbn [mbind outcome_bind].
  pose proof (proj1 (div64_range n m) Hn) as Hd. pose proof (full_word o (n / 64) w Hw Uw) as Hfull.
  assert (exists full, (if u64 (Z.lnot w) =? 0 then __set_bit (s32 (n / 64)) (full_fds_bits (fdt fs)) else Ok (full_fds_bits (fdt fs))) = Ok full /\
    covers full m /\ forall i, 0 <= i -> bit full i = bit (full_fds_bits (fdt fs)) i || ((u64 (Z.lnot w) =? 0) && (i =? n / 64))) as (full & Ef & Cf & Bf).
  { rewrite s32_small by lia. destruct (u64 (Z.lnot w) =? 0).
    - destruct (__set_bit_spec _ _ (n / 64) Hf Hd) as (full & E & R). exists full. split; [exact E|]. split; [eapply rewrites_covers; eassumption|]. apply R.
    - exists (full_fds_bits (fdt fs)). split; [reflexivity|]. split; [exact Hf|]. intros i Hi. rewrite orb_false_r. reflexivity. }
  rewrite Ef. cbn [mbind outcome_bind]. eexists. split; [reflexivity|]. cbn. split; [reflexivity|]. split; [reflexivity|]. split; [exact Bo|].
  intros next Hnx Hbl. constructor; cbn; try assumption. intros i Hi. rewrite Bf, orb_true_iff, andb_true_iff, Hfull, Hb, Z.eqb_eq by lia. split.
  - intros [H|[H ->]]; [|exact H]. intros k Hk. rewrite Bo by (apply div64_nonneg; lia). rewrite (H k Hk). reflexivity.
  - intros H. destruct (Z.eq_dec i (n / 64)) as [->|Hne]; [right; split; [exact H|reflexivity]|left]. intros k Hk. specialize (H k Hk). assert (0 <= k) by (apply div64_nonneg; lia).
    rewrite Bo in H by assumption. destruct (Z.eqb_spec k n); [congruence|]. rewrite orb_false_r in H. exact H.
Qed.

Lemma clear_open_fd_spec n : 0 <= n < 64 * m -> exists t, __clear_open_fd n (fdt fs) = Ok t /\
  fd t = fd (fdt fs) /\ close_on_exec t = close_on_exec (fdt fs) /\ (forall k, 0 <= k -> bit (open_fds t) k = opened k && negb (k =? n)) /\
  forall next, 0 <= next <= 64 * m -> (forall k, 0 <= k < next -> bit (open_fds t) k = true) -> fd_ok m (Files t next).
Proof using K.
  intros Hn. destruct K as [Hm Hmax Hfd Ho Hx Hf Hb _ _]. unfold __clear_open_fd. pose proof (proj1 (div64_range n m) Hn) as Hd. change (n / BITS_PER_LONG) with (n / 64).
  rewrite !s32_small by lia. destruct (__clear_bit_spec _ _ n Ho Hn) as (o & Eo & Ro). destruct (__clear_bit_spec _ _ (n / 64) Hf Hd) as (full & Ef & Rf).
  rewrite Eo. cbn [mbind outcome_bind]. rewrite Ef. cbn [mbind outcome_bind]. eexists. split; [reflexivity|]. cbn. split; [reflexivity|]. split; [reflexivity|].
  pose proof (rewrites_covers _ _ _ _ Ho Ro) as Co. pose proof (rewrites_covers _ _ _ _ Hf Rf) as Cf. destruct Ro as (_ & _ & Bo), Rf as (_ & _ & Bf). split; [exact Bo|].
  intros next Hnx Hbl. constructor; cbn; try assumption. intros i Hi. rewrite Bf, andb_true_iff, Hb by lia. split.
  - intros [H Hne] k Hk. rewrite Bo by (apply div64_nonneg; lia). rewrite (H k Hk). destruct (Z.eqb_spec k n) as [->|]; [|reflexivity]. subst i. rewrite Z.eqb_refl in Hne. discriminate.
  - intros H. split.
    + intros k Hk. specialize (H k Hk). assert (0 <= k) by (apply div64_nonneg; lia). rewrite Bo in H by assumption. apply andb_true_iff in H. apply H.
    + destruct (Z.eqb_spec i (n / 64)) as [->|]; [|reflexivity]. specialize (H n eq_refl). rewrite Bo, Z.eqb_refl, andb_false_r in H by lia. discriminate.
Qed.
End Table.

(** ** The specification: a map of descriptors *)

(** The close-on-exec flag and the file of each descriptor in use; a descriptor
    that is allocated but has no file yet has the file 0. *)
Abbreviation fds := (gmap Z (bool * Z)).

Inductive fd_call :=
  | CAlloc (start end_ flags : Z)
  | CPut (n : Z)
  | CInstall (n file : Z)
  | CGet (n : Z).

Definition lowest_free (s : fds) (start n : Z) : Prop := start <= n /\ s !! n = None /\ forall k, start <= k < n -> is_Some (s !! k).
Definition cloexec (flags : Z) : bool := negb (Z.land flags O_CLOEXEC =? 0).
(** What reading a descriptor gives: files opened with O_PATH are hidden. *)
Definition visible (f_mode : Z -> Z) (s : fds) (n : Z) : Z :=
  match s !! n with Some (_, f) => if Z.land (f_mode f) FMODE_PATH =? 0 then f else 0 | None => 0 end.

Inductive spec_call (max : Z) (f_mode : Z -> Z) (s : fds) : fd_call -> outcome (Z * fds) -> Prop :=
  | SAlloc start end_ flags n : lowest_free s start n -> n < end_ -> n < max ->
      spec_call max f_mode s (CAlloc start end_ flags) (Ok (n, <[n := (cloexec flags, 0)]> s))
  | SLimit start end_ flags n : lowest_free s start n -> end_ <= n -> spec_call max f_mode s (CAlloc start end_ flags) (Ok (- EMFILE, s))
  | SFull start end_ flags n : lowest_free s start n -> n < end_ -> max <= n ->
      spec_call max f_mode s (CAlloc start end_ flags) (Panic "expand_files: need expand files table!")
  | SPut n c : s !! n = Some (c, 0) -> spec_call max f_mode s (CPut n) (Ok (0, delete n s))
  | SInstall n file c : s !! n = Some (c, 0) -> spec_call max f_mode s (CInstall n file) (Ok (0, <[n := (c, file)]> s))
  | SBusy n file c old : s !! n = Some (c, old) -> old <> 0 -> spec_call max f_mode s (CInstall n file) (Panic "__fd_install")
  | SGet n : spec_call max f_mode s (CGet n) (Ok (visible f_mode s n, s)).

(** What the callers respect: only a descriptor without a file is given back, a
    file goes to a descriptor in use, and files are aligned objects. *)
Definition file_ptr (f : Z) : Prop := 0 < f < 2 ^ 64 /\ f mod 4 = 0.
Definition legal (s : fds) (c : fd_call) : Prop :=
  match c with
  | CAlloc start end_ _ => 0 <= start < 2 ^ 32 /\ 0 <= end_ < 2 ^ 32
  | CPut n => exists b, s !! n = Some (b, 0)
  | CInstall n file => is_Some (s !! n) /\ file_ptr file
  | CGet n => 0 <= n < 2 ^ 32
  end.

(** The calls on the table. *)
Definition fd_step (f_mode : Z -> Z) (c : fd_call) (fs : files_struct) : outcome (Z * files_struct) :=
  match c with
  | CAlloc start end_ flags => __alloc_fd fs start end_ flags
  | CPut n => fs ← put_unused_fd fs n; Ok (0, fs)
  | CInstall n file => fs ← fd_install fs n file; Ok (0, fs)
  | CGet n => r ← fdget_pos f_mode fs n; Ok (r.1, fs)
  end.

Record represents (m : Z) (s : fds) (fs : files_struct) : Prop := {
  rep_ok : fd_ok m fs;
  rep_dom : forall k v, s !! k = Some v -> 0 <= k < 64 * m;
  rep_slot : forall k, 0 <= k < 64 * m -> exists f, at_ (fd (fdt fs)) k f /\
    match s !! k with
    | Some (c, file) => bit (open_fds (fdt fs)) k = true /\ bit (close_on_exec (fdt fs)) k = c /\ f = file /\ (f = 0 \/ file_ptr f)
    | None => bit (open_fds (fdt fs)) k = false /\ f = 0
    end }.

(** A result of the code and one of the specification. *)
Definition matches (m : Z) (o : outcome (Z * files_struct)) (o' : outcome (Z * fds)) : Prop :=
  match o, o' with
  | Ok (r, fs), Ok (r', s) => r = r' /\ represents m s fs
  | Panic e, Panic e' => e = e'
  | _, _ => False
  end.

Lemma rep_open m s fs k : represents m s fs -> 0 <= k < 64 * m -> bit (open_fds (fdt fs)) k = true <-> is_Some (s !! k).
Proof.
  intros R Hk. destruct (rep_slot _ _ _ R k Hk) as (f & _ & H). destruct (s !! k) as [[c file]|].
  - split; [intros _; eexists; reflexivity|intros _; apply H].
  - destruct H as [-> _]. split; [discriminate|intros [? ?]; discriminate].
Qed.

Section Refine.
  Context (f_mode : Z -> Z) (m : Z) (s : fds) (fs : files_struct) (R : represents m s fs).

(** The position at which the allocation looks. *)
Lemma alloc_position start : 0 <= start ->
  let f0 := if start <? next_fd fs then next_fd fs else start in
  exists n, (if f0 <? max_fds (fdt fs) then find_next_fd (fdt fs) f0 else Ok f0) = Ok n /\ lowest_free s start n /\ (start <= next_fd fs -> forall k, 0 <= k < n -> k < 64 * m -> is_Some (s !! k)).
Proof using R.
  intros Hs f0. pose proof (rep_ok _ _ _ R) as K. pose proof (ok_next _ _ K) as Hnx.
  assert (start <= f0 /\ forall k, start <= k < f0 -> is_Some (s !! k)) as (F1 & F2).
  { unfold f0. destruct (Z.ltb_spec start (next_fd fs)); [|split; intros; lia]. split; [lia|]. intros k Hk. apply (rep_open m s fs k R); [lia|]. apply (ok_below _ _ K). lia. }
  assert (exists n, (if f0 <? max_fds (fdt fs) then find_next_fd (fdt fs) f0 else Ok f0) = Ok n /\ f0 <= n /\ s !! n = None /\ forall k, f0 <= k < n -> is_Some (s !! k)) as (n & E & N1 & N2 & N3).
  { rewrite (ok_max _ _ K). destruct (Z.ltb_spec f0 (64 * m)) as [Hlt|Hge].
    - destruct (find_next_fd_spec m fs K f0 ltac:(lia)) as (r & E & R1 & R2 & R3). exists r. split; [exact E|]. split; [lia|]. split.
      + destruct (Z.eq_dec r (64 * m)); [|].
        * destruct (s !! r) eqn:Er; [|reflexivity]. apply (rep_dom _ _ _ R) in Er. lia.
        * specialize (R3 ltac:(lia)). destruct (rep_slot _ _ _ R r ltac:(lia)) as (f & _ & H). destruct (s !! r) as [[c file]|]; [|reflexivity]. destruct H as [H _]. rewrite H in R3. discriminate.
      + intros k Hk. apply (rep_open m s fs k R); [lia|]. specialize (R2 k Hk). destruct (bit _ k); [reflexivity|discriminate].
    - exists f0. split; [reflexivity|]. split; [lia|]. split; [|intros; lia]. destruct (s !! f0) eqn:Er; [|reflexivity]. apply (rep_dom _ _ _ R) in Er. lia. }
  exists n. split; [exact E|]. assert (forall k, start <= k < n -> is_Some (s !! k)) as Hall by (intros k Hk; destruct (Z.lt_ge_cases k f0); [apply F2; lia|apply N3; lia]).
  split; [split; [lia|]; split; [exact N2|exact Hall]|]. intros Hle k Hk Hkm. destruct (Z.lt_ge_cases k start); [|apply Hall; lia].
  apply (rep_open m s fs k R); [lia|]. apply (ok_below _ _ K). lia.
Qed.

Lemma mark_exec_spec (t : fdtable) next n (b : bool) : fd_ok m (Files t next) -> 0 <= n < 64 * m ->
  exists t', (if b then __set_close_on_exec n t else __clear_close_on_exec n t) = Ok t' /\ fd t' = fd t /\ open_fds t' = open_fds t /\
    fd_ok m (Files t' next) /\ forall k, 0 <= k -> bit (close_on_exec t') k = if k =? n then b else bit (close_on_exec t) k.
Proof.
  intros [Hm Hmax Hfd Ho Hx Hf Hb Hn1 Hn2] Hn. cbn in *. unfold __set_close_on_exec, __clear_close_on_exec. rewrite s32_small by lia. destruct b.
  - destruct (__set_bit_spec _ _ n Hx Hn) as (x & E & Rx). rewrite E. eexists. split; [reflexivity|]. cbn. split; [reflexivity|]. split; [reflexivity|].
    pose proof (rewrites_covers _ _ _ _ Hx Rx). split; [constructor; assumption|]. destruct Rx as (_ & _ & B). intros k Hk. rewrite B by exact Hk.
    destruct (k =? n); [apply orb_true_r|apply orb_false_r].
  - rewrite (test_bit_spec _ _ _ Hx Hn). cbn [mbind outcome_bind]. destruct (bit (close_on_exec t) n) eqn:Et.
    + destruct (__clear_bit_spec _ _ n Hx Hn) as (x & E & Rx). rewrite E. eexists. split; [reflexivity|]. cbn. split; [reflexivity|]. split; [reflexivity|].
      pose proof (rewrites_covers _ _ _ _ Hx Rx). split; [constructor; assumption|]. destruct Rx as (_ & _ & B). intros k Hk. rewrite B by exact Hk.
      destruct (k =? n); [apply andb_false_r|apply andb_true_r].
    + exists t. split; [reflexivity|]. split; [reflexivity|]. split; [reflexivity|]. split; [constructor; assumption|]. intros k Hk. destruct (Z.eqb_spec k n); congruence.
Qed.

Lemma alloc_refines start end_ flags : 0 <= start < 2 ^ 32 ->
  exists o', spec_call (64 * m) f_mode s (CAlloc start end_ flags) o' /\ matches m (__alloc_fd fs start end_ flags) o'.
Proof using R.
  intros Hs. pose proof (rep_ok _ _ _ R) as K. destruct (alloc_position start ltac:(lia)) as (n & E & Hl & Hlow). unfold __alloc_fd. rewrite E. cbn [mbind outcome_bind].
  pose proof Hl as (L1 & L2 & _). destruct (Z.leb_spec end_ n).
  { eexists. split; [eapply SLimit; eassumption|]. split; [reflexivity|exact R]. }
  unfold expand_files. rewrite (ok_max _ _ K). destruct (Z.ltb_spec n (64 * m)) as [Hn|Hn]; cbn [mbind outcome_bind].
  2: { eexists. split; [eapply SFull; eassumption|]. reflexivity. }
  destruct (set_open_fd_spec m fs K n ltac:(lia)) as (t & Et & T1 & T2 & T3 & T4). rewrite Et. cbn [mbind outcome_bind Z.ltb].
  set (next := if start <=? next_fd fs then u32 (n + 1) else next_fd fs). change (0 <? 0) with false. cbv iota.
  destruct K as [Hm _ _ _ _ _ _ Hnx Hbl]. assert (fd_ok m (Files t next)) as Kt.
  { apply T4; unfold next, u32; destruct (Z.leb_spec start (next_fd fs)); try rewrite Z.mod_small by lia; try lia.
    - intros k Hk. rewrite T3 by lia. destruct (Z.eqb_spec k n); [apply orb_true_r|]. apply orb_true_intro. left. apply (rep_open m s fs k R); [lia|]. apply Hlow; lia.
    - intros k Hk. rewrite T3 by lia. apply orb_true_intro. left. apply Hbl. lia. }
  destruct (mark_exec_spec t next n (cloexec flags) Kt ltac:(lia)) as (t' & Et' & X1 & X2 & X3 & X4). unfold cloexec in Et'. rewrite Et'. cbn [mbind outcome_bind].
  eexists. split; [eapply SAlloc; eassumption|]. split; [apply s32_small; lia|]. split; [exact X3| |].
  - intros k v. destruct (decide (k = n)) as [->|Hne]; [intros _; lia|]. rewrite lookup_insert_ne by congruence. apply (rep_dom _ _ _ R).
  - intros k Hk. destruct (rep_slot _ _ _ R k Hk) as (f & A & Hk2). exists f. cbn. rewrite X1, T1, X2, T3, X4, T2 by lia. split; [exact A|].
    destruct (Z.eqb_spec k n) as [->|Hne].
    + rewrite lookup_insert_eq, orb_true_r. rewrite L2 in Hk2. destruct Hk2 as [_ Hk2]. auto.
    + rewrite lookup_insert_ne, orb_false_r by congruence. exact Hk2.
Qed.

Lemma put_refines n : legal s (CPut n) -> exists o', spec_call (64 * m) f_mode s (CPut n) o' /\ matches m (fd_step f_mode (CPut n) fs) o'.
Proof using R.
  intros [b Hb]. pose proof (rep_ok _ _ _ R) as K. pose proof (rep_dom _ _ _ R _ _ Hb) as Hn. destruct (clear_open_fd_spec m fs K n Hn) as (t & Et & T1 & T2 & T3 & T4).
  cbn [fd_step]. unfold put_unused_fd, __put_unused_fd. rewrite Et. cbn [mbind outcome_bind]. eexists. split; [eapply SPut; exact Hb|]. split; [reflexivity|].
  destruct K as [_ _ _ _ _ _ _ Hnx Hbl]. split.
  - apply T4; destruct (Z.ltb_spec n (next_fd fs)); try lia; intros k Hk; rewrite T3, Hbl by lia; destruct (Z.eqb_spec k n); [lia|reflexivity|lia|reflexivity].
  - intros k v. rewrite lookup_delete_Some. intros [_ H]. eapply (rep_dom _ _ _ R), H.
  - intros k Hk. destruct (rep_slot _ _ _ R k Hk) as (f & A & H). exists f. cbn. rewrite T1, T2, T3 by lia. split; [exact A|]. destruct (Z.eqb_spec k n) as [->|Hne].
    + rewrite lookup_delete_eq, andb_false_r. rewrite Hb in H. split; [reflexivity|]. apply H.
    + rewrite lookup_delete_ne, andb_true_r by congruence. exact H.
Qed.

Lemma install_refines n file : legal s (CInstall n file) -> exists o', spec_call (64 * m) f_mode s (CInstall n file) o' /\ matches m (fd_step f_mode (CInstall n file) fs) o'.
Proof using R.
  intros [[[c old] Hs] Hf]. pose proof (rep_ok _ _ _ R) as K. pose proof (rep_dom _ _ _ R _ _ Hs) as Hn. destruct (rep_slot _ _ _ R n Hn) as (f & A & H).
  rewrite Hs in H. destruct H as (H1 & H2 & -> & _). cbn [fd_step]. unfold fd_install, __fd_install. rewrite (at_aget _ _ _ A). cbn [mbind outcome_bind]. destruct (Z.eqb_spec old 0) as [->|Hne]; cbn [negb].
  2: { eexists. split; [eapply SBusy; eassumption|]. reflexivity. }
  pose proof (at_range _ _ _ A) as Hr. rewrite aset_ok by exact Hr. cbn [mbind outcome_bind]. eexists. split; [eapply SInstall; exact Hs|]. split; [reflexivity|].
  destruct K as [K1 K2 K3 K4 K5 K6 K7 K8 K9]. split.
  - constructor; cbn; try assumption. rewrite length_insert. exact K3.
  - intros k v. destruct (decide (k = n)) as [->|Hne]; [intros _; lia|]. rewrite lookup_insert_ne by congruence. apply (rep_dom _ _ _ R).
  - intros k Hk. cbn. destruct (decide (k = n)) as [->|Hne].
    + exists file. split; [apply at_set_eq; exact Hr|]. rewrite lookup_insert_eq. auto.
    + destruct (rep_slot _ _ _ R k Hk) as (f & B & H). exists f. split; [apply at_set_ne; [lia|congruence|exact B]|]. rewrite lookup_insert_ne by congruence. exact H.
Qed.

(** The low bits of a file's address carry the flags of the descriptor. *)
Lemma to_fd_file f : file_ptr f -> __to_fd (Z.lor FDPUT_FPUT f) = (f, FDPUT_FPUT).
Proof.
  intros [Hf Hm]. change 4 with (2 ^ 2) in Hm. pose proof (proj1 (mod_pow2_zero_bits f 2 ltac:(lia)) Hm) as Hz. unfold __to_fd, FDPUT_FPUT.
  assert (forall k, 0 <= k -> Z.testbit 3 k = (k <? 2)) as H3 by (intros; change 3 with (2 ^ 2 - 1); apply testbit_ones; lia).
  assert (forall k, 0 <= k -> Z.testbit 1 k = (k <? 1)) as H1 by (intros; change 1 with (2 ^ 1 - 1) at 1; apply testbit_ones; lia).
  f_equal; bits k Hk; rewrite ?testbit_u64, ?Z.lnot_spec, H3, H1 by lia.
  - destruct (Z.ltb_spec k 64); [|rewrite testbit_is_u64 by (unfold is_u64; lia); rewrite andb_false_r; reflexivity].
    destruct (Z.ltb_spec k 2); [rewrite (Hz k) by lia; rewrite andb_false_r; reflexivity|]. destruct (Z.ltb_spec k 1); [lia|]. simpl. apply andb_true_r.
  - destruct (Z.ltb_spec k 2); [rewrite (Hz k) by lia; rewrite orb_false_r, andb_true_r; reflexivity|]. destruct (Z.ltb_spec k 1); [lia|]. apply andb_false_r.
Qed.

Lemma get_refines n : 0 <= n < 2 ^ 32 -> matches m (fd_step f_mode (CGet n) fs) (Ok (visible f_mode s n, s)).
Proof using R.
  intros Hn. pose proof (rep_ok _ _ _ R) as K. cbn [fd_step]. unfold fdget_pos, __fdget_pos, __fdget, __fget_light, __fget, __fget_files, fcheck_files, __fcheck_files, visible, u32.
  rewrite Z.mod_small by lia. rewrite (ok_max _ _ K). destruct (Z.ltb_spec n (64 * m)) as [Hlt|Hge].
  2: { destruct (s !! n) eqn:E; [apply (rep_dom _ _ _ R) in E; lia|]. split; [reflexivity|exact R]. }
  destruct (rep_slot _ _ _ R n ltac:(lia)) as (f & A & H). rewrite (at_aget _ _ _ A). cbn [mbind outcome_bind]. destruct (s !! n) as [[c file]|].
  2: { destruct H as [_ ->]. split; [reflexivity|exact R]. }
  destruct H as (_ & _ & -> & Hp). destruct (Z.eqb_spec file 0) as [->|Hne]; cbn [negb mbind outcome_bind].
  { split; [|exact R]. destruct (_ =? 0); reflexivity. }
  destruct (Z.land (f_mode file) FMODE_PATH =? 0); cbn [negb]; [|split; [reflexivity|exact R]]. destruct (Z.eqb_spec file 0); [lia|]. cbn [mbind outcome_bind].
  destruct Hp as [|Hp]; [lia|]. rewrite (to_fd_file file Hp). split; [reflexivity|exact R].
Qed.

Lemma step_refines c : legal s c -> exists o', spec_call (64 * m) f_mode s c o' /\ matches m (fd_step f_mode c fs) o'.
Proof using R.
  destruct c; intros H; [apply alloc_refines; apply H|apply put_refines, H|apply install_refines, H|].
  eexists. split; [apply SGet|apply get_refines, H].
Qed.
End Refine.

(** ** Sequences of calls *)

(** What a sequence of calls returns; a halt ends it. *)
Fixpoint fd_run (f_mode : Z -> Z) (cs : list fd_call) (fs : files_struct) : list (outcome Z) :=
  match cs with
  | [] => []
  | c :: cs =>
      match fd_step f_mode c fs with
      | Ok (r, fs) => Ok r :: fd_run f_mode cs fs
      | Panic e => [Panic e]
      | Fault => [Fault]
      | NoFuel => [NoFuel]
      end
  end.
Inductive spec_run (max : Z) (f_mode : Z -> Z) : fds -> list fd_call -> list (outcome Z) -> Prop :=
  | run_end s : spec_run max f_mode s [] []
  | run_step s c cs r s' rs : spec_call max f_mode s c (Ok (r, s')) -> spec_run max f_mode s' cs rs -> spec_run max f_mode s (c :: cs) (Ok r :: rs)
  | run_halt s c cs e : spec_call max f_mode s c (Panic e) -> spec_run max f_mode s (c :: cs) [Panic e].
Fixpoint legal_run (max : Z) (f_mode : Z -> Z) (s : fds) (cs : list fd_call) : Prop :=
  match cs with
  | [] => True
  | c :: cs => legal s c /\ forall r s', spec_call max f_mode s c (Ok (r, s')) -> legal_run max f_mode s' cs
  end.

Lemma run_refines f_mode m cs : forall s fs, represents m s fs -> legal_run (64 * m) f_mode s cs -> spec_run (64 * m) f_mode s cs (fd_run f_mode cs fs).
Proof.
  induction cs as [|c cs IH]; intros s fs R; [intros _; constructor|]. intros [Hl Hc]. destruct (step_refines f_mode m s fs R c Hl) as (o' & Hs & M). cbn [fd_run].
  destruct (fd_step f_mode c fs) as [[r fs']|e| |], o' as [[r' s']|e'| |]; cbn [matches] in M; try contradiction.
  - destruct M as [-> R']. eapply run_step; [exact Hs|]. apply IH; [exact R'|]. eapply Hc, Hs.
  - subst e'. apply run_halt, Hs.
Qed.

Lemma init_represents : represents 1 ∅ init_files.
Proof.
  assert (forall k, bit [0] k = false) as Hz.
  { intros k. unfold bit. destruct ([0] !! Z.to_nat (k / 64)) as [w|] eqn:E; [|reflexivity]. apply list_elem_of_lookup_2, list_elem_of_singleton in E as ->. apply Z.bits_0. }
  assert (covers [0] 64) by (split; [repeat constructor; unfold is_u64; lia|simpl; lia]).
  split; [constructor; cbn [init_files fdt next_fd max_fds fd open_fds close_on_exec full_fds_bits]|intros k v; rewrite lookup_empty; discriminate|].
  - lia.
  - reflexivity.
  - reflexivity.
  - assumption.
  - assumption.
  - eapply covers_mono; [eassumption|lia].
  - intros i Hi. rewrite Hz. split; [discriminate|]. intros H1. specialize (H1 (64 * i)). rewrite Hz in H1. apply H1. rewrite Z.mul_comm, Z.div_mul; lia.
  - lia.
  - intros; lia.
  - intros k Hk. exists 0. cbn [init_files fdt fd open_fds close_on_exec]. rewrite lookup_empty, Hz. split; [|auto]. split; [lia|]. apply lookup_replicate. split; [reflexivity|]. change (Z.to_nat NR_OPEN_DEFAULT) with 64%nat. lia.
Qed.

(** C19: from the table a process starts with, every sequence of allocations,
    installations, returns and look-ups of descriptors gives what a plain map of
    descriptors gives: a new descriptor is always the lowest free one at or after
    the start, the limit gives -EMFILE, a look-up finds the file installed last
    and hides O_PATH files.  The kernel halts only when all 64 descriptors of the
    fixed table are in use below the limit, or at a second installation. *)
Theorem fd_table_refines f_mode cs : legal_run NR_OPEN_DEFAULT f_mode ∅ cs -> spec_run NR_OPEN_DEFAULT f_mode ∅ cs (fd_run f_mode cs init_files).
Proof. apply (run_refines f_mode 1), init_represents. Qed.

Lemma fd_table_refines_witness :
  spec_run NR_OPEN_DEFAULT (fun _ => 0) ∅ [CAlloc 0 1024 O_CLOEXEC; CInstall 0 4096; CGet 0] (fd_run (fun _ => 0) [CAlloc 0 1024 O_CLOEXEC; CInstall 0 4096; CGet 0] init_files).
Proof.
  apply fd_table_refines. split; [split; lia|]. intros r s' H. split.
  - inversion H as [? ? ? n (L1 & _ & L2)|? ? ? n (L1 & _ & L2)| | | | |]; subst.
    + assert (r = 0) as -> by (destruct (Z.eq_dec r 0); [assumption|destruct (L2 0 ltac:(lia)) as [? E]; rewrite lookup_empty in E; discriminate]).
      split; [rewrite lookup_insert_eq; eexists; reflexivity|]. split; [lia|reflexivity].
    + exfalso. destruct (L2 0 ltac:(lia)) as [? E]. rewrite lookup_empty in E. discriminate.
  - intros r2 s2 _. split; [simpl; lia|]. intros; exact Logic.I.
Defined.
