(* ===== verification/OpenFile.v ===== *)
(** * fs/open.c: opening a file

    The check and translation of the flags of [openat], and the system call: it
    takes a descriptor, opens the path and installs the file or gives the
    descriptor back.  Path lookup ([getname], [do_filp_open]) is an argument: a
    function from the name and the flags to an address or an error code.  A
    local variable that is written through a pointer is passed in, with what the
    stack holds, and returned. *)

From Stdlib Require Import ZArith Lia Bool.
From stdpp Require Import base tactics numbers list gmap strings.
From S2P Require Import Prelude Words Bitmap FdTable.

(** ** Flags *)

Definition O_ACCMODE : Z := 0x3.
Definition O_RDONLY : Z := 0x0.
Definition O_WRONLY : Z := 0x1.
Definition O_RDWR : Z := 0x2.
Definition O_CREAT : Z := 0x40.
Definition O_EXCL : Z := 0x80.
Definition O_NOCTTY : Z := 0x100.
Definition O_TRUNC : Z := 0x200.
Definition O_APPEND : Z := 0x400.
Definition O_NONBLOCK : Z := 0x800.
Definition O_DSYNC : Z := 0x1000.
Definition FASYNC : Z := 0x2000.
Definition O_DIRECT : Z := 0x4000.
Definition O_LARGEFILE : Z := 0x8000.
Definition O_DIRECTORY : Z := 0x10000.
Definition O_NOFOLLOW : Z := 0x20000.
Definition O_NOATIME : Z := 0x40000.
Definition __O_SYNC : Z := 0x100000.
Definition O_PATH : Z := 0x200000.
Definition __O_TMPFILE : Z := 0x400000.
Definition O_TMPFILE : Z := Z.lor __O_TMPFILE O_DIRECTORY.
Definition O_TMPFILE_MASK : Z := Z.lor (Z.lor __O_TMPFILE O_DIRECTORY) O_CREAT.
Definition O_NDELAY : Z := O_NONBLOCK.
Definition any_of (l : list Z) : Z := foldr Z.lor 0 l.
Definition VALID_OPEN_FLAGS : Z :=
  any_of [O_RDONLY; O_WRONLY; O_RDWR; O_CREAT; O_EXCL; O_NOCTTY; O_TRUNC; O_APPEND; O_NDELAY; O_NONBLOCK; O_NDELAY;
          __O_SYNC; O_DSYNC; FASYNC; O_DIRECT; O_LARGEFILE; O_DIRECTORY; O_NOFOLLOW; O_NOATIME; O_CLOEXEC; O_PATH; __O_TMPFILE].
Definition RESOLVE_NO_XDEV : Z := 0x01.
Definition RESOLVE_NO_MAGICLINKS : Z := 0x02.
Definition RESOLVE_NO_SYMLINKS : Z := 0x04.
Definition RESOLVE_BENEATH : Z := 0x08.
Definition RESOLVE_IN_ROOT : Z := 0x10.
Definition VALID_RESOLVE_FLAGS : Z := any_of [RESOLVE_NO_XDEV; RESOLVE_NO_MAGICLINKS; RESOLVE_NO_SYMLINKS; RESOLVE_BENEATH; RESOLVE_IN_ROOT].
Definition LOOKUP_FOLLOW : Z := 0x1.
Definition LOOKUP_DIRECTORY : Z := 0x2.
Definition LOOKUP_OPEN : Z := 0x100.
Definition LOOKUP_CREATE : Z := 0x200.
Definition LOOKUP_EXCL : Z := 0x400.
Definition LOOKUP_NO_SYMLINKS : Z := 0x010000.
Definition LOOKUP_NO_MAGICLINKS : Z := 0x020000.
Definition LOOKUP_NO_XDEV : Z := 0x040000.
Definition LOOKUP_BENEATH : Z := 0x080000.
Definition LOOKUP_IN_ROOT : Z := 0x100000.
Definition MAY_WRITE : Z := 2.
Definition MAY_APPEND : Z := 8.
Definition FMODE_NONOTIFY : Z := 0x4000000.
Definition FMODE_LSEEK : Z := 0x4.
Definition FMODE_PREAD : Z := 0x8.
Definition FMODE_PWRITE : Z := 0x10.
Definition S_IALLUGO : Z := 0xfff.
Definition AT_FDCWD : Z := -100.
(** The string of the macro, indexed by the access mode: read, write, both. *)
Definition ACC_MODE (x : Z) : Z := nth (Z.to_nat (Z.land x O_ACCMODE)) [4; 2; 6; 6] 0.

Record open_how := OpenHow { how_flags : Z; how_mode : Z; how_resolve : Z }.
Record open_flags := OpenFlags { open_flag : Z; op_mode : Z; acc_mode : Z; intent : Z; lookup_flags : Z }.

Definition PTR_ERR (ptr : Z) : Z := s64 ptr.
Definition ERR_PTR (error : Z) : Z := u64 error.
Definition IS_ERR (ptr : Z) : bool := IS_ERR_VALUE ptr.

(** ** The code *)

(** [x & bits] as a condition. *)
Definition has (x bits : Z) : bool := negb (Z.land x bits =? 0).
Definition WILL_CREATE (flags : Z) : bool := has flags (Z.lor O_CREAT __O_TMPFILE).
Definition O_PATH_FLAGS : Z := any_of [O_DIRECTORY; O_NOFOLLOW; O_PATH; O_CLOEXEC].

Definition build_open_flags (how : open_how) (op : open_flags) : Z * open_flags :=
  let flags := s32 (how_flags how) in
  let acc := ACC_MODE flags in
  let flags := Z.land flags (Z.lnot (Z.lor FMODE_NONOTIFY O_CLOEXEC)) in
  if has flags (Z.lnot VALID_OPEN_FLAGS) then (- EINVAL, op)
  else if has (how_resolve how) (u64 (Z.lnot VALID_RESOLVE_FLAGS)) then (- EINVAL, op)
  else if WILL_CREATE flags && has (how_mode how) (u64 (Z.lnot S_IALLUGO)) then (- EINVAL, op)
  else if negb (WILL_CREATE flags) && negb (how_mode how =? 0) then (- EINVAL, op)
  else
    let mode := if WILL_CREATE flags then u16 (Z.lor (how_mode how) S_IFREG) else 0 in
    let op := OpenFlags (open_flag op) mode (acc_mode op) (intent op) (lookup_flags op) in
    if has flags __O_TMPFILE && negb (Z.land flags O_TMPFILE_MASK =? O_TMPFILE) then (- EINVAL, op)
    else if has flags __O_TMPFILE && negb (has acc MAY_WRITE) then (- EINVAL, op)
    else if has flags O_PATH && has flags (Z.lnot O_PATH_FLAGS) then (- EINVAL, op)
    else
      let acc := if has flags O_PATH then 0 else acc in
      let flags := if has flags __O_SYNC then Z.lor flags O_DSYNC else flags in
      let open_flag := flags in
      let acc := if has flags O_TRUNC then Z.lor acc MAY_WRITE else acc in
      let acc := if has flags O_APPEND then Z.lor acc MAY_APPEND else acc in
      let intent := if has flags O_PATH then 0 else LOOKUP_OPEN in
      let intent := if has flags O_CREAT then Z.lor intent LOOKUP_CREATE else intent in
      let intent := if has flags O_CREAT && has flags O_EXCL then Z.lor intent LOOKUP_EXCL else intent in
      let flags := if has flags O_CREAT && has flags O_EXCL then Z.lor flags O_NOFOLLOW else flags in
      let l := 0 in
      let l := if has flags O_DIRECTORY then Z.lor l LOOKUP_DIRECTORY else l in
      let l := if negb (has flags O_NOFOLLOW) then Z.lor l LOOKUP_FOLLOW else l in
      let l := if has (how_resolve how) RESOLVE_NO_XDEV then Z.lor l LOOKUP_NO_XDEV else l in
      let l := if has (how_resolve how) RESOLVE_NO_MAGICLINKS then Z.lor l LOOKUP_NO_MAGICLINKS else l in
      let l := if has (how_resolve how) RESOLVE_NO_SYMLINKS then Z.lor l LOOKUP_NO_SYMLINKS else l in
      let l := if has (how_resolve how) RESOLVE_BENEATH then Z.lor l LOOKUP_BENEATH else l in
      let l := if has (how_resolve how) RESOLVE_IN_ROOT then Z.lor l LOOKUP_IN_ROOT else l in
      (0, OpenFlags open_flag mode acc intent l).

Definition build_open_how (flags mode : Z) : open_how := OpenHow (u64 flags) mode 0.

(** [FMODE] bits that stay after [nonseekable_open]. *)
Definition nonseekable_open (f_mode : Z) : Z * Z := (0, Z.land f_mode (u32 (Z.lnot (any_of [FMODE_LSEEK; FMODE_PREAD; FMODE_PWRITE])))).

Section Open.
  (** Copying the name from the caller and looking up the path. *)
  Variable getname : Z -> Z.
  Variable do_filp_open : Z -> Z -> open_flags -> Z.
  (** The limit of open files, and what the stack holds where [op] is. *)
  Variable nofile : Z.
  Variable stack : open_flags.

Definition do_sys_openat2 (dfd filename : Z) (how : open_how) (files : files_struct) : outcome (Z * files_struct) :=
  let '(_, op) := build_open_flags how stack in
  let tmp := getname filename in
  if IS_ERR tmp then Ok (PTR_ERR tmp, files)
  else
    '(fd_, files) ← get_unused_fd_flags nofile files (u32 (how_flags how));
    if 0 <=? fd_ then
      let f := do_filp_open dfd tmp op in
      if IS_ERR f then files ← put_unused_fd files (u32 fd_); Ok (s32 (PTR_ERR f), files)
      else files ← fd_install files (u32 fd_) f; Ok (fd_, files)
    else Ok (fd_, files).
Definition _do_sys_open (dfd filename flags mode : Z) (files : files_struct) : outcome (Z * files_struct) :=
  do_sys_openat2 dfd filename (build_open_how flags mode) files.
(** Opening from the kernel: the file or an error code as an address. *)
Definition file_open_name (name flags mode : Z) : Z :=
  let '(err, op) := build_open_flags (build_open_how flags mode) stack in
  if negb (err =? 0) then ERR_PTR err else do_filp_open AT_FDCWD name op.
End Open.

(** ** Theorems *)

Section Correct.
  Context (getname : Z -> Z) (do_filp_open : Z -> Z -> open_flags -> Z) (nofile : Z) (stack : open_flags).
  Context (Hlim : 0 <= nofile < 2 ^ 32).

End Correct.

(** The result of the check of the flags is not used: a mode without O_CREAT is
    refused by the check, and the open goes on, here successfully, with the flags
    that the stack happens to hold. *)
Lemma openat_ignores_check :
  let how := OpenHow O_RDONLY 0x1ff 0 in
  let stack := OpenFlags O_RDWR 0 6 0 0 in
  let lookup := fun _ _ op => if open_flag op =? O_RDWR then 4096 else ERR_PTR (- EINVAL) in
  (build_open_flags how stack).1 = - EINVAL /\
  (r ← do_sys_openat2 (fun n => n) lookup 1024 stack AT_FDCWD 8192 how init_files; f ← fdget_pos (fun _ => 0) r.2 r.1; Ok (r.1, f)) = Ok (0, (4096, FDPUT_FPUT)).
Proof. split; reflexivity. Qed.

