(* ===== verification/Scatterlist.v ===== *)
(** * scatterlist/scatterlist.c and include/scatterlist.h: scatter lists

    A scatter list is an array of entries in memory; the two low bits of the
    page pointer of an entry mark the end of the list and a link to another
    array.  The memory maps the address of an entry (16 bytes each) to its
    fields; an access to an address with no entry faults.  The page descriptors
    are the array at [mem_map], 104 bytes each. *)

From Stdlib Require Import ZArith Lia.
From stdpp Require Import base tactics numbers list gmap strings.
From S2P Require Import Prelude Words Mem Memblock Buddy.

(** ** Data *)

Definition SG_CHAIN : Z := 1.
Definition SG_END : Z := 2.
Definition SIZEOF_SG : Z := 16.
Definition SIZEOF_PAGE : Z := 104.

Record scatterlist := Scatterlist { page_link : Z; sg_offset : Z; sg_length : Z }.
Abbreviation sg_mem := (gmap Z scatterlist).

Definition sg_is_chain (sg : scatterlist) : bool := negb (Z.land (page_link sg) SG_CHAIN =? 0).
Definition sg_is_last (sg : scatterlist) : bool := negb (Z.land (page_link sg) SG_END =? 0).
Definition sg_chain_ptr (sg : scatterlist) : Z := Z.land (page_link sg) (u64 (Z.lnot (Z.lor SG_CHAIN SG_END))).
Definition sg_page (sg : scatterlist) : Z := Z.land (page_link sg) (u64 (Z.lnot (Z.lor SG_CHAIN SG_END))).
Definition set_page_link (sg : scatterlist) (l : Z) : scatterlist := Scatterlist l (sg_offset sg) (sg_length sg).

(** ** Operations *)

Definition sg_update (m : sg_mem) (p : Z) (f : scatterlist -> outcome scatterlist) : outcome sg_mem :=
  sg ← deref (m !! p); sg ← f sg; Ok (<[p := sg]> m).

Definition sg_mark_end (m : sg_mem) (p : Z) : outcome sg_mem :=
  sg_update m p (fun sg => Ok (set_page_link sg (Z.land (Z.lor (page_link sg) SG_END) (u64 (Z.lnot SG_CHAIN))))).
Definition sg_unmark_end (m : sg_mem) (p : Z) : outcome sg_mem :=
  sg_update m p (fun sg => Ok (set_page_link sg (Z.land (page_link sg) (u64 (Z.lnot SG_END))))).

Definition sg_init_marker (m : sg_mem) (sgl nents : Z) : outcome sg_mem :=
  sg_mark_end m (sgl + SIZEOF_SG * u32 (nents - 1)).

(** [memset(sgl, 0, sizeof( *sgl) * nents)] *)
Fixpoint sg_clear (nents : nat) (m : sg_mem) (p : Z) : outcome sg_mem :=
  match nents with
  | O => Ok m
  | S n => m ← sg_update m p (fun _ => Ok (Scatterlist 0 0 0)); sg_clear n m (p + SIZEOF_SG)
  end.
Definition sg_init_table (m : sg_mem) (sgl nents : Z) : outcome sg_mem :=
  m ← sg_clear (Z.to_nat nents) m sgl; sg_init_marker m sgl nents.

Definition sg_next (m : sg_mem) (p : Z) : outcome Z :=
  sg ← deref (m !! p);
  if sg_is_last sg then Ok 0
  else
    let p := p + SIZEOF_SG in
    sg ← deref (m !! p);
    Ok (if sg_is_chain sg then sg_chain_ptr sg else p).

Definition sg_assign_page (page : Z) (sg : scatterlist) : outcome scatterlist :=
  let link := Z.land (page_link sg) (Z.lor SG_CHAIN SG_END) in
  bug_on (negb (Z.land page (Z.lor SG_CHAIN SG_END) =? 0)) "BUG_ON";;
  Ok (set_page_link sg (Z.lor link page)).
Definition sg_set_page (m : sg_mem) (p page len offset : Z) : outcome sg_mem :=
  sg_update m p (fun sg => sg ← sg_assign_page page sg; Ok (Scatterlist (page_link sg) offset len)).

Section Layout.
Context (L : layout) (mem_map : Z).

Definition virt_to_phys (vaddr : Z) : Z := u64 (vaddr - va_pa_offset L).
Definition pfn_to_page (pfn : Z) : Z := u64 (mem_map + SIZEOF_PAGE * (pfn - pfn_base L)).
Definition page_to_pfn (page : Z) : Z := u64 (Z.quot (s64 (page - mem_map)) SIZEOF_PAGE + pfn_base L).
Definition virt_to_page (vaddr : Z) : Z := pfn_to_page (virt_to_pfn L vaddr).
Definition page_to_phys (page : Z) : Z := PFN_PHYS (page_to_pfn page).
Definition offset_in_page (p : Z) : Z := Z.land p (PAGE_SIZE - 1).

Definition sg_set_buf (m : sg_mem) (p buf buflen : Z) : outcome sg_mem :=
  sg_set_page m p (virt_to_page buf) buflen (offset_in_page buf).
Definition sg_init_one (m : sg_mem) (p buf buflen : Z) : outcome sg_mem :=
  m ← sg_init_table m p 1; sg_set_buf m p buf buflen.
Definition sg_phys (sg : scatterlist) : Z := u64 (page_to_phys (sg_page sg) + sg_offset sg).
End Layout.

(** ** Traversal *)

(** [for (sg = p; sg; sg = sg_next(sg)) body] *)
Fixpoint for_each_sg {S} (fuel : nat) (m : sg_mem) (body : scatterlist -> ST S unit) (p : Z) : ST S unit :=
  match fuel with
  | O => fun _ => NoFuel
  | S f =>
      if p =? 0 then mret tt
      else sg ← st_lift (deref (m !! p)); body sg;; p ← st_lift (sg_next m p); for_each_sg f m body p
  end.

(** The entries of the list at [p], as [sg_next] links them. *)
Inductive sg_list (m : sg_mem) : Z -> list scatterlist -> Prop :=
  | sg_list_nil : sg_list m 0 []
  | sg_list_cons p sg q l : p <> 0 -> m !! p = Some sg -> sg_next m p = Ok q -> sg_list m q l -> sg_list m p (sg :: l).

(** Applying a body to the entries one after the other. *)
Fixpoint each {A S} (l : list A) (body : A -> ST S unit) : ST S unit :=
  match l with [] => mret tt | x :: l => body x;; each l body end.

Lemma for_each_sg_ok {S} m (body : scatterlist -> ST S unit) p l fuel s : sg_list m p l -> (length l < fuel)%nat ->
  for_each_sg fuel m body p s = each l body s.
Proof.
  intros H. revert fuel s. induction H as [|p sg q l Hp E N _ IH]; intros [|fuel] s Hf; try (simpl in Hf; lia); simpl.
  - reflexivity.
  - destruct (Z.eqb_spec p 0); [lia|]. unfold mbind, st_bind, st_lift. rewrite E, N. simpl.
    destruct (body sg s) as [[u s']| | |]; [|reflexivity..]. apply IH. simpl in Hf. lia.
Qed.

(** ** Entries made by [sg_init_one] *)

Lemma marked_page page x : is_u64 page -> page mod 4 = 0 -> 0 <= x < 4 -> Z.lor x page = page + x.
Proof.
  intros Hp H4 Hx. rewrite Z.lor_comm. apply lor_add_disjoint. bits k Hk. rewrite Z.bits_0.
  destruct (Z.lt_ge_cases k 2).
  - rewrite (proj1 (mod_pow2_zero_bits page 2 ltac:(lia)) H4 k) by lia. reflexivity.
  - rewrite <- (Z.mod_small x (2 ^ 2)), Z.mod_pow2_bits_high by lia. apply andb_false_r.
Qed.

Lemma marked_page_ptr page x : is_u64 (page + x) -> page mod 4 = 0 -> 0 <= x < 4 ->
  Z.land (page + x) (u64 (Z.lnot (Z.lor SG_CHAIN SG_END))) = page.
Proof.
  intros Hu H4 Hx. change (Z.lor SG_CHAIN SG_END) with (2 ^ 2 - 1). rewrite land_not_ones by (assumption || lia).
  change (2 ^ 2) with 4. rewrite Z.add_mod, H4, Z.add_0_l, Z.mod_mod, Z.mod_small by lia. lia.
Qed.

(** The page array reaches the page of [buf] and the linear map is page
    aligned. *)
Definition buf_mapped (L : layout) (mem_map buf : Z) : Prop :=
  is_u64 buf /\ is_u64 (pfn_base L) /\ 0 <= mem_map /\ mem_map mod 4 = 0 /\ va_pa_offset L mod PAGE_SIZE = 0 /\
  0 <= virt_to_pfn L buf - pfn_base L /\ SIZEOF_PAGE * (virt_to_pfn L buf - pfn_base L) < 2 ^ 63 /\
  mem_map + SIZEOF_PAGE * (virt_to_pfn L buf - pfn_base L) + 3 < 2 ^ 64.

Lemma virt_to_pfn_range L buf : 0 <= virt_to_pfn L buf < 2 ^ 52.
Proof.
  unfold virt_to_pfn, PFN_DOWN, PAGE_SHIFT. rewrite Z.shiftr_div_pow2 by lia.
  pose proof (u64_nonneg_lt (buf - va_pa_offset L)). split; [apply Z.div_pos; lia|apply Z.div_lt_upper_bound; lia].
Qed.

Lemma buf_phys L mem_map buf : buf_mapped L mem_map buf ->
  u64 (page_to_phys L mem_map (virt_to_page L mem_map buf) + offset_in_page buf) = virt_to_phys L buf.
Proof.
  intros (Hb & Hp & H0 & H4 & Hv & H1 & H2 & H3). pose proof (virt_to_pfn_range L buf) as Hr.
  unfold page_to_phys, page_to_pfn, virt_to_page, pfn_to_page. unfold SIZEOF_PAGE in *.
  set (i := virt_to_pfn L buf - pfn_base L) in *.
  rewrite (u64_small (mem_map + 104 * i)) by (unfold is_u64; lia).
  replace (mem_map + 104 * i - mem_map) with (i * 104) by lia. rewrite s64_small by lia.
  rewrite Z.quot_mul by lia. replace (i + pfn_base L) with (virt_to_pfn L buf) by (unfold i; lia).
  rewrite (u64_small (virt_to_pfn L buf)) by (unfold is_u64; lia). unfold PFN_PHYS, virt_to_phys, offset_in_page, PAGE_SIZE, PAGE_SHIFT in *.
  rewrite land_ones_mod by lia. unfold virt_to_pfn, PFN_DOWN, PAGE_SHIFT. rewrite Z.shiftl_mul_pow2, Z.shiftr_div_pow2 by lia.
  set (pa := u64 (buf - va_pa_offset L)). pose proof (u64_range (buf - va_pa_offset L)) as Hpa. fold pa in Hpa.
  assert (buf mod 2 ^ 12 = pa mod 2 ^ 12) as ->.
  { unfold pa, u64. rewrite Z.mod_mod_divide by (exists (2 ^ 52); reflexivity).
    rewrite Zminus_mod, Hv, Z.sub_0_r, Z.mod_mod by lia. reflexivity. }
  pose proof (Z.div_mod pa (2 ^ 12) ltac:(lia)). pose proof (Z.mod_pos_bound pa (2 ^ 12) ltac:(lia)). unfold is_u64 in Hpa.
  rewrite (u64_small (pa / 2 ^ 12 * 2 ^ 12)) by (unfold is_u64; lia).
  replace (pa / 2 ^ 12 * 2 ^ 12 + pa mod 2 ^ 12) with pa by lia. apply u64_small. exact Hpa.
Qed.

(** [sg_init_one] makes a list of one entry that names exactly the buffer. *)
Lemma sg_init_one_ok L mem_map m p buf buflen sg0 : buf_mapped L mem_map buf -> m !! p = Some sg0 ->
  exists sg, sg_init_one L mem_map m p buf buflen = Ok (<[p := sg]> m) /\ sg_is_last sg = true /\
    sg_phys L mem_map sg = virt_to_phys L buf /\ sg_length sg = buflen.
Proof.
  intros Hm E. pose proof (buf_phys _ _ _ Hm) as Hb. destruct Hm as (Hu & _ & H0 & H4 & _ & H1 & H2 & H3).
  assert (is_u64 (virt_to_page L mem_map buf) /\ virt_to_page L mem_map buf mod 4 = 0 /\ is_u64 (virt_to_page L mem_map buf + 2)) as (P1 & P2 & P3).
  { unfold virt_to_page, pfn_to_page. unfold SIZEOF_PAGE in *. rewrite u64_small by (unfold is_u64; lia).
    split; [unfold is_u64; lia|]. split; [|unfold is_u64; lia]. rewrite Z.add_mod, H4 by lia.
    replace (104 * (virt_to_pfn L buf - pfn_base L)) with (26 * (virt_to_pfn L buf - pfn_base L) * 4) by lia.
    rewrite Z.mod_mul by lia. reflexivity. }
  set (page := virt_to_page L mem_map buf) in *.
  exists (Scatterlist (page + 2) (offset_in_page buf) buflen).
  assert (sg_init_one L mem_map m p buf buflen = Ok (<[p := Scatterlist (page + 2) (offset_in_page buf) buflen]> m)) as ->.
  { unfold sg_init_one, sg_init_table. change (Z.to_nat 1) with 1%nat. cbn [sg_clear]. unfold sg_update at 1. rewrite E.
    cbn [deref mbind outcome_bind]. unfold sg_init_marker, sg_mark_end, sg_update. change (u32 (1 - 1)) with 0.
    replace (p + SIZEOF_SG * 0) with p by lia. rewrite lookup_insert_eq. cbn [deref mbind outcome_bind page_link].
    unfold sg_set_buf, sg_set_page, sg_update. fold page. rewrite lookup_insert_eq. cbn [deref mbind outcome_bind].
    unfold sg_assign_page. change (Z.lor SG_CHAIN SG_END) with (2 ^ 2 - 1). rewrite (land_ones_mod page) by lia.
    change (2 ^ 2) with 4. rewrite P2. unfold set_page_link. cbn [page_link sg_offset sg_length]. change (Z.land _ (4 - 1)) with 2.
    rewrite (marked_page page 2) by (assumption || lia). rewrite Z.eqb_refl. cbn. rewrite !insert_insert_eq. reflexivity. }
  split; [reflexivity|]. split; [|split; [|reflexivity]].
  - assert (Z.land (page + 2) SG_END = 2) as Hl.
    { rewrite <- marked_page by (assumption || lia). unfold SG_END. bits k Hk.
      destruct (Z.testbit 2 k); [reflexivity|apply andb_false_r]. }
    unfold sg_is_last. cbn [page_link]. rewrite Hl. reflexivity.
  - unfold sg_phys, sg_page. cbn [page_link sg_offset]. rewrite marked_page_ptr by (assumption || lia). exact Hb.
Qed.
