(* ===== verification/VirtioRing.v ===== *)
(** * virtio/virtio_ring.c and include/virtio_ring.h: split virtqueues

    A virtqueue is the record [virtqueue]: the fields the driver keeps for
    itself, the ring memory it shares with the device (descriptors, available
    ring, used ring) and the indirect descriptor tables it has allocated, by
    address.  Indices are kept at their C widths ([u16] for ring indices, [u32]
    for counts).  An array access out of range faults.  The allocator of tables
    is an argument; what it promises is the class [TableAlloc].  The transport's
    [notify] callback is an argument that gives its result; the number of
    notifications sent is a field, since the device sees them. *)

From Stdlib Require Import ZArith Lia.
From stdpp Require Import base tactics numbers list gmap strings.
From S2P Require Import Prelude Words Mem Memblock Buddy Scatterlist.

(** ** Data *)

Definition VRING_DESC_F_NEXT : Z := 1.
Definition VRING_DESC_F_WRITE : Z := 2.
Definition VRING_DESC_F_INDIRECT : Z := 4.
Definition VIRTIO_RING_F_INDIRECT_DESC : Z := 28.
Definition VIRTIO_RING_F_EVENT_IDX : Z := 29.
Definition VIRTIO_F_VERSION_1 : Z := 32.
Definition VIRTIO_F_ACCESS_PLATFORM : Z := 33.
Definition VIRTIO_F_RING_PACKED : Z := 34.
Definition VIRTIO_F_ORDER_PLATFORM : Z := 36.
Definition VIRTIO_TRANSPORT_F_START : Z := 28.
Definition VIRTIO_TRANSPORT_F_END : Z := 38.
Definition VRING_AVAIL_F_NO_INTERRUPT : Z := 1.
Definition SIZEOF_DESC : Z := 16.
Definition SIZEOF_USED_ELEM : Z := 8.

Record vring_desc := VringDesc { d_addr : Z; d_len : Z; d_flags : Z; d_next : Z }.
Record vring_used_elem := UsedElem { u_id : Z; u_len : Z }.
Record vring_desc_state := DescState { data : Z; indir_desc : Z }.
(** The parts of the ring as addresses. *)
Record vring := Vring { num : Z; p_desc : Z; p_avail : Z; p_used : Z }.

Record virtqueue := Virtqueue {
  has_callback : bool;
  vq_index : Z;
  packed_ring : bool;
  use_dma_api : bool;
  weak_barriers : bool;
  indirect : bool;
  event : bool;
  we_own_ring : bool;
  queue_dma_addr : Z;
  queue_size_in_bytes : Z;
  vq_vring : vring;
  broken : bool;
  num_free : Z;
  free_head : Z;
  num_added : Z;
  last_used_idx : Z;
  avail_flags_shadow : Z;
  avail_idx_shadow : Z;
  desc_state : list vring_desc_state;
  desc : list vring_desc;
  avail_idx : Z;
  avail_ring : list Z;
  used_idx : Z;
  used_ring : list vring_used_elem;
  tables : gmap Z (list vring_desc);
  notified : Z }.

Definition vq_num (vq : virtqueue) : Z := num (vq_vring vq).

Definition set_driver (vq : virtqueue) (broken : bool) (num_free free_head num_added last_used_idx : Z) : virtqueue :=
  let '(Virtqueue a b c d e f g h i j k _ _ _ _ _ q r s t u v w x y z) := vq in
  Virtqueue a b c d e f g h i j k broken num_free free_head num_added last_used_idx q r s t u v w x y z.
Definition set_broken vq v := set_driver vq v (num_free vq) (free_head vq) (num_added vq) (last_used_idx vq).
Definition set_num_free vq v := set_driver vq (broken vq) (u32 v) (free_head vq) (num_added vq) (last_used_idx vq).
Definition set_free_head vq v := set_driver vq (broken vq) (num_free vq) v (num_added vq) (last_used_idx vq).
Definition set_num_added vq v := set_driver vq (broken vq) (num_free vq) (free_head vq) (u32 v) (last_used_idx vq).
Definition set_last_used_idx vq v := set_driver vq (broken vq) (num_free vq) (free_head vq) (num_added vq) (u16 v).

Definition set_shared (vq : virtqueue) (avail_flags_shadow avail_idx_shadow : Z) (desc_state : list vring_desc_state)
    (desc : list vring_desc) (avail_idx : Z) (avail_ring : list Z) : virtqueue :=
  let '(Virtqueue a b c d e f g h i j k l m n o p _ _ _ _ _ _ w x y z) := vq in
  Virtqueue a b c d e f g h i j k l m n o p avail_flags_shadow avail_idx_shadow desc_state desc avail_idx avail_ring w x y z.
Definition set_avail_flags_shadow vq v := set_shared vq (u16 v) (avail_idx_shadow vq) (desc_state vq) (desc vq) (avail_idx vq) (avail_ring vq).
Definition set_avail_idx_shadow vq v := set_shared vq (avail_flags_shadow vq) (u16 v) (desc_state vq) (desc vq) (avail_idx vq) (avail_ring vq).
Definition set_desc_state vq v := set_shared vq (avail_flags_shadow vq) (avail_idx_shadow vq) v (desc vq) (avail_idx vq) (avail_ring vq).
Definition set_desc vq v := set_shared vq (avail_flags_shadow vq) (avail_idx_shadow vq) (desc_state vq) v (avail_idx vq) (avail_ring vq).
Definition set_avail_idx vq v := set_shared vq (avail_flags_shadow vq) (avail_idx_shadow vq) (desc_state vq) (desc vq) (u16 v) (avail_ring vq).
Definition set_avail_ring vq v := set_shared vq (avail_flags_shadow vq) (avail_idx_shadow vq) (desc_state vq) (desc vq) (avail_idx vq) v.

Definition set_device (vq : virtqueue) (used_idx : Z) (used_ring : list vring_used_elem) (tables : gmap Z (list vring_desc)) (notified : Z) : virtqueue :=
  let '(Virtqueue a b c d e f g h i j k l m n o p q r s t u v _ _ _ _) := vq in
  Virtqueue a b c d e f g h i j k l m n o p q r s t u v used_idx used_ring tables notified.
Definition set_used vq idx ring := set_device vq idx ring (tables vq) (notified vq).
Definition set_tables vq v := set_device vq (used_idx vq) (used_ring vq) v (notified vq).
Definition set_notified vq v := set_device vq (used_idx vq) (used_ring vq) (tables vq) v.

Abbreviation VQ := (ST virtqueue).
Definition upd_vq (f : virtqueue -> virtqueue) : VQ unit := fun vq => Ok (tt, f vq).
(** [vq->...[i] = x] on one of the arrays. *)
Definition vq_aset {A} (get : virtqueue -> list A) (set : virtqueue -> list A -> virtqueue) (i : Z) (x : A) : VQ unit :=
  vq ← st_get; l ← st_lift (aset (get vq) i x); st_put (set vq l).
Definition vq_desc (i : Z) : VQ vring_desc := vq ← st_get; st_lift (aget (desc vq) i).
Definition vq_state (i : Z) : VQ vring_desc_state := vq ← st_get; st_lift (aget (desc_state vq) i).

(** ** Feature bits *)

Record virtio_device := VirtioDevice {
  features : Z;
  feature_table : list Z;
  feature_table_legacy : option (list Z);
  vqs : list Z }.
Definition set_features (vdev : virtio_device) (f : Z) : virtio_device :=
  VirtioDevice f (feature_table vdev) (feature_table_legacy vdev) (vqs vdev).

Definition __virtio_set_bit (vdev : virtio_device) (fbit : Z) : outcome virtio_device :=
  bug_on (64 <=? fbit) "BUG_ON";; Ok (set_features vdev (Z.lor (features vdev) (u64 (Z.shiftl 1 fbit)))).
Definition __virtio_clear_bit (vdev : virtio_device) (fbit : Z) : outcome virtio_device :=
  bug_on (64 <=? fbit) "BUG_ON";; Ok (set_features vdev (Z.land (features vdev) (u64 (Z.lnot (u64 (Z.shiftl 1 fbit)))))).
Definition __virtio_test_bit (vdev : virtio_device) (fbit : Z) : outcome bool :=
  bug_on (64 <=? fbit) "BUG_ON";; Ok (negb (Z.land (features vdev) (u64 (Z.shiftl 1 fbit)) =? 0)).
Definition virtio_check_driver_offered_feature (vdev : virtio_device) (fbit : Z) : outcome unit :=
  if existsb (Z.eqb fbit) (feature_table vdev) then Ok tt
  else match feature_table_legacy vdev with
       | Some t => if existsb (Z.eqb fbit) t then Ok tt else Panic "BUG"
       | None => Panic "BUG"
       end.
Definition virtio_has_feature (vdev : virtio_device) (fbit : Z) : outcome bool :=
  (if fbit <? VIRTIO_TRANSPORT_F_START then virtio_check_driver_offered_feature vdev fbit else Ok tt);;
  __virtio_test_bit vdev fbit.

(** The transport bits this code knows: the cases of the switch. *)
Definition known_transport_bit (i : Z) : bool :=
  existsb (Z.eqb i) [VIRTIO_RING_F_INDIRECT_DESC; VIRTIO_RING_F_EVENT_IDX; VIRTIO_F_VERSION_1;
                     VIRTIO_F_ACCESS_PLATFORM; VIRTIO_F_RING_PACKED; VIRTIO_F_ORDER_PLATFORM].
Fixpoint transport_features_loop (n : nat) (vdev : virtio_device) (i : Z) : outcome virtio_device :=
  match n with
  | O => Ok vdev
  | S n' =>
      vdev ← (if known_transport_bit i then Ok vdev else __virtio_clear_bit vdev i);
      transport_features_loop n' vdev (i + 1)
  end.
Definition vring_transport_features (vdev : virtio_device) : outcome virtio_device :=
  transport_features_loop (Z.to_nat (VIRTIO_TRANSPORT_F_END - VIRTIO_TRANSPORT_F_START)) vdev VIRTIO_TRANSPORT_F_START.

(** ** Making a queue *)

Definition vring_size (num align : Z) : Z :=
  let ret := u32 (SIZEOF_DESC * num + 2 * u32 (3 + num)) in
  let ret := u32 (_ALIGN ret align) in
  let ret := u32 (ret + 2 * 3) in
  u32 (ret + SIZEOF_USED_ELEM * num).

(** [ring] of [struct vring_avail] is at offset 4. *)
Definition vring_init (num p align : Z) : vring :=
  let avail := u64 (p + num * SIZEOF_DESC) in
  Vring num p avail (_ALIGN (u64 (avail + 4 + 2 * num + 2)) align).

(** [for (i = 0; i < vring.num-1; i++) desc[i].next = (u16)(i + 1)] *)
Fixpoint link_free_loop (n : nat) (desc : list vring_desc) (i : Z) : outcome (list vring_desc) :=
  match n with
  | O => Ok desc
  | S n' =>
      d ← aget desc i;
      desc ← aset desc i (VringDesc (d_addr d) (d_len d) (d_flags d) (u16 (i + 1)));
      link_free_loop n' desc (i + 1)
  end.

(** The result is null when an allocation fails; [vq_mem] and [state_mem] say
    whether the two allocations succeed.  The shared memory is given by its
    contents.  The device is returned because the queue is put on its list. *)
Definition __vring_new_virtqueue (vq_mem state_mem : bool) (index : Z) (vr : vring)
    (desc0 : list vring_desc) (avail_idx0 : Z) (avail_ring0 : list Z) (used_idx0 : Z) (used_ring0 : list vring_used_elem)
    (vdev : virtio_device) (weak context callback : bool) : outcome (option virtqueue * virtio_device) :=
  packed ← virtio_has_feature vdev VIRTIO_F_RING_PACKED;
  if (packed : bool) then Panic "unsupport ring packed!"
  else if negb vq_mem then Ok (None, vdev)
  else
    let vdev := VirtioDevice (features vdev) (feature_table vdev) (feature_table_legacy vdev) (vqs vdev ++ [index]) in
    ind ← virtio_has_feature vdev VIRTIO_RING_F_INDIRECT_DESC;
    ev ← virtio_has_feature vdev VIRTIO_RING_F_EVENT_IDX;
    bug_on (negb ev) "BUG_ON";;
    order ← virtio_has_feature vdev VIRTIO_F_ORDER_PLATFORM;
    let flags := if callback then 0 else VRING_AVAIL_F_NO_INTERRUPT in
    if negb state_mem then Ok (None, vdev)
    else
      desc ← link_free_loop (Z.to_nat (u32 (num vr - 1))) desc0 0;
      Ok (Some (Virtqueue callback index false false (if (order : bool) then false else weak) (ind && negb context) ev false 0 0 vr
                 false (num vr) 0 0 0 flags 0
                 (replicate (Z.to_nat (num vr)) (DescState 0 0)) desc avail_idx0 avail_ring0 used_idx0 used_ring0 ∅ 0), vdev).

(** The loop that tries smaller queues; [alloc_pages_exact] gives the address
    of a cleared area, 0 when there is none. *)
Section Create.
Context (L : layout) (alloc_pages_exact : Z -> Z).

Definition vring_alloc_queue (vdev : virtio_device) (size : Z) : outcome (Z * Z) :=
  let queue := alloc_pages_exact (PAGE_ALIGN size) in
  access ← virtio_has_feature vdev VIRTIO_F_ACCESS_PLATFORM;
  bug_on access "BUG_ON";;
  Ok (queue, if queue =? 0 then 0 else virt_to_phys L queue).

Fixpoint create_queue_loop (fuel : nat) (vdev : virtio_device) (may_reduce_num : bool) (align n : Z) : outcome (option (Z * Z * Z)) :=
  match fuel with
  | O => NoFuel
  | S f =>
      if negb (n =? 0) && (PAGE_SIZE <? vring_size n align) then
        '(queue, dma) ← vring_alloc_queue vdev (vring_size n align);
        if negb (queue =? 0) then Ok (Some (n, queue, dma))
        else if negb may_reduce_num then Ok None
        else create_queue_loop f vdev may_reduce_num align (n / 2)
      else Ok (Some (n, 0, 0))
  end.

Definition vring_create_virtqueue_split (vq_mem state_mem : bool) (index n align : Z) (vdev : virtio_device)
    (weak may_reduce_num context callback : bool) : outcome (option virtqueue * virtio_device) :=
  if negb (Z.land n (u32 (n - 1)) =? 0) then Panic "Bad virtqueue length"
  else
    r ← create_queue_loop 33 vdev may_reduce_num align n;
    match r with
    | None => Ok (None, vdev)
    | Some (n, queue, dma) =>
        if n =? 0 then Ok (None, vdev)
        else
          '(queue, dma) ← (if queue =? 0 then vring_alloc_queue vdev (vring_size n align) else Ok (queue, dma));
          if queue =? 0 then Ok (None, vdev)
          else
            let size := vring_size n align in
            let cnt := Z.to_nat n in
            '(vq, vdev) ← __vring_new_virtqueue vq_mem state_mem index (vring_init n queue align)
                            (replicate cnt (VringDesc 0 0 0 0)) 0 (replicate (S cnt) 0) 0 (replicate cnt (UsedElem 0 0))
                            vdev weak context callback;
            match vq with
            | None => Ok (None, vdev)
            | Some (Virtqueue a b c d e f g _ _ _ k l m n' o p q r s t u v w x y z) =>
                Ok (Some (Virtqueue a b c d e f g true dma size k l m n' o p q r s t u v w x y z), vdev)
            end
    end.
End Create.
Definition vring_create_virtqueue := vring_create_virtqueue_split.

Definition virtqueue_get_vring_size (vq : virtqueue) : Z := vq_num vq.
Definition virtqueue_get_desc_addr (vq : virtqueue) : outcome Z :=
  bug_on (negb (we_own_ring vq)) "BUG_ON";; Ok (queue_dma_addr vq).

(** ** Adding buffers *)

Definition virtqueue_use_indirect (vq : virtqueue) (total_sg : Z) : bool :=
  indirect vq && (1 <? total_sg) && negb (num_free vq =? 0).

(** [vq->notify(vq)] has the result [notify]. *)
Definition virtqueue_notify (notify : bool) : VQ bool :=
  vq ← st_get;
  if broken vq then mret false
  else
    upd_vq (fun vq => set_notified vq (notified vq + 1));;
    if negb notify then upd_vq (fun vq => set_broken vq true);; mret false
    else mret true.
Definition virtqueue_kick (notify : bool) : VQ bool := virtqueue_notify notify.

(** [for (i = 0; i < total_sg; i++) desc[i].next = i + 1] *)
Fixpoint link_table (l : list vring_desc) (i : Z) : list vring_desc :=
  match l with
  | [] => []
  | d :: l => VringDesc (d_addr d) (d_len d) (d_flags d) (u16 (i + 1)) :: link_table l (i + 1)
  end.

Section Code.
Context (L : layout) (mem_map : Z).
Context (kmalloc_array : gmap Z (list vring_desc) -> Z -> option (Z * list vring_desc)).

Definition alloc_indirect_split (total_sg : Z) : VQ (Z * list vring_desc) :=
  vq ← st_get;
  match kmalloc_array (tables vq) total_sg with
  | None => st_panic "out of memory!"
  | Some (p, table) => mret (p, link_table table 0)
  end.

Definition vring_map_one_sg (sg : scatterlist) : Z := sg_phys L mem_map sg.
Definition vring_map_single (cpu_addr : Z) : Z := virt_to_phys L cpu_addr.

(** The table that is being filled, the next index and the previous one. *)
Definition filling : Type := list vring_desc * Z * Z.
Definition fill_one (flags : Z) (sg : scatterlist) : ST filling unit := fun '(table, i, prev) =>
  d ← aget table i;
  table ← aset table i (VringDesc (vring_map_one_sg sg) (sg_length sg) flags (d_next d));
  Ok (tt, (table, d_next d, i)).

(** [for (; n < end; n++) for (sg = sgs[n]; sg; sg = sg_next(sg)) ...] *)
Fixpoint for_each_list {S} (fuel cnt : nat) (sgm : sg_mem) (sgs : list Z) (n : Z) (body : scatterlist -> ST S unit) : ST S unit :=
  match cnt with
  | O => mret tt
  | S c =>
      p ← st_lift (aget sgs n);
      for_each_sg fuel sgm body p;;
      for_each_list fuel c sgm sgs (n + 1) body
  end.

Definition fill_table (fuel : nat) (sgm : sg_mem) (sgs : list Z) (out_sgs in_sgs : Z) (table : list vring_desc) : outcome (list vring_desc) :=
  '(_, s) ← for_each_list fuel (Z.to_nat out_sgs) sgm sgs 0 (fill_one VRING_DESC_F_NEXT) (table, 0, -1);
  '(_, s) ← for_each_list fuel (Z.to_nat in_sgs) sgm sgs out_sgs (fill_one (Z.lor VRING_DESC_F_NEXT VRING_DESC_F_WRITE)) s;
  let '(table, _, prev) := s : filling in
  d ← aget table prev;
  aset table prev (VringDesc (d_addr d) (d_len d) (Z.land (d_flags d) (Z.lnot VRING_DESC_F_NEXT)) (d_next d)).

Definition virtqueue_add_split (notify : bool) (fuel : nat) (sgm : sg_mem) (sgs : list Z) (total_sg out_sgs in_sgs data : Z) : VQ Z :=
  vq ← st_get;
  st_lift (bug_on (negb (virtqueue_use_indirect vq total_sg)) "BUG_ON");;
  let head := free_head vq in
  '(p, table) ← alloc_indirect_split total_sg;
  table ← st_lift (fill_table fuel sgm sgs out_sgs in_sgs table);
  upd_vq (fun vq => set_tables vq (<[p := table]> (tables vq)));;
  d ← vq_desc head;
  vq_aset desc set_desc head (VringDesc (vring_map_single p) (u32 (total_sg * SIZEOF_DESC)) VRING_DESC_F_INDIRECT (d_next d));;
  upd_vq (fun vq => set_num_free vq (num_free vq - 1));;
  d ← vq_desc head;
  upd_vq (fun vq => set_free_head vq (d_next d));;
  vq_aset desc_state set_desc_state head (DescState data p);;
  vq ← st_get;
  let avail := Z.land (avail_idx_shadow vq) (u32 (vq_num vq - 1)) in
  vq_aset avail_ring set_avail_ring avail (u16 head);;
  upd_vq (fun vq => set_avail_idx_shadow vq (avail_idx_shadow vq + 1));;
  upd_vq (fun vq => set_avail_idx vq (avail_idx_shadow vq));;
  upd_vq (fun vq => set_num_added vq (num_added vq + 1));;
  vq ← st_get;
  (if num_added vq =? 2 ^ 16 - 1 then virtqueue_kick notify;; mret tt else mret tt);;
  mret 0.
Definition virtqueue_add := virtqueue_add_split.

Definition virtqueue_add_sgs (notify : bool) (fuel : nat) (sgm : sg_mem) (sgs : list Z) (out_sgs in_sgs data : Z) : VQ Z :=
  '(_, total_sg) ← st_lift (for_each_list fuel (Z.to_nat (u32 (out_sgs + in_sgs))) sgm sgs 0 (fun _ n => Ok (tt, u32 (n + 1))) 0);
  virtqueue_add notify fuel sgm sgs total_sg out_sgs in_sgs data.
End Code.

(** ** Taking buffers back *)

Definition more_used_split (vq : virtqueue) : bool := negb (last_used_idx vq =? used_idx vq).
Definition more_used := more_used_split.

Inductive irqreturn := IRQ_NONE | IRQ_HANDLED.
(** [callback] is the queue's callback, with what it reports. *)
Definition vring_interrupt {A} (callback : VQ A) : VQ (irqreturn * option A) :=
  vq ← st_get;
  if negb (more_used vq) then mret (IRQ_NONE, None)
  else if broken vq then mret (IRQ_HANDLED, None)
  else r ← (if has_callback vq then r ← callback; mret (Some r) else mret None); mret (IRQ_HANDLED, r).

Definition virtqueue_disable_cb_split : VQ unit :=
  upd_vq (fun vq =>
    if Z.land (avail_flags_shadow vq) VRING_AVAIL_F_NO_INTERRUPT =? 0
    then set_avail_flags_shadow vq (Z.lor (avail_flags_shadow vq) VRING_AVAIL_F_NO_INTERRUPT) else vq).
Definition virtqueue_disable_cb := virtqueue_disable_cb_split.

Definition allow_interrupts (vq : virtqueue) : virtqueue :=
  if negb (Z.land (avail_flags_shadow vq) VRING_AVAIL_F_NO_INTERRUPT =? 0)
  then set_avail_flags_shadow vq (Z.land (avail_flags_shadow vq) (Z.lnot VRING_AVAIL_F_NO_INTERRUPT)) else vq.
(** [vring_used_event(vr)] is the entry of the available ring at [num]. *)
Definition virtqueue_enable_cb_prepare_split : VQ Z :=
  upd_vq allow_interrupts;;
  vq ← st_get;
  vq_aset avail_ring set_avail_ring (vq_num vq) (last_used_idx vq);;
  mret (last_used_idx vq).
Definition virtqueue_enable_cb_prepare := virtqueue_enable_cb_prepare_split.

Definition virtqueue_poll_split (vq : virtqueue) (last_used : Z) : bool := negb (u16 last_used =? used_idx vq).
Definition virtqueue_poll (last_used : Z) : VQ bool :=
  vq ← st_get; mret (if broken vq then false else virtqueue_poll_split vq last_used).

Definition virtqueue_enable_cb : VQ bool :=
  last_used ← virtqueue_enable_cb_prepare;
  more ← virtqueue_poll last_used;
  mret (negb more).

Definition vring_unmap_one_split : VQ unit :=
  vq ← st_get; if negb (use_dma_api vq) then mret tt else st_panic "use dma api!".

(** Walks to the end of a chain of first-level descriptors; a chain longer than
    the ring is a cycle, on which the C loop does not end. *)
Fixpoint detach_loop (fuel : nat) (i : Z) : VQ Z :=
  match fuel with
  | O => fun _ => NoFuel
  | S f =>
      d ← vq_desc i;
      if Z.land (d_flags d) VRING_DESC_F_NEXT =? 0 then mret i
      else
        vring_unmap_one_split;;
        upd_vq (fun vq => set_num_free vq (num_free vq + 1));;
        detach_loop f (d_next d)
  end.

Fixpoint unmap_loop (n : nat) : VQ unit :=
  match n with O => mret tt | S n' => vring_unmap_one_split;; unmap_loop n' end.

Definition detach_buf_split (head : Z) : VQ unit :=
  s ← vq_state head;
  vq_aset desc_state set_desc_state head (DescState 0 (indir_desc s));;
  vq ← st_get;
  i ← detach_loop (S (length (desc vq))) head;
  vring_unmap_one_split;;
  d ← vq_desc i;
  vq ← st_get;
  vq_aset desc set_desc i (VringDesc (d_addr d) (d_len d) (d_flags d) (u16 (free_head vq)));;
  upd_vq (fun vq => set_free_head vq head);;
  upd_vq (fun vq => set_num_free vq (num_free vq + 1));;
  vq ← st_get;
  if indirect vq then
    s ← vq_state head;
    if indir_desc s =? 0 then mret tt
    else
      d ← vq_desc head;
      let len := d_len d in
      st_lift (bug_on (Z.land (d_flags d) VRING_DESC_F_INDIRECT =? 0) "BUG_ON");;
      st_lift (bug_on ((len =? 0) || negb (len mod SIZEOF_DESC =? 0)) "BUG_ON");;
      unmap_loop (Z.to_nat (len / SIZEOF_DESC));;
      upd_vq (fun vq => set_tables vq (delete (indir_desc s) (tables vq)));;
      vq_aset desc_state set_desc_state head (DescState (data s) 0)
  else st_panic "not indirect!".

(** Null and no length when there is nothing to take. *)
Definition virtqueue_get_buf_ctx_split : VQ (Z * option Z) :=
  vq ← st_get;
  if broken vq then mret (0, None)
  else if negb (more_used_split vq) then mret (0, None)
  else
    let last_used := Z.land (last_used_idx vq) (u32 (vq_num vq - 1)) in
    e ← st_lift (aget (used_ring vq) last_used);
    let i := u_id e in
    if vq_num vq <=? i then st_panic "id out of range"
    else
      s ← vq_state i;
      if data s =? 0 then st_panic "id is not a head!"
      else
        detach_buf_split i;;
        upd_vq (fun vq => set_last_used_idx vq (last_used_idx vq + 1));;
        mret (data s, Some (u_len e)).
Definition virtqueue_get_buf_ctx := virtqueue_get_buf_ctx_split.
Definition virtqueue_get_buf := virtqueue_get_buf_ctx.
