(* ===== verification/VirtioSpec.v ===== *)
(** * The contract of the virtqueues

    The driver's queue [VirtioRing] and a device that follows the virtio
    protocol are put side by side: the device only reads the available ring and
    the descriptors and writes the used ring.  The specification is three lists
    of requests, waiting, being worked on, and finished.  The refinement theorem
    says that in any order of calls the code behaves as the specification. *)

From Stdlib Require Import ZArith Lia.
From stdpp Require Import base tactics numbers list gmap strings.
From S2P Require Import Prelude Words Mem Memblock Buddy Scatterlist VirtioRing.

(** ** The device *)

(** What the device keeps: how far it has read the available ring, and the
    descriptors it is working on. *)
Record device := Device { last_avail : Z; fetched : list Z }.

(** A buffer: address, length, and whether the device may write it. *)
Definition buffer : Type := Z * Z * bool.

(** The device follows a table from entry [i] on. *)
Fixpoint walk_table (fuel : nat) (table : list vring_desc) (i : Z) : outcome (list buffer) :=
  match fuel with
  | O => NoFuel
  | S f =>
      d ← aget table i;
      let b := (d_addr d, d_len d, negb (Z.land (d_flags d) VRING_DESC_F_WRITE =? 0)) in
      if Z.land (d_flags d) VRING_DESC_F_NEXT =? 0 then Ok [b]
      else l ← walk_table f table (d_next d); Ok (b :: l)
  end.

Section System.
Context (L : layout) (mem_map : Z).

(** The buffers behind the descriptor [head], as the device finds them. *)
Definition device_view (vq : virtqueue) (head : Z) : outcome (list buffer) :=
  d ← aget (desc vq) head;
  if Z.land (d_flags d) VRING_DESC_F_INDIRECT =? 0 then Fault
  else
    table ← deref (tables vq !! phys_to_virt (va_pa_offset L) (d_addr d));
    if d_len d =? SIZEOF_DESC * Z.of_nat (length table) then walk_table (length table) table 0 else Fault.

(** The device takes the next available descriptor. *)
Definition device_fetch (vq : virtqueue) (dev : device) : outcome (list buffer * device) :=
  if last_avail dev =? avail_idx vq then Fault
  else
    head ← aget (avail_ring vq) (last_avail dev mod vq_num vq);
    view ← device_view vq head;
    Ok (view, Device (u16 (last_avail dev + 1)) (fetched dev ++ [head])).

(** The device finishes the [i]-th descriptor it works on. *)
Definition device_finish (i : nat) (len : Z) (vq : virtqueue) (dev : device) : outcome (virtqueue * device) :=
  head ← deref (fetched dev !! i);
  ring ← aset (used_ring vq) (used_idx vq mod vq_num vq) (UsedElem head len);
  Ok (set_used vq (u16 (used_idx vq + 1)) ring, Device (last_avail dev) (delete i (fetched dev))).

(** ** Calls and what they answer *)

Inductive call :=
  | Add (sgm : sg_mem) (outs ins : list Z) (token : Z)
  | Get
  | DisableCb
  | EnableCb
  | Notify
  | Fetch
  | Finish (i : nat) (len : Z).
Inductive answer :=
  | Done
  | Added (err : Z)
  | Taken (r : option (Z * Z))
  | Enabled (b : bool)
  | View (l : list buffer).

Context (kmalloc_array : gmap Z (list vring_desc) -> Z -> option (Z * list vring_desc)) (fuel : nat).

Definition sys : Type := virtqueue * device.
Definition driver (dev : device) {A} (m : VQ A) (f : A -> answer) (vq : virtqueue) : outcome (answer * sys) :=
  '(a, vq) ← m vq; Ok (f a, (vq, dev)).
Definition sys_call (c : call) (s : sys) : outcome (answer * sys) :=
  let '(vq, dev) := s in
  match c with
  | Add sgm outs ins token =>
      driver dev (virtqueue_add_sgs L mem_map kmalloc_array true fuel sgm (outs ++ ins) (Z.of_nat (length outs)) (Z.of_nat (length ins)) token)
        Added vq
  | Get => driver dev virtqueue_get_buf (fun r => Taken (match r.2 with Some len => Some (r.1, len) | None => None end)) vq
  | DisableCb => driver dev virtqueue_disable_cb (fun _ => Done) vq
  | EnableCb => driver dev virtqueue_enable_cb Enabled vq
  | Notify => driver dev (virtqueue_notify true) (fun _ => Done) vq
  | Fetch => '(view, dev) ← device_fetch vq dev; Ok (View view, (vq, dev))
  | Finish i len => s ← device_finish i len vq dev; Ok (Done, s)
  end.
Fixpoint sys_run (cs : list call) (s : sys) : outcome (list answer * sys) :=
  match cs with
  | [] => Ok ([], s)
  | c :: cs => '(a, s) ← sys_call c s; '(l, s) ← sys_run cs s; Ok (a :: l, s)
  end.

(** ** The specification *)

Record request := Request { token : Z; buffers : list buffer }.
Record spec := Spec { waiting : list request; working : list request; finished : list (request * Z) }.
Definition outstanding (a : spec) : nat := length (waiting a) + length (working a) + length (finished a).

(** The entries of a scatter list. *)
Fixpoint sg_entries (n : nat) (sgm : sg_mem) (p : Z) : option (list scatterlist) :=
  match n with
  | O => None
  | S n' =>
      if p =? 0 then Some []
      else
        sg ← sgm !! p;
        match sg_next sgm p with Ok q => l ← sg_entries n' sgm q; Some (sg :: l) | _ => None end
  end.
Definition sg_buffer (w : bool) (sg : scatterlist) : buffer := (sg_phys L mem_map sg, sg_length sg, w).

(** What a call must do; no result where the caller breaks the rules (an empty
    or single-entry request, a full queue, a null token, a malformed list) or
    the device does (finishing what it does not have). *)
Definition spec_call (n : Z) (c : call) (a : spec) : option (answer * spec) :=
  match c with
  | Add sgm outs ins tok =>
      lo ← mapM (sg_entries fuel sgm) outs;
      li ← mapM (sg_entries fuel sgm) ins;
      let bufs := (sg_buffer false <$> concat lo) ++ (sg_buffer true <$> concat li) in
      if decide ((1 < length bufs)%nat /\ Z.of_nat (length bufs) < 2 ^ 16 /\ Z.of_nat (outstanding a) < n /\ tok <> 0 /\
                 Z.of_nat (length outs + length ins) < 2 ^ 32)
      then Some (Added 0, Spec (waiting a ++ [Request tok bufs]) (working a) (finished a))
      else None
  | Get =>
      match finished a with
      | [] => Some (Taken None, a)
      | (r, len) :: l => Some (Taken (Some (token r, len)), Spec (waiting a) (working a) l)
      end
  | DisableCb | Notify => Some (Done, a)
  | EnableCb => Some (Enabled (match finished a with [] => true | _ => false end), a)
  | Fetch =>
      match waiting a with
      | [] => None
      | r :: l => Some (View (buffers r), Spec l (working a ++ [r]) (finished a))
      end
  | Finish i len =>
      r ← working a !! i; Some (Done, Spec (waiting a) (delete i (working a)) (finished a ++ [(r, len)]))
  end.
Fixpoint spec_run (n : Z) (cs : list call) (a : spec) : option (list answer * spec) :=
  match cs with
  | [] => Some ([], a)
  | c :: cs => '(x, a) ← spec_call n c a; '(l, a) ← spec_run n cs a; Some (x :: l, a)
  end.
End System.
