(* ===== verification/VirtioProofs.v ===== *)
(** * The queue invariant

    What relates the memory of a virtqueue and of the device to the lists of
    the specification, and the effect of each call on it.  Every descriptor is
    in exactly one of four lists: free, waiting, worked on, finished. *)

From Stdlib Require Import ZArith Lia.
From stdpp Require Import base tactics numbers list gmap strings.
From S2P Require Import Prelude Words Mem Memblock Buddy Scatterlist VirtioRing VirtioSpec.

(** ** Rings *)

(** Ring sizes: powers of two up to 2^15. *)
Definition ring_size (n : Z) : Prop := exists k, 0 <= k <= 15 /\ n = 2 ^ k.

Lemma ring_size_range n : ring_size n -> 1 <= n <= 2 ^ 15.
Proof.
  intros (k & Hk & ->). split; [apply (Z.pow_le_mono_r 2 0 k); lia|apply Z.pow_le_mono_r; lia].
Qed.
Lemma ring_mask n x : ring_size n -> Z.land x (u32 (n - 1)) = x mod n.
Proof.
  intros Hn. pose proof (ring_size_range n Hn). unfold u32. rewrite Z.mod_small by lia.
  destruct Hn as (k & Hk & ->). apply land_ones_mod. lia.
Qed.
Lemma ring_u16 n x : ring_size n -> u16 x mod n = x mod n.
Proof.
  intros (k & Hk & ->). unfold u16. apply Z.mod_mod_divide. exists (2 ^ (16 - k)). rewrite <- Z.pow_add_r by lia.
  f_equal. lia.
Qed.
Lemma ring_u16_add n x y : ring_size n -> (u16 x + y) mod n = (x + y) mod n.
Proof.
  intros Hn. pose proof (ring_size_range n Hn). rewrite Z.add_mod, ring_u16, <- Z.add_mod by (assumption || lia). reflexivity.
Qed.
Lemma mod_inj n b x y : 0 < n -> 0 <= x < n -> 0 <= y < n -> (b + x) mod n = (b + y) mod n -> x = y.
Proof.
  intros Hn Hx Hy E. assert ((x - y) mod n = 0) as D.
  { replace (x - y) with ((b + x) - (b + y)) by lia. rewrite Zminus_mod, E, Z.sub_diag. apply Z.mod_0_l. lia. }
  apply Z.mod_divide in D as [q Hq]; [|lia]. destruct (Z.eq_dec q 0); [lia|]. nia.
Qed.
Lemma u16_range x : 0 <= u16 x < 2 ^ 16.
Proof. unfold u16. apply Z.mod_pos_bound. lia. Qed.
Lemma u16_small x : 0 <= x < 2 ^ 16 -> u16 x = x.
Proof. intros. apply Z.mod_small. lia. Qed.
Lemma u16_add_l x y : u16 (u16 x + y) = u16 (x + y).
Proof. unfold u16. rewrite Z.add_mod_idemp_l by lia. reflexivity. Qed.
#[export] Hint Resolve u16_range : words.

(** The ring [l] of size [n] holds [xs] from index [i] on. *)
Definition ring_holds {A} (n : Z) (l : list A) (i : Z) (xs : list A) : Prop :=
  forall j x, xs !! j = Some x -> at_ l ((i + Z.of_nat j) mod n) x.

Lemma ring_holds_tail {A} n (l : list A) i x xs : ring_size n -> ring_holds n l i (x :: xs) -> ring_holds n l (u16 (i + 1)) xs.
Proof.
  intros Hn H j y E. rewrite ring_u16_add by assumption. replace (i + 1 + Z.of_nat j) with (i + Z.of_nat (S j)) by lia.
  apply (H (S j)). exact E.
Qed.
Lemma ring_holds_snoc {A} n (l : list A) i xs x : ring_size n -> n <= Z.of_nat (length l) -> Z.of_nat (length xs) < n ->
  ring_holds n l i xs -> ring_holds n (<[Z.to_nat ((i + Z.of_nat (length xs)) mod n) := x]> l) i (xs ++ [x]).
Proof.
  intros Hn Hl Hx H j y E. pose proof (ring_size_range n Hn). pose proof (Z.mod_pos_bound (i + Z.of_nat (length xs)) n ltac:(lia)).
  apply lookup_app_Some in E as [E|[Hj E]].
  - pose proof (lookup_lt_Some _ _ _ E). apply at_set_ne; [lia| |apply H, E]. intros D. apply mod_inj in D; lia.
  - destruct (j - length xs)%nat eqn:D; [|discriminate]. simpl in E. injection E as ->.
    replace j with (length xs) by lia. apply at_set_eq. lia.
Qed.
(** A write elsewhere in the ring does not matter. *)
Lemma ring_holds_write {A} n (l : list A) i xs k y : 0 < n -> n <= k -> ring_holds n l i xs -> ring_holds n (<[Z.to_nat k := y]> l) i xs.
Proof.
  intros Hn Hk H j x E. pose proof (Z.mod_pos_bound (i + Z.of_nat j) n Hn). apply at_set_ne; [lia|lia|apply H, E].
Qed.

(** ** The invariant *)

(** The free list from [h] on is [free]. *)
Fixpoint free_chain (desc : list vring_desc) (h : Z) (free : list Z) : Prop :=
  match free with [] => True | x :: l => h = x /\ exists d, at_ desc x d /\ free_chain desc (d_next d) l end.

Section Invariant.
Context (L : layout) (mem_map : Z).

(** The table allocated for a descriptor in use, and the request it stands for. *)
Record busy (vq : virtqueue) (h : Z) (r : request) (p : Z) : Prop := {
  busy_state : at_ (desc_state vq) h (DescState (token r) p);
  busy_token : token r <> 0;
  busy_ptr : p <> 0 /\ is_u64 p;
  busy_table : exists table next, tables vq !! p = Some table /\ (2 <= length table)%nat /\ Z.of_nat (length table) < 2 ^ 16 /\
    at_ (desc vq) h (VringDesc (virt_to_phys L p) (SIZEOF_DESC * Z.of_nat (length table)) VRING_DESC_F_INDIRECT next) /\
    walk_table (length table) table 0 = Ok (buffers r) }.

(** [free], [q], [w] and [c] are the descriptors in each state, [reqs] the
    request of a descriptor in use and [ptr] its table. *)
Record vq_inv (n : Z) (vq : virtqueue) (dev : device) (free q w : list Z) (c : list (Z * Z)) (reqs : Z -> request) (ptr : Z -> Z) : Prop := {
  inv_num : vq_num vq = n /\ ring_size n;
  inv_flags : indirect vq = true /\ use_dma_api vq = false /\ broken vq = false;
  inv_lengths : Z.of_nat (length (desc vq)) = n /\ Z.of_nat (length (desc_state vq)) = n /\
    Z.of_nat (length (avail_ring vq)) = n + 1 /\ Z.of_nat (length (used_ring vq)) = n;
  inv_perm : free ++ q ++ w ++ c.*1 ≡ₚ seqZ 0 n;
  inv_free : num_free vq = Z.of_nat (length free) /\ free_chain (desc vq) (free_head vq) free;
  inv_idle : forall h, h ∈ free -> at_ (desc_state vq) h (DescState 0 0);
  inv_busy : forall h, h ∈ q ++ w ++ c.*1 -> busy vq h (reqs h) (ptr h);
  inv_ptr : forall h1 h2, h1 ∈ q ++ w ++ c.*1 -> h2 ∈ q ++ w ++ c.*1 -> ptr h1 = ptr h2 -> h1 = h2;
  inv_used : 0 <= last_used_idx vq < 2 ^ 16 /\ used_idx vq = u16 (last_used_idx vq + Z.of_nat (length c)) /\
    ring_holds n (used_ring vq) (last_used_idx vq) ((fun x => UsedElem x.1 x.2) <$> c);
  inv_avail : avail_idx vq = avail_idx_shadow vq /\ 0 <= last_avail dev < 2 ^ 16 /\
    avail_idx vq = u16 (last_avail dev + Z.of_nat (length q)) /\ ring_holds n (avail_ring vq) (last_avail dev) q;
  inv_fetched : fetched dev = w }.

Definition abstract (q w : list Z) (c : list (Z * Z)) (reqs : Z -> request) : spec :=
  Spec (reqs <$> q) (reqs <$> w) ((fun x => (reqs x.1, x.2)) <$> c).

(** The system is in the state [a] of the specification. *)
Definition implements (n : Z) (s : sys) (a : spec) : Prop :=
  exists free q w c reqs ptr, vq_inv n s.1 s.2 free q w c reqs ptr /\ a = abstract q w c reqs.
End Invariant.

(** ** Working with the invariant *)

Ltac mem := rewrite ?elem_of_app, ?elem_of_cons, ?elem_of_nil in *; tauto.

Ltac vq_cbn := cbn [has_callback vq_index packed_ring use_dma_api weak_barriers indirect event we_own_ring queue_dma_addr
  queue_size_in_bytes vq_vring broken num_free free_head num_added last_used_idx avail_flags_shadow avail_idx_shadow
  desc_state desc avail_idx avail_ring used_idx used_ring tables notified vq_num
  set_driver set_broken set_num_free set_free_head set_num_added set_last_used_idx set_shared set_avail_flags_shadow
  set_avail_idx_shadow set_desc_state set_desc set_avail_idx set_avail_ring set_device set_used set_tables set_notified
  last_avail fetched fst snd] in *.

(** Runs the next statement of a program on the state in the goal. *)
Lemma bind_upd {B} g (f : unit -> VQ B) vq : (upd_vq g ≫= f) vq = f tt (g vq).
Proof. reflexivity. Qed.
Lemma bind_desc {B} (f : vring_desc -> VQ B) vq i d : at_ (desc vq) i d -> (vq_desc i ≫= f) vq = f d vq.
Proof. intros H. apply bind_ok. unfold vq_desc. rewrite bind_get. unfold st_lift. by rewrite (at_aget _ _ _ H). Qed.
Lemma bind_state {B} (f : vring_desc_state -> VQ B) vq i d : at_ (desc_state vq) i d -> (vq_state i ≫= f) vq = f d vq.
Proof. intros H. apply bind_ok. unfold vq_state. rewrite bind_get. unfold st_lift. by rewrite (at_aget _ _ _ H). Qed.
Lemma run_aset {A} get set i (x : A) vq : 0 <= i < Z.of_nat (length (get vq)) ->
  vq_aset get set i x vq = Ok (tt, set vq (<[Z.to_nat i := x]> (get vq))).
Proof. intros H. unfold vq_aset. rewrite bind_get. rewrite (bind_lift _ _ _ _ (aset_ok _ _ x H)). reflexivity. Qed.
Lemma bind_aset {A B} get set i (x : A) (f : unit -> VQ B) vq : 0 <= i < Z.of_nat (length (get vq)) ->
  (vq_aset get set i x ≫= f) vq = f tt (set vq (<[Z.to_nat i := x]> (get vq))).
Proof. intros H. apply bind_ok, run_aset, H. Qed.
Lemma bind_out {A B} (m : outcome A) (f : A -> outcome B) a : m = Ok a -> (m ≫= f) = f a.
Proof. by intros ->. Qed.
Ltac st_step := first [rewrite bind_get | rewrite bind_upd]; cbn beta zeta.
Ltac step_desc H := match goal with |- (vq_desc ?i ≫= ?f) ?vq = _ => rewrite (bind_desc f vq i _ H) end; cbn beta zeta.
Ltac step_state H := match goal with |- (vq_state ?i ≫= ?f) ?vq = _ => rewrite (bind_state f vq i _ H) end; cbn beta zeta.
Ltac step_aset H := match goal with |- (vq_aset ?g ?s ?i ?x ≫= ?f) ?vq = _ => rewrite (bind_aset g s i x f vq H) end; vq_cbn.
Ltac step_ok H := match goal with |- (?m ≫= ?f) ?vq = _ => rewrite (bind_ok m f vq _ _ H) end; cbn beta zeta.
Ltac st_cbn := cbn [mbind outcome_bind deref].

Section Facts.
Context {L : layout} {n : Z} {vq : virtqueue} {dev : device} {free q w : list Z} {c : list (Z * Z)} {reqs : Z -> request} {ptr : Z -> Z}.
Hypothesis I : vq_inv L n vq dev free q w c reqs ptr.

Lemma inv_NoDup : NoDup (free ++ q ++ w ++ c.*1).
Proof. rewrite (inv_perm _ _ _ _ _ _ _ _ _ _ I). apply NoDup_seqZ. Qed.
Lemma inv_range h : h ∈ free ++ q ++ w ++ c.*1 -> 0 <= h < n.
Proof. rewrite (inv_perm _ _ _ _ _ _ _ _ _ _ I), elem_of_seqZ. lia. Qed.
Lemma inv_total : Z.of_nat (length free + length q + length w + length c) = n.
Proof.
  pose proof (Permutation_length (inv_perm _ _ _ _ _ _ _ _ _ _ I)) as E. rewrite !length_app, length_fmap, length_seqZ in E.
  pose proof (ring_size_range n (proj2 (inv_num _ _ _ _ _ _ _ _ _ _ I))). lia.
Qed.
Lemma inv_size : 1 <= n <= 2 ^ 15.
Proof. apply ring_size_range, (inv_num _ _ _ _ _ _ _ _ _ _ I). Qed.
End Facts.

Lemma free_chain_set desc h free i d : 0 <= i -> i ∉ free -> free_chain desc h free -> free_chain (<[Z.to_nat i := d]> desc) h free.
Proof.
  intros Hi. revert h. induction free as [|x l IH]; intros h Hn; [done|]. simpl. intros (-> & e & He & Hc).
  apply not_elem_of_cons in Hn as [Hx Hl]. split; [reflexivity|]. exists e. split; [by apply at_set_ne|]. by apply IH.
Qed.

Lemma phys_virt L p : is_u64 p -> phys_to_virt (va_pa_offset L) (virt_to_phys L p) = p.
Proof.
  intros Hp. unfold phys_to_virt, virt_to_phys, u64. rewrite Z.add_mod_idemp_l by lia.
  replace (p - va_pa_offset L + va_pa_offset L) with p by lia. apply u64_small. exact Hp.
Qed.

(** Writing the state of one descriptor leaves the others as they are. *)
Lemma busy_weaken L vq vq' h r p : busy L vq h r p ->
  (forall x, at_ (desc_state vq) h x -> at_ (desc_state vq') h x) -> (forall x, at_ (desc vq) h x -> at_ (desc vq') h x) ->
  tables vq' !! p = tables vq !! p -> busy L vq' h r p.
Proof.
  intros [H1 H2 H3 (t & nx & T1 & T2 & T3 & T4 & T5)] Hs Hd Ht. constructor; [auto..|]. exists t, nx. rewrite Ht. exact (conj T1 (conj T2 (conj T3 (conj (Hd _ T4) T5)))).
Qed.

Section Calls.
Context {L : layout} {n : Z}.
Implicit Types (free q w : list Z) (c : list (Z * Z)).

Lemma busy_view vq h r p : busy L vq h r p -> device_view L vq h = Ok (buffers r).
Proof.
  intros [_ _ [_ Hp] (t & nx & T1 & _ & _ & T4 & T5)]. unfold device_view. rewrite (at_aget _ _ _ T4). st_cbn.
  cbn [d_flags d_addr d_len]. change (Z.land VRING_DESC_F_INDIRECT VRING_DESC_F_INDIRECT =? 0) with false. cbn iota.
  rewrite phys_virt, T1 by assumption. st_cbn. rewrite Z.eqb_refl. exact T5.
Qed.

(** The device's steps. *)
Lemma fetch_step vq dev free h q w c reqs ptr : vq_inv L n vq dev free (h :: q) w c reqs ptr ->
  exists dev', device_fetch L vq dev = Ok (buffers (reqs h), dev') /\ vq_inv L n vq dev' free q (w ++ [h]) c reqs ptr.
Proof.
  intros I. pose proof (inv_total I) as Ht. pose proof (inv_size I) as Hs. simpl length in Ht.
  destruct I as [I1 I2 I3 I4 I5 I6 I7 I8 I9 (A1 & A2 & A3 & A4) I11]. destruct I1 as [N1 N2].
  exists (Device (u16 (last_avail dev + 1)) (fetched dev ++ [h])). split.
  - unfold device_fetch. destruct (Z.eqb_spec (last_avail dev) (avail_idx vq)) as [E|_].
    { exfalso. rewrite A3 in E. simpl length in E. rewrite <- (u16_small (last_avail dev)) in E at 1 by lia. unfold u16 in E.
      rewrite <- (Z.add_0_r (last_avail dev)) in E at 1. apply mod_inj in E; lia. }
    pose proof (A4 0%nat h eq_refl) as Ha. rewrite Z.add_0_r in Ha. rewrite N1, (at_aget _ _ _ Ha). st_cbn.
    rewrite (busy_view _ _ _ _ (I7 h ltac:(mem))). reflexivity.
  - constructor; auto.
    + rewrite <- I4. apply Permutation_app_head. rewrite <- (app_assoc w). simpl.
      rewrite (app_assoc q w (h :: c.*1)), <- Permutation_middle, app_assoc. reflexivity.
    + intros x Hx. apply I7. mem.
    + intros x y Hx Hy. apply I8; mem.
    + cbn [last_avail]. split; [exact A1|]. split; [apply u16_range|]. split; [|by eapply ring_holds_tail].
      rewrite u16_add_l, A3. f_equal. simpl length. lia.
    + cbn [fetched]. by rewrite I11.
Qed.

Lemma finish_step vq dev free q w c reqs ptr i h len : vq_inv L n vq dev free q w c reqs ptr -> w !! i = Some h ->
  exists vq' dev', device_finish i len vq dev = Ok (vq', dev') /\ vq_inv L n vq' dev' free q (delete i w) (c ++ [(h, len)]) reqs ptr.
Proof.
  intros I Hi. pose proof (inv_total I) as Ht. pose proof (inv_size I) as Hs. pose proof (lookup_lt_Some _ _ _ Hi) as Hl.
  pose proof (delete_Permutation w i h Hi) as Hw.
  destruct I as [[N1 N2] I2 (E1 & E2 & E3 & E4) I4 I5 I6 I7 I8 (U1 & U2 & U3) I10 I11].
  assert (q ++ delete i w ++ (c ++ [(h, len)]).*1 ≡ₚ q ++ w ++ c.*1) as HP.
  { apply Permutation_app_head. rewrite fmap_app. simpl. generalize dependent (delete i w). intros w' Hw.
    rewrite Hw, (app_assoc w'). simpl. rewrite <- Permutation_cons_append. reflexivity. }
  exists (set_used vq (u16 (used_idx vq + 1)) (<[Z.to_nat ((last_used_idx vq + Z.of_nat (length c)) mod n) := UsedElem h len]> (used_ring vq))),
    (Device (last_avail dev) (delete i (fetched dev))). split.
  - unfold device_finish. rewrite I11, Hi. st_cbn. rewrite N1, U2, ring_u16 by assumption. rewrite aset_ok; [reflexivity|].
    rewrite E4. apply Z.mod_pos_bound. lia.
  - destruct vq. vq_cbn. constructor; vq_cbn; auto.
    + rewrite length_insert. auto.
    + rewrite HP. exact I4.
    + intros x. rewrite HP. intros Hx. eapply busy_weaken; [exact (I7 x Hx)|auto..].
    + intros x y. rewrite HP. auto.
    + split; [exact U1|]. split; [rewrite U2, u16_add_l, length_app; f_equal; simpl; lia|].
      rewrite fmap_app. simpl. rewrite <- (length_fmap (fun x : Z * Z => UsedElem x.1 x.2) c).
      apply ring_holds_snoc; auto; [lia|rewrite length_fmap; lia].
    + rewrite I11. reflexivity.
Qed.

Lemma unmap_one_ok vq : use_dma_api vq = false -> vring_unmap_one_split vq = Ok (tt, vq).
Proof. intros H. unfold vring_unmap_one_split. rewrite bind_get, H. reflexivity. Qed.
Lemma unmap_ok k vq : use_dma_api vq = false -> unmap_loop k vq = Ok (tt, vq).
Proof.
  intros H. induction k as [|k IH]; [reflexivity|]. cbn [unmap_loop].
  rewrite (bind_ok _ _ _ _ _ (unmap_one_ok vq H)). exact IH.
Qed.

(** The queue after the descriptor [h] with table [p] is taken back. *)
Definition detached (vq : virtqueue) (h p a l : Z) : virtqueue :=
  set_desc_state (set_tables (set_num_free (set_free_head (set_desc vq
    (<[Z.to_nat h := VringDesc a l VRING_DESC_F_INDIRECT (u16 (free_head vq))]> (desc vq))) h) (num_free vq + 1))
    (delete p (tables vq))) (<[Z.to_nat h := DescState 0 0]> (desc_state vq)).

Lemma detach_ok vq h tok p a l nx : at_ (desc_state vq) h (DescState tok p) -> p <> 0 -> l <> 0 -> l mod SIZEOF_DESC = 0 ->
  at_ (desc vq) h (VringDesc a l VRING_DESC_F_INDIRECT nx) -> indirect vq = true -> use_dma_api vq = false ->
  detach_buf_split h vq = Ok (tt, detached vq h p a l).
Proof.
  intros Hs Hp Hl Hm Hd Hi Hu. pose proof (at_range _ _ _ Hs) as Rs. pose proof (at_range _ _ _ Hd) as Rd.
  unfold detach_buf_split, detached. destruct vq. vq_cbn. subst.
  step_state Hs. step_aset Rs. st_step. vq_cbn. cbn [detach_loop indir_desc].
  match goal with |- (?m ≫= _) ?v = _ => assert (m v = Ok (h, v)) as E; [step_desc Hd; reflexivity|step_ok E; clear E] end.
  match goal with |- (_ ≫= _) ?v = _ => step_ok (unmap_one_ok v eq_refl) end. step_desc Hd. st_step. step_aset Rd. do 3 st_step. vq_cbn.
  step_state (at_set_eq _ _ (DescState 0 p) Rs). cbn [indir_desc]. destruct (Z.eqb_spec p 0); [lia|].
  step_desc (at_set_eq _ _ (VringDesc a l VRING_DESC_F_INDIRECT (u16 free_head)) Rd). cbn [d_len d_flags d_addr data].
  destruct (Z.eqb_spec l 0); [lia|]. rewrite Hm. do 2 (rewrite (bind_lift _ _ _ tt eq_refl)).
  match goal with |- (unmap_loop ?k ≫= _) ?v = _ => step_ok (unmap_ok k v eq_refl) end. st_step. vq_cbn.
  rewrite run_aset by (vq_cbn; rewrite length_insert; exact Rs). vq_cbn. rewrite list_insert_insert_eq. reflexivity.
Qed.

Lemma more_used_spec vq dev free q w c reqs ptr : vq_inv L n vq dev free q w c reqs ptr ->
  more_used_split vq = match c with [] => false | _ => true end.
Proof.
  intros I. pose proof (inv_total I) as Ht. pose proof (inv_size I) as Hs.
  destruct (inv_used _ _ _ _ _ _ _ _ _ _ I) as (U1 & U2 & _). unfold more_used_split. rewrite U2.
  destruct c as [|x c]; simpl length in *.
  - rewrite Z.add_0_r, u16_small, Z.eqb_refl by lia. reflexivity.
  - destruct (Z.eqb_spec (last_used_idx vq) (u16 (last_used_idx vq + Z.of_nat (S (length c))))) as [E|_]; [|reflexivity]. exfalso.
    rewrite <- (u16_small (last_used_idx vq)) in E at 1 by lia. unfold u16 in E.
    rewrite <- (Z.add_0_r (last_used_idx vq)) in E at 1. apply mod_inj in E; lia.
Qed.

Lemma detach_inv vq dev free q w h len c reqs ptr a : vq_inv L n vq dev free q w ((h, len) :: c) reqs ptr ->
  forall l, vq_inv L n (set_last_used_idx (detached vq h (ptr h) a l) (last_used_idx vq + 1)) dev (h :: free) q w c reqs ptr.
Proof.
  intros I l. pose proof (inv_total I) as Ht. pose proof (inv_size I) as Hs. pose proof (inv_NoDup I) as HN.
  pose proof (inv_range I) as HR.
  destruct I as [[N1 N2] (F1 & F2 & F3) (E1 & E2 & E3 & E4) I4 [I5a I5b] I6 I7 I8 (U1 & U2 & U3) (A1 & A2 & A3 & A4) I11].
  assert (h ∉ free ++ q ++ w ++ c.*1) as Hh.
  { assert (h :: free ++ q ++ w ++ c.*1 ≡ₚ free ++ q ++ w ++ ((h, len) :: c).*1) as E by (simpl; rewrite !app_assoc; apply Permutation_middle).
    rewrite <- E in HN. by apply NoDup_cons in HN as [? _]. }
  assert (0 <= h < n) as Rh by (apply HR; simpl; mem).
  assert (forall x, x ∈ q ++ w ++ c.*1 -> x ∈ q ++ w ++ ((h, len) :: c).*1 /\ x <> h) as Hx.
  { intros x Hx. split; [simpl; mem|]. intros ->. apply Hh. mem. }
  destruct vq. unfold detached. vq_cbn. constructor; vq_cbn; auto.
  - rewrite !length_insert. auto.
  - simpl app. rewrite <- I4. simpl. rewrite !app_assoc. apply Permutation_middle.
  - split; [rewrite I5a; unfold u32; rewrite Z.mod_small by (simpl length in Ht; lia); simpl length; lia|]. simpl. split; [reflexivity|].
    eexists. split; [apply at_set_eq; lia|]. cbn [d_next]. apply free_chain_set; [lia|mem|]. destruct free as [|f free]; [exact Logic.I|].
    destruct I5b as [-> Hc]. rewrite u16_small; [split; [reflexivity|exact Hc]|]. pose proof (HR f ltac:(mem)). lia.
  - intros x. rewrite elem_of_cons. intros [->|Hf]; [apply at_set_eq; lia|]. apply at_set_ne; [lia| |auto]. intros ->. apply Hh. mem.
  - intros x Hin. destruct (Hx x Hin) as [Hin' Hne]. eapply busy_weaken; [exact (I7 x Hin')|vq_cbn..].
    + intros y. apply at_set_ne; [lia|auto].
    + intros y. apply at_set_ne; [lia|auto].
    + apply lookup_delete_ne. intros E. apply Hne. symmetry. apply I8; [simpl; mem|exact Hin'|exact E].
  - intros x y H1 H2. apply I8; apply Hx; assumption.
  - split; [apply u16_range|]. split; [rewrite u16_add_l, U2; f_equal; simpl length; lia|]. by eapply ring_holds_tail.
Qed.

Lemma get_step vq dev free q w h len c reqs ptr : vq_inv L n vq dev free q w ((h, len) :: c) reqs ptr ->
  exists vq', virtqueue_get_buf vq = Ok ((token (reqs h), Some len), vq') /\ vq_inv L n vq' dev (h :: free) q w c reqs ptr.
Proof.
  intros I. pose proof (inv_range I h ltac:(simpl; mem)) as Rh. pose proof (more_used_spec _ _ _ _ _ _ _ _ I) as Hm.
  destruct (inv_busy _ _ _ _ _ _ _ _ _ _ I h ltac:(simpl; mem)) as [B1 B2 [B3 _] (t & nx & _ & T2 & T3 & T4 & _)].
  eexists. split; [|exact (detach_inv _ _ _ _ _ _ _ _ _ _ (virt_to_phys L (ptr h)) I (SIZEOF_DESC * Z.of_nat (length t)))].
  destruct (inv_num _ _ _ _ _ _ _ _ _ _ I) as [N1 N2], (inv_flags _ _ _ _ _ _ _ _ _ _ I) as (F1 & F2 & F3).
  destruct (inv_used _ _ _ _ _ _ _ _ _ _ I) as (U1 & U2 & U3).
  unfold virtqueue_get_buf, virtqueue_get_buf_ctx, virtqueue_get_buf_ctx_split. st_step. rewrite F3, Hm, N1, ring_mask by assumption. cbn [negb].
  pose proof (U3 0%nat _ eq_refl) as Hr. rewrite Z.add_0_r in Hr. rewrite (bind_lift _ _ _ _ (at_aget _ _ _ Hr)). cbn [u_id u_len fst snd].
  destruct (Z.leb_spec n h); [lia|]. step_state B1. cbn [data]. destruct (Z.eqb_spec (token (reqs h)) 0); [lia|].
  assert (SIZEOF_DESC * Z.of_nat (length t) <> 0 /\ (SIZEOF_DESC * Z.of_nat (length t)) mod SIZEOF_DESC = 0) as [L1 L2].
  { split; [unfold SIZEOF_DESC; lia|]. rewrite Z.mul_comm. apply Z.mod_mul. discriminate. }
  step_ok (detach_ok vq h _ _ _ _ _ B1 B3 L1 L2 T4 F1 F2).
  st_step. destruct vq. reflexivity.
Qed.

Lemma get_empty vq dev free q w reqs ptr : vq_inv L n vq dev free q w [] reqs ptr -> virtqueue_get_buf vq = Ok ((0, None), vq).
Proof.
  intros I. unfold virtqueue_get_buf, virtqueue_get_buf_ctx, virtqueue_get_buf_ctx_split. st_step.
  rewrite (proj2 (proj2 (inv_flags _ _ _ _ _ _ _ _ _ _ I))), (more_used_spec _ _ _ _ _ _ _ _ I). reflexivity.
Qed.

Lemma disable_step vq dev free q w c reqs ptr : vq_inv L n vq dev free q w c reqs ptr ->
  exists vq', virtqueue_disable_cb vq = Ok (tt, vq') /\ vq_inv L n vq' dev free q w c reqs ptr.
Proof.
  intros I. eexists. split; [reflexivity|]. cbn beta. destruct (Z.land _ _ =? 0); [|exact I].
  destruct I. destruct vq. constructor; vq_cbn; auto. intros h Hh. eapply busy_weaken; [eauto|auto..].
Qed.

Lemma enable_step vq dev free q w c reqs ptr : vq_inv L n vq dev free q w c reqs ptr ->
  exists vq', virtqueue_enable_cb vq = Ok (match c with [] => true | _ => false end, vq') /\
    vq_inv L n vq' dev free q w c reqs ptr /\ at_ (avail_ring vq') n (last_used_idx vq') /\ last_used_idx vq' = last_used_idx vq.
Proof.
  intros I. pose proof (more_used_spec _ _ _ _ _ _ _ _ I) as Hm. pose proof (inv_size I) as Hs. pose proof (inv_used _ _ _ _ _ _ _ _ _ _ I) as HU.
  destruct (inv_num _ _ _ _ _ _ _ _ _ _ I) as [N1 N2], (inv_flags _ _ _ _ _ _ _ _ _ _ I) as (F1 & F2 & F3), (inv_lengths _ _ _ _ _ _ _ _ _ _ I) as (E1 & E2 & E3 & E4).
  assert (vq_inv L n (allow_interrupts vq) dev free q w c reqs ptr /\ last_used_idx (allow_interrupts vq) = last_used_idx vq /\ used_idx (allow_interrupts vq) = used_idx vq) as (I' & L1 & L2).
  { unfold allow_interrupts. destruct (negb _); [|auto]. destruct I. destruct vq. split; [|split; reflexivity]. constructor; vq_cbn; auto.
    intros h Hh. eapply busy_weaken; [eauto|auto..]. }
  set (vq1 := allow_interrupts vq) in *. exists (set_avail_ring vq1 (<[Z.to_nat n := last_used_idx vq1]> (avail_ring vq1))).
  destruct I' as [[M1 _] (G1 & G2 & G3) (E1' & E2' & E3' & E4') I4 I5 I6 I7 I8 I9 (A1 & A2 & A3 & A4) I11]. split.
  - assert (virtqueue_enable_cb_prepare vq = Ok (last_used_idx vq1, set_avail_ring vq1 (<[Z.to_nat n := last_used_idx vq1]> (avail_ring vq1)))) as E.
    { unfold virtqueue_enable_cb_prepare, virtqueue_enable_cb_prepare_split. rewrite bind_upd. fold vq1. st_step.
      rewrite M1. match goal with |- (vq_aset ?g ?s ?i ?x ≫= ?f) ?v = _ => rewrite (bind_aset g s i x f v) by (rewrite E3'; lia) end. reflexivity. }
    unfold virtqueue_enable_cb. step_ok E.
    rewrite (bind_ok _ _ _ (match c with [] => false | _ => true end) (set_avail_ring vq1 (<[Z.to_nat n := last_used_idx vq1]> (avail_ring vq1)))).
    { destruct c; reflexivity. }
    rewrite <- Hm. unfold more_used_split. rewrite <- L2. rewrite <- (u16_small (last_used_idx vq)), <- L1 by apply HU.
    destruct vq1. vq_cbn. rewrite G3. reflexivity.
  - destruct vq1. vq_cbn. split; [|split; [apply at_set_eq; lia|exact L1]]. constructor; vq_cbn; auto.
    + rewrite length_insert. auto.
    + intros h Hh. eapply busy_weaken; [eauto|auto..].
    + split; [exact A1|]. split; [exact A2|]. split; [exact A3|]. apply ring_holds_write; [lia|lia|exact A4].
Qed.

Lemma notify_step vq dev free q w c reqs ptr : vq_inv L n vq dev free q w c reqs ptr ->
  exists b vq', virtqueue_notify true vq = Ok (b, vq') /\ vq_inv L n vq' dev free q w c reqs ptr.
Proof.
  intros I. unfold virtqueue_notify. st_step. rewrite (proj2 (proj2 (inv_flags _ _ _ _ _ _ _ _ _ _ I))). do 2 eexists. split; [reflexivity|].
  destruct I. destruct vq. constructor; vq_cbn; auto. intros h Hh. eapply busy_weaken; [eauto|auto..].
Qed.
End Calls.

(** ** Filling a table *)

Section Fill.
Context (L : layout) (mem_map : Z).

Fixpoint entries (flags : Z) (l : list scatterlist) (i : Z) : list vring_desc :=
  match l with
  | [] => []
  | sg :: l => VringDesc (vring_map_one_sg L mem_map sg) (sg_length sg) flags (u16 (i + 1)) :: entries flags l (i + 1)
  end.

Lemma length_entries flags l : forall i, length (entries flags l i) = length l.
Proof. induction l; intros i; simpl; auto. Qed.
Lemma length_link l : forall i, length (link_table l i) = length l.
Proof. induction l; intros i; simpl; auto. Qed.

Lemma aget_middle {A} (l1 l2 : list A) x : aget (l1 ++ x :: l2) (Z.of_nat (length l1)) = Ok x.
Proof. apply at_aget. split; [lia|]. rewrite Nat2Z.id. by apply list_lookup_middle. Qed.
Lemma aset_middle {A} (l1 l2 : list A) x y : aset (l1 ++ x :: l2) (Z.of_nat (length l1)) y = Ok (l1 ++ y :: l2).
Proof.
  rewrite aset_ok by (rewrite length_app; simpl; lia). rewrite Nat2Z.id. f_equal.
  replace (length l1) with (length l1 + 0)%nat by lia. rewrite insert_app_r. reflexivity.
Qed.

Lemma fill_each flags l : forall done rest prev, (length l <= length rest)%nat -> Z.of_nat (length done + length rest) < 2 ^ 16 ->
  each l (fill_one L mem_map flags) (done ++ link_table rest (Z.of_nat (length done)), Z.of_nat (length done), prev) =
  let k := Z.of_nat (length done + length l) in
  Ok (tt, (done ++ entries flags l (Z.of_nat (length done)) ++ link_table (drop (length l) rest) k, k, match l with [] => prev | _ => k - 1 end)).
Proof.
  induction l as [|sg l IH]; intros done rest prev Hl Hb; cbn zeta.
  - simpl. rewrite Nat.add_0_r, drop_0. reflexivity.
  - destruct rest as [|d rest]; simpl in Hl; [lia|]. cbn [each link_table entries].
    assert (fill_one L mem_map flags sg (done ++ VringDesc (d_addr d) (d_len d) (d_flags d) (u16 (Z.of_nat (length done) + 1)) :: link_table rest (Z.of_nat (length done) + 1), Z.of_nat (length done), prev)
      = Ok (tt, ((done ++ entries flags [sg] (Z.of_nat (length done))) ++ link_table rest (Z.of_nat (length (done ++ entries flags [sg] (Z.of_nat (length done))))), Z.of_nat (length (done ++ entries flags [sg] (Z.of_nat (length done)))), Z.of_nat (length done)))) as E.
    { unfold fill_one. rewrite (bind_out _ _ _ (aget_middle _ _ _)), (bind_out _ _ _ (aset_middle _ _ _ _)). cbn [d_next entries].
      rewrite u16_small by (simpl in Hb; lia). rewrite length_app. simpl length.
      replace (Z.of_nat (length done + 1)) with (Z.of_nat (length done) + 1) by lia. rewrite <- app_assoc. reflexivity. }
    rewrite (bind_ok _ _ _ _ _ E), IH by (rewrite ?length_app, ?length_entries; simpl in *; lia). cbn zeta. rewrite length_app, length_entries, <- app_assoc. cbn [length entries app drop].
    replace (length done + 1 + length l)%nat with (length done + S (length l))%nat by lia.
    replace (Z.of_nat (length done + 1)) with (Z.of_nat (length done) + 1) by lia. destruct l; [|reflexivity].
    do 4 f_equal. simpl length. lia.
Qed.

Lemma each_app {A S} (l1 l2 : list A) (body : A -> ST S unit) s :
  each (l1 ++ l2) body s = (each l1 body;; each l2 body) s.
Proof.
  revert s. induction l1 as [|x l IH]; intros s; [reflexivity|]. cbn [each app].
  unfold mbind, st_bind. destruct (body x s) as [[u s']| | |]; [|reflexivity..]. apply IH.
Qed.

Lemma sg_entries_list sgm k : forall p l, sg_entries k sgm p = Some l -> sg_list sgm p l /\ (length l < k)%nat.
Proof.
  induction k as [|k IH]; intros p l; [discriminate|]. cbn [sg_entries]. destruct (Z.eqb_spec p 0) as [->|Hp].
  - intros [= <-]. split; [constructor|simpl; lia].
  - destruct (sgm !! p) as [sg|] eqn:E; [|discriminate]. simpl. destruct (sg_next sgm p) as [q| | |] eqn:En; [|discriminate..].
    destruct (sg_entries k sgm q) as [t|] eqn:Et; [|discriminate]. intros [= <-]. destruct (IH _ _ Et). split; [|simpl; lia].
    econstructor; eauto.
Qed.

Lemma for_each_list_ok {S} fuel sgm (body : scatterlist -> ST S unit) ps : forall before after ls s,
  mapM (sg_entries fuel sgm) ps = Some ls ->
  for_each_list fuel (length ps) sgm (before ++ ps ++ after) (Z.of_nat (length before)) body s = each (concat ls) body s.
Proof.
  induction ps as [|p ps IH]; intros before after ls s.
  - simpl. intros [= <-]. reflexivity.
  - cbn [mapM]. destruct (sg_entries fuel sgm p) as [l|] eqn:E; [|discriminate]. simpl.
    destruct (mapM (sg_entries fuel sgm) ps) as [ls'|] eqn:E'; [|discriminate]. intros [= <-]. simpl.
    destruct (sg_entries_list _ _ _ _ E) as [Hl Hf].
    rewrite (bind_lift _ _ _ _ (aget_middle before (ps ++ after) p)), each_app. unfold mbind, st_bind. rewrite (for_each_sg_ok _ _ _ _ _ _ Hl Hf).
    destruct (each l body s) as [[u s']| | |]; [|reflexivity..].
    specialize (IH (before ++ [p]) after ls' s' eq_refl). rewrite length_app, <- app_assoc in IH. simpl in IH.
    replace (Z.of_nat (length before) + 1) with (Z.of_nat (length before + 1)) by lia. exact IH.
Qed.

Definition buffer_of (d : vring_desc) : buffer := (d_addr d, d_len d, negb (Z.land (d_flags d) VRING_DESC_F_WRITE =? 0)).
Definition clear_next (d : vring_desc) : vring_desc :=
  VringDesc (d_addr d) (d_len d) (Z.land (d_flags d) (Z.lnot VRING_DESC_F_NEXT)) (d_next d).

(** Entries that go on to the next index. *)
Definition linked (k : Z) (l : list vring_desc) : Prop :=
  forall i d, l !! i = Some d -> Z.land (d_flags d) VRING_DESC_F_NEXT <> 0 /\ d_next d = k + Z.of_nat i + 1.

Lemma walk_ok last : forall rest done, linked (Z.of_nat (length done)) rest ->
  walk_table (S (length rest)) (done ++ rest ++ [clear_next last]) (Z.of_nat (length done)) = Ok (buffer_of <$> rest ++ [last]).
Proof.
  induction rest as [|d rest IH]; intros done H; cbn [length walk_table app].
  - rewrite (bind_out _ _ _ (aget_middle _ _ _)). cbn [clear_next d_flags d_addr d_len fmap list_fmap].
    rewrite <- !Z.land_assoc. change (Z.land (Z.lnot VRING_DESC_F_NEXT) VRING_DESC_F_NEXT) with 0.
    change (Z.land (Z.lnot VRING_DESC_F_NEXT) VRING_DESC_F_WRITE) with VRING_DESC_F_WRITE. rewrite Z.land_0_r. reflexivity.
  - rewrite (bind_out _ _ _ (aget_middle _ _ _)). destruct (H 0%nat d eq_refl) as [Hf Hn]. rewrite (proj2 (Z.eqb_neq _ _) Hf), Hn.
    specialize (IH (done ++ [d])). rewrite <- app_assoc, length_app in IH. simpl in IH.
    replace (Z.of_nat (length done) + Z.of_nat 0 + 1) with (Z.of_nat (length done + 1)) by lia.
    rewrite IH; [reflexivity|]. intros i x E. destruct (H (S i) x E) as [? E2]. split; [assumption|]. lia.
Qed.

Lemma entries_lookup flags l : forall k i d, entries flags l k !! i = Some d -> d_flags d = flags /\ d_next d = u16 (k + Z.of_nat i + 1).
Proof.
  induction l as [|sg l IH]; intros k i d; [discriminate|]. destruct i as [|i]; cbn [entries lookup list_lookup].
  - intros [= <-]. split; [reflexivity|]. cbn [d_next]. f_equal. lia.
  - intros E. destruct (IH _ _ _ E) as [-> ->]. split; [reflexivity|]. f_equal. lia.
Qed.
Lemma entries_buffers flags w l : forall k, negb (Z.land flags VRING_DESC_F_WRITE =? 0) = w ->
  buffer_of <$> entries flags l k = sg_buffer L mem_map w <$> l.
Proof. induction l as [|sg l IH]; intros k Hw; simpl; [reflexivity|]. rewrite IH by assumption. unfold buffer_of at 1. cbn [d_flags]. by rewrite Hw. Qed.

Lemma fill_table_ok fuel sgm outs ins lo li table :
  mapM (sg_entries fuel sgm) outs = Some lo -> mapM (sg_entries fuel sgm) ins = Some li ->
  length table = (length (concat lo) + length (concat li))%nat -> (0 < length table)%nat -> Z.of_nat (length table) < 2 ^ 16 ->
  exists T, fill_table L mem_map fuel sgm (outs ++ ins) (Z.of_nat (length outs)) (Z.of_nat (length ins)) (link_table table 0) = Ok T /\
    length T = length table /\
    walk_table (length table) T 0 = Ok ((sg_buffer L mem_map false <$> concat lo) ++ (sg_buffer L mem_map true <$> concat li)).
Proof.
  intros Ho Hi Hl H0 Hb. set (A := concat lo) in *. set (B := concat li) in *.
  set (F1 := VRING_DESC_F_NEXT). set (F2 := Z.lor VRING_DESC_F_NEXT VRING_DESC_F_WRITE).
  set (E := entries F1 A 0 ++ entries F2 B (Z.of_nat (length A))).
  assert (length E = length table) as HE by (unfold E; rewrite length_app, !length_entries; lia).
  assert (linked 0 E) as HL.
  { intros i d Hd. pose proof (lookup_lt_Some _ _ _ Hd). apply lookup_app_Some in Hd as [Hd|[Hge Hd]]; apply entries_lookup in Hd as [-> ->];
      (split; [discriminate|]); rewrite ?length_entries, u16_small by (rewrite ?length_entries in *; lia); rewrite ?length_entries in *; lia. }
  destruct (exists_last (l := E)) as (E' & last & EE); [intros D; rewrite D in HE; simpl in HE; lia|].
  assert (Z.of_nat (length table) - 1 = Z.of_nat (length E')) as Hlast by (rewrite <- HE, EE, length_app; simpl; lia).
  exists (E' ++ [clear_next last]). split; [|split].
  - unfold fill_table. rewrite !Nat2Z.id. rewrite <- (app_nil_r (outs ++ ins)), <- app_assoc.
    pose proof (for_each_list_ok fuel sgm (fill_one L mem_map F1) outs [] (ins ++ []) lo (link_table table 0, 0, -1) Ho) as X1. fold A in X1.
    pose proof (fill_each F1 A [] table (-1) ltac:(lia) ltac:(simpl; lia)) as X0. cbn [app length Nat.add] in X0, X1. change (Z.of_nat 0) with 0 in X0, X1.
    rewrite X0 in X1. cbn zeta in X1. clear X0.
    rewrite (bind_out _ _ _ X1). clear X1. rewrite app_nil_r.
    pose proof (fun s => for_each_list_ok fuel sgm (fill_one L mem_map F2) ins outs [] li s Hi) as X2. fold B in X2. rewrite !app_nil_r in X2. cbn iota.
    fold F2. rewrite X2.
    pose proof (fun prev => fill_each F2 B (entries F1 A 0) (drop (length A) table) prev ltac:(rewrite length_drop; lia)
      ltac:(rewrite length_drop, length_entries; lia)) as X3. rewrite length_entries in X3. rewrite X3. cbn zeta. st_cbn. cbn iota.
    rewrite drop_drop, drop_ge, app_nil_r by lia. fold E. rewrite <- Hl.
    assert (match B with [] => match A with [] => -1 | _ :: _ => Z.of_nat (length A) - 1 end | _ :: _ => Z.of_nat (length table) - 1 end = Z.of_nat (length E')) as ->.
    { destruct B; [|exact Hlast]. destruct A; [simpl in Hl; lia|]. rewrite <- Hlast, Hl. simpl. lia. }
    rewrite EE, (bind_out _ _ _ (aget_middle _ _ _)). apply aset_middle.
  - rewrite <- HE, EE, !length_app. reflexivity.
  - pose proof (walk_ok last E' []) as X. cbn [app length] in X. change (Z.of_nat 0) with 0 in X.
    replace (length table) with (S (length E')) by lia. rewrite X.
    + rewrite <- EE. unfold E. rewrite fmap_app.
      rewrite (entries_buffers F1 false), (entries_buffers F2 true) by reflexivity. reflexivity.
    + intros i d Hd. apply HL. rewrite EE. by apply lookup_app_l_Some.
Qed.
End Fill.

(** ** Adding *)

(** What the code relies on in the allocator of tables: memory of the asked
    size at a non-null address that is not in use. *)
Class TableAlloc (kmalloc_array : gmap Z (list vring_desc) -> Z -> option (Z * list vring_desc)) : Prop := {
  kmalloc_fresh t k p l : kmalloc_array t k = Some (p, l) -> p <> 0 /\ is_u64 p /\ t !! p = None /\ Z.of_nat (length l) = k }.

Definition fupd {A} (f : Z -> A) (h : Z) (x : A) : Z -> A := fun y => if decide (y = h) then x else f y.
Lemma fupd_eq {A} (f : Z -> A) h x : fupd f h x h = x.
Proof. unfold fupd. by rewrite decide_True. Qed.
Lemma fupd_ne {A} (f : Z -> A) h x y : y <> h -> fupd f h x y = f y.
Proof. intros H. unfold fupd. by rewrite decide_False. Qed.
Lemma fupd_fmap {A} (f : Z -> A) h x (l : list Z) : h ∉ l -> fupd f h x <$> l = f <$> l.
Proof. intros H. apply list_fmap_ext. intros i y E. rewrite fupd_ne; [reflexivity|]. intros ->. apply H. by apply list_elem_of_lookup_2 in E. Qed.

Section Adding.
Context {L : layout} {mem_map : Z} {kmalloc_array : gmap Z (list vring_desc) -> Z -> option (Z * list vring_desc)} {Halloc : TableAlloc kmalloc_array}.
Context {n : Z}.

(** The queue after the descriptor [h] is made available with the table [T] at
    [p]. *)
Definition added (vq : virtqueue) (h p tok nx : Z) (T : list vring_desc) : virtqueue :=
  set_num_added (set_avail_idx (set_avail_idx_shadow (set_avail_ring (set_desc_state (set_free_head (set_num_free (set_desc
    (set_tables vq (<[p := T]> (tables vq)))
    (<[Z.to_nat h := VringDesc (virt_to_phys L p) (u32 (Z.of_nat (length T) * SIZEOF_DESC)) VRING_DESC_F_INDIRECT nx]> (desc vq)))
    (num_free vq - 1)) nx) (<[Z.to_nat h := DescState tok p]> (desc_state vq)))
    (<[Z.to_nat (avail_idx_shadow vq mod vq_num vq) := u16 h]> (avail_ring vq))) (avail_idx_shadow vq + 1)) (u16 (avail_idx_shadow vq + 1))) (num_added vq + 1).

Lemma added_inv vq dev h free q w c reqs ptr d p T r : vq_inv L n vq dev (h :: free) q w c reqs ptr -> at_ (desc vq) h d ->
  p <> 0 -> is_u64 p -> tables vq !! p = None -> token r <> 0 -> (2 <= length T)%nat -> Z.of_nat (length T) < 2 ^ 16 ->
  walk_table (length T) T 0 = Ok (buffers r) ->
  vq_inv L n (added vq h p (token r) (d_next d) T) dev free (q ++ [h]) w c (fupd reqs h r) (fupd ptr h p).
Proof.
  intros I Hd Hp Hu Ht Htok HT1 HT2 Hw. pose proof (inv_total I) as Hs. pose proof (inv_size I) as Hn. pose proof (inv_NoDup I) as HN.
  simpl in HN. apply NoDup_cons in HN as [Hh HN]. pose proof (inv_range I h ltac:(mem)) as Rh.
  destruct I as [[N1 N2] (F1 & F2 & F3) (E1 & E2 & E3 & E4) I4 [I5a I5b] I6 I7 I8 (U1 & U2 & U3) (A1 & A2 & A3 & A4) I11].
  assert (forall x, x ∈ q ++ w ++ c.*1 -> x <> h) as Hx by (intros x Hx ->; apply Hh; mem).
  assert (forall x, x ∈ (q ++ [h]) ++ w ++ c.*1 -> x = h \/ x ∈ q ++ w ++ c.*1) as Hc by (intros x; mem).
  assert (forall x, x ∈ q ++ w ++ c.*1 -> ptr x <> p) as Hq.
  { intros x Hin E. destruct (busy_table _ _ _ _ _ (I7 x Hin)) as (t & nx & T1 & _). congruence. }
  pose proof (Z.mod_pos_bound (avail_idx_shadow vq) n ltac:(lia)) as Rm. simpl length in Hs.
  destruct vq. unfold added. vq_cbn. rewrite N1. constructor; vq_cbn; auto.
  - rewrite !length_insert. auto.
  - rewrite <- I4. simpl. rewrite <- app_assoc. simpl. rewrite <- Permutation_middle, app_assoc, <- Permutation_middle, <- app_assoc. reflexivity.
  - split; [rewrite I5a; unfold u32; rewrite Z.mod_small by (simpl length; lia); simpl length; lia|].
    destruct I5b as [_ (d' & Hd' & Hc')]. rewrite (at_fun _ _ _ _ Hd Hd'). apply free_chain_set; [lia|mem|exact Hc'].
  - intros x Hf. apply at_set_ne; [lia| |apply I6; mem]. intros ->. apply Hh. mem.
  - intros x Hin. destruct (Hc x Hin) as [->|Hin'].
    + rewrite !fupd_eq. constructor; vq_cbn; auto; [apply at_set_eq; lia|]. exists T, (d_next d). rewrite lookup_insert_eq.
      split; [reflexivity|]. split; [exact HT1|]. split; [exact HT2|]. split; [|exact Hw].
      replace (u32 (Z.of_nat (length T) * SIZEOF_DESC)) with (SIZEOF_DESC * Z.of_nat (length T)); [apply at_set_eq; lia|].
      unfold u32, SIZEOF_DESC. rewrite Z.mod_small; lia.
    + pose proof (Hx x Hin') as Hne. rewrite !fupd_ne by assumption. eapply busy_weaken; [exact (I7 x Hin')|vq_cbn..].
      * intros y. apply at_set_ne; [lia|auto].
      * intros y. apply at_set_ne; [lia|auto].
      * apply lookup_insert_ne. intros E. apply (Hq x Hin'). auto.
  - intros x y Hx1 Hy1. destruct (Hc x Hx1) as [->|Hx2], (Hc y Hy1) as [->|Hy2]; rewrite ?fupd_eq; auto.
    + rewrite fupd_ne by auto. intros E. exfalso. apply (Hq y Hy2). auto.
    + rewrite fupd_ne by auto. intros E. exfalso. apply (Hq x Hx2). auto.
    + rewrite !fupd_ne by auto. auto.
  - split; [rewrite u16_small; [reflexivity|apply u16_range]|]. split; [exact A2|]. split.
    + rewrite <- A1, A3, length_app, u16_add_l, (u16_small (u16 _)) by apply u16_range. f_equal. simpl. lia.
    + rewrite (u16_small h), <- A1, A3, ring_u16 by (assumption || lia). apply ring_holds_snoc; auto; lia.
Qed.

Lemma mapM_app {A B} (f : A -> option B) l1 l2 r1 r2 : mapM f l1 = Some r1 -> mapM f l2 = Some r2 -> mapM f (l1 ++ l2) = Some (r1 ++ r2).
Proof.
  revert r1. induction l1 as [|x l IH]; intros r1; simpl; [intros [= <-]; auto|]. destruct (f x) as [y|]; [|discriminate]. simpl.
  destruct (mapM f l) as [r|]; [|discriminate]. intros [= <-] H2. simpl. by rewrite (IH r eq_refl H2).
Qed.
Lemma count_each (l : list scatterlist) : forall k, 0 <= k -> k + Z.of_nat (length l) < 2 ^ 32 ->
  each l (fun _ k => Ok (tt, u32 (k + 1))) k = Ok (tt, k + Z.of_nat (length l)).
Proof.
  induction l as [|x l IH]; intros k Hk Hb; [simpl; rewrite Z.add_0_r; reflexivity|]. cbn [each]. simpl length in *.
  rewrite (bind_ok _ _ k tt (u32 (k + 1)) eq_refl). assert (u32 (k + 1) = k + 1) as -> by (apply Z.mod_small; lia).
  rewrite IH by lia. do 2 f_equal. lia.
Qed.

(** The two ways out of [virtqueue_add_split] when there is room. *)
Lemma add_split_ok vq dev h free q w c reqs ptr fuel sgm outs ins lo li tok p t0 :
  vq_inv L n vq dev (h :: free) q w c reqs ptr ->
  mapM (sg_entries fuel sgm) outs = Some lo -> mapM (sg_entries fuel sgm) ins = Some li ->
  (1 < length (concat lo) + length (concat li))%nat -> Z.of_nat (length (concat lo) + length (concat li)) < 2 ^ 16 -> tok <> 0 ->
  kmalloc_array (tables vq) (Z.of_nat (length (concat lo) + length (concat li))) = Some (p, t0) ->
  exists T d, at_ (desc vq) h d /\ length T = length t0 /\
    walk_table (length T) T 0 = Ok ((sg_buffer L mem_map false <$> concat lo) ++ (sg_buffer L mem_map true <$> concat li)) /\
    virtqueue_add_split L mem_map kmalloc_array true fuel sgm (outs ++ ins) (Z.of_nat (length (concat lo) + length (concat li)))
      (Z.of_nat (length outs)) (Z.of_nat (length ins)) tok vq =
    (let vq' := added vq h p tok (d_next d) T in
     if num_added vq' =? 2 ^ 16 - 1 then (virtqueue_kick true;; mret 0) vq' else Ok (0, vq')).
Proof.
  intros I Ho Hi Hl Hb Htok Hk. destruct (kmalloc_fresh _ _ _ _ Hk) as (P1 & P2 & P3 & P4).
  destruct (fill_table_ok L mem_map fuel sgm outs ins lo li t0 Ho Hi ltac:(lia) ltac:(lia) ltac:(lia)) as (T & HT & HTl & HTw).
  pose proof (inv_size I) as Hn. pose proof (inv_range I h ltac:(mem)) as Rh.
  destruct I as [[N1 N2] (F1 & F2 & F3) (E1 & E2 & E3 & E4) _ [I5a [I5b (d & Hd & _)]] _ _ _ _ _ _].
  exists T, d. split; [exact Hd|]. split; [exact HTl|]. split; [rewrite HTl; exact HTw|].
  unfold virtqueue_add_split. st_step. rewrite (bind_lift _ _ _ tt).
  2: { unfold virtqueue_use_indirect. rewrite F1, I5a. destruct (Z.ltb_spec 1 (Z.of_nat (length (concat lo) + length (concat li)))); [|lia].
       destruct (Z.eqb_spec (Z.of_nat (length (h :: free))) 0); [simpl in *; lia|reflexivity]. }
  rewrite (bind_ok _ _ _ (p, link_table t0 0) vq) by (unfold alloc_indirect_split; rewrite bind_get, Hk; reflexivity). cbn iota.
  rewrite (bind_lift _ _ _ _ HT). rewrite bind_upd. unfold added. rewrite HTl, P4, I5b, N1.
  pose proof (Z.mod_pos_bound (avail_idx_shadow vq) n ltac:(lia)) as Rm.
  destruct vq. vq_cbn. subst free_head.
  step_desc Hd. assert (0 <= h < Z.of_nat (length desc)) as Rd by lia. step_aset Rd. rewrite bind_upd. vq_cbn.
  match goal with |- (vq_desc _ ≫= _) (Virtqueue _ _ _ _ _ _ _ _ _ _ _ _ _ _ _ _ _ _ _ (<[_ := ?x]> _) _ _ _ _ _ _) = _ =>
    step_desc (at_set_eq _ _ x Rd) end. cbn [d_next].
  rewrite bind_upd. vq_cbn. assert (0 <= h < Z.of_nat (length desc_state)) as Rs by lia. step_aset Rs. st_step. vq_cbn.
  unfold vq_num in *. vq_cbn. rewrite N1, ring_mask by assumption. assert (0 <= avail_idx_shadow mod n < Z.of_nat (length avail_ring)) as Ra by lia. step_aset Ra.
  do 3 (rewrite bind_upd; vq_cbn). st_step. vq_cbn. destruct (u32 (num_added + 1) =? 2 ^ 16 - 1); [|reflexivity].
  unfold mbind, st_bind. destruct (virtqueue_kick true _) as [[? ?]| | |]; reflexivity.
Qed.
End Adding.
