(* ===== verification/VirtioRefine.v ===== *)
(** * Virtqueues implement their specification

    The simulation between [sys_call] and [spec_call], the initial state made by
    [__vring_new_virtqueue], and the theorems about any sequence of calls. *)

From Stdlib Require Import ZArith Lia.
From stdpp Require Import base tactics numbers list gmap strings.
From S2P Require Import Prelude Words Mem Memblock Buddy Scatterlist VirtioRing VirtioSpec VirtioProofs.

Section Simulation.
Context {L : layout} {mem_map : Z} {kmalloc_array : gmap Z (list vring_desc) -> Z -> option (Z * list vring_desc)} {Halloc : TableAlloc kmalloc_array}.
Context {fuel : nat} {n : Z}.
Abbreviation sys_call := (sys_call L mem_map kmalloc_array fuel).
Abbreviation sys_run := (sys_run L mem_map kmalloc_array fuel).
Abbreviation spec_call := (spec_call L mem_map fuel n).
Abbreviation spec_run := (spec_run L mem_map fuel n).

(** Either the code answers as the specification and stays in step with it, or
    it halts because no table can be allocated. *)
Definition in_step (r : outcome (answer * sys)) (x : answer) (a : spec) : Prop :=
  (exists s, r = Ok (x, s) /\ implements L n s a) \/ r = Panic "out of memory!".

Lemma abstract_length q w c reqs : outstanding (abstract q w c reqs) = (length q + length w + length c)%nat.
Proof. unfold outstanding, abstract. simpl. by rewrite !length_fmap. Qed.

Lemma add_sim vq dev free q w c reqs ptr sgm outs ins tok x a' : vq_inv L n vq dev free q w c reqs ptr ->
  spec_call (Add sgm outs ins tok) (abstract q w c reqs) = Some (x, a') -> in_step (sys_call (Add sgm outs ins tok) (vq, dev)) x a'.
Proof.
  intros I. cbn [VirtioSpec.spec_call]. destruct (mapM (sg_entries fuel sgm) outs) as [lo|] eqn:Ho; [|discriminate].
  destruct (mapM (sg_entries fuel sgm) ins) as [li|] eqn:Hi; [|discriminate]. cbn [mbind option_bind].
  destruct (decide _) as [(D1 & D2 & D3 & D4 & D5)|]; [|discriminate]. intros [= <- <-].
  rewrite length_app, !length_fmap in D1, D2. rewrite abstract_length in D3. pose proof (inv_total I) as Ht. pose proof (inv_NoDup I) as HN.
  destruct free as [|h free]; [simpl in Ht; lia|]. simpl in HN. apply NoDup_cons in HN as [Hh _].
  set (k := Z.of_nat (length (concat lo) + length (concat li))) in *.
  cbn [VirtioSpec.sys_call]. unfold driver, virtqueue_add_sgs.
  assert (for_each_list fuel (Z.to_nat (u32 (Z.of_nat (length outs) + Z.of_nat (length ins)))) sgm (outs ++ ins) 0 (fun _ n => Ok (tt, u32 (n + 1))) 0 = Ok (tt, k)) as Hcount.
  { replace (Z.to_nat (u32 (Z.of_nat (length outs) + Z.of_nat (length ins)))) with (length (outs ++ ins)) by (unfold u32; rewrite Z.mod_small, length_app by lia; lia).
    pose proof (for_each_list_ok fuel sgm (fun _ n => Ok (tt, u32 (n + 1))) (outs ++ ins) [] [] (lo ++ li) 0 (mapM_app _ _ _ _ _ Ho Hi)) as X.
    rewrite app_nil_r in X. cbn [app length] in X. change (Z.of_nat 0) with 0 in X. rewrite X, concat_app, count_each; [f_equal; f_equal|lia|]; rewrite length_app; lia. }
  rewrite (bind_lift _ _ _ _ Hcount). cbn iota. unfold virtqueue_add.
  destruct (kmalloc_array (tables vq) k) as [[p t0]|] eqn:Hk.
  - left. destruct (add_split_ok (mem_map := mem_map) vq dev h free q w c reqs ptr fuel sgm outs ins lo li tok p t0 I Ho Hi D1 D2 D4 Hk) as (T & d & Hd & HT1 & HT2 & E). fold k in E. rewrite E. clear E.
    destruct (kmalloc_fresh _ _ _ _ Hk) as (P1 & P2 & P3 & P4).
    set (r := Request tok ((sg_buffer L mem_map false <$> concat lo) ++ (sg_buffer L mem_map true <$> concat li))).
    pose proof (added_inv vq dev h free q w c reqs ptr d p T r I Hd P1 P2 P3 D4 ltac:(lia) ltac:(lia) HT2) as I'. cbn [token r] in I'. cbn zeta.
    assert (forall vq', vq_inv L n vq' dev free (q ++ [h]) w c (fupd reqs h r) (fupd ptr h p) ->
      implements L n (vq', dev) (Spec ((reqs <$> q) ++ [r]) (reqs <$> w) ((fun x => (reqs x.1, x.2)) <$> c))) as Himp.
    { intros vq' J. do 6 eexists. split; [exact J|]. unfold abstract. rewrite !fmap_app. simpl. rewrite fupd_eq.
      rewrite (fupd_fmap reqs h r q), (fupd_fmap reqs h r w) by mem. f_equal. apply list_fmap_ext. intros i y Ey. rewrite fupd_ne; [reflexivity|].
      intros E. apply Hh. rewrite <- E. apply list_elem_of_lookup_2 in Ey. apply (list_elem_of_fmap_2 fst) in Ey. mem. }
    destruct (num_added _ =? 2 ^ 16 - 1).
    + destruct (notify_step _ _ _ _ _ _ _ _ I') as (b & vq' & E & I''). unfold virtqueue_kick. rewrite (bind_ok _ _ _ _ _ E).
      eexists. split; [reflexivity|]. by apply Himp.
    + eexists. split; [reflexivity|]. by apply Himp.
  - right. unfold virtqueue_add_split. rewrite bind_get, (bind_lift _ _ _ tt).
    + unfold alloc_indirect_split, mbind, st_bind, st_get. cbn. fold k. rewrite Hk. reflexivity.
    + unfold virtqueue_use_indirect. destruct (inv_flags _ _ _ _ _ _ _ _ _ _ I) as (-> & _), (inv_free _ _ _ _ _ _ _ _ _ _ I) as (-> & _).
      destruct (Z.ltb_spec 1 k); [|lia]. destruct (Z.eqb_spec (Z.of_nat (length (h :: free))) 0); [simpl in *; lia|reflexivity].
Qed.

Lemma call_sim c s x a a' : implements L n s a -> spec_call c a = Some (x, a') -> in_step (sys_call c s) x a'.
Proof.
  destruct s as [vq dev]. intros (free & q & w & cc & reqs & ptr & I & ->). cbn [fst snd] in I.
  destruct c as [sgm outs ins tok| | | | | |i len]; [by eapply add_sim|..]; cbn [VirtioSpec.spec_call VirtioSpec.sys_call]; unfold driver; intros E; left.
  - destruct cc as [|[h len] cc]; injection E as <- <-.
    + rewrite (get_empty _ _ _ _ _ _ _ I). eexists. split; [reflexivity|]. do 6 eexists. split; [exact I|reflexivity].
    + destruct (get_step _ _ _ _ _ _ _ _ _ _ I) as (vq' & -> & I'). eexists. split; [reflexivity|]. do 6 eexists. split; [exact I'|reflexivity].
  - injection E as <- <-. destruct (disable_step _ _ _ _ _ _ _ _ I) as (vq' & -> & I'). eexists. split; [reflexivity|]. do 6 eexists. split; [exact I'|reflexivity].
  - injection E as <- <-. destruct (enable_step _ _ _ _ _ _ _ _ I) as (vq' & -> & I' & _). eexists. split; [by destruct cc|]. do 6 eexists. split; [exact I'|reflexivity].
  - injection E as <- <-. destruct (notify_step _ _ _ _ _ _ _ _ I) as (b & vq' & -> & I'). eexists. split; [reflexivity|]. do 6 eexists. split; [exact I'|reflexivity].
  - destruct q as [|h q]; [discriminate|]. injection E as <- <-. destruct (fetch_step _ _ _ _ _ _ _ _ _ I) as (dev' & -> & I').
    eexists. split; [reflexivity|]. do 6 eexists. split; [exact I'|]. unfold abstract. cbn [VirtioSpec.working VirtioSpec.finished]. rewrite fmap_app. reflexivity.
  - cbn [working abstract] in E. rewrite list_lookup_fmap in E. destruct (w !! i) as [h|] eqn:Hi; [|discriminate]. injection E as <- <-.
    destruct (finish_step _ _ _ _ _ _ _ _ i h len I Hi) as (vq' & dev' & -> & I').
    eexists. split; [reflexivity|]. do 6 eexists. split; [exact I'|]. unfold abstract. rewrite fmap_app, list_fmap_delete. reflexivity.
Qed.

Lemma run_sim cs : forall s a l a', implements L n s a -> spec_run cs a = Some (l, a') ->
  (exists s', sys_run cs s = Ok (l, s') /\ implements L n s' a') \/ sys_run cs s = Panic "out of memory!".
Proof.
  induction cs as [|c cs IH]; intros s a l a' Hs; cbn [VirtioSpec.spec_run VirtioSpec.sys_run].
  - intros [= <- <-]. left. exists s. auto.
  - destruct (spec_call c a) as [[x a1]|] eqn:E; [|discriminate]. simpl.
    destruct (spec_run cs a1) as [[l1 a2]|] eqn:E'; [|discriminate]. intros [= <- <-].
    destruct (call_sim c s x a a1 Hs E) as [(s1 & -> & H1)| ->]; [|by right]. simpl.
    destruct (IH s1 a1 l1 a2 H1 E') as [(s2 & -> & H2)| ->]; [left|by right]. exists s2. split; [reflexivity|exact H2].
Qed.
End Simulation.

(** ** A new queue *)

Lemma link_free_spec k : forall desc i, 0 <= i -> i + Z.of_nat k <= Z.of_nat (length desc) ->
  exists d', link_free_loop k desc i = Ok d' /\ length d' = length desc /\
    (forall j x, at_ d' j x -> i <= j < i + Z.of_nat k -> d_next x = u16 (j + 1)) /\
    (forall j x, at_ desc j x -> j < i -> at_ d' j x).
Proof.
  induction k as [|k IH]; intros desc i Hi Hk; cbn [link_free_loop].
  - exists desc. split; [reflexivity|]. split; [reflexivity|]. split; [intros; lia|auto].
  - destruct (at_in desc i ltac:(lia)) as [d Hd]. rewrite (bind_out _ _ _ (at_aget _ _ _ Hd)), (bind_out _ _ _ (aset_ok _ _ _ (at_range _ _ _ Hd))).
    match goal with |- context [link_free_loop k ?D _] => destruct (IH D (i + 1)) as (d' & -> & Hl & H1 & H2) end; [lia|rewrite length_insert; lia|].
    exists d'. split; [reflexivity|]. rewrite length_insert in Hl. split; [exact Hl|]. split.
    + intros j x Hx Hj. destruct (Z.eq_dec j i) as [->|]; [|apply (H1 j x Hx); lia].
      assert (at_ d' i (VringDesc (d_addr d) (d_len d) (d_flags d) (u16 (i + 1)))) as E by (apply H2; [apply at_set_eq, (at_range _ _ _ Hd)|lia]).
      rewrite (at_fun _ _ _ _ Hx E). reflexivity.
    + intros j x Hx Hj. apply H2; [|lia]. apply at_set_ne; [lia|lia|exact Hx].
Qed.

Lemma fresh_chain desc m : (forall j x, at_ desc j x -> 0 <= j < m - 1 -> d_next x = u16 (j + 1)) -> m <= Z.of_nat (length desc) -> m <= 2 ^ 15 ->
  forall k i, 0 <= i -> i + Z.of_nat k = m -> free_chain desc i (seqZ i (Z.of_nat k)).
Proof.
  intros H Hl Hm. induction k as [|k IH]; intros i Hi Hk; [done|]. rewrite seqZ_cons by lia. simpl. split; [reflexivity|].
  destruct (at_in desc i ltac:(lia)) as [d Hd]. exists d. split; [exact Hd|]. replace (Z.pred (Z.of_nat (S k))) with (Z.of_nat k) by lia.
  destruct k as [|k]; [done|]. rewrite (H i d Hd), u16_small by lia. apply IH; lia.
Qed.

(** The features the driver needs are there and the packed layout is not. *)
Definition features_ok (vdev : virtio_device) : Prop :=
  Z.testbit (features vdev) VIRTIO_RING_F_INDIRECT_DESC = true /\ Z.testbit (features vdev) VIRTIO_RING_F_EVENT_IDX = true /\
  Z.testbit (features vdev) VIRTIO_F_RING_PACKED = false.

Lemma has_feature_bit vdev b : VIRTIO_TRANSPORT_F_START <= b < 64 -> virtio_has_feature vdev b = Ok (Z.testbit (features vdev) b).
Proof.
  intros Hb. unfold virtio_has_feature. unfold VIRTIO_TRANSPORT_F_START in *. destruct (Z.ltb_spec b 28); [lia|]. simpl. unfold __virtio_test_bit.
  destruct (Z.leb_spec 64 b); [lia|]. simpl. f_equal.
  rewrite Z.shiftl_1_l, u64_small by (split; [apply Z.pow_nonneg; lia|apply Z.pow_lt_mono_r; lia]).
  destruct (Z.testbit (features vdev) b) eqn:E.
  - apply negb_true_iff, Z.eqb_neq. intros D. assert (Z.testbit (Z.land (features vdev) (2 ^ b)) b = false) as X by (rewrite D; apply Z.bits_0).
    rewrite Z.land_spec, E, Z.pow2_bits_true in X by lia. discriminate.
  - apply negb_false_iff, Z.eqb_eq. bits k Hk. rewrite Z.pow2_bits_eqb, Z.bits_0 by lia. destruct (Z.eqb_spec b k) as [<-|]; [by rewrite E|apply andb_false_r].
Qed.

Lemma new_queue L n vdev index p_d p_a p_u desc0 ring0 used0 weak callback : ring_size n -> features_ok vdev ->
  Z.of_nat (length desc0) = n -> Z.of_nat (length ring0) = n + 1 -> Z.of_nat (length used0) = n ->
  exists vq vdev', __vring_new_virtqueue true true index (Vring n p_d p_a p_u) desc0 0 ring0 0 used0 vdev weak false callback = Ok (Some vq, vdev') /\
    implements L n (vq, Device 0 []) (Spec [] [] []).
Proof.
  intros Hn (F1 & F2 & F3) H1 H2 H3. pose proof (ring_size_range n Hn) as Hs. unfold __vring_new_virtqueue. cbn [num].
  rewrite (has_feature_bit _ VIRTIO_F_RING_PACKED), F3 by (split; reflexivity || discriminate). cbn [mbind outcome_bind negb].
  rewrite (has_feature_bit _ VIRTIO_RING_F_INDIRECT_DESC) by (split; reflexivity || discriminate). cbn [features mbind outcome_bind].
  rewrite (has_feature_bit _ VIRTIO_RING_F_EVENT_IDX) by (split; reflexivity || discriminate). cbn [features mbind outcome_bind].
  rewrite (has_feature_bit _ VIRTIO_F_ORDER_PLATFORM) by (split; reflexivity || discriminate). cbn [features mbind outcome_bind].
  rewrite F1, F2. cbn [mbind outcome_bind negb bug_on andb].
  unfold u32. rewrite Z.mod_small by lia. destruct (link_free_spec (Z.to_nat (n - 1)) desc0 0) as (d' & -> & Hl & Hd & _); [lia|lia|].
  cbn [mbind outcome_bind]. do 2 eexists. split; [reflexivity|].
  exists (seqZ 0 n), [], [], [], (fun _ => Request 0 []), (fun _ => 0). split; [|reflexivity]. cbn [fst snd]. constructor; vq_cbn; auto.
  - rewrite Hl, length_replicate. lia.
  - by rewrite app_nil_r.
  - rewrite length_seqZ. split; [lia|]. replace n with (Z.of_nat (Z.to_nat n)) by lia.
    apply (fresh_chain d' n); [|lia|lia|lia|lia]. intros j x Hx Hj. apply (Hd j x Hx). lia.
  - intros h Hh. apply elem_of_seqZ in Hh. split; [lia|]. apply lookup_replicate. split; [reflexivity|lia].
  - intros h Hh. by apply elem_of_nil in Hh.
  - intros h1 h2 Hh. by apply elem_of_nil in Hh.
  - split; [lia|]. split; [reflexivity|]. intros j x Hx. discriminate.
  - split; [reflexivity|]. split; [lia|]. split; [reflexivity|]. intros j x Hx. discriminate.
Qed.

(** ** The refinement *)

(** C8: a queue made by [__vring_new_virtqueue] behaves, under any sequence of
    adding, taking back, enabling and disabling callbacks and notifying by the
    driver and of fetching and finishing by the device, exactly as the
    specification: every call the specification allows returns (or halts for
    want of memory for a table), with the same answer; in particular the device
    finds exactly the buffers of each request, in the order they were added, and
    the driver gets every finished token back once, in the order the device
    finished them. *)
Theorem virtqueue_refines {L mem_map kmalloc_array} {Halloc : TableAlloc kmalloc_array} {fuel} n vdev index p_d p_a p_u desc0 ring0 used0 weak callback cs l a :
  ring_size n -> features_ok vdev -> Z.of_nat (length desc0) = n -> Z.of_nat (length ring0) = n + 1 -> Z.of_nat (length used0) = n ->
  spec_run L mem_map fuel n cs (Spec [] [] []) = Some (l, a) ->
  exists vq vdev', __vring_new_virtqueue true true index (Vring n p_d p_a p_u) desc0 0 ring0 0 used0 vdev weak false callback = Ok (Some vq, vdev') /\
    ((exists s, sys_run L mem_map kmalloc_array fuel cs (vq, Device 0 []) = Ok (l, s) /\ implements L n s a) \/
     sys_run L mem_map kmalloc_array fuel cs (vq, Device 0 []) = Panic "out of memory!").
Proof.
  intros Hn Hf H1 H2 H3 Hr. destruct (new_queue L n vdev index p_d p_a p_u desc0 ring0 used0 weak callback Hn Hf H1 H2 H3) as (vq & vdev' & E & I).
  exists vq, vdev'. split; [exact E|]. exact (run_sim cs _ _ _ _ I Hr).
Qed.

(** The states in step with the specification account for every descriptor. *)
Lemma implements_counts L n vq dev a : implements L n (vq, dev) a -> num_free vq = n - Z.of_nat (outstanding a).
Proof.
  intros (free & q & w & c & reqs & ptr & I & ->). cbn [fst snd] in I. rewrite abstract_length, (proj1 (inv_free _ _ _ _ _ _ _ _ _ _ I)).
  pose proof (inv_total I). lia.
Qed.

(** ** The layout of a ring *)

(** The three parts of a ring of [n] entries at [p], each with its event index,
    one after the other without overlap and the last aligned to [2 ^ k], end [size] bytes after [p]. *)
Definition laid_out (n p k size : Z) (v : vring) : Prop :=
  p_desc v = p /\ p_avail v = p + SIZEOF_DESC * n /\ p_avail v + (4 + 2 * n + 2) <= p_used v < p_avail v + (4 + 2 * n + 2) + 2 ^ k /\
  p_used v mod 2 ^ k = 0 /\ p_used v + (4 + SIZEOF_USED_ELEM * n + 2) = p + size.

(** [vring_init] lays out the descriptors, the available ring with its event
    index and the used ring with its event index one after the other without
    overlap, the used ring aligned, and the last part ends exactly where
    [vring_size] says. *)
Theorem vring_layout n p k : ring_size n -> 0 <= k < 31 -> 0 <= p -> p mod 2 ^ k = 0 -> p + 2 ^ 33 < 2 ^ 64 ->
  laid_out n p k (vring_size n (2 ^ k)) (vring_init n p (2 ^ k)).
Proof.
  intros Hn Hk Hp Hm Hb. pose proof (ring_size_range n Hn) as Hs. unfold laid_out, vring_init. cbn [p_desc p_avail p_used]. unfold SIZEOF_DESC, SIZEOF_USED_ELEM.
  pose proof (Z.pow_le_mono_r 2 k 30 ltac:(lia) ltac:(lia)) as Hk2. pose proof (pow2_pos k ltac:(lia)) as Hk1.
  rewrite (u64_small (p + n * 16)) by (unfold is_u64; lia). rewrite (u64_small (p + n * 16 + 4 + 2 * n + 2)) by (unfold is_u64; lia).
  destruct (_ALIGN_least (p + n * 16 + 4 + 2 * n + 2) k) as [A1 A2]; [unfold is_u64; lia|lia|lia|].
  destruct (_ALIGN_least (18 * n + 6) k) as [B1 B2]; [unfold is_u64; lia|lia|lia|].
  assert (_ALIGN (p + n * 16 + 4 + 2 * n + 2) (2 ^ k) = p + _ALIGN (18 * n + 6) (2 ^ k)) as E.
  { rewrite !_ALIGN_spec by (unfold is_u64; lia). replace (p + n * 16 + 4 + 2 * n + 2 + 2 ^ k - 1) with (p + (18 * n + 6 + 2 ^ k - 1)) by lia.
    rewrite Z.add_mod, Hm, Z.add_0_l, Z.mod_mod by lia. lia. }
  assert (vring_size n (2 ^ k) = _ALIGN (18 * n + 6) (2 ^ k) + (4 + 8 * n + 2)) as ->.
  { unfold vring_size, SIZEOF_DESC, SIZEOF_USED_ELEM, u32. rewrite (Z.mod_small (3 + n)), (Z.mod_small (16 * n + 2 * (3 + n))) by lia.
    replace (16 * n + 2 * (3 + n)) with (18 * n + 6) by lia. rewrite (Z.mod_small (_ALIGN _ _)), (Z.mod_small (_ALIGN _ _ + 2 * 3)), Z.mod_small by lia. lia. }
  repeat split; lia.
Qed.

Lemma vring_layout_witness : let v := vring_init 128 (2 ^ 31) (2 ^ 12) in
  p_avail v = 2 ^ 31 + SIZEOF_DESC * 128 /\ p_used v + (4 + SIZEOF_USED_ELEM * 128 + 2) = 2 ^ 31 + vring_size 128 (2 ^ 12).
Proof.
  destruct (vring_layout 128 (2 ^ 31) 12) as (_ & H1 & _ & _ & H2).
  - exists 7. split; [lia|reflexivity].
  - lia.
  - lia.
  - reflexivity.
  - lia.
  - split; [exact H1|exact H2].
Defined.
