(* ===== verification/VirtioBlk.v ===== *)
(** * virtio_blk/virtio_blk.c: the block driver on a virtqueue

    Queueing a request, which builds its header and status buffers around the
    data and adds them to the queue, and the completion handler.  The request
    memory is at [vbr]: the header at offset 0, the status byte at 16 and the
    data scatter list at 24; [hdr] and [status] are the addresses of the two
    list entries on the stack.  The mapping of the data by the block layer is
    given by its result. *)

From Stdlib Require Import ZArith Lia.
From stdpp Require Import base tactics numbers list gmap strings.
From S2P Require Import Prelude Words Mem Memblock Buddy Scatterlist VirtioRing VirtioSpec VirtioProofs VirtioRefine.

(** ** Data *)

Definition VIRTIO_BLK_T_IN : Z := 0.
Definition VIRTIO_BLK_T_OUT : Z := 1.
Definition REQ_OP_READ : Z := 0.
Definition REQ_OP_WRITE : Z := 1.
Definition REQ_OP_MASK : Z := 2 ^ 8 - 1.
Definition PART_BITS : Z := 4.
Definition SIZEOF_OUTHDR : Z := 16.
Definition vbr_status (vbr : Z) : Z := vbr + 16.
Definition vbr_sg (vbr : Z) : Z := vbr + 24.

Record virtio_blk_outhdr := OutHdr { hdr_type : Z; ioprio : Z; sector : Z }.
(** [struct request], as far as the driver reads it. *)
Record blk_request := BlkRequest { cmd_flags : Z; rq_sector : Z; rq_ioprio : Z }.
Definition req_op (req : blk_request) : Z := Z.land (cmd_flags req) REQ_OP_MASK.
Definition op_is_write (op : Z) : bool := negb (Z.land op 1 =? 0).

Inductive blk_status := BLK_STS_OK | BLK_STS_NOTSUPP | BLK_STS_IOERR.
Definition VIRTIO_BLK_S_OK : Z := 0.
Definition VIRTIO_BLK_S_UNSUPP : Z := 2.
Definition virtblk_result (status : Z) : blk_status :=
  if status =? VIRTIO_BLK_S_OK then BLK_STS_OK
  else if status =? VIRTIO_BLK_S_UNSUPP then BLK_STS_NOTSUPP
  else BLK_STS_IOERR.

Definition index_to_minor (index : Z) : Z := s32 (Z.shiftl index PART_BITS).

(** ** Completion *)

(** The requests taken by [while ((vbr = virtqueue_get_buf(...)) != NULL)]. *)
Fixpoint take_all (fuel : nat) : VQ (list Z) :=
  match fuel with
  | O => fun _ => NoFuel
  | S f => '(vbr, _) ← virtqueue_get_buf; if vbr =? 0 then mret [] else l ← take_all f; mret (vbr :: l)
  end.
Fixpoint done_loop (rounds fuel : nat) : VQ (list Z) :=
  match rounds with
  | O => fun _ => NoFuel
  | S r =>
      virtqueue_disable_cb;;
      l ← take_all fuel;
      b ← virtqueue_enable_cb;
      if (b : bool) then mret l else l' ← done_loop r fuel; mret (l ++ l')
  end.
Definition virtblk_done (fuel : nat) : VQ (list Z) := done_loop fuel fuel.

(** ** Queueing *)

Section Code.
Context (L : layout) (mem_map : Z) (kmalloc_array : gmap Z (list vring_desc) -> Z -> option (Z * list vring_desc)).

Definition virtblk_add_req (fuel : nat) (sgm : sg_mem) (hdr status vbr : Z) (out_hdr : virtio_blk_outhdr) (data_sg : Z) (have_data : bool) : VQ Z :=
  sgm ← st_lift (sg_init_one L mem_map sgm hdr vbr SIZEOF_OUTHDR);
  let out := [hdr] in
  let '(out, in_) :=
    if have_data
    then if negb (Z.land (hdr_type out_hdr) VIRTIO_BLK_T_OUT =? 0) then (out ++ [data_sg], []) else (out, [data_sg])
    else (out, []) in
  sgm ← st_lift (sg_init_one L mem_map sgm status (vbr_status vbr) 1);
  let in_ := in_ ++ [status] in
  virtqueue_add_sgs L mem_map kmalloc_array true fuel sgm (out ++ in_) (Z.of_nat (length out)) (Z.of_nat (length in_)) vbr.

(** [num] is the result of [blk_rq_map_sg], which has filled the list at
    [vbr_sg vbr]. *)
Definition virtio_queue_rq (fuel : nat) (sgm : sg_mem) (hdr status vbr : Z) (req : blk_request) (num : Z) (last : bool) : VQ (blk_status * virtio_blk_outhdr) :=
  type ← (if (req_op req =? REQ_OP_READ) || (req_op req =? REQ_OP_WRITE) then mret 0 else st_panic "bad op");
  let h := OutHdr type (rq_ioprio req) (if type =? 0 then rq_sector req else 0) in
  let h :=
    if negb (num =? 0)
    then OutHdr (Z.lor (hdr_type h) (if op_is_write (req_op req) then VIRTIO_BLK_T_OUT else VIRTIO_BLK_T_IN)) (ioprio h) (sector h)
    else h in
  err ← virtblk_add_req fuel sgm hdr status vbr h (vbr_sg vbr) (negb (num =? 0));
  (if negb (err =? 0) then st_panic "virtblk_add_req!" else mret tt);;
  (if last then virtqueue_notify true;; mret tt else mret tt);;
  mret (BLK_STS_OK, h).
End Code.

(** ** Completion handler *)

Section Completion.
Context {L : layout} {n : Z}.

Lemma take_all_ok c : forall fuel vq dev free q w reqs ptr, vq_inv L n vq dev free q w c reqs ptr -> (length c < fuel)%nat ->
  exists vq' free', take_all fuel vq = Ok ((fun x => token (reqs x.1)) <$> c, vq') /\ vq_inv L n vq' dev free' q w [] reqs ptr.
Proof.
  induction c as [|[h len] c IH]; intros fuel vq dev free q w reqs ptr I Hf; destruct fuel as [|fuel]; simpl in Hf; try lia; cbn [take_all].
  - rewrite (bind_ok _ _ _ _ _ (get_empty _ _ _ _ _ _ _ I)). cbn iota. exists vq, free. split; [reflexivity|exact I].
  - destruct (get_step _ _ _ _ _ _ _ _ _ _ I) as (vq1 & E & I1). rewrite (bind_ok _ _ _ _ _ E). cbn iota.
    destruct (Z.eqb_spec (token (reqs h)) 0) as [E0|_].
    { exfalso. apply (busy_token _ _ _ _ _ (inv_busy _ _ _ _ _ _ _ _ _ _ I h ltac:(simpl; mem))). exact E0. }
    destruct (IH fuel vq1 dev (h :: free) q w reqs ptr I1 ltac:(lia)) as (vq' & free' & E' & I'). rewrite (bind_ok _ _ _ _ _ E').
    exists vq', free'. split; [reflexivity|exact I'].
Qed.

Lemma done_ok fuel vq dev free q w c reqs ptr : vq_inv L n vq dev free q w c reqs ptr -> (length c < fuel)%nat ->
  exists vq' free', virtblk_done fuel vq = Ok ((fun x => token (reqs x.1)) <$> c, vq') /\ vq_inv L n vq' dev free' q w [] reqs ptr /\
    at_ (avail_ring vq') n (used_idx vq').
Proof.
  intros I Hf. unfold virtblk_done. destruct fuel as [|k]; [lia|]. set (fuel := S k) in *. change (done_loop fuel fuel) with (done_loop (S k) fuel). cbn [done_loop].
  destruct (disable_step _ _ _ _ _ _ _ _ I) as (vq1 & E1 & I1). rewrite (bind_ok _ _ _ _ _ E1).
  destruct (take_all_ok c fuel vq1 dev free q w reqs ptr I1 Hf) as (vq2 & free' & E2 & I2). rewrite (bind_ok _ _ _ _ _ E2).
  destruct (enable_step _ _ _ _ _ _ _ _ I2) as (vq3 & E3 & I3 & H3 & _). rewrite (bind_ok _ _ _ _ _ E3).
  exists vq3, free'. split; [reflexivity|]. split; [exact I3|]. destruct (inv_used _ _ _ _ _ _ _ _ _ _ I3) as (U1 & U2 & _).
  rewrite U2. simpl. rewrite Z.add_0_r, u16_small by exact U1. exact H3.
Qed.

(** C22: an interrupt completes everything the device has finished: the handler
    terminates, completes each finished request exactly once and in order, and
    leaves nothing behind; it publishes the used index it has reached, so that
    the next completion raises an interrupt again.  When the device has worked
    off all requests, every descriptor is free again. *)
Theorem interrupt_completes_all fuel vq dev a : implements L n (vq, dev) a -> has_callback vq = true -> finished a <> [] ->
  (length (finished a) < fuel)%nat ->
  exists vq', vring_interrupt (virtblk_done fuel) vq = Ok ((IRQ_HANDLED, Some ((fun x => token x.1) <$> finished a)), vq') /\
    implements L n (vq', dev) (Spec (waiting a) (working a) []) /\ more_used vq' = false /\ at_ (avail_ring vq') n (used_idx vq') /\
    (waiting a = [] -> working a = [] -> num_free vq' = n).
Proof.
  intros (free & q & w & c & reqs & ptr & I & ->) Hcb Hne Hf. cbn [fst snd abstract finished waiting working] in *.
  rewrite length_fmap in Hf. destruct (done_ok fuel _ _ _ _ _ _ _ _ I Hf) as (vq' & free' & E & I' & Ha).
  assert (implements L n (vq', dev) (Spec (reqs <$> q) (reqs <$> w) [])) as Himp by (do 6 eexists; split; [exact I'|reflexivity]).
  exists vq'. split; [|split; [exact Himp|split; [exact (more_used_spec _ _ _ _ _ _ _ _ I')|split; [exact Ha|]]]].
  - unfold vring_interrupt. rewrite bind_get. unfold more_used. rewrite (more_used_spec _ _ _ _ _ _ _ _ I).
    destruct c as [|x c]; [by destruct Hne|]. cbn [negb]. rewrite (proj2 (proj2 (inv_flags _ _ _ _ _ _ _ _ _ _ I))), Hcb.
    rewrite (bind_ok _ _ vq (Some ((fun x => token (reqs x.1)) <$> x :: c)) vq') by (rewrite (bind_ok _ _ _ _ _ E); reflexivity).
    unfold mret, st_ret. do 4 f_equal. rewrite <- list_fmap_compose. reflexivity.
  - intros Hq Hw. rewrite (implements_counts _ _ _ _ _ Himp). unfold outstanding. simpl. rewrite Hq, Hw. simpl. lia.
Qed.
End Completion.

(** ** Requests on the wire *)

Section Queueing.
Context {L : layout} {mem_map : Z} {kmalloc_array : gmap Z (list vring_desc) -> Z -> option (Z * list vring_desc)} {Halloc : TableAlloc kmalloc_array}.
Context {n : Z}.

Lemma one_entry sgm p sg fuel : p <> 0 -> sgm !! p = Some sg -> sg_is_last sg = true -> (1 < fuel)%nat -> sg_entries fuel sgm p = Some [sg].
Proof.
  intros Hp E Hl Hf. destruct fuel as [|[|f]]; try lia. cbn [sg_entries]. destruct (Z.eqb_spec p 0); [lia|]. rewrite E. simpl.
  unfold sg_next. rewrite E. simpl. rewrite Hl. reflexivity.
Qed.

(** The layout of a block request: header, data, status byte. *)
Definition blk_buffers (vbr : Z) (write : bool) (l : list scatterlist) : list buffer :=
  [(virt_to_phys L vbr, SIZEOF_OUTHDR, false)] ++ (sg_buffer L mem_map (negb write) <$> l) ++ [(virt_to_phys L (vbr_status vbr), 1, true)].
Definition blk_header (req : blk_request) (l : list scatterlist) : virtio_blk_outhdr :=
  OutHdr (if op_is_write (req_op req) && negb (bool_decide (l = [])) then VIRTIO_BLK_T_OUT else VIRTIO_BLK_T_IN) (rq_ioprio req) (rq_sector req).

Lemma add_req_ok fuel vq dev a sgm hdr status sg0 sg1 vbr h have_data l :
  implements L n (vq, dev) a -> Z.of_nat (outstanding a) < n -> (1 < fuel)%nat ->
  sgm !! hdr = Some sg0 -> sgm !! status = Some sg1 -> hdr <> 0 -> status <> 0 -> hdr <> status -> vbr <> 0 ->
  buf_mapped L mem_map vbr -> buf_mapped L mem_map (vbr_status vbr) -> Z.of_nat (length l) + 2 < 2 ^ 16 ->
  (if have_data : bool then forall x y, sg_entries fuel (<[status := y]> (<[hdr := x]> sgm)) (vbr_sg vbr) = Some l else l = []) ->
  let r := virtblk_add_req L mem_map kmalloc_array fuel sgm hdr status vbr h (vbr_sg vbr) have_data vq in
  (exists vq', r = Ok (0, vq') /\
    implements L n (vq', dev) (Spec (waiting a ++ [Request vbr (blk_buffers vbr (negb (Z.land (hdr_type h) VIRTIO_BLK_T_OUT =? 0)) l)]) (working a) (finished a)))
  \/ r = Panic "out of memory!".
Proof.
  intros Hi Ho Hf E0 E1 N0 N1 Nhs Nv M0 M1 Hl Hd. cbn zeta. unfold virtblk_add_req.
  destruct (sg_init_one_ok L mem_map sgm hdr vbr SIZEOF_OUTHDR sg0 M0 E0) as (g0 & I0 & L0 & P0 & S0). rewrite (bind_lift _ _ _ _ I0).
  destruct (sg_init_one_ok L mem_map (<[hdr := g0]> sgm) status (vbr_status vbr) 1 sg1 M1) as (g1 & I1 & L1 & P1 & S1); [by rewrite lookup_insert_ne|].
  set (m := <[status := g1]> (<[hdr := g0]> sgm)) in *.
  assert (sg_entries fuel m hdr = Some [g0]) as X0 by (apply one_entry; auto; unfold m; rewrite lookup_insert_ne, lookup_insert_eq; auto).
  assert (sg_entries fuel m status = Some [g1]) as X1 by (apply one_entry; auto; unfold m; apply lookup_insert_eq).
  set (w := negb (Z.land (hdr_type h) VIRTIO_BLK_T_OUT =? 0)).
  assert (exists outs ins, (if have_data then if w then ([hdr] ++ [vbr_sg vbr], []) else ([hdr], [vbr_sg vbr]) else ([hdr], [])) = (outs, ins) /\
    spec_call L mem_map fuel n (Add m outs (ins ++ [status]) vbr) a =
      Some (Added 0, Spec (waiting a ++ [Request vbr (blk_buffers vbr w l)]) (working a) (finished a)) ) as (outs & ins & Eoi & Hspec).
  { assert (forall outs ins lo li, (outs, ins) = (if have_data then if w then ([hdr; vbr_sg vbr], []) else ([hdr], [vbr_sg vbr]) else ([hdr], [])) ->
      mapM (sg_entries fuel m) outs = Some lo -> mapM (sg_entries fuel m) (ins ++ [status]) = Some li ->
      (sg_buffer L mem_map false <$> concat lo) ++ (sg_buffer L mem_map true <$> concat li) = blk_buffers vbr w l ->
      spec_call L mem_map fuel n (Add m outs (ins ++ [status]) vbr) a =
      Some (Added 0, Spec (waiting a ++ [Request vbr (blk_buffers vbr w l)]) (working a) (finished a))) as K.
    { intros outs ins lo li Eoi Hlo Hli Hb. cbn [spec_call]. rewrite Hlo, Hli. cbn [mbind option_bind]. rewrite Hb, decide_True; [reflexivity|].
      unfold blk_buffers. rewrite !length_app, length_fmap. simpl. repeat split; [lia|lia|exact Ho|exact Nv|].
      destruct have_data, w; injection Eoi as -> ->; reflexivity. }
    unfold blk_buffers in *. unfold sg_buffer in K. destruct have_data; [specialize (Hd g0 g1); fold m in Hd; destruct w|subst l];
      do 2 eexists; (split; [reflexivity|]); eapply K; try reflexivity; simpl; rewrite ?X0, ?X1, ?Hd; try reflexivity; simpl;
      rewrite ?P0, ?P1, ?S0, ?S1, ?app_nil_r, ?fmap_app; simpl; rewrite ?P0, ?P1, ?S0, ?S1; reflexivity. }
  change ([hdr] ++ [vbr_sg vbr]) with [hdr; vbr_sg vbr] in *. rewrite Eoi. cbn beta iota zeta. rewrite (bind_lift _ _ _ _ I1). fold m.
  pose proof (call_sim (kmalloc_array := kmalloc_array) _ _ _ _ _ Hi Hspec) as [(s & E & Hs)|E]; cbn [sys_call] in E; unfold driver in E.
  - destruct (virtqueue_add_sgs _ _ _ _ _ _ _ _ _ _ vq) as [[r vq']| | |] eqn:Ea; try discriminate. injection E as Er <-. left. exists vq'.
    rewrite Er. split; [reflexivity|exact Hs].
  - right. destruct (virtqueue_add_sgs _ _ _ _ _ _ _ _ _ _ vq) as [[r vq']| | |] eqn:Ea; try discriminate. injection E as ->. reflexivity.
Qed.

(** queueing a read or write request puts it before the device in the virtio
    block layout: the 16-byte header, the data (readable for a write, writable
    for a read) and the writable status byte, as one request with the token of
    the request; the header carries the operation and the sector.  The call
    returns success, or halts when there is no memory for the table. *)
Theorem queue_rq_layout fuel vq dev a sgm hdr status sg0 sg1 vbr req num last l :
  implements L n (vq, dev) a -> Z.of_nat (outstanding a) < n -> (1 < fuel)%nat ->
  sgm !! hdr = Some sg0 -> sgm !! status = Some sg1 -> hdr <> 0 -> status <> 0 -> hdr <> status -> vbr <> 0 ->
  buf_mapped L mem_map vbr -> buf_mapped L mem_map (vbr_status vbr) -> Z.of_nat (length l) + 2 < 2 ^ 16 ->
  num = Z.of_nat (length l) -> (l <> [] -> forall x y, sg_entries fuel (<[status := y]> (<[hdr := x]> sgm)) (vbr_sg vbr) = Some l) ->
  req_op req = REQ_OP_READ \/ req_op req = REQ_OP_WRITE ->
  let r := virtio_queue_rq L mem_map kmalloc_array fuel sgm hdr status vbr req num last vq in
  (exists vq', r = Ok ((BLK_STS_OK, blk_header req l), vq') /\
    implements L n (vq', dev) (Spec (waiting a ++ [Request vbr (blk_buffers vbr (op_is_write (req_op req)) l)]) (working a) (finished a)))
  \/ r = Panic "out of memory!".
Proof.
  intros Hi Ho Hf E0 E1 N0 N1 Nhs Nv M0 M1 Hl -> Hd Hop. cbn zeta. unfold virtio_queue_rq.
  rewrite (bind_ok _ _ vq 0 vq) by (destruct Hop as [-> | ->]; reflexivity). cbn beta zeta. cbn [hdr_type ioprio sector]. change (0 =? 0) with true. cbn iota.
  set (have := negb (Z.of_nat (length l) =? 0)).
  assert (if have then forall x y, sg_entries fuel (<[status := y]> (<[hdr := x]> sgm)) (vbr_sg vbr) = Some l else l = []) as Hd'.
  { unfold have. destruct (Z.eqb_spec (Z.of_nat (length l)) 0); simpl; [destruct l; [reflexivity|simpl in *; lia]|]. apply Hd. intros ->. done. }
  assert ((if have then OutHdr (Z.lor 0 (if op_is_write (req_op req) then VIRTIO_BLK_T_OUT else VIRTIO_BLK_T_IN)) (rq_ioprio req) (rq_sector req)
           else OutHdr 0 (rq_ioprio req) (rq_sector req)) = blk_header req l) as ->.
  { unfold have, blk_header. destruct l as [|x l]; simpl; [rewrite andb_false_r; reflexivity|].
    destruct (Z.eqb_spec (Z.of_nat (S (length l))) 0); [lia|]. simpl. rewrite andb_true_r. by destruct (op_is_write _). }
  assert (blk_buffers vbr (negb (Z.land (hdr_type (blk_header req l)) VIRTIO_BLK_T_OUT =? 0)) l = blk_buffers vbr (op_is_write (req_op req)) l) as HB.
  { unfold blk_header. destruct l as [|x l]; [reflexivity|]. simpl. rewrite andb_true_r. by destruct (op_is_write _). }
  destruct (add_req_ok fuel vq dev a sgm hdr status sg0 sg1 vbr (blk_header req l) have l Hi Ho Hf E0 E1 N0 N1 Nhs Nv M0 M1 Hl Hd') as [(vq1 & E & H1)|E].
  - left. rewrite HB in H1. rewrite (bind_ok _ _ _ _ _ E). change (negb (0 =? 0)) with false. cbn iota. rewrite (bind_ok _ _ vq1 tt vq1 eq_refl).
    destruct last; [|exists vq1; split; [reflexivity|exact H1]]. destruct H1 as (free & q & w & c & reqs & ptr & I & Ea).
    destruct (notify_step _ _ _ _ _ _ _ _ I) as (b & vq2 & E2 & I2). exists vq2. cbn [fst] in E2.
    rewrite (bind_ok _ _ vq1 tt vq2) by (rewrite (bind_ok _ _ _ _ _ E2); reflexivity).
    split; [reflexivity|]. do 6 eexists. split; [exact I2|exact Ea].
  - right. unfold mbind, st_bind. rewrite E. reflexivity.
Qed.
End Queueing.

(** ** Witnesses *)

(** An allocator of tables above the highest address in use. *)
Definition top_table (t : gmap Z (list vring_desc)) : Z := map_fold (fun k _ m => Z.max k m) 4096 t.
Definition kmalloc_top (t : gmap Z (list vring_desc)) (k : Z) : option (Z * list vring_desc) :=
  if (0 <=? k) && (top_table t + 16 <? 2 ^ 64) then Some (top_table t + 16, replicate (Z.to_nat k) (VringDesc 0 0 0 0)) else None.

Lemma top_table_spec t : 4096 <= top_table t /\ forall k v, t !! k = Some v -> k <= top_table t.
Proof.
  unfold top_table. apply (map_fold_weak_ind (fun m t => 4096 <= m /\ forall k v, t !! k = Some v -> k <= m)).
  - split; [lia|]. intros k v. by rewrite lookup_empty.
  - intros k x m r _ [H1 H2]. split; [lia|]. intros k' v. rewrite lookup_insert_Some. intros [[<- _]|[_ H]]; [lia|]. specialize (H2 _ _ H). lia.
Qed.
#[export] Instance kmalloc_top_alloc : TableAlloc kmalloc_top.
Proof.
  constructor. intros t k p l. unfold kmalloc_top. destruct (top_table_spec t) as [H1 H2].
  destruct (Z.leb_spec 0 k); [|discriminate]. destruct (Z.ltb_spec (top_table t + 16) (2 ^ 64)); [|discriminate]. intros [= <- <-].
  split; [lia|]. split; [unfold is_u64; lia|]. split; [|rewrite length_replicate; lia].
  destruct (t !! (top_table t + 16)) as [v|] eqn:E; [|reflexivity]. specialize (H2 _ _ E). lia.
Qed.

Definition w_L : layout := Layout 0 0 1000.
Definition w_mem_map : Z := 2 ^ 20.
Definition w_vdev : virtio_device := VirtioDevice (2 ^ 28 + 2 ^ 29) [] None [].
Definition w_new : outcome (option virtqueue * virtio_device) :=
  __vring_new_virtqueue true true 0 (Vring 4 0 0 0) (replicate 4 (VringDesc 0 0 0 0)) 0 (replicate 5 0) 0 (replicate 4 (UsedElem 0 0)) w_vdev false false true.
Definition w_sgm : sg_mem := {[ 64 := Scatterlist 1048578 0 16; 96 := Scatterlist 1048578 32 1; 8216 := Scatterlist 1048682 0 512 ]}.
Definition w_calls : list call := [Add w_sgm [64] [8216; 96] 8192; Fetch; Finish 0 513].
Definition w_buffers : list buffer := [(0, 16, false); (4096, 512, true); (32, 1, true)].
Definition w_after : spec := Spec [] [] [(Request 8192 w_buffers, 513)].

Lemma w_features : features_ok w_vdev.
Proof. repeat split. Qed.
Lemma w_ring : ring_size 4.
Proof. exists 2. split; [lia|reflexivity]. Qed.
Lemma w_spec : spec_run w_L w_mem_map 3 4 w_calls (Spec [] [] []) = Some ([Added 0; View w_buffers; Done], w_after).
Proof. vm_compute. reflexivity. Qed.

Lemma virtqueue_refines_witness : exists vq vdev', w_new = Ok (Some vq, vdev') /\
  ((exists s, sys_run w_L w_mem_map kmalloc_top 3 w_calls (vq, Device 0 []) = Ok ([Added 0; View w_buffers; Done], s) /\ implements w_L 4 s w_after) \/
   sys_run w_L w_mem_map kmalloc_top 3 w_calls (vq, Device 0 []) = Panic "out of memory!").
Proof.
  apply (virtqueue_refines 4 w_vdev 0 0 0 0 (replicate 4 (VringDesc 0 0 0 0)) (replicate 5 0) (replicate 4 (UsedElem 0 0)) false true w_calls).
  - exact w_ring.
  - exact w_features.
  - reflexivity.
  - reflexivity.
  - reflexivity.
  - exact w_spec.
Defined.

(** The state of the queue after these calls. *)
Definition w_default : virtqueue := Virtqueue false 0 false false false false false false 0 0 (Vring 0 0 0 0) false 0 0 0 0 0 0 [] [] 0 [] 0 [] ∅ 0.
Definition w_vq : virtqueue := match w_new with Ok (Some vq, _) => vq | _ => w_default end.
Definition w_sys : sys :=
  match sys_run w_L w_mem_map kmalloc_top 3 w_calls (w_vq, Device 0 []) with Ok (_, s) => s | _ => (w_default, Device 0 []) end.
Lemma w_fresh_implements : implements w_L 4 (w_vq, Device 0 []) (Spec [] [] []).
Proof.
  destruct (new_queue w_L 4 w_vdev 0 0 0 0 (replicate 4 (VringDesc 0 0 0 0)) (replicate 5 0) (replicate 4 (UsedElem 0 0)) false true) as (vq & d & E & I);
    [exact w_ring|exact w_features|reflexivity..|]. unfold w_vq, w_new. rewrite E. exact I.
Qed.
Lemma w_implements : implements w_L 4 (w_sys.1, w_sys.2) w_after.
Proof.
  destruct (run_sim (kmalloc_array := kmalloc_top) w_calls _ _ _ _ w_fresh_implements w_spec) as [(s & E & I)|E].
  - unfold w_sys. rewrite E. destruct s. exact I.
  - exfalso. revert E. vm_compute. discriminate.
Qed.

Lemma interrupt_completes_all_witness : exists vq',
  vring_interrupt (virtblk_done 2) w_sys.1 = Ok ((IRQ_HANDLED, Some [8192]), vq') /\ more_used vq' = false /\ num_free vq' = 4.
Proof.
  destruct (interrupt_completes_all (L := w_L) (n := 4) 2 w_sys.1 w_sys.2 w_after) as (vq' & E & _ & H1 & _ & H2).
  - exact w_implements.
  - vm_compute. reflexivity.
  - discriminate.
  - simpl. lia.
  - exists vq'. split; [exact E|]. split; [exact H1|]. apply H2; reflexivity.
Defined.

Lemma w_mapped a : 0 <= a < 4096 * 1000 -> buf_mapped w_L w_mem_map a.
Proof.
  intros H. unfold buf_mapped. assert (0 <= virt_to_pfn w_L a < 1000) as Hp.
  { unfold virt_to_pfn, PFN_DOWN, PAGE_SHIFT. cbn [va_pa_offset w_L]. rewrite Z.sub_0_r, u64_small, Z.shiftr_div_pow2 by (unfold is_u64; lia).
    split; [apply Z.div_pos; lia|apply Z.div_lt_upper_bound; lia]. }
  cbn [pfn_base va_pa_offset w_L]. unfold is_u64, w_mem_map, SIZEOF_PAGE. repeat split; try lia; reflexivity.
Qed.

Lemma queue_rq_layout_witness : exists vq' : virtqueue,
  virtio_queue_rq w_L w_mem_map kmalloc_top 3 w_sgm 64 96 8192 (BlkRequest 1 40 0) 1 true w_vq = Ok ((BLK_STS_OK, OutHdr 1 0 40), vq') /\
  implements w_L 4 (vq', Device 0 []) (Spec [Request 8192 [(8192, 16, false); (4096, 512, false); (8208, 1, true)]] [] []).
Proof.
  destruct (queue_rq_layout (L := w_L) (mem_map := w_mem_map) (kmalloc_array := kmalloc_top) (n := 4) 3 w_vq (Device 0 []) (Spec [] [] []) w_sgm 64 96
    (Scatterlist 1048578 0 16) (Scatterlist 1048578 32 1) 8192 (BlkRequest 1 40 0) 1 true [Scatterlist 1048682 0 512]) as [H|E].
  - exact w_fresh_implements.
  - vm_compute. reflexivity.
  - lia.
  - reflexivity.
  - reflexivity.
  - lia.
  - lia.
  - lia.
  - lia.
  - apply w_mapped. lia.
  - apply w_mapped. unfold vbr_status. lia.
  - simpl. lia.
  - reflexivity.
  - intros _ x y. apply one_entry; [unfold vbr_sg; lia| |reflexivity|lia]. unfold vbr_sg. rewrite !lookup_insert_ne by lia. reflexivity.
  - right. reflexivity.
  - destruct H as (vq' & E & I). exists vq'. split; [exact E|exact I].
  - exfalso. revert E. vm_compute. discriminate.
Defined.
