(* ===== verification/VirtioTypes.v ===== *)
(** * The fields of a virtqueue stay within their C types

    Every field of the model is an integer; this file shows that no call, in
    any state whatever, takes one out of the range of its C type. *)

From Stdlib Require Import ZArith Lia.
From stdpp Require Import base tactics numbers list gmap strings.
From S2P Require Import Prelude Words Mem Memblock Buddy Scatterlist VirtioRing VirtioSpec VirtioProofs VirtioRefine VirtioBlk.

Definition is_u16 (x : Z) : Prop := 0 <= x < 2 ^ 16.
Definition is_u32 (x : Z) : Prop := 0 <= x < 2 ^ 32.

Definition desc_typed (d : vring_desc) : Prop := is_u64 (d_addr d) /\ is_u32 (d_len d) /\ is_u16 (d_flags d) /\ is_u16 (d_next d).
Definition state_typed (s : vring_desc_state) : Prop := is_u64 (data s) /\ is_u64 (indir_desc s).
Definition used_typed (u : vring_used_elem) : Prop := is_u32 (u_id u) /\ is_u32 (u_len u).

Record vq_typed (vq : virtqueue) : Prop := {
  ty_num : is_u32 (vq_num vq);
  ty_counts : is_u32 (num_free vq) /\ is_u32 (free_head vq) /\ is_u32 (num_added vq);
  ty_indices : is_u16 (last_used_idx vq) /\ is_u16 (avail_flags_shadow vq) /\ is_u16 (avail_idx_shadow vq) /\
    is_u16 (avail_idx vq) /\ is_u16 (used_idx vq);
  ty_desc : Forall desc_typed (desc vq);
  ty_state : Forall state_typed (desc_state vq);
  ty_avail : Forall is_u16 (avail_ring vq);
  ty_used : Forall used_typed (used_ring vq);
  ty_tables : map_Forall (fun p t => is_u64 p /\ Forall desc_typed t) (tables vq) }.
Definition sys_typed (s : sys) : Prop := vq_typed s.1 /\ is_u16 (last_avail s.2) /\ Forall is_u16 (fetched s.2).

(** ** Programs that keep a property of the state *)

Definition keeps {S A} (P : S -> Prop) (m : ST S A) (Q : A -> Prop) : Prop :=
  forall s a s', P s -> m s = Ok (a, s') -> Q a /\ P s'.

Lemma keeps_bind {S A B} P (m : ST S A) (f : A -> ST S B) Q R : keeps P m Q -> (forall a, Q a -> keeps P (f a) R) -> keeps P (m ≫= f) R.
Proof.
  intros Hm Hf s b s' Hs. unfold mbind, st_bind. destruct (m s) as [[a s1]| | |] eqn:E; try discriminate.
  destruct (Hm s a s1 Hs E) as [HQ H1]. apply (Hf a HQ). exact H1.
Qed.
Lemma keeps_ret {S A} (P : S -> Prop) (a : A) (Q : A -> Prop) : Q a -> keeps P (mret a) Q.
Proof. intros HQ s b s' Hs [= <- <-]. auto. Qed.
Lemma keeps_get {S} (P : S -> Prop) : keeps P st_get P.
Proof. intros s a s' Hs [= <- <-]. auto. Qed.
Lemma keeps_put {S} (P : S -> Prop) s : P s -> keeps P (st_put s) (fun _ => True).
Proof. intros H s0 a s' _ [= <- <-]. auto. Qed.
Lemma keeps_lift {S A} (P : S -> Prop) (m : outcome A) (Q : A -> Prop) : (forall a, m = Ok a -> Q a) -> keeps P (st_lift m) Q.
Proof. intros H s a s' Hs. unfold st_lift. destruct m; try discriminate. intros [= <- <-]. auto. Qed.
Lemma keeps_panic {S A} (P : S -> Prop) msg (Q : A -> Prop) : keeps P (st_panic msg) Q.
Proof. intros s a s' _ [=]. Qed.
Lemma keeps_upd P f : (forall vq, P vq -> P (f vq)) -> keeps P (upd_vq f) (fun _ => True).
Proof. intros H s a s' Hs [= <- <-]. auto. Qed.
Lemma keeps_weaken {S A} (P : S -> Prop) (m : ST S A) (Q R : A -> Prop) : keeps P m Q -> (forall a, Q a -> R a) -> keeps P m R.
Proof. intros H HR s a s' Hs E. destruct (H s a s' Hs E). auto. Qed.
Create HintDb keeps.
#[export] Hint Resolve keeps_ret keeps_get keeps_panic : keeps.

Lemma aget_typed {A} (P : A -> Prop) l i x : Forall P l -> aget l i = Ok x -> P x.
Proof.
  intros H. unfold aget. destruct (i <? 0); [discriminate|]. destruct (l !! Z.to_nat i) eqn:E; [|discriminate]. intros [= <-].
  by eapply Forall_lookup_1.
Qed.
Lemma aset_typed {A} (P : A -> Prop) l i x l' : Forall P l -> P x -> aset l i x = Ok l' -> Forall P l'.
Proof. intros H Hx. unfold aset. destruct (_ && _); [|discriminate]. intros [= <-]. by apply Forall_insert. Qed.

Lemma u16_typed x : is_u16 (u16 x).
Proof. apply u16_range. Qed.
Lemma u32_typed x : is_u32 (u32 x).
Proof. unfold is_u32, u32. apply Z.mod_pos_bound. lia. Qed.
Lemma u16_u32 x : is_u16 x -> is_u32 x.
Proof. unfold is_u16, is_u32. lia. Qed.
#[export] Hint Resolve u16_typed u32_typed u16_u32 u64_range : keeps.

(** Setters of fields that keep their types. *)
Ltac typed_field := match goal with H : vq_typed ?vq |- _ => destruct H as [? (? & ? & ?) (? & ? & ? & ? & ?) ? ? ? ? ?]; destruct vq; constructor; vq_cbn; auto 10 with keeps end.

Lemma typed_num_free vq v : vq_typed vq -> vq_typed (set_num_free vq v).
Proof. intros H. typed_field. Qed.
Lemma typed_free_head vq v : is_u32 v -> vq_typed vq -> vq_typed (set_free_head vq v).
Proof. intros Hv H. typed_field. Qed.
Lemma typed_num_added vq v : vq_typed vq -> vq_typed (set_num_added vq v).
Proof. intros H. typed_field. Qed.
Lemma typed_last_used vq v : vq_typed vq -> vq_typed (set_last_used_idx vq v).
Proof. intros H. typed_field. Qed.
Lemma typed_broken vq v : vq_typed vq -> vq_typed (set_broken vq v).
Proof. intros H. typed_field. Qed.
Lemma typed_flags vq v : vq_typed vq -> vq_typed (set_avail_flags_shadow vq v).
Proof. intros H. typed_field. Qed.
Lemma typed_shadow vq v : vq_typed vq -> vq_typed (set_avail_idx_shadow vq v).
Proof. intros H. typed_field. Qed.
Lemma typed_avail_idx vq v : vq_typed vq -> vq_typed (set_avail_idx vq v).
Proof. intros H. typed_field. Qed.
Lemma typed_desc vq v : Forall desc_typed v -> vq_typed vq -> vq_typed (set_desc vq v).
Proof. intros Hv H. typed_field. Qed.
Lemma typed_desc_state vq v : Forall state_typed v -> vq_typed vq -> vq_typed (set_desc_state vq v).
Proof. intros Hv H. typed_field. Qed.
Lemma typed_avail_ring vq v : Forall is_u16 v -> vq_typed vq -> vq_typed (set_avail_ring vq v).
Proof. intros Hv H. typed_field. Qed.
Lemma typed_tables vq v : map_Forall (fun p t => is_u64 p /\ Forall desc_typed t) v -> vq_typed vq -> vq_typed (set_tables vq v).
Proof. intros Hv H. typed_field. Qed.
Lemma typed_notified vq v : vq_typed vq -> vq_typed (set_notified vq v).
Proof. intros H. typed_field. Qed.
#[export] Hint Resolve typed_num_free typed_free_head typed_num_added typed_last_used typed_broken typed_flags typed_shadow
  typed_avail_idx typed_notified : keeps.

Lemma keeps_desc i : keeps vq_typed (vq_desc i) desc_typed.
Proof. apply (keeps_bind _ _ _ vq_typed); [apply keeps_get|]. intros vq H. apply keeps_lift. intros d. apply aget_typed, H. Qed.
Lemma keeps_state i : keeps vq_typed (vq_state i) state_typed.
Proof. apply (keeps_bind _ _ _ vq_typed); [apply keeps_get|]. intros vq H. apply keeps_lift. intros d. apply aget_typed, H. Qed.
Lemma keeps_aset {A} (get : virtqueue -> list A) set (P : A -> Prop) i x : (forall vq, vq_typed vq -> Forall P (get vq)) ->
  (forall vq l, Forall P l -> vq_typed vq -> vq_typed (set vq l)) -> P x -> keeps vq_typed (vq_aset get set i x) (fun _ => True).
Proof.
  intros Hg Hs Hx. apply (keeps_bind _ _ _ vq_typed); [apply keeps_get|]. intros vq H.
  apply (keeps_bind _ _ _ (Forall P)); [apply keeps_lift; intros l; apply aset_typed; auto|]. intros l Hl. apply keeps_put. auto.
Qed.
#[export] Hint Resolve keeps_desc keeps_state : keeps.

(** ** The calls of the driver *)

Ltac keeps_step := match goal with
  | |- keeps _ (mret _) _ => apply keeps_ret
  | |- keeps _ (st_panic _) _ => apply keeps_panic
  | |- keeps _ (st_get ≫= _) _ => eapply keeps_bind; [apply keeps_get|intros ? ?]
  | |- keeps _ (upd_vq _ ≫= _) _ => eapply keeps_bind; [apply keeps_upd|intros ? _]
  | |- keeps _ (vq_desc _ ≫= _) _ => eapply keeps_bind; [apply keeps_desc|intros ? ?]
  | |- keeps _ (vq_state _ ≫= _) _ => eapply keeps_bind; [apply keeps_state|intros ? ?]
  | |- keeps _ (vq_aset desc set_desc _ _ ≫= _) _ => eapply keeps_bind; [apply (keeps_aset _ _ desc_typed); [apply ty_desc|auto using typed_desc|]|intros ? _]
  | |- keeps _ (vq_aset desc_state set_desc_state _ _ ≫= _) _ => eapply keeps_bind; [apply (keeps_aset _ _ state_typed); [apply ty_state|auto using typed_desc_state|]|intros ? _]
  | |- keeps _ (vq_aset avail_ring set_avail_ring _ _ ≫= _) _ => eapply keeps_bind; [apply (keeps_aset _ _ is_u16); [apply ty_avail|auto using typed_avail_ring|]|intros ? _]
  | |- keeps _ (st_lift (bug_on _ _) ≫= _) _ => eapply keeps_bind; [apply (keeps_lift _ _ (fun _ => True)); auto|intros ? _]
  | |- keeps _ (if ?b then _ else _) _ => destruct b
  end.

Lemma keeps_unmap : keeps vq_typed vring_unmap_one_split (fun _ => True).
Proof. unfold vring_unmap_one_split. repeat keeps_step; auto. Qed.
Lemma keeps_unmap_loop k : keeps vq_typed (unmap_loop k) (fun _ => True).
Proof. induction k as [|k IH]; [by apply keeps_ret|]. eapply keeps_bind; [apply keeps_unmap|auto]. Qed.
Lemma keeps_notify b : keeps vq_typed (virtqueue_notify b) (fun _ => True).
Proof. unfold virtqueue_notify. repeat keeps_step; auto with keeps. Qed.
Lemma keeps_detach_loop k : forall i, is_u32 i -> keeps vq_typed (detach_loop k i) is_u32.
Proof.
  induction k as [|k IH]; intros i Hi; [intros s a s' _ [=]|]. cbn [detach_loop]. repeat keeps_step; auto.
  eapply keeps_bind; [apply keeps_unmap|]. intros _ _. repeat keeps_step; auto with keeps. apply IH. match goal with H : desc_typed _ |- _ => apply u16_u32, H end.
Qed.

Lemma keeps_detach h : is_u32 h -> keeps vq_typed (detach_buf_split h) (fun _ => True).
Proof.
  intros Hh. unfold detach_buf_split. repeat keeps_step.
  { match goal with H : state_typed _ |- _ => destruct H end. split; [cbn; unfold is_u64; lia|assumption]. }
  eapply keeps_bind; [apply keeps_detach_loop, Hh|]. intros i Hi. eapply keeps_bind; [apply keeps_unmap|]. intros _ _. repeat keeps_step; auto with keeps.
  { match goal with H : desc_typed _ |- _ => destruct H as (D1 & D2 & D3 & _) end. exact (conj D1 (conj D2 (conj D3 (u16_typed _)))). }
  eapply keeps_bind; [apply keeps_unmap_loop|]. intros _ _. repeat keeps_step.
  - intros vq Hvq. apply typed_tables; [|exact Hvq]. apply map_Forall_delete, Hvq.
  - apply (keeps_aset _ _ state_typed); [apply ty_state|auto using typed_desc_state|]. match goal with H : state_typed _ |- _ => destruct H end. split; [assumption|cbn; unfold is_u64; lia].
Qed.

Lemma keeps_get_buf : keeps vq_typed virtqueue_get_buf (fun _ => True).
Proof.
  unfold virtqueue_get_buf, virtqueue_get_buf_ctx, virtqueue_get_buf_ctx_split. repeat keeps_step; auto.
  eapply keeps_bind; [apply (keeps_lift _ _ used_typed); intros e; apply aget_typed, ty_used; assumption|]. intros e He. repeat keeps_step; auto.
  eapply keeps_bind; [apply keeps_detach, He|]. intros _ _. repeat keeps_step; auto with keeps.
Qed.

Lemma keeps_disable : keeps vq_typed virtqueue_disable_cb (fun _ => True).
Proof. apply keeps_upd. intros vq H. destruct (_ =? 0); auto with keeps. Qed.
Lemma keeps_enable : keeps vq_typed virtqueue_enable_cb (fun _ => True).
Proof.
  unfold virtqueue_enable_cb, virtqueue_enable_cb_prepare, virtqueue_enable_cb_prepare_split, virtqueue_poll.
  eapply (keeps_bind _ _ _ (fun _ => True)).
  - repeat keeps_step; auto. { intros vq H. unfold allow_interrupts. destruct (negb _); auto with keeps. }
    match goal with H : vq_typed _ |- _ => apply H end.
  - intros u _. eapply (keeps_bind _ _ _ (fun _ => True)); repeat keeps_step; auto. intros b _. repeat keeps_step; auto.
Qed.

Lemma clear_next_typed f : is_u16 f -> is_u16 (Z.land f (Z.lnot VRING_DESC_F_NEXT)).
Proof.
  intros H. rewrite <- Z.ldiff_land. change VRING_DESC_F_NEXT with (Z.ones 1). rewrite Z.ldiff_ones_r, Z.shiftr_div_pow2, Z.shiftl_mul_pow2 by lia.
  unfold is_u16 in *. change (2 ^ 1) with 2. pose proof (Z.div_mod f 2). pose proof (Z.mod_pos_bound f 2). lia.
Qed.

(** Constants are in range by evaluation. *)
Ltac const16 := vm_compute; intuition congruence.

Section Add.
Context (L : layout) (mem_map : Z) (kmalloc_array : gmap Z (list vring_desc) -> Z -> option (Z * list vring_desc)).
Hypothesis kmalloc_typed : forall t k p l, kmalloc_array t k = Some (p, l) -> is_u64 p /\ Forall desc_typed l.
Definition sg_typed (sg : scatterlist) : Prop := is_u32 (sg_length sg).
Definition fill_typed (s : filling) : Prop := Forall desc_typed s.1.1 /\ is_u16 s.1.2.

Lemma keeps_fill_one flags sg : is_u16 flags -> sg_typed sg -> keeps fill_typed (fill_one L mem_map flags sg) (fun _ => True).
Proof.
  intros Hf Hs [[t i] prev] [] s' [Ht Hi]. cbn [fst snd] in *. unfold fill_one. destruct (aget t i) as [d| | |] eqn:E; try discriminate. cbn [mbind outcome_bind].
  destruct (aset t i _) as [t'| | |] eqn:E'; try discriminate. intros [= <-]. split; [exact Logic.I|].
  destruct (aget_typed _ _ _ _ Ht E) as (D1 & D2 & D3 & D4). split; cbn [fst snd]; [|exact D4].
  refine (aset_typed _ _ _ _ _ Ht _ E'). exact (conj (u64_range _) (conj Hs (conj Hf D4))).
Qed.
Lemma keeps_each_sg {S} (P : S -> Prop) fuel sgm (body : scatterlist -> ST S unit) : map_Forall (fun _ => sg_typed) sgm ->
  (forall sg, sg_typed sg -> keeps P (body sg) (fun _ => True)) -> forall p, keeps P (for_each_sg fuel sgm body p) (fun _ => True).
Proof.
  intros Hm Hb. induction fuel as [|fuel IH]; intros p; [intros s a s' _ [=]|]. cbn [for_each_sg]. destruct (p =? 0); [by apply keeps_ret|].
  apply (keeps_bind _ _ _ sg_typed); [apply keeps_lift; intros sg; destruct (sgm !! p) as [x|] eqn:E; [|discriminate]; intros [= <-]; exact (Hm _ _ E)|].
  intros sg Hsg. eapply keeps_bind; [apply Hb, Hsg|]. intros _ _. apply (keeps_bind _ _ _ (fun _ => True)); [by apply keeps_lift|]. auto.
Qed.
Lemma keeps_each_list {S} (P : S -> Prop) fuel sgm sgs (body : scatterlist -> ST S unit) : map_Forall (fun _ => sg_typed) sgm ->
  (forall sg, sg_typed sg -> keeps P (body sg) (fun _ => True)) -> forall cnt i, keeps P (for_each_list fuel cnt sgm sgs i body) (fun _ => True).
Proof.
  intros Hm Hb. induction cnt as [|cnt IH]; intros i; [by apply keeps_ret|]. cbn [for_each_list].
  apply (keeps_bind _ _ _ (fun _ => True)); [by apply keeps_lift|]. intros p _. eapply keeps_bind; [by apply keeps_each_sg|]. auto.
Qed.

Lemma link_table_typed l : forall i, Forall desc_typed l -> Forall desc_typed (link_table l i).
Proof.
  induction l as [|d l IH]; intros i H; simpl; [constructor|]. apply Forall_cons in H as [(D1 & D2 & D3 & D4) Hl].
  constructor; [exact (conj D1 (conj D2 (conj D3 (u16_typed _))))|]. auto.
Qed.

Lemma fill_table_typed fuel sgm sgs o i t T : map_Forall (fun _ => sg_typed) sgm -> Forall desc_typed t -> fill_table L mem_map fuel sgm sgs o i t = Ok T -> Forall desc_typed T.
Proof.
  intros Hm Ht. unfold fill_table. assert (fill_typed (t, 0, -1)) as H0 by (split; [exact Ht|const16]).
  destruct (for_each_list fuel (Z.to_nat o) sgm sgs 0 _ _) as [[[] s1]| | |] eqn:E1; try discriminate. cbn [mbind outcome_bind].
  destruct (keeps_each_list fill_typed fuel sgm sgs (fill_one L mem_map VRING_DESC_F_NEXT) Hm (fun sg => keeps_fill_one VRING_DESC_F_NEXT sg ltac:(const16))
    _ _ _ _ _ H0 E1) as [_ F1].
  destruct (for_each_list fuel (Z.to_nat i) sgm sgs o _ _) as [[[] [[t2 i2] p2]]| | |] eqn:E2; try discriminate.
  destruct (keeps_each_list fill_typed fuel sgm sgs (fill_one L mem_map (Z.lor VRING_DESC_F_NEXT VRING_DESC_F_WRITE)) Hm (fun sg => keeps_fill_one (Z.lor VRING_DESC_F_NEXT VRING_DESC_F_WRITE) sg ltac:(const16))
    _ _ _ _ _ F1 E2) as [_ [F2 _]]. cbn [fst snd] in F2.
  cbn [mbind outcome_bind]. destruct (aget t2 p2) as [d| | |] eqn:E3; try discriminate. cbn [mbind outcome_bind]. apply aset_typed; [exact F2|].
  destruct (aget_typed _ _ _ _ F2 E3) as (D1 & D2 & D3 & D4). exact (conj D1 (conj D2 (conj (clear_next_typed _ D3) D4))).
Qed.

Lemma keeps_add b fuel sgm sgs o i tok : map_Forall (fun _ => sg_typed) sgm -> is_u64 tok ->
  keeps vq_typed (virtqueue_add_sgs L mem_map kmalloc_array b fuel sgm sgs o i tok) (fun _ => True).
Proof.
  intros Hm Ht. unfold virtqueue_add_sgs, virtqueue_add. apply (keeps_bind _ _ _ (fun _ => True)); [by apply keeps_lift|]. intros [[] total] _.
  unfold virtqueue_add_split. repeat keeps_step.
  apply (keeps_bind _ _ _ (fun x => is_u64 x.1 /\ Forall desc_typed x.2)).
  { unfold alloc_indirect_split. repeat keeps_step. destruct (kmalloc_array _ _) as [[p l]|] eqn:E; [|apply keeps_panic].
    apply keeps_ret. destruct (kmalloc_typed _ _ _ _ E). split; [assumption|by apply link_table_typed]. }
  intros [p t] [Hp Hl]. cbn [fst snd] in *.
  apply (keeps_bind _ _ _ (Forall desc_typed)); [apply keeps_lift; intros T; by apply fill_table_typed|]. intros T HT.
  repeat keeps_step; auto with keeps; try apply u16_typed.
  - intros vq Hv. apply typed_tables; [|exact Hv]. apply map_Forall_insert_2; [auto|apply Hv].
  - match goal with H : desc_typed _ |- _ => destruct H as (D1 & D2 & D3 & D4) end.
    assert (is_u16 VRING_DESC_F_INDIRECT) as D5 by const16. exact (conj (u64_range _) (conj (u32_typed _) (conj D5 D4))).
  - intros vq Hv. apply typed_free_head; [|exact Hv]. match goal with H : desc_typed ?d |- is_u32 (d_next ?d) => apply u16_u32, H end.
  - exact (conj Ht Hp).
  - apply (keeps_bind _ _ _ (fun _ => True)); [|intros; by apply keeps_ret]. destruct (_ =? _); [|by apply keeps_ret].
    eapply keeps_bind; [apply keeps_notify|]. intros _ _. by apply keeps_ret.
Qed.

(** What the callers and the device hand over has its C type too. *)
Definition call_typed (c : call) : Prop :=
  match c with
  | Add sgm _ _ token => map_Forall (fun _ => sg_typed) sgm /\ is_u64 token
  | Finish _ len => is_u32 len
  | _ => True
  end.

End Add.

(** ** Witness *)

Lemma kmalloc_top_typed t k p l : kmalloc_top t k = Some (p, l) -> is_u64 p /\ Forall desc_typed l.
Proof.
  unfold kmalloc_top. destruct (top_table_spec t) as [H _]. destruct (0 <=? k); [|discriminate].
  destruct (Z.ltb_spec (top_table t + 16) (2 ^ 64)); [|discriminate]. intros [= <- <-]. split; [unfold is_u64; lia|].
  apply Forall_replicate. repeat split; const16.
Qed.
Definition w_vq_value : virtqueue := Eval vm_compute in w_vq.
Lemma w_typed : sys_typed (w_vq_value, Device 0 []).
Proof.
  unfold w_vq_value. split; [|split; [cbn; unfold is_u16; lia|constructor]]. constructor; unfold vq_num; vq_cbn; cbn [num]; unfold is_u16, is_u32; try lia.
  - repeat apply Forall_cons_2; try apply Forall_nil_2; unfold desc_typed, is_u64, is_u32, is_u16; cbn; lia.
  - repeat apply Forall_cons_2; try apply Forall_nil_2; unfold state_typed, is_u64; cbn; lia.
  - repeat apply Forall_cons_2; try apply Forall_nil_2; unfold is_u16; lia.
  - repeat apply Forall_cons_2; try apply Forall_nil_2; unfold used_typed, is_u32; cbn; lia.
  - intros k x Hk. discriminate Hk.
Qed.

