(* ===== verification/Vsprintf.v ===== *)
(** * lib/vsprintf.c: formatted output and number parsing

    The formatter writes into the byte memory of [Mem].  A [va_list] is the
    list of the argument words still to be fetched; fetching from an empty
    list is a [Fault].  The pointer type of the messages "(null)" and
    "(efault)" is that of any string: their addresses are arguments.  Loops
    bounded by a terminating NUL take a fuel argument; [vsnprintf_renders]
    shows that any fuel above the lengths of the format and of the output is
    enough. *)

From Stdlib Require Import ZArith Lia.
From stdpp Require Import base tactics numbers list gmap strings.
Import list.
From S2P Require Import Prelude Words Mem LibString.

(** ** Data *)

Definition KSTRTOX_OVERFLOW : Z := 2 ^ 31.
Definition SIGN : Z := 1.
Definition SMALL : Z := 32.
Definition INT_MAX : Z := 2 ^ 31 - 1.

(** [enum format_type], by value: [format_decode] adds to its members. *)
Definition FORMAT_TYPE_NONE : Z := 0.
Definition FORMAT_TYPE_CHAR : Z := 3.
Definition FORMAT_TYPE_STR : Z := 4.
Definition FORMAT_TYPE_PTR : Z := 5.
Definition FORMAT_TYPE_ULONG : Z := 9.
Definition FORMAT_TYPE_LONG : Z := 10.
Definition FORMAT_TYPE_UINT : Z := 15.
Definition FORMAT_TYPE_INT : Z := 16.

(** [field_width] is never read or written after the initialisation. *)
Record printf_spec := PrintfSpec {
  type : Z;
  flags : Z;
  base : Z;
  precision : Z }.

Definition printf_spec_zero : printf_spec := PrintfSpec 0 0 0 0.

Definition hex_asc_upper : list Z :=
  [0x30; 0x31; 0x32; 0x33; 0x34; 0x35; 0x36; 0x37; 0x38; 0x39; 0x41; 0x42; 0x43; 0x44; 0x45; 0x46].

Abbreviation va_list := (list Z).
Definition va_arg (args : va_list) : outcome (Z * va_list) :=
  match args with a :: rest => Ok (a, rest) | [] => Fault end.

(** [if (buf < end) *buf = c; ++buf;] *)
Definition put (m : mem) (buf end_ c : Z) : outcome (Z * mem) :=
  m' ← (if buf <? end_ then store8 m buf c else Ok m);
  Ok (buf + 1, m').

(** ** Numbers *)

(** The digits, most significant first: [tmp] read from its last element down.
    [room] is what is left of the 24 characters of [tmp]. *)
Fixpoint pow2_digits (room : nat) (num mask shift : Z) (acc : list Z) : outcome (list Z) :=
  match room with
  | O => Fault
  | S r =>
      d ← deref (hex_asc_upper !! Z.to_nat (Z.land (u8 num) mask));
      let num := Z.shiftr num shift in
      if num =? 0 then Ok (d :: acc) else pow2_digits r num mask shift (d :: acc)
  end.
Fixpoint dec_digits (room : nat) (num : Z) (acc : list Z) : outcome (list Z) :=
  match room with
  | O => Fault
  | S r =>
      d ← deref (hex_asc_upper !! Z.to_nat (num mod 10));
      let num := num / 10 in
      if num =? 0 then Ok (d :: acc) else dec_digits r num (d :: acc)
  end.

Fixpoint put_digits (l : list Z) (m : mem) (buf end_ : Z) : outcome (Z * mem) :=
  match l with
  | [] => Ok (buf, m)
  | d :: l' => '(buf, m) ← put m buf end_ d; put_digits l' m buf end_
  end.

Definition number (m : mem) (buf end_ num : Z) (spec : printf_spec) : outcome (Z * mem) :=
  if (base spec =? 16) || (base spec =? 8) then
    let mask := base spec - 1 in
    let shift := if base spec =? 16 then 4 else 3 in
    tmp ← pow2_digits 24 num mask shift [];
    put_digits tmp m buf end_
  else if base spec =? 10 then
    '(num, buf, m) ←
      (if negb (Z.land (flags spec) SIGN =? 0) && (s64 num <? 0)
       then '(buf, m) ← put m buf end_ 0x2d; Ok (u64 (- s64 num), buf, m)
       else Ok (num, buf, m));
    tmp ← dec_digits 24 num [];
    put_digits tmp m buf end_
  else Panic "BUG_ON".

(** ** Strings and pointers *)

Fixpoint string_loop (fuel : nat) (m : mem) (buf end_ s lim : Z) : outcome (Z * mem) :=
  match fuel with
  | O => NoFuel
  | S f =>
      if lim =? 0 then Ok (buf, m)
      else
        c ← load8 m s;
        if c =? 0 then Ok (buf, m)
        else '(buf, m) ← put m buf end_ c; string_loop f m buf end_ (s + 1) (lim - 1)
  end.
Definition string_nocheck (fuel : nat) (m : mem) (buf end_ s : Z) (spec : printf_spec) : outcome (Z * mem) :=
  string_loop fuel m buf end_ s (precision spec).

Definition IS_ERR_OR_NULL (ptr : Z) : bool := (ptr =? 0) || IS_ERR_VALUE ptr.

Section Messages.
Context (null_msg efault_msg : Z).

Definition check_pointer_msg (ptr : Z) : option Z :=
  if ptr =? 0 then Some null_msg
  else if (ptr <? PAGE_SIZE) || IS_ERR_VALUE ptr then Some efault_msg
  else None.

Definition check_pointer (fuel : nat) (m : mem) (buf end_ ptr : Z) (spec : printf_spec) : outcome (Z * Z * mem) :=
  match check_pointer_msg ptr with
  | Some err_msg => '(buf, m) ← string_nocheck fuel m buf end_ err_msg spec; Ok (- EFAULT, buf, m)
  | None => Ok (0, buf, m)
  end.

Definition string_ (fuel : nat) (m : mem) (buf end_ s : Z) (spec : printf_spec) : outcome (Z * mem) :=
  '(r, buf, m) ← check_pointer fuel m buf end_ s spec;
  if negb (r =? 0) then Ok (buf, m) else string_nocheck fuel m buf end_ s spec.

Definition pointer_string (m : mem) (buf end_ ptr : Z) (spec : printf_spec) : outcome (Z * mem) :=
  number m buf end_ ptr (PrintfSpec (type spec) (Z.lor (flags spec) SMALL) 16 (precision spec)).

Definition ptr_to_id (m : mem) (buf end_ ptr : Z) (spec : printf_spec) : outcome (Z * mem) :=
  if IS_ERR_OR_NULL ptr then pointer_string m buf end_ ptr spec else pointer_string m buf end_ ptr spec.

Definition pointer (m : mem) (buf end_ ptr : Z) (spec : printf_spec) : outcome (Z * mem) :=
  ptr_to_id m buf end_ ptr spec.

(** ** Formats *)

(** The scan to the next percent sign or to the end of the format. *)
Fixpoint scan_percent (fuel : nat) (m : mem) (fmt : Z) : outcome Z :=
  match fuel with
  | O => NoFuel
  | S f =>
      c ← load8 m fmt;
      if (c =? 0) || (c =? 0x25) then Ok fmt else scan_percent f m (fmt + 1)
  end.

(** The result is the number of characters read and the decoded directive. *)
Definition format_decode (fuel : nat) (m : mem) (fmt : Z) (spec : printf_spec) : outcome (Z * printf_spec) :=
  let start := fmt in
  let spec := PrintfSpec FORMAT_TYPE_NONE (flags spec) (base spec) (precision spec) in
  fmt ← scan_percent fuel m fmt;
  c ← load8 m fmt;
  if negb (fmt =? start) || (c =? 0) then Ok (s32 (fmt - start), spec)
  else
    let fmt := fmt + 1 in
    c ← load8 m fmt;
    let qualifier := if c =? 0x6c then c else 0 in
    let fmt := if c =? 0x6c then fmt + 1 else fmt in
    c ← load8 m fmt;
    let simple := fun t => Ok (s32 (fmt + 1 - start), PrintfSpec t (flags spec) 10 (-1)) in
    let integer := fun b fl =>
      let t := if qualifier =? 0x6c then FORMAT_TYPE_ULONG else FORMAT_TYPE_UINT + Z.land fl SIGN in
      Ok (s32 (fmt + 1 - start), PrintfSpec t fl b (-1)) in
    if c =? 0x63 then simple FORMAT_TYPE_CHAR
    else if c =? 0x73 then simple FORMAT_TYPE_STR
    else if c =? 0x70 then simple FORMAT_TYPE_PTR
    else if c =? 0x6f then integer 8 (flags spec)
    else if (c =? 0x58) || (c =? 0x78) then integer 16 (flags spec)
    else if (c =? 0x64) || (c =? 0x69) then integer 10 (Z.lor (flags spec) SIGN)
    else if c =? 0x75 then integer 10 (flags spec)
    else Panic "BUG_ON".

(** The innermost [switch] of [vsnprintf]: the value of an integer argument. *)
Definition fetch_num (t : Z) (args : va_list) : outcome (Z * va_list) :=
  if t =? FORMAT_TYPE_ULONG then '(a, args) ← va_arg args; Ok (u64 a, args)
  else if t =? FORMAT_TYPE_LONG then '(a, args) ← va_arg args; Ok (u64 (s64 a), args)
  else if t =? FORMAT_TYPE_INT then '(a, args) ← va_arg args; Ok (u64 (s32 a), args)
  else if t =? FORMAT_TYPE_UINT then '(a, args) ← va_arg args; Ok (u32 a, args)
  else Panic "BUG_ON".

(** One directive: the outer [switch] of [vsnprintf]. *)
Definition vsnprintf_one (fuel : nat) (m : mem) (str end_ old_fmt read : Z) (spec : printf_spec) (args : va_list)
    : outcome (Z * mem * va_list) :=
  if type spec =? FORMAT_TYPE_NONE then
    m ← (if str <? end_ then
           let copy := if end_ - str <? read then s32 (end_ - str) else read in
           '(_, m) ← memcpy m str old_fmt copy; Ok m
         else Ok m);
    Ok (str + read, m, args)
  else if type spec =? FORMAT_TYPE_CHAR then
    '(a, args) ← va_arg args;
    '(str, m) ← put m str end_ (u8 a);
    Ok (str, m, args)
  else if type spec =? FORMAT_TYPE_STR then
    '(a, args) ← va_arg args;
    '(str, m) ← string_ fuel m str end_ a spec;
    Ok (str, m, args)
  else if type spec =? FORMAT_TYPE_PTR then
    '(a, args) ← va_arg args;
    '(str, m) ← pointer m str end_ a spec;
    Ok (str, m, args)
  else
    '(num, args) ← fetch_num (type spec) args;
    '(str, m) ← number m str end_ num spec;
    Ok (str, m, args).

Fixpoint vsnprintf_loop (steps fuel : nat) (m : mem) (str end_ fmt : Z) (spec : printf_spec) (args : va_list)
    : outcome (Z * mem) :=
  match steps with
  | O => NoFuel
  | S n =>
      c ← load8 m fmt;
      if c =? 0 then Ok (str, m)
      else
        '(read, spec) ← format_decode fuel m fmt spec;
        '(str, m, args) ← vsnprintf_one fuel m str end_ fmt read spec args;
        vsnprintf_loop n fuel m str end_ (fmt + read) spec args
  end.

Definition vsnprintf (fuel : nat) (m : mem) (buf size fmt : Z) (args : va_list) : outcome (Z * mem) :=
  let end_ := buf + size in
  '(str, m) ← vsnprintf_loop fuel fuel m buf end_ fmt printf_spec_zero args;
  m ← (if 0 <? size then if str <? end_ then store8 m str 0 else store8 m (end_ - 1) 0 else Ok m);
  Ok (s32 (str - buf), m).

Definition snprintf (fuel : nat) (m : mem) (buf size fmt : Z) (args : va_list) : outcome (Z * mem) :=
  vsnprintf fuel m buf size fmt args.
Definition sprintf (fuel : nat) (m : mem) (buf fmt : Z) (args : va_list) : outcome (Z * mem) :=
  vsnprintf fuel m buf INT_MAX fmt args.
Definition vscnprintf (fuel : nat) (m : mem) (buf size fmt : Z) (args : va_list) : outcome (Z * mem) :=
  '(i, m) ← vsnprintf fuel m buf size fmt args;
  if u64 i <? size then Ok (i, m)
  else if negb (size =? 0) then Ok (s32 (size - 1), m)
  else Ok (0, m).
Definition scnprintf (fuel : nat) (m : mem) (buf size fmt : Z) (args : va_list) : outcome (Z * mem) :=
  vscnprintf fuel m buf size fmt args.
End Messages.

(** ** Parsing *)

Definition _parse_integer_fixup_radix (m : mem) (s base : Z) : outcome (Z * Z) :=
  base ←
    (if base =? 0 then
       s0 ← load8 m s;
       if s0 =? 0x30 then
         s1 ← load8 m (s + 1);
         if _tolower s1 =? 0x78 then
           s2 ← load8 m (s + 2);
           Ok (if isxdigit s2 then 16 else 8)
         else Ok 8
       else Ok 10
     else Ok base);
  if base =? 16 then
    s0 ← load8 m s;
    if s0 =? 0x30 then
      s1 ← load8 m (s + 1);
      if _tolower s1 =? 0x78 then Ok (s + 2, base) else Ok (s, base)
    else Ok (s, base)
  else Ok (s, base).

(** The value of a digit character, if it is one. *)
Definition digit_val (c : Z) : option Z :=
  let lc := Z.lor c 0x20 in
  if (0x30 <=? c) && (c <=? 0x39) then Some (c - 0x30)
  else if (0x61 <=? lc) && (lc <=? 0x66) then Some (lc - 0x61 + 10)
  else None.

Fixpoint parse_integer_loop (fuel : nat) (m : mem) (s base rv res : Z) : outcome (Z * Z) :=
  match fuel with
  | O => NoFuel
  | S f =>
      c ← load8 m s;
      match digit_val c with
      | None => Ok (rv, res)
      | Some val =>
          if base <=? val then Ok (rv, res)
          else if negb (Z.land res (u64 (Z.shiftl (2 ^ 64 - 1) 60)) =? 0) then Panic "overflow!"
          else parse_integer_loop f m (s + 1) base (u32 (rv + 1)) (u64 (res * base + val))
      end
  end.
Definition _parse_integer (fuel : nat) (m : mem) (s base : Z) : outcome (Z * Z) :=
  parse_integer_loop fuel m s base 0 0.

(** The result and the end pointer. *)
Definition simple_strtoull (fuel : nat) (m : mem) (cp base : Z) : outcome (Z * Z) :=
  '(cp, base) ← _parse_integer_fixup_radix m cp base;
  '(rv, result) ← _parse_integer fuel m cp base;
  Ok (result, cp + Z.land rv (u32 (Z.lnot KSTRTOX_OVERFLOW))).
Definition simple_strtoul (fuel : nat) (m : mem) (cp base : Z) : outcome (Z * Z) :=
  simple_strtoull fuel m cp base.

(** Comparisons of constants in the goal. *)
Ltac eqb_const :=
  repeat match goal with
  | |- context [Z.eqb ?a ?b] =>
      let v := eval vm_compute in (Z.eqb a b) in
      match v with true => change (Z.eqb a b) with true | false => change (Z.eqb a b) with false end
  end.

(** ** Numerals *)

(** [numeral b n l]: [l] is the base-[b] notation of [n], without leading zeros. *)
Inductive numeral (b : Z) : Z -> list Z -> Prop :=
  | numeral_digit d c : 0 <= d < b -> hex_asc_upper !! Z.to_nat d = Some c -> numeral b d [c]
  | numeral_more n l d c : 0 < n -> numeral b n l -> 0 <= d < b -> hex_asc_upper !! Z.to_nat d = Some c ->
      numeral b (n * b + d) (l ++ [c]).

Lemma hex_digit d b : 0 <= d < b -> b <= 16 -> exists c, hex_asc_upper !! Z.to_nat d = Some c.
Proof. intros Hd Hb. apply lookup_lt_is_Some_2. simpl. lia. Qed.

Lemma hex_char d c : 0 <= d -> hex_asc_upper !! Z.to_nat d = Some c -> char_ok c /\ digit_val c = Some d.
Proof.
  intros Hd H. assert (d < 16) by (apply lookup_lt_Some in H; simpl in H; lia).
  assert (d ∈ seqZ 0 16) as Hin by (apply elem_of_seqZ; lia). revert d Hin Hd H H0.
  apply (Forall_forall (fun d => 0 <= d -> hex_asc_upper !! Z.to_nat d = Some c -> d < 16 -> char_ok c /\ digit_val c = Some d)).
  vm_compute. repeat (apply List.Forall_cons; [intros _ E _; injection E as <-; split; [split; reflexivity|reflexivity]|]). apply List.Forall_nil.
Qed.

Lemma numeral_pos b n l : 0 < b -> numeral b n l -> 0 <= n /\ l <> [] /\ Forall char_ok l.
Proof.
  intros Hb H. induction H as [d c Hd Hc|n l d c Hn H IH Hd Hc].
  - destruct (hex_char d c) as [? _]; [lia|assumption|]. split; [lia|]. split; [discriminate|]. repeat constructor; apply H.
  - destruct (hex_char d c) as [? _]; [lia|assumption|]. destruct IH as (? & ? & ?). split; [nia|].
    split; [destruct l; discriminate|]. apply Forall_app. split; [assumption|]. repeat constructor; apply H0.
Qed.

Lemma dec_digits_ok room : forall num acc, 0 <= num < 10 ^ Z.of_nat room -> (0 < room)%nat ->
  exists l, dec_digits room num acc = Ok (l ++ acc) /\ numeral 10 num l.
Proof.
  induction room as [|room IH]; intros num acc Hn Hr; [lia|]. cbn [dec_digits].
  assert (0 <= num mod 10 < 10) as Hm by (apply Z.mod_pos_bound; lia).
  destruct (hex_digit (num mod 10) 10 Hm) as [c Hc]; [lia|]. rewrite Hc. cbn [deref mbind outcome_bind].
  pose proof (Z.div_mod num 10). destruct (Z.eqb_spec (num / 10) 0) as [E|E].
  - exists [c]. split; [reflexivity|]. replace num with (num mod 10) by lia. constructor; assumption.
  - replace (Z.of_nat (S room)) with (1 + Z.of_nat room) in Hn by lia. rewrite Z.pow_add_r in Hn by lia.
    assert (0 < num / 10) by lia. 
    destruct (IH (num / 10) (c :: acc)) as (l & El & Hl).
    + split; [lia|]. apply Z.div_lt_upper_bound; lia.
    + destruct room; [change (10 ^ Z.of_nat 0) with 1 in Hn; lia|lia].
    + exists (l ++ [c]). split; [rewrite El, <- app_assoc; reflexivity|].
      replace num with (num / 10 * 10 + num mod 10) by lia. constructor; assumption.
Qed.

Lemma pow2_digits_ok k room : 0 < k <= 4 -> forall num acc, 0 <= num < (2 ^ k) ^ Z.of_nat room -> (0 < room)%nat ->
  exists l, pow2_digits room num (2 ^ k - 1) k acc = Ok (l ++ acc) /\ numeral (2 ^ k) num l.
Proof.
  intros Hk. assert (2 <= 2 ^ k <= 16) as H2.
  { split; [change 2 with (2 ^ 1) at 1|change 16 with (2 ^ 4)]; apply Z.pow_le_mono_r; lia. }
  induction room as [|room IH]; intros num acc Hn Hr; [lia|]. cbn [pow2_digits].
  assert (Z.land (u8 num) (2 ^ k - 1) = num mod 2 ^ k) as ->.
  { rewrite land_ones_mod by lia. unfold u8. apply Z.mod_mod_divide.
    exists (2 ^ (8 - k)). rewrite <- Z.pow_add_r by lia. f_equal. lia. }
  assert (0 <= num mod 2 ^ k < 2 ^ k) as Hm by (apply Z.mod_pos_bound; lia).
  destruct (hex_digit (num mod 2 ^ k) (2 ^ k) Hm) as [c Hc]; [lia|]. rewrite Hc. cbn [deref mbind outcome_bind].
  rewrite Z.shiftr_div_pow2 by lia. pose proof (Z.div_mod num (2 ^ k)).
  destruct (Z.eqb_spec (num / 2 ^ k) 0) as [E|E].
  - exists [c]. split; [reflexivity|]. replace num with (num mod 2 ^ k) by lia. constructor; assumption.
  - replace (Z.of_nat (S room)) with (1 + Z.of_nat room) in Hn by lia. rewrite Z.pow_add_r, Z.pow_1_r in Hn by lia.
    assert (0 <= num / 2 ^ k) by (apply Z.div_pos; lia).
    destruct (IH (num / 2 ^ k) (c :: acc)) as (l & El & Hl).
    + split; [lia|]. apply Z.div_lt_upper_bound; lia.
    + destruct room; [change ((2 ^ k) ^ Z.of_nat 0) with 1 in Hn; rewrite Z.div_small in E by lia; lia|lia].
    + exists (l ++ [c]). split; [rewrite El, <- app_assoc; reflexivity|].
      replace num with (num / 2 ^ k * 2 ^ k + num mod 2 ^ k) by lia. constructor; try assumption. lia.
Qed.

Lemma numeral_fun b n l l' : 0 < b -> numeral b n l -> numeral b n l' -> l = l'.
Proof.
  intros Hb H. revert l'. induction H as [d c Hd Hc|n l d c Hn H IH Hd Hc]; intros l' H'.
  - inversion H' as [d' c' Hd' Hc'|n' l'' d' c' Hn' H'' Hd' Hc']; subst; [congruence|nia].
  - inversion H' as [d' c' Hd' Hc'|n' l'' d' c' Hn' H'' Hd' Hc' E]; subst; [nia|].
    assert (n' = n) as -> by nia. assert (d' = d) as -> by lia. rewrite (IH _ H''). congruence.
Qed.

(** ** The text a format stands for *)

(** [%d] and [%i] leave the sign flag set for the rest of the format: the
    Boolean argument of these definitions says that it is set. *)
Definition int_value (signed long : bool) (a : Z) : Z :=
  if long then u64 a else if signed then u64 (s32 a) else u32 a.

Inductive int_text : Z -> bool -> Z -> list Z -> Prop :=
  | int_text_plain b signed w l : b <> 10 \/ signed = false \/ 0 <= s64 w -> numeral b w l -> int_text b signed w l
  | int_text_minus w l : s64 w < 0 -> numeral 10 (- s64 w) l -> int_text 10 true w (0x2d :: l).

Definition qual (long : bool) : list Z := if long then [0x6c] else [].
Definition unsigned_conv (c b : Z) : Prop := c = 0x6f /\ b = 8 \/ (c = 0x58 \/ c = 0x78) /\ b = 16 \/ c = 0x75 /\ b = 10.
Definition signed_conv (c : Z) : Prop := c = 0x64 \/ c = 0x69.

Definition null_text : list Z := [0x28; 0x6e; 0x75; 0x6c; 0x6c; 0x29].
Definition efault_text : list Z := [0x28; 0x65; 0x66; 0x61; 0x75; 0x6c; 0x74; 0x29].
Definition bad_ptr (a : Z) : bool := (a <? PAGE_SIZE) || IS_ERR_VALUE a.

Section Output.
(** The memory at the call, the buffer and the addresses of the messages. *)
Context (m0 : mem) (buf size null_msg efault_msg : Z).
Abbreviation end_ := (buf + size).

(** A string outside the buffer. *)
Definition readable (p : Z) (l : list Z) : Prop :=
  cstr m0 p l /\ (p + Z.of_nat (length l) + 1 <= buf \/ end_ <= p).

Definition str_arg (a : Z) (t : list Z) : Prop :=
  a = 0 /\ t = null_text \/ a <> 0 /\ bad_ptr a = true /\ t = efault_text \/
  a <> 0 /\ bad_ptr a = false /\ readable a t.

(** [conv s long c a t s']: the directive of conversion character [c] prints
    the argument [a] as [t]; the sign flag is [s] before and [s'] after. *)
Inductive conv (s long : bool) : Z -> Z -> list Z -> bool -> Prop :=
  | conv_char a : conv s long 0x63 a [u8 a] s
  | conv_str a t : str_arg a t -> conv s long 0x73 a t s
  | conv_ptr a t : is_u64 a -> numeral 16 a t -> conv s long 0x70 a t s
  | conv_unsigned c b a t : unsigned_conv c b -> int_text b s (int_value s long a) t -> conv s long c a t s
  | conv_signed c a t : signed_conv c -> int_text 10 true (int_value true long a) t -> conv s long c a t true.

(** [renders s f args out]: the format [f] with the arguments [args] stands for
    the text [out]. *)
Inductive renders : bool -> list Z -> list Z -> list Z -> Prop :=
  | renders_nil s args : renders s [] args []
  | renders_lit s c f args out : c <> 0x25 -> renders s f args out -> renders s (c :: f) args (c :: out)
  | renders_conv s s' long c a t f args out : conv s long c a t s' -> renders s' f args out ->
      renders s (0x25 :: qual long ++ c :: f) (a :: args) (t ++ out).

(** ** Writing *)

(** The text [out] has been produced: what fits is in the buffer. *)
Definition emitted (out : list Z) (m : mem) (str : Z) : Prop :=
  str = buf + Z.of_nat (length out) /\ eq_outside buf size m0 m /\ writable m buf size /\
  bytes_at m buf (take (Z.to_nat size) out).

Lemma emitted_put out m str c : emitted out m str -> byte_ok c ->
  exists m', put m str end_ c = Ok (str + 1, m') /\ emitted (out ++ [c]) m' (str + 1).
Proof.
  intros (-> & Ho & Hw & Hb) Hc. unfold put, emitted. rewrite length_app. simpl length.
  destruct (Z.ltb_spec (buf + Z.of_nat (length out)) end_).
  - rewrite store8_ok by (apply Hw; lia). rewrite u8_byte by assumption.
    eexists. split; [reflexivity|]. split; [lia|]. split; [|split; [apply writable_insert, Hw|]].
    + intros a Ha. rewrite lookup_insert_ne by lia. apply Ho, Ha.
    + rewrite take_ge in * by (rewrite ?length_app; simpl; lia). apply bytes_at_app. split; [|split; [apply lookup_insert_eq|exact I]].
      eapply bytes_at_ext; [|exact Hb]. intros a Ha. apply lookup_insert_ne. lia.
  - eexists. split; [reflexivity|]. split; [lia|]. split; [exact Ho|]. split; [exact Hw|].
    rewrite take_app_le by lia. exact Hb.
Qed.

Lemma emitted_digits l : Forall byte_ok l -> forall out m str, emitted out m str ->
  exists m' str', put_digits l m str end_ = Ok (str', m') /\ emitted (out ++ l) m' str'.
Proof.
  induction 1 as [|c l Hc Hl IH]; intros out m str He; cbn [put_digits].
  - exists m, str. rewrite app_nil_r. auto.
  - destruct (emitted_put out m str c He Hc) as (m1 & -> & He1). cbn [mbind outcome_bind].
    destruct (IH _ _ _ He1) as (m' & str' & E & He'). exists m', str'. rewrite <- app_assoc in He'. auto.
Qed.

Lemma readable_now out m str p l : emitted out m str -> readable p l -> cstr m p l.
Proof.
  intros (_ & Ho & _) [[Hb Hl] Hd]. split; [|exact Hl]. eapply bytes_at_frame; [exact Ho| |exact Hb].
  rewrite length_app. simpl. lia.
Qed.

Lemma emitted_string fuel : forall l p lim out m str, emitted out m str -> readable p l -> lim < 0 -> (length l < fuel)%nat ->
  exists m' str', string_loop fuel m str end_ p lim = Ok (str', m') /\ emitted (out ++ l) m' str'.
Proof.
  induction fuel as [|fuel IH]; intros l p lim out m str He Hr Hlim Hf; [lia|]. cbn [string_loop].
  destruct (Z.eqb_spec lim 0); [lia|]. pose proof (readable_now _ _ _ _ _ He Hr) as Hc.
  destruct l as [|c l].
  - apply cstr_nil in Hc. rewrite (load8_ok _ _ _ Hc). cbn [mbind outcome_bind]. eqb_const.
    exists m, str. rewrite app_nil_r. auto.
  - apply cstr_cons in Hc as (Hc & Hcc & _). rewrite (load8_ok _ _ _ Hc). cbn [mbind outcome_bind].
    unfold char_ok in Hcc. destruct (Z.eqb_spec c 0); [lia|].
    destruct (emitted_put out m str c He) as (m1 & -> & He1); [unfold byte_ok; lia|]. cbn [mbind outcome_bind].
    destruct (IH l (p + 1) (lim - 1) _ _ _ He1) as (m' & str' & E & He').
    + destruct Hr as [Hr Hd]. apply cstr_cons in Hr as (_ & _ & Hr). split; [exact Hr|]. simpl length in Hd. lia.
    + lia.
    + simpl in Hf. lia.
    + exists m', str'. rewrite <- app_assoc in He'. auto.
Qed.

(** A stretch of the format that is copied as it is. *)
Lemma emitted_copy l p out m str : Forall byte_ok l -> emitted out m str -> bytes_at m p l ->
  p + Z.of_nat (length l) <= buf \/ end_ <= p -> Z.of_nat (length l) < 2 ^ 31 ->
  exists m', (if str <? end_ then
           let copy := if end_ - str <? Z.of_nat (length l) then s32 (end_ - str) else Z.of_nat (length l) in
           '(_, m) ← memcpy m str p copy; Ok m
         else Ok m) = Ok m' /\ emitted (out ++ l) m' (str + Z.of_nat (length l)).
Proof.
  intros Hl (-> & Ho & Hw & Hb) Hp Hd Hlen. destruct (Z.ltb_spec (buf + Z.of_nat (length out)) end_) as [Hlt|Hge].
  - set (n := Z.to_nat (Z.min (end_ - (buf + Z.of_nat (length out))) (Z.of_nat (length l)))).
    assert ((if end_ - (buf + Z.of_nat (length out)) <? Z.of_nat (length l) then s32 (end_ - (buf + Z.of_nat (length out)))
             else Z.of_nat (length l)) = Z.of_nat n) as ->.
    { unfold n. destruct (Z.ltb_spec (end_ - (buf + Z.of_nat (length out))) (Z.of_nat (length l))); [|lia].
      unfold s32. rewrite Z.mod_small by lia. lia. }
    cbn zeta. unfold memcpy. rewrite Nat2Z.id.
    assert (length (take n l) = n) as El by (rewrite length_take; lia).
    destruct (copy_up_ok (take n l)) with (m := m) (dst := buf + Z.of_nat (length out)) (src := p) as (m' & E & Hb' & Ho').
    + apply Forall_take, Hl.
    + rewrite <- (take_drop n l) in Hp. apply bytes_at_app in Hp. apply Hp.
    + intros a Ha. apply Hw. lia.
    + lia.
    + rewrite El in *. rewrite E. cbn [mbind outcome_bind]. exists m'. split; [reflexivity|].
      split; [rewrite length_app; lia|]. split; [|split].
      * etransitivity; [exact Ho|]. eapply eq_outside_weaken; [| |exact Ho']; lia.
      * intros a Ha. destruct (decide (buf + Z.of_nat (length out) <= a < buf + Z.of_nat (length out) + Z.of_nat n)).
        -- apply (bytes_at_writable _ _ _ Hb'). rewrite El. lia.
        -- rewrite Ho' by assumption. apply Hw, Ha.
      * rewrite take_app_ge by lia. apply bytes_at_app. rewrite take_ge in Hb by lia. split.
        -- eapply bytes_at_frame; [exact Ho'| |exact Hb]. lia.
        -- replace (take (Z.to_nat size - length out) l) with (take n l); [exact Hb'|].
           destruct (decide (Z.to_nat size - length out <= length l)%nat); [f_equal; lia|]. rewrite !take_ge by lia. reflexivity.
  - exists m. split; [reflexivity|]. split; [rewrite length_app; lia|]. split; [exact Ho|]. split; [exact Hw|].
    rewrite take_app_le by lia. exact Hb.
Qed.

Lemma numeral_bytes b n l : 0 < b -> numeral b n l -> Forall byte_ok l.
Proof. intros Hb H. apply char_bytes. apply (numeral_pos b n l Hb H). Qed.

Lemma s64_range x : - 2 ^ 63 <= s64 x < 2 ^ 63.
Proof. unfold s64. pose proof (Z.mod_pos_bound (x + 2 ^ 63) (2 ^ 64)). lia. Qed.

Lemma dec_room x : 0 <= x <= 2 ^ 64 -> 0 <= x < 10 ^ Z.of_nat 24.
Proof. intros H. change (10 ^ Z.of_nat 24) with 1000000000000000000000000. lia. Qed.

Lemma emitted_number out m str w b s t spec : emitted out m str -> is_u64 w -> b = 8 \/ b = 10 \/ b = 16 ->
  int_text b s w t -> base spec = b -> negb (Z.land (flags spec) SIGN =? 0) = s ->
  exists m' str', number m str end_ w spec = Ok (str', m') /\ emitted (out ++ t) m' str'.
Proof.
  intros He Hw Hb Ht Eb Es. unfold number. rewrite Eb, Es. unfold is_u64 in Hw.
  assert (forall k, b = 2 ^ k -> 0 < k <= 4 -> 2 ^ 64 <= (2 ^ k) ^ Z.of_nat 24 -> b <> 10 -> exists m' str',
    (tmp ← pow2_digits 24 w (2 ^ k - 1) k []; put_digits tmp m str end_) = Ok (str', m') /\ emitted (out ++ t) m' str') as Hpow.
  { intros k -> Hk Hle Hne. inversion Ht as [? ? ? ? _ Hn|]; subst; [|congruence].
    destruct (pow2_digits_ok k 24 Hk w []) as (l & -> & Hl); [split; [lia|eapply Z.lt_le_trans; [apply Hw|exact Hle]]|lia|]. rewrite app_nil_r. cbn [mbind outcome_bind].
    rewrite (numeral_fun _ _ _ _ (pow2_pos k ltac:(lia)) Hn Hl). apply emitted_digits; [|exact He].
    eapply numeral_bytes; [|exact Hl]. apply pow2_pos. lia. }
  destruct Hb as [-> | [-> | ->]].
  - apply (Hpow 3); [reflexivity|lia|vm_compute; discriminate|lia].
  - clear Hpow. change (10 =? 16) with false. change (10 =? 8) with false. change (10 =? 10) with true. cbn [orb].
    inversion Ht as [? ? ? ? Hplain Hn|? ? Hneg Hn]; subst.
    + destruct (dec_digits_ok 24 w []) as (l & E & Hl); [apply dec_room; lia|lia|]. rewrite app_nil_r in E.
      assert (negb (Z.land (flags spec) SIGN =? 0) && (s64 w <? 0) = false) as ->.
      { destruct (Z.ltb_spec (s64 w) 0); [|apply andb_false_r]. destruct Hplain as [|[->|]]; [lia|reflexivity|lia]. }
      cbn [mbind outcome_bind]. rewrite E. rewrite (numeral_fun 10 _ _ _ ltac:(lia) Hn Hl).
      apply emitted_digits; [|exact He]. eapply numeral_bytes; [|exact Hl]. lia.
    + destruct (Z.ltb_spec (s64 w) 0); [|lia]. cbn [andb].
      destruct (emitted_put out m str 0x2d He) as (m1 & -> & He1); [unfold byte_ok; lia|]. cbn [mbind outcome_bind].
      assert (u64 (- s64 w) = - s64 w) as -> by (pose proof (s64_range w); apply u64_small; unfold is_u64; lia).
      destruct (dec_digits_ok 24 (- s64 w) []) as (d & E & Hd); [pose proof (s64_range w); apply dec_room; lia|lia|].
      rewrite app_nil_r in E. rewrite E. cbn [mbind outcome_bind]. rewrite (numeral_fun 10 _ _ _ ltac:(lia) Hn Hd).
      destruct (emitted_digits d) with (out := out ++ [0x2d]) (m := m1) (str := str + 1) as (m' & str' & E' & He');
        [eapply numeral_bytes; [|exact Hd]; lia|exact He1|].
      exists m', str'. rewrite <- app_assoc in He'. auto.
  - apply (Hpow 4); [reflexivity|lia|vm_compute; discriminate|lia].
Qed.

(** ** Decoding *)

Definition no_percent (l : list Z) : Prop := Forall (fun c => c <> 0x25) l.

Lemma scan_percent_ok fuel : forall lit m p rest, cstr m p (lit ++ rest) -> no_percent lit ->
  (rest = [] \/ exists r, rest = 0x25 :: r) -> (length lit < fuel)%nat ->
  scan_percent fuel m p = Ok (p + Z.of_nat (length lit)).
Proof.
  induction fuel as [|fuel IH]; intros lit m p rest Hc Hl Hr Hf; [lia|]. cbn [scan_percent].
  destruct lit as [|c lit]; cbn [app] in Hc; simpl length in *.
  - replace (p + Z.of_nat 0) with p by lia. destruct Hr as [->|[r ->]].
    + apply cstr_nil in Hc. rewrite (load8_ok _ _ _ Hc). reflexivity.
    + apply cstr_cons in Hc as (Hc & _). rewrite (load8_ok _ _ _ Hc). reflexivity.
  - apply cstr_cons in Hc as (Hc & Hch & Hc'). rewrite (load8_ok _ _ _ Hc). cbn [mbind outcome_bind].
    inversion Hl; subst. unfold char_ok in Hch. destruct (Z.eqb_spec c 0); [lia|]. destruct (Z.eqb_spec c 0x25); [lia|]. cbn [orb].
    rewrite (IH lit m (p + 1) rest) by (assumption || lia). f_equal. lia.
Qed.

Lemma decode_literal fuel lit m p rest spec : cstr m p (lit ++ rest) -> no_percent lit -> lit <> [] ->
  (rest = [] \/ exists r, rest = 0x25 :: r) -> (length lit < fuel)%nat -> Z.of_nat (length lit) < 2 ^ 31 ->
  format_decode fuel m p spec =
    Ok (Z.of_nat (length lit), PrintfSpec FORMAT_TYPE_NONE (flags spec) (base spec) (precision spec)).
Proof.
  intros Hc Hl Hne Hr Hf Hlen. unfold format_decode. rewrite (scan_percent_ok fuel lit m p rest) by assumption.
  cbn [mbind outcome_bind flags base precision].
  assert (0 < length lit)%nat by (destruct lit; [congruence|simpl; lia]).
  destruct Hc as [Hb _]. rewrite <- app_assoc in Hb. apply bytes_at_app in Hb as [_ Hb].
  assert (exists b, m !! (p + Z.of_nat (length lit)) = Some b) as [b Hb0] by (destruct Hr as [->|[r ->]]; apply proj1 in Hb; eauto).
  rewrite (load8_ok _ _ _ Hb0). cbn [mbind outcome_bind].
  destruct (Z.eqb_spec (p + Z.of_nat (length lit)) p); [lia|]. cbn [negb orb]. f_equal. f_equal.
  rewrite s32_small by lia. lia.
Qed.

(** What [format_decode] makes of a directive. *)
Definition conv_spec (fl : Z) (long : bool) (c : Z) : option printf_spec :=
  let integer := fun b fl =>
    Some (PrintfSpec (if long then FORMAT_TYPE_ULONG else FORMAT_TYPE_UINT + Z.land fl SIGN) fl b (-1)) in
  if c =? 0x63 then Some (PrintfSpec FORMAT_TYPE_CHAR fl 10 (-1))
  else if c =? 0x73 then Some (PrintfSpec FORMAT_TYPE_STR fl 10 (-1))
  else if c =? 0x70 then Some (PrintfSpec FORMAT_TYPE_PTR fl 10 (-1))
  else if c =? 0x6f then integer 8 fl
  else if (c =? 0x58) || (c =? 0x78) then integer 16 fl
  else if (c =? 0x64) || (c =? 0x69) then integer 10 (Z.lor fl SIGN)
  else if c =? 0x75 then integer 10 fl
  else None.

Lemma decode_directive fuel m p long c rest spec sp : cstr m p (0x25 :: qual long ++ c :: rest) -> (0 < fuel)%nat ->
  c <> 0x6c -> conv_spec (flags spec) long c = Some sp ->
  format_decode fuel m p spec = Ok (Z.of_nat (length (qual long)) + 2, sp).
Proof.
  intros Hc Hf Hne Hsp. unfold format_decode.
  rewrite (scan_percent_ok fuel [] m p (0x25 :: qual long ++ c :: rest)); [|exact Hc|constructor|right; eauto|simpl; lia].
  cbn [mbind outcome_bind flags base precision]. simpl length. replace (p + Z.of_nat 0) with p by lia.
  apply cstr_cons in Hc as (H0 & _ & Hc). rewrite (load8_ok _ _ _ H0). cbn [mbind outcome_bind].
  rewrite Z.eqb_refl. cbn [negb orb]. change (0x25 =? 0) with false. cbn iota.
  assert (exists q, load8 m (p + 1) = Ok q /\ (q =? 0x6c) = long /\ (if q =? 0x6c then load8 m (p + 1 + 1) else load8 m (p + 1)) = Ok c) as (q & E1 & E2 & E3).
  { destruct long; cbn [qual app] in Hc; apply cstr_cons in Hc as (H1 & _ & Hc); rewrite (load8_ok _ _ _ H1).
    - apply cstr_cons in Hc as (H2 & _ & _). rewrite (load8_ok _ _ _ H2). exists 0x6c. auto.
    - exists c. destruct (Z.eqb_spec c 0x6c); [contradiction|]. auto. }
  rewrite E1. cbn [mbind outcome_bind]. 
  assert (load8 m (if q =? 0x6c then p + 1 + 1 else p + 1) = Ok c) as -> by (destruct (q =? 0x6c); exact E3).
  cbn [mbind outcome_bind]. rewrite !E2.
  assert (((if long then q else 0) =? 0x6c) = long) as -> by (destruct long; [exact E2|reflexivity]).
  assert (s32 ((if long then p + 1 + 1 else p + 1) + 1 - p) = Z.of_nat (length (qual long)) + 2) as ->.
  { rewrite s32_small; destruct long; simpl length; lia. }
  revert Hsp. unfold conv_spec.
  repeat match goal with |- (if ?b then _ else _) = _ -> _ => destruct b end; intros Hsp; try discriminate Hsp; injection Hsp as <-; reflexivity.
Qed.

(** ** The loop *)

Context (Hnull : readable null_msg null_text) (Hefault : readable efault_msg efault_text).
Abbreviation one := (vsnprintf_one null_msg efault_msg).
Abbreviation loop := (vsnprintf_loop null_msg efault_msg).

Lemma emitted_str fuel a t out m str spec : emitted out m str -> str_arg a t -> precision spec = -1 ->
  (length t < fuel)%nat ->
  exists m' str', string_ null_msg efault_msg fuel m str end_ a spec = Ok (str', m') /\ emitted (out ++ t) m' str'.
Proof.
  intros He Ha Hp Hf. unfold string_, check_pointer, check_pointer_msg, string_nocheck. rewrite Hp.
  fold (bad_ptr a).
  destruct Ha as [[-> ->]|[(Hne & Hbad & ->)|(Hne & Hbad & Hr)]].
  - eqb_const. cbn iota. destruct (emitted_string fuel null_text null_msg (-1) out m str He Hnull) as (m' & str' & -> & He'); [lia|exact Hf|].
    exists m', str'. auto.
  - apply Z.eqb_neq in Hne. rewrite Hne, Hbad. cbn iota.
    destruct (emitted_string fuel efault_text efault_msg (-1) out m str He Hefault) as (m' & str' & -> & He'); [lia|exact Hf|].
    exists m', str'. auto.
  - apply Z.eqb_neq in Hne. rewrite Hne, Hbad. cbn [mbind outcome_bind]. simpl negb. cbn iota.
    apply emitted_string; [exact He|exact Hr|lia|exact Hf].
Qed.

Definition flag_of (s : bool) : Z := if s then 1 else 0.

Lemma int_value_u64 s long a : is_u64 (int_value s long a).
Proof.
  unfold int_value. destruct long; [apply u64_range|]. destruct s; [apply u64_range|].
  unfold is_u64, u32. pose proof (Z.mod_pos_bound a (2 ^ 32)). lia.
Qed.

Lemma fetch_num_ok s (long : bool) a args :
  fetch_num (if long then FORMAT_TYPE_ULONG else FORMAT_TYPE_UINT + Z.land (flag_of s) SIGN) (a :: args) =
  Ok (int_value s long a, args).
Proof. destruct long, s; reflexivity. Qed.

Lemma one_integer fuel p read s (long : bool) b a t args out m str : emitted out m str -> b = 8 \/ b = 10 \/ b = 16 ->
  int_text b s (int_value s long a) t ->
  exists m' str', one fuel m str end_ p read
      (PrintfSpec (if long then FORMAT_TYPE_ULONG else FORMAT_TYPE_UINT + Z.land (flag_of s) SIGN) (flag_of s) b (-1)) (a :: args) =
    Ok (str', m', args) /\ emitted (out ++ t) m' str'.
Proof.
  intros He Hb Ht. unfold vsnprintf_one. cbn [type].
  assert (forall t, (t = 0 \/ t = 3 \/ t = 4 \/ t = 5) -> ((if long then FORMAT_TYPE_ULONG else FORMAT_TYPE_UINT + Z.land (flag_of s) SIGN) =? t) = false) as Hk.
  { intros x [-> | [-> | [-> | ->]]]; destruct long, s; reflexivity. }
  rewrite !Hk by (unfold FORMAT_TYPE_NONE, FORMAT_TYPE_CHAR, FORMAT_TYPE_STR, FORMAT_TYPE_PTR; lia).
  rewrite fetch_num_ok. cbn [mbind outcome_bind].
  destruct (emitted_number out m str (int_value s long a) b s t
    (PrintfSpec (if long then FORMAT_TYPE_ULONG else FORMAT_TYPE_UINT + Z.land (flag_of s) SIGN) (flag_of s) b (-1)))
    as (m' & str' & -> & He'); try assumption; [apply int_value_u64|reflexivity|destruct s; reflexivity|].
  exists m', str'. auto.
Qed.

Lemma directive_step fuel p read s s' long c a t args out m str : emitted out m str -> conv s long c a t s' ->
  (length t < fuel)%nat -> exists sp m' str',
    c <> 0x6c /\ conv_spec (flag_of s) long c = Some sp /\ flags sp = flag_of s' /\
    one fuel m str end_ p read sp (a :: args) = Ok (str', m', args) /\ emitted (out ++ t) m' str'.
Proof.
  intros He Hc Hf. destruct Hc as [a|a t Ha|a t Ha Hn|c b a t Hc Ht|c a t Hc Ht].
  - destruct (emitted_put out m str (u8 a) He) as (m' & E & He').
    { unfold byte_ok, u8. pose proof (Z.mod_pos_bound a (2 ^ 8)). lia. }
    do 3 eexists. split; [lia|]. split; [reflexivity|]. split; [reflexivity|]. split; [|exact He'].
    unfold vsnprintf_one. cbn [type]. eqb_const. cbn iota. cbn [va_arg mbind outcome_bind]. rewrite E. reflexivity.
  - destruct (emitted_str fuel a t out m str (PrintfSpec FORMAT_TYPE_STR (flag_of s) 10 (-1)) He Ha eq_refl Hf) as (m' & str' & E & He').
    do 3 eexists. split; [lia|]. split; [reflexivity|]. split; [reflexivity|]. split; [|exact He'].
    unfold vsnprintf_one. cbn [type]. eqb_const. cbn iota. cbn [va_arg mbind outcome_bind]. rewrite E. reflexivity.
  - destruct (emitted_number out m str a 16 (negb (Z.land (Z.lor (flag_of s) SMALL) SIGN =? 0)) t
      (PrintfSpec FORMAT_TYPE_PTR (Z.lor (flag_of s) SMALL) 16 (-1)) He Ha) as (m' & str' & E & He');
      [lia|constructor; [left; lia|exact Hn]|reflexivity|reflexivity|].
    do 3 eexists. split; [lia|]. split; [reflexivity|]. split; [reflexivity|]. split; [|exact He'].
    unfold vsnprintf_one. cbn [type]. eqb_const. cbn iota. cbn [va_arg mbind outcome_bind].
    unfold pointer, ptr_to_id, pointer_string. cbn [type flags precision]. rewrite E. destruct (IS_ERR_OR_NULL a); reflexivity.
  - destruct (one_integer fuel p read s long b a t args out m str He) as (m' & str' & E & He'); [|exact Ht|].
    { unfold unsigned_conv in Hc. lia. }
    eexists _, m', str'. split; [unfold unsigned_conv in Hc; lia|].
    destruct Hc as [[-> ->]|[[[->| ->] ->]|[-> ->]]]; (split; [reflexivity|]); (split; [reflexivity|]); auto.
  - destruct (one_integer fuel p read true long 10 a t args out m str He) as (m' & str' & E & He'); [lia|exact Ht|].
    eexists _, m', str'. split; [unfold signed_conv in Hc; lia|].
    assert (Z.lor (flag_of s) SIGN = flag_of true) as Ef by (destruct s; reflexivity).
    destruct Hc as [-> | ->]; (split; [unfold conv_spec; eqb_const; cbn [orb]; cbv zeta iota; rewrite Ef; reflexivity|]); (split; [reflexivity|]); auto.
Qed.

Lemma renders_literal lit : forall s rest args out, no_percent lit -> renders s (lit ++ rest) args out ->
  exists out', out = lit ++ out' /\ renders s rest args out'.
Proof.
  induction lit as [|c lit IH]; intros s rest args out Hl Hr; [exists out; auto|].
  inversion Hl as [|? ? Hc Hl']; subst. cbn [app] in Hr.
  inversion Hr as [|? ? ? ? out1 _ Hr1|]; subst; [|congruence].
  destruct (IH s rest args out1 Hl' Hr1) as (out' & -> & H). exists out'. auto.
Qed.

Lemma split_literal f : exists lit rest, f = lit ++ rest /\ no_percent lit /\ (rest = [] \/ exists r, rest = 0x25 :: r).
Proof.
  induction f as [|c f (lit & rest & -> & Hl & Hr)]; [exists [], []; split; [reflexivity|]; split; [constructor|auto]|].
  destruct (decide (c = 0x25)) as [->|Hc].
  - exists [], (0x25 :: lit ++ rest). split; [reflexivity|]. split; [constructor|eauto].
  - exists (c :: lit), rest. split; [reflexivity|]. split; [constructor; assumption|exact Hr].
Qed.

Lemma readable_drop p l1 l2 : readable p (l1 ++ l2) -> readable (p + Z.of_nat (length l1)) l2.
Proof.
  intros [[Hb Hc] Hd]. rewrite <- app_assoc in Hb. apply bytes_at_app in Hb. apply Forall_app in Hc.
  rewrite length_app in Hd. split; [split; tauto|lia].
Qed.

Lemma loop_ok fuel steps : forall f s args text out m str p spec, emitted out m str -> readable p f ->
  renders s f args text -> flags spec = flag_of s ->
  (length f < steps)%nat -> (length f + length text < fuel)%nat -> Z.of_nat (length f) < 2 ^ 31 ->
  exists m' str', loop steps fuel m str end_ p spec args = Ok (str', m') /\ emitted (out ++ text) m' str'.
Proof.
  induction steps as [|steps IH]; intros f s args text out m str p spec He Hp Hr Hfl Hs Hf Hlen; [lia|].
  cbn [vsnprintf_loop]. pose proof (readable_now _ _ _ _ _ He Hp) as Hc.
  destruct (split_literal f) as (lit & rest & -> & Hl & Hrest).
  destruct lit as [|c0 lit].
  - cbn [app] in *. destruct Hrest as [->|[r ->]].
    { inversion Hr; subst. apply cstr_nil in Hc. rewrite (load8_ok _ _ _ Hc). cbn [mbind outcome_bind]. eqb_const.
      exists m, str. rewrite app_nil_r. auto. }
    inversion Hr as [|? ? ? ? ? Hx|s0 s' long c a t f args' text' Hcv Hr' Ef]; [congruence|]. 
    pose proof Hc as Hc0. apply cstr_cons in Hc0 as (H0 & _). rewrite (load8_ok _ _ _ H0). cbn [mbind outcome_bind]. eqb_const. cbn iota.
    simpl length in *. subst. rewrite !length_app in *. simpl length in *.
    destruct (directive_step fuel p (Z.of_nat (length (qual long)) + 2) s s' long c a t args' out m str He Hcv) as (sp & m1 & str1 & Hne & Esp & Efl & E1 & He1); [lia|].
    rewrite (decode_directive fuel m p long c f spec sp) by (rewrite ?Hfl; assumption || lia).
    cbn [mbind outcome_bind]. rewrite E1. cbn [mbind outcome_bind].
    destruct (IH f s' args' text' (out ++ t) m1 str1 (p + (Z.of_nat (length (qual long)) + 2)) sp He1) as (m' & str' & E & He'); try assumption; try lia.
    + replace (p + (Z.of_nat (length (qual long)) + 2)) with (p + Z.of_nat (length (0x25 :: qual long ++ [c])))
        by (simpl length; rewrite length_app; simpl length; lia).
      apply readable_drop. cbn [app]. rewrite <- app_assoc. exact Hp.
    + exists m', str'. rewrite <- app_assoc in He'. auto.
  - destruct (renders_literal (c0 :: lit) s rest args text Hl Hr) as (text' & -> & Hr').
    pose proof Hc as Hc0. cbn [app] in Hc0. apply cstr_cons in Hc0 as (H0 & Hch & _). rewrite (load8_ok _ _ _ H0). cbn [mbind outcome_bind].
    unfold char_ok in Hch. destruct (Z.eqb_spec c0 0); [lia|]. rewrite !length_app in *. simpl length in *.
    rewrite (decode_literal fuel (c0 :: lit) m p rest spec) by (assumption || discriminate || (simpl length; lia)).
    cbn [mbind outcome_bind]. unfold vsnprintf_one at 1. cbn [type]. eqb_const. cbn iota.
    destruct Hc as [Hb Hch2]. rewrite <- app_assoc in Hb. apply bytes_at_app in Hb as [Hb _].
    destruct Hp as [Hp0 Hd]. rewrite length_app in Hd. apply Forall_app in Hch2 as [Hch2 _].
    destruct (emitted_copy (c0 :: lit) p out m str) as (m1 & E1 & He1); [auto with xlinux|exact He|exact Hb|lia|simpl length; lia|].
    cbn zeta in E1. rewrite E1. cbn [mbind outcome_bind].
    destruct (IH rest s args text' (out ++ c0 :: lit) m1 (str + Z.of_nat (length (c0 :: lit))) (p + Z.of_nat (length (c0 :: lit)))
      (PrintfSpec FORMAT_TYPE_NONE (flags spec) (base spec) (precision spec)) He1) as (m' & str' & E & He'); try assumption; try lia.
    + apply readable_drop. split; [exact Hp0|]. rewrite length_app. exact Hd.
    + exists m', str'. split; [exact E|]. rewrite <- app_assoc in He'. exact He'.
Qed.

(** The string left in the buffer. *)
Definition printed (out : list Z) : list Z := if 0 <? size then take (Z.to_nat size - 1) out ++ [0] else [].

Lemma vsnprintf_ok fuel fmt f args out : writable m0 buf size -> readable fmt f -> renders false f args out ->
  (length f + length out < fuel)%nat -> Z.of_nat (length f) < 2 ^ 31 -> Z.of_nat (length out) < 2 ^ 31 ->
  exists m', vsnprintf null_msg efault_msg fuel m0 buf size fmt args = Ok (Z.of_nat (length out), m') /\
    bytes_at m' buf (printed out) /\ eq_outside buf size m0 m'.
Proof.
  intros Hw Hf Hr Hfuel Hlf Hlo. unfold vsnprintf.
  assert (emitted [] m0 buf) as He0.
  { split; [simpl; lia|]. split; [reflexivity|]. split; [exact Hw|]. rewrite take_nil. exact I. }
  destruct (loop_ok fuel fuel f false args out [] m0 buf fmt printf_spec_zero He0 Hf Hr) as (m & str & -> & (-> & Ho & Hw' & Hb)); try assumption; try lia; [reflexivity|].
  cbn [mbind outcome_bind]. cbn [app] in *.
  replace (buf + Z.of_nat (length out) - buf) with (Z.of_nat (length out)) by lia. rewrite s32_small by lia.
  unfold printed. destruct (Z.ltb_spec 0 size) as [Hpos|]; [|cbn [mbind outcome_bind]; exists m; repeat split; assumption || reflexivity].
  assert (exists q, q = Z.of_nat (Nat.min (Z.to_nat size - 1) (length out)) /\
    (if buf + Z.of_nat (length out) <? end_ then store8 m (buf + Z.of_nat (length out)) 0 else store8 m (end_ - 1) 0) =
    Ok (<[buf + q := 0]> m)) as (q & Eq & ->).
  { eexists. split; [reflexivity|]. destruct (Z.ltb_spec (buf + Z.of_nat (length out)) end_);
      rewrite store8_ok by (apply Hw'; lia); f_equal; f_equal; lia. }
  cbn [mbind outcome_bind]. eexists. split; [reflexivity|]. split.
  - apply bytes_at_app. rewrite length_take, <- Eq. split; [|split; [apply lookup_insert_eq|exact I]].
    replace (take (Z.to_nat size) out) with (take (Z.to_nat size - 1) out ++ drop (Z.to_nat size - 1) (take (Z.to_nat size) out)) in Hb.
    + apply bytes_at_app in Hb as [Hb _]. eapply bytes_at_ext; [|exact Hb]. intros a Ha. rewrite length_take in Ha.
      apply lookup_insert_ne. lia.
    + rewrite <- (take_drop (Z.to_nat size - 1) (take (Z.to_nat size) out)) at 2. rewrite take_take. f_equal. f_equal. lia.
  - intros a Ha. rewrite lookup_insert_ne by lia. apply Ho, Ha.
Qed.
End Output.

(** ** Parsing what was printed *)

Lemma numeral_exists b n : b = 8 \/ b = 10 \/ b = 16 -> is_u64 n -> exists l, numeral b n l.
Proof.
  intros Hb Hn. unfold is_u64 in Hn. destruct Hb as [-> | [-> | ->]].
  - destruct (pow2_digits_ok 3 24 ltac:(lia) n []) as (l & _ & H); [|lia|exists l; exact H].
    change ((2 ^ 3) ^ Z.of_nat 24) with (2 ^ 72). lia.
  - destruct (dec_digits_ok 24 n []) as (l & _ & H); [apply dec_room; lia|lia|exists l; exact H].
  - destruct (pow2_digits_ok 4 24 ltac:(lia) n []) as (l & _ & H); [|lia|exists l; exact H].
    change ((2 ^ 4) ^ Z.of_nat 24) with (2 ^ 96). lia.
Qed.

Lemma numeral_length b n l : 2 <= b -> numeral b n l -> (1 <= length l)%nat /\ (length l = 1%nat \/ 2 ^ (Z.of_nat (length l) - 1) <= n).
Proof.
  intros Hb H. induction H as [d c Hd Hc|n l d c Hn H IH Hd Hc]; [simpl; lia|]. rewrite length_app. simpl length.
  split; [lia|]. right. destruct IH as [Hl [E|Hp]].
  - rewrite E. change (2 ^ (Z.of_nat (1 + 1) - 1)) with 2. nia.
  - replace (Z.of_nat (length l + 1) - 1) with (Z.of_nat (length l) - 1 + 1) by lia. rewrite Z.pow_add_r by lia. nia.
Qed.

Lemma numeral_length_u64 b n l : 2 <= b -> is_u64 n -> numeral b n l -> (length l <= 64)%nat.
Proof.
  intros Hb Hn H. destruct (numeral_length b n l Hb H) as [_ [E|Hp]]; [lia|]. unfold is_u64 in Hn.
  assert (Z.of_nat (length l) - 1 < 64); [|lia]. apply (Z.pow_lt_mono_r_iff 2); lia.
Qed.

Lemma numeral_nonempty b n : ~ numeral b n [].
Proof. intros H. remember [] as l eqn:E. destruct H as [|? l]; [discriminate|]. destruct l; discriminate. Qed.

Lemma numeral_zero_head b n l : numeral b n (0x30 :: l) -> l = [].
Proof.
  remember (0x30 :: l) as l0 eqn:E. intros H. revert l E.
  induction H as [d c Hd Hc|n l0 d c Hn H IH Hd Hc]; intros l E; [injection E as _ <-; reflexivity|].
  destruct l0 as [|x l0]; [destruct (numeral_nonempty _ _ H)|].
  cbn [app] in E. injection E as -> <-. specialize (IH l0 eq_refl). subst l0.
  inversion H as [d' c' Hd' Hc' E' E2|n' l' d' c' Hn' H' Hd' Hc' E' E2]; subst.
  - destruct (hex_char n 0x30 ltac:(lia) Hc') as [_ Hv]. vm_compute in Hv. injection Hv as <-. lia.
  - destruct l' as [|? [|]]; try discriminate. destruct (numeral_nonempty _ _ H').
Qed.

(** [res & (~0ull << 60)], the test that precedes the multiplication. *)
Lemma overflow_test res : is_u64 res -> negb (Z.land res (u64 (Z.shiftl (2 ^ 64 - 1) 60)) =? 0) = (2 ^ 60 <=? res).
Proof.
  intros Hr. change (u64 (Z.shiftl (2 ^ 64 - 1) 60)) with (u64 (Z.lnot (2 ^ 60 - 1))).
  rewrite land_not_ones by (assumption || lia). unfold is_u64 in Hr.
  pose proof (Z.div_mod res (2 ^ 60)). pose proof (Z.mod_pos_bound res (2 ^ 60)). pose proof (Z.mod_small res (2 ^ 60)).
  destruct (Z.leb_spec (2 ^ 60) res), (Z.eqb_spec (res - res mod 2 ^ 60) 0); try reflexivity; lia.
Qed.

Lemma parse_step fuel m s b rv res d c : hex_asc_upper !! Z.to_nat d = Some c -> 0 <= d < b -> m !! s = Some c -> is_u64 res ->
  parse_integer_loop (S fuel) m s b rv res =
    if 2 ^ 60 <=? res then Panic "overflow!" else parse_integer_loop fuel m (s + 1) b (u32 (rv + 1)) (u64 (res * b + d)).
Proof.
  intros Hc Hd Hm Hr. cbn [parse_integer_loop]. rewrite (load8_ok _ _ _ Hm). cbn [mbind outcome_bind].
  destruct (hex_char d c ltac:(lia) Hc) as [_ ->]. destruct (Z.leb_spec b d); [lia|]. rewrite overflow_test by assumption. reflexivity.
Qed.

Lemma parse_numeral b n l : 2 <= b -> numeral b n l -> n < b * 2 ^ 60 -> is_u64 n -> forall fuel m s, bytes_at m s l ->
  parse_integer_loop (length l + fuel) m s b 0 0 = parse_integer_loop fuel m (s + Z.of_nat (length l)) b (Z.of_nat (length l)) n.
Proof.
  intros Hb H. induction H as [d c Hd Hc|n l d c Hn H IH Hd Hc]; intros Hlt Hu fuel m s Hm.
  - cbn [length plus]. rewrite (parse_step fuel m s b 0 0 d c) by (assumption || apply Hm || (unfold is_u64; lia)).
    change (2 ^ 60 <=? 0) with false. cbn iota. rewrite u64_small by (unfold is_u64 in *; lia). reflexivity.
  - apply bytes_at_app in Hm as [Hm [Hc0 _]]. rewrite length_app. cbn [length]. unfold is_u64 in *.
    replace (length l + 1 + fuel)%nat with (length l + S fuel)%nat by lia.
    assert (n < 2 ^ 60) by nia. pose proof (numeral_length_u64 b n l Hb ltac:(unfold is_u64; lia) H).
    rewrite IH by (assumption || nia). rewrite (parse_step fuel m _ b _ n d c) by (assumption || (unfold is_u64; lia)).
    destruct (Z.leb_spec (2 ^ 60) n); [lia|]. rewrite u64_small by (unfold is_u64; lia).
    assert (u32 (Z.of_nat (length l) + 1) = Z.of_nat (length l + 1)) as -> by (unfold u32; rewrite Z.mod_small; lia).
    f_equal. lia.
Qed.

Lemma parse_overflow b n l : 4 <= b -> numeral b n l -> b * 2 ^ 60 <= n -> is_u64 n -> forall fuel m s, bytes_at m s l ->
  (length l <= fuel)%nat -> parse_integer_loop fuel m s b 0 0 = Panic "overflow!".
Proof.
  intros Hb H Hge Hu fuel m s Hm Hf. unfold is_u64 in Hu. destruct H as [d c Hd Hc|n l d c Hn H Hd Hc]; [nia|].
  apply bytes_at_app in Hm as [Hm [Hc0 _]]. rewrite length_app in Hf. cbn [length] in Hf.
  replace fuel with (length l + S (fuel - length l - 1))%nat by lia.
  rewrite (parse_numeral b n l) by (assumption || (unfold is_u64; nia)).
  rewrite (parse_step _ m _ b _ n d c) by (assumption || (unfold is_u64; nia)).
  destruct (Z.leb_spec (2 ^ 60) n); [reflexivity|nia].
Qed.

Lemma fixup_numeral m s b n l : b <> 0 -> numeral b n l -> cstr m s l -> _parse_integer_fixup_radix m s b = Ok (s, b).
Proof.
  intros Hb Hn Hc. unfold _parse_integer_fixup_radix. destruct (Z.eqb_spec b 0); [lia|]. cbn [mbind outcome_bind].
  destruct (Z.eqb_spec b 16); [|reflexivity].
  destruct l as [|x l]; [destruct (numeral_nonempty _ _ Hn)|].
  apply cstr_cons in Hc as (H0 & _ & Hc). rewrite (load8_ok _ _ _ H0). cbn [mbind outcome_bind].
  destruct (Z.eqb_spec x 0x30) as [->|]; [|reflexivity]. apply numeral_zero_head in Hn. subst l.
  apply cstr_nil in Hc. rewrite (load8_ok _ _ _ Hc). reflexivity.
Qed.

Lemma strtoull_numeral fuel m s b n l : b = 8 \/ b = 10 \/ b = 16 -> is_u64 n -> numeral b n l -> cstr m s l -> (length l < fuel)%nat ->
  simple_strtoull fuel m s b = if n <? b * 2 ^ 60 then Ok (n, s + Z.of_nat (length l)) else Panic "overflow!".
Proof.
  intros Hb Hu Hn Hc Hf. unfold simple_strtoull. rewrite (fixup_numeral m s b n l) by (assumption || lia). cbn [mbind outcome_bind].
  unfold _parse_integer. pose proof Hc as [Hm _]. apply bytes_at_app in Hm as [Hm [H0 _]].
  destruct (Z.ltb_spec n (b * 2 ^ 60)).
  - replace fuel with (length l + S (fuel - length l - 1))%nat by lia.
    rewrite (parse_numeral b n l) by (assumption || lia). cbn [parse_integer_loop].
    rewrite (load8_ok _ _ _ H0). cbn [mbind outcome_bind]. change (digit_val 0) with (@None Z). cbn iota.
    pose proof (numeral_length_u64 b n l ltac:(lia) Hu Hn). cbn [mbind outcome_bind]. f_equal. f_equal. f_equal.
    change (u32 (Z.lnot KSTRTOX_OVERFLOW)) with (2 ^ 31 - 1). rewrite land_ones_mod by lia. apply Z.mod_small. lia.
  - rewrite (parse_overflow b n l) by (assumption || lia). reflexivity.
Qed.

Lemma conv_base c b : unsigned_conv c b -> b = 8 \/ b = 10 \/ b = 16.
Proof. unfold unsigned_conv. lia. Qed.

(** ** Properties *)


(** C34: printing a 64-bit number with [%lo], [%lu] or [%lx] and parsing the
    result with [simple_strtoull] in the same base gives the number back and
    stops at its end, except that from [base * 2^60] on, values that fit 64
    bits, the parser panics. *)
Theorem print_parse_roundtrip fuel m buf size null_msg efault_msg fmt c b n :
  64 < size -> writable m buf size ->
  readable m buf size null_msg null_text -> readable m buf size efault_msg efault_text ->
  unsigned_conv c b -> readable m buf size fmt [0x25; 0x6c; c] -> is_u64 n -> (67 < fuel)%nat ->
  exists m' len, vsnprintf null_msg efault_msg fuel m buf size fmt [n] = Ok (len, m') /\
    simple_strtoull fuel m' buf b = if n <? b * 2 ^ 60 then Ok (n, buf + len) else Panic "overflow!".
Proof.
  intros Hs Hw Hn He Hc Hf Hu Hfuel. pose proof (conv_base c b Hc) as Hb. destruct (numeral_exists b n Hb Hu) as [l Hl].
  pose proof (numeral_length_u64 b n l ltac:(lia) Hu Hl) as Hlen.
  destruct (vsnprintf_ok m buf size null_msg efault_msg Hn He fuel fmt [0x25; 0x6c; c] [n] (l ++ [])) as (m' & E & Hb' & _);
    rewrite ?app_nil_r; simpl length; try assumption; try lia.
  - change [0x25; 0x6c; c] with (0x25 :: qual true ++ c :: []). rewrite <- (app_nil_r l).
    eapply renders_conv; [eapply conv_unsigned; [exact Hc|]|constructor]. cbn [int_value]. rewrite u64_small by assumption.
    constructor; [auto|exact Hl].
  - exists m', (Z.of_nat (length l)). rewrite app_nil_r in *. split; [exact E|]. apply strtoull_numeral; try assumption; [|lia].
    unfold printed in Hb'. destruct (Z.ltb_spec 0 size); [|lia]. rewrite take_ge in Hb' by lia.
    split; [exact Hb'|]. apply (numeral_pos b n l); [lia|exact Hl].
Qed.

(** the sign flag set by [%d] stays set: an unsigned value of 2^31 or more
    printed with [%u] later in the same format appears as a negative number. *)
Theorem unsigned_after_signed fuel m buf size null_msg efault_msg fmt a v ta tv :
  0 <= size -> writable m buf size ->
  readable m buf size null_msg null_text -> readable m buf size efault_msg efault_text ->
  readable m buf size fmt [0x25; 0x64; 0x25; 0x75] -> 2 ^ 31 <= v < 2 ^ 32 ->
  int_text 10 true (u64 (s32 a)) ta -> numeral 10 (2 ^ 32 - v) tv ->
  (5 + length ta + length tv < fuel)%nat -> Z.of_nat (length ta + length tv) < 2 ^ 31 - 1 ->
  exists m' len, vsnprintf null_msg efault_msg fuel m buf size fmt [a; v] = Ok (len, m') /\
    bytes_at m' buf (printed size (ta ++ 0x2d :: tv)).
Proof.
  intros Hs Hw Hn He Hf Hv Hta Htv Hfuel Hlen.
  destruct (vsnprintf_ok m buf size null_msg efault_msg Hn He fuel fmt [0x25; 0x64; 0x25; 0x75] [a; v] (ta ++ (0x2d :: tv) ++ [])) as (m' & E & Hb' & _);
    rewrite ?app_nil_r, ?length_app; simpl length; try assumption; try lia.
  - change [0x25; 0x64; 0x25; 0x75] with (0x25 :: qual false ++ 0x64 :: 0x25 :: qual false ++ 0x75 :: []).
    rewrite <- (app_nil_r (0x2d :: tv)).
    eapply renders_conv; [apply conv_signed; [left; reflexivity|exact Hta]|].
    eapply renders_conv; [|constructor]. apply conv_unsigned with (b := 10); [right; right; auto|].
    assert (s64 (int_value true false v) = v - 2 ^ 32) as Ev.
    { cbn [int_value]. assert (s32 v = v - 2 ^ 32) as ->.
      { unfold s32. rewrite <- (Z.mod_unique (v + 2 ^ 31) (2 ^ 32) 1 (v - 2 ^ 31)); lia. }
      assert (u64 (v - 2 ^ 32) = v - 2 ^ 32 + 2 ^ 64) as ->.
      { unfold u64. rewrite <- (Z.mod_unique (v - 2 ^ 32) (2 ^ 64) (-1) (v - 2 ^ 32 + 2 ^ 64)); lia. }
      unfold s64. rewrite <- (Z.mod_unique (v - 2 ^ 32 + 2 ^ 64 + 2 ^ 63) (2 ^ 64) 1 (v - 2 ^ 32 + 2 ^ 63)); lia. }
    apply int_text_minus; [lia|]. rewrite Ev. replace (- (v - 2 ^ 32)) with (2 ^ 32 - v) by lia. exact Htv.
  - exists m'. eexists. split; [exact E|]. rewrite app_nil_r in Hb'. exact Hb'.
Qed.

(** ** Witnesses *)

Fixpoint place (p : Z) (l : list Z) (m : mem) : mem :=
  match l with [] => m | c :: l' => <[p := c]> (place (p + 1) l' m) end.

(** The messages at 0x7000 and 0x7100, a string at 0x7200, formats from 0x5000
    on and a buffer of 80 bytes at 0x6000. *)
Definition fmt_ds : list Z := [0x25; 0x64; 0x3a; 0x25; 0x73].
Definition print_mem : mem :=
  place 0x7000 (null_text ++ [0]) (place 0x7100 (efault_text ++ [0]) (place 0x7200 [0x68; 0x69; 0]
    (place 0x5000 (fmt_ds ++ [0]) (place 0x5100 [0x25; 0x6c; 0x75; 0] (place 0x5200 [0x25; 0x64; 0x25; 0x75; 0]
      (place 0x6000 (replicate 80 0xff) ∅)))))).

Ltac solve_readable := split; [split; [repeat split; vm_compute; reflexivity|repeat constructor; vm_compute; reflexivity]|simpl; lia].

Lemma print_mem_writable n : 0 <= n <= 80 -> writable print_mem 0x6000 n.
Proof.
  intros Hn a Ha. assert (bytes_at print_mem 0x6000 (replicate 80 0xff)) as H by (repeat split; vm_compute; reflexivity).
  apply (bytes_at_writable _ _ _ H). simpl length. lia.
Qed.

Lemma numeral_5 : numeral 10 5 [0x35].
Proof. apply numeral_digit; [lia|reflexivity]. Qed.


Lemma print_parse_roundtrip_witness : exists m' len,
  vsnprintf 0x7000 0x7100 80 print_mem 0x6000 70 0x5100 [12345] = Ok (len, m') /\
  simple_strtoull 80 m' 0x6000 10 = Ok (12345, 0x6000 + len).
Proof.
  apply (print_parse_roundtrip 80 print_mem 0x6000 70 0x7000 0x7100 0x5100 0x75 10 12345).
  - lia.
  - apply print_mem_writable. lia.
  - solve_readable.
  - solve_readable.
  - right. right. auto.
  - solve_readable.
  - unfold is_u64. lia.
  - lia.
Defined.

Lemma unsigned_after_signed_witness : exists m' len,
  vsnprintf 0x7000 0x7100 20 print_mem 0x6000 80 0x5200 [5; 2 ^ 32 - 5] = Ok (len, m') /\
  bytes_at m' 0x6000 [0x35; 0x2d; 0x35; 0].
Proof.
  apply (unsigned_after_signed 20 print_mem 0x6000 80 0x7000 0x7100 0x5200 5 (2 ^ 32 - 5) [0x35] [0x35]).
  - lia.
  - apply print_mem_writable. lia.
  - solve_readable.
  - solve_readable.
  - solve_readable.
  - lia.
  - apply int_text_plain; [right; right; vm_compute; discriminate|exact numeral_5].
  - exact numeral_5.
  - simpl. lia.
  - reflexivity.
Defined.
