(* ===== verification/HeapLogic.v ===== *)
(** * A separation logic for the kernel's linked structures

    The memory of linked structures is a finite map from addresses to words:
    a field of a structure at address [p] is the cell at [p] plus the offset
    of the field.  [hprop] is the (affine) separation logic of such memories,
    an instance of the logic interface of Iris, so that its proof mode can be
    used; [wp m Q] says that the program [m], run on the owned cells and any
    others beside them, terminates without fault, leaves the others as they
    are and ends in [Q].  A theorem about [wp] is turned into one about the
    plain function by [wp_adequate]. *)

From Stdlib Require Import ZArith Lia.
From stdpp Require Import base tactics numbers list strings gmap.
From iris.proofmode Require Import proofmode.
From S2P Require Import Prelude.
#[global] Open Scope Z_scope.

Abbreviation words := (gmap Z Z).
Abbreviation prog := (ST words).

(** ** Programs *)

Definition ld (p : Z) : prog Z := fun m => v ← deref (m !! p); Ok (v, m).
Definition st (p v : Z) : prog unit := fun m =>
  match m !! p with Some _ => Ok (tt, <[p := v]> m) | None => Fault end.

(** A loop whose bound was too small. *)
Definition no_fuel {A} : prog A := fun _ => NoFuel.

(** ** The logic *)

Record hprop := HProp {
  hprop_holds : words -> Prop;
  hprop_mono : forall h h', hprop_holds h -> h ⊆ h' -> hprop_holds h' }.
Arguments hprop_holds : simpl never.

Record hprop_entails (P Q : hprop) : Prop := {
  hprop_in : forall h, hprop_holds P h -> hprop_holds Q h }.

#[global] Instance hprop_equiv : Equiv hprop := fun P Q => forall h, hprop_holds P h <-> hprop_holds Q h.
#[global] Instance hprop_equivalence : Equivalence (≡@{hprop}).
Proof.
  split.
  - intros P h. reflexivity.
  - intros P Q H h. symmetry. apply H.
  - intros P Q R H1 H2 h. etransitivity; [apply H1|apply H2].
Qed.
Canonical Structure hpropO := discreteO hprop.

Program Definition hprop_emp : hprop := HProp (fun _ => True) _.
Next Obligation. auto. Qed.
Program Definition hprop_pure (φ : Prop) : hprop := HProp (fun _ => φ) _.
Next Obligation. auto. Qed.
Program Definition hprop_and (P Q : hprop) : hprop := HProp (fun h => hprop_holds P h /\ hprop_holds Q h) _.
Next Obligation. intros P Q h h' [H1 H2] Hs. split; eapply hprop_mono; eauto. Qed.
Program Definition hprop_or (P Q : hprop) : hprop := HProp (fun h => hprop_holds P h \/ hprop_holds Q h) _.
Next Obligation. intros P Q h h' [H|H] Hs; [left|right]; eapply hprop_mono; eauto. Qed.
Program Definition hprop_impl (P Q : hprop) : hprop :=
  HProp (fun h => forall h', h ⊆ h' -> hprop_holds P h' -> hprop_holds Q h') _.
Next Obligation. intros P Q h h' H Hs h2 H2 HP. apply H; [etransitivity; eassumption|exact HP]. Qed.
Program Definition hprop_forall (A : Type) (Φ : A -> hprop) : hprop := HProp (fun h => forall x, hprop_holds (Φ x) h) _.
Next Obligation. intros A Φ h h' H Hs x. eapply hprop_mono; eauto. Qed.
Program Definition hprop_exist (A : Type) (Φ : A -> hprop) : hprop := HProp (fun h => exists x, hprop_holds (Φ x) h) _.
Next Obligation. intros A Φ h h' [x H] Hs. exists x. eapply hprop_mono; eauto. Qed.
Program Definition hprop_sep (P Q : hprop) : hprop :=
  HProp (fun h => exists h1 h2, h1 ##ₘ h2 /\ h1 ∪ h2 ⊆ h /\ hprop_holds P h1 /\ hprop_holds Q h2) _.
Next Obligation.
  intros P Q h h' (h1 & h2 & H1 & H2 & H3 & H4) Hs. exists h1, h2.
  split; [exact H1|]. split; [etransitivity; eassumption|]. auto.
Qed.
Program Definition hprop_wand (P Q : hprop) : hprop :=
  HProp (fun h => forall h', h ##ₘ h' -> hprop_holds P h' -> hprop_holds Q (h ∪ h')) _.
Next Obligation.
  intros P Q h h2 H Hs h' Hd HP. eapply hprop_mono; [apply (H h')|].
  - eapply map_disjoint_weaken_l; eassumption.
  - exact HP.
  - apply map_union_mono_r; assumption.
Qed.
Definition hprop_persistently (P : hprop) : hprop := hprop_pure (hprop_entails hprop_emp P).

Lemma hprop_bi_mixin : BiMixin hprop_entails hprop_emp hprop_pure hprop_and hprop_or hprop_impl
  hprop_forall hprop_exist hprop_sep hprop_wand.
Proof.
  split.
  - split; [intros P; split; auto|]. intros P Q R [H1] [H2]. split. auto.
  - intros P Q. split.
    + intros H. split; split; intros h; apply H.
    + intros [[H1] [H2]] h. split; auto.
  - intros n φ ψ H h. exact H.
  - intros n P P' HP Q Q' HQ h. unfold hprop_holds; simpl. rw (HP h) (HQ h). reflexivity.
  - intros n P P' HP Q Q' HQ h. unfold hprop_holds; simpl. rw (HP h) (HQ h). reflexivity.
  - intros n P P' HP Q Q' HQ h. split; intros H h' Hs H'; apply HQ, H; auto; apply HP; exact H'.
  - intros A n Φ Ψ H h. split; intros H' x; apply (H x h), H'.
  - intros A n Φ Ψ H h. split; intros [x H']; exists x; apply (H x h), H'.
  - intros n P P' HP Q Q' HQ h. split; intros (h1 & h2 & ? & ? & H1 & H2); exists h1, h2;
      (split; [assumption|split; [assumption|split; [apply HP|apply HQ]; assumption]]).
  - intros n P P' HP Q Q' HQ h. split; intros H h' Hs H'; apply HQ, H; auto; apply HP; exact H'.
  - intros φ P Hφ. split. intros h _. exact Hφ.
  - intros φ P H. split. intros h Hφ. apply (hprop_in _ _ (H Hφ)). exact I.
  - intros P Q. split. intros h [H _]. exact H.
  - intros P Q. split. intros h [_ H]. exact H.
  - intros P Q R [H1] [H2]. split. intros h H. split; auto.
  - intros P Q. split. intros h H. left. exact H.
  - intros P Q. split. intros h H. right. exact H.
  - intros P Q R [H1] [H2]. split. intros h [H|H]; auto.
  - intros P Q R [H]. split. intros h HP h' Hs HQ. apply H. split; [eapply hprop_mono; eassumption|exact HQ].
  - intros P Q R [H]. split. intros h [HP HQ]. apply (H h HP h); [reflexivity|exact HQ].
  - intros A P Ψ H. split. intros h HP x. exact (hprop_in _ _ (H x) h HP).
  - intros A Ψ x. split. intros h H. exact (H x).
  - intros A Ψ x. split. intros h H. exists x. exact H.
  - intros A Φ Q H. split. intros h [x Hx]. exact (hprop_in _ _ (H x) h Hx).
  - intros P P' Q Q' [H1] [H2]. split. intros h (h1 & h2 & Hd & Hs & HP & HQ). exists h1, h2. auto.
  - intros P. split. intros h H. exists ∅, h. split; [apply map_disjoint_empty_l|].
    rw left_id_L. split; [reflexivity|]. split; [exact I|exact H].
  - intros P. split. intros h (h1 & h2 & Hd & Hs & _ & H). eapply hprop_mono; [exact H|].
    etransitivity; [|exact Hs]. apply map_union_subseteq_r. exact Hd.
  - intros P Q. split. intros h (h1 & h2 & Hd & Hs & HP & HQ). exists h2, h1.
    rw (map_union_comm h2 h1) //. 
  - intros P Q R. split. intros h (h12 & h3 & Hd & Hs & (h1 & h2 & Hd' & Hs' & HP & HQ) & HR).
    exists h1, (h2 ∪ h3).
    assert (h1 ∪ h2 ##ₘ h3) as Hd12 by (eapply map_disjoint_weaken_l; eassumption).
    apply map_disjoint_union_l in Hd12 as [D1 D2].
    split; [apply map_disjoint_union_r; auto|]. split.
    + rw assoc_L. etransitivity; [|exact Hs]. apply map_union_mono_r; assumption.
    + split; [exact HP|]. exists h2, h3. split; [exact D2|]. split; [reflexivity|auto].
  - intros P Q R [H]. split. intros h HP h' Hd HQ. apply H. exists h, h'. split; [exact Hd|].
    split; [reflexivity|auto].
  - intros P Q R [H]. split. intros h (h1 & h2 & Hd & Hs & HP & HQ).
    eapply hprop_mono; [exact (H h1 HP h2 Hd HQ)|exact Hs].
Qed.

Lemma hprop_persistently_mixin :
  BiPersistentlyMixin hprop_entails hprop_emp hprop_and hprop_exist hprop_sep hprop_persistently.
Proof.
  eapply bi_persistently_mixin_discrete, hprop_bi_mixin; [done| |done].
  intros A Φ [H]. destruct (H ∅ I) as [x Hx]. exists x. split. intros h _.
  eapply hprop_mono; [exact Hx|apply map_empty_subseteq].
Qed.

Lemma hprop_later_mixin :
  BiLaterMixin hprop_entails hprop_pure hprop_or hprop_impl hprop_forall hprop_exist hprop_sep
    hprop_persistently id.
Proof. eapply bi_later_mixin_id; [done|apply hprop_bi_mixin]. Qed.

Canonical Structure hpropI : bi :=
  {| bi_ofe_mixin := ofe_mixin_of hprop; bi_bi_mixin := hprop_bi_mixin;
     bi_bi_persistently_mixin := hprop_persistently_mixin; bi_bi_later_mixin := hprop_later_mixin |}.

#[global] Instance hprop_affine : BiAffine hpropI | 0.
Proof. intros P. split. intros h _. exact I. Qed.
#[global] Instance hprop_pure_forall : BiPureForall hpropI.
Proof. intros A φ. split. intros h H. exact H. Qed.

(** ** Cells *)

Program Definition cell (p v : Z) : hprop := HProp (fun h => h !! p = Some v) _.
Next Obligation. intros p v h h' H Hs. exact (lookup_weaken h h' p v H Hs). Qed.
Notation "p ↦ v" := (cell p v) (at level 20, format "p  ↦  v") : bi_scope.

Lemma cell_excl p v w : p ↦ v -∗ p ↦ w -∗ False.
Proof.
  apply bi.entails_wand, bi.wand_intro_r. split. intros h (h1 & h2 & Hd & _ & H1 & H2).
  rw map_disjoint_spec in Hd. exact (Hd p v w H1 H2).
Qed.

Lemma cell_ne p q v w : p ↦ v -∗ q ↦ w -∗ ⌜p <> q⌝.
Proof.
  iIntros "H1 H2". destruct (decide (p = q)) as [->|]; [|done].
  iDestruct (cell_excl with "H1 H2") as %[].
Qed.

(** ** Weakest preconditions *)

Program Definition wp {A} (m : prog A) (Q : A -> hprop) : hprop :=
  HProp (fun h => forall hf, h ##ₘ hf -> exists a h', m (h ∪ hf) = Ok (a, h' ∪ hf) /\ h' ##ₘ hf /\ hprop_holds (Q a) h') _.
Next Obligation.
  intros A m Q h h2 H Hs hf Hd. rw -(map_difference_union h h2) // in Hd *.
  assert (h ##ₘ h2 ∖ h) as Hd0 by (apply map_disjoint_difference_r1; reflexivity).
  apply map_disjoint_union_l in Hd as [D1 D2].
  destruct (H ((h2 ∖ h) ∪ hf)) as (a & h' & E & D & HQ); [apply map_disjoint_union_r; auto|].
  apply map_disjoint_union_r in D as [D3 D4]. exists a, (h' ∪ h2 ∖ h).
  rw -!assoc_L. split; [exact E|]. split; [apply map_disjoint_union_l; auto|].
  eapply hprop_mono; [exact HQ|apply map_union_subseteq_l].
Qed.

Lemma wp_ret {A} (a : A) Q : Q a -∗ wp (mret a) Q.
Proof.
  apply bi.entails_wand. split. intros h H hf Hd. exists a, h. auto.
Qed.

Lemma wp_bind {A B} (m : prog A) (f : A -> prog B) Q :
  wp m (fun a => wp (f a) Q) -∗ wp (a ← m; f a) Q.
Proof.
  apply bi.entails_wand. split. intros h H hf Hd. destruct (H hf Hd) as (a & h1 & E & D & H1).
  destruct (H1 hf D) as (b & h2 & E2 & D2 & H2). exists b, h2.
  split; [|auto]. unfold mbind, st_bind. rw E. exact E2.
Qed.

(** Ownership not needed by the program is kept. *)
Lemma wp_wand {A} (m : prog A) Q Q' : wp m Q -∗ (∀ a, Q a -∗ Q' a) -∗ wp m Q'.
Proof.
  apply bi.entails_wand, bi.wand_intro_r. split. intros h (h1 & h2 & D & Hs & H1 & H2).
  eapply hprop_mono; [|exact Hs]. intros hf Hd. apply map_disjoint_union_l in Hd as [D1 D2].
  destruct (H1 (h2 ∪ hf)) as (a & h' & E & D' & HQ); [apply map_disjoint_union_r; auto|].
  apply map_disjoint_union_r in D' as [D3 D4]. exists a, (h2 ∪ h').
  rw -assoc_L. split.
  - rw E. do 2 f_equal. rw !assoc_L. f_equal. apply map_union_comm. exact D3.
  - split; [apply map_disjoint_union_l; auto|]. apply (H2 a h'); [symmetry; exact D3|exact HQ].
Qed.

Lemma wp_ld p v Q : p ↦ v -∗ (p ↦ v -∗ Q v) -∗ wp (ld p) Q.
Proof.
  apply bi.entails_wand, bi.wand_intro_r. split. intros h (h1 & h2 & D & Hs & H1 & H2).
  eapply hprop_mono; [|exact Hs]. intros hf Hd. exists v, (h1 ∪ h2).
  split; [|split; [exact Hd|]].
  - unfold ld. rw (lookup_union_Some_l _ _ p v); [reflexivity|]. apply lookup_union_Some_l. exact H1.
  - rw map_union_comm //. apply (H2 h1); [symmetry; exact D|exact H1].
Qed.

Lemma wp_st p v w Q : p ↦ v -∗ (p ↦ w -∗ Q tt) -∗ wp (st p w) Q.
Proof.
  apply bi.entails_wand, bi.wand_intro_r. split. intros h (h1 & h2 & D & Hs & H1 & H2).
  eapply hprop_mono; [|exact Hs]. intros hf Hd.
  change (h1 !! p = Some v) in H1.
  assert (h2 !! p = None) as N2 by (eapply map_disjoint_Some_l; eassumption).
  assert (hf !! p = None) as Nf by (apply map_disjoint_union_l in Hd as [D1 _]; eapply map_disjoint_Some_l; eassumption).
  assert (<[p := w]> h1 ##ₘ h2) as D' by (apply map_disjoint_insert_l; auto).
  exists tt, (<[p := w]> h1 ∪ h2). split; [|split].
  - unfold st. rw (lookup_union_Some_l _ _ p v); [|apply lookup_union_Some_l; exact H1].
    do 2 f_equal. rw -!insert_union_l. reflexivity.
  - rw -insert_union_l. apply map_disjoint_insert_l. auto.
  - rw map_union_comm //. apply (H2 (<[p := w]> h1)); [symmetry; exact D'|]. apply lookup_insert_eq.
Qed.

(** A load or a store at the head of the program, from the named cell. *)
Tactic Notation "wp_ld" constr(H) := iApply wp_bind; iApply (wp_ld with H); iIntros H.
Tactic Notation "wp_st" constr(H) := iApply wp_bind; iApply (wp_st with H); iIntros H.

(** From a specification to the function it describes: run on a memory with
    the owned part [h] and anything else [hf] beside it. *)
Lemma wp_adequate {A} (P : hprop) (m : prog A) Q : (P ⊢ wp m Q) -> forall h hf, hprop_holds P h -> h ##ₘ hf ->
  exists a h', m (h ∪ hf) = Ok (a, h' ∪ hf) /\ h' ##ₘ hf /\ hprop_holds (Q a) h'.
Proof. intros [H] h hf HP. apply (H h HP). Qed.

(** ** Programs that only read *)

Definition read_only {A} (m : prog A) : Prop := forall s a s', m s = Ok (a, s') -> s' = s.

Lemma read_only_ret {A} (a : A) : read_only (mret a).
Proof. intros s b s' E. by injection E. Qed.
Lemma read_only_ld p : read_only (ld p).
Proof. intros s b s' E. unfold ld in E. destruct (s !! p); [|done]. by injection E. Qed.
Lemma read_only_bind {A B} (m : prog A) (f : A -> prog B) : read_only m -> (forall a, read_only (f a)) -> read_only (a ← m; f a).
Proof.
  intros Hm Hf s b s' E. unfold mbind, st_bind in E. destruct (m s) as [[a s1]| | |] eqn:E1; [|done..].
  apply Hm in E1. subst s1. exact (Hf a _ _ _ E).
Qed.

Lemma read_only_panic {A} msg : read_only (st_panic (A := A) msg).
Proof. intros s a s' E. discriminate E. Qed.
Lemma read_only_no_fuel {A} : read_only (no_fuel (A := A)).
Proof. intros s a s' E. discriminate E. Qed.

Create HintDb read_only.
#[export] Hint Resolve read_only_ret read_only_ld read_only_bind read_only_panic read_only_no_fuel : read_only.
Ltac solve_read_only :=
  repeat first [match goal with |- forall _, _ => intros ? end | apply read_only_bind | apply read_only_ld | apply read_only_ret
               | match goal with |- read_only (if ?b then _ else _) => destruct b end];
  eauto with read_only.

(** A program that only reads keeps what it reads. *)
Lemma wp_read_only {A} (m : prog A) (P : hprop) (φ : A -> Prop) : read_only m ->
  (P ⊢ wp m (fun a => ⌜φ a⌝%I)) -> P ⊢ wp m (fun a => ⌜φ a⌝ ∗ P)%I.
Proof.
  intros Hm [H]. split. intros h HP hf Hd. destruct (H h HP hf Hd) as (a & h' & E & D & Hφ).
  pose proof (Hm _ _ _ E) as E1. exists a, h. split; [by rw E E1|]. split; [exact Hd|].
  exists ∅, h. split; [apply map_disjoint_empty_l|]. rw left_id_L. split; [reflexivity|]. split; [exact Hφ|exact HP].
Qed.

(** ** Concrete memories *)

Definition cells (l : list (Z * Z)) : words := list_to_map l.

Lemma cells_hold l : NoDup (map fst l) -> hprop_holds ([∗ list] x ∈ l, x.1 ↦ x.2)%I (cells l).
Proof.
  induction l as [|[p v] l IH]; intros Hn; [exact I|]. simpl in Hn. apply NoDup_cons in Hn as [Hp Hn].
  assert (cells l !! p = None) as Hl by (apply not_elem_of_list_to_map_1; exact Hp).
  exists {[p := v]}, (cells l). split; [by apply map_disjoint_singleton_l|]. split.
  - rw -insert_union_singleton_l. reflexivity.
  - split; [apply lookup_singleton_eq|apply IH, Hn].
Qed.

(** Distinct addresses of a concrete list of cells. *)
Ltac solve_nodup := apply (bool_decide_eq_true_1 _); vm_compute; reflexivity.

Lemma cells_entail (P : hprop) l : NoDup (map fst l) -> (([∗ list] x ∈ l, x.1 ↦ x.2) ⊢ P)%I -> hprop_holds P (cells l).
Proof. intros Hn [H]. apply H, cells_hold, Hn. Qed.
