(* ===== verification/KList.v ===== *)
(** * include/list.h: linked lists and hash lists

    A [struct list_head] is [prev] at offset 0 and [next] at offset 8; a
    [struct hlist_node] is [next] at 0 and [pprev] at 8, a [struct hlist_head]
    the cell of [first].  An entry is known by the address of its list node, so
    [container_of] does not appear.  The functions are programs on the memory
    of [HeapLogic].  [dlist head l] says that memory holds the circular list of
    the nodes [l]; the functions act on [l] as their names say. *)

From Stdlib Require Import ZArith Lia.
From stdpp Require Import base tactics numbers list strings gmap.
From iris.proofmode Require Import proofmode.
From S2P Require Import Prelude HeapLogic.
#[global] Open Scope Z_scope.

(** ** Doubly linked lists *)

Definition list_prev (p : Z) : Z := p.
Definition list_next (p : Z) : Z := p + 8.

Definition INIT_LIST_HEAD (list : Z) : prog unit :=
  st (list_next list) list;;
  st (list_prev list) list.

Definition __list_add (new prev next : Z) : prog unit :=
  st (list_prev next) new;;
  st (list_next new) next;;
  st (list_prev new) prev;;
  st (list_next prev) new.

Definition list_add (new head : Z) : prog unit :=
  next ← ld (list_next head); __list_add new head next.

Definition list_add_tail (new head : Z) : prog unit :=
  prev ← ld (list_prev head); __list_add new prev head.

Definition __list_del (prev next : Z) : prog unit :=
  st (list_prev next) prev;;
  st (list_next prev) next.

Definition __list_del_entry (entry : Z) : prog unit :=
  prev ← ld (list_prev entry);
  next ← ld (list_next entry);
  __list_del prev next.

Definition list_del_init (entry : Z) : prog unit :=
  __list_del_entry entry;; INIT_LIST_HEAD entry.

Definition list_del (entry : Z) : prog unit :=
  __list_del_entry entry;;
  st (list_next entry) 0;;
  st (list_prev entry) 0.

Definition list_empty (head : Z) : prog bool :=
  next ← ld (list_next head); mret (next =? head).

Definition __list_splice (list prev next : Z) : prog unit :=
  first ← ld (list_next list);
  last ← ld (list_prev list);
  st (list_prev first) prev;;
  st (list_next prev) first;;
  st (list_next last) next;;
  st (list_prev next) last.

Definition list_splice (list head : Z) : prog unit :=
  e ← list_empty list;
  if negb e then next ← ld (list_next head); __list_splice list head next else mret tt.

Definition list_replace (old new : Z) : prog unit :=
  next ← ld (list_next old);
  st (list_next new) next;;
  next ← ld (list_next new);
  st (list_prev next) new;;
  prev ← ld (list_prev old);
  st (list_prev new) prev;;
  prev ← ld (list_prev new);
  st (list_next prev) new.

Definition list_replace_init (old new : Z) : prog unit :=
  list_replace old new;; INIT_LIST_HEAD old.

Definition list_empty_careful (head : Z) : prog bool :=
  next ← ld (list_next head);
  if next =? head then prev ← ld (list_prev head); mret (next =? prev) else mret false.

Definition list_first_entry_or_null (head : Z) : prog Z :=
  pos ← ld (list_next head); mret (if pos =? head then 0 else pos).

(** The loops, with the body as an argument. *)
Fixpoint list_for_each_entry (fuel : nat) (body : Z -> prog unit) (pos head : Z) : prog unit :=
  match fuel with
  | O => no_fuel
  | S f =>
      if pos =? head then mret tt
      else body pos;; pos ← ld (list_next pos); list_for_each_entry f body pos head
  end.
Definition for_each (fuel : nat) (body : Z -> prog unit) (head : Z) : prog unit :=
  pos ← ld (list_next head); list_for_each_entry fuel body pos head.

Fixpoint list_for_each_entry_safe (fuel : nat) (body : Z -> prog unit) (pos tmp head : Z) : prog unit :=
  match fuel with
  | O => no_fuel
  | S f =>
      if pos =? head then mret tt
      else body pos;; let pos := tmp in tmp ← ld (list_next pos); list_for_each_entry_safe f body pos tmp head
  end.
Definition for_each_safe (fuel : nat) (body : Z -> prog unit) (head : Z) : prog unit :=
  pos ← ld (list_next head); tmp ← ld (list_next pos); list_for_each_entry_safe fuel body pos tmp head.

(** ** Hash lists *)

Definition hlist_next (n : Z) : Z := n.
Definition hlist_pprev (n : Z) : Z := n + 8.

Definition INIT_HLIST_HEAD (h : Z) : prog unit := st h 0.
Definition INIT_HLIST_NODE (h : Z) : prog unit := st (hlist_next h) 0;; st (hlist_pprev h) 0.

Definition hlist_empty (h : Z) : prog bool := first ← ld h; mret (first =? 0).
Definition hlist_unhashed (h : Z) : prog bool := pprev ← ld (hlist_pprev h); mret (pprev =? 0).

Definition hlist_add_head (n h : Z) : prog unit :=
  first ← ld h;
  st (hlist_next n) first;;
  (if first =? 0 then mret tt else st (hlist_pprev first) (hlist_next n));;
  st h n;;
  st (hlist_pprev n) h.

Definition __hlist_del (n : Z) : prog unit :=
  next ← ld (hlist_next n);
  pprev ← ld (hlist_pprev n);
  st pprev next;;
  if next =? 0 then mret tt else st (hlist_pprev next) pprev.

Definition hlist_del_init (n : Z) : prog unit :=
  u ← hlist_unhashed n;
  if negb u then __hlist_del n;; INIT_HLIST_NODE n else mret tt.

Fixpoint hlist_for_each_entry (fuel : nat) (body : Z -> prog unit) (pos : Z) : prog unit :=
  match fuel with
  | O => no_fuel
  | S f => if pos =? 0 then mret tt else body pos;; pos ← ld (hlist_next pos); hlist_for_each_entry f body pos
  end.

(** ** Lists in memory *)

(** [q] follows [p]. *)
Definition edge (p q : Z) : hprop := (list_next p ↦ q ∗ list_prev q ↦ p)%I.

(** The nodes [l] are linked between [p] and [q]. *)
Fixpoint lseg (p : Z) (l : list Z) (q : Z) : hprop :=
  match l with
  | [] => edge p q
  | x :: l' => edge p x ∗ lseg x l' q
  end%I.

Definition dlist (head : Z) (l : list Z) : hprop := lseg head l head.
Definition raw_list (x : Z) : hprop := (∃ a b, list_prev x ↦ a ∗ list_next x ↦ b)%I.

Lemma lseg_app p l1 x l2 q : lseg p (l1 ++ x :: l2) q ⊣⊢ lseg p l1 x ∗ lseg x l2 q.
Proof.
  revert p. induction l1 as [|y l1 IH]; intros p; simpl; [done|]. rw IH. by rw bi.sep_assoc.
Qed.

Lemma lseg_join p l1 x l2 q : lseg p l1 x -∗ lseg x l2 q -∗ lseg p (l1 ++ x :: l2) q.
Proof. iIntros "H1 H2". rw lseg_app. iFrame. Qed.

(** The first and the last edge of a list. *)
Lemma lseg_first p l q : lseg p l q -∗ ∃ n, edge p n ∗ ∀ p', edge p' n -∗ lseg p' l q.
Proof.
  iIntros "H". destruct l as [|n l]; simpl.
  - iExists q. iFrame. iIntros (p') "$".
  - iDestruct "H" as "[He H]". iExists n. iFrame. iIntros (p') "$".
Qed.

Lemma lseg_last p l q : lseg p l q -∗ ∃ y, edge y q ∗ ∀ l2 q', lseg y l2 q' -∗ lseg p (l ++ l2) q'.
Proof.
  iIntros "H". iInduction l as [|x l IH] forall (p); simpl.
  - iExists p. iFrame. iIntros (l2 q') "$".
  - iDestruct "H" as "[He H]". iDestruct ("IH" with "H") as (y) "[Hy Hc]". iExists y. iFrame.
    iIntros (l2 q') "H". iApply ("Hc" with "H").
Qed.


(** ** The operations on edges *)

Lemma wp___list_add new p q Q : edge p q -∗ raw_list new -∗ (edge p new -∗ edge new q -∗ Q tt) -∗ wp (__list_add new p q) Q.
Proof.
  iIntros "[Hp Hq] (%a & %b & Ha & Hb) HQ". unfold __list_add. wp_st "Hq". wp_st "Hb". wp_st "Ha".
  iApply (wp_st with "Hp"). iIntros "Hp". iApply ("HQ" with "[$Hp $Ha] [$Hb $Hq]").
Qed.

Lemma wp_list_add new head l : dlist head l -∗ raw_list new -∗ wp (list_add new head) (fun _ => dlist head (new :: l)).
Proof.
  iIntros "H Hn". iDestruct (lseg_first with "H") as (n) "[[Hh Hp] Hc]". unfold list_add. wp_ld "Hh".
  iApply (wp___list_add with "[$Hh $Hp] Hn"). iIntros "H1 H2". iFrame "H1". iApply ("Hc" with "H2").
Qed.

Lemma wp_list_add_tail new head l : dlist head l -∗ raw_list new -∗ wp (list_add_tail new head) (fun _ => dlist head (l ++ [new])).
Proof.
  iIntros "H Hn". iDestruct (lseg_last with "H") as (y) "[[Hy Hp] Hc]". unfold list_add_tail. wp_ld "Hp".
  iApply (wp___list_add with "[$Hy $Hp] Hn"). iIntros "H1 H2". iApply ("Hc" $! [new] head with "[$H1 $H2]").
Qed.

Lemma wp___list_del_entry a x b Q : edge a x -∗ edge x b -∗ (edge a b -∗ list_prev x ↦ a -∗ list_next x ↦ b -∗ Q tt) -∗
  wp (__list_del_entry x) Q.
Proof.
  iIntros "[Ha Hx] [Hx' Hb] HQ". unfold __list_del_entry, __list_del. wp_ld "Hx". wp_ld "Hx'". wp_st "Hb".
  iApply (wp_st with "Ha"). iIntros "Ha". iApply ("HQ" with "[$Ha $Hb] Hx Hx'").
Qed.

Lemma dlist_split head l1 x l2 : dlist head (l1 ++ x :: l2) -∗ ∃ a b, edge a x ∗ edge x b ∗ (edge a b -∗ dlist head (l1 ++ l2)).
Proof.
  iIntros "H". unfold dlist. rw lseg_app. iDestruct "H" as "[H1 H2]". iDestruct (lseg_last with "H1") as (a) "[Ha Hc]".
  iDestruct (lseg_first with "H2") as (b) "[Hb Hc2]". iExists a, b. iFrame "Ha Hb". iIntros "H".
  iApply "Hc". iApply ("Hc2" with "H").
Qed.

Lemma wp_list_del head l1 x l2 : dlist head (l1 ++ x :: l2) -∗
  wp (list_del x) (fun _ => dlist head (l1 ++ l2) ∗ list_prev x ↦ 0 ∗ list_next x ↦ 0)%I.
Proof.
  iIntros "H". iDestruct (dlist_split with "H") as (a b) "(Ha & Hb & Hc)". iApply wp_bind.
  iApply (wp___list_del_entry with "Ha Hb"). iIntros "H Hp Hn". wp_st "Hn". iApply (wp_st with "Hp"). iIntros "Hp".
  iFrame. iApply ("Hc" with "H").
Qed.

Lemma wp_list_del_init head l1 x l2 : dlist head (l1 ++ x :: l2) -∗
  wp (list_del_init x) (fun _ => dlist head (l1 ++ l2) ∗ dlist x [])%I.
Proof.
  iIntros "H". iDestruct (dlist_split with "H") as (a b) "(Ha & Hb & Hc)". iApply wp_bind.
  iApply (wp___list_del_entry with "Ha Hb"). iIntros "H Hp Hn". wp_st "Hn". iApply (wp_st with "Hp"). iIntros "Hp".
  iFrame. iApply ("Hc" with "H").
Qed.

Lemma wp_init_list_head x : raw_list x -∗ wp (INIT_LIST_HEAD x) (fun _ => dlist x []).
Proof.
  iIntros "(%a & %b & Ha & Hb)". unfold INIT_LIST_HEAD. wp_st "Hb". iApply (wp_st with "Ha"). iIntros "Ha". iFrame.
Qed.

(** A node of a list is not its head. *)
Lemma lseg_ne p x l q n : lseg x l q -∗ list_next p ↦ n -∗ ⌜(x =? p) = false⌝.
Proof.
  iIntros "H Hp". iDestruct (lseg_first with "H") as (m) "[[Hx _] _]". iDestruct (cell_ne with "Hx Hp") as %Hne.
  iPureIntro. apply Z.eqb_neq. intros ->. by apply Hne.
Qed.

Lemma wp_list_empty head l Q : dlist head l -∗ (dlist head l -∗ Q (bool_decide (l = []))) -∗ wp (list_empty head) Q.
Proof.
  iIntros "H HQ". destruct l as [|x l]; unfold dlist, list_empty; simpl.
  - iDestruct "H" as "[Hh Hp]". wp_ld "Hh". iApply wp_ret. rw Z.eqb_refl. iApply "HQ". iFrame.
  - iDestruct "H" as "[[Hh Hp] H]". wp_ld "Hh". iDestruct (lseg_ne with "H Hh") as %->. iApply wp_ret. iApply "HQ". iFrame.
Qed.

Lemma wp_list_splice list l head l' : dlist list l -∗ dlist head l' -∗
  wp (list_splice list head) (fun _ => dlist head (l ++ l') ∗ raw_list list)%I.
Proof.
  iIntros "H H'". iApply wp_bind. iApply (wp_list_empty with "H"). iIntros "H". destruct l as [|x l]; simpl.
  { iApply wp_ret. iFrame. iDestruct "H" as "[H1 H2]". iExists _, _. iFrame. }
  iDestruct (lseg_first with "H'") as (n) "[[Hh Hn] Hc']". iDestruct "H" as "[[Hl Hx] H]".
  iDestruct (lseg_last with "H") as (y) "[[Hy Hl'] Hc]". wp_ld "Hh". wp_ld "Hl". wp_ld "Hl'". wp_st "Hx". wp_st "Hh". wp_st "Hy".
  iApply (wp_st with "Hn"). iIntros "Hn". iSplitR "Hl Hl'"; [|iExists _, _; iFrame].
  iFrame "Hh Hx". iApply "Hc". iApply "Hc'". iFrame.
Qed.

Lemma wp_list_replace a old b new Q : edge a old -∗ edge old b -∗ raw_list new -∗
  (edge a new -∗ edge new b -∗ raw_list old -∗ Q tt) -∗ wp (list_replace old new) Q.
Proof.
  iIntros "[Ha Ho] [Ho' Hb] (%u & %v & Hp & Hn) HQ". unfold list_replace. wp_ld "Ho'". wp_st "Hn". wp_ld "Hn". wp_st "Hb".
  wp_ld "Ho". wp_st "Hp". wp_ld "Hp". iApply (wp_st with "Ha"). iIntros "Ha".
  iApply ("HQ" with "[$Ha $Hp] [$Hn $Hb]"). iExists _, _. iFrame.
Qed.

(** Replacing a node of a list. *)
Lemma wp_list_replace_node head l1 old l2 new : dlist head (l1 ++ old :: l2) -∗ raw_list new -∗
  wp (list_replace old new) (fun _ => dlist head (l1 ++ new :: l2) ∗ raw_list old)%I.
Proof.
  iIntros "H Hn". unfold dlist. rw !lseg_app. iDestruct "H" as "[H1 H2]". iDestruct (lseg_last with "H1") as (a) "[Ha Hc]".
  iDestruct (lseg_first with "H2") as (b) "[Hb Hc2]". iApply (wp_list_replace with "Ha Hb Hn").
  iIntros "Ha Hb $". rw lseg_app. iDestruct ("Hc" $! [] new with "Ha") as "Hc". rw app_nil_r. iFrame "Hc". iApply ("Hc2" with "Hb").
Qed.

(** Replacing the head, of an empty list too. *)
Lemma wp_list_replace_head old l new : dlist old l -∗ raw_list new -∗
  wp (list_replace_init old new) (fun _ => dlist new l ∗ dlist old [])%I.
Proof.
  iIntros "H Hn". iApply wp_bind. destruct l as [|x l].
  - iDestruct "H" as "[Ho Hp]". iDestruct "Hn" as (u v) "[Hu Hv]". unfold list_replace. wp_ld "Ho". wp_st "Hv". wp_ld "Hv". wp_st "Hp".
    wp_ld "Hp". wp_st "Hu". wp_ld "Hu". iApply (wp_st with "Hv"). iIntros "Hv".
    iApply (wp_wand with "[Ho Hp]"); [iApply wp_init_list_head; iExists _, _; iFrame|]. iIntros (_) "$". iFrame.
  - iDestruct "H" as "[He H]". iDestruct (lseg_last with "H") as (y) "[Hy Hc]". iApply (wp_list_replace with "Hy He Hn").
    iIntros "Hy Hx Ho". iApply (wp_wand with "[Ho]"); [iApply (wp_init_list_head with "Ho")|]. iIntros (_) "$".
    iDestruct ("Hc" $! [] new with "Hy") as "Hc". rw app_nil_r. iFrame.
Qed.

(** ** Iteration *)

Lemma lseg_next p l q : lseg p l q -∗ list_next p ↦ hd q l ∗ (list_next p ↦ hd q l -∗ lseg p l q).
Proof. iIntros "H". destruct l as [|x l]; simpl; [iDestruct "H" as "[$ H]"|iDestruct "H" as "[[$ H] H2]"]; iIntros "$"; iFrame. Qed.

Lemma dlist_node_ne head d x r : dlist head (d ++ x :: r) -∗ ⌜(x =? head) = false⌝.
Proof.
  iIntros "H". unfold dlist. rw lseg_app. iDestruct "H" as "[H1 H2]". iDestruct (lseg_next with "H1") as "[H1 _]".
  iApply (lseg_ne with "H2 H1").
Qed.

(** A body that does not touch the list is run on its nodes in order. *)
Lemma wp_for_each_entry body head (Inv : list Z -> hprop) fuel :
  (forall x d, Inv d ⊢ wp (body x) (fun _ => Inv (d ++ [x]))) -> forall r d, (length r < fuel)%nat ->
  dlist head (d ++ r) -∗ Inv d -∗
  wp (list_for_each_entry fuel body (hd head r) head) (fun _ => dlist head (d ++ r) ∗ Inv (d ++ r))%I.
Proof.
  intros Hbody. induction fuel as [|fuel IH]; intros r d Hf; [lia|]. iIntros "H HI". cbn [list_for_each_entry].
  destruct r as [|x r]; simpl hd.
  { rw Z.eqb_refl. iApply wp_ret. rw app_nil_r. iFrame. }
  iDestruct (dlist_node_ne with "H") as %->. iApply wp_bind. iApply (wp_wand with "[HI]"); [iApply (Hbody with "HI")|].
  iIntros (_) "HI". unfold dlist at 1. rw lseg_app. iDestruct "H" as "[H1 H2]". iDestruct (lseg_next with "H2") as "[Hx Hc]".
  wp_ld "Hx". iDestruct ("Hc" with "Hx") as "H2". simpl in Hf.
  iDestruct (IH r (d ++ [x]) ltac:(lia)) as "HIH". rw -!app_assoc. iApply ("HIH" with "[H1 H2] HI"). iApply (lseg_join with "H1 H2").
Qed.

Lemma wp_for_each body head (Inv : list Z -> hprop) fuel l :
  (forall x d, Inv d ⊢ wp (body x) (fun _ => Inv (d ++ [x]))) -> (length l < fuel)%nat ->
  dlist head l -∗ Inv [] -∗ wp (for_each fuel body head) (fun _ => dlist head l ∗ Inv l)%I.
Proof.
  iIntros (Hb Hf) "H HI". iDestruct (lseg_next with "H") as "[Hh Hc]". unfold for_each. wp_ld "Hh".
  iDestruct ("Hc" with "Hh") as "H". iApply (wp_for_each_entry body head Inv fuel Hb l [] Hf with "H HI").
Qed.

(** A body that takes the node it is given off the list leaves it empty. *)
Lemma wp_for_each_entry_safe body head (Inv : list Z -> hprop) fuel :
  (forall x r d, dlist head (x :: r) ∗ Inv d ⊢ wp (body x) (fun _ => dlist head r ∗ Inv (d ++ [x]))%I) -> forall r d, (length r < fuel)%nat ->
  dlist head r -∗ Inv d -∗
  wp (list_for_each_entry_safe fuel body (hd head r) (hd head (tail r)) head) (fun _ => dlist head [] ∗ Inv (d ++ r))%I.
Proof.
  intros Hbody. induction fuel as [|fuel IH]; intros r d Hf; [lia|]. iIntros "H HI". cbn [list_for_each_entry_safe].
  destruct r as [|x r]; simpl hd; simpl tail.
  { rw Z.eqb_refl. iApply wp_ret. rw app_nil_r. iFrame. }
  iDestruct (dlist_node_ne head [] x r with "H") as %->. iApply wp_bind. iApply (wp_wand with "[H HI]"); [iApply (Hbody with "[$H $HI]")|].
  iIntros (_) "[H HI]". cbn zeta. simpl in Hf. iDestruct (IH r (d ++ [x]) ltac:(lia)) as "HIH". rw -app_assoc.
  iAssert (list_next (hd head r) ↦ hd head (tail r) ∗ (list_next (hd head r) ↦ hd head (tail r) -∗ dlist head r))%I with "[H]" as "[Hn Hc]".
  { destruct r as [|y r]; simpl; [iDestruct "H" as "[$ H]"; iIntros "$"; iFrame|]. iDestruct "H" as "[He H]".
    iDestruct (lseg_next with "H") as "[$ Hc]". iIntros "Hy". iFrame. iApply ("Hc" with "Hy"). }
  wp_ld "Hn". iApply ("HIH" with "[Hc Hn] HI"). iApply ("Hc" with "Hn").
Qed.

Lemma wp_for_each_safe body head (Inv : list Z -> hprop) fuel l :
  (forall x r d, dlist head (x :: r) ∗ Inv d ⊢ wp (body x) (fun _ => dlist head r ∗ Inv (d ++ [x]))%I) -> (length l < fuel)%nat ->
  dlist head l -∗ Inv [] -∗ wp (for_each_safe fuel body head) (fun _ => dlist head [] ∗ Inv l)%I.
Proof.
  iIntros (Hb Hf) "H HI". unfold for_each_safe. iDestruct (wp_for_each_entry_safe body head Inv fuel Hb l [] Hf) as "Hloop".
  destruct l as [|x l]; simpl.
  - iDestruct "H" as "[Hh Hp]". wp_ld "Hh". wp_ld "Hh". iApply ("Hloop" with "[$Hh $Hp] HI").
  - iDestruct "H" as "[[Hh Hp] H]". wp_ld "Hh". iDestruct (lseg_next with "H") as "[Hx Hc]". wp_ld "Hx".
    iApply ("Hloop" with "[-HI] HI"). iDestruct ("Hc" with "Hx") as "H". simpl. iFrame.
Qed.

(** ** Hash lists in memory *)

(** [pp] is the address of the cell that points to the first of the nodes. *)
Fixpoint hseg (pp : Z) (l : list Z) : hprop :=
  match l with
  | [] => pp ↦ 0
  | x :: l' => ⌜x <> 0⌝ ∗ pp ↦ x ∗ hlist_pprev x ↦ pp ∗ hseg (hlist_next x) l'
  end%I.
Definition raw_hnode (x : Z) : hprop := (∃ a b, hlist_next x ↦ a ∗ hlist_pprev x ↦ b)%I.

Lemma hseg_first pp l : hseg pp l -∗ pp ↦ hd 0 l ∗
  match l with [] => emp | x :: l' => ⌜x <> 0⌝ ∗ hlist_pprev x ↦ pp ∗ hseg (hlist_next x) l' end.
Proof. destruct l; simpl; [iIntros "$"|iIntros "($ & $ & $ & $)"]. Qed.

Lemma hseg_app pp l1 l2 : hseg pp (l1 ++ l2) -∗ ∃ pp', hseg pp' l2 ∗ (∀ l', hseg pp' l' -∗ hseg pp (l1 ++ l')).
Proof.
  iIntros "H". iInduction l1 as [|x l1 IH] forall (pp); simpl.
  - iExists pp. iFrame. iIntros (l') "$".
  - iDestruct "H" as "(% & H1 & H2 & H3)". iDestruct ("IH" with "H3") as (pp') "[$ Hc]". iIntros (l') "H". iFrame. iSplitR; [done|].
    iApply ("Hc" with "H").
Qed.

(** [if (next) next->pprev = pp;] on what follows. *)
Lemma wp_set_pprev pp pp' l Q : match l with [] => emp | x :: l' => ⌜x <> 0⌝ ∗ hlist_pprev x ↦ pp ∗ hseg (hlist_next x) l' end -∗
  (match l with [] => emp | x :: l' => ⌜x <> 0⌝ ∗ hlist_pprev x ↦ pp' ∗ hseg (hlist_next x) l' end -∗ Q tt) -∗
  wp (if hd 0 l =? 0 then mret tt else st (hlist_pprev (hd 0 l)) pp') Q.
Proof.
  iIntros "H HQ". destruct l as [|x l]; simpl; [iApply wp_ret; by iApply "HQ"|].
  iDestruct "H" as "(%Hx & Hp & H)". apply Z.eqb_neq in Hx as Hx'. rw Hx'. iApply (wp_st with "Hp"). iIntros "Hp". iApply "HQ". by iFrame.
Qed.

Lemma hseg_close pp l : pp ↦ hd 0 l -∗
  match l with [] => emp | x :: l' => ⌜x <> 0⌝ ∗ hlist_pprev x ↦ pp ∗ hseg (hlist_next x) l' end -∗ hseg pp l.
Proof. iIntros "H1 H2". destruct l; simpl; [done|]. iDestruct "H2" as "($ & $ & $)". done. Qed.

Lemma wp_hlist_add_head n h l : n <> 0 -> hseg h l -∗ raw_hnode n -∗ wp (hlist_add_head n h) (fun _ => hseg h (n :: l)).
Proof.
  iIntros (Hn) "H (%a & %b & Ha & Hb)". iDestruct (hseg_first with "H") as "[Hh H]". unfold hlist_add_head.
  wp_ld "Hh". wp_st "Ha". iApply wp_bind. iApply (wp_set_pprev with "H"). iIntros "H". wp_st "Hh".
  iApply (wp_st with "Hb"). iIntros "Hb". cbn [hseg]. iFrame "Hh Hb". iSplitR; [done|]. iApply (hseg_close with "Ha H").
Qed.

Lemma wp_hlist_del_init h l1 n l2 : h <> 0 -> Forall (fun x => x <> 0) l1 -> hseg h (l1 ++ n :: l2) -∗
  wp (hlist_del_init n) (fun _ => hseg h (l1 ++ l2) ∗ hlist_next n ↦ 0 ∗ hlist_pprev n ↦ 0)%I.
Proof.
  iIntros (Hh Hl1) "H".
  iAssert (∃ pp, ⌜pp <> 0⌝ ∗ hseg pp (n :: l2) ∗ (∀ l', hseg pp l' -∗ hseg h (l1 ++ l')))%I with "[H]" as (pp) "(%Hpp & H & Hc)".
  { iInduction l1 as [|x l1 IH] forall (h Hh Hl1); simpl; [iExists h; iFrame; iSplitR; [done|]; iIntros (l') "$"|].
    iDestruct "H" as "(%Hx & H1 & H2 & H3)". inversion Hl1; subst. iDestruct ("IH" $! x with "[//] [//] H3") as (pp) "($ & $ & Hc)".
    iIntros (l') "H". iFrame. iSplitR; [done|]. iApply ("Hc" with "H"). }
  cbn [hseg]. iDestruct "H" as "(%Hn & Hp & Hnp & H)". iDestruct (hseg_first with "H") as "[Hnn H]".
  unfold hlist_del_init, hlist_unhashed. iApply wp_bind. wp_ld "Hnp". iApply wp_ret. apply Z.eqb_neq in Hpp as Hpp'. rw Hpp'.
  simpl negb. cbn iota. iApply wp_bind. unfold __hlist_del. wp_ld "Hnn". wp_ld "Hnp". wp_st "Hp".
  iApply (wp_set_pprev with "H"). iIntros "H". unfold INIT_HLIST_NODE. wp_st "Hnn". iApply (wp_st with "Hnp"). iIntros "Hnp".
  iFrame. iApply "Hc". iApply (hseg_close with "Hp H").
Qed.

(** ** Refinement of sequences *)

(** Operations on one list, and what they do to the sequence of its nodes and
    to the pool of nodes that are on no list. *)
Inductive list_op := OpAdd (x : Z) | OpAddTail (x : Z) | OpDel (x : Z) | OpDelInit (x : Z) | OpReplace (old new : Z).

Definition exec (head : Z) (op : list_op) : prog unit :=
  match op with
  | OpAdd x => list_add x head
  | OpAddTail x => list_add_tail x head
  | OpDel x => list_del x
  | OpDelInit x => list_del_init x
  | OpReplace old new => list_replace old new
  end.
Fixpoint exec_all (head : Z) (ops : list list_op) : prog unit :=
  match ops with [] => mret tt | op :: ops' => exec head op;; exec_all head ops' end.

Inductive step : list Z * list Z -> list_op -> list Z * list Z -> Prop :=
  | step_add l f1 x f2 : step (l, f1 ++ x :: f2) (OpAdd x) (x :: l, f1 ++ f2)
  | step_add_tail l f1 x f2 : step (l, f1 ++ x :: f2) (OpAddTail x) (l ++ [x], f1 ++ f2)
  | step_del l1 x l2 f : step (l1 ++ x :: l2, f) (OpDel x) (l1 ++ l2, x :: f)
  | step_del_init l1 x l2 f : step (l1 ++ x :: l2, f) (OpDelInit x) (l1 ++ l2, x :: f)
  | step_replace l1 old l2 f1 new f2 :
      step (l1 ++ old :: l2, f1 ++ new :: f2) (OpReplace old new) (l1 ++ new :: l2, old :: f1 ++ f2).
Inductive steps : list Z * list Z -> list list_op -> list Z * list Z -> Prop :=
  | steps_nil s : steps s [] s
  | steps_cons s1 op s2 ops s3 : step s1 op s2 -> steps s2 ops s3 -> steps s1 (op :: ops) s3.

Definition pool (f : list Z) : hprop := ([∗ list] x ∈ f, raw_list x)%I.
Definition lists (head : Z) (s : list Z * list Z) : hprop := (dlist head s.1 ∗ pool s.2)%I.

Lemma pool_take f1 x f2 : pool (f1 ++ x :: f2) ⊣⊢ raw_list x ∗ pool (f1 ++ f2).
Proof. unfold pool. rw !big_sepL_app /=. iSplit; iIntros "($ & $ & $)". Qed.

Lemma wp_exec head s op s' : step s op s' -> lists head s ⊢ wp (exec head op) (fun _ => lists head s').
Proof.
  destruct 1 as [l f1 x f2|l f1 x f2|l1 x l2 f|l1 x l2 f|l1 old l2 f1 new f2]; unfold lists; simpl; rw ?pool_take; iIntros "[H Hf]".
  - iDestruct "Hf" as "[Hx Hf]". iApply (wp_wand with "[H Hx]"); [iApply (wp_list_add with "H Hx")|]. iIntros (_) "$". done.
  - iDestruct "Hf" as "[Hx Hf]". iApply (wp_wand with "[H Hx]"); [iApply (wp_list_add_tail with "H Hx")|]. iIntros (_) "$". done.
  - iApply (wp_wand with "[H]"); [iApply (wp_list_del with "H")|]. iIntros (_) "($ & Hp & Hn)". iFrame.
  - iApply (wp_wand with "[H]"); [iApply (wp_list_del_init with "H")|]. iIntros (_) "($ & Hn & Hp)". iFrame.
  - iDestruct "Hf" as "[Hx Hf]". iApply (wp_wand with "[H Hx]"); [iApply (wp_list_replace_node with "H Hx")|]. iIntros (_) "[$ $]". done.
Qed.

Lemma wp_exec_all head s ops s' : steps s ops s' -> lists head s ⊢ wp (exec_all head ops) (fun _ => lists head s').
Proof.
  induction 1 as [s|s1 op s2 ops s3 H _ IH]; iIntros "H"; simpl; [by iApply wp_ret|].
  iApply wp_bind. iApply (wp_wand with "[H]"); [iApply (wp_exec with "H"); exact H|]. iIntros (_) "H". iApply (IH with "H").
Qed.

(** The nodes met by following [next] from the head. *)
Fixpoint collect (fuel : nat) (pos head : Z) : prog (list Z) :=
  match fuel with
  | O => no_fuel
  | S f => if pos =? head then mret [] else next ← ld (list_next pos); l ← collect f next head; mret (pos :: l)
  end.
Definition list_nodes (fuel : nat) (head : Z) : prog (list Z) := pos ← ld (list_next head); collect fuel pos head.

Lemma collect_read_only fuel : forall pos head, read_only (collect fuel pos head).
Proof. induction fuel as [|fuel IH]; intros pos head; [apply read_only_no_fuel|]. cbn [collect]. solve_read_only. Qed.

Lemma wp_collect head fuel : forall r d, (length r < fuel)%nat ->
  dlist head (d ++ r) ⊢ wp (collect fuel (hd head r) head) (fun x => ⌜x = r⌝)%I.
Proof.
  induction fuel as [|fuel IH]; intros r d Hf; [lia|]. iIntros "H". cbn [collect]. destruct r as [|x r]; simpl hd.
  { rw Z.eqb_refl. by iApply wp_ret. }
  iDestruct (dlist_node_ne with "H") as %->. unfold dlist. rw lseg_app. iDestruct "H" as "[H1 H2]".
  iDestruct (lseg_next with "H2") as "[Hx Hc]". wp_ld "Hx". iDestruct ("Hc" with "Hx") as "H2". simpl in Hf.
  iApply wp_bind. iApply (wp_wand with "[H1 H2]").
  { iApply (IH r (d ++ [x])); [lia|]. rw -app_assoc. iApply (lseg_join with "H1 H2"). }
  iIntros (y ->). iApply wp_ret. done.
Qed.

Lemma wp_list_nodes head l fuel : (length l < fuel)%nat -> dlist head l ⊢ wp (list_nodes fuel head) (fun x => ⌜x = l⌝)%I.
Proof.
  iIntros (Hf) "H". unfold list_nodes. iDestruct (lseg_next with "H") as "[Hh Hc]". wp_ld "Hh".
  iApply (wp_collect head fuel l []); [done|]. iApply ("Hc" with "Hh").
Qed.

Lemma list_nodes_ok head l fuel m hf (R : hprop) : (length l < fuel)%nat -> hprop_holds (dlist head l ∗ R)%I m -> m ##ₘ hf ->
  list_nodes fuel head (m ∪ hf) = Ok (l, m ∪ hf).
Proof.
  intros Hf HP Hd. assert (dlist head l ∗ R ⊢ wp (list_nodes fuel head) (fun x => ⌜x = l⌝)%I) as Hwp.
  { iIntros "[H _]". by iApply wp_list_nodes. }
  destruct (wp_adequate _ _ _ Hwp m hf HP Hd) as (x & h' & E & _ & ->). rw E.
  assert (read_only (list_nodes fuel head)) as Hro by (unfold list_nodes; pose proof collect_read_only; solve_read_only).
  by pose proof (Hro _ _ _ E) as ->.
Qed.

(** C35: any sequence of [list_add], [list_add_tail], [list_del],
    [list_del_init] and [list_replace] acts on the linked structure as on a
    plain sequence of nodes, nodes going to and coming from the pool of
    unlinked ones; no other memory is touched, and following [next] from the
    head afterwards gives exactly the sequence. *)
Theorem list_ops_refine head s ops s' m hf fuel : steps s ops s' -> hprop_holds (lists head s) m -> m ##ₘ hf ->
  (length s'.1 < fuel)%nat ->
  exists m', exec_all head ops (m ∪ hf) = Ok (tt, m' ∪ hf) /\ m' ##ₘ hf /\ hprop_holds (lists head s') m' /\
    list_nodes fuel head (m' ∪ hf) = Ok (s'.1, m' ∪ hf).
Proof.
  intros Hs HP Hd Hf. destruct (wp_adequate _ _ _ (wp_exec_all head s ops s' Hs) m hf HP Hd) as ([] & m' & E & D & HQ).
  exists m'. do 3 (split; [assumption|]). exact (list_nodes_ok head s'.1 fuel m' hf (pool s'.2) Hf HQ D).
Qed.

(** The nodes that have been deleted. *)
Definition deleted (l : list Z) : hprop := ([∗ list] x ∈ l, list_prev x ↦ 0 ∗ list_next x ↦ 0)%I.

(** [list_for_each_entry_safe] with a body that deletes the current entry
    goes through the whole list and leaves it empty, every node unlinked. *)
Theorem for_each_safe_empties head l fuel m hf : hprop_holds (dlist head l) m -> m ##ₘ hf -> (length l < fuel)%nat ->
  exists m', for_each_safe fuel list_del head (m ∪ hf) = Ok (tt, m' ∪ hf) /\ m' ##ₘ hf /\
    hprop_holds (dlist head [] ∗ deleted l)%I m'.
Proof.
  intros HP Hd Hf.
  assert (dlist head l ⊢ wp (for_each_safe fuel list_del head) (fun _ => dlist head [] ∗ deleted l)%I) as Hwp.
  { iIntros "H". iApply (wp_for_each_safe list_del head deleted fuel l with "H"); [|done|by iApply big_sepL_nil].
    iIntros (x r d) "[H Hd]". iApply (wp_wand with "[H]"); [iApply (wp_list_del head [] x r with "H")|].
    iIntros (_) "($ & H)". unfold deleted. rw big_sepL_app /=. iFrame. }
  destruct (wp_adequate _ _ _ Hwp m hf HP Hd) as ([] & m' & E & D & HQ). by exists m'.
Qed.

(** ** Hash lists: sequences *)

Inductive hlist_op := HAdd (n : Z) | HDel (n : Z).
Definition hexec (h : Z) (op : hlist_op) : prog unit :=
  match op with HAdd n => hlist_add_head n h | HDel n => hlist_del_init n end.
Fixpoint hexec_all (h : Z) (ops : list hlist_op) : prog unit :=
  match ops with [] => mret tt | op :: ops' => hexec h op;; hexec_all h ops' end.

(** A node that is on no list is unhashed, so deleting it does nothing. *)
Inductive hstep : list Z * list Z -> hlist_op -> list Z * list Z -> Prop :=
  | hstep_add l f1 n f2 : n <> 0 -> hstep (l, f1 ++ n :: f2) (HAdd n) (n :: l, f1 ++ f2)
  | hstep_del l1 n l2 f : hstep (l1 ++ n :: l2, f) (HDel n) (l1 ++ l2, n :: f)
  | hstep_del_again l f1 n f2 : hstep (l, f1 ++ n :: f2) (HDel n) (l, f1 ++ n :: f2).
Inductive hsteps : list Z * list Z -> list hlist_op -> list Z * list Z -> Prop :=
  | hsteps_nil s : hsteps s [] s
  | hsteps_cons s1 op s2 ops s3 : hstep s1 op s2 -> hsteps s2 ops s3 -> hsteps s1 (op :: ops) s3.

Definition unhashed (n : Z) : hprop := (hlist_next n ↦ 0 ∗ hlist_pprev n ↦ 0)%I.
Definition hlists (h : Z) (s : list Z * list Z) : hprop := (hseg h s.1 ∗ [∗ list] n ∈ s.2, unhashed n)%I.

Lemma hseg_nonzero h l : hseg h l -∗ ⌜Forall (fun x => x <> 0) l⌝.
Proof.
  iIntros "H". iInduction l as [|x l IH] forall (h); simpl; [iPureIntro; constructor|].
  iDestruct "H" as "(%Hx & _ & _ & H)". iDestruct ("IH" with "H") as %Hl. iPureIntro. by constructor.
Qed.

Lemma wp_hexec h s op s' : h <> 0 -> hstep s op s' -> hlists h s ⊢ wp (hexec h op) (fun _ => hlists h s').
Proof.
  intros Hh. destruct 1 as [l f1 n f2 Hn|l1 n l2 f|l f1 n f2]; unfold hlists; simpl; rw ?big_sepL_app /=; iIntros "[H Hf]".
  - iDestruct "Hf" as "(Hf1 & [Hx Hy] & Hf2)". iApply (wp_wand with "[H Hx Hy]");
      [iApply (wp_hlist_add_head with "H"); [done|iExists _, _; iFrame]|]. iIntros (_) "$". iFrame.
  - iDestruct (hseg_nonzero with "H") as %Hl. apply Forall_app in Hl as [Hl _].
    iApply (wp_wand with "[H]"); [iApply (wp_hlist_del_init with "H"); done|]. iIntros (_) "($ & H)". iFrame.
  - iDestruct "Hf" as "(Hf1 & [Hx Hy] & Hf2)". unfold hlist_del_init, hlist_unhashed. iApply wp_bind.
    iApply wp_bind. iApply (wp_ld with "Hy"). iIntros "Hy". iApply wp_ret. simpl negb. iApply wp_ret. iFrame.
Qed.

(** Any sequence of [hlist_add_head] and [hlist_del_init] acts on the hash
    list as on a plain sequence; deleting a node twice is harmless. *)
Theorem hlist_ops_refine h s ops s' m hf : h <> 0 -> hsteps s ops s' -> hprop_holds (hlists h s) m -> m ##ₘ hf ->
  exists m', hexec_all h ops (m ∪ hf) = Ok (tt, m' ∪ hf) /\ m' ##ₘ hf /\ hprop_holds (hlists h s') m'.
Proof.
  intros Hh Hs HP Hd. assert (hlists h s ⊢ wp (hexec_all h ops) (fun _ => hlists h s')) as Hwp.
  { clear HP Hd. induction Hs as [s|s1 op s2 ops s3 H _ IH]; iIntros "H"; simpl; [by iApply wp_ret|].
    iApply wp_bind. iApply (wp_wand with "[H]"); [iApply (wp_hexec with "H"); done|]. iIntros (_) "H". iApply (IH with "H"). }
  destruct (wp_adequate _ _ _ Hwp m hf HP Hd) as ([] & m' & E & D & HQ). by exists m'.
Qed.

(** ** Witnesses *)


(** An empty list at 64 and unlinked nodes at 96 and 128. *)
Definition list_cells : list (Z * Z) := [(72, 64); (64, 64); (96, 0); (104, 0); (128, 0); (136, 0)].

Lemma list_cells_hold : hprop_holds (lists 64 ([], [96; 128])) (cells list_cells).
Proof. apply cells_entail; [solve_nodup|]. iIntros "($ & $ & H1 & H2 & H3 & H4 & _)". iSplitL "H1 H2"; [iExists _, _; iFrame|]. iSplitL; [iExists _, _; iFrame|done]. Qed.

Lemma list_ops_refine_witness : exists m',
  exec_all 64 [OpAdd 96; OpAddTail 128; OpDel 96] (cells list_cells ∪ ∅) = Ok (tt, m' ∪ ∅) /\
  list_nodes 3 64 (m' ∪ ∅) = Ok ([128], m' ∪ ∅).
Proof.
  destruct (list_ops_refine 64 ([], [96; 128]) [OpAdd 96; OpAddTail 128; OpDel 96] ([128], [96]) (cells list_cells) ∅ 3) as (m' & E & _ & _ & E').
  - eapply steps_cons; [exact (step_add [] [] 96 [128])|]. eapply steps_cons; [exact (step_add_tail [96] [] 128 [])|].
    eapply steps_cons; [exact (step_del [] 96 [128] [])|]. apply steps_nil.
  - exact list_cells_hold.
  - apply map_disjoint_empty_r.
  - simpl. lia.
  - exists m'. auto.
Defined.

Definition list2_cells : list (Z * Z) := [(72, 96); (96, 64); (104, 128); (128, 96); (136, 64); (64, 128)].

Lemma for_each_safe_empties_witness : exists m',
  for_each_safe 3 list_del 64 (cells list2_cells ∪ ∅) = Ok (tt, m' ∪ ∅) /\ hprop_holds (dlist 64 [] ∗ deleted [96; 128])%I m'.
Proof.
  destruct (for_each_safe_empties 64 [96; 128] 3 (cells list2_cells) ∅) as (m' & E & _ & H).
  - apply cells_entail; [solve_nodup|]. iIntros "($ & $ & $ & $ & $ & $ & _)".
  - apply map_disjoint_empty_r.
  - simpl. lia.
  - exists m'. auto.
Defined.

Definition hlist_cells : list (Z * Z) := [(64, 0); (96, 0); (104, 0); (128, 0); (136, 0)].

Lemma hlist_ops_refine_witness : exists m',
  hexec_all 64 [HAdd 96; HAdd 128; HDel 96; HDel 96] (cells hlist_cells ∪ ∅) = Ok (tt, m' ∪ ∅) /\
  hprop_holds (hlists 64 ([128], [96])) m'.
Proof.
  destruct (hlist_ops_refine 64 ([], [96; 128]) [HAdd 96; HAdd 128; HDel 96; HDel 96] ([128], [96]) (cells hlist_cells) ∅) as (m' & E & _ & H).
  - lia.
  - eapply hsteps_cons; [apply (hstep_add [] [] 96 [128]); lia|]. eapply hsteps_cons; [apply (hstep_add [96] [] 128 []); lia|].
    eapply hsteps_cons; [exact (hstep_del [128] 96 [] [])|]. eapply hsteps_cons; [exact (hstep_del_again [128] [] 96 [])|]. apply hsteps_nil.
  - apply cells_entail; [solve_nodup|]. by iIntros "($ & $ & $ & $ & $ & _)".
  - apply map_disjoint_empty_r.
  - exists m'. auto.
Defined.
