(* ===== verification/RbTree.v ===== *)
(** * rbtree/rbtree.c and include/rbtree.h: red-black trees

    Nodes are structures in memory: [__rb_parent_color] at offset 0 (the
    address of the parent with the colour in its lowest bit), [rb_right] at 8,
    [rb_left] at 16; a root is a cell that holds the address of a node or 0.
    The functions are programs on that memory.  Where the C code has two
    branches that differ only in the exchange of [rb_left] and [rb_right], the
    model has one definition that takes the two offsets; the branches apply it
    to the offsets in one and in the other order.  The callbacks of augmented
    trees are arguments. *)

From Stdlib Require Import ZArith Lia.
From stdpp Require Import base tactics numbers list strings gmap.
From iris.proofmode Require Import proofmode.
From S2P Require Import Prelude HeapLogic.
#[global] Open Scope Z_scope.

(** ** Data *)

Definition off_right : Z := 8.
Definition off_left : Z := 16.
Definition RB_RED : Z := 0.
Definition RB_BLACK : Z := 1.

Definition rb_right (p : Z) : prog Z := ld (p + off_right).
Definition rb_left (p : Z) : prog Z := ld (p + off_left).
Definition parent_color (p : Z) : prog Z := ld p.

Definition __rb_parent (pc : Z) : Z := Z.land pc (u64 (Z.lnot 3)).
Definition __rb_color (pc : Z) : Z := Z.land pc 1.
Definition __rb_is_black (pc : Z) : bool := negb (__rb_color pc =? 0).
Definition __rb_is_red (pc : Z) : bool := __rb_color pc =? 0.
Definition rb_parent (p : Z) : prog Z := pc ← parent_color p; mret (__rb_parent pc).
Definition rb_is_black (p : Z) : prog bool := pc ← parent_color p; mret (__rb_is_black pc).
Definition rb_is_red (p : Z) : prog bool := pc ← parent_color p; mret (__rb_is_red pc).

(** [!tmp || rb_is_black(tmp)] and [tmp && rb_is_red(tmp)]. *)
Definition null_or_black (p : Z) : prog bool := if p =? 0 then mret true else rb_is_black p.
Definition nonnull_red (p : Z) : prog bool := if p =? 0 then mret false else rb_is_red p.

Definition rb_red_parent (red : Z) : prog Z := parent_color red.
Definition rb_set_black (rb : Z) : prog unit := pc ← parent_color rb; st rb (Z.lor pc RB_BLACK).
Definition rb_set_parent_color (rb p color : Z) : prog unit := st rb (Z.lor p color).
Definition rb_set_parent (rb p : Z) : prog unit := pc ← parent_color rb; st rb (Z.lor (__rb_color pc) p).

(** [if (tmp) rb_set_parent_color(tmp, p, color);] and the like. *)
Definition if_set_parent_color (tmp p color : Z) : prog unit :=
  if tmp =? 0 then mret tt else rb_set_parent_color tmp p color.
Definition if_set_parent (tmp p : Z) : prog unit :=
  if tmp =? 0 then mret tt else rb_set_parent tmp p.

Definition rb_link_node (node parent rb_link : Z) : prog unit :=
  st node parent;;
  st (node + off_right) 0;;
  st (node + off_left) 0;;
  st rb_link node.

Definition __rb_change_child (old new parent root : Z) : prog unit :=
  if parent =? 0 then st root new
  else
    l ← rb_left parent;
    if l =? old then st (parent + off_left) new else st (parent + off_right) new.

Definition __rb_rotate_set_parents (old new root color : Z) : prog unit :=
  parent ← rb_parent old;
  pc ← parent_color old;
  st new pc;;
  rb_set_parent_color old new color;;
  __rb_change_child old new parent root.

Section Code.
Context (augment_rotate : Z -> Z -> prog unit).

(** ** Insertion *)

(** The two branches of [__rb_insert]: the parent is the child of [gparent] at
    offset [near], the uncle [uncle] at offset [far].  The result is the pair
    [(node, parent)] to go on with, or none at [break]. *)
Definition rb_insert_side (near far root node parent gparent uncle : Z) : prog (option (Z * Z)) :=
  ured ← nonnull_red uncle;
  if (ured : bool) then
    (* Case 1 *)
    rb_set_parent_color uncle gparent RB_BLACK;;
    rb_set_parent_color parent gparent RB_BLACK;;
    ggparent ← rb_parent gparent;
    rb_set_parent_color gparent ggparent RB_RED;;
    mret (Some (gparent, ggparent))
  else
    tmp ← ld (parent + far);
    '(parent, tmp) ←
      (if node =? tmp then
         (* Case 2 *)
         tmp ← ld (node + near);
         st (parent + far) tmp;;
         st (node + near) parent;;
         if_set_parent_color tmp parent RB_BLACK;;
         rb_set_parent_color parent node RB_RED;;
         augment_rotate parent node;;
         tmp ← ld (node + far);
         mret (node, tmp)
       else mret (parent, tmp));
    (* Case 3 *)
    st (gparent + near) tmp;;
    st (parent + far) gparent;;
    if_set_parent_color tmp gparent RB_BLACK;;
    __rb_rotate_set_parents gparent parent root RB_RED;;
    augment_rotate gparent parent;;
    mret None.

Fixpoint rb_insert_loop (fuel : nat) (root node parent : Z) : prog unit :=
  match fuel with
  | O => no_fuel
  | S f =>
      if parent =? 0 then rb_set_parent_color node 0 RB_BLACK
      else
        b ← rb_is_black parent;
        if (b : bool) then mret tt
        else
          gparent ← rb_red_parent parent;
          tmp ← rb_right gparent;
          r ← (if negb (parent =? tmp)
               then rb_insert_side off_left off_right root node parent gparent tmp
               else tmp ← rb_left gparent;
                    rb_insert_side off_right off_left root node parent gparent tmp);
          match r with
          | None => mret tt
          | Some (node, parent) => rb_insert_loop f root node parent
          end
  end.

Definition __rb_insert (fuel : nat) (node root : Z) : prog unit :=
  parent ← rb_red_parent node;
  rb_insert_loop fuel root node parent.

(** ** Rebalancing after removal *)

(** The two branches of [____rb_erase_color]: [node] is the child of [parent]
    at offset [near], [sibling] the one at [far].  First the cases after the
    sibling has been made black. *)
Definition rb_erase_black (near far root parent sibling : Z) : prog (option (Z * Z)) :=
  tmp1 ← ld (sibling + far);
  b1 ← null_or_black tmp1;
  r ←
    (if (b1 : bool) then
       tmp2 ← ld (sibling + near);
       b2 ← null_or_black tmp2;
       if (b2 : bool) then
         (* Case 2 *)
         rb_set_parent_color sibling parent RB_RED;;
         pred ← rb_is_red parent;
         (if (pred : bool) then rb_set_black parent;; mret (inl None)
          else
            gparent ← rb_parent parent;
            if gparent =? 0 then mret (inl None) else mret (inl (Some (parent, gparent))))
       else
         (* Case 3 *)
         tmp1 ← ld (tmp2 + far);
         st (sibling + near) tmp1;;
         st (tmp2 + far) sibling;;
         st (parent + far) tmp2;;
         if_set_parent_color tmp1 sibling RB_BLACK;;
         augment_rotate sibling tmp2;;
         mret (inr (tmp2, sibling))
     else mret (inr (sibling, tmp1)) : prog (option (Z * Z) + Z * Z));
  match r with
  | inl o => mret o
  | inr (sibling, tmp1) =>
      (* Case 4 *)
      tmp2 ← ld (sibling + near);
      st (parent + far) tmp2;;
      st (sibling + near) parent;;
      rb_set_parent_color tmp1 sibling RB_BLACK;;
      if_set_parent tmp2 parent;;
      __rb_rotate_set_parents parent sibling root RB_BLACK;;
      augment_rotate parent sibling;;
      mret None
  end.

Definition rb_erase_side (near far root parent sibling : Z) : prog (option (Z * Z)) :=
  sred ← rb_is_red sibling;
  sibling ←
    (if (sred : bool) then
       (* Case 1 *)
       tmp1 ← ld (sibling + near);
       st (parent + far) tmp1;;
       st (sibling + near) parent;;
       rb_set_parent_color tmp1 parent RB_BLACK;;
       __rb_rotate_set_parents parent sibling root RB_RED;;
       augment_rotate parent sibling;;
       mret tmp1
     else mret sibling);
  rb_erase_black near far root parent sibling.

Fixpoint rb_erase_color_loop (fuel : nat) (root node parent : Z) : prog unit :=
  match fuel with
  | O => no_fuel
  | S f =>
      sibling ← rb_right parent;
      r ← (if negb (node =? sibling)
           then rb_erase_side off_left off_right root parent sibling
           else sibling ← rb_left parent;
                rb_erase_side off_right off_left root parent sibling);
      match r with
      | None => mret tt
      | Some (node, parent) => rb_erase_color_loop f root node parent
      end
  end.

Definition ____rb_erase_color (fuel : nat) (parent root : Z) : prog unit :=
  rb_erase_color_loop fuel root 0 parent.

(** ** Removal *)

Context (augment_copy : Z -> Z -> prog unit) (augment_propagate : Z -> Z -> prog unit).

(** [do { parent = successor; successor = tmp; tmp = tmp->rb_left; } while (tmp);] *)
Fixpoint leftmost_loop (fuel : nat) (parent successor : Z) : prog (Z * Z) :=
  match fuel with
  | O => no_fuel
  | S f =>
      tmp ← rb_left successor;
      if tmp =? 0 then mret (parent, successor) else leftmost_loop f successor tmp
  end.

Definition __rb_erase_augmented (fuel : nat) (node root : Z) : prog Z :=
  child ← rb_right node;
  tmp ← rb_left node;
  if tmp =? 0 then
    (* Case 1 *)
    pc ← parent_color node;
    let parent := __rb_parent pc in
    __rb_change_child node child parent root;;
    rebalance ←
      (if child =? 0 then mret (if __rb_is_black pc then parent else 0)
       else st child pc;; mret 0);
    augment_propagate parent 0;;
    mret rebalance
  else if child =? 0 then
    (* still case 1 *)
    pc ← parent_color node;
    st tmp pc;;
    let parent := __rb_parent pc in
    __rb_change_child node tmp parent root;;
    augment_propagate parent 0;;
    mret 0
  else
    tmp ← rb_left child;
    '(parent, successor, child2) ←
      (if tmp =? 0 then
         (* Case 2 *)
         child2 ← rb_right child;
         augment_copy node child;;
         mret (child, child, child2)
       else
         (* Case 3 *)
         '(parent, successor) ← leftmost_loop fuel child tmp;
         child2 ← rb_right successor;
         st (parent + off_left) child2;;
         st (successor + off_right) child;;
         rb_set_parent child successor;;
         augment_copy node successor;;
         augment_propagate parent successor;;
         mret (parent, successor, child2));
    tmp ← rb_left node;
    st (successor + off_left) tmp;;
    rb_set_parent tmp successor;;
    pc ← parent_color node;
    __rb_change_child node successor (__rb_parent pc) root;;
    rebalance ←
      (if child2 =? 0 then b ← rb_is_black successor; mret (if (b : bool) then parent else 0)
       else rb_set_parent_color child2 parent RB_BLACK;; mret 0);
    st successor pc;;
    augment_propagate successor 0;;
    mret rebalance.

Definition rb_erase_augmented (fuel : nat) (node root : Z) : prog unit :=
  rebalance ← __rb_erase_augmented fuel node root;
  if rebalance =? 0 then mret tt else ____rb_erase_color fuel rebalance root.
End Code.

Definition dummy_rotate (old new : Z) : prog unit := mret tt.
Definition dummy_copy (old new : Z) : prog unit := mret tt.
Definition dummy_propagate (node stop : Z) : prog unit := mret tt.

Definition rb_insert_color (fuel : nat) (node root : Z) : prog unit := __rb_insert dummy_rotate fuel node root.
Definition rb_erase (fuel : nat) (node root : Z) : prog unit :=
  rb_erase_augmented dummy_rotate dummy_copy dummy_propagate fuel node root.

(** ** Iteration *)

Fixpoint go_left (fuel : nat) (n : Z) : prog Z :=
  match fuel with
  | O => no_fuel
  | S f => l ← rb_left n; if l =? 0 then mret n else go_left f l
  end.

Definition rb_first (fuel : nat) (root : Z) : prog Z :=
  n ← ld root;
  if n =? 0 then mret 0 else go_left fuel n.

(** [while ((parent = rb_parent(node)) && node == parent->rb_right) node = parent;] *)
Fixpoint go_up (fuel : nat) (node : Z) : prog Z :=
  match fuel with
  | O => no_fuel
  | S f =>
      parent ← rb_parent node;
      if parent =? 0 then mret parent
      else r ← rb_right parent; if node =? r then go_up f parent else mret parent
  end.

Definition rb_next (fuel : nat) (node : Z) : prog Z :=
  pc ← parent_color node;
  if pc =? node then mret 0
  else
    r ← rb_right node;
    if r =? 0 then go_up fuel node else go_left fuel r.

(** ** Trees with a cached leftmost node

    [struct rb_root_cached] is a root followed by [rb_leftmost]. *)

Definition off_leftmost : Z := 8.
Definition rb_first_cached (root : Z) : prog Z := ld (root + off_leftmost).

Definition rb_insert_color_cached (fuel : nat) (node root : Z) (leftmost : bool) : prog unit :=
  (if leftmost then st (root + off_leftmost) node else mret tt);;
  rb_insert_color fuel node root.

Definition rb_erase_cached (fuel : nat) (node root : Z) : prog unit :=
  l ← ld (root + off_leftmost);
  (if l =? node then nx ← rb_next fuel node; st (root + off_leftmost) nx else mret tt);;
  rb_erase fuel node root.
