(* ===== verification/RbTreeProofs.v ===== *)
(** * Correctness of the red-black trees

    [RbTree] run on memory that holds a tree keeps the in-order sequence of
    nodes, restores the red-black conditions and touches no other memory.
    The proofs use the separation logic of [HeapLogic]: [tree_at] says that
    memory holds a tree, [ctx_at] that it holds a tree with a hole, the path
    from the hole to the root given as a list of frames. *)

From Stdlib Require Import ZArith Lia.
From stdpp Require Import base tactics numbers list strings gmap.
From iris.proofmode Require Import proofmode.
From S2P Require Import Prelude HeapLogic RbTree.
#[global] Open Scope Z_scope.

(** ** Trees *)

Inductive color := Red | Black.
Inductive tree :=
  | Leaf
  | Node (c : color) (p : Z) (l r : tree).

(** Sides, to treat a case and its mirror image at once. *)
Inductive side := L | R.
Definition opp (d : side) : side := match d with L => R | R => L end.
Definition off (d : side) : Z := match d with L => off_left | R => off_right end.

(** A node with [a] on side [d] and [b] on the other. *)
Definition node_of (d : side) (c : color) (p : Z) (a b : tree) : tree :=
  match d with L => Node c p a b | R => Node c p b a end.

Fixpoint inorder (t : tree) : list Z :=
  match t with
  | Leaf => []
  | Node _ p l r => inorder l ++ p :: inorder r
  end.

Definition ptr (t : tree) : Z := match t with Leaf => 0 | Node _ p _ _ => p end.

(** Frames from the hole up: the side of the hole, colour and address of the
    parent, and the subtree on its other side. *)
Definition ctx : Type := list (side * color * Z * tree).
Fixpoint plug (k : ctx) (t : tree) : tree :=
  match k with
  | [] => t
  | (d, c, p, s) :: k' => plug k' (node_of d c p t s)
  end.
Definition ctxp (k : ctx) : Z := match k with [] => 0 | (_, _, p, _) :: _ => p end.

(** Red-black trees: [rb t c h] says that [t] has root colour [c], [h] black
    nodes on every path, and no red node with a red child. *)
Inductive rb : tree -> color -> nat -> Prop :=
  | rb_leaf : rb Leaf Black 0
  | rb_red p l r h : rb l Black h -> rb r Black h -> rb (Node Red p l r) Red h
  | rb_black p l r cl cr h : rb l cl h -> rb r cr h -> rb (Node Black p l r) Black (S h).

(** [rbk k c h]: the tree with the hole is one that needs a subtree of colour
    [c] and black height [h], the root being black. *)
Inductive rbk : ctx -> color -> nat -> Prop :=
  | rbk_top h : rbk [] Black h
  | rbk_red d p s k h : rb s Black h -> rbk k Red h -> rbk ((d, Red, p, s) :: k) Black h
  | rbk_black d p s cs k c h : rb s cs h -> rbk k Black (S h) -> rbk ((d, Black, p, s) :: k) c h.

Lemma rb_node_red d p a b h : rb a Black h -> rb b Black h -> rb (node_of d Red p a b) Red h.
Proof. destruct d; constructor; assumption. Qed.
Lemma rb_node_black d p a b ca cb h : rb a ca h -> rb b cb h -> rb (node_of d Black p a b) Black (S h).
Proof. destruct d; econstructor; eassumption. Qed.

Lemma rbk_plug k : forall t c h, rbk k c h -> rb t c h -> exists h', rb (plug k t) Black h'.
Proof.
  induction k as [|[[[d c0] p] s] k IH]; intros t c h Hk Ht; inversion Hk; subst; simpl.
  - eauto.
  - eapply IH; [eassumption|]. apply rb_node_red; assumption.
  - eapply IH; [eassumption|]. eapply rb_node_black; eassumption.
Qed.

Lemma inorder_node d c p a b c' p' a' b' : inorder a = inorder a' -> inorder b = inorder b' -> p = p' ->
  inorder (node_of d c p a b) = inorder (node_of d c' p' a' b').
Proof. intros E1 E2 ->. destruct d; simpl; congruence. Qed.

Lemma inorder_plug k : forall t t', inorder t = inorder t' -> inorder (plug k t) = inorder (plug k t').
Proof.
  induction k as [|[[[d c] p] s] k IH]; intros t t' E; simpl; [exact E|]. apply IH, inorder_node; auto.
Qed.

(** The in-order sequence of rotated trees. *)
Lemma inorder_rotate d c1 c2 c3 c4 x y A B C :
  inorder (node_of d c1 x (node_of d c2 y A B) C) = inorder (node_of d c3 y A (node_of d c4 x B C)).
Proof. destruct d; simpl; rw -!app_assoc //=. Qed.

(** ** Addresses and colours in one word *)

Definition bit (c : color) : Z := match c with Red => RB_RED | Black => RB_BLACK end.
Definition addr_ok (p : Z) : Prop := 0 < p < 2 ^ 64 /\ p mod 4 = 0.
Definition parent_ok (p : Z) : Prop := p = 0 \/ addr_ok p.
Definition pcval (par : Z) (c : color) : Z := Z.lor par (bit c).

Lemma parent_low p k : parent_ok p -> 0 <= k < 2 -> Z.testbit p k = false.
Proof.
  intros [->|[_ H]] Hk; [apply Z.bits_0|]. apply (mod_pow2_zero_bits p 2); [lia|exact H|lia].
Qed.

Lemma pcval_parent par c : parent_ok par -> __rb_parent (pcval par c) = par.
Proof.
  intros H. unfold __rb_parent, pcval. bits k Hk.
  assert (is_u64 par) as Hu by (destruct H as [->|[H _]]; unfold is_u64; lia).
  destruct (Z.lt_ge_cases k 64) as [Hlt|Hge].
  - unfold u64. rw Z.mod_pow2_bits_low //. rw Z.lnot_spec //.
    destruct (Z.lt_ge_cases k 2) as [Hl2|Hg2].
    + rw (parent_low par k) //. assert (k = 0 \/ k = 1) as [-> | ->] by lia; apply andb_false_r.
    + rw (Z.bits_above_log2 3 k); [|lia|simpl; lia]. rw andb_true_r.
      rw (Z.bits_above_log2 (bit c) k); [apply orb_false_r|destruct c; simpl; unfold RB_RED, RB_BLACK; lia|].
      destruct c; simpl; lia.
  - unfold u64. rw Z.mod_pow2_bits_high; [|lia]. rw andb_false_r. symmetry.
    apply (testbit_is_u64 par k Hu Hge).
Qed.

Lemma pcval_color par c : parent_ok par -> __rb_color (pcval par c) = bit c.
Proof.
  intros H. unfold __rb_color, pcval. bits k Hk. destruct (Z.eq_dec k 0) as [->|Hne].
  - rw (parent_low par 0) //. destruct c; reflexivity.
  - rw (Z.bits_above_log2 1 k); [|lia|simpl; lia]. rw andb_false_r. symmetry.
    apply Z.bits_above_log2; destruct c; simpl; unfold RB_RED, RB_BLACK; lia.
Qed.

Lemma pcval_red par : pcval par Red = par.
Proof. apply Z.lor_0_r. Qed.

(** ** Trees in memory *)

Fixpoint tree_at (par : Z) (t : tree) : hprop :=
  match t with
  | Leaf => emp
  | Node c p l r =>
      ⌜addr_ok p⌝ ∗ p ↦ pcval par c ∗ (p + off_left) ↦ ptr l ∗ (p + off_right) ↦ ptr r ∗
      tree_at p l ∗ tree_at p r
  end%I.

Fixpoint ctx_at (root : Z) (k : ctx) (child : Z) : hprop :=
  match k with
  | [] => root ↦ child
  | (d, c, p, s) :: k' =>
      ⌜addr_ok p⌝ ∗ p ↦ pcval (ctxp k') c ∗ (p + off d) ↦ child ∗ (p + off (opp d)) ↦ ptr s ∗
      tree_at p s ∗ ctx_at root k' p
  end%I.

(** The root cell and the tree below it. *)
Definition rbtree (root : Z) (t : tree) : hprop := (root ↦ ptr t ∗ tree_at 0 t)%I.

Lemma tree_at_node d par c p a b : tree_at par (node_of d c p a b) ⊣⊢
  ⌜addr_ok p⌝ ∗ p ↦ pcval par c ∗ (p + off d) ↦ ptr a ∗ (p + off (opp d)) ↦ ptr b ∗ tree_at p a ∗ tree_at p b.
Proof. destruct d; simpl; iSplit; iIntros "($ & $ & $ & $ & $ & $)". Qed.

Lemma ptr_node d c p a b : ptr (node_of d c p a b) = p.
Proof. destruct d; reflexivity. Qed.

Lemma rbtree_plug root k : forall t, ctx_at root k (ptr t) ∗ tree_at (ctxp k) t ⊣⊢ rbtree root (plug k t).
Proof.
  induction k as [|[[[d c] p] s] k IH]; intros t; simpl; [reflexivity|].
  rw -IH tree_at_node ptr_node. iSplit.
  - iIntros "(($ & $ & $ & $ & $ & $) & $)".
  - iIntros "($ & $ & $ & $ & $ & $ & $)".
Qed.

Lemma plug_open root k t : rbtree root (plug k t) -∗ ctx_at root k (ptr t) ∗ tree_at (ctxp k) t.
Proof. rw -rbtree_plug. iIntros "$". Qed.
Lemma plug_close root k t : ctx_at root k (ptr t) -∗ tree_at (ctxp k) t -∗ rbtree root (plug k t).
Proof. iIntros "H1 H2". rw -rbtree_plug. iFrame. Qed.

Lemma addr_ok_ne p : addr_ok p -> (p =? 0) = false.
Proof. intros [H _]. apply Z.eqb_neq. lia. Qed.
Lemma addr_parent_ok p : addr_ok p -> parent_ok p.
Proof. right. assumption. Qed.

Lemma tree_ptr_ok par t : tree_at par t -∗ ⌜ptr t = 0 /\ t = Leaf \/ addr_ok (ptr t)⌝.
Proof. destruct t; simpl; [iIntros "_"; iPureIntro; auto|]. iIntros "(%H & _)". iPureIntro. auto. Qed.

Lemma ctx_parent_ok root k child : ctx_at root k child -∗ ⌜parent_ok (ctxp k)⌝.
Proof.
  destruct k as [|[[[d c] p] s] k]; simpl; [iIntros "_"; iPureIntro; left; reflexivity|].
  iIntros "(%H & _)". iPureIntro. right. exact H.
Qed.

(** Distinct nodes have distinct addresses. *)
Lemma tree_ctx_ne root k child par c p l r :
  ctx_at root k child -∗ tree_at par (Node c p l r) -∗ ⌜ctxp k <> p⌝.
Proof.
  destruct k as [|[[[d c0] q] s] k]; simpl; iIntros "H1 H2".
  - iDestruct "H2" as "(%H & _)". iPureIntro. destruct H. lia.
  - iDestruct "H1" as "(_ & H1 & _)". iDestruct "H2" as "(_ & H2 & _)". iApply (cell_ne with "H1 H2").
Qed.

(** ** Steps *)


Lemma wp_rb_parent p par c Q : parent_ok par -> p ↦ pcval par c -∗ (p ↦ pcval par c -∗ Q par) -∗ wp (rb_parent p) Q.
Proof.
  iIntros (Hp) "H HQ". wp_ld "H". iApply wp_ret. rw pcval_parent //. iApply ("HQ" with "H").
Qed.

Lemma wp_rb_is_black p par c Q : parent_ok par ->
  p ↦ pcval par c -∗ (p ↦ pcval par c -∗ Q (match c with Black => true | Red => false end)) -∗ wp (rb_is_black p) Q.
Proof.
  iIntros (Hp) "H HQ". wp_ld "H". iApply wp_ret. unfold __rb_is_black. rw pcval_color //.
  destruct c; iApply ("HQ" with "H").
Qed.

Lemma wp_rb_is_red p par c Q : parent_ok par ->
  p ↦ pcval par c -∗ (p ↦ pcval par c -∗ Q (match c with Black => false | Red => true end)) -∗ wp (rb_is_red p) Q.
Proof.
  iIntros (Hp) "H HQ". wp_ld "H". iApply wp_ret. unfold __rb_is_red. rw pcval_color //.
  destruct c; iApply ("HQ" with "H").
Qed.

Lemma wp_rb_set_parent p par c par' Q : parent_ok par ->
  p ↦ pcval par c -∗ (p ↦ pcval par' c -∗ Q tt) -∗ wp (rb_set_parent p par') Q.
Proof.
  iIntros (Hp) "H HQ". wp_ld "H". rw pcval_color // Z.lor_comm. iApply (wp_st with "H"). iExact "HQ".
Qed.

Definition tcolor (t : tree) : color := match t with Leaf => Black | Node c _ _ _ => c end.
Definition recolor (c : color) (t : tree) : tree := match t with Leaf => Leaf | Node _ p l r => Node c p l r end.

Lemma rb_tcolor t c h : rb t c h -> tcolor t = c.
Proof. destruct 1; reflexivity. Qed.

Lemma wp_nonnull_red par t Q : parent_ok par ->
  tree_at par t -∗ (tree_at par t -∗ Q (match tcolor t with Red => true | Black => false end)) -∗ wp (nonnull_red (ptr t)) Q.
Proof.
  iIntros (Hp) "H HQ". unfold nonnull_red. destruct t as [|c p l r]; simpl.
  - iApply wp_ret. iApply ("HQ" with "H").
  - iDestruct "H" as "(%Hok & H & Hr)". rw addr_ok_ne //. iApply (wp_rb_is_red with "H"); [done|].
    iIntros "H". destruct c; iApply "HQ"; by iFrame.
Qed.

Lemma wp_null_or_black par t Q : parent_ok par ->
  tree_at par t -∗ (tree_at par t -∗ Q (match tcolor t with Red => false | Black => true end)) -∗ wp (null_or_black (ptr t)) Q.
Proof.
  iIntros (Hp) "H HQ". unfold null_or_black. destruct t as [|c p l r]; simpl.
  - iApply wp_ret. iApply ("HQ" with "H").
  - iDestruct "H" as "(%Hok & H & Hr)". rw addr_ok_ne //. iApply (wp_rb_is_black with "H"); [done|].
    iIntros "H". destruct c; iApply "HQ"; by iFrame.
Qed.

Lemma wp_if_set_parent_color par par' c t Q :
  tree_at par t -∗ (tree_at par' (recolor c t) -∗ Q tt) -∗ wp (if_set_parent_color (ptr t) par' (bit c)) Q.
Proof.
  iIntros "H HQ". unfold if_set_parent_color. destruct t as [|c0 p l r]; simpl.
  - iApply wp_ret. iApply ("HQ" with "H").
  - iDestruct "H" as "(%Hok & H & Hr)". rw addr_ok_ne //. iApply (wp_st with "H").
    iIntros "H". iApply "HQ". by iFrame.
Qed.

Lemma wp_if_set_parent par par' t Q : parent_ok par ->
  tree_at par t -∗ (tree_at par' t -∗ Q tt) -∗ wp (if_set_parent (ptr t) par') Q.
Proof.
  iIntros (Hp) "H HQ". unfold if_set_parent. destruct t as [|c0 p l r]; simpl.
  - iApply wp_ret. iApply ("HQ" with "H").
  - iDestruct "H" as "(%Hok & H & Hr)". rw addr_ok_ne //. iApply (wp_rb_set_parent with "H"); [done|].
    iIntros "H". iApply "HQ". by iFrame.
Qed.

(** The parent of the hole is redirected to another child. *)
Lemma wp_change_child root k old new v Q : addr_ok old ->
  old ↦ v -∗ ctx_at root k old -∗ (old ↦ v -∗ ctx_at root k new -∗ Q tt) -∗
  wp (__rb_change_child old new (ctxp k) root) Q.
Proof.
  iIntros (Hold) "Ho H HQ". unfold __rb_change_child. destruct k as [|[[[d c] p] s] k]; simpl.
  - iApply (wp_st with "H"). iApply ("HQ" with "Ho").
  - iDestruct "H" as "(%Hok & H1 & H2 & H3 & Hs & H4)". rw addr_ok_ne //. destruct d; simpl.
    + wp_ld "H2". rw Z.eqb_refl. iApply (wp_st with "H2"). iIntros "H2". iApply ("HQ" with "Ho"). by iFrame.
    + wp_ld "H3". iAssert ⌜ptr s <> old⌝%I as %Hne.
      { destruct s as [|cs q sl sr]; simpl; [iPureIntro; destruct Hold; lia|].
        iDestruct "Hs" as "(_ & Hs & _)". iApply (cell_ne with "Hs Ho"). }
      rw (proj2 (Z.eqb_neq (ptr s) old) Hne). iApply (wp_st with "H2"). iIntros "H2".
      iApply ("HQ" with "Ho"). by iFrame.
Qed.

(** Colours and parents of a rotation: [new] takes the place of [old]. *)
Lemma wp_rotate_set_parents root k old new c v w Q : addr_ok old -> 
  old ↦ pcval (ctxp k) v -∗ new ↦ w -∗ ctx_at root k old -∗
  (old ↦ pcval new c -∗ new ↦ pcval (ctxp k) v -∗ ctx_at root k new -∗ Q tt) -∗
  wp (__rb_rotate_set_parents old new root (bit c)) Q.
Proof.
  iIntros (Hold) "Ho Hn Hk HQ". iDestruct (ctx_parent_ok with "Hk") as %Hp.
  iApply wp_bind. iApply (wp_rb_parent with "Ho"); [done|]. iIntros "Ho".
  wp_ld "Ho". wp_st "Hn". wp_st "Ho".
  iApply (wp_change_child with "Ho Hk"); [done|]. iIntros "Ho Hk". iApply ("HQ" with "Ho Hn Hk").
Qed.

(** ** Insertion *)

(** What the callback of a rotation promises to the code of the tree: [I] is what the
    augmented data says about the tree, which colours do not matter to.  The callback runs when the
    links are those of the tree after the rotation, and may read the links of the node that
    went down; it reads the data of nodes that satisfy [P]. *)
Fixpoint shape (t : tree) : tree := match t with Leaf => Leaf | Node _ p l r => Node Black p (shape l) (shape r) end.
Class RotateSpec (aug : Z -> Z -> prog unit) (I : tree -> hprop) (P : Z -> Prop) : Prop := {
  rotate_shape t t' : shape t = shape t' -> I t ⊢ I t';
  rotate_step d k g p A B u : P g -> P (ptr B) -> P (ptr u) ->
    I (plug k (node_of d Black g (node_of d Black p A B) u)) -∗ (g + off d) ↦ ptr B -∗ (g + off (opp d)) ↦ ptr u -∗
    wp (aug g p) (fun _ => (g + off d) ↦ ptr B ∗ (g + off (opp d)) ↦ ptr u ∗ I (plug k (node_of d Black p A (node_of d Black g B u))))%I }.
#[export] Instance dummy_rotate_spec : RotateSpec dummy_rotate (fun _ => emp%I) (fun _ => True).
Proof. split; [done|]. iIntros (d k g p A B u _ _ _) "_ H1 H2". iApply wp_ret. by iFrame. Qed.

Lemma shape_plug k : forall t t', shape t = shape t' -> shape (plug k t) = shape (plug k t').
Proof. induction k as [|[[[[] c] p] s] k IH]; intros t t' E; [exact E| |]; apply IH; simpl; by rw E. Qed.
Lemma shape_node d c c' p a a' b b' : shape a = shape a' -> shape b = shape b' -> shape (node_of d c p a b) = shape (node_of d c' p a' b').
Proof. destruct d; simpl; congruence. Qed.
Ltac solve_shape := repeat first [reflexivity | apply shape_plug | apply shape_node].

Section Insert.
Context (aug : Z -> Z -> prog unit) (I : tree -> hprop) (P : Z -> Prop) `{!RotateSpec aug I P}.
#[local] Lemma reshape t t' : shape t = shape t' -> I t ⊢ I t'.
Proof using RotateSpec0. apply rotate_shape. Qed.

(** What a side of the loop of [__rb_insert] leaves: either the loop goes on at
    a red node two levels up, or the tree is a red-black tree again. *)
Definition insert_side_post (root : Z) (nodes : list Z) (k : ctx) (h : nat) (r : option (Z * Z)) : hprop :=
  match r with
  | Some (n, par) => ∃ l r, ⌜par = ctxp k /\ rb l Black (S h) /\ rb r Black (S h) /\
        inorder (Node Red n l r) = nodes /\ P (ptr l) /\ P (ptr r)⌝ ∗
      ctx_at root k n ∗ tree_at (ctxp k) (Node Red n l r) ∗ I (plug k (Node Red n l r))
  | None => ∃ t, ⌜rb t Black (S h) /\ inorder t = nodes⌝ ∗ ctx_at root k (ptr t) ∗ tree_at (ctxp k) t ∗ I (plug k t)
  end%I.

Lemma recolor_black t c h : rb t c h -> tcolor t = Red -> rb (recolor Black t) Black (S h).
Proof. destruct 1; simpl; intros; try discriminate. econstructor; eassumption. Qed.
Lemma recolor_id t : recolor (tcolor t) t = t.
Proof. destruct t; reflexivity. Qed.
Lemma recolor_black_id t h : rb t Black h -> recolor Black t = t.
Proof. inversion 1; reflexivity. Qed.
Lemma inorder_recolor c t : inorder (recolor c t) = inorder t.
Proof. destruct t; reflexivity. Qed.
Lemma ptr_recolor c t : ptr (recolor c t) = ptr t.
Proof. destruct t; reflexivity. Qed.

Definition left_of (d : side) (a b : tree) : tree := match d with L => a | R => b end.
Definition right_of (d : side) (a b : tree) : tree := match d with L => b | R => a end.
Lemma node_of_eq d c p a b : node_of d c p a b = Node c p (left_of d a b) (right_of d a b).
Proof. destruct d; reflexivity. Qed.
Lemma opp_opp d : opp (opp d) = d.
Proof. destruct d; reflexivity. Qed.
Lemma side_cases d e : e = d \/ e = opp d.
Proof. destruct d, e; auto. Qed.
Lemma rb_sides d a b ca cb h : rb a ca h -> rb b cb h ->
  exists c1 c2, rb (left_of d a b) c1 h /\ rb (right_of d a b) c2 h.
Proof. destruct d; eauto. Qed.
Lemma rb_sides_black d a b h : rb a Black h -> rb b Black h -> rb (left_of d a b) Black h /\ rb (right_of d a b) Black h.
Proof. destruct d; auto. Qed.

(** A subtree does not start at the address of a node outside it. *)
Lemma tree_ptr_ne par t q v : addr_ok q -> tree_at par t -∗ q ↦ v -∗ ⌜(q =? ptr t) = false⌝.
Proof.
  iIntros (Hq) "Ht Hq". destruct t as [|c p l r]; simpl; [iPureIntro; apply addr_ok_ne, Hq|].
  iDestruct "Ht" as "(_ & Ht & _)". iDestruct (cell_ne with "Hq Ht") as %Hne. iPureIntro. apply Z.eqb_neq. exact Hne.
Qed.

(** Case 3 of insertion: a rotation at [g]. *)
Lemma wp_insert_rotate d root k g p A B u vA w h :
  rb A Red h -> rb B Black h -> rb u Black h -> addr_ok g -> addr_ok p -> P g -> P (ptr B) -> P (ptr u) ->
  ctx_at root k g -∗ g ↦ pcval (ctxp k) Black -∗ (g + off d) ↦ vA -∗ (g + off (opp d)) ↦ ptr u -∗
  p ↦ w -∗ (p + off d) ↦ ptr A -∗ (p + off (opp d)) ↦ ptr B -∗
  tree_at p A -∗ tree_at p B -∗ tree_at g u -∗ I (plug k (node_of d Black g (node_of d Black p A B) u)) -∗
  wp (st (g + off d) (ptr B);;
      st (p + off (opp d)) g;;
      if_set_parent_color (ptr B) g RB_BLACK;;
      __rb_rotate_set_parents g p root RB_RED;;
      aug g p;;
      mret None)
    (insert_side_post root (inorder (node_of d Black p A (node_of d Red g B u))) k h).
Proof.
  iIntros (HA HB Hu Hg Hp Pg PB Pu) "Hk Hg Hgd Hgo Hp Hpd Hpo HA HB Hu HI".
  wp_st "Hgd". wp_st "Hpo". iApply wp_bind. iApply (wp_if_set_parent_color p g Black with "HB"). iIntros "HB".
  iApply wp_bind. iApply (wp_rotate_set_parents root k g p Red with "Hg Hp Hk"); [done|].
  iIntros "Hg Hp Hk". iApply wp_bind. iApply (wp_wand with "[HI Hgd Hgo]"); [by iApply (rotate_step (P := P) with "HI Hgd Hgo")|]. iIntros (_) "(Hgd & Hgo & HI)". iApply wp_ret.
  iExists (node_of d Black p A (node_of d Red g B u)). iSplitR.
  - iPureIntro. split; [|reflexivity]. eapply rb_node_black; [exact HA|]. apply rb_node_red; assumption.
  - rw ptr_node !tree_at_node ptr_node.
    rw (recolor_black_id _ _ HB). iFrame. repeat (iSplitR; [done|]). iApply (reshape with "HI"). solve_shape.
Qed.

(** Both branches of the loop: [node] is red, its parent [p] is red and the
    child of the black [g] on side [d]; [node] itself is on side [e] of [p]. *)
Lemma wp_insert_side d e root k g p n a b s u h cu :
  rb a Black h -> rb b Black h -> rb s Black h -> rb u cu h -> P (ptr a) -> P (ptr b) -> P (ptr s) -> P (ptr u) -> P p -> P g ->
  ctx_at root k g -∗
  tree_at (ctxp k) (node_of d Black g (node_of e Red p (Node Red n a b) s) u) -∗
  I (plug k (node_of d Black g (node_of e Red p (Node Red n a b) s) u)) -∗
  wp (rb_insert_side aug (off d) (off (opp d)) root n p g (ptr u))
    (insert_side_post root (inorder (node_of d Black g (node_of e Red p (Node Red n a b) s) u)) k h).
Proof.
  iIntros (Ha Hb Hs Hu Pa Pb Ps Pu Pp Pg) "Hk Ht HI". iDestruct (ctx_parent_ok with "Hk") as %Hkp.
  rw !tree_at_node !ptr_node. iDestruct "Ht" as "(%Hg & Hg & Hgd & Hgo & (%Hp & Hp & Hpe & Hpo & Hn & Hs) & Hu)".
  pose proof (rb_tcolor _ _ _ Hu) as Ecu. unfold rb_insert_side. iApply wp_bind.
  iApply (wp_nonnull_red with "Hu"); [by right|]. iIntros "Hu". rw Ecu. destruct cu.
  - (* the uncle is red: colours flip *)
    destruct u as [|cu q ul ur]; [discriminate|]. simpl in Ecu. subst cu.
    iDestruct "Hu" as "(%Hq & Hq & Hu)". simpl ptr. wp_st "Hq". wp_st "Hp".
    iApply wp_bind. iApply (wp_rb_parent with "Hg"); [done|]. iIntros "Hg". wp_st "Hg". iApply wp_ret.
    set (T := node_of e Black p (Node Red n a b) s). set (U := Node Black q ul ur).
    iExists (left_of d T U), (right_of d T U). rw -node_of_eq. iSplitR.
    + iPureIntro. split; [reflexivity|].
      destruct (rb_sides_black d T U (S h)) as [H1 H2].
      * eapply rb_node_black; [apply rb_red|]; eassumption.
      * apply (recolor_black _ _ _ Hu). reflexivity.
      * split; [exact H1|]. split; [exact H2|]. split; [apply inorder_node; [apply inorder_node; auto|reflexivity|reflexivity]|]. assert (P (ptr T)) by (unfold T; rw ptr_node //). destruct d; split; assumption.
    + iFrame "Hk". rw !tree_at_node !ptr_node. simpl. iFrame. repeat (iSplitR; [done|]). iApply (reshape with "HI"). unfold T, U. solve_shape.
  - (* the uncle is black: one or two rotations *)
    destruct (side_cases d e) as [->| ->].
    + wp_ld "Hpo". simpl. iDestruct "Hn" as "(%Hnok & Hn & Hn')".
      iDestruct (tree_ptr_ne with "Hs Hn") as %Hne; [done|]. rw Hne. iApply wp_bind. iApply wp_ret.
      rw (inorder_rotate d Black Red Black Red).
      iApply (wp_insert_rotate d root k g p (Node Red n a b) s u with "Hk Hg Hgd Hgo Hp Hpe Hpo [Hn Hn'] Hs Hu [HI]"); eauto.
      * constructor; assumption.
      * simpl. by iFrame.
      * iApply (reshape with "HI"). solve_shape.
    + assert (Node Red n a b = node_of d Red n (left_of d a b) (right_of d a b)) as En by (destruct d; reflexivity).
      destruct (rb_sides_black d a b h Ha Hb) as [HA HB]. assert (P (ptr (left_of d a b)) /\ P (ptr (right_of d a b))) as [PA PB] by (destruct d; auto). rw En. clear En.
      set (A := left_of d a b) in *. set (B := right_of d a b) in *.
      wp_ld "Hpe". rw ptr_node Z.eqb_refl tree_at_node opp_opp. iDestruct "Hn" as "(%Hnok & Hn & Hnd & Hno & HA & HB)".
      iApply wp_bind. wp_ld "Hnd".
      wp_st "Hpe". wp_st "Hnd". iApply wp_bind. iApply (wp_if_set_parent_color n p Black with "HA"). iIntros "HA".
      wp_st "Hp". iApply wp_bind. rw (recolor_black_id _ _ HA). iDestruct (reshape _ (plug ((d, Black, g, u) :: k) (node_of (opp d) Black p (node_of (opp d) Black n B A) s)) with "HI") as "HI".
      { cbn [plug]. solve_shape. destruct d; reflexivity. }
      iApply (wp_wand with "[HI Hpe Hpo]"). { iApply (rotate_step (P := P) (opp d) with "HI Hpe"); [exact Pp|exact PA|exact Ps|]. rw opp_opp. iExact "Hpo". }
      iIntros (_) "(Hpe & Hpo & HI)". rw opp_opp. wp_ld "Hno". iApply wp_ret.
      assert (inorder (node_of d Black g (node_of (opp d) Red p (node_of d Red n A B) s) u) =
              inorder (node_of d Black n (node_of d Red p s A) (node_of d Red g B u))) as ->
        by (destruct d; simpl; rw -!app_assoc //=; rw -!app_assoc //=).
      iApply (wp_insert_rotate d root k g n (node_of d Red p s A) B u with "Hk Hg Hgd Hgo Hn [Hnd] Hno [Hp Hpe Hpo HA Hs] HB Hu [HI]"); eauto.
      * apply rb_node_red; assumption.
      * rw ptr_node. iExact "Hnd".
      * rw tree_at_node. by iFrame.
      * iApply (reshape with "HI"). cbn [plug]. solve_shape. destruct d; reflexivity.
Qed.

(** The result of an insertion: a red-black tree with the same nodes in the
    same order, with its augmented data. *)
Definition insert_post_aug (root : Z) (nodes : list Z) : hprop :=
  (∃ t h, ⌜rb t Black h /\ inorder t = nodes⌝ ∗ rbtree root t ∗ I t)%I.

(** The nodes around the hole. *)
Definition clean (k : ctx) : Prop := Forall (fun f => P f.1.2 /\ P (ptr f.2)) k.
Lemma wp_insert_loop_aug root fuel : forall k n a b h, rbk k Black h -> rb a Black h -> rb b Black h ->
  (length k < fuel)%nat -> clean k -> P (ptr a) -> P (ptr b) ->
  ctx_at root k n -∗ tree_at (ctxp k) (Node Red n a b) -∗ I (plug k (Node Red n a b)) -∗
  wp (rb_insert_loop aug fuel root n (ctxp k))
    (fun _ => insert_post_aug root (inorder (plug k (Node Red n a b)))).
Proof.
  induction fuel as [|fuel IH]; intros k n a b h Hk Ha Hb Hf Hc Pa Pb; [lia|]. iIntros "Hk Ht HI". cbn [rb_insert_loop].
  destruct k as [|[[[d c] p] s] k].
  { (* the node is the root *)
    simpl. iDestruct "Ht" as "(%Hn & Hn & Ht)". iApply (wp_st with "Hn"). iIntros "Hn".
    iExists (Node Black n a b), (S h). iSplitR; [iPureIntro; split; [econstructor; eassumption|reflexivity]|].
    iFrame "Hk". simpl. iFrame. repeat (iSplitR; [done|]). iApply (reshape with "HI"). solve_shape. }
  cbn [ctxp ctx_at]. iDestruct "Hk" as "(%Hp & Hp & Hpd & Hpo & Hs & Hk)". rw addr_ok_ne //.
  iDestruct (ctx_parent_ok with "Hk") as %Hkp. iApply wp_bind. iApply (wp_rb_is_black with "Hp"); [done|]. iIntros "Hp".
  inversion Hk as [|d' p' s' k' h' Hs Hk'|d' p' s' cs k' c' h' Hs Hk']; subst.
  2:{ (* the parent is black *)
      iApply wp_ret. destruct (rbk_plug k (node_of d Black p (Node Red n a b) s) Black (S h) Hk') as [h2 Hrb].
      { eapply rb_node_black; [constructor|]; eassumption. }
      iExists (plug k (node_of d Black p (Node Red n a b) s)), h2. iSplitR; [done|].
      cbn [plug]. iFrame "HI". iApply (plug_close with "[Hk]"); [by rw ptr_node|]. rw tree_at_node. iFrame. done. }
  (* the parent is red, the grandparent black *)
  inversion Hk' as [|?|d2 g u cu k2 c2 h2 Hu Hk2]; subst. cbn [ctxp ctx_at].
  apply Forall_cons in Hc as [[Pp Ps] Hc]. apply Forall_cons in Hc as [[Pg Pu] Hc]. cbn [fst snd] in Pp, Ps, Pg, Pu.
  iDestruct "Hk" as "(%Hg & Hg & Hgd & Hgo & Hu & Hk)".
  wp_ld "Hp". rw pcval_red. simpl in Hf.
  iAssert (∀ r, insert_side_post root (inorder (node_of d2 Black g (node_of d Red p (Node Red n a b) s) u)) k2 h r -∗
    wp (match r with None => mret tt | Some (node, parent) => rb_insert_loop aug fuel root node parent end)
      (fun _ => insert_post_aug root (inorder (plug k2 (node_of d2 Black g (node_of d Red p (Node Red n a b) s) u)))))%I as "Hcont".
  { iIntros (r) "H". destruct r as [[x y]|].
    - iDestruct "H" as (l r (-> & Hl & Hr & E & Pl & Pr)) "(Hk & Ht & HI)". rw -(inorder_plug k2 _ _ E).
      iApply (IH k2 x l r (S h) with "Hk Ht HI"); [assumption|assumption|assumption|lia|assumption..].
    - iDestruct "H" as (t (Ht & E)) "(Hk & Ht & HI)". iApply wp_ret.
      destruct (rbk_plug k2 t Black (S h) Hk2 Ht) as [h3 Hrb]. iExists (plug k2 t), h3.
      iSplitR; [iPureIntro; split; [exact Hrb|apply inorder_plug; exact E]|]. iFrame "HI". iApply (plug_close with "Hk Ht"). }
  iAssert (ctx_at root k2 g -∗ tree_at (ctxp k2) (node_of d2 Black g (node_of d Red p (Node Red n a b) s) u) -∗
    I (plug k2 (node_of d2 Black g (node_of d Red p (Node Red n a b) s) u)) -∗
    wp (rb_insert_side aug (off d2) (off (opp d2)) root n p g (ptr u)) (fun r =>
      wp (match r with None => mret tt | Some (node, parent) => rb_insert_loop aug fuel root node parent end)
        (fun _ => insert_post_aug root (inorder (plug k2 (node_of d2 Black g (node_of d Red p (Node Red n a b) s) u))))))%I
    with "[Hcont]" as "Hside".
  { iIntros "Hk Ht HI". iApply (wp_wand with "[Hk Ht HI]"); [|iExact "Hcont"].
    iApply (wp_insert_side with "Hk Ht HI"); eassumption. }
  cbn [plug].
  destruct d2; simpl off.
  - wp_ld "Hgo". iDestruct (tree_ptr_ne with "Hu Hp") as %Hne; [done|]. rw Hne. simpl negb. cbn iota.
    iApply wp_bind. iApply ("Hside" with "Hk [-HI] HI"). rw !tree_at_node !ptr_node pcval_red. iFrame. done.
  - wp_ld "Hgd". rw Z.eqb_refl. simpl negb. cbn iota. iApply wp_bind. wp_ld "Hgo".
    iApply ("Hside" with "Hk [-HI] HI"). rw !tree_at_node !ptr_node pcval_red. iFrame. done.
Qed.
End Insert.

(** The result of an insertion without augmented data. *)
Definition insert_post (root : Z) (nodes : list Z) : hprop :=
  (∃ t h, ⌜rb t Black h /\ inorder t = nodes⌝ ∗ rbtree root t)%I.
Lemma wp_insert_loop root fuel k n a b h : rbk k Black h -> rb a Black h -> rb b Black h -> (length k < fuel)%nat ->
  ctx_at root k n -∗ tree_at (ctxp k) (Node Red n a b) -∗
  wp (rb_insert_loop dummy_rotate fuel root n (ctxp k)) (fun _ => insert_post root (inorder (plug k (Node Red n a b)))).
Proof.
  iIntros (Hk Ha Hb Hf) "Hk Ht". iApply (wp_wand with "[Hk Ht]").
  - iApply (wp_insert_loop_aug dummy_rotate (fun _ => emp%I) (fun _ => True) with "Hk Ht []"); try done. by apply Forall_true.
  - iIntros (_) "(%t & %h' & %H & Ht & _)". iExists t, h'. by iFrame.
Qed.

(** ** Rebalancing after removal *)

Lemma recolor_shape c t : shape (recolor c t) = shape t.
Proof. destruct t; reflexivity. Qed.
Lemma node_of_opp d c p a b : node_of (opp d) c p a b = node_of d c p b a.
Proof. destruct d; reflexivity. Qed.
Section Erase.
Context (aug : Z -> Z -> prog unit) (I : tree -> hprop) `{!RotateSpec aug I (fun _ => True)}.

(** The fourth case: a rotation at [p] that makes the far subtree [Y] black. *)
Lemma wp_erase_rotate d root k c p x t N Y y v u1 u2 :
  addr_ok p -> addr_ok x -> ptr Y = y -> y <> 0 ->
  ctx_at root k p -∗ p ↦ pcval (ctxp k) c -∗ (p + off d) ↦ ptr t -∗ (p + off (opp d)) ↦ u1 -∗ tree_at p t -∗
  x ↦ v -∗ (x + off d) ↦ ptr N -∗ (x + off (opp d)) ↦ y -∗ tree_at x N -∗ tree_at u2 Y -∗
  I (plug k (node_of d c p t (node_of d Black x N Y))) -∗
  wp (tmp2 ← ld (x + off d);
      st (p + off (opp d)) tmp2;;
      st (x + off d) p;;
      rb_set_parent_color y x RB_BLACK;;
      if_set_parent tmp2 p;;
      __rb_rotate_set_parents p x root RB_BLACK;;
      aug p x;;
      mret (None : option (Z * Z)))
    (fun r => ⌜r = None⌝ ∗ ctx_at root k x ∗
       tree_at (ctxp k) (node_of d c x (node_of d Black p t N) (recolor Black Y)) ∗
       I (plug k (node_of d c x (node_of d Black p t N) (recolor Black Y))))%I.
Proof.
  iIntros (Hp Hx <- HY) "Hk Hp Hpd Hpo Ht Hx Hxd Hxo HN HY HI".
  wp_ld "Hxd". wp_st "Hpo". wp_st "Hxd".
  destruct Y as [|cy y yl yr]; [done|]. simpl ptr. iDestruct "HY" as "(%Hy & Hy & HY)". wp_st "Hy".
  iApply wp_bind. iApply (wp_if_set_parent x p with "HN"); [by right|]. iIntros "HN".
  iApply wp_bind. iApply (wp_rotate_set_parents root k p x Black with "Hp Hx Hk"); [done|]. iIntros "Hp Hx Hk".
  iDestruct (reshape aug I (fun _ => True) _ (plug k (node_of (opp d) Black p (node_of (opp d) Black x (Node cy y yl yr) N) t)) with "HI") as "HI"; [rw !node_of_opp; solve_shape|].
  iApply wp_bind. iApply (wp_wand with "[HI Hpo Hpd]").
  { iApply (rotate_step (P := fun _ => True) (opp d) with "HI Hpo"); [done|done|done|]. rw opp_opp. iExact "Hpd". }
  rw opp_opp. iIntros (_) "(Hpo & Hpd & HI)". iApply wp_ret. iSplitR; [done|]. iFrame "Hk".
  iSplitR "HI"; [|iApply (reshape aug I (fun _ => True) with "HI"); rw !node_of_opp; solve_shape; by rw recolor_shape].
  rw !tree_at_node !ptr_node. simpl. iFrame. iSplit; done.
Qed.

(** What a round leaves: the tree is a red-black tree again, or the loop goes on
    at the parent, which now lacks one black node. *)
Definition erase_side_post (root : Z) (nodes : list Z) (c : color) (k : ctx) (h : nat) (r : option (Z * Z)) : hprop :=
  match r with
  | None => insert_post_aug I root nodes
  | Some (n, par) => ∃ T, ⌜c = Black /\ n = ptr T /\ par = ctxp k /\ k <> [] /\ rb T Black (S h) /\
        rbk k Black (S (S h)) /\ inorder (plug k T) = nodes⌝ ∗
      ctx_at root k (ptr T) ∗ tree_at (ctxp k) T ∗ I (plug k T)
  end%I.

Lemma rbk_any k c h : rbk k Red h -> rbk k c h.
Proof. inversion 1; subst. econstructor; eassumption. Qed.

Lemma insert_post_plug root k t c h nodes : rbk k c h -> rb t c h -> inorder (plug k t) = nodes ->
  ctx_at root k (ptr t) -∗ tree_at (ctxp k) t -∗ I (plug k t) -∗ insert_post_aug I root nodes.
Proof.
  iIntros (Hk Ht E) "H1 H2 HI". destruct (rbk_plug k t c h Hk Ht) as [h' H]. iExists (plug k t), h'.
  iSplitR; [done|]. iFrame "HI". iApply (plug_close with "H1 H2").
Qed.

Lemma rb_node_any d c p a b h : rb a Black h -> rb b Black h ->
  rb (node_of d c p a b) c (match c with Red => h | Black => S h end).
Proof. intros Ha Hb. destruct c; [apply rb_node_red|eapply rb_node_black]; eassumption. Qed.

Lemma rbk_parent d c p s k h : rbk ((d, c, p, s) :: k) Black h -> rbk k c (match c with Red => h | Black => S h end).
Proof. inversion 1; subst; assumption. Qed.

Lemma red_ptr par t h : rb t Red h -> tree_at par t -∗ ⌜ptr t <> 0⌝.
Proof.
  iIntros (H) "Ht". iDestruct (tree_ptr_ok with "Ht") as %[[_ ->]|[Hok _]]; [inversion H|]. iPureIntro. lia.
Qed.

Lemma wp_erase_black d root k c p q t SN SF h cn cf :
  rb t Black h -> rb SN cn h -> rb SF cf h -> rbk ((d, c, p, node_of d Black q SN SF) :: k) Black (S h) ->
  ctx_at root ((d, c, p, node_of d Black q SN SF) :: k) (ptr t) -∗ tree_at p t -∗
  I (plug ((d, c, p, node_of d Black q SN SF) :: k) t) -∗
  wp (rb_erase_black aug (off d) (off (opp d)) root p q)
    (erase_side_post root (inorder (plug ((d, c, p, node_of d Black q SN SF) :: k) t)) c k h).
Proof.
  iIntros (Ht HN HF Hk) "Hk Ht HI". cbn [ctx_at plug]. rw tree_at_node ptr_node.
  iDestruct "Hk" as "(%Hp & Hp & Hpd & Hpo & (%Hq & Hq & Hqd & Hqo & HN & HF) & Hk)".
  iDestruct (ctx_parent_ok with "Hk") as %Hkp.
  pose proof (rb_tcolor _ _ _ HN) as EN. pose proof (rb_tcolor _ _ _ HF) as EF.
  pose proof (rbk_parent _ _ _ _ _ _ Hk) as Hk'.
  unfold rb_erase_black. wp_ld "Hqo". iApply wp_bind. iApply (wp_null_or_black with "HF"); [by right|]. iIntros "HF".
  rw EF. destruct cf.
  { (* the far child of the sibling is red *)
    iDestruct (red_ptr with "HF") as %HFp; [done|]. iApply wp_bind. iApply wp_ret. iApply (wp_wand with "[-]").
    { iApply (wp_erase_rotate d root k c p q t SN SF (ptr SF) with "Hk Hp Hpd Hpo Ht Hq Hqd Hqo HN HF HI"); done. }
    iIntros (r) "(-> & Hk & HT & HI)".
    iApply (insert_post_plug with "[Hk] HT HI"); [exact Hk'| | |by rw ptr_node].
    - apply rb_node_any; [eapply rb_node_black; eassumption|apply (recolor_black _ _ _ HF EF)].
    - simpl. apply inorder_plug. rw (inorder_rotate d c Black c Black). apply inorder_node; [done| |done].
      apply inorder_node; [done|apply inorder_recolor|done]. }
  iApply wp_bind. wp_ld "Hqd". iApply wp_bind. iApply (wp_null_or_black with "HN"); [by right|]. iIntros "HN".
  rw EN. destruct cn.
  { (* the near child is red *)
    destruct SN as [|c' r a b]; [discriminate|]. simpl in EN. subst c'.
    assert (Node Red r a b = node_of d Red r (left_of d a b) (right_of d a b)) as En by (destruct d; reflexivity).
    inversion HN; subst. destruct (rb_sides_black d a b h) as [HRN HRF]; [assumption|assumption|]. rw En. clear En.
    set (RN := left_of d a b) in *. set (RF := right_of d a b) in *.
    rw tree_at_node ptr_node. iDestruct "HN" as "(%Hr & Hr & Hrd & Hro & HRN & HRF)".
    wp_ld "Hro". wp_st "Hqd". wp_st "Hro". wp_st "Hpo". iApply wp_bind.
    iApply (wp_if_set_parent_color r q Black with "HRF"). iIntros "HRF". rw (recolor_black_id _ _ HRF).
    iDestruct (reshape aug I (fun _ => True) _ (plug ((opp d, c, p, t) :: k) (node_of d Black q (node_of d Black r RN RF) SF)) with "HI") as "HI"; [cbn [plug]; rw !node_of_opp; solve_shape|].
    iApply wp_bind. iApply (wp_wand with "[HI Hqd Hqo]"); [by iApply (rotate_step (P := fun _ => True) d with "HI Hqd Hqo")|]. iIntros (_) "(Hqd & Hqo & HI)".
    iApply wp_ret. iApply (wp_wand with "[-]").
    { iApply (wp_erase_rotate d root k c p r t RN (node_of d Black q RF SF) q
                with "Hk Hp Hpd Hpo Ht Hr Hrd Hro HRN [Hq Hqd Hqo HRF HF] [HI]"); [done|done|by rw ptr_node|destruct Hq; lia| |].
      - rw tree_at_node. iFrame. done.
      - iApply (reshape aug I (fun _ => True) with "HI"). cbn [plug]. rw !node_of_opp. solve_shape. }
    iIntros (x) "(-> & Hk & HT & HI)".
    iApply (insert_post_plug with "[Hk] HT HI"); [exact Hk'| | |by rw ptr_node].
    - apply rb_node_any; [eapply rb_node_black; eassumption|].
      rw (recolor_black_id _ (S h)); eapply rb_node_black; eassumption.
    - simpl. apply inorder_plug. destruct d; simpl; rw -!app_assoc //=; rw -!app_assoc //=. }
  (* both are black *)
  wp_st "Hq". iApply wp_bind. iApply (wp_rb_is_red with "Hp"); [done|]. iIntros "Hp".
  assert (rb (node_of d Black p t (node_of d Red q SN SF)) Black (S h)) as HT
    by (eapply rb_node_black; [exact Ht|]; apply rb_node_red; assumption).
  iAssert (p ↦ pcval (ctxp k) Black -∗ tree_at (ctxp k) (node_of d Black p t (node_of d Red q SN SF)))%I
    with "[Hpd Hpo Hq Hqd Hqo HN HF Ht]" as "HT".
  { iIntros "Hp". rw !tree_at_node !ptr_node. iFrame. done. }
  iDestruct (reshape aug I (fun _ => True) _ (plug k (node_of d Black p t (node_of d Red q SN SF))) with "HI") as "HI"; [solve_shape|].
  destruct c.
  - iApply wp_bind. wp_ld "Hp". rw pcval_red. iApply (wp_st with "Hp"). iIntros "Hp".
    iApply wp_ret. iApply wp_ret. iDestruct ("HT" with "Hp") as "HT".
    iApply (insert_post_plug with "[Hk] HT HI"); [exact (rbk_any _ _ _ Hk')|exact HT| |by rw ptr_node].
    cbn [plug]. apply inorder_plug, inorder_node; [done|apply inorder_node; done|done].
  - iApply wp_bind. iApply (wp_rb_parent with "Hp"); [done|]. iIntros "Hp". iDestruct ("HT" with "Hp") as "HT".
    assert (inorder (plug k (node_of d Black p t (node_of d Red q SN SF))) =
            inorder (plug ((d, Black, p, node_of d Black q SN SF) :: k) t)) as EI
      by (cbn [plug]; apply inorder_plug, inorder_node; [done|apply inorder_node; done|done]).
    destruct k as [|f k].
    + iApply wp_ret. iApply wp_ret. iApply (insert_post_plug with "[Hk] HT HI"); [constructor|exact HT|exact EI|by rw ptr_node].
    + iAssert ⌜addr_ok (ctxp (f :: k))⌝%I as %Hf.
      { destruct f as [[[? ?] ?] ?]. simpl. iDestruct "Hk" as "($ & _)". }
      rw addr_ok_ne //. iApply wp_ret. iApply wp_ret. iExists _. iFrame "HT HI". rw ptr_node. iFrame "Hk".
      iPureIntro. split; [done|]. split; [done|]. split; [done|]. split; [done|]. auto.
Qed.

Lemma rb_as_node d t c h : rb t c (S h) -> exists q SN SF, t = node_of d c q SN SF /\
  match c with
  | Red => rb SN Black (S h) /\ rb SF Black (S h)
  | Black => exists cn cf, rb SN cn h /\ rb SF cf h
  end.
Proof.
  inversion 1; subst; destruct d; eexists _, _, _; (split; [reflexivity|]); eauto.
Qed.

Lemma wp_erase_side d root k c p s cs t h :
  rb t Black h -> rb s cs (S h) -> rbk ((d, c, p, s) :: k) Black (S h) ->
  ctx_at root ((d, c, p, s) :: k) (ptr t) -∗ tree_at p t -∗ I (plug ((d, c, p, s) :: k) t) -∗
  wp (rb_erase_side aug (off d) (off (opp d)) root p (ptr s))
    (erase_side_post root (inorder (plug ((d, c, p, s) :: k) t)) c k h).
Proof.
  iIntros (Ht Hs Hk) "Hk Ht HI". destruct (rb_as_node d s cs h Hs) as (q & SN & SF & -> & Hch).
  rw ptr_node. unfold rb_erase_side. destruct cs.
  - (* the sibling is red: a rotation makes it black *)
    destruct Hch as [HN HF].
    assert (c = Black) as ->.
    { inversion Hk as [|? ? ? ? ? Hb|]; subst; [|reflexivity].
      exfalso. destruct d; inversion Hb. }
    pose proof (rbk_parent _ _ _ _ _ _ Hk) as Hk'.
    cbn [ctx_at]. rw tree_at_node ptr_node.
    iDestruct "Hk" as "(%Hp & Hp & Hpd & Hpo & (%Hq & Hq & Hqd & Hqo & HN & HF) & Hk)".
    iApply wp_bind. iApply (wp_rb_is_red with "Hq"); [by right|]. iIntros "Hq". iApply wp_bind.
    wp_ld "Hqd". wp_st "Hpo". wp_st "Hqd".
    destruct SN as [|cn y yl yr]; [inversion HN|]. inversion HN; subst. simpl ptr.
    iDestruct "HN" as "(%Hy & Hy & HN)". wp_st "Hy".
    iApply wp_bind. iApply (wp_rotate_set_parents root k p q Red with "Hp Hq Hk"); [done|]. iIntros "Hp Hq Hk".
    set (N := Node Black y yl yr).
    iDestruct (reshape aug I (fun _ => True) _ (plug k (node_of (opp d) Black p (node_of (opp d) Black q SF N) t)) with "HI") as "HI"; [cbn [plug]; rw !node_of_opp; solve_shape|].
    iApply wp_bind. iApply (wp_wand with "[HI Hpo Hpd]").
    { iApply (rotate_step (P := fun _ => True) (opp d) with "HI Hpo"); [done|done|done|]. rw opp_opp. iExact "Hpd". }
    rw opp_opp. iIntros (_) "(Hpo & Hpd & HI)". iApply wp_ret.
    destruct (rb_as_node d N Black h HN) as (y' & YN & YF & EN & cn & cf & HYN & HYF).
    assert (y' = y) as -> by (assert (ptr N = ptr N) as E by done; rw {2}EN ptr_node in E; simpl in E; congruence).
    assert (inorder (plug ((d, Black, p, node_of d Red q N SF) :: k) t) =
            inorder (plug ((d, Red, p, node_of d Black y YN YF) :: (d, Black, q, SF) :: k) t)) as EI.
    { cbn [plug]. apply inorder_plug. rw -EN. rw -(inorder_rotate d Black Red Black Red). done. }
    rw EI.
    iApply (wp_wand with "[-]").
    + iApply (wp_erase_black d root ((d, Black, q, SF) :: k) Red p y t YN YF h with "[-Ht HI] Ht [HI]"); [done|eassumption|eassumption| | |].
      * constructor; [rw -EN; exact HN|]. econstructor; [exact HF|]. exact Hk'.
      * cbn [ctx_at ctxp]. rw -EN. iFrame. done.
      * iApply (reshape aug I (fun _ => True) with "HI"). cbn [plug]. rw !node_of_opp -EN. solve_shape.
    + iIntros (r) "H". destruct r as [[n' par']|]; [|iExact "H"]. iDestruct "H" as (T [H _]) "_". discriminate H.
  - destruct Hch as (cn & cf & HN & HF). cbn [ctx_at]. rw tree_at_node ptr_node.
    iDestruct "Hk" as "(%Hp & Hp & Hpd & Hpo & (%Hq & Hq & Hq') & Hk)".
    iApply wp_bind. iApply (wp_rb_is_red with "Hq"); [by right|]. iIntros "Hq". iApply wp_bind. iApply wp_ret.
    iApply (wp_erase_black with "[-Ht HI] Ht HI"); [done|eassumption|eassumption|done|].
    cbn [ctx_at]. rw tree_at_node ptr_node. iFrame. done.
Qed.

Lemma wp_erase_loop root fuel : forall k t h, k <> [] -> rb t Black h -> rbk k Black (S h) -> (length k <= fuel)%nat ->
  ctx_at root k (ptr t) -∗ tree_at (ctxp k) t -∗ I (plug k t) -∗
  wp (rb_erase_color_loop aug fuel root (ptr t) (ctxp k)) (fun _ => insert_post_aug I root (inorder (plug k t))).
Proof.
  induction fuel as [|fuel IH]; intros k t h Hne Ht Hk Hf; (destruct k as [|[[[d c] p] s] k]; [done|]); simpl in Hf; [lia|].
  iIntros "Hk Ht HI". cbn [rb_erase_color_loop ctxp].
  assert (exists cs, rb s cs (S h)) as [cs Hs] by (inversion Hk; subst; eauto).
  iAssert (∀ r, erase_side_post root (inorder (plug ((d, c, p, s) :: k) t)) c k h r -∗
    wp (match r with None => mret tt | Some (node, parent) => rb_erase_color_loop aug fuel root node parent end)
       (fun _ => insert_post_aug I root (inorder (plug ((d, c, p, s) :: k) t))))%I as "Hcont".
  { iIntros (r) "H". destruct r as [[n par]|]; [|by iApply wp_ret].
    iDestruct "H" as (T (_ & -> & -> & Hk0 & HT & HkT & E)) "(Hk & Ht & HI)". rw -E.
    iApply (IH k T (S h) with "Hk Ht HI"); [done|done|done|lia]. }
  iAssert (ctx_at root ((d, c, p, s) :: k) (ptr t) -∗ tree_at p t -∗ I (plug ((d, c, p, s) :: k) t) -∗
    wp (rb_erase_side aug (off d) (off (opp d)) root p (ptr s)) (fun r =>
      wp (match r with None => mret tt | Some (node, parent) => rb_erase_color_loop aug fuel root node parent end)
         (fun _ => insert_post_aug I root (inorder (plug ((d, c, p, s) :: k) t)))))%I with "[Hcont]" as "Hside".
  { iIntros "Hk Ht HI". iApply (wp_wand with "[Hk Ht HI]"); [|iExact "Hcont"]. iApply (wp_erase_side with "Hk Ht HI"); eassumption. }
  cbn [ctx_at ctxp]. iDestruct "Hk" as "(%Hp & Hp & Hpd & Hpo & Hs & Hk)".
  destruct d; simpl off.
  - wp_ld "Hpo". iAssert ⌜(ptr t =? ptr s) = false⌝%I as %E.
    { destruct s as [|c1 q s1 s2]; [exfalso; inversion Hs|]. iDestruct "Hs" as "(%Hq & Hs & _)". simpl.
      destruct t as [|ct n a b]; simpl; [iPureIntro; rw Z.eqb_sym; apply addr_ok_ne, Hq|].
      iDestruct "Ht" as "(_ & Ht & _)". iDestruct (cell_ne with "Ht Hs") as %Hn. iPureIntro. apply Z.eqb_neq. exact Hn. }
    rw E. simpl negb. cbn iota. iApply wp_bind. iApply ("Hside" with "[-Ht HI] Ht HI"). iFrame. done.
  - wp_ld "Hpd". rw Z.eqb_refl. simpl negb. cbn iota. iApply wp_bind. wp_ld "Hpo".
    iApply ("Hside" with "[-Ht HI] Ht HI"). iFrame. done.
Qed.
End Erase.

(** ** Removal *)

(** The nodes before and after the hole. *)
Fixpoint ctx_before (k : ctx) : list Z :=
  match k with
  | [] => []
  | (d, _, p, s) :: k' => ctx_before k' ++ match d with L => [] | R => inorder s ++ [p] end
  end.
Fixpoint ctx_after (k : ctx) : list Z :=
  match k with
  | [] => []
  | (d, _, p, s) :: k' => match d with L => p :: inorder s | R => [] end ++ ctx_after k'
  end.

Lemma inorder_ctx k : forall t, inorder (plug k t) = ctx_before k ++ inorder t ++ ctx_after k.
Proof.
  induction k as [|[[[d c] p] s] k IH]; intros t; simpl; [by rw app_nil_r|].
  rw IH. destruct d; simpl; rw -!app_assoc //=.
Qed.

Lemma plug_app k1 k2 t : plug (k1 ++ k2) t = plug k2 (plug k1 t).
Proof. revert t. induction k1 as [|[[[d c] p] s] k1 IH]; intros t; simpl; [done|]. apply IH. Qed.

Lemma rb_node_inv d c p a b c' h : rb (node_of d c p a b) c' h -> c = c' /\
  match c with
  | Red => rb a Black h /\ rb b Black h
  | Black => exists ca cb h', h = S h' /\ rb a ca h' /\ rb b cb h'
  end.
Proof. destruct d; inversion 1; subst; (split; [reflexivity|]); eauto 10. Qed.

(** Every position of a red-black tree fits its context. *)
Lemma rbk_of_plug k : forall t h, rb (plug k t) Black h -> exists c h', rbk k c h' /\ rb t c h'.
Proof.
  induction k as [|[[[d c] p] s] k IH]; intros t h H; simpl in H.
  - exists Black, h. split; [constructor|exact H].
  - destruct (IH _ _ H) as (c' & h' & Hk & Ht). apply rb_node_inv in Ht as [<- Ht]. destruct c.
    + destruct Ht. exists Black, h'. split; [constructor; assumption|assumption].
    + destruct Ht as (ca & cb & h2 & -> & Ha & Hb). exists ca, h2. split; [econstructor; eassumption|assumption].
Qed.

(** Contexts do not depend on the addresses of their nodes. *)
Lemma rbk_rename k1 : forall d c p p' s k2 c' h, rbk (k1 ++ (d, c, p, s) :: k2) c' h -> rbk (k1 ++ (d, c, p', s) :: k2) c' h.
Proof.
  induction k1 as [|[[[d1 c1] p1] s1] k1 IH]; intros d c p p' s k2 c' h H; inversion H; subst; simpl;
    econstructor; eauto.
Qed.

(** A node without left child that is replaced by its right child. *)
Lemma splice_cases d c n r h : rb (node_of d c n Leaf r) c h ->
  (r = Leaf /\ c = Red /\ h = 0%nat) \/ (r = Leaf /\ c = Black /\ h = 1%nat) \/
  (tcolor r = Red /\ c = Black /\ h = 1%nat /\ rb (recolor Black r) Black 1).
Proof.
  intros H. apply rb_node_inv in H as [_ H]. destruct c.
  - destruct H as [Hl Hr]. inversion Hl; subst. inversion Hr; subst. auto.
  - destruct H as (ca & cb & h' & -> & Hl & Hr). inversion Hl; subst. inversion Hr; subst; [auto|].
    right. right. split; [reflexivity|]. split; [reflexivity|]. split; [reflexivity|]. econstructor; eassumption.
Qed.

(** Part of a path: frames whose topmost parent is [par]. *)
Definition segp (par : Z) (k : ctx) : Z := match k with [] => par | (_, _, p, _) :: _ => p end.
Fixpoint seg_at (par : Z) (k : ctx) (child : Z) : hprop :=
  match k with
  | [] => emp
  | (d, c, p, s) :: k' =>
      ⌜addr_ok p⌝ ∗ p ↦ pcval (segp par k') c ∗ (p + off d) ↦ child ∗ (p + off (opp d)) ↦ ptr s ∗
      tree_at p s ∗ seg_at par k' p
  end%I.
(** The address at the top of the part. *)
Fixpoint seg_top (k : ctx) (child : Z) : Z := match k with [] => child | (_, _, p, _) :: k' => seg_top k' p end.

Lemma seg_top_plug k : forall t, ptr (plug k t) = seg_top k (ptr t).
Proof. induction k as [|[[[d c] p] s] k IH]; intros t; simpl; [done|]. rw IH ptr_node. done. Qed.

Lemma seg_top_app k1 k2 : forall child, seg_top (k1 ++ k2) child = seg_top k2 (seg_top k1 child).
Proof. induction k1 as [|[[[d c] p] s] k1 IH]; intros child; simpl; [done|]. apply IH. Qed.

Lemma ctxp_app k1 k2 : ctxp (k1 ++ k2) = segp (ctxp k2) k1.
Proof. destruct k1 as [|[[[d c] p] s] k1]; reflexivity. Qed.

Lemma ctx_at_app root k1 k2 : forall child,
  ctx_at root (k1 ++ k2) child ⊣⊢ seg_at (ctxp k2) k1 child ∗ ctx_at root k2 (seg_top k1 child).
Proof.
  induction k1 as [|[[[d c] p] s] k1 IH]; intros child; simpl; [iSplit; [iIntros "$"|iIntros "[_ $]"]|].
  rw IH ctxp_app. iSplit.
  - iIntros "($ & $ & $ & $ & $ & $ & $)".
  - iIntros "(($ & $ & $ & $ & $ & $) & $)".
Qed.

Lemma segp_app par k1 k2 : segp par (k1 ++ k2) = segp (segp par k2) k1.
Proof. destruct k1 as [|[[[d c] p] s] k1]; reflexivity. Qed.

Lemma seg_at_app par k1 k2 : forall child,
  seg_at par (k1 ++ k2) child ⊣⊢ seg_at (segp par k2) k1 child ∗ seg_at par k2 (seg_top k1 child).
Proof.
  induction k1 as [|[[[d c] p] s] k1 IH]; intros child; simpl; [iSplit; [iIntros "$"|iIntros "[_ $]"]|].
  rw IH segp_app. iSplit.
  - iIntros "($ & $ & $ & $ & $ & $ & $)".
  - iIntros "(($ & $ & $ & $ & $ & $) & $)".
Qed.

Lemma tree_at_plug par k : forall t, tree_at par (plug k t) ⊣⊢ seg_at par k (ptr t) ∗ tree_at (segp par k) t.
Proof.
  induction k as [|[[[d c] p] s] k IH]; intros t; simpl; [iSplit; [iIntros "$"|iIntros "[_ $]"]|].
  rw IH ptr_node tree_at_node. iSplit.
  - iIntros "($ & $ & $ & $ & $ & $ & $)".
  - iIntros "(($ & $ & $ & $ & $ & $) & $)".
Qed.

Fixpoint depth (t : tree) : nat := match t with Leaf => 0 | Node _ _ l r => S (depth l `max` depth r) end.
Lemma depth_plug k : forall t, (length k + depth t <= depth (plug k t))%nat.
Proof.
  induction k as [|[[[d c] p] s] k IH]; intros t; simpl; [lia|].
  etransitivity; [|apply IH]. destruct d; simpl; lia.
Qed.

Lemma wp_leftmost fuel : forall t par Q, t <> Leaf -> (depth t <= fuel)%nat ->
  tree_at par t -∗
  (∀ k c s sr, ⌜t = plug k (Node c s Leaf sr) /\ inorder t = s :: inorder (plug k sr) /\
                  Forall (fun f => f.1.1.1 = L) k⌝ -∗
     seg_at par k s -∗ tree_at (segp par k) (Node c s Leaf sr) -∗ Q (segp par k, s)) -∗
  wp (leftmost_loop fuel par (ptr t)) Q.
Proof.
  induction fuel as [|fuel IH]; intros t par Q Ht Hf; (destruct t as [|c p l r]; [done|]); simpl in Hf; [lia|].
  iIntros "Ht HQ". cbn [leftmost_loop tree_at ptr]. iDestruct "Ht" as "(%Hp & Hp & Hl & Hr & Tl & Tr)".
  wp_ld "Hl". destruct l as [|cl pl ll lr].
  - iApply wp_ret. iApply ("HQ" $! [] c p r); [iPureIntro; auto|done|]. simpl. by iFrame.
  - iAssert ⌜addr_ok pl⌝%I as %Hpl; [iDestruct "Tl" as "($ & _)"|]. simpl ptr. rw addr_ok_ne //.
    iApply (IH (Node cl pl ll lr) p with "Tl"); [done|simpl in *; lia|].
    iIntros (k c' s sr (E1 & E2 & E3)) "Hseg Ht".
    iSpecialize ("HQ" $! (k ++ [(L, c, p, r)]) c' s sr). rw segp_app. simpl segp.
    iApply ("HQ" with "[] [Hseg Hp Hl Hr Tr] Ht").
    + iPureIntro. rw !plug_app. simpl. split; [congruence|]. simpl in E2. rw E2. split; [done|].
      apply Forall_app. split; [exact E3|]. constructor; [reflexivity|constructor].
    + rw seg_at_app. iFrame "Hseg". cbn [seg_at].
      change s with (ptr (Node c' s Leaf sr)). rw -seg_top_plug -E1. iFrame. done.
Qed.

Lemma seg_parent_ok par k child : addr_ok par -> seg_at par k child -∗ ⌜addr_ok (segp par k)⌝.
Proof.
  iIntros (Hp) "H". destruct k as [|[[[d c] p] s] k]; [done|]. cbn [seg_at segp]. iDestruct "H" as "($ & _)".
Qed.

(** The left child at the end of a path of left children is replaced. *)
Lemma wp_set_leftmost q k child v Q : Forall (fun f => f.1.1.1 = L) k ->
  (q + off_left) ↦ seg_top k child -∗ seg_at q k child -∗
  ((q + off_left) ↦ seg_top k v -∗ seg_at q k v -∗ Q tt) -∗
  wp (st (segp q k + off_left) v) Q.
Proof.
  iIntros (Hk) "Hq Hs HQ". destruct k as [|[[[d c] p] s] k]; cbn [seg_top seg_at segp].
  - iApply (wp_st with "Hq"). iIntros "Hq". iApply ("HQ" with "Hq Hs").
  - inversion Hk; subst. simpl in H1. subst d. iDestruct "Hs" as "(%Hp & H1 & H2 & H3)". cbn [off opp].
    iApply (wp_st with "H2"). iIntros "H2". iApply ("HQ" with "Hq"). by iFrame.
Qed.

(** The memory of a node that is in no tree. *)
Definition raw_node (n : Z) : hprop := (∃ a b c, n ↦ a ∗ (n + off_left) ↦ b ∗ (n + off_right) ↦ c)%I.

(** What the callbacks promise when the node [n] is removed: [I0] is the augmented data before and [I1] after, for paths of at most
    [D] nodes.  A node with at most one child is replaced by it and the data above is repaired; otherwise the successor [s] at the
    end of the path [K] gets the data of the node, then the path is repaired up to [s], then the rest from [s] on. *)
Class EraseSpec (n : Z) (copy propagate : Z -> Z -> prog unit) (I0 I1 : tree -> hprop) (D : nat) (Copied Repaired : ctx -> ctx -> Z -> tree -> tree -> hprop) : Prop := {
  erase_one root k d c t : (length k < D)%nat -> I0 (plug k (node_of d c n Leaf t)) -∗ rbtree root (plug k (recolor c t)) -∗
    wp (propagate (ctxp k) 0) (fun _ => rbtree root (plug k (recolor c t)) ∗ I1 (plug k (recolor c t)))%I;
  erase_copy k K c l s cs sr : Forall (fun f => f.1.1.1 = L) K -> I0 (plug k (Node c n l (plug K (Node cs s Leaf sr)))) -∗ wp (copy n s) (fun _ => Copied k K s l sr);
  erase_segment k K s l sr : (length K < D)%nat -> K <> [] -> addr_ok s -> Copied k K s l sr -∗ seg_at s K (ptr sr) -∗
    wp (propagate (segp s K) s) (fun _ => seg_at s K (ptr sr) ∗ Repaired k K s l sr)%I;
  erase_adjacent k s l sr : Copied k [] s l sr ⊢ Repaired k [] s l sr;
  erase_top root k K c s l sr sr' : (length k < D)%nat -> shape sr' = shape sr -> Repaired k K s l sr -∗ rbtree root (plug (K ++ (R, c, s, l) :: k) sr') -∗
    wp (propagate s 0) (fun _ => rbtree root (plug (K ++ (R, c, s, l) :: k) sr') ∗ I1 (plug (K ++ (R, c, s, l) :: k) sr'))%I }.
#[export] Instance dummy_erase_spec n D : EraseSpec n dummy_copy dummy_propagate (fun _ => emp%I) (fun _ => emp%I) D (fun _ _ _ _ _ => emp%I) (fun _ _ _ _ _ => emp%I).
Proof.
  split.
  - iIntros (root k d c t _) "_ Ht". iApply wp_ret. by iFrame.
  - iIntros (k K c l s cs sr _) "_". by iApply wp_ret.
  - iIntros (k K s l sr _ _ _) "_ Ht". iApply wp_ret. by iFrame.
  - done.
  - iIntros (root k K c s l sr sr' _ _) "_ Ht". iApply wp_ret. by iFrame.
Qed.

Section Remove.
Context (n : Z) (copy propagate : Z -> Z -> prog unit) (I0 I1 : tree -> hprop) (D : nat) (Copied Repaired : ctx -> ctx -> Z -> tree -> tree -> hprop).
Context `{!EraseSpec n copy propagate I0 I1 D Copied Repaired}.

(** After the node has been unlinked: either the tree is a red-black tree, or
    the leaf below the returned parent lacks a black node. *)
Definition unlinked (root : Z) (nodes : list Z) (r : Z) : hprop :=
  (⌜r = 0⌝ ∗ insert_post_aug I1 root nodes ∨
   ∃ k, ⌜r = ctxp k /\ addr_ok r /\ k <> [] /\ rbk k Black 1 /\ inorder (plug k Leaf) = nodes⌝ ∗ ctx_at root k 0 ∗ I1 (plug k Leaf))%I.

(** A node of colour [c] with at most the child [r] has been replaced by [r]. *)
Lemma unlinked_child root k c r h nodes : rbk k c h -> tcolor r = Red -> c = Black -> h = 1%nat ->
  rb (recolor Black r) Black 1 -> inorder (plug k r) = nodes ->
  rbtree root (plug k (recolor c r)) -∗ I1 (plug k (recolor c r)) -∗ unlinked root nodes 0.
Proof.
  iIntros (Hk Hc -> -> Hr E) "Ht HI". iLeft. iSplitR; [done|]. destruct (rbk_plug k _ _ _ Hk Hr) as [h' H].
  iExists _, h'. iFrame. iPureIntro. split; [exact H|]. rw -E. apply inorder_plug, inorder_recolor.
Qed.

Lemma unlinked_leaf root k c h nodes : rbk k c h -> (c = Red /\ h = 0%nat \/ c = Black /\ h = 1%nat) ->
  inorder (plug k Leaf) = nodes ->
  rbtree root (plug k Leaf) -∗ I1 (plug k Leaf) -∗ unlinked root nodes (match c with Black => ctxp k | Red => 0 end).
Proof.
  iIntros (Hk [[-> ->]|[-> ->]] E) "Ht HI".
  - iLeft. iSplitR; [done|]. destruct (rbk_plug k Leaf Black 0 (rbk_any _ _ _ Hk) rb_leaf) as [h' H]. iExists _, h'. by iFrame.
  - destruct k as [|[[[d c] p] s] k].
    + iLeft. iSplitR; [done|]. iExists Leaf, 0%nat. iFrame. iPureIntro. split; [constructor|exact E].
    + iRight. iExists ((d, c, p, s) :: k). rewrite <- rbtree_plug. iDestruct "Ht" as "[Hk _]". iAssert ⌜addr_ok p⌝%I as %Hp; [iDestruct "Hk" as "($ & _)"|].
      iFrame. iPureIntro. auto.
Qed.

Lemma is_black_pcval par c : parent_ok par -> __rb_is_black (pcval par c) = match c with Black => true | Red => false end.
Proof. intros H. unfold __rb_is_black. rw pcval_color //. by destruct c. Qed.

(** Replacing [n], which has two children, by its successor [s]: the steps after
    [s] has been taken out of the right subtree, where [K] is the path from the
    place of [s] to the right child and [sr] what is put there. *)
Lemma wp_erase_replace root k c l s cs sr K u1 u2 :
  (length k < D)%nat -> addr_ok n -> addr_ok s -> parent_ok u1 -> l <> Leaf -> rbk (K ++ (R, c, s, l) :: k) cs (match tcolor sr with Red => 1 | Black => match cs with Black => 1 | Red => 0 end end) ->
  (tcolor sr = Red -> cs = Black /\ rb (recolor Black sr) Black 1) -> (tcolor sr = Black -> sr = Leaf) ->
  Repaired k K s l sr -∗ n ↦ pcval (ctxp k) c -∗ (n + off_left) ↦ ptr l -∗ tree_at n l -∗ ctx_at root k n -∗
  s ↦ pcval u1 cs -∗ (s + off_left) ↦ 0 -∗ (s + off_right) ↦ seg_top K (ptr sr) -∗ seg_at s K (ptr sr) -∗ tree_at u2 sr -∗
  wp (tmp ← rb_left n;
      st (s + off_left) tmp;;
      rb_set_parent tmp s;;
      pc ← parent_color n;
      __rb_change_child n s (__rb_parent pc) root;;
      rebalance ←
        (if ptr sr =? 0 then b ← rb_is_black s; mret (if (b : bool) then segp s K else 0)
         else rb_set_parent_color (ptr sr) (segp s K) RB_BLACK;; mret 0);
      st s pc;;
      propagate s 0;;
      mret rebalance)
    (fun r => unlinked root (inorder (plug (K ++ (R, c, s, l) :: k) sr)) r ∗
       n ↦ pcval (ctxp k) c ∗ (n + off_left) ↦ ptr l)%I.
Proof.
  iIntros (HD Hn Hs Hu1 Hl Hk Hred Hblack) "HI Hn Hnl Tl Hk Hs Hsl Hsr Hseg Tr". iDestruct (ctx_parent_ok with "Hk") as %Hkp.
  wp_ld "Hnl". wp_st "Hsl". destruct l as [|cl pl ll lr]; [done|]. cbn [tree_at ptr].
  iDestruct "Tl" as "(%Hpl & Hpl & Tl)". iApply wp_bind. iApply (wp_rb_set_parent with "Hpl"); [by right|]. iIntros "Hpl".
  wp_ld "Hn". rw pcval_parent //. iApply wp_bind. iApply (wp_change_child with "Hn Hk"); [done|]. iIntros "Hn Hk".
  iAssert (s ↦ pcval (ctxp k) c -∗ seg_at s K (ptr sr) -∗ ctx_at root (K ++ (R, c, s, Node cl pl ll lr) :: k) (ptr sr))%I
    with "[Hsl Hsr Hpl Tl Hk]" as "HK".
  { iIntros "Hs Hseg". rw ctx_at_app. cbn [ctx_at ctxp tree_at ptr off opp]. iFrame. done. }
  iApply wp_bind. destruct sr as [|cr q a b]; cbn [ptr tcolor tree_at].
  - simpl Z.eqb. cbn iota. iApply wp_bind. iApply (wp_rb_is_black with "Hs"); [done|]. iIntros "Hs". iApply wp_ret.
    wp_st "Hs". iDestruct ("HK" with "Hs Hseg") as "HK".
    iApply wp_bind. iApply (wp_wand with "[HK HI]"). { iApply (erase_top root k K c s _ Leaf Leaf with "HI"); [done|done|]. iApply (plug_close _ _ Leaf with "HK"). done. }
    iIntros (_) "[Ht HI]". iApply wp_ret. iFrame "Hn Hnl".
    replace (if match cs with Red => false | Black => true end then segp s K else 0)
      with (match cs with Black => ctxp (K ++ (R, c, s, Node cl pl ll lr) :: k) | Red => 0 end)
      by (rw ctxp_app; destruct cs; reflexivity).
    iApply (unlinked_leaf with "Ht HI"); [exact Hk|destruct cs; auto|reflexivity].
  - iDestruct "Tr" as "(%Hq & Hq & Tr)". rw addr_ok_ne //. wp_st "Hq". iApply wp_ret.
    wp_st "Hs". iDestruct ("HK" with "Hs Hseg") as "HK".
    destruct cr; [|specialize (Hblack eq_refl); discriminate]. destruct (Hred eq_refl) as [-> Hr].
    iApply wp_bind. iApply (wp_wand with "[HK HI Hq Tr]").
    { iApply (erase_top root k K c s _ (Node Red q a b) (Node Black q a b) with "HI"); [done|done|]. iApply (plug_close _ _ (Node Black q a b) with "HK"). cbn [tree_at]. rw ctxp_app. by iFrame. }
    iIntros (_) "[Ht HI]". iApply wp_ret. iFrame "Hn Hnl".
    iApply (unlinked_child root _ Black (Node Red q a b) 1 with "Ht HI"); [exact Hk|done|done|done|exact Hr|done].
Qed.

Lemma splice_facts d cs s sr K c p l k hs : rbk (K ++ (R, c, p, l) :: k) cs hs -> rb (node_of d cs s Leaf sr) cs hs -> forall p',
  rbk (K ++ (R, c, p', l) :: k) cs (match tcolor sr with Red => 1 | Black => match cs with Black => 1 | Red => 0 end end) /\
  (tcolor sr = Red -> cs = Black /\ rb (recolor Black sr) Black 1) /\ (tcolor sr = Black -> sr = Leaf).
Proof.
  intros Hk Hs p'. apply (rbk_rename _ _ _ _ p') in Hk.
  destruct (splice_cases _ _ _ _ _ Hs) as [(-> & -> & ->)|[(-> & -> & ->)|(Hc & -> & -> & Hr)]]; simpl.
  - split; [exact Hk|]. split; [discriminate|reflexivity].
  - split; [exact Hk|]. split; [discriminate|reflexivity].
  - rw Hc. split; [exact Hk|]. split; [auto|congruence].
Qed.

Lemma wp_erase_augmented fuel root k c l r h : rb (plug k (Node c n l r)) Black h -> (depth r <= fuel)%nat -> (length k < D)%nat -> (depth r <= D)%nat ->
  ctx_at root k n -∗ tree_at (ctxp k) (Node c n l r) -∗ I0 (plug k (Node c n l r)) -∗
  wp (__rb_erase_augmented copy propagate fuel n root)
    (fun x => unlinked root (ctx_before k ++ (inorder l ++ inorder r) ++ ctx_after k) x ∗ raw_node n)%I.
Proof.
  iIntros (Hrb Hd HDk HDr) "Hk Ht HI". destruct (rbk_of_plug _ _ _ Hrb) as (c0 & h0 & Hk & Ht).
  assert (c0 = c) as -> by (inversion Ht; reflexivity).
  iDestruct (ctx_parent_ok with "Hk") as %Hkp. cbn [tree_at]. iDestruct "Ht" as "(%Hn & Hn & Hnl & Hnr & Tl & Tr)".
  unfold __rb_erase_augmented. wp_ld "Hnr". wp_ld "Hnl".
  destruct l as [|cl pl ll lr].
  { (* no left child *)
    cbn [ptr]. simpl Z.eqb. cbn iota. wp_ld "Hn". rw pcval_parent //. cbn zeta.
    iApply wp_bind. iApply (wp_change_child with "Hn Hk"); [done|]. iIntros "Hn Hk".
    destruct r as [|cr q a b]; cbn [ptr].
    - simpl Z.eqb. cbn iota. iApply wp_bind. iApply wp_ret. iApply wp_bind.
      iApply (wp_wand with "[Hk HI]"); [iApply (erase_one root k L c Leaf with "HI"); [done|]; iApply (plug_close _ _ Leaf with "Hk"); done|]. iIntros (_) "[Ht HI]". iApply wp_ret.
      rw is_black_pcval //. iSplitL "Ht HI"; [|iExists _, _, _; iFrame].
      replace (if match c with Red => false | Black => true end then ctxp k else 0)
        with (match c with Black => ctxp k | Red => 0 end) by (destruct c; reflexivity).
      iApply (unlinked_leaf with "Ht HI"); [exact Hk| |by rw inorder_ctx].
      destruct (splice_cases L c n Leaf h0 Ht) as [(_ & ? & ?)|[(_ & ? & ?)|(? & _)]]; [auto|auto|discriminate].
    - cbn [tree_at]. iDestruct "Tr" as "(%Hq & Hq & Tr)". rw addr_ok_ne //. iApply wp_bind. wp_st "Hq". iApply wp_ret. iApply wp_bind.
      iApply (wp_wand with "[Hk HI Hq Tr]"); [iApply (erase_one root k L c (Node cr q a b) with "HI"); [done|]; iApply (plug_close _ _ (Node c q a b) with "Hk"); cbn [tree_at]; by iFrame|]. iIntros (_) "[Ht HI]". iApply wp_ret.
      iSplitR "Hn Hnl Hnr"; [|iExists _, _, _; iFrame].
      destruct (splice_cases L c n (Node cr q a b) h0 Ht) as [(? & _)|[(? & _)|(Hc & -> & -> & Hr)]]; [discriminate..|].
      iApply (unlinked_child root k Black (Node cr q a b) 1 with "Ht HI"); [done|done|done|done|done|by rw inorder_ctx]. }
  iAssert ⌜addr_ok pl⌝%I as %Hpl; [iDestruct "Tl" as "($ & _)"|]. cbn [ptr]. rw addr_ok_ne //.
  destruct r as [|cr q a b].
  { (* no right child *)
    cbn [ptr]. simpl Z.eqb. cbn iota. wp_ld "Hn". rw pcval_parent //. cbn zeta. cbn [tree_at].
    iDestruct "Tl" as "(_ & Hpl & Tl)". wp_st "Hpl". iApply wp_bind.
    iApply (wp_change_child with "Hn Hk"); [done|]. iIntros "Hn Hk".
    iApply wp_bind. iApply (wp_wand with "[Hk HI Hpl Tl]"); [iApply (erase_one root k R c (Node cl pl ll lr) with "HI"); [done|]; iApply (plug_close _ _ (Node c pl ll lr) with "Hk"); cbn [tree_at]; by iFrame|]. iIntros (_) "[Ht HI]". iApply wp_ret.
    iSplitR "Hn Hnl Hnr"; [|iExists _, _, _; iFrame].
    destruct (splice_cases R c n (Node cl pl ll lr) h0 Ht) as [(? & _)|[(? & _)|(Hc & -> & -> & Hr)]]; [discriminate..|].
    iApply (unlinked_child root k Black (Node cl pl ll lr) 1 with "Ht HI"); [done|done|done|done|done|]. rw inorder_ctx app_nil_r. done. }
  (* two children *)
  cbn [ptr]. cbn [tree_at]. iDestruct "Tr" as "(%Hq & Hq & Hql & Hqr & Ta & Tb)". rw addr_ok_ne //. wp_ld "Hql".
  set (l := Node cl pl ll lr) in *. 
  destruct a as [|ca pa al ar].
  - (* the right child is the successor *)
    cbn [ptr]. simpl Z.eqb. cbn iota. iApply wp_bind. wp_ld "Hqr". iApply wp_bind. iApply (wp_wand with "[HI]"); [by iApply (erase_copy k [] c l q cr b with "HI"); constructor|]. iIntros (_) "HI". rw erase_adjacent. iApply wp_ret.
    assert (plug k (Node c n l (Node cr q Leaf b)) = plug ((R, c, n, l) :: k) (Node cr q Leaf b)) as E0 by reflexivity.
    rw E0 in Hrb. destruct (rbk_of_plug _ _ _ Hrb) as (c1 & h1 & Hk1 & Ht1).
    assert (c1 = cr) as -> by (inversion Ht1; reflexivity).
    destruct (splice_facts L cr q b [] c n l k h1 Hk1 Ht1 q) as (F1 & F2 & F3).
    iApply (wp_wand with "[HI Hn Hnl Tl Hk Hq Hql Hqr Tb]").
    + iApply (wp_erase_replace root k c l q cr b [] n q with "HI Hn Hnl Tl Hk Hq Hql [Hqr] [] Tb"); try done.
      by right.
    + iIntros (x) "(HU & Hn & Hnl)". iSplitR "Hn Hnl Hnr"; [|iExists _, _, _; iFrame].
      simpl. rw inorder_ctx. simpl. rw -!app_assoc. done.
  - (* the successor is further down *)
    iAssert ⌜addr_ok pa⌝%I as %Hpa; [iDestruct "Ta" as "($ & _)"|]. cbn [ptr]. rw addr_ok_ne //.
    iApply wp_bind. iApply wp_bind. set (a := Node ca pa al ar) in *. change pa with (ptr a).
    iApply (wp_leftmost fuel a q with "Ta"); [done|simpl in Hd; simpl; lia|].
    iIntros (K cs s sr (E1 & E2 & E3)) "Hseg Ts". cbn [tree_at].
    iDestruct "Ts" as "(%Hs & Hs & Hsl & Hsr & _ & Tsr)".
    iDestruct (seg_parent_ok with "Hseg") as %Hsp; [done|].
    wp_ld "Hsr". iApply wp_bind. rw E1 seg_top_plug. simpl ptr.
    iApply (wp_set_leftmost with "Hql Hseg"); [done|]. iIntros "Hql Hseg".
    wp_st "Hsr". iApply wp_bind. iApply (wp_rb_set_parent with "Hq"); [by right|]. iIntros "Hq".
    set (K' := K ++ [(L, cr, q, b)]).
    assert (plug K' (Node cs s Leaf sr) = Node cr q a b) as E1' by (unfold K'; rw plug_app /= E1 //).
    iApply wp_bind. iApply (wp_wand with "[HI]"); [iApply (erase_copy k K' c l s cs sr); [apply Forall_app; split; [exact E3|]; constructor; [reflexivity|constructor]|]; by rw E1' E1|]. iIntros (_) "HI".
    assert (segp q K = segp s K') as Eseg by (unfold K'; rw segp_app //).
    iApply wp_bind. rw Eseg. iApply (wp_wand with "[HI Hseg Hq Hql Hqr Tb]").
    { iApply (erase_segment k K' s l sr with "HI"); [pose proof (depth_plug K' (Node cs s Leaf sr)) as Hdp; rw E1' in Hdp; simpl in Hdp, HDr; lia|by destruct K|done|]. unfold K'. rw seg_at_app. cbn [segp seg_at off opp]. iFrame. done. }
    iIntros (_) "[Hseg HI]". iApply wp_ret. cbn iota beta.
    assert (plug k (Node c n l (Node cr q a b)) = plug (K' ++ (R, c, n, l) :: k) (Node cs s Leaf sr)) as E0
      by (rw plug_app /= E1' //).
    rw E0 in Hrb. destruct (rbk_of_plug _ _ _ Hrb) as (c1 & h1 & Hk1 & Ht1).
    assert (c1 = cs) as -> by (inversion Ht1; reflexivity).
    destruct (splice_facts L cs s sr K' c n l k h1 Hk1 Ht1 s) as (F1 & F2 & F3).
    assert (seg_top K' (ptr sr) = q) as Etop
      by (unfold K'; rw seg_top_app //).
    iApply (wp_wand with "[HI Hn Hnl Tl Hk Hs Hsl Hsr Hseg Tsr]").
    + iApply (wp_erase_replace root k c l s cs sr K' (segp s K') s with "HI Hn Hnl Tl Hk Hs Hsl [Hsr] Hseg Tsr"); try done.
      * right. by rw -Eseg.
      * by rw Etop.
    + iIntros (x) "(HU & Hn & Hnl)". iSplitR "Hn Hnl Hnr"; [|iExists _, _, _; iFrame].
      unfold K'. rw -app_assoc plug_app inorder_ctx. simpl. rw -E1 E2. simpl. rw -!app_assoc /= -!app_assoc. done.
Qed.
End Remove.
