(* ===== verification/RbTreeSpec.v ===== *)
(** * The contract of the red-black trees

    Function-level statements about [RbTree]: insertion, removal, iteration
    and the cached leftmost node, run on any memory that holds a red-black
    tree.  The loops end within twice the logarithm of the number of nodes. *)

From Stdlib Require Import ZArith Lia.
From stdpp Require Import base tactics numbers list strings gmap.
From iris.proofmode Require Import proofmode.
From S2P Require Import Prelude HeapLogic RbTree RbTreeProofs.
#[global] Open Scope Z_scope.

(** ** Depth *)

Definition size (t : tree) : nat := length (inorder t).

Lemma size_node c p l r : size (Node c p l r) = S (size l + size r).
Proof. unfold size. simpl. rw length_app /=. lia. Qed.

Lemma rb_depth t c h : rb t c h -> (depth t <= 2 * h + match c with Red => 1 | Black => 0 end)%nat.
Proof. induction 1; simpl; try destruct cl; try destruct cr; lia. Qed.

Lemma rb_size t c h : rb t c h -> (2 ^ h <= size t + 1)%nat.
Proof. induction 1; rw ?size_node /=; simpl Nat.pow; unfold size in *; simpl in *; lia. Qed.

(** The bound on the height of a red-black tree with [n] nodes. *)
Definition rb_bound (n : nat) : nat := 2 * Nat.log2 (n + 1).

Lemma rb_depth_log t h : rb t Black h -> (depth t <= rb_bound (size t))%nat.
Proof.
  intros H. pose proof (rb_depth _ _ _ H) as Hd. cbn iota in Hd. pose proof (rb_size _ _ _ H) as Hs.
  apply Nat.log2_le_mono in Hs. rw Nat.log2_pow2 in Hs; [|lia]. unfold rb_bound. lia.
Qed.

Lemma rb_bound_mono n m : (n <= m)%nat -> (rb_bound n <= rb_bound m)%nat.
Proof. intros H. unfold rb_bound. apply Nat.mul_le_mono_l, Nat.log2_le_mono. lia. Qed.

Lemma size_plug k t t' : (size t' <= size t)%nat -> (size (plug k t') <= size (plug k t))%nat.
Proof. unfold size. rw !inorder_ctx !length_app. lia. Qed.

Lemma size_plug_leaf k c p : size (plug k (Node c p Leaf Leaf)) = S (size (plug k Leaf)).
Proof. unfold size. rw !inorder_ctx !length_app. simpl. lia. Qed.

(** The path from a hole that lacks one black node. *)
Lemma rbk_length k : rbk k Black 1 -> (length k < rb_bound (S (size (plug k Leaf))))%nat.
Proof.
  intros H. destruct (rbk_plug k (Node Black 0 Leaf Leaf) Black 1 H) as [h Hrb]; [by repeat econstructor|].
  pose proof (rb_depth_log _ _ Hrb) as Hd. rw size_plug_leaf in Hd.
  pose proof (depth_plug k (Node Black 0 Leaf Leaf)). simpl in *. lia.
Qed.

(** ** Insertion *)

(** The address of the link that a path ends in. *)
Definition link_of (root : Z) (k : ctx) : Z :=
  match k with [] => root | (d, _, p, _) :: _ => p + off d end.

Lemma wp_link_node root k n : addr_ok n ->
  rbtree root (plug k Leaf) -∗ raw_node n -∗
  wp (rb_link_node n (ctxp k) (link_of root k))
    (fun _ => ctx_at root k n ∗ tree_at (ctxp k) (Node Red n Leaf Leaf))%I.
Proof.
  iIntros (Hn) "Ht (%a & %b & %c & Hn & Hl & Hr)". rw -rbtree_plug. iDestruct "Ht" as "[Hk _]".
  unfold rb_link_node. wp_st "Hn". wp_st "Hr". wp_st "Hl".
  destruct k as [|[[[d cp] p] s] k]; cbn [link_of ctx_at ctxp].
  - iApply (wp_st with "Hk"). iIntros "Hk". cbn [tree_at ptr]. rw pcval_red. by iFrame.
  - iDestruct "Hk" as "(%Hp & Hp & Hpd & Hk)". iApply (wp_st with "Hpd"). iIntros "Hpd".
    cbn [tree_at ptr]. rw pcval_red. by iFrame.
Qed.

Definition link_and_insert (fuel : nat) (n parent link root : Z) : prog unit :=
  rb_link_node n parent link;; rb_insert_color fuel n root.

Lemma wp_insert_color root k n h fuel : rb (plug k Leaf) Black h -> (rb_bound (size (plug k Leaf)) < fuel)%nat ->
  ctx_at root k n -∗ tree_at (ctxp k) (Node Red n Leaf Leaf) -∗
  wp (rb_insert_color fuel n root) (fun _ => insert_post root (ctx_before k ++ n :: ctx_after k)).
Proof.
  iIntros (Hrb Hf) "Hk Ht". unfold rb_insert_color, __rb_insert, rb_red_parent, parent_color.
  cbn [tree_at]. iDestruct "Ht" as "(%Hn & Hn & Ht)". wp_ld "Hn". rw pcval_red.
  destruct (rbk_of_plug _ _ _ Hrb) as (c & h' & Hk & Hl). inversion Hl; subst.
  change (n :: ctx_after k) with (inorder (Node Red n Leaf Leaf) ++ ctx_after k). rw -inorder_ctx.
  iApply (wp_insert_loop with "Hk [Hn Ht]"); [exact Hk|constructor|constructor| |].
  - pose proof (rb_depth_log _ _ Hrb). pose proof (depth_plug k Leaf). lia.
  - cbn [tree_at]. rw pcval_red. by iFrame.
Qed.

Lemma wp_link_and_insert root k n h fuel : addr_ok n -> rb (plug k Leaf) Black h ->
  (rb_bound (size (plug k Leaf)) < fuel)%nat ->
  rbtree root (plug k Leaf) ∗ raw_node n ⊢
  wp (link_and_insert fuel n (ctxp k) (link_of root k) root)
     (fun _ => insert_post root (ctx_before k ++ n :: ctx_after k)).
Proof.
  iIntros (Hn Hrb Hf) "[Ht Hn]". iApply wp_bind. iApply (wp_wand with "[Ht Hn]").
  { iApply (wp_link_node with "Ht Hn"). done. }
  iIntros (_) "[Hk Ht]". iApply (wp_insert_color with "Hk Ht"); done.
Qed.

(** What a memory holds, as a statement about the memory. *)
Definition holds_tree (m : words) (root : Z) (t : tree) : Prop := hprop_holds (rbtree root t) m.
Definition is_rbtree (t : tree) : Prop := exists h, rb t Black h.

Lemma insert_post_holds root nodes m : hprop_holds (insert_post root nodes) m ->
  exists t, is_rbtree t /\ inorder t = nodes /\ holds_tree m root t.
Proof.
  intros (t & h & h1 & h2 & Hd & Hs & [Hrb E] & HT). exists t. split; [exists h; exact Hrb|]. split; [exact E|].
  eapply hprop_mono; [exact HT|]. etransitivity; [|exact Hs]. apply map_union_subseteq_r. exact Hd.
Qed.

(** ** Removal *)

Lemma ctx_before_app k1 k2 : ctx_before (k1 ++ k2) = ctx_before k2 ++ ctx_before k1.
Proof.
  induction k1 as [|[[[d c] p] s] k1 IH]; simpl; [by rw app_nil_r|]. rw IH. destruct d; rw -?app_assoc; done.
Qed.
Lemma ctx_after_app k1 k2 : ctx_after (k1 ++ k2) = ctx_after k1 ++ ctx_after k2.
Proof. induction k1 as [|[[[d c] p] s] k1 IH]; simpl; [done|]. rw IH. destruct d; rw /= -?app_assoc; done. Qed.

(** A node of the in-order sequence is at the end of a path. *)
Lemma inorder_split t : forall a n b, inorder t = a ++ n :: b ->
  exists k c l r, t = plug k (Node c n l r) /\ a = ctx_before k ++ inorder l /\ b = inorder r ++ ctx_after k.
Proof.
  induction t as [|c p l IHl r IHr]; intros a n b E; simpl in E; [by destruct a|].
  destruct (app_eq_inv _ _ _ _ E) as [(x & E1 & E2)|(x & -> & E')].
  - destruct x as [|y x]; simpl in E2.
    + injection E2 as -> ->. exists [], c, l, r. rw app_nil_r in E1. subst a. rw !app_nil_r. auto.
    + injection E2 as <- ->. destruct (IHl _ _ _ E1) as (k & c' & l' & r' & -> & -> & ->).
      exists (k ++ [(L, c, p, r)]), c', l', r'. rw plug_app ctx_before_app ctx_after_app /= -!app_assoc /= app_nil_r. auto.
  - destruct x as [|y x]; simpl in E'.
    + injection E' as <- <-. exists [], c, l, r. rw !app_nil_r. auto.
    + injection E' as <- E'. destruct (IHr _ _ _ E') as (k & c' & l' & r' & -> & -> & ->).
      exists (k ++ [(R, c, p, l)]), c', l', r'. rw plug_app ctx_before_app ctx_after_app /= app_nil_r -!app_assoc. auto.
Qed.

(** With the callbacks of augmented data. *)
Lemma wp_rb_erase_aug n rotate copy propagate I0 I1 D Copied Repaired `{!RotateSpec rotate I1 (fun _ => True), !EraseSpec n copy propagate I0 I1 D Copied Repaired}
  root k c l r h fuel : rb (plug k (Node c n l r)) Black h ->
  (rb_bound (size (plug k (Node c n l r))) <= fuel)%nat -> (rb_bound (size (plug k (Node c n l r))) <= D)%nat ->
  rbtree root (plug k (Node c n l r)) -∗ I0 (plug k (Node c n l r)) -∗
  wp (rb_erase_augmented rotate copy propagate fuel n root)
     (fun _ => insert_post_aug I1 root ((ctx_before k ++ inorder l) ++ inorder r ++ ctx_after k) ∗ raw_node n)%I.
Proof.
  iIntros (Hrb Hf HD) "Ht HI". rw -rbtree_plug. iDestruct "Ht" as "[Hk Ht]". iApply wp_bind.
  pose proof (rb_depth_log _ _ Hrb) as Hd. pose proof (depth_plug k (Node c n l r)) as Hp. simpl in Hp.
  iApply (wp_wand with "[Hk Ht HI]").
  { iApply (wp_erase_augmented n copy propagate I0 I1 D Copied Repaired fuel root with "Hk Ht HI"); [exact Hrb|lia..]. }
  iIntros (x) "[[[-> H]|H] Hn]".
  - simpl Z.eqb. iApply wp_ret. iFrame "Hn". rw -!app_assoc. done.
  - iDestruct "H" as (k' (-> & Hx & Hk0 & Hk' & E)) "[Hk HI]". rw addr_ok_ne //.
    iApply (wp_wand with "[Hk HI]").
    { iApply (wp_erase_loop rotate I1 root fuel k' Leaf 0 with "Hk [] HI"); [done|constructor|exact Hk'| |done].
      pose proof (rbk_length _ Hk') as Hl. assert (S (size (plug k' Leaf)) = size (plug k (Node c n l r))) as ES; [|rw ES in Hl; lia].
      unfold size. rw E inorder_ctx /= !length_app /=. lia. }
    iIntros (_) "H". rw E -!app_assoc. iFrame.
Qed.
Lemma wp_rb_erase root k c n l r h fuel : rb (plug k (Node c n l r)) Black h ->
  (rb_bound (size (plug k (Node c n l r))) <= fuel)%nat ->
  rbtree root (plug k (Node c n l r)) ⊢
  wp (rb_erase fuel n root)
     (fun _ => insert_post root ((ctx_before k ++ inorder l) ++ inorder r ++ ctx_after k) ∗ raw_node n)%I.
Proof.
  iIntros (Hrb Hf) "Ht". iApply (wp_wand with "[Ht]"); [by iApply (wp_rb_erase_aug n _ _ _ (fun _ => emp%I) (fun _ => emp%I) _ _ _ root k c l r h fuel with "Ht")|].
  iIntros (_) "[(%t & %h' & %H & Ht & _) Hn]". iFrame "Hn". iExists t, h'. by iFrame.
Qed.

(** ** Iteration *)

Lemma wp_go_left fuel : forall t par Q, t <> Leaf -> (depth t <= fuel)%nat ->
  tree_at par t -∗ (tree_at par t -∗ Q (hd 0 (inorder t))) -∗ wp (go_left fuel (ptr t)) Q.
Proof.
  induction fuel as [|fuel IH]; intros t par Q Ht Hf; (destruct t as [|c p l r]; [done|]); simpl in Hf; [lia|].
  iIntros "Ht HQ". cbn [go_left tree_at ptr]. iDestruct "Ht" as "(%Hp & Hp & Hl & Hr & Tl & Tr)".
  wp_ld "Hl". destruct l as [|cl pl ll lr].
  - iApply wp_ret. iApply "HQ". simpl. by iFrame.
  - iAssert ⌜addr_ok pl⌝%I as %Hpl; [iDestruct "Tl" as "($ & _)"|]. simpl ptr. rw addr_ok_ne //.
    change pl with (ptr (Node cl pl ll lr)) at 3.
    iApply (IH (Node cl pl ll lr) p with "Tl"); [done|simpl in *; lia|]. iIntros "Tl".
    iSpecialize ("HQ" with "[$Hp $Hl $Hr $Tl $Tr]"); [done|]. cbn [inorder].
    destruct (inorder ll) as [|]; done.
Qed.

Lemma wp_go_up root fuel : forall k n c Q, addr_ok n -> (length k < fuel)%nat ->
  ctx_at root k n -∗ n ↦ pcval (ctxp k) c -∗ Q (hd 0 (ctx_after k)) -∗ wp (go_up fuel n) Q.
Proof.
  induction fuel as [|fuel IH]; intros k n c Q Hn Hf; [lia|]. iIntros "Hk Hn HQ". cbn [go_up].
  iDestruct (ctx_parent_ok with "Hk") as %Hkp. iApply wp_bind. iApply (wp_rb_parent with "Hn"); [done|]. iIntros "Hn".
  destruct k as [|[[[d cp] p] s] k]; cbn [ctxp ctx_at].
  { iApply wp_ret. done. }
  iDestruct "Hk" as "(%Hp & Hp & Hpd & Hpo & Hs & Hk)". rw addr_ok_ne //. simpl in Hf. destruct d; cbn [off opp].
  - wp_ld "Hpo". iDestruct (tree_ptr_ne with "Hs Hn") as %->; [done|]. iApply wp_ret. done.
  - wp_ld "Hpd". rw Z.eqb_refl. iApply (IH k p cp Q Hp with "Hk Hp"); [lia|]. done.
Qed.

Lemma parent_self n par c : addr_ok n -> parent_ok par -> pcval par c = n -> par = n.
Proof.
  intros Hn Hp E. pose proof (pcval_parent par c Hp) as E1. rw E in E1.
  pose proof (pcval_parent n Red (or_intror Hn)) as E2. rw pcval_red in E2. congruence.
Qed.

Lemma wp_rb_next root k c n l r fuel : (depth (plug k (Node c n l r)) <= fuel)%nat ->
  rbtree root (plug k (Node c n l r)) ⊢
  wp (rb_next fuel n) (fun x => ⌜x = hd 0 (inorder r ++ ctx_after k)⌝)%I.
Proof.
  iIntros (Hf) "Ht". pose proof (depth_plug k (Node c n l r)) as Hp. simpl in Hp.
  rw -rbtree_plug. iDestruct "Ht" as "[Hk Ht]". cbn [ptr tree_at].
  iDestruct (ctx_parent_ok with "Hk") as %Hkp. iDestruct "Ht" as "(%Hn & Hn & Hl & Hr & Tl & Tr)".
  unfold rb_next, parent_color. wp_ld "Hn".
  iAssert ⌜pcval (ctxp k) c <> n⌝%I as %Hne.
  { destruct (decide (pcval (ctxp k) c = n)) as [E|]; [|done]. apply parent_self in E; [|done|done].
    destruct k as [|[[[d cp] p] s] k]; [simpl in E; subst n; destruct Hn; lia|]. simpl in E. subst p.
    cbn [ctx_at]. iDestruct "Hk" as "(_ & Hp & _)". iDestruct (cell_excl with "Hn Hp") as %[]. }
  apply Z.eqb_neq in Hne. rw Hne. wp_ld "Hr". destruct r as [|cr q a b].
  - simpl Z.eqb. cbn iota. iApply (wp_go_up with "Hk Hn"); [done|lia|done].
  - iAssert ⌜addr_ok q⌝%I as %Hq; [iDestruct "Tr" as "($ & _)"|]. cbn [ptr]. rw addr_ok_ne //.
    change q with (ptr (Node cr q a b)). iApply (wp_go_left with "Tr"); [done|simpl in *; lia|]. iIntros "_ !%".
    simpl. by destruct (inorder a).
Qed.

Lemma wp_rb_first root t fuel : (depth t <= fuel)%nat ->
  rbtree root t ⊢ wp (rb_first fuel root) (fun x => ⌜x = hd 0 (inorder t)⌝)%I.
Proof.
  iIntros (Hf) "[Hr Ht]". unfold rb_first. wp_ld "Hr". destruct t as [|c p l r].
  - iApply wp_ret. done.
  - iAssert ⌜addr_ok p⌝%I as %Hp; [iDestruct "Ht" as "($ & _)"|]. cbn [ptr]. rw addr_ok_ne //.
    change p with (ptr (Node c p l r)). iApply (wp_go_left with "Ht"); [done|done|]. iIntros "_ !%". done.
Qed.

Lemma go_left_read_only fuel : forall n, read_only (go_left fuel n).
Proof. induction fuel as [|fuel IH]; intros n; [apply read_only_no_fuel|]. cbn [go_left]. unfold rb_left. solve_read_only. Qed.
Lemma go_up_read_only fuel : forall n, read_only (go_up fuel n).
Proof. induction fuel as [|fuel IH]; intros n; [apply read_only_no_fuel|]. cbn [go_up]. unfold rb_parent, rb_right, parent_color. solve_read_only. Qed.
#[export] Hint Resolve go_left_read_only go_up_read_only : read_only.
Lemma rb_next_read_only fuel n : read_only (rb_next fuel n).
Proof. unfold rb_next, rb_right, parent_color. solve_read_only. Qed.
Lemma rb_first_read_only fuel root : read_only (rb_first fuel root).
Proof. unfold rb_first. solve_read_only. Qed.

(** [for (n = rb_first(root); n; n = rb_next(n))], the nodes it visits. *)
Fixpoint walk_from (steps fuel : nat) (n : Z) : prog (list Z) :=
  match steps with
  | O => no_fuel
  | S s => if n =? 0 then mret [] else nx ← rb_next fuel n; l ← walk_from s fuel nx; mret (n :: l)
  end.
Definition rb_walk (steps fuel : nat) (root : Z) : prog (list Z) := n ← rb_first fuel root; walk_from steps fuel n.

(** ** The cached leftmost node *)

Definition rbtree_cached (root : Z) (t : tree) : hprop :=
  (rbtree root t ∗ (root + off_leftmost) ↦ hd 0 (inorder t))%I.

Lemma tree_cells par t : tree_at par t -∗ [∗ list] p ∈ inorder t, ∃ v, p ↦ v ∗ ⌜addr_ok p⌝.
Proof.
  iIntros "H". iInduction t as [|c p l IHl r IHr] forall (par); simpl; [done|].
  iDestruct "H" as "(%Hp & Hp & _ & _ & Hl & Hr)". rw big_sepL_app /=.
  iSplitL "Hl"; [iApply ("IHl" with "Hl")|]. iSplitL "Hp"; [by iFrame|]. iApply ("IHr" with "Hr").
Qed.

Lemma cells_nodup (l : list Z) : ([∗ list] p ∈ l, ∃ v, p ↦ v ∗ ⌜addr_ok p⌝) -∗ ⌜NoDup l /\ Forall addr_ok l⌝.
Proof.
  iIntros "H". iInduction l as [|p l IH]; simpl; [iPureIntro; split; constructor|].
  iDestruct "H" as "[(%v & Hp & %Hok) Hl]". iAssert ⌜p ∉ l⌝%I as %Hp.
  { iIntros (Hin). apply list_elem_of_lookup in Hin as [i Hi].
    iDestruct (big_sepL_lookup with "Hl") as (w) "[Hw _]"; [exact Hi|]. iApply (cell_excl with "Hp Hw"). }
  iDestruct ("IH" with "Hl") as %[H1 H2]. iPureIntro. split; constructor; done.
Qed.

Lemma rbtree_nodup root t : rbtree root t -∗ ⌜NoDup (inorder t) /\ Forall addr_ok (inorder t)⌝.
Proof. iIntros "[_ H]". iApply cells_nodup. iApply (tree_cells with "H"). Qed.

Lemma wp_insert_cached root k n h fuel leftmost : addr_ok n -> rb (plug k Leaf) Black h ->
  (rb_bound (size (plug k Leaf)) < fuel)%nat -> leftmost = bool_decide (ctx_before k = []) ->
  rbtree_cached root (plug k Leaf) ∗ raw_node n ⊢
  wp (rb_link_node n (ctxp k) (link_of root k);; rb_insert_color_cached fuel n root leftmost)
     (fun _ => ∃ t, ⌜is_rbtree t /\ inorder t = ctx_before k ++ n :: ctx_after k⌝ ∗ rbtree_cached root t)%I.
Proof.
  iIntros (Hn Hrb Hf ->) "[[Ht Hc] Hn]". iApply wp_bind. iApply (wp_wand with "[Ht Hn]").
  { iApply (wp_link_node with "Ht Hn"). done. }
  iIntros (_) "[Hk Ht]". iApply wp_bind. rw inorder_ctx /=.
  iAssert (wp (if bool_decide (ctx_before k = []) then st (root + off_leftmost) n else mret tt)
    (fun _ => (root + off_leftmost) ↦ hd 0 (ctx_before k ++ n :: ctx_after k)))%I with "[Hc]" as "H".
  { case_bool_decide as E; [iApply (wp_st with "Hc"); rw E; by iIntros "$"|].
    iApply wp_ret. by destruct (ctx_before k). }
  iApply (wp_wand with "H"). iIntros (_) "Hc". iApply (wp_wand with "[Hk Ht]").
  { iApply (wp_insert_color with "Hk Ht"); done. }
  iIntros (_) "(%t & %h' & [%Hrb' %E] & Ht)". iExists t. iSplitR; [iPureIntro; split; [by exists h'|done]|].
  rw -E. iFrame.
Qed.

Lemma wp_erase_cached root t a n b h fuel : rb t Black h -> inorder t = a ++ n :: b -> (rb_bound (size t) <= fuel)%nat ->
  rbtree_cached root t ⊢
  wp (rb_erase_cached fuel n root)
     (fun _ => (∃ t', ⌜is_rbtree t' /\ inorder t' = a ++ b⌝ ∗ rbtree_cached root t') ∗ raw_node n)%I.
Proof.
  iIntros (Hrb E Hf) "[Ht Hc]". unfold rb_erase_cached. wp_ld "Hc". iDestruct (rbtree_nodup with "Ht") as %[Hnd _].
  pose proof (rb_depth_log _ _ Hrb) as Hd.
  destruct (inorder_split _ _ _ _ E) as (k & c & l & r & Et & Ea & Eb). iApply wp_bind.
  iAssert (wp (if hd 0 (inorder t) =? n then nx ← rb_next fuel n; st (root + off_leftmost) nx else mret tt)
    (fun _ => rbtree root t ∗ (root + off_leftmost) ↦ hd 0 (a ++ b)))%I with "[Ht Hc]" as "H".
  { rw E. destruct a as [|x a]; simpl.
    - rw Z.eqb_refl. iApply wp_bind. iApply (wp_wand with "[Ht]").
      { iApply (wp_read_only _ _ (fun x => x = hd 0 b) with "Ht"); [apply rb_next_read_only|]. rw Et Eb. apply (wp_rb_next root k c n l r). rw -Et. lia. }
      iIntros (x) "[-> Ht]". iApply (wp_st with "Hc"). iIntros "$". iFrame.
    - assert (x <> n) as Hx. { intros ->. rw E /= in Hnd. apply NoDup_cons in Hnd as [Hnd _]. apply Hnd. set_solver. }
      apply Z.eqb_neq in Hx. rw Hx. iApply wp_ret. iFrame. }
  iApply (wp_wand with "H"). iIntros (_) "[Ht Hc]". rw Et in Hrb Hf *.
  iApply (wp_wand with "[Ht]"). { iApply (wp_rb_erase with "Ht"); done. }
  iIntros (_) "[(%t' & %h' & [%Hrb' %E'] & Ht) $]". iExists t'. rw -Ea -Eb in E'.
  iSplitR; [iPureIntro; split; [by exists h'|done]|]. rw -E'. iFrame.
Qed.

Lemma rb_next_ok root t m hf a n b fuel : holds_tree m root t -> m ##ₘ hf -> inorder t = a ++ n :: b -> (depth t <= fuel)%nat ->
  rb_next fuel n (m ∪ hf) = Ok (hd 0 b, m ∪ hf).
Proof.
  intros HT Hd E Hf. destruct (inorder_split _ _ _ _ E) as (k & c & l & r & -> & -> & ->).
  destruct (wp_adequate _ _ _ (wp_rb_next root k c n l r fuel Hf) m hf HT Hd) as (x & h' & E1 & _ & Hx).
  rw E1. pose proof (rb_next_read_only _ _ _ _ _ E1) as ->. by rw Hx.
Qed.

Lemma holds_nodup m root t : holds_tree m root t -> NoDup (inorder t) /\ Forall addr_ok (inorder t).
Proof. intros HT. destruct (bi.wand_entails _ _ (rbtree_nodup root t)) as [H]. exact (H m HT). Qed.

Lemma walk_from_ok root t m hf fuel : holds_tree m root t -> m ##ₘ hf -> (depth t <= fuel)%nat ->
  forall b a steps, inorder t = a ++ b -> (length b < steps)%nat ->
  walk_from steps fuel (hd 0 b) (m ∪ hf) = Ok (b, m ∪ hf).
Proof.
  intros HT Hd Hf. pose proof (holds_nodup _ _ _ HT) as [_ Hok].
  induction b as [|n b IH]; intros a [|steps] E Hs; simpl in Hs; try lia; [done|]. cbn [walk_from hd].
  assert (addr_ok n) as Hn by (rw E in Hok; apply Forall_app in Hok as [_ Hok]; by inversion Hok).
  rw addr_ok_ne //. unfold mbind, st_bind. rw (rb_next_ok root t m hf a n b) //.
  rw (IH (a ++ [n])); [done|by rw -app_assoc|lia].
Qed.

(** ** The contract *)

(** C9: linking a node at an empty link of a red-black tree and calling
    [rb_insert_color] gives, within about twice the logarithm of the number of
    nodes iterations, a red-black tree whose in-order sequence is the old one
    with the node at the place of the link; no other memory is touched. *)
Theorem rb_insert_correct root k n fuel m hf : addr_ok n -> is_rbtree (plug k Leaf) ->
  (rb_bound (size (plug k Leaf)) < fuel)%nat ->
  hprop_holds (rbtree root (plug k Leaf) ∗ raw_node n)%I m -> m ##ₘ hf ->
  exists m' t, link_and_insert fuel n (ctxp k) (link_of root k) root (m ∪ hf) = Ok (tt, m' ∪ hf) /\ m' ##ₘ hf /\
    is_rbtree t /\ inorder t = ctx_before k ++ n :: ctx_after k /\ holds_tree m' root t.
Proof.
  intros Hn [h Hrb] Hf HP Hd.
  destruct (wp_adequate _ _ _ (wp_link_and_insert root k n h fuel Hn Hrb Hf) m hf HP Hd) as ([] & m' & E & D & HQ).
  apply insert_post_holds in HQ as (t & H1 & H2 & H3). by exists m', t.
Qed.

(** C10: [rb_erase] on a node of a red-black tree gives, within twice the
    logarithm of the number of nodes iterations, a red-black tree whose
    in-order sequence is the old one without the node; the memory of the node
    is no longer part of the tree and no other memory is touched. *)
Theorem rb_erase_correct root t a n b fuel m hf : is_rbtree t -> inorder t = a ++ n :: b ->
  (rb_bound (size t) <= fuel)%nat -> holds_tree m root t -> m ##ₘ hf ->
  exists m' t', rb_erase fuel n root (m ∪ hf) = Ok (tt, m' ∪ hf) /\ m' ##ₘ hf /\
    is_rbtree t' /\ inorder t' = a ++ b /\ hprop_holds (rbtree root t' ∗ raw_node n)%I m'.
Proof.
  intros [h Hrb] E Hf HT Hd. destruct (inorder_split _ _ _ _ E) as (k & c & l & r & -> & -> & ->).
  destruct (wp_adequate _ _ _ (wp_rb_erase root k c n l r h fuel Hrb Hf) m hf HT Hd) as ([] & m' & E1 & D & HQ).
  destruct HQ as (h1 & h2 & D1 & Hs & H1 & H2). apply insert_post_holds in H1 as (t & R1 & R2 & R3).
  exists m', t. do 4 (split; [assumption|]). by exists h1, h2.
Qed.

(** C33: going from [rb_first] with [rb_next] until it returns no node visits
    exactly the nodes of the tree, in order, and changes nothing. *)
Theorem rb_walk_inorder root t fuel steps m hf : is_rbtree t -> holds_tree m root t -> m ##ₘ hf ->
  (rb_bound (size t) <= fuel)%nat -> (size t < steps)%nat ->
  rb_walk steps fuel root (m ∪ hf) = Ok (inorder t, m ∪ hf).
Proof.
  intros [h Hrb] HT Hd Hf Hs. pose proof (rb_depth_log _ _ Hrb).
  destruct (wp_adequate _ _ _ (wp_rb_first root t fuel ltac:(lia)) m hf HT Hd) as (x & h' & E1 & _ & Hx).
  unfold rb_walk, mbind, st_bind. rw E1. pose proof (rb_first_read_only _ _ _ _ _ E1) as ->. rw Hx.
  apply (walk_from_ok root t m hf fuel HT Hd ltac:(lia) _ []); [done|exact Hs].
Qed.

(** [rb_erase_cached] keeps the cached node the first one of the tree: it
    is replaced by its successor exactly when the node removed is the first
    (and becomes null with the last node). *)
Theorem rb_erase_cached_correct root t a n b fuel m hf : is_rbtree t -> inorder t = a ++ n :: b ->
  (rb_bound (size t) <= fuel)%nat -> hprop_holds (rbtree_cached root t) m -> m ##ₘ hf ->
  exists m' t', rb_erase_cached fuel n root (m ∪ hf) = Ok (tt, m' ∪ hf) /\ m' ##ₘ hf /\
    is_rbtree t' /\ inorder t' = a ++ b /\ holds_tree m' root t' /\ m' !! (root + off_leftmost) = Some (hd 0 (a ++ b)).
Proof.
  intros [h Hrb] E Hf HT Hd.
  destruct (wp_adequate _ _ _ (wp_erase_cached root t a n b h fuel Hrb E Hf) m hf HT Hd) as ([] & m' & E1 & D & HQ).
  destruct HQ as (h1 & h2 & D1 & Hs & (t' & h3 & h4 & D2 & Hs2 & [R1 R2] & R3) & _).
  destruct R3 as (h5 & h6 & D3 & Hs3 & R3 & R4). exists m', t'. do 4 (split; [assumption|]).
  assert (h1 ⊆ m') as S1 by (etransitivity; [|exact Hs]; apply map_union_subseteq_l).
  assert (h4 ⊆ m') as S4 by (etransitivity; [|exact S1]; etransitivity; [|exact Hs2]; apply map_union_subseteq_r, D2).
  split.
  - eapply hprop_mono; [exact R3|]. etransitivity; [|exact S4]. etransitivity; [|exact Hs3]. apply map_union_subseteq_l.
  - apply (lookup_weaken h6); [rw -R2; exact R4|]. etransitivity; [|exact S4]. etransitivity; [|exact Hs3].
    apply map_union_subseteq_r, D3.
Qed.

(** ** Witnesses *)

(** A tree of three nodes at 32, 64 and 96 below the root at 1000, and a node
    at 128 to be linked to the right of 96. *)
Definition tree3 : tree := Node Black 64 (Node Red 32 Leaf Leaf) (Node Red 96 Leaf Leaf).
Definition hole3 : ctx := [(R, Red, 96, Leaf); (R, Black, 64, Node Red 32 Leaf Leaf)].
Definition root_cells : list (Z * Z) := [(1000, 64); (1008, 32)].
Definition cells3 : list (Z * Z) :=
  [(64, pcval 0 Black); (80, 32); (72, 96); (32, pcval 64 Red); (48, 0); (40, 0); (96, pcval 64 Red); (112, 0); (104, 0)].
Definition cells_new : list (Z * Z) := [(128, 7); (144, 7); (136, 7)].

Ltac solve_addr := split; [lia|reflexivity].

Lemma tree3_rb : is_rbtree tree3.
Proof. exists 1%nat. repeat econstructor. Qed.

Lemma cells3_tree : ([∗ list] x ∈ cells3, x.1 ↦ x.2) ⊢ tree_at 0 tree3.
Proof. iIntros "($ & $ & $ & $ & $ & $ & $ & $ & $ & _)". iPureIntro. repeat split; lia. Qed.

Lemma memory3_holds : holds_tree (cells (root_cells ++ cells3)) 1000 tree3.
Proof.
  apply cells_entail; [solve_nodup|]. rw big_sepL_app. iIntros "[($ & _) H]". iApply (cells3_tree with "H").
Qed.

Lemma rb_insert_correct_witness :
  exists m' t, link_and_insert 6 128 96 104 1000 (cells (root_cells ++ cells3 ++ cells_new) ∪ ∅) = Ok (tt, m' ∪ ∅) /\
    is_rbtree t /\ inorder t = [32; 64; 96; 128] /\ holds_tree m' 1000 t.
Proof.
  destruct (rb_insert_correct 1000 hole3 128 6 (cells (root_cells ++ cells3 ++ cells_new)) ∅) as (m' & t & E & _ & H1 & H2 & H3).
  - solve_addr.
  - exact tree3_rb.
  - vm_compute. lia.
  - apply cells_entail; [solve_nodup|]. rw !big_sepL_app. iIntros "[($ & _) [H ($ & $ & $ & _)]]". iApply (cells3_tree with "H").
  - apply map_disjoint_empty_r.
  - exists m', t. auto.
Defined.

Lemma rb_erase_correct_witness :
  exists m' t', rb_erase 4 64 1000 (cells (root_cells ++ cells3) ∪ ∅) = Ok (tt, m' ∪ ∅) /\
    is_rbtree t' /\ inorder t' = [32; 96].
Proof.
  destruct (rb_erase_correct 1000 tree3 [32] 64 [96] 4 (cells (root_cells ++ cells3)) ∅) as (m' & t & E & _ & H1 & H2 & _).
  - exact tree3_rb.
  - reflexivity.
  - vm_compute. lia.
  - exact memory3_holds.
  - apply map_disjoint_empty_r.
  - exists m', t. auto.
Defined.

Lemma rb_walk_inorder_witness :
  rb_walk 4 4 1000 (cells (root_cells ++ cells3) ∪ ∅) = Ok ([32; 64; 96], cells (root_cells ++ cells3) ∪ ∅).
Proof.
  apply (rb_walk_inorder 1000 tree3 4 4).
  - exact tree3_rb.
  - exact memory3_holds.
  - apply map_disjoint_empty_r.
  - vm_compute. lia.
  - vm_compute. lia.
Defined.

Lemma rb_erase_cached_correct_witness :
  exists m' t', rb_erase_cached 4 32 1000 (cells (root_cells ++ cells3) ∪ ∅) = Ok (tt, m' ∪ ∅) /\
    inorder t' = [64; 96] /\ m' !! 1008 = Some 64.
Proof.
  destruct (rb_erase_cached_correct 1000 tree3 [] 32 [64; 96] 4 (cells (root_cells ++ cells3)) ∅)
    as (m' & t & E & _ & _ & H1 & _ & H2).
  - exact tree3_rb.
  - reflexivity.
  - vm_compute. lia.
  - apply cells_entail; [solve_nodup|]. rw big_sepL_app. iIntros "[($ & $ & _) H]". iApply (cells3_tree with "H").
  - apply map_disjoint_empty_r.
  - exists m', t. auto.
Defined.
