(* ===== verification/XArray.v ===== *)
(** * xarray/xarray.c and include/xarray.h: sparse arrays

    A node is [shift] at offset 0, [offset] at 1, [parent] at 8, [array] at 16
    and 64 slots from 24 on; an array is the cell of [xa_head].  A pointer to a
    node is stored with 2 added.  The state of an operation, which C keeps on
    the stack, is a record that the functions take and return.  The allocator
    of nodes is an argument; what it promises is the class [NodeAlloc].  The
    depth of a tree is at most 11 (64 bits, 6 per level), which bounds the
    loops over levels. *)

From Stdlib Require Import ZArith Lia.
From stdpp Require Import base tactics numbers list strings gmap.
From iris.proofmode Require Import proofmode.
From S2P Require Import Prelude HeapLogic.
#[global] Open Scope Z_scope.

(** ** Data *)

Definition XA_CHUNK_SHIFT : Z := 6.
Definition XA_CHUNK_SIZE : Z := 64.
Definition XA_CHUNK_MASK : Z := XA_CHUNK_SIZE - 1.
Definition XAS_BOUNDS : Z := 1.
Definition XAS_RESTART : Z := 3.
Definition XA_ERROR (errno : Z) : Z := Z.lor (u64 (Z.shiftl (u64 errno) 2)) 2.

Definition n_shift (p : Z) : Z := p.
Definition n_offset (p : Z) : Z := p + 1.
Definition n_parent (p : Z) : Z := p + 8.
Definition n_array (p : Z) : Z := p + 16.
Definition n_slot (p i : Z) : Z := p + 24 + 8 * i.

Record xa_state := XaState {
  xa_index : Z;
  xa_shift : Z;
  xa_offset : Z;
  xa_node : Z }.
Definition XA_STATE (index : Z) : xa_state := XaState index 0 0 XAS_RESTART.

Definition set_node (xas : xa_state) (node : Z) : xa_state := XaState (xa_index xas) (xa_shift xas) (xa_offset xas) node.
Definition set_offset (xas : xa_state) (offset : Z) : xa_state := XaState (xa_index xas) (xa_shift xas) (u8 offset) (xa_node xas).
Definition set_index (xas : xa_state) (index : Z) : xa_state := XaState (u64 index) (xa_shift xas) (xa_offset xas) (xa_node xas).

Definition xa_entry (node offset : Z) : prog Z :=
  if XA_CHUNK_SIZE <=? offset then st_panic "BUG_ON" else ld (n_slot node offset).
Definition xa_mk_internal (v : Z) : Z := Z.lor (u64 (Z.shiftl (u64 v) 2)) 2.
Definition xa_is_internal (entry : Z) : bool := Z.land entry 3 =? 2.
Definition xa_is_err (entry : Z) : bool := xa_is_internal entry && (xa_mk_internal (- 4095) <=? entry).
Definition xa_err (entry : Z) : Z := if xa_is_err entry then Z.shiftr (s64 entry) 2 else 0.
Definition xas_error (xas : xa_state) : Z := xa_err (xa_node xas).
Definition xas_invalid (xas : xa_state) : bool := negb (Z.land (xa_node xas) 3 =? 0).
Definition xas_valid (xas : xa_state) : bool := negb (xas_invalid xas).
Definition xa_is_node (entry : Z) : bool := xa_is_internal entry && (4096 <? entry).
Definition XA_ZERO_ENTRY : Z := xa_mk_internal 257.
Definition xa_is_zero (entry : Z) : bool := entry =? XA_ZERO_ENTRY.
Definition xas_top (node : Z) : bool := node <=? XAS_RESTART.
Definition xa_to_node (entry : Z) : Z := u64 (entry - 2).
Definition xa_mk_node (node : Z) : Z := Z.lor node 2.
Definition xas_set_err (xas : xa_state) (err : Z) : xa_state := set_node xas (XA_ERROR err).
Definition xas_not_node (node : Z) : bool := negb (Z.land node 3 =? 0) || (node =? 0).

(** ** Loading *)

Definition set_bounds (xas : xa_state) : prog (Z * xa_state) := mret (0, set_node xas XAS_BOUNDS).

Section Code.
Context (kmem_cache_alloc : prog Z) (xa : Z).

Definition xas_start (xas : xa_state) : prog (Z * xa_state) :=
  if xas_valid xas then st_panic "xas valid!"
  else if negb (xas_error xas =? 0) then mret (0, xas)
  else
    entry ← ld xa;
    if negb (xa_is_node entry) then
      if negb (xa_index xas =? 0) then set_bounds xas else mret (entry, set_node xas 0)
    else
      sh ← ld (n_shift (xa_to_node entry));
      if XA_CHUNK_MASK <? Z.shiftr (xa_index xas) sh then set_bounds xas else mret (entry, set_node xas 0).

Definition get_offset (index node : Z) : prog Z :=
  sh ← ld (n_shift node); mret (Z.land (Z.shiftr index sh) XA_CHUNK_MASK).

Definition xas_descend (xas : xa_state) (node : Z) : prog (Z * xa_state) :=
  offset ← get_offset (xa_index xas) node;
  entry ← xa_entry node offset;
  mret (entry, set_offset (set_node xas node) offset).

Fixpoint xas_load_loop (fuel : nat) (xas : xa_state) (entry : Z) : prog (Z * xa_state) :=
  match fuel with
  | O => no_fuel
  | S f =>
      if negb (xa_is_node entry) then mret (entry, xas)
      else
        let node := xa_to_node entry in
        sh ← ld (n_shift node);
        if sh <? xa_shift xas then mret (entry, xas)
        else
          '(entry, xas) ← xas_descend xas node;
          sh ← ld (n_shift node);
          if sh =? 0 then mret (entry, xas) else xas_load_loop f xas entry
  end.
Definition xas_load (fuel : nat) (xas : xa_state) : prog (Z * xa_state) :=
  '(entry, xas) ← xas_start xas; xas_load_loop fuel xas entry.

Definition xa_load (fuel : nat) (index : Z) : prog Z :=
  '(entry, _) ← xas_load fuel (XA_STATE index);
  mret (if xa_is_zero entry then 0 else entry).

(** ** Storing *)

Definition max_index (entry : Z) : prog Z :=
  if negb (xa_is_node entry) then mret 0
  else sh ← ld (n_shift (xa_to_node entry)); mret (u64 (u64 (Z.shiftl XA_CHUNK_SIZE sh) - 1)).

Definition xas_alloc (xas : xa_state) (shift : Z) : prog (Z * xa_state) :=
  if xas_invalid xas then mret (0, xas)
  else
    node ← kmem_cache_alloc;
    if node =? 0 then mret (0, xas_set_err xas (- ENOMEM))
    else
      (if xa_node xas =? 0 then mret tt else st (n_offset node) (xa_offset xas));;
      (if 64 <? shift then st_panic "BUG_ON" else mret tt);;
      st (n_shift node) (u8 shift);;
      st (n_parent node) (xa_node xas);;
      st (n_array node) xa;;
      mret (node, xas).

(** [while ((xas->xa_index >> shift) >= XA_CHUNK_SIZE) shift += XA_CHUNK_SHIFT;] *)
Fixpoint shift_loop (fuel : nat) (index shift : Z) : prog Z :=
  match fuel with
  | O => no_fuel
  | S f => if XA_CHUNK_SIZE <=? Z.shiftr index shift then shift_loop f index (shift + XA_CHUNK_SHIFT) else mret shift
  end.

Fixpoint expand_loop (fuel : nat) (xas : xa_state) (head node shift : Z) : prog (Z * xa_state) :=
  match fuel with
  | O => no_fuel
  | S f =>
      mi ← max_index head;
      if mi <? xa_index xas then
        (if 64 <? shift then st_panic "BUG_ON" else mret tt);;
        '(node, xas) ← xas_alloc xas shift;
        if node =? 0 then mret (- ENOMEM, xas)
        else
          st (n_slot node 0) head;;
          (if xa_is_node head then
             st (n_offset (xa_to_node head)) 0;;
             st (n_parent (xa_to_node head)) node
           else mret tt);;
          let head := xa_mk_node node in
          st xa head;;
          expand_loop f xas head node (shift + XA_CHUNK_SHIFT)
      else mret (shift, set_node xas node)
  end.

Definition xas_expand (fuel : nat) (xas : xa_state) (head : Z) : prog (Z * xa_state) :=
  if head =? 0 then
    if xa_index xas =? 0 then mret (0, xas)
    else shift ← shift_loop fuel (xa_index xas) 0; mret (shift + XA_CHUNK_SHIFT, xas)
  else
    '(node, shift) ←
      (if xa_is_node head
       then sh ← ld (n_shift (xa_to_node head)); mret (xa_to_node head, sh + XA_CHUNK_SHIFT)
       else mret (0, 0));
    expand_loop fuel (set_node xas 0) head node shift.

Fixpoint create_loop (fuel : nat) (xas : xa_state) (shift order entry slot : Z) : prog (Z * xa_state) :=
  match fuel with
  | O => no_fuel
  | S f =>
      if order <? shift then
        let shift := shift - XA_CHUNK_SHIFT in
        '(node, xas) ←
          (if entry =? 0 then
             '(node, xas) ← xas_alloc xas shift;
             if node =? 0 then mret (None, xas) else st slot (xa_mk_node node);; mret (Some node, xas)
           else if xa_is_node entry then mret (Some (xa_to_node entry), xas)
           else mret (None, xas) : prog (option Z * xa_state));
        match node with
        | None => mret (entry, xas)
        | Some node =>
            '(entry, xas) ← xas_descend xas node;
            create_loop f xas shift order entry (n_slot node (xa_offset xas))
        end
      else mret (entry, xas)
  end.

Definition xas_create (fuel : nat) (xas : xa_state) (allow_root : bool) : prog (Z * xa_state) :=
  let node := xa_node xas in
  let order := xa_shift xas in
  if xas_top node then
    entry ← ld xa;
    '(shift, xas) ← xas_expand fuel (set_node xas 0) entry;
    if shift <? 0 then mret (0, xas)
    else
      let shift := if (shift =? 0) && negb allow_root then XA_CHUNK_SHIFT else shift in
      entry ← ld xa;
      create_loop fuel xas shift order entry xa
  else if negb (xas_error xas =? 0) then mret (0, xas)
  else if negb (node =? 0) then
    sh ← ld (n_shift node);
    entry ← xa_entry node (xa_offset xas);
    create_loop fuel xas sh order entry (n_slot node (xa_offset xas))
  else
    entry ← ld xa;
    create_loop fuel xas 0 order entry xa.

Definition xas_store (fuel : nat) (xas : xa_state) (entry : Z) : prog (Z * xa_state) :=
  '(first, xas) ←
    (if negb (entry =? 0)
     then xas_create fuel xas (negb (xa_is_node entry) && negb (xa_is_zero entry))
     else xas_load fuel xas);
  if xas_invalid xas then mret (first, xas)
  else if first =? entry then mret (first, xas)
  else
    st (if xa_node xas =? 0 then xa else n_slot (xa_node xas) (xa_offset xas)) entry;;
    mret (first, xas).

(** ** Finding *)

Definition xas_move_index (xas : xa_state) (offset : Z) : prog xa_state :=
  shift ← ld (n_shift (xa_node xas));
  mret (set_index xas (Z.land (xa_index xas) (u64 (Z.shiftl (u64 (Z.lnot XA_CHUNK_MASK)) shift)) + u64 (Z.shiftl offset shift))).

Definition xas_advance (xas : xa_state) : prog xa_state :=
  let xas := set_offset xas (xa_offset xas + 1) in
  xas_move_index xas (xa_offset xas).

Fixpoint find_loop (fuel : nat) (xas : xa_state) (max : Z) : prog (Z * xa_state) :=
  match fuel with
  | O => no_fuel
  | S f =>
      if negb (xa_node xas =? 0) && (xa_index xas <=? max) then
        if xa_offset xas =? XA_CHUNK_SIZE then
          off ← ld (n_offset (xa_node xas));
          parent ← ld (n_parent (xa_node xas));
          find_loop f (set_node (set_offset xas (off + 1)) parent) max
        else
          entry ← xa_entry (xa_node xas) (xa_offset xas);
          if xa_is_node entry then find_loop f (set_offset (set_node xas (xa_to_node entry)) 0) max
          else if negb (entry =? 0) then mret (entry, xas)
          else xas ← xas_advance xas; find_loop f xas max
      else mret (0, if xa_node xas =? 0 then set_node xas XAS_BOUNDS else xas)
  end.

Definition xas_find (fuel : nat) (xas : xa_state) (max : Z) : prog (Z * xa_state) :=
  if negb (xas_error xas =? 0) || (xa_node xas =? XAS_BOUNDS) then mret (0, xas)
  else if max <? xa_index xas then set_bounds xas
  else if xa_node xas =? 0 then set_bounds (set_index xas 1)
  else if xa_node xas =? XAS_RESTART then
    '(entry, xas) ← xas_load fuel xas;
    if negb (entry =? 0) || xas_not_node (xa_node xas) then mret (entry, xas)
    else xas ← xas_advance xas; find_loop fuel xas max
  else
    sh ← ld (n_shift (xa_node xas));
    let xas := if (sh =? 0) && negb (xa_offset xas =? Z.land (xa_index xas) XA_CHUNK_MASK)
               then set_offset xas (Z.land (u64 (xa_index xas - 1)) XA_CHUNK_MASK + 1) else xas in
    xas ← xas_advance xas; find_loop fuel xas max.

Fixpoint next_entry_loop (fuel n : nat) (xas : xa_state) (node max : Z) : prog (Z * xa_state) :=
  match n with
  | O => no_fuel
  | S n' =>
      if max <=? xa_index xas then xas_find fuel xas max
      else if xa_offset xas =? XA_CHUNK_MASK then xas_find fuel xas max
      else
        entry ← xa_entry node (xa_offset xas + 1);
        if xa_is_internal entry then xas_find fuel xas max
        else
          let xas := set_index (set_offset xas (xa_offset xas + 1)) (xa_index xas + 1) in
          if entry =? 0 then next_entry_loop fuel n' xas node max else mret (entry, xas)
  end.
Definition xas_next_entry (fuel : nat) (xas : xa_state) (max : Z) : prog (Z * xa_state) :=
  let node := xa_node xas in
  if xas_not_node node then xas_find fuel xas max
  else
    sh ← ld (n_shift node);
    if negb (sh =? 0) || negb (xa_offset xas =? Z.land (xa_index xas) XA_CHUNK_MASK) then xas_find fuel xas max
    else next_entry_loop fuel 65 xas node max.

Fixpoint for_each_loop (n fuel : nat) (xas : xa_state) (entry max : Z) : prog (list (Z * Z)) :=
  match n with
  | O => no_fuel
  | S n' =>
      if entry =? 0 then mret []
      else '(e, xas') ← xas_next_entry fuel xas max; l ← for_each_loop n' fuel xas' e max; mret ((xa_index xas, entry) :: l)
  end.
(** The indices and entries [xas_for_each] visits. *)
Definition xas_for_each (n fuel : nat) (xas : xa_state) (max : Z) : prog (list (Z * Z)) :=
  '(entry, xas) ← xas_find fuel xas max; for_each_loop n fuel xas entry max.
End Code.
