(* ===== verification/XArrayArith.v ===== *)
(** * Entries and indices of the sparse arrays

    Arithmetic facts about [XArray]: the encoding of node pointers, and the
    six-bit digits of an index that select the slots on its path. *)

From Stdlib Require Import ZArith Lia.
From stdpp Require Import base tactics numbers list strings gmap.
From S2P Require Import Prelude HeapLogic XArray.
#[global] Open Scope Z_scope.

(** ** Entries *)

(** What users store: null or a word that is not an internal entry. *)
Definition value_ok (v : Z) : Prop := v = 0 \/ 0 <= v < 2 ^ 64 /\ Z.land v 3 <> 2.
Definition node_ok (p : Z) : Prop := 4096 <= p < 2 ^ 64 - 4096 /\ p mod 4 = 0.

Lemma node_low p k : node_ok p -> 0 <= k < 2 -> Z.testbit p k = false.
Proof. intros [_ Hp] Hk. apply (proj1 (mod_pow2_zero_bits p 2 ltac:(lia)) Hp). lia. Qed.

Lemma land3 x : Z.land x 3 = x mod 4.
Proof. change 3 with (2 ^ 2 - 1). rewrite land_ones_mod by lia. reflexivity. Qed.

Lemma mk_node p : node_ok p -> xa_mk_node p = p + 2.
Proof.
  intros Hp. unfold xa_mk_node. apply lor_add_disjoint. bits k Hk. rewrite Z.bits_0.
  destruct (decide (k < 2)); [rewrite node_low by (assumption || lia); reflexivity|].
  change 2 with (2 ^ 1). rewrite (Z.pow2_bits_false 1 k) by lia. apply andb_false_r.
Qed.

Lemma is_node_ptr p : node_ok p -> xa_is_node (p + 2) = true.
Proof.
  intros [Hr Hp]. unfold xa_is_node, xa_is_internal. rewrite land3.
  replace ((p + 2) mod 4) with 2 by (rewrite Z.add_mod, Hp by lia; reflexivity). simpl. apply Z.ltb_lt. lia.
Qed.

Lemma to_node p : node_ok p -> xa_to_node (p + 2) = p.
Proof. intros [Hr _]. unfold xa_to_node. rewrite u64_small by (unfold is_u64; lia). lia. Qed.

Lemma value_not_node v : value_ok v -> xa_is_node v = false.
Proof.
  unfold xa_is_node, xa_is_internal. intros [->|[_ Hv]]; [reflexivity|]. destruct (Z.eqb_spec (Z.land v 3) 2); [contradiction|reflexivity].
Qed.

Lemma value_not_zero_entry v : value_ok v -> xa_is_zero v = false.
Proof. unfold xa_is_zero. intros [->|[_ Hv]]; [reflexivity|]. apply Z.eqb_neq. intros ->. apply Hv. reflexivity. Qed.

Lemma node_valid xas : node_ok (xa_node xas) -> xas_invalid xas = false.
Proof. intros [_ Hp]. unfold xas_invalid. rewrite land3, Hp. reflexivity. Qed.

Lemma node_not_top p : node_ok p -> xas_top p = false.
Proof. intros [Hp _]. unfold xas_top, XAS_RESTART. apply Z.leb_gt. lia. Qed.

Lemma node_no_error p : node_ok p -> xa_err p = 0.
Proof. intros [_ Hp]. unfold xa_err, xa_is_err, xa_is_internal. rewrite land3, Hp. reflexivity. Qed.

Lemma node_ne p : node_ok p -> (p =? 0) = false /\ (p + 2 =? 0) = false.
Proof. intros [Hp _]. split; apply Z.eqb_neq; lia. Qed.

(** ** Levels *)

Definition span (k : nat) : Z := 2 ^ (6 * Z.of_nat k).

Lemma span_pos k : 0 < span k.
Proof. apply Z.pow_pos_nonneg; lia. Qed.
Lemma span_S k : span (S k) = 64 * span k.
Proof. unfold span. replace (6 * Z.of_nat (S k)) with (6 + 6 * Z.of_nat k) by lia. rewrite Z.pow_add_r by lia. reflexivity. Qed.
Lemma span_le k k' : (k <= k')%nat -> span k <= span k'.
Proof. intros H. unfold span. apply Z.pow_le_mono_r; lia. Qed.

(** The slot of an index in a node with shift [6 * k]. *)
Definition digit (idx : Z) (k : nat) : Z := (idx mod span (S k)) / span k.

Lemma digit_range idx k : 0 <= digit idx k < 64.
Proof.
  unfold digit. pose proof (span_pos k). pose proof (span_S k). pose proof (Z.mod_pos_bound idx (span (S k))).
  split; [apply Z.div_pos; lia|]. apply Z.div_lt_upper_bound; lia.
Qed.

Lemma digit_split idx k : idx mod span (S k) = digit idx k * span k + idx mod span k.
Proof.
  unfold digit. pose proof (span_pos k). rewrite span_S.
  assert (idx mod span k = (idx mod (64 * span k)) mod span k) as ->.
  { symmetry. apply Z.mod_mod_divide. exists 64. reflexivity. }
  pose proof (Z.div_mod (idx mod (64 * span k)) (span k)). lia.
Qed.

Lemma digit_code idx k : 0 <= idx -> Z.land (Z.shiftr idx (6 * Z.of_nat k)) XA_CHUNK_MASK = digit idx k.
Proof.
  intros Hi. unfold XA_CHUNK_MASK, XA_CHUNK_SIZE. change (64 - 1) with (2 ^ 6 - 1). rewrite land_ones_mod, Z.shiftr_div_pow2 by lia.
  fold (span k). change (2 ^ 6) with 64. unfold digit. rewrite span_S. pose proof (span_pos k).
  rewrite (Z.mul_comm 64). rewrite Z.rem_mul_r by lia.
  rewrite Z.add_comm, Z.mul_comm, Z.div_add_l by lia. rewrite (Z.div_small (idx mod span k)) by (apply Z.mod_pos_bound; lia). lia.
Qed.

(** ** Functions from indices to entries *)

Definition upd (f : Z -> Z) (i v : Z) : Z -> Z := fun j => if j =? i then v else f j.
Definition sub (f : Z -> Z) (k : nat) (i : Z) : Z -> Z := fun j => f (i * span k + j).

Lemma upd_eq f i v : upd f i v i = v.
Proof. unfold upd. rewrite Z.eqb_refl. reflexivity. Qed.
Lemma upd_ne f i v j : j <> i -> upd f i v j = f j.
Proof. unfold upd. intros H. destruct (Z.eqb_spec j i); [contradiction|reflexivity]. Qed.
Lemma upd_same f i j : upd f i (f i) j = f j.
Proof. unfold upd. destruct (Z.eqb_spec j i); congruence. Qed.

(** [max_index] of a node with shift [6 * k], with its wrap-around. *)
Lemma max_index_test idx k : 0 <= idx < 2 ^ 64 -> (k <= 10)%nat ->
  (u64 (u64 (Z.shiftl XA_CHUNK_SIZE (6 * Z.of_nat k)) - 1) <? idx) = (span (S k) <=? idx).
Proof.
  intros Hi Hk. unfold XA_CHUNK_SIZE. rewrite Z.shiftl_mul_pow2 by lia. fold (span k). rewrite <- span_S.
  destruct (decide (k = 10)%nat) as [->|Hne].
  - change (u64 (u64 (span 11) - 1)) with (2 ^ 64 - 1). change (span 11) with (2 ^ 66).
    destruct (Z.ltb_spec (2 ^ 64 - 1) idx), (Z.leb_spec (2 ^ 66) idx); reflexivity || lia.
  - assert (1 <= span (S k) <= 2 ^ 60) as Hs.
    { split; [pose proof (span_pos (S k)); lia|]. change (2 ^ 60) with (span 10). apply span_le. lia. }
    rewrite (u64_small (span (S k))) by (unfold is_u64; lia). rewrite u64_small by (unfold is_u64; lia).
    destruct (Z.ltb_spec (span (S k) - 1) idx), (Z.leb_spec (span (S k)) idx); reflexivity || lia.
Qed.

(** An index that needs a higher tree leaves room for one more level. *)
Lemma span_room idx L : idx < 2 ^ 64 -> span L <= idx -> (L <= 10)%nat.
Proof.
  intros Hi HL. destruct (decide (L <= 10)%nat); [assumption|]. pose proof (span_le 11 L). change (span 11) with (2 ^ 66) in *. lia.
Qed.
