(* ===== verification/XArrayProofs.v ===== *)
(** * Correctness of the sparse arrays

    [xarray xa f] says that memory holds an array whose entry at each index
    [i] is [f i], 0 standing for none.  Loading reads [f], storing updates it
    at one index, or leaves it as it was when no node can be allocated.
    [tree_at k par off e f] is the part below the entry [e] at level [k], which
    covers [64^k] indices; [par] and [off] are the fields that lead back up. *)

From Stdlib Require Import ZArith Lia.
From stdpp Require Import base tactics numbers list strings gmap.
From iris.proofmode Require Import proofmode.
From S2P Require Import Prelude HeapLogic XArray XArrayArith.
#[global] Open Scope Z_scope.

(** ** Trees in memory *)

Definition node_body (T : Z -> Z -> Z -> (Z -> Z) -> hprop) (k : nat) (p par off : Z) (f : Z -> Z) : hprop :=
  (n_shift p ↦ (6 * Z.of_nat k) ∗ n_offset p ↦ off ∗ n_parent p ↦ par ∗ (∃ a, n_array p ↦ a) ∗
   [∗ list] i ∈ seqZ 0 64, ∃ c, n_slot p i ↦ c ∗ T p i c (sub f k i))%I.

Fixpoint tree_at (k : nat) (par off e : Z) (f : Z -> Z) : hprop :=
  match k with
  | O => ⌜e = f 0 /\ value_ok e⌝
  | S k' =>
      ⌜e = 0 /\ forall j, 0 <= j < span (S k') -> f j = 0⌝ ∨
      ∃ p : Z, ⌜e = (p + 2)%Z /\ node_ok p⌝ ∗ node_body (tree_at k') k' p par off f
  end%I.

Lemma tree_ext k : forall par off e f g, (forall j, 0 <= j < span k -> f j = g j) -> tree_at k par off e f ⊢ tree_at k par off e g.
Proof.
  induction k as [|k IH]; intros par off e f g H; simpl.
  - rw H //; change (span 0) with 1; lia.
  - iIntros "[[-> %H0]|(%p & [-> %Hp] & Hb)]".
    + iLeft. iPureIntro. split; [done|]. intros j Hj. rw -H //. by apply H0.
    + iRight. iExists p. iSplitR; [done|]. iDestruct "Hb" as "($ & $ & $ & $ & Hs)".
      iApply (big_sepL_mono with "Hs"). intros n i Hi. apply lookup_seqZ in Hi as [-> Hn]. iIntros "(%c & Hc & HT)". iExists c. iFrame "Hc".
      iApply (IH with "HT"). intros j Hj. unfold sub. apply H. rw span_S. pose proof (span_pos k). nia.
Qed.

Lemma tree_empty k : forall par off f, (forall j, 0 <= j < span k -> f j = 0) -> ⊢ tree_at k par off 0 f.
Proof.
  intros par off f H. destruct k as [|k]; simpl; [|by iLeft]. iPureIntro. split; [rw H //; change (span 0) with 1; lia|by left].
Qed.

(** One slot of a node, and the node again when the slot has changed: [f'] is
    [f] outside the part below slot [i]. *)
Definition same_except (k : nat) (i : Z) (f f' : Z -> Z) : Prop :=
  forall i' j, 0 <= i' < 64 -> i' <> i -> 0 <= j < span k -> f' (i' * span k + j) = f (i' * span k + j).

Abbreviation body k := (node_body (tree_at k) k).

Lemma node_focus k p par off f i : 0 <= i < 64 ->
  body k p par off f -∗ n_shift p ↦ (6 * Z.of_nat k) ∗ ∃ c, n_slot p i ↦ c ∗ tree_at k p i c (sub f k i) ∗
    (∀ c' f', ⌜same_except k i f f'⌝ -∗
       n_shift p ↦ (6 * Z.of_nat k) -∗ n_slot p i ↦ c' -∗ tree_at k p i c' (sub f' k i) -∗ body k p par off f').
Proof.
  iIntros (Hi) "($ & Ho & Hp & Ha & Hs)".
  assert (seqZ 0 64 !! Z.to_nat i = Some i) as Hl by (apply lookup_seqZ; lia).
  rw (big_sepL_delete _ _ _ _ Hl). iDestruct "Hs" as "[(%c & Hc & HT) Hs]". iExists c. iFrame "Hc HT".
  iIntros (c' f' Hf) "Hsh Hc HT". iFrame "Hsh Ho Hp Ha". iApply (bi.equiv_entails_1_2 _ _ (big_sepL_delete _ (seqZ 0 64) _ _ Hl)). iSplitL "Hc HT"; [iExists c'; iFrame|].
  iApply (big_sepL_mono with "Hs"). intros n x Hx. simpl. destruct (decide (n = Z.to_nat i)) as [->|Hn]; [done|].
  apply lookup_seqZ in Hx as [-> Hx]. iIntros "(%d & Hd & HT)". iExists d. iFrame "Hd". iApply (tree_ext with "HT").
  intros j Hj. unfold sub. symmetry. apply Hf; lia.
Qed.

(** The change of one index, seen from a node and from its slot. *)
Lemma upd_same_except k idx f v : same_except k (digit idx k) f (upd f (idx mod span (S k)) v).
Proof.
  intros i' j Hi Hne Hj. apply upd_ne. rw digit_split. pose proof (Z.mod_pos_bound idx (span k) (span_pos k)).
  pose proof (digit_range idx k). intros E. apply Hne. nia.
Qed.
Lemma upd_sub k idx f v j : 0 <= j < span k ->
  upd (sub f k (digit idx k)) (idx mod span k) v j = sub (upd f (idx mod span (S k)) v) k (digit idx k) j.
Proof.
  intros Hj. unfold sub, upd. rw digit_split. destruct (Z.eqb_spec j (idx mod span k)) as [->|Hne]; [by rw Z.eqb_refl|].
  destruct (Z.eqb_spec (digit idx k * span k + j) (digit idx k * span k + idx mod span k)); [lia|done].
Qed.

(** Going down one level along the path of [idx]. *)
Lemma node_down idx k p par off f :
  body k p par off f -∗ n_shift p ↦ (6 * Z.of_nat k) ∗ ∃ c, n_slot p (digit idx k) ↦ c ∗ tree_at k p (digit idx k) c (sub f k (digit idx k)) ∗
    (∀ c' v, n_shift p ↦ (6 * Z.of_nat k) -∗ n_slot p (digit idx k) ↦ c' -∗
       tree_at k p (digit idx k) c' (upd (sub f k (digit idx k)) (idx mod span k) v) -∗ body k p par off (upd f (idx mod span (S k)) v)).
Proof.
  iIntros "H". iDestruct (node_focus k p par off f (digit idx k) (digit_range idx k) with "H") as "[$ (%c & $ & $ & Hc)]".
  iIntros (c' v) "H1 H2 H3". iApply ("Hc" with "[] H1 H2"); [iPureIntro; apply upd_same_except|].
  iApply (tree_ext with "H3"). intros j Hj. by apply upd_sub.
Qed.

Lemma sub_digit k idx f : sub f k (digit idx k) (idx mod span k) = f (idx mod span (S k)).
Proof. unfold sub. by rw digit_split. Qed.

(** The whole array: a tree of [L] levels, and nothing beyond it. *)
Definition xarray (xa : Z) (f : Z -> Z) : hprop :=
  (∃ L head, ⌜(L <= 11)%nat /\ forall j, span L <= j -> f j = 0⌝ ∗ xa ↦ head ∗ tree_at L 0 0 head f)%I.

Lemma xarray_ext xa f g : (forall j, f j = g j) -> xarray xa f ⊢ xarray xa g.
Proof.
  iIntros (H) "(%L & %head & [%HL %Hz] & Hx & HT)". iExists L, head. iFrame "Hx". iSplitR.
  - iPureIntro. split; [done|]. intros j Hj. rw -H. by apply Hz.
  - iApply (tree_ext with "HT"). intros j _. apply H.
Qed.

(** What the cache of nodes promises: an allocation fails or gives a node that
    nothing else uses, cleared by its constructor. *)
Definition zeroed (p : Z) : hprop :=
  (n_shift p ↦ 0 ∗ n_offset p ↦ 0 ∗ n_parent p ↦ 0 ∗ n_array p ↦ 0 ∗ [∗ list] i ∈ seqZ 0 64, n_slot p i ↦ 0)%I.
Class NodeAlloc (alloc : prog Z) := {
  avail : hprop;
  alloc_spec : avail ⊢ wp alloc (fun p => avail ∗ (⌜p = 0⌝ ∨ ⌜node_ok p⌝ ∗ zeroed p))%I }.

(** ** Loading *)

Section Index.
Context (xa idx : Z) (Hidx : 0 <= idx < 2 ^ 64).

Lemma wp_get_offset p k Q : n_shift p ↦ (6 * Z.of_nat k) -∗ (n_shift p ↦ (6 * Z.of_nat k) -∗ Q (digit idx k)) -∗ wp (get_offset idx p) Q.
Proof. iIntros "H HQ". unfold get_offset. wp_ld "H". iApply wp_ret. rw digit_code; [|lia]. by iApply "HQ". Qed.

Lemma u8_digit k : u8 (digit idx k) = digit idx k.
Proof. unfold u8. pose proof (digit_range idx k). apply Z.mod_small. lia. Qed.

Definition state_at (p : Z) (k : nat) : xa_state := XaState idx 0 (digit idx k) p.

Lemma wp_descend xas p k c Q : xa_index xas = idx -> xa_shift xas = 0 ->
  n_shift p ↦ (6 * Z.of_nat k) -∗ n_slot p (digit idx k) ↦ c -∗
  (n_shift p ↦ (6 * Z.of_nat k) -∗ n_slot p (digit idx k) ↦ c -∗ Q (c, state_at p k)) -∗ wp (xas_descend xas p) Q.
Proof.
  iIntros (Ei Es) "H Hc HQ". unfold xas_descend. rw Ei. iApply wp_bind. iApply (wp_get_offset with "H"). iIntros "H".
  unfold xa_entry. pose proof (digit_range idx k). destruct (Z.leb_spec XA_CHUNK_SIZE (digit idx k)); [unfold XA_CHUNK_SIZE in *; lia|].
  wp_ld "Hc". iApply wp_ret. unfold set_offset, set_node. rw u8_digit /= Ei Es. iApply ("HQ" with "H Hc").
Qed.

(** The operation state is at the slot of [idx] in a node: the entry there is
    [c], the entry of the array at [idx] is [val], and with the slot changed so
    that it becomes [v] one has [F v]. *)
Definition at_node (val : Z) (F : Z -> hprop) (xas : xa_state) (c : Z) : hprop :=
  (∃ k p g, ⌜xas = state_at p k /\ node_ok p /\ g (idx mod span k) = val /\ (k <= 10)%nat⌝ ∗
    n_shift p ↦ (6 * Z.of_nat k) ∗ n_slot p (digit idx k) ↦ c ∗ tree_at k p (digit idx k) c g ∗
    (∀ c' v, n_shift p ↦ (6 * Z.of_nat k) -∗ n_slot p (digit idx k) ↦ c' -∗
       tree_at k p (digit idx k) c' (upd g (idx mod span k) v) -∗ F v))%I.

(** A tree whose entry is not a pointer to a node. *)
Lemma tree_no_node k par off e f : xa_is_node e = false -> tree_at k par off e f -∗ ⌜e = f (idx mod span k) /\ (e = 0 \/ k = 0%nat) /\ value_ok e⌝.
Proof.
  iIntros (He) "H". destruct k as [|k]; simpl.
  - iDestruct "H" as %[-> Hv]. change (span 0) with 1. rw Z.mod_1_r. auto.
  - iDestruct "H" as "[[-> %H]|(%p & [-> %Hp] & _)]"; [|by rw is_node_ptr in He].
    iPureIntro. split; [|split; [auto|by left]]. symmetry. apply H, Z.mod_pos_bound, span_pos.
Qed.

Lemma wp_load_loop k : forall fuel e par off f xas (C : hprop) F, (k < fuel)%nat -> (k <= 11)%nat -> xa_index xas = idx -> xa_shift xas = 0 ->
  (forall v, C ∗ tree_at k par off e (upd f (idx mod span k) v) ⊢ F v) ->
  tree_at k par off e f -∗ C -∗
  wp (xas_load_loop fuel xas e) (fun r =>
    ⌜xa_is_node r.1 = false⌝ ∗
    (⌜r = (e, xas)⌝ ∗ tree_at k par off e f ∗ C ∨ at_node (f (idx mod span k)) F r.2 r.1))%I.
Proof.
  induction k as [|k IH]; intros fuel e par off f xas C F Hf Hk Ei Es HC; iIntros "H HF"; (destruct fuel as [|fuel]; [lia|]); cbn [xas_load_loop].
  - iDestruct "H" as %[E Hv]. rw value_not_node //. iApply wp_ret. rw /= value_not_node //. iSplitR; [done|]. iLeft. auto.
  - iDestruct "H" as "[[-> %H]|(%p & [-> %Hp] & Hb)]".
    { iApply wp_ret. iSplitR; [done|]. iLeft. iSplitR; [done|]. iFrame "HF". by iLeft. }
    rw is_node_ptr // to_node //. simpl negb. cbn iota. cbn zeta. iDestruct (node_down idx with "Hb") as "[Hsh (%c & Hc & HT & Hclose)]".
    wp_ld "Hsh". rw Es. destruct (Z.ltb_spec (6 * Z.of_nat k) 0); [lia|]. iApply wp_bind. iApply (wp_descend with "Hsh Hc"); [done|done|].
    iIntros "Hsh Hc". wp_ld "Hsh". rw -(sub_digit k idx f).
    iAssert (∀ c' v, n_shift p ↦ (6 * Z.of_nat k) -∗ n_slot p (digit idx k) ↦ c' -∗
       tree_at k p (digit idx k) c' (upd (sub f k (digit idx k)) (idx mod span k) v) -∗ F v)%I with "[HF Hclose]" as "HF".
    { iIntros (c' v) "H1 H2 H3". iApply HC. iFrame "HF". iRight. iExists p. iSplitR; [done|]. iApply ("Hclose" with "H1 H2 H3"). }
    destruct (Z.eqb_spec (6 * Z.of_nat k) 0) as [E|E].
    + assert (k = 0%nat) as -> by lia. iDestruct "HT" as %[E1 E2]. iApply wp_ret. rw /= value_not_node //. iSplitR; [done|]. iRight.
      iExists 0%nat, p, (sub f 0 (digit idx 0)). iSplitR; [iPureIntro; split_and!; [done|done|done|lia]|]. iFrame "Hsh Hc HF". done.
    + iApply (wp_wand with "[HT Hsh Hc HF]").
      { iApply (IH fuel c p (digit idx k) (sub f k (digit idx k)) (state_at p k) _ F with "HT [Hsh Hc HF]"); [lia|lia|done|done| |iCombine "Hsh Hc HF" as "H"; iExact "H"].
        iIntros (v) "[(Hsh & Hc & HF) HT]". iApply ("HF" with "Hsh Hc HT"). }
      iIntros (r) "[$ [(-> & HT & Hsh & Hc & HF)|H]]"; iRight; [|iExact "H"]. iExists k, p, _. iFrame. iPureIntro. split_and!; [done|done|done|lia].
Qed.

(** A slot on the path of [idx], with the tree of level [k] below it. *)
Definition at_slot (sl : Z) (k : nat) (par off val : Z) (F : Z -> hprop) (c : Z) : hprop :=
  (∃ g, ⌜g (idx mod span k) = val⌝ ∗ sl ↦ c ∗ tree_at k par off c g ∗
    (∀ c' v, sl ↦ c' -∗ tree_at k par off c' (upd g (idx mod span k) v) -∗ F v))%I.

Lemma at_node_slot val F xas c : at_node val F xas c -∗ ∃ k p, ⌜xas = state_at p k /\ node_ok p /\ (k <= 10)%nat⌝ ∗
  n_shift p ↦ (6 * Z.of_nat k) ∗ at_slot (n_slot p (digit idx k)) k p (digit idx k) val (fun v => n_shift p ↦ (6 * Z.of_nat k) -∗ F v)%I c.
Proof.
  iIntros "(%k & %p & %g & (-> & %Hp & %Hg & %Hk) & Hsh & Hc & HT & HF)". iExists k, p. iSplitR; [done|]. iFrame "Hsh".
  iExists g. iFrame. iSplitR; [done|]. iIntros (c' v) "H1 H2 H3". iApply ("HF" with "H3 H1 H2").
Qed.

(** Nothing changed. *)
Lemma at_slot_close sl k par off val F c : at_slot sl k par off val F c -∗ F val.
Proof.
  iIntros "(%g & <- & Hc & HT & HF)". iApply ("HF" with "Hc"). iApply (tree_ext with "HT"). intros j Hj. by rw upd_same.
Qed.

Lemma at_slot_leaf sl par off val F c : at_slot sl 0 par off val F c -∗
  ⌜c = val /\ value_ok c⌝ ∗ sl ↦ c ∗ (∀ v, ⌜value_ok v⌝ -∗ sl ↦ v -∗ F v).
Proof.
  iIntros "(%g & <- & Hc & [%E %Hv] & HF)". change (idx mod span 0) with (idx mod 1). rw Z.mod_1_r. iSplitR; [done|]. iFrame.
  iIntros (v Hok) "Hc". iApply ("HF" with "Hc"). simpl. by rw upd_eq.
Qed.

Lemma at_slot_val sl k par off val F c : xa_is_node c = false -> at_slot sl k par off val F c -∗ ⌜c = val /\ (c = 0 \/ k = 0%nat)⌝.
Proof. iIntros (Hc) "(%g & <- & _ & HT & _)". iDestruct (tree_no_node with "HT") as %(? & ? & _); done. Qed.

Lemma at_node_val val F xas c : xa_is_node c = false -> at_node val F xas c -∗ ⌜c = val /\ value_ok c⌝.
Proof. iIntros (Hc) "(%k & %p & %g & (_ & _ & <- & _) & _ & _ & HT & _)". iDestruct (tree_no_node with "HT") as %(E & _ & ?); done. Qed.

(** Where a walk can be: out of bounds, at the root or at a slot of a node. *)
Definition walked (f : Z -> Z) (r : Z * xa_state) : hprop :=
  (⌜r = (0, XaState idx 0 0 XAS_BOUNDS) /\ f idx = 0⌝ ∗ xarray xa f ∨
   ⌜r.2 = XaState idx 0 0 0⌝ ∗ (∃ L, at_slot xa L 0 0 (f idx) (fun v => xarray xa (upd f idx v)) r.1) ∨
   at_node (f idx) (fun v => xarray xa (upd f idx v)) r.2 r.1)%I.

Lemma idx_mod L : idx < span L -> idx mod span L = idx.
Proof. intros H. apply Z.mod_small. lia. Qed.

(** An array as a slot: the root. *)
Lemma xarray_slot f L head : (L <= 11)%nat -> (forall j, span L <= j -> f j = 0) -> idx < span L ->
  xa ↦ head -∗ tree_at L 0 0 head f -∗ at_slot xa L 0 0 (f idx) (fun v => xarray xa (upd f idx v)) head.
Proof.
  iIntros (HL Hz Hi) "Hx HT". iExists f. iFrame. rw idx_mod //. iSplitR; [done|]. iIntros (c' v) "Hx HT". iExists L, c'. iFrame.
  iPureIntro. split; [done|]. intros j Hj. rw upd_ne; [|lia]. by apply Hz.
Qed.

Lemma shift_test k : (XA_CHUNK_MASK <? Z.shiftr idx (6 * Z.of_nat k)) = (span (S k) <=? idx).
Proof.
  rw Z.shiftr_div_pow2; [|lia]. fold (span k). rw span_S. pose proof (span_pos k). unfold XA_CHUNK_MASK, XA_CHUNK_SIZE.
  pose proof (Z.div_mod idx (span k)). pose proof (Z.mod_pos_bound idx (span k)).
  destruct (Z.ltb_spec (64 - 1) (idx / span k)), (Z.leb_spec (64 * span k) idx); try reflexivity; nia.
Qed.

Lemma load_loop_null fuel xas : (11 < fuel)%nat -> ⊢ wp (xas_load_loop fuel xas 0) (fun r => ⌜r = (0, xas)⌝)%I.
Proof. intros Hf. destruct fuel; [lia|]. iApply wp_ret. done. Qed.

Lemma wp_xas_load f fuel node : (11 < fuel)%nat -> node = XAS_RESTART \/ node = XAS_BOUNDS ->
  xarray xa f -∗ wp (xas_load xa fuel (XaState idx 0 0 node)) (fun r => ⌜r.1 = f idx /\ value_ok r.1⌝ ∗ walked f r)%I.
Proof.
  iIntros (Hf Hn) "(%L & %head & [%HL %Hz] & Hx & HT)". unfold xas_load. iApply wp_bind. unfold xas_start.
  assert (xas_valid (XaState idx 0 0 node) = false) as -> by (destruct Hn as [-> | ->]; reflexivity).
  assert (xas_error (XaState idx 0 0 node) = 0) as -> by (destruct Hn as [-> | ->]; reflexivity).
  rw Z.eqb_refl. simpl negb. cbn iota. wp_ld "Hx". cbn [xa_index].
  destruct (decide (idx < span L)) as [Hi|Hi].
  - (* within the tree *)
    iAssert (wp (if negb (xa_is_node head) then (if negb (idx =? 0) then set_bounds (XaState idx 0 0 node) else mret (head, set_node (XaState idx 0 0 node) 0))
        else sh ← ld (n_shift (xa_to_node head)); if XA_CHUNK_MASK <? Z.shiftr idx sh then set_bounds (XaState idx 0 0 node) else mret (head, set_node (XaState idx 0 0 node) 0))
      (fun r => ⌜r = (head, XaState idx 0 0 0) \/ r = (0, XaState idx 0 0 XAS_BOUNDS) /\ f idx = 0⌝ ∗ tree_at L 0 0 head f)%I) with "[HT]" as "H".
    { destruct L as [|k].
      - change (span 0) with 1 in Hi. iDestruct "HT" as %[E Hv]. rw value_not_node //. assert (idx = 0) as -> by lia. iApply wp_ret. auto.
      - iDestruct "HT" as "[[-> %H]|(%p & [-> %Hp] & Hb)]".
        + simpl xa_is_node. cbn [negb]. cbn iota. destruct (Z.eqb_spec idx 0); simpl negb; cbn iota; iApply wp_ret; (iSplitR; [iPureIntro|by iLeft]); auto.
          right. split; [done|]. apply H. lia.
        + rw is_node_ptr // to_node //. simpl negb. cbn iota. iDestruct "Hb" as "(Hsh & Hb)". wp_ld "Hsh".
          rw shift_test. destruct (Z.leb_spec (span (S k)) idx); [lia|]. iApply wp_ret. iSplitR; [by iLeft|]. iRight. iExists p. iSplitR; [done|]. iFrame. }
    iApply (wp_wand with "H"). iIntros (r) "[[->|[-> %H0]] HT]".
    + iApply (wp_wand with "[HT Hx]").
      { iApply (wp_load_loop L fuel head 0 0 f (XaState idx 0 0 0) (xa ↦ head)%I (fun v => xarray xa (upd f idx v)) with "HT Hx"); [lia|lia|done|done|].
        iIntros (v) "[Hx HT]". rw idx_mod //. iExists L, head. iFrame. iPureIntro. split; [done|]. intros j Hj. rw upd_ne; [|lia]. by apply Hz. }
      iIntros (r) "[%Hr [(-> & HT & Hx)|H]]"; rw ?idx_mod //.
      * iDestruct (tree_no_node with "HT") as %(E & _ & Hv); [done|]. rw idx_mod // in E. iSplitR; [done|]. iRight. iLeft. iSplitR; [done|]. iExists L.
        iApply (xarray_slot with "Hx HT"); done.
      * iDestruct (at_node_val with "H") as %[E Hv]; [done|]. iSplitR; [done|]. iRight. iRight. done.
    + iApply (wp_wand with "[]"); [by iApply load_loop_null|]. iIntros (r ->). iSplitR; [iPureIntro; split; [done|by left]|]. iLeft. iSplitR; [done|]. iExists L, head. by iFrame.
  - (* beyond the tree *)
    assert (f idx = 0) as H0 by (apply Hz; lia).
    iAssert (wp (if negb (xa_is_node head) then (if negb (idx =? 0) then set_bounds (XaState idx 0 0 node) else mret (head, set_node (XaState idx 0 0 node) 0))
        else sh ← ld (n_shift (xa_to_node head)); if XA_CHUNK_MASK <? Z.shiftr idx sh then set_bounds (XaState idx 0 0 node) else mret (head, set_node (XaState idx 0 0 node) 0))
      (fun r => ⌜r = (0, XaState idx 0 0 XAS_BOUNDS)⌝ ∗ tree_at L 0 0 head f)%I) with "[HT]" as "H".
    { assert (idx <> 0) as Hne by (pose proof (span_pos L); lia). apply Z.eqb_neq in Hne. destruct L as [|k].
      - iDestruct "HT" as %[E Hv]. rw value_not_node // Hne. iApply wp_ret. auto.
      - iDestruct "HT" as "[[-> %H]|(%p & [-> %Hp] & Hb)]".
        + rw Hne. iApply wp_ret. iSplitR; [done|]. by iLeft.
        + rw is_node_ptr // to_node //. simpl negb. cbn iota. iDestruct "Hb" as "(Hsh & Hb)". wp_ld "Hsh".
          rw shift_test. destruct (Z.leb_spec (span (S k)) idx); [|lia]. iApply wp_ret. iSplitR; [done|]. iRight. iExists p. iSplitR; [done|]. iFrame. }
    iApply (wp_wand with "H"). iIntros (r) "[-> HT]".
    iApply (wp_wand with "[]"); [by iApply load_loop_null|]. iIntros (r ->). iSplitR; [iPureIntro; split; [done|by left]|]. iLeft. iSplitR; [done|]. iExists L, head. by iFrame.
Qed.

(** ** Storing *)

Context {alloc : prog Z} {Halloc : NodeAlloc alloc}.

(** A cleared node is an empty tree. *)
Lemma zeroed_body k p par off a f : (forall j, 0 <= j < span (S k) -> f j = 0) ->
  n_shift p ↦ (6 * Z.of_nat k) -∗ n_offset p ↦ off -∗ n_parent p ↦ par -∗ n_array p ↦ a -∗
  ([∗ list] i ∈ seqZ 0 64, n_slot p i ↦ 0) -∗ body k p par off f.
Proof.
  iIntros (Hf) "$ $ $ Ha Hs". iSplitL "Ha"; [by iExists a|]. iApply (big_sepL_mono with "Hs"). intros n i Hi.
  apply lookup_seqZ in Hi as [-> Hn]. iIntros "H". iExists 0. iFrame. iApply tree_empty. intros j Hj. unfold sub. apply Hf.
  rw span_S. pose proof (span_pos k). nia.
Qed.

Definition off_of (xas : xa_state) : Z := if xa_node xas =? 0 then 0 else xa_offset xas.

Lemma wp_xas_alloc xas k : xas_invalid xas = false -> (k <= 10)%nat ->
  avail -∗ wp (xas_alloc alloc xa xas (6 * Z.of_nat k)) (fun r => avail ∗
    (⌜r = (0, xas_set_err xas (- ENOMEM))⌝ ∨
     ∃ p, ⌜r = (p, xas) /\ node_ok p⌝ ∗ n_shift p ↦ (6 * Z.of_nat k) ∗ n_offset p ↦ off_of xas ∗ n_parent p ↦ xa_node xas ∗
       n_array p ↦ xa ∗ [∗ list] i ∈ seqZ 0 64, n_slot p i ↦ 0))%I.
Proof.
  iIntros (Hv Hk) "Ha". unfold xas_alloc. rw Hv. iApply wp_bind. iApply (wp_wand with "[Ha]"); [iApply (alloc_spec with "Ha")|].
  iIntros (p) "[Ha [->|[%Hp (Hsh & Hof & Hpa & Har & Hs)]]]"; [iApply wp_ret; iFrame; by iLeft|].
  destruct (node_ne p Hp) as [-> _]. iApply wp_bind.
  iAssert (wp (if xa_node xas =? 0 then mret tt else st (n_offset p) (xa_offset xas)) (fun _ => n_offset p ↦ off_of xas)%I) with "[Hof]" as "H".
  { unfold off_of. destruct (xa_node xas =? 0); [by iApply wp_ret|]. iApply (wp_st with "Hof"). by iIntros "$". }
  iApply (wp_wand with "H"). iIntros (_) "Hof". destruct (Z.ltb_spec 64 (6 * Z.of_nat k)); [lia|]. iApply wp_bind. iApply wp_ret.
  assert (u8 (6 * Z.of_nat k) = 6 * Z.of_nat k) as -> by (apply Z.mod_small; lia). wp_st "Hsh". wp_st "Hpa". wp_st "Har". iApply wp_ret. iFrame "Ha". iRight. iExists p. iSplitR; [done|]. iFrame "Hsh Hof Hpa Har Hs".
Qed.

Definition slot_of (xas : xa_state) : Z := if xa_node xas =? 0 then xa else n_slot (xa_node xas) (xa_offset xas).

(** The slot of [idx] has been reached, or an allocation has failed. *)
Definition created (val : Z) (F : Z -> hprop) (r : Z * xa_state) : hprop :=
  (⌜xas_invalid r.2 = true /\ xas_error r.2 = - ENOMEM⌝ ∗ F val ∨
   ⌜xas_invalid r.2 = false /\ xas_error r.2 = 0 /\ r.1 = val⌝ ∗ slot_of r.2 ↦ val ∗ (∀ v, ⌜value_ok v⌝ -∗ slot_of r.2 ↦ v -∗ F v))%I.

Lemma wp_create_loop k : forall fuel xas e sl par off val F, (k < fuel)%nat -> (k <= 11)%nat -> xa_index xas = idx -> xa_shift xas = 0 ->
  xas_invalid xas = false -> xas_error xas = 0 ->
  (sl = slot_of xas /\ par = xa_node xas /\ off = off_of xas \/ xa_is_node e = true) ->
  at_slot sl k par off val F e -∗ avail -∗
  wp (create_loop alloc xa fuel xas (6 * Z.of_nat k) 0 e sl) (fun r => avail ∗ created val F r)%I.
Proof.
  induction k as [|k IH]; intros fuel xas e sl par off val F Hf Hk Ei Es Hv Herr Hsl; iIntros "H Ha"; (destruct fuel as [|fuel]; [lia|]); cbn [create_loop].
  - change (6 * Z.of_nat 0) with 0. rw Z.ltb_irrefl. iApply wp_ret. iFrame "Ha". iDestruct (at_slot_leaf with "H") as "([-> %Hval] & Hc & HF)".
    destruct Hsl as [(-> & _)|Hn]; [|by rw value_not_node in Hn]. iRight. by iFrame.
  - destruct (Z.ltb_spec 0 (6 * Z.of_nat (S k))); [|lia]. cbn zeta.
    replace (6 * Z.of_nat (S k) - XA_CHUNK_SHIFT) with (6 * Z.of_nat k) by (unfold XA_CHUNK_SHIFT; lia).
    iDestruct "H" as "(%g & <- & Hc & HT & HF)".
    (* the step down, from a node that is there *)
    iAssert (∀ p xas', ⌜node_ok p /\ xa_index xas' = idx /\ xa_shift xas' = 0⌝ -∗ sl ↦ (p + 2)%Z -∗ body k p par off g -∗
      (∀ c' v, sl ↦ c' -∗ tree_at (S k) par off c' (upd g (idx mod span (S k)) v) -∗ F v) -∗ avail -∗
      wp ('(entry, xas) ← xas_descend xas' p; create_loop alloc xa fuel xas (6 * Z.of_nat k) 0 entry (n_slot p (xa_offset xas)))
         (fun r => avail ∗ created (g (idx mod span (S k))) F r))%I as "Hdown".
    { iIntros (p xas' (Hp & Ei' & Es')) "Hsl Hb HF Ha". iDestruct (node_down idx with "Hb") as "[Hsh (%c & Hc & HT & Hclose)]".
      iApply wp_bind. iApply (wp_descend with "Hsh Hc"); [done|done|]. iIntros "Hsh Hc". cbn [state_at xa_offset]. rw -(sub_digit k idx g).
      destruct (node_ne p Hp) as [Hp0 _].
      iApply (IH fuel (state_at p k) c (n_slot p (digit idx k)) p (digit idx k) with "[-Ha] Ha"); [lia|lia|done|done|by apply node_valid|by apply node_no_error| |].
      { left. unfold slot_of, off_of. simpl. by rw Hp0. }
      iExists (sub g k (digit idx k)). iFrame "Hc HT". iSplitR; [done|]. iIntros (c' v) "Hc HT". iApply ("HF" with "Hsl").
      iRight. iExists p. iSplitR; [done|]. iApply ("Hclose" with "Hsh Hc HT"). }
    iDestruct "HT" as "[[-> %H0]|(%p & [-> %Hp] & Hb)]".
    + rw Z.eqb_refl. destruct Hsl as [(-> & -> & ->)|]; [|done]. iApply wp_bind. iApply wp_bind.
      iApply (wp_wand with "[Ha]"); [iApply (wp_xas_alloc xas k with "Ha"); [done|lia]|].
      iIntros (r) "[Ha [->|(%p & [-> %Hp] & Hsh & Hof & Hpa & Har & Hs)]]".
      * rw Z.eqb_refl. iApply wp_ret. iApply wp_ret. iFrame "Ha". iLeft. iSplitR; [done|]. iApply ("HF" with "Hc"). iLeft. iPureIntro. split; [done|].
        intros j Hj. rw upd_same. by apply H0.
      * destruct (node_ne p Hp) as [-> _]. wp_st "Hc". iApply wp_ret. rw mk_node //.
        iApply ("Hdown" with "[] Hc [-HF Ha] HF Ha"); [done|]. iApply (zeroed_body with "Hsh Hof Hpa Har Hs"). done.
    + destruct (node_ne p Hp) as [_ ->]. rw is_node_ptr // to_node //. iApply wp_bind. iApply wp_ret.
      iApply ("Hdown" with "[] Hc Hb HF Ha"). done.
Qed.

(** A tree with an entry: a value at level 0 or a node. *)
Lemma tree_cases L par off e f : e <> 0 -> tree_at L par off e f -∗
  ⌜L = 0%nat /\ e = f 0 /\ value_ok e⌝ ∨ ∃ k p, ⌜L = S k /\ e = (p + 2)%Z /\ node_ok p⌝ ∗ body k p par off f.
Proof.
  iIntros (He) "H". destruct L as [|k]; simpl; [iLeft; iDestruct "H" as %[? ?]; auto|].
  iDestruct "H" as "[[-> _]|(%p & [-> %Hp] & Hb)]"; [done|]. iRight. iExists k, p. iSplitR; [done|]. iExact "Hb".
Qed.

Lemma wp_max_index L par off e f : e <> 0 -> (L <= 11)%nat -> tree_at L par off e f -∗
  wp (max_index e) (fun mi => ⌜(mi <? idx) = (span L <=? idx)⌝ ∗ tree_at L par off e f)%I.
Proof.
  iIntros (He HL) "H". unfold max_index. iDestruct (tree_cases with "H") as "[(-> & -> & %Hv)|(%k & %p & (-> & -> & %Hp) & Hb)]"; [done| |].
  - rw value_not_node //. iApply wp_ret. iSplitL; [|done]. iPureIntro. change (span 0) with 1.
    destruct (Z.ltb_spec 0 idx), (Z.leb_spec 1 idx); reflexivity || lia.
  - rw is_node_ptr // to_node //. iDestruct "Hb" as "[Hsh Hb]". wp_ld "Hsh". iApply wp_ret.
    iSplitR; [iPureIntro; apply max_index_test; lia|]. iRight. iExists p. iSplitR; [done|]. iFrame "Hsh Hb".
Qed.

(** A new root above the old one. *)
Lemma wp_relink L f head p : head <> 0 -> tree_at L 0 0 head f -∗
  wp (if xa_is_node head then st (n_offset (xa_to_node head)) 0;; st (n_parent (xa_to_node head)) p else mret tt)
     (fun _ => tree_at L p 0 head f).
Proof.
  iIntros (He) "H". iDestruct (tree_cases with "H") as "[(-> & %E & %Hv)|(%k & %q & (-> & -> & %Hq) & Hb)]"; [done| |].
  - rw value_not_node //. iApply wp_ret. done.
  - rw is_node_ptr // to_node //. iDestruct "Hb" as "(Hsh & Ho & Hp & Hr)". wp_st "Ho". iApply (wp_st with "Hp"). iIntros "Hp".
    iRight. iExists q. iSplitR; [done|]. iFrame "Hsh Ho Hp Hr".
Qed.

Lemma slots_split (Φ : Z -> hprop) : ([∗ list] i ∈ seqZ 0 64, Φ i) ⊣⊢ Φ 0 ∗ [∗ list] i ∈ seqZ 1 63, Φ i.
Proof. rw (seqZ_cons 0 64); [|lia]. done. Qed.

Lemma new_root L f head p a : (forall j, span L <= j -> f j = 0) -> node_ok p ->
  n_shift p ↦ (6 * Z.of_nat L) -∗ n_offset p ↦ 0 -∗ n_parent p ↦ 0 -∗ n_array p ↦ a -∗ n_slot p 0 ↦ head -∗ ([∗ list] i ∈ seqZ 1 63, n_slot p i ↦ 0) -∗
  tree_at L p 0 head f -∗ tree_at (S L) 0 0 (p + 2) f.
Proof.
  iIntros (Hz Hp) "H1 H2 H3 H4 H5 H6 HT". iRight. iExists p. iSplitR; [done|]. iFrame "H1 H2 H3". iSplitL "H4"; [by iExists a|].
  iApply (bi.equiv_entails_1_2 _ _ (slots_split _)). iSplitL "H5 HT".
  - iExists head. iFrame "H5". iApply (tree_ext with "HT"). intros j Hj. unfold sub. f_equal; lia.
  - iApply (big_sepL_mono with "H6"). intros n i Hi. apply lookup_seqZ in Hi as [-> Hn]. iIntros "H". iExists 0. iFrame "H".
    iApply tree_empty. intros j Hj. unfold sub. apply Hz. pose proof (span_pos L). nia.
Qed.

(** What [xas_expand] leaves: a tree high enough for [idx]. *)
Definition expanded (f : Z -> Z) (xas : xa_state) (r : Z * xa_state) : hprop :=
  (⌜r = (- ENOMEM, xas_set_err xas (- ENOMEM))⌝ ∗ xarray xa f ∨
   ∃ L head node, ⌜r = ((6 * Z.of_nat L)%Z, set_node xas node) /\ (L <= 11)%nat /\ idx < span L /\ (forall j, span L <= j -> f j = 0) /\
       (head = 0 /\ node = 0 \/ L = 0%nat /\ node = 0 \/ head = (node + 2)%Z /\ node_ok node)⌝ ∗
     xa ↦ head ∗ tree_at L 0 0 head f)%I.

Lemma wp_expand_loop f n : forall fuel L head node o, (n < fuel)%nat -> (L + n = 11)%nat -> (forall j, span L <= j -> f j = 0) -> head <> 0 ->
  (L = 0%nat /\ node = 0 \/ head = (node + 2)%Z /\ node_ok node) ->
  xa ↦ head -∗ tree_at L 0 0 head f -∗ avail -∗
  wp (expand_loop alloc xa fuel (XaState idx 0 o 0) head node (6 * Z.of_nat L)) (fun r => avail ∗ expanded f (XaState idx 0 o 0) r)%I.
Proof.
  induction n as [|n IH]; intros fuel L head node o Hf HL Hz He Hnode; (destruct fuel as [|fuel]; [lia|]); iIntros "Hx HT Ha"; cbn [expand_loop];
    iApply wp_bind; (iApply (wp_wand with "[HT]"); [iApply (wp_max_index with "HT"); [done|lia]|]); iIntros (mi) "[%Hmi HT]"; cbn [xa_index]; rw Hmi;
    destruct (Z.leb_spec (span L) idx) as [Hle|Hgt].
  - pose proof (span_room idx L ltac:(lia) Hle). lia.
  - iApply wp_ret. iFrame "Ha". iRight. iExists L, head, node. iSplitR; [iPureIntro; repeat split; auto; lia|]. iFrame "Hx HT".
  - destruct (Z.ltb_spec 64 (6 * Z.of_nat L)); [lia|]. iApply wp_bind. iApply wp_ret. iApply wp_bind.
    iApply (wp_wand with "[Ha]"); [iApply (wp_xas_alloc (XaState idx 0 o 0) L with "Ha"); [done|lia]|].
    iIntros (r) "[Ha [->|(%p & [-> %Hp] & Hsh & Hof & Hpa & Har & Hs)]]".
    + rw Z.eqb_refl. iApply wp_ret. iFrame "Ha". iLeft. iSplitR; [done|]. iExists L, head. iFrame "Hx HT". iPureIntro. split; [lia|done].
    + destruct (node_ne p Hp) as [-> _]. iDestruct (bi.equiv_entails_1_1 _ _ (slots_split (fun i => n_slot p i ↦ 0)%I) with "Hs") as "[H0 Hs]". wp_st "H0". iApply wp_bind.
      iApply (wp_wand with "[HT]"); [iApply (wp_relink with "HT"); done|]. iIntros (_) "HT". cbn zeta. rw mk_node //. wp_st "Hx".
      iDestruct (new_root with "Hsh Hof Hpa Har H0 Hs HT") as "HT"; [done|done|].
      replace (6 * Z.of_nat L + XA_CHUNK_SHIFT) with (6 * Z.of_nat (S L)) by (unfold XA_CHUNK_SHIFT; lia).
      iApply (IH fuel (S L) (p + 2) p o with "Hx HT Ha"); [lia|lia| |destruct Hp; lia|auto].
      intros j Hj. apply Hz. pose proof (span_le L (S L)). lia.
  - iApply wp_ret. iFrame "Ha". iRight. iExists L, head, node. iSplitR; [iPureIntro; repeat split; auto; lia|]. iFrame "Hx HT".
Qed.

Lemma tree_null L par off f : tree_at L par off 0 f -∗ ⌜forall j, 0 <= j < span L -> f j = 0⌝.
Proof.
  iIntros "H". destruct L as [|k]; simpl.
  - iDestruct "H" as %[E _]. iPureIntro. intros j Hj. change (span 0) with 1 in Hj. replace j with 0 by lia. done.
  - iDestruct "H" as "[[_ $]|(%p & [%E %Hp] & _)]". destruct Hp. lia.
Qed.

Lemma wp_shift_loop n : forall fuel m, (n < fuel)%nat -> (m + n = 10)%nat ->
  ⊢ wp (shift_loop fuel idx (6 * Z.of_nat m)) (fun sh => ⌜exists m', (m' <= 10)%nat /\ sh = (6 * Z.of_nat m')%Z /\ idx < span (S m')⌝)%I.
Proof.
  assert (forall m, (XA_CHUNK_SIZE <=? Z.shiftr idx (6 * Z.of_nat m)) = (span (S m) <=? idx)) as Ht.
  { intros m. rw -(shift_test m). unfold XA_CHUNK_MASK.
    destruct (Z.leb_spec XA_CHUNK_SIZE (Z.shiftr idx (6 * Z.of_nat m))), (Z.ltb_spec (XA_CHUNK_SIZE - 1) (Z.shiftr idx (6 * Z.of_nat m))); reflexivity || lia. }
  induction n as [|n IH]; intros fuel m Hf Hm; (destruct fuel as [|fuel]; [lia|]); cbn [shift_loop]; rw Ht; destruct (Z.leb_spec (span (S m)) idx).
  - pose proof (span_room idx (S m) ltac:(lia) H). lia.
  - iApply wp_ret. iPureIntro. exists m. split; [lia|auto].
  - replace (6 * Z.of_nat m + XA_CHUNK_SHIFT) with (6 * Z.of_nat (S m)) by (unfold XA_CHUNK_SHIFT; lia). iApply IH; lia.
  - iApply wp_ret. iPureIntro. exists m. split; [lia|auto].
Qed.

Lemma wp_xas_expand f fuel o L head : (11 < fuel)%nat -> (L <= 11)%nat -> (forall j, span L <= j -> f j = 0) ->
  xa ↦ head -∗ tree_at L 0 0 head f -∗ avail -∗
  wp (xas_expand alloc xa fuel (XaState idx 0 o 0) head) (fun r => avail ∗ expanded f (XaState idx 0 o 0) r)%I.
Proof.
  iIntros (Hf HL Hz) "Hx HT Ha". unfold xas_expand. destruct (Z.eqb_spec head 0) as [->|He].
  - iDestruct (tree_null with "HT") as %H0.
    assert (forall j, 0 <= j -> f j = 0) as Hall. { intros j Hj. destruct (decide (j < span L)); [apply H0; lia|apply Hz; lia]. }
    iAssert (∀ L', ⌜(L' <= 11)%nat /\ idx < span L'⌝ -∗ avail -∗ xa ↦ 0 -∗ avail ∗ expanded f (XaState idx 0 o 0) ((6 * Z.of_nat L')%Z, XaState idx 0 o 0))%I as "Hr".
    { iIntros (L' [HL' Hi]) "$ Hx". iRight. iExists L', 0, 0. iFrame "Hx". iSplitR.
      - iPureIntro. split; [done|]. split; [done|]. split; [done|]. split; [|auto]. intros j Hj. apply Hall. pose proof (span_pos L'). lia.
      - iApply tree_empty. intros j Hj. apply Hall. lia. }
    cbn [xa_index]. destruct (Z.eqb_spec idx 0) as [->|Hne].
    + iApply wp_ret. iApply ("Hr" $! 0%nat with "[] Ha Hx"). iPureIntro. split; [lia|done].
    + iApply wp_bind. iApply (wp_wand with "[]"); [iApply (wp_shift_loop 10 fuel 0); lia|]. iIntros (sh (m & Hm & -> & Hi)). iApply wp_ret.
      replace (6 * Z.of_nat m + XA_CHUNK_SHIFT) with (6 * Z.of_nat (S m)) by (unfold XA_CHUNK_SHIFT; lia).
      iApply ("Hr" $! (S m) with "[] Ha Hx"). iPureIntro. split; [lia|done].
  - iDestruct (tree_cases with "HT") as "[(-> & %E & %Hv)|(%k & %p & (-> & -> & %Hp) & Hb)]"; [done| |].
    + rw value_not_node //. iApply wp_bind. iApply wp_ret. change 0 with (6 * Z.of_nat 0) at 7.
      iApply (wp_expand_loop f 11 fuel 0 head 0 o with "Hx [] Ha"); [lia|lia|done|done|auto|done].
    + rw is_node_ptr // to_node //. iDestruct "Hb" as "[Hsh Hb]". iApply wp_bind. wp_ld "Hsh". iApply wp_ret.
      replace (6 * Z.of_nat k + XA_CHUNK_SHIFT) with (6 * Z.of_nat (S k)) by (unfold XA_CHUNK_SHIFT; lia).
      iApply (wp_expand_loop f (10 - k) fuel (S k) (p + 2) p o with "Hx [Hsh Hb] Ha"); [lia|lia|done|done|auto|].
      iRight. iExists p. iSplitR; [done|]. iFrame "Hsh Hb".
Qed.

Abbreviation stored f := (fun v => xarray xa (upd f idx v)).

Lemma wp_create_top f fuel o node : (11 < fuel)%nat -> xas_top node = true ->
  xarray xa f -∗ avail -∗ wp (xas_create alloc xa fuel (XaState idx 0 o node) true) (fun r => avail ∗ created (f idx) (stored f) r)%I.
Proof.
  iIntros (Hf Ht) "(%L & %head & [%HL %Hz] & Hx & HT) Ha". unfold xas_create. cbn [xa_node xa_shift]. rw Ht. wp_ld "Hx".
  iApply wp_bind. iApply (wp_wand with "[Hx HT Ha]"); [iApply (wp_xas_expand with "Hx HT Ha"); done|].
  iIntros (r) "[Ha [[-> H]|(%L' & %head' & %node' & (-> & %HL' & %Hi & %Hz' & %Hn) & Hx & HT)]]".
  - simpl. iApply wp_ret. iFrame "Ha". iLeft. iSplitR; [done|]. iApply (xarray_ext with "H"). intros j. by rw upd_same.
  - cbn iota. destruct (Z.ltb_spec (6 * Z.of_nat L') 0); [lia|]. rw andb_false_r. cbn iota zeta. wp_ld "Hx".
    iAssert ⌜head' = 0 /\ node' = 0 \/ L' = 0%nat /\ node' = 0 \/ xa_is_node head' = true /\ node_ok node'⌝%I as %Hn'.
    { iPureIntro. destruct Hn as [?|[?|[-> ?]]]; [auto|auto|]. right. right. split; [by apply is_node_ptr|done]. }
    iApply (wp_create_loop L' fuel _ head' xa 0 0 with "[Hx HT] Ha"); [lia|lia|done|done| | | |].
    + destruct Hn' as [[_ ->]|[[_ ->]|[_ H']]]; [done|done|by apply node_valid].
    + destruct Hn' as [[_ ->]|[[_ ->]|[_ H']]]; [done|done|by apply node_no_error].
    + destruct Hn' as [[_ ->]|[[_ ->]|[H' _]]]; [left; done|left; done|by right].
    + iApply (xarray_slot with "Hx HT"); done.
Qed.

Lemma created_mono val F F' r (P : hprop) : (forall v, P ∗ F v ⊢ F' v) -> P -∗ created val F r -∗ created val F' r.
Proof.
  iIntros (H) "HP [[% HF]|(% & Hs & HF)]".
  - iLeft. iSplitR; [done|]. iApply H. iFrame.
  - iRight. iSplitR; [done|]. iFrame "Hs". iIntros (v Hv) "Hs". iApply H. iFrame "HP". iApply ("HF" with "[//] Hs").
Qed.

(** A walk that stopped at a slot goes on from there. *)
Lemma wp_create_walked f fuel r : (11 < fuel)%nat -> walked f r -∗ avail -∗
  wp (xas_create alloc xa fuel r.2 true) (fun r => avail ∗ created (f idx) (stored f) r)%I.
Proof.
  iIntros (Hf) "[[[-> %H0] H]|[[%E (%L & H)]|H]] Ha".
  - iApply (wp_create_top with "H Ha"); done.
  - destruct r as [c xas]. simpl in E. subst xas. iDestruct (at_slot_close with "H") as "H". iApply (wp_create_top with "[H] Ha"); [done|done|].
    iApply (xarray_ext with "H"). intros j. by rw upd_same.
  - destruct r as [c xas]. iDestruct (at_node_slot with "H") as (k p) "((%E & %Hp & %Hk) & Hsh & H)". simpl in E. subst xas. cbn [snd fst].
    destruct (node_ne p Hp) as [Hp0 _]. unfold xas_create. cbn [xa_node xa_shift xa_offset state_at]. rw node_not_top // /xas_error /= node_no_error // Hp0.
    wp_ld "Hsh". iDestruct "H" as "(%g & %Hg & Hc & H)". unfold xa_entry. pose proof (digit_range idx k).
    destruct (Z.leb_spec XA_CHUNK_SIZE (digit idx k)); [unfold XA_CHUNK_SIZE in *; lia|]. wp_ld "Hc".
    iApply (wp_wand with "[H Hc Ha]").
    { iApply (wp_create_loop k fuel (state_at p k) c (n_slot p (digit idx k)) p (digit idx k) (f idx) with "[H Hc] Ha");
        [lia|lia|done|done|by apply node_valid|by apply node_no_error| |iExists g; iFrame "Hc H"; done].
      left. unfold slot_of, off_of. simpl. by rw Hp0. }
    iIntros (r) "[$ H]". iApply (created_mono with "Hsh H"). intros v. iIntros "[Hsh HF]". by iApply "HF".
Qed.

(** The outcome of a store. *)
Definition store_post (f : Z -> Z) (v : Z) (r : Z * xa_state) : hprop :=
  (⌜xas_error r.2 = 0 /\ r.1 = f idx⌝ ∗ xarray xa (upd f idx v) ∨ ⌜v <> 0 /\ xas_error r.2 = - ENOMEM⌝ ∗ xarray xa f)%I.

Lemma wp_store_value f fuel xas v : v <> 0 -> value_ok v ->
  (avail -∗ wp (xas_create alloc xa fuel xas true) (fun r => avail ∗ created (f idx) (stored f) r)) -∗ avail -∗
  wp (xas_store alloc xa fuel xas v) (fun r => avail ∗ store_post f v r)%I.
Proof.
  iIntros (Hv Hok) "Hc Ha". unfold xas_store. apply Z.eqb_neq in Hv as Hv0. rw Hv0 value_not_node // value_not_zero_entry //. cbn [negb andb].
  cbn iota. iApply wp_bind. iApply (wp_wand with "[Hc Ha]"); [iApply ("Hc" with "Ha")|].
  iIntros ([first xas']) "[Ha [[[%E1 %E2] H]|((%E1 & %E2 & %E3) & Hs & HF)]]"; simpl in E1, E2; cbn iota; rw E1.
  - iApply wp_ret. iFrame "Ha". iRight. iSplitR; [done|]. iApply (xarray_ext with "H"). intros j. by rw upd_same.
  - simpl in E3. subst first. destruct (Z.eqb_spec (f idx) v) as [E|Hne].
    + iApply wp_ret. iFrame "Ha". iLeft. iSplitR; [done|]. rw -E. iApply ("HF" with "[%] Hs"). by rw E.
    + wp_st "Hs". iApply wp_ret. iFrame "Ha". iLeft. iSplitR; [done|]. iApply ("HF" with "[//] Hs").
Qed.

Lemma wp_store_null f fuel node : (11 < fuel)%nat -> node = XAS_RESTART \/ node = XAS_BOUNDS -> xarray xa f -∗
  wp (xas_store alloc xa fuel (XaState idx 0 0 node) 0) (fun r => store_post f 0 r)%I.
Proof.
  iIntros (Hf Hn) "H". unfold xas_store. cbn iota. iApply wp_bind. iApply (wp_wand with "[H]"); [iApply (wp_xas_load with "H"); done|].
  assert (f idx = 0 -> forall j, f j = upd f idx 0 j) as Hsame.
  { intros E j. unfold upd. destruct (Z.eqb_spec j idx) as [->|]; [by rw E|done]. }
  iIntros ([c xas]) "[[%Ec %Hv] H]". simpl in Ec, Hv. subst c. cbn iota.
  iDestruct "H" as "[[[%E %H0] H]|[[%E (%L & H)]|H]]".
  - injection E as E1 E2. subst xas. iApply wp_ret. iLeft. iSplitR; [done|]. iApply (xarray_ext with "H"). auto.
  - simpl in E. subst xas. simpl. iDestruct (at_slot_val with "H") as %[_ HL]; [by apply value_not_node|].
    destruct (Z.eqb_spec (f idx) 0) as [E|Hne].
    + iApply wp_ret. iLeft. iSplitR; [done|]. iDestruct (at_slot_close with "H") as "H". rw E. done.
    + destruct HL as [?| ->]; [done|]. iDestruct (at_slot_leaf with "H") as "(_ & Hs & HF)". wp_st "Hs". iApply wp_ret. iLeft. iSplitR; [done|].
      iApply ("HF" with "[%] Hs"). by left.
  - iDestruct (at_node_slot with "H") as (k p) "((%E & %Hp & %Hk) & Hsh & H)". simpl in E. subst xas. rw node_valid //. simpl.
    iDestruct (at_slot_val with "H") as %[_ HL]; [by apply value_not_node|]. destruct (node_ne p Hp) as [Hp0 _].
    destruct (Z.eqb_spec (f idx) 0) as [E|Hne].
    + iApply wp_ret. iLeft. iSplitR; [iPureIntro; split; [by apply node_no_error|done]|]. iDestruct (at_slot_close with "H Hsh") as "H". simpl. rw E. done.
    + destruct HL as [?| ->]; [done|]. iDestruct (at_slot_leaf with "H") as "(_ & Hs & HF)". rw Hp0. wp_st "Hs". iApply wp_ret. iLeft.
      iSplitR; [iPureIntro; split; [by apply node_no_error|done]|]. iApply ("HF" with "[%] Hs Hsh"). by left.
Qed.
End Index.
