(* ===== verification/XArraySpec.v ===== *)
(** * The contract of the sparse arrays

    Function-level statements about [XArray]: loading and storing at an index,
    from a fresh operation state or from one that a load has walked (as the
    page cache does), on any memory that holds an array.  The theorems hold for
    every allocator of nodes that keeps the promise [NodeAlloc]; a bump
    allocator is an instance. *)

From Stdlib Require Import ZArith Lia.
From stdpp Require Import base tactics numbers list strings gmap.
From iris.proofmode Require Import proofmode.
From S2P Require Import Prelude HeapLogic XArray XArrayArith XArrayProofs.
#[global] Open Scope Z_scope.

(** ** Reading only *)

Lemma xas_descend_read_only xas node : read_only (xas_descend xas node).
Proof. unfold xas_descend, get_offset, xa_entry. solve_read_only. Qed.
#[export] Hint Resolve xas_descend_read_only : read_only.
Lemma xas_load_loop_read_only fuel : forall xas e, read_only (xas_load_loop fuel xas e).
Proof.
  induction fuel as [|fuel IH]; intros xas e; [apply read_only_no_fuel|]. cbn [xas_load_loop].
  destruct (negb (xa_is_node e)); [apply read_only_ret|]. cbn zeta. apply read_only_bind; [apply read_only_ld|]. intros sh.
  destruct (sh <? xa_shift xas); [apply read_only_ret|]. apply read_only_bind; [apply xas_descend_read_only|]. intros [e' xas'].
  apply read_only_bind; [apply read_only_ld|]. intros sh'. destruct (sh' =? 0); [apply read_only_ret|apply IH].
Qed.
Lemma xas_start_read_only xa xas : read_only (xas_start xa xas).
Proof.
  unfold xas_start, set_bounds. solve_read_only.
Qed.
Lemma xa_load_read_only xa fuel index : read_only (xa_load xa fuel index).
Proof.
  unfold xa_load, xas_load. apply read_only_bind; [apply read_only_bind; [apply xas_start_read_only|]|].
  - intros [e xas]. apply xas_load_loop_read_only.
  - intros [e xas]. apply read_only_ret.
Qed.

(** ** The contract *)

(** The memory holds an array whose entries are [f]. *)
Definition holds_array (xa : Z) (f : Z -> Z) (m : words) : Prop := hprop_holds (xarray xa f) m.

(** A load and, with the state it left, a store: [__add_to_page_cache_locked]. *)
Definition load_then_store (alloc : prog Z) (xa : Z) (fuel : nat) (index entry : Z) : prog (Z * Z * xa_state) :=
  '(old, xas) ← xas_load xa fuel (XA_STATE index);
  '(first, xas) ← xas_store alloc xa fuel xas entry;
  mret (old, first, xas).

Section Contract.
Context {alloc : prog Z} {Halloc : NodeAlloc alloc}.

(** The memory holds an array whose entries are [f] and the nodes that can
    still be allocated. *)
Definition holds_array_alloc (xa : Z) (f : Z -> Z) (m : words) : Prop := hprop_holds (xarray xa f ∗ avail)%I m.

Lemma wp_xas_store xa idx f v fuel : 0 <= idx < 2 ^ 64 -> value_ok v -> (11 < fuel)%nat ->
  xarray xa f ∗ avail ⊢ wp (xas_store alloc xa fuel (XA_STATE idx) v) (fun r => avail ∗ store_post xa idx f v r)%I.
Proof.
  iIntros (Hi Hv Hf) "[H Ha]". destruct (decide (v = 0)) as [->|Hne].
  - iApply (wp_wand with "[H]"); [iApply (wp_store_null xa idx Hi f fuel XAS_RESTART with "H"); auto|]. iIntros (r) "$". done.
  - iApply (wp_store_value with "[H] Ha"); [done|done|]. iIntros "Ha". iApply (wp_create_top with "H Ha"); done.
Qed.

Lemma wp_load_then_store xa idx f v fuel : 0 <= idx < 2 ^ 64 -> value_ok v -> v <> 0 -> (11 < fuel)%nat ->
  xarray xa f ∗ avail ⊢ wp (load_then_store alloc xa fuel idx v)
    (fun r => avail ∗ ⌜r.1.1 = f idx⌝ ∗ store_post xa idx f v (r.1.2, r.2))%I.
Proof.
  iIntros (Hi Hv Hne Hf) "[H Ha]". iApply wp_bind. iApply (wp_wand with "[H]").
  { iApply (wp_xas_load xa idx Hi f fuel XAS_RESTART with "H"); auto. }
  iIntros ([old xas]) "[[%E _] H]". simpl in E. subst old. cbn iota. iApply wp_bind.
  iApply (wp_wand with "[H Ha]").
  { iApply (wp_store_value xa idx with "[H] Ha"); [done|done|]. iIntros "Ha". iApply (wp_create_walked xa idx Hi f fuel (f idx, xas) with "H Ha"). done. }
  iIntros ([first xas']) "[Ha H]". iApply wp_ret. by iFrame.
Qed.

Lemma wp_xa_load xa idx f fuel : 0 <= idx < 2 ^ 64 -> (11 < fuel)%nat ->
  xarray xa f ⊢ wp (xa_load xa fuel idx) (fun e => ⌜e = f idx⌝)%I.
Proof.
  iIntros (Hi Hf) "H". iApply wp_bind. iApply (wp_wand with "[H]"); [iApply (wp_xas_load xa idx Hi f fuel XAS_RESTART with "H"); auto|].
  iIntros ([e xas]) "[[%E %Hv] _]". iApply wp_ret. simpl in E, Hv. rw value_not_zero_entry //.
Qed.

Lemma store_post_holds xa idx f v r m : hprop_holds (avail ∗ store_post xa idx f v r)%I m ->
  xas_error r.2 = 0 /\ r.1 = f idx /\ holds_array_alloc xa (upd f idx v) m \/
  v <> 0 /\ xas_error r.2 = - ENOMEM /\ holds_array_alloc xa f m.
Proof.
  intros (h1 & h2 & Hd & Hs & Ha & [(h3 & h4 & Hd' & Hs' & [E1 E2] & H)|(h3 & h4 & Hd' & Hs' & [E1 E2] & H)]); [left|right];
    (split; [done|]); (split; [done|]); exists h2, h1; (split; [by symmetry|]); (split; [by rw map_union_comm|]);
    (split; [|done]); (eapply hprop_mono; [exact H|]); (etransitivity; [|exact Hs']); by apply map_union_subseteq_r.
Qed.


(** A load followed by a store with the state the load left, the way the
    page cache adds a page: the load returns the old entry, and the store goes
    on from where the walk stopped with the same result as from the root. *)
Theorem load_then_store_updates xa idx f v m hf fuel : 0 <= idx < 2 ^ 64 -> value_ok v -> v <> 0 -> (11 < fuel)%nat ->
  holds_array_alloc xa f m -> m ##ₘ hf ->
  exists m' first xas, load_then_store alloc xa fuel idx v (m ∪ hf) = Ok (f idx, first, xas, m' ∪ hf) /\ m' ##ₘ hf /\
    (xas_error xas = 0 /\ first = f idx /\ holds_array_alloc xa (upd f idx v) m' \/
     xas_error xas = - ENOMEM /\ holds_array_alloc xa f m').
Proof.
  intros Hi Hv Hne Hf HP Hd.
  destruct (wp_adequate _ _ _ (wp_load_then_store xa idx f v fuel Hi Hv Hne Hf) m hf HP Hd) as ([[old first] xas] & m' & E & D & HQ).
  destruct HQ as (h1 & h2 & D1 & Hs & Ha & (h3 & h4 & D2 & Hs2 & E1 & HQ)). simpl in E1. change (old = f idx) in E1. subst old.
  exists m', first, xas. split; [exact E|]. split; [exact D|].
  destruct (store_post_holds xa idx f v (first, xas) m') as [H|(_ & H)]; [|by left|by right].
  exists h1, h2. split; [done|]. split; [done|]. split; [done|]. eapply hprop_mono; [exact HQ|]. etransitivity; [|exact Hs2]. by apply map_union_subseteq_r.
Qed.
End Contract.

(** [xa_load] returns the entry of the array at any 64-bit index, null where
    there is none, and changes nothing. *)
Theorem xa_load_reads xa idx f m hf fuel : 0 <= idx < 2 ^ 64 -> (11 < fuel)%nat -> holds_array xa f m -> m ##ₘ hf ->
  xa_load xa fuel idx (m ∪ hf) = Ok (f idx, m ∪ hf).
Proof.
  intros Hi Hf HP Hd. destruct (wp_adequate _ _ _ (wp_xa_load xa idx f fuel Hi Hf) m hf HP Hd) as (e & m' & E & _ & He).
  rw E. pose proof (xa_load_read_only _ _ _ _ _ _ E) as ->. change (e = f idx) in He. by rw He.
Qed.

(** ** An allocator and witnesses *)

(** A bump allocator over an arena of cleared nodes: the next node is at the
    address in cell 8, the end of the arena in cell 16. *)
Definition bump_alloc : prog Z :=
  n ← ld 8; lim ← ld 16; if n =? lim then mret 0 else st 8 (n + 544);; mret n.

Fixpoint arena (n : Z) (c : nat) : hprop :=
  match c with O => emp | S c' => zeroed n ∗ arena (n + 544) c' end%I.
Definition bump_avail : hprop :=
  (∃ n c, ⌜4096 <= n /\ n mod 4 = 0 /\ n + 544 * Z.of_nat c < 2 ^ 64 - 4096⌝ ∗ 8 ↦ n ∗ 16 ↦ (n + 544 * Z.of_nat c)%Z ∗ arena n c)%I.

Lemma bump_spec : bump_avail ⊢ wp bump_alloc (fun p => bump_avail ∗ (⌜p = 0⌝ ∨ ⌜node_ok p⌝ ∗ zeroed p))%I.
Proof.
  iIntros "(%n & %c & (%H1 & %H2 & %H3) & Hn & Hl & Ha)". unfold bump_alloc. wp_ld "Hn". wp_ld "Hl". destruct c as [|c].
  - destruct (Z.eqb_spec n (n + 544 * Z.of_nat 0)); [|lia]. iApply wp_ret. iSplitL; [|by iLeft]. iExists n, 0%nat. iFrame "Hn Hl". done.
  - destruct (Z.eqb_spec n (n + 544 * Z.of_nat (S c))); [lia|]. wp_st "Hn". iApply wp_ret. iDestruct "Ha" as "[Hz Ha]". iSplitR "Hz".
    + iExists (n + 544)%Z, c. replace (n + 544 + 544 * Z.of_nat c) with (n + 544 * Z.of_nat (S c)) by lia. iFrame "Hn Hl Ha". iPureIntro.
      split; [lia|]. split; [rw Z.add_mod; [|lia]; rw H2; reflexivity|lia].
    + iRight. iSplitR; [iPureIntro; split; [lia|done]|iExact "Hz"].
Qed.
#[export] Instance bump_node_alloc : NodeAlloc bump_alloc := {| avail := bump_avail; alloc_spec := bump_spec |}.

Definition node_cells (p : Z) : list (Z * Z) :=
  [(n_shift p, 0); (n_offset p, 0); (n_parent p, 0); (n_array p, 0)] ++ ((fun i => (n_slot p i, 0)) <$> seqZ 0 64).
Lemma node_cells_zeroed p : ([∗ list] x ∈ node_cells p, x.1 ↦ x.2) ⊢ zeroed p.
Proof. unfold node_cells. rw big_sepL_app big_sepL_fmap. iIntros "[(H1 & H2 & H3 & H4 & _) H]". iFrame "H1 H2 H3 H4". iExact "H". Qed.

Lemma cells_app_split (l1 l2 : list (Z * Z)) :
  ([∗ list] x ∈ l1 ++ l2, x.1 ↦ x.2) ⊢ ([∗ list] x ∈ l1, x.1 ↦ x.2) ∗ ([∗ list] x ∈ l2, x.1 ↦ x.2).
Proof. by rw big_sepL_app. Qed.

Lemma arena_two : 8 ↦ 8192 -∗ 16 ↦ 9280 -∗ ([∗ list] x ∈ node_cells 8192, x.1 ↦ x.2) -∗ ([∗ list] x ∈ node_cells 8736, x.1 ↦ x.2) -∗ bump_avail.
Proof.
  iIntros "Hn Hl H1 H2". iExists 8192, 2%nat. iFrame "Hn Hl". iSplitR; [done|].
  iSplitL "H1"; [iApply (node_cells_zeroed with "H1")|]. iSplitL; [iApply (node_cells_zeroed with "H2")|done].
Qed.

(** An empty array at 4000 and an arena of two nodes at 8192. *)
Definition xa_cells : list (Z * Z) := [(4000, 0); (8, 8192); (16, 9280)] ++ node_cells 8192 ++ node_cells 8736.
Definition no_entries : Z -> Z := fun _ => 0.

Lemma xa_cells_hold : holds_array_alloc (alloc := bump_alloc) 4000 no_entries (cells xa_cells).
Proof.
  apply cells_entail; [solve_nodup|]. unfold xa_cells. iIntros "H".
  iDestruct (cells_app_split with "H") as "[(Hx & Hn & Hl & _) H]". iDestruct (cells_app_split with "H") as "[H1 H2]". iSplitL "Hx".
  - iExists 0%nat, 0. iFrame "Hx". iPureIntro. split; [split; [lia|done]|]. split; [done|by left].
  - iApply (arena_two with "Hn Hl H1 H2").
Qed.


Lemma load_then_store_updates_witness : exists m' first xas,
  load_then_store bump_alloc 4000 12 100 5000 (cells xa_cells ∪ ∅) = Ok (0, first, xas, m' ∪ ∅) /\
  (xas_error xas = 0 /\ first = 0 \/ xas_error xas = - ENOMEM).
Proof.
  destruct (load_then_store_updates (alloc := bump_alloc) 4000 100 no_entries 5000 (cells xa_cells) ∅ 12) as (m' & first & xas & E & _ & H).
  - lia.
  - right. split; [lia|discriminate].
  - lia.
  - lia.
  - exact xa_cells_hold.
  - apply map_disjoint_empty_r.
  - exists m', first, xas. split; [exact E|]. destruct H as [(H1 & H2 & _)|[H1 _]]; auto.
Defined.

Lemma xa_load_reads_witness : xa_load 4000 12 77 (cells [(4000, 0)] ∪ ∅) = Ok (0, cells [(4000, 0)] ∪ ∅).
Proof.
  apply (xa_load_reads 4000 77 no_entries).
  - lia.
  - lia.
  - apply cells_entail; [solve_nodup|]. iIntros "[Hx _]". iExists 0%nat, 0. iFrame "Hx". iPureIntro. split; [split; [lia|done]|]. split; [done|by left].
  - apply map_disjoint_empty_r.
Defined.
