(* ===== verification/RadixTree.v ===== *)
(** * radix_tree/radix-tree.c and include/radix-tree.h: radix trees

    The nodes are those of the sparse arrays ([XArray]) and so is the meaning of
    a tree; the code is another one: it keeps no operation state, and it can
    only grow an empty tree.  A function that returns values through pointers
    returns them in a tuple. *)

From Stdlib Require Import ZArith Lia.
From stdpp Require Import base tactics numbers list strings gmap.
From iris.proofmode Require Import proofmode.
From S2P Require Import Prelude HeapLogic XArray XArrayArith XArrayProofs XArraySpec.
#[global] Open Scope Z_scope.

(** ** The code *)

Definition RADIX_TREE_ENTRY_MASK : Z := 3.
Definition RADIX_TREE_INTERNAL_NODE : Z := 2.
Definition RADIX_TREE_MAP_SHIFT : Z := XA_CHUNK_SHIFT.
Definition RADIX_TREE_MAP_SIZE : Z := 2 ^ RADIX_TREE_MAP_SHIFT.
Definition RADIX_TREE_MAP_MASK : Z := RADIX_TREE_MAP_SIZE - 1.

Definition radix_tree_is_internal_node (ptr : Z) : bool := Z.land ptr RADIX_TREE_ENTRY_MASK =? RADIX_TREE_INTERNAL_NODE.
Definition entry_to_node (ptr : Z) : Z := Z.land ptr (u64 (Z.lnot RADIX_TREE_INTERNAL_NODE)).
Definition node_to_entry (ptr : Z) : Z := Z.lor ptr RADIX_TREE_INTERNAL_NODE.
Definition shift_maxindex (shift : Z) : Z := u64 (u64 (Z.shiftl RADIX_TREE_MAP_SIZE shift) - 1).
Definition node_maxindex (node : Z) : prog Z := sh ← ld (n_shift node); mret (shift_maxindex sh).

(** The shift, the entry of the root and the greatest index. *)
Definition radix_tree_load_root (root : Z) : prog (Z * Z * Z) :=
  node ← ld root;
  if radix_tree_is_internal_node node then
    let n := entry_to_node node in
    maxindex ← node_maxindex n;
    sh ← ld (n_shift n);
    mret (sh + RADIX_TREE_MAP_SHIFT, node, maxindex)
  else mret (0, node, 0).

(** The offset and the entry there. *)
Definition radix_tree_descend (parent index : Z) : prog (Z * Z) :=
  sh ← ld (n_shift parent);
  let offset := Z.land (Z.shiftr index sh) RADIX_TREE_MAP_MASK in
  entry ← ld (n_slot parent offset);
  mret (offset, entry).

(** The entry, its node and its slot. *)
Fixpoint lookup_loop (fuel : nat) (index node parent slot : Z) : prog (Z * Z * Z) :=
  match fuel with
  | O => no_fuel
  | S f =>
      if negb (radix_tree_is_internal_node node) then mret (node, parent, slot)
      else
        let parent := entry_to_node node in
        '(offset, node) ← radix_tree_descend parent index;
        let slot := n_slot parent offset in
        sh ← ld (n_shift parent);
        if sh =? 0 then mret (node, parent, slot) else lookup_loop f index node parent slot
  end.
Definition __radix_tree_lookup (fuel : nat) (root index : Z) : prog (option (Z * Z * Z)) :=
  '(_, node, maxindex) ← radix_tree_load_root root;
  if maxindex <? index then mret None
  else r ← lookup_loop fuel index node 0 root; mret (Some r).
Definition radix_tree_lookup (fuel : nat) (root index : Z) : prog Z :=
  r ← __radix_tree_lookup fuel root index;
  mret (match r with Some (node, _, _) => node | None => 0 end).

Fixpoint maxshift_loop (fuel : nat) (index maxshift : Z) : prog Z :=
  match fuel with
  | O => no_fuel
  | S f => if shift_maxindex maxshift <? index then maxshift_loop f index (maxshift + RADIX_TREE_MAP_SHIFT) else mret maxshift
  end.
Definition radix_tree_extend (fuel : nat) (root index shift : Z) : prog Z :=
  maxshift ← maxshift_loop fuel index shift;
  entry ← ld root;
  if entry =? 0 then mret (maxshift + RADIX_TREE_MAP_SHIFT) else st_panic "radix_tree_extend".

Section Code.
Context (kmem_cache_alloc : prog Z).

Definition radix_tree_node_alloc (parent root shift offset : Z) : prog Z :=
  ret ← kmem_cache_alloc;
  (if radix_tree_is_internal_node ret then st_panic "BUG_ON" else mret tt);;
  (if negb (ret =? 0) then
     st (n_shift ret) (u8 shift);;
     st (n_offset ret) (u8 offset);;
     st (n_parent ret) parent;;
     st (n_array ret) root
   else mret tt);;
  mret ret.

(** The error, the node and the slot. *)
Fixpoint radix_create_loop (fuel : nat) (root index shift child node offset slot : Z) : prog (Z * Z * Z) :=
  match fuel with
  | O => no_fuel
  | S f =>
      if 0 <? shift then
        let shift := shift - RADIX_TREE_MAP_SHIFT in
        c ← (if child =? 0 then
               child ← radix_tree_node_alloc node root shift offset;
               if child =? 0 then mret (inl (- ENOMEM))
               else st slot (node_to_entry child);; mret (inr (Some child))
             else if negb (radix_tree_is_internal_node child) then mret (inr None)
             else mret (inr (Some child)) : prog (Z + option Z));
        match c with
        | inl err => mret (err, node, slot)
        | inr None => mret (0, node, slot)
        | inr (Some child) =>
            let node := entry_to_node child in
            '(offset, child) ← radix_tree_descend node index;
            radix_create_loop f root index shift child node offset (n_slot node offset)
        end
      else mret (0, node, slot)
  end.

Definition __radix_tree_create (fuel : nat) (root index : Z) : prog (Z * Z * Z) :=
  '(shift, child, maxindex) ← radix_tree_load_root root;
  '(shift, child) ←
    (if maxindex <? index
     then shift ← radix_tree_extend fuel root index shift; child ← ld root; mret (shift, child)
     else mret (shift, child));
  radix_create_loop fuel root index shift child 0 0 root.

Definition insert_entries (slot item : Z) : prog Z :=
  old ← ld slot;
  if negb (old =? 0) then mret (- EEXIST) else st slot item;; mret 1.

Definition radix_tree_insert (fuel : nat) (root index item : Z) : prog Z :=
  (if radix_tree_is_internal_node item then st_panic "BUG_ON" else mret tt);;
  '(error, _, slot) ← __radix_tree_create fuel root index;
  if negb (error =? 0) then mret error
  else error ← insert_entries slot item; if error <? 0 then mret error else mret 0.
End Code.

(** ** Entries *)

Lemma internal_ptr p : node_ok p -> radix_tree_is_internal_node (p + 2) = true.
Proof.
  intros [_ Hp]. unfold radix_tree_is_internal_node, RADIX_TREE_ENTRY_MASK. rw land3 Z.add_mod // Hp. reflexivity.
Qed.
Lemma internal_value v : value_ok v -> radix_tree_is_internal_node v = false.
Proof. intros [->|[_ Hv]]; [done|]. by apply Z.eqb_neq. Qed.
Lemma internal_node p : node_ok p -> radix_tree_is_internal_node p = false.
Proof. intros [_ Hp]. unfold radix_tree_is_internal_node, RADIX_TREE_ENTRY_MASK. rw land3 Hp. reflexivity. Qed.

Lemma entry_to_node_bits p x : node_ok p -> x = 0 \/ x = 2 -> entry_to_node (p + x) = p.
Proof.
  intros Hp Hx. assert (p + x = Z.lor p x) as ->.
  { destruct Hx as [->| ->]; [by rw Z.add_0_r Z.lor_0_r|]. symmetry. by apply mk_node. }
  unfold entry_to_node. bits k Hk. rewrite testbit_u64 ?Z.lnot_spec //. unfold RADIX_TREE_INTERNAL_NODE.
  assert (Z.testbit x k = true -> k = 1) as Hxk.
  { destruct Hx as [->| ->]; [by rw Z.bits_0|]. intros Hb. destruct (decide (k = 1)) as [|Hn]; [done|]. change 2 with (2 ^ 1) in Hb. rewrite Z.pow2_bits_false in Hb; [done|lia]. }
  destruct (decide (k = 1)) as [->|Hn].
  - rw (node_low p 1 Hp); [|lia]. simpl. by rw andb_false_r.
  - change 2 with (2 ^ 1). rewrite Z.pow2_bits_false; [|lia]. simpl. rw andb_true_r. destruct (Z.testbit x k) eqn:E; [by rw Hxk in Hn|]. rw orb_false_r.
    destruct (Z.ltb_spec k 64); [by rw andb_true_r|]. rw andb_false_r. symmetry. apply testbit_is_u64; [destruct Hp; unfold is_u64; lia|lia].
Qed.
Lemma entry_node p : node_ok p -> entry_to_node (p + 2) = p.
Proof. intros Hp. apply entry_to_node_bits; auto. Qed.
Lemma entry_node_raw p : node_ok p -> entry_to_node p = p.
Proof. intros Hp. rw -{1}(Z.add_0_r p). apply entry_to_node_bits; auto. Qed.

(** ** Trees *)

(** A tree of [L] levels whose entries are [f]; an empty one has no levels. *)
Definition radix (root : Z) (L : nat) (f : Z -> Z) : hprop :=
  (∃ head, ⌜(L <= 11)%nat /\ (forall j, span L <= j -> f j = 0) /\ (head = 0 -> L = 0%nat)⌝ ∗ root ↦ head ∗ tree_at L 0 0 head f)%I.

(** The index is within the levels, or the tree is empty and can still grow. *)
Definition fits (L : nat) (f : Z -> Z) (idx : Z) : Prop := idx < span L \/ L = 0%nat /\ f 0 = 0.

Section Index.
Context (root idx : Z) (Hidx : 0 <= idx < 2 ^ 64).

Lemma wp_node_maxindex p k Q : (k <= 10)%nat -> n_shift p ↦ (6 * Z.of_nat k) -∗
  (∀ m, ⌜(m <? idx) = (span (S k) <=? idx)⌝ -∗ n_shift p ↦ (6 * Z.of_nat k) -∗ Q m) -∗ wp (node_maxindex p) Q.
Proof. iIntros (Hk) "H HQ". unfold node_maxindex. wp_ld "H". iApply wp_ret. iApply ("HQ" with "[%] H"). by apply max_index_test. Qed.

Lemma wp_load_root L head f : (L <= 11)%nat -> (head = 0 -> L = 0%nat) -> root ↦ head -∗ tree_at L 0 0 head f -∗
  wp (radix_tree_load_root root) (fun r => ⌜r.1.1 = (6 * Z.of_nat L)%Z /\ r.1.2 = head /\ (r.2 <? idx) = (span L <=? idx)⌝ ∗ root ↦ head ∗ tree_at L 0 0 head f)%I.
Proof.
  iIntros (HL Hh) "Hr HT". unfold radix_tree_load_root. wp_ld "Hr". destruct (decide (head = 0)) as [->|Hne].
  - rw Hh //. iApply wp_ret. iFrame. iPureIntro. split; [done|]. split; [done|]. change (span 0) with 1. simpl.
    destruct (Z.ltb_spec 0 idx), (Z.leb_spec 1 idx); reflexivity || lia.
  - iDestruct (tree_cases with "HT") as "[(-> & %E & %Hv)|(%k & %p & (-> & -> & %Hp) & Hsh & Hb)]"; [done| |].
    + rw internal_value //. iApply wp_ret. iFrame. iPureIntro. repeat split; auto. change (span 0) with 1. simpl.
      destruct (Z.ltb_spec 0 idx), (Z.leb_spec 1 idx); reflexivity || lia.
    + rw internal_ptr // entry_node //. cbn zeta. iApply wp_bind. iApply (wp_node_maxindex with "Hsh"); [lia|]. iIntros (m Hm) "Hsh".
      wp_ld "Hsh". iApply wp_ret. iFrame "Hr". iSplitR.
      * iPureIntro. simpl. split; [unfold RADIX_TREE_MAP_SHIFT, XA_CHUNK_SHIFT; lia|]. auto.
      * iRight. iExists p. iSplitR; [done|]. iFrame "Hsh Hb".
Qed.

Lemma wp_radix_descend p k c Q : n_shift p ↦ (6 * Z.of_nat k) -∗ n_slot p (digit idx k) ↦ c -∗
  (n_shift p ↦ (6 * Z.of_nat k) -∗ n_slot p (digit idx k) ↦ c -∗ Q (digit idx k, c)) -∗ wp (radix_tree_descend p idx) Q.
Proof.
  iIntros "H Hc HQ". unfold radix_tree_descend. wp_ld "H". cbn zeta. change RADIX_TREE_MAP_MASK with XA_CHUNK_MASK. rw digit_code; [|lia].
  wp_ld "Hc". iApply wp_ret. iApply ("HQ" with "H Hc").
Qed.

(** Looking up. *)
Lemma wp_lookup_loop k : forall fuel e par off f parent slot, (k < fuel)%nat -> (k <= 11)%nat ->
  tree_at k par off e f -∗ wp (lookup_loop fuel idx e parent slot) (fun r => ⌜r.1.1 = f (idx mod span k)⌝)%I.
Proof.
  induction k as [|k IH]; intros fuel e par off f parent slot Hf Hk; iIntros "HT"; (destruct fuel as [|fuel]; [lia|]); cbn [lookup_loop].
  - iDestruct "HT" as %[-> Hv]. rw internal_value //. iApply wp_ret. iPureIntro. simpl. change (span 0) with 1. by rw Z.mod_1_r.
  - iDestruct "HT" as "[[-> %H0]|(%p & [-> %Hp] & Hb)]".
    + iApply wp_ret. iPureIntro. symmetry. apply H0, Z.mod_pos_bound, span_pos.
    + rw internal_ptr // entry_node //. cbn [negb]. cbn iota. cbn zeta. iDestruct (node_down idx with "Hb") as "[Hsh (%c & Hc & HT & _)]".
      iApply wp_bind. iApply (wp_radix_descend with "Hsh Hc"). iIntros "Hsh Hc". wp_ld "Hsh". rw -(sub_digit k idx f).
      destruct (Z.eqb_spec (6 * Z.of_nat k) 0) as [E|E]; [|iApply (IH with "HT"); lia].
      assert (k = 0%nat) as -> by lia. iDestruct "HT" as %[-> _]. iApply wp_ret. iPureIntro. simpl. change (span 0) with 1. by rw Z.mod_1_r.
Qed.

Lemma wp_radix_lookup fuel L f : (11 < fuel)%nat -> radix root L f ⊢ wp (radix_tree_lookup fuel root idx) (fun e => ⌜e = f idx⌝)%I.
Proof.
  iIntros (Hf) "(%head & (%HL & %Hz & %Hh) & Hr & HT)". unfold radix_tree_lookup, __radix_tree_lookup. iApply wp_bind. iApply wp_bind.
  iApply (wp_wand with "[Hr HT]"); [iApply (wp_load_root with "Hr HT"); done|]. iIntros ([[sh e] mx]) "[(%E1 & %E2 & %E3) [Hr HT]]". simpl in E1, E2, E3. subst e.
  cbn iota. rw E3. destruct (Z.leb_spec (span L) idx).
  - iApply wp_ret. iApply wp_ret. iPureIntro. symmetry. by apply Hz.
  - iApply wp_bind. iApply (wp_wand with "[HT]"); [iApply (wp_lookup_loop L fuel head 0 0 f with "HT"); lia|]. iIntros ([[e p] s] E). simpl in E.
    iApply wp_ret. iApply wp_ret. iPureIntro. rw E Z.mod_small //. lia.
Qed.

(** Creating the path. *)
Context {alloc : prog Z} {Halloc : NodeAlloc alloc}.

Lemma wp_node_alloc par off k : (k <= 10)%nat -> 0 <= off < 64 ->
  avail -∗ wp (radix_tree_node_alloc alloc par root (6 * Z.of_nat k) off) (fun p => avail ∗
    (⌜p = 0⌝ ∨ ⌜node_ok p⌝ ∗ n_shift p ↦ (6 * Z.of_nat k) ∗ n_offset p ↦ off ∗ n_parent p ↦ par ∗ n_array p ↦ root ∗
      [∗ list] i ∈ seqZ 0 64, n_slot p i ↦ 0))%I.
Proof.
  iIntros (Hk Ho) "Ha". unfold radix_tree_node_alloc. iApply wp_bind. iApply (wp_wand with "[Ha]"); [iApply (alloc_spec with "Ha")|].
  iIntros (p) "[Ha [->|[%Hp (Hsh & Hof & Hpa & Har & Hs)]]]".
  - iApply wp_bind. iApply wp_ret. iApply wp_bind. iApply wp_ret. iApply wp_ret. iFrame "Ha". by iLeft.
  - rw internal_node //. iApply wp_bind. iApply wp_ret. destruct (node_ne p Hp) as [-> _]. cbn [negb]. iApply wp_bind.
    assert (u8 (6 * Z.of_nat k) = 6 * Z.of_nat k) as -> by (apply Z.mod_small; lia). assert (u8 off = off) as -> by (apply Z.mod_small; lia).
    wp_st "Hsh". wp_st "Hof". wp_st "Hpa". iApply (wp_st with "Har"). iIntros "Har". iApply wp_ret. iFrame "Ha". iRight. iSplitR; [done|].
    iFrame "Hsh Hof Hpa Har Hs".
Qed.

(** The slot of the index has been reached, or an allocation has failed. *)
Definition path_made (val : Z) (F : Z -> hprop) (r : Z * Z * Z) : hprop :=
  (⌜r.1.1 = - ENOMEM⌝ ∗ F val ∨ ⌜r.1.1 = 0 /\ value_ok val⌝ ∗ r.2 ↦ val ∗ (∀ v, ⌜value_ok v⌝ -∗ r.2 ↦ v -∗ F v))%I.

Lemma wp_radix_create k : forall fuel e sl par off val F, (k < fuel)%nat -> (k <= 11)%nat -> 0 <= off < 64 ->
  at_slot idx sl k par off val F e -∗ avail -∗
  wp (radix_create_loop alloc fuel root idx (6 * Z.of_nat k) e par off sl) (fun r => avail ∗ path_made val F r)%I.
Proof.
  induction k as [|k IH]; intros fuel e sl par off val F Hf Hk Ho; iIntros "H Ha"; (destruct fuel as [|fuel]; [lia|]); cbn [radix_create_loop].
  - change (6 * Z.of_nat 0) with 0. rw Z.ltb_irrefl. iApply wp_ret. iFrame "Ha". iDestruct (at_slot_leaf with "H") as "([-> %Hval] & Hc & HF)". iRight. by iFrame.
  - destruct (Z.ltb_spec 0 (6 * Z.of_nat (S k))); [|lia]. cbn zeta.
    replace (6 * Z.of_nat (S k) - RADIX_TREE_MAP_SHIFT) with (6 * Z.of_nat k) by (unfold RADIX_TREE_MAP_SHIFT, XA_CHUNK_SHIFT; lia).
    iDestruct "H" as "(%g & <- & Hc & HT & HF)".
    iAssert (∀ p, ⌜node_ok p⌝ -∗ sl ↦ (p + 2)%Z -∗ body k p par off g -∗
      (∀ c' v, sl ↦ c' -∗ tree_at (S k) par off c' (upd g (idx mod span (S k)) v) -∗ F v) -∗ avail -∗
      wp ('(offset, child) ← radix_tree_descend p idx; radix_create_loop alloc fuel root idx (6 * Z.of_nat k) child p offset (n_slot p offset))
         (fun r => avail ∗ path_made (g (idx mod span (S k))) F r))%I as "Hdown".
    { iIntros (p Hp) "Hsl Hb HF Ha". iDestruct (node_down idx with "Hb") as "[Hsh (%c & Hc & HT & Hclose)]".
      iApply wp_bind. iApply (wp_radix_descend with "Hsh Hc"). iIntros "Hsh Hc". cbn iota. rw -(sub_digit k idx g).
      iApply (IH fuel c (n_slot p (digit idx k)) p (digit idx k) with "[-Ha] Ha"); [lia|lia|apply digit_range|].
      iExists (sub g k (digit idx k)). iFrame "Hc HT". iSplitR; [done|]. iIntros (c' v) "Hc HT". iApply ("HF" with "Hsl").
      iRight. iExists p. iSplitR; [done|]. iApply ("Hclose" with "Hsh Hc HT"). }
    iDestruct "HT" as "[[-> %H0]|(%p & [-> %Hp] & Hb)]".
    + rw Z.eqb_refl. iApply wp_bind. iApply wp_bind.
      iApply (wp_wand with "[Ha]"); [iApply (wp_node_alloc par off k with "Ha"); [lia|done]|].
      iIntros (p) "[Ha [->|(%Hp & Hsh & Hof & Hpa & Har & Hs)]]".
      * rw Z.eqb_refl. iApply wp_ret. iApply wp_ret. iFrame "Ha". iLeft. iSplitR; [done|]. iApply ("HF" with "Hc"). iLeft. iPureIntro. split; [done|].
        intros j Hj. rw upd_same. by apply H0.
      * destruct (node_ne p Hp) as [-> _]. wp_st "Hc". iApply wp_ret. cbn iota. rw entry_node_raw //. change (node_to_entry p) with (xa_mk_node p). rw mk_node //.
        iApply ("Hdown" with "[//] Hc [-HF Ha] HF Ha"). iApply (zeroed_body with "Hsh Hof Hpa Har Hs"). done.
    + destruct (node_ne p Hp) as [_ ->]. rw internal_ptr //. cbn [negb]. iApply wp_bind. iApply wp_ret. cbn iota. rw entry_node //.
      iApply ("Hdown" with "[//] Hc Hb HF Ha").
Qed.

(** Any levels hold when they have an entry; otherwise the tree is empty. *)
Lemma radix_close L head f : (L <= 11)%nat -> (forall j, span L <= j -> f j = 0) -> root ↦ head -∗ tree_at L 0 0 head f -∗ ∃ L', radix root L' f.
Proof.
  iIntros (HL Hz) "Hr HT". destruct (decide (head = 0)) as [->|Hne].
  - iDestruct (tree_null with "HT") as %H0. iExists 0%nat, 0. iFrame "Hr". iSplitR.
    + iPureIntro. split; [lia|]. split; [|done]. intros j Hj. change (span 0) with 1 in Hj. destruct (decide (j < span L)); [apply H0; lia|apply Hz; lia].
    + iPureIntro. split; [|by left]. symmetry. apply H0. pose proof (span_pos L). lia.
  - iExists L, head. iFrame. iPureIntro. split; [done|]. split; [done|]. by intros.
Qed.

Lemma wp_maxshift n : forall fuel m, (n < fuel)%nat -> (m + n = 10)%nat ->
  ⊢ wp (maxshift_loop fuel idx (6 * Z.of_nat m)) (fun sh => ⌜exists m', (m' <= 10)%nat /\ sh = (6 * Z.of_nat m')%Z /\ idx < span (S m')⌝)%I.
Proof.
  assert (forall m, (m <= 10)%nat -> (shift_maxindex (6 * Z.of_nat m) <? idx) = (span (S m) <=? idx)) as Ht by (intros; by apply max_index_test).
  induction n as [|n IH]; intros fuel m Hf Hm; (destruct fuel as [|fuel]; [lia|]); cbn [maxshift_loop]; (rw Ht; [|lia]); destruct (Z.leb_spec (span (S m)) idx).
  - pose proof (span_room idx (S m) ltac:(lia) H). lia.
  - iApply wp_ret. iPureIntro. exists m. split; [lia|auto].
  - replace (6 * Z.of_nat m + RADIX_TREE_MAP_SHIFT) with (6 * Z.of_nat (S m)) by (unfold RADIX_TREE_MAP_SHIFT, XA_CHUNK_SHIFT; lia). iApply IH; lia.
  - iApply wp_ret. iPureIntro. exists m. split; [lia|auto].
Qed.

Abbreviation grown f := (fun v => ∃ L', radix root L' (upd f idx v))%I.

Lemma radix_slot f L head : (L <= 11)%nat -> (forall j, span L <= j -> f j = 0) -> idx < span L ->
  root ↦ head -∗ tree_at L 0 0 head f -∗ at_slot idx root L 0 0 (f idx) (grown f) head.
Proof.
  iIntros (HL Hz Hi) "Hr HT". iExists f. iFrame. rw Z.mod_small; [|lia]. iSplitR; [done|]. iIntros (c' v) "Hr HT".
  iApply (radix_close with "Hr HT"); [done|]. intros j Hj. rw upd_ne; [|lia]. by apply Hz.
Qed.

Lemma wp_create_path fuel L f : (11 < fuel)%nat -> fits L f idx -> radix root L f -∗ avail -∗
  wp (__radix_tree_create alloc fuel root idx) (fun r => avail ∗ path_made (f idx) (grown f) r)%I.
Proof.
  iIntros (Hf Hfit) "(%head & (%HL & %Hz & %Hh) & Hr & HT) Ha". unfold __radix_tree_create. iApply wp_bind.
  iApply (wp_wand with "[Hr HT]"); [iApply (wp_load_root with "Hr HT"); done|]. iIntros ([[sh e] mx]) "[(%E1 & %E2 & %E3) [Hr HT]]". simpl in E1, E2, E3. subst e sh.
  cbn iota. rw E3. destruct (Z.leb_spec (span L) idx) as [Hle|Hgt].
  - destruct Hfit as [?|[-> H0]]; [lia|]. iDestruct "HT" as %[E Hv]. rw H0 in E. subst head. iApply wp_bind. iApply wp_bind.
    iApply wp_bind. iApply (wp_wand with "[]"); [iApply (wp_maxshift 10 fuel 0); lia|]. iIntros (sh (m & Hm & -> & Hi)).
    wp_ld "Hr". rw Z.eqb_refl. iApply wp_ret. wp_ld "Hr". iApply wp_ret. cbn iota.
    replace (6 * Z.of_nat m + RADIX_TREE_MAP_SHIFT) with (6 * Z.of_nat (S m)) by (unfold RADIX_TREE_MAP_SHIFT, XA_CHUNK_SHIFT; lia).
    assert (forall j, 0 <= j -> f j = 0) as Hall.
    { intros j Hj. destruct (decide (j = 0)) as [->|]; [done|]. apply Hz. change (span 0) with 1. lia. }
    iApply (wp_radix_create (S m) with "[Hr] Ha"); [lia|lia|lia|]. iApply (radix_slot with "Hr"); [lia| |done|].
    + intros j Hj. apply Hall. pose proof (span_pos (S m)). lia.
    + iApply tree_empty. intros j Hj. apply Hall. lia.
  - iApply wp_bind. iApply wp_ret. cbn iota. iApply (wp_radix_create L with "[Hr HT] Ha"); [lia|lia|lia|]. iApply (radix_slot with "Hr HT"); [lia|done|done].
Qed.

(** The outcome of an insertion. *)
Definition insert_post (f : Z -> Z) (item err : Z) : hprop :=
  (⌜f idx = 0 /\ err = 0⌝ ∗ (∃ L', radix root L' (upd f idx item)) ∨
   ⌜f idx <> 0 /\ err = - EEXIST \/ err = - ENOMEM⌝ ∗ (∃ L', radix root L' f))%I.

Lemma grown_same f : grown f (f idx) -∗ ∃ L', radix root L' f.
Proof.
  iIntros "(%L & %head & (%HL & %Hz & %Hh) & Hr & HT)". iExists L, head. iFrame "Hr". iSplitR.
  - iPureIntro. split; [done|]. split; [|done]. intros j Hj. rw -(upd_same f idx j). by apply Hz.
  - iApply (tree_ext with "HT"). intros j _. apply upd_same.
Qed.

Lemma wp_radix_insert fuel L f item : (11 < fuel)%nat -> fits L f idx -> value_ok item -> radix root L f ∗ avail ⊢
  wp (radix_tree_insert alloc fuel root idx item) (fun err => insert_post f item err ∗ avail)%I.
Proof.
  iIntros (Hf Hfit Hv) "[H Ha]". unfold radix_tree_insert. rw internal_value //. iApply wp_bind. iApply wp_ret. iApply wp_bind.
  iApply (wp_wand with "[H Ha]"); [iApply (wp_create_path with "H Ha"); done|]. iIntros ([[err nd] slot]) "[Ha [[%E H]|([%E %Hval] & Hs & HF)]]"; simpl in E; subst err; cbn iota.
  - iApply wp_ret. iFrame "Ha". iRight. iSplitR; [by iRight|]. by iApply grown_same.
  - rw Z.eqb_refl. cbn [negb]. iApply wp_bind. unfold insert_entries. cbn [snd]. wp_ld "Hs". destruct (Z.eqb_spec (f idx) 0) as [E|Hne]; cbn [negb].
    + wp_st "Hs". iApply wp_ret. iApply wp_ret. iFrame "Ha". iLeft. iSplitR; [done|]. iApply ("HF" $! item with "[//] Hs").
    + iApply wp_ret. iApply wp_ret. iFrame "Ha". iRight. iSplitR; [by iLeft|]. iApply grown_same. iApply ("HF" $! (f idx) with "[//] Hs").
Qed.
End Index.

(** ** The contract *)

(** The memory holds a radix tree of [L] levels with the entries [f]. *)
Definition holds_radix (root : Z) (L : nat) (f : Z -> Z) (m : words) : Prop := hprop_holds (radix root L f) m.

Lemma lookup_loop_read_only fuel : forall index node parent slot, read_only (lookup_loop fuel index node parent slot).
Proof.
  induction fuel as [|fuel IH]; intros index node parent slot; [apply read_only_no_fuel|]. cbn [lookup_loop].
  destruct (negb _); [apply read_only_ret|]. cbn zeta. apply read_only_bind; [unfold radix_tree_descend; solve_read_only|]. intros [offset e].
  apply read_only_bind; [apply read_only_ld|]. intros sh. destruct (sh =? 0); [apply read_only_ret|apply IH].
Qed.
Lemma maxshift_read_only fuel : forall index sh, read_only (maxshift_loop fuel index sh).
Proof.
  induction fuel as [|fuel IH]; intros index sh; [apply read_only_no_fuel|]. cbn [maxshift_loop]. destruct (_ <? _); [apply IH|apply read_only_ret].
Qed.
Lemma load_root_read_only root : read_only (radix_tree_load_root root).
Proof. unfold radix_tree_load_root, node_maxindex. solve_read_only. Qed.
Lemma radix_lookup_read_only fuel root index : read_only (radix_tree_lookup fuel root index).
Proof.
  unfold radix_tree_lookup, __radix_tree_lookup. apply read_only_bind; [|intros; apply read_only_ret].
  apply read_only_bind; [apply load_root_read_only|]. intros [[sh node] mx]. destruct (mx <? index); [apply read_only_ret|].
  apply read_only_bind; [apply lookup_loop_read_only|]. intros r. apply read_only_ret.
Qed.

Lemma radix_lookup_reads root idx L f m hf fuel : 0 <= idx < 2 ^ 64 -> (11 < fuel)%nat -> holds_radix root L f m -> m ##ₘ hf ->
  radix_tree_lookup fuel root idx (m ∪ hf) = Ok (f idx, m ∪ hf).
Proof.
  intros Hi Hf HP Hd. destruct (wp_adequate _ _ _ (wp_radix_lookup root idx Hi fuel L f Hf) m hf HP Hd) as (e & m' & E & _ & He).
  rw E. pose proof (radix_lookup_read_only _ _ _ _ _ _ E) as ->. change (e = f idx) in He. by rw He.
Qed.

Section Contract.
Context {alloc : prog Z} {Halloc : NodeAlloc alloc}.


(** A radix tree that holds anything cannot grow: inserting at an index
    beyond its levels halts the machine. *)
Theorem radix_extend_panics root idx L f item m hf fuel : 0 <= idx < 2 ^ 64 -> (11 < fuel)%nat -> value_ok item -> ~ fits L f idx ->
  holds_radix root L f m -> m ##ₘ hf -> radix_tree_insert alloc fuel root idx item (m ∪ hf) = Panic "radix_tree_extend".
Proof.
  intros Hi Hf Hv Hfit (head & h1 & h2 & D & Hs & (HL & Hz & Hh) & HP) Hd.
  assert (hprop_holds (root ↦ head ∗ tree_at L 0 0 head f)%I m) as HP'.
  { eapply hprop_mono; [exact HP|]. etransitivity; [|exact Hs]. by apply map_union_subseteq_r. }
  destruct (wp_adequate (root ↦ head ∗ tree_at L 0 0 head f)%I (radix_tree_load_root root) _ ltac:(iIntros "[Hr HT]"; iApply (wp_load_root root idx Hi L head f with "Hr HT"); done) m hf HP' Hd)
    as ([[sh e] mx] & m' & E & _ & (h3 & h4 & _ & _ & (E1 & E2 & E3) & _)).
  pose proof (load_root_read_only _ _ _ _ E) as Em. rw Em in E. simpl in E1, E2, E3. subst sh e.
  assert (span L <= idx) as Hle by (destruct (decide (span L <= idx)); [done|]; exfalso; apply Hfit; left; lia).
  assert (head <> 0) as Hne.
  { intros ->. apply Hfit. right. split; [by apply Hh|]. specialize (Hh eq_refl). subst L. destruct HP' as (h5 & h6 & _ & _ & _ & [E4 _]). by symmetry. }
  assert ((m ∪ hf) !! root = Some head) as Hroot.
  { destruct HP' as (h5 & h6 & D5 & Hs5 & Hc & _). change (h5 !! root = Some head) in Hc. apply lookup_union_Some_l. eapply lookup_weaken; [|exact Hs5]. by apply lookup_union_Some_l. }
  destruct (wp_adequate emp%I _ _ (wp_maxshift idx Hi (10 - L) fuel L ltac:(lia) ltac:(pose proof (span_room idx L ltac:(lia) Hle); lia)) ∅ (m ∪ hf) I (map_disjoint_empty_l _))
    as (ms & m2 & E4 & D4 & _).
  pose proof (maxshift_read_only _ _ _ _ _ _ E4) as Em2. rw Em2 left_id_L in E4.
  assert (radix_tree_extend fuel root idx (6 * Z.of_nat L) (m ∪ hf) = Panic "radix_tree_extend") as A.
  { unfold radix_tree_extend. rw (bind_ok _ _ _ _ _ E4). rw (bind_ok _ _ (m ∪ hf) head (m ∪ hf)); [by rw (proj2 (Z.eqb_neq head 0) Hne)|].
    unfold ld. by rw Hroot. }
  unfold radix_tree_insert. rw internal_value //. rw (bind_ok _ _ (m ∪ hf) tt (m ∪ hf)) //. apply bind_panic.
  unfold __radix_tree_create. rw (bind_ok _ _ _ _ _ E). cbn iota. rw E3 (proj2 (Z.leb_le (span L) idx) Hle). by do 2 apply bind_panic.
Qed.
End Contract.

(** ** Witnesses *)

Lemma radix_cells_hold : hprop_holds (radix 4000 0 no_entries ∗ bump_avail)%I (cells xa_cells).
Proof.
  apply cells_entail; [solve_nodup|]. unfold xa_cells. iIntros "H".
  iDestruct (cells_app_split with "H") as "[(Hx & Hn & Hl & _) H]". iDestruct (cells_app_split with "H") as "[H1 H2]". iSplitL "Hx".
  - iExists 0. iFrame "Hx". iPureIntro. split; [split; [lia|done]|]. split; [done|by left].
  - iApply (arena_two with "Hn Hl H1 H2").
Qed.


Lemma radix_extend_panics_witness : radix_tree_insert bump_alloc 12 4000 1 6000 (cells [(4000, 5000)] ∪ ∅) = Panic "radix_tree_extend".
Proof.
  apply (radix_extend_panics (alloc := bump_alloc) 4000 1 0 (upd no_entries 0 5000)).
  - lia.
  - lia.
  - right. split; [lia|discriminate].
  - intros [H|[_ H]]; [change (span 0) with 1 in H; lia|discriminate H].
  - apply cells_entail; [solve_nodup|]. iIntros "[Hx _]". iExists 5000. iFrame "Hx". iPureIntro. split.
    + split; [lia|]. split; [|done]. intros j Hj. change (span 0) with 1 in Hj. apply upd_ne. lia.
    + split; [done|]. right. split; [lia|discriminate].
  - apply map_disjoint_empty_r.
Defined.
