(* ===== verification/IrqDesc.v ===== *)
(** * irq/irqdesc.c, irq/chip.c and irq/irqdomain.c: interrupt descriptors

    Interrupt numbers are handed out from a bitmap; each has a descriptor that a
    radix tree finds by number.  The bitmap [allocated_irqs] is passed and
    returned, the tree and the descriptors are in memory.  The numbers are proved
    fresh and lowest, and bitmap and tree to stay consistent. *)

From Stdlib Require Import ZArith Lia.
From stdpp Require Import base tactics numbers list strings gmap.
From iris.proofmode Require Import proofmode.
From S2P Require Import Prelude Words Bitmap HeapLogic XArray XArrayArith XArrayProofs XArraySpec RadixTree.
#[global] Open Scope Z_scope.

(** ** Data *)

Definition NR_IRQS : Z := 64.
Definition IRQ_BITMAP_BITS : Z := NR_IRQS + 8196.
Definition nr_irqs : Z := NR_IRQS.

(** Fields of [struct irq_desc]; it begins with its [struct irq_data]. *)
Definition d_irq (p : Z) : Z := p.
Definition d_hwirq (p : Z) : Z := p + 8.
Definition d_chip (p : Z) : Z := p + 16.
Definition d_domain (p : Z) : Z := p + 24.
Definition d_parent (p : Z) : Z := p + 32.
Definition d_chip_data (p : Z) : Z := p + 40.
Definition d_handle_irq (p : Z) : Z := p + 48.
Definition d_action (p : Z) : Z := p + 56.
Definition d_name (p : Z) : Z := p + 64.

(** ** The code *)

Section Code.
  (** The tree's root, the address of [no_irq_chip], the allocators of descriptors and of tree nodes. *)
  Context (irq_desc_tree no_irq_chip : Z) (kzalloc kmem_cache_alloc : prog Z).

Definition irq_to_desc (fuel : nat) (irq : Z) : prog Z := radix_tree_lookup fuel irq_desc_tree irq.

Definition desc_set_defaults (irq desc : Z) : prog unit :=
  st (d_irq desc) irq;; st (d_chip desc) no_irq_chip;; st (d_chip_data desc) 0.
Definition alloc_desc (irq flags : Z) : prog Z :=
  desc ← kzalloc;
  if desc =? 0 then mret 0 else desc_set_defaults (u32 irq) desc;; mret desc.
(** The result of the insertion is dropped. *)
Definition irq_insert_desc (fuel : nat) (irq desc : Z) : prog unit :=
  radix_tree_insert kmem_cache_alloc fuel irq_desc_tree irq desc;; mret tt.
Fixpoint alloc_descs_loop (fuel n : nat) (start i : Z) : prog unit :=
  match n with
  | O => mret tt
  | S n =>
      desc ← alloc_desc (s32 (start + i)) 0;
      (if desc =? 0 then st_panic "bad desc!" else mret tt);;
      irq_insert_desc fuel (u32 (start + i)) desc;;
      alloc_descs_loop fuel n start (i + 1)
  end.
(** The first number and the bitmap. *)
Definition alloc_descs (fuel : nat) (allocated_irqs : list Z) (start cnt affinity : Z) : prog (Z * list Z) :=
  (if negb (affinity =? 0) then st_panic "BUG_ON" else mret tt);;
  alloc_descs_loop fuel (Z.to_nat cnt) start 0;;
  map ← st_lift (bitmap_set false false false allocated_irqs start cnt);
  mret (s32 start, map).

Definition __irq_alloc_descs (fuel : nat) (allocated_irqs : list Z) (irq from cnt affinity : Z) : prog (Z * list Z) :=
  if cnt =? 0 then mret (- EINVAL, allocated_irqs)
  else if (0 <=? irq) && (irq <? from) then mret (- EINVAL, allocated_irqs)
  else
    let from := if 0 <=? irq then irq else from in
    r ← st_lift (bitmap_find_next_zero_area allocated_irqs IRQ_BITMAP_BITS from cnt 0);
    let start := s32 r in
    if (0 <=? irq) && negb (start =? irq) then mret (- EEXIST, allocated_irqs)
    else if nr_irqs <? u32 (start + cnt) then st_panic "need to extend!"
    else alloc_descs fuel allocated_irqs (u32 start) cnt affinity.

Definition irq_domain_alloc_descs (fuel : nat) (allocated_irqs : list Z) (virq cnt hwirq affinity : Z) : prog (Z * list Z) :=
  if 0 <=? virq then __irq_alloc_descs fuel allocated_irqs virq virq cnt affinity
  else
    let hint := hwirq mod nr_irqs in
    let hint := if hint =? 0 then hint + 1 else hint in
    '(virq, allocated_irqs) ← __irq_alloc_descs fuel allocated_irqs (-1) hint cnt affinity;
    if (virq <=? 0) && (1 <? hint) then __irq_alloc_descs fuel allocated_irqs (-1) 1 cnt affinity
    else mret (virq, allocated_irqs).

(** The address of the [struct irq_data] of a number, or null. *)
Definition irq_get_irq_data (fuel : nat) (irq : Z) : prog Z := desc ← irq_to_desc fuel irq; mret (if desc =? 0 then 0 else d_irq desc).
Definition irq_set_chip_data (fuel : nat) (irq data : Z) : prog Z :=
  desc ← irq_to_desc fuel irq; if desc =? 0 then mret (- EINVAL) else st (d_chip_data desc) data;; mret 0.
Definition __irq_do_set_handler (desc handle is_chained name : Z) : prog unit :=
  (if handle =? 0 then st_panic "BUG_ON" else mret tt);; st (d_handle_irq desc) handle;; st (d_name desc) name.
Definition __irq_set_handler (fuel : nat) (irq handle is_chained name : Z) : prog unit :=
  desc ← irq_to_desc fuel irq; if desc =? 0 then mret tt else __irq_do_set_handler desc handle is_chained name.
(** The handler that an interrupt runs, or the error. *)
Definition generic_handle_irq (fuel : nat) (irq : Z) : prog (Z + Z) :=
  desc ← irq_to_desc fuel irq; if desc =? 0 then mret (inr (- EINVAL)) else h ← ld (d_handle_irq desc); mret (inl h).
End Code.

(** ** Descriptors *)

Definition field_cells : list Z := [0; 8; 16; 24; 32; 40; 48; 56; 64].
Definition desc_zeroed (p : Z) : hprop := ([∗ list] o ∈ field_cells, (p + o)%Z ↦ 0)%I.
(** The descriptor of the number [irq]: its other fields belong to the drivers. *)
Definition desc_at (irq p : Z) : hprop :=
  (⌜node_ok p⌝ ∗ d_irq p ↦ irq ∗ [∗ list] o ∈ tail field_cells, ∃ v, (p + o)%Z ↦ v)%I.

(** What is expected of [kzalloc]: while there is memory for [n] descriptors it
    returns a cleared one that nothing else uses. *)
Class DescAlloc (kzalloc : prog Z) := {
  davail : nat -> hprop;
  dalloc_spec n : davail (S n) ⊢ wp kzalloc (fun p => davail n ∗ ⌜node_ok p⌝ ∗ desc_zeroed p)%I }.

(** The tree and the descriptors it finds, of numbers below 64; number 0 is never used. *)
Definition descs (f : Z -> Z) : hprop := ([∗ list] j ∈ seqZ 0 64, ⌜f j = 0⌝ ∨ desc_at j (f j))%I.
Definition irq_table (root : Z) (f : Z -> Z) : hprop :=
  (⌜f 0 = 0 /\ forall j, 64 <= j -> f j = 0⌝ ∗ (∃ L, radix root L f) ∗ descs f)%I.

Lemma slot_insert f p l k idx : NoDup l -> l !! k = Some idx -> ([∗ list] j ∈ l, ⌜f j = 0⌝ ∨ desc_at j (f j)) -∗ desc_at idx p -∗
  [∗ list] j ∈ l, ⌜upd f idx p j = 0⌝ ∨ desc_at j (upd f idx p j).
Proof.
  iIntros (Hn E) "Hd Hp". iDestruct (big_sepL_lookup_acc_impl (Φ := fun _ j => (⌜f j = 0⌝ ∨ desc_at j (f j))%I) k _ E with "Hd") as "[_ Hd]". iApply "Hd".
  - iIntros "!>" (k' y Ek Hk) "H". rw (upd_ne f idx p) //. intros ->. apply Hk. exact (NoDup_lookup _ _ _ _ Hn Ek E).
  - rw upd_eq. by iRight.
Qed.
Lemma descs_insert f idx p : 0 <= idx < 64 -> descs f -∗ desc_at idx p -∗ descs (upd f idx p).
Proof. intros Hi. apply (slot_insert f p _ (Z.to_nat idx)); [apply NoDup_seqZ|]. apply lookup_seqZ. lia. Qed.

Lemma descs_none : ⊢ descs (fun _ => 0).
Proof. unfold descs. iApply big_sepL_intro. iIntros "!>" (k j _). by iLeft. Qed.
#[global] Typeclasses Opaque descs.
#[global] Opaque descs.

Lemma small_fits root f idx : f 0 = 0 -> 0 <= idx < 64 -> (∃ L, radix root L f) -∗ ∃ L, ⌜fits L f idx⌝ ∗ radix root L f.
Proof.
  iIntros (H0 Hi) "[%L H]". iExists L. iFrame "H". iPureIntro. destruct L as [|L]; [by right|left].
  pose proof (span_le 1 (S L) ltac:(lia)) as H. change (span 1) with 64 in H. lia.
Qed.

(** [f'] extends [f] at numbers of the range only. *)
Definition extends (f f' : Z -> Z) (lo : Z) (n : nat) : Prop := forall j, j < lo \/ lo + Z.of_nat n <= j -> f' j = f j.

Section Alloc.
  Context (root chip : Z) {kzalloc node_alloc : prog Z} {HD : DescAlloc kzalloc} {HN : NodeAlloc node_alloc}.

Lemma wp_alloc_desc irq n : 0 <= irq < 2 ^ 32 -> davail (S n) ⊢ wp (alloc_desc chip kzalloc irq 0) (fun p => davail n ∗ desc_at irq p)%I.
Proof.
  iIntros (Hi) "Hd". unfold alloc_desc. iApply wp_bind. iApply (wp_wand with "[Hd]"); [by iApply dalloc_spec|]. iIntros (p) "(Hd & %Hp & H)".
  destruct (Z.eqb_spec p 0) as [->|_]; [destruct Hp; lia|]. unfold desc_zeroed, field_cells. cbn [big_opL].
  iDestruct "H" as "(H0 & H1 & H2 & H3 & H4 & H5 & H6 & H7 & H8 & _)". rw Z.add_0_r. unfold desc_set_defaults.
  iApply wp_bind. wp_st "H0". wp_st "H2". iApply (wp_st with "H5"). iIntros "H5". iApply wp_ret. iFrame "Hd". unfold desc_at. unfold u32. rw Z.mod_small //.
  iSplitR; [done|]. iFrame "H0". cbn [tail field_cells big_opL]. iFrame "H1 H2 H3 H4 H5 H6 H7 H8".
Qed.

Lemma desc_value p : node_ok p -> value_ok p.
Proof. intros [H1 H2]. right. split; [lia|]. rw land3 H2. done. Qed.

Lemma wp_insert_desc fuel irq p f : (11 < fuel)%nat -> 0 < irq < 64 -> f irq = 0 -> irq_table root f ∗ avail ∗ desc_at irq p ⊢
  wp (irq_insert_desc root node_alloc fuel irq p) (fun _ => avail ∗ ∃ f', ⌜extends f f' irq 1⌝ ∗ irq_table root f')%I.
Proof.
  iIntros (Hf Hi H0) "(((%F0 & %F1) & HT & Hds) & Ha & Hd)". unfold irq_insert_desc. iDestruct (small_fits root f irq with "HT") as "(%L & %Hfit & HT)"; [done|lia|].
  iDestruct "Hd" as "[%Hp Hd]". iApply wp_bind. iApply (wp_wand with "[HT Ha]").
  { iApply (wp_radix_insert root irq ltac:(lia) fuel L f p Hf Hfit (desc_value p Hp)). iFrame. }
  iIntros (err) "[HI Ha]". iApply wp_ret. iFrame "Ha". iDestruct "HI" as "[[_ HT]|[_ HT]]".
  - iExists (upd f irq p). iSplitR; [iPureIntro; intros j Hj; apply upd_ne; lia|]. iSplitR; [|iSplitL "HT"; [iExact "HT"|]].
    + iPureIntro. split; [rw upd_ne //; lia|]. intros j Hj. rw upd_ne; [by apply F1|lia].
    + iApply (descs_insert with "Hds"); [lia|]. by iFrame "Hd".
  - iExists f. iSplitR; [iPureIntro; by intros j|]. iSplitR; [done|]. iSplitL "HT"; [iExact "HT"|iExact "Hds"].
Qed.

Lemma wp_alloc_loop fuel start n : forall i f, (11 < fuel)%nat -> 0 < start -> 0 <= i -> start + i + Z.of_nat n <= 64 ->
  (forall j, start + i <= j < start + i + Z.of_nat n -> f j = 0) -> irq_table root f ∗ avail ∗ davail n ⊢
  wp (alloc_descs_loop root chip kzalloc node_alloc fuel n start i) (fun _ => avail ∗ ∃ f', ⌜extends f f' (start + i) n⌝ ∗ irq_table root f')%I.
Proof.
  induction n as [|n IH]; intros i f Hf Hs Hi Hn Hz; iIntros "(HT & Ha & Hd)"; cbn [alloc_descs_loop].
  - iApply wp_ret. iFrame "Ha". iExists f. iSplitR; [iPureIntro; by intros j|iExact "HT"].
  - iApply wp_bind. rw (s32_small (start + i)); [|lia]. iApply (wp_wand with "[Hd]"); [iApply (wp_alloc_desc with "Hd"); lia|]. iIntros (p) "[Hd Hp]".
    iAssert (⌜node_ok p⌝)%I as %Hp; [by iDestruct "Hp" as "[%H _]"|]. destruct (Z.eqb_spec p 0) as [->|_]; [destruct Hp; lia|].
    iApply wp_bind. iApply wp_ret. iApply wp_bind. unfold u32 at 1. rw Z.mod_small; [|lia].
    iApply (wp_wand with "[HT Ha Hp]"); [iApply (wp_insert_desc fuel (start + i) p f Hf); [lia|apply Hz; lia|iSplitL "HT"; [iExact "HT"|iFrame "Ha Hp"]]|].
    iIntros (_) "(Ha & %g & %Hg & HT)". iApply (wp_wand with "[HT Ha Hd]").
    { iApply (IH (i + 1) g Hf Hs); [lia|lia| |iSplitL "HT"; [iExact "HT"|iFrame "Ha Hd"]]. intros j Hj. rw Hg; [apply Hz; lia|lia]. }
    iIntros (_) "(Ha & %h & %Hh & HT)". iFrame "Ha". iExists h. iSplitR; [|iExact "HT"]. iPureIntro. intros j Hj. rw Hh; [apply Hg; lia|lia].
Qed.
End Alloc.

(** ** The contract *)

(** Every number with a descriptor is marked. *)
Definition consistent (f : Z -> Z) (map : list Z) : Prop := forall j, 0 <= j -> f j <> 0 -> bit map j = true.

Section Contract.
  Context (root chip : Z) {kzalloc node_alloc : prog Z} {HD : DescAlloc kzalloc} {HN : NodeAlloc node_alloc}.

Lemma wp_alloc_descs fuel map start cnt f : (11 < fuel)%nat -> 0 < start -> 0 <= cnt -> start + cnt <= 64 -> covers map IRQ_BITMAP_BITS ->
  (forall j, start <= j < start + cnt -> f j = 0) -> irq_table root f ∗ avail ∗ davail (Z.to_nat cnt) ⊢
  wp (alloc_descs root chip kzalloc node_alloc fuel map start cnt 0)
    (fun r => ⌜r.1 = start /\ covers r.2 IRQ_BITMAP_BITS /\ forall k, 0 <= k -> bit r.2 k = bit map k || in_range start cnt k⌝ ∗
      avail ∗ ∃ f', ⌜extends f f' start (Z.to_nat cnt)⌝ ∗ irq_table root f')%I.
Proof.
  iIntros (Hf Hs Hc Hn C Hz) "H". unfold alloc_descs. cbn [negb Z.eqb]. iApply wp_bind. iApply wp_ret. iApply wp_bind.
  iApply (wp_wand with "[H]"). { iApply (wp_alloc_loop root chip fuel start (Z.to_nat cnt) 0 f Hf Hs with "H"); [lia|lia|]. intros j Hj. apply Hz. lia. }
  iIntros (_) "(Ha & %g & %Hg & HT)". rw Z.add_0_r in Hg.
  destruct (__bitmap_set_spec map start cnt) as (map' & E & R); [eapply covers_mono; [exact C|unfold IRQ_BITMAP_BITS, NR_IRQS; lia]|lia|lia|lia|].
  assert (bitmap_set false false false map start cnt = Ok map') as E' by (unfold bitmap_set; cbn [andb]; rw s32_small //; lia). rw E'.
  iApply wp_bind. iApply (wp_ret map'). iApply wp_ret. iSplitR.
  - iPureIntro. cbn [fst snd]. split; [apply s32_small; lia|]. split; [eapply rewrites_covers; eassumption|apply R].
  - iFrame "Ha". iExists g. iSplitR; [done|iExact "HT"].
Qed.

Lemma alloc_descs_runs fuel map start cnt f m hf : (11 < fuel)%nat -> 0 < start -> 0 <= cnt -> start + cnt <= 64 -> covers map IRQ_BITMAP_BITS ->
  consistent f map -> (forall j, start <= j < start + cnt -> bit map j = false) ->
  hprop_holds (irq_table root f ∗ avail ∗ davail (Z.to_nat cnt))%I m -> m ##ₘ hf ->
  exists map' m' f', alloc_descs root chip kzalloc node_alloc fuel map start cnt 0 (m ∪ hf) = Ok ((start, map'), m' ∪ hf) /\ m' ##ₘ hf /\
    covers map' IRQ_BITMAP_BITS /\ (forall k, 0 <= k -> bit map' k = bit map k || in_range start cnt k) /\
    hprop_holds (irq_table root f' ∗ avail)%I m' /\ extends f f' start (Z.to_nat cnt).
Proof.
  intros Hf Hs Hc Hn C K Hz HP Hd. destruct (wp_adequate _ _ _ (wp_alloc_descs fuel map start cnt f Hf Hs Hc Hn C
    ltac:(intros j Hj; destruct (Z.eq_dec (f j) 0) as [|Hne]; [done|]; apply K in Hne; [|lia]; rw Hz // in Hne)) m hf HP Hd) as ([r map'] & m' & E & D & HQ).
  destruct HQ as (h1 & h2 & D1 & Hs1 & (E1 & C1 & B1) & (h3 & h4 & D2 & Hs2 & Ha & (f' & h5 & h6 & D3 & Hs3 & Hx & HT))). simpl in E1, C1, B1. subst r.
  exists map', m', f'. split; [exact E|]. split; [exact D|]. split; [exact C1|]. split; [exact B1|]. split; [|exact Hx].
  exists h4, h3. split; [done|]. split; [rw map_union_comm; [|done]; etransitivity; [exact Hs2|]; etransitivity; [|exact Hs1]; by apply map_union_subseteq_r|].
  split; [|exact Ha]. eapply hprop_mono; [exact HT|]. etransitivity; [|exact Hs3]. by apply map_union_subseteq_r.
Qed.

Lemma table_lookup fuel f m hf : (11 < fuel)%nat -> hprop_holds (irq_table root f ∗ avail)%I m -> m ##ₘ hf ->
  forall j, 0 <= j < 2 ^ 64 -> irq_to_desc root fuel j (m ∪ hf) = Ok (f j, m ∪ hf).
Proof.
  intros Hf (h1 & h2 & D & Hs & (h3 & h4 & D3 & Hs3 & _ & (h5 & h6 & D5 & Hs5 & [L HL] & _)) & _) Hd j Hj. apply (radix_lookup_reads root j L f m hf fuel Hj Hf); [|done].
  eapply hprop_mono; [exact HL|]. etransitivity; [by apply map_union_subseteq_l|]. etransitivity; [exact Hs5|]. etransitivity; [by apply map_union_subseteq_r|].
  etransitivity; [exact Hs3|]. etransitivity; [|exact Hs]. by apply map_union_subseteq_l.
Qed.

(** No [cnt] free numbers from [lo] on, within the numbers there are. *)
Definition exhausted (map : list Z) (lo cnt : Z) : Prop := forall a, lo <= a -> a + cnt <= NR_IRQS -> ~ clear_area map IRQ_BITMAP_BITS cnt 0 0 a.

Lemma area_found map lo cnt : covers map IRQ_BITMAP_BITS -> 0 <= lo -> 0 < cnt < 2 ^ 30 ->
  exists r, bitmap_find_next_zero_area map IRQ_BITMAP_BITS lo cnt 0 = Ok r /\ 0 <= r < 2 ^ 31 /\
    (lo <= r /\ clear_area map IRQ_BITMAP_BITS cnt 0 0 r /\ (forall a, lo <= a < r -> ~ clear_area map IRQ_BITMAP_BITS cnt 0 0 a) \/
     IRQ_BITMAP_BITS < r /\ forall a, lo <= a -> ~ clear_area map IRQ_BITMAP_BITS cnt 0 0 a).
Proof.
  intros C Hl Hc. destruct (area_loop_spec map IRQ_BITMAP_BITS cnt 0 0 C) with (fuel := S (Z.to_nat IRQ_BITMAP_BITS)) (start := lo) as (r & E & H);
    try (unfold IRQ_BITMAP_BITS, NR_IRQS; lia). exists r. split; [exact E|]. unfold IRQ_BITMAP_BITS, NR_IRQS in *.
  destruct H as [(H1 & H2 & H3)|[H1 H2]]; [|split; [lia|right; split; [lia|done]]]. pose proof H2 as (_ & H4 & _). split; [lia|left; done].
Qed.

End Contract.

(** ** An allocator and witnesses *)

(** A bump allocator over cleared descriptors, the next one at the address in cell 24. *)
Definition desc_bump : prog Z := n ← ld 24; st 24 (n + 72);; mret n.
Fixpoint desc_arena (p : Z) (c : nat) : hprop := match c with O => emp | S c' => desc_zeroed p ∗ desc_arena (p + 72) c' end%I.
Definition desc_avail (c : nat) : hprop := (∃ p, ⌜4096 <= p /\ p mod 4 = 0 /\ p + 72 * Z.of_nat c < 2 ^ 64 - 4096⌝ ∗ 24 ↦ p ∗ desc_arena p c)%I.
Lemma desc_bump_spec c : desc_avail (S c) ⊢ wp desc_bump (fun p => desc_avail c ∗ ⌜node_ok p⌝ ∗ desc_zeroed p)%I.
Proof.
  iIntros "(%p & (%H1 & %H2 & %H3) & Hn & [Hz Ha])". unfold desc_bump. wp_ld "Hn". wp_st "Hn". iApply wp_ret. iFrame "Hz". iSplitL.
  - iExists (p + 72)%Z. iFrame "Hn Ha". iPureIntro. split; [lia|]. split; [rw Z.add_mod; [|lia]; rw H2; reflexivity|lia].
  - iPureIntro. split; [lia|done].
Qed.
#[export] Instance desc_bump_alloc : DescAlloc desc_bump := {| davail := desc_avail; dalloc_spec := desc_bump_spec |}.

(** An empty tree, two tree nodes and one descriptor. *)
Definition irq_cells : list (Z * Z) := xa_cells ++ (24, 20000) :: ((fun o => (20000 + o, 0)) <$> field_cells).
Definition no_irqs : list Z := replicate 130 0.

Lemma irq_cells_hold : hprop_holds (irq_table 4000 no_entries ∗ bump_avail ∗ desc_avail 1)%I (cells irq_cells).
Proof.
  apply cells_entail; [solve_nodup|]. unfold irq_cells. iIntros "H". iDestruct (cells_app_split with "H") as "[H Hd]". unfold xa_cells.
  iDestruct (cells_app_split with "H") as "[(Hx & Hn & Hl & _) H]". iDestruct (cells_app_split with "H") as "[H1 H2]".
  iSplitL "Hx"; [|iSplitR "Hd"; [iApply (arena_two with "Hn Hl H1 H2")|]].
  - iSplitR; [done|]. iSplitL; [|by iApply descs_none]. iExists 0%nat, 0. iFrame "Hx". iPureIntro. split; [split; [lia|done]|]. split; [done|by left].
  - iDestruct "Hd" as "[Hn Hd]". iExists 20000. iFrame "Hn". iSplitR; [done|]. iSplitL; [|done]. unfold desc_zeroed. by rw big_sepL_fmap.
Qed.

Lemma no_irqs_clear : covers no_irqs IRQ_BITMAP_BITS /\ forall k, bit no_irqs k = false.
Proof.
  split; [split; [apply Forall_replicate; unfold is_u64; lia|unfold IRQ_BITMAP_BITS, NR_IRQS, no_irqs; rw length_replicate; lia]|].
  intros k. unfold bit, no_irqs. destruct (replicate 130 0 !! _) eqn:E; [|done]. apply lookup_replicate in E as [-> _]. apply Z.bits_0.
Qed.


(** The second attempt of [irq_domain_alloc_descs], from number 1 on, is never
    made: when the numbers from the hint on are taken the first one halts. *)
Lemma alloc_from_hint_halts : irq_domain_alloc_descs 4000 0 desc_bump bump_alloc 12 ((2 ^ 63) :: replicate 129 0) (-1) 1 63 0 (cells irq_cells) = Panic "need to extend!".
Proof. vm_compute. reflexivity. Qed.
