(* ===== verification/Slab.v ===== *)
(** * slab/slab.c and include/slab.h: object caches

    A cache hands out objects of one size.  It keeps slabs, blocks of pages cut
    into objects, on three lists (partial, full, free), and an array of objects
    that are free but not given back to their slabs yet.  Which objects of a slab
    are free is an array of byte-sized indices; it is either at the end of the
    slab or, for caches without constructor, inside one of the free objects.

    The state of a cache is its [kmem_cache], the [struct page]s of its slabs by
    the address of the memory they describe, the bytes of memory and the state of
    the page allocator, which is an argument.  A list of slabs is a sequence of
    these addresses; [list_del] takes a slab from whichever list it is on. *)

From Stdlib Require Import ZArith Lia Bool.
From stdpp Require Import base tactics numbers list gmap strings.
From S2P Require Import Prelude Words Memblock Buddy.

(** ** Data *)

Definition CFLGS_OBJFREELIST_SLAB : Z := 0x40000000.
Definition SLAB_HWCACHE_ALIGN : Z := 0x00002000.
Definition SLAB_OBJ_MIN_SIZE : Z := 16.
Definition ARCH_SLAB_MINALIGN : Z := 8.
Definition ARCH_KMALLOC_MINALIGN : Z := 8.
Definition BYTES_PER_WORD : Z := 8.
Definition KMALLOC_SHIFT_HIGH : Z := MAX_ORDER + PAGE_SHIFT - 1.
Definition KMALLOC_SHIFT_MAX : Z := KMALLOC_SHIFT_HIGH.
Definition KMALLOC_SHIFT_LOW : Z := 5.
Definition KMALLOC_MIN_SIZE : Z := 2 ^ KMALLOC_SHIFT_LOW.
Definition KMALLOC_MAX_CACHE_SIZE : Z := 2 ^ KMALLOC_SHIFT_HIGH.
Definition KMALLOC_MAX_ORDER : Z := KMALLOC_SHIFT_MAX - PAGE_SHIFT.
Definition ZERO_SIZE_PTR : Z := 16.
Definition ZERO_OR_NULL_PTR (x : Z) : bool := x <=? ZERO_SIZE_PTR.
Definition SLAB_OBJ_MAX_NUM : Z := 2 ^ 8 - 1.
Definition __GFP_NOFAIL : Z := 0x8000.
Definition BOOT_CPUCACHE_ENTRIES : Z := 1.
Definition SIZEOF_ARRAY_CACHE : Z := 16.

Inductive slab_state := DOWN | PARTIAL | PARTIAL_NODE | UP | FULL.
Definition state_rank (s : slab_state) : Z := match s with DOWN => 0 | PARTIAL => 1 | PARTIAL_NODE => 2 | UP => 3 | FULL => 4 end.

Abbreviation bytes := (Z -> Z).
Definition write (b : bytes) (a v : Z) : bytes := fun x => if x =? a then v else b x.

Record array_cache := ArrayCache { avail : Z; ac_limit : Z; batchcount : Z; entry : list Z }.
Record kmem_cache_node := Node { slabs_partial : list Z; slabs_full : list Z; slabs_free : list Z; total_slabs : Z; free_slabs : Z; free_objects : Z }.
Record kmem_cache := KmemCache {
  cpu_cache : option array_cache; c_limit : Z; c_size : Z; c_flags : Z; c_num : Z; gfporder : Z; freelist_size : Z;
  ctor : option (Z -> bytes -> bytes); object_size : Z; c_align : Z; c_node : option kmem_cache_node }.
Record spage := SPage { PageSlab : bool; slab_cache : Z; freelist : Z; s_mem : Z; active : Z }.

Definition set_cpu (c : kmem_cache) (a : option array_cache) : kmem_cache :=
  KmemCache a (c_limit c) (c_size c) (c_flags c) (c_num c) (gfporder c) (freelist_size c) (ctor c) (object_size c) (c_align c) (c_node c).
Definition set_node (c : kmem_cache) (n : option kmem_cache_node) : kmem_cache :=
  KmemCache (cpu_cache c) (c_limit c) (c_size c) (c_flags c) (c_num c) (gfporder c) (freelist_size c) (ctor c) (object_size c) (c_align c) n.
Definition set_limit (c : kmem_cache) (l : Z) : kmem_cache :=
  KmemCache (cpu_cache c) l (c_size c) (c_flags c) (c_num c) (gfporder c) (freelist_size c) (ctor c) (object_size c) (c_align c) (c_node c).
Definition set_geometry (c : kmem_cache) (n order : Z) : kmem_cache :=
  KmemCache (cpu_cache c) (c_limit c) (c_size c) (c_flags c) n order (freelist_size c) (ctor c) (object_size c) (c_align c) (c_node c).
Definition set_final (c : kmem_cache) (size flags fsize : Z) : kmem_cache :=
  KmemCache (cpu_cache c) (c_limit c) size flags (c_num c) (gfporder c) fsize (ctor c) (object_size c) (c_align c) (c_node c).
Definition set_align (c : kmem_cache) (a : Z) : kmem_cache :=
  KmemCache (cpu_cache c) (c_limit c) (c_size c) (c_flags c) (c_num c) (gfporder c) (freelist_size c) (ctor c) (object_size c) a (c_node c).

Definition OBJFREELIST_SLAB (c : kmem_cache) : bool := negb (Z.land (c_flags c) CFLGS_OBJFREELIST_SLAB =? 0).

(** ** The geometry of a cache *)

(** For a size of zero the loop does not end. *)
Fixpoint halve_align (fuel : nat) (size ralign : Z) : outcome Z :=
  match fuel with
  | O => NoFuel
  | S f => if size <=? ralign / 2 then halve_align f size (ralign / 2) else Ok ralign
  end.
Definition calculate_alignment (flags align size : Z) : outcome Z :=
  align ← (if negb (Z.land flags SLAB_HWCACHE_ALIGN =? 0)
           then ralign ← halve_align (Z.to_nat SMP_CACHE_BYTES) size SMP_CACHE_BYTES; Ok (max align ralign)
           else Ok align);
  let align := if align <? ARCH_SLAB_MINALIGN then ARCH_SLAB_MINALIGN else align in
  Ok (u32 (_ALIGN align BYTES_PER_WORD)).

(** The number of objects and the bytes left over. *)
Definition cache_estimate (gfporder buffer_size flags : Z) : Z * Z :=
  let slab_size := u64 (Z.shiftl PAGE_SIZE gfporder) in
  if negb (Z.land flags CFLGS_OBJFREELIST_SLAB =? 0) then (slab_size / buffer_size, slab_size mod buffer_size)
  else (slab_size / (buffer_size + 1), slab_size mod (buffer_size + 1)).
Fixpoint order_loop (fuel : nat) (c : kmem_cache) (size flags order : Z) : Z * kmem_cache :=
  match fuel with
  | O => (0, c)
  | S f =>
      if order <=? KMALLOC_MAX_ORDER then
        let '(num, remainder) := cache_estimate order size flags in
        if num =? 0 then order_loop f c size flags (order + 1)
        else if SLAB_OBJ_MAX_NUM <? num then (0, c)
        else (remainder, set_geometry c num order)
      else (0, c)
  end.
Definition calculate_slab_order (c : kmem_cache) (size flags : Z) : Z * kmem_cache := order_loop (S (S (Z.to_nat KMALLOC_MAX_ORDER))) c size flags 0.

Definition set_objfreelist_slab_cache (c : kmem_cache) (size flags : Z) : bool * kmem_cache :=
  let c := set_geometry c 0 (gfporder c) in
  match ctor c with
  | Some _ => (false, c)
  | None =>
      let '(_, c) := calculate_slab_order c size (Z.lor flags CFLGS_OBJFREELIST_SLAB) in
      if c_num c =? 0 then (false, c)
      else if object_size c <? c_num c * 1 then (false, c)
      else (true, c)
  end.
Definition set_on_slab_cache (c : kmem_cache) (size flags : Z) : bool * kmem_cache :=
  let c := set_geometry c 0 (gfporder c) in
  let '(_, c) := calculate_slab_order c size flags in
  if c_num c =? 0 then (false, c) else (true, c).

(** Where the free indices go: inside an object if that is possible, else at the end of the slab. *)
Definition choose_freelist (c : kmem_cache) (size flags : Z) : outcome (Z * kmem_cache) :=
  let '(ok, c1) := set_objfreelist_slab_cache c size flags in
  if ok then Ok (Z.lor flags CFLGS_OBJFREELIST_SLAB, c1)
  else let '(ok, c2) := set_on_slab_cache c1 size flags in
       if ok then Ok (flags, c2) else Panic "bad cache!".

(** ** The arrays of free objects *)

Definition init_arraycache (limit batch : Z) : array_cache := ArrayCache 0 limit batch (replicate (Z.to_nat limit) 0).
(** The reserved chunk is its address and the bytes left. *)
Definition alloc_kmem_cache_cpus (chunk : Z * Z) (entries batchcount : Z) : outcome (array_cache * (Z * Z)) :=
  let '(ptr, room) := chunk in
  if (ptr =? 0) || (room =? 0) then Panic "no reserved memory for cpu_cache"
  else
    let size := 8 * entries + SIZEOF_ARRAY_CACHE in
    if room <? size then Panic "need more reserved memory"
    else Ok (init_arraycache entries batchcount, (ptr + size, room - size)).

Definition empty_node : kmem_cache_node := Node [] [] [] 0 0 0.
Definition kmem_cache_node_init (_ : kmem_cache_node) : kmem_cache_node := empty_node.

(** ** Objects and slabs *)

Definition index_to_obj (c : kmem_cache) (page : spage) (idx : Z) : Z := u64 (s_mem page + u32 (c_size c * idx)).
Definition obj_to_index (c : kmem_cache) (page : spage) (obj : Z) : Z := u32 ((obj - s_mem page) / c_size c).

(** [list_del]: the slab leaves the list it is on. *)
Definition unlink (p : Z) (n : kmem_cache_node) : kmem_cache_node :=
  Node (filter (.≠ p) (slabs_partial n)) (filter (.≠ p) (slabs_full n)) (filter (.≠ p) (slabs_free n)) (total_slabs n) (free_slabs n) (free_objects n).
Definition set_partial (n : kmem_cache_node) (l : list Z) : kmem_cache_node := Node l (slabs_full n) (slabs_free n) (total_slabs n) (free_slabs n) (free_objects n).
Definition set_full (n : kmem_cache_node) (l : list Z) : kmem_cache_node := Node (slabs_partial n) l (slabs_free n) (total_slabs n) (free_slabs n) (free_objects n).
Definition set_free (n : kmem_cache_node) (l : list Z) : kmem_cache_node := Node (slabs_partial n) (slabs_full n) l (total_slabs n) (free_slabs n) (free_objects n).
Definition set_total (n : kmem_cache_node) (x : Z) : kmem_cache_node := Node (slabs_partial n) (slabs_full n) (slabs_free n) x (free_slabs n) (free_objects n).
Definition set_free_slabs (n : kmem_cache_node) (x : Z) : kmem_cache_node := Node (slabs_partial n) (slabs_full n) (slabs_free n) (total_slabs n) x (free_objects n).
Definition set_free_objects (n : kmem_cache_node) (x : Z) : kmem_cache_node := Node (slabs_partial n) (slabs_full n) (slabs_free n) (total_slabs n) (free_slabs n) x.

Definition set_active (pg : spage) (a : Z) : spage := SPage (PageSlab pg) (slab_cache pg) (freelist pg) (s_mem pg) a.
Definition set_freelist (pg : spage) (f : Z) : spage := SPage (PageSlab pg) (slab_cache pg) f (s_mem pg) (active pg).

Section Cache.
  (** The state of the page allocator; its [alloc_pages] gives the address of a block. *)
  Context {PS : Type} (alloc_pages : Z -> Z -> ST PS Z).

Record world := World { kc : kmem_cache; pages : gmap Z spage; mem : bytes; ps : PS }.
Abbreviation SL := (ST world).
Definition set_kc (w : world) (c : kmem_cache) : world := World c (pages w) (mem w) (ps w).
Definition set_pages (w : world) (m : gmap Z spage) : world := World (kc w) m (mem w) (ps w).
Definition set_mem (w : world) (b : bytes) : world := World (kc w) (pages w) b (ps w).

Definition get_kc : SL kmem_cache := w ← st_get; mret (kc w).
Definition get_ac : SL array_cache := w ← st_get; st_lift (deref (cpu_cache (kc w))).
Definition put_ac (a : array_cache) : SL unit := w ← st_get; st_put (set_kc w (set_cpu (kc w) (Some a))).
Definition get_node : SL kmem_cache_node := w ← st_get; st_lift (deref (c_node (kc w))).
Definition put_node (n : kmem_cache_node) : SL unit := w ← st_get; st_put (set_kc w (set_node (kc w) (Some n))).
Definition get_page (p : Z) : SL spage := w ← st_get; st_lift (deref (pages w !! p)).
Definition put_page (p : Z) (pg : spage) : SL unit := w ← st_get; st_put (set_pages w (<[p := pg]> (pages w))).
Definition get_byte (a : Z) : SL Z := w ← st_get; mret (mem w a).
Definition put_byte (a v : Z) : SL unit := w ← st_get; st_put (set_mem w (write (mem w) a v)).

(** The address of the first slab, or nothing. *)
Definition get_first_slab : SL (option Z) :=
  n ← get_node;
  match slabs_partial n with
  | p :: _ => mret (Some p)
  | [] =>
      match slabs_free n with
      | p :: _ => put_node (set_free_slabs n (free_slabs n - 1));; mret (Some p)
      | [] => mret None
      end
  end.

Definition get_free_obj (p idx : Z) : SL Z :=
  pg ← get_page p;
  st_lift (bug_on (freelist pg =? 0) "BUG_ON");;
  get_byte (freelist pg + idx).
Definition slab_get_obj (p : Z) : SL Z :=
  pg ← get_page p;
  idx ← get_free_obj p (active pg);
  c ← get_kc;
  put_page p (set_active pg (active pg + 1));;
  mret (index_to_obj c pg idx).

(** The objects of the array: [ac->entry[ac->avail++] = objp] and [ac->entry[--ac->avail]]. *)
Definition push_entry (objp : Z) : SL unit :=
  ac ← get_ac;
  l ← st_lift (aset (entry ac) (avail ac) objp);
  put_ac (ArrayCache (avail ac + 1) (ac_limit ac) (batchcount ac) l).
Definition pop_entry : SL Z :=
  ac ← get_ac;
  put_ac (ArrayCache (avail ac - 1) (ac_limit ac) (batchcount ac) (entry ac));;
  st_lift (aget (entry ac) (avail ac - 1)).

Fixpoint alloc_block_loop (fuel : nat) (p batch : Z) : SL Z :=
  match fuel with
  | O => fun _ => NoFuel
  | S f =>
      pg ← get_page p;
      c ← get_kc;
      if active pg <? c_num c then
        if batch =? 0 then mret (batch - 1)
        else obj ← slab_get_obj p; push_entry obj;; alloc_block_loop f p (batch - 1)
      else mret batch
  end.
Definition alloc_block (p batch : Z) : SL Z :=
  pg ← get_page p;
  c ← get_kc;
  st_lift (bug_on (c_num c <=? active pg) "BUG_ON");;
  alloc_block_loop (S (Z.to_nat (c_num c))) p batch.

Definition fixup_slab_list (p : Z) : SL unit :=
  n ← get_node;
  let n := unlink p n in
  pg ← get_page p;
  c ← get_kc;
  if active pg =? c_num c then
    put_node (set_full n (p :: slabs_full n));;
    if OBJFREELIST_SLAB c then put_page p (set_freelist pg 0) else mret tt
  else put_node (set_partial n (p :: slabs_partial n)).

Definition gfp_exact_node (flags : Z) : Z := Z.land flags (u32 (Z.lnot __GFP_NOFAIL)).

(** ** Growing *)

Definition kmem_getpages (flags : Z) : SL Z :=
  w ← st_get;
  '(p, s) ← st_lift (alloc_pages flags (gfporder (kc w)) (ps w));
  st_put (World (kc w) (pages w) (mem w) s);;
  if p =? 0 then st_panic "slab out of memory!"
  else mret p.
(** [alloc_slabmgmt] and [slab_map_pages]: [self] is the address of the cache. *)
Definition alloc_slabmgmt (p : Z) : SL Z :=
  c ← get_kc;
  mret (if OBJFREELIST_SLAB c then 0 else u64 (p + u64 (Z.shiftl PAGE_SIZE (gfporder c)) - freelist_size c)).
Definition slab_map_pages (self p fl : Z) : SL unit := put_page p (SPage true self fl p 0).
Definition set_free_obj (p idx val : Z) : SL unit := pg ← get_page p; put_byte (freelist pg + idx) (u8 val).
Fixpoint init_objs_loop (n : nat) (p i : Z) : SL unit :=
  match n with
  | O => mret tt
  | S n =>
      pg ← get_page p;
      c ← get_kc;
      let objp := index_to_obj c pg i in
      match ctor c with Some f => w ← st_get; st_put (set_mem w (f objp (mem w))) | None => mret tt end;;
      set_free_obj p i i;;
      init_objs_loop n p (i + 1)
  end.
Definition cache_init_objs (p : Z) : SL unit :=
  pg ← get_page p;
  c ← get_kc;
  (if OBJFREELIST_SLAB c then put_page p (set_freelist pg (index_to_obj c pg (u32 (c_num c - 1)))) else mret tt);;
  init_objs_loop (Z.to_nat (c_num c)) p 0.
Definition cache_grow_begin (self flags : Z) : SL Z :=
  p ← kmem_getpages flags;
  fl ← alloc_slabmgmt p;
  slab_map_pages self p fl;;
  cache_init_objs p;;
  mret p.
Definition cache_grow_end (p : Z) : SL unit :=
  n ← get_node;
  put_node (set_total n (total_slabs n + 1));;
  pg ← get_page p;
  c ← get_kc;
  (if active pg =? 0 then
     n ← get_node; put_node (set_free_slabs (set_free n (slabs_free n ++ [p])) (free_slabs n + 1))
   else fixup_slab_list p);;
  n ← get_node;
  put_node (set_free_objects n (free_objects n + (c_num c - active pg))).

(** ** Allocation *)

Fixpoint refill_loop (fuel : nat) (batch : Z) : SL Z :=
  match fuel with
  | O => fun _ => NoFuel
  | S f =>
      if 0 <? batch then
        p ← get_first_slab;
        match p with
        | None => mret batch
        | Some p => batch ← alloc_block p batch; fixup_slab_list p;; refill_loop f batch
        end
      else mret batch
  end.
Definition cache_alloc_refill (self flags : Z) : SL Z :=
  ac ← get_ac;
  c ← get_kc;
  st_lift (bug_on ((0 <? avail ac) || match c_node c with None => true | Some _ => false end) "BUG_ON");;
  n ← get_node;
  batch ← (if free_objects n =? 0 then mret (batchcount ac)
           else
             batch ← refill_loop (S (Z.to_nat (batchcount ac))) (batchcount ac);
             n ← get_node; ac ← get_ac;
             put_node (set_free_objects n (free_objects n - avail ac));;
             mret batch);
  ac ← get_ac;
  if avail ac =? 0 then
    p ← cache_grow_begin self (gfp_exact_node flags);
    alloc_block p batch;;
    cache_grow_end p;;
    ac ← get_ac;
    if avail ac =? 0 then mret 0 else pop_entry
  else pop_entry.
Definition ____cache_alloc (self flags : Z) : SL Z :=
  ac ← get_ac;
  if negb (avail ac =? 0) then pop_entry else cache_alloc_refill self flags.
Definition slab_want_init_on_alloc (flags : Z) : bool := negb (Z.land flags __GFP_ZERO =? 0).
Fixpoint zero_bytes (n : nat) (a : Z) (b : bytes) : bytes := match n with O => b | S n => zero_bytes n (a + 1) (write b a 0) end.
Definition slab_alloc (self flags : Z) : SL Z :=
  objp ← ____cache_alloc self flags;
  (if slab_want_init_on_alloc flags && negb (objp =? 0)
   then w ← st_get; st_put (set_mem w (zero_bytes (Z.to_nat (object_size (kc w))) objp (mem w)))
   else mret tt);;
  mret objp.
Definition _kmem_cache_alloc (self flags : Z) : SL Z := slab_alloc self flags.

(** ** Release *)

(** The slab of an object: pages are never compound, so it is the object's own page. *)
Definition virt_to_head_page (x : Z) : Z := x - x mod PAGE_SIZE.
Definition slab_put_obj (p objp : Z) : SL unit :=
  pg ← get_page p;
  c ← get_kc;
  let objnr := obj_to_index c pg objp in
  let pg := set_active pg (u32 (active pg - 1)) in
  let pg := if freelist pg =? 0 then set_freelist pg objp else pg in
  put_page p pg;;
  set_free_obj p (active pg) objnr.
Definition free_one (objp : Z) : SL unit :=
  let p := virt_to_head_page objp in
  n ← get_node;
  put_node (unlink p n);;
  slab_put_obj p objp;;
  pg ← get_page p;
  n ← get_node;
  if active pg =? 0 then put_node (set_free_slabs (set_free n (p :: slabs_free n)) (free_slabs n + 1))
  else put_node (set_partial n (slabs_partial n ++ [p])).
Fixpoint free_objs (objs : list Z) : SL unit := match objs with [] => mret tt | o :: objs => free_one o;; free_objs objs end.
Definition free_block (objs : list Z) (nr_objects : Z) : SL unit :=
  n ← get_node;
  put_node (set_free_objects n (free_objects n + nr_objects));;
  (if nr_objects <=? Z.of_nat (length objs) then mret tt else fun _ => Fault);;
  free_objs (take (Z.to_nat nr_objects) objs).

(** No slab is ever put on the list of those to destroy. *)
Definition cache_flusharray : SL unit :=
  ac ← get_ac;
  let batch := batchcount ac in
  free_block (entry ac) batch;;
  ac ← get_ac;
  let av := avail ac - batch in
  let moved := take (Z.to_nat av) (drop (Z.to_nat batch) (entry ac)) in
  put_ac (ArrayCache av (ac_limit ac) (batchcount ac) (moved ++ drop (length moved) (entry ac))).
Definition __free_one (objp : Z) : SL unit := push_entry objp.
Definition ___cache_free (objp : Z) : SL unit :=
  ac ← get_ac;
  (if ac_limit ac <=? avail ac then cache_flusharray else mret tt);;
  __free_one objp.
Definition _kmem_cache_free (objp : Z) : SL unit := ___cache_free objp.
(** An object of another cache is outside this state. *)
Definition _kfree (self objp : Z) : SL unit :=
  if ZERO_OR_NULL_PTR objp then mret tt
  else
    pg ← get_page (virt_to_head_page objp);
    if negb (PageSlab pg) then st_panic "Object is not a Slab page!"
    else if slab_cache pg =? 0 then mret tt
    else if slab_cache pg =? self then ___cache_free objp else fun _ => Fault.

(** ** Creation *)

(** Whether [kmalloc] finds memory for a node is [node_mem]; it is asked only when there is none yet. *)
Definition setup_kmem_cache_nodes (node_mem : bool) : SL unit :=
  c ← get_kc;
  match c_node c with
  | Some _ => mret tt
  | None => if node_mem then put_node empty_node else st_panic "cannot init cache node!"
  end.
(** The rest of the reserved chunk is returned. *)
Definition do_tune_cpucache (node_mem : bool) (chunk : Z * Z) (limit batchcount : Z) : SL (Z * Z) :=
  '(a, chunk) ← st_lift (alloc_kmem_cache_cpus chunk limit batchcount);
  c ← get_kc;
  let prev := cpu_cache c in
  w ← st_get;
  st_put (set_kc w (set_limit (set_cpu c (Some a)) limit));;
  match prev with Some p => free_block (entry p) (avail p) | None => mret tt end;;
  setup_kmem_cache_nodes node_mem;;
  mret chunk.
Definition cpucache_limit (size : Z) : Z :=
  if 131072 <? size then 1 else if PAGE_SIZE <? size then 8 else if 1024 <? size then 24 else if 256 <? size then 54 else 120.
Definition enable_cpucache (node_mem : bool) (chunk : Z * Z) : SL (Z * Z) :=
  c ← get_kc;
  let limit := cpucache_limit (c_size c) in
  do_tune_cpucache node_mem chunk limit ((limit + 1) / 2).
Definition setup_cpu_cache (st : slab_state) (node_mem : bool) (chunk : Z * Z) : SL (Z * Z) :=
  if state_rank FULL <=? state_rank st then enable_cpucache node_mem chunk
  else
    '(a, chunk) ← st_lift (alloc_kmem_cache_cpus chunk 1 1);
    w ← st_get;
    st_put (set_kc w (set_cpu (kc w) (Some a)));;
    match st with
    | DOWN | PARTIAL => put_node empty_node
    | _ => if node_mem then put_node empty_node else st_panic "BUG_ON"
    end;;
    put_ac (ArrayCache 0 BOOT_CPUCACHE_ENTRIES 1 (entry a));;
    w ← st_get;
    st_put (set_kc w (set_limit (kc w) BOOT_CPUCACHE_ENTRIES));;
    mret chunk.

Definition object_span (size align : Z) : Z :=
  let size := u32 (_ALIGN size BYTES_PER_WORD) in
  let size := u32 (_ALIGN size align) in
  if size <? SLAB_OBJ_MIN_SIZE then u32 (_ALIGN SLAB_OBJ_MIN_SIZE align) else size.
Definition __kmem_cache_create (st : slab_state) (node_mem : bool) (chunk : Z * Z) (flags : Z) : SL (Z * Z) :=
  c ← get_kc;
  let c := set_align c (if BYTES_PER_WORD <? c_align c then c_align c else BYTES_PER_WORD) in
  let size := object_span (c_size c) (c_align c) in
  '(flags, c) ← st_lift (choose_freelist c size flags);
  w ← st_get;
  st_put (set_kc w (set_final c size flags (c_num c * 1)));;
  setup_cpu_cache st node_mem chunk.

(** The cache object itself is memory of zeroes. *)
Definition zeroed : kmem_cache := KmemCache None 0 0 0 0 0 0 None 0 0 None.
Definition set_asked (c : kmem_cache) (size align : Z) (f : option (Z -> bytes -> bytes)) : kmem_cache :=
  KmemCache (cpu_cache c) (c_limit c) size (c_flags c) (c_num c) (gfporder c) (freelist_size c) f size align (c_node c).
Definition create_boot_cache (st : slab_state) (node_mem : bool) (chunk : Z * Z) (size flags : Z) : SL (Z * Z) :=
  let align := ARCH_KMALLOC_MINALIGN in
  let align := if is_power_of_2 size then max align size else align in
  align ← st_lift (calculate_alignment flags align size);
  w ← st_get;
  st_put (set_kc w (set_asked (kc w) size align (ctor (kc w))));;
  __kmem_cache_create st node_mem chunk flags.
(** Whether the cache object and the copy of the name can be allocated are the arguments
    [obj_mem] and [name_mem]. *)
Definition create_kmalloc_cache (obj_mem : bool) (st : slab_state) (node_mem : bool) (chunk : Z * Z) (size flags : Z) : SL (Z * Z) :=
  if obj_mem then w ← st_get; st_put (set_kc w zeroed);; create_boot_cache st node_mem chunk size flags
  else st_panic "Out of memory when creating slab".
(** The number is the error. *)
Definition create_cache (obj_mem : bool) (st : slab_state) (node_mem : bool) (chunk : Z * Z)
    (object_size align flags useroffset usersize : Z) (f : option (Z -> bytes -> bytes)) : SL (Z * (Z * Z)) :=
  st_lift (bug_on (object_size <? u32 (useroffset + usersize)) "BUG_ON");;
  if obj_mem then
    w ← st_get;
    st_put (set_kc w (set_asked zeroed object_size align f));;
    chunk ← __kmem_cache_create st node_mem chunk flags;
    mret (0, chunk)
  else mret (- ENOMEM, chunk).
Definition kmem_cache_create_usercopy (name_mem obj_mem : bool) (st : slab_state) (node_mem : bool) (chunk : Z * Z)
    (size align flags useroffset usersize : Z) (f : option (Z -> bytes -> bytes)) : SL (Z * Z) :=
  if name_mem then
    align ← st_lift (calculate_alignment flags align size);
    '(err, chunk) ← create_cache obj_mem st node_mem chunk size align flags useroffset usersize f;
    if negb (err =? 0) then st_panic "kmem_cache_create failed" else mret chunk
  else st_panic "kmem_cache_create failed".
Definition kmem_cache_create (name_mem obj_mem : bool) (st : slab_state) (node_mem : bool) (chunk : Z * Z)
    (size align flags : Z) (f : option (Z -> bytes -> bytes)) : SL (Z * Z) :=
  kmem_cache_create_usercopy name_mem obj_mem st node_mem chunk size align flags 0 0 f.
End Cache.

(** ** The general caches *)

Definition size_index : list Z := [3; 4; 5; 5; 6; 6; 6; 6; 1; 1; 1; 1; 7; 7; 7; 7; 2; 2; 2; 2; 2; 2; 2; 2].
Definition kmalloc_info : list Z :=
  [0; 96; 192; 8; 16; 32; 64; 128; 256; 512; 1024; 2048; 4096; 8192; 16384; 32768; 65536; 131072; 262144; 524288;
   1048576; 2097152; 4194304; 8388608; 16777216; 33554432; 67108864].
Definition size_index_elem (bytes : Z) : Z := (bytes - 1) / 8.
(** The small sizes are served by the smallest cache there is. *)
Fixpoint adjust_index (fuel : nat) (t : list Z) (i : Z) : outcome (list Z) :=
  match fuel with
  | O => NoFuel
  | S f =>
      if i <? KMALLOC_MIN_SIZE then
        let elem := size_index_elem i in
        if Z.of_nat (length t) <=? elem then Ok t
        else t ← aset t elem KMALLOC_SHIFT_LOW; adjust_index f t (i + 8)
      else Ok t
  end.
Definition setup_kmalloc_cache_index_table (t : list Z) : outcome (list Z) := adjust_index (Z.to_nat KMALLOC_MIN_SIZE) t 8.
(** The general caches: for each index the size of the objects, if the cache was created. *)
Definition new_kmalloc_cache (t : list (option Z)) (idx : Z) : outcome (list (option Z)) := size ← aget kmalloc_info idx; aset t idx (Some size).
Definition absent (t : list (option Z)) (i : Z) : outcome bool := c ← aget t i; Ok match c with Some _ => false | None => true end.
Fixpoint create_loop (n : nat) (t : list (option Z)) (i : Z) : outcome (list (option Z)) :=
  match n with
  | O => Ok t
  | S n =>
      t ← (b ← absent t i; if (b : bool) then new_kmalloc_cache t i else Ok t);
      t ← (b ← absent t 1; if (i =? 6) && b then new_kmalloc_cache t 1 else Ok t);
      t ← (b ← absent t 2; if (i =? 7) && b then new_kmalloc_cache t 2 else Ok t);
      create_loop n t (i + 1)
  end.
Definition create_kmalloc_caches (t : list (option Z)) : outcome (list (option Z)) := create_loop (Z.to_nat (KMALLOC_SHIFT_HIGH - KMALLOC_SHIFT_LOW + 1)) t KMALLOC_SHIFT_LOW.
(** The index of the cache that serves a size: [inl] the special pointer, [inr] the index. *)
Definition kmalloc_slab (t : list Z) (size : Z) : outcome (Z + Z) :=
  if size <=? 192 then
    if size =? 0 then Ok (inl ZERO_SIZE_PTR) else i ← aget t (size_index_elem (u32 size)); Ok (inr i)
  else if KMALLOC_MAX_CACHE_SIZE <? size then Panic "BUG_ON"
  else Ok (inr (fls (size - 1))).
(** The cache of an index is reached through [cache_alloc]. *)
Definition __do_kmalloc {S : Type} (cache_alloc : Z -> Z -> ST S Z) (t : list Z) (size flags : Z) : ST S Z :=
  if KMALLOC_MAX_CACHE_SIZE <? size then mret 0
  else
    c ← st_lift (kmalloc_slab t size);
    match c with inl p => mret p | inr i => cache_alloc i flags end.
Definition __kmalloc {S : Type} (cache_alloc : Z -> Z -> ST S Z) (t : list Z) (size flags : Z) : ST S Z := __do_kmalloc cache_alloc t size flags.
Definition _kmalloc {S : Type} (cache_alloc : Z -> Z -> ST S Z) (t : list Z) (size flags : Z) : ST S Z := __kmalloc cache_alloc t size flags.
Definition kmalloc_index (size : Z) : outcome Z :=
  if size =? 0 then Ok 0
  else if size <=? KMALLOC_MIN_SIZE then Ok KMALLOC_SHIFT_LOW
  else if (64 <? size) && (size <=? 96) then Ok 1
  else if (128 <? size) && (size <=? 192) then Ok 2
  else if size <=? 8 then Ok 3 else if size <=? 16 then Ok 4 else if size <=? 32 then Ok 5 else if size <=? 64 then Ok 6
  else if size <=? 128 then Ok 7 else if size <=? 256 then Ok 8 else if size <=? 512 then Ok 9 else if size <=? 1024 then Ok 10
  else if size <=? 2 * 1024 then Ok 11 else if size <=? 4 * 1024 then Ok 12 else if size <=? 8 * 1024 then Ok 13
  else if size <=? 16 * 1024 then Ok 14 else if size <=? 32 * 1024 then Ok 15 else if size <=? 64 * 1024 then Ok 16
  else if size <=? 128 * 1024 then Ok 17 else if size <=? 256 * 1024 then Ok 18 else if size <=? 512 * 1024 then Ok 19
  else if size <=? 1024 * 1024 then Ok 20 else if size <=? 2 * 1024 * 1024 then Ok 21 else if size <=? 4 * 1024 * 1024 then Ok 22
  else if size <=? 8 * 1024 * 1024 then Ok 23 else if size <=? 16 * 1024 * 1024 then Ok 24 else if size <=? 32 * 1024 * 1024 then Ok 25
  else if size <=? 64 * 1024 * 1024 then Ok 26 else Panic "BUG".
(** The tables as [kmem_cache_init] leaves them: the index table and the general caches. *)
Definition SIZEOF_KMEM_CACHE_NODE : Z := 72.
Definition kmem_cache_init : outcome (list Z * list (option Z)) :=
  idx ← kmalloc_index SIZEOF_KMEM_CACHE_NODE;
  caches ← new_kmalloc_cache (replicate (Z.to_nat (KMALLOC_SHIFT_HIGH + 1)) None) idx;
  t ← setup_kmalloc_cache_index_table size_index;
  caches ← create_kmalloc_caches caches;
  Ok (t, caches).
