(* ===== verification/SlabProofs.v ===== *)
(** * Object caches: the invariant

    A slab at address [p] with [nm] objects comes with a permutation of the
    indices below [nm]: its first [active] entries are the objects taken, the rest
    is what the array of free indices holds.  When that array is inside an object,
    it is the object of the last entry, the one that is taken last. *)

From Stdlib Require Import ZArith Lia Bool.
From stdpp Require Import base tactics numbers list gmap strings.
From S2P Require Import Prelude Words Memblock Buddy Slab.

(** ** The geometry *)

Record geometry := Geometry { sz : Z; nm : Z; od : Z; ofl : bool; osz : Z; ct : option (Z -> bytes -> bytes) }.
(** The bytes of a slab. *)
Definition ss (g : geometry) : Z := PAGE_SIZE * 2 ^ od g.
Definition obj (g : geometry) (p i : Z) : Z := p + sz g * i.
Record geo_ok (g : geometry) : Prop := {
  go_sz : 0 < sz g < 2 ^ 23;
  go_nm : 0 < nm g < 256;
  go_od : 0 <= od g <= 10;
  go_osz : 0 <= osz g <= sz g;
  go_fit : if ofl g then nm g * sz g <= ss g /\ nm g <= sz g else nm g * (sz g + 1) <= ss g;
  go_head : od g = 0 \/ nm g = 1;
  go_ctor : match ct g with Some f => ofl g = false /\ forall o b x, ~ (o <= x < o + sz g) -> f o b x = b x | None => True end }.
(** The cache has the geometry [g]. *)
Definition has_geo (g : geometry) (c : kmem_cache) : Prop :=
  c_size c = sz g /\ c_num c = nm g /\ gfporder c = od g /\ OBJFREELIST_SLAB c = ofl g /\ freelist_size c = nm g /\ object_size c = osz g /\ ctor c = ct g.

(** ** Slabs *)

Section Inv.
  Context (g : geometry) (G : geo_ok g) (self : Z).
  Abbreviation sz := (sz g). Abbreviation nm := (nm g). Abbreviation ss := (ss g). Abbreviation obj := (obj g).

Lemma ss_bounds : 4096 <= ss <= 2 ^ 22.
Proof using G. destruct G. unfold SlabProofs.ss, PAGE_SIZE, PAGE_SHIFT. pose proof (Z.pow_le_mono_r 2 (od g) 10 ltac:(lia) ltac:(lia)). pose proof (pow2_pos (od g) ltac:(lia)). lia. Qed.
Lemma fit : nm * sz <= ss.
Proof using G. destruct G as [Hs Hn _ _ Hf _ _]. destruct (ofl g); [apply Hf|]. nia. Qed.
Lemma obj_in i : 0 <= i < nm -> 0 <= sz * i /\ sz * i + sz <= ss.
Proof using G. intros Hi. pose proof fit. destruct G. nia. Qed.

Definition slab_addr (p : Z) : Prop := 0 < p /\ p + ss < 2 ^ 64 /\ p mod ss = 0.

Lemma slab_disjoint p q x : slab_addr p -> slab_addr q -> p <= x < p + ss -> q <= x < q + ss -> p = q.
Proof using G.
  intros (_ & _ & Hp) (_ & _ & Hq) Hx Hy. pose proof ss_bounds. apply Z.mod_divide in Hp as [a Ha]; [|lia]. apply Z.mod_divide in Hq as [b Hb]; [|lia]. assert (a = b) by nia. congruence.
Qed.
Lemma obj_disjoint p i q j x : slab_addr p -> slab_addr q -> 0 <= i < nm -> 0 <= j < nm ->
  obj p i <= x < obj p i + sz -> obj q j <= x < obj q j + sz -> p = q /\ i = j.
Proof using G.
  intros Hp Hq Hi Hj Hx Hy. pose proof (obj_in i Hi). pose proof (obj_in j Hj). unfold SlabProofs.obj in *.
  assert (p = q) as -> by (apply (slab_disjoint p q x); auto; lia). split; [reflexivity|]. destruct G. assert (i < j \/ i = j \/ j < i) as [|[|]] by lia; [nia|assumption|nia].
Qed.
Lemma obj_inj p i q j : slab_addr p -> slab_addr q -> 0 <= i < nm -> 0 <= j < nm -> obj p i = obj q j -> p = q /\ i = j.
Proof using G. intros Hp Hq Hi Hj E. pose proof (go_sz g G). apply (obj_disjoint p i q j (obj p i)); auto; lia. Qed.

(** The object's page is the first of its slab. *)
Lemma obj_page p i : slab_addr p -> 0 <= i < nm -> virt_to_head_page (obj p i) = p.
Proof using G.
  intros (H0 & _ & Hm) Hi. pose proof (obj_in i Hi). unfold virt_to_head_page, SlabProofs.obj. unfold SlabProofs.ss in *. change PAGE_SIZE with 4096 in *. pose proof (go_sz g G). destruct (go_head g G) as [E|E].
  - rewrite E in *. change (4096 * 2 ^ 0) with 4096 in *. rewrite Z.add_mod, Hm, Z.add_0_l, Z.mod_mod, Z.mod_small by lia. lia.
  - replace i with 0 by lia. rewrite Z.mul_0_r, Z.add_0_r. pose proof (go_od g G). pose proof (pow2_pos (od g) ltac:(lia)).
    apply Z.mod_divide in Hm as [a Ha]; [|lia]. rewrite Ha. replace (a * (4096 * 2 ^ od g)) with (a * 2 ^ od g * 4096) by lia. rewrite Z.mod_mul by lia. lia.
Qed.

Definition nth_idx (l : list Z) (i k : Z) : Prop := l !! Z.to_nat i = Some k.

Record slab_ok (b : bytes) (p : Z) (pg : spage) (l : list Z) : Prop := {
  so_addr : slab_addr p;
  so_mem : s_mem pg = p;
  so_own : PageSlab pg = true /\ slab_cache pg = self;
  so_perm : l ≡ₚ seqZ 0 nm;
  so_act : 0 <= active pg <= nm;
  so_fl : if ofl g then active pg < nm -> exists k, nth_idx l (nm - 1) k /\ freelist pg = obj p k else freelist pg = p + ss - nm;
  so_bytes : forall i k, active pg <= i < nm -> nth_idx l i k -> b (freelist pg + i) = k }.

Definition taken (pg : spage) (l : list Z) : list Z := take (Z.to_nat (active pg)) l.

Lemma perm_facts l : l ≡ₚ seqZ 0 nm -> NoDup l /\ Z.of_nat (length l) = nm /\ forall k, k ∈ l <-> 0 <= k < nm.
Proof using G.
  intros P. split; [rewrite P; apply NoDup_seqZ|]. split; [rewrite P, length_seqZ; destruct G; lia|]. intros k. rewrite P, elem_of_seqZ. lia.
Qed.
Lemma nth_some l i : l ≡ₚ seqZ 0 nm -> 0 <= i < nm -> exists k, nth_idx l i k /\ 0 <= k < nm.
Proof using G.
  intros P Hi. destruct (perm_facts l P) as (_ & Hl & Hk). destruct (lookup_lt_is_Some_2 l (Z.to_nat i)) as [k Ek]; [lia|]. exists k. split; [exact Ek|]. apply Hk. eapply list_elem_of_lookup_2, Ek.
Qed.
(** An index at or after [active] is not taken. *)
Lemma nth_not_taken l a i k : l ≡ₚ seqZ 0 nm -> 0 <= a <= i -> nth_idx l i k -> k ∉ take (Z.to_nat a) l.
Proof using G.
  intros P Hi E H. destruct (perm_facts l P) as (Hn & _). apply list_elem_of_lookup in H as [j Hj]. apply lookup_take_Some in Hj as [Hj Hlt]. unfold nth_idx in E.
  pose proof (NoDup_lookup _ _ _ _ Hn Hj E). lia.
Qed.

(** The array of free indices of a slab is outside every taken object. *)
Lemma fl_outside b p pg l i q j : slab_ok b p pg l -> (ofl g = true -> active pg < nm) -> 0 <= i < nm -> slab_addr q -> 0 <= j < nm ->
  (q = p -> j ∈ taken pg l) -> ~ (obj q j <= freelist pg + i < obj q j + sz).
Proof using G.
  intros [Ha _ _ P Hact Hfl _] Hlt Hi Hq Hj Ht Hx. pose proof (obj_in j Hj). destruct (ofl g) eqn:Eo.
  - destruct (Hfl (Hlt eq_refl)) as (k & Hk & Ef). destruct (perm_facts l P) as (_ & _ & Hm). assert (0 <= k < nm) as Hkr by (apply Hm; eapply list_elem_of_lookup_2, Hk).
    pose proof (go_fit g G) as Hfit. rewrite Eo in Hfit. rewrite Ef in Hx. destruct (obj_disjoint q j p k _ Hq Ha Hj Hkr Hx ltac:(lia)) as [-> ->].
    specialize (Hlt eq_refl). exact (nth_not_taken l (active pg) (nm - 1) k P ltac:(lia) Hk (Ht eq_refl)).
  - pose proof (go_fit g G) as Hfit. rewrite Eo in Hfit. pose proof (go_sz g G). unfold SlabProofs.obj in Hx.
    assert (q = p) as -> by (apply (slab_disjoint q p (freelist pg + i)); auto; nia). nia.
Qed.
Lemma fl_inside b p pg l i : slab_ok b p pg l -> (ofl g = true -> active pg < nm) -> 0 <= i < nm -> p <= freelist pg + i < p + ss.
Proof using G.
  intros [Ha _ _ P Hact Hfl _] Hlt Hi. destruct (ofl g) eqn:Eo; [|pose proof (go_fit g G) as Hf; rewrite Eo in Hf; pose proof (go_sz g G); nia].
  destruct (Hfl (Hlt eq_refl)) as (k & Hk & Ef). destruct (perm_facts l P) as (_ & _ & Hm). pose proof (obj_in k ltac:(apply Hm; eapply list_elem_of_lookup_2, Hk)).
  pose proof (go_fit g G) as Hf. rewrite Eo in Hf. unfold SlabProofs.obj in Ef. lia.
Qed.

(** ** The slabs of a cache and the objects in use *)

Record core (m : gmap Z spage) (b : bytes) (L : Z -> list Z) (use : list Z) : Prop := {
  co_slab : forall p pg, m !! p = Some pg -> slab_ok b p pg (L p);
  co_use : forall p pg i, m !! p = Some pg -> 0 <= i < nm -> obj p i ∈ use <-> i ∈ taken pg (L p);
  co_obj : forall o, o ∈ use -> exists p pg i, m !! p = Some pg /\ 0 <= i < nm /\ o = obj p i;
  co_nodup : NoDup use }.

Lemma core_perm m b L use use' : use ≡ₚ use' -> core m b L use -> core m b L use'.
Proof using.
  intros P [H1 H2 H3 H4]. split; [exact H1| | |].
  - intros p pg i. rewrite <- P. apply H2.
  - intros o. rewrite <- P. apply H3.
  - rewrite <- P. exact H4.
Qed.

Lemma core_bytes m b b' L use : core m b L use ->
  (forall p pg i, m !! p = Some pg -> active pg <= i < nm -> b' (freelist pg + i) = b (freelist pg + i)) -> core m b' L use.
Proof using.
  intros [H1 H2 H3 H4] E. split; [|exact H2|exact H3|exact H4]. intros p pg Hp. destruct (H1 p pg Hp) as [A1 A2 A3 A4 A5 A6 A7]. split; try assumption.
  intros i k Hi Hk. rewrite (E p pg i Hp Hi). apply A7; assumption.
Qed.

(** Writing into objects in use disturbs nothing. *)
Lemma core_owned m b b' L use : core m b L use -> (forall x, b' x <> b x -> exists o, o ∈ use /\ o <= x < o + sz) -> core m b' L use.
Proof using G.
  intros C Hx. apply (core_bytes m b b' L use C). intros p pg i Hp Hi. destruct (Z.eq_dec (b' (freelist pg + i)) (b (freelist pg + i))) as [|Hne]; [assumption|].
  exfalso. destruct (Hx _ Hne) as (o & Ho & Hr). destruct (co_obj _ _ _ _ C o Ho) as (q & qg & j & Hq & Hj & ->). pose proof (co_slab _ _ _ _ C p pg Hp) as Sp.
  pose proof (so_act _ _ _ _ Sp) as Hact. apply (fl_outside b p pg (L p) i q j Sp ltac:(intros; lia) ltac:(lia) (so_addr _ _ _ _ (co_slab _ _ _ _ C q qg Hq)) Hj); [|exact Hr].
  intros ->. rewrite Hp in Hq. injection Hq as <-. apply (co_use _ _ _ _ C p pg j Hp Hj), Ho.
Qed.

(** Taking the next object of a slab. *)
Lemma core_take m b L use p pg : core m b L use -> m !! p = Some pg -> active pg < nm ->
  exists k, 0 <= k < nm /\ freelist pg <> 0 /\ b (freelist pg + active pg) = k /\ obj p k ∉ use /\
    core (<[p := set_active pg (active pg + 1)]> m) b L (obj p k :: use).
Proof using G.
  intros C Hp Hlt. pose proof (co_slab _ _ _ _ C p pg Hp) as [A1 A2 A3 A4 A5 A6 A7]. destruct (nth_some (L p) (active pg) A4 ltac:(lia)) as (k & Ek & Hk). exists k.
  assert (obj p k ∉ use) as Hn by (rewrite (co_use _ _ _ _ C p pg k Hp Hk); apply (nth_not_taken (L p) (active pg) (active pg) k A4 ltac:(lia) Ek)).
  split; [exact Hk|]. split.
  { destruct A1 as (P0 & _). destruct (ofl g) eqn:Eo; [destruct (A6 Hlt) as (j & Hj & ->)|].
    - destruct (perm_facts _ A4) as (_ & _ & Hm). pose proof (obj_in j ltac:(apply Hm; eapply list_elem_of_lookup_2, Hj)). unfold SlabProofs.obj. lia.
    - pose proof (go_fit g G) as Hf. rewrite Eo in Hf. pose proof (go_sz g G). pose proof (go_nm g G). rewrite A6. nia. }
  split; [apply A7; [lia|exact Ek]|]. split; [exact Hn|].
  assert (forall i, i ∈ take (Z.to_nat (active pg + 1)) (L p) <-> i ∈ taken pg (L p) \/ i = k) as Htk.
  { intros i. replace (Z.to_nat (active pg + 1)) with (S (Z.to_nat (active pg))) by lia. rewrite (take_S_r _ _ k Ek), elem_of_app, list_elem_of_singleton. reflexivity. }
  split.
  - intros q qg Hq. destruct (decide (q = p)) as [->|Hne].
    + rewrite lookup_insert_eq in Hq. injection Hq as <-. split; cbn; try assumption; [lia| |].
      * destruct (ofl g); [|exact A6]. intros _. apply A6. lia.
      * intros i j Hi. apply A7. lia.
    + rewrite lookup_insert_ne in Hq by congruence. apply (co_slab _ _ _ _ C), Hq.
  - intros q qg i Hq Hi. rewrite elem_of_cons. destruct (decide (q = p)) as [->|Hne].
    + rewrite lookup_insert_eq in Hq. injection Hq as <-. unfold taken at 1. cbn. rewrite Htk, (co_use _ _ _ _ C p pg i Hp Hi). split; intros [H|H]; auto.
      * right. apply (obj_inj p i p k A1 A1 Hi Hk H).
      * left. congruence.
    + rewrite lookup_insert_ne in Hq by congruence. rewrite (co_use _ _ _ _ C q qg i Hq Hi). split; [|auto]. intros [H|H]; [|exact H].
      exfalso. apply Hne. apply (obj_inj q i p k (so_addr _ _ _ _ (co_slab _ _ _ _ C q qg Hq)) A1 Hi Hk H).
  - intros o. rewrite elem_of_cons. intros [->|Ho]; [exists p, (set_active pg (active pg + 1)), k; rewrite lookup_insert_eq; auto|].
    destruct (co_obj _ _ _ _ C o Ho) as (q & qg & j & Hq & Hj & E). destruct (decide (q = p)) as [->|Hne].
    + exists p, (set_active pg (active pg + 1)), j. rewrite lookup_insert_eq. auto.
    + exists q, qg, j. rewrite lookup_insert_ne by congruence. auto.
  - apply NoDup_cons. split; [exact Hn|apply (co_nodup _ _ _ _ C)].
Qed.

(** ** Putting an object back *)

(** The permutation after index [i] went back to the free ones. *)
Lemma put_perm l a i : l ≡ₚ seqZ 0 nm -> 0 <= a <= nm -> i ∈ take (Z.to_nat a) l ->
  0 < a /\ exists l', l' ≡ₚ seqZ 0 nm /\ nth_idx l' (a - 1) i /\ (forall j, a <= j -> l' !! Z.to_nat j = l !! Z.to_nat j) /\
    forall j, j ∈ take (Z.to_nat (a - 1)) l' <-> j ∈ take (Z.to_nat a) l /\ j <> i.
Proof using G.
  intros P Ha Hi. destruct (perm_facts l P) as (Hnd & Hlen & _). pose proof Hi as Hi'. apply list_elem_of_split in Hi as (t1 & t2 & Et).
  assert (length (take (Z.to_nat a) l) = Z.to_nat a) as Hlt by (rewrite length_take; lia). assert (length t1 + length t2 + 1 = Z.to_nat a)%nat as Hl by (rewrite <- Hlt, Et, length_app; simpl; lia).
  split; [lia|]. exists ((t1 ++ t2) ++ i :: drop (Z.to_nat a) l). assert (length (t1 ++ t2) = Z.to_nat (a - 1)) as Hl2 by (rewrite length_app; lia). split; [|split; [|split]].
  - rewrite <- P. rewrite <- (take_drop (Z.to_nat a) l) at 2. rewrite Et, <- !app_assoc. simpl. apply Permutation_app_head. rewrite <- Permutation_middle. reflexivity.
  - unfold nth_idx. rewrite lookup_app_r by lia. rewrite Hl2, Nat.sub_diag. reflexivity.
  - intros j Hj. rewrite lookup_app_r by lia. rewrite Hl2. replace (Z.to_nat j - Z.to_nat (a - 1))%nat with (S (Z.to_nat j - Z.to_nat a)) by lia. simpl. rewrite lookup_drop. f_equal. lia.
  - intros j. rewrite take_app_le, take_ge, Et by lia. assert (NoDup (take (Z.to_nat a) l)) as Hnt by (rewrite <- (take_drop (Z.to_nat a) l) in Hnd; apply NoDup_app in Hnd; apply Hnd).
    rewrite Et in Hnt. apply NoDup_app in Hnt as (_ & N1 & N2). apply NoDup_cons in N2 as [N2 _]. rewrite !elem_of_app, elem_of_cons. split.
    + intros [H|H]; (split; [tauto|]); intros ->; [apply (N1 i H); left|contradiction].
    + tauto.
Qed.

Definition put_page_state (pg : spage) (o : Z) : spage := SPage (PageSlab pg) (slab_cache pg) (if freelist pg =? 0 then o else freelist pg) (s_mem pg) (active pg - 1).

Lemma put_slab_ok b p pg l l' i : slab_ok b p pg l -> 0 <= i < nm -> (ofl g = true -> active pg = nm -> freelist pg = 0) ->
  0 < active pg -> l' ≡ₚ seqZ 0 nm -> nth_idx l' (active pg - 1) i -> (forall j, active pg <= j -> l' !! Z.to_nat j = l !! Z.to_nat j) ->
  let pg' := put_page_state pg (obj p i) in slab_ok (write b (freelist pg' + active pg') i) p pg' l'.
Proof using G.
  intros [A1 A2 A3 A4 A5 A6 A7] Hi Hz Ha P' E1 E2 pg'. pose proof A1 as (P0 & _).
  assert (active pg < nm -> freelist pg' = freelist pg) as Hsame.
  { intros Hlt. unfold pg', put_page_state. cbn. destruct (Z.eqb_spec (freelist pg) 0) as [E0|]; [|reflexivity]. exfalso. destruct (ofl g) eqn:Eo.
    - destruct (A6 Hlt) as (k & Hk & E). destruct (perm_facts _ A4) as (_ & _ & Hm). pose proof (obj_in k ltac:(apply Hm; eapply list_elem_of_lookup_2, Hk)). unfold SlabProofs.obj in E. lia.
    - pose proof (go_fit g G) as Hf. rewrite Eo in Hf. pose proof (go_sz g G). pose proof (go_nm g G). nia. }
  split; try assumption; cbn [pg' put_page_state active].
  - lia.
  - destruct (ofl g) eqn:Eo.
    + intros _. destruct (Z.eq_dec (active pg) nm) as [Ea|Ea].
      * exists i. rewrite <- Ea at 1. split; [exact E1|]. unfold put_page_state. cbn. rewrite (Hz eq_refl Ea). reflexivity.
      * destruct (A6 ltac:(lia)) as (k & Hk & E). exists k. split; [unfold nth_idx; rewrite E2 by lia; exact Hk|]. fold pg'. rewrite Hsame by lia. exact E.
    + unfold put_page_state. cbn. pose proof (go_fit g G) as Hf. rewrite Eo in Hf. pose proof (go_sz g G). pose proof (go_nm g G). destruct (Z.eqb_spec (freelist pg) 0); [nia|exact A6].
  - intros j k Hj Hk. unfold write. destruct (Z.eqb_spec (freelist pg' + j) (freelist pg' + (active pg - 1))) as [E|E].
    + assert (j = active pg - 1) as -> by lia. unfold nth_idx in *. congruence.
    + rewrite Hsame by lia. apply A7; [lia|]. unfold nth_idx in *. rewrite <- E2 by lia. exact Hk.
Qed.

Lemma core_put m b L use p pg i : core m b L (obj p i :: use) -> m !! p = Some pg -> 0 <= i < nm -> (ofl g = true -> active pg = nm -> freelist pg = 0) ->
  let pg' := put_page_state pg (obj p i) in let a := freelist pg' + active pg' in
  0 < active pg /\ p <= a < p + ss /\ (forall o, o ∈ use -> ~ (o <= a < o + sz)) /\ exists L', core (<[p := pg']> m) (write b a i) L' use.
Proof using G.
  intros C Hp Hi Hz pg' a. pose proof (co_slab _ _ _ _ C p pg Hp) as Sp. pose proof (so_addr _ _ _ _ Sp) as Ap.
  assert (i ∈ taken pg (L p)) as Ht by (apply (co_use _ _ _ _ C p pg i Hp Hi); left).
  destruct (put_perm (L p) (active pg) i (so_perm _ _ _ _ Sp) (so_act _ _ _ _ Sp) Ht) as (Ha & l' & P' & E1 & E2 & E3).
  pose proof (put_slab_ok b p pg (L p) l' i Sp Hi Hz Ha P' E1 E2) as Sp'. cbv zeta in Sp'. fold pg' in Sp'. fold a in Sp'. pose proof (so_act _ _ _ _ Sp) as Hact.
  pose proof (fl_inside _ p pg' l' (active pg') Sp' ltac:(cbn; lia) ltac:(cbn; lia)) as Hin. fold a in Hin.
  pose proof (co_nodup _ _ _ _ C) as Hnd. apply NoDup_cons in Hnd as [Hni Hnd].
  assert (core (<[p := pg']> m) (write b a i) (fun q => if q =? p then l' else L q) use) as C'.
  { split.
    - intros q qg Hq. destruct (decide (q = p)) as [->|Hne].
      + rewrite lookup_insert_eq in Hq. injection Hq as <-. rewrite Z.eqb_refl. exact Sp'.
      + rewrite lookup_insert_ne in Hq by congruence. destruct (Z.eqb_spec q p); [congruence|]. pose proof (co_slab _ _ _ _ C q qg Hq) as Sq. destruct Sq as [B1 B2 B3 B4 B5 B6 B7]. split; try assumption.
        intros j k Hj Hk. unfold write. destruct (Z.eqb_spec (freelist qg + j) a) as [E|]; [|apply B7; assumption]. exfalso. apply Hne.
        pose proof (fl_inside b q qg (L q) j (co_slab _ _ _ _ C q qg Hq) ltac:(lia) ltac:(lia)). apply (slab_disjoint q p a); auto; lia.
    - intros q qg j Hq Hj. destruct (decide (q = p)) as [->|Hne].
      + rewrite lookup_insert_eq in Hq. injection Hq as <-. rewrite Z.eqb_refl. unfold taken. cbn [pg' put_page_state active]. rewrite E3. fold (taken pg (L p)).
        rewrite <- (co_use _ _ _ _ C p pg j Hp Hj), elem_of_cons. split.
        * intros H. split; [auto|]. intros ->. contradiction.
        * intros [[H|H] Hji]; [|exact H]. exfalso. apply Hji. apply (obj_inj p j p i Ap Ap Hj Hi H).
      + rewrite lookup_insert_ne in Hq by congruence. destruct (Z.eqb_spec q p); [congruence|]. rewrite <- (co_use _ _ _ _ C q qg j Hq Hj), elem_of_cons. split; [auto|].
        intros [H|H]; [|exact H]. exfalso. apply Hne. apply (obj_inj q j p i (so_addr _ _ _ _ (co_slab _ _ _ _ C q qg Hq)) Ap Hj Hi H).
    - intros o Ho. destruct (co_obj _ _ _ _ C o ltac:(right; exact Ho)) as (q & qg & j & Hq & Hj & E). destruct (decide (q = p)) as [->|Hne].
      + exists p, pg', j. rewrite lookup_insert_eq. auto.
      + exists q, qg, j. rewrite lookup_insert_ne by congruence. auto.
    - exact Hnd. }
  split; [exact Ha|]. split; [exact Hin|]. split; [|eauto]. intros o Ho Hx. destruct (co_obj _ _ _ _ C' o Ho) as (q & qg & j & Hq & Hj & ->).
  apply (fl_outside _ p pg' l' (active pg') q j Sp' ltac:(cbn; lia) ltac:(cbn; lia) (so_addr _ _ _ _ (co_slab _ _ _ _ C' q qg Hq)) Hj); [|exact Hx].
  intros ->. rewrite lookup_insert_eq in Hq. injection Hq as <-. pose proof (co_use _ _ _ _ C' p pg' j ltac:(apply lookup_insert_eq) Hj) as Hu. cbv beta in Hu. rewrite Z.eqb_refl in Hu. apply Hu, Ho.
Qed.

(** ** A new slab *)

Lemma core_grow m b b' L use p pg : core m b L use -> m !! p = None -> slab_addr p -> s_mem pg = p -> PageSlab pg = true /\ slab_cache pg = self -> active pg = 0 ->
  freelist pg = (if ofl g then obj p (nm - 1) else p + ss - nm) -> (forall i, 0 <= i < nm -> b' (freelist pg + i) = i) -> (forall x, ~ (p <= x < p + ss) -> b' x = b x) ->
  core (<[p := pg]> m) b' (fun q => if q =? p then seqZ 0 nm else L q) use.
Proof using G.
  intros C Hn Ap Em Eo Ea Ef Hb Hf. assert (forall q qg, m !! q = Some qg -> q <> p) as Hne by (intros q qg Hq ->; congruence). pose proof (go_nm g G). split.
  - intros q qg Hq. destruct (decide (q = p)) as [->|Hqp].
    + rewrite lookup_insert_eq in Hq. injection Hq as <-. rewrite Z.eqb_refl. split; try assumption; [reflexivity|lia| |].
      * destruct (ofl g); [|exact Ef]. intros _. exists (nm - 1). split; [|exact Ef]. unfold nth_idx. apply lookup_seqZ. lia.
      * intros i k Hi Hk. apply lookup_seqZ in Hk as [Hk _]. rewrite Hb by lia. lia.
    + rewrite lookup_insert_ne in Hq by congruence. destruct (Z.eqb_spec q p); [congruence|]. pose proof (co_slab _ _ _ _ C q qg Hq) as Sq. pose proof Sq as [B1 B2 B3 B4 B5 B6 B7]. split; try assumption.
      intros i k Hi Hk. rewrite Hf; [apply B7; assumption|]. intros Hx. apply Hqp. apply (slab_disjoint q p (freelist qg + i)); auto. apply (fl_inside b q qg (L q) i Sq); lia.
  - intros q qg i Hq Hi. destruct (decide (q = p)) as [->|Hqp].
    + rewrite lookup_insert_eq in Hq. injection Hq as <-. unfold taken. rewrite Ea. split; [|intros H0; inversion H0]. intros Hu. exfalso.
      destruct (co_obj _ _ _ _ C _ Hu) as (q & qg & j & Hq & Hj & E). destruct (obj_inj p i q j Ap (so_addr _ _ _ _ (co_slab _ _ _ _ C q qg Hq)) Hi Hj E) as [-> _]. congruence.
    + rewrite lookup_insert_ne in Hq by congruence. destruct (Z.eqb_spec q p); [congruence|]. apply (co_use _ _ _ _ C q qg i Hq Hi).
  - intros o Ho. destruct (co_obj _ _ _ _ C o Ho) as (q & qg & j & Hq & Hj & E). exists q, qg, j. rewrite lookup_insert_ne by (intros ->; congruence). auto.
  - apply (co_nodup _ _ _ _ C).
Qed.

(** A change of the link to the free indices of a full slab. *)
Lemma core_relink m b L use p pg pg' : core m b L use -> m !! p = Some pg -> active pg = nm -> ofl g = true ->
  s_mem pg' = s_mem pg -> PageSlab pg' = PageSlab pg -> slab_cache pg' = slab_cache pg -> active pg' = active pg -> core (<[p := pg']> m) b L use.
Proof using.
  intros C Hp Ha Eo E1 E2 E3 E4. split; [| | |apply (co_nodup _ _ _ _ C)].
  - intros q qg Hq. destruct (decide (q = p)) as [->|Hne]; [|rewrite lookup_insert_ne in Hq by congruence; apply (co_slab _ _ _ _ C), Hq].
    rewrite lookup_insert_eq in Hq. injection Hq as <-. destruct (co_slab _ _ _ _ C p pg Hp) as [B1 B2 B3 B4 B5 B6 B7]. split; try assumption.
    + congruence.
    + rewrite E2, E3. exact B3.
    + lia.
    + rewrite Eo. intros. lia.
    + intros. lia.
  - intros q qg i Hq Hi. destruct (decide (q = p)) as [->|Hne]; [|rewrite lookup_insert_ne in Hq by congruence; apply (co_use _ _ _ _ C _ _ _ Hq Hi)].
    rewrite lookup_insert_eq in Hq. injection Hq as <-. unfold taken. rewrite E4. apply (co_use _ _ _ _ C p pg i Hp Hi).
  - intros o Ho. destruct (co_obj _ _ _ _ C o Ho) as (q & qg & j & Hq & Hj & E). destruct (decide (q = p)) as [->|Hne].
    + exists p, pg', j. rewrite lookup_insert_eq. auto.
    + exists q, qg, j. rewrite lookup_insert_ne by congruence. auto.
Qed.

(** ** The lists of slabs *)

(** Every slab other than [ex] is on the list of its state, and a full one whose
    free indices would be inside an object has no link to them. *)
Definition in_state (m : gmap Z spage) (lo hi p : Z) : Prop := exists pg, m !! p = Some pg /\ lo <= active pg <= hi.
Definition lists_ok (m : gmap Z spage) (n : kmem_cache_node) (ex : option Z) : Prop :=
  forall p, ex <> Some p ->
    (p ∈ slabs_partial n <-> in_state m 1 (nm - 1) p) /\ (p ∈ slabs_full n <-> in_state m nm nm p) /\ (p ∈ slabs_free n <-> in_state m 0 0 p) /\
    (forall pg, m !! p = Some pg -> ofl g = true -> active pg = nm -> freelist pg = 0).

Lemma in_state_insert m p pg lo hi q : in_state (<[p := pg]> m) lo hi q <-> (q = p /\ lo <= active pg <= hi \/ q <> p /\ in_state m lo hi q).
Proof using.
  unfold in_state. destruct (decide (q = p)) as [->|Hne].
  - rewrite lookup_insert_eq. split; [intros (pg' & [= <-] & H); auto|]. intros [[_ H]|[H _]]; [eauto|contradiction].
  - rewrite lookup_insert_ne by congruence. split; [auto|]. intros [[H _]|[_ H]]; [contradiction|exact H].
Qed.

(** Moving a slab to the list of its state. *)
Lemma lists_settle m n p pg ex (n' : kmem_cache_node) : lists_ok m n ex -> (ex = None \/ ex = Some p) -> 0 <= active pg <= nm ->
  (ofl g = true -> active pg = nm -> freelist pg = 0) ->
  (forall q, q ∈ slabs_partial n' <-> q <> p /\ q ∈ slabs_partial n \/ q = p /\ 1 <= active pg <= nm - 1) ->
  (forall q, q ∈ slabs_full n' <-> q <> p /\ q ∈ slabs_full n \/ q = p /\ nm <= active pg <= nm) ->
  (forall q, q ∈ slabs_free n' <-> q <> p /\ q ∈ slabs_free n \/ q = p /\ 0 <= active pg <= 0) -> lists_ok (<[p := pg]> m) n' None.
Proof using.
  intros K Hex Ha Hz H1 H2 H3 q _. rewrite H1, H2, H3, !in_state_insert. assert (q <> p -> ex <> Some q) as Hq by (intros Hne; destruct Hex as [->| ->]; congruence).
  destruct (decide (q = p)) as [->|Hne].
  - repeat split; try tauto. intros pg' E. rewrite lookup_insert_eq in E. injection E as <-. exact Hz.
  - destruct (K q (Hq Hne)) as (K1 & K2 & K3 & K4). rewrite K1, K2, K3. repeat split; try tauto. intros pg' E. rewrite lookup_insert_ne in E by congruence. apply K4, E.
Qed.
(** While slab [p] is worked on, its entry may change. *)
Lemma lists_open m n p pg ex : lists_ok m n ex -> (ex = None \/ ex = Some p) -> lists_ok (<[p := pg]> m) n (Some p).
Proof using.
  intros K Hex q Hq. assert (q <> p) as Hne by congruence. rewrite !in_state_insert. destruct (K q) as (K1 & K2 & K3 & K4); [destruct Hex as [->| ->]; congruence|].
  rewrite K1, K2, K3. repeat split; try tauto. intros pg' E. rewrite lookup_insert_ne in E by congruence. apply K4, E.
Qed.
End Inv.
