(* ===== verification/SlabOps.v ===== *)
(** * Object caches: the operations keep the invariant *)

From Stdlib Require Import ZArith Lia Bool.
From stdpp Require Import base tactics numbers list gmap strings.
From S2P Require Import Prelude Words Memblock Buddy Slab SlabProofs.

(** What is expected of the page allocator: a block it returns is aligned to its
    size and overlaps no block handed out before. *)
Class PageSource {PS : Type} (alloc_pages : Z -> Z -> ST PS Z) := {
  handed : PS -> list (Z * Z);
  source_spec flags order s : 0 <= order <= 10 ->
    match alloc_pages flags order s with
    | Ok (p, s') => p = 0 \/
        0 < p /\ p + PAGE_SIZE * 2 ^ order < 2 ^ 64 /\ p mod (PAGE_SIZE * 2 ^ order) = 0 /\ handed s' = (p, PAGE_SIZE * 2 ^ order) :: handed s /\
        forall q l, (q, l) ∈ handed s -> p + PAGE_SIZE * 2 ^ order <= q \/ q + l <= p
    | Panic _ => True
    | _ => False
    end }.

(** The page allocator has no block of this order. *)
Definition no_pages {PS : Type} (alloc_pages : Z -> Z -> ST PS Z) (flags order : Z) (s : PS) : Prop :=
  (exists msg, alloc_pages flags order s = Panic msg) \/ exists s', alloc_pages flags order s = Ok (0, s').

(** One statement whose result is known. *)
Ltac run H := rewrite (bind_ok _ _ _ _ _ H).

Section Ops.
  Context {PS : Type} {alloc_pages : Z -> Z -> ST PS Z} {HS : PageSource alloc_pages}.
  Context (g : geometry) (G : geo_ok g) (self : Z).
  Abbreviation world := (Slab.world (PS := PS)).
  Abbreviation core := (core g self).
  Abbreviation lists_ok := (lists_ok g).

(** The objects in the array. *)
Definition held (ac : array_cache) : list Z := take (Z.to_nat (avail ac)) (entry ac).
Definition ac_ok (ac : array_cache) : Prop := 0 <= avail ac <= ac_limit ac /\ Z.of_nat (length (entry ac)) = ac_limit ac /\ 0 < batchcount ac <= ac_limit ac.

Record winv (L : Z -> list Z) (out : list Z) (ex : option Z) (ac : array_cache) (n : kmem_cache_node) (w : world) : Prop := {
  wi_geo : has_geo g (kc w);
  wi_ac : cpu_cache (kc w) = Some ac;
  wi_node : c_node (kc w) = Some n;
  wi_acok : ac_ok ac;
  wi_lists : lists_ok (pages w) n ex;
  wi_core : core (pages w) (mem w) L (held ac ++ out);
  wi_src : forall p pg, pages w !! p = Some pg -> (p, ss g) ∈ handed (ps w) }.

Lemma get_ac_ok (w : world) ac : cpu_cache (kc w) = Some ac -> get_ac w = Ok (ac, w).
Proof. intros E. unfold get_ac. rewrite bind_get. unfold st_lift. rewrite E. reflexivity. Qed.
Lemma get_node_ok (w : world) n : c_node (kc w) = Some n -> get_node w = Ok (n, w).
Proof. intros E. unfold get_node. rewrite bind_get. unfold st_lift. rewrite E. reflexivity. Qed.
Lemma get_page_ok (w : world) p pg : pages w !! p = Some pg -> get_page p w = Ok (pg, w).
Proof. intros E. unfold get_page. rewrite bind_get. unfold st_lift. rewrite E. reflexivity. Qed.
Lemma get_kc_ok (w : world) : get_kc w = Ok (kc w, w).
Proof. reflexivity. Qed.

(** The cache after a change of its array or node. *)
Lemma geo_cpu c a : has_geo g c -> has_geo g (set_cpu c a).
Proof. intros H. exact H. Qed.
Lemma geo_node c a : has_geo g c -> has_geo g (set_node c a).
Proof. intros H. exact H. Qed.

Lemma put_node_inv L out ex ac n n' w : winv L out ex ac n w -> lists_ok (pages w) n' ex ->
  exists w', put_node n' w = Ok (tt, w') /\ winv L out ex ac n' w' /\ mem w' = mem w /\ pages w' = pages w /\ ps w' = ps w.
Proof. intros [H1 H2 H3 H4 H5 H6 H7] K. eexists. split; [reflexivity|]. split; [|auto]. split; auto. Qed.

Lemma index_obj c pg p i : has_geo g c -> s_mem pg = p -> slab_addr g p -> 0 <= i < nm g -> index_to_obj c pg i = obj g p i.
Proof using G.
  intros (E & _) Em (A1 & A2 & _) Hi. unfold index_to_obj, obj. rewrite E, Em. pose proof (obj_in g G i Hi). pose proof (ss_bounds g G). pose proof (go_sz g G).
  unfold u32, u64. rewrite !Z.mod_small by (rewrite ?Z.mod_small by lia; lia). reflexivity.
Qed.

(** An object moves into the array. *)
Lemma push_held ac o : ac_ok ac -> avail ac < ac_limit ac ->
  let ac' := ArrayCache (avail ac + 1) (ac_limit ac) (batchcount ac) (<[Z.to_nat (avail ac) := o]> (entry ac)) in ac_ok ac' /\ held ac' ≡ₚ o :: held ac.
Proof.
  intros (A1 & A2 & A3) Hlt ac'. split; [unfold ac_ok, ac'; cbn; rewrite length_insert; lia|]. unfold held, ac'. cbn. replace (Z.to_nat (avail ac + 1)) with (S (Z.to_nat (avail ac))) by lia.
  rewrite (take_S_r _ _ o) by (apply list_lookup_insert_eq; lia). rewrite take_insert_ge by lia. rewrite Permutation_app_comm. reflexivity.
Qed.

(** One object of slab [p] moves into the array. *)
Lemma take_one L out ex ac n w p pg : winv L out ex ac n w -> ex = None \/ ex = Some p -> pages w !! p = Some pg -> active pg < nm g -> avail ac < ac_limit ac ->
  exists o ac' w', (obj ← slab_get_obj p; push_entry obj) w = Ok (tt, w') /\ winv L out (Some p) ac' n w' /\ held ac' ≡ₚ o :: held ac /\
    pages w' = <[p := set_active pg (active pg + 1)]> (pages w) /\ mem w' = mem w /\ ps w' = ps w /\
    avail ac' = avail ac + 1 /\ ac_limit ac' = ac_limit ac /\ batchcount ac' = batchcount ac.
Proof using G.
  intros [H1 H2 H3 H4 H5 H6 H7] Hex Hp Hlt Hroom. destruct (core_take g G self _ _ L _ p pg H6 Hp Hlt) as (k & Hk & Hf & Hb & Hn & C). pose proof (co_slab _ _ _ _ _ _ H6 p pg Hp) as Sp.
  set (w1 := set_pages w (<[p := set_active pg (active pg + 1)]> (pages w))). exists (obj g p k). eexists. eexists. split.
  { assert (get_free_obj p (active pg) w = Ok (k, w)) as Eg.
    { unfold get_free_obj. run (get_page_ok w p pg Hp). destruct (Z.eqb_spec (freelist pg) 0); [contradiction|]. unfold bug_on. rewrite (bind_lift _ _ _ tt) by reflexivity. unfold get_byte. rewrite bind_get, Hb. reflexivity. }
    assert (slab_get_obj p w = Ok (obj g p k, w1)) as E1.
    { unfold slab_get_obj. run (get_page_ok w p pg Hp). run Eg. run (get_kc_ok w). rewrite (index_obj _ pg p k H1 (so_mem _ _ _ _ _ _ Sp) (so_addr _ _ _ _ _ _ Sp) Hk). reflexivity. }
    run E1. unfold push_entry. run (get_ac_ok w1 ac H2). destruct H4 as (A1 & A2 & A3). rewrite (bind_lift _ _ _ _ (aset_ok (entry ac) (avail ac) (obj g p k) ltac:(lia))). reflexivity. }
  destruct (push_held ac (obj g p k) H4 Hroom) as [A B]. split; [|split; [exact B|repeat split]]. split; cbn.
  - exact H1.
  - reflexivity.
  - exact H3.
  - exact A.
  - apply (lists_open g (pages w) n p _ ex H5 Hex).
  - eapply core_perm; [|exact C]. rewrite B. reflexivity.
  - intros q qg Hq. destruct (decide (q = p)) as [->|Hne]; [apply (H7 p pg Hp)|]. rewrite lookup_insert_ne in Hq by congruence. apply (H7 q qg Hq).
Qed.

Lemma alloc_block_loop_ok fuel : forall L out ex ac n w p pg batch, winv L out ex ac n w -> ex = None \/ ex = Some p -> pages w !! p = Some pg ->
  0 <= batch -> avail ac + batch <= ac_limit ac -> nm g - active pg < Z.of_nat fuel ->
  exists r ac' w' pg', alloc_block_loop fuel p batch w = Ok (r, w') /\ winv L out (Some p) ac' n w' /\ pages w' = <[p := pg']> (pages w) /\ mem w' = mem w /\ ps w' = ps w /\
    ac_limit ac' = ac_limit ac /\ batchcount ac' = batchcount ac /\ avail ac <= avail ac' /\ active pg <= active pg' /\ (active pg < nm g -> 0 < batch -> avail ac < avail ac' /\ active pg < active pg') /\
    (r = -1 \/ 0 <= r /\ avail ac' + r <= ac_limit ac') /\ r <= batch - (avail ac' - avail ac).
Proof using G.
  induction fuel as [|fuel IH]; intros L out ex ac n w p pg batch W Hex Hp Hb Hr Hf.
  { pose proof (so_act _ _ _ _ _ _ (co_slab _ _ _ _ _ _ (wi_core _ _ _ _ _ _ W) p pg Hp)). lia. }
  cbn [alloc_block_loop]. run (get_page_ok w p pg Hp). run (get_kc_ok w). pose proof (wi_geo _ _ _ _ _ _ W) as (_ & En & _). rewrite En.
  assert (winv L out (Some p) ac n w /\ pages w = <[p := pg]> (pages w)) as [W' Ep].
  { split; [|symmetry; apply insert_id, Hp]. destruct W as [H1 H2 H3 H4 H5 H6 H7]. split; try assumption. rewrite <- (insert_id (pages w) p pg Hp). apply (lists_open g _ _ _ _ ex H5 Hex). }
  destruct (Z.ltb_spec (active pg) (nm g)) as [Hlt|Hge].
  - destruct (Z.eqb_spec batch 0) as [->|Hne].
    + exists (0 - 1), ac, w, pg. split; [reflexivity|]. split; [exact W'|]. split; [exact Ep|]. repeat split; try reflexivity; try lia.
    + destruct (take_one L out ex ac n w p pg W Hex Hp Hlt ltac:(lia)) as (o & ac1 & w1 & E1 & W1 & _ & P1 & M1 & S1 & A1 & A2 & A3).
      assert (pages w1 !! p = Some (set_active pg (active pg + 1))) as Hp1 by (rewrite P1; apply lookup_insert_eq).
      destruct (IH L out (Some p) ac1 n w1 p _ (batch - 1) W1 (or_intror eq_refl) Hp1 ltac:(lia) ltac:(lia) ltac:(cbn; lia)) as (r & ac2 & w2 & pg2 & E2 & W2 & P2 & M2 & S2 & B1 & B2 & B3 & B4 & B5 & B6 & B7).
      exists r, ac2, w2, pg2. split.
      { unfold mbind, st_bind in E1 |- *. destruct (slab_get_obj p w) as [[o' w']| | |]; try discriminate. rewrite E1. exact E2. }
      cbn in B4. split; [exact W2|]. split; [rewrite P2, P1, insert_insert_eq; reflexivity|]. split; [congruence|]. split; [congruence|]. repeat split; try lia; try congruence.
  - exists batch, ac, w, pg. split; [reflexivity|]. split; [exact W'|]. split; [exact Ep|]. repeat split; try lia.
Qed.

Lemma alloc_block_ok L out ex ac n w p pg batch : winv L out ex ac n w -> ex = None \/ ex = Some p -> pages w !! p = Some pg -> active pg < nm g ->
  0 < batch -> avail ac + batch <= ac_limit ac ->
  exists r ac' w' pg', alloc_block p batch w = Ok (r, w') /\ winv L out (Some p) ac' n w' /\ pages w' = <[p := pg']> (pages w) /\ mem w' = mem w /\ ps w' = ps w /\
    ac_limit ac' = ac_limit ac /\ batchcount ac' = batchcount ac /\ avail ac < avail ac' /\ active pg < active pg' /\ r < batch /\ (r = -1 \/ 0 <= r /\ avail ac' + r <= ac_limit ac').
Proof using G.
  intros W Hex Hp Hlt Hb Hr. pose proof (wi_geo _ _ _ _ _ _ W) as (_ & En & _). pose proof (so_act _ _ _ _ _ _ (co_slab _ _ _ _ _ _ (wi_core _ _ _ _ _ _ W) p pg Hp)).
  destruct (alloc_block_loop_ok (S (Z.to_nat (nm g))) L out ex ac n w p pg batch W Hex Hp ltac:(lia) Hr ltac:(lia)) as (r & ac' & w' & pg' & E & W' & P & M & S & B1 & B2 & B3 & B4 & B5 & B6 & B7).
  exists r, ac', w', pg'. split; [|destruct (B5 Hlt Hb); split; [exact W'|]; repeat (split; [assumption|]); split; [lia|exact B6]].
  unfold alloc_block. run (get_page_ok w p pg Hp). run (get_kc_ok w). rewrite En. destruct (Z.leb_spec (nm g) (active pg)); [lia|]. exact E.
Qed.

(** ** Lists *)

Lemma elem_unlink (l : list Z) p q : q ∈ filter (.≠ p) l <-> q ≠ p /\ q ∈ l.
Proof. rewrite list_elem_of_filter. reflexivity. Qed.

Lemma fixup_ok L out ac n w p pg : winv L out (Some p) ac n w -> pages w !! p = Some pg -> 0 < active pg ->
  exists n' w', fixup_slab_list p w = Ok (tt, w') /\ winv L out None ac n' w' /\ mem w' = mem w /\ ps w' = ps w /\ forall q, is_Some (pages w !! q) -> is_Some (pages w' !! q).
Proof using G.
  intros W Hp Ha. pose proof W as [H1 H2 H3 H4 H5 H6 H7]. pose proof (so_act _ _ _ _ _ _ (co_slab _ _ _ _ _ _ H6 p pg Hp)) as Hact. pose proof H1 as (_ & En & _ & Eo & _).
  unfold fixup_slab_list. run (get_node_ok w n H3). cbv zeta. run (get_page_ok w p pg Hp). run (get_kc_ok w). rewrite En, Eo. destruct (Z.eqb_spec (active pg) (nm g)) as [Ef|Ef].
  - destruct (ofl g) eqn:Eofl.
    + eexists. eexists. split; [reflexivity|]. cbn. split; [|split; [reflexivity|]; split; [reflexivity|]; intros q Hq; destruct (decide (q = p)) as [->|]; [rewrite lookup_insert_eq; eauto|rewrite lookup_insert_ne by congruence; exact Hq]].
      split; cbn; try eassumption; [reflexivity| | |].
      * apply (lists_settle g (pages w) n p (set_freelist pg 0) (Some p) _ H5 (or_intror eq_refl)); cbn; [lia|auto|..]; intros q; rewrite ?elem_of_cons, ?elem_unlink; intuition lia.
      * apply (core_relink g self _ _ L _ p pg); auto.
      * intros q qg Hq. destruct (decide (q = p)) as [->|Hne]; [apply (H7 p pg Hp)|]. rewrite lookup_insert_ne in Hq by congruence. apply (H7 q qg Hq).
    + eexists. eexists. split; [reflexivity|]. cbn. split; [|auto]. split; cbn; try eassumption; [reflexivity|]. rewrite <- (insert_id (pages w) p pg Hp).
      apply (lists_settle g (pages w) n p pg (Some p) _ H5 (or_intror eq_refl)); cbn; [lia|congruence|..]; intros q; rewrite ?elem_of_cons, ?elem_unlink; intuition lia.
  - eexists. eexists. split; [reflexivity|]. cbn. split; [|auto]. split; cbn; try eassumption; [reflexivity|]. rewrite <- (insert_id (pages w) p pg Hp).
    apply (lists_settle g (pages w) n p pg (Some p) _ H5 (or_intror eq_refl)); cbn; [lia|congruence|..]; intros q; rewrite ?elem_of_cons, ?elem_unlink; intuition lia.
Qed.

Lemma get_first_slab_ok L out ac n w : winv L out None ac n w ->
  exists r n' w', get_first_slab w = Ok (r, w') /\ winv L out None ac n' w' /\ pages w' = pages w /\ mem w' = mem w /\ ps w' = ps w /\
    match r with Some p => exists pg, pages w !! p = Some pg /\ active pg < nm g | None => True end.
Proof using G.
  intros W. pose proof W as [H1 H2 H3 H4 H5 H6 H7]. pose proof (go_nm g G). unfold get_first_slab. run (get_node_ok w n H3). destruct (slabs_partial n) as [|p l] eqn:Ep.
  - destruct (slabs_free n) as [|p l] eqn:Ef.
    + exists None, n, w. split; [reflexivity|]. auto.
    + exists (Some p), (set_free_slabs n (free_slabs n - 1)). eexists. split; [reflexivity|]. cbn. split; [split; cbn; try assumption; reflexivity|].
      split; [reflexivity|]. split; [reflexivity|]. split; [reflexivity|]. destruct (H5 p ltac:(discriminate)) as (_ & _ & K3 & _). rewrite Ef in K3. destruct (proj1 K3 ltac:(left)) as (pg & Hp & Ha). exists pg. split; [exact Hp|lia].
  - exists (Some p), n, w. split; [reflexivity|]. split; [exact W|]. split; [reflexivity|]. split; [reflexivity|]. split; [reflexivity|].
    destruct (H5 p ltac:(discriminate)) as (K1 & _). rewrite Ep in K1. destruct (proj1 K1 ltac:(left)) as (pg & Hp & Ha). exists pg. split; [exact Hp|lia].
Qed.

Lemma refill_loop_ok fuel : forall L out ac n w batch, winv L out None ac n w -> batch < Z.of_nat fuel -> (0 <= batch -> avail ac + batch <= ac_limit ac) -> (0 < fuel)%nat ->
  exists r ac' n' w', refill_loop fuel batch w = Ok (r, w') /\ winv L out None ac' n' w' /\ mem w' = mem w /\ ps w' = ps w /\
    ac_limit ac' = ac_limit ac /\ batchcount ac' = batchcount ac /\ avail ac <= avail ac' /\ (avail ac' = avail ac -> r = batch).
Proof using G.
  induction fuel as [|fuel IH]; intros L out ac n w batch W Hf Hr H0; [lia|]. cbn [refill_loop]. destruct (Z.ltb_spec 0 batch) as [Hb|Hb].
  2: { exists batch, ac, n, w. split; [reflexivity|]. split; [exact W|]. repeat split; try lia. }
  destruct (get_first_slab_ok L out ac n w W) as (r0 & n1 & w1 & E1 & W1 & P1 & M1 & S1 & H). run E1. destruct r0 as [p|].
  2: { exists batch, ac, n1, w1. split; [reflexivity|]. split; [exact W1|]. repeat split; try congruence; lia. }
  destruct H as (pg & Hp & Ha). rewrite <- P1 in Hp.
  destruct (alloc_block_ok L out None ac n1 w1 p pg batch W1 (or_introl eq_refl) Hp Ha Hb ltac:(lia)) as (b2 & ac2 & w2 & pg2 & E2 & W2 & P2 & M2 & S2 & B1 & B2 & B3 & B4 & B5 & B6). run E2.
  assert (pages w2 !! p = Some pg2) as Hp2 by (rewrite P2; apply lookup_insert_eq). pose proof (so_act _ _ _ _ _ _ (co_slab _ _ _ _ _ _ (wi_core _ _ _ _ _ _ W1) p pg Hp)).
  destruct (fixup_ok L out ac2 n1 w2 p pg2 W2 Hp2 ltac:(lia)) as (n3 & w3 & E3 & W3 & M3 & S3 & _). run E3.
  destruct (IH L out ac2 n3 w3 b2 W3 ltac:(lia) ltac:(destruct B6; lia)) as (r & ac4 & n4 & w4 & E4 & W4 & M4 & S4 & C1 & C2 & C3 & C4).
  { destruct fuel; [lia|lia]. }
  exists r, ac4, n4, w4. split; [exact E4|]. split; [exact W4|]. repeat split; try congruence; lia.
Qed.

(** ** Growing *)

Definition fl_place (p : Z) : Z := if ofl g then obj g p (nm g - 1) else p + ss g - nm g.
Lemma fl_place_in p j : 0 <= j < nm g -> p <= fl_place p + j < p + ss g.
Proof using G.
  intros Hj. unfold fl_place. pose proof (go_fit g G) as Hf. pose proof (go_sz g G). destruct (ofl g); [|nia]. pose proof (obj_in g G (nm g - 1) ltac:(lia)). unfold obj. lia.
Qed.

(** The constructor, if any, stays in its object and off the free indices. *)
Lemma ctor_frame p i b : slab_addr g p -> 0 <= i < nm g -> let b' := match ct g with Some f => f (obj g p i) b | None => b end in
  (forall j, 0 <= j < nm g -> b' (fl_place p + j) = b (fl_place p + j)) /\ forall x, ~ (p <= x < p + ss g) -> b' x = b x.
Proof using G.
  intros Ap Hi b'. pose proof (go_ctor g G) as Hc. unfold b'. destruct (ct g) as [f|]; [|auto]. destruct Hc as [Eo Hc]. pose proof (go_fit g G) as Hf. rewrite Eo in Hf.
  pose proof (obj_in g G i Hi). pose proof (go_sz g G). split.
  - intros j Hj. apply Hc. unfold fl_place, obj. rewrite Eo. nia.
  - intros x Hx. apply Hc. unfold obj. lia.
Qed.

Lemma init_objs_ok c : forall i (w : world) p pg, has_geo g (kc w) -> pages w !! p = Some pg -> slab_addr g p -> s_mem pg = p -> freelist pg = fl_place p -> 0 <= i -> i + Z.of_nat c <= nm g ->
  exists b', init_objs_loop c p i w = Ok (tt, set_mem w b') /\ (forall j, i <= j < i + Z.of_nat c -> b' (fl_place p + j) = j) /\
    (forall j, 0 <= j < i -> b' (fl_place p + j) = mem w (fl_place p + j)) /\ forall x, ~ (p <= x < p + ss g) -> b' x = mem w x.
Proof using G.
  induction c as [|c IH]; intros i w p pg Hg Hp Ap Em Ef Hi Hn.
  { exists (mem w). split; [destruct w; reflexivity|]. split; [lia|]. auto. }
  pose proof (go_nm g G). destruct (ctor_frame p i (mem w) Ap ltac:(lia)) as [F1 F2]. cbv zeta in F1, F2. set (b1 := match ct g with Some f => f (obj g p i) (mem w) | None => mem w end) in *.
  set (b2 := write b1 (fl_place p + i) i). destruct (IH (i + 1) (set_mem w b2) p pg Hg Hp Ap Em Ef ltac:(lia) ltac:(lia)) as (b3 & E3 & B1 & B2 & B3). exists b3. split; [|split; [|split]].
  - cbn [init_objs_loop]. run (get_page_ok w p pg Hp). run (get_kc_ok w). rewrite (index_obj _ pg p i Hg Em Ap ltac:(lia)). cbv zeta. pose proof Hg as (_ & _ & _ & _ & _ & _ & Ec). rewrite Ec.
    assert ((match ct g with Some f => w ← st_get; st_put (set_mem w (f (obj g p i) (mem w))) | None => mret tt end : ST world unit) w = Ok (tt, set_mem w b1)) as E1.
    { unfold b1. destruct (ct g); [reflexivity|]. destruct w; reflexivity. }
    run E1. unfold set_free_obj. assert ((pg0 ← get_page p; put_byte (freelist pg0 + i) (u8 i)) (set_mem w b1) = Ok (tt, set_mem w b2)) as E2.
    { run (get_page_ok (set_mem w b1) p pg Hp). unfold put_byte, b2. rewrite bind_get, Ef. unfold u8. rewrite Z.mod_small by lia. reflexivity. }
    run E2. rewrite E3. reflexivity.
  - intros j Hj. destruct (Z.eq_dec j i) as [->|]; [|apply B1; lia]. rewrite B2 by lia. cbn. unfold b2, write. rewrite Z.eqb_refl. reflexivity.
  - intros j Hj. rewrite B2 by lia. cbn. unfold b2, write. destruct (Z.eqb_spec (fl_place p + j) (fl_place p + i)); [lia|]. apply F1. lia.
  - intros x Hx. rewrite B3 by exact Hx. cbn. unfold b2, write. pose proof (fl_place_in p i ltac:(lia)). destruct (Z.eqb_spec x (fl_place p + i)); [lia|]. apply F2, Hx.
Qed.

Lemma map_new_page (w0 : world) p b' : has_geo g (kc w0) -> slab_addr g p ->
  let pg := SPage true self (fl_place p) p 0 in let w1 := set_pages w0 (<[p := pg]> (pages w0)) in
  init_objs_loop (Z.to_nat (nm g)) p 0 w1 = Ok (tt, set_mem w1 b') ->
  (fl ← alloc_slabmgmt p; slab_map_pages self p fl;; cache_init_objs p;; mret p) w0 = Ok (p, set_mem w1 b').
Proof using G.
  intros Hg Ap pg w1 E. pose proof Hg as (Esz & En & Eod & Eo & Efs & _). pose proof (ss_bounds g G). pose proof (go_nm g G). destruct Ap as (P1 & P2 & P3).
  set (fl := if ofl g then 0 else fl_place p). assert (alloc_slabmgmt p w0 = Ok (fl, w0)) as E1.
  { unfold alloc_slabmgmt. run (get_kc_ok w0). rewrite Eo, Eod, Efs. unfold fl, fl_place. destruct (ofl g); [reflexivity|]. pose proof (go_od g G). rewrite Z.shiftl_mul_pow2 by lia. fold (ss g).
    rewrite (u64_small (ss g)) by (unfold is_u64; lia). rewrite u64_small by (unfold is_u64; lia). reflexivity. }
  run E1. set (pg0 := SPage true self fl p 0). set (w2 := set_pages w0 (<[p := pg0]> (pages w0))). assert (slab_map_pages self p fl w0 = Ok (tt, w2)) as E2 by reflexivity. run E2.
  assert (cache_init_objs p w2 = Ok (tt, set_mem w1 b')) as E3; [|run E3; reflexivity]. unfold cache_init_objs. run (get_page_ok w2 p pg0 (lookup_insert_eq _ _ _)). run (get_kc_ok w2). cbn [w2 set_pages kc]. rewrite Eo, En.
  assert ((if ofl g then put_page p (set_freelist pg0 (index_to_obj (kc w0) pg0 (u32 (nm g - 1)))) else mret tt) w2 = Ok (tt, w1)) as E4; [|run E4; exact E].
  unfold w1, pg, pg0, fl, fl_place. destruct (ofl g) eqn:Eofl; [|unfold w2, pg0, fl, fl_place; rewrite Eofl; reflexivity].
  unfold u32. rewrite Z.mod_small by lia. rewrite (index_obj (kc w0) (SPage true self 0 p 0) p (nm g - 1) Hg eq_refl); [|repeat split; assumption|lia].
  unfold put_page. rewrite bind_get. unfold st_put, w2, set_pages. cbn [kc pages mem ps]. rewrite insert_insert_eq. reflexivity.
Qed.

(** A new slab: either the machine halts for want of memory, or there is one more
    slab, all of whose objects are free, and no object in use has changed. *)
Lemma grow_begin_ok L out ac n w flags : winv L out None ac n w ->
  (exists msg, cache_grow_begin alloc_pages self flags w = Panic msg /\ no_pages alloc_pages flags (od g) (ps w)) \/
  exists p L' pg w', cache_grow_begin alloc_pages self flags w = Ok (p, w') /\ winv L' out (Some p) ac n w' /\ pages w' !! p = Some pg /\ active pg = 0 /\
    forall x, (exists o, o ∈ out /\ o <= x < o + sz g) -> mem w' x = mem w x.
Proof using G.
  intros W. pose proof W as [H1 H2 H3 H4 H5 H6 H7]. pose proof H1 as (Esz & En & Eod & Eo & Efs & Eos & Ec). pose proof (source_spec flags (gfporder (kc w)) (ps w)) as Hsrc. rewrite Eod in Hsrc. specialize (Hsrc (go_od g G)).
  unfold cache_grow_begin, kmem_getpages. destruct (alloc_pages flags (od g) (ps w)) as [[p s']|e| |] eqn:Ea; try contradiction.
  2: { left. exists e. split; [unfold mbind at 1, st_bind at 1; rewrite bind_get, Eod, Ea; reflexivity|left; eauto]. }
  destruct (Z.eqb_spec p 0) as [->|Hne].
  { left. exists "slab out of memory!". split; [unfold mbind at 1, st_bind at 1; rewrite bind_get, Eod, (bind_lift _ _ _ _ Ea); reflexivity|right; eauto]. }
  right. destruct Hsrc as [|(S1 & S2 & S3 & S4 & S5)]; [contradiction|]. fold (ss g) in S2, S3, S4, S5. assert (slab_addr g p) as Ap by (split; [|split]; assumption).
  assert (pages w !! p = None) as Hnone.
  { destruct (pages w !! p) as [pg|] eqn:Hp; [|reflexivity]. pose proof (ss_bounds g G). destruct (S5 _ _ (H7 p pg Hp)); lia. }
  set (pg := SPage true self (fl_place p) p 0). set (w1 := World (kc w) (<[p := pg]> (pages w)) (mem w) s').
  destruct (init_objs_ok (Z.to_nat (nm g)) 0 w1 p pg H1 (lookup_insert_eq _ _ _) Ap eq_refl eq_refl ltac:(lia) ltac:(pose proof (go_nm g G); lia)) as (b' & E & B1 & _ & B3).
  assert (core (<[p := pg]> (pages w)) b' (fun q => if q =? p then seqZ 0 (nm g) else L q) (held ac ++ out)) as C'.
  { apply (core_grow g G self (pages w) (mem w) b' L _ p pg); auto. intros i Hi. apply B1. lia. }
  exists p, (fun q => if q =? p then seqZ 0 (nm g) else L q), pg, (set_mem w1 b'). split; [|split; [|split; [apply lookup_insert_eq|split; [reflexivity|]]]].
  - set (w0 := World (kc w) (pages w) (mem w) s'). assert (kmem_getpages alloc_pages flags w = Ok (p, w0)) as E0.
    { unfold kmem_getpages. rewrite bind_get, Eod, (bind_lift _ _ _ _ Ea). unfold w0. cbn. destruct (Z.eqb_spec p 0); [contradiction|reflexivity]. }
    unfold kmem_getpages in E0. run E0. apply (map_new_page w0 p b'); auto.
  - split; cbn; try assumption.
    + apply (lists_open g (pages w) n p pg None H5). left. reflexivity.
    + intros q qg Hq. rewrite S4. destruct (decide (q = p)) as [->|Hqp]; [left|]. rewrite lookup_insert_ne in Hq by congruence. right. apply (H7 q qg Hq).
  - intros x (o & Ho & Hx). cbn. apply B3. intros Hin. destruct (co_obj _ _ _ _ _ _ H6 o ltac:(apply elem_of_app; right; exact Ho)) as (q & qg & i & Hq & Hi & ->).
    pose proof (so_addr _ _ _ _ _ _ (co_slab _ _ _ _ _ _ H6 q qg Hq)) as Aq. pose proof (obj_in g G i Hi). unfold obj in Hx. assert (p = q) as -> by (apply (slab_disjoint g G p q x); auto; lia). congruence.
Qed.

Lemma grow_end_ok L out ac n w p pg : winv L out (Some p) ac n w -> pages w !! p = Some pg -> 0 < active pg ->
  exists n' w', cache_grow_end p w = Ok (tt, w') /\ winv L out None ac n' w' /\ mem w' = mem w /\ ps w' = ps w.
Proof using G.
  intros W Hp Ha. unfold cache_grow_end. run (get_node_ok w n (wi_node _ _ _ _ _ _ W)).
  destruct (put_node_inv L out (Some p) ac n (set_total n (total_slabs n + 1)) w W (wi_lists _ _ _ _ _ _ W)) as (w1 & E1 & W1 & M1 & P1 & S1). run E1. rewrite <- P1 in Hp.
  run (get_page_ok w1 p pg Hp). run (get_kc_ok w1). destruct (Z.eqb_spec (active pg) 0); [lia|].
  destruct (fixup_ok L out ac _ w1 p pg W1 Hp Ha) as (n2 & w2 & E2 & W2 & M2 & S2 & _). run E2. run (get_node_ok w2 n2 (wi_node _ _ _ _ _ _ W2)).
  destruct (put_node_inv L out None ac n2 (set_free_objects n2 (free_objects n2 + (c_num (kc w1) - active pg))) w2 W2 (wi_lists _ _ _ _ _ _ W2)) as (w3 & E3 & W3 & M3 & _ & S3).
  eexists. exists w3. split; [exact E3|]. split; [exact W3|]. split; congruence.
Qed.

(** ** Allocation *)

Lemma pop_ok L out ac n w : winv L out None ac n w -> 0 < avail ac ->
  exists o ac' w', pop_entry w = Ok (o, w') /\ winv L (o :: out) None ac' n w' /\ mem w' = mem w /\ o <> 0.
Proof using G.
  intros [H1 H2 H3 H4 H5 H6 H7] Ha. pose proof H4 as (A1 & A2 & A3). destruct (at_in (entry ac) (avail ac - 1) ltac:(lia)) as (o & Ho).
  assert (held ac = take (Z.to_nat (avail ac - 1)) (entry ac) ++ [o]) as Eh.
  { unfold held. replace (Z.to_nat (avail ac)) with (S (Z.to_nat (avail ac - 1))) by lia. apply take_S_r, Ho. }
  assert (core (pages w) (mem w) L (take (Z.to_nat (avail ac - 1)) (entry ac) ++ o :: out)) as C by (rewrite Eh, <- app_assoc in H6; exact H6).
  exists o, (ArrayCache (avail ac - 1) (ac_limit ac) (batchcount ac) (entry ac)). eexists. split; [|split; [|split]].
  - unfold pop_entry. run (get_ac_ok w ac H2). unfold put_ac, mbind, st_bind. cbn. unfold st_lift. rewrite (at_aget _ _ _ Ho). reflexivity.
  - split; cbn; try assumption; [reflexivity|unfold ac_ok; cbn; lia].
  - reflexivity.
  - destruct (co_obj _ _ _ _ _ _ C o ltac:(apply elem_of_app; right; left)) as (p & pg & i & Hp & Hi & ->). destruct (so_addr _ _ _ _ _ _ (co_slab _ _ _ _ _ _ C p pg Hp)) as (P0 & _). pose proof (obj_in g G i Hi). unfold obj. lia.
Qed.

(** The bytes of the objects in [out] are the same. *)
Definition kept (out : list Z) (b b' : bytes) : Prop := forall o x, o ∈ out -> o <= x < o + sz g -> b' x = b x.
Lemma kept_refl out b : kept out b b.
Proof. intros o x _ _. reflexivity. Qed.

Definition refilled (out : list Z) (flags : Z) (w : world) (r : outcome (Z * world)) : Prop :=
  (exists msg, r = Panic msg /\ no_pages alloc_pages (gfp_exact_node flags) (od g) (ps w)) \/
  exists o L' ac' n' w', r = Ok (o, w') /\ o <> 0 /\ winv L' (o :: out) None ac' n' w' /\ kept out (mem w) (mem w').

Lemma refill_ok L out ac n w flags : winv L out None ac n w -> avail ac = 0 -> refilled out flags w (cache_alloc_refill alloc_pages self flags w).
Proof using G.
  intros W Ha. pose proof (wi_acok _ _ _ _ _ _ W) as (A1 & A2 & A3). unfold cache_alloc_refill. run (get_ac_ok w ac (wi_ac _ _ _ _ _ _ W)). run (get_kc_ok w).
  rewrite (wi_node _ _ _ _ _ _ W), Ha. cbn [Z.ltb orb]. rewrite (bind_lift _ _ _ tt) by reflexivity. run (get_node_ok w n (wi_node _ _ _ _ _ _ W)).
  assert (exists batch ac1 n1 w1, (if free_objects n =? 0 then mret (batchcount ac)
    else batch ← refill_loop (S (Z.to_nat (batchcount ac))) (batchcount ac); n ← get_node; ac ← get_ac; put_node (set_free_objects n (free_objects n - avail ac));; mret batch) w = Ok (batch, w1) /\
    winv L out None ac1 n1 w1 /\ mem w1 = mem w /\ ps w1 = ps w /\ (avail ac1 = 0 -> batch = batchcount ac /\ ac_limit ac1 = ac_limit ac)) as (batch & ac1 & n1 & w1 & E1 & W1 & M1 & S1 & Hb).
  { destruct (free_objects n =? 0).
    - exists (batchcount ac), ac, n, w. split; [reflexivity|]. auto.
    - destruct (refill_loop_ok (S (Z.to_nat (batchcount ac))) L out ac n w (batchcount ac) W ltac:(lia) ltac:(lia) ltac:(lia)) as (r & ac1 & n1 & w1 & E1 & W1 & M1 & S1 & B1 & B2 & B3 & B4).
      run E1. run (get_node_ok w1 n1 (wi_node _ _ _ _ _ _ W1)). run (get_ac_ok w1 ac1 (wi_ac _ _ _ _ _ _ W1)).
      destruct (put_node_inv L out None ac1 n1 (set_free_objects n1 (free_objects n1 - avail ac1)) w1 W1 (wi_lists _ _ _ _ _ _ W1)) as (w2 & E2 & W2 & M2 & _ & S2). run E2.
      eexists r, ac1, _, w2. split; [reflexivity|]. split; [exact W2|]. split; [congruence|]. split; [congruence|]. intros E0. split; [apply B4; lia|exact B1]. }
  run E1. run (get_ac_ok w1 ac1 (wi_ac _ _ _ _ _ _ W1)). destruct (Z.eqb_spec (avail ac1) 0) as [E0|E0].
  - destruct (Hb E0) as [-> El]. destruct (grow_begin_ok L out ac1 n1 w1 (gfp_exact_node flags) W1) as [(msg & Ep & Hno)|(p & L2 & pg & w2 & E2 & W2 & Hp & Hact & M2)].
    { left. exists msg. rewrite <- S1. split; [exact (bind_panic _ _ _ _ Ep)|exact Hno]. }
    run E2. destruct (alloc_block_ok L2 out (Some p) ac1 n1 w2 p pg (batchcount ac) W2 (or_intror eq_refl) Hp ltac:(rewrite Hact; apply (go_nm g G)) ltac:(lia) ltac:(lia)) as (r & ac3 & w3 & pg3 & E3 & W3 & P3 & M3 & S3 & B1 & B2 & B3 & B4 & _ & _).
    run E3. destruct (grow_end_ok L2 out ac3 n1 w3 p pg3 W3) as (n4 & w4 & E4 & W4 & M4 & S4); [rewrite P3; apply lookup_insert_eq|lia|]. run E4. run (get_ac_ok w4 ac3 (wi_ac _ _ _ _ _ _ W4)).
    destruct (Z.eqb_spec (avail ac3) 0); [lia|]. destruct (pop_ok L2 out ac3 n4 w4 W4 ltac:(lia)) as (o & ac5 & w5 & E5 & W5 & M5 & Hne). right. exists o, L2, ac5, n4, w5. split; [exact E5|]. split; [exact Hne|]. split; [exact W5|].
    intros q x Hq Hx. rewrite M5, M4, M3, M2, M1 by eauto. reflexivity.
  - pose proof (wi_acok _ _ _ _ _ _ W1) as (B1 & _). destruct (pop_ok L out ac1 n1 w1 W1 ltac:(lia)) as (o & ac5 & w5 & E5 & W5 & M5 & Hne). right. exists o, L, ac5, n1, w5. split; [exact E5|]. split; [exact Hne|]. split; [exact W5|].
    rewrite M5, M1. apply kept_refl.
Qed.

Lemma cache_alloc_ok L out ac n w flags : winv L out None ac n w -> refilled out flags w (____cache_alloc alloc_pages self flags w).
Proof using G.
  intros W. pose proof (wi_acok _ _ _ _ _ _ W) as (A1 & A2 & A3). unfold ____cache_alloc. run (get_ac_ok w ac (wi_ac _ _ _ _ _ _ W)). destruct (Z.eqb_spec (avail ac) 0) as [E|E]; cbn [negb].
  - apply (refill_ok L out ac n w flags W E).
  - destruct (pop_ok L out ac n w W ltac:(lia)) as (o & ac5 & w5 & E5 & W5 & M5 & Hne). right. exists o, L, ac5, n, w5. split; [exact E5|]. split; [exact Hne|]. split; [exact W5|]. rewrite M5. apply kept_refl.
Qed.

(** Distinct objects in use do not overlap. *)
Lemma use_disjoint m b L use o1 o2 x : core m b L use -> o1 ∈ use -> o2 ∈ use -> o1 <= x < o1 + sz g -> o2 <= x < o2 + sz g -> o1 = o2.
Proof using G.
  intros C H1 H2 X1 X2. destruct (co_obj _ _ _ _ _ _ C o1 H1) as (p & pg & i & Hp & Hi & ->). destruct (co_obj _ _ _ _ _ _ C o2 H2) as (q & qg & j & Hq & Hj & ->).
  destruct (obj_disjoint g G p i q j x (so_addr _ _ _ _ _ _ (co_slab _ _ _ _ _ _ C p pg Hp)) (so_addr _ _ _ _ _ _ (co_slab _ _ _ _ _ _ C q qg Hq)) Hi Hj X1 X2) as [-> ->]. reflexivity.
Qed.

Lemma zero_bytes_spec c : forall a b x, zero_bytes c a b x = if (a <=? x) && (x <? a + Z.of_nat c) then 0 else b x.
Proof.
  induction c as [|c IH]; intros a b x; cbn [zero_bytes]; [destruct (Z.leb_spec a x), (Z.ltb_spec x (a + Z.of_nat 0)); cbn; reflexivity || lia|].
  rewrite IH. unfold write. destruct (Z.leb_spec (a + 1) x), (Z.ltb_spec x (a + 1 + Z.of_nat c)), (Z.leb_spec a x), (Z.ltb_spec x (a + Z.of_nat (S c))), (Z.eqb_spec x a); cbn; reflexivity || lia.
Qed.

(** Writes of the owners of objects in use. *)
Lemma owner_writes L out ac n w b' : winv L out None ac n w -> (forall x, b' x <> mem w x -> exists o, o ∈ out /\ o <= x < o + sz g) -> winv L out None ac n (set_mem w b').
Proof using G.
  intros [H1 H2 H3 H4 H5 H6 H7] Hx. split; try assumption. apply (core_owned g G self _ (mem w) b' L _ H6). intros x Hne. destruct (Hx x Hne) as (o & Ho & Hr). exists o. split; [apply elem_of_app; right; exact Ho|exact Hr].
Qed.

Definition allocated (out : list Z) (flags : Z) (w : world) (r : outcome (Z * world)) : Prop :=
  (exists msg, r = Panic msg /\ no_pages alloc_pages (gfp_exact_node flags) (od g) (ps w)) \/
  exists o L' ac' n' w', r = Ok (o, w') /\ o <> 0 /\ winv L' (o :: out) None ac' n' w' /\ kept out (mem w) (mem w') /\
    (slab_want_init_on_alloc flags = true -> forall x, o <= x < o + osz g -> mem w' x = 0).

Lemma slab_alloc_ok L out ac n w flags : winv L out None ac n w -> allocated out flags w (slab_alloc alloc_pages self flags w).
Proof using G.
  intros W. unfold slab_alloc. destruct (cache_alloc_ok L out ac n w flags W) as [(msg & E & Hno)|(o & L' & ac' & n' & w1 & E & Hne & W1 & K1)].
  { left. exists msg. split; [exact (bind_panic _ _ _ _ E)|exact Hno]. }
  right. run E. destruct (Z.eqb_spec o 0); [contradiction|]. cbn [negb]. rewrite andb_true_r. destruct (slab_want_init_on_alloc flags).
  2: { exists o, L', ac', n', w1. split; [reflexivity|]. split; [exact Hne|]. split; [exact W1|]. split; [exact K1|discriminate]. }
  pose proof (wi_geo _ _ _ _ _ _ W1) as (_ & _ & _ & _ & _ & Eos & _). pose proof (go_osz g G) as Ho. set (b' := zero_bytes (Z.to_nat (osz g)) o (mem w1)).
  exists o, L', ac', n', (set_mem w1 b'). split; [unfold b'; rewrite <- Eos; reflexivity|]. split; [exact Hne|]. split; [|split].
  - apply (owner_writes L' (o :: out) ac' n' w1 b' W1). intros x Hx. exists o. split; [left|]. unfold b' in Hx. rewrite zero_bytes_spec in Hx. destruct (Z.leb_spec o x), (Z.ltb_spec x (o + Z.of_nat (Z.to_nat (osz g)))); cbn in Hx; try contradiction; lia.
  - intros q x Hq Hx. cbn. unfold b'. rewrite zero_bytes_spec. destruct (Z.leb_spec o x), (Z.ltb_spec x (o + Z.of_nat (Z.to_nat (osz g)))); cbn; try (apply (K1 q x Hq Hx)). exfalso.
    pose proof (wi_core _ _ _ _ _ _ W1) as C. pose proof (co_nodup _ _ _ _ _ _ C) as Hn. apply NoDup_app in Hn as (_ & _ & Hn). apply NoDup_cons in Hn as [Hn _]. apply Hn.
    rewrite (use_disjoint _ _ _ _ o q x C); [exact Hq|apply elem_of_app; right; left|apply elem_of_app; right; right; exact Hq|lia|exact Hx].
  - intros _ x Hx. cbn. unfold b'. rewrite zero_bytes_spec. destruct (Z.leb_spec o x), (Z.ltb_spec x (o + Z.of_nat (Z.to_nat (osz g)))); cbn; reflexivity || lia.
Qed.

(** ** Release *)

(** The slabs alone, with any objects in use. *)
Record sinv (L : Z -> list Z) (use : list Z) (n : kmem_cache_node) (w : world) : Prop := {
  si_geo : has_geo g (kc w);
  si_node : c_node (kc w) = Some n;
  si_lists : lists_ok (pages w) n None;
  si_core : core (pages w) (mem w) L use;
  si_src : forall p pg, pages w !! p = Some pg -> (p, ss g) ∈ handed (ps w) }.

Lemma obj_index c pg p i : has_geo g c -> s_mem pg = p -> slab_addr g p -> 0 <= i < nm g -> obj_to_index c pg (obj g p i) = i.
Proof using G.
  intros (E & _) Em _ Hi. unfold obj_to_index, obj. rewrite E, Em. pose proof (go_sz g G). pose proof (go_nm g G). replace (p + sz g * i - p) with (i * sz g) by lia. rewrite Z.div_mul by lia. unfold u32. apply Z.mod_small. lia.
Qed.

Lemma free_one_ok L use n w o : sinv L (o :: use) n w ->
  exists L' n' w', free_one o w = Ok (tt, w') /\ sinv L' use n' w' /\ cpu_cache (kc w') = cpu_cache (kc w) /\ kept use (mem w) (mem w').
Proof using G.
  intros [H1 H3 H5 H6 H7]. destruct (co_obj _ _ _ _ _ _ H6 o ltac:(left)) as (p & pg & i & Hp & Hi & ->). pose proof (co_slab _ _ _ _ _ _ H6 p pg Hp) as Sp. pose proof (so_addr _ _ _ _ _ _ Sp) as Ap.
  destruct (H5 p ltac:(discriminate)) as (_ & _ & _ & Hz). pose proof (so_act _ _ _ _ _ _ Sp) as Hact. pose proof (go_nm g G).
  destruct (core_put g G self _ _ L use p pg i H6 Hp Hi (Hz pg Hp)) as (Ha & _ & Hout & L' & C). set (pg' := put_page_state pg (obj g p i)) in *. set (a := freelist pg' + active pg') in *.
  unfold free_one. rewrite (obj_page g G p i Ap Hi). cbv zeta. run (get_node_ok w n H3). set (w1 := set_kc w (set_node (kc w) (Some (unlink p n)))). assert (put_node (unlink p n) w = Ok (tt, w1)) as E1 by reflexivity. run E1.
  set (w2 := World (kc w1) (<[p := pg']> (pages w1)) (write (mem w1) a i) (ps w1)).
  assert (slab_put_obj p (obj g p i) w1 = Ok (tt, w2)) as E2.
  { unfold slab_put_obj. run (get_page_ok w1 p pg Hp). run (get_kc_ok w1). rewrite (obj_index (kc w1) pg p i H1 (so_mem _ _ _ _ _ _ Sp) Ap Hi). cbv zeta.
    assert (u32 (active pg - 1) = active pg - 1) as -> by (unfold u32; apply Z.mod_small; lia).
    assert ((if freelist (set_active pg (active pg - 1)) =? 0 then set_freelist (set_active pg (active pg - 1)) (obj g p i) else set_active pg (active pg - 1)) = pg') as ->.
    { unfold pg', put_page_state, set_freelist, set_active. cbn. destruct (freelist pg =? 0); reflexivity. }
    set (w3 := set_pages w1 (<[p := pg']> (pages w1))). assert (put_page p pg' w1 = Ok (tt, w3)) as E3 by reflexivity. run E3. unfold set_free_obj. run (get_page_ok w3 p pg' (lookup_insert_eq _ _ _)).
    unfold put_byte. rewrite bind_get. unfold u8. rewrite Z.mod_small by lia. reflexivity. }
  run E2. run (get_page_ok w2 p pg' (lookup_insert_eq _ _ _)). run (get_node_ok w2 (unlink p n) eq_refl).
  assert (kept use (mem w) (mem w2)) as Kp.
  { intros q x Hq Hx. cbn. unfold write. destruct (Z.eqb_spec x a) as [->|]; [|reflexivity]. exfalso. exact (Hout q Hq Hx). }
  assert (forall q qg, <[p := pg']> (pages w) !! q = Some qg -> (q, ss g) ∈ handed (ps w)) as Hsrc.
  { intros q qg Hq. destruct (decide (q = p)) as [->|Hne]; [apply (H7 p pg Hp)|]. rewrite lookup_insert_ne in Hq by congruence. apply (H7 q qg Hq). }
  assert (active pg' = active pg - 1) as Ea by reflexivity. destruct (Z.eqb_spec (active pg') 0) as [E0|E0].
  all: eexists L', _, _; split; [reflexivity|]; split; [|split; [reflexivity|exact Kp]]; split; cbn; [exact H1|reflexivity| |exact C|exact Hsrc].
  all: apply (lists_settle g (pages w) n p pg' None _ H5 (or_introl eq_refl)); [lia|lia|..]; intros q; cbn; rewrite ?elem_of_app, ?elem_of_cons, ?elem_of_nil, ?elem_unlink; intuition lia.
Qed.

Lemma free_objs_ok objs : forall L use n w, sinv L (objs ++ use) n w ->
  exists L' n' w', free_objs objs w = Ok (tt, w') /\ sinv L' use n' w' /\ cpu_cache (kc w') = cpu_cache (kc w) /\ kept use (mem w) (mem w').
Proof using G.
  induction objs as [|o objs IH]; intros L use n w S; cbn [free_objs].
  - exists L, n, w. split; [reflexivity|]. split; [exact S|]. split; [reflexivity|]. apply kept_refl.
  - destruct (free_one_ok L (objs ++ use) n w o S) as (L1 & n1 & w1 & E1 & S1 & C1 & K1). run E1. destruct (IH L1 use n1 w1 S1) as (L2 & n2 & w2 & E2 & S2 & C2 & K2).
    exists L2, n2, w2. split; [exact E2|]. split; [exact S2|]. split; [congruence|]. intros q x Hq Hx. rewrite (K2 q x Hq Hx). apply (K1 q x); [apply elem_of_app; right; exact Hq|exact Hx].
Qed.

Lemma flush_ok L out ac n w : winv L out None ac n w -> avail ac = ac_limit ac ->
  exists L' ac' n' w', cache_flusharray w = Ok (tt, w') /\ winv L' out None ac' n' w' /\ avail ac' < ac_limit ac' /\ kept out (mem w) (mem w').
Proof using G.
  intros W Hfull. pose proof W as [H1 H2 H3 H4 H5 H6 H7]. pose proof H4 as (A1 & A2 & A3). unfold cache_flusharray. run (get_ac_ok w ac H2). cbv zeta. unfold free_block.
  set (w1 := set_kc w (set_node (kc w) (Some (set_free_objects n (free_objects n + batchcount ac))))).
  set (objs := take (Z.to_nat (batchcount ac)) (entry ac)). set (moved := drop (Z.to_nat (batchcount ac)) (entry ac)).
  assert (held ac = objs ++ moved) as Eh by (unfold held, objs, moved; rewrite take_ge, take_drop by lia; reflexivity).
  assert (sinv L (objs ++ moved ++ out) (set_free_objects n (free_objects n + batchcount ac)) w1) as S by (split; cbn; try assumption; [reflexivity|rewrite app_assoc, <- Eh; exact H6]).
  destruct (free_objs_ok objs L (moved ++ out) _ w1 S) as (L' & n' & w2 & E2 & S2 & C2 & K2).
  assert ((n0 ← get_node; put_node (set_free_objects n0 (free_objects n0 + batchcount ac));; (if batchcount ac <=? Z.of_nat (length (entry ac)) then mret tt else fun _ => Fault);; free_objs objs) w = Ok (tt, w2)) as E.
  { run (get_node_ok w n H3). assert (put_node (set_free_objects n (free_objects n + batchcount ac)) w = Ok (tt, w1)) as E1 by reflexivity. run E1. destruct (Z.leb_spec (batchcount ac) (Z.of_nat (length (entry ac)))); [exact E2|lia]. }
  run E. assert (cpu_cache (kc w2) = Some ac) as Hc by (rewrite C2; exact H2). run (get_ac_ok w2 ac Hc). fold moved.
  assert (length moved = Z.to_nat (avail ac - batchcount ac)) as Hl by (unfold moved; rewrite length_drop; lia). rewrite (take_ge moved) by lia.
  exists L', (ArrayCache (avail ac - batchcount ac) (ac_limit ac) (batchcount ac) (moved ++ drop (length moved) (entry ac))), n'. eexists. split; [reflexivity|]. split; [|split; [cbn; lia|]].
  - destruct S2 as [T1 T2 T3 T4 T5]. split; cbn; try assumption; [reflexivity|unfold ac_ok; cbn; rewrite length_app, length_drop; lia|].
    unfold held. cbn. rewrite take_app_le, take_ge by lia. exact T4.
  - intros q x Hq Hx. cbn. apply (K2 q x); [apply elem_of_app; right; exact Hq|exact Hx].
Qed.

Lemma cache_free_ok L out ac n w o : winv L (o :: out) None ac n w ->
  exists L' ac' n' w', ___cache_free o w = Ok (tt, w') /\ winv L' out None ac' n' w' /\ kept out (mem w) (mem w').
Proof using G.
  intros W. pose proof (wi_acok _ _ _ _ _ _ W) as (A1 & A2 & A3). unfold ___cache_free. run (get_ac_ok w ac (wi_ac _ _ _ _ _ _ W)).
  assert (exists L1 ac1 n1 w1, (if ac_limit ac <=? avail ac then cache_flusharray else mret tt) w = Ok (tt, w1) /\ winv L1 (o :: out) None ac1 n1 w1 /\ avail ac1 < ac_limit ac1 /\ kept (o :: out) (mem w) (mem w1)) as (L1 & ac1 & n1 & w1 & E1 & W1 & Hlt & K1).
  { destruct (Z.leb_spec (ac_limit ac) (avail ac)); [apply (flush_ok L _ ac n w W); lia|]. exists L, ac, n, w. split; [reflexivity|]. split; [exact W|]. split; [lia|apply kept_refl]. }
  run E1. unfold __free_one, push_entry. run (get_ac_ok w1 ac1 (wi_ac _ _ _ _ _ _ W1)). pose proof W1 as [H1 H2 H3 H4 H5 H6 H7]. pose proof H4 as (B1 & B2 & B3).
  rewrite (bind_lift _ _ _ _ (aset_ok (entry ac1) (avail ac1) o ltac:(lia))). destruct (push_held ac1 o H4 Hlt) as [B C].
  exists L1, (ArrayCache (avail ac1 + 1) (ac_limit ac1) (batchcount ac1) (<[Z.to_nat (avail ac1) := o]> (entry ac1))), n1. eexists. split; [reflexivity|]. split.
  - split; cbn; try assumption; [reflexivity|]. eapply core_perm; [|exact H6]. rewrite C. symmetry. apply (Permutation_middle (held ac1)).
  - intros q x Hq Hx. cbn. apply (K1 q x); [right; exact Hq|exact Hx].
Qed.
End Ops.
