(* ===== verification/SlabSpec.v ===== *)
(** * Object caches: what a cache promises

    A cache that has been created behaves as a heap of separate objects: an
    allocation gives an object that overlaps no other, a release takes it back,
    and nothing but its owner changes its contents. *)

From Stdlib Require Import ZArith Lia Bool.
From stdpp Require Import base tactics numbers list gmap strings.
From S2P Require Import Prelude Words Memblock Buddy Slab SlabProofs SlabOps.

(** ** The geometry that creation chooses *)

Lemma estimate_spec od size flags : 0 <= od <= 10 -> 0 < size ->
  let buffer := if negb (Z.land flags CFLGS_OBJFREELIST_SLAB =? 0) then size else size + 1 in
  (cache_estimate od size flags).1 = PAGE_SIZE * 2 ^ od / buffer.
Proof.
  intros Ho Hs buffer. unfold cache_estimate, buffer. rewrite Z.shiftl_mul_pow2 by lia.
  pose proof (Z.pow_le_mono_r 2 od 10 ltac:(lia) ltac:(lia)). pose proof (pow2_pos od ltac:(lia)). change PAGE_SIZE with 4096.
  rewrite u64_small by (unfold is_u64; lia). destruct (negb _); reflexivity.
Qed.

(** The order chosen is the first with room for an object; a slab of several pages holds just one. *)
Definition order_chosen (size flags od n : Z) : Prop :=
  let buffer := if negb (Z.land flags CFLGS_OBJFREELIST_SLAB =? 0) then size else size + 1 in
  0 <= od <= 10 /\ 0 < n < 256 /\ n * buffer <= PAGE_SIZE * 2 ^ od /\ (od = 0 \/ n = 1).

Lemma order_loop_spec size flags : 0 < size -> forall fuel c od,
  0 <= od -> (forall o, 0 <= o < od -> (cache_estimate o size flags).1 = 0) ->
  (order_loop fuel c size flags od).2 = c \/ exists o n, (order_loop fuel c size flags od).2 = set_geometry c n o /\ order_chosen size flags o n.
Proof.
  intros Hs. induction fuel as [|fuel IH]; intros c od H0 Hz; [left; reflexivity|]. cbn [order_loop]. destruct (Z.leb_spec od KMALLOC_MAX_ORDER) as [Ho|]; [|left; reflexivity].
  change KMALLOC_MAX_ORDER with 10 in Ho. pose proof (estimate_spec od size flags ltac:(lia) Hs) as En. cbv zeta in En. destruct (cache_estimate od size flags) as [n r] eqn:Ee. simpl in En.
  destruct (Z.eqb_spec n 0) as [E0|E0].
  - apply IH; [lia|]. intros o Hlt. destruct (Z.eq_dec o od) as [->|]; [rewrite Ee; exact E0|apply Hz; lia].
  - destruct (Z.ltb_spec SLAB_OBJ_MAX_NUM n) as [|Hm]; [left; reflexivity|]. right. exists od, n. split; [reflexivity|]. change SLAB_OBJ_MAX_NUM with 255 in Hm. unfold order_chosen.
    set (buffer := if negb (Z.land flags CFLGS_OBJFREELIST_SLAB =? 0) then size else size + 1) in *. assert (0 < buffer) as Hbuf by (unfold buffer; destruct (negb _); lia).
    pose proof (pow2_pos od H0). assert (0 <= n) by (rewrite En; apply Z.div_pos; [change PAGE_SIZE with 4096; lia|lia]).
    split; [lia|]. split; [lia|]. split; [rewrite En; pose proof (Z.mul_div_le (PAGE_SIZE * 2 ^ od) buffer Hbuf); lia|].
    destruct (Z.eq_dec od 0) as [|Hne]; [left; assumption|right]. specialize (Hz (od - 1) ltac:(lia)). rewrite (estimate_spec (od - 1) size flags ltac:(lia) Hs) in Hz. cbv zeta in Hz. fold buffer in Hz.
    apply Z.div_small_iff in Hz; [|lia]. replace (2 ^ od) with (2 * 2 ^ (od - 1)) in En by (rewrite <- Z.pow_succ_r by lia; f_equal; lia). assert (PAGE_SIZE * (2 * 2 ^ (od - 1)) / buffer < 2) by (apply Z.div_lt_upper_bound; lia). lia.
Qed.
Lemma calculate_order_spec c size flags : 0 < size ->
  (calculate_slab_order c size flags).2 = c \/ exists o n, (calculate_slab_order c size flags).2 = set_geometry c n o /\ order_chosen size flags o n.
Proof. intros Hs. apply (order_loop_spec size flags Hs); [lia|]. intros; lia. Qed.

(** Rounding up does not leave the largest size. *)
Lemma align_up_u32 x k : 0 <= x <= 2 ^ 22 -> 0 <= k <= 22 -> let r := u32 (_ALIGN x (2 ^ k)) in x <= r <= 2 ^ 22 /\ r mod 2 ^ k = 0.
Proof.
  intros Hx Hk r. pose proof (pow2_pos k ltac:(lia)). pose proof (Z.pow_le_mono_r 2 k 22 ltac:(lia) ltac:(lia)). destruct (_ALIGN_least x k) as [A1 A2]; [unfold is_u64; lia|lia|lia|].
  unfold r, u32. rewrite Z.mod_small by lia. split; [|exact A1]. split; [lia|].
  apply Z.mod_divide in A1 as [a Ea]; [|lia]. assert (2 ^ 22 = 2 ^ (22 - k) * 2 ^ k) as E by (rewrite <- Z.pow_add_r by lia; f_equal; lia). rewrite Ea, E in *.
  apply Z.mul_le_mono_nonneg_r; [lia|]. assert (a * 2 ^ k < (2 ^ (22 - k) + 1) * 2 ^ k) as Hlt by lia. apply Z.mul_lt_mono_pos_r in Hlt; lia.
Qed.
Lemma object_span_ok s k : 0 < s <= 2 ^ 22 -> 3 <= k <= 22 -> s <= object_span s (2 ^ k) <= 2 ^ 22 /\ object_span s (2 ^ k) mod 2 ^ k = 0.
Proof.
  intros Hs Hk. unfold object_span. change BYTES_PER_WORD with (2 ^ 3). destruct (align_up_u32 s 3 ltac:(lia) ltac:(lia)) as [A1 _]. 
  destruct (align_up_u32 (u32 (_ALIGN s (2 ^ 3))) k ltac:(lia) ltac:(lia)) as [B1 B2]. cbv zeta in *. change SLAB_OBJ_MIN_SIZE with 16.
  destruct (Z.ltb_spec (u32 (_ALIGN (u32 (_ALIGN s (2 ^ 3))) (2 ^ k))) 16); [|split; [lia|exact B2]].
  destruct (align_up_u32 16 k ltac:(lia) ltac:(lia)) as [C1 C2]. cbv zeta in *. split; [lia|exact C2].
Qed.

(** The choice of [choose_freelist]. *)
Lemma choose_spec c size flags fl c1 : 0 < size -> Z.land flags CFLGS_OBJFREELIST_SLAB = 0 -> choose_freelist c size flags = Ok (fl, c1) ->
  exists od n, c1 = set_geometry c n od /\ order_chosen size fl od n /\ (negb (Z.land fl CFLGS_OBJFREELIST_SLAB =? 0) = true -> n <= object_size c /\ ctor c = None).
Proof.
  intros Hs Hfl. unfold choose_freelist. destruct (set_objfreelist_slab_cache c size flags) as [ok c2] eqn:E1.
  assert ((exists od n, c2 = set_geometry c n od) /\ (ok = true -> exists od n, c2 = set_geometry c n od /\ order_chosen size (Z.lor flags CFLGS_OBJFREELIST_SLAB) od n /\ n <= object_size c /\ ctor c = None)) as [(od & n & ->) Hok].
  { unfold set_objfreelist_slab_cache in E1. set (c0 := set_geometry c 0 (gfporder c)) in E1. change (ctor c0) with (ctor c) in E1. destruct (ctor c) as [f|] eqn:Ef.
    - injection E1 as <- <-. split; [unfold c0; eauto|discriminate].
    - destruct (calculate_order_spec c0 size (Z.lor flags CFLGS_OBJFREELIST_SLAB) Hs) as [E|(o & n & E & Ho)]; destruct (calculate_slab_order c0 size (Z.lor flags CFLGS_OBJFREELIST_SLAB)) as [lo c3]; simpl in E; subst c3; cbn in E1.
      + injection E1 as <- <-. split; [unfold c0; eauto|discriminate].
      + destruct (Z.eqb_spec n 0); [injection E1 as <- <-; split; [eauto|discriminate]|]. destruct (Z.ltb_spec (object_size c) (n * 1)); injection E1 as <- <-; (split; [eauto|]); [discriminate|].
        intros _. exists o, n. split; [reflexivity|]. split; [exact Ho|]. split; [lia|reflexivity]. }
  destruct ok.
  - intros [= <- <-]. destruct (Hok eq_refl) as (od' & n' & E & Ho & Hn). exists od', n'. split; [exact E|]. split; [exact Ho|]. intros _. exact Hn.
  - unfold set_on_slab_cache. set (c0 := set_geometry (set_geometry c n od) 0 (gfporder (set_geometry c n od))).
    destruct (calculate_order_spec c0 size flags Hs) as [E|(o & n' & E & Ho)]; destruct (calculate_slab_order c0 size flags) as [lo c3]; simpl in E; subst c3; cbn; [discriminate|].
    destruct (Z.eqb_spec n' 0); [discriminate|]. intros [= <- <-]. exists o, n'. split; [reflexivity|]. split; [exact Ho|]. rewrite Hfl. discriminate.
Qed.

Section Create.
  Context {PS : Type} {alloc_pages : Z -> Z -> ST PS Z} {HS : PageSource alloc_pages} (self : Z).
  Abbreviation world := (Slab.world (PS := PS)).

(** A cache whose arrays have just been made. *)
Definition set_up (g : geometry) (w w' : world) : Prop :=
  has_geo g (kc w') /\ (exists ac, cpu_cache (kc w') = Some ac /\ avail ac = 0 /\ ac_ok ac) /\ c_node (kc w') = Some empty_node /\ pages w' = pages w /\ mem w' = mem w /\ ps w' = ps w.

Lemma fresh_array limit batch : 0 < batch <= limit -> avail (init_arraycache limit batch) = 0 /\ ac_ok (init_arraycache limit batch).
Proof. intros H. split; [reflexivity|]. unfold ac_ok. cbn. rewrite length_replicate. lia. Qed.
Lemma cpus_spec chunk e b a chunk' : alloc_kmem_cache_cpus chunk e b = Ok (a, chunk') -> a = init_arraycache e b.
Proof. unfold alloc_kmem_cache_cpus. destruct chunk as [ptr room]. destruct (_ || _); [discriminate|]. destruct (_ <? _); [discriminate|]. intros [= <- _]. reflexivity. Qed.

Lemma setup_cpu_ok g st node_mem chunk (w : world) chunk' w' : has_geo g (kc w) -> cpu_cache (kc w) = None -> c_node (kc w) = None ->
  setup_cpu_cache st node_mem chunk w = Ok (chunk', w') -> set_up g w w'.
Proof.
  intros Hg Hc Hn. unfold setup_cpu_cache. destruct (state_rank FULL <=? state_rank st).
  - unfold enable_cpucache. rewrite (bind_ok _ _ _ _ _ (get_kc_ok w)). unfold do_tune_cpucache. set (limit := cpucache_limit (c_size (kc w))). cbv zeta.
    destruct (alloc_kmem_cache_cpus chunk limit ((limit + 1) / 2)) as [[a ch]|e| |] eqn:Ea; try discriminate. rewrite (bind_lift _ _ _ (a, ch)) by reflexivity.
    rewrite (bind_ok _ _ _ _ _ (get_kc_ok w)), bind_get, Hc. unfold setup_kmem_cache_nodes, mbind, st_bind. cbn. rewrite get_kc_ok. cbn [set_kc kc set_limit set_cpu c_node]. rewrite Hn. destruct node_mem; [|discriminate]. cbn. intros [= <- <-]. cbn.
    split; [exact Hg|]. split; [|auto]. exists a. split; [reflexivity|]. rewrite (cpus_spec _ _ _ _ _ Ea). apply fresh_array. unfold limit, cpucache_limit. repeat match goal with |- context [if ?b then _ else _] => destruct b end; cbv; split; congruence.
  - destruct (alloc_kmem_cache_cpus chunk 1 1) as [[a ch]|e| |] eqn:Ea; try discriminate. rewrite (bind_lift _ _ _ (a, ch)) by reflexivity. rewrite (cpus_spec _ _ _ _ _ Ea).
    assert (ac_ok (ArrayCache 0 1 1 (replicate 1 0))) by (unfold ac_ok; cbn; lia).
    destruct st; [| |destruct node_mem|destruct node_mem|destruct node_mem]; cbn; try discriminate; intros [= <- <-]; cbn; (split; [exact Hg|]; split; [|auto]; eexists; split; [reflexivity|]; split; [reflexivity|assumption]).
Qed.

(** The geometry of a cache of objects of [s] bytes aligned to [2 ^ k], with the constructor [f]. *)
Lemma geometry_ok s k od n flags (b : bool) f : 0 < s <= 2 ^ 22 -> 3 <= k <= 22 -> order_chosen (object_span s (2 ^ k)) flags od n ->
  negb (Z.land flags CFLGS_OBJFREELIST_SLAB =? 0) = b -> (b = true -> n <= s) ->
  match f with Some f => b = false /\ forall o bs x, ~ (o <= x < o + s) -> f o bs x = bs x | None => True end ->
  geo_ok (Geometry (object_span s (2 ^ k)) n od b s f).
Proof.
  intros Hs Hk (O1 & O2 & O3 & O4) Eb Hb Hf. rewrite Eb in O3. destruct (object_span_ok s k Hs Hk) as [A1 _]. split; cbn; try lia; try assumption.
  - unfold ss. cbn. destruct b; [|exact O3]. split; [exact O3|]. specialize (Hb eq_refl). lia.
  - destruct f as [f|]; [|exact Logic.I]. destruct Hf as [-> Hf]. split; [reflexivity|]. intros o bs x Hx. apply Hf. lia.
Qed.

(** What a cache is given to: its sizes, no slabs and no arrays yet. *)
Record uncreated (s k : Z) (w : world) : Prop := {
  un_size : 0 < s <= 2 ^ 22 /\ c_size (kc w) = s /\ object_size (kc w) = s;
  un_align : 0 <= k <= 22 /\ c_align (kc w) = 2 ^ k;
  un_empty : cpu_cache (kc w) = None /\ c_node (kc w) = None /\ pages w = ∅;
  un_ctor : match ctor (kc w) with Some f => forall o bs x, ~ (o <= x < o + s) -> f o bs x = bs x | None => True end }.

Lemma empty_core g b : core g self ∅ b (fun _ => []) [].
Proof.
  split; [intros p pg Hp; rewrite lookup_empty in Hp; discriminate|intros p pg i Hp; rewrite lookup_empty in Hp; discriminate|intros o Ho; inversion Ho|constructor].
Qed.
Lemma empty_lists g : lists_ok g ∅ empty_node None.
Proof.
  intros p _. cbn. unfold in_state. repeat split; try (intros H; inversion H; fail); try (intros (pg & Hp & _); rewrite lookup_empty in Hp; discriminate). intros pg Hp. rewrite lookup_empty in Hp. discriminate.
Qed.
Lemma set_up_winv g w w' : geo_ok g -> pages w = ∅ -> set_up g w w' -> exists ac n, winv g self (fun _ => []) [] None ac n w'.
Proof.
  intros Gg Hp (H1 & (ac & H2 & H3 & H4) & H5 & H6 & H7 & H8). exists ac, empty_node. split; try assumption.
  - rewrite H6, Hp. apply empty_lists.
  - rewrite H6, Hp. unfold held. rewrite H3. apply empty_core.
  - rewrite H6, Hp. intros p pg Hq. rewrite lookup_empty in Hq. discriminate.
Qed.

Lemma create_sound st node_mem chunk flags s k (w : world) chunk' w' : uncreated s k w -> Z.land flags CFLGS_OBJFREELIST_SLAB = 0 ->
  __kmem_cache_create st node_mem chunk flags w = Ok (chunk', w') ->
  exists g ac n, geo_ok g /\ sz g mod 2 ^ Z.max 3 k = 0 /\ osz g = s /\ winv g self (fun _ => []) [] None ac n w' /\ mem w' = mem w.
Proof.
  intros [(S1 & S2 & S3) (A1 & A2) (E1 & E2 & E3) Hct] Hfl. unfold __kmem_cache_create. rewrite (bind_ok _ _ _ _ _ (get_kc_ok w)). cbv zeta.
  set (c := set_align (kc w) (if BYTES_PER_WORD <? c_align (kc w) then c_align (kc w) else BYTES_PER_WORD)). assert (c_align c = 2 ^ Z.max 3 k) as Ea.
  { unfold c. cbn. rewrite A2. change BYTES_PER_WORD with (2 ^ 3). destruct (Z.ltb_spec (2 ^ 3) (2 ^ k)) as [H|H].
    - apply Z.pow_lt_mono_r_iff in H; [|lia|lia]. f_equal. lia.
    - apply Z.pow_le_mono_r_iff in H; [|lia|lia]. f_equal. lia. }
  change (c_size c) with (c_size (kc w)). rewrite Ea, S2. set (size := object_span s (2 ^ Z.max 3 k)). assert (3 <= Z.max 3 k <= 22) as Hk by lia. destruct (object_span_ok s (Z.max 3 k) S1 Hk) as [Z1 Z2]. fold size in Z1, Z2.
  (* either way the geometry is sound *)
  assert (forall od n fl, order_chosen size fl od n -> let b := negb (Z.land fl CFLGS_OBJFREELIST_SLAB =? 0) in (b = true -> n <= s) -> (b = true -> ctor (kc w) = None) ->
    let c2 := set_final (set_geometry c n od) size fl (n * 1) in
    setup_cpu_cache st node_mem chunk (set_kc w c2) = Ok (chunk', w') ->
    exists g ac n, geo_ok g /\ sz g mod 2 ^ Z.max 3 k = 0 /\ osz g = s /\ winv g self (fun _ => []) [] None ac n w' /\ mem w' = mem w) as Hdone.
  { intros od n fl Ho b Hb Hb2 c2 Es. set (g := Geometry size n od b s (ctor (kc w))).
    assert (geo_ok g) as Gg. { apply (geometry_ok s (Z.max 3 k) od n fl b); auto. destruct (ctor (kc w)); [|exact Logic.I]. split; [|exact Hct]. destruct b; [discriminate (Hb2 eq_refl)|reflexivity]. }
    assert (has_geo g (kc (set_kc w c2))) as Hg by (repeat split; cbn; [lia|exact S3]).
    pose proof (setup_cpu_ok g st node_mem chunk (set_kc w c2) chunk' w' Hg E1 E2 Es) as Hs. destruct (set_up_winv g (set_kc w c2) w' Gg E3 Hs) as (ac & nd & W).
    exists g, ac, nd. split; [exact Gg|]. split; [exact Z2|]. split; [reflexivity|]. split; [exact W|]. apply Hs. }
  destruct (choose_freelist c size flags) as [[fl c1]|e| |] eqn:Ec; try discriminate. rewrite (bind_lift _ _ _ (fl, c1)) by reflexivity.
  destruct (choose_spec c size flags fl c1 ltac:(lia) Hfl Ec) as (od & n & -> & Ho & Hb). rewrite bind_get. change (object_size c) with (object_size (kc w)) in Hb. rewrite S3 in Hb.
  apply (Hdone od n fl Ho); intros Hf; apply (Hb Hf).
Qed.

(** What [kmem_cache_create] is asked for. *)
Record asked (size align flags : Z) (f : option (Z -> bytes -> bytes)) : Prop := {
  as_size : 0 < size <= KMALLOC_MAX_CACHE_SIZE;
  as_align : align = 0 \/ exists a, 0 <= a <= 22 /\ align = 2 ^ a;
  as_flags : Z.land flags CFLGS_OBJFREELIST_SLAB = 0;
  as_ctor : match f with Some f => forall o bs x, ~ (o <= x < o + size) -> f o bs x = bs x | None => True end }.

Lemma halve_align_ok size : 0 < size -> forall fuel j, (j < fuel)%nat -> exists i, (i <= j)%nat /\ halve_align fuel size (2 ^ Z.of_nat j) = Ok (2 ^ Z.of_nat i).
Proof.
  intros Hs. induction fuel as [|fuel IH]; intros j Hj; [lia|]. cbn [halve_align]. destruct (Z.leb_spec size (2 ^ Z.of_nat j / 2)) as [Hle|]; [|exists j; auto].
  destruct j as [|j]; [change (2 ^ Z.of_nat 0 / 2) with 0 in Hle; lia|]. assert (2 ^ Z.of_nat (S j) / 2 = 2 ^ Z.of_nat j) as ->. { rewrite Nat2Z.inj_succ, Z.pow_succ_r, Z.mul_comm, Z.div_mul by lia. reflexivity. }
  destruct (IH j ltac:(lia)) as (i & Hi & E). exists i. split; [lia|exact E].
Qed.
Lemma _ALIGN_id x k : is_u64 x -> 0 <= k < 64 -> x + 2 ^ k - 1 < 2 ^ 64 -> x mod 2 ^ k = 0 -> _ALIGN x (2 ^ k) = x.
Proof.
  intros Hx Hk Hov Hm. destruct (_ALIGN_least x k Hx Hk Hov) as [A1 A2]. pose proof (pow2_pos k ltac:(lia)).
  apply Z.mod_divide in A1 as [a Ea]; [|lia]. apply Z.mod_divide in Hm as [b Eb]; [|lia]. rewrite Ea, Eb in *. f_equal. nia.
Qed.
Lemma max_pow2 align j : align = 0 \/ (exists a, 0 <= a <= 22 /\ align = 2 ^ a) -> 0 <= j <= 22 -> exists k, 0 <= k <= 22 /\ max align (2 ^ j) = 2 ^ k.
Proof.
  intros Ha Hj. pose proof (pow2_pos j ltac:(lia)). unfold max. rewrite Z.gtb_ltb. destruct (Z.ltb_spec (2 ^ j) align); [|exists j; auto]. destruct Ha as [->|(a & Ha & ->)]; [lia|]. exists a. auto.
Qed.
Lemma alignment_ok size align flags : 0 < size -> align = 0 \/ (exists a, 0 <= a <= 22 /\ align = 2 ^ a) ->
  exists k, 3 <= k <= 22 /\ calculate_alignment flags align size = Ok (2 ^ k) /\ align <= 2 ^ k.
Proof.
  intros Hs Ha. unfold calculate_alignment.
  assert (exists al, (if negb (Z.land flags SLAB_HWCACHE_ALIGN =? 0) then ralign ← halve_align (Z.to_nat SMP_CACHE_BYTES) size SMP_CACHE_BYTES; Ok (max align ralign) else Ok align) = Ok al /\
    (al = 0 \/ exists a, 0 <= a <= 22 /\ al = 2 ^ a) /\ align <= al) as (al & -> & Hal & Hle).
  { destruct (negb _); [|exists align; split; [reflexivity|]; split; [exact Ha|lia]]. destruct (halve_align_ok size Hs (Z.to_nat SMP_CACHE_BYTES) 6 ltac:(vm_compute; lia)) as (i & Hi & E).
    change (2 ^ Z.of_nat 6) with SMP_CACHE_BYTES in E. rewrite E. cbn [mbind outcome_bind]. destruct (max_pow2 align (Z.of_nat i) Ha ltac:(lia)) as (k & Hk & Em). exists (max align (2 ^ Z.of_nat i)).
    split; [reflexivity|]. split; [right; eauto|]. unfold max. rewrite Z.gtb_ltb. destruct (Z.ltb_spec (2 ^ Z.of_nat i) align); lia. }
  cbn [mbind outcome_bind]. change ARCH_SLAB_MINALIGN with (2 ^ 3).
  assert (exists k, 3 <= k <= 22 /\ (if al <? 2 ^ 3 then 2 ^ 3 else al) = 2 ^ k /\ align <= 2 ^ k) as (k & Hk & -> & Hk2).
  { destruct (Z.ltb_spec al (2 ^ 3)) as [Hlt|Hge]; [exists 3; split; [lia|split; [reflexivity|lia]]|]. destruct Hal as [->|(a & Hr & ->)]; [lia|]. exists a. split; [|auto]. apply Z.pow_le_mono_r_iff in Hge; lia. }
  exists k. split; [exact Hk|]. split; [|exact Hk2]. f_equal. pose proof (pow2_pos k ltac:(lia)). pose proof (Z.pow_le_mono_r 2 k 22 ltac:(lia) ltac:(lia)). change BYTES_PER_WORD with (2 ^ 3).
  rewrite _ALIGN_id; [unfold u32; apply Z.mod_small; lia|unfold is_u64; lia|lia|lia|]. replace (2 ^ k) with (2 ^ (k - 3) * 2 ^ 3) by (rewrite <- Z.pow_add_r by lia; f_equal; lia). apply Z.mod_mul. lia.
Qed.

Lemma create_usercopy_sound name_mem obj_mem st node_mem chunk size align flags useroffset usersize f (w : world) chunk' w' : asked size align flags f -> pages w = ∅ ->
  kmem_cache_create_usercopy name_mem obj_mem st node_mem chunk size align flags useroffset usersize f w = Ok (chunk', w') ->
  exists k g ac n, 3 <= k <= 22 /\ align <= 2 ^ k /\ geo_ok g /\ sz g mod 2 ^ k = 0 /\ osz g = size /\ winv g self (fun _ => []) [] None ac n w'.
Proof.
  intros [A1 A2 A3 A4] Hp. unfold kmem_cache_create_usercopy. destruct name_mem; [|discriminate]. destruct (alignment_ok size align flags ltac:(lia) A2) as (k & Hk & Ek & Hle).
  rewrite (bind_lift _ _ _ _ Ek). unfold create_cache. set (w1 := set_kc w (set_asked zeroed size (2 ^ k) f)). unfold bug_on.
  destruct (size <? u32 (useroffset + usersize)); [discriminate|]. destruct obj_mem; [|discriminate].
  destruct (__kmem_cache_create st node_mem chunk flags w1) as [[ch w2]|e| |] eqn:E; try (unfold mbind, st_bind; cbn; fold w1; rewrite E; discriminate).
  assert (uncreated size k w1) as U by (split; cbn; auto; change KMALLOC_MAX_CACHE_SIZE with (2 ^ 22) in A1; lia).
  destruct (create_sound st node_mem chunk flags size k w1 ch w2 U A3 E) as (g & ac & n & G1 & G2 & G3 & G4 & _).
  unfold mbind, st_bind. cbn. fold w1. rewrite E. cbn. intros [= <- <-]. exists k, g, ac, n. replace (Z.max 3 k) with k in G2 by lia. auto 10.
Qed.
End Create.

(** ** Resizing the array of a cache in use *)

Section Tune.
  Context {PS : Type} {alloc_pages : Z -> Z -> ST PS Z} {HS : PageSource alloc_pages} (g : geometry) (G : geo_ok g) (self : Z).
  Abbreviation world := (Slab.world (PS := PS)).

Lemma limit_ok size : 0 < (cpucache_limit size + 1) / 2 <= cpucache_limit size.
Proof. unfold cpucache_limit. repeat match goal with |- context [if ?b then _ else _] => destruct b end; vm_compute; split; congruence. Qed.

(** The objects of the old array go back to their slabs; the new array is empty. *)
Lemma tune_ok L out ac n (w : world) node_mem chunk limit batch a chunk1 : winv g self L out None ac n w -> 0 < batch <= limit -> alloc_kmem_cache_cpus chunk limit batch = Ok (a, chunk1) ->
  exists L' n' w', do_tune_cpucache node_mem chunk limit batch w = Ok (chunk1, w') /\ winv g self L' out None a n' w' /\ kept g out (mem w) (mem w').
Proof.
  intros W Hb Ea. pose proof W as [H1 H2 H3 H4 H5 H6 H7]. pose proof H4 as (A1 & A2 & A3). unfold do_tune_cpucache. rewrite (bind_lift _ _ _ _ Ea). run (get_kc_ok w). cbv zeta. rewrite bind_get, H2.
  set (w1 := set_kc w (set_limit (set_cpu (kc w) (Some a)) limit)). set (n1 := set_free_objects n (free_objects n + avail ac)). set (w2 := set_kc w1 (set_node (kc w1) (Some n1))).
  assert (sinv g self L (held ac ++ out) n1 w2) as S by (split; cbn; try assumption; reflexivity).
  destruct (free_objs_ok g G self (held ac) L out n1 w2 S) as (L' & n' & w3 & E3 & S3 & C3 & K3).
  assert (free_block (entry ac) (avail ac) w1 = Ok (tt, w3)) as Ef.
  { unfold free_block. run (get_node_ok w1 n H3). assert (put_node n1 w1 = Ok (tt, w2)) as E1 by reflexivity. unfold n1 in E1. run E1. destruct (Z.leb_spec (avail ac) (Z.of_nat (length (entry ac)))); [exact E3|lia]. }
  exists L', n', w3. split; [|split; [|exact K3]].
  - assert (st_put w1 w = Ok (tt, w1)) as Ep by reflexivity. run Ep. run Ef. unfold setup_kmem_cache_nodes. assert ((c ← get_kc; match c_node c with Some _ => mret tt | None => if node_mem then put_node empty_node else st_panic "cannot init cache node!" end) w3 = Ok (tt, w3)) as En.
    { run (get_kc_ok w3). rewrite (si_node _ _ _ _ _ _ S3). reflexivity. }
    run En. reflexivity.
  - destruct S3 as [T1 T2 T3 T4 T5]. pose proof (cpus_spec _ _ _ _ _ Ea) as ->. destruct (fresh_array limit batch Hb) as [_ F2]. split; assumption.
Qed.

(** Either the reserved memory is used up or the cache has a new array. *)
Lemma enable_ok L out ac n (w : world) node_mem chunk : winv g self L out None ac n w ->
  (exists msg, enable_cpucache node_mem chunk w = Panic msg /\ forall limit batch, cpucache_limit (c_size (kc w)) = limit -> batch = (limit + 1) / 2 -> alloc_kmem_cache_cpus chunk limit batch = Panic msg) \/
  exists chunk' L' ac' n' w', enable_cpucache node_mem chunk w = Ok (chunk', w') /\ winv g self L' out None ac' n' w' /\ kept g out (mem w) (mem w').
Proof.
  intros W. unfold enable_cpucache. run (get_kc_ok w). cbv zeta. set (limit := cpucache_limit (c_size (kc w))). pose proof (limit_ok (c_size (kc w))) as Hl. fold limit in Hl.
  destruct (alloc_kmem_cache_cpus chunk limit ((limit + 1) / 2)) as [[a ch]|e| |] eqn:Ea.
  - right. destruct (tune_ok L out ac n w node_mem chunk limit _ a ch W Hl Ea) as (L' & n' & w' & E & W' & K). exists ch, L', a, n', w'. auto.
  - left. exists e. split; [|intros ? ? <- ->; exact Ea]. unfold do_tune_cpucache. rewrite Ea. reflexivity.
  - unfold alloc_kmem_cache_cpus in Ea. destruct chunk. repeat case_match; discriminate.
  - unfold alloc_kmem_cache_cpus in Ea. destruct chunk. repeat case_match; discriminate.
Qed.
End Tune.
