(* ===== verification/SlabHeap.v ===== *)
(** * Object caches as a heap

    The abstract view of a cache: a set of live objects, each with its own bytes.
    A created cache behaves as such a heap for every sequence of allocations,
    releases, reads and writes. *)

From Stdlib Require Import ZArith Lia Bool.
From stdpp Require Import base tactics numbers list gmap strings.
From S2P Require Import Prelude Words Memblock Buddy Slab SlabProofs SlabOps SlabSpec.

(** ** The abstract heap *)

(** The live objects and their bytes. *)
Abbreviation heap := (gmap Z bytes).
Inductive cache_op := OAlloc (flags : Z) | OFree (o : Z) | OKfree (o : Z) | OWrite (o i v : Z) | ORead (o i : Z) | OTune (node_mem : bool) (chunk : Z * Z).

(** Objects are live when they are used, and used within their size. *)
Definition legal_op (size : Z) (h : heap) (op : cache_op) : Prop :=
  match op with
  | OAlloc _ => True
  | OFree o => is_Some (h !! o)
  | OKfree o => 0 <= o <= ZERO_SIZE_PTR \/ is_Some (h !! o)
  | OWrite o i v => is_Some (h !! o) /\ 0 <= i < size
  | ORead o i => is_Some (h !! o) /\ 0 <= i < size
  | OTune _ _ => True
  end.
(** A new object is aligned and overlaps none of the live ones; it is zeroed if that is asked for. *)
Inductive heap_step (size align : Z) (h : heap) : cache_op -> Z -> heap -> Prop :=
  | HAlloc flags o c : ZERO_SIZE_PTR < o -> o mod align = 0 -> (forall q, is_Some (h !! q) -> o + size <= q \/ q + size <= o) ->
      (slab_want_init_on_alloc flags = true -> forall i, 0 <= i < size -> c i = 0) -> heap_step size align h (OAlloc flags) o (<[o := c]> h)
  | HFree o : heap_step size align h (OFree o) 0 (delete o h)
  | HKfree o : heap_step size align h (OKfree o) 0 (delete o h)
  | HWrite o i v c : h !! o = Some c -> heap_step size align h (OWrite o i v) 0 (<[o := write c i v]> h)
  | HRead o i c : h !! o = Some c -> heap_step size align h (ORead o i) (c i) h
  | HTune node_mem chunk : heap_step size align h (OTune node_mem chunk) 0 h.

Section Heap.
  Context {PS : Type} (alloc_pages : Z -> Z -> ST PS Z) (self : Z).
  Abbreviation world := (Slab.world (PS := PS)).

Definition cache_step (op : cache_op) : ST world Z :=
  match op with
  | OAlloc flags => _kmem_cache_alloc alloc_pages self flags
  | OFree o => _kmem_cache_free o;; mret 0
  | OKfree o => _kfree self o;; mret 0
  | OWrite o i v => put_byte (o + i) v;; mret 0
  | ORead o i => get_byte (o + i)
  | OTune node_mem chunk => enable_cpucache node_mem chunk;; mret 0
  end.
(** The reasons to halt: no block of pages, or too little reserved memory for the array. *)
Definition may_halt (op : cache_op) (w : world) : Prop :=
  match op with
  | OAlloc flags => no_pages alloc_pages (gfp_exact_node flags) (gfporder (kc w)) (ps w)
  | OTune _ chunk => chunk.1 = 0 \/ chunk.2 < 8 * cpucache_limit (c_size (kc w)) + SIZEOF_ARRAY_CACHE
  | _ => False
  end.

(** Every legal operation does what the heap does. *)
Fixpoint behaves (size align : Z) (ops : list cache_op) (h : heap) (w : world) : Prop :=
  match ops with
  | [] => True
  | op :: ops => legal_op size h op ->
      match cache_step op w with
      | Ok (r, w') => exists h', heap_step size align h op r h' /\ behaves size align ops h' w'
      | Panic _ => may_halt op w
      | _ => False
      end
  end.
End Heap.

Section Refine.
  Context {PS : Type} {alloc_pages : Z -> Z -> ST PS Z} {HS : PageSource alloc_pages} (g : geometry) (G : geo_ok g) (self : Z) (Hself : self <> 0).
  Context (k : Z) (Hk : 3 <= k <= 22) (Hal : sz g mod 2 ^ k = 0).
  Abbreviation world := (Slab.world (PS := PS)).
  Abbreviation winv := (winv g self).

(** The heap that a state of the cache stands for. *)
Record rep (h : heap) (w : world) : Prop := {
  rep_inv : exists L out ac n, winv L out None ac n w /\ forall o, o ∈ out <-> is_Some (h !! o);
  rep_bytes : forall o c i, h !! o = Some c -> 0 <= i < osz g -> mem w (o + i) = c i }.

Lemma obj_aligned p i : slab_addr g p -> obj g p i mod 2 ^ k = 0.
Proof.
  intros (_ & _ & Hm). pose proof (pow2_pos k ltac:(lia)). pose proof (go_sz g G). pose proof (go_od g G). pose proof (fit g G). pose proof (go_nm g G).
  assert (2 ^ k <= sz g) by (apply Z.divide_pos_le; [lia|]; apply Z.mod_divide; [lia|exact Hal]).
  assert (ss g = 2 ^ (12 + od g)) as Es by (unfold ss; change PAGE_SIZE with (2 ^ 12); rewrite <- Z.pow_add_r by lia; reflexivity).
  assert (2 ^ k <= 2 ^ (12 + od g)) as Hle by nia. apply Z.pow_le_mono_r_iff in Hle; [|lia|lia].
  apply Z.mod_divide; [lia|]. unfold obj. apply Z.divide_add_r.
  - apply Z.divide_trans with (ss g); [|apply Z.mod_divide; [pose proof (ss_bounds g G); lia|exact Hm]]. rewrite Es. exists (2 ^ (12 + od g - k)). rewrite <- Z.pow_add_r by lia. f_equal. lia.
  - apply Z.divide_mul_l. apply Z.mod_divide; [lia|exact Hal].
Qed.

(** An object in use: its page and place. *)
Lemma out_place L out ac n (w : world) o : winv L out None ac n w -> o ∈ out -> exists p pg i, pages w !! p = Some pg /\ slab_addr g p /\ 0 <= i < nm g /\ o = obj g p i /\ PageSlab pg = true /\ slab_cache pg = self.
Proof.
  intros W Ho. destruct (co_obj _ _ _ _ _ _ (wi_core _ _ _ _ _ _ _ _ W) o ltac:(apply elem_of_app; right; exact Ho)) as (p & pg & i & Hp & Hi & ->).
  destruct (co_slab _ _ _ _ _ _ (wi_core _ _ _ _ _ _ _ _ W) p pg Hp) as [A _ [B1 B2] _ _ _ _]. exists p, pg, i. repeat (split; [assumption || reflexivity|]). assumption.
Qed.
Lemma place_big p i : slab_addr g p -> 0 <= i < nm g -> ZERO_SIZE_PTR < obj g p i.
Proof.
  intros (H0 & _ & Hm) Hi. pose proof (obj_in g G i Hi). pose proof (ss_bounds g G). unfold obj. change ZERO_SIZE_PTR with 16. assert (ss g <= p) by (apply Z.divide_pos_le; [lia|]; apply Z.mod_divide; [lia|exact Hm]). lia.
Qed.
(** Objects of the heap are apart. *)
Lemma out_apart L out ac n (w : world) o q : winv L out None ac n w -> o ∈ out -> q ∈ out -> o <> q -> o + sz g <= q \/ q + sz g <= o.
Proof.
  intros W Ho Hq Hne. pose proof (go_sz g G). destruct (Z_lt_le_dec q (o + sz g)) as [H1|]; [|lia]. destruct (Z_lt_le_dec o (q + sz g)) as [H2|]; [|lia]. exfalso. apply Hne.
  apply (use_disjoint g G self _ _ _ _ o q (Z.max o q) (wi_core _ _ _ _ _ _ _ _ W)); try (apply elem_of_app; right; assumption); lia.
Qed.
(** The bytes of kept objects are those of the heap. *)
Lemma kept_bytes (h h' : heap) (w w' : world) out : (forall o c i, h !! o = Some c -> 0 <= i < osz g -> mem w (o + i) = c i) -> kept g out (mem w) (mem w') ->
  (forall o c, h' !! o = Some c -> h !! o = Some c /\ o ∈ out) -> forall o c i, h' !! o = Some c -> 0 <= i < osz g -> mem w' (o + i) = c i.
Proof. intros Hb K Hh o c i Ho Hi. destruct (Hh o c Ho) as [H1 H2]. rewrite (K o (o + i) H2); [apply (Hb o c i H1 Hi)|]. pose proof (go_osz g G). lia. Qed.

Lemma heap_alloc_refines h w flags : rep h w -> match cache_step alloc_pages self (OAlloc flags) w with
  | Ok (r, w') => exists h', heap_step (osz g) (2 ^ k) h (OAlloc flags) r h' /\ rep h' w'
  | Panic _ => may_halt alloc_pages (OAlloc flags) w
  | _ => False end.
Proof.
  intros [(L & out & ac & n & W & Hd) Hb]. cbn [cache_step]. unfold _kmem_cache_alloc. pose proof (wi_geo _ _ _ _ _ _ _ _ W) as (_ & _ & Eod & _).
  destruct (slab_alloc_ok g G self L out ac n w flags W) as [(msg & -> & Hno)|(o & L' & ac' & n' & w' & -> & Hne & W' & K & Hz)]; [cbn; rewrite Eod; exact Hno|].
  set (c := fun i => mem w' (o + i)). pose proof (go_osz g G). pose proof (co_nodup _ _ _ _ _ _ (wi_core _ _ _ _ _ _ _ _ W')) as Hn. apply NoDup_app in Hn as (_ & _ & Hn). apply NoDup_cons in Hn as [Hfresh _].
  destruct (out_place _ _ _ _ _ o W' ltac:(left)) as (p & pg & i & _ & Ap & Hi & Eo & _). exists (<[o := c]> h). split.
  - apply HAlloc.
    + rewrite Eo. apply (place_big p i Ap Hi).
    + rewrite Eo. apply (obj_aligned p i Ap).
    + intros q Hq. apply Hd in Hq. destruct (out_apart _ _ _ _ _ o q W'); [left|right; exact Hq|congruence|lia|lia].
    + intros Hf j Hj. apply (Hz Hf). lia.
  - split.
    + exists L', (o :: out), ac', n'. split; [exact W'|]. intros q. rewrite elem_of_cons, lookup_insert_is_Some, Hd. destruct (decide (q = o)); naive_solver.
    + intros q c' j Hq Hj. destruct (decide (q = o)) as [->|Hqo]; [rewrite lookup_insert_eq in Hq; injection Hq as <-; reflexivity|]. rewrite lookup_insert_ne in Hq by congruence.
      rewrite (K q (q + j)); [apply (Hb q c' j Hq Hj)|apply Hd; eauto|lia].
Qed.

Lemma free_refines h (w : world) o : rep h w -> is_Some (h !! o) -> exists w', ___cache_free o w = Ok (tt, w') /\ rep (delete o h) w'.
Proof.
  intros [(L & out & ac & n & W & Hd) Hb] Ho. apply Hd in Ho. apply list_elem_of_split in Ho as (l1 & l2 & El). set (out' := l1 ++ l2). assert (out ≡ₚ o :: out') as Hp by (rewrite El; symmetry; apply Permutation_middle).
  assert (winv L (o :: out') None ac n w) as W1. { destruct W as [H1 H2 H3 H4 H5 H6 H7]. split; try assumption. eapply core_perm; [|exact H6]. rewrite Hp. reflexivity. }
  destruct (cache_free_ok g G self L out' ac n w o W1) as (L' & ac' & n' & w' & E & W' & K). exists w'. split; [exact E|].
  pose proof (co_nodup _ _ _ _ _ _ (wi_core _ _ _ _ _ _ _ _ W1)) as Hn. apply NoDup_app in Hn as (_ & _ & Hn). apply NoDup_cons in Hn as [Hfresh _].
  assert (forall q, q ∈ out' <-> is_Some (delete o h !! q)) as Hd'.
  { intros q. destruct (decide (q = o)) as [->|Hne]; [rewrite lookup_delete_eq; split; [contradiction|intros [? H]; discriminate]|]. rewrite lookup_delete_ne, <- Hd, Hp, elem_of_cons by congruence. naive_solver. }
  split; [exists L', out', ac', n'; auto|]. apply (kept_bytes h (delete o h) w w' out' Hb K). intros q c Hq. split; [apply lookup_delete_Some in Hq; apply Hq|apply Hd'; eauto].
Qed.

Lemma write_refines h (w : world) o i v c : rep h w -> h !! o = Some c -> 0 <= i < osz g -> rep (<[o := write c i v]> h) (set_mem w (write (mem w) (o + i) v)).
Proof.
  intros [(L & out & ac & n & W & Hd) Hb] Ho Hi. pose proof (go_osz g G). assert (o ∈ out) as Hin by (apply Hd; eauto). split.
  - exists L, out, ac, n. split.
    + apply (owner_writes g G self L out ac n w _ W). intros x Hx. exists o. split; [exact Hin|]. unfold write in Hx. destruct (Z.eqb_spec x (o + i)); [lia|contradiction].
    + intros q. rewrite lookup_insert_is_Some, Hd. destruct (decide (q = o)); naive_solver.
  - intros q c' j Hq Hj. cbn. unfold write. destruct (decide (q = o)) as [->|Hne].
    + rewrite lookup_insert_eq in Hq. injection Hq as <-. unfold write. destruct (Z.eqb_spec (o + j) (o + i)), (Z.eqb_spec j i); try lia; reflexivity || apply (Hb o c j Ho Hj).
    + rewrite lookup_insert_ne in Hq by congruence. destruct (Z.eqb_spec (q + j) (o + i)) as [E|]; [|apply (Hb q c' j Hq Hj)]. exfalso.
      destruct (out_apart _ _ _ _ _ o q W Hin ltac:(apply Hd; eauto) ltac:(congruence)); lia.
Qed.

Lemma kfree_live h (w : world) o : rep h w -> is_Some (h !! o) -> _kfree self o w = ___cache_free o w /\ ZERO_SIZE_PTR < o.
Proof.
  intros [(L & out & ac & n & W & Hd) _] Ho. apply Hd in Ho. destruct (out_place _ _ _ _ _ o W Ho) as (p & pg & i & Hp & Ap & Hi & -> & E1 & E2). pose proof (place_big p i Ap Hi) as Hz. split; [|exact Hz].
  unfold _kfree, ZERO_OR_NULL_PTR. destruct (Z.leb_spec (obj g p i) ZERO_SIZE_PTR); [lia|]. rewrite (obj_page g G p i Ap Hi). run (get_page_ok w p pg Hp).
  rewrite E1, E2. cbn [negb]. destruct (Z.eqb_spec self 0); [contradiction|]. rewrite Z.eqb_refl. reflexivity.
Qed.

Lemma tune_refines h (w : world) node_mem chunk : rep h w -> match cache_step alloc_pages self (OTune node_mem chunk) w with
  | Ok (r, w') => exists h', heap_step (osz g) (2 ^ k) h (OTune node_mem chunk) r h' /\ rep h' w'
  | Panic _ => may_halt alloc_pages (OTune node_mem chunk) w
  | _ => False end.
Proof.
  intros [(L & out & ac & n & W & Hd) Hb]. cbn [cache_step]. destruct (enable_ok g G self L out ac n w node_mem chunk W) as [(msg & E & Hno)|(ch & L' & ac' & n' & w' & E & W' & K)].
  - rewrite (bind_panic _ _ _ _ E). specialize (Hno _ _ eq_refl eq_refl). cbn. unfold alloc_kmem_cache_cpus in Hno. destruct chunk as [ptr room]. pose proof (limit_ok (c_size (kc w))). change SIZEOF_ARRAY_CACHE with 16 in *. cbn.
    destruct (Z.eqb_spec ptr 0); [left; assumption|right]. destruct (Z.eqb_spec room 0); [lia|]. cbn in Hno. destruct (Z.ltb_spec room (8 * cpucache_limit (c_size (kc w)) + 16)); [assumption|discriminate].
  - run E. exists h. split; [apply HTune|]. split; [exists L', out, ac', n'; auto|]. apply (kept_bytes h h w w' out Hb K). intros q c Hq. split; [exact Hq|apply Hd; eauto].
Qed.

Lemma step_refines_heap op h w : rep h w -> legal_op (osz g) h op ->
  match cache_step alloc_pages self op w with
  | Ok (r, w') => exists h', heap_step (osz g) (2 ^ k) h op r h' /\ rep h' w'
  | Panic _ => may_halt alloc_pages op w
  | _ => False end.
Proof.
  intros R. destruct op as [flags|o|o|o i v|o i|nd chunk]; cbn [legal_op].
  - intros _. apply (heap_alloc_refines h w flags R).
  - intros Ho. destruct (free_refines h w o R Ho) as (w' & E & R'). cbn [cache_step]. unfold _kmem_cache_free. run E. exists (delete o h). split; [apply HFree|exact R'].
  - cbn [cache_step]. destruct (decide (is_Some (h !! o))) as [Ho|Hn].
    + intros _. destruct (kfree_live h w o R Ho) as [Ek _]. destruct (free_refines h w o R Ho) as (w' & E & R'). rewrite <- Ek in E. run E. exists (delete o h). split; [apply HKfree|exact R'].
    + intros [Ho|]; [|contradiction]. assert (_kfree self o w = Ok (tt, w)) as E by (unfold _kfree, ZERO_OR_NULL_PTR; destruct (Z.leb_spec o ZERO_SIZE_PTR); [reflexivity|lia]).
      run E. exists (delete o h). split; [apply HKfree|]. rewrite delete_id by (destruct (h !! o); [exfalso; eauto|reflexivity]). exact R.
  - intros [[c Hc] Hi]. exists (<[o := write c i v]> h). split; [apply HWrite, Hc|apply (write_refines h w o i v c R Hc Hi)].
  - intros [[c Hc] Hi]. cbn. exists h. rewrite (rep_bytes _ _ R o c i Hc Hi). split; [apply HRead, Hc|exact R].
  - intros _. apply (tune_refines h w nd chunk R).
Qed.

Lemma run_refines_heap ops : forall h w, rep h w -> behaves alloc_pages self (osz g) (2 ^ k) ops h w.
Proof.
  induction ops as [|op ops IH]; intros h w R; cbn [behaves]; [exact Logic.I|]. intros Hl. pose proof (step_refines_heap op h w R Hl) as H.
  destruct (cache_step alloc_pages self op w) as [[r w']|e| |]; try exact H. destruct H as (h' & Hs & R'). exists h'. split; [exact Hs|]. apply IH, R'.
Qed.
End Refine.

(** C3: a cache made by [kmem_cache_create] for objects of any size and alignment
    behaves, for every sequence of allocations, releases ([kmem_cache_free] and
    [kfree]), reads and writes of its owners, as a heap of separate objects: a new
    object is aligned as asked and overlaps no live one, it is zeroed if asked, an
    object keeps what its owner wrote until it is released, and no operation faults.
    Resizing the array of free objects while objects are live changes nothing of this.
    The kernel halts only for want of a block of pages or of reserved memory. *)
Theorem cache_is_heap {PS} (alloc_pages : Z -> Z -> ST PS Z) {HS : PageSource alloc_pages} self name_mem obj_mem st node_mem chunk size align flags f (w : Slab.world (PS := PS)) chunk' w' ops :
  self <> 0 -> asked size align flags f -> pages w = ∅ ->
  kmem_cache_create name_mem obj_mem st node_mem chunk size align flags f w = Ok (chunk', w') ->
  exists k, 3 <= k <= 22 /\ align <= 2 ^ k /\ behaves alloc_pages self size (2 ^ k) ops ∅ w'.
Proof.
  intros Hself Ha Hp E. destruct (create_usercopy_sound self name_mem obj_mem st node_mem chunk size align flags 0 0 f w chunk' w' Ha Hp E) as (k & g & ac & n & Hk & Hle & G & Hal & <- & W).
  exists k. split; [exact Hk|]. split; [exact Hle|]. apply (run_refines_heap g G self Hself k Hk Hal). split.
  - exists (fun _ => []), [], ac, n. split; [exact W|]. intros o. rewrite lookup_empty. split; [intros H; inversion H|intros [? H]; discriminate].
  - intros o c i Ho. rewrite lookup_empty in Ho. discriminate.
Qed.

(** A page allocator that never reuses a page: its state is the list of blocks it gave. *)
Definition bump (flags order : Z) (given : list (Z * Z)) : outcome (Z * list (Z * Z)) :=
  let size := PAGE_SIZE * 2 ^ order in
  let top := foldr (fun b t => Z.max (b.1 + b.2) t) 0 given in
  let p := size * (top / size + 1) in
  if p + size <? 2 ^ 64 then Ok (p, (p, size) :: given) else Ok (0, given).
Lemma top_above (l : list (Z * Z)) : 0 <= foldr (fun b t => Z.max (b.1 + b.2) t) 0 l /\ forall q n, (q, n) ∈ l -> q + n <= foldr (fun b t => Z.max (b.1 + b.2) t) 0 l.
Proof.
  induction l as [|[q n] l [IH0 IH]]; cbn; [split; [lia|intros q n H; inversion H]|]. split; [lia|]. intros q' n' H. apply elem_of_cons in H as [[= -> ->]|H]; [lia|]. specialize (IH q' n' H). lia.
Qed.
#[export] Instance bump_source : PageSource bump.
Proof.
  refine {| handed := fun s => s |}. intros flags order s Ho. unfold bump. destruct (top_above s) as [T0 T1]. set (top := foldr _ _ _) in *. set (size := PAGE_SIZE * 2 ^ order).
  assert (0 < size) by (unfold size; pose proof (pow2_pos order ltac:(lia)); change PAGE_SIZE with 4096; lia). destruct (Z.ltb_spec (size * (top / size + 1) + size) (2 ^ 64)); [|left; reflexivity]. right.
  pose proof (Z.div_pos top size T0 ltac:(lia)). pose proof (Z.mul_succ_div_gt top size ltac:(lia)).
  split; [nia|]. split; [assumption|]. split; [rewrite Z.mul_comm; apply Z.mod_mul; lia|]. split; [reflexivity|]. intros q l Hq. specialize (T1 q l Hq). right. lia.
Defined.

Definition demo_world : Slab.world (PS := list (Z * Z)) := World zeroed ∅ (fun _ => 255) [].
Definition demo_cache : Slab.world (PS := list (Z * Z)) :=
  match kmem_cache_create true true FULL true (4096, 4096) 200 0 SLAB_HWCACHE_ALIGN None demo_world with Ok (_, w) => w | _ => demo_world end.
Lemma cache_is_heap_witness : exists k, 3 <= k <= 22 /\ 0 <= 2 ^ k /\
  behaves bump 8 200 (2 ^ k) [OAlloc __GFP_ZERO; OWrite 7936 3 7; OAlloc 0; ORead 7936 3; OTune true (8192, 4096); OKfree 7936] ∅ demo_cache.
Proof.
  apply (cache_is_heap bump 8 true true FULL true (4096, 4096) 200 0 SLAB_HWCACHE_ALIGN None demo_world (5072, 3120) demo_cache).
  - discriminate.
  - split; [vm_compute; split; congruence|left; reflexivity|reflexivity|exact Logic.I].
  - reflexivity.
  - vm_compute. reflexivity.
Defined.
