(* ===== verification/Kmalloc.v ===== *)
(** * kmalloc: the choice of a general cache

    The caches that [kmem_cache_init] makes have the sizes 32, 64, 96, 128, 192 and
    the powers of two up to 4 MiB.  A request finds its cache through a table up to
    192 bytes and through the position of the highest bit above. *)

From Stdlib Require Import ZArith Lia Bool.
From stdpp Require Import base tactics numbers list gmap strings.
From S2P Require Import Prelude Words Memblock Buddy Slab.

Definition index_table : list Z := [5; 5; 5; 5; 6; 6; 6; 6; 1; 1; 1; 1; 7; 7; 7; 7; 2; 2; 2; 2; 2; 2; 2; 2].
Definition made : list (option Z) := [None; Some 96; Some 192; None; None] ++ ((fun i => Some (2 ^ Z.of_nat i)) <$> seq 5 18).
Lemma init_tables : kmem_cache_init = Ok (index_table, made).
Proof. vm_compute. reflexivity. Qed.

(** Cache [i] exists, has objects of [n] bytes, and no cache with smaller objects would do. *)
Definition best_cache (caches : list (option Z)) (size i : Z) : Prop :=
  exists n, at_ caches i (Some n) /\ size <= n /\ forall j m, at_ caches j (Some m) -> size <= m -> n <= m.
Definition best_cacheb (size i : Z) : bool :=
  (0 <=? i) &&
  match made !! Z.to_nat i with
  | Some (Some n) => (size <=? n) && forallb (fun c => match c with Some m => (m <? size) || (n <=? m) | _ => true end) made
  | _ => false
  end.
Lemma best_cacheb_ok size i : best_cacheb size i = true -> best_cache made size i.
Proof.
  unfold best_cacheb. rewrite andb_true_iff, Z.leb_le. intros [Hi H]. destruct (made !! Z.to_nat i) as [[n|]|] eqn:Em; try discriminate.
  apply andb_true_iff in H as [H1 H]. apply Z.leb_le in H1. rewrite forallb_forall in H. exists n. split; [split; assumption|]. split; [exact H1|].
  intros j m [_ Hj] Hle. apply list_elem_of_lookup_2, list_elem_of_In in Hj. apply H, orb_true_iff in Hj as [Hj|Hj]; [apply Z.ltb_lt in Hj; lia|apply Z.leb_le in Hj; exact Hj].
Qed.

(** Up to 192 bytes: by the table. *)
Definition small_ok (size : Z) : bool :=
  match kmalloc_slab index_table size, kmalloc_index size with
  | Ok (inr i), Ok i' => (i =? i') && best_cacheb size i
  | _, _ => false
  end.
Lemma small_sizes : forallb (fun n => small_ok (Z.of_nat n)) (seq 1 192) = true.
Proof. vm_compute. reflexivity. Qed.
Lemma small_size size : 0 < size <= 192 -> exists i, kmalloc_slab index_table size = Ok (inr i) /\ kmalloc_index size = Ok i /\ best_cache made size i.
Proof.
  intros Hs. pose proof small_sizes as H. rewrite forallb_forall in H. specialize (H (Z.to_nat size) ltac:(apply in_seq; lia)). cbv beta in H. rewrite Z2Nat.id in H by lia. unfold small_ok in H.
  destruct (kmalloc_slab index_table size) as [[p|i]| | |]; try discriminate. destruct (kmalloc_index size) as [i'| | |]; try discriminate. apply andb_true_iff in H as [E H]. apply Z.eqb_eq in E as <-.
  exists i. split; [reflexivity|]. split; [reflexivity|]. apply best_cacheb_ok, H.
Qed.

(** Above, the cache is that of the next power of two. *)
Ltac decide_compare := repeat match goal with
  | |- context [?a <=? ?b] => first [rewrite (proj2 (Z.leb_le a b)) by lia | rewrite (proj2 (Z.leb_gt a b)) by lia]
  | |- context [?a <? ?b] => first [rewrite (proj2 (Z.ltb_lt a b)) by lia | rewrite (proj2 (Z.ltb_ge a b)) by lia]
  | |- context [?a =? ?b] => rewrite (proj2 (Z.eqb_neq a b)) by lia
  end.
Lemma large_index size i : 8 <= i <= 22 -> 2 ^ (i - 1) < size <= 2 ^ i -> 192 < size -> kmalloc_index size = Ok i /\ best_cacheb size i = true.
Proof.
  intros Hi Hs Hl. assert (i = 8 \/ i = 9 \/ i = 10 \/ i = 11 \/ i = 12 \/ i = 13 \/ i = 14 \/ i = 15 \/ i = 16 \/ i = 17 \/ i = 18 \/ i = 19 \/ i = 20 \/ i = 21 \/ i = 22) as Hc by lia.
  repeat destruct Hc as [->|Hc]; try subst i; cbn in Hs; (split; [unfold kmalloc_index; change KMALLOC_MIN_SIZE with 32; decide_compare; reflexivity|]).
  all: cbv -[Z.leb Z.ltb]; decide_compare; reflexivity.
Qed.
Lemma large_size size : 192 < size <= KMALLOC_MAX_CACHE_SIZE -> exists i, kmalloc_slab index_table size = Ok (inr i) /\ kmalloc_index size = Ok i /\ best_cache made size i.
Proof.
  intros [Hs Hm]. change KMALLOC_MAX_CACHE_SIZE with (2 ^ 22) in Hm. set (i := Z.log2 (size - 1) + 1). exists i. pose proof (Z.log2_spec (size - 1) ltac:(lia)) as [L1 L2].
  assert (8 <= i <= 22) as Hi. { split; [assert (7 <= Z.log2 (size - 1)) by (apply Z.log2_le_pow2; lia); lia|assert (Z.log2 (size - 1) < 22) by (apply Z.log2_lt_pow2; lia); lia]. }
  destruct (large_index size i Hi) as [E B]; [unfold i; rewrite Z.add_simpl_r; unfold Z.succ in L2; lia|lia|]. split; [|split; [exact E|apply best_cacheb_ok, B]].
  unfold kmalloc_slab. change KMALLOC_MAX_CACHE_SIZE with (2 ^ 22). decide_compare. rewrite fls_log2 by lia. destruct (Z.eqb_spec (size - 1) 0); [lia|reflexivity].
Qed.

(** C27: once the caches exist, a request of any size up to 4 MiB goes to a cache that
    was created, whose objects are large enough, and there is no cache with smaller
    objects that would do; the index computed at compile time ([kmalloc_index]) is the
    same.  A request of no bytes gives the special pointer, one above 4 MiB nothing. *)
Theorem kmalloc_best_fit {S} (cache_alloc : Z -> Z -> ST S Z) flags s : exists t caches, kmem_cache_init = Ok (t, caches) /\
  forall size, 0 <= size ->
    (size = 0 -> _kmalloc cache_alloc t size flags s = Ok (ZERO_SIZE_PTR, s)) /\
    (KMALLOC_MAX_CACHE_SIZE < size -> _kmalloc cache_alloc t size flags s = Ok (0, s)) /\
    (0 < size <= KMALLOC_MAX_CACHE_SIZE -> exists i, kmalloc_index size = Ok i /\ best_cache caches size i /\ _kmalloc cache_alloc t size flags s = cache_alloc i flags s).
Proof.
  exists index_table, made. split; [exact init_tables|]. intros size H0. unfold _kmalloc, __kmalloc, __do_kmalloc. split; [intros ->; reflexivity|]. split; intros Hs.
  - destruct (Z.ltb_spec KMALLOC_MAX_CACHE_SIZE size); [reflexivity|lia].
  - assert (exists i, kmalloc_slab index_table size = Ok (inr i) /\ kmalloc_index size = Ok i /\ best_cache made size i) as (i & E & Ei & B) by (destruct (Z_le_gt_dec size 192); [apply small_size|apply large_size]; lia).
    exists i. split; [exact Ei|]. split; [exact B|]. destruct (Z.ltb_spec KMALLOC_MAX_CACHE_SIZE size); [lia|]. rewrite (bind_lift _ _ _ _ E). reflexivity.
Qed.
Lemma kmalloc_best_fit_witness : exists i, best_cache made 100 i /\ _kmalloc (fun i _ s => Ok (i, s)) index_table 100 0 tt = Ok (i, tt).
Proof.
  destruct (kmalloc_best_fit (fun i _ s => Ok (i, s)) 0 tt) as (t & c & E & H). rewrite init_tables in E. injection E as <- <-. destruct (H 100 ltac:(lia)) as (_ & _ & K).
  destruct (K ltac:(vm_compute; split; congruence)) as (i & _ & B & R). exists i. split; [exact B|exact R].
Defined.
