(* ===== verification/Fdt.v ===== *)
(** * early_dt/early_dt.c and include/fdt.h: the flattened device tree

    The boot loader leaves a blob in memory: a header of big-endian words, a
    block of tagged tokens (begin node, property, end node) and a block of
    property names.  These functions walk the blob.  A pointer into it is an
    address of [mem]; the in/out argument [nextoffset] of [fdt_next_tag] is an
    option, with [None] for a variable that was never set.  The address of a
    string literal of the program is [lit]; [fuel] bounds the loops over strings
    and tokens. *)

From Stdlib Require Import ZArith Lia Bool.
From stdpp Require Import base tactics numbers list gmap strings.
From S2P Require Import Prelude Words Mem LibString Memblock.

(** ** Constants *)

Definition OF_ROOT_NODE_ADDR_CELLS_DEFAULT : Z := 1.
Definition OF_ROOT_NODE_SIZE_CELLS_DEFAULT : Z := 1.
Definition FDT_MAGIC : Z := 0xd00dfeed.
Definition FDT_TAGSIZE : Z := 4.
Definition FDT_BEGIN_NODE : Z := 1.
Definition FDT_END_NODE : Z := 2.
Definition FDT_PROP : Z := 3.
Definition FDT_NOP : Z := 4.
Definition FDT_END : Z := 9.
Definition FDT_ERR_NOTFOUND : Z := 1.
Definition FDT_ERR_TRUNCATED : Z := 8.
Definition FDT_ERR_BADMAGIC : Z := 9.
Definition FDT_ERR_BADSTRUCTURE : Z := 11.
Definition SIZEOF_FDT_PROPERTY : Z := 12.
Definition COMMAND_LINE_SIZE : Z := 1024.

(** The characters of a literal. *)
Fixpoint chars (s : string) : list Z :=
  match s with
  | EmptyString => []
  | String a s => Z.of_N (Ascii.N_of_ascii a) :: chars s
  end.

Definition FDT_ALIGN (x a : Z) : Z := Z.land (u64 (x + a - 1)) (u64 (Z.lnot (a - 1))).
Definition FDT_TAGALIGN (x : Z) : Z := FDT_ALIGN x FDT_TAGSIZE.

(** ** Reading the blob *)

Definition fdt32_ld (m : mem) (p : Z) : outcome Z :=
  b0 ← load8 m p; b1 ← load8 m (p + 1); b2 ← load8 m (p + 2); b3 ← load8 m (p + 3);
  Ok (Z.lor (Z.lor (Z.lor (Z.shiftl b0 24) (Z.shiftl b1 16)) (Z.shiftl b2 8)) b3).
Definition swab32 (x : Z) : Z :=
  Z.lor (Z.lor (Z.lor (Z.shiftl (Z.land x 0xff) 24) (Z.shiftl (Z.land x 0xff00) 8)) (Z.shiftr (Z.land x 0xff0000) 8)) (Z.shiftr (Z.land x 0xff000000) 24).
Definition be32_to_cpup (m : mem) (p : Z) : outcome Z := x ← load_le 4 m p; Ok (swab32 x).

(** The fields of [struct fdt_header] by their offset. *)
Definition fdt_magic (m : mem) (fdt : Z) : outcome Z := fdt32_ld m (fdt + 0).
Definition fdt_off_dt_struct (m : mem) (fdt : Z) : outcome Z := fdt32_ld m (fdt + 8).
Definition fdt_off_dt_strings (m : mem) (fdt : Z) : outcome Z := fdt32_ld m (fdt + 12).
Definition fdt_size_dt_strings (m : mem) (fdt : Z) : outcome Z := fdt32_ld m (fdt + 32).
Definition fdt_offset_ptr_ (m : mem) (fdt offset : Z) : outcome Z := o ← fdt_off_dt_struct m fdt; Ok (fdt + o + offset).

(** A big number of [size] cells, and where the next one starts.  A negative size
    runs over the end of memory. *)
Fixpoint of_read_number_loop (size : nat) (m : mem) (cell r : Z) : outcome Z :=
  match size with
  | O => Ok r
  | S size => c ← be32_to_cpup m cell; of_read_number_loop size m (cell + 4) (Z.lor (u64 (Z.shiftl r 32)) c)
  end.
Definition of_read_number (m : mem) (cell size : Z) : outcome Z := if size <? 0 then Fault else of_read_number_loop (Z.to_nat size) m cell 0.
Definition dt_mem_next_cell (m : mem) (s cellp : Z) : outcome (Z * Z) := v ← of_read_number m cellp s; Ok (v, cellp + 4 * s).

Definition fdt_check_header (m : mem) (fdt : Z) : outcome Z :=
  g ← fdt_magic m fdt; Ok (if negb (g =? FDT_MAGIC) then - FDT_ERR_BADMAGIC else 0).

Section Walk.
  Context (fuel : nat) (m : mem) (fdt : Z).

(** The name and its length. *)
Definition fdt_get_name (nodeoffset : Z) : outcome (Z * Z) :=
  nh ← fdt_offset_ptr_ m fdt nodeoffset;
  let nameptr := nh + 4 in
  len ← strlen fuel m nameptr;
  Ok (nameptr, len).

Fixpoint skip_name (f : nat) (offset : Z) : outcome Z :=
  match f with
  | O => NoFuel
  | S f => p ← fdt_offset_ptr_ m fdt offset; c ← load8 m p; if negb (c =? 0) then skip_name f (offset + 1) else Ok (offset + 1)
  end.
Definition fdt_next_tag (startoffset : Z) (nextoffset : option Z) : outcome (Z * option Z) :=
  tagp ← fdt_offset_ptr_ m fdt startoffset;
  tag ← be32_to_cpup m tagp;
  let offset := startoffset + FDT_TAGSIZE in
  let next offset := Ok (tag, Some (s32 (FDT_TAGALIGN offset))) in
  if tag =? FDT_BEGIN_NODE then offset ← skip_name fuel offset; next offset
  else if tag =? FDT_PROP then
    lenp ← fdt_offset_ptr_ m fdt offset;
    len ← be32_to_cpup m lenp;
    next (s32 (offset + (SIZEOF_FDT_PROPERTY - FDT_TAGSIZE + len)))
  else if (tag =? FDT_END) || (tag =? FDT_END_NODE) || (tag =? FDT_NOP) then next offset
  else Ok (FDT_END, nextoffset).

(** The loop of [fdt_next_node]: [nextoffset] is where the next token is. *)
Fixpoint next_node_loop (f : nat) (nextoffset : option Z) (depth : option Z) : outcome (Z * option Z) :=
  match f with
  | O => NoFuel
  | S f =>
      offset ← deref nextoffset;
      '(tag, nextoffset) ← fdt_next_tag offset nextoffset;
      if tag =? FDT_BEGIN_NODE then Ok (offset, d ← depth; Some (d + 1))
      else if tag =? FDT_END_NODE then
        match depth with
        | Some d => if d - 1 <? 0 then n ← deref nextoffset; Ok (n, Some (d - 1)) else next_node_loop f nextoffset (Some (d - 1))
        | None => next_node_loop f nextoffset depth
        end
      else if tag =? FDT_END then
        n ← deref nextoffset;
        Ok (if (0 <=? n) || ((n =? - FDT_ERR_TRUNCATED) && match depth with None => true | Some _ => false end) then - FDT_ERR_NOTFOUND else n, depth)
      else next_node_loop f nextoffset depth
  end.
Definition fdt_next_node (offset : Z) (depth : option Z) : outcome (Z * option Z) :=
  let nextoffset := Some 0 in
  nextoffset ← (if 0 <=? offset then r ← fdt_next_tag offset nextoffset; Ok r.2 else Ok nextoffset);
  next_node_loop fuel nextoffset depth.

Fixpoint nextprop_loop (f : nat) (offset : Z) (nextoffset : option Z) : outcome Z :=
  match f with
  | O => NoFuel
  | S f =>
      '(tag, nextoffset) ← fdt_next_tag offset nextoffset;
      if tag =? FDT_END then n ← deref nextoffset; Ok (if 0 <=? n then - FDT_ERR_BADSTRUCTURE else n)
      else if tag =? FDT_PROP then Ok offset
      else offset ← deref nextoffset; if tag =? FDT_NOP then nextprop_loop f offset (Some offset) else Ok (- FDT_ERR_NOTFOUND)
  end.
Definition nextprop_ (offset : Z) : outcome Z := nextprop_loop fuel offset None.
Definition fdt_first_property_offset (nodeoffset : Z) : outcome Z :=
  '(_, offset) ← fdt_next_tag nodeoffset None; offset ← deref offset; nextprop_ offset.
Definition fdt_next_property_offset (offset : Z) : outcome Z :=
  '(_, offset) ← fdt_next_tag offset (Some offset); offset ← deref offset; nextprop_ offset.

(** The property and the length of its value. *)
Definition fdt_get_property_by_offset_ (offset : Z) : outcome (Z * Z) :=
  prop ← fdt_offset_ptr_ m fdt offset; len ← fdt32_ld m (prop + 4); Ok (prop, s32 len).
Definition fdt_get_string (stroffset : Z) : outcome (Z * Z) :=
  o ← fdt_off_dt_strings m fdt;
  let absoffset := u32 (stroffset + o) in
  sz ← fdt_size_dt_strings m fdt;
  let len := u32 (sz - stroffset) in
  let s := fdt + absoffset in
  n ← memchr m s 0 len;
  Ok (s, s32 (n - s)).
Definition fdt_string_eq_ (stroffset s len : Z) : outcome bool :=
  '(p, slen) ← fdt_get_string stroffset;
  if negb (p =? 0) && (slen =? len) then r ← memcmp m p s len; Ok (r =? 0) else Ok false.

(** The property, if there is one, and the length or the error. *)
Fixpoint get_property_loop (f : nat) (offset name namelen : Z) : outcome (option Z * Z) :=
  match f with
  | O => NoFuel
  | S f =>
      if 0 <=? offset then
        '(prop, len) ← fdt_get_property_by_offset_ offset;
        nameoff ← fdt32_ld m (prop + 8);
        eq ← fdt_string_eq_ (s32 nameoff) name namelen;
        if (eq : bool) then Ok (Some prop, len)
        else offset ← fdt_next_property_offset offset; get_property_loop f offset name namelen
      else Ok (None, offset)
  end.
Definition fdt_get_property_namelen_ (offset name namelen : Z) : outcome (option Z * Z) :=
  offset ← fdt_first_property_offset offset; get_property_loop fuel offset name namelen.
(** A null pointer is 0. *)
Definition fdt_getprop_namelen (nodeoffset name namelen : Z) : outcome (Z * Z) :=
  '(prop, len) ← fdt_get_property_namelen_ nodeoffset name namelen;
  Ok (match prop with Some prop => prop + SIZEOF_FDT_PROPERTY | None => 0 end, len).
Definition fdt_getprop (nodeoffset name : Z) : outcome (Z * Z) := len ← strlen fuel m name; fdt_getprop_namelen nodeoffset name len.
Definition of_get_flat_dt_prop (node name : Z) : outcome (Z * Z) := fdt_getprop node name.
End Walk.

(** ** Scanning at boot *)

(** What the scan finds out: the cells of the root, the memory and the command line. *)
Record dt_globals := DtGlobals {
  dt_mem : mem; initial_boot_params : Z; dt_root_addr_cells : Z; dt_root_size_cells : Z; dt_memory_base : Z; dt_memory_size : Z; boot_command_line : Z }.
Definition set_mem (g : dt_globals) (m : mem) : dt_globals := DtGlobals m (initial_boot_params g) (dt_root_addr_cells g) (dt_root_size_cells g) (dt_memory_base g) (dt_memory_size g) (boot_command_line g).
Definition set_params (g : dt_globals) (p : Z) : dt_globals := DtGlobals (dt_mem g) p (dt_root_addr_cells g) (dt_root_size_cells g) (dt_memory_base g) (dt_memory_size g) (boot_command_line g).
Definition set_cells (g : dt_globals) (a s : Z) : dt_globals := DtGlobals (dt_mem g) (initial_boot_params g) a s (dt_memory_base g) (dt_memory_size g) (boot_command_line g).
Definition set_memory (g : dt_globals) (b s : Z) : dt_globals := DtGlobals (dt_mem g) (initial_boot_params g) (dt_root_addr_cells g) (dt_root_size_cells g) b s (boot_command_line g).
Abbreviation DT := (ST dt_globals).

Section Scan.
  (** [phys_offset] is where the kernel was loaded. *)
  Context (fuel : nat) (lit : string -> Z) (phys_offset : Z).

(** A callback is given the node, its name and its depth. *)
Fixpoint scan_loop (f : nat) (cb : Z -> Z -> Z -> DT Z) (blob offset depth rc : Z) : DT Z :=
  match f with
  | O => fun _ => NoFuel
  | S f =>
      if (0 <=? offset) && (0 <=? depth) && (rc =? 0) then
        g ← st_get;
        '(pathp, _) ← st_lift (fdt_get_name fuel (dt_mem g) blob offset);
        rc ← cb offset pathp depth;
        g ← st_get;
        '(offset, depth) ← st_lift (fdt_next_node fuel (dt_mem g) blob offset (Some depth));
        depth ← st_lift (deref depth);
        scan_loop f cb blob offset depth rc
      else mret rc
  end.
Definition of_scan_flat_dt (cb : Z -> Z -> Z -> DT Z) : DT Z :=
  g ← st_get;
  let blob := initial_boot_params g in
  if blob =? 0 then mret 0
  else
    '(offset, depth) ← st_lift (fdt_next_node fuel (dt_mem g) blob (-1) (Some (-1)));
    depth ← st_lift (deref depth);
    scan_loop fuel cb blob offset depth 0.

Definition get_flat_prop (node : Z) (name : string) : DT (Z * Z) := g ← st_get; st_lift (of_get_flat_dt_prop fuel (dt_mem g) (initial_boot_params g) node (lit name)).

Definition early_init_dt_add_memory_arch (base size : Z) : DT unit :=
  let low := Z.land base (PAGE_SIZE - 1) in
  if size <? PAGE_SIZE - low then mret tt
  else
    let '(base, size) := if negb (low =? 0) then (_ALIGN base PAGE_SIZE, u64 (size - (PAGE_SIZE - low))) else (base, size) in
    let size := Z.land size (u64 (Z.lnot (PAGE_SIZE - 1))) in
    if ULONG_MAX <? base then mret tt
    else
      let size := if ULONG_MAX <? u64 (base + size - 1) then u64 (ULONG_MAX - base + 1) else size in
      if u64 (base + size) <? phys_offset then mret tt
      else
        let '(base, size) := if base <? phys_offset then (phys_offset, u64 (size - (phys_offset - base))) else (base, size) in
        g ← st_get; st_put (set_memory g base size).

Definition early_init_dt_scan_root (node uname depth : Z) : DT Z :=
  if negb (depth =? 0) then mret 0
  else
    g ← st_get;
    st_put (set_cells g OF_ROOT_NODE_ADDR_CELLS_DEFAULT OF_ROOT_NODE_SIZE_CELLS_DEFAULT);;
    '(prop, _) ← get_flat_prop node "#size-cells";
    (if negb (prop =? 0) then g ← st_get; c ← st_lift (be32_to_cpup (dt_mem g) prop); st_put (set_cells g (dt_root_addr_cells g) (s32 c)) else mret tt);;
    '(prop, _) ← get_flat_prop node "#address-cells";
    (if negb (prop =? 0) then g ← st_get; c ← st_lift (be32_to_cpup (dt_mem g) prop); st_put (set_cells g (s32 c) (dt_root_size_cells g)) else mret tt);;
    mret 1.

(** The loop over the ranges of a memory node; pointers are to words. *)
Fixpoint reg_loop (f : nat) (reg endp : Z) : DT unit :=
  match f with
  | O => fun _ => NoFuel
  | S f =>
      g ← st_get;
      if s32 (dt_root_addr_cells g + dt_root_size_cells g) <=? (endp - reg) / 4 then
        '(base, reg) ← st_lift (dt_mem_next_cell (dt_mem g) (dt_root_addr_cells g) reg);
        '(size, reg) ← st_lift (dt_mem_next_cell (dt_mem g) (dt_root_size_cells g) reg);
        (if size =? 0 then mret tt else early_init_dt_add_memory_arch base size);;
        reg_loop f reg endp
      else mret tt
  end.
Definition early_init_dt_scan_memory (node uname depth : Z) : DT Z :=
  '(type, _) ← get_flat_prop node "device_type";
  g ← st_get;
  skip ← st_lift (if type =? 0 then Ok true else r ← strcmp fuel (dt_mem g) type (lit "memory"); Ok (negb (r =? 0)));
  if (skip : bool) then mret 0
  else
    '(reg, len) ← get_flat_prop node "reg";
    if reg =? 0 then mret 0
    else
      let endp := reg + 4 * (u64 len / 4) in
      reg_loop fuel reg endp;;
      mret 0.

Definition early_init_dt_scan_chosen (data node uname depth : Z) : DT Z :=
  g ← st_get;
  skip ← st_lift (if negb (depth =? 1) || (data =? 0) then Ok true
                  else r ← strcmp fuel (dt_mem g) uname (lit "chosen");
                       if negb (r =? 0) then r ← strcmp fuel (dt_mem g) uname (lit "chosen@0"); Ok (negb (r =? 0)) else Ok false);
  if (skip : bool) then mret 0
  else
    '(p, l) ← get_flat_prop node "bootargs";
    (if negb (p =? 0) && (0 <? l) then
       g ← st_get;
       '(_, m) ← st_lift (strlcpy fuel (dt_mem g) data p (min l COMMAND_LINE_SIZE));
       st_put (set_mem g m)
     else mret tt);;
    mret 1.

Definition early_init_dt_verify (dtb_early_va : Z) : DT bool :=
  if dtb_early_va =? 0 then st_panic "dtb_early_va is NULL!"
  else
    g ← st_get;
    e ← st_lift (fdt_check_header (dt_mem g) dtb_early_va);
    if negb (e =? 0) then mret false else st_put (set_params g dtb_early_va);; mret true.
Definition early_init_dt_scan_nodes : DT unit :=
  g ← st_get;
  found ← of_scan_flat_dt (early_init_dt_scan_chosen (boot_command_line g));
  if found =? 0 then st_panic "No chosen node found!"
  else
    of_scan_flat_dt early_init_dt_scan_root;;
    of_scan_flat_dt early_init_dt_scan_memory;;
    mret tt.
End Scan.
