(* ===== verification/FdtSpec.v ===== *)
(** * The flattened device tree: what the walk finds

    The format of a blob, as lists of bytes, and the tree it stands for.  On a
    blob that encodes a tree the walk visits the nodes in their order with their
    depth, and the properties of a node in theirs. *)

From Stdlib Require Import ZArith Lia Bool.
From stdpp Require Import base tactics numbers list gmap strings.
From S2P Require Import Prelude Words Mem LibString Memblock Fdt.

(** ** The format *)

Definition be32 (x : Z) : list Z := [x / 2 ^ 24 mod 256; x / 2 ^ 16 mod 256; x / 2 ^ 8 mod 256; x mod 256].
(** Padding to a multiple of four bytes. *)
Definition padding (n : nat) : nat := Z.to_nat ((- Z.of_nat n) mod 4).
Definition pad4 (l : list Z) : list Z := l ++ replicate (padding (length l)) 0.

(** A property: the offset of its name in the block of names, its name and value. *)
Record fprop := FProp { fp_off : Z; fp_name : list Z; fp_val : list Z }.
Inductive ftree := FNode (name : list Z) (props : list fprop) (kids : list ftree).

Inductive item := TBegin (name : list Z) | TProp (p : fprop) | TEnd | TFin.
Definition enc (i : item) : list Z :=
  match i with
  | TBegin name => be32 FDT_BEGIN_NODE ++ pad4 (name ++ [0])
  | TProp p => be32 FDT_PROP ++ be32 (Z.of_nat (length (fp_val p))) ++ be32 (fp_off p) ++ pad4 (fp_val p)
  | TEnd => be32 FDT_END_NODE
  | TFin => be32 FDT_END
  end.
Definition encs (l : list item) : list Z := concat (enc <$> l).
Fixpoint tokens (t : ftree) : list item :=
  match t with FNode name props kids => TBegin name :: (TProp <$> props) ++ concat (tokens <$> kids) ++ [TEnd] end.
Definition ilen (i : item) : Z := Z.of_nat (length (enc i)).
Definition len (l : list item) : Z := Z.of_nat (length (encs l)).

(** Induction over a tree and its children. *)
Section TreeInd.
  Context (P : ftree -> Prop) (H : forall name props kids, Forall P kids -> P (FNode name props kids)).
Fixpoint ftree_nested_ind (t : ftree) : P t :=
  match t with
  | FNode name props kids => H name props kids
      ((fix go (l : list ftree) : Forall P l := match l with [] => Forall_nil_2 _ | t :: l => Forall_cons_2 _ _ _ (ftree_nested_ind t) (go l) end) kids)
  end.
End TreeInd.

Definition item_ok (names_end : Z) (i : item) : Prop :=
  match i with
  | TBegin name => Forall char_ok name
  | TProp p => Forall char_ok (fp_name p) /\ Forall byte_ok (fp_val p) /\ 0 <= fp_off p /\ fp_off p + Z.of_nat (length (fp_name p)) < names_end
  | _ => True
  end.

(** A blob at [fdt] whose tokens are [l]: its header, tokens and names. *)
Record blob (m : mem) (fdt os ostr names_end : Z) (l : list item) : Prop := {
  bl_pos : 0 < fdt;
  bl_os : 0 <= os < 2 ^ 32 /\ bytes_at m (fdt + 8) (be32 os);
  bl_ostr : 0 <= ostr /\ 0 <= names_end /\ names_end < 2 ^ 31 /\ ostr + names_end < 2 ^ 32 /\ bytes_at m (fdt + 12) (be32 ostr) /\ bytes_at m (fdt + 32) (be32 names_end);
  bl_size : len l < 2 ^ 31 - 4;
  bl_tokens : bytes_at m (fdt + os) (encs l);
  bl_ok : Forall (item_ok names_end) l;
  bl_names : forall p, TProp p ∈ l -> bytes_at m (fdt + ostr + fp_off p) (fp_name p ++ [0]) }.

(** ** Words *)

Lemma be32_length x : length (be32 x) = 4%nat.
Proof. reflexivity. Qed.
Lemma byte_of x k : 0 <= x / 2 ^ k mod 256 < 256.
Proof. apply Z.mod_pos_bound. lia. Qed.
Lemma be32_sum x : 0 <= x < 2 ^ 32 -> x = (x / 2 ^ 24 mod 256) * 2 ^ 24 + (x / 2 ^ 16 mod 256) * 2 ^ 16 + (x / 2 ^ 8 mod 256) * 2 ^ 8 + x mod 256.
Proof. intros Hx. change (2 ^ 32) with 4294967296 in Hx. change (2 ^ 24) with 16777216. change (2 ^ 16) with 65536. change (2 ^ 8) with 256. Z.div_mod_to_equations. lia. Qed.

(** Bytes put together by shifts. *)
Lemma or_shift a b k : 0 <= k -> 0 <= b < 2 ^ k -> Z.lor (a * 2 ^ k) b = a * 2 ^ k + b.
Proof.
  intros Hk Hb. apply lor_add_disjoint. bits j Hj. rewrite Z.bits_0. destruct (Z.lt_ge_cases j k).
  - rewrite Z.mul_pow2_bits_low by lia. reflexivity.
  - destruct (Z.eq_dec b 0) as [->|]; [rewrite Z.bits_0; apply andb_false_r|]. rewrite (Z.bits_above_log2 b j); [apply andb_false_r|lia|]. assert (Z.log2 b < k) by (apply Z.log2_lt_pow2; lia). lia.
Qed.
Lemma fdt32_ld_ok m p x : 0 <= x < 2 ^ 32 -> bytes_at m p (be32 x) -> fdt32_ld m p = Ok x.
Proof.
  intros Hx (B0 & B1 & B2 & B3 & _). replace (p + 1 + 1) with (p + 2) in * by lia. replace (p + 2 + 1) with (p + 3) in * by lia.
  unfold fdt32_ld. rewrite (load8_ok _ _ _ B0), (load8_ok _ _ _ B1), (load8_ok _ _ _ B2), (load8_ok _ _ _ B3). cbn [mbind outcome_bind]. f_equal.
  pose proof (byte_of x 24). pose proof (byte_of x 16). pose proof (byte_of x 8). pose proof (byte_of x 0) as Hb. rewrite Z.div_1_r in Hb. pose proof (be32_sum x Hx).
  set (a := x / 2 ^ 24 mod 256) in *. set (b := x / 2 ^ 16 mod 256) in *. set (c := x / 2 ^ 8 mod 256) in *. rewrite !Z.shiftl_mul_pow2 by lia. rewrite (or_shift a (b * 2 ^ 16)) by lia.
  replace (a * 2 ^ 24 + b * 2 ^ 16) with ((a * 2 ^ 8 + b) * 2 ^ 16) by lia. rewrite (or_shift (a * 2 ^ 8 + b) (c * 2 ^ 8)) by lia.
  replace ((a * 2 ^ 8 + b) * 2 ^ 16 + c * 2 ^ 8) with ((a * 2 ^ 16 + b * 2 ^ 8 + c) * 2 ^ 8) by lia. rewrite or_shift by lia. lia.
Qed.
Lemma swab32_ok a b c d : byte_ok a -> byte_ok b -> byte_ok c -> byte_ok d ->
  swab32 (a + 256 * (b + 256 * (c + 256 * (d + 256 * 0)))) = a * 2 ^ 24 + b * 2 ^ 16 + c * 2 ^ 8 + d.
Proof.
  unfold byte_ok. intros Ha Hb Hc Hd. unfold swab32. set (x := a + 256 * (b + 256 * (c + 256 * (d + 256 * 0)))).
  assert (forall k, 0 <= k -> Z.land x (255 * 2 ^ k) = (x / 2 ^ k mod 256) * 2 ^ k) as Hl.
  { intros k Hk. replace (255 * 2 ^ k) with (Z.shiftl (2 ^ 8 - 1) k) by (rewrite Z.shiftl_mul_pow2 by lia; reflexivity). change 256 with (2 ^ 8) at 1. rewrite <- land_ones_mod, <- Z.shiftr_div_pow2, <- Z.shiftl_mul_pow2 by lia.
    bits j Hj. destruct (Z.lt_ge_cases j k); [rewrite !Z.shiftl_spec_low by lia; apply andb_false_r|]. rewrite !Z.shiftl_spec_high by lia. rewrite Z.land_spec, Z.shiftr_spec by lia. f_equal. f_equal. lia. }
  assert (x mod 256 = a /\ x / 2 ^ 8 mod 256 = b /\ x / 2 ^ 16 mod 256 = c /\ x / 2 ^ 24 mod 256 = d) as (E0 & E1 & E2 & E3).
  { unfold x. change (2 ^ 8) with 256. change (2 ^ 16) with 65536. change (2 ^ 24) with 16777216. Z.div_mod_to_equations. lia. }
  pose proof (Hl 0 ltac:(lia)) as L0. pose proof (Hl 8 ltac:(lia)) as L1. pose proof (Hl 16 ltac:(lia)) as L2. pose proof (Hl 24 ltac:(lia)) as L3. rewrite Z.div_1_r, E0 in L0. rewrite E1 in L1. rewrite E2 in L2. rewrite E3 in L3.
  change (255 * 2 ^ 0) with 0xff in L0. change (255 * 2 ^ 8) with 0xff00 in L1. change (255 * 2 ^ 16) with 0xff0000 in L2. change (255 * 2 ^ 24) with 0xff000000 in L3. rewrite L0, L1, L2, L3.
  rewrite !Z.shiftl_mul_pow2, !Z.shiftr_div_pow2 by lia. replace (c * 2 ^ 16 / 2 ^ 8) with (c * 2 ^ 8) by (replace (c * 2 ^ 16) with (c * 2 ^ 8 * 2 ^ 8) by lia; rewrite Z.div_mul by lia; reflexivity). rewrite Z.div_mul by lia.
  replace (b * 2 ^ 8 * 2 ^ 8) with (b * 2 ^ 16) by lia. change (2 ^ 0) with 1. rewrite Z.mul_1_r. rewrite (or_shift a (b * 2 ^ 16)) by lia.
  replace (a * 2 ^ 24 + b * 2 ^ 16) with ((a * 2 ^ 8 + b) * 2 ^ 16) by lia. rewrite (or_shift (a * 2 ^ 8 + b) (c * 2 ^ 8)) by lia.
  replace ((a * 2 ^ 8 + b) * 2 ^ 16 + c * 2 ^ 8) with ((a * 2 ^ 16 + b * 2 ^ 8 + c) * 2 ^ 8) by lia. rewrite or_shift by lia. lia.
Qed.
Lemma be32_to_cpup_ok m p x : 0 <= x < 2 ^ 32 -> bytes_at m p (be32 x) -> be32_to_cpup m p = Ok x.
Proof.
  intros Hx Hb. unfold be32_to_cpup. pose proof (load_le_spec m p (be32 x) Hb) as E. change (length (be32 x)) with 4%nat in E. rewrite E. cbn [mbind outcome_bind]. f_equal. unfold be32. cbn [le_word].
  rewrite swab32_ok by (unfold byte_ok; first [apply byte_of|apply Z.mod_pos_bound; lia]). symmetry. apply be32_sum, Hx.
Qed.

(** ** Tokens *)

Lemma up4 n : 0 <= n -> (n + (- n) mod 4) mod 4 = 0 /\ 0 <= (- n) mod 4 < 4.
Proof. intros. split; [|apply Z.mod_pos_bound; lia]. Z.div_mod_to_equations. lia. Qed.
Lemma pad4_length l : Z.of_nat (length (pad4 l)) = Z.of_nat (length l) + (- Z.of_nat (length l)) mod 4.
Proof. unfold pad4, padding. rewrite length_app, length_replicate. pose proof (up4 (Z.of_nat (length l)) ltac:(lia)). lia. Qed.
Lemma pad4_mod l : Z.of_nat (length (pad4 l)) mod 4 = 0.
Proof. rewrite pad4_length. apply up4. lia. Qed.
Lemma tagalign_ok x : 0 <= x < 2 ^ 31 - 4 -> s32 (FDT_TAGALIGN x) = x + (- x) mod 4.
Proof.
  intros Hx. unfold FDT_TAGALIGN, FDT_ALIGN, FDT_TAGSIZE. change (4 - 1) with (2 ^ 2 - 1). rewrite land_not_ones by (try apply u64_range; lia). rewrite u64_small by (unfold is_u64; lia).
  change (2 ^ 2) with 4. pose proof (up4 x ltac:(lia)) as [_ ?]. assert (x + 4 - 1 - (x + 4 - 1) mod 4 = x + (- x) mod 4) as -> by (Z.div_mod_to_equations; lia). apply s32_small. lia.
Qed.
Lemma ilen_begin name : ilen (TBegin name) = 4 + Z.of_nat (length (pad4 (name ++ [0]))).
Proof. unfold ilen, enc. rewrite length_app. cbn [length be32]. lia. Qed.
Lemma ilen_prop p : ilen (TProp p) = 12 + Z.of_nat (length (pad4 (fp_val p))).
Proof. unfold ilen, enc. rewrite !length_app. cbn [length be32]. lia. Qed.
Lemma ilen_facts i : 4 <= ilen i /\ ilen i mod 4 = 0.
Proof.
  destruct i as [name|p| |]; [rewrite ilen_begin; pose proof (pad4_mod (name ++ [0]))|rewrite ilen_prop; pose proof (pad4_mod (fp_val p))|vm_compute; split; congruence|vm_compute; split; congruence].
  all: split; [lia|]; Z.div_mod_to_equations; lia.
Qed.
Lemma len_cons i l : len (i :: l) = ilen i + len l.
Proof. unfold len, ilen, encs. rewrite fmap_cons. cbn [concat]. rewrite length_app. lia. Qed.
Lemma len_app l1 l2 : len (l1 ++ l2) = len l1 + len l2.
Proof. induction l1 as [|i l1 IH]; [reflexivity|]. rewrite <- app_comm_cons, !len_cons, IH. lia. Qed.
Lemma len_facts l : 0 <= len l /\ len l mod 4 = 0.
Proof. induction l as [|i l [IH1 IH2]]; [split; [unfold len; lia|reflexivity]|]. rewrite len_cons. destruct (ilen_facts i). split; [lia|]. Z.div_mod_to_equations. lia. Qed.
Lemma encs_cons i l : encs (i :: l) = enc i ++ encs l.
Proof. reflexivity. Qed.
Lemma encs_app l1 l2 : encs (l1 ++ l2) = encs l1 ++ encs l2.
Proof. unfold encs. rewrite fmap_app, concat_app. reflexivity. Qed.

Lemma items_le l : Z.of_nat (length l) <= len l.
Proof. induction l as [|i l IH]; [unfold len; cbn; lia|]. rewrite len_cons. destruct (ilen_facts i). cbn [length]. lia. Qed.

Section Place.
  Context {all : list item}.

(** The items [l] are at offset [o], up to the end. *)
Record at_items (o : Z) (l : list item) : Prop := {
  he_pos : 0 <= o /\ o mod 4 = 0 /\ o + len l = len all;
  he_sub : exists pre, all = pre ++ l }.

Lemma here_start : at_items 0 all.
Proof. split; [split; [lia|]; split; reflexivity|exists []; reflexivity]. Qed.
Lemma here_next o i l : at_items o (i :: l) -> at_items (o + ilen i) l.
Proof.
  intros [(H1 & H2 & H3) [pre E]]. rewrite len_cons in H3. destruct (ilen_facts i). split; [|exists (pre ++ [i]); rewrite <- app_assoc; exact E].
  split; [lia|]. split; [Z.div_mod_to_equations; lia|lia].
Qed.
Lemma here_app o l1 l2 : at_items o (l1 ++ l2) -> at_items (o + len l1) l2.
Proof.
  revert o. induction l1 as [|i l1 IH]; intros o H; [unfold len; cbn; rewrite Z.add_0_r; exact H|]. rewrite len_cons, Z.add_assoc. apply IH. apply (here_next o i), H.
Qed.
Lemma here_elem o i l : at_items o (i :: l) -> i ∈ all.
Proof. intros [_ [pre ->]]. apply elem_of_app. right. left. Qed.
End Place.
Arguments at_items all o l : clear implicits.

Section Cursor.
  Context (fuel : nat) (m : mem) (fdt os ostr names_end : Z) (all : list item) (B : blob m fdt os ostr names_end all) (Hfuel : len all < Z.of_nat fuel).
  Abbreviation here := (at_items all).
  #[local] Set Default Proof Using "All".

Lemma here_bytes o l : here o l -> bytes_at m (fdt + os + o) (encs l).
Proof.
  intros [(H1 & H2 & H3) [pre E]]. pose proof (bl_tokens _ _ _ _ _ _ B) as Hb. rewrite E, encs_app, bytes_at_app in Hb. destruct Hb as [_ Hb]. fold (len pre) in Hb.
  replace o with (len pre); [exact Hb|]. rewrite E, len_app in H3. lia.
Qed.
Lemma here_bound o i l : here o (i :: l) -> o + ilen i < 2 ^ 31 - 4.
Proof. intros [(_ & _ & H3) _]. rewrite len_cons in H3. pose proof (bl_size _ _ _ _ _ _ B). pose proof (len_facts l). lia. Qed.
Lemma here_ok o i l : here o (i :: l) -> item_ok names_end i.
Proof. intros [_ [pre E]]. pose proof (bl_ok _ _ _ _ _ _ B) as H. rewrite E, Forall_app, Forall_cons in H. tauto. Qed.
Lemma here_enc o i l : here o (i :: l) -> bytes_at m (fdt + os + o) (enc i).
Proof. intros H. pose proof (here_bytes o _ H) as Hb. rewrite encs_cons, bytes_at_app in Hb. apply Hb. Qed.

Lemma offset_ptr o : fdt_offset_ptr_ m fdt o = Ok (fdt + os + o).
Proof. destruct (bl_os _ _ _ _ _ _ B) as [H1 H2]. unfold fdt_offset_ptr_, fdt_off_dt_struct. rewrite (fdt32_ld_ok m _ os H1 H2). reflexivity. Qed.

Definition tag_of (i : item) : Z := match i with TBegin _ => FDT_BEGIN_NODE | TProp _ => FDT_PROP | TEnd => FDT_END_NODE | TFin => FDT_END end.

(** Skipping a name: past its terminating zero. *)
Lemma skip_name_ok name : forall f o, bytes_at m (fdt + os + o) (name ++ [0]) -> Forall char_ok name -> (length name < f)%nat -> skip_name m fdt f o = Ok (o + Z.of_nat (length name) + 1).
Proof.
  induction name as [|c name IH]; intros f o Hb Hc Hf; (destruct f as [|f]; [cbn in Hf; lia|]); cbn [skip_name]; rewrite offset_ptr; cbn [mbind outcome_bind]; cbn [app bytes_at] in Hb; destruct Hb as [H0 Hb]; rewrite (load8_ok _ _ _ H0); cbn [mbind outcome_bind].
  - change (negb (0 =? 0)) with false. cbn [length]. f_equal. lia.
  - apply Forall_cons in Hc as [Hc0 Hc]. unfold char_ok in Hc0. destruct (Z.eqb_spec c 0); [lia|]. cbn [negb]. rewrite IH; [f_equal; cbn [length]; lia|rewrite Z.add_assoc; exact Hb|exact Hc|cbn [length] in Hf; lia].
Qed.

Lemma next_tag_ok o i l nx : here o (i :: l) -> fdt_next_tag fuel m fdt o nx = Ok (tag_of i, Some (o + ilen i)).
Proof.
  intros H. pose proof (here_enc o i l H) as He. pose proof (here_bound o i l H) as Hb. pose proof (here_ok o i l H) as Hok. destruct (he_pos _ _ H) as (P1 & P2 & P3). rewrite len_cons in P3. pose proof (len_facts l) as [Hl0 _].
  unfold fdt_next_tag. rewrite (offset_ptr o). cbn [mbind outcome_bind].
  assert (be32_to_cpup m (fdt + os + o) = Ok (tag_of i)) as ->. { apply be32_to_cpup_ok; [destruct i; vm_compute; split; congruence|]. destruct i; cbn [enc] in He; try exact He; apply bytes_at_app in He; apply He. }
  cbn [mbind outcome_bind]. destruct i as [name|p| |]; cbn [tag_of enc] in *.
  - change (FDT_BEGIN_NODE =? FDT_BEGIN_NODE) with true. cbv iota. rewrite bytes_at_app, be32_length in He. destruct He as [_ He]. unfold pad4 in He. rewrite bytes_at_app in He. destruct He as [He _].
    rewrite ilen_begin, pad4_length, length_app in *. cbn [length] in *. change FDT_TAGSIZE with 4. pose proof (up4 (Z.of_nat (length name + 1)) ltac:(lia)).
    rewrite (skip_name_ok name) by (try exact Hok; try lia; rewrite Z.add_assoc; exact He). cbn [mbind outcome_bind]. rewrite tagalign_ok by lia. do 3 f_equal. Z.div_mod_to_equations. lia.
  - change (FDT_PROP =? FDT_BEGIN_NODE) with false. change (FDT_PROP =? FDT_PROP) with true. cbv iota. rewrite offset_ptr. cbn [mbind outcome_bind]. rewrite !bytes_at_app, !be32_length in He. destruct He as (_ & He & _).
    rewrite ilen_prop, pad4_length in *. pose proof (up4 (Z.of_nat (length (fp_val p))) ltac:(lia)). change FDT_TAGSIZE with 4. change SIZEOF_FDT_PROPERTY with 12.
    rewrite (be32_to_cpup_ok m _ (Z.of_nat (length (fp_val p)))) by (try lia; rewrite Z.add_assoc; exact He). cbn [mbind outcome_bind]. rewrite (s32_small (o + 4 + _)) by lia. rewrite tagalign_ok by lia. do 3 f_equal. Z.div_mod_to_equations. lia.
  - change (ilen TEnd) with 4 in *. change FDT_TAGSIZE with 4. cbn. rewrite tagalign_ok by lia. do 3 f_equal. Z.div_mod_to_equations. lia.
  - change (ilen TFin) with 4 in *. change FDT_TAGSIZE with 4. cbn. rewrite tagalign_ok by lia. do 3 f_equal. Z.div_mod_to_equations. lia.
Qed.

(** ** Nodes *)

(** Where the next node is and how deep, from offset [o] at depth [d]. *)
Fixpoint nxt (o d : Z) (l : list item) : Z * Z :=
  match l with
  | [] => (o, d)
  | TBegin _ :: _ => (o, d + 1)
  | TProp p :: l => nxt (o + ilen (TProp p)) d l
  | TEnd :: l => if d - 1 <? 0 then (o + ilen TEnd, d - 1) else nxt (o + ilen TEnd) (d - 1) l
  | TFin :: _ => (- FDT_ERR_NOTFOUND, d)
  end.

Lemma here_items o l : here o l -> (length l < fuel)%nat.
Proof. intros [(H1 & _ & H3) _]. pose proof (items_le l). lia. Qed.

Lemma next_node_loop_ok l : forall f o d, here o l -> TFin ∈ l -> (length l < f)%nat ->
  next_node_loop fuel m fdt f (Some o) (Some d) = Ok ((nxt o d l).1, Some (nxt o d l).2).
Proof.
  induction l as [|i l IH]; intros f o d H Hfin Hf; [inversion Hfin|]. destruct f as [|f]; [cbn in Hf; lia|]. cbn [length] in Hf.
  cbn [next_node_loop deref mbind outcome_bind]. rewrite (next_tag_ok o i l (Some o) H). cbn [mbind outcome_bind]. pose proof (here_next o i l H) as H'. destruct (he_pos _ _ H) as (P1 & _).
  destruct i as [name|p| |]; cbn [tag_of nxt]; [reflexivity| | |].
  - apply IH; [exact H'| |lia]. apply elem_of_cons in Hfin as [|]; [discriminate|assumption].
  - cbn. destruct (d - 1 <? 0); [reflexivity|]. apply IH; [exact H'| |lia]. apply elem_of_cons in Hfin as [|]; [discriminate|assumption].
  - cbn. destruct (Z.leb_spec 0 (o + ilen TFin)); [reflexivity|]. change (ilen TFin) with 4 in *. lia.
Qed.
Lemma next_node_ok o d i l : here o (i :: l) -> TFin ∈ l -> fdt_next_node fuel m fdt o (Some d) = Ok ((nxt (o + ilen i) d l).1, Some (nxt (o + ilen i) d l).2).
Proof.
  intros H Hfin. unfold fdt_next_node. destruct (he_pos _ _ H) as (P1 & _). destruct (Z.leb_spec 0 o); [|lia]. rewrite (next_tag_ok o i l _ H). cbn [mbind outcome_bind snd].
  apply next_node_loop_ok; [apply here_next, H|exact Hfin|]. pose proof (here_items _ _ H). cbn [length] in *. lia.
Qed.
Lemma first_node_ok d : TFin ∈ all -> fdt_next_node fuel m fdt (-1) (Some d) = Ok ((nxt 0 d all).1, Some (nxt 0 d all).2).
Proof. intros Hfin. apply next_node_loop_ok; [apply here_start|exact Hfin|apply (here_items 0), here_start]. Qed.

Lemma get_name_ok o name l : here o (TBegin name :: l) -> fdt_get_name fuel m fdt o = Ok (fdt + os + o + 4, Z.of_nat (length name)) /\ cstr m (fdt + os + o + 4) name.
Proof.
  intros H. pose proof (here_enc o _ l H) as He. cbn [enc] in He. rewrite bytes_at_app, be32_length in He. destruct He as [_ He]. unfold pad4 in He. rewrite bytes_at_app in He. destruct He as [He _].
  assert (cstr m (fdt + os + o + 4) name) as Hc by (split; [exact He|apply (here_ok o _ l H)]). split; [|exact Hc].
  unfold fdt_get_name. rewrite offset_ptr. cbn [mbind outcome_bind]. rewrite (strlen_ok fuel m _ name Hc); [reflexivity|].
  destruct (he_pos _ _ H) as (P1 & _ & P3). rewrite len_cons, ilen_begin, pad4_length, length_app in P3. cbn [length] in P3. pose proof (len_facts l). pose proof (up4 (Z.of_nat (length name + 1)) ltac:(lia)). lia.
Qed.

(** ** Properties *)

(** What follows the properties of a node. *)
Definition after_props (l : list item) : Prop := exists i l', l = i :: l' /\ match i with TBegin _ | TEnd => True | _ => False end.
Definition prop_pos (o : Z) (ps : list fprop) : Z := match ps with [] => - FDT_ERR_NOTFOUND | _ :: _ => o end.
Lemma nextprop_ok o ps l : here o ((TProp <$> ps) ++ l) -> after_props l -> nextprop_ fuel m fdt o = Ok (prop_pos o ps).
Proof.
  intros H (i & l' & -> & Hi). pose proof (here_items _ _ H) as Hf. unfold nextprop_. assert (exists f, fuel = S f) as [f Ef] by (exists (pred fuel); lia).
  replace (nextprop_loop fuel m fdt fuel o None) with (nextprop_loop fuel m fdt (S f) o None) by (f_equal; symmetry; exact Ef). cbn [nextprop_loop]. destruct ps as [|p ps].
  - cbn [fmap list_fmap app] in H. rewrite (next_tag_ok o i l' None H). destruct i; cbn in *; try contradiction; reflexivity.
  - rewrite fmap_cons in H. rewrite (next_tag_ok o (TProp p) _ None H). reflexivity.
Qed.
Lemma first_property_ok o name ps l : here o (TBegin name :: (TProp <$> ps) ++ l) -> after_props l ->
  fdt_first_property_offset fuel m fdt o = Ok (prop_pos (o + ilen (TBegin name)) ps).
Proof. intros H Hl. unfold fdt_first_property_offset. rewrite (next_tag_ok o _ _ None H). cbn [mbind outcome_bind deref]. apply (nextprop_ok _ ps l); [apply here_next, H|exact Hl]. Qed.
Lemma next_property_ok o p ps l : here o ((TProp <$> p :: ps) ++ l) -> after_props l ->
  fdt_next_property_offset fuel m fdt o = Ok (prop_pos (o + ilen (TProp p)) ps).
Proof. rewrite fmap_cons. intros H Hl. unfold fdt_next_property_offset. rewrite (next_tag_ok o _ _ _ H). cbn [mbind outcome_bind deref]. apply (nextprop_ok _ ps l); [apply (here_next o _ _ H)|exact Hl]. Qed.

(** The parts of a property. *)
Lemma prop_bytes o p l : here o (TProp p :: l) -> Z.of_nat (length (fp_val p)) < 2 ^ 31 /\
  fdt_get_property_by_offset_ m fdt o = Ok (fdt + os + o, Z.of_nat (length (fp_val p))) /\ fdt32_ld m (fdt + os + o + 8) = Ok (fp_off p) /\ bytes_at m (fdt + os + o + 12) (fp_val p).
Proof.
  intros H. pose proof (here_enc o _ l H) as He. pose proof (here_bound o _ l H) as Hb. pose proof (here_ok o _ l H) as (K1 & K2 & K3 & K4). destruct (he_pos _ _ H) as (P1 & _). destruct (bl_ostr _ _ _ _ _ _ B) as (_ & _ & Hn & _).
  cbn [enc] in He. rewrite !bytes_at_app, !be32_length in He. destruct He as (_ & H1 & H2 & H3). rewrite ilen_prop, pad4_length in Hb. pose proof (up4 (Z.of_nat (length (fp_val p))) ltac:(lia)). change (Z.of_nat 4) with 4 in *.
  split; [lia|]. split; [|split].
  - unfold fdt_get_property_by_offset_. rewrite offset_ptr. cbn [mbind outcome_bind]. rewrite (fdt32_ld_ok m _ (Z.of_nat (length (fp_val p)))) by (lia || exact H1). cbn [mbind outcome_bind]. rewrite s32_small by lia. reflexivity.
  - apply fdt32_ld_ok; [lia|]. replace (fdt + os + o + 8) with (fdt + os + o + 4 + 4) by lia. exact H2.
  - unfold pad4 in H3. rewrite bytes_at_app in H3. replace (fdt + os + o + 12) with (fdt + os + o + 4 + 4 + 4) by lia. apply H3.
Qed.

Lemma memchr_zero s l : forall n p, bytes_at s p (l ++ [0]) -> Forall char_ok l -> Z.of_nat (length l) < n -> memchr s p 0 n = Ok (p + Z.of_nat (length l)).
Proof.
  intros n p. unfold memchr. intros Hb Hc Hn. assert (length l < Z.to_nat n)%nat as Hn' by lia. clear Hn. revert p Hb. generalize dependent (Z.to_nat n). clear n.
  induction l as [|c l IH]; intros n Hn p Hb; (destruct n as [|n]; [lia|]); cbn [memchr_loop]; cbn [app bytes_at] in Hb; destruct Hb as [H0 Hb]; rewrite (load8_ok _ _ _ H0); cbn [mbind outcome_bind].
  - change (u8 0 =? 0) with true. cbv iota. f_equal. cbn [length]. lia.
  - apply Forall_cons in Hc as [Hc0 Hc]. unfold char_ok in Hc0. change (u8 0) with 0. destruct (Z.eqb_spec 0 c); [lia|]. rewrite IH; [f_equal; cbn [length]; lia|exact Hc|cbn [length] in Hn; lia|exact Hb].
Qed.
Lemma get_string_ok p : TProp p ∈ all -> fdt_get_string m fdt (fp_off p) = Ok (fdt + ostr + fp_off p, Z.of_nat (length (fp_name p))) /\ cstr m (fdt + ostr + fp_off p) (fp_name p).
Proof.
  intros Hp. pose proof (bl_ok _ _ _ _ _ _ B) as Hok. rewrite Forall_forall in Hok. destruct (Hok _ Hp) as (K1 & K2 & K3 & K4). pose proof (bl_names _ _ _ _ _ _ B p Hp) as Hn. destruct (bl_ostr _ _ _ _ _ _ B) as (O1 & O2 & O3 & O4 & O5 & O6).
  split; [|split; assumption]. unfold fdt_get_string, fdt_off_dt_strings, fdt_size_dt_strings. rewrite (fdt32_ld_ok m (fdt + 12) ostr) by (lia || exact O5). cbn [mbind outcome_bind]. rewrite (fdt32_ld_ok m (fdt + 32) names_end) by (lia || exact O6). cbn [mbind outcome_bind].
  unfold u32. rewrite !Z.mod_small by lia. replace (fdt + (fp_off p + ostr)) with (fdt + ostr + fp_off p) by lia. rewrite (memchr_zero m (fp_name p)) by (assumption || lia). cbn [mbind outcome_bind]. rewrite s32_small by lia. do 2 f_equal. lia.
Qed.
Lemma string_eq_ok p name nm : TProp p ∈ all -> cstr m name nm -> fdt_string_eq_ m fdt (fp_off p) name (Z.of_nat (length nm)) = Ok (bool_decide (fp_name p = nm)).
Proof.
  intros Hp [Hb _]. destruct (get_string_ok p Hp) as [E [Hc _]]. unfold fdt_string_eq_. rewrite E. cbn [mbind outcome_bind]. pose proof (bl_pos _ _ _ _ _ _ B). destruct (bl_ostr _ _ _ _ _ _ B) as (O1 & _).
  pose proof (bl_ok _ _ _ _ _ _ B) as Hok. rewrite Forall_forall in Hok. destruct (Hok _ Hp) as (_ & _ & K3 & _). destruct (Z.eqb_spec (fdt + ostr + fp_off p) 0); [lia|]. cbn [negb andb].
  destruct (Z.eqb_spec (Z.of_nat (length (fp_name p))) (Z.of_nat (length nm))) as [El|El].
  - rewrite bytes_at_app in Hb, Hc. destruct (memcmp_ok m _ name (fp_name p) nm (proj1 Hc) (proj1 Hb) ltac:(lia)) as (r & Er & Hr). rewrite <- El, Er. cbn [mbind outcome_bind]. f_equal. destruct (Z.eqb_spec r 0), (bool_decide_reflect (fp_name p = nm)); tauto.
  - f_equal. symmetry. apply bool_decide_eq_false_2. intros E2. apply El. rewrite E2. reflexivity.
Qed.

(** The first property of that name: where its value is, and the value. *)
Fixpoint find_prop (o : Z) (ps : list fprop) (nm : list Z) : option (Z * list Z) :=
  match ps with
  | [] => None
  | p :: ps => if bool_decide (fp_name p = nm) then Some (fdt + os + o + 12, fp_val p) else find_prop (o + ilen (TProp p)) ps nm
  end.
Definition found (r : option (Z * list Z)) : Z * Z := match r with Some (q, v) => (q, Z.of_nat (length v)) | None => (0, - FDT_ERR_NOTFOUND) end.

Lemma get_property_loop_ok name nm ps : cstr m name nm -> forall f o l, here o ((TProp <$> ps) ++ l) -> after_props l -> (length ps < f)%nat ->
  exists r, get_property_loop fuel m fdt f (prop_pos o ps) name (Z.of_nat (length nm)) = Ok r /\ (match r.1 with Some q => q + 12 | None => 0 end, r.2) = found (find_prop o ps nm).
Proof.
  intros Hname. induction ps as [|p ps IH]; intros f o l H Hl Hf; (destruct f as [|f]; [lia|]); cbn [get_property_loop prop_pos find_prop].
  - exists (None, -1). split; reflexivity.
  - pose proof H as Hc. rewrite fmap_cons in Hc. cbn [app] in Hc. destruct (he_pos _ _ H) as (P1 & _). destruct (Z.leb_spec 0 o); [|lia]. destruct (prop_bytes o p _ Hc) as (Hv & E1 & E2 & _). rewrite E1. cbn [mbind outcome_bind]. rewrite E2. cbn [mbind outcome_bind].
    pose proof (here_ok o _ _ Hc) as (_ & _ & K3 & K4). destruct (bl_ostr _ _ _ _ _ _ B) as (_ & _ & Hn & _). rewrite s32_small by lia. rewrite (string_eq_ok p name nm (here_elem _ _ _ Hc) Hname). cbn [mbind outcome_bind].
    case_bool_decide; [eexists; split; [reflexivity|]; cbn; f_equal; lia|]. rewrite (next_property_ok o p ps l H Hl). cbn [mbind outcome_bind]. apply (IH f (o + ilen (TProp p)) l); [apply (here_next o _ _ Hc)|exact Hl|cbn in Hf; lia].
Qed.
Lemma getprop_ok o node_name ps l name nm : here o (TBegin node_name :: (TProp <$> ps) ++ l) -> after_props l -> cstr m name nm -> (length nm < fuel)%nat ->
  of_get_flat_dt_prop fuel m fdt o name = Ok (found (find_prop (o + ilen (TBegin node_name)) ps nm)).
Proof.
  intros H Hl Hn Hf. unfold of_get_flat_dt_prop, fdt_getprop. rewrite (strlen_ok fuel m name nm Hn Hf). cbn [mbind outcome_bind]. unfold fdt_getprop_namelen, fdt_get_property_namelen_. rewrite (first_property_ok o node_name ps l H Hl). cbn [mbind outcome_bind].
  destruct (get_property_loop_ok name nm ps Hn fuel _ l (here_next _ _ _ H) Hl) as ([q v] & E & R). { pose proof (here_items _ _ H) as Hi. cbn [length] in Hi. rewrite length_app, length_fmap in Hi. lia. }
  rewrite E. cbn [mbind outcome_bind]. f_equal. rewrite <- R. reflexivity.
Qed.
End Cursor.

(** ** The nodes of a tree *)

(** The nodes in their order: offset and depth. *)
Fixpoint begins (o d : Z) (l : list item) : list (Z * Z) :=
  match l with
  | [] => []
  | TBegin name :: l => (o, d + 1) :: begins (o + ilen (TBegin name)) (d + 1) l
  | TProp p :: l => begins (o + ilen (TProp p)) d l
  | TEnd :: l => if d - 1 <? 0 then [] else begins (o + ilen TEnd) (d - 1) l
  | TFin :: _ => []
  end.
(** The same by recursion over the tree: every node before its children. *)
Fixpoint preorder (o d : Z) (t : ftree) : list (Z * Z * ftree) :=
  match t with
  | FNode name props kids =>
      (o, d, t) ::
      (fix go (o : Z) (kids : list ftree) : list (Z * Z * ftree) :=
         match kids with [] => [] | k :: kids => preorder o (d + 1) k ++ go (o + len (tokens k)) kids end)
        (o + ilen (TBegin name) + len (TProp <$> props)) kids
  end.
Fixpoint preorders (o d : Z) (kids : list ftree) : list (Z * Z * ftree) :=
  match kids with [] => [] | k :: kids => preorder o d k ++ preorders (o + len (tokens k)) d kids end.
Lemma preorder_eq o d name props kids :
  preorder o d (FNode name props kids) = (o, d, FNode name props kids) :: preorders (o + ilen (TBegin name) + len (TProp <$> props)) (d + 1) kids.
Proof. cbn [preorder]. f_equal. generalize (o + ilen (TBegin name) + len (TProp <$> props)) as q. induction kids as [|k kids IH]; intros q; cbn; [reflexivity|]. rewrite IH. reflexivity. Qed.

Lemma begins_props ps : forall o d l, begins o d ((TProp <$> ps) ++ l) = begins (o + len (TProp <$> ps)) d l.
Proof.
  induction ps as [|p ps IH]; intros o d l; [unfold len; cbn; rewrite Z.add_0_r; reflexivity|]. rewrite fmap_cons, len_cons. cbn [app begins]. rewrite IH, Z.add_assoc. reflexivity.
Qed.
Lemma tokens_eq name props kids : tokens (FNode name props kids) = TBegin name :: (TProp <$> props) ++ concat (tokens <$> kids) ++ [TEnd].
Proof. reflexivity. Qed.
Lemma len_tokens name props kids : len (tokens (FNode name props kids)) = ilen (TBegin name) + len (TProp <$> props) + len (concat (tokens <$> kids)) + ilen TEnd.
Proof. rewrite tokens_eq, len_cons, !len_app. assert (len [TEnd] = ilen TEnd) as -> by reflexivity. lia. Qed.

(** The nodes of a node that is not the root, then what follows. *)
Lemma begins_tree t : forall o d l, 0 <= d -> begins o d (tokens t ++ l) = (preorder o (d + 1) t).*1 ++ begins (o + len (tokens t)) d l.
Proof.
  induction t as [name props kids IH] using ftree_nested_ind. intros o d l Hd. rewrite preorder_eq, len_tokens, tokens_eq, fmap_cons. cbn [app begins fst]. f_equal. rewrite <- !app_assoc, begins_props.
  assert (forall q, begins q (d + 1) (concat (tokens <$> kids) ++ [TEnd] ++ l) = (preorders q (d + 1 + 1) kids).*1 ++ begins (q + len (concat (tokens <$> kids))) (d + 1) ([TEnd] ++ l)) as Hk.
  { induction IH as [|k kids Hk _ IHk]; intros q; [unfold len; cbn; rewrite Z.add_0_r; reflexivity|]. rewrite fmap_cons. cbn [concat preorders]. rewrite <- app_assoc, Hk by lia. rewrite fmap_app, <- app_assoc. f_equal. rewrite IHk, len_app, Z.add_assoc. reflexivity. }
  set (q := o + ilen (TBegin name) + len (TProp <$> props)). rewrite Hk. f_equal. cbn [app begins]. destruct (Z.ltb_spec (d + 1 - 1) 0); [lia|]. f_equal; unfold q; lia.
Qed.
(** All nodes of the tree of a blob. *)
Lemma begins_root t l : begins 0 (-1) (tokens t ++ l) = (preorder 0 0 t).*1.
Proof.
  destruct t as [name props kids]. rewrite preorder_eq, tokens_eq, fmap_cons. cbn [app begins fst]. f_equal. rewrite <- !app_assoc, begins_props. generalize (0 + ilen (TBegin name) + len (TProp <$> props)) as q.
  induction kids as [|k kids IH]; intros q; [reflexivity|]. rewrite fmap_cons. cbn [concat preorders]. change (-1 + 1) with 0 in *. rewrite <- app_assoc, begins_tree, fmap_app by lia. f_equal. apply IH.
Qed.

(** ** Scanning *)

(** Calling back on each node until one call returns something. *)
Fixpoint visit (cb : Z -> Z -> Z -> DT Z) (base : Z) (l : list (Z * Z)) (rc : Z) : DT Z :=
  match l with
  | [] => mret rc
  | (o, d) :: l => if rc =? 0 then rc ← cb o (base + o + 4) d; visit cb base l rc else mret rc
  end.
Lemma visit_stop cb base l rc : rc <> 0 -> visit cb base l rc = mret rc.
Proof. intros H. destruct l as [|[o d] l]; cbn; [reflexivity|]. destruct (Z.eqb_spec rc 0); [contradiction|reflexivity]. Qed.

Section ScanTree.
  Context (fuel : nat) (fdt os ostr names_end : Z) (all : list item) (Hfuel : len all < Z.of_nat fuel) (cb : Z -> Z -> Z -> DT Z).
  Abbreviation holds g := (blob (dt_mem g) fdt os ostr names_end all).
  (** The callback does not write to the blob. *)
  Context (Hcb : forall o p d g r g', holds g -> cb o p d g = Ok (r, g') -> holds g').

Lemma scan_loop_ok l : forall f o d rc g, holds g -> at_items all o l -> -1 <= d -> TFin ∈ l -> (length l < f)%nat ->
  scan_loop fuel f cb fdt (nxt o d l).1 (nxt o d l).2 rc g = visit cb (fdt + os) (begins o d l) rc g.
Proof.
  induction l as [|i l IH]; intros f o d rc g B H Hd0 Hfin Hf; [inversion Hfin|]. cbn [length] in Hf. destruct (he_pos _ _ H) as (P1 & _).
  assert (i = TFin \/ TFin ∈ l) as Hl by (apply elem_of_cons in Hfin as [E|E]; [left; congruence|right; exact E]). pose proof (here_next o i l H) as H'.
  destruct i as [name|p| |]; cbn [nxt begins].
  - destruct Hl as [|Hl]; [discriminate|]. cbn [fst snd visit]. destruct f as [|f]; [lia|]. cbn [scan_loop]. destruct (Z.leb_spec 0 o); [|lia]. destruct (Z.leb_spec 0 (d + 1)) as [Hd|Hd]; [|lia]. cbn [andb].
    destruct (Z.eqb_spec rc 0); [|reflexivity].
    destruct (get_name_ok fuel (dt_mem g) fdt os ostr names_end all B Hfuel o name l H) as [E _]. rewrite bind_get, (bind_lift _ _ _ _ E). apply bind_ext. intros r g' Ec.
    pose proof (Hcb _ _ _ _ _ _ B Ec) as B'. rewrite bind_get. pose proof (next_node_ok fuel (dt_mem g') fdt os ostr names_end all B' Hfuel o (d + 1) _ l H Hl) as En. rewrite (bind_lift _ _ _ _ En). rewrite (bind_lift _ _ _ (nxt (o + ilen (TBegin name)) (d + 1) l).2) by reflexivity.
    apply IH; [exact B'|exact H'|lia|exact Hl|lia].
  - destruct Hl as [|Hl]; [discriminate|]. apply IH; [exact B|exact H'|lia|exact Hl|lia].
  - destruct Hl as [|Hl]; [discriminate|]. destruct (Z.ltb_spec (d - 1) 0); [|apply IH; [exact B|exact H'|lia|exact Hl|lia]].
    cbn [fst snd visit]. destruct f as [|f]; [lia|]. cbn [scan_loop]. destruct (Z.leb_spec 0 (d - 1)); [lia|]. rewrite andb_false_r. reflexivity.
  - cbn [fst snd visit]. destruct f as [|f]; [lia|]. reflexivity.
Qed.
End ScanTree.

(** A blob that stands for a tree. *)
Definition tree_blob (m : mem) (fdt os ostr names_end : Z) (t : ftree) : Prop := blob m fdt os ostr names_end (tokens t ++ [TFin]).

Lemma after_kids kids l : after_props (concat (tokens <$> kids) ++ TEnd :: l).
Proof. destruct kids as [|[name ps kids'] kids]; [exists TEnd, l; auto|]. rewrite fmap_cons. cbn [concat]. rewrite tokens_eq. eexists _, _. split; [reflexivity|exact Logic.I]. Qed.

(** Every node of the list is where the list says. *)
Lemma preorder_here all t : forall o d l, at_items all o (tokens t ++ l) -> forall o' d' n, (o', d', n) ∈ preorder o d t -> exists l', at_items all o' (tokens n ++ l').
Proof.
  induction t as [name props kids IH] using ftree_nested_ind. intros o d l H o' d' n Hn. rewrite preorder_eq in Hn. apply elem_of_cons in Hn as [[= -> -> ->]|Hn]; [eauto|].
  rewrite tokens_eq, <- app_comm_cons in H. apply here_next in H. rewrite <- !app_assoc in H. apply here_app in H. revert Hn H. generalize (o + ilen (TBegin name) + len (TProp <$> props)) as q. generalize ([TEnd] ++ l) as rest. induction IH as [|k kids Hk _ IHk]; intros rest q Hn H; [inversion Hn|].
  rewrite fmap_cons in H. cbn [concat preorders] in *. rewrite <- app_assoc in H. apply elem_of_app in Hn as [Hn|Hn]; [apply (Hk q _ _ H _ _ _ Hn)|]. apply (IHk rest (q + len (tokens k)) Hn). apply here_app, H.
Qed.

(** On a blob that encodes a device tree, [of_scan_flat_dt] calls back on every
    node of the tree exactly once, parents before children and in the order of the
    source, with its name and its depth, until a call returns something; and at each
    of these nodes [of_get_flat_dt_prop] finds the first property with a given name,
    with its value and length, or reports that there is none. *)
Theorem flat_scan_exact fuel fdt os ostr names_end t cb g :
  let all := tokens t ++ [TFin] in
  len all < Z.of_nat fuel -> initial_boot_params g = fdt -> tree_blob (dt_mem g) fdt os ostr names_end t ->
  (forall o p d g r g', tree_blob (dt_mem g) fdt os ostr names_end t -> cb o p d g = Ok (r, g') -> tree_blob (dt_mem g') fdt os ostr names_end t) ->
  of_scan_flat_dt fuel cb g = visit cb (fdt + os) (preorder 0 0 t).*1 0 g /\
  forall o d name props kids, (o, d, FNode name props kids) ∈ preorder 0 0 t -> fdt_get_name fuel (dt_mem g) fdt o = Ok (fdt + os + o + 4, Z.of_nat (length name)) /\ cstr (dt_mem g) (fdt + os + o + 4) name /\
    forall q nm, cstr (dt_mem g) q nm -> (length nm < fuel)%nat ->
      of_get_flat_dt_prop fuel (dt_mem g) fdt o q = Ok (found (find_prop fdt os (o + ilen (TBegin name)) props nm)).
Proof.
  intros all Hf Ep B Hcb. assert (TFin ∈ all) as Hfin by (apply elem_of_app; right; left). split.
  - unfold of_scan_flat_dt. rewrite bind_get, Ep. destruct (Z.eqb_spec fdt 0) as [E0|_]; [pose proof (bl_pos _ _ _ _ _ _ B); lia|].
    pose proof (first_node_ok fuel (dt_mem g) fdt os ostr names_end all B Hf (-1) Hfin) as En. rewrite (bind_lift _ _ _ _ En). rewrite (bind_lift _ _ _ (nxt 0 (-1) all).2) by reflexivity.
    rewrite <- (begins_root t [TFin]). apply (scan_loop_ok fuel fdt os ostr names_end all Hf cb Hcb); [exact B|apply here_start|lia|exact Hfin|]. apply Nat2Z.inj_lt. eapply Z.le_lt_trans; [apply items_le|exact Hf].
  - intros o d name props kids Hn. destruct (preorder_here all t 0 0 [TFin] here_start _ _ _ Hn) as [l' H]. rewrite tokens_eq, <- app_comm_cons in H.
    destruct (get_name_ok fuel (dt_mem g) fdt os ostr names_end all B Hf o name _ H) as [E1 E2]. split; [exact E1|]. split; [exact E2|]. intros q nm Hq Hl. rewrite <- !app_assoc in H.
    apply (getprop_ok fuel (dt_mem g) fdt os ostr names_end all B Hf o name props _ q nm H); [apply after_kids|exact Hq|exact Hl].
Qed.

(** ** Memory *)

(** A page of the reported range at or above the load address. *)
Definition whole_page (base size phys_offset p : Z) : Prop := p mod PAGE_SIZE = 0 /\ phys_offset <= p /\ base <= p /\ p + PAGE_SIZE <= base + size.

(** C37: of the range that the device tree reports, the memory recorded is exactly the
    whole pages at or above the address where the kernel was loaded; nothing is
    recorded only if there are none. *)
Theorem memory_whole_pages base size phys_offset g : 0 <= base -> 0 < size -> base + size < 2 ^ 64 - PAGE_SIZE -> 0 <= phys_offset < 2 ^ 64 -> phys_offset mod PAGE_SIZE = 0 ->
  exists g', early_init_dt_add_memory_arch phys_offset base size g = Ok (tt, g') /\
    ((g' = g /\ (forall p, ~ whole_page base size phys_offset p)) \/
     (exists b s, g' = set_memory g b s /\ b mod PAGE_SIZE = 0 /\ s mod PAGE_SIZE = 0 /\ forall p, p mod PAGE_SIZE = 0 -> whole_page base size phys_offset p <-> b <= p /\ p + PAGE_SIZE <= b + s)).
Proof.
  unfold whole_page. intros Hb Hs Hsum Hp Hpm. unfold early_init_dt_add_memory_arch. change PAGE_SIZE with 4096 in *. change (4096 - 1) with (2 ^ 12 - 1). rewrite land_ones_mod by lia. change (2 ^ 12) with 4096.
  pose proof (Z.mod_pos_bound base 4096 ltac:(lia)) as Hlow. set (low := base mod 4096) in *. destruct (Z.ltb_spec size (4096 - low)) as [Hsmall|Hbig].
  { exists g. split; [reflexivity|]. left. split; [reflexivity|]. intros p (P1 & P2 & P3 & P4). unfold low in *. Z.div_mod_to_equations. lia. }
  (* the first whole page and the bytes from there *)
  set (b1 := if negb (low =? 0) then _ALIGN base 4096 else base). set (s1 := if negb (low =? 0) then u64 (size - (4096 - low)) else size).
  assert (b1 = base + (- base) mod 4096 /\ b1 + s1 = base + size) as [Eb Es].
  { unfold b1, s1, low. destruct (Z.eqb_spec (base mod 4096) 0) as [E|E]; cbn [negb].
    - split; [Z.div_mod_to_equations; lia|reflexivity].
    - fold low. rewrite u64_small by (unfold is_u64; lia). change (_ALIGN base 4096) with (_ALIGN base (2 ^ 12)). rewrite _ALIGN_spec by (unfold is_u64; lia). change (2 ^ 12) with 4096. unfold low in *. Z.div_mod_to_equations. lia. }
  replace (if negb (low =? 0) then (_ALIGN base 4096, u64 (size - (4096 - low))) else (base, size)) with (b1, s1) by (unfold b1, s1; destruct (negb (low =? 0)); reflexivity).
  assert (0 <= (- base) mod 4096 < 4096) by (apply Z.mod_pos_bound; lia). assert (0 <= s1) by (unfold low in *; Z.div_mod_to_equations; lia).
  change (Z.land s1 (u64 (Z.lnot (4096 - 1)))) with (Z.land s1 (u64 (Z.lnot (2 ^ 12 - 1)))). rewrite land_not_ones by (unfold is_u64; lia). change (2 ^ 12) with 4096. set (s2 := s1 - s1 mod 4096).
  assert (0 <= s2 <= s1 /\ s2 mod 4096 = 0 /\ s1 < s2 + 4096 /\ b1 mod 4096 = 0) as (S1 & S2 & S3 & B1) by (unfold s2; Z.div_mod_to_equations; lia).
  unfold ULONG_MAX. destruct (Z.ltb_spec (2 ^ 64 - 1) b1); [lia|]. destruct (Z.ltb_spec (2 ^ 64 - 1) (u64 (b1 + s2 - 1))) as [Hx|_]; [pose proof (u64_range (b1 + s2 - 1)); unfold is_u64 in *; lia|].
  rewrite u64_small by (unfold is_u64; lia). destruct (Z.ltb_spec (b1 + s2) phys_offset) as [Hlt|Hge].
  { exists g. split; [reflexivity|]. left. split; [reflexivity|]. intros p (P1 & P2 & P3 & P4). Z.div_mod_to_equations. lia. }
  destruct (Z.ltb_spec b1 phys_offset).
  - rewrite u64_small by (unfold is_u64; lia). eexists. split; [reflexivity|]. right. exists phys_offset, (s2 - (phys_offset - b1)). split; [reflexivity|]. split; [exact Hpm|]. split; [Z.div_mod_to_equations; lia|].
    intros p P1. split; [intros (_ & P2 & P3 & P4)|intros [P2 P3]; split; [exact P1|]]; Z.div_mod_to_equations; lia.
  - eexists. split; [reflexivity|]. right. exists b1, s2. split; [reflexivity|]. split; [exact B1|]. split; [exact S2|].
    intros p P1. split; [intros (_ & P2 & P3 & P4)|intros [P2 P3]; split; [exact P1|]]; Z.div_mod_to_equations; lia.
Qed.
