(* ===== verification/OfTree.v ===== *)
(** * of/of.c and of/property.c: the expanded device tree

    [unflatten_device_tree] turns the blob into [struct device_node]s and
    [struct property]s linked by pointers, in one block of pages.  Memory is the
    map of [Mem]: a byte or a scalar field is one cell at its address, so that the
    fields of a structure are the cells at their offsets.  Strings are read and
    written with the functions of [LibString], the blob with those of [Fdt]. *)

From Stdlib Require Import ZArith Lia Bool.
From stdpp Require Import base tactics numbers list gmap strings.
From S2P Require Import Prelude Words Mem LibString Memblock Buddy OpenFile Fdt.

Definition ENODATA : Z := 61.
Definition EOVERFLOW : Z := 75.
Definition EILSEQ : Z := 84.
Definition GFP_KERNEL : Z := Z.lor (Z.lor 0xC00 0x40) 0x80.
Definition FDT_MAX_DEPTH : Z := 64.

(** ** Structures: the offsets of the fields *)

Definition dn_name : Z := 0.
Definition dn_phandle : Z := 8.
Definition dn_full_name : Z := 16.
Definition dn_properties : Z := 24.
Definition dn_parent : Z := 32.
Definition dn_child : Z := 40.
Definition dn_sibling : Z := 48.
Definition dn_fwnode_ops : Z := 96.
Definition dn_flags : Z := 112.
Definition SIZEOF_DEVICE_NODE : Z := 120.
Definition pp_name : Z := 0.
Definition pp_length : Z := 8.
Definition pp_value : Z := 16.
Definition pp_next : Z := 24.
Definition SIZEOF_PROPERTY : Z := 32.

Abbreviation DM := (ST mem).
Definition rd {A} (f : mem -> outcome A) : DM A := m ← st_get; st_lift (f m).
(** A field of the structure at [p]. *)
Definition ldf (m : mem) (p f : Z) : outcome Z := load8 m (p + f).
Definition get (p f : Z) : DM Z := rd (fun m => ldf m p f).
Definition put (p f v : Z) : DM unit :=
  m ← st_get; match m !! (p + f) with Some _ => st_put (<[p + f := v]> m) | None => fun _ => Fault end.
Definition copy (dest src n : Z) : DM unit := m ← st_get; '(_, m) ← st_lift (memcpy m dest src n); st_put m.

Definition PTR_ALIGN (p a : Z) : Z := _ALIGN p a.
Definition __order_base_2 (n : Z) : Z := if 1 <? n then __ilog2_u64 (n - 1) + 1 else 0.

Section Of.
  Context (fuel : nat) (lit : string -> Z) (of_fwnode_ops : Z).

(** ** Properties *)

(** A property and its length; none is 0. *)
Fixpoint find_property_loop (f : nat) (m : mem) (pp name : Z) : outcome Z :=
  match f with
  | O => NoFuel
  | S f =>
      if pp =? 0 then Ok 0
      else
        n ← ldf m pp pp_name;
        r ← strcmp fuel m n name;
        if r =? 0 then Ok pp else pp ← ldf m pp pp_next; find_property_loop f m pp name
  end.
Definition __of_find_property (m : mem) (np name : Z) : outcome Z :=
  if np =? 0 then Ok 0 else pp ← ldf m np dn_properties; find_property_loop fuel m pp name.
Definition of_find_property (m : mem) (np name : Z) : outcome Z := __of_find_property m np name.
(** The value and its length. *)
Definition __of_get_property (m : mem) (np name : Z) : outcome (Z * Z) :=
  pp ← __of_find_property m np name; if pp =? 0 then Ok (0, 0) else v ← ldf m pp pp_value; l ← ldf m pp pp_length; Ok (v, l).
Definition of_get_property (m : mem) (np name : Z) : outcome (Z * Z) :=
  pp ← of_find_property m np name; if pp =? 0 then Ok (0, 0) else v ← ldf m pp pp_value; l ← ldf m pp pp_length; Ok (v, l).
Definition of_property_read_bool (m : mem) (np propname : Z) : outcome bool := pp ← of_find_property m np propname; Ok (negb (pp =? 0)).

Definition of_find_property_value_of_size (m : mem) (np propname min_ max_ : Z) : outcome (Z * Z) :=
  prop ← of_find_property m np propname;
  if prop =? 0 then Ok (ERR_PTR (- EINVAL), 0)
  else
    v ← ldf m prop pp_value;
    if v =? 0 then Ok (ERR_PTR (- ENODATA), 0)
    else
      l ← ldf m prop pp_length;
      if u32 l <? u32 min_ then Ok (ERR_PTR (- EOVERFLOW), 0)
      else if negb (u32 max_ =? 0) && (u32 max_ <? u32 l) then Ok (ERR_PTR (- EOVERFLOW), 0)
      else Ok (v, u64 l).
(** The error or 0, and the value. *)
Definition of_property_read_u32_index (m : mem) (np propname index : Z) : outcome (Z * Z) :=
  '(val, _) ← of_find_property_value_of_size m np propname ((u32 (index + 1)) * 4) 0;
  if IS_ERR val then Ok (s32 (PTR_ERR val), 0)
  else v ← be32_to_cpup m (val + 4 * index); Ok (0, v).
Fixpoint read_words (n : nat) (m : mem) (val : Z) : outcome (list Z) :=
  match n with
  | O => Ok []
  | S n => v ← be32_to_cpup m val; l ← read_words n m (val + 4); Ok (v :: l)
  end.
Definition of_property_read_variable_u32_array (m : mem) (np propname sz_min sz_max : Z) : outcome (Z * list Z) :=
  '(val, sz) ← of_find_property_value_of_size m np propname (sz_min * 4) (sz_max * 4);
  if IS_ERR val then Ok (s32 (PTR_ERR val), [])
  else
    let sz := if sz_max =? 0 then sz_min else sz / 4 in
    l ← read_words (Z.to_nat sz) m val;
    Ok (s32 sz, l).
Definition of_property_read_u32_array (m : mem) (np propname sz : Z) : outcome (Z * list Z) :=
  '(ret, l) ← of_property_read_variable_u32_array m np propname sz 0; Ok (if 0 <=? ret then 0 else ret, l).
Definition of_property_read_u32 (m : mem) (np propname : Z) : outcome (Z * Z) :=
  '(ret, l) ← of_property_read_u32_array m np propname 1; Ok (ret, default 0 (head l)).

Definition of_prop_next_string (m : mem) (prop cur : Z) : outcome Z :=
  if prop =? 0 then Ok 0
  else
    v ← ldf m prop pp_value;
    if cur =? 0 then Ok v
    else
      n ← strlen fuel m cur;
      let curv := cur + n + 1 in
      l ← ldf m prop pp_length;
      Ok (if v + l <=? curv then 0 else curv).
Definition of_property_read_string (m : mem) (np propname : Z) : outcome (Z * Z) :=
  prop ← of_find_property m np propname;
  if prop =? 0 then Ok (- EINVAL, 0)
  else
    v ← ldf m prop pp_value;
    if v =? 0 then Ok (- ENODATA, 0)
    else
      l ← ldf m prop pp_length;
      n ← strnlen m v l;
      if u64 l <=? n then Ok (- EILSEQ, 0) else Ok (0, v).

(** ** Unflattening *)

Definition unflatten_dt_alloc (memp size align : Z) : Z * Z := let res := PTR_ALIGN memp align in (res, u64 (res + size)).

(** The value, the name and the length. *)
Definition fdt_getprop_by_offset (m : mem) (blob offset : Z) : outcome (Z * Z * Z) :=
  '(prop, len) ← fdt_get_property_by_offset_ m blob offset;
  nameoff ← fdt32_ld m (prop + 8);
  '(name, _) ← fdt_get_string m blob (s32 nameoff);
  Ok (prop + SIZEOF_FDT_PROPERTY, name, len).

Definition put_phandle (np pname val : Z) : DM unit :=
  r ← rd (fun m => strcmp fuel m pname (lit "phandle"));
  hit ← (if r =? 0 then mret true else r ← rd (fun m => strcmp fuel m pname (lit "linux,phandle")); mret (r =? 0));
  if (hit : bool) then
    h ← get np dn_phandle;
    if h =? 0 then v ← rd (fun m => be32_to_cpup m val); put np dn_phandle v else mret tt
  else mret tt.
(** The loop over the properties of a node; [pprev] is the address of the link to set next. *)
Fixpoint props_loop (f : nat) (blob cur memp np pprev : Z) (dryrun : bool) : DM (Z * Z) :=
  match f with
  | O => fun _ => NoFuel
  | S f =>
      if 0 <=? cur then
        '(val, pname, sz) ← rd (fun m => fdt_getprop_by_offset m blob cur);
        if val =? 0 then st_panic "Cannot locate property"
        else if pname =? 0 then st_panic "Cannot find property name"
        else
          let '(pp, memp) := unflatten_dt_alloc memp SIZEOF_PROPERTY 8 in
          pprev ← (if dryrun then mret pprev
                   else
                     put_phandle np pname val;;
                     put pp pp_name pname;; put pp pp_length sz;; put pp pp_value val;;
                     put pprev 0 pp;;
                     mret (pp + pp_next));
          cur ← rd (fun m => fdt_next_property_offset fuel m blob cur);
          props_loop f blob cur memp np pprev dryrun
      else mret (memp, pprev)
  end.
(** Where the last component of the name begins and its address part. *)
Fixpoint name_parts (f : nat) (m : mem) (p ps pa : Z) : outcome (Z * Z * Z) :=
  match f with
  | O => NoFuel
  | S f =>
      c ← load8 m p;
      if c =? 0 then Ok (p, ps, pa)
      else if c =? 0x40 then name_parts f m (p + 1) ps p
      else if c =? 0x2f then name_parts f m (p + 1) (p + 1) pa
      else name_parts f m (p + 1) ps pa
  end.
Definition populate_properties (blob offset memp np nodename : Z) (dryrun : bool) : DM Z :=
  cur ← rd (fun m => fdt_first_property_offset fuel m blob offset);
  '(memp, pprev) ← props_loop fuel blob cur memp np (np + dn_properties) dryrun;
  '(p, ps, pa) ← rd (fun m => name_parts fuel m nodename nodename 0);
  let pa := if pa <? ps then p else pa in
  let len := (pa - ps) + 1 in
  let '(pp, memp) := unflatten_dt_alloc memp (SIZEOF_PROPERTY + len) 8 in
  (if dryrun then mret tt
   else
     put pp pp_name (lit "name");; put pp pp_length len;; put pp pp_value (pp + SIZEOF_PROPERTY);;
     put pprev 0 pp;;
     copy (pp + SIZEOF_PROPERTY) ps (len - 1);;
     put (pp + SIZEOF_PROPERTY) (len - 1) 0;;
     put (pp + pp_next) 0 0);;
  mret memp.

Definition populate_node (blob offset memp dad : Z) (dryrun : bool) : DM (Z * Z) :=
  '(pathp, l) ← rd (fun m => fdt_get_name fuel m blob offset);
  let allocl := l + 1 in
  let '(np, memp) := unflatten_dt_alloc memp (SIZEOF_DEVICE_NODE + allocl) 8 in
  (if dryrun then mret tt
   else
     put np dn_fwnode_ops of_fwnode_ops;;
     put np dn_full_name (np + SIZEOF_DEVICE_NODE);;
     copy (np + SIZEOF_DEVICE_NODE) pathp allocl;;
     if negb (dad =? 0) then
       put np dn_parent dad;;
       c ← get dad dn_child; put np dn_sibling c;;
       put dad dn_child np
     else mret tt);;
  memp ← populate_properties blob offset memp np pathp dryrun;
  (if dryrun then mret tt
   else
     '(v, _) ← rd (fun m => of_get_property m np (lit "name"));
     put np dn_name (if v =? 0 then lit "<NULL>" else v));;
  mret (np, memp).

Fixpoint reverse_nodes (f : nat) (parent : Z) : DM unit :=
  match f with
  | O => fun _ => NoFuel
  | S f =>
      child ← get parent dn_child;
      (fix deep (g : nat) (child : Z) : DM unit :=
         match g with
         | O => fun _ => NoFuel
         | S g => if child =? 0 then mret tt else reverse_nodes f child;; child ← get child dn_sibling; deep g child
         end) f child;;
      child ← get parent dn_child;
      put parent dn_child 0;;
      (fix flip (g : nat) (child : Z) : DM unit :=
         match g with
         | O => fun _ => NoFuel
         | S g =>
             if child =? 0 then mret tt
             else
               next ← get child dn_sibling;
               c ← get parent dn_child; put child dn_sibling c;;
               put parent dn_child child;;
               flip g next
         end) f child
  end.

(** The loop over the nodes: [nps] is the stack of ancestors, [nodep] the first node made. *)
Fixpoint nodes_loop (f : nat) (blob offset depth initial_depth memp : Z) (nps : list (option Z)) (root nodep : Z) (dryrun : bool) : DM (Z * Z * Z * Z) :=
  match f with
  | O => fun _ => NoFuel
  | S f =>
      if (0 <=? offset) && (initial_depth <=? depth) then
        dad ← st_lift (aget nps depth);
        dad ← st_lift (deref dad);
        '(np, memp) ← populate_node blob offset memp dad dryrun;
        nps ← st_lift (aset nps (depth + 1) (Some np));
        let nodep := if negb dryrun && (nodep =? 0) then np else nodep in
        let root := if negb dryrun && (root =? 0) then np else root in
        '(offset, depth) ← rd (fun m => fdt_next_node fuel m blob offset (Some depth));
        depth ← st_lift (deref depth);
        nodes_loop f blob offset depth initial_depth memp nps root nodep dryrun
      else mret (offset, memp, root, nodep)
  end.
(** The bytes used and the first node made; a null [memp] is a dry run. *)
Definition unflatten_dt_nodes (blob memp dad : Z) : DM (Z * Z) :=
  let base := memp in
  let dryrun := base =? 0 in
  let depth := if negb (dad =? 0) then 1 else 0 in
  nps ← st_lift (aset (replicate (Z.to_nat FDT_MAX_DEPTH) None) depth (Some dad));
  '(offset, memp, root, nodep) ← nodes_loop fuel blob 0 depth depth memp nps dad 0 dryrun;
  if (offset <? 0) && negb (offset =? - FDT_ERR_NOTFOUND) then st_panic "Error processing FDT"
  else
    (if dryrun then mret tt else reverse_nodes fuel root);;
    mret (s32 (memp - base), nodep).

Definition zero_mem (p n : Z) : DM unit := m ← st_get; m ← st_lift (memset m p 0 n); st_put m.
(** The marker after the tree, four bytes. *)
Definition put_marker (p : Z) : DM unit := m ← st_get; m ← st_lift (store_le 4 m p (swab32 0xdeadbeef)); st_put m.
Definition __unflatten_device_tree (L : layout) (blob dad : Z) (s : buddy) : DM (Z * Z * buddy) :=
  if blob =? 0 then mret (0, 0, s)
  else
    e ← rd (fun m => fdt_check_header m blob);
    if negb (e =? 0) then mret (0, 0, s)
    else
      '(size, _) ← unflatten_dt_nodes blob 0 dad;
      if size <? 0 then mret (0, 0, s)
      else
        let size := s32 (_ALIGN size 4) in
        m ← st_get;
        '(memp, s, m) ← st_lift (__get_free_pages L s m GFP_KERNEL (__order_base_2 (PFN_UP size)));
        st_put m;;
        if memp =? 0 then mret (0, 0, s)
        else
          zero_mem memp size;;
          put_marker (memp + size);;
          '(_, mynodes) ← unflatten_dt_nodes blob memp dad;
          k ← rd (fun m => be32_to_cpup m (memp + size));
          if negb (k =? 0xdeadbeef) then st_panic "End of tree marker overwritten" else mret (memp, mynodes, s).
End Of.
