(* ===== verification/OfUnflatten.v ===== *)
(** * Unflattening builds the tree of the blob

    The links that [unflatten_dt_nodes] leaves in memory are described by a tree
    with addresses ([gtree]); [holds] says that memory contains it.  Everything is
    written to one block of pages, nodes and properties one after the other, so
    that a subtree occupies an interval of addresses and changes elsewhere do not
    affect it. *)

From Stdlib Require Import ZArith Lia Bool.
From stdpp Require Import base tactics numbers list gmap strings.
From S2P Require Import Prelude Words Mem LibString Memblock Buddy OpenFile Fdt FdtSpec OfTree.

(** ** Memory *)

Lemma rd_ok {A B} (f : mem -> outcome A) (k : A -> DM B) m a : f m = Ok a -> (rd f ≫= k) m = k a m.
Proof. intros E. unfold rd, mbind, st_bind, st_get, st_lift. rewrite E. reflexivity. Qed.
Lemma get_ok {B} (k : Z -> DM B) m p f v : m !! (p + f) = Some v -> (get p f ≫= k) m = k v m.
Proof. intros E. unfold get. apply rd_ok. unfold ldf. apply load8_ok, E. Qed.
Lemma put_ok p f v m : is_Some (m !! (p + f)) -> put p f v m = Ok (tt, <[p + f := v]> m).
Proof. intros [x E]. unfold put. rewrite bind_get, E. reflexivity. Qed.

Lemma bytes_mono m m' p l : m ⊆ m' -> bytes_at m p l -> bytes_at m' p l.
Proof. intros Hm. rewrite !bytes_at_lookup. intros H i b Hi. eapply lookup_weaken; [apply (H i b Hi)|exact Hm]. Qed.
Lemma cstr_mono m m' p l : m ⊆ m' -> cstr m p l -> cstr m' p l.
Proof. intros Hm [H1 H2]. split; [eapply bytes_mono; eassumption|exact H2]. Qed.
Lemma blob_mono m m' fdt os ostr ne l : m ⊆ m' -> blob m fdt os ostr ne l -> blob m' fdt os ostr ne l.
Proof.
  intros Hm [H1 [H2 H2'] (H3 & H3a & H3b & H3c & H3d & H3e) H4 H5 H6 H7]. split; try assumption.
  - split; [exact H2|eapply bytes_mono; eassumption].
  - repeat (split; [assumption|]). split; eapply bytes_mono; eassumption.
  - eapply bytes_mono; eassumption.
  - intros p Hp. eapply bytes_mono; [exact Hm|]. apply H7, Hp.
Qed.

Definition zeroed (m : mem) (lo hi : Z) : Prop := forall x, lo <= x < hi -> m !! x = Some 0.
Definition same_but (X : Z -> Prop) (m m' : mem) : Prop := forall x, ~ X x -> m' !! x = m !! x.
Lemma same_but_trans (X Y : Z -> Prop) m1 m2 m3 : same_but X m1 m2 -> same_but Y m2 m3 -> same_but (fun x => X x \/ Y x) m1 m3.
Proof. intros H1 H2 x Hx. rewrite H2, H1 by tauto. reflexivity. Qed.
Lemma same_but_weaken (X Y : Z -> Prop) m m' : same_but X m m' -> (forall x, X x -> Y x) -> same_but Y m m'.
Proof. intros H HX x Hx. apply H. intros H'. apply Hx, HX, H'. Qed.
Lemma same_but_insert (m : mem) x v : same_but (fun y => y = x) m (<[x := v]> m).
Proof. intros y Hy. apply lookup_insert_ne. congruence. Qed.

(** ** Layout *)

Definition up8 (x : Z) : Z := x + (- x) mod 8.
Lemma up8_facts x : x <= up8 x < x + 8 /\ up8 x mod 8 = 0.
Proof. unfold up8. pose proof (Z.mod_pos_bound (- x) 8 ltac:(lia)). split; [lia|]. Z.div_mod_to_equations. lia. Qed.
Lemma up8_add b x : b mod 8 = 0 -> up8 (b + x) = b + up8 x.
Proof. intros H. unfold up8. assert ((- (b + x)) mod 8 = (- x) mod 8) as -> by (Z.div_mod_to_equations; lia). lia. Qed.
Lemma alloc_ok memp size : 0 <= memp -> 0 <= size -> memp + size + 8 < 2 ^ 64 -> unflatten_dt_alloc memp size 8 = (up8 memp, up8 memp + size).
Proof.
  intros H0 Hs Hb. pose proof (up8_facts memp) as [U1 U2]. unfold unflatten_dt_alloc, PTR_ALIGN. change 8 with (2 ^ 3). assert (_ALIGN memp (2 ^ 3) = up8 memp) as ->.
  { rewrite _ALIGN_spec by (unfold is_u64; lia). unfold up8. change (2 ^ 3) with 8. Z.div_mod_to_equations. lia. }
  rewrite u64_small by (unfold is_u64; lia). reflexivity.
Qed.

(** The last component of a name without its address: [ps] and [pa] of the code as indices. *)
Fixpoint parts (l : list Z) (i ps : Z) (pa : option Z) : Z * option Z :=
  match l with
  | [] => (ps, pa)
  | c :: l => if c =? 0x40 then parts l (i + 1) ps (Some i) else if c =? 0x2f then parts l (i + 1) (i + 1) pa else parts l (i + 1) ps pa
  end.
Definition base_bounds (name : list Z) : Z * Z :=
  let '(ps, pa) := parts name 0 0 None in
  let n := Z.of_nat (length name) in
  (ps, match pa with Some i => if i <? ps then n else i | None => n end).
Definition base_of (name : list Z) : list Z := let '(ps, pa) := base_bounds name in take (Z.to_nat (pa - ps)) (drop (Z.to_nat ps) name).

(** Where the memory of a node, of its properties and of its tree ends. *)
Fixpoint props_end (memp : Z) (ps : list fprop) : Z := match ps with [] => memp | _ :: ps => props_end (up8 memp + SIZEOF_PROPERTY) ps end.
Definition node_end (memp : Z) (name : list Z) (ps : list fprop) : Z :=
  up8 (props_end (up8 memp + (SIZEOF_DEVICE_NODE + Z.of_nat (length name) + 1)) ps) + (SIZEOF_PROPERTY + Z.of_nat (length (base_of name)) + 1).
Fixpoint tree_end (memp : Z) (t : ftree) : Z := match t with FNode name ps kids => foldl tree_end (node_end memp name ps) kids end.

Lemma props_end_le ps : forall memp, memp <= props_end memp ps.
Proof. induction ps as [|p ps IH]; intros memp; cbn; [lia|]. pose proof (IH (up8 memp + SIZEOF_PROPERTY)). pose proof (up8_facts memp). change SIZEOF_PROPERTY with 32 in *. lia. Qed.
Lemma node_end_le memp name ps : up8 memp + SIZEOF_DEVICE_NODE < node_end memp name ps.
Proof.
  unfold node_end. set (x := up8 memp + (SIZEOF_DEVICE_NODE + Z.of_nat (length name) + 1)). pose proof (props_end_le ps x). pose proof (up8_facts (props_end x ps)). unfold x in *. change SIZEOF_PROPERTY with 32. change SIZEOF_DEVICE_NODE with 120 in *. lia.
Qed.
Lemma forest_end_le kids : Forall (fun t => forall memp, memp <= tree_end memp t) kids -> forall memp, memp <= foldl tree_end memp kids.
Proof. induction 1 as [|k kids Hk _ IH]; intros memp; cbn; [lia|]. pose proof (Hk memp). pose proof (IH (tree_end memp k)). lia. Qed.
Lemma tree_end_le t : forall memp, memp <= tree_end memp t.
Proof.
  induction t as [name ps kids IH] using ftree_nested_ind. intros memp. cbn [tree_end]. pose proof (node_end_le memp name ps). pose proof (up8_facts memp). change SIZEOF_DEVICE_NODE with 120 in *. pose proof (forest_end_le kids IH (node_end memp name ps)). lia.
Qed.
Lemma forest_end_mono kids memp : memp <= foldl tree_end memp kids.
Proof. apply forest_end_le, Forall_forall. intros t _. apply tree_end_le. Qed.

(** The dry run finds the size: the layout does not depend on where it starts. *)
Lemma props_end_add b ps : b mod 8 = 0 -> forall x, props_end (b + x) ps = b + props_end x ps.
Proof. intros Hb. induction ps as [|p ps IH]; intros x; cbn; [reflexivity|]. rewrite up8_add by exact Hb. rewrite <- Z.add_assoc. apply IH. Qed.
Lemma node_end_add b x name ps : b mod 8 = 0 -> node_end (b + x) name ps = b + node_end x name ps.
Proof. intros Hb. unfold node_end. rewrite up8_add by exact Hb. rewrite <- Z.add_assoc, props_end_add, up8_add by exact Hb. lia. Qed.
Lemma tree_end_add b t : b mod 8 = 0 -> forall x, tree_end (b + x) t = b + tree_end x t.
Proof.
  intros Hb. induction t as [name ps kids IH] using ftree_nested_ind. intros x. cbn [tree_end]. rewrite node_end_add by exact Hb. generalize (node_end x name ps) as y.
  induction IH as [|k kids Hk _ IHk]; intros y; cbn; [reflexivity|]. rewrite Hk. apply IHk.
Qed.

(** ** What is built *)

(** A property in memory: its address, the addresses of its name and value. *)
Record gprop := GProp { gp_addr : Z; gp_namep : Z; gp_name : list Z; gp_valp : Z; gp_val : list Z }.

(** A node in memory: the properties from the blob and the address of the one made for its name. *)
Record gnode := GN { g_addr : Z; g_end : Z; g_name : list Z; g_plist : list gprop; g_pp : Z; g_phandle : Z }.
Inductive gtree := GTree (n : gnode) (kids : list gtree).

Lemma chars_ok s : Forall byte_ok (chars s).
Proof. induction s as [|a s IH]; cbn; [constructor|]. constructor; [|exact IH]. unfold byte_ok. pose proof (Ascii.N_ascii_bounded a). lia. Qed.

(** Equality of strings. *)
Lemma lex_cmp_str l1 : forall l2, Forall char_ok l1 -> Forall char_ok l2 -> (lex_cmp (l1 ++ [0]) (l2 ++ [0]) =? 0) = bool_decide (l1 = l2).
Proof.
  assert (forall b : Z, char_ok b -> b <> 0) as Hc by (unfold char_ok; lia).
  induction l1 as [|a l1 IH]; intros [|b l2] H1 H2; cbn [app lex_cmp].
  - reflexivity.
  - apply Forall_cons in H2 as [Hb _]. apply Hc in Hb. destruct (Z.eqb_spec 0 b); [congruence|]. cbn [negb]. destruct (0 <? b); reflexivity.
  - apply Forall_cons in H1 as [Ha _]. apply Hc in Ha. destruct (Z.eqb_spec a 0); [congruence|]. cbn [negb]. destruct (a <? 0); reflexivity.
  - apply Forall_cons in H1 as [_ H1], H2 as [_ H2]. destruct (Z.eqb_spec a b) as [->|Hne]; cbn [negb].
    + rewrite (IH l2 H1 H2). apply bool_decide_ext. split; [intros ->; reflexivity|intros [= ->]; reflexivity].
    + rewrite bool_decide_eq_false_2 by congruence. destruct (a <? b); reflexivity.
Qed.
Lemma strcmp_eq fuel m p q l1 l2 : cstr m p l1 -> cstr m q l2 -> (length l1 < fuel)%nat -> exists r, strcmp fuel m p q = Ok r /\ (r =? 0) = bool_decide (l1 = l2).
Proof. intros H1 H2 Hf. eexists. split; [apply strcmp_ok; eassumption|]. apply lex_cmp_str; [apply H1|apply H2]. Qed.

Definition is_phandle (p : fprop) : bool := bool_decide (fp_name p = chars "phandle") || bool_decide (fp_name p = chars "linux,phandle").
Definition be_word (l : list Z) : Z := match l with [a; b; c; d] => a * 2 ^ 24 + b * 2 ^ 16 + c * 2 ^ 8 + d | _ => 0 end.
(** The first phandle that is not zero. *)
Fixpoint phandle_of (acc : Z) (ps : list fprop) : Z :=
  match ps with [] => acc | p :: ps => phandle_of (if (acc =? 0) && is_phandle p then be_word (fp_val p) else acc) ps end.
(** The first property of a name: its address, value and length. *)
Fixpoint find_gprop (nm : list Z) (l : list gprop) : option gprop := match l with [] => None | p :: l => if bool_decide (gp_name p = nm) then Some p else find_gprop nm l end.
Definition gaddr (o : option gprop) : Z := match o with Some p => gp_addr p | None => 0 end.
Definition gvalue (o : option gprop) : Z * Z := match o with Some p => (gp_valp p, Z.of_nat (length (gp_val p))) | None => (0, 0) end.
Lemma find_gprop_in nm l p : find_gprop nm l = Some p -> p ∈ l /\ gp_name p = nm.
Proof. induction l as [|q l IH]; cbn; [discriminate|]. case_bool_decide; [intros [= ->]; split; [left|assumption]|]. intros E. destruct (IH E). split; [right|]; assumption. Qed.
Lemma find_gprop_last nm l p : gp_name p = nm -> exists q, find_gprop nm (l ++ [p]) = Some q.
Proof. intros Hp. induction l as [|q l [r IH]]; cbn; [rewrite bool_decide_eq_true_2 by exact Hp; eauto|]. case_bool_decide; eauto. Qed.

Section GTreeInd.
  Context (P : gtree -> Prop) (H : forall n kids, Forall P kids -> P (GTree n kids)).
Fixpoint gtree_nested_ind (g : gtree) : P g :=
  match g with
  | GTree n kids => H n kids ((fix go (l : list gtree) : Forall P l := match l with [] => Forall_nil_2 _ | t :: l => Forall_cons_2 _ _ _ (gtree_nested_ind t) (go l) end) kids)
  end.
End GTreeInd.

(** The nodes of a tree in their order, and with their parents. *)
Fixpoint gnodes (g : gtree) : list gnode := match g with GTree n kids => n :: concat (gnodes <$> kids) end.
Fixpoint flat (parent : Z) (g : gtree) : list (Z * gnode) := match g with GTree n kids => (parent, n) :: concat (flat (g_addr n) <$> kids) end.
Definition root_addr (g : gtree) : Z := match g with GTree n _ => g_addr n end.
(** The link to the first of [l], or to [c]. *)
Definition hd (c : Z) (l : list gtree) : Z := match l with [] => c | g :: _ => root_addr g end.
(** The links to children and siblings; [sib] follows the root. *)
Fixpoint linked (m : mem) (sib : Z) (g : gtree) : Prop :=
  match g with
  | GTree n kids =>
      m !! (g_addr n + 40) = Some (hd 0 kids) /\ m !! (g_addr n + 48) = Some sib /\
      (fix go (l : list gtree) : Prop := match l with [] => True | k :: l => linked m (hd 0 l) k /\ go l end) kids
  end.
Fixpoint linkeds (m : mem) (c : Z) (l : list gtree) : Prop := match l with [] => True | k :: l => linked m (hd c l) k /\ linkeds m c l end.
Lemma linked_eq m sib n kids : linked m sib (GTree n kids) <-> m !! (g_addr n + 40) = Some (hd 0 kids) /\ m !! (g_addr n + 48) = Some sib /\ linkeds m 0 kids.
Proof. cbn [linked]. do 2 (apply and_iff_compat_l). induction kids as [|k kids IH]; [reflexivity|]. cbn [linkeds]. apply and_iff_compat_l, IH. Qed.
Lemma hd_app c l1 l2 : hd c (l1 ++ l2) = hd (hd c l2) l1.
Proof. destruct l1; reflexivity. Qed.
Lemma linkeds_app m c l1 l2 : linkeds m c (l1 ++ l2) <-> linkeds m (hd c l2) l1 /\ linkeds m c l2.
Proof. induction l1 as [|k l1 IH]; cbn [app linkeds]; [tauto|]. rewrite hd_app, IH. tauto. Qed.

(** The same tree with the order of children reversed everywhere. *)
Fixpoint mirror (g : gtree) : gtree := match g with GTree n kids => GTree n (reverse (mirror <$> kids)) end.
Lemma mirror_addr g : root_addr (mirror g) = root_addr g.
Proof. destruct g; reflexivity. Qed.
Lemma mirror_mirror g : mirror (mirror g) = g.
Proof.
  induction g as [n kids IH] using gtree_nested_ind. cbn [mirror]. f_equal. rewrite fmap_reverse, reverse_involutive, <- list_fmap_compose. rewrite <- (list_fmap_id kids) at 2. apply list_fmap_ext. intros i k Hk. rewrite Forall_forall in IH. apply IH. eapply list_elem_of_lookup_2, Hk.
Qed.
Lemma concat_perm_reverse {A} (l : list (list A)) : concat (reverse l) ≡ₚ concat l.
Proof. induction l as [|x l IH]; [reflexivity|]. rewrite reverse_cons, concat_app, IH. cbn. rewrite app_nil_r. apply Permutation_app_comm. Qed.
Lemma gnodes_mirror g : gnodes (mirror g) ≡ₚ gnodes g.
Proof.
  induction g as [n kids IH] using gtree_nested_ind. cbn [mirror gnodes]. rewrite fmap_reverse, concat_perm_reverse. constructor. induction IH as [|k kids Hk _ IHk]; [reflexivity|]. rewrite !fmap_cons. cbn [concat]. rewrite Hk, IHk. reflexivity.
Qed.
Lemma flat_nodes g : forall parent, (flat parent g).*2 = gnodes g.
Proof.
  induction g as [n kids IH] using gtree_nested_ind. intros parent. cbn [flat gnodes]. rewrite fmap_cons. cbn [snd]. f_equal. induction IH as [|k kids Hk _ IHk]; [reflexivity|]. rewrite !fmap_cons. cbn [concat]. rewrite fmap_app, Hk, IHk. reflexivity.
Qed.

(** Nodes one after the other in memory. *)
Fixpoint chain (lo : Z) (l : list gnode) (hi : Z) : Prop := match l with [] => lo <= hi | n :: l => lo <= g_addr n /\ g_addr n + 120 <= g_end n /\ chain (g_end n) l hi end.
Lemma chain_le l : forall lo hi, chain lo l hi -> lo <= hi.
Proof. induction l as [|n l IH]; cbn; [auto|]. intros lo hi (H1 & H2 & H3). apply IH in H3. lia. Qed.
Lemma chain_app l1 : forall lo mid l2 hi, chain lo l1 mid -> chain mid l2 hi -> chain lo (l1 ++ l2) hi.
Proof.
  induction l1 as [|n l1 IH]; cbn; intros lo mid l2 hi H1 H2; [destruct l2; cbn in *; [lia|]; intuition lia|]. destruct H1 as (H1 & H1a & H1b). split; [exact H1|]. split; [exact H1a|]. eapply IH; eassumption.
Qed.
Lemma chain_in l n : forall lo hi, chain lo l hi -> n ∈ l -> lo <= g_addr n /\ g_addr n + 120 <= g_end n /\ g_end n <= hi.
Proof.
  induction l as [|n' l IH]; intros lo hi H Hn; [inversion Hn|]. destruct H as (H1 & H2 & H3). apply elem_of_cons in Hn as [->|Hn]; [apply chain_le in H3; lia|]. pose proof (IH _ _ H3 Hn). lia.
Qed.

Lemma linked_frame m m' g : forall sib, linked m sib g -> (forall n, n ∈ gnodes g -> m' !! (g_addr n + 40) = m !! (g_addr n + 40) /\ m' !! (g_addr n + 48) = m !! (g_addr n + 48)) -> linked m' sib g.
Proof.
  induction g as [n kids IH] using gtree_nested_ind. intros sib H Hx. rewrite linked_eq in *. destruct H as (H1 & H2 & H3). cbn [gnodes] in Hx. destruct (Hx n ltac:(left)) as [-> ->]. do 2 (split; [assumption|]). clear H1 H2. assert (forall n', n' ∈ concat (gnodes <$> kids) -> m' !! (g_addr n' + 40) = m !! (g_addr n' + 40) /\ m' !! (g_addr n' + 48) = m !! (g_addr n' + 48)) as Hk by (intros n' Hn'; apply Hx; right; exact Hn').
  clear Hx. induction IH as [|k kids Hk0 _ IHk]; [exact Logic.I|]. rewrite fmap_cons in Hk. cbn [concat linkeds] in *. destruct H3 as [H3 H4]. split; [apply Hk0; [exact H3|]|apply IHk; [exact H4|]]; intros n' Hn'; apply Hk, elem_of_app; auto.
Qed.
Lemma linkeds_frame m m' c l : linkeds m c l -> (forall n, n ∈ concat (gnodes <$> l) -> m' !! (g_addr n + 40) = m !! (g_addr n + 40) /\ m' !! (g_addr n + 48) = m !! (g_addr n + 48)) -> linkeds m' c l.
Proof.
  induction l as [|k l IH]; [auto|]. rewrite fmap_cons. cbn [concat linkeds]. intros [H1 H2] Hx. split; [apply (linked_frame m); [exact H1|]|apply IH; [exact H2|]]; intros n Hn; apply Hx, elem_of_app; auto.
Qed.

Fixpoint fsize (t : ftree) : nat := match t with FNode _ _ kids => S (foldr (fun k n => fsize k + n)%nat 0%nat kids) end.
Fixpoint height (t : ftree) : Z := match t with FNode _ _ kids => 1 + foldr (fun k n => Z.max (height k) n) 0 kids end.
Definition fsizes (kids : list ftree) : nat := foldr (fun k n => fsize k + n)%nat 0%nat kids.
Definition heights (kids : list ftree) : Z := foldr (fun k n => Z.max (height k) n) 0 kids.

Lemma heights_pos kids : 0 <= heights kids.
Proof. induction kids as [|k kids IH]; [cbn; lia|]. cbn. fold (heights kids). lia. Qed.
Lemma aget_insert_lt {A} (l : list A) i j x : i < j -> aget (<[Z.to_nat j := x]> l) i = aget l i.
Proof. intros H. unfold aget. destruct (Z.ltb_spec i 0); [reflexivity|]. rewrite list_lookup_insert_ne by lia. reflexivity. Qed.
Lemma aget_insert_eq {A} (l : list A) i x : 0 <= i < Z.of_nat (length l) -> aget (<[Z.to_nat i := x]> l) i = Ok x.
Proof. intros H. unfold aget. destruct (Z.ltb_spec i 0); [lia|]. rewrite list_lookup_insert_eq by lia. reflexivity. Qed.
Lemma nxt_props ps : forall o d l, nxt o d ((TProp <$> ps) ++ l) = nxt (o + len (TProp <$> ps)) d l.
Proof. induction ps as [|p ps IH]; intros o d l; [unfold len; cbn; rewrite Z.add_0_r; reflexivity|]. rewrite fmap_cons, len_cons. cbn [app nxt]. rewrite IH, Z.add_assoc. reflexivity. Qed.

(** ** Names *)

Lemma parts_bounds l : forall i ps pa, 0 <= ps <= i -> (forall k, pa = Some k -> 0 <= k < i) ->
  0 <= (parts l i ps pa).1 <= i + Z.of_nat (length l) /\ forall k, (parts l i ps pa).2 = Some k -> 0 <= k < i + Z.of_nat (length l).
Proof.
  induction l as [|c l IH]; intros i ps pa H1 H2; cbn [parts length]; [cbn; rewrite Z.add_0_r; split; [lia|exact H2]|]. replace (i + Z.of_nat (S (length l))) with (i + 1 + Z.of_nat (length l)) by lia.
  destruct (c =? 0x40); [|destruct (c =? 0x2f)]; apply IH; try lia; intros k Hk; [injection Hk as <-; lia|specialize (H2 k Hk); lia|specialize (H2 k Hk); lia].
Qed.
Lemma base_bounds_ok name : 0 <= (base_bounds name).1 <= (base_bounds name).2 /\ (base_bounds name).2 <= Z.of_nat (length name).
Proof.
  unfold base_bounds. pose proof (parts_bounds name 0 0 None ltac:(lia) ltac:(discriminate)) as [H1 H2]. destruct (parts name 0 0 None) as [ps [k|]]; cbn in *; [|lia]. specialize (H2 k eq_refl). destruct (Z.ltb_spec k ps); lia.
Qed.
Lemma base_length name : Z.of_nat (length (base_of name)) = (base_bounds name).2 - (base_bounds name).1.
Proof. unfold base_of. pose proof (base_bounds_ok name). destruct (base_bounds name) as [ps pa]; cbn in *. rewrite length_take, length_drop. lia. Qed.

Definition opt_ptr (b : Z) (o : option Z) : Z := match o with Some k => b + k | None => 0 end.
Lemma name_parts_ok m b l : forall f i ps pa, cstr m (b + i) l -> (length l < f)%nat ->
  name_parts f m (b + i) (b + ps) (opt_ptr b pa) = Ok (b + i + Z.of_nat (length l), b + (parts l i ps pa).1, opt_ptr b (parts l i ps pa).2).
Proof.
  induction l as [|c l IH]; intros f i ps pa Hc Hf; (destruct f as [|f]; [cbn in Hf; lia|]); cbn [name_parts parts].
  - apply cstr_nil in Hc. rewrite (load8_ok _ _ _ Hc). cbn. rewrite Z.add_0_r. reflexivity.
  - apply cstr_cons in Hc as (H0 & Hch & Hc). rewrite (load8_ok _ _ _ H0). cbn [mbind outcome_bind]. unfold char_ok in Hch. destruct (Z.eqb_spec c 0); [lia|]. rewrite <- Z.add_assoc in Hc. cbn [length] in *.
    replace (b + i + Z.of_nat (S (length l))) with (b + (i + 1) + Z.of_nat (length l)) by lia. replace (b + i + 1) with (b + (i + 1)) by lia.
    destruct (c =? 0x40); [apply (IH f (i + 1) ps (Some i)); [exact Hc|lia]|]. destruct (c =? 0x2f); apply IH; try exact Hc; lia.
Qed.

(** The last part of a name: where it begins and how long it is. *)
Lemma name_split fuel m nd name : cstr m nd name -> (length name < fuel)%nat -> 0 < nd ->
  exists bs pa, name_parts fuel m nd nd 0 = Ok (nd + Z.of_nat (length name), nd + bs, pa) /\ (if pa <? nd + bs then nd + Z.of_nat (length name) else pa) = nd + bs + Z.of_nat (length (base_of name)) /\
    0 <= bs /\ forall m', bytes_at m' nd (name ++ [0]) -> bytes_at m' (nd + bs) (base_of name).
Proof.
  intros Hc Hf Hnd. pose proof (name_parts_ok m nd name fuel 0 0 None) as En. rewrite Z.add_0_r in En. specialize (En Hc Hf). cbn [opt_ptr] in En.
  pose proof (base_bounds_ok name) as [Bb1 Bb2]. pose proof (base_length name) as Bl. unfold base_bounds in Bb1, Bb2, Bl. destruct (parts name 0 0 None) as [bs ba] eqn:Ep. cbn [fst snd] in *.
  set (be := match ba with Some i => if i <? bs then Z.of_nat (length name) else i | None => Z.of_nat (length name) end) in *. exists bs, (opt_ptr nd ba). split; [exact En|]. split; [|split; [lia|]].
  - rewrite Bl. unfold be, opt_ptr. destruct ba as [k|]; [destruct (Z.ltb_spec (nd + k) (nd + bs)), (Z.ltb_spec k bs); lia|]. destruct (Z.ltb_spec 0 (nd + bs)); lia.
  - intros m' Hb. apply bytes_at_app in Hb as [Hb _]. rewrite <- (take_drop (Z.to_nat bs) name), bytes_at_app, length_take in Hb. destruct Hb as [_ Hb]. replace (nd + Z.of_nat (Nat.min (Z.to_nat bs) (length name))) with (nd + bs) in Hb by lia.
    rewrite <- (take_drop (Z.to_nat (be - bs)) (drop (Z.to_nat bs) name)), bytes_at_app in Hb. unfold base_of, base_bounds. rewrite Ep. apply Hb.
Qed.

Lemma begin_short fuel all o name l : len all < Z.of_nat fuel -> at_items all o (TBegin name :: l) -> (length name < fuel)%nat.
Proof.
  intros Hf H. destruct (he_pos _ _ H) as (P1 & _ & P3). rewrite len_cons, ilen_begin, pad4_length, length_app in P3. cbn [length] in P3. pose proof (len_facts l). pose proof (up4 (Z.of_nat (length name + 1)) ltac:(lia)). lia.
Qed.
Lemma getprop_by_offset_ok fuel m fdt os ostr ne all o p l : blob m fdt os ostr ne all -> len all < Z.of_nat fuel -> at_items all o (TProp p :: l) ->
  fdt_getprop_by_offset m fdt o = Ok (fdt + os + o + 12, fdt + ostr + fp_off p, Z.of_nat (length (fp_val p))) /\ 0 < fdt + os + o + 12 /\ 0 < fdt + ostr + fp_off p.
Proof.
  intros B Hfuel H. pose proof (here_elem o _ _ H) as Hp. destruct (he_pos _ _ H) as (P1 & _). destruct (prop_bytes fuel m fdt os ostr ne all B Hfuel o p _ H) as (_ & W2 & W3 & _). destruct (get_string_ok fuel m fdt os ostr ne all B Hfuel p Hp) as [T1 _].
  pose proof (bl_ok _ _ _ _ _ _ B) as Hok. rewrite Forall_forall in Hok. destruct (Hok _ Hp) as (_ & _ & K3 & K4). destruct (bl_ostr _ _ _ _ _ _ B) as (O1 & _ & On & _). pose proof (bl_pos _ _ _ _ _ _ B). destruct (bl_os _ _ _ _ _ _ B) as [Hos _].
  split; [|lia]. unfold fdt_getprop_by_offset. rewrite W2. cbn [mbind outcome_bind]. rewrite W3. cbn [mbind outcome_bind]. rewrite s32_small by lia. rewrite T1. reflexivity.
Qed.

Ltac look := repeat first [rewrite lookup_insert_eq | rewrite lookup_insert_ne by lia].

Section Build.
  Context (fuel : nat) (lit : string -> Z) (ops fdt os ostr ne : Z) (all : list item) (ms : mem) (R0 R1 : Z).
  Context (B : blob ms fdt os ostr ne all) (Hfuel : len all < Z.of_nat fuel) (Hfuel2 : (14 < fuel)%nat) (Hfuel3 : ne < Z.of_nat fuel).
  (** Literals and blob are outside of the pages. *)
  Context (Hlit : forall s, s ∈ ["name"; "phandle"; "linux,phandle"] -> cstr ms (lit s) (chars s)).
  Context (HR : forall x, R0 <= x < R1 -> ms !! x = None) (HR0 : 0 < R0) (HR1 : R1 < 2 ^ 64 - 8).
  Context (Hph : forall p, TProp p ∈ all -> is_phandle p = true -> length (fp_val p) = 4%nat).

Abbreviation good m := (ms ⊆ m).
Lemma good_insert (m : mem) x v : good m -> R0 <= x < R1 -> good (<[x := v]> m).
Proof. intros H Hx. apply insert_subseteq_r; [apply HR, Hx|exact H]. Qed.
Lemma good_same m m' : good m -> same_but (fun x => R0 <= x < R1) m m' -> good m'.
Proof.
  intros H Hs. apply map_subseteq_spec. intros x v Hx. rewrite Hs; [eapply lookup_weaken; eassumption|]. intros Hr. rewrite HR in Hx by exact Hr. discriminate.
Qed.

Fixpoint seg (m : mem) (link : Z) (l : list gprop) (last : Z) : Prop :=
  match l with
  | [] => link = last
  | p :: l =>
      m !! link = Some (gp_addr p) /\ m !! (gp_addr p + 0) = Some (gp_namep p) /\ m !! (gp_addr p + 8) = Some (Z.of_nat (length (gp_val p))) /\ m !! (gp_addr p + 16) = Some (gp_valp p) /\
      cstr ms (gp_namep p) (gp_name p) /\ gp_addr p <> 0 /\ seg m (gp_addr p + 24) l last
  end.
Lemma seg_app m l1 : forall link l2 last, seg m link (l1 ++ l2) last <-> exists mid, seg m link l1 mid /\ seg m mid l2 last.
Proof.
  induction l1 as [|p l1 IH]; intros link l2 last; cbn [app seg]; [split; [intros H; exists link; auto|intros (mid & -> & H); exact H]|]. rewrite IH. split.
  - intros (H1 & H2 & H3 & H4 & H5 & H6 & mid & H7 & H8). exists mid. tauto.
  - intros (mid & (H1 & H2 & H3 & H4 & H5 & H6 & H7) & H8). do 6 (split; [assumption|]). exists mid. auto.
Qed.
Lemma seg_frame m m' l : forall link last, seg m link l last -> m' !! link = m !! link ->
  (forall p x, p ∈ l -> gp_addr p <= x < gp_addr p + 32 -> m' !! x = m !! x) -> seg m' link l last.
Proof using ms.
  clear Hfuel2 Hfuel3 HR0 HR1 Hfuel.
  induction l as [|p l IH]; intros link last; cbn [seg]; [auto|]. intros (H1 & H2 & H3 & H4 & H5 & H6 & H7) El Hp.
  assert (forall x, gp_addr p <= x < gp_addr p + 32 -> m' !! x = m !! x) as Hx by (intros x Hx; apply (Hp p x); [left|exact Hx]).
  rewrite El, !Hx by lia. do 6 (split; [assumption|]). apply IH; [exact H7|apply Hx; lia|]. intros q x Hq. apply Hp. right. exact Hq.
Qed.

Lemma strcmp_lit m p l s : good m -> cstr m p l -> s ∈ ["name"; "phandle"; "linux,phandle"] -> (length l < fuel)%nat -> exists r, strcmp fuel m p (lit s) = Ok r /\ (r =? 0) = bool_decide (l = chars s).
Proof. intros Hg Hc Hs Hf. apply strcmp_eq; [exact Hc|eapply cstr_mono; [exact Hg|apply Hlit, Hs]|exact Hf]. Qed.

(** The names of the blob are short. *)
Lemma all_ok p : TProp p ∈ all -> item_ok ne (TProp p).
Proof. intros Hp. pose proof (bl_ok _ _ _ _ _ _ B) as H. rewrite Forall_forall in H. apply (H _ Hp). Qed.
Lemma name_short p : TProp p ∈ all -> (length (fp_name p) < fuel)%nat.
Proof. intros Hp. destruct (all_ok p Hp) as (_ & _ & H1 & H2). lia. Qed.

Lemma four_bytes (v : list Z) : length v = 4%nat -> Forall byte_ok v -> v = be32 (be_word v) /\ 0 <= be_word v < 2 ^ 32.
Proof.
  destruct v as [|a [|b [|c [|d [|e v]]]]]; try discriminate. intros _. rewrite !Forall_cons. unfold byte_ok. intros (Ha & Hb & Hc & Hd & _). cbn [be_word]. split; [|lia]. unfold be32.
  change (2 ^ 24) with 16777216. change (2 ^ 16) with 65536. change (2 ^ 8) with 256. repeat f_equal; Z.div_mod_to_equations; lia.
Qed.
Lemma put_phandle_ok m np p namep val ph : good m -> TProp p ∈ all -> R0 <= np -> np + 120 <= R1 -> cstr ms namep (fp_name p) -> bytes_at ms val (fp_val p) -> m !! (np + 8) = Some ph ->
  exists m', put_phandle fuel lit np namep val m = Ok (tt, m') /\ same_but (fun x => x = np + 8) m m' /\ m' !! (np + 8) = Some (if (ph =? 0) && is_phandle p then be_word (fp_val p) else ph).
Proof.
  intros Hg Hp H0 H1 Hn Hv Hm. pose proof (name_short p Hp) as Hs. assert (cstr m namep (fp_name p)) as Hn' by (eapply cstr_mono; eassumption).
  destruct (strcmp_lit m namep _ "phandle" Hg Hn' ltac:(set_solver) Hs) as (r1 & E1 & Q1). destruct (strcmp_lit m namep _ "linux,phandle" Hg Hn' ltac:(set_solver) Hs) as (r2 & E2 & Q2).
  unfold put_phandle. rewrite (rd_ok _ _ _ _ E1). assert (((if r1 =? 0 then mret true else r ← rd (fun m => strcmp fuel m namep (lit "linux,phandle")); mret (r =? 0)) : DM bool) m = Ok (is_phandle p, m)) as E.
  { unfold is_phandle. rewrite Q1. destruct (bool_decide (fp_name p = chars "phandle")); [reflexivity|]. rewrite (rd_ok _ _ _ _ E2), Q2. reflexivity. }
  rewrite (bind_ok _ _ _ _ _ E). destruct (is_phandle p) eqn:Ei; [|rewrite andb_false_r; exists m; split; [reflexivity|split; [intros x _; reflexivity|exact Hm]]].
  rewrite (get_ok _ _ _ _ _ Hm). rewrite andb_true_r. destruct (ph =? 0); [|exists m; split; [reflexivity|split; [intros x _; reflexivity|exact Hm]]].
  destruct (all_ok p Hp) as (_ & Hb & _). destruct (four_bytes (fp_val p) (Hph p Hp Ei) Hb) as [Ev Hr]. assert (be32_to_cpup m val = Ok (be_word (fp_val p))) as Ew. { apply be32_to_cpup_ok; [exact Hr|]. rewrite <- Ev. eapply bytes_mono; eassumption. }
  rewrite (rd_ok _ _ _ _ Ew). eexists. split; [apply put_ok; eauto|]. split; [apply same_but_insert|apply lookup_insert_eq].
Qed.

(** Several fields written one after the other. *)
Lemma put_bind {C} p f v (k : unit -> DM C) m : is_Some (m !! (p + f)) -> (put p f v ≫= k) m = k tt (<[p + f := v]> m).
Proof. intros H. apply bind_ok, put_ok, H. Qed.

Definition gprop_of (p : fprop) (g : gprop) : Prop := gp_name g = fp_name p /\ gp_val g = fp_val p /\ bytes_at ms (gp_valp g) (fp_val p) /\ 0 < gp_valp g.

(** One property: the fields and the link to it. *)
Lemma prop_fields m link pp namep sz val : zeroed m pp (pp + 32) -> is_Some (m !! link) -> link < pp ->
  let m' := <[link := pp]> (<[pp + 16 := val]> (<[pp + 8 := sz]> (<[pp + 0 := namep]> m))) in
  (put pp pp_name namep;; put pp pp_length sz;; put pp pp_value val;; put link 0 pp;; mret (pp + pp_next)) m = Ok (pp + 24, m') /\
  same_but (fun x => x = link \/ pp <= x < pp + 32) m m' /\ m' !! (pp + 24) = Some 0 /\ m' !! link = Some pp /\ m' !! (pp + 0) = Some namep /\ m' !! (pp + 8) = Some sz /\ m' !! (pp + 16) = Some val.
Proof.
  intros Hz Hl Hlt m'. unfold pp_name, pp_length, pp_value, pp_next. split; [|split; [|unfold m'; look; rewrite Hz by lia; auto]].
  - rewrite put_bind by (rewrite Hz by lia; eauto). rewrite put_bind by (look; rewrite Hz by lia; eauto). rewrite put_bind by (look; rewrite Hz by lia; eauto).
    rewrite put_bind by (rewrite Z.add_0_r; look; exact Hl). unfold m'. rewrite (Z.add_0_r link). reflexivity.
  - intros x Hx. unfold m'. rewrite !lookup_insert_ne by lia. reflexivity.
Qed.

Lemma props_loop_ok np rest : R0 <= np -> after_props rest -> forall ps f o memp link ph m, at_items all o ((TProp <$> ps) ++ rest) -> good m -> zeroed m memp R1 -> np + 120 <= memp ->
  np <= link < memp -> link <> np + 8 -> m !! link = Some 0 -> m !! (np + 8) = Some ph -> props_end memp ps <= R1 -> (length ps < f)%nat ->
  exists gps last m', props_loop fuel lit f fdt (prop_pos o ps) memp np link false m = Ok ((props_end memp ps, last), m') /\
    (forall m2, (forall x, x <> last -> x = link \/ memp <= x < props_end memp ps -> m2 !! x = m' !! x) -> seg m2 link gps last) /\ m' !! last = Some 0 /\ np <= last < props_end memp ps /\ last <> np + 8 /\ (last = link \/ memp <= last) /\ Forall2 gprop_of ps gps /\ Forall (fun g => memp <= gp_addr g /\ gp_addr g + 32 <= props_end memp ps) gps /\
    same_but (fun x => x = np + 8 \/ x = link \/ memp <= x < props_end memp ps) m m' /\ m' !! (np + 8) = Some (phandle_of ph ps) /\ zeroed m' (props_end memp ps) R1.
Proof.
  intros Hnp Hrest. induction ps as [|p ps IH]; intros f o memp link ph m H Hg Hz H1 H2 H2' Hl Hh Hend Hf; (destruct f as [|f]; [lia|]).
  { exists [], link, m. split; [reflexivity|]. split; [intros m2 _; reflexivity|]. split; [exact Hl|]. split; [cbn; lia|]. split; [exact H2'|]. split; [auto|]. split; [constructor|]. split; [constructor|]. split; [intros x _; reflexivity|]. split; [exact Hh|exact Hz]. }
  pose proof H as Hc. rewrite fmap_cons in Hc. cbn [app] in Hc. destruct (he_pos _ _ H) as (P1 & _). pose proof (here_elem o _ _ Hc) as Hp. cbn [props_loop prop_pos props_end] in *. destruct (Z.leb_spec 0 o); [|lia].
  pose proof (up8_facts memp) as [U1 _]. pose proof (props_end_le ps (up8 memp + SIZEOF_PROPERTY)) as Hle. change SIZEOF_PROPERTY with 32 in *. set (pp := up8 memp) in *.
  destruct (prop_bytes fuel ms fdt os ostr ne all B Hfuel o p _ Hc) as (_ & _ & _ & V4). destruct (get_string_ok fuel ms fdt os ostr ne all B Hfuel p Hp) as [_ S2].
  destruct (getprop_by_offset_ok fuel m fdt os ostr ne all o p _ (blob_mono _ _ _ _ _ _ _ Hg B) Hfuel Hc) as (Ep & Hv0 & Hn0). set (val := fdt + os + o + 12) in *. set (namep := fdt + ostr + fp_off p) in *.
  rewrite (rd_ok _ _ _ _ Ep). destruct (Z.eqb_spec val 0); [lia|]. destruct (Z.eqb_spec namep 0); [lia|]. rewrite alloc_ok by lia. fold pp.
  destruct (put_phandle_ok m np p namep val ph Hg Hp Hnp ltac:(lia) S2 V4 Hh) as (m1 & E1 & Q1 & Q2). rewrite (bind_ok _ _ _ (pp + 24) (<[link := pp]> (<[pp + 16 := val]> (<[pp + 8 := Z.of_nat (length (fp_val p))]> (<[pp + 0 := namep]> m1))))).
  2: { rewrite (bind_ok _ _ _ _ _ E1). apply prop_fields; [intros x Hx; rewrite Q1 by lia; apply Hz; lia|rewrite Q1 by lia; eauto|lia]. }
  destruct (prop_fields m1 link pp namep (Z.of_nat (length (fp_val p))) val) as (_ & F1 & F2 & F3 & F4 & F5 & F6); [intros x Hx; rewrite Q1 by lia; apply Hz; lia|rewrite Q1 by lia; eauto|lia|]. set (m2 := <[link := pp]> _) in *.
  assert (good m2) as Hg2. { apply (good_same m); [exact Hg|]. eapply same_but_weaken; [eapply same_but_trans; [exact Q1|exact F1]|]. cbn. intros x [Hx|Hx]; lia. }
  assert (fdt_next_property_offset fuel m2 fdt o = Ok (prop_pos (o + ilen (TProp p)) ps)) as En. { apply (next_property_ok fuel m2 fdt os ostr ne all (blob_mono _ _ _ _ _ _ _ Hg2 B) Hfuel o p ps rest H Hrest). }
  rewrite (rd_ok _ _ _ _ En).
  assert (zeroed m2 (pp + 32) R1) as Hz2. { intros x Hx. rewrite F1, Q1 by lia. apply Hz. lia. }
  assert (m2 !! (np + 8) = Some (if (ph =? 0) && is_phandle p then be_word (fp_val p) else ph)) as Hh2 by (rewrite F1 by lia; exact Q2).
  destruct (IH f (o + ilen (TProp p)) (pp + 32) (pp + 24) _ m2 (here_next _ _ _ Hc) Hg2 Hz2 ltac:(lia) ltac:(lia) ltac:(lia) F2 Hh2 Hend ltac:(cbn in Hf; lia)) as (gps & last & m' & E & C1 & C2 & C3 & C4 & C5 & C6 & C7 & C8 & C9 & C10).
  exists (GProp pp namep (fp_name p) val (fp_val p) :: gps), last, m'. split; [exact E|]. assert (forall x, ~ (x = np + 8 \/ x = pp + 24 \/ pp + 32 <= x) -> m' !! x = m2 !! x) as Hm' by (intros x Hx; apply C8; lia).
  split; [|split; [exact C2|]; split; [lia|]; split; [exact C4|]; split; [lia|]; split; [constructor; [split; [reflexivity|]; split; [reflexivity|]; split; [exact V4|]; cbn; lia|exact C6]|]; split; [constructor; [cbn; lia|]; eapply Forall_impl; [exact C7|]; cbn; intros q Hq; lia|]; split; [|split; [exact C9|exact C10]]].
  - intros m3 H3m. cbn [seg gp_addr gp_namep gp_name gp_valp gp_val]. rewrite !H3m, !Hm' by lia. do 5 (split; [assumption|]). split; [lia|]. apply C1. intros x Hx Hr. apply H3m; lia.
  - intros x Hx. rewrite C8, F1, Q1 by lia. reflexivity.
Qed.

(** A copy out of the static memory into the pages. *)
Lemma copy_static m dest src l : good m -> bytes_at ms src l -> Forall byte_ok l -> R0 <= dest -> dest + Z.of_nat (length l) <= R1 -> writable m dest (Z.of_nat (length l)) ->
  exists m', copy dest src (Z.of_nat (length l)) m = Ok (tt, m') /\ bytes_at m' dest l /\ eq_outside dest (Z.of_nat (length l)) m m'.
Proof.
  intros Hg Hb Hl H0 H1 Hw. destruct (copy_up_ok l Hl m dest src) as (m' & E & K1 & K2); [eapply bytes_mono; eassumption|exact Hw| |].
  - destruct (Z.le_gt_cases dest src) as [|Hgt]; [left; assumption|right]. destruct (Z.le_gt_cases (src + Z.of_nat (length l)) dest) as [|Hlt]; [assumption|exfalso].
    destruct (bytes_at_writable ms src l Hb dest ltac:(lia)) as [v Hv]. rewrite HR in Hv by lia. discriminate.
  - exists m'. split; [|auto]. unfold copy. rewrite bind_get. unfold memcpy. rewrite Nat2Z.id, E. reflexivity.
Qed.

(** The property that every node gets: the last part of its name. *)
Lemma name_prop_ok m last pp src l : good m -> zeroed m pp R1 -> pp + 32 + Z.of_nat (length l) + 1 <= R1 -> R0 <= pp -> R0 <= last < pp -> is_Some (m !! last) -> bytes_at ms src l -> Forall byte_ok l ->
  let n := Z.of_nat (length l) + 1 in
  exists m', (put pp pp_name (lit "name");; put pp pp_length n;; put pp pp_value (pp + SIZEOF_PROPERTY);; put last 0 pp;;
              copy (pp + SIZEOF_PROPERTY) src (n - 1);; put (pp + SIZEOF_PROPERTY) (n - 1) 0;; put (pp + pp_next) 0 0) m = Ok (tt, m') /\
    m' !! last = Some pp /\ m' !! (pp + 0) = Some (lit "name") /\ m' !! (pp + 8) = Some n /\ m' !! (pp + 16) = Some (pp + 32) /\ m' !! (pp + 24) = Some 0 /\ bytes_at m' (pp + 32) (l ++ [0]) /\
    same_but (fun x => x = last \/ pp <= x < pp + 32 + n) m m'.
Proof.
  intros Hg Hz He Hr Hl [v Hv] Hb Hbo n. change SIZEOF_PROPERTY with 32. unfold pp_name, pp_length, pp_value, pp_next. assert (forall x, pp <= x < pp + 32 + n -> m !! x = Some 0) as Hz' by (intros x Hx; apply Hz; lia).
  rewrite put_bind by (rewrite Hz' by lia; eauto). rewrite put_bind by (look; rewrite Hz' by lia; eauto). rewrite put_bind by (look; rewrite Hz' by lia; eauto). rewrite put_bind by (rewrite Z.add_0_r; look; rewrite Hv; eauto). rewrite (Z.add_0_r last).
  set (m1 := <[last := pp]> _). assert (forall x, x <> last -> x <> pp + 0 -> x <> pp + 8 -> x <> pp + 16 -> m1 !! x = m !! x) as Hm1 by (intros x X1 X2 X3 X4; unfold m1; rewrite !lookup_insert_ne by congruence; reflexivity).
  assert (good m1) as Hg1. { apply (good_same m); [exact Hg|]. intros x Hx. apply Hm1; lia. }
  destruct (copy_static m1 (pp + 32) src l Hg1 Hb Hbo ltac:(lia) ltac:(lia)) as (m2 & E2 & K1 & K2). { intros x Hx. rewrite Hm1 by lia. rewrite Hz' by lia. eauto. }
  replace (n - 1) with (Z.of_nat (length l)) by lia. rewrite (bind_ok _ _ _ _ _ E2). assert (forall x, ~ (pp + 32 <= x < pp + 32 + Z.of_nat (length l)) -> m2 !! x = m1 !! x) as Hm2 by (intros x Hx; apply K2, Hx).
  rewrite put_bind by (rewrite Hm2, Hm1, Hz' by lia; eauto). set (m3 := <[pp + 32 + Z.of_nat (length l) := 0]> m2). assert (forall x, x <> pp + 32 + Z.of_nat (length l) -> m3 !! x = m2 !! x) as Hm3 by (intros x Hx; unfold m3; apply lookup_insert_ne; congruence).
  rewrite put_ok by (rewrite Z.add_0_r, Hm3, Hm2, Hm1, Hz' by lia; eauto). rewrite (Z.add_0_r (pp + 24)). set (m4 := <[pp + 24 := 0]> m3). assert (forall x, x <> pp + 24 -> m4 !! x = m3 !! x) as Hm4 by (intros x Hx; unfold m4; apply lookup_insert_ne; congruence).
  exists m4. split; [reflexivity|]. rewrite !Hm4, !Hm3, !Hm2 by lia. split; [unfold m1; look; reflexivity|]. split; [unfold m1; look; reflexivity|]. split; [unfold m1; look; reflexivity|]. split; [unfold m1; look; reflexivity|].
  split; [unfold m4; apply lookup_insert_eq|]. split.
  - apply bytes_at_app. split; [apply (bytes_at_ext m2); [intros x Hx; rewrite Hm4, Hm3 by lia; reflexivity|exact K1]|]. split; [|exact Logic.I]. rewrite Hm4 by lia. unfold m3. apply lookup_insert_eq.
  - intros x Hx. rewrite Hm4, Hm3, Hm2, Hm1 by lia. reflexivity.
Qed.

Lemma Forall_base name : Forall byte_ok name -> Forall byte_ok (base_of name).
Proof. intros H. unfold base_of. destruct (base_bounds name). apply Forall_take, Forall_drop, H. Qed.

Definition name_prop (pp : Z) (name : list Z) : gprop := GProp pp (lit "name") (chars "name") (pp + 32) (base_of name ++ [0]).

Lemma populate_properties_ok m o name ps rest np memp : R0 <= np -> at_items all o (TBegin name :: (TProp <$> ps) ++ rest) -> after_props rest -> good m -> zeroed m memp R1 -> np + 120 <= memp ->
  m !! (np + 24) = Some 0 -> m !! (np + 8) = Some 0 ->
  let pp := up8 (props_end memp ps) in let e := pp + (32 + Z.of_nat (length (base_of name)) + 1) in e <= R1 ->
  exists gps m', populate_properties fuel lit fdt o memp np (fdt + os + o + 4) false m = Ok (e, m') /\
    seg m' (np + 24) (gps ++ [name_prop pp name]) (pp + 24) /\ m' !! (pp + 24) = Some 0 /\ bytes_at m' (pp + 32) (base_of name ++ [0]) /\ Forall2 gprop_of ps gps /\ Forall (fun g => memp <= gp_addr g /\ gp_addr g + 32 <= pp) gps /\
    same_but (fun x => x = np + 8 \/ x = np + 24 \/ memp <= x < e) m m' /\ m' !! (np + 8) = Some (phandle_of 0 ps) /\ zeroed m' e R1.
Proof.
  intros Hnp H Hrest Hg Hz H1 Hl Hh pp e He. pose proof (up8_facts (props_end memp ps)) as [U1 _]. fold pp in U1. pose proof (props_end_le ps memp) as Hle. pose proof (blob_mono _ _ _ _ _ _ _ Hg B) as Bm.
  unfold populate_properties. assert (fdt_first_property_offset fuel m fdt o = Ok (prop_pos (o + ilen (TBegin name)) ps)) as E0 by (apply (first_property_ok fuel m fdt os ostr ne all Bm Hfuel o name ps rest H Hrest)). rewrite (rd_ok _ _ _ _ E0).
  pose proof (here_items fuel ms fdt os ostr ne all B Hfuel o _ H) as Hi. cbn [length] in Hi. rewrite length_app, length_fmap in Hi.
  destruct (props_loop_ok np rest Hnp Hrest ps fuel (o + ilen (TBegin name)) memp (np + 24) 0 m (here_next _ _ _ H) Hg Hz H1 ltac:(lia) ltac:(lia) Hl Hh ltac:(lia) ltac:(lia)) as (gps & last & m1 & E1 & C1 & C2 & C3 & C4 & C5 & C6 & C7 & C8 & C9 & C10).
  rewrite (bind_ok _ _ _ _ _ E1). assert (good m1) as Hg1 by (apply (good_same m); [exact Hg|]; eapply same_but_weaken; [exact C8|]; cbn; intros x Hx; lia).
  destruct (get_name_ok fuel ms fdt os ostr ne all B Hfuel o name _ H) as [_ Hc]. set (nd := fdt + os + o + 4) in *. pose proof (bl_pos _ _ _ _ _ _ B). destruct (bl_os _ _ _ _ _ _ B) as [Hos _]. destruct (he_pos _ _ H) as (P1 & _ & P3).
  pose proof (begin_short fuel all o name _ Hfuel H) as Hln.
  destruct (name_split fuel m1 nd name (cstr_mono _ _ _ _ Hg1 Hc) Hln ltac:(unfold nd; lia)) as (bs & pa & En & Epa & Hbs & Hbase). rewrite (rd_ok _ _ _ _ En), Epa. specialize (Hbase ms (proj1 Hc)).
  replace (nd + bs + Z.of_nat (length (base_of name)) - (nd + bs) + 1) with (Z.of_nat (length (base_of name)) + 1) by lia. rewrite alloc_ok by (change SIZEOF_PROPERTY with 32; lia). fold pp.
  destruct (name_prop_ok m1 last pp (nd + bs) (base_of name) Hg1) as (m2 & E2 & N1 & N2 & N3 & N4 & N5 & N6 & N7).
  { intros x Hx. apply C10. lia. } { lia. } { lia. } { lia. } { rewrite C2. eauto. } { exact Hbase. } { apply Forall_base, char_bytes, Hc. }
  exists gps, m2. split; [rewrite (bind_ok _ _ _ _ _ E2); apply (f_equal (fun z => Ok (z, m2))); unfold e; change SIZEOF_PROPERTY with 32; lia|]. split; [|split; [exact N5|]; split; [exact N6|]; split; [exact C6|]; split; [|split; [|split; [|]]]].
  - apply seg_app. exists last. split; [apply C1; intros x Hx Hr; apply N7; lia|]. cbn [seg name_prop gp_addr gp_namep gp_name gp_valp gp_val]. rewrite N1, N2, N4. rewrite length_app. cbn [length]. rewrite N3. rewrite Nat2Z.inj_add.
    do 4 (split; [reflexivity|]). split; [apply Hlit; set_solver|]. split; [lia|reflexivity].
  - eapply Forall_impl; [exact C7|]. cbn. intros g Hgx. lia.
  - intros x Hx. rewrite N7, C8 by lia. reflexivity.
  - rewrite N7 by lia. exact C9.
  - intros x Hx. rewrite N7 by lia. apply C10. lia.
Qed.

(** ** Looking up a property *)

Lemma find_loop_ok m q nm l : cstr m q nm -> good m -> forall f link last, seg m link l last -> m !! last = Some 0 -> Forall (fun g => (length (gp_name g) < fuel)%nat) l -> (length l < f)%nat ->
  exists pp, m !! link = Some pp /\ find_property_loop fuel f m pp q = Ok (gaddr (find_gprop nm l)).
Proof.
  intros Hq Hg. induction l as [|p l IH]; intros f link last Hs Hl Hn Hf; (destruct f as [|f]; [cbn in Hf; lia|]); cbn [seg find_gprop] in *; [subst; exists 0; auto|].
  destruct Hs as (H1 & H2 & H3 & H4 & H5 & H6 & H7). apply Forall_cons in Hn as [Hn0 Hn]. exists (gp_addr p). split; [exact H1|]. cbn [find_property_loop]. destruct (Z.eqb_spec (gp_addr p) 0); [contradiction|].
  assert (ldf m (gp_addr p) pp_name = Ok (gp_namep p)) as -> by (apply load8_ok, H2). cbn [mbind outcome_bind]. destruct (strcmp_eq fuel m (gp_namep p) q (gp_name p) nm (cstr_mono _ _ _ _ Hg H5) Hq Hn0) as (r & -> & Er). cbn [mbind outcome_bind]. rewrite Er. case_bool_decide; [reflexivity|].
  destruct (IH f (gp_addr p + 24) last H7 Hl Hn ltac:(cbn in Hf; lia)) as (pp & E1 & E2). unfold ldf, pp_next. rewrite (load8_ok _ _ _ E1). exact E2.
Qed.
Lemma seg_in m l : forall link last p, seg m link l last -> p ∈ l -> m !! (gp_addr p + 8) = Some (Z.of_nat (length (gp_val p))) /\ m !! (gp_addr p + 16) = Some (gp_valp p) /\ gp_addr p <> 0.
Proof. induction l as [|q l IH]; intros link last p Hs Hp; [inversion Hp|]. cbn [seg] in Hs. apply elem_of_cons in Hp as [->|Hp]; [tauto|]. eapply IH; [apply Hs|exact Hp]. Qed.
Lemma get_property_ok m np q nm l last : cstr m q nm -> good m -> np <> 0 -> seg m (np + 24) l last -> m !! last = Some 0 -> Forall (fun g => (length (gp_name g) < fuel)%nat) l -> (length l < fuel)%nat ->
  of_get_property fuel m np q = Ok (gvalue (find_gprop nm l)).
Proof.
  intros Hq Hg Hnp Hs Hl Hn Hf. destruct (find_loop_ok m q nm l Hq Hg fuel _ _ Hs Hl Hn Hf) as (pp & E1 & E2). unfold of_get_property, of_find_property, __of_find_property. destruct (Z.eqb_spec np 0); [contradiction|].
  assert (ldf m np dn_properties = Ok pp) as -> by (apply load8_ok, E1). cbn [mbind outcome_bind]. rewrite E2. cbn [mbind outcome_bind]. destruct (find_gprop nm l) as [p|] eqn:Ef; [|reflexivity]. cbn [gaddr gvalue].
  apply find_gprop_in in Ef as [Hp _]. destruct (seg_in _ _ _ _ _ Hs Hp) as (K1 & K2 & K3). destruct (Z.eqb_spec (gp_addr p) 0); [contradiction|]. assert (ldf m (gp_addr p) pp_value = Ok (gp_valp p)) as -> by (apply load8_ok, K2). cbn [mbind outcome_bind]. assert (ldf m (gp_addr p) pp_length = Ok (Z.of_nat (length (gp_val p)))) as -> by (apply load8_ok, K1). reflexivity.
Qed.

(** ** Nodes *)

Definition g_props (n : gnode) : list gprop := g_plist n ++ [name_prop (g_pp n) (g_name n)].
Definition g_nameval (n : gnode) : Z := (gvalue (find_gprop (chars "name") (g_props n))).1.
(** The parts of a node lie in its interval of memory, its links apart. *)
Record fits (n : gnode) : Prop := {
  ft_name : g_addr n + 120 + Z.of_nat (length (g_name n)) + 1 <= g_pp n;
  ft_props : Forall (fun g => g_addr n + 120 <= gp_addr g /\ gp_addr g + 32 <= g_pp n) (g_plist n);
  ft_end : g_pp n + 32 + Z.of_nat (length (base_of (g_name n))) + 1 = g_end n }.
Record body (m : mem) (parent : Z) (n : gnode) : Prop := {
  bd_fits : fits n;
  bd_name : m !! (g_addr n + 0) = Some (g_nameval n);
  bd_phandle : m !! (g_addr n + 8) = Some (g_phandle n);
  bd_full_name : m !! (g_addr n + 16) = Some (g_addr n + 120) /\ bytes_at m (g_addr n + 120) (g_name n ++ [0]);
  bd_parent : m !! (g_addr n + 32) = Some parent;
  bd_flags : m !! (g_addr n + 112) = Some 0;
  bd_props : seg m (g_addr n + 24) (g_props n) (g_pp n + 24) /\ m !! (g_pp n + 24) = Some 0;
  bd_base : bytes_at m (g_pp n + 32) (base_of (g_name n) ++ [0]) }.
Lemma body_frame m m' parent n : body m parent n -> (forall x, g_addr n <= x < g_end n -> x <> g_addr n + 40 -> x <> g_addr n + 48 -> m' !! x = m !! x) -> body m' parent n.
Proof using lit ms.
  clear Hfuel2 Hfuel3 HR0 HR1 Hfuel.
  intros [Hf H1 H2 [H3 H4] H5 H5' [H6 H7] H8] Hx. pose proof Hf as [F1 F2 F3]. split; try (rewrite Hx by lia); try assumption.
  - split; [exact H3|]. apply (bytes_at_ext m); [|exact H4]. rewrite length_app. cbn [length]. intros x Hr. apply Hx; lia.
  - split; [|exact H7]. apply (seg_frame m); [exact H6|apply Hx; lia|]. intros p x Hp Hr. apply elem_of_app in Hp as [Hp|Hp].
    + rewrite Forall_forall in F2. specialize (F2 p Hp). apply Hx; lia.
    + apply list_elem_of_singleton in Hp as ->. cbn in Hr. apply Hx; lia.
  - apply (bytes_at_ext m); [|exact H8]. rewrite length_app. cbn [length]. intros x Hr. apply Hx; lia.
Qed.

(** The node itself, before its properties. *)
Lemma node_head_ok m np src name dad c : good m -> zeroed m np R1 -> R0 <= np -> np + 120 + Z.of_nat (length name) + 1 <= R1 -> cstr ms src name -> (dad <> 0 -> R0 <= dad /\ dad + 120 <= np /\ m !! (dad + 40) = Some c) ->
  exists m', (put np dn_fwnode_ops ops;; put np dn_full_name (np + SIZEOF_DEVICE_NODE);; copy (np + SIZEOF_DEVICE_NODE) src (Z.of_nat (length name) + 1);;
              if negb (dad =? 0) then put np dn_parent dad;; c ← get dad dn_child; put np dn_sibling c;; put dad dn_child np else mret tt) m = Ok (tt, m') /\
    m' !! (np + 16) = Some (np + 120) /\ bytes_at m' (np + 120) (name ++ [0]) /\ m' !! (np + 32) = Some dad /\ m' !! (np + 48) = Some (if dad =? 0 then 0 else c) /\ (dad <> 0 -> m' !! (dad + 40) = Some np) /\
    same_but (fun x => (dad <> 0 /\ x = dad + 40) \/ x = np + 16 \/ x = np + 32 \/ x = np + 48 \/ x = np + 96 \/ np + 120 <= x < np + 120 + Z.of_nat (length name) + 1) m m'.
Proof.
  intros Hg Hz Hr He [Hb Hc] Hd. change SIZEOF_DEVICE_NODE with 120. unfold dn_fwnode_ops, dn_full_name, dn_parent, dn_child, dn_sibling.
  rewrite put_bind by (rewrite Hz by lia; eauto). rewrite put_bind by (look; rewrite Hz by lia; eauto). set (m1 := <[np + 16 := np + 120]> (<[np + 96 := ops]> m)).
  assert (forall x, x <> np + 16 -> x <> np + 96 -> m1 !! x = m !! x) as Hm1 by (intros x X1 X2; unfold m1; look; reflexivity).
  assert (good m1) as Hg1 by (apply (good_same m); [exact Hg|]; intros x Hx; apply Hm1; lia).
  destruct (copy_static m1 (np + 120) src (name ++ [0]) Hg1 Hb) as (m2 & E2 & K1 & K2); [apply Forall_app; split; [apply char_bytes, Hc|repeat constructor; unfold byte_ok; lia]|lia|rewrite length_app; cbn; lia| |].
  { rewrite length_app. cbn [length]. intros x Hx. rewrite Hm1, Hz by lia. eauto. }
  rewrite length_app in E2, K2. cbn [length] in E2, K2. rewrite Nat2Z.inj_add in E2, K2. change (Z.of_nat 1) with 1 in E2, K2. rewrite (bind_ok _ _ _ _ _ E2).
  assert (forall x, ~ (np + 120 <= x < np + 120 + (Z.of_nat (length name) + 1)) -> m2 !! x = m1 !! x) as Hm2 by (intros x Hx; apply K2, Hx).
  assert (m2 !! (np + 16) = Some (np + 120)) as H16 by (rewrite Hm2 by lia; unfold m1; apply lookup_insert_eq).
  destruct (Z.eqb_spec dad 0) as [->|Hdad]; cbn [negb].
  { exists m2. split; [reflexivity|]. split; [exact H16|]. split; [exact K1|]. rewrite !Hm2, !Hm1, !Hz by lia. do 2 (split; [reflexivity|]). split; [contradiction|]. intros x Hx. rewrite Hm2, Hm1 by lia. reflexivity. }
  destruct (Hd Hdad) as (D1 & D2 & D3). rewrite put_bind by (rewrite Hm2, Hm1, Hz by lia; eauto). rewrite (get_ok _ _ _ _ c) by (look; rewrite Hm2, Hm1 by lia; exact D3).
  rewrite put_bind by (look; rewrite Hm2, Hm1, Hz by lia; eauto). rewrite put_ok by (look; rewrite Hm2, Hm1 by lia; eauto). eexists. split; [reflexivity|]. look. split; [exact H16|]. split; [|split; [reflexivity|]; split; [reflexivity|]; split; [auto|]].
  - apply (bytes_at_ext m2); [|exact K1]. rewrite length_app. cbn [length]. intros x Hx. look. reflexivity.
  - intros x Hx. rewrite !lookup_insert_ne by lia. rewrite Hm2, Hm1 by lia. reflexivity.
Qed.

Lemma plist_short ps gps : Forall2 gprop_of ps gps -> (forall p, p ∈ ps -> TProp p ∈ all) -> Forall (fun g => (length (gp_name g) < fuel)%nat) gps.
Proof.
  induction 1 as [|p g ps gps (Hn & _) _ IH]; intros Hin; constructor.
  - rewrite Hn. apply name_short, Hin. left.
  - apply IH. intros q Hq. apply Hin. right. exact Hq.
Qed.
Lemma g_nameval_pos n ps : Forall2 gprop_of ps (g_plist n) -> 0 < g_pp n -> g_nameval n <> 0.
Proof.
  intros H2 Hp. unfold g_nameval, g_props. destruct (find_gprop_last (chars "name") (g_plist n) (name_prop (g_pp n) (g_name n)) eq_refl) as [q E]. rewrite E. cbn [gvalue fst]. apply find_gprop_in in E as [Hq _].
  apply elem_of_app in Hq as [Hq|Hq]; [|apply list_elem_of_singleton in Hq as ->; cbn; lia]. apply list_elem_of_lookup in Hq as [i Hi]. destruct (Forall2_lookup_r _ _ _ _ _ H2 Hi) as (p & _ & _ & _ & _ & Hv). lia.
Qed.

(** What the code makes of a node of the blob. *)
Definition node_of (name : list Z) (ps : list fprop) (n : gnode) : Prop := g_name n = name /\ Forall2 gprop_of ps (g_plist n) /\ g_phandle n = phandle_of 0 ps.

Lemma populate_node_ok m o name ps rest memp dad c : at_items all o (TBegin name :: (TProp <$> ps) ++ rest) -> after_props rest -> good m -> zeroed m memp R1 -> R0 <= memp -> node_end memp name ps <= R1 ->
  (dad <> 0 -> R0 <= dad /\ dad + 120 <= memp /\ m !! (dad + 40) = Some c) ->
  exists n m', populate_node fuel lit ops fdt o memp dad false m = Ok ((up8 memp, node_end memp name ps), m') /\ g_addr n = up8 memp /\ g_end n = node_end memp name ps /\ node_of name ps n /\ body m' dad n /\
    m' !! (up8 memp + 40) = Some 0 /\ m' !! (up8 memp + 48) = Some (if dad =? 0 then 0 else c) /\ (dad <> 0 -> m' !! (dad + 40) = Some (up8 memp)) /\
    same_but (fun x => (dad <> 0 /\ x = dad + 40) \/ up8 memp <= x < node_end memp name ps) m m' /\ zeroed m' (node_end memp name ps) R1.
Proof.
  intros H Hrest Hg Hz H0 He Hd. pose proof (up8_facts memp) as [U1 _]. destruct (get_name_ok fuel m fdt os ostr ne all (blob_mono _ _ _ _ _ _ _ Hg B) Hfuel o name _ H) as [En _]. destruct (get_name_ok fuel ms fdt os ostr ne all B Hfuel o name _ H) as [_ Hc].
  unfold populate_node. rewrite (rd_ok _ _ _ _ En). pose proof He as He'. unfold node_end in He'. set (np := up8 memp) in *. set (mp := np + (SIZEOF_DEVICE_NODE + Z.of_nat (length name) + 1)) in *. pose proof (props_end_le ps mp) as Hle. pose proof (up8_facts (props_end mp ps)) as [U2 _].
  set (pp := up8 (props_end mp ps)) in *. change SIZEOF_PROPERTY with 32 in *. assert (mp = np + 120 + Z.of_nat (length name) + 1) as Emp by (unfold mp; change SIZEOF_DEVICE_NODE with 120; lia). assert (node_end memp name ps = pp + (32 + Z.of_nat (length (base_of name)) + 1)) as Ene by reflexivity.
  rewrite alloc_ok by (change SIZEOF_DEVICE_NODE with 120; lia). fold np. replace (np + (SIZEOF_DEVICE_NODE + (Z.of_nat (length name) + 1))) with mp by (unfold mp; lia).
  destruct (node_head_ok m np (fdt + os + o + 4) name dad c Hg) as (m1 & E1 & P1 & P2 & P3 & P4 & P5 & P6); [intros x Hx; apply Hz; lia|lia|lia|exact Hc|intros Hdad; specialize (Hd Hdad); repeat split; try apply Hd; lia|].
  rewrite (bind_ok _ _ _ _ _ E1). assert (good m1) as Hg1 by (apply (good_same m); [exact Hg|]; eapply same_but_weaken; [exact P6|]; cbn; intros x [[Hx ->]|Hx]; [specialize (Hd Hx)|]; lia).
  assert (dad <> 0 -> dad + 120 <= memp) as Hd2 by (intros Hx; apply Hd in Hx; lia).
  assert (forall x, np <= x -> x <> np + 16 -> x <> np + 32 -> x <> np + 48 -> x <> np + 96 -> ~ (np + 120 <= x < mp) -> m1 !! x = m !! x) as Hm1 by (intros x X1 X2 X3 X4 X5 X6; apply P6; lia).
  destruct (populate_properties_ok m1 o name ps rest np mp) as (gps & m2 & E2 & Q1 & Q2 & Q3 & Q4 & Q5 & Q6 & Q7 & Q8); [lia|exact H|exact Hrest|exact Hg1|intros x Hx; rewrite Hm1 by lia; apply Hz; lia|lia|rewrite Hm1 by lia; apply Hz; lia|rewrite Hm1 by lia; apply Hz; lia|fold pp; lia|].
  fold pp in E2, Q1, Q2, Q3, Q5, Q6, Q8. rewrite <- Ene in E2, Q6, Q8. rewrite (bind_ok _ _ _ _ _ E2).
  assert (good m2) as Hg2 by (apply (good_same m1); [exact Hg1|]; eapply same_but_weaken; [exact Q6|]; cbn; intros x Hx; lia).
  set (n := GN np (node_end memp name ps) name gps pp (phandle_of 0 ps)).
  assert (of_get_property fuel m2 np (lit "name") = Ok (gvalue (find_gprop (chars "name") (g_props n)))) as Eg.
  { apply (get_property_ok m2 np (lit "name") (chars "name") _ (pp + 24)); [eapply cstr_mono; [exact Hg2|apply Hlit; set_solver]|exact Hg2|lia|exact Q1|exact Q2| |].
    - apply Forall_app. split; [|repeat constructor; cbn; lia]. apply (plist_short ps); [exact Q4|]. intros p Hp. destruct H as [_ [pre ->]]. set_solver.
    - unfold g_props. rewrite length_app. cbn [length g_plist n]. rewrite <- (Forall2_length _ _ _ Q4). pose proof (here_items fuel ms fdt os ostr ne all B Hfuel o _ H) as Hi. cbn [length] in Hi. rewrite length_app, length_fmap in Hi. destruct Hrest as (i & l' & -> & _). cbn in Hi. lia. }
  assert (g_nameval n <> 0) as Hnv by (apply (g_nameval_pos n ps Q4); cbn; lia). unfold g_nameval in Hnv.
  set (m3 := <[np + 0 := g_nameval n]> m2). exists n, m3. assert (forall x, x <> np + 0 -> m3 !! x = m2 !! x) as Hm3 by (intros x Hx; unfold m3; look; reflexivity).
  assert (forall x, np <= x < mp -> x <> np + 8 -> x <> np + 24 -> m2 !! x = m1 !! x) as Hm2 by (intros x X1 X2 X3; apply Q6; lia).
  split; [|split; [reflexivity|]; split; [reflexivity|]; split; [split; [reflexivity|]; split; [exact Q4|reflexivity]|]; split; [|split; [|split; [|split; [|split]]]]].
  - rewrite (bind_ok _ _ _ tt m3); [reflexivity|]. rewrite (rd_ok _ _ _ _ Eg). unfold m3, g_nameval. destruct (gvalue (find_gprop (chars "name") (g_props n))) as [v vl]; cbn [fst] in *. destruct (Z.eqb_spec v 0); [contradiction|]. apply put_ok. unfold dn_name. rewrite Hm2, Hm1, Hz by lia. eauto.
  - split; cbn [n g_addr g_end g_name g_plist g_pp g_phandle].
    + split; cbn [n g_addr g_end g_name g_plist g_pp g_phandle]; [lia| |lia]. eapply Forall_impl; [exact Q5|]. cbn. intros g Hgx. lia.
    + unfold m3. apply lookup_insert_eq.
    + rewrite Hm3 by lia. exact Q7.
    + rewrite Hm3, Hm2 by lia. split; [exact P1|]. apply (bytes_at_ext m1); [|exact P2]. rewrite length_app. cbn [length]. intros x Hx. rewrite Hm3, Hm2 by lia. reflexivity.
    + rewrite Hm3, Hm2 by lia. exact P3.
    + rewrite Hm3, Hm2, Hm1 by lia. apply Hz. lia.
    + rewrite (Hm3 (pp + 24)) by lia. split; [|exact Q2]. apply (seg_frame m2); [exact Q1|apply Hm3; lia|]. intros p x Hp Hx. apply Hm3. apply elem_of_app in Hp as [Hp|Hp]; [rewrite Forall_forall in Q5; specialize (Q5 p Hp); lia|]. apply list_elem_of_singleton in Hp as ->. cbn in Hx. lia.
    + apply (bytes_at_ext m2); [|exact Q3]. intros x Hx. apply Hm3. lia.
  - rewrite Hm3, Hm2, Hm1 by lia. apply Hz. lia.
  - rewrite Hm3, Hm2 by lia. exact P4.
  - intros Hdad. specialize (Hd2 Hdad). rewrite Hm3, Q6 by lia. apply P5, Hdad.
  - intros x Hx. rewrite Hm3, Q6, P6 by lia. reflexivity.
  - intros x Hx. rewrite Hm3 by lia. apply Q8. lia.
Qed.

(** ** Trees *)

Inductive made : ftree -> gtree -> Prop := Made name ps kids n gs : node_of name ps n -> Forall2 made kids gs -> made (FNode name ps kids) (GTree n gs).
Abbreviation bodies m l := (Forall (fun pn => body m (pn : Z * gnode).1 pn.2) l).
Lemma bodies_frame m m' g parent lo hi : bodies m (flat parent g) -> chain lo (gnodes g) hi -> (forall x, lo <= x < hi -> m' !! x = m !! x) -> bodies m' (flat parent g).
Proof.
  intros Hb Hc Hx. rewrite Forall_forall in *. intros [q n] Hn. apply (body_frame m); [apply (Hb _ Hn)|]. assert (n ∈ gnodes g) as Hn' by (rewrite <- (flat_nodes g parent); apply list_elem_of_fmap; exists (q, n); auto).
  intros x X1 _ _. cbn in X1. destruct (chain_in _ _ _ _ Hc Hn') as (? & ? & ?). apply Hx. lia.
Qed.
Lemma linked_keep m m' g c lo hi : linked m c (mirror g) -> chain lo (gnodes g) hi -> (forall x, lo <= x < hi -> m' !! x = m !! x) -> linked m' c (mirror g).
Proof. intros H Hc Hx. apply (linked_frame m); [exact H|]. intros n Hn. rewrite gnodes_mirror in Hn. destruct (chain_in _ _ _ _ Hc Hn) as (? & ? & ?). split; apply Hx; lia. Qed.

Abbreviation loop f o d memp nps root nodep := (nodes_loop fuel lit ops f fdt o d 0 memp nps root nodep false).

(** One node: then the walk goes on with its children. *)
Lemma node_step f o D name ps rest memp nps root nodep dad c m :
  0 <= D -> D + 1 <= 63 -> at_items all o (TBegin name :: (TProp <$> ps) ++ rest) -> after_props rest -> TFin ∈ rest -> good m -> zeroed m memp R1 -> R0 <= memp -> node_end memp name ps <= R1 -> length nps = 64%nat -> aget nps D = Ok (Some dad) ->
  (dad <> 0 -> R0 <= dad /\ dad + 120 <= memp /\ m !! (dad + 40) = Some c) ->
  let q := o + ilen (TBegin name) + len (TProp <$> ps) in
  exists n m', loop (S f) o D memp nps root nodep m = loop f (nxt q D rest).1 (nxt q D rest).2 (node_end memp name ps) (<[Z.to_nat (D + 1) := Some (g_addr n)]> nps) (if root =? 0 then g_addr n else root) (if nodep =? 0 then g_addr n else nodep) m' /\
    memp <= g_addr n /\ g_addr n + 120 <= g_end n /\ g_end n = node_end memp name ps /\ node_of name ps n /\ body m' dad n /\ m' !! (g_addr n + 40) = Some 0 /\ m' !! (g_addr n + 48) = Some (if dad =? 0 then 0 else c) /\ (dad <> 0 -> m' !! (dad + 40) = Some (g_addr n)) /\
    same_but (fun x => (dad <> 0 /\ x = dad + 40) \/ memp <= x < node_end memp name ps) m m' /\ zeroed m' (node_end memp name ps) R1 /\ good m'.
Proof.
  intros HD HD' H Hrest Hfin Hg Hz H0 He Hn Hdad Hd q. destruct (he_pos _ _ H) as (P1 & _). pose proof (up8_facts memp) as [U _]. pose proof (node_end_le memp name ps) as Hle. change SIZEOF_DEVICE_NODE with 120 in Hle.
  destruct (populate_node_ok m o name ps rest memp dad c H Hrest Hg Hz H0 He Hd) as (n & m1 & E & K1 & K2 & K3 & K4 & K5 & K6 & K7 & K8 & K9). rewrite <- K1 in K5, K6, K7, K8.
  exists n, m1. assert (good m1) as Hg1 by (apply (good_same m); [exact Hg|]; eapply same_but_weaken; [exact K8|]; cbn; intros x [[Hx ->]|Hx]; [specialize (Hd Hx)|]; lia).
  split; [|do 2 (split; [lia|]); do 6 (split; [assumption|]); split; [|split; [exact K9|exact Hg1]]; eapply same_but_weaken; [exact K8|]; cbn; intros x; lia].
  cbn [nodes_loop]. destruct (Z.leb_spec 0 o); [|lia]. destruct (Z.leb_spec 0 D); [|lia]. cbn [andb]. rewrite (bind_lift _ _ _ _ Hdad), (bind_lift _ _ _ dad) by reflexivity. rewrite (bind_ok _ _ _ _ _ E). rewrite (bind_lift _ _ _ _ (aset_ok nps (D + 1) _ ltac:(lia))). cbn [negb andb].
  pose proof (next_node_ok fuel m1 fdt os ostr ne all (blob_mono _ _ _ _ _ _ _ Hg1 B) Hfuel o D _ _ H ltac:(apply elem_of_app; auto)) as En. rewrite nxt_props in En. fold q in En. rewrite (rd_ok _ _ _ _ En), (bind_lift _ _ _ (nxt q D rest).2) by reflexivity. rewrite K1. reflexivity.
Qed.

(** A subtree at depth [D] under [dad], whose child link was [c]. *)
Definition tree_stmt (t : ftree) : Prop := forall f o D rest memp nps root nodep dad c m,
  1 <= D -> D + height t <= 63 -> at_items all o (tokens t ++ rest) -> TFin ∈ rest -> good m -> zeroed m memp R1 -> R0 <= memp -> tree_end memp t <= R1 -> length nps = 64%nat -> aget nps D = Ok (Some dad) -> root <> 0 -> nodep <> 0 ->
  R0 <= dad -> dad + 120 <= memp -> m !! (dad + 40) = Some c ->
  exists g nps' m', loop (fsize t + f) o D memp nps root nodep m = loop f (nxt (o + len (tokens t)) (D - 1) rest).1 (nxt (o + len (tokens t)) (D - 1) rest).2 (tree_end memp t) nps' root nodep m' /\
    made t g /\ chain memp (gnodes g) (tree_end memp t) /\ linked m' c (mirror g) /\ bodies m' (flat dad g) /\ m' !! (dad + 40) = Some (root_addr g) /\
    same_but (fun x => x = dad + 40 \/ memp <= x < tree_end memp t) m m' /\ zeroed m' (tree_end memp t) R1 /\ good m' /\ length nps' = 64%nat /\ forall i, i <= D -> aget nps' i = aget nps i.

Lemma forest_ok kids : Forall tree_stmt kids -> forall f o D rest memp nps root nodep dad c m,
  0 <= D -> D + 1 + heights kids <= 63 -> at_items all o (concat (tokens <$> kids) ++ rest) -> TFin ∈ rest -> good m -> zeroed m memp R1 -> R0 <= memp -> foldl tree_end memp kids <= R1 -> length nps = 64%nat -> aget nps (D + 1) = Ok (Some dad) -> root <> 0 -> nodep <> 0 ->
  R0 <= dad -> dad + 120 <= memp -> m !! (dad + 40) = Some c ->
  exists gs nps' m', loop (fsizes kids + f) (nxt o D (concat (tokens <$> kids) ++ rest)).1 (nxt o D (concat (tokens <$> kids) ++ rest)).2 memp nps root nodep m =
      loop f (nxt (o + len (concat (tokens <$> kids))) D rest).1 (nxt (o + len (concat (tokens <$> kids))) D rest).2 (foldl tree_end memp kids) nps' root nodep m' /\
    Forall2 made kids gs /\ chain memp (concat (gnodes <$> gs)) (foldl tree_end memp kids) /\ linkeds m' c (reverse (mirror <$> gs)) /\ bodies m' (concat (flat dad <$> gs)) /\ m' !! (dad + 40) = Some (hd c (reverse (mirror <$> gs))) /\
    same_but (fun x => x = dad + 40 \/ memp <= x < foldl tree_end memp kids) m m' /\ zeroed m' (foldl tree_end memp kids) R1 /\ good m' /\ length nps' = 64%nat /\ forall i, i <= D + 1 -> aget nps' i = aget nps i.
Proof.
  induction 1 as [|t kids Ht _ IH]; intros f o D rest memp nps root nodep dad c m HD Hh H Hfin Hg Hz H0 He Hn Ha Hr Hp Hd1 Hd2 Hc.
  { exists [], nps, m. change (len (concat (tokens <$> []))) with 0. rewrite Z.add_0_r. split; [reflexivity|]. split; [constructor|]. split; [cbn; lia|]. split; [exact Logic.I|]. split; [constructor|]. split; [exact Hc|]. split; [intros x _; reflexivity|]. auto. }
  rewrite fmap_cons in *. cbn [concat foldl fsizes heights foldr] in *. fold (fsizes kids) (heights kids) in *. rewrite <- app_assoc in *. pose proof (forest_end_mono kids (tree_end memp t)) as Hm. pose proof (tree_end_le t memp) as Hm'.
  assert (nxt o D (tokens t ++ concat (tokens <$> kids) ++ rest) = (o, D + 1)) as E0 by (destruct t; reflexivity). rewrite E0. cbn [fst snd].
  destruct (Ht (fsizes kids + f)%nat o (D + 1) (concat (tokens <$> kids) ++ rest) memp nps root nodep dad c m) as (g & nps1 & m1 & E1 & A1 & A2 & A3 & A4 & A5 & A6 & A7 & A8 & A9 & A10); try assumption; try lia; [apply elem_of_app; auto|].
  replace (D + 1 - 1) with D in E1 by lia. rewrite <- Nat.add_assoc, E1.
  destruct (IH f (o + len (tokens t)) D rest (tree_end memp t) nps1 root nodep dad (root_addr g) m1) as (gs & nps2 & m2 & E2 & C1 & C2 & C3 & C4 & C5 & C6 & C7 & C8 & C9 & C10); try assumption; try lia; [apply here_app, H|rewrite A10 by lia; exact Ha|].
  assert (forall x, memp <= x < tree_end memp t -> m2 !! x = m1 !! x) as Hk by (intros x Hx; apply C6; lia).
  exists (g :: gs), nps2, m2. rewrite len_app, Z.add_assoc. split; [exact E2|]. rewrite !fmap_cons, reverse_cons. cbn [concat]. split; [constructor; assumption|]. split; [eapply chain_app; eassumption|].
  split; [apply linkeds_app; cbn; rewrite mirror_addr; split; [exact C3|]; split; [eapply linked_keep; eassumption|exact Logic.I]|]. split; [apply Forall_app; split; [eapply bodies_frame; eassumption|exact C4]|].
  split; [rewrite hd_app; cbn; rewrite mirror_addr; exact C5|]. split; [intros x Hx; rewrite C6, A6 by lia; reflexivity|]. do 3 (split; [assumption|]). intros i Hi. rewrite C10, A10 by lia. reflexivity.
Qed.

(** A node and what is below it. *)
Lemma node_forest name ps kids : let t := FNode name ps kids in Forall tree_stmt kids -> forall f o D rest memp nps root nodep dad c m,
  0 <= D -> D + height t <= 63 -> at_items all o (tokens t ++ rest) -> TFin ∈ rest -> good m -> zeroed m memp R1 -> R0 <= memp -> tree_end memp t <= R1 -> length nps = 64%nat -> aget nps D = Ok (Some dad) ->
  (dad <> 0 -> R0 <= dad /\ dad + 120 <= memp /\ m !! (dad + 40) = Some c) ->
  let q := o + ilen (TBegin name) + len (TProp <$> ps) + len (concat (tokens <$> kids)) in
  exists g nps' m', loop (fsize t + f) o D memp nps root nodep m = loop f (nxt q D (TEnd :: rest)).1 (nxt q D (TEnd :: rest)).2 (tree_end memp t) nps' (if root =? 0 then root_addr g else root) (if nodep =? 0 then root_addr g else nodep) m' /\
    made t g /\ chain memp (gnodes g) (tree_end memp t) /\ linked m' (if dad =? 0 then 0 else c) (mirror g) /\ bodies m' (flat dad g) /\ (dad <> 0 -> m' !! (dad + 40) = Some (root_addr g)) /\
    same_but (fun x => (dad <> 0 /\ x = dad + 40) \/ memp <= x < tree_end memp t) m m' /\ zeroed m' (tree_end memp t) R1 /\ good m' /\ length nps' = 64%nat /\ forall i, i <= D -> aget nps' i = aget nps i.
Proof.
  intros t IH f o D rest memp nps root nodep dad c m HD Hh H Hfin Hg Hz H0 He Hn Ha Hd q. unfold t in *. rewrite tokens_eq, <- app_comm_cons, <- !app_assoc in H. cbn [tree_end height fsize] in *. fold (heights kids) (fsizes kids) in *. cbn [app] in H.
  pose proof (forest_end_mono kids (node_end memp name ps)) as Hm. pose proof (heights_pos kids) as Hhk.
  destruct (node_step (fsizes kids + f) o D name ps (concat (tokens <$> kids) ++ TEnd :: rest) memp nps root nodep dad c m) as (n & m1 & E1 & A1 & A2 & A3 & A4 & A5 & A6 & A7 & A8 & A9 & A10 & A11); try assumption; try lia; [apply after_kids|set_solver|].
  set (nps1 := <[Z.to_nat (D + 1) := Some (g_addr n)]> nps) in *. assert (length nps1 = 64%nat) as Hn1 by (unfold nps1; rewrite length_insert; exact Hn).
  destruct (forest_ok kids IH f (o + ilen (TBegin name) + len (TProp <$> ps)) D (TEnd :: rest) (node_end memp name ps) nps1 (if root =? 0 then g_addr n else root) (if nodep =? 0 then g_addr n else nodep) (g_addr n) 0 m1)
    as (gs & nps2 & m2 & E2 & C1 & C2 & C3 & C4 & C5 & C6 & C7 & C8 & C9 & C10); try assumption; try lia.
  { apply here_app, (here_next o), H. } { set_solver. } { unfold nps1. apply aget_insert_eq. lia. } { destruct (Z.eqb_spec root 0); lia. } { destruct (Z.eqb_spec nodep 0); lia. }
  exists (GTree n gs), nps2, m2. cbn [Nat.add]. split; [rewrite E1; exact E2|]. cbn [gnodes flat mirror root_addr chain]. assert (forall x, dad <> 0 -> x = dad + 40 -> x < memp) as Hdx by (intros x X1 ->; specialize (Hd X1); lia).
  assert (forall x, x < node_end memp name ps -> x <> g_addr n + 40 -> m2 !! x = m1 !! x) as Hk by (intros x X1 X2; apply C6; lia).
  split; [constructor; assumption|]. split; [split; [exact A1|]; split; [exact A2|]; rewrite A3; exact C2|]. split; [rewrite linked_eq; split; [exact C5|]; split; [rewrite Hk by lia; exact A7|exact C3]|].
  split; [constructor; [cbn; apply (body_frame m1); [exact A5|]; intros x X1 X2 _; apply Hk; lia|exact C4]|]. split; [intros Hdad; specialize (Hdx _ Hdad eq_refl); rewrite Hk by lia; apply A8, Hdad|].
  split; [intros x Hx; rewrite C6, A9 by lia; reflexivity|]. do 3 (split; [assumption|]). intros i Hi. rewrite C10 by lia. unfold nps1. apply aget_insert_lt. lia.
Qed.
Lemma tree_ok t : tree_stmt t.
Proof.
  induction t as [name ps kids IH] using ftree_nested_ind. intros f o D rest memp nps root nodep dad c m HD Hh H Hfin Hg Hz H0 He Hn Ha Hr Hp Hd1 Hd2 Hc. rewrite len_tokens.
  destruct (node_forest name ps kids IH f o D rest memp nps root nodep dad c m) as (g & nps' & m' & E & K1 & K2 & K3 & K4 & K5 & K6 & K7 & K8 & K9 & K10); try assumption; try lia; [auto|].
  destruct (Z.eqb_spec root 0); [contradiction|]. destruct (Z.eqb_spec nodep 0); [contradiction|]. destruct (Z.eqb_spec dad 0); [lia|]. exists g, nps', m'. split.
  - rewrite E. cbn [nxt]. destruct (Z.ltb_spec (D - 1) 0); [lia|]. rewrite !Z.add_assoc. reflexivity.
  - do 4 (split; [assumption|]). split; [apply K5; assumption|]. split; [|auto]. eapply same_but_weaken; [exact K6|]. cbn. tauto.
Qed.

(** The whole tree: the first node is the root, and the walk ends after it. *)
Lemma root_ok t f memp m : all = tokens t ++ [TFin] -> height t <= 63 -> good m -> zeroed m memp R1 -> R0 <= memp -> tree_end memp t <= R1 ->
  exists g o' m', (nps ← st_lift (aset (replicate 64 None) 0 (Some 0)); loop (fsize t + S f) 0 0 memp nps 0 0) m = Ok ((o', tree_end memp t, root_addr g, root_addr g), m') /\ 0 <= o' /\
    made t g /\ chain memp (gnodes g) (tree_end memp t) /\ linked m' 0 (mirror g) /\ bodies m' (flat 0 g) /\ same_but (fun x => memp <= x < tree_end memp t) m m' /\ good m'.
Proof.
  intros Hall Hh Hg Hz H0 He. destruct t as [name ps kids]. assert (at_items all 0 (tokens (FNode name ps kids) ++ [TFin])) as H by (rewrite <- Hall; apply here_start).
  rewrite (bind_lift _ _ _ (<[0%nat := Some 0]> (replicate 64 None))) by reflexivity.
  destruct (node_forest name ps kids (proj2 (Forall_forall _ _) (fun t _ => tree_ok t)) (S f) 0 0 [TFin] memp (<[0%nat := Some 0]> (replicate 64 None)) 0 0 0 0 m) as (g & nps' & m' & E & K1 & K2 & K3 & K4 & K5 & K6 & K7 & K8 & K9 & K10);
    try assumption; try lia; try reflexivity; [set_solver|].
  cbn [nxt] in E. change (0 - 1 <? 0) with true in E. cbn [fst snd] in E. eexists g, _, m'. split; [rewrite E; cbn [nodes_loop]; change (0 <=? 0 - 1) with false; rewrite andb_false_r; reflexivity|].
  split; [pose proof (ilen_facts (TBegin name)); pose proof (ilen_facts TEnd); pose proof (len_facts (TProp <$> ps)); pose proof (len_facts (concat (tokens <$> kids))); lia|]. do 4 (split; [assumption|]). split; [|exact K8]. eapply same_but_weaken; [exact K6|]. cbn. intros x [[]|]; [contradiction|assumption].
Qed.
End Build.
