(* ===== verification/OfBuild.v ===== *)
(** * The device tree in memory is the tree of the blob

    [reverse_nodes] turns the lists of children, which were built by prepending,
    into the order of the source; the dry run finds the size that the second
    run needs; together, [__unflatten_device_tree] leaves in its pages the nodes
    and properties of the blob, linked as the blob nests them. *)

From Stdlib Require Import ZArith Lia Bool.
From stdpp Require Import base tactics numbers list gmap strings.
From S2P Require Import Prelude Words Mem LibString Memblock Buddy OpenFile Fdt FdtSpec OfTree OfUnflatten.

(** ** Reversing the children *)

(** The two loops of [reverse_nodes]. *)
Definition deep_loop (rev : Z -> DM unit) : nat -> Z -> DM unit :=
  fix deep (g : nat) (child : Z) : DM unit :=
    match g with
    | O => fun _ => NoFuel
    | S g => if child =? 0 then mret tt else rev child;; child ← get child dn_sibling; deep g child
    end.
Definition flip_loop (parent : Z) : nat -> Z -> DM unit :=
  fix flip (g : nat) (child : Z) : DM unit :=
    match g with
    | O => fun _ => NoFuel
    | S g =>
        if child =? 0 then mret tt
        else next ← get child dn_sibling; c ← get parent dn_child; put child dn_sibling c;; put parent dn_child child;; flip g next
    end.
Lemma reverse_nodes_eq f parent :
  reverse_nodes (S f) parent = (child ← get parent dn_child; deep_loop (reverse_nodes f) f child;; child ← get parent dn_child; put parent dn_child 0;; flip_loop parent f child).
Proof. reflexivity. Qed.

(** Nodes that do not overlap. *)
Definition apart (n n' : gnode) : Prop := g_addr n + 120 <= g_addr n' \/ g_addr n' + 120 <= g_addr n.
Fixpoint spaced (l : list gnode) : Prop := match l with [] => True | n :: l => 0 < g_addr n /\ Forall (apart n) l /\ spaced l end.
Lemma spaced_app l1 l2 : spaced (l1 ++ l2) <-> spaced l1 /\ spaced l2 /\ forall n n', n ∈ l1 -> n' ∈ l2 -> apart n n'.
Proof.
  induction l1 as [|n l1 IH]; cbn [app spaced]; [set_solver|]. rewrite IH, Forall_app. setoid_rewrite elem_of_cons. rewrite !Forall_forall. clear IH. split.
  - intros (H1 & [H2 H3] & H4 & H5 & H6). repeat split; auto. intros n0 n' [->|Hn]; auto.
  - intros ((H1 & H2 & H3) & H4 & H5). repeat split; auto.
Qed.
Lemma chain_spaced l : forall lo hi, 0 < lo -> chain lo l hi -> spaced l.
Proof.
  induction l as [|n l IH]; intros lo hi H0 H; [exact Logic.I|]. destruct H as (H1 & H2 & H3). split; [lia|]. split; [|eapply IH; [|exact H3]; lia]. apply Forall_forall. intros n' Hn'. left. destruct (chain_in _ _ _ _ H3 Hn') as (? & _). lia.
Qed.
(** The links of one node are not in another. *)
Lemma chain_apart l n b x : forall lo hi, chain lo l hi -> n ∈ l -> b ∈ l -> g_addr n <= x < g_end n -> x <> g_addr n + 40 -> x <> g_addr n + 48 -> (x = g_addr b + 40 \/ x = g_addr b + 48) -> False.
Proof.
  induction l as [|n0 l IH]; intros lo hi Hc Hn Hb X1 X2 X3 Hx; [inversion Hn|]. destruct Hc as (H1 & H2 & H3). apply elem_of_cons in Hn as [->|Hn], Hb as [->|Hb]; [lia| | |eapply IH; eassumption].
  - destruct (chain_in _ _ _ _ H3 Hb) as (? & ? & ?). lia.
  - destruct (chain_in _ _ _ _ H3 Hn) as (? & ? & ?). lia.
Qed.
Lemma gnodes_root g : exists n l, gnodes g = n :: l /\ g_addr n = root_addr g.
Proof. destruct g as [n kids]. eexists _, _. split; reflexivity. Qed.

(** A root gets another sibling. *)
Lemma linked_sib m m' sib sib' g : linked m sib g -> spaced (gnodes g) -> m' !! (root_addr g + 48) = Some sib' ->
  (forall n, n ∈ gnodes g -> m' !! (g_addr n + 40) = m !! (g_addr n + 40) /\ (g_addr n <> root_addr g -> m' !! (g_addr n + 48) = m !! (g_addr n + 48))) -> linked m' sib' g.
Proof.
  destruct g as [n kids]. rewrite !linked_eq. cbn [gnodes spaced root_addr]. intros (H1 & H2 & H3) (_ & Ha & _) Hs Hx. split; [rewrite (proj1 (Hx n ltac:(left))); exact H1|]. split; [exact Hs|].
  apply (linkeds_frame m); [exact H3|]. intros n' Hn'. rewrite Forall_forall in Ha. specialize (Ha n' Hn'). destruct (Hx n' ltac:(right; exact Hn')) as [-> Hy]. split; [reflexivity|]. apply Hy. unfold apart in Ha. lia.
Qed.

Abbreviation allnodes l := (concat (gnodes <$> (l : list gtree))).
Lemma allnodes_cons k l : allnodes (k :: l) = gnodes k ++ allnodes l.
Proof. reflexivity. Qed.

Lemma flip_ok (p : gnode) rest : forall done h m, (length rest < h)%nat -> m !! (g_addr p + 40) = Some (hd 0 done) -> linkeds m 0 rest -> linkeds m 0 done -> spaced (p :: allnodes rest ++ allnodes done) ->
  exists m', flip_loop (g_addr p) h (hd 0 rest) m = Ok (tt, m') /\ m' !! (g_addr p + 40) = Some (hd 0 (reverse rest ++ done)) /\ linkeds m' 0 (reverse rest ++ done) /\
    same_but (fun x => x = g_addr p + 40 \/ exists n, n ∈ allnodes rest /\ x = g_addr n + 48) m m'.
Proof.
  induction rest as [|k rest IH]; intros done h m Hh Hp Hr Hd Hsp; (destruct h as [|h]; [lia|]); cbn [flip_loop hd]; [exists m; split; [reflexivity|]; split; [exact Hp|]; split; [exact Hd|intros x _; reflexivity]|].
  destruct Hr as [Hk Hr]. destruct (gnodes_root k) as (n & l & Ek & En). rewrite allnodes_cons, <- app_assoc in Hsp. cbn [spaced] in Hsp. destruct Hsp as (P0 & Pa & Hsp). rewrite !spaced_app in Hsp. destruct Hsp as (Sk & (Sr & Sd & Srd) & Skr). rewrite Forall_forall in Pa.
  assert (root_addr k <> 0) as Hk0 by (rewrite <- En; rewrite Ek in Sk; destruct Sk; lia). destruct (Z.eqb_spec (root_addr k) 0); [contradiction|].
  assert (n ∈ gnodes k) as Hn by (rewrite Ek; left). assert (apart p n) as Hpn by (apply Pa, elem_of_app; auto). unfold apart in Hpn.
  assert (m !! (root_addr k + 48) = Some (hd 0 rest) /\ is_Some (m !! (root_addr k + 48))) as [Hs1 Hs2] by (destruct k; apply linked_eq in Hk as (_ & Hk & _); cbn [root_addr]; rewrite Hk; eauto).
  change (linkeds m 0 rest) in Hr. cbn [linkeds] in Hk. unfold dn_sibling, dn_child. rewrite (get_ok _ _ _ _ _ Hs1), (get_ok _ _ _ _ _ Hp), put_bind by exact Hs2. rewrite put_bind by (rewrite lookup_insert_ne by lia; eauto).
  set (m1 := <[g_addr p + 40 := root_addr k]> (<[root_addr k + 48 := hd 0 done]> m)). assert (forall x, x <> g_addr p + 40 -> x <> root_addr k + 48 -> m1 !! x = m !! x) as Hm1 by (intros x X1 X2; unfold m1; rewrite !lookup_insert_ne by congruence; reflexivity).
  assert (forall n', n' ∈ gnodes k ++ allnodes rest ++ allnodes done -> m1 !! (g_addr n' + 40) = m !! (g_addr n' + 40) /\ (g_addr n' <> root_addr k -> m1 !! (g_addr n' + 48) = m !! (g_addr n' + 48))) as Hm.
  { intros n' Hn'. pose proof (Pa n' Hn') as Hpn'. unfold apart in Hpn'. split; [|intros Hne; apply Hm1; lia]. apply Hm1; [lia|]. apply elem_of_app in Hn' as [Hn'|Hn'].
    - rewrite Ek in Hn', Sk. destruct Sk as (_ & Sk & _). apply elem_of_cons in Hn' as [->|Hn']; [lia|]. rewrite Forall_forall in Sk. specialize (Sk n' Hn'). unfold apart in Sk. lia.
    - specialize (Skr n n' Hn Hn'). unfold apart in Skr. lia. }
  assert (forall n', n' ∈ allnodes rest ++ allnodes done -> m1 !! (g_addr n' + 40) = m !! (g_addr n' + 40) /\ m1 !! (g_addr n' + 48) = m !! (g_addr n' + 48)) as Hm'.
  { intros n' Hn'. destruct (Hm n' ltac:(apply elem_of_app; auto)) as [M1 M2]. split; [exact M1|]. apply M2. specialize (Skr n n' Hn Hn'). unfold apart in Skr. lia. }
  destruct (IH (k :: done) h m1) as (m' & E & Q1 & Q2 & Q3); [cbn in Hh; lia|unfold m1; apply lookup_insert_eq|apply (linkeds_frame m); [exact Hr|intros; apply Hm', elem_of_app; auto]| | |].
  { split; [|apply (linkeds_frame m); [exact Hd|intros; apply Hm', elem_of_app; auto]]. apply (linked_sib m m1 (hd 0 rest)); [exact Hk|exact Sk|unfold m1; rewrite lookup_insert_ne by lia; apply lookup_insert_eq|]. intros; apply Hm, elem_of_app; auto. }
  { cbn [spaced]. split; [exact P0|]. split; [apply Forall_forall; intros x Hx; apply Pa; rewrite allnodes_cons in Hx; rewrite !elem_of_app in *; tauto|]. rewrite allnodes_cons, !spaced_app. repeat split; auto; [intros; apply Skr; [assumption|apply elem_of_app; auto]|]. intros a b Ha Hb. apply elem_of_app in Hb as [Hb|Hb]; [|apply Srd; assumption]. unfold apart. apply or_comm. apply Skr; [exact Hb|apply elem_of_app; auto]. }
  exists m'. split; [exact E|]. rewrite reverse_cons, <- app_assoc. split; [exact Q1|]. split; [exact Q2|]. intros x Hx. rewrite Q3; [|intros [X|(n' & X1 & X2)]; [tauto|]; apply Hx; right; exists n'; rewrite allnodes_cons, elem_of_app; auto]. apply Hm1; [tauto|]. intros ->. apply Hx. right. exists n. rewrite En, allnodes_cons, elem_of_app. auto.
Qed.

(** The whole reversal. *)
Definition rev_stmt (g : gtree) : Prop := forall f m sib, (length (gnodes g) <= f)%nat -> spaced (gnodes g) -> linked m sib g ->
  exists m', reverse_nodes (S f) (root_addr g) m = Ok (tt, m') /\ linked m' sib (mirror g) /\ same_but (fun x => exists n, n ∈ gnodes g /\ (x = g_addr n + 40 \/ x = g_addr n + 48)) m m'.

Lemma deep_ok kids : Forall rev_stmt kids -> forall f h m, (length (allnodes kids) <= f)%nat -> (length kids < h)%nat -> spaced (allnodes kids) -> linkeds m 0 kids ->
  exists m', deep_loop (reverse_nodes (S f)) h (hd 0 kids) m = Ok (tt, m') /\ linkeds m' 0 (mirror <$> kids) /\ same_but (fun x => exists n, n ∈ allnodes kids /\ (x = g_addr n + 40 \/ x = g_addr n + 48)) m m'.
Proof.
  induction 1 as [|k kids Hk _ IH]; intros f h m Hf Hh Hsp Hl; (destruct h as [|h]; [lia|]); cbn [deep_loop hd]; [exists m; split; [reflexivity|]; split; [exact Logic.I|intros x _; reflexivity]|].
  rewrite allnodes_cons in *. rewrite length_app in Hf. destruct Hl as [Hl1 Hl2]. apply spaced_app in Hsp as (S1 & S2 & S3). destruct (gnodes_root k) as (n & l & Ek & En). assert (n ∈ gnodes k) as Hn by (rewrite Ek; left).
  assert (root_addr k <> 0) as Hk0 by (rewrite <- En; rewrite Ek in S1; destruct S1; lia). destruct (Z.eqb_spec (root_addr k) 0); [contradiction|].
  destruct (Hk f m (hd 0 kids) ltac:(lia) S1 Hl1) as (m1 & E1 & A1 & A2). rewrite (bind_ok _ _ _ _ _ E1).
  assert (m1 !! (root_addr k + 48) = Some (hd 0 kids)) as Hs by (destruct k; apply linked_eq in A1; apply A1). unfold dn_sibling. rewrite (get_ok _ _ _ _ _ Hs).
  assert (forall a b, a ∈ gnodes k -> b ∈ allnodes kids -> forall i j, (i = 40 \/ i = 48) -> (j = 40 \/ j = 48) -> g_addr a + i <> g_addr b + j) as Hne by (intros a b Ha Hb i j Hi Hj; specialize (S3 a b Ha Hb); unfold apart in S3; lia).
  destruct (IH f h m1 ltac:(lia) ltac:(cbn in Hh; lia) S2) as (m2 & E2 & C1 & C2).
  { apply (linkeds_frame m); [exact Hl2|]. intros n' Hn'. split; apply A2; intros (a & Ha & Hx); [apply (Hne a n' Ha Hn' (g_addr n' + 40 - g_addr a) 40)|apply (Hne a n' Ha Hn' (g_addr n' + 48 - g_addr a) 48)]; lia. }
  exists m2. split; [exact E2|]. rewrite fmap_cons. split.
  - split; [|exact C1]. apply (linked_frame m1). { destruct kids; cbn [hd fmap list_fmap] in *; [exact A1|rewrite mirror_addr; exact A1]. }
    intros n' Hn'. rewrite gnodes_mirror in Hn'. split; apply C2; intros (b & Hb & Hx); [apply (Hne n' b Hn' Hb 40 (g_addr n' + 40 - g_addr b))|apply (Hne n' b Hn' Hb 48 (g_addr n' + 48 - g_addr b))]; lia.
  - intros x Hx. rewrite C2, A2; [reflexivity| |]; intros (b & Hb & Hy); apply Hx; exists b; rewrite elem_of_app; auto.
Qed.
Lemma spaced_perm l l' : l ≡ₚ l' -> spaced l -> spaced l'.
Proof.
  induction 1 as [|n l l' HP IH|n n' l|l l' l'' _ IH1 _ IH2]; cbn [spaced]; [auto| | |auto].
  - intros (H1 & H2 & H3). split; [exact H1|]. split; [apply (Forall_Permutation (apart n) (apart n) ltac:(reflexivity) l l' HP), H2|apply IH, H3].
  - rewrite !Forall_cons. intros (H1 & (H2 & H3) & H4 & H5 & H6). unfold apart in *. intuition.
Qed.
Lemma allnodes_mirror kids : allnodes (mirror <$> kids) ≡ₚ allnodes kids.
Proof. induction kids as [|k kids IH]; [reflexivity|]. rewrite fmap_cons, !allnodes_cons, gnodes_mirror, IH. reflexivity. Qed.
Lemma length_allnodes kids : (length kids <= length (allnodes kids))%nat.
Proof. induction kids as [|k kids IH]; [cbn; lia|]. rewrite allnodes_cons, length_app. destruct (gnodes_root k) as (n & l & -> & _). cbn in *. lia. Qed.

Lemma reverse_ok g : rev_stmt g.
Proof.
  induction g as [n kids IH] using gtree_nested_ind. intros f m sib Hf Hsp Hl. apply linked_eq in Hl as (H1 & H2 & H3). cbn [gnodes length root_addr] in *. destruct f as [|f]; [lia|]. pose proof (length_allnodes kids) as Hlen. pose proof Hsp as (Hn & Ha & Hsp'). rewrite Forall_forall in Ha.
  rewrite reverse_nodes_eq. unfold dn_child at 1. rewrite (get_ok _ _ _ _ _ H1). destruct (deep_ok kids IH f (S f) m ltac:(lia) ltac:(lia) Hsp' H3) as (m1 & E1 & A1 & A2). rewrite (bind_ok _ _ _ _ _ E1).
  assert (forall i, 0 <= i < 120 -> m1 !! (g_addr n + i) = m !! (g_addr n + i)) as Hroot by (intros i Hi; apply A2; intros (b & Hb & Hx); specialize (Ha b Hb); unfold apart in Ha; lia).
  assert (m1 !! (g_addr n + 40) = Some (hd 0 kids)) as H1' by (rewrite Hroot by lia; exact H1). unfold dn_child. rewrite (get_ok _ _ _ _ _ H1'). rewrite put_bind by eauto. set (m2 := <[g_addr n + 40 := 0]> m1).
  assert (forall n', n' ∈ allnodes (mirror <$> kids) -> apart n n') as Ha' by (intros n' Hn'; rewrite allnodes_mirror in Hn'; apply Ha, Hn').
  destruct (flip_ok n (mirror <$> kids) [] (S f) m2) as (m3 & E3 & C1 & C2 & C3); [rewrite length_fmap; lia|apply lookup_insert_eq| |exact Logic.I| |].
  { apply (linkeds_frame m1); [exact A1|]. intros n' Hn'. specialize (Ha' n' Hn'). unfold apart in Ha'. unfold m2. rewrite !lookup_insert_ne by lia. auto. }
  { eapply spaced_perm; [|exact Hsp]. constructor. cbn [fmap list_fmap concat]. rewrite app_nil_r, allnodes_mirror. reflexivity. }
  rewrite app_nil_r in *. exists m3. split; [|split].
  - destruct kids; cbn [hd fmap list_fmap] in *; [exact E3|]. rewrite mirror_addr in E3. exact E3.
  - cbn [mirror]. rewrite linked_eq. split; [exact C1|]. split; [|exact C2]. rewrite C3. { unfold m2. rewrite lookup_insert_ne by lia. rewrite Hroot by lia. exact H2. }
    intros [Hx|(b & Hb & Hx)]; [lia|]. specialize (Ha' b Hb). unfold apart in Ha'. lia.
  - intros x Hx. rewrite C3. { unfold m2. rewrite lookup_insert_ne by (intros <-; apply Hx; exists n; rewrite elem_of_cons; auto). apply A2. intros (b & Hb & Hy). apply Hx. exists b. rewrite elem_of_cons. auto. }
    intros [->|(b & Hb & ->)]; apply Hx; [exists n; rewrite elem_of_cons; auto|]. rewrite allnodes_mirror in Hb. exists b. rewrite elem_of_cons. auto.
Qed.

(** ** The dry run *)

Section Dry.
  Context (fuel : nat) (lit : string -> Z) (ops : Z) (m : mem) (fdt os ostr ne : Z) (all : list item) (B : blob m fdt os ostr ne all) (Hfuel : len all < Z.of_nat fuel).
  #[local] Set Default Proof Using "All".

Lemma dry_props np link rest : after_props rest -> forall ps f o memp, at_items all o ((TProp <$> ps) ++ rest) -> 0 <= memp -> props_end memp ps < 2 ^ 63 -> (length ps < f)%nat ->
  props_loop fuel lit f fdt (prop_pos o ps) memp np link true m = Ok ((props_end memp ps, link), m).
Proof.
  intros Hrest. induction ps as [|p ps IH]; intros f o memp H H0 He Hf; (destruct f as [|f]; [lia|]); [reflexivity|]. pose proof H as Hc. rewrite fmap_cons in Hc. cbn [app] in Hc. destruct (he_pos _ _ H) as (P1 & _).
  cbn [props_loop prop_pos props_end] in *. destruct (Z.leb_spec 0 o); [|lia]. destruct (getprop_by_offset_ok fuel m fdt os ostr ne all o p _ B Hfuel Hc) as (Ep & Hv0 & Hn0). rewrite (rd_ok _ _ _ _ Ep).
  destruct (Z.eqb_spec (fdt + os + o + 12) 0); [lia|]. destruct (Z.eqb_spec (fdt + ostr + fp_off p) 0); [lia|]. pose proof (props_end_le ps (up8 memp + SIZEOF_PROPERTY)). pose proof (up8_facts memp) as [U _]. change SIZEOF_PROPERTY with 32 in *. rewrite alloc_ok by lia.
  rewrite (bind_ok _ _ _ link m) by reflexivity. rewrite (rd_ok _ _ _ _ (next_property_ok fuel m fdt os ostr ne all B Hfuel o p ps rest H Hrest)). apply IH; [apply (here_next o _ _ Hc)|lia|exact He|cbn in Hf; lia].
Qed.
Lemma dry_node o name ps rest memp dad : at_items all o (TBegin name :: (TProp <$> ps) ++ rest) -> after_props rest -> 0 <= memp -> node_end memp name ps < 2 ^ 63 ->
  populate_node fuel lit ops fdt o memp dad true m = Ok ((up8 memp, node_end memp name ps), m).
Proof.
  intros H Hrest H0 He. pose proof (begin_short fuel all o name _ Hfuel H) as Hln. pose proof (here_items fuel m fdt os ostr ne all B Hfuel o _ H) as Hi. cbn [length] in Hi. rewrite length_app, length_fmap in Hi. destruct (he_pos _ _ H) as (P1 & _). pose proof (bl_pos _ _ _ _ _ _ B). destruct (bl_os _ _ _ _ _ _ B) as [Hos _].
  destruct (get_name_ok fuel m fdt os ostr ne all B Hfuel o name _ H) as [En Hc]. unfold node_end in *. set (mp := up8 memp + (SIZEOF_DEVICE_NODE + Z.of_nat (length name) + 1)) in *. pose proof (props_end_le ps mp). pose proof (up8_facts memp) as [U1 _]. pose proof (up8_facts (props_end mp ps)) as [U2 _]. change SIZEOF_PROPERTY with 32 in *.
  unfold populate_node. rewrite (rd_ok _ _ _ _ En). rewrite alloc_ok by (unfold mp in *; change SIZEOF_DEVICE_NODE with 120 in *; lia). rewrite (bind_ok _ _ _ tt m) by reflexivity.
  replace (up8 memp + (SIZEOF_DEVICE_NODE + (Z.of_nat (length name) + 1))) with mp by (unfold mp; lia). assert (0 <= mp) by (unfold mp; change SIZEOF_DEVICE_NODE with 120; lia).
  destruct (name_split fuel m _ name Hc Hln ltac:(lia)) as (bs & pa & Es & Epa & _). erewrite (bind_ok (populate_properties _ _ _ _ _ _ _ _)).
  2: { unfold populate_properties. rewrite (rd_ok _ _ _ _ (first_property_ok fuel m fdt os ostr ne all B Hfuel o name ps rest H Hrest)).
       rewrite (bind_ok _ _ _ _ _ (dry_props _ _ rest Hrest ps fuel _ mp (here_next _ _ _ H) ltac:(lia) ltac:(lia) ltac:(lia))). rewrite (rd_ok _ _ _ _ Es), Epa. rewrite alloc_ok by (change SIZEOF_PROPERTY with 32; lia). rewrite (bind_ok _ _ _ tt m) by reflexivity. reflexivity. }
  rewrite (bind_ok _ _ _ tt m) by reflexivity. apply (f_equal (fun z => Ok ((up8 memp, z), m))). change SIZEOF_PROPERTY with 32. lia.
Qed.

Abbreviation dry f o d memp nps root nodep := (nodes_loop fuel lit ops f fdt o d 0 memp nps root nodep true).
Definition dry_stmt (t : ftree) : Prop := forall f o D rest memp nps, 1 <= D -> D + height t <= 63 -> at_items all o (tokens t ++ rest) -> TFin ∈ rest -> 0 <= memp -> tree_end memp t < 2 ^ 63 -> length nps = 64%nat -> (exists dad, aget nps D = Ok (Some dad)) ->
  exists nps', dry (fsize t + f) o D memp nps 0 0 m = dry f (nxt (o + len (tokens t)) (D - 1) rest).1 (nxt (o + len (tokens t)) (D - 1) rest).2 (tree_end memp t) nps' 0 0 m /\ length nps' = 64%nat /\ forall i, i <= D -> aget nps' i = aget nps i.
Lemma dry_forest kids : Forall dry_stmt kids -> forall f o D rest memp nps, 0 <= D -> D + 1 + heights kids <= 63 -> at_items all o (concat (tokens <$> kids) ++ rest) -> TFin ∈ rest -> 0 <= memp -> foldl tree_end memp kids < 2 ^ 63 -> length nps = 64%nat ->
  (exists dad, aget nps (D + 1) = Ok (Some dad)) ->
  exists nps', dry (fsizes kids + f) (nxt o D (concat (tokens <$> kids) ++ rest)).1 (nxt o D (concat (tokens <$> kids) ++ rest)).2 memp nps 0 0 m =
      dry f (nxt (o + len (concat (tokens <$> kids))) D rest).1 (nxt (o + len (concat (tokens <$> kids))) D rest).2 (foldl tree_end memp kids) nps' 0 0 m /\ length nps' = 64%nat /\ forall i, i <= D + 1 -> aget nps' i = aget nps i.
Proof.
  induction 1 as [|t kids Ht _ IH]; intros f o D rest memp nps HD Hh H Hfin H0 He Hn Ha.
  { exists nps. change (len (concat (tokens <$> []))) with 0. rewrite Z.add_0_r. auto. }
  rewrite fmap_cons in *. cbn [concat foldl fsizes heights foldr] in *. fold (fsizes kids) (heights kids) in *. rewrite <- app_assoc in *. pose proof (forest_end_mono kids (tree_end memp t)) as Hm. pose proof (tree_end_le t memp) as Hm'.
  assert (nxt o D (tokens t ++ concat (tokens <$> kids) ++ rest) = (o, D + 1)) as -> by (destruct t; reflexivity). cbn [fst snd].
  destruct (Ht (fsizes kids + f)%nat o (D + 1) (concat (tokens <$> kids) ++ rest) memp nps) as (nps1 & E1 & A1 & A2); try assumption; try lia; [apply elem_of_app; auto|].
  replace (D + 1 - 1) with D in E1 by lia. rewrite <- Nat.add_assoc, E1.
  destruct (IH f (o + len (tokens t)) D rest (tree_end memp t) nps1) as (nps2 & E2 & C1 & C2); try assumption; try lia; [apply here_app, H|rewrite A2 by lia; exact Ha|].
  exists nps2. rewrite len_app, Z.add_assoc. split; [exact E2|]. split; [exact C1|]. intros i Hi. rewrite C2, A2 by lia. reflexivity.
Qed.
Lemma dry_node_forest name ps kids : let t := FNode name ps kids in Forall dry_stmt kids -> forall f o D rest memp nps, 0 <= D -> D + height t <= 63 -> at_items all o (tokens t ++ rest) -> TFin ∈ rest -> 0 <= memp -> tree_end memp t < 2 ^ 63 -> length nps = 64%nat ->
  (exists dad, aget nps D = Ok (Some dad)) -> let q := o + ilen (TBegin name) + len (TProp <$> ps) + len (concat (tokens <$> kids)) in
  exists nps', dry (fsize t + f) o D memp nps 0 0 m = dry f (nxt q D (TEnd :: rest)).1 (nxt q D (TEnd :: rest)).2 (tree_end memp t) nps' 0 0 m /\ length nps' = 64%nat /\ forall i, i <= D -> aget nps' i = aget nps i.
Proof.
  intros t IH f o D rest memp nps HD Hh H Hfin H0 He Hn [dad Ha] q. unfold t in *. rewrite tokens_eq, <- app_comm_cons, <- !app_assoc in H. cbn [tree_end height fsize] in *. fold (heights kids) (fsizes kids) in *. cbn [app] in H. destruct (he_pos _ _ H) as (P1 & _).
  pose proof (forest_end_mono kids (node_end memp name ps)) as Hm. pose proof (heights_pos kids) as Hhk. pose proof (node_end_le memp name ps) as Hnl. change SIZEOF_DEVICE_NODE with 120 in Hnl. pose proof (up8_facts memp) as [U _].
  cbn [Nat.add nodes_loop]. destruct (Z.leb_spec 0 o); [|lia]. destruct (Z.leb_spec 0 D); [|lia]. cbn [andb]. rewrite (bind_lift _ _ _ _ Ha), (bind_lift _ _ _ dad) by reflexivity.
  rewrite (bind_ok _ _ _ _ _ (dry_node o name ps _ memp dad H (after_kids kids rest) H0 ltac:(lia))). rewrite (bind_lift _ _ _ _ (aset_ok nps (D + 1) _ ltac:(lia))). cbn [negb andb].
  pose proof (next_node_ok fuel m fdt os ostr ne all B Hfuel o D _ _ H ltac:(set_solver)) as En. rewrite nxt_props in En. rewrite (rd_ok _ _ _ _ En). erewrite bind_lift by reflexivity.
  set (nps1 := <[Z.to_nat (D + 1) := _]> nps). destruct (dry_forest kids IH f (o + ilen (TBegin name) + len (TProp <$> ps)) D (TEnd :: rest) (node_end memp name ps) nps1) as (nps2 & E2 & C1 & C2); try lia.
  { apply here_app, (here_next o), H. } { set_solver. } { unfold nps1. rewrite length_insert. exact Hn. } { eexists. unfold nps1. apply aget_insert_eq. lia. }
  exists nps2. split; [exact E2|]. split; [exact C1|]. intros i Hi. rewrite C2 by lia. unfold nps1. apply aget_insert_lt. lia.
Qed.
Lemma dry_tree t : dry_stmt t.
Proof.
  induction t as [name ps kids IH] using ftree_nested_ind. intros f o D rest memp nps HD Hh H Hfin H0 He Hn Ha. rewrite len_tokens.
  destruct (dry_node_forest name ps kids IH f o D rest memp nps) as (nps' & E & K1 & K2); try assumption; try lia. exists nps'. split; [|auto]. rewrite E. cbn [nxt]. destruct (Z.ltb_spec (D - 1) 0); [lia|]. rewrite !Z.add_assoc. reflexivity.
Qed.
(** The dry run returns where the tree would end, and changes nothing. *)
Lemma dry_root t f : all = tokens t ++ [TFin] -> height t <= 63 -> tree_end 0 t < 2 ^ 63 ->
  exists o', (nps ← st_lift (aset (replicate 64 None) 0 (Some 0)); dry (fsize t + S f) 0 0 0 nps 0 0) m = Ok ((o', tree_end 0 t, 0, 0), m) /\ 0 <= o'.
Proof.
  intros Hall Hh He. destruct t as [name ps kids]. assert (at_items all 0 (tokens (FNode name ps kids) ++ [TFin])) as H by (rewrite <- Hall; apply here_start). rewrite (bind_lift _ _ _ (<[0%nat := Some 0]> (replicate 64 None))) by reflexivity.
  destruct (dry_node_forest name ps kids (proj2 (Forall_forall _ _) (fun t _ => dry_tree t)) (S f) 0 0 [TFin] 0 (<[0%nat := Some 0]> (replicate 64 None))) as (nps' & E & K1 & K2); try assumption; try lia; try reflexivity; [set_solver|exists 0; reflexivity|].
  cbn [nxt] in E. change (0 - 1 <? 0) with true in E. cbn [fst snd] in E. eexists. split; [rewrite E; cbn [nodes_loop]; change (0 <=? 0 - 1) with false; rewrite andb_false_r; reflexivity|].
  pose proof (ilen_facts (TBegin name)); pose proof (ilen_facts TEnd); pose proof (len_facts (TProp <$> ps)); pose proof (len_facts (concat (tokens <$> kids))); lia.
Qed.
End Dry.

(** ** The whole tree *)

Lemma memset_ok n c : forall m p, writable m p (Z.of_nat n) -> exists m', memset_loop n m p c = Ok m' /\ (forall x, p <= x < p + Z.of_nat n -> m' !! x = Some (u8 c)) /\ eq_outside p (Z.of_nat n) m m'.
Proof.
  induction n as [|n IH]; intros m p Hw; cbn [memset_loop]; [exists m; split; [reflexivity|]; split; [lia|intros x _; reflexivity]|]. destruct (Hw p ltac:(lia)) as [v Hv]. unfold store8. rewrite Hv. cbn [mbind outcome_bind].
  destruct (IH (<[p := u8 c]> m) (p + 1)) as (m' & E & H1 & H2). { intros x Hx. destruct (Z.eq_dec x p) as [->|]; [rewrite lookup_insert_eq; eauto|]. rewrite lookup_insert_ne by congruence. apply Hw. lia. }
  exists m'. split; [exact E|]. split.
  - intros x Hx. destruct (Z.eq_dec x p) as [->|]; [rewrite H2 by lia; apply lookup_insert_eq|]. apply H1. lia.
  - intros x Hx. rewrite H2 by lia. apply lookup_insert_ne. lia.
Qed.
Lemma fsize_tokens t : (fsize t < length (tokens t))%nat.
Proof.
  induction t as [name ps kids IH] using ftree_nested_ind. rewrite tokens_eq. cbn [fsize length]. rewrite !length_app. cbn [length]. fold (fsizes kids). enough (fsizes kids <= length (concat (tokens <$> kids)))%nat by lia.
  induction IH as [|k kids Hk _ IHk]; [reflexivity|]. rewrite fmap_cons. cbn [concat fsizes foldr]. fold (fsizes kids). rewrite length_app. lia.
Qed.
Lemma made_size t : forall g ms, made ms t g -> length (gnodes g) = fsize t.
Proof.
  induction t as [name ps kids IH] using ftree_nested_ind. intros g ms H. inversion H as [? ? ? n gs _ Hk]; subst. cbn [gnodes fsize length]. f_equal. fold (fsizes kids). clear H. induction Hk as [|k h kids gs Hk _ IHk]; [reflexivity|].
  apply Forall_cons in IH as [IH1 IH2]. rewrite fmap_cons. cbn [concat fsizes foldr]. fold (fsizes kids). rewrite length_app, (IH1 _ _ Hk), (IHk IH2). reflexivity.
Qed.
(** What is read from the blob is there in any larger memory. *)
Lemma seg_mono ms ms' m l : ms ⊆ ms' -> forall link last, seg ms m link l last -> seg ms' m link l last.
Proof. intros Hm. induction l as [|p l IH]; intros link last; cbn [seg]; [auto|]. intros (H1 & H2 & H3 & H4 & H5 & H6 & H7). do 4 (split; [assumption|]). split; [eapply cstr_mono; eassumption|]. auto. Qed.
Lemma body_mono lit ms ms' m parent n : ms ⊆ ms' -> body lit ms m parent n -> body lit ms' m parent n.
Proof. intros Hm [H1 H2 H3 H4 H5 H5' [H6 H7] H8]. split; try assumption. split; [eapply seg_mono; eassumption|exact H7]. Qed.
Lemma made_mono ms ms' t : ms ⊆ ms' -> forall g, made ms t g -> made ms' t g.
Proof.
  intros Hm. induction t as [name ps kids IH] using ftree_nested_ind. intros g H. inversion H as [? ? ? n gs (N1 & N2 & N3) Hk]; subst. constructor.
  - split; [reflexivity|]. split; [|exact N3]. eapply Forall2_impl; [exact N2|]. intros p q (Q1 & Q2 & Q3 & Q4). split; [exact Q1|]. split; [exact Q2|]. split; [eapply bytes_mono; eassumption|exact Q4].
  - clear H. induction Hk as [|k h kids gs Hk _ IHk]; constructor; apply Forall_cons in IH as [IH1 IH2]; auto.
Qed.

Lemma magic_mono ms m fdt v : ms ⊆ m -> fdt_magic ms fdt = Ok v -> fdt_magic m fdt = Ok v.
Proof.
  intros Hm. assert (forall p b, load8 ms p = Ok b -> load8 m p = Ok b) as Hl. { intros p b. unfold load8. destruct (ms !! p) as [c|] eqn:E; [|discriminate]. rewrite (lookup_weaken _ _ _ _ E Hm). auto. }
  unfold fdt_magic, fdt32_ld. intros H. repeat match type of H with (load8 ms ?p ≫= _) = _ => let E := fresh in destruct (load8 ms p) as [?b| | |] eqn:E; try discriminate; cbn [mbind outcome_bind] in H; rewrite (Hl _ _ E); cbn [mbind outcome_bind] end. exact H.
Qed.
Lemma chain_weaken l : forall lo hi hi', chain lo l hi -> hi <= hi' -> chain lo l hi'.
Proof. induction l as [|n l IH]; cbn; intros lo hi hi' H Hh; [lia|]. destruct H as (H1 & H2 & H3). eauto. Qed.

(** Memory holds the tree [g]: the links and the contents of its nodes. *)
Definition holds (lit : string -> Z) (m : mem) (g : gtree) : Prop := linked m 0 g /\ Forall (fun pn => body lit m m pn.1 pn.2) (flat 0 g).

Section Final.
  Context (fuel : nat) (lit : string -> Z) (ops fdt os ostr ne : Z) (t : ftree) (ms : mem).
  Context (B : tree_blob ms fdt os ostr ne t) (Hfuel : len (tokens t ++ [TFin]) < Z.of_nat fuel) (Hfuel2 : (14 < fuel)%nat) (Hfuel3 : ne < Z.of_nat fuel).
  Context (Hlit : forall s, s ∈ ["name"; "phandle"; "linux,phandle"] -> cstr ms (lit s) (chars s)).
  Context (Hph : forall p, TProp p ∈ tokens t -> is_phandle p = true -> length (fp_val p) = 4%nat).
  Context (Hheight : height t <= 63) (Hsize : tree_end 0 t < 2 ^ 31 - 8).
  #[local] Set Default Proof Using "All".

Lemma fuel_split : exists f, fuel = (fsize t + S f)%nat.
Proof. exists (fuel - fsize t - 1)%nat. pose proof (items_le (tokens t ++ [TFin])) as H. rewrite length_app in H. pose proof (fsize_tokens t). lia. Qed.
Lemma run_dry m : ms ⊆ m -> unflatten_dt_nodes fuel lit ops fdt 0 0 m = Ok ((tree_end 0 t, 0), m).
Proof.
  intros Hg. unfold unflatten_dt_nodes. change (0 =? 0) with true. cbn [negb]. change (Z.to_nat FDT_MAX_DEPTH) with 64%nat. destruct fuel_split as [f Ef].
  destruct (dry_root fuel lit ops m fdt os ostr ne _ (blob_mono _ _ _ _ _ _ _ Hg B) Hfuel t f eq_refl Hheight ltac:(lia)) as (o' & E & Ho). rewrite <- Ef in E. rewrite (bind_lift _ _ _ (<[0%nat := Some 0]> (replicate 64 None))) in E by reflexivity. rewrite (bind_lift _ _ _ (<[0%nat := Some 0]> (replicate 64 None))) by reflexivity.
  rewrite (bind_ok _ _ _ _ _ E). destruct (Z.ltb_spec o' 0); [lia|]. cbn [andb]. rewrite (bind_ok _ _ _ tt m) by reflexivity. pose proof (tree_end_le t 0). rewrite Z.sub_0_r, s32_small by lia. reflexivity.
Qed.
Lemma run_build m memp R1 : ms ⊆ m -> zeroed m memp R1 -> (forall x, memp <= x < R1 -> ms !! x = None) -> 0 < memp -> memp mod 8 = 0 -> R1 < 2 ^ 64 - 8 -> memp + tree_end 0 t <= R1 ->
  exists g m', unflatten_dt_nodes fuel lit ops fdt memp 0 m = Ok ((tree_end 0 t, root_addr g), m') /\ ms ⊆ m' /\ made m' t g /\ holds lit m' g /\ chain memp (gnodes g) (memp + tree_end 0 t) /\ same_but (fun x => memp <= x < memp + tree_end 0 t) m m'.
Proof.
  intros Hg Hz HR H0 H8 H64 He. unfold unflatten_dt_nodes. destruct (Z.eqb_spec memp 0); [lia|]. change (0 =? 0) with true. cbn [negb]. change (Z.to_nat FDT_MAX_DEPTH) with 64%nat. destruct fuel_split as [f Ef].
  assert (forall p, TProp p ∈ tokens t ++ [TFin] -> is_phandle p = true -> length (fp_val p) = 4%nat) as Hph' by (intros p Hp; apply Hph; apply elem_of_app in Hp as [Hp|Hp]; [exact Hp|apply list_elem_of_singleton in Hp; discriminate]).
  assert (tree_end memp t = memp + tree_end 0 t) as Et by (rewrite <- tree_end_add by exact H8; rewrite Z.add_0_r; reflexivity). pose proof (tree_end_le t 0) as Ht0.
  destruct (root_ok fuel lit ops fdt os ostr ne _ ms memp R1 B Hfuel Hfuel2 Hfuel3 Hlit HR H0 H64 Hph' t f memp m eq_refl Hheight Hg Hz ltac:(lia) ltac:(lia)) as (g & o' & m1 & E & Ho & G1 & G2 & G3 & G4 & G5 & G6). rewrite <- Ef in E.
  rewrite (bind_lift _ _ _ (<[0%nat := Some 0]> (replicate 64 None))) in E by reflexivity. rewrite (bind_lift _ _ _ (<[0%nat := Some 0]> (replicate 64 None))) by reflexivity. rewrite (bind_ok _ _ _ _ _ E). destruct (Z.ltb_spec o' 0); [lia|]. cbn [andb].
  destruct (reverse_ok (mirror g) (pred fuel) m1 0) as (m2 & E2 & L1 & L2). { rewrite (Permutation_length (gnodes_mirror g)), (made_size t g ms G1). lia. } { eapply spaced_perm; [symmetry; apply gnodes_mirror|]. eapply chain_spaced; [exact H0|exact G2]. } { exact G3. }
  rewrite mirror_addr in E2. rewrite Nat.succ_pred in E2 by lia. rewrite (bind_ok _ _ _ _ _ E2). rewrite mirror_mirror in L1. rewrite Et in *. replace (memp + tree_end 0 t - memp) with (tree_end 0 t) by lia. rewrite s32_small by lia.
  assert (forall x, ~ (memp <= x < memp + tree_end 0 t) -> m2 !! x = m1 !! x) as Hm2. { intros x Hx. apply L2. intros (n' & Hn' & Hy). rewrite gnodes_mirror in Hn'. destruct (chain_in _ _ _ _ G2 Hn') as (? & ? & ?). lia. }
  assert (ms ⊆ m2) as Hg2 by (apply (good_same ms memp R1 HR m1); [exact G6|]; intros x Hx; apply Hm2; lia).
  exists g, m2. split; [reflexivity|]. split; [exact Hg2|]. split; [eapply made_mono; eassumption|]. split; [split; [exact L1|]|].
  - rewrite Forall_forall in G4 |- *. intros [q n'] Hn'. eapply body_mono; [exact Hg2|]. specialize (G4 _ Hn'). apply (body_frame lit ms m1); [exact G4|]. cbn [fst snd]. intros x X1 X2 X3. apply L2. intros (b & Hb & Hy). rewrite gnodes_mirror in Hb.
    assert (n' ∈ gnodes g) as Hin by (rewrite <- (flat_nodes g 0); apply list_elem_of_fmap; exists (q, n'); auto). exact (chain_apart _ _ _ _ _ _ G2 Hin Hb X1 X2 X3 Hy).
  - split; [exact G2|]. intros x Hx. rewrite Hm2, G5 by lia. reflexivity.
Qed.

(** The pages of the tree: [order] as the code computes it. *)
Definition dt_size : Z := _ALIGN (tree_end 0 t) 4.
Definition dt_order : Z := __order_base_2 (PFN_UP dt_size).
Lemma dt_size_ok : tree_end 0 t <= dt_size < 2 ^ 31 - 4 /\ dt_size mod 4 = 0.
Proof.
  pose proof (tree_end_le t 0). unfold dt_size. pose proof (_ALIGN_spec (tree_end 0 t) 2 ltac:(unfold is_u64; lia) ltac:(lia) ltac:(lia)) as E. change (2 ^ 2) with 4 in E. rewrite E. Z.div_mod_to_equations. lia.
Qed.
Lemma dt_order_pos : 0 <= dt_order.
Proof.
  unfold dt_order, __order_base_2, __ilog2_u64. destruct (Z.ltb_spec 1 (PFN_UP dt_size)); [|lia]. rewrite fls64_log2. { destruct (_ =? 0); [lia|]. pose proof (Z.log2_nonneg (PFN_UP dt_size - 1)). lia. }
  unfold is_u64. split; [lia|]. unfold PFN_UP in *. change PAGE_SHIFT with 12. rewrite Z.shiftr_div_pow2 by lia. pose proof (u64_range (u64 (dt_size + PAGE_SIZE) - 1)) as Hu. unfold is_u64 in Hu. Z.div_mod_to_equations. lia.
Qed.

(** Bytes of free pages are mapped, linearly, and apart from [ms]. *)
Definition pages_ready (L : layout) (z : zone) (m : mem) : Prop :=
  0 <= va_pa_offset L /\ va_pa_offset L mod PAGE_SIZE = 0 /\
  forall p, free_page_in z p -> 0 < p /\ (p + 1) * PAGE_SIZE + va_pa_offset L < 2 ^ 64 - 8 /\ forall x, p * PAGE_SIZE + va_pa_offset L <= x < (p + 1) * PAGE_SIZE + va_pa_offset L -> is_Some (m !! x) /\ ms !! x = None.
Lemma page_address_ok L z m p : pages_ready L z m -> free_page_in z p -> page_address L p = p * PAGE_SIZE + va_pa_offset L.
Proof.
  intros (H1 & H2 & H3) Hp. destruct (H3 p Hp) as (P0 & P1 & _). change PAGE_SIZE with 4096 in *. unfold page_address, phys_to_virt, PFN_PHYS. change PAGE_SHIFT with 12. rewrite Z.shiftl_mul_pow2 by lia. change (2 ^ 12) with 4096. rewrite (u64_small (p * 4096)) by (unfold is_u64; lia). apply u64_small. unfold is_u64. lia.
Qed.

Lemma unflatten_spec L s z m : ms ⊆ m -> fdt_magic ms fdt = Ok FDT_MAGIC -> buddy_inv s z -> dt_order < MAX_ORDER -> dt_size + 4 <= PAGE_SIZE * 2 ^ dt_order -> pages_ready L z m ->
  (__unflatten_device_tree fuel lit ops L fdt 0 s m = Panic "bad __rmqueue_smallest! order(%u)" /\ forall c, c ∈ blocks z -> c.2 < dt_order) \/
  exists p s' g m', __unflatten_device_tree fuel lit ops L fdt 0 s m = Ok ((page_address L p, root_addr g, s'), m') /\ allocated s z dt_order p s' /\ 0 < page_address L p /\ ms ⊆ m' /\ made m' t g /\ holds lit m' g /\
    chain (page_address L p) (gnodes g) (page_address L p + dt_size) /\ same_but (fun x => page_address L p <= x < page_address L p + PAGE_SIZE * 2 ^ dt_order) m m'.
Proof.
  intros Hg Hmag Hb Hord Hroom Hpages. pose proof dt_size_ok as [Hs Hs4]. pose proof dt_order_pos as Ho0. pose proof (bl_pos _ _ _ _ _ _ B) as Hpos. pose proof (tree_end_le t 0) as Ht0. unfold __unflatten_device_tree. destruct (Z.eqb_spec fdt 0); [lia|].
  assert (fdt_check_header m fdt = Ok 0) as Eh. { unfold fdt_check_header. rewrite (magic_mono ms m fdt FDT_MAGIC Hg Hmag). reflexivity. }
  rewrite (rd_ok _ _ _ _ Eh). change (negb (0 =? 0)) with false. cbv iota. rewrite (bind_ok _ _ _ _ _ (run_dry m Hg)). destruct (Z.ltb_spec (tree_end 0 t) 0); [lia|]. fold dt_size. rewrite (s32_small dt_size) by lia. fold dt_order. rewrite bind_get. unfold __get_free_pages.
  destruct (alloc_pages_spec (va_pa_offset L) s z m (Z.land GFP_KERNEL (u32 (Z.lnot __GFP_HIGHMEM))) dt_order Hb ltac:(lia) ltac:(vm_compute; congruence) ltac:(reflexivity)) as [[E Hnone]|(p & s' & E & Hal)]; rewrite E; [left; split; [reflexivity|exact Hnone]|right]. cbn [mbind outcome_bind].
  rewrite (bind_lift _ _ _ _ eq_refl). rewrite (bind_ok _ _ _ tt m) by reflexivity. pose proof Hal as (z' & _ & (_ & _ & _ & _ & Hfree)).
  assert (forall q, p <= q < p + 2 ^ dt_order -> free_page_in z q) as Hfp by (intros q Hq; apply Hfree; left; exact Hq). assert (0 < 2 ^ dt_order) as H2 by (apply Z.pow_pos_nonneg; lia).
  pose proof (page_address_ok L z m p Hpages (Hfp p ltac:(lia))) as Epa. destruct Hpages as (V1 & V2 & Hp). change PAGE_SIZE with 4096 in *. set (memp := page_address L p) in *.
  assert (forall x, memp <= x < memp + 4096 * 2 ^ dt_order -> is_Some (m !! x) /\ ms !! x = None) as Hbytes.
  { intros x Hx. destruct (Hp (p + (x - memp) / 4096)) as (_ & _ & Hx'); [apply Hfp; Z.div_mod_to_equations; lia|]. apply Hx'. Z.div_mod_to_equations. lia. }
  destruct (Hp p (Hfp p ltac:(lia))) as (Q0 & _ & _). destruct (Hp (p + 2 ^ dt_order - 1) (Hfp (p + 2 ^ dt_order - 1) ltac:(lia))) as (_ & Q1 & _). assert (memp mod 8 = 0) as M8 by (rewrite Epa; Z.div_mod_to_equations; lia). destruct (Z.eqb_spec memp 0); [lia|].
  destruct (memset_ok (Z.to_nat dt_size) 0 m memp) as (m1 & E1 & Z1 & Z2); [intros x Hx; apply Hbytes; lia|]. rewrite Z2Nat.id in Z1, Z2 by lia. rewrite (bind_ok (zero_mem _ _) _ _ tt m1) by (unfold zero_mem, memset; rewrite bind_get, E1; reflexivity).
  destruct (store_le_spec [0xde; 0xad; 0xbe; 0xef] ltac:(repeat constructor; unfold byte_ok; lia) m1 (memp + dt_size)) as (m2 & E2 & Y1 & Y2). { intros x Hx. cbn in Hx. rewrite Z2 by lia. apply Hbytes. lia. }
  cbn [length] in E2, Y2. rewrite (bind_ok (put_marker _) _ _ tt m2) by (unfold put_marker; rewrite bind_get; change (swab32 0xdeadbeef) with (le_word [0xde; 0xad; 0xbe; 0xef]); rewrite E2; reflexivity).
  assert (forall x, ~ (memp <= x < memp + 4096 * 2 ^ dt_order) -> m2 !! x = m !! x) as Hm2 by (intros x Hx; rewrite Y2 by lia; apply Z2; lia).
  assert (ms ⊆ m2) as Hg2 by (apply (good_same ms memp (memp + 4096 * 2 ^ dt_order) (fun x Hx => proj2 (Hbytes x Hx)) m); assumption).
  destruct (run_build m2 memp (memp + dt_size) Hg2) as (g & m3 & E3 & G1 & G2 & G3 & G4 & G5); try lia; [intros x Hx; rewrite Y2 by lia; rewrite Z1 by lia; reflexivity|intros x Hx; apply Hbytes; lia|].
  rewrite (bind_ok _ _ _ _ _ E3). assert (be32_to_cpup m3 (memp + dt_size) = Ok 0xdeadbeef) as Em. { apply be32_to_cpup_ok; [lia|]. apply (bytes_at_ext m2); [|exact Y1]. intros x Hx. apply G5. lia. }
  rewrite (rd_ok _ _ _ _ Em). change (negb (0xdeadbeef =? 0xdeadbeef)) with false. cbv iota. exists p, s', g, m3. split; [reflexivity|]. split; [exact Hal|]. split; [lia|]. split; [exact G1|]. split; [exact G2|]. split; [exact G3|].
  split; [eapply chain_weaken; [exact G4|lia]|]. intros x Hx. rewrite G5 by lia. apply Hm2, Hx.
Qed.

End Final.
