(* ===== verification/OfExample.v ===== *)
(** * A small device tree

    A blob with three nodes, the memory that contains it, and the theorems of
    [FdtSpec] and [OfBuild] on it. *)

From Stdlib Require Import ZArith Lia Bool.
From stdpp Require Import base tactics numbers list gmap strings.
From S2P Require Import Prelude Words Mem LibString Memblock Buddy BuddyInit OpenFile Fdt FdtSpec OfTree OfUnflatten OfBuild.

Definition ex_names : list Z := chars "model" ++ [0] ++ chars "phandle" ++ [0].
Definition ex_model : fprop := FProp 0 (chars "model") (chars "xlinux" ++ [0]).
Definition ex_phandle : fprop := FProp 6 (chars "phandle") [0; 0; 0; 7].
Definition ex_tree : ftree := FNode [] [ex_model] [FNode (chars "cpu@0") [ex_phandle] []; FNode (chars "uart") [] []].
Definition ex_tokens : list Z := encs (tokens ex_tree ++ [TFin]).
Definition ex_os : Z := 40.
Definition ex_ostr : Z := Eval vm_compute in (40 + Z.of_nat (length ex_tokens)).
Definition ex_header : list Z :=
  be32 FDT_MAGIC ++ be32 (ex_ostr + 14) ++ be32 ex_os ++ be32 ex_ostr ++ be32 0 ++ be32 17 ++ be32 16 ++ be32 0 ++ be32 14 ++ be32 (ex_ostr - 40).
Definition ex_lits : list Z := chars "name" ++ [0] ++ chars "phandle" ++ [0] ++ chars "linux,phandle" ++ [0] ++ chars "/:" ++ [0] ++ chars "/" ++ [0] ++ chars "/cpu@0" ++ [0].
Definition ex_fdt : Z := 0x1000.
Definition ex_mem : mem := map_seqZ ex_fdt (ex_header ++ ex_tokens ++ ex_names ++ ex_lits).
Definition ex_lit_at : Z := ex_fdt + ex_ostr + 14.
Definition ex_lit (s : string) : Z :=
  if bool_decide (s = "name"%string) then ex_lit_at else if bool_decide (s = "phandle"%string) then ex_lit_at + 5 else if bool_decide (s = "linux,phandle"%string) then ex_lit_at + 13
  else if bool_decide (s = "/:"%string) then ex_lit_at + 27 else if bool_decide (s = "/"%string) then ex_lit_at + 30 else 0.
Definition ex_path : Z := ex_lit_at + 32.

Ltac bytes := vm_compute; repeat split.
Lemma ex_blob : tree_blob ex_mem ex_fdt ex_os ex_ostr 14 ex_tree.
Proof.
  split.
  - reflexivity.
  - split; [vm_compute; split; congruence|bytes].
  - repeat split; try (vm_compute; congruence); bytes.
  - reflexivity.
  - bytes.
  - vm_compute. repeat constructor; congruence.
  - intros p Hp. cbn in Hp. repeat (apply elem_of_cons in Hp as [Hp|Hp]; [first [discriminate Hp | injection Hp as ->; bytes]|]). inversion Hp.
Qed.
Lemma ex_lits_ok s : s ∈ ["name"; "phandle"; "linux,phandle"]%string -> cstr ex_mem (ex_lit s) (chars s).
Proof.
  intros Hs. repeat (apply elem_of_cons in Hs as [->|Hs]; [split; [bytes|vm_compute; repeat constructor; congruence]|]). inversion Hs.
Qed.

(** A scan that counts the nodes it sees in the size of memory. *)
Definition ex_count (o p d : Z) : DT Z := g ← st_get; st_put (set_memory g (dt_memory_base g) (dt_memory_size g + 1));; mret 0.
Definition ex_globals : dt_globals := DtGlobals ex_mem ex_fdt 0 0 0 0 0.
Lemma flat_scan_exact_witness : of_scan_flat_dt 1000 ex_count ex_globals = visit ex_count (ex_fdt + ex_os) (preorder 0 0 ex_tree).*1 0 ex_globals /\
  (fun r => dt_memory_size r.2) <$> of_scan_flat_dt 1000 ex_count ex_globals = Ok 3.
Proof.
  split; [|vm_compute; reflexivity]. apply (flat_scan_exact 1000 ex_fdt ex_os ex_ostr 14 ex_tree ex_count ex_globals); [vm_compute; reflexivity|reflexivity|exact ex_blob|].
  intros o p d g r g' Hb E. injection E as _ <-. exact Hb.
Defined.

Lemma memory_whole_pages_witness : exists b s, early_init_dt_add_memory_arch 0x80200000 0x80000100 0x8000000 ex_globals = Ok (tt, set_memory ex_globals b s) /\ b = 0x80200000.
Proof.
  destruct (memory_whole_pages 0x80000100 0x8000000 0x80200000 ex_globals ltac:(lia) ltac:(lia) ltac:(vm_compute; reflexivity) ltac:(lia) ltac:(reflexivity)) as (g' & E & [[_ H]|(b & s & -> & _)]).
  - exfalso. apply (H 0x80200000). vm_compute. repeat split; congruence.
  - exists b, s. split; [exact E|]. apply (f_equal (fmap (fun r => dt_memory_base r.2))) in E. vm_compute in E. congruence.
Defined.

(** The pages of the free block, next to the blob. *)
Definition ex_pages : mem := map_seqZ 0x80010000 (replicate (Z.to_nat 65536) 0).
Definition ex_memory : mem := ex_mem ∪ ex_pages.
Definition ex_layout : layout := Layout 0 0x80000 1024.
Lemma ex_ready z : blocks z = [(0x80010, 4)] -> pages_ready ex_mem ex_layout z ex_memory.
Proof.
  intros Hz. split; [cbn; lia|]. split; [reflexivity|]. intros p Hp. unfold free_page_in in Hp. rewrite Hz, Exists_cons, Exists_nil in Hp. destruct Hp as [Hp|[]]. unfold in_block in Hp. cbn [fst snd va_pa_offset ex_layout] in *. change (2 ^ 4) with 16 in Hp. change PAGE_SIZE with 4096.
  split; [lia|]. split; [lia|]. intros x Hx. assert (ex_fdt + Z.of_nat (length (ex_header ++ ex_tokens ++ ex_names ++ ex_lits)) < 0x2000) as Hlen by (vm_compute; reflexivity). assert (ex_mem !! x = None) as Hn by (apply lookup_map_seqZ_None; right; lia).
  split; [|exact Hn]. unfold ex_memory. rewrite lookup_union_r by exact Hn. apply lookup_map_seqZ_is_Some. rewrite length_replicate. lia.
Qed.
Lemma ex_phandles p : TProp p ∈ tokens ex_tree -> is_phandle p = true -> length (fp_val p) = 4%nat.
Proof. intros Hp Hph. cbn in Hp. repeat (apply elem_of_cons in Hp as [Hp|Hp]; [first [discriminate Hp | injection Hp as ->; first [reflexivity | discriminate Hph]]|]). inversion Hp. Qed.
(** The tree that is built from the example. *)
Lemma ex_built : exists g m', made m' ex_tree g /\ holds ex_lit m' g /\ ex_mem ⊆ m' /\ exists lo hi, 0 < lo /\ chain lo (gnodes g) hi.
Proof.
  destruct w_node_inv as (z & Bz & Hz).
  destruct (unflatten_spec 1000 ex_lit 0 ex_fdt ex_os ex_ostr 14 ex_tree ex_mem ex_blob) with (L := ex_layout) (s := w_node) (z := z) (m := ex_memory) as [[_ N]|(p & s' & g & m' & E & _ & H0 & Hm & H1 & H2 & H3 & _)]; [vm_compute; reflexivity|lia|lia|exact ex_lits_ok|exact ex_phandles|vm_compute; congruence|vm_compute; reflexivity|apply map_union_subseteq_l|vm_compute; reflexivity|exact Bz|vm_compute; reflexivity|vm_compute; congruence|apply ex_ready, Hz| |].
  - exfalso. specialize (N (0x80010, 4)). rewrite Hz in N. specialize (N ltac:(left)). revert N. vm_compute. congruence.
  - exists g, m'. repeat (split; [assumption|]). eauto.
Qed.

