(* ===== verification/OfNav.v ===== *)
(** * of/of.c, of/base.c, of/address.c and of_irq/of_irq.c: using the device tree

    Walking the tree, finding nodes by path and by phandle, matching drivers,
    translating addresses and finding interrupts.  All of these only read the tree;
    the reference counts of nodes are not kept ([of_node_get] returns its argument
    and [of_node_put] does nothing).  [of_root] and [of_aliases] are arguments. *)

From Stdlib Require Import ZArith Lia Bool.
From stdpp Require Import base tactics numbers list gmap strings.
From S2P Require Import Prelude Words Mem LibString Memblock Buddy OpenFile Fdt OfTree.

Definition OF_DETACHED : Z := 2.
Definition OF_BAD_ADDR : Z := u64 (-1).
Definition OF_MAX_ADDR_CELLS : Z := 4.
Definition MAX_PHANDLE_ARGS : Z := 16.
Definition INT_MAX : Z := 2 ^ 31 - 1.
Definition IORESOURCE_IO : Z := 0x100.
Definition IORESOURCE_MEM : Z := 0x200.
(** [struct of_device_id]: three arrays of characters and a pointer. *)
Definition id_name : Z := 0.
Definition id_type : Z := 32.
Definition id_compatible : Z := 64.
Definition id_data : Z := 192.
Definition SIZEOF_OF_DEVICE_ID : Z := 200.

Definition OF_CHECK_ADDR_COUNT (na : Z) : bool := (0 <? na) && (na <=? OF_MAX_ADDR_CELLS).
Definition OF_CHECK_COUNTS (na ns : Z) : bool := OF_CHECK_ADDR_COUNT na && (0 <? ns).

Definition of_node_get (np : Z) : Z := np.
Definition kbasename (fuel : nat) (m : mem) (path : Z) : outcome Z := tail ← strrchr fuel m path 0x2f; Ok (if tail =? 0 then path else tail + 1).

Section Nav.
  Context (fuel : nat) (lit : string -> Z) (m : mem) (of_root of_aliases : Z).

(** ** Walking *)

Definition of_get_parent (node : Z) : outcome Z := if node =? 0 then Ok 0 else p ← ldf m node dn_parent; Ok (of_node_get p).
(** [of_node_get] is never null on a node, so that the loop of the code ends at once. *)
Definition __of_get_next_child (node prev : Z) : outcome Z :=
  if node =? 0 then Ok 0 else if negb (prev =? 0) then ldf m prev dn_sibling else ldf m node dn_child.

Fixpoint climb_loop (f : nat) (np : Z) : outcome Z :=
  match f with
  | O => NoFuel
  | S f =>
      p ← ldf m np dn_parent; s ← ldf m np dn_sibling;
      if negb (p =? 0) && (s =? 0) then climb_loop f p else Ok s
  end.
Definition __of_find_all_nodes (prev : Z) : outcome Z :=
  if prev =? 0 then Ok of_root
  else c ← ldf m prev dn_child; if negb (c =? 0) then Ok c else climb_loop fuel prev.

Definition of_node_check_flag (n flag : Z) : outcome bool := fl ← ldf m n dn_flags; Ok (Z.testbit fl flag).
Fixpoint phandle_loop (f : nat) (np handle : Z) : outcome Z :=
  match f with
  | O => NoFuel
  | S f =>
      if np =? 0 then Ok 0
      else
        h ← ldf m np dn_phandle;
        hit ← (if h =? handle then d ← of_node_check_flag np OF_DETACHED; Ok (negb d) else Ok false);
        if (hit : bool) then Ok np else np ← __of_find_all_nodes np; phandle_loop f np handle
  end.
Definition of_find_node_by_phandle (handle : Z) : outcome Z :=
  if handle =? 0 then Ok 0 else np ← __of_find_all_nodes 0; np ← phandle_loop fuel np handle; Ok (of_node_get np).

(** ** Paths *)

Fixpoint child_by_name (f : nat) (parent child path len : Z) : outcome Z :=
  match f with
  | O => NoFuel
  | S f =>
      if child =? 0 then Ok 0
      else
        fn ← ldf m child dn_full_name;
        name ← kbasename fuel m fn;
        r ← strncmp m path name len;
        l ← (if r =? 0 then strlen fuel m name else Ok (-1));
        if (r =? 0) && (l =? len) then Ok child
        else child ← __of_get_next_child parent child; child_by_name f parent child path len
  end.
Definition __of_find_node_by_path (parent path : Z) : outcome Z :=
  len ← strcspn fuel fuel m path (lit "/:");
  if len =? 0 then Ok 0
  else child ← __of_get_next_child parent 0; child_by_name fuel parent child path len.
Fixpoint full_path_loop (f : nat) (node path separator : Z) : outcome Z :=
  match f with
  | O => NoFuel
  | S f =>
      if node =? 0 then Ok node
      else
        c ← load8 m path;
        if c =? 0x2f then
          let path := path + 1 in
          node ← __of_find_node_by_path node path;
          path ← strchrnul fuel m path 0x2f;
          if negb (separator =? 0) && (separator <? path) then Ok node else full_path_loop f node path separator
        else Ok node
  end.
Definition __of_find_node_by_full_path (node path : Z) : outcome Z :=
  separator ← strchr fuel m path 0x3a; full_path_loop fuel node path separator.

(** The property of the aliases that the path begins with: its value, or 0. *)
Fixpoint alias_loop (f : nat) (pp path len : Z) : outcome (option Z) :=
  match f with
  | O => NoFuel
  | S f =>
      if pp =? 0 then Ok None
      else
        n ← ldf m pp pp_name;
        l ← strlen fuel m n;
        r ← (if l =? len then strncmp m n path len else Ok 1);
        if r =? 0 then v ← ldf m pp pp_value; Ok (Some v) else pp ← ldf m pp pp_next; alias_loop f pp path len
  end.
(** The node and the options after the separator. *)
Fixpoint of_find_node_opts_by_path (f : nat) (path : Z) : outcome (Z * Z) :=
  match f with
  | O => NoFuel
  | S f =>
      separator ← strchr fuel m path 0x3a;
      let opts := if separator =? 0 then 0 else separator + 1 in
      r ← strcmp fuel m path (lit "/");
      if r =? 0 then Ok (of_node_get of_root, opts)
      else
        c ← load8 m path;
        if negb (c =? 0x2f) then
          p ← (if separator =? 0 then strchrnul fuel m path 0x2f else Ok separator);
          if of_aliases =? 0 then Ok (0, opts)
          else
            pp ← ldf m of_aliases dn_properties;
            a ← alias_loop fuel pp path (s32 (p - path));
            match (a : option Z) with
            | None => Ok (0, opts)
            | Some v =>
                '(np, _) ← of_find_node_opts_by_path f v;
                if np =? 0 then Ok (0, opts) else np ← __of_find_node_by_full_path np p; Ok (np, opts)
            end
        else np ← __of_find_node_by_full_path (of_node_get of_root) path; Ok (np, opts)
  end.
Definition of_find_node_by_path (path : Z) : outcome Z := '(np, _) ← of_find_node_opts_by_path fuel path; Ok np.

(** ** Cells *)

Fixpoint cells_loop (f : nat) (np propname default : Z) : outcome Z :=
  match f with
  | O => NoFuel
  | S f =>
      if np =? 0 then Ok default
      else
        '(r, cells) ← of_property_read_u32 fuel m np propname;
        if r =? 0 then Ok (s32 cells) else np ← ldf m np dn_parent; cells_loop f np propname default
  end.
Definition of_bus_n_addr_cells (np : Z) : outcome Z := cells_loop fuel np (lit "#address-cells") OF_ROOT_NODE_ADDR_CELLS_DEFAULT.
Definition of_bus_n_size_cells (np : Z) : outcome Z := cells_loop fuel np (lit "#size-cells") OF_ROOT_NODE_SIZE_CELLS_DEFAULT.
Definition of_n_addr_cells (np : Z) : outcome Z := p ← ldf m np dn_parent; of_bus_n_addr_cells (if negb (p =? 0) then p else np).
Definition of_n_size_cells (np : Z) : outcome Z := p ← ldf m np dn_parent; of_bus_n_size_cells (if negb (p =? 0) then p else np).

(** ** Matching drivers *)

Definition __of_node_is_type (np type : Z) : outcome bool :=
  '(match_, _) ← __of_get_property fuel m np (lit "device_type");
  if negb (np =? 0) && negb (match_ =? 0) && negb (type =? 0) then r ← strcmp fuel m match_ type; Ok (r =? 0) else Ok false.
Definition of_node_name_eq (np name : Z) : outcome bool :=
  if np =? 0 then Ok false
  else
    fn ← ldf m np dn_full_name;
    node_name ← kbasename fuel m fn;
    e ← strchrnul fuel m node_name 0x40;
    let len := e - node_name in
    l ← strlen fuel m name;
    if l =? len then r ← strncmp m node_name name len; Ok (r =? 0) else Ok false.
Fixpoint compat_loop (f : nat) (prop cp compat index : Z) : outcome Z :=
  match f with
  | O => NoFuel
  | S f =>
      if cp =? 0 then Ok 0
      else
        r ← strcasecmp fuel m cp compat;
        if r =? 0 then Ok (s32 (INT_MAX / 2 - s32 (Z.shiftl index 2)))
        else cp ← of_prop_next_string fuel m prop cp; compat_loop f prop cp compat (index + 1)
  end.
(** A null string, or an empty one, asks for nothing. *)
Definition asked (s : Z) : outcome bool := if s =? 0 then Ok false else c ← load8 m s; Ok (negb (c =? 0)).
Definition __of_device_is_compatible (device compat type name : Z) : outcome Z :=
  a ← asked compat;
  score ← (if (a : bool) then
             prop ← __of_find_property fuel m device (lit "compatible");
             cp ← of_prop_next_string fuel m prop 0;
             compat_loop fuel prop cp compat 0
           else Ok 0);
  if (a : bool) && (score =? 0) then Ok 0
  else
    b ← asked type;
    t ← (if (b : bool) then __of_node_is_type device type else Ok true);
    if negb t then Ok 0
    else
      let score := if (b : bool) then score + 2 else score in
      c ← asked name;
      n ← (if (c : bool) then of_node_name_eq device name else Ok true);
      if negb n then Ok 0 else Ok (if (c : bool) then score + 1 else score).
Fixpoint match_loop (f : nat) (matches node best_match best_score : Z) : outcome Z :=
  match f with
  | O => NoFuel
  | S f =>
      n ← load8 m (matches + id_name); t ← load8 m (matches + id_type); c ← load8 m (matches + id_compatible);
      if negb (n =? 0) || negb (t =? 0) || negb (c =? 0) then
        score ← __of_device_is_compatible node (matches + id_compatible) (matches + id_type) (matches + id_name);
        if best_score <? score then match_loop f (matches + SIZEOF_OF_DEVICE_ID) node matches score
        else match_loop f (matches + SIZEOF_OF_DEVICE_ID) node best_match best_score
      else Ok best_match
  end.
Definition __of_match_node (matches node : Z) : outcome Z := if matches =? 0 then Ok 0 else match_loop fuel matches node 0 0.
Definition of_match_node (matches node : Z) : outcome Z := __of_match_node matches node.
(** The device's node and its driver's table are arguments. *)
Definition of_match_device (matches of_node : Z) : outcome Z := if (matches =? 0) || (of_node =? 0) then Ok 0 else of_match_node matches of_node.
Definition of_device_get_match_data (matches of_node : Z) : outcome Z :=
  mt ← of_match_device matches of_node; if mt =? 0 then Ok 0 else ldf m mt id_data.
(** The node and its entry of the table. *)
Fixpoint matching_loop (f : nat) (np matches : Z) : outcome (Z * Z) :=
  match f with
  | O => NoFuel
  | S f =>
      if np =? 0 then Ok (0, 0)
      else
        mt ← __of_match_node matches np;
        if negb (mt =? 0) && negb (of_node_get np =? 0) then Ok (np, mt)
        else np ← __of_find_all_nodes np; matching_loop f np matches
  end.
Definition of_find_matching_node_and_match (from matches : Z) : outcome (Z * Z) :=
  np ← __of_find_all_nodes from; matching_loop fuel np matches.

Definition __of_device_is_available (device : Z) : outcome bool :=
  if device =? 0 then Ok false
  else
    '(status, statlen) ← __of_get_property fuel m device (lit "status");
    if status =? 0 then Ok true
    else if 0 <? statlen then
      r ← strcmp fuel m status (lit "okay");
      if r =? 0 then Ok true else r ← strcmp fuel m status (lit "ok"); Ok (r =? 0)
    else Ok false.
Definition of_device_is_available (device : Z) : outcome bool := __of_device_is_available device.

(** ** Lists of phandles *)

Record of_phandle_iterator := PhandleIterator {
  it_cells_name : Z; it_cell_count : Z; it_parent : Z; it_list_end : Z; it_phandle_end : Z; it_cur : Z; it_cur_count : Z; it_phandle : Z; it_node : Z }.
Record of_phandle_args := PhandleArgs { pa_np : Z; pa_args : list Z }.

Definition of_phandle_iterator_init (np list_name cells_name cell_count : Z) : outcome (Z * of_phandle_iterator) :=
  let it := PhandleIterator 0 0 0 0 0 0 0 0 0 in
  if (cell_count <? 0) && (cells_name =? 0) then Ok (- EINVAL, it)
  else
    '(list, size) ← of_get_property fuel m np list_name;
    if list =? 0 then Ok (- ENOENT, it)
    else Ok (0, PhandleIterator cells_name cell_count np (list + 4 * (u64 size / 4)) list list 0 0 0).
(** A word of the list is printed too, which reads it. *)
Definition of_phandle_iterator_next (it : of_phandle_iterator) : outcome (Z * of_phandle_iterator) :=
  let it := PhandleIterator (it_cells_name it) (it_cell_count it) (it_parent it) (it_list_end it) (it_phandle_end it) (it_cur it) (it_cur_count it) (it_phandle it) 0 in
  if (it_cur it =? 0) || (it_list_end it <=? it_phandle_end it) then Ok (- ENOENT, it)
  else
    h ← be32_to_cpup m (it_phandle_end it);
    let cur := it_phandle_end it + 4 in
    _ ← be32_to_cpup m cur;
    '(node, count) ←
      (if negb (h =? 0) then
         node ← of_find_node_by_phandle h;
         count ← (if negb (it_cells_name it =? 0) then
                    if node =? 0 then Panic "could not find phandle"
                    else '(r, count) ← of_property_read_u32 fuel m node (it_cells_name it); if negb (r =? 0) then Panic "bad property!" else Ok count
                  else Ok (u32 (it_cell_count it)));
         if it_list_end it <? cur + 4 * count then Panic "%p: %s = %d found %d" else Ok (node, count)
       else Ok (0, 0));
    Ok (0, PhandleIterator (it_cells_name it) (it_cell_count it) (it_parent it) (it_list_end it) (cur + 4 * count) cur count h node).
Definition of_phandle_iterator_args (it : of_phandle_iterator) (size : Z) : outcome (list Z) :=
  bug_on (size <? s32 (it_cur_count it)) "BUG_ON";; read_words (Z.to_nat (s32 (it_cur_count it))) m (it_cur it).
(** The result and the arguments; the word of the first argument is printed. *)
Fixpoint phandles_loop (f : nat) (rc : Z) (it : of_phandle_iterator) (cur_index index : Z) : outcome (Z * option of_phandle_args) :=
  match f with
  | O => NoFuel
  | S f =>
      if rc =? 0 then
        if cur_index =? index then
          if it_phandle it =? 0 then Ok (- ENOENT, None)
          else args ← of_phandle_iterator_args it MAX_PHANDLE_ARGS; Ok (0, Some (PhandleArgs (it_node it) args))
        else '(rc, it) ← of_phandle_iterator_next it; phandles_loop f rc it (cur_index + 1) index
      else Ok (rc, None)
  end.
Definition __of_parse_phandle_with_args (np list_name cells_name cell_count index : Z) : outcome (Z * option of_phandle_args) :=
  '(_, it) ← of_phandle_iterator_init np list_name cells_name cell_count;
  '(rc, it) ← of_phandle_iterator_next it;
  phandles_loop fuel rc it 0 index.
Definition of_parse_phandle_with_args (np list_name cells_name index : Z) : outcome (Z * option of_phandle_args) :=
  if index <? 0 then Ok (- EINVAL, None)
  else __of_parse_phandle_with_args np list_name cells_name (if cells_name =? 0 then 0 else -1) index.
End Nav.

(** [of_aliases], [of_chosen], [of_stdout] and its options, which are null before. *)
Definition of_alias_scan (fuel : nat) (lit : string -> Z) (m : mem) (of_root : Z) : outcome (Z * Z * Z * Z) :=
  aliases ← of_find_node_by_path fuel lit m of_root 0 (lit "/aliases");
  if negb (aliases =? 0) then Panic "no aliases!"
  else
    chosen ← of_find_node_by_path fuel lit m of_root aliases (lit "/chosen");
    chosen ← (if chosen =? 0 then of_find_node_by_path fuel lit m of_root aliases (lit "/chosen@0") else Ok chosen);
    if negb (chosen =? 0) then
      '(r, name) ← of_property_read_string fuel m chosen (lit "stdout-path");
      '(_, name) ← (if negb (r =? 0) then of_property_read_string fuel m chosen (lit "linux,stdout-path") else Ok (r, name));
      if negb (name =? 0) then
        '(stdout, opts) ← of_find_node_opts_by_path fuel lit m of_root aliases fuel name; Ok (aliases, chosen, stdout, opts)
      else Ok (aliases, chosen, 0, 0)
    else Ok (aliases, chosen, 0, 0).
(** Builds the tree and looks for the nodes used everywhere; the name of the console's node is printed. *)
Definition unflatten_device_tree (fuel : nat) (lit : string -> Z) (of_fwnode_ops : Z) (L : layout) (initial_boot_params : Z) (s : buddy) : DM (Z * (Z * Z * Z * Z) * buddy) :=
  '(_, of_root, s) ← __unflatten_device_tree fuel lit of_fwnode_ops L initial_boot_params 0 s;
  '(aliases, chosen, stdout, opts) ← rd (fun m => of_alias_scan fuel lit m of_root);
  get stdout dn_full_name;;
  mret (of_root, (aliases, chosen, stdout, opts), s).
