(* ===== verification/OfNavSpec.v ===== *)
(** * Walking the device tree

    On a tree that memory holds, [__of_find_all_nodes] goes from each node to the
    next one in the order of the source, so that a search sees every node once;
    a search by phandle and one by path find the node they name. *)

From Stdlib Require Import ZArith Lia Bool.
From stdpp Require Import base tactics numbers list gmap strings.
From S2P Require Import Prelude Words Mem LibString Memblock Buddy BuddyInit OpenFile Fdt FdtSpec OfTree OfUnflatten OfBuild OfExample OfNav.

Fixpoint gheight (g : gtree) : nat := match g with GTree _ kids => S (foldr (fun k n => Nat.max (gheight k) n) 0%nat kids) end.
Definition gheights (kids : list gtree) : nat := foldr (fun k n => Nat.max (gheight k) n) 0%nat kids.
(** The address of the first of [l], or [u]. *)
Definition first_addr (u : Z) (l : list gnode) : Z := match l with [] => u | n :: _ => g_addr n end.
Lemma first_addr_app u l1 l2 : first_addr u (l1 ++ l2) = first_addr (first_addr u l2) l1.
Proof. destruct l1; reflexivity. Qed.
Lemma first_allnodes u kids : first_addr u (allnodes kids) = hd u kids.
Proof. destruct kids as [|[n l] kids]; reflexivity. Qed.
(** The first node with a phandle. *)
Fixpoint by_phandle (h : Z) (l : list gnode) : Z := match l with [] => 0 | n :: l => if g_phandle n =? h then g_addr n else by_phandle h l end.

Section Walk.
  Context (fuel : nat) (lit : string -> Z) (m : mem) (root : Z).
  Abbreviation contents l := (Forall (fun pn => body lit m m (pn : Z * gnode).1 pn.2) l).

(** Going up from [np] ends at [u] within [d] steps. *)
Definition up (d : nat) (np u : Z) : Prop := forall f, (d <= f)%nat -> climb_loop m f np = Ok u.
Lemma up_stop np p s : m !! (np + 32) = Some p -> m !! (np + 48) = Some s -> p = 0 \/ s <> 0 -> up 1 np s.
Proof.
  intros Hp Hs H [|f] Hf; [lia|]. cbn [climb_loop]. unfold ldf. rewrite (load8_ok _ _ _ Hp : load8 m (np + dn_parent) = _), (load8_ok _ _ _ Hs : load8 m (np + dn_sibling) = _). cbn [mbind outcome_bind].
  destruct (Z.eqb_spec p 0), (Z.eqb_spec s 0); cbn [negb andb]; try reflexivity. destruct H; contradiction.
Qed.
Lemma up_parent d np p u : m !! (np + 32) = Some p -> m !! (np + 48) = Some 0 -> p <> 0 -> up d p u -> up (S d) np u.
Proof.
  intros Hp Hs H Hu [|f] Hf; [lia|]. cbn [climb_loop]. unfold ldf. rewrite (load8_ok _ _ _ Hp : load8 m (np + dn_parent) = _), (load8_ok _ _ _ Hs : load8 m (np + dn_sibling) = _). cbn [mbind outcome_bind].
  destruct (Z.eqb_spec p 0); [contradiction|]. apply Hu. lia.
Qed.

(** Each node of [l] is followed by the next one, the last by [u]. *)
Fixpoint succs (l : list gnode) (u : Z) : Prop := match l with [] => True | n :: l => __of_find_all_nodes fuel m root (g_addr n) = Ok (first_addr u l) /\ succs l u end.
Lemma succs_app l1 l2 u : succs l1 (first_addr u l2) -> succs l2 u -> succs (l1 ++ l2) u.
Proof. induction l1 as [|n l1 IH]; [auto|]. cbn [app succs]. rewrite first_addr_app. intros [H1 H2] H3. auto. Qed.

Lemma tree_walk_ok g : forall p sib u d, linked m sib g -> contents (flat p g) -> Forall (fun n => 0 < g_addr n) (gnodes g) -> up d (root_addr g) u -> (d + gheight g <= S fuel)%nat -> succs (gnodes g) u.
Proof.
  induction g as [n kids IH] using gtree_nested_ind. intros p sib u d Hl Hb Hp Hu Hf. apply linked_eq in Hl as (H1 & _ & H3). cbn [gnodes flat root_addr gheight succs] in *. fold (gheights kids) in Hf. apply Forall_cons in Hp as [Hn Hp]. apply Forall_cons in Hb as [_ Hb]. split.
  - unfold __of_find_all_nodes. destruct (Z.eqb_spec (g_addr n) 0); [lia|]. unfold ldf at 1. rewrite (load8_ok _ _ _ H1 : load8 m (g_addr n + dn_child) = _). cbn [mbind outcome_bind]. rewrite first_allnodes. destruct kids as [|k kids]; cbn [hd]; [apply Hu; lia|].
    rewrite allnodes_cons in Hp. apply Forall_app in Hp as [Hp _]. destruct (gnodes_root k) as (nk & lk & Ek & Er). rewrite Ek in Hp. apply Forall_cons in Hp as [Hp _]. destruct (Z.eqb_spec (root_addr k) 0); [lia|reflexivity].
  - clear H1. induction IH as [|k kids Hk _ IHk]; [exact Logic.I|]. rewrite allnodes_cons in *. rewrite fmap_cons in Hb. cbn [concat linkeds gheights foldr] in *. fold (gheights kids) in Hf. apply Forall_app in Hp as [Hp1 Hp2], Hb as [Hb1 Hb2]. destruct H3 as [H3 H4].
    apply succs_app; [|apply IHk; try assumption; lia]. rewrite first_allnodes. destruct (gnodes_root k) as (nk & lk & Ek & Er).
    assert (m !! (root_addr k + 32) = Some (g_addr n) /\ m !! (root_addr k + 48) = Some (hd 0 kids)) as [Kp Ks]. { destruct k as [nk' kk]. apply linked_eq in H3 as (_ & Ks & _). split; [|exact Ks]. cbn [flat] in Hb1. apply Forall_cons in Hb1 as [Hb1 _]. apply (bd_parent _ _ _ _ _ Hb1). }
    destruct kids as [|k' kids].
    + apply (Hk (g_addr n) 0 u (S d) H3 Hb1 Hp1); [apply (up_parent d _ (g_addr n)); [exact Kp|exact Ks|lia|exact Hu]|lia].
    + cbn [hd] in *. apply (Hk (g_addr n) (root_addr k') (root_addr k') 1%nat H3 Hb1 Hp1); [|lia]. apply (up_stop _ (g_addr n)); [exact Kp|exact Ks|right]. rewrite allnodes_cons in Hp2. apply Forall_app in Hp2 as [Hp2 _]. destruct (gnodes_root k') as (n' & l' & E' & R'). rewrite E' in Hp2. apply Forall_cons in Hp2 as [Hp2 _]. lia.
Qed.

Lemma phandle_loop_ok h l : Forall (fun n => 0 < g_addr n /\ m !! (g_addr n + 8) = Some (g_phandle n) /\ m !! (g_addr n + 112) = Some 0) l -> succs l 0 -> forall f, (length l < f)%nat ->
  phandle_loop fuel m root f (first_addr 0 l) h = Ok (by_phandle h l).
Proof.
  induction 1 as [|n l (Hn & Hp & Hfl) _ IH]; intros Hs [|f] Hf; try (cbn in Hf; lia); [reflexivity|]. cbn [phandle_loop first_addr by_phandle]. destruct Hs as [Hs1 Hs2]. destruct (Z.eqb_spec (g_addr n) 0); [lia|].
  unfold ldf at 1. rewrite (load8_ok _ _ _ Hp : load8 m (g_addr n + dn_phandle) = _). cbn [mbind outcome_bind]. destruct (g_phandle n =? h).
  - unfold of_node_check_flag, ldf. rewrite (load8_ok _ _ _ Hfl : load8 m (g_addr n + dn_flags) = _). reflexivity.
  - cbn [mbind outcome_bind]. rewrite Hs1. cbn [mbind outcome_bind]. apply IH; [exact Hs2|cbn in Hf; lia].
Qed.
End Walk.

(** The nodes of a tree that memory holds. *)
Lemma node_cells lit m g : holds lit m g -> Forall (fun n => 0 < g_addr n) (gnodes g) -> Forall (fun n => 0 < g_addr n /\ m !! (g_addr n + 8) = Some (g_phandle n) /\ m !! (g_addr n + 112) = Some 0) (gnodes g).
Proof.
  intros [_ Hb] Hp. rewrite Forall_forall in Hb. rewrite Forall_forall in Hp. apply Forall_forall. intros n Hn. split; [apply Hp, Hn|]. rewrite <- (flat_nodes g 0) in Hn. apply list_elem_of_fmap in Hn as ([q n'] & -> & Hn). specialize (Hb _ Hn). split; [apply (bd_phandle _ _ _ _ _ Hb)|apply (bd_flags _ _ _ _ _ Hb)].
Qed.
Lemma all_nodes_ok fuel lit m g : holds lit m g -> Forall (fun n => 0 < g_addr n) (gnodes g) -> (gheight g <= fuel)%nat -> succs fuel m (root_addr g) (gnodes g) 0.
Proof.
  intros [Hl Hb] Hp Hf. apply (tree_walk_ok fuel lit m (root_addr g) g 0 0 0 1%nat Hl Hb Hp); [|lia]. destruct g as [n kids]. apply linked_eq in Hl as (_ & Hs & _). cbn [flat] in Hb. apply Forall_cons in Hb as [Hb _]. apply (up_stop m (g_addr n) 0 0); [apply (bd_parent _ _ _ _ _ Hb)|exact Hs|auto].
Qed.

(** On a device tree in memory, repeated [__of_find_all_nodes] visits the nodes of the
    tree exactly once each, parents before children in the order of the source, and
    then ends; and [of_find_node_by_phandle] returns the first node in that
    order with the phandle, or null if no node has it. *)
Theorem phandle_lookup_exact fuel lit m g h : holds lit m g -> Forall (fun n => 0 < g_addr n) (gnodes g) -> (gheight g <= fuel)%nat -> (length (gnodes g) < fuel)%nat -> h <> 0 ->
  __of_find_all_nodes fuel m (root_addr g) 0 = Ok (first_addr 0 (gnodes g)) /\
  (forall l1 n l2, gnodes g = l1 ++ n :: l2 -> __of_find_all_nodes fuel m (root_addr g) (g_addr n) = Ok (first_addr 0 l2)) /\
  of_find_node_by_phandle fuel m (root_addr g) h = Ok (by_phandle h (gnodes g)).
Proof.
  intros Hh Hp Hf1 Hf2 Hne. pose proof (all_nodes_ok fuel lit m g Hh Hp Hf1) as Hs. assert (root_addr g = first_addr 0 (gnodes g)) as Er by (destruct g; reflexivity). split; [rewrite <- Er; reflexivity|]. split.
  - intros l1 n l2 E. rewrite E in Hs. clear -Hs. induction l1 as [|n' l1 IH]; [apply Hs|]. apply IH, Hs.
  - unfold of_find_node_by_phandle. destruct (Z.eqb_spec h 0); [contradiction|]. unfold __of_find_all_nodes at 1. change (0 =? 0) with true. cbv iota. cbn [mbind outcome_bind]. rewrite Er at 2. rewrite (phandle_loop_ok fuel m (root_addr g) h (gnodes g) (node_cells lit m g Hh Hp) Hs fuel Hf2). reflexivity.
Qed.

(** The names and the phandles of the nodes are those of the blob. *)
Fixpoint tnodes (t : ftree) : list (list Z * list fprop) := match t with FNode name ps kids => (name, ps) :: concat (tnodes <$> kids) end.
Lemma made_nodes ms t : forall g, made ms t g -> Forall2 (fun np n => node_of ms np.1 np.2 n) (tnodes t) (gnodes g).
Proof.
  induction t as [name ps kids IH] using ftree_nested_ind. intros g H. inversion H as [? ? ? n gs Hn Hk]; subst. cbn [tnodes gnodes]. constructor; [exact Hn|]. clear H Hn. induction Hk as [|k h kids gs Hk _ IHk]; [constructor|]. apply Forall_cons in IH as [IH1 IH2]. rewrite !fmap_cons. cbn [concat]. apply Forall2_app; auto.
Qed.
Lemma chain_pos l lo hi : 0 < lo -> chain lo l hi -> Forall (fun n => 0 < g_addr n) l.
Proof. intros H0 Hc. apply Forall_forall. intros n Hn. destruct (chain_in _ _ _ _ Hc Hn). lia. Qed.
Lemma gheight_size g : (gheight g <= length (gnodes g))%nat.
Proof.
  induction g as [n kids IH] using gtree_nested_ind. cbn [gheight gnodes length]. apply le_n_S. fold (gheights kids). induction IH as [|k kids Hk _ IHk]; [reflexivity|]. rewrite allnodes_cons, length_app. cbn [gheights foldr]. fold (gheights kids). lia.
Qed.

Lemma phandle_lookup_exact_witness : exists m g n, of_find_node_by_phandle 1000 m (root_addr g) 7 = Ok (g_addr n) /\ g_name n = chars "cpu@0" /\ gnodes g !! 1%nat = Some n.
Proof.
  destruct ex_built as (g & m & Hm & Hh & _ & lo & hi & H0 & Hc). pose proof (made_size ex_tree g m Hm) as Hs. change (fsize ex_tree) with 3%nat in Hs. pose proof (gheight_size g) as Hg. pose proof (made_nodes m ex_tree g Hm) as Hn. pose proof (chain_pos _ _ _ H0 Hc) as Hp.
  destruct (phandle_lookup_exact 1000 ex_lit m g 7 Hh Hp ltac:(lia) ltac:(lia) ltac:(lia)) as (_ & _ & E). exists m, g. destruct (gnodes g) as [|n0 [|n1 l]] eqn:Eg; try discriminate Hs. exists n1.
  apply Forall2_cons in Hn as [(_ & _ & P0) Hn]. apply Forall2_cons in Hn as [(N1 & _ & P1) _]. cbn [by_phandle] in E. rewrite P0, P1 in E. exact (conj E (conj N1 eq_refl)).
Defined.

(** ** Paths *)

(** A component of a path, and the path of a list of components. *)
Definition comp_ok (c : list Z) : Prop := c <> [] /\ Forall (fun b => char_ok b /\ b <> 0x2f /\ b <> 0x3a) c.
Definition path_of (l : list (list Z)) : list Z := concat ((fun c => 0x2f :: c) <$> l).
Definition gname (g : gtree) : list Z := match g with GTree n _ => g_name n end.
Definition gkids (g : gtree) : list gtree := match g with GTree _ kids => kids end.
Definition child_named (c : list Z) (kids : list gtree) : option gtree := List.find (fun k => bool_decide (gname k = c)) kids.
(** Going down by the names; null if a child is missing. *)
Fixpoint follow (g : gtree) (l : list (list Z)) : Z := match l with [] => root_addr g | c :: l => match child_named c (gkids g) with Some k => follow k l | None => 0 end end.
Definition plain (n : gnode) : Prop := 0 < g_addr n /\ Forall char_ok (g_name n) /\ 0x2f ∉ g_name n.

Lemma path_chars l : Forall comp_ok l -> Forall char_ok (path_of l).
Proof.
  unfold path_of. induction 1 as [|c l (_ & Hc) _ IH]; [constructor|]. rewrite fmap_cons. cbn [concat]. constructor; [unfold char_ok; lia|]. apply Forall_app. split; [eapply Forall_impl; [exact Hc|]; intros b Hb; apply Hb|exact IH].
Qed.
Lemma path_length l : (length l <= length (path_of l))%nat.
Proof. induction l as [|c l IH]; [reflexivity|]. unfold path_of in *. rewrite fmap_cons. cbn [concat]. rewrite length_app. cbn [length]. lia. Qed.
Lemma find_index_none f l : Forall (fun b => f b = false) l -> find_index f l = None.
Proof. induction 1 as [|b l Hb _ IH]; cbn; [reflexivity|]. rewrite Hb, IH. reflexivity. Qed.
Lemma find_last_none f l : Forall (fun b => f b = false) l -> find_last_index f l = None.
Proof. induction 1 as [|b l Hb _ IH]; cbn; [reflexivity|]. rewrite IH, Hb. reflexivity. Qed.
(** The first '/' after a component. *)
Lemma find_slash c l : Forall comp_ok (c :: l) -> default (length (c ++ path_of l)) (find_index (fun b => b =? u8 0x2f) (c ++ path_of l)) = length c.
Proof.
  intros H. apply Forall_cons in H as [(_ & Hc) _]. change (u8 0x2f) with 0x2f. induction Hc as [|b c (_ & Hb & _) _ IH].
  - destruct l as [|c' l]; reflexivity.
  - cbn [app find_index]. destruct (Z.eqb_spec b 0x2f); [contradiction|]. change (u8 0x2f) with 0x2f in IH. destruct (find_index (fun b0 => b0 =? 0x2f) (c ++ path_of l)); cbn [fmap option_fmap option_map default length] in *; unfold id in *; congruence.
Qed.

Section Paths.
  Context (fuel : nat) (lit : string -> Z) (m : mem) (Hlit : cstr m (lit "/:") [0x2f; 0x3a]) (Hfuel : (2 < fuel)%nat).

Lemma hit_ok b : strcspn_in fuel m b (lit "/:") = Ok ((b =? 0x2f) || (b =? 0x3a)).
Proof using Hlit Hfuel.
  destruct fuel as [|[|[|f]]]; try lia. apply cstr_cons in Hlit as (H1 & _ & H). apply cstr_cons in H as (H2 & _ & H). apply cstr_nil in H. cbn [strcspn_in]. rewrite (load8_ok _ _ _ H1). cbn [mbind outcome_bind]. change (0x2f =? 0) with false. cbv iota. destruct (b =? 0x2f); [reflexivity|].
  rewrite (load8_ok _ _ _ H2). cbn [mbind outcome_bind]. change (0x3a =? 0) with false. cbv iota. destruct (b =? 0x3a); [reflexivity|]. rewrite (load8_ok _ _ _ H). reflexivity.
Qed.
Lemma strcspn_ok c l : Forall comp_ok l -> Forall (fun b => char_ok b /\ b <> 0x2f /\ b <> 0x3a) c -> forall f p n, cstr m p (c ++ path_of l) -> (length c < f)%nat -> strcspn_loop f fuel m p (lit "/:") n = Ok (n + Z.of_nat (length c)).
Proof using Hlit Hfuel.
  intros Hl. induction 1 as [|b c ((Hb0 & Hb0') & Hb1 & Hb2) _ IH]; intros [|f] p n Hc Hf; try (cbn in Hf; lia); cbn [strcspn_loop app length] in *.
  - destruct l as [|c' l]; [apply cstr_nil in Hc; rewrite (load8_ok _ _ _ Hc); cbn; f_equal; lia|]. unfold path_of in Hc. rewrite fmap_cons in Hc. cbn [concat app] in Hc. apply cstr_cons in Hc as (H0 & _ & _). rewrite (load8_ok _ _ _ H0). cbn [mbind outcome_bind]. change (0x2f =? 0) with false. cbv iota. rewrite hit_ok. cbn. f_equal. lia.
  - apply cstr_cons in Hc as (H0 & _ & Hc). rewrite (load8_ok _ _ _ H0). cbn [mbind outcome_bind]. destruct (Z.eqb_spec b 0); [lia|]. rewrite hit_ok. destruct (Z.eqb_spec b 0x2f); [contradiction|]. destruct (Z.eqb_spec b 0x3a); [contradiction|]. cbn [orb mbind outcome_bind]. rewrite (IH f (p + 1) (n + 1) Hc ltac:(lia)). f_equal. lia.
Qed.

(** Is this the child with the name? *)
Lemma name_test p fn c l name : cstr m p (c ++ path_of l) -> cstr m fn name -> Forall comp_ok (c :: l) -> 0x2f ∉ name -> (length name < fuel)%nat ->
  kbasename fuel m fn = Ok fn /\ exists r ln, strncmp m p fn (Z.of_nat (length c)) = Ok r /\ (if r =? 0 then strlen fuel m fn else Ok (-1)) = Ok ln /\ (r =? 0) && (ln =? Z.of_nat (length c)) = bool_decide (name = c).
Proof.
  intros Hp Hfn Hok Hns Hf. split.
  - unfold kbasename. rewrite (strrchr_ok fuel m fn name 0x2f Hfn Hf). cbn [mbind outcome_bind]. rewrite find_last_index_app. change (0 =? u8 0x2f) with false. cbv iota. rewrite find_last_none; [reflexivity|]. apply Forall_forall. intros b Hb. change (u8 0x2f) with 0x2f. destruct (Z.eqb_spec b 0x2f) as [->|]; [contradiction|reflexivity].
  - rewrite (strncmp_lexicographic m p fn (c ++ path_of l) name _ Hp Hfn). rewrite Nat2Z.id, <- app_assoc, take_app_length. set (r := lex_cmp c _). exists r, (if r =? 0 then Z.of_nat (length name) else -1). split; [reflexivity|]. rewrite (strlen_ok fuel m fn name Hfn Hf). split; [destruct (r =? 0); reflexivity|]. destruct (Nat.eq_dec (length name) (length c)) as [El|El].
    + unfold r. rewrite (take_app_length' name) by (symmetry; exact El). destruct (Z.eqb_spec (lex_cmp c name) 0) as [E|E].
      * apply lex_cmp_eq in E; [|congruence]. subst. rewrite bool_decide_eq_true_2 by reflexivity. cbn. apply Z.eqb_eq. reflexivity.
      * rewrite bool_decide_eq_false_2; [reflexivity|]. intros ->. apply E. apply lex_cmp_eq; reflexivity.
    + rewrite bool_decide_eq_false_2 by congruence. destruct (r =? 0); [|reflexivity]. cbn [andb]. apply Z.eqb_neq. lia.
Qed.

(** Memory holds the nodes below [p]. *)
Abbreviation contents l := (Forall (fun pn => body lit m m (pn : Z * gnode).1 pn.2) l).
Abbreviation short n := (plain n /\ (length (g_name n) < fuel)%nat).

Lemma child_ok p parent c l kids : cstr m p (c ++ path_of l) -> Forall comp_ok (c :: l) -> linkeds m 0 kids -> contents (concat (flat parent <$> kids)) -> Forall (fun n => short n) (allnodes kids) -> parent <> 0 -> forall f, (length kids < f)%nat ->
  child_by_name fuel m f parent (hd 0 kids) p (Z.of_nat (length c)) = Ok (match child_named c kids with Some k => root_addr k | None => 0 end).
Proof using Hlit Hfuel.
  intros Hp Hok Hl Hb Hn Hpar. induction kids as [|k kids IH]; intros [|f] Hf; try (cbn in Hf; lia); [reflexivity|]. rewrite fmap_cons in Hb. rewrite allnodes_cons in Hn. cbn [concat] in Hb. apply Forall_app in Hb as [Hb1 Hb2], Hn as [Hn1 Hn2]. destruct Hl as [Hl1 Hl2].
  destruct k as [n kk]. apply linked_eq in Hl1 as (_ & Hs & _). cbn [gnodes flat hd root_addr] in *. apply Forall_cons in Hb1 as [Hb1 _], Hn1 as [((N1 & N2 & N3) & N4) _]. cbn [fst snd] in Hb1. destruct (bd_full_name _ _ _ _ _ Hb1) as [F1 F2].
  cbn [child_by_name]. destruct (Z.eqb_spec (g_addr n) 0); [lia|]. unfold ldf at 1. rewrite (load8_ok _ _ _ F1 : load8 m (g_addr n + dn_full_name) = _). cbn [mbind outcome_bind].
  destruct (name_test p (g_addr n + 120) c l (g_name n) Hp (conj F2 N2) Hok N3 N4) as (E0 & r & ln & E1 & E2 & E3). rewrite E0. cbn [mbind outcome_bind]. rewrite E1. cbn [mbind outcome_bind]. rewrite E2. cbn [mbind outcome_bind]. rewrite E3. cbn [child_named List.find gname]. case_bool_decide as Hc; [reflexivity|].
  unfold __of_get_next_child. destruct (Z.eqb_spec parent 0); [contradiction|]. destruct (Z.eqb_spec (g_addr n) 0); [lia|]. cbn [negb]. unfold ldf. rewrite (load8_ok _ _ _ Hs : load8 m (g_addr n + dn_sibling) = _). cbn [mbind outcome_bind]. apply IH; try assumption. cbn in Hf. lia.
Qed.
Lemma find_kid c kids k : child_named c kids = Some k -> exists l1 l2, kids = l1 ++ k :: l2.
Proof using. unfold child_named. intros E. apply find_some in E as [E _]. apply list_elem_of_In, list_elem_of_split in E as (l1 & l2 & ->). eauto. Qed.

Lemma full_path_ok l : forall g parent sib p f, cstr m p (path_of l) -> Forall comp_ok l -> linked m sib g -> contents (flat parent g) -> Forall (fun n => short n) (gnodes g) -> (length (gnodes g) < fuel)%nat -> (length (path_of l) < fuel)%nat -> (length l < f)%nat ->
  full_path_loop fuel lit m f (root_addr g) p 0 = Ok (follow g l).
Proof using Hlit Hfuel.
  induction l as [|c l IH]; intros g parent sib p [|f] Hp Hok Hl Hb Hn Hg Hpl Hf; try (cbn in Hf; lia); destruct g as [n kids]; cbn [gnodes flat root_addr full_path_loop follow gkids] in *; apply Forall_cons in Hn as [((N1 & _) & _) Hn]; (destruct (Z.eqb_spec (g_addr n) 0); [lia|]).
  - apply cstr_nil in Hp. rewrite (load8_ok _ _ _ Hp). reflexivity.
  - pose proof Hok as Hok'. apply Forall_cons in Hok as [[Hne Hc] Hok]. unfold path_of in Hp, Hpl. rewrite fmap_cons in Hp, Hpl. cbn [concat app] in Hp, Hpl. fold (path_of l) in Hp, Hpl. apply cstr_cons in Hp as (H0 & _ & Hp). rewrite (load8_ok _ _ _ H0). cbn [mbind outcome_bind]. change (0x2f =? 0x2f) with true. cbv iota. cbn [length] in Hpl, Hg. rewrite length_app in Hpl.
    apply linked_eq in Hl as (L1 & _ & L3). apply Forall_cons in Hb as [_ Hb]. pose proof (length_allnodes kids) as Hlen.
    unfold __of_find_node_by_path, strcspn. rewrite (strcspn_ok c l Hok Hc fuel (p + 1) 0 Hp ltac:(lia)). cbn [mbind outcome_bind]. rewrite Z.add_0_l. destruct (Z.eqb_spec (Z.of_nat (length c)) 0) as [E|_]; [destruct c; [contradiction|cbn in E; lia]|].
    unfold __of_get_next_child at 1. destruct (Z.eqb_spec (g_addr n) 0); [lia|]. change (0 =? 0) with true. cbn [negb]. unfold ldf at 1. rewrite (load8_ok _ _ _ L1 : load8 m (g_addr n + dn_child) = _). cbn [mbind outcome_bind].
    rewrite (child_ok (p + 1) (g_addr n) c l kids Hp Hok' L3 Hb Hn ltac:(lia) fuel ltac:(lia)). cbn [mbind outcome_bind]. rewrite (strchrnul_ok fuel m (p + 1) (c ++ path_of l) 0x2f Hp ltac:(rewrite length_app; lia)), (find_slash c l Hok'). cbn [mbind outcome_bind]. change (0 =? 0) with true. cbn [negb andb].
    destruct Hp as [Hpb Hpc]. assert (cstr m (p + 1 + Z.of_nat (length c)) (path_of l)) as Hp'. { split; [|apply Forall_app in Hpc; apply Hpc]. rewrite <- app_assoc in Hpb. apply bytes_at_app in Hpb. apply Hpb. }
    destruct (child_named c kids) as [k|] eqn:Ek; [|destruct f as [|f]; [cbn in Hf; lia|]; reflexivity]. apply find_kid in Ek as (l1 & l2 & ->). apply linkeds_app in L3 as [_ [L3 _]]. rewrite fmap_app, concat_app, fmap_cons in Hb. rewrite fmap_app, concat_app, fmap_cons in Hn. rewrite fmap_app, concat_app, fmap_cons in Hg. cbn [concat] in Hb, Hn, Hg. rewrite !length_app in Hg.
    apply Forall_app in Hb as [_ Hb]. apply Forall_app in Hb as [Hb _]. apply Forall_app in Hn as [_ Hn]. apply Forall_app in Hn as [Hn _]. apply (IH k (g_addr n) _ _ f Hp' Hok L3 Hb Hn); [lia|lia|cbn in Hf; lia].
Qed.
End Paths.

Lemma made_plain ms t g lo hi fuel : made ms t g -> 0 < lo -> chain lo (gnodes g) hi -> Forall (fun np => Forall char_ok np.1 /\ 0x2f ∉ np.1 /\ (length np.1 < fuel)%nat) (tnodes t) -> Forall (fun n => plain n /\ (length (g_name n) < fuel)%nat) (gnodes g).
Proof.
  intros Hm H0 Hc Ht. apply made_nodes in Hm. pose proof (chain_pos _ _ _ H0 Hc) as Hp. clear Hc. revert Ht Hp. induction Hm as [|np n l l' (Hn & _) _ IH]; intros Ht Hp; constructor; apply Forall_cons in Ht as [(T1 & T2 & T3) Ht], Hp as [Hp0 Hp]; [|apply IH; assumption]. rewrite <- Hn in T1, T2, T3. split; [split; [exact Hp0|]; split; assumption|exact T3].
Qed.

(** C26: on the device tree of a blob in memory, [of_find_node_by_path] with the path of a list of names
    returns the node that is reached from the root by going, for each name in turn,
    to the first child of that name, or null if there is no such child. *)
Theorem path_lookup_exact fuel lit m t g lo hi aliases path l : made m t g -> holds lit m g -> 0 < lo -> chain lo (gnodes g) hi ->
  Forall (fun np => Forall char_ok np.1 /\ 0x2f ∉ np.1 /\ (length np.1 < fuel)%nat) (tnodes t) ->
  cstr m (lit "/:") [0x2f; 0x3a] -> cstr m (lit "/") [0x2f] -> cstr m path (path_of l) -> l <> [] -> Forall comp_ok l -> (2 < fuel)%nat -> (fsize t < fuel)%nat -> (length (path_of l) < fuel)%nat ->
  of_find_node_by_path fuel lit m (root_addr g) aliases path = Ok (follow g l).
Proof.
  intros Hm [Hl Hb] H0 Hc Ht Hl1 Hl2 Hp Hne Hok Hf1 Hf2 Hf3. pose proof (made_plain m t g lo hi fuel Hm H0 Hc Ht) as Hn. pose proof (made_size t g m Hm) as Hs. unfold of_find_node_by_path. assert (exists f', fuel = S f') as [f' Ef] by (exists (pred fuel); lia).
  assert (of_find_node_opts_by_path fuel lit m (root_addr g) aliases fuel path = of_find_node_opts_by_path fuel lit m (root_addr g) aliases (S f') path) as -> by (rewrite <- Ef; reflexivity). cbn [of_find_node_opts_by_path].
  assert (find_index (fun b => b =? u8 0x3a) (path_of l ++ [0]) = None) as Ec.
  { apply find_index_none. apply Forall_app. split; [|repeat constructor]. clear -Hok. unfold path_of. induction Hok as [|c l (_ & Hc) _ IH]; [constructor|]. rewrite fmap_cons. cbn [concat]. constructor; [reflexivity|]. apply Forall_app. split; [|exact IH]. eapply Forall_impl; [exact Hc|]. cbn. intros b (_ & _ & Hb). change (u8 0x3a) with 0x3a. apply Z.eqb_neq, Hb. }
  rewrite (strchr_ok fuel m path (path_of l) 0x3a Hp Hf3), Ec. cbn [ptr_at mbind outcome_bind]. destruct (strcmp_eq fuel m path (lit "/") (path_of l) [0x2f] Hp Hl2 Hf3) as (r & -> & Er). cbn [mbind outcome_bind]. rewrite Er. destruct l as [|c l]; [contradiction|]. pose proof Hok as Hok'. apply Forall_cons in Hok' as [[Hcn _] _].
  rewrite bool_decide_eq_false_2; [|unfold path_of; rewrite fmap_cons; cbn [concat app]; destruct c; [contradiction|discriminate]]. pose proof Hp as Hp'. unfold path_of in Hp'. rewrite fmap_cons in Hp'. cbn [concat app] in Hp'. apply cstr_cons in Hp' as (P0 & _ & _). rewrite (load8_ok _ _ _ P0). cbn [mbind outcome_bind]. change (negb (0x2f =? 0x2f)) with false. cbv iota.
  unfold __of_find_node_by_full_path. rewrite (strchr_ok fuel m path (path_of (c :: l)) 0x3a Hp Hf3), Ec. cbn [ptr_at mbind outcome_bind]. unfold of_node_get.
  rewrite (full_path_ok fuel lit m Hl1 Hf1 (c :: l) g 0 0 path fuel Hp Hok Hl Hb Hn); [reflexivity|lia|exact Hf3|]. pose proof (path_length (c :: l)). lia.
Qed.

Lemma path_lookup_exact_witness : exists m g n, of_find_node_by_path 1000 ex_lit m (root_addr g) 0 ex_path = Ok (g_addr n) /\ gnodes g !! 1%nat = Some n /\ g_phandle n = 7.
Proof.
  destruct ex_built as (g & m & Hm & Hh & Hsub & lo & hi & H0 & Hc).
  assert (forall p l, bytes_at ex_mem p (l ++ [0]) -> Forall char_ok l -> cstr m p l) as Hs by (intros p l H1 H2; apply (cstr_mono ex_mem m p l Hsub); split; assumption).
  pose proof (path_lookup_exact 1000 ex_lit m ex_tree g lo hi 0 ex_path [chars "cpu@0"] Hm Hh H0 Hc) as E. exists m, g.
  pose proof Hm as Hm2. inversion Hm2 as [? ? ? n0 gs _ Hk]; subst. inversion Hk as [|? g1 ? ? Hk1 Hk2]; subst. inversion Hk1 as [? ? ? n1 ? (N1 & _ & N3) Hk1']; subst. exists n1. split; [|split; [reflexivity|rewrite N3; reflexivity]]. rewrite E.
  - cbn [follow gkids child_named List.find gname]. rewrite N1. reflexivity.
  - apply Forall_forall. intros np Hnp. cbn in Hnp. repeat (apply elem_of_cons in Hnp as [->|Hnp]; [split; [vm_compute; repeat constructor; congruence|]; split; [|vm_compute; lia]; vm_compute; intros Hx; repeat (apply elem_of_cons in Hx as [Hx|Hx]; [discriminate Hx|]); inversion Hx|]). inversion Hnp.
  - apply Hs; [bytes|vm_compute; repeat constructor; congruence].
  - apply Hs; [bytes|vm_compute; repeat constructor; congruence].
  - apply Hs; [bytes|vm_compute; repeat constructor; congruence].
  - discriminate.
  - constructor; [split; [discriminate|vm_compute; repeat constructor; congruence]|constructor].
  - lia.
  - vm_compute. lia.
  - vm_compute. lia.
Defined.
