(* ===== verification/OfAddr.v ===== *)
(** * of/address.c and of_irq/of_irq.c: addresses and interrupts of devices

    A device's [reg] is an address on its bus; [of_translate_address] takes it up
    through the [ranges] of the buses above to an address of the processor.
    [of_irq_parse_one] finds the controller and the cells of an interrupt.  The
    local array of address cells is a list whose words may not be set yet; like the
    array it holds the words as they are stored, big-endian. *)

From Stdlib Require Import ZArith Lia Bool.
From stdpp Require Import base tactics numbers list gmap strings.
From S2P Require Import Prelude Words Mem LibString Memblock Buddy OpenFile Fdt OfTree OfNav.

Record of_resource := Resource { res_start : Z; res_end : Z; res_flags : Z; res_name : Z }.

(** ** The array of cells *)

Definition cells := list (option Z).
(** [of_read_number] on the array. *)
Fixpoint read_cells (n : nat) (addr : cells) (i r : Z) : outcome Z :=
  match n with
  | O => Ok r
  | S n => w ← aget addr i; w ← deref w; read_cells n addr (i + 1) (Z.lor (u64 (Z.shiftl r 32)) (swab32 w))
  end.
Definition cells_number (addr : cells) (na : Z) : outcome Z := if na <? 0 then Fault else read_cells (Z.to_nat na) addr 0 0.
(** [memset(addr, 0, n * 4)] and [memcpy(addr, p, n * 4)]. *)
Fixpoint clear_cells (n : nat) (addr : cells) (i : Z) : outcome cells :=
  match n with
  | O => Ok addr
  | S n => addr ← aset addr i (Some 0); clear_cells n addr (i + 1)
  end.
Fixpoint copy_cells (n : nat) (m : mem) (addr : cells) (i p : Z) : outcome cells :=
  match n with
  | O => Ok addr
  | S n => w ← load_le 4 m p; addr ← aset addr i (Some w); copy_cells n m addr (i + 1) (p + 4)
  end.

Section Addr.
  Context (fuel : nat) (lit : string -> Z) (m : mem) (of_root : Z).

(** ** Buses *)

Record of_bus := OfBus {
  bus_name : string; bus_addresses : string; bus_match : option (Z -> bool);
  count_cells : Z -> outcome (Z * Z);
  bus_map : cells -> Z -> Z -> Z -> Z -> outcome Z;
  bus_translate : cells -> Z -> Z -> outcome cells;
  bus_get_flags : Z -> Z }.

Definition of_bus_default_count_cells (dev : Z) : outcome (Z * Z) :=
  a ← of_n_addr_cells fuel lit m dev; s ← of_n_size_cells fuel lit m dev; Ok (a, s).
Definition of_bus_default_get_flags (addr : Z) : Z := IORESOURCE_MEM.
Definition of_bus_default_map (addr : cells) (range na ns pna : Z) : outcome Z :=
  cp ← of_read_number m range na;
  s ← of_read_number m (range + 4 * (na + pna)) ns;
  da ← cells_number addr na;
  if (da <? cp) || (u64 (cp + s) <=? da) then Ok OF_BAD_ADDR else Ok (u64 (da - cp)).
Definition of_bus_default_translate (addr : cells) (offset na : Z) : outcome cells :=
  a ← cells_number addr na;
  addr ← clear_cells (Z.to_nat na) addr 0;
  let a := u64 (a + offset) in
  addr ← (if 1 <? na then aset addr (na - 2) (Some (swab32 (u32 (Z.shiftr a 32)))) else Ok addr);
  aset addr (na - 1) (Some (swab32 (Z.land a 0xffffffff))).
Definition of_empty_ranges_quirk (np : Z) : bool := false.

(** The loop over the ranges: the range found and the offset in it. *)
Fixpoint ranges_loop (f : nat) (bus : of_bus) (addr : cells) (ranges rlen na ns pna offset : Z) : outcome (Z * Z) :=
  match f with
  | O => NoFuel
  | S f =>
      let rone := na + pna + ns in
      if rone <=? rlen then
        offset ← bus_map bus addr ranges na ns pna;
        if negb (offset =? OF_BAD_ADDR) then Ok (ranges, offset) else ranges_loop f bus addr (ranges + 4 * rone) (rlen - rone) na ns pna offset
      else Ok (ranges, offset)
  end.
(** Not found, or the address on the parent bus. *)
Definition of_translate_one (parent : Z) (bus pbus : of_bus) (addr : cells) (na ns pna : Z) (rprop : string) : outcome (option cells) :=
  '(ranges, rlen) ← of_get_property fuel m parent (lit rprop);
  if (ranges =? 0) && negb (of_empty_ranges_quirk parent) && negb (bool_decide (rprop = "dma-ranges"%string)) then Panic "no ranges; cannot translate"
  else if (ranges =? 0) || (u32 rlen =? 0) then
    offset ← cells_number addr na;
    addr ← clear_cells (Z.to_nat pna) addr 0;
    addr ← bus_translate pbus addr offset pna; Ok (Some addr)
  else
    '(ranges, offset) ← ranges_loop fuel bus addr ranges (u32 rlen / 4) na ns pna OF_BAD_ADDR;
    if offset =? OF_BAD_ADDR then Ok None
    else addr ← copy_cells (Z.to_nat pna) m addr 0 (ranges + 4 * na); addr ← bus_translate pbus addr offset pna; Ok (Some addr).

Definition of_busses : list of_bus :=
  [OfBus "default" "reg" None of_bus_default_count_cells of_bus_default_map of_bus_default_translate of_bus_default_get_flags].
Fixpoint match_bus (l : list of_bus) (np : Z) : outcome of_bus :=
  match l with
  | [] => Panic "BUG"
  | b :: l => if match bus_match b with None => true | Some f => f np end then Ok b else match_bus l np
  end.
Definition of_match_bus (np : Z) : outcome of_bus := match_bus of_busses np.

(** Going up one bus at a time; [dev] is the bus just left, [parent] the next one. *)
Fixpoint translate_loop (f : nat) (parent : Z) (bus : of_bus) (addr : cells) (na ns : Z) (rprop : string) : outcome Z :=
  match f with
  | O => NoFuel
  | S f =>
      let dev := parent in
      parent ← of_get_parent m dev;
      if parent =? 0 then cells_number addr na
      else
        pbus ← of_match_bus parent;
        '(pna, pns) ← count_cells pbus dev;
        if negb (OF_CHECK_COUNTS pna pns) then Panic "Bad cell count for %lxOF"
        else
          r ← of_translate_one dev bus pbus addr na ns pna rprop;
          match (r : option cells) with
          | None => Ok OF_BAD_ADDR
          | Some addr => translate_loop f parent pbus addr pna pns rprop
          end
  end.
(** The host that the caller asks for is always null. *)
Definition __of_translate_address (dev in_addr : Z) (rprop : string) : outcome Z :=
  parent ← of_get_parent m (of_node_get dev);
  if parent =? 0 then Ok OF_BAD_ADDR
  else
    bus ← of_match_bus parent;
    '(na, ns) ← count_cells bus dev;
    if negb (OF_CHECK_COUNTS na ns) then Ok OF_BAD_ADDR
    else
      addr ← copy_cells (Z.to_nat na) m (replicate (Z.to_nat OF_MAX_ADDR_CELLS) None) 0 in_addr;
      translate_loop fuel parent bus addr na ns rprop.
Definition of_translate_address (dev in_addr : Z) : outcome Z := __of_translate_address dev in_addr "ranges".

(** ** Resources *)

(** The address of the cells, the size and the flags; a null address is none. *)
Fixpoint address_loop (f : nat) (bus : of_bus) (prop psize onesize na ns i index : Z) : outcome (Z * Z * Z) :=
  match f with
  | O => NoFuel
  | S f =>
      if onesize <=? psize then
        if i =? index then size ← of_read_number m (prop + 4 * na) ns; Ok (prop, size, bus_get_flags bus prop)
        else address_loop f bus (prop + 4 * onesize) (psize - onesize) onesize na ns (i + 1) index
      else Ok (0, 0, 0)
  end.
Definition of_get_address (dev index : Z) : outcome (Z * Z * Z) :=
  parent ← of_get_parent m dev;
  if parent =? 0 then Ok (0, 0, 0)
  else
    bus ← of_match_bus parent;
    '(na, ns) ← count_cells bus dev;
    if negb (OF_CHECK_ADDR_COUNT na) then Ok (0, 0, 0)
    else
      '(prop, psize) ← of_get_property fuel m dev (lit (bus_addresses bus));
      if prop =? 0 then Ok (0, 0, 0)
      else address_loop fuel bus prop (u32 psize / 4) (na + ns) na ns 0 index.
Definition __of_address_to_resource (dev addrp size flags name : Z) : outcome (Z * option of_resource) :=
  if negb (Z.land flags IORESOURCE_MEM =? 0) then
    taddr ← of_translate_address dev addrp;
    if taddr =? OF_BAD_ADDR then Ok (- EINVAL, None)
    else n ← (if negb (name =? 0) then Ok name else ldf m dev dn_full_name); Ok (0, Some (Resource taddr (u64 (taddr + size - 1)) flags n))
  else if negb (Z.land flags IORESOURCE_IO =? 0) then Panic "not support resource io!"
  else Ok (- EINVAL, None).
Definition of_address_to_resource (dev index : Z) : outcome (Z * option of_resource) :=
  '(addrp, size, flags) ← of_get_address dev index;
  if addrp =? 0 then Ok (- EINVAL, None) else __of_address_to_resource dev addrp size flags 0.

(** ** Interrupts *)

Fixpoint find_parent_loop (f : nat) (child : Z) : outcome Z :=
  match f with
  | O => NoFuel
  | S f =>
      '(r, parent) ← of_property_read_u32 fuel m child (lit "interrupt-parent");
      p ← (if negb (r =? 0) then of_get_parent m child else of_find_node_by_phandle fuel m of_root parent);
      if p =? 0 then Ok 0
      else '(v, _) ← of_get_property fuel m p (lit "#interrupt-cells"); if v =? 0 then find_parent_loop f p else Ok p
  end.
Definition of_irq_find_parent (child : Z) : outcome Z := if of_node_get child =? 0 then Ok 0 else find_parent_loop fuel child.

(** The controller and its number of cells. *)
Fixpoint intsize_loop (f : nat) (ipar intsize : Z) : outcome (Z * Z) :=
  match f with
  | O => NoFuel
  | S f =>
      '(r, v) ← of_property_read_u32 fuel m ipar (lit "#interrupt-cells");
      if r =? 0 then Ok (ipar, v)
      else ipar ← of_irq_find_parent ipar; if ipar =? 0 then Ok (0, intsize) else intsize_loop f ipar intsize
  end.
Fixpoint addr_cells_loop (f : nat) (old : Z) : outcome Z :=
  match f with
  | O => NoFuel
  | S f =>
      '(tmp, _) ← of_get_property fuel m old (lit "#address-cells");
      old ← of_get_parent m old;
      if negb (old =? 0) && (tmp =? 0) then addr_cells_loop f old else Ok tmp
  end.
(** The match array is filled and not used afterwards: what remains are the reads of it. *)
Definition of_irq_parse_raw (addr : Z) (out_irq : of_phandle_args) : outcome Z :=
  '(ipar, intsize) ← intsize_loop fuel (of_node_get (pa_np out_irq)) 1;
  if ipar =? 0 then Panic " -> no parent found !"
  else if negb (u32 (Z.of_nat (length (pa_args out_irq))) =? intsize) then Panic "bad intsize!"
  else
    tmp ← addr_cells_loop fuel ipar;
    addrsize ← (if tmp =? 0 then Ok 2 else be32_to_cpup m tmp);
    bug_on (MAX_PHANDLE_ARGS <? u32 (addrsize + intsize)) "BUG_ON";;
    _ ← (if negb (addr =? 0) then read_words (Z.to_nat addrsize) m addr else Ok []);
    b ← of_property_read_bool fuel m ipar (lit "interrupt-controller");
    if (b : bool) then Ok 0 else Panic "%s: !".

(** The cells of the specifier: an error, or all of them; the array of the caller has sixteen. *)
Fixpoint intspec_loop (n : nat) (device index intsize i : Z) : outcome (Z * list Z) :=
  match n with
  | O => Ok (0, [])
  | S n =>
      '(res, v) ← of_property_read_u32_index fuel m device (lit "interrupts") (u32 (index * intsize + i));
      if negb (res =? 0) then Ok (res, [])
      else if MAX_PHANDLE_ARGS <=? i then Fault
      else '(res, l) ← intspec_loop n device index intsize (i + 1); Ok (res, v :: l)
  end.
Definition of_irq_parse_one (device index : Z) : outcome (Z * option of_phandle_args) :=
  '(addr, _) ← of_get_property fuel m device (lit "reg");
  '(res, a) ← of_parse_phandle_with_args fuel m of_root device (lit "interrupts-extended") (lit "#interrupt-cells") index;
  match (a : option of_phandle_args) with
  | Some a => r ← of_irq_parse_raw addr a; Ok (r, Some a)
  | None =>
      p ← of_irq_find_parent device;
      if p =? 0 then Ok (- EINVAL, None)
      else
        '(r, intsize) ← of_property_read_u32 fuel m p (lit "#interrupt-cells");
        if negb (r =? 0) then Ok (- EINVAL, None)
        else
          '(res, args) ← intspec_loop (Z.to_nat intsize) device index intsize 0;
          if negb (res =? 0) then Ok (res, None)
          else let out := PhandleArgs p args in r ← of_irq_parse_raw addr out; Ok (r, Some out)
  end.
Fixpoint irq_count_loop (f : nat) (dev nr : Z) : outcome Z :=
  match f with
  | O => NoFuel
  | S f => '(r, _) ← of_irq_parse_one dev nr; if r =? 0 then irq_count_loop f dev (nr + 1) else Ok nr
  end.
Definition of_irq_count (dev : Z) : outcome Z := irq_count_loop fuel dev 0.
End Addr.
