(* ===== verification/PageTable.v ===== *)
(** * pgalloc/pgalloc.c, ioremap/ioremap.c: page tables and page faults

    The three levels of tables of Sv39 are pages of 512 words in memory, from the page
    allocator of [Buddy]; an entry holds a frame number and bits.  The kernel
    fills them for devices ([ioremap_page_range]) and on page faults
    ([handle_mm_fault]).  A page is named by its frame number, and
    a table by the address of the page in the linear map. *)

From Stdlib Require Import ZArith Lia Bool.
From stdpp Require Import base tactics numbers list gmap strings.
From S2P Require Import Prelude Words Mem LibString Memblock Buddy OfTree.

(** ** Layout of addresses and entries *)

Definition PGDIR_SHIFT : Z := 30.
Definition PGDIR_SIZE : Z := Z.shiftl 1 PGDIR_SHIFT.
Definition PGDIR_MASK : Z := u64 (Z.lnot (PGDIR_SIZE - 1)).
Definition PTRS_PER_PGD : Z := PAGE_SIZE / 8.
Definition pgd_index (a : Z) : Z := Z.land (Z.shiftr a PGDIR_SHIFT) (PTRS_PER_PGD - 1).
Definition PMD_SHIFT : Z := 21.
Definition PMD_SIZE : Z := Z.shiftl 1 PMD_SHIFT.
Definition PMD_MASK : Z := u64 (Z.lnot (PMD_SIZE - 1)).
Definition PTRS_PER_PMD : Z := PAGE_SIZE / 8.
Definition pmd_index (a : Z) : Z := Z.land (Z.shiftr a PMD_SHIFT) (PTRS_PER_PMD - 1).
Definition PTRS_PER_PTE : Z := PAGE_SIZE / 8.
Definition pte_index (a : Z) : Z := Z.land (Z.shiftr a PAGE_SHIFT) (PTRS_PER_PTE - 1).

Definition _PAGE_PRESENT : Z := Z.shiftl 1 0.
Definition _PAGE_READ : Z := Z.shiftl 1 1.
Definition _PAGE_WRITE : Z := Z.shiftl 1 2.
Definition _PAGE_DIRTY : Z := Z.shiftl 1 7.
Definition _PAGE_TABLE : Z := _PAGE_PRESENT.
Definition _PAGE_PFN_SHIFT : Z := 10.

Definition pgd_none (pgd : Z) : bool := pgd =? 0.
Definition pmd_none (pmd : Z) : bool := pmd =? 0.
Definition pte_none (pte : Z) : bool := pte =? 0.
Definition pgd_present (pgd : Z) : bool := negb (Z.land pgd _PAGE_PRESENT =? 0).
Definition pfn_pte (pfn prot : Z) : Z := Z.lor (u64 (Z.shiftl pfn _PAGE_PFN_SHIFT)) prot.
Definition mk_pte (page prot : Z) : Z := pfn_pte page prot.
Definition pte_pfn (pte : Z) : Z := Z.shiftr pte _PAGE_PFN_SHIFT.
Definition pte_sw_mkyoung (pte : Z) : Z := pte.
Definition pte_mkwrite (pte : Z) : Z := Z.lor pte _PAGE_WRITE.
Definition pte_mkdirty (pte : Z) : Z := Z.lor pte _PAGE_DIRTY.

Definition pgd_addr_end (addr end_ : Z) : Z :=
  let boundary := Z.land (u64 (addr + PGDIR_SIZE)) PGDIR_MASK in if u64 (boundary - 1) <? u64 (end_ - 1) then boundary else end_.
Definition pmd_addr_end (addr end_ : Z) : Z :=
  let boundary := Z.land (u64 (addr + PMD_SIZE)) PMD_MASK in if u64 (boundary - 1) <? u64 (end_ - 1) then boundary else end_.

Definition __GFP_ACCOUNT : Z := 0x400000.
Definition __GFP_HARDWALL : Z := 0x100000.
Definition __GFP_MOVABLE : Z := 0x08.
Definition GFP_PGTABLE_KERNEL : Z := Z.lor GFP_KERNEL __GFP_ZERO.
Definition GFP_PGTABLE_USER : Z := Z.lor GFP_PGTABLE_KERNEL __GFP_ACCOUNT.
Definition GFP_USER : Z := Z.lor GFP_KERNEL __GFP_HARDWALL.
Definition GFP_HIGHUSER : Z := Z.lor GFP_USER __GFP_HIGHMEM.
Definition GFP_HIGHUSER_MOVABLE : Z := Z.lor GFP_HIGHUSER __GFP_MOVABLE.

Definition PG_table : Z := 0x400.
Definition PG_uptodate : Z := 2.

Record vm_state := VM { vm_buddy : buddy; vm_mem : mem }.
Abbreviation PT := (ST vm_state).

Section Tables.
  Context (L : layout).

(** ** Memory and pages *)

Definition read64 (p : Z) : PT Z := w ← st_get; st_lift (load64 (vm_mem w) p).
Definition write64 (p v : Z) : PT unit := w ← st_get; m ← st_lift (store64 (vm_mem w) p v); st_put (VM (vm_buddy w) m).
Definition alloc_pages (gfp order : Z) : PT Z :=
  w ← st_get; '(p, s, m) ← st_lift (__alloc_pages_nodemask (va_pa_offset L) (vm_buddy w) (vm_mem w) gfp order); st_put (VM s m);; mret p.
Definition alloc_page (gfp : Z) : PT Z := alloc_pages gfp 0.
Definition on_page (p : Z) (f : page -> page) : PT unit :=
  w ← st_get; M ← st_lift (upd_page (b_map (vm_buddy w)) p f); st_put (VM (with_map_zones (vm_buddy w) M (node_zones (vm_buddy w))) (vm_mem w)).
Definition __SetPageTable (pg : page) : page := with_type (Z.land (page_type pg) (u32 (Z.lnot PG_table))) pg.
(** A page that is not the tail of a larger one. *)
Definition __SetPageUptodate (pg : page) : page := with_flags (Z.lor (pg_flags pg) (Z.shiftl 1 PG_uptodate)) pg.

Definition pfn_to_virt (pfn : Z) : Z := phys_to_virt (va_pa_offset L) (PFN_PHYS pfn).
Definition pgd_offset_pgd (pgd address : Z) : Z := pgd + 8 * pgd_index address.
Definition pgd_page_vaddr (pgd : Z) : Z := pfn_to_virt (Z.shiftr pgd _PAGE_PFN_SHIFT).
Definition pmd_offset (pgd address : Z) : PT Z := v ← read64 pgd; mret (pgd_page_vaddr v + 8 * pmd_index address).
Definition pmd_page_vaddr (pmd : Z) : Z := pfn_to_virt (Z.shiftr pmd _PAGE_PFN_SHIFT).
Definition pte_offset_kernel (pmd address : Z) : PT Z := v ← read64 pmd; mret (pmd_page_vaddr v + 8 * pte_index address).

Definition set_pgd (pgdp pgd : Z) : PT unit := write64 pgdp pgd.
Definition set_pmd (pmdp pmd : Z) : PT unit := write64 pmdp pmd.
Definition set_pte (ptep pteval : Z) : PT unit := write64 ptep pteval.
Definition set_pte_at (addr ptep pteval : Z) : PT unit := set_pte ptep pteval.
Definition table_entry (addr : Z) : Z := Z.lor (u64 (Z.shiftl (virt_to_pfn L addr) _PAGE_PFN_SHIFT)) _PAGE_TABLE.
Definition pgd_populate (pgd pmd : Z) : PT unit := set_pgd pgd (table_entry pmd).
Definition pmd_populate_kernel (pmd pte : Z) : PT unit := set_pmd pmd (table_entry pte).
Definition pmd_populate (pmd page : Z) : PT unit := set_pmd pmd (table_entry (page_address L page)).

(** The page allocator returns a page or halts. *)
Definition pmd_alloc_one (init_mm : bool) : PT Z :=
  page ← alloc_pages (if init_mm then GFP_PGTABLE_KERNEL else GFP_PGTABLE_USER) 0; mret (page_address L page).
Definition __pte_alloc_one_kernel : PT Z :=
  w ← st_get; '(a, s, m) ← st_lift (__get_free_pages L (vm_buddy w) (vm_mem w) GFP_PGTABLE_KERNEL 0); st_put (VM s m);; mret a.
Definition pte_alloc_one_kernel : PT Z := __pte_alloc_one_kernel.
Definition pte_free_kernel (pte : Z) : PT unit := w ← st_get; s ← st_lift (free_pages L (vm_buddy w) pte 0); st_put (VM s (vm_mem w)).
Definition pgtable_pte_page_ctor (page : Z) : PT bool := on_page page __SetPageTable;; mret true.
Definition __pte_alloc_one (gfp : Z) : PT Z :=
  pte ← alloc_page gfp; ok ← pgtable_pte_page_ctor pte; if negb ok then st_panic "set pte error!" else mret pte.
Definition pte_alloc_one : PT Z := __pte_alloc_one GFP_PGTABLE_USER.

(** The table of a new address space: the user half is empty, the kernel half is that of [init_pgd]. *)
Definition TASK_SIZE : Z := PGDIR_SIZE * PTRS_PER_PGD / 2.
Definition USER_PTRS_PER_PGD : Z := TASK_SIZE / PGDIR_SIZE.
Definition pgd_alloc (init_pgd : Z) : PT Z :=
  w ← st_get;
  '(pgd, s, m) ← st_lift (__get_free_pages L (vm_buddy w) (vm_mem w) GFP_KERNEL 0);
  st_put (VM s m);;
  (if negb (pgd =? 0) then
     m ← st_lift (memset m pgd 0 (USER_PTRS_PER_PGD * 8));
     '(_, m) ← st_lift (memcpy m (pgd + 8 * USER_PTRS_PER_PGD) (init_pgd + 8 * USER_PTRS_PER_PGD) ((PTRS_PER_PGD - USER_PTRS_PER_PGD) * 8));
     st_put (VM s m)
   else mret tt);;
  mret pgd.

(** ** Allocating tables *)

Definition __pmd_alloc (init_mm : bool) (pgd : Z) : PT Z :=
  new ← pmd_alloc_one init_mm;
  if new =? 0 then mret (- ENOMEM)
  else
    v ← read64 pgd;
    (if negb (pgd_present v) then pgd_populate pgd new else mret tt);;
    mret 0.
Definition __pte_alloc (pmd : Z) : PT Z :=
  new ← pte_alloc_one;
  v ← read64 pmd;
  if pmd_none v then pmd_populate pmd new;; mret 0 else st_panic "set pte into pmd error!".
(** A null table is 0. *)
Definition pmd_alloc (init_mm : bool) (pgd address : Z) : PT Z :=
  v ← read64 pgd;
  r ← (if pgd_none v then __pmd_alloc init_mm pgd else mret 0);
  if negb (r =? 0) then mret 0 else pmd_offset pgd address.
Definition pte_alloc (pmd : Z) : PT bool :=
  v ← read64 pmd; if pmd_none v then r ← __pte_alloc pmd; mret (negb (r =? 0)) else mret false.

(** ** Device memory *)

(** The mask of modified levels is a word that only grows. *)
Definition PGTBL_PGD_MODIFIED : Z := Z.shiftl 1 0.
Definition PGTBL_PMD_MODIFIED : Z := Z.shiftl 1 3.
Definition PGTBL_PTE_MODIFIED : Z := Z.shiftl 1 4.

Definition pmd_alloc_track (pgd address mask : Z) : PT (Z * Z) :=
  v ← read64 pgd;
  if pgd_none v then
    r ← __pmd_alloc true pgd;
    if negb (r =? 0) then mret (0, mask) else p ← pmd_offset pgd address; mret (p, Z.lor mask PGTBL_PGD_MODIFIED)
  else p ← pmd_offset pgd address; mret (p, mask).
Definition __pte_alloc_kernel (pmd : Z) : PT Z :=
  new ← pte_alloc_one_kernel;
  if new =? 0 then mret (- ENOMEM)
  else
    v ← read64 pmd;
    (if pmd_none v then pmd_populate_kernel pmd new else pte_free_kernel new);;
    mret 0.
Definition pte_alloc_kernel_track (pmd address mask : Z) : PT (Z * Z) :=
  v ← read64 pmd;
  if pmd_none v then
    r ← __pte_alloc_kernel pmd;
    if negb (r =? 0) then mret (0, mask) else p ← pte_offset_kernel pmd address; mret (p, Z.lor mask PGTBL_PMD_MODIFIED)
  else p ← pte_offset_kernel pmd address; mret (p, mask).

Fixpoint pte_range_loop (f : nat) (pte addr end_ pfn prot : Z) : PT unit :=
  match f with
  | O => fun _ => NoFuel
  | S f =>
      v ← read64 pte;
      st_lift (bug_on (negb (pte_none v)) "BUG_ON");;
      set_pte_at addr pte (pfn_pte pfn prot);;
      let addr := u64 (addr + PAGE_SIZE) in
      if negb (addr =? end_) then pte_range_loop f (pte + 8) addr end_ (u64 (pfn + 1)) prot else mret tt
  end.
Definition ioremap_pte_range (pmd addr end_ phys_addr prot mask : Z) : PT (Z * Z) :=
  let pfn := Z.shiftr phys_addr PAGE_SHIFT in
  '(pte, mask) ← pte_alloc_kernel_track pmd addr mask;
  if pte =? 0 then mret (- ENOMEM, mask)
  else pte_range_loop (Z.to_nat PTRS_PER_PTE) pte addr end_ pfn prot;; mret (0, Z.lor mask PGTBL_PTE_MODIFIED).
Fixpoint pmd_range_loop (f : nat) (pmd addr end_ phys_addr prot mask : Z) : PT (Z * Z) :=
  match f with
  | O => fun _ => NoFuel
  | S f =>
      let next := pmd_addr_end addr end_ in
      '(r, mask) ← ioremap_pte_range pmd addr next phys_addr prot mask;
      if negb (r =? 0) then mret (- ENOMEM, mask)
      else
        let phys_addr := u64 (phys_addr + u64 (next - addr)) in
        if negb (next =? end_) then pmd_range_loop f (pmd + 8) next end_ phys_addr prot mask else mret (0, mask)
  end.
Definition ioremap_pmd_range (pgd addr end_ phys_addr prot mask : Z) : PT (Z * Z) :=
  '(pmd, mask) ← pmd_alloc_track pgd addr mask;
  if pmd =? 0 then mret (- ENOMEM, mask) else pmd_range_loop (Z.to_nat PTRS_PER_PMD) pmd addr end_ phys_addr prot mask.
Fixpoint pgd_range_loop (f : nat) (pgd addr end_ phys_addr prot mask : Z) : PT Z :=
  match f with
  | O => fun _ => NoFuel
  | S f =>
      let next := pgd_addr_end addr end_ in
      '(err, mask) ← ioremap_pmd_range pgd addr next phys_addr prot mask;
      if negb (err =? 0) then mret err
      else
        let phys_addr := u64 (phys_addr + u64 (next - addr)) in
        if negb (next =? end_) then pgd_range_loop f (pgd + 8) next end_ phys_addr prot mask else mret err
  end.
(** [pgd] is the table of the kernel's address space. *)
Definition ioremap_page_range (pgd addr end_ phys_addr prot : Z) : PT Z :=
  st_lift (bug_on (end_ <=? addr) "BUG_ON");;
  pgd_range_loop (Z.to_nat PTRS_PER_PGD) (pgd_offset_pgd pgd addr) addr end_ phys_addr prot 0.

(** ** Page faults *)

Definition VM_WRITE : Z := 0x2.
Definition VM_SHARED : Z := 0x8.
Definition FAULT_FLAG_WRITE : Z := 0x01.
Definition VM_FAULT_OOM : Z := 0x1.
Definition VM_FAULT_SIGBUS : Z := 0x2.
Definition VM_FAULT_HWPOISON : Z := 0x10.
Definition VM_FAULT_HWPOISON_LARGE : Z := 0x20.
Definition VM_FAULT_SIGSEGV : Z := 0x40.
Definition VM_FAULT_NOPAGE : Z := 0x100.
Definition VM_FAULT_RETRY : Z := 0x400.
Definition VM_FAULT_FALLBACK : Z := 0x800.
Definition VM_FAULT_DONE_COW : Z := 0x1000.
Definition VM_FAULT_ERROR : Z :=
  Z.lor VM_FAULT_OOM (Z.lor VM_FAULT_SIGBUS (Z.lor VM_FAULT_SIGSEGV (Z.lor VM_FAULT_HWPOISON (Z.lor VM_FAULT_HWPOISON_LARGE VM_FAULT_FALLBACK)))).
Definition fault_around_bytes : Z := 65536.

(** The fields of an area that the handlers read; its operations are an argument. *)
Record vm_area_struct := VmArea { vm_start : Z; vm_end : Z; vm_page_prot : Z; vm_flags : Z; vm_pgoff : Z }.
(** A null [pte] or [prealloc_pte] is 0 or none. *)
Record vm_fault := VmFault { vf_flags : Z; vf_pgoff : Z; vf_address : Z; vf_pmd : Z; vf_pte : Z; vf_cow_page : option Z; vf_page : option Z; vf_prealloc : option Z }.
Definition set_vf_address (v : vm_fault) (a : Z) : vm_fault := VmFault (vf_flags v) (vf_pgoff v) a (vf_pmd v) (vf_pte v) (vf_cow_page v) (vf_page v) (vf_prealloc v).
Definition set_vf_pte (v : vm_fault) (p : Z) : vm_fault := VmFault (vf_flags v) (vf_pgoff v) (vf_address v) (vf_pmd v) p (vf_cow_page v) (vf_page v) (vf_prealloc v).
Definition set_vf_cow (v : vm_fault) (p : option Z) : vm_fault := VmFault (vf_flags v) (vf_pgoff v) (vf_address v) (vf_pmd v) (vf_pte v) p (vf_page v) (vf_prealloc v).
Definition set_vf_prealloc (v : vm_fault) (p : option Z) : vm_fault := VmFault (vf_flags v) (vf_pgoff v) (vf_address v) (vf_pmd v) (vf_pte v) (vf_cow_page v) (vf_page v) p.
(** [struct vm_operations_struct]: handlers that update the fault they are given. *)
Record vm_operations := VmOps { vo_fault : option (vm_fault -> PT (Z * vm_fault)); vo_map_pages : option (vm_fault -> Z -> Z -> PT vm_fault) }.

Definition linear_page_index (vma : vm_area_struct) (address : Z) : Z := u64 (Z.shiftr (u64 (address - vm_start vma)) PAGE_SHIFT + vm_pgoff vma).
Definition vma_pages (vma : vm_area_struct) : Z := Z.shiftr (u64 (vm_end vma - vm_start vma)) PAGE_SHIFT.
Definition maybe_mkwrite (pte : Z) (vma : vm_area_struct) : Z := if negb (Z.land (vm_flags vma) VM_WRITE =? 0) then pte_mkwrite pte else pte.
Definition has_bits (x y : Z) : bool := negb (Z.land x y =? 0).

Definition clear_user_highpage (page : Z) : PT unit :=
  w ← st_get; m ← st_lift (memset (vm_mem w) (page_address L page) 0 PAGE_SIZE); st_put (VM (vm_buddy w) m).
Definition alloc_zeroed_user_highpage_movable : PT Z :=
  page ← alloc_page GFP_HIGHUSER_MOVABLE; clear_user_highpage page;; mret page.
Definition copy_user_highpage (to from : Z) : PT unit :=
  w ← st_get; '(_, m) ← st_lift (LibString.memcpy (vm_mem w) (page_address L to) (page_address L from) PAGE_SIZE); st_put (VM (vm_buddy w) m).

Section Fault.
  Context (vma : vm_area_struct) (vm_ops : option vm_operations).

Definition vma_is_anonymous : bool := match vm_ops with None => true | Some _ => false end.

Definition do_anonymous_page (vmf : vm_fault) : PT (Z * vm_fault) :=
  oom ← pte_alloc (vf_pmd vmf);
  if (oom : bool) then mret (VM_FAULT_OOM, vmf)
  else
    page ← alloc_zeroed_user_highpage_movable;
    on_page page __SetPageUptodate;;
    let entry := pte_sw_mkyoung (mk_pte page (vm_page_prot vma)) in
    pte ← pte_offset_kernel (vf_pmd vmf) (vf_address vmf);
    v ← read64 pte;
    if negb (pte_none v) then st_panic "bad pte!"
    else set_pte_at (vf_address vmf) pte entry;; mret (0, set_vf_pte vmf pte).

Definition pte_alloc_one_map (vmf : vm_fault) : PT (Z * vm_fault) :=
  v ← read64 (vf_pmd vmf);
  '(r, vmf) ← (if negb (pmd_none v) then mret (0, vmf)
               else match vf_prealloc vmf with
                    | Some t => pmd_populate (vf_pmd vmf) t;; mret (0, set_vf_prealloc vmf None)
                    | None => oom ← pte_alloc (vf_pmd vmf); mret (if (oom : bool) then VM_FAULT_OOM else 0, vmf)
                    end);
  if negb (r =? 0) then mret (r, vmf)
  else pte ← pte_offset_kernel (vf_pmd vmf) (vf_address vmf); mret (0, set_vf_pte vmf pte).
Definition alloc_set_pte (vmf : vm_fault) (page : Z) : PT (Z * vm_fault) :=
  let write := has_bits (vf_flags vmf) FAULT_FLAG_WRITE in
  '(r, vmf) ← (if vf_pte vmf =? 0 then pte_alloc_one_map vmf else mret (0, vmf));
  if negb (r =? 0) then mret (r, vmf)
  else
    v ← read64 (vf_pte vmf);
    if negb (pte_none v) then mret (VM_FAULT_NOPAGE, vmf)
    else
      let entry := pte_sw_mkyoung (mk_pte page (vm_page_prot vma)) in
      let entry := if (write : bool) then maybe_mkwrite (pte_mkdirty entry) vma else entry in
      set_pte_at (vf_address vmf) (vf_pte vmf) entry;; mret (0, vmf).

Definition do_fault_around (map_pages : vm_fault -> Z -> Z -> PT vm_fault) (vmf : vm_fault) : PT (Z * vm_fault) :=
  let start_pgoff := vf_pgoff vmf in
  let address := vf_address vmf in
  let nr_pages := Z.shiftr fault_around_bytes PAGE_SHIFT in
  let mask := Z.land (u64 (Z.lnot (nr_pages * PAGE_SIZE - 1))) (u64 (Z.lnot (PAGE_SIZE - 1))) in
  let vmf := set_vf_address vmf (Z.max (Z.land address mask) (vm_start vma)) in
  let off := Z.land (Z.shiftr (u64 (address - vf_address vmf)) PAGE_SHIFT) (PTRS_PER_PTE - 1) in
  let start_pgoff := u64 (start_pgoff - off) in
  let end_pgoff := u64 (start_pgoff - Z.land (Z.shiftr (vf_address vmf) PAGE_SHIFT) (PTRS_PER_PTE - 1) + PTRS_PER_PTE - 1) in
  let end_pgoff := Z.min (Z.min end_pgoff (u64 (vma_pages vma + vm_pgoff vma - 1))) (u64 (start_pgoff + nr_pages - 1)) in
  v ← read64 (vf_pmd vmf);
  vmf ← (if pmd_none v then t ← pte_alloc_one; mret (set_vf_prealloc vmf (Some t)) else mret vmf);
  vmf ← map_pages vmf start_pgoff end_pgoff;
  if vf_pte vmf =? 0 then st_panic "no pte!"
  else
    let pte := u64 (vf_pte vmf - 8 * (Z.shiftr (vf_address vmf) PAGE_SHIFT - Z.shiftr address PAGE_SHIFT)) in
    v ← read64 pte;
    mret (if negb (pte_none v) then VM_FAULT_NOPAGE else 0, set_vf_pte (set_vf_address vmf address) 0).
Definition __do_fault (fault : vm_fault -> PT (Z * vm_fault)) (vmf : vm_fault) : PT (Z * vm_fault) :=
  v ← read64 (vf_pmd vmf);
  vmf ← (if pmd_none v && match vf_prealloc vmf with None => true | Some _ => false end
         then t ← pte_alloc_one; mret (set_vf_prealloc vmf (Some t)) else mret vmf);
  fault vmf.
Definition finish_fault (vmf : vm_fault) : PT (Z * vm_fault) :=
  let page := if has_bits (vf_flags vmf) FAULT_FLAG_WRITE && negb (has_bits (vm_flags vma) VM_SHARED) then vf_cow_page vmf else vf_page vmf in
  page ← st_lift (deref page);
  alloc_set_pte vmf page.
Definition FAULT_STOP : Z := Z.lor VM_FAULT_ERROR (Z.lor VM_FAULT_NOPAGE VM_FAULT_RETRY).
Definition do_read_fault (ops : vm_operations) (fault : vm_fault -> PT (Z * vm_fault)) (vmf : vm_fault) : PT (Z * vm_fault) :=
  '(r, vmf) ← match vo_map_pages ops with
              | Some f => if 1 <? Z.shiftr fault_around_bytes PAGE_SHIFT then do_fault_around f vmf else mret (0, vmf)
              | None => mret (0, vmf)
              end;
  if negb (r =? 0) then mret (r, vmf)
  else
    '(r, vmf) ← __do_fault fault vmf;
    if has_bits r FAULT_STOP then mret (r, vmf)
    else '(r', vmf) ← finish_fault vmf; mret (Z.lor r r', vmf).
Definition do_cow_fault (fault : vm_fault -> PT (Z * vm_fault)) (vmf : vm_fault) : PT (Z * vm_fault) :=
  cow ← alloc_page GFP_HIGHUSER_MOVABLE;
  let vmf := set_vf_cow vmf (Some cow) in
  '(r, vmf) ← __do_fault fault vmf;
  if has_bits r FAULT_STOP then mret (r, vmf)
  else if has_bits r VM_FAULT_DONE_COW then mret (r, vmf)
  else
    to ← st_lift (deref (vf_cow_page vmf)); from ← st_lift (deref (vf_page vmf));
    copy_user_highpage to from;;
    on_page to __SetPageUptodate;;
    '(r', vmf) ← finish_fault vmf;
    let r := Z.lor r r' in
    if has_bits r FAULT_STOP then st_panic "uncharge out!" else mret (r, vmf).
Definition do_fault (ops : vm_operations) (vmf : vm_fault) : PT (Z * vm_fault) :=
  match vo_fault ops with
  | None => st_panic "no fault func!"
  | Some fault =>
      '(r, vmf) ← (if negb (has_bits (vf_flags vmf) FAULT_FLAG_WRITE) then do_read_fault ops fault vmf
                   else if negb (has_bits (vm_flags vma) VM_SHARED) then do_cow_fault fault vmf
                   else st_panic "shared fault!");
      mret (r, set_vf_prealloc vmf None)
  end.
Definition handle_pte_fault (vmf : vm_fault) : PT (Z * vm_fault) :=
  v ← read64 (vf_pmd vmf);
  vmf ← (if pmd_none v then mret (set_vf_pte vmf 0)
         else pte ← pte_offset_kernel (vf_pmd vmf) (vf_address vmf); v ← read64 pte; mret (set_vf_pte vmf (if pte_none v then 0 else pte)));
  if vf_pte vmf =? 0 then
    match vm_ops with
    | None => do_anonymous_page vmf
    | Some ops => do_fault ops vmf
    end
  else st_panic "%s: !".
(** [pgd] is the table of the address space of the area, which is not the kernel's. *)
Definition __handle_mm_fault (pgd address flags : Z) : PT Z :=
  let vmf := VmFault flags (linear_page_index vma address) (Z.land address (u64 (Z.lnot (PAGE_SIZE - 1)))) 0 0 None None None in
  pmd ← pmd_alloc false (pgd_offset_pgd pgd address) address;
  if pmd =? 0 then mret VM_FAULT_OOM
  else
    '(r, _) ← handle_pte_fault (VmFault (vf_flags vmf) (vf_pgoff vmf) (vf_address vmf) pmd 0 None None None); mret r.
Definition _handle_mm_fault (pgd address flags : Z) : PT Z := __handle_mm_fault pgd address flags.
End Fault.
End Tables.
