(* ===== verification/PageTableSpec.v ===== *)
(** * Page tables: the map they define, and what the kernel's updates do to it

    The tables of an address space form a tree: [T] gives the address of the table page at
    each place ([[]] is the root, [[i]] the table of entry [i] of the root, [[i; j]] that of entry
    [j] below).  [vm_ok] says that memory holds such a tree of separate pages, none of them free.
    [walk] is the address translation the hardware does.  The
    theorems say which entries of the map the kernel's operations change. *)

From Stdlib Require Import ZArith Lia Bool.
From stdpp Require Import base tactics numbers list gmap strings.
From S2P Require Import Prelude Words Mem LibString Memblock Buddy BuddyInit Bitmap OfTree OfBuild PageTable.

(** ** Words of memory *)

Lemma load_le_ext n m m' : forall p, (forall x, p <= x < p + Z.of_nat n -> m' !! x = m !! x) -> load_le n m' p = load_le n m p.
Proof.
  induction n as [|n IH]; intros p H; cbn [load_le]; [reflexivity|]. unfold load8. rewrite (H p) by lia. rewrite IH by (intros x Hx; apply H; lia). reflexivity.
Qed.
Lemma load64_ext m m' p : (forall x, p <= x < p + 8 -> m' !! x = m !! x) -> load64 m' p = load64 m p.
Proof. intros H. apply load_le_ext. exact H. Qed.
Lemma load64_shift m m' p q : (forall i, 0 <= i < 8 -> m' !! (q + i) = m !! (p + i)) -> load64 m' q = load64 m p.
Proof.
  intros H. cut (forall n k, Z.of_nat n + k = 8 -> 0 <= k -> load_le n m' (q + k) = load_le n m (p + k)); [intros G; specialize (G 8%nat 0 eq_refl ltac:(lia)); rewrite !Z.add_0_r in G; exact G|].
  induction n as [|n IH]; intros k Hk H0; cbn [load_le]; [reflexivity|]. unfold load8. rewrite (H k) by lia. replace (q + k + 1) with (q + (k + 1)) by lia. replace (p + k + 1) with (p + (k + 1)) by lia. rewrite IH by lia. reflexivity.
Qed.
Lemma load_le_zero n m : forall p, (forall x, p <= x < p + Z.of_nat n -> m !! x = Some 0) -> load_le n m p = Ok 0.
Proof.
  induction n as [|n IH]; intros p H; cbn [load_le]; [reflexivity|]. unfold load8. rewrite (H p) by lia. rewrite IH by (intros x Hx; apply H; lia). reflexivity.
Qed.
Lemma store_le_word n : forall m p v, writable m p (Z.of_nat n) -> exists m', store_le n m p v = Ok m' /\ load_le n m' p = Ok (v mod 256 ^ Z.of_nat n) /\ eq_outside p (Z.of_nat n) m m' /\ writable m' p (Z.of_nat n).
Proof.
  induction n as [|n IH]; intros m p v Hw; cbn [store_le load_le]; [exists m; split; [reflexivity|]; split; [rewrite Z.mod_1_r; reflexivity|split; [reflexivity|exact Hw]]|].
  rewrite store8_ok by (apply Hw; lia). cbn [mbind outcome_bind]. destruct (IH (<[p := u8 (v mod 256)]> m) (p + 1) (v / 256)) as (m' & E & H1 & H2 & H3). { apply writable_insert. intros x Hx. apply Hw. lia. }
  assert (m' !! p = Some (u8 (v mod 256))) as Hp by (rewrite H2 by lia; apply lookup_insert_eq). exists m'. split; [exact E|]. split; [|split].
  - unfold load8. rewrite Hp. cbn [deref mbind outcome_bind]. rewrite H1. cbn [mbind outcome_bind]. f_equal. unfold u8. rewrite Z.mod_mod by lia. rewrite Nat2Z.inj_succ, Z.pow_succ_r by lia. rewrite Z.rem_mul_r by lia. reflexivity.
  - intros x Hx. rewrite H2 by lia. apply lookup_insert_ne. lia.
  - intros x Hx. destruct (Z.eq_dec x p) as [->|]; [rewrite Hp; eauto|apply H3; lia].
Qed.
Lemma store64_word m p v : writable m p 8 -> exists m', store64 m p v = Ok m' /\ load64 m' p = Ok (u64 v) /\ eq_outside p 8 m m' /\ writable m' p 8.
Proof. exact (store_le_word 8 m p v). Qed.

(** ** Arithmetic of addresses *)

(** The 27 bits of the page number that the tables translate. *)
Definition vpn (va : Z) : Z := (va / PAGE_SIZE) mod 2 ^ 27.
Definition idx0 (v : Z) : Z := v / 2 ^ 18.
Definition idx1 (v : Z) : Z := (v / 2 ^ 9) mod 2 ^ 9.
Definition idx2 (v : Z) : Z := v mod 2 ^ 9.

Lemma vpn_range va : 0 <= vpn va < 2 ^ 27.
Proof. apply Z.mod_pos_bound. reflexivity. Qed.
Lemma idx_range v : 0 <= v < 2 ^ 27 -> 0 <= idx0 v < 512 /\ 0 <= idx1 v < 512 /\ 0 <= idx2 v < 512.
Proof. unfold idx0, idx1, idx2. intros H. Z.div_mod_to_equations. lia. Qed.
Lemma index_vpn va : pgd_index va = idx0 (vpn va) /\ pmd_index va = idx1 (vpn va) /\ pte_index va = idx2 (vpn va).
Proof.
  unfold pgd_index, pmd_index, pte_index, PTRS_PER_PGD, PTRS_PER_PMD, PTRS_PER_PTE, PGDIR_SHIFT, PMD_SHIFT, vpn, idx0, idx1, idx2. change PAGE_SHIFT with 12. change (PAGE_SIZE / 8 - 1) with (2 ^ 9 - 1). rewrite !land_ones_mod, !Z.shiftr_div_pow2 by lia. change PAGE_SIZE with (2 ^ 12).
  replace (2 ^ 30) with (2 ^ 12 * 2 ^ 18) by reflexivity. replace (2 ^ 21) with (2 ^ 12 * 2 ^ 9) by reflexivity. rewrite <- !Z.div_div by lia. set (q := va / 2 ^ 12). clearbody q.
  split; [|split]; Z.div_mod_to_equations; lia.
Qed.
Lemma boundary_end s addr end_ : 12 <= s < 64 -> 0 <= addr < end_ -> end_ < 2 ^ 64 ->
  (let b := Z.land (u64 (addr + Z.shiftl 1 s)) (u64 (Z.lnot (Z.shiftl 1 s - 1))) in if u64 (b - 1) <? u64 (end_ - 1) then b else end_) = Z.min ((addr / 2 ^ s + 1) * 2 ^ s) end_.
Proof.
  intros Hs H1 H2. cbv zeta. rewrite Z.shiftl_1_l. rewrite land_not_ones by (try apply u64_range; lia).
  assert (0 < 2 ^ s) as P by (apply Z.pow_pos_nonneg; lia). assert (2 ^ 64 = 2 ^ s * 2 ^ (64 - s)) as P64 by (rewrite <- Z.pow_add_r by lia; f_equal; lia). assert (0 < 2 ^ (64 - s)) by (apply Z.pow_pos_nonneg; lia).
  pose proof (Z.div_mod addr (2 ^ s) ltac:(lia)) as D. pose proof (Z.mod_pos_bound addr (2 ^ s) P) as M. set (q := addr / 2 ^ s) in *. set (r := addr mod 2 ^ s) in *.
  assert (0 <= q) by (apply Z.div_pos; lia). rewrite (u64_small (end_ - 1)) by (unfold is_u64; lia). assert (q + 1 <= 2 ^ (64 - s)) as Hq by nia.
  destruct (Z.eq_dec (q + 1) (2 ^ (64 - s))) as [E|E].
  - replace (u64 (addr + 2 ^ s)) with r by (unfold u64; apply (Z.mod_unique_pos _ _ 1); nia). rewrite (Z.mod_small r) by lia. rewrite Z.sub_diag. change (u64 (0 - 1)) with (2 ^ 64 - 1). destruct (Z.ltb_spec (2 ^ 64 - 1) (end_ - 1)); nia.
  - assert ((q + 1) * 2 ^ s + 2 ^ s <= 2 ^ 64) by nia. rewrite (u64_small (addr + 2 ^ s)) by (unfold is_u64; nia). replace (addr + 2 ^ s) with (r + (q + 1) * 2 ^ s) by lia. rewrite Z.mod_add, (Z.mod_small r) by lia.
    replace (r + (q + 1) * 2 ^ s - r) with ((q + 1) * 2 ^ s) by lia. rewrite u64_small by (unfold is_u64; nia). destruct (Z.ltb_spec ((q + 1) * 2 ^ s - 1) (end_ - 1)); lia.
Qed.
Lemma pmd_end_min addr end_ : 0 <= addr < end_ -> end_ < 2 ^ 64 -> pmd_addr_end addr end_ = Z.min ((addr / 2 ^ 21 + 1) * 2 ^ 21) end_.
Proof. exact (boundary_end 21 addr end_ ltac:(lia)). Qed.
Lemma pgd_end_min addr end_ : 0 <= addr < end_ -> end_ < 2 ^ 64 -> pgd_addr_end addr end_ = Z.min ((addr / 2 ^ 30 + 1) * 2 ^ 30) end_.
Proof. exact (boundary_end 30 addr end_ ltac:(lia)). Qed.

Section Spec.
  Context (L : layout) (R : Z).

(** ** The tree of tables *)

Definition lin (p : Z) : Z := p * PAGE_SIZE + va_pa_offset L.
Definition frame_ok (p : Z) : Prop := 0 < p /\ (p + 1) * PAGE_SIZE + va_pa_offset L < 2 ^ 64.
Definition enc (t : option Z) : Z := match t with Some a => table_entry L a | None => 0 end.

(** The translation of an address: its last-level entry, 0 when there is none. *)
Definition walk (m : mem) (va : Z) : outcome Z :=
  pgd ← load64 m (R + 8 * pgd_index va);
  if pgd =? 0 then Ok 0
  else
    pmd ← load64 m (pgd_page_vaddr L pgd + 8 * pmd_index va);
    if pmd =? 0 then Ok 0 else load64 m (pmd_page_vaddr L pmd + 8 * pte_index va).

Record vm_ok (z : zone) (T : gmap (list Z) Z) (w : vm_state) : Prop := {
  vk_off : 0 <= va_pa_offset L /\ va_pa_offset L mod PAGE_SIZE = 0;
  vk_buddy : buddy_inv (vm_buddy w) z;
  (** free pages are frames of mapped memory *)
  vk_free : forall p, free_page_in z p -> frame_ok p /\ writable (vm_mem w) (lin p) PAGE_SIZE;
  vk_root : T !! [] = Some R;
  vk_table : forall k a, T !! k = Some a -> 0 < a /\ a mod PAGE_SIZE = 0 /\ writable (vm_mem w) a PAGE_SIZE /\ forall p, free_page_in z p -> lin p <> a;
  vk_frame : forall k a, T !! k = Some a -> k <> [] -> exists p, frame_ok p /\ a = lin p;
  vk_inj : forall k k' a, T !! k = Some a -> T !! k' = Some a -> k = k';
  vk_tree : forall k i a, T !! (k ++ [i]) = Some a -> 0 <= i < 512 /\ (length k < 2)%nat /\ is_Some (T !! k);
  vk_entry : forall k a i, T !! k = Some a -> (length k < 2)%nat -> 0 <= i < 512 -> load64 (vm_mem w) (a + 8 * i) = Ok (enc (T !! (k ++ [i]))) }.

(** Memory that the updates may write. *)
Definition touched (z : zone) (T : gmap (list Z) Z) (x : Z) : Prop :=
  (exists k a, T !! k = Some a /\ a <= x < a + PAGE_SIZE) \/ (exists p, free_page_in z p /\ lin p <= x < lin p + PAGE_SIZE).
Definition avail (z : zone) (n : Z) : Prop := exists l, NoDup l /\ Z.of_nat (length l) = n /\ Forall (free_page_in z) l.

Record grown (z : zone) (T : gmap (list Z) Z) (w : vm_state) (z' : zone) (T' : gmap (list Z) Z) (w' : vm_state) : Prop := {
  gr_ok : vm_ok z' T' w';
  gr_sub : T ⊆ T';
  gr_free : forall p, free_page_in z' p -> free_page_in z p;
  gr_touched : forall x, touched z' T' x -> touched z T x;
  gr_frame : forall x, ~ touched z T x -> vm_mem w' !! x = vm_mem w !! x }.

Lemma vm_grown_refl z T w : vm_ok z T w -> grown z T w z T w.
Proof. intros H. split; auto. Qed.
Lemma vm_grown_trans z T w z1 T1 w1 z2 T2 w2 : grown z T w z1 T1 w1 -> grown z1 T1 w1 z2 T2 w2 -> grown z T w z2 T2 w2.
Proof. intros [A1 A2 A3 A4 A5] [B1 B2 B3 B4 B5]. split; auto; [etrans; eassumption|]. intros x Hx. rewrite B5 by auto. auto. Qed.

Lemma pages_apart a b : a mod PAGE_SIZE = 0 -> b mod PAGE_SIZE = 0 -> a <> b -> a + PAGE_SIZE <= b \/ b + PAGE_SIZE <= a.
Proof. change PAGE_SIZE with 4096. intros. Z.div_mod_to_equations. lia. Qed.
Lemma lin_inj p q : lin p = lin q -> p = q.
Proof. unfold lin. change PAGE_SIZE with 4096. lia. Qed.
Lemma lin_aligned p : va_pa_offset L mod PAGE_SIZE = 0 -> lin p mod PAGE_SIZE = 0.
Proof. unfold lin. change PAGE_SIZE with 4096. intros. Z.div_mod_to_equations. lia. Qed.
Lemma page_lin p : 0 <= va_pa_offset L -> frame_ok p -> page_address L p = lin p.
Proof.
  unfold frame_ok, lin. change PAGE_SIZE with 4096. intros H1 H2. unfold page_address, phys_to_virt, PFN_PHYS. change PAGE_SHIFT with 12. rewrite Z.shiftl_mul_pow2 by lia. change (2 ^ 12) with 4096. rewrite (u64_small (p * 4096)) by (unfold is_u64; lia). apply u64_small. unfold is_u64. lia.
Qed.
Lemma entry_val p : 0 <= va_pa_offset L -> va_pa_offset L mod PAGE_SIZE = 0 -> frame_ok p -> table_entry L (lin p) = p * 1024 + 1 /\ p * 1024 + 1 < 2 ^ 64.
Proof.
  unfold frame_ok, lin. change PAGE_SIZE with 4096. intros H1 H0 H2. unfold table_entry, virt_to_pfn, PFN_DOWN. change PAGE_SHIFT with 12. change _PAGE_PFN_SHIFT with 10. replace (p * 4096 + va_pa_offset L - va_pa_offset L) with (p * 4096) by lia.
  rewrite (u64_small (p * 4096)) by (unfold is_u64; lia). rewrite Z.shiftr_div_pow2 by lia. change (2 ^ 12) with 4096. rewrite Z.div_mul by lia. rewrite Z.shiftl_mul_pow2 by lia. change (2 ^ 10) with 1024. rewrite u64_small by (unfold is_u64; lia).
  split; [|lia]. apply lor_add_disjoint. change (Z.land (p * 1024) (2 ^ 1 - 1) = 0). rewrite land_ones_mod by lia. Z.div_mod_to_equations. lia.
Qed.
Lemma entry_back p : 0 <= va_pa_offset L -> va_pa_offset L mod PAGE_SIZE = 0 -> frame_ok p -> pgd_page_vaddr L (table_entry L (lin p)) = lin p /\ table_entry L (lin p) <> 0 /\ u64 (table_entry L (lin p)) = table_entry L (lin p).
Proof.
  intros H1 H2 H3. destruct (entry_val p H1 H2 H3) as [E B]. rewrite E. pose proof H3 as [P1 P2]. unfold pgd_page_vaddr, pfn_to_virt. change _PAGE_PFN_SHIFT with 10. rewrite Z.shiftr_div_pow2 by lia. change (2 ^ 10) with 1024. replace ((p * 1024 + 1) / 1024) with p by (Z.div_mod_to_equations; lia).
  split; [exact (page_lin p H1 H3)|]. split; [lia|]. apply u64_small. unfold is_u64. lia.
Qed.

Lemma enc_none z T w k a i : vm_ok z T w -> T !! k = Some a -> enc (T !! (k ++ [i])) = 0 -> T !! (k ++ [i]) = None.
Proof.
  intros H Hk E. destruct (T !! (k ++ [i])) as [b|] eqn:Hb; [|reflexivity]. exfalso. destruct (vk_frame _ _ _ H _ _ Hb) as (p & Hp & ->); [destruct k; discriminate|]. destruct (vk_off _ _ _ H) as [O1 O2]. cbn [enc] in E. apply (entry_back p O1 O2 Hp). exact E.
Qed.
Lemma enc_some z T w k b i : vm_ok z T w -> T !! (k ++ [i]) = Some b -> pgd_page_vaddr L (enc (T !! (k ++ [i]))) = b /\ enc (T !! (k ++ [i])) <> 0.
Proof.
  intros H Hb. rewrite Hb. destruct (vk_frame _ _ _ H _ _ Hb) as (p & Hp & ->); [destruct k; discriminate|]. destruct (vk_off _ _ _ H) as [O1 O2]. destruct (entry_back p O1 O2 Hp) as (E1 & E2 & _). auto.
Qed.

(** The last-level entry of page number [v], read through the tree. *)
Definition leaf (T : gmap (list Z) Z) (w : vm_state) (v : Z) : outcome Z :=
  match T !! [idx0 v; idx1 v] with Some a => load64 (vm_mem w) (a + 8 * idx2 v) | None => Ok 0 end.

Lemma walk_leaf z T w va : vm_ok z T w -> walk (vm_mem w) va = leaf T w (vpn va).
Proof.
  intros H. destruct (index_vpn va) as (E0 & E1 & E2). unfold walk, leaf. rewrite E0, E1, E2. pose proof (vpn_range va) as Hv. set (v := vpn va) in *. destruct (idx_range v Hv) as (I0 & I1 & _). clearbody v.
  rewrite (vk_entry _ _ _ H [] R (idx0 v) (vk_root _ _ _ H) ltac:(cbn; lia) I0). cbn [mbind outcome_bind app]. destruct (T !! [idx0 v]) as [a|] eqn:Ha.
  - destruct (enc_some z T w [] a (idx0 v) H Ha) as [F1 F2]. cbn [app] in F1, F2. rewrite Ha in F1, F2. destruct (Z.eqb_spec (enc (Some a)) 0); [contradiction|]. rewrite F1.
    rewrite (vk_entry _ _ _ H [idx0 v] a (idx1 v) Ha ltac:(cbn; lia) I1). cbn [mbind outcome_bind app]. destruct (T !! [idx0 v; idx1 v]) as [b|] eqn:Hb; [|reflexivity].
    destruct (enc_some z T w [idx0 v] b (idx1 v) H Hb) as [G1 G2]. cbn [app] in G1, G2. rewrite Hb in G1, G2. destruct (Z.eqb_spec (enc (Some b)) 0); [contradiction|]. change (pmd_page_vaddr L) with (pgd_page_vaddr L). rewrite G1. reflexivity.
  - cbn [enc]. change (0 =? 0) with true. cbv iota. destruct (T !! [idx0 v; idx1 v]) as [b|] eqn:Hb; [|reflexivity]. destruct (vk_tree _ _ _ H [idx0 v] (idx1 v) b Hb) as (_ & _ & [c Hc]). congruence.
Qed.

(** ** Taking a page *)

Lemma avail_free z n : avail z n -> 0 < n -> exists p, free_page_in z p.
Proof. intros (l & _ & H & F) Hn. destruct l as [|p l]; [cbn in H; lia|]. apply Forall_cons in F as [F _]. eauto. Qed.
Lemma avail_le z n n' : avail z n -> 0 <= n' <= n -> avail z n'.
Proof. intros (l & H1 & H2 & H3) H. exists (take (Z.to_nat n') l). split; [eapply sublist_NoDup; [exact H1|apply sublist_take]|]. split; [rewrite length_take; lia|apply Forall_take, H3]. Qed.
Lemma avail_take z z' p n : avail z (n + 1) -> (forall x, free_page_in z x <-> x = p \/ free_page_in z' x) -> 0 <= n -> avail z' n.
Proof.
  intros (l & H1 & H2 & H3) Hx Hn. assert (forall x, x ∈ l -> x <> p -> free_page_in z' x) as Hl. { intros x Hl Hne. rewrite Forall_forall in H3. destruct (proj1 (Hx x) (H3 x Hl)); [contradiction|assumption]. }
  destruct (decide (p ∈ l)) as [Hp|Hp].
  - apply elem_of_Permutation in Hp as [k Hk]. rewrite Hk in H1. apply NoDup_cons in H1 as [N1 N2]. apply Permutation_length in Hk as Hlen. cbn in Hlen. exists k. split; [exact N2|]. split; [lia|]. apply Forall_forall. intros x Hkx. apply Hl; [rewrite Hk; right; exact Hkx|]. intros ->. contradiction.
  - apply (avail_le z' (n + 1)); [|lia]. exists l. split; [exact H1|]. split; [exact H2|]. apply Forall_forall. intros x Hxl. apply Hl; [exact Hxl|]. intros ->. contradiction.
Qed.

Lemma alloc_page_ok z T w gfp n : vm_ok z T w -> avail z (n + 1) -> 0 <= n -> 0 <= gfp -> exists p z' w', alloc_pages L gfp 0 w = Ok (p, w') /\ buddy_inv (vm_buddy w') z' /\ is_Some (b_map (vm_buddy w') !! p) /\
  (forall x, free_page_in z x <-> x = p \/ free_page_in z' x) /\ ~ free_page_in z' p /\ avail z' n /\ eq_outside (lin p) PAGE_SIZE (vm_mem w) (vm_mem w') /\ writable (vm_mem w') (lin p) PAGE_SIZE /\
  (want_init_on_alloc gfp = true -> forall x, lin p <= x < lin p + PAGE_SIZE -> vm_mem w' !! x = Some 0).
Proof.
  intros H Hav Hn Hg. destruct (vk_off _ _ _ H) as [O1 O2]. pose proof (vk_buddy _ _ _ H) as B. destruct w as [s m]. cbn [vm_buddy vm_mem] in *. unfold alloc_pages. rewrite bind_get. cbn [vm_buddy vm_mem]. unfold __alloc_pages_nodemask. change (MAX_ORDER <=? 0) with false. cbv iota.
  pose proof (bi_zonelist _ _ B) as Hz. assert (0 <= gfp_zone gfp) as Hgz by (unfold gfp_zone; apply Z.land_nonneg; right; vm_compute; congruence).
  unfold first_zones_zonelist, next_zones_zonelist. rewrite Hz. cbn [deref mbind outcome_bind zone_idx]. destruct (Z.leb_spec 0 (gfp_zone gfp)); [|lia]. cbn [mbind outcome_bind]. unfold get_page_from_freelist. rewrite Hz. cbn [deref mbind outcome_bind zr_zone].
  destruct (rmqueue_zone0 s z 0 B ltac:(split; [lia|reflexivity])) as [[_ N]|(p & s' & -> & z' & B' & T')]; cbn [mbind outcome_bind].
  { exfalso. destruct (avail_free z (n + 1) Hav ltac:(lia)) as (x & Hx). apply Exists_exists in Hx as (b & Hb & _). pose proof (N b Hb). pose proof (zi_aligned _ _ (bi_inv _ _ B)) as Ha. rewrite Forall_forall in Ha. apply Ha in Hb as (_ & Hb & _). lia. }
  destruct T' as (I' & _ & (F1 & F2 & F3) & _ & X). assert (forall x, in_block (p, 0) x <-> x = p) as Hblk by (intros x; unfold in_block; cbn; lia). setoid_rewrite Hblk in X. pose proof (proj2 (X p) (or_introl eq_refl)) as Hp. destruct (vk_free _ _ _ H p Hp) as [Fp Wp]. cbn [vm_mem] in Wp.
  assert (exists m', prep_new_page (va_pa_offset L) m p 0 gfp = Ok m' /\ eq_outside (lin p) PAGE_SIZE m m' /\ writable m' (lin p) PAGE_SIZE /\ (want_init_on_alloc gfp = true -> forall x, lin p <= x < lin p + PAGE_SIZE -> m' !! x = Some 0)) as (m' & -> & M1 & M3 & M2).
  { unfold prep_new_page. destruct (want_init_on_alloc gfp); [|exists m; split; [reflexivity|]; split; [reflexivity|]; split; [exact Wp|discriminate]]. change (Z.to_nat (Z.shiftl 1 0)) with 1%nat. cbn [kernel_init_free_pages]. fold (page_address L p). rewrite (page_lin p O1 Fp). unfold memset.
    destruct (memset_ok (Z.to_nat PAGE_SIZE) 0 m (lin p)) as (m' & -> & Z1 & Z2); [exact Wp|]. exists m'. split; [reflexivity|]. split; [exact Z2|]. split; [intros x Hx; rewrite (Z1 x Hx); eauto|]. intros _. exact Z1. }
  cbn [mbind outcome_bind]. eexists p, z', (VM s' m'). split; [reflexivity|]. cbn [vm_buddy vm_mem]. split; [exact B'|]. split; [exact F2|]. split; [exact X|]. split.
  { intros Hf. apply Exists_exists in Hf as (b & Hb & Hb'). exact (F3 b Hb p (proj2 (Hblk p) eq_refl) Hb'). }
  split; [exact (avail_take z z' p n Hav X Hn)|]. split; [exact M1|]. split; assumption.
Qed.

(** ** Changing a page, an entry of a table, and the last level *)

Lemma writable_mono m m' p n : eq_outside p n m m' -> writable m' p n -> forall b k, writable m b k -> writable m' b k.
Proof. intros H Hw b k Hb. eapply writable_eq_outside; eassumption. Qed.
(** A table is not the page [p]. *)
Lemma other_page z T w p k b j : vm_ok z T w -> lin p <> b -> T !! k = Some b -> 0 <= j < 512 -> forall x, b + 8 * j <= x < b + 8 * j + 8 -> ~ (lin p <= x < lin p + PAGE_SIZE).
Proof.
  intros H Hne Hb Hj x Hx. destruct (vk_off _ _ _ H) as [_ O2]. destruct (vk_table _ _ _ H k b Hb) as (_ & Hal & _). pose proof (pages_apart (lin p) b (lin_aligned p O2) Hal Hne). change PAGE_SIZE with 4096 in *. lia.
Qed.
Lemma vm_ok_private z T w z' w' p : vm_ok z T w -> (forall k a, T !! k = Some a -> lin p <> a) -> (forall x, free_page_in z' x -> free_page_in z x) -> buddy_inv (vm_buddy w') z' ->
  eq_outside (lin p) PAGE_SIZE (vm_mem w) (vm_mem w') -> writable (vm_mem w') (lin p) PAGE_SIZE -> vm_ok z' T w' /\ forall v, leaf T w' v = leaf T w v.
Proof.
  intros H Hp Hf Hb Hm Hw. pose proof (writable_mono _ _ _ _ Hm Hw) as Hmono.
  assert (forall k b j, T !! k = Some b -> 0 <= j < 512 -> load64 (vm_mem w') (b + 8 * j) = load64 (vm_mem w) (b + 8 * j)) as Hl. { intros k b j Hk Hj. apply load64_ext. intros x Hx. apply Hm. exact (other_page z T w p k b j H (Hp k b Hk) Hk Hj x Hx). }
  split.
  - destruct H as [A1 A2 A3 A4 A5 A6 A7 A8 A9]. split; auto.
    + intros q Hq. destruct (A3 q (Hf q Hq)) as [B1 B2]. auto.
    + intros k a Hk. destruct (A5 k a Hk) as (B1 & B2 & B3 & B4). auto 6.
    + intros k a i Hk Hlen Hi. rewrite (Hl k a i Hk Hi). auto.
  - intros v. unfold leaf. destruct (T !! [idx0 v; idx1 v]) as [a|] eqn:Ha; [|reflexivity]. apply (Hl _ a _ Ha). unfold idx2. apply (Z.mod_pos_bound v (2 ^ 9)). lia.
Qed.

Lemma write_entry z T w k a i v : vm_ok z T w -> T !! k = Some a -> 0 <= i < 512 -> exists w', write64 (a + 8 * i) v w = Ok (tt, w') /\ vm_buddy w' = vm_buddy w /\ load64 (vm_mem w') (a + 8 * i) = Ok (u64 v) /\
  eq_outside (a + 8 * i) 8 (vm_mem w) (vm_mem w') /\ (forall b n, writable (vm_mem w) b n -> writable (vm_mem w') b n) /\
  forall k' b j, T !! k' = Some b -> 0 <= j < 512 -> (k', j) <> (k, i) -> load64 (vm_mem w') (b + 8 * j) = load64 (vm_mem w) (b + 8 * j).
Proof.
  intros H Hk Hi. destruct w as [s m]. cbn [vm_buddy vm_mem] in *. destruct (vk_table _ _ _ H k a Hk) as (A0 & A1 & A2 & _). cbn [vm_mem] in A2.
  assert (writable m (a + 8 * i) 8) as Hw by (intros x Hx; apply A2; change PAGE_SIZE with 4096; lia). destruct (store64_word m (a + 8 * i) v Hw) as (m' & E & H1 & H2 & H3). exists (VM s m'). unfold write64. rewrite bind_get. cbn [vm_buddy vm_mem]. rewrite E. split; [reflexivity|]. split; [reflexivity|]. split; [exact H1|]. split; [exact H2|]. split.
  - exact (writable_mono m m' _ _ H2 H3).
  - intros k' b j Hb Hj Hne. apply load64_ext. intros x Hx. apply H2. destruct (vk_table _ _ _ H k' b Hb) as (_ & B1 & _). destruct (Z.eq_dec a b) as [->|Hab].
    + pose proof (vk_inj _ _ _ H k k' b Hk Hb) as ->. assert (i <> j) by congruence. lia.
    + pose proof (pages_apart a b A1 B1 Hab). change PAGE_SIZE with 4096 in *. lia.
Qed.
Lemma idx2_range v : 0 <= idx2 v < 512.
Proof. apply (Z.mod_pos_bound v (2 ^ 9)). lia. Qed.

Lemma set_leaf z T w i j a x v : vm_ok z T w -> T !! [i; j] = Some a -> 0 <= x < 512 -> exists w', write64 (a + 8 * x) v w = Ok (tt, w') /\ grown z T w z T w' /\
  forall u, leaf T w' u = if decide (idx0 u = i /\ idx1 u = j /\ idx2 u = x) then Ok (u64 v) else leaf T w u.
Proof.
  intros H Ha Hx. destruct (write_entry z T w [i; j] a x v H Ha Hx) as (w' & E & Hb & Hl & Hm & Hw & Hk). exists w'. split; [exact E|]. split.
  - split; auto.
    + destruct H as [A1 A2 A3 A4 A5 A6 A7 A8 A9]. split; auto.
      * rewrite Hb. exact A2.
      * intros q Hq. destruct (A3 q Hq). auto.
      * intros k b Hkb. destruct (A5 k b Hkb) as (B1 & B2 & B3 & B4). auto 6.
      * intros k b y Hkb Hlen Hy. rewrite (Hk k b y Hkb Hy) by (intros [= -> _]; cbn in Hlen; lia). auto.
    + intros y Hy. apply Hm. intros Hin. apply Hy. left. exists [i; j], a. split; [exact Ha|]. change PAGE_SIZE with 4096. lia.
  - intros u. unfold leaf. case_decide as D.
    + destruct D as (-> & -> & ->). rewrite Ha. exact Hl.
    + destruct (T !! [idx0 u; idx1 u]) as [b|] eqn:Hu; [|reflexivity]. apply (Hk _ b _ Hu (idx2_range u)). intros [= E1 E2 E3]. auto.
Qed.

Lemma link_table z T w k a i p : vm_ok z T w -> T !! k = Some a -> (length k < 2)%nat -> 0 <= i < 512 -> T !! (k ++ [i]) = None -> frame_ok p -> ~ free_page_in z p -> (forall k' b, T !! k' = Some b -> lin p <> b) ->
  (forall x, lin p <= x < lin p + PAGE_SIZE -> vm_mem w !! x = Some 0) -> exists w', write64 (a + 8 * i) (table_entry L (lin p)) w = Ok (tt, w') /\ vm_ok z (<[k ++ [i] := lin p]> T) w' /\
  (forall v, leaf (<[k ++ [i] := lin p]> T) w' v = leaf T w v) /\ forall x, ~ (a <= x < a + PAGE_SIZE) -> vm_mem w' !! x = vm_mem w !! x.
Proof.
  intros H Ha Hlen Hi Hnone Hp Hfree Hsep Hzero. destruct (write_entry z T w k a i (table_entry L (lin p)) H Ha Hi) as (w' & E & Hb & Hl & Hm & Hw & Hk). exists w'. split; [exact E|]. destruct (vk_off _ _ _ H) as [O1 O2]. destruct (entry_back p O1 O2 Hp) as (_ & _ & Eu). rewrite Eu in Hl.
  assert (forall x, ~ (a <= x < a + PAGE_SIZE) -> vm_mem w' !! x = vm_mem w !! x) as Hfr by (intros x Hx; apply Hm; change PAGE_SIZE with 4096 in *; lia).
  assert (forall j, 0 <= j < 512 -> load64 (vm_mem w') (lin p + 8 * j) = Ok 0) as Hz'.
  { intros j Hj. apply load_le_zero. intros x Hx. cbn in Hx. rewrite Hfr; [apply Hzero; change PAGE_SIZE with 4096; lia|]. destruct (vk_table _ _ _ H k a Ha) as (_ & Hal & _). pose proof (pages_apart (lin p) a (lin_aligned p O2) Hal (Hsep k a Ha)). change PAGE_SIZE with 4096 in *. lia. }
  assert (forall k' b, T !! k' = Some b -> k' <> k ++ [i]) as Hnk by (intros k' b Hk' ->; congruence). assert (forall j, T !! ((k ++ [i]) ++ [j]) = None) as Hbelow. { intros j. destruct (T !! ((k ++ [i]) ++ [j])) eqn:Q; [|reflexivity]. destruct (vk_tree _ _ _ H _ _ _ Q) as (_ & _ & [c Hc]). congruence. }
  split; [|split; [|exact Hfr]].
  - pose proof H as [A1 A2 A3 A4 A5 A6 A7 A8 A9]. split; auto.
    + rewrite Hb. exact A2.
    + intros q Hq. destruct (A3 q Hq). auto.
    + rewrite lookup_insert_ne; [exact A4|destruct k; discriminate].
    + intros k' b Hk'. apply lookup_insert_Some in Hk' as [[<- <-]|[_ Hk']].
      * split; [destruct Hp; unfold lin; change PAGE_SIZE with 4096; lia|]. split; [exact (lin_aligned p O2)|]. split; [apply Hw; intros x Hx; rewrite (Hzero x Hx); eauto|]. intros q Hq Eq. apply lin_inj in Eq as ->. contradiction.
      * destruct (A5 k' b Hk') as (B1 & B2 & B3 & B4). auto 6.
    + intros k' b Hk' Hne. apply lookup_insert_Some in Hk' as [[<- <-]|[_ Hk']]; [eauto|]. exact (A6 k' b Hk' Hne).
    + intros k1 k2 b H1 H2. apply lookup_insert_Some in H1 as [[<- <-]|[N1 H1]]; apply lookup_insert_Some in H2 as [[<- E2]|[N2 H2]]; try reflexivity; [destruct (Hsep _ _ H2 eq_refl)|subst b; destruct (Hsep _ _ H1 eq_refl)|eauto].
    + intros k1 j b H1. apply lookup_insert_Some in H1 as [[E1 <-]|[N1 H1]].
      * apply app_inj_tail in E1 as [<- <-]. split; [exact Hi|]. split; [exact Hlen|]. rewrite lookup_insert_ne; [eauto|]. intros Q. apply (f_equal length) in Q. rewrite length_app in Q. cbn in Q. lia.
      * destruct (A8 k1 j b H1) as (B1 & B2 & [c Hc]). split; [exact B1|]. split; [exact B2|]. rewrite lookup_insert_ne; [eauto|]. intros <-. congruence.
    + intros k1 b j H1 L1 Hj. apply lookup_insert_Some in H1 as [[<- <-]|[N1 H1]].
      * rewrite lookup_insert_ne by (intros Q; apply (f_equal length) in Q; rewrite !length_app in Q; cbn in Q; lia). rewrite Hbelow. exact (Hz' j Hj).
      * destruct (decide ((k1, j) = (k, i))) as [[= -> ->]|Hne]; [rewrite lookup_insert_eq; replace b with a by congruence; exact Hl|]. rewrite (Hk k1 b j H1 Hj Hne). rewrite lookup_insert_ne by (intros Q; apply app_inj_tail in Q as [-> ->]; contradiction). auto.
  - intros v. unfold leaf. destruct (decide (k ++ [i] = [idx0 v; idx1 v])) as [Q|Q].
    + rewrite <- Q, lookup_insert_eq, Hnone. apply Hz', idx2_range.
    + rewrite lookup_insert_ne by exact Q. destruct (T !! [idx0 v; idx1 v]) as [b|] eqn:Hv; [|reflexivity]. apply (Hk _ b _ Hv (idx2_range v)). intros [= E1 E2]. subst k. cbn in Hlen. lia.
Qed.

(** The page [p] was taken from the free pages and belongs to the caller. *)
Record fresh (z : zone) (T : gmap (list Z) Z) (w : vm_state) (p : Z) (z' : zone) (w' : vm_state) : Prop := {
  fr_grown : grown z T w z' T w';
  fr_leaf : forall v, leaf T w' v = leaf T w v;
  fr_page : frame_ok p;
  fr_was : free_page_in z p;
  fr_not : ~ free_page_in z' p;
  fr_sep : forall k a, T !! k = Some a -> lin p <> a;
  fr_map : is_Some (b_map (vm_buddy w') !! p);
  fr_mem : writable (vm_mem w') (lin p) PAGE_SIZE }.
Definition zeroed (w : vm_state) (p : Z) : Prop := forall x, lin p <= x < lin p + PAGE_SIZE -> vm_mem w !! x = Some 0.

Lemma fresh_page z T w gfp n : vm_ok z T w -> avail z (n + 1) -> 0 <= n -> 0 <= gfp -> exists p z' w', alloc_pages L gfp 0 w = Ok (p, w') /\ fresh z T w p z' w' /\ avail z' n /\ page_address L p = lin p /\ 0 < lin p /\ (want_init_on_alloc gfp = true -> zeroed w' p).
Proof.
  intros H Hav Hn Hg. destruct (alloc_page_ok z T w gfp n H Hav Hn Hg) as (p & z' & w' & E & Hb & Hmap & Hfree & Hnot & Hav' & Hm & Hw & Hz). exists p, z', w'. split; [exact E|]. pose proof (proj2 (Hfree p) (or_introl eq_refl)) as Hp. destruct (vk_free _ _ _ H p Hp) as [Fp _]. destruct (vk_off _ _ _ H) as [O1 O2].
  assert (forall k a, T !! k = Some a -> lin p <> a) as Hsep by (intros k a Hk; exact (proj2 (proj2 (proj2 (vk_table _ _ _ H k a Hk))) p Hp)). assert (forall x, free_page_in z' x -> free_page_in z x) as Hsub by (intros x Hx; apply Hfree; right; exact Hx).
  destruct (vm_ok_private z T w z' w' p H Hsep Hsub Hb Hm Hw) as [Hok Hleaf]. split; [|split; [exact Hav'|split; [exact (page_lin p O1 Fp)|split; [destruct Fp; unfold lin; change PAGE_SIZE with 4096; lia|exact Hz]]]]. split; auto. split; auto.
  - intros x [?|(q & Hq & Hx)]; [left; assumption|right; eauto].
  - intros x Hx. apply Hm. intros Hin. apply Hx. right. eauto.
Qed.
(** What the caller does with the page keeps it so. *)
Lemma fresh_update z T w p z' w1 w2 : fresh z T w p z' w1 -> buddy_inv (vm_buddy w2) z' -> is_Some (b_map (vm_buddy w2) !! p) -> eq_outside (lin p) PAGE_SIZE (vm_mem w1) (vm_mem w2) -> writable (vm_mem w2) (lin p) PAGE_SIZE -> fresh z T w p z' w2.
Proof.
  intros [[G1 G2 G3 G4 G5] F2 F3 F4 F5 F6 F7 F8] Hb Hmap Hm Hw. destruct (vm_ok_private z' T w1 z' w2 p G1 F6 (fun x Hx => Hx) Hb Hm Hw) as [Hok Hleaf]. split; auto; [|intros v; rewrite Hleaf; auto]. split; auto. intros x Hx. rewrite Hm; [auto|]. intros Hin. apply Hx. right. eauto.
Qed.
Lemma link_fresh z T w p z' w1 k a i : fresh z T w p z' w1 -> zeroed w1 p -> T !! k = Some a -> (length k < 2)%nat -> 0 <= i < 512 -> T !! (k ++ [i]) = None ->
  exists w', write64 (a + 8 * i) (table_entry L (lin p)) w1 = Ok (tt, w') /\ grown z T w z' (<[k ++ [i] := lin p]> T) w' /\ forall v, leaf (<[k ++ [i] := lin p]> T) w' v = leaf T w v.
Proof.
  intros [[G1 G2 G3 G4 G5] F2 F3 F4 F5 F6 F7 F8] Hz Ha Hlen Hi Hnone. destruct (link_table z' T w1 k a i p G1 Ha Hlen Hi Hnone F3 F5 F6 Hz) as (w' & E & Hok & Hleaf & Hfr). exists w'. split; [exact E|]. split; [|intros v; rewrite Hleaf; auto]. split; auto.
  - apply insert_subseteq. exact Hnone.
  - intros x [(k' & b & Hk & Hx)|Hx]; [|apply G4; right; exact Hx]. apply lookup_insert_Some in Hk as [[_ <-]|[_ Hk]]; [right; eauto|left; eauto].
  - intros x Hx. rewrite Hfr; [auto|]. intros Hin. apply Hx. left. eauto.
Qed.

(** ** The kernel's tables *)

Lemma read_entry z T w k a i : vm_ok z T w -> T !! k = Some a -> (length k < 2)%nat -> 0 <= i < 512 -> read64 (a + 8 * i) w = Ok (enc (T !! (k ++ [i])), w).
Proof. intros H Ha Hl Hi. unfold read64. rewrite bind_get. unfold st_lift. rewrite (vk_entry _ _ _ H k a i Ha Hl Hi). reflexivity. Qed.
Lemma enc_eqb z T w k a i : vm_ok z T w -> T !! k = Some a -> (enc (T !! (k ++ [i])) =? 0) = match T !! (k ++ [i]) with Some _ => false | None => true end.
Proof.
  intros H Ha. destruct (Z.eqb_spec (enc (T !! (k ++ [i]))) 0) as [E|E]; [rewrite (enc_none z T w k a i H Ha E); reflexivity|]. destruct (T !! (k ++ [i])); [reflexivity|]. cbn in E. contradiction.
Qed.
(** The table at place [k] exists, after at most one page was taken. *)
Definition ensured (z : zone) (T : gmap (list Z) Z) (w : vm_state) (n : Z) (k : list Z) (a : Z) (z' : zone) (T' : gmap (list Z) Z) (w' : vm_state) : Prop :=
  grown z T w z' T' w' /\ (forall v, leaf T' w' v = leaf T w v) /\ avail z' n /\ T' !! k = Some a.
Lemma ensured_there z T w n k a : vm_ok z T w -> avail z (n + 1) -> 0 <= n -> T !! k = Some a -> ensured z T w n k a z T w.
Proof. intros H Hav Hn Ha. split; [apply vm_grown_refl, H|]. split; [auto|]. split; [|exact Ha]. apply (avail_le z (n + 1)); [exact Hav|lia]. Qed.
Lemma linked_ensured z T w p z' w1 k a i n : fresh z T w p z' w1 -> zeroed w1 p -> avail z' n -> T !! k = Some a -> (length k < 2)%nat -> 0 <= i < 512 -> T !! (k ++ [i]) = None ->
  exists T' w', write64 (a + 8 * i) (table_entry L (lin p)) w1 = Ok (tt, w') /\ ensured z T w n (k ++ [i]) (lin p) z' T' w'.
Proof.
  intros F Hz Hav Ha Hl Hi Hn. destruct (link_fresh z T w p z' w1 k a i F Hz Ha Hl Hi Hn) as (w' & E & G & Hleaf). eexists _, w'. split; [exact E|]. split; [exact G|]. split; [exact Hleaf|]. split; [exact Hav|]. apply lookup_insert_eq.
Qed.
Lemma table_read z T w n k i b z' T' w' : ensured z T w n (k ++ [i]) b z' T' w' -> T !! k <> None -> exists a, T !! k = Some a /\ read64 (a + 8 * i) w' = Ok (table_entry L b, w') /\ pgd_page_vaddr L (table_entry L b) = b /\ b <> 0.
Proof.
  intros (G & _ & _ & Hb) Hk. destruct (T !! k) as [a|] eqn:Ha; [|contradiction]. exists a. split; [reflexivity|]. pose proof (gr_ok _ _ _ _ _ _ G) as H. pose proof (lookup_weaken _ _ _ _ Ha (gr_sub _ _ _ _ _ _ G)) as Ha'.
  destruct (vk_tree _ _ _ H k i b Hb) as (Hi & Hl & _). pose proof (read_entry z' T' w' k a i H Ha' Hl Hi) as E. rewrite Hb in E. split; [exact E|]. destruct (enc_some z' T' w' k b i H Hb) as [E1 _]. rewrite Hb in E1. split; [exact E1|]. pose proof (proj1 (vk_table _ _ _ H _ _ Hb)). lia.
Qed.

Lemma pmd_alloc_missing z T w n i init : vm_ok z T w -> avail z (n + 1) -> 0 <= n -> 0 <= i < 512 -> T !! [i] = None -> exists a z' T' w', __pmd_alloc L init (R + 8 * i) w = Ok (0, w') /\ ensured z T w n [i] a z' T' w'.
Proof.
  intros H Hav Hn Hi Hnone. set (gfp := if init then GFP_PGTABLE_KERNEL else GFP_PGTABLE_USER). destruct (fresh_page z T w gfp n H Hav Hn ltac:(destruct init; vm_compute; congruence)) as (p & z' & w1 & E & F & Hav' & Ep & P0 & Hz).
  destruct (linked_ensured z T w p z' w1 [] R i n F (Hz ltac:(destruct init; reflexivity)) Hav' (vk_root _ _ _ H) ltac:(cbn; lia) Hi Hnone) as (T' & w' & E' & Hens). exists (lin p), z', T', w'. split; [|exact Hens].
  unfold __pmd_alloc, pmd_alloc_one. fold gfp. rewrite (bind_ok _ _ _ (lin p) w1) by (rewrite (bind_ok _ _ _ _ _ E), Ep; reflexivity). destruct (Z.eqb_spec (lin p) 0); [lia|]. pose proof (gr_ok _ _ _ _ _ _ (fr_grown _ _ _ _ _ _ F)) as H1.
  rewrite (bind_ok _ _ _ _ _ (read_entry z' T w1 [] R i H1 (vk_root _ _ _ H1) ltac:(cbn; lia) Hi)). cbn [app]. rewrite Hnone. change (negb (pgd_present (enc None))) with true. cbv iota. rewrite (bind_ok _ _ _ _ _ E'). reflexivity.
Qed.
Lemma pmd_offset_ok z T w n i a z' T' w' va : ensured z T w n [i] a z' T' w' -> vm_ok z T w -> pmd_offset L (R + 8 * i) va w' = Ok (a + 8 * pmd_index va, w') /\ a + 8 * pmd_index va <> 0.
Proof.
  intros Hens H. destruct (table_read z T w n [] i a z' T' w' Hens) as (r & Hr & E & Ea & Hne); [rewrite (vk_root _ _ _ H); discriminate|]. rewrite (vk_root _ _ _ H) in Hr. injection Hr as <-. unfold pmd_offset. rewrite (bind_ok _ _ _ _ _ E), Ea. split; [reflexivity|].
  destruct (index_vpn va) as (_ & -> & _). destruct (idx_range _ (vpn_range va)) as (_ & Hi & _). destruct Hens as (G & _ & _ & Ha). destruct (vk_table _ _ _ (gr_ok _ _ _ _ _ _ G) _ _ Ha) as (A0 & _). lia.
Qed.
Lemma pmd_alloc_track_ok z T w n i va mask : vm_ok z T w -> avail z (n + 1) -> 0 <= n -> 0 <= i < 512 -> exists a z' T' w' mask', pmd_alloc_track L (R + 8 * i) va mask w = Ok ((a + 8 * pmd_index va, mask'), w') /\ a + 8 * pmd_index va <> 0 /\ ensured z T w n [i] a z' T' w'.
Proof.
  intros H Hav Hn Hi. unfold pmd_alloc_track. rewrite (bind_ok _ _ _ _ _ (read_entry z T w [] R i H (vk_root _ _ _ H) ltac:(cbn; lia) Hi)). unfold pgd_none. rewrite (enc_eqb z T w [] R i H (vk_root _ _ _ H)). cbn [app]. destruct (T !! [i]) as [a|] eqn:Ha.
  - pose proof (ensured_there z T w n [i] a H Hav Hn Ha) as Hens. destruct (pmd_offset_ok _ _ _ _ _ _ _ _ _ va Hens H) as [E Hne]. exists a, z, T, w, mask. rewrite (bind_ok _ _ _ _ _ E). auto.
  - destruct (pmd_alloc_missing z T w n i true H Hav Hn Hi Ha) as (a & z' & T' & w' & E1 & Hens). destruct (pmd_offset_ok _ _ _ _ _ _ _ _ _ va Hens H) as [E Hne]. eexists a, z', T', w', _. rewrite (bind_ok _ _ _ _ _ E1). change (negb (0 =? 0)) with false. cbv iota. rewrite (bind_ok _ _ _ _ _ E). auto.
Qed.
Lemma pmd_alloc_ok z T w n i va init : vm_ok z T w -> avail z (n + 1) -> 0 <= n -> 0 <= i < 512 -> exists a z' T' w', pmd_alloc L init (R + 8 * i) va w = Ok (a + 8 * pmd_index va, w') /\ a + 8 * pmd_index va <> 0 /\ ensured z T w n [i] a z' T' w'.
Proof.
  intros H Hav Hn Hi. unfold pmd_alloc. rewrite (bind_ok _ _ _ _ _ (read_entry z T w [] R i H (vk_root _ _ _ H) ltac:(cbn; lia) Hi)). unfold pgd_none. rewrite (enc_eqb z T w [] R i H (vk_root _ _ _ H)). cbn [app]. destruct (T !! [i]) as [a|] eqn:Ha.
  - pose proof (ensured_there z T w n [i] a H Hav Hn Ha) as Hens. destruct (pmd_offset_ok _ _ _ _ _ _ _ _ _ va Hens H) as [E Hne]. exists a, z, T, w. rewrite (bind_ok _ _ _ 0 w) by reflexivity. change (negb (0 =? 0)) with false. cbv iota. auto.
  - destruct (pmd_alloc_missing z T w n i init H Hav Hn Hi Ha) as (a & z' & T' & w' & E1 & Hens). destruct (pmd_offset_ok _ _ _ _ _ _ _ _ _ va Hens H) as [E Hne]. exists a, z', T', w'. rewrite (bind_ok _ _ _ _ _ E1). change (negb (0 =? 0)) with false. cbv iota. auto.
Qed.

Lemma pte_offset_ok z T w n i j a b z' T' w' va : ensured z T w n [i; j] b z' T' w' -> T !! [i] = Some a -> pte_offset_kernel L (a + 8 * j) va w' = Ok (b + 8 * pte_index va, w') /\ b + 8 * pte_index va <> 0.
Proof.
  intros Hens Ha. destruct (table_read z T w n [i] j b z' T' w' Hens) as (r & Hr & E & Ea & Hne); [congruence|]. assert (r = a) as -> by congruence. unfold pte_offset_kernel. rewrite (bind_ok _ _ _ _ _ E). change (pmd_page_vaddr L) with (pgd_page_vaddr L). rewrite Ea. split; [reflexivity|].
  destruct (index_vpn va) as (_ & _ & ->). destruct (idx_range _ (vpn_range va)) as (_ & _ & Hi). destruct Hens as (G & _ & _ & Hb). destruct (vk_table _ _ _ (gr_ok _ _ _ _ _ _ G) _ _ Hb) as (A0 & _). lia.
Qed.
Lemma get_free_page z T w n : vm_ok z T w -> avail z (n + 1) -> 0 <= n -> exists p z' w', pte_alloc_one_kernel L w = Ok (lin p, w') /\ fresh z T w p z' w' /\ avail z' n /\ 0 < lin p /\ zeroed w' p.
Proof.
  intros H Hav Hn. destruct (fresh_page z T w (Z.land GFP_PGTABLE_KERNEL (u32 (Z.lnot __GFP_HIGHMEM))) n H Hav Hn ltac:(vm_compute; congruence)) as (p & z' & w' & E & F & Hav' & Ep & P0 & Hz). exists p, z', w'. split; [|auto 6].
  unfold pte_alloc_one_kernel, __pte_alloc_one_kernel. rewrite bind_get. unfold __get_free_pages. unfold alloc_pages in E. rewrite bind_get in E. destruct (__alloc_pages_nodemask _ _ _ _ _) as [[[q s] m]| | |]; try discriminate E. cbn in E. injection E as <- <-. cbn. rewrite Ep. reflexivity.
Qed.
Lemma pte_alloc_kernel_ok z T w n i j a : vm_ok z T w -> avail z (n + 1) -> 0 <= n -> T !! [i] = Some a -> 0 <= j < 512 -> T !! [i; j] = None -> exists b z' T' w', __pte_alloc_kernel L (a + 8 * j) w = Ok (0, w') /\ ensured z T w n [i; j] b z' T' w'.
Proof.
  intros H Hav Hn Ha Hj Hnone. destruct (get_free_page z T w n H Hav Hn) as (p & z' & w1 & E & F & Hav' & P0 & Hz). destruct (linked_ensured z T w p z' w1 [i] a j n F Hz Hav' Ha ltac:(cbn; lia) Hj Hnone) as (T' & w' & E' & Hens). exists (lin p), z', T', w'. split; [|exact Hens].
  unfold __pte_alloc_kernel. rewrite (bind_ok _ _ _ _ _ E). destruct (Z.eqb_spec (lin p) 0); [lia|]. pose proof (gr_ok _ _ _ _ _ _ (fr_grown _ _ _ _ _ _ F)) as H1. rewrite (bind_ok _ _ _ _ _ (read_entry z' T w1 [i] a j H1 Ha ltac:(cbn; lia) Hj)). cbn [app]. rewrite Hnone. change (pmd_none (enc None)) with true. cbv iota. rewrite (bind_ok _ _ _ _ _ E'). reflexivity.
Qed.
Lemma pte_alloc_kernel_track_ok z T w n i j a va mask : vm_ok z T w -> avail z (n + 1) -> 0 <= n -> T !! [i] = Some a -> 0 <= j < 512 ->
  exists b z' T' w' mask', pte_alloc_kernel_track L (a + 8 * j) va mask w = Ok ((b + 8 * pte_index va, mask'), w') /\ b + 8 * pte_index va <> 0 /\ ensured z T w n [i; j] b z' T' w'.
Proof.
  intros H Hav Hn Ha Hj. unfold pte_alloc_kernel_track. rewrite (bind_ok _ _ _ _ _ (read_entry z T w [i] a j H Ha ltac:(cbn; lia) Hj)). unfold pmd_none. rewrite (enc_eqb z T w [i] a j H Ha). cbn [app]. destruct (T !! [i; j]) as [b|] eqn:Hb.
  - pose proof (ensured_there z T w n [i; j] b H Hav Hn Hb) as Hens. destruct (pte_offset_ok _ _ _ _ _ _ _ _ _ _ _ va Hens Ha) as [E Hne]. exists b, z, T, w, mask. rewrite (bind_ok _ _ _ _ _ E). auto.
  - destruct (pte_alloc_kernel_ok z T w n i j a H Hav Hn Ha Hj Hb) as (b & z' & T' & w' & E1 & Hens). destruct (pte_offset_ok _ _ _ _ _ _ _ _ _ _ _ va Hens Ha) as [E Hne]. eexists b, z', T', w', _. rewrite (bind_ok _ _ _ _ _ E1). change (negb (0 =? 0)) with false. cbv iota. rewrite (bind_ok _ _ _ _ _ E). auto.
Qed.

(** ** Ranges *)

(** Page numbers from [v0] on, [n] of them, map to the frames from [pfn] on; the others are as before. *)
Definition maps (T : gmap (list Z) Z) (w : vm_state) (T' : gmap (list Z) Z) (w' : vm_state) (v0 n pfn prot : Z) : Prop :=
  forall v, 0 <= v < 2 ^ 27 -> leaf T' w' v = if decide (v0 <= v < v0 + n) then Ok (pfn_pte (pfn + (v - v0)) prot) else leaf T w v.
Definition unmapped (T : gmap (list Z) Z) (w : vm_state) (v0 n : Z) : Prop := forall v, v0 <= v < v0 + n -> leaf T w v = Ok 0.

Lemma maps_app T w T1 w1 T2 w2 v0 n1 n2 pfn prot : 0 <= n1 -> 0 <= n2 -> maps T w T1 w1 v0 n1 pfn prot -> maps T1 w1 T2 w2 (v0 + n1) n2 (pfn + n1) prot -> maps T w T2 w2 v0 (n1 + n2) pfn prot.
Proof.
  intros N1 N2 H1 H2 v Hv. rewrite (H2 v Hv). case_decide as D2.
  - rewrite decide_True by lia. do 2 f_equal. lia.
  - rewrite (H1 v Hv). case_decide; [rewrite decide_True by lia; reflexivity|rewrite decide_False by lia; reflexivity].
Qed.
Lemma maps_same T w T1 w1 T2 w2 v0 n pfn prot : (forall v, leaf T1 w1 v = leaf T w v) -> maps T1 w1 T2 w2 v0 n pfn prot -> maps T w T2 w2 v0 n pfn prot.
Proof. intros H1 H2 v Hv. rewrite (H2 v Hv), H1. reflexivity. Qed.
Lemma unmapped_after T w T1 w1 v0 n1 n2 pfn prot : 0 <= v0 -> 0 <= n1 -> v0 + n1 + n2 <= 2 ^ 27 -> maps T w T1 w1 v0 n1 pfn prot -> unmapped T w v0 (n1 + n2) -> unmapped T1 w1 (v0 + n1) n2.
Proof. intros H0 Hn H1 H2 H3 v Hv. rewrite (H2 v ltac:(lia)). rewrite decide_False by lia. apply H3. lia. Qed.
Lemma pfn_pte_u64 pfn prot : is_u64 prot -> u64 (pfn_pte pfn prot) = pfn_pte pfn prot.
Proof. intros Hp. apply u64_small, is_u64_lor; [apply u64_range|exact Hp]. Qed.
Lemma vpn_next addr t : addr mod PAGE_SIZE = 0 -> 0 <= t -> vpn addr + t < 2 ^ 27 -> vpn (addr + PAGE_SIZE * t) = vpn addr + t.
Proof. unfold vpn. change PAGE_SIZE with 4096. intros H1 H2 H3. rewrite Z.add_comm, Z.mul_comm, Z.div_add_l by lia. set (q := addr / 4096) in *. clearbody q. Z.div_mod_to_equations. lia. Qed.
Lemma idx_next v t : 0 <= t -> idx2 v + t < 512 -> idx0 (v + t) = idx0 v /\ idx1 (v + t) = idx1 v /\ idx2 (v + t) = idx2 v + t.
Proof. unfold idx0, idx1, idx2. intros. Z.div_mod_to_equations. lia. Qed.
Lemma idx_inj u v : idx0 u = idx0 v -> idx1 u = idx1 v -> idx2 u = idx2 v -> u = v.
Proof. unfold idx0, idx1, idx2. intros. Z.div_mod_to_equations. lia. Qed.

Lemma pte_loop_ok z T b prot : is_u64 prot -> forall f w addr n pfn, vm_ok z T w -> T !! [idx0 (vpn addr); idx1 (vpn addr)] = Some b -> addr mod PAGE_SIZE = 0 -> 0 <= addr -> addr + PAGE_SIZE * n < 2 ^ 64 ->
  0 < n <= Z.of_nat f -> idx2 (vpn addr) + n <= 512 -> 0 <= pfn -> pfn + n < 2 ^ 64 -> unmapped T w (vpn addr) n ->
  exists w', pte_range_loop f (b + 8 * idx2 (vpn addr)) addr (addr + PAGE_SIZE * n) pfn prot w = Ok (tt, w') /\ grown z T w z T w' /\ maps T w T w' (vpn addr) n pfn prot.
Proof.
  intros Hprot. induction f as [|f IH]; intros w addr n pfn H Hb Hal H0 Hend Hn Hroom P0 P1 Hun; [lia|]. pose proof (vpn_range addr) as Hv. set (v := vpn addr) in *. pose proof (idx2_range v) as I2. cbn [pte_range_loop].
  pose proof (Hun v ltac:(lia)) as Hl. unfold leaf in Hl. rewrite Hb in Hl. rewrite (bind_ok _ _ _ 0 w) by (unfold read64; rewrite bind_get; unfold st_lift; rewrite Hl; reflexivity). rewrite (bind_ok _ _ _ tt w) by reflexivity.
  destruct (set_leaf z T w (idx0 v) (idx1 v) b (idx2 v) (pfn_pte pfn prot) H Hb I2) as (w1 & E1 & G1 & M1). unfold set_pte_at, set_pte. rewrite (bind_ok _ _ _ _ _ E1). rewrite (pfn_pte_u64 _ _ Hprot) in M1. change PAGE_SIZE with 4096 in *. rewrite (u64_small (addr + 4096)) by (unfold is_u64; lia).
  assert (maps T w T w1 v 1 pfn prot) as Hm1. { intros u Hu. rewrite M1. case_decide as D; case_decide as D'; try reflexivity. - replace u with v by (apply idx_inj; symmetry; apply D). do 2 f_equal. lia. - exfalso. apply D'. rewrite (idx_inj u v) by apply D. lia. - exfalso. apply D. replace u with v by lia. auto. }
  destruct (Z.eqb_spec (addr + 4096) (addr + 4096 * n)) as [En|En]; cbn [negb].
  - assert (n = 1) as -> by lia. exists w1. auto.
  - assert (v + 1 < 2 ^ 27) as Hv1 by (clear - Hroom Hn En Hv; unfold idx2 in Hroom; Z.div_mod_to_equations; lia). pose proof (vpn_next addr 1 Hal ltac:(lia) Hv1) as Ev. change (PAGE_SIZE * 1) with 4096 in Ev. fold v in Ev. destruct (idx_next v 1 ltac:(lia) ltac:(lia)) as (Q0 & Q1 & Q2).
    assert (0 < n - 1 <= Z.of_nat f) as Hn' by lia. destruct (IH w1 (addr + 4096) (n - 1) (pfn + 1)) as (w2 & E2 & G2 & M2); rewrite ?Ev; try lia.
    + apply (gr_ok _ _ _ _ _ _ G1).
    + rewrite Q0, Q1. exact Hb.
    + Z.div_mod_to_equations. lia.
    + apply (unmapped_after T w T w1 v 1 (n - 1) pfn prot); try lia; [clear - Hroom Hv; unfold idx2 in Hroom; Z.div_mod_to_equations; lia|exact Hm1|]. replace (1 + (n - 1)) with n by lia. exact Hun.
    + rewrite Ev, Q2 in E2. rewrite Ev in M2. replace (addr + 4096 + 4096 * (n - 1)) with (addr + 4096 * n) in E2 by lia. rewrite (u64_small (pfn + 1)) by (unfold is_u64; lia). replace (b + 8 * (idx2 v + 1)) with (b + 8 * idx2 v + 8) in E2 by lia. exists w2. split; [exact E2|]. split; [eapply vm_grown_trans; eassumption|]. replace n with (1 + (n - 1)) by lia. eapply maps_app; [lia|lia|exact Hm1|exact M2].
Qed.

(** Tables of each level that [n] pages from page number [v] on fall in. *)
Definition chunks (s v n : Z) : Z := (v + n - 1) / 2 ^ s - v / 2 ^ s + 1.
Lemma chunks_step s v n1 n : 0 < s -> 0 < n1 -> n1 < n -> (v + n1) mod 2 ^ s = 0 -> (v + n1) / 2 ^ s = v / 2 ^ s + 1 -> chunks s (v + n1) (n - n1) = chunks s v n - 1.
Proof. intros Hs H1 H2 H3 H4. unfold chunks. replace (v + n1 + (n - n1) - 1) with (v + n - 1) by lia. lia. Qed.
Lemma chunk_first v n : 0 < n -> idx2 v + n <= 512 -> chunks 9 v n = 1.
Proof. unfold chunks, idx2. intros. Z.div_mod_to_equations. lia. Qed.
Lemma next_table addr : addr mod PAGE_SIZE = 0 -> (addr / 2 ^ 21 + 1) * 2 ^ 21 = addr + PAGE_SIZE * (512 - idx2 (vpn addr)).
Proof. unfold idx2, vpn. change PAGE_SIZE with 4096. intros H. replace (2 ^ 21) with (4096 * 2 ^ 9) by reflexivity. rewrite <- Z.div_div by lia. pose proof (Z.div_mod addr 4096 ltac:(lia)). set (q := addr / 4096) in *. clearbody q. Z.div_mod_to_equations. lia. Qed.
Lemma next_directory addr : addr mod PAGE_SIZE = 0 -> (addr / 2 ^ 30 + 1) * 2 ^ 30 = addr + PAGE_SIZE * (2 ^ 18 - vpn addr mod 2 ^ 18).
Proof. unfold vpn. change PAGE_SIZE with 4096. intros H. replace (2 ^ 30) with (4096 * 2 ^ 18) by reflexivity. rewrite <- Z.div_div by lia. pose proof (Z.div_mod addr 4096 ltac:(lia)). set (q := addr / 4096) in *. clearbody q. Z.div_mod_to_equations. lia. Qed.
Lemma min_pages addr k n : Z.min (addr + PAGE_SIZE * k) (addr + PAGE_SIZE * n) = addr + PAGE_SIZE * Z.min k n.
Proof. change PAGE_SIZE with 4096. lia. Qed.

Lemma pte_range_ok z T w c a addr n phys prot mask : is_u64 prot -> vm_ok z T w -> avail z (c + 1) -> 0 <= c -> T !! [idx0 (vpn addr)] = Some a -> addr mod PAGE_SIZE = 0 -> 0 <= addr -> addr + PAGE_SIZE * n < 2 ^ 64 ->
  0 < n -> idx2 (vpn addr) + n <= 512 -> 0 <= phys -> phys + PAGE_SIZE * n < 2 ^ 64 -> unmapped T w (vpn addr) n ->
  exists z' T' w' mask', ioremap_pte_range L (a + 8 * idx1 (vpn addr)) addr (addr + PAGE_SIZE * n) phys prot mask w = Ok ((0, mask'), w') /\ grown z T w z' T' w' /\ maps T w T' w' (vpn addr) n (phys / PAGE_SIZE) prot /\ avail z' c.
Proof.
  intros Hprot H Hav Hc Ha Hal H0 Hend Hn Hroom P0 P1 Hun. pose proof (vpn_range addr) as Hv. destruct (index_vpn addr) as (_ & _ & E2). set (v := vpn addr) in *. destruct (idx_range v Hv) as (_ & I1 & I2).
  destruct (pte_alloc_kernel_track_ok z T w c (idx0 v) (idx1 v) a addr mask H Hav Hc Ha I1) as (b & z1 & T1 & w1 & mask1 & E & Hne & G1 & L1 & Hav1 & Hb). unfold ioremap_pte_range. rewrite (bind_ok _ _ _ _ _ E). cbv beta iota. destruct (Z.eqb_spec (b + 8 * pte_index addr) 0); [contradiction|]. rewrite E2.
  change (Z.to_nat PTRS_PER_PTE) with 512%nat. change PAGE_SHIFT with 12. rewrite Z.shiftr_div_pow2 by lia. change (2 ^ 12) with PAGE_SIZE. destruct (pte_loop_ok z1 T1 b prot Hprot 512 w1 addr n (phys / PAGE_SIZE)) as (w2 & E3 & G2 & M2); fold v; try assumption; try lia.
  - apply (gr_ok _ _ _ _ _ _ G1).
  - change PAGE_SIZE with 4096. Z.div_mod_to_equations. lia.
  - change PAGE_SIZE with 4096 in *. Z.div_mod_to_equations. lia.
  - intros u Hu. rewrite L1. apply Hun, Hu.
  - fold v in E3, M2. rewrite (bind_ok _ _ _ _ _ E3). eexists z1, T1, w2, _. split; [reflexivity|]. split; [eapply vm_grown_trans; eassumption|]. split; [exact (maps_same T w T1 w1 T1 w2 _ _ _ _ L1 M2)|exact Hav1].
Qed.

Lemma pmd_loop_ok prot : is_u64 prot -> forall f z T w c a addr n phys mask, vm_ok z T w -> avail z (c + chunks 9 (vpn addr) n) -> 0 <= c -> T !! [idx0 (vpn addr)] = Some a -> addr mod PAGE_SIZE = 0 -> 0 <= addr -> addr + PAGE_SIZE * n < 2 ^ 64 ->
  0 < n -> vpn addr mod 2 ^ 18 + n <= 2 ^ 18 -> chunks 9 (vpn addr) n <= Z.of_nat f -> 0 <= phys -> phys mod PAGE_SIZE = 0 -> phys + PAGE_SIZE * n < 2 ^ 64 -> unmapped T w (vpn addr) n ->
  exists z' T' w' mask', pmd_range_loop L f (a + 8 * idx1 (vpn addr)) addr (addr + PAGE_SIZE * n) phys prot mask w = Ok ((0, mask'), w') /\ grown z T w z' T' w' /\ maps T w T' w' (vpn addr) n (phys / PAGE_SIZE) prot /\ avail z' c.
Proof.
  intros Hprot. induction f as [|f IH]; intros z T w c a addr n phys mask H Hav Hc Ha Hal H0 Hend Hn Hroom Hf P0 Pal P1 Hun; pose proof (vpn_range addr) as Hv; set (v := vpn addr) in *.
  { exfalso. unfold chunks in Hf. Z.div_mod_to_equations. lia. }
  pose proof (idx2_range v) as I2. cbn [pmd_range_loop]. rewrite pmd_end_min, (next_table addr Hal), min_pages by (try assumption; change PAGE_SIZE with 4096 in *; lia). fold v. set (n1 := Z.min (512 - idx2 v) n). assert (0 < n1 <= n) as N1 by lia. assert (idx2 v + n1 <= 512) as N2 by lia.
  assert (0 <= chunks 9 v n - 1) as Hch by (unfold chunks; Z.div_mod_to_equations; lia). destruct (pte_range_ok z T w (c + (chunks 9 v n - 1)) a addr n1 phys prot mask Hprot H) as (z1 & T1 & w1 & mask1 & E1 & G1 & M1 & Hav1); fold v; try assumption; try (change PAGE_SIZE with 4096 in *; lia).
  { replace (c + (chunks 9 v n - 1) + 1) with (c + chunks 9 v n) by lia. exact Hav. }
  { intros u Hu. apply Hun. lia. }
  fold v in E1, M1. rewrite (bind_ok _ _ _ _ _ E1). cbv beta iota. change (negb (0 =? 0)) with false. cbv iota. destruct (Z.eqb_spec (addr + PAGE_SIZE * n1) (addr + PAGE_SIZE * n)) as [En|En]; cbn [negb].
  - assert (n1 = n) as En' by (change PAGE_SIZE with 4096 in *; lia). rewrite En' in *. exists z1, T1, w1, mask1. split; [reflexivity|]. split; [exact G1|]. split; [exact M1|]. eapply avail_le; [exact Hav1|lia].
  - assert (n1 = 512 - idx2 v /\ n1 < n) as [Q1 Q2] by (change PAGE_SIZE with 4096 in *; lia). assert ((v + n1) mod 2 ^ 9 = 0 /\ (v + n1) / 2 ^ 9 = v / 2 ^ 9 + 1) as [R1 R2] by (clear - Q1; unfold idx2 in Q1; Z.div_mod_to_equations; lia).
    assert (v + n1 < 2 ^ 27 /\ idx0 (v + n1) = idx0 v /\ idx1 (v + n1) = idx1 v + 1 /\ (v + n1) mod 2 ^ 18 + (n - n1) = v mod 2 ^ 18 + n) as (V1 & V2 & V3 & V4) by (clear - Q1 Q2 Hv Hroom Hn; unfold idx0, idx1, idx2 in *; Z.div_mod_to_equations; lia).
    pose proof (vpn_next addr n1 Hal ltac:(lia) V1) as Ev. fold v in Ev. replace (u64 (phys + u64 (addr + PAGE_SIZE * n1 - addr))) with (phys + PAGE_SIZE * n1) by (change PAGE_SIZE with 4096 in *; rewrite (u64_small (addr + 4096 * n1 - addr)), u64_small by (unfold is_u64; lia); lia).
    pose proof (chunks_step 9 v n1 n ltac:(lia) ltac:(lia) Q2 R1 R2) as Ec. destruct (IH z1 T1 w1 c a (addr + PAGE_SIZE * n1) (n - n1) (phys + PAGE_SIZE * n1) mask1) as (z2 & T2 & w2 & mask2 & E2 & G2 & M2 & Hav2); rewrite ?Ev, ?Ec, ?V2; try assumption; try (change PAGE_SIZE with 4096 in *; lia).
    + apply (gr_ok _ _ _ _ _ _ G1).
    + eapply lookup_weaken; [exact Ha|apply (gr_sub _ _ _ _ _ _ G1)].
    + change PAGE_SIZE with 4096 in *. Z.div_mod_to_equations. lia.
    + change PAGE_SIZE with 4096 in *. Z.div_mod_to_equations. lia.
    + eapply unmapped_after; try exact M1; try lia; [clear - Hroom Hv; Z.div_mod_to_equations; lia|]. replace (n1 + (n - n1)) with n by lia. exact Hun.
    + rewrite Ev, V3 in E2. rewrite Ev in M2. replace (a + 8 * (idx1 v + 1)) with (a + 8 * idx1 v + 8) in E2 by lia. replace (addr + PAGE_SIZE * n1 + PAGE_SIZE * (n - n1)) with (addr + PAGE_SIZE * n) in E2 by lia. exists z2, T2, w2, mask2. split; [exact E2|]. split; [eapply vm_grown_trans; eassumption|]. split; [|exact Hav2].
      replace n with (n1 + (n - n1)) at 1 by lia. eapply maps_app; [lia|lia|exact M1|]. replace (phys / PAGE_SIZE + n1) with ((phys + PAGE_SIZE * n1) / PAGE_SIZE); [exact M2|]. rewrite Z.mul_comm, Z.div_add by (change PAGE_SIZE with 4096; lia). reflexivity.
Qed.

Lemma pmd_range_ok z T w c addr n phys prot mask : is_u64 prot -> vm_ok z T w -> avail z (c + (chunks 9 (vpn addr) n + 1)) -> 0 <= c -> addr mod PAGE_SIZE = 0 -> 0 <= addr -> addr + PAGE_SIZE * n < 2 ^ 64 ->
  0 < n -> vpn addr mod 2 ^ 18 + n <= 2 ^ 18 -> 0 <= phys -> phys mod PAGE_SIZE = 0 -> phys + PAGE_SIZE * n < 2 ^ 64 -> unmapped T w (vpn addr) n ->
  exists z' T' w' mask', ioremap_pmd_range L (R + 8 * idx0 (vpn addr)) addr (addr + PAGE_SIZE * n) phys prot mask w = Ok ((0, mask'), w') /\ grown z T w z' T' w' /\ maps T w T' w' (vpn addr) n (phys / PAGE_SIZE) prot /\ avail z' c.
Proof.
  intros Hprot H Hav Hc Hal H0 Hend Hn Hroom P0 Pal P1 Hun. pose proof (vpn_range addr) as Hv. destruct (index_vpn addr) as (_ & E1 & _). set (v := vpn addr) in *. destruct (idx_range v Hv) as (I0 & I1 & _). assert (0 <= chunks 9 v n <= 512) as Hch by (clear - Hroom Hn Hv; unfold chunks; Z.div_mod_to_equations; lia).
  rewrite Z.add_assoc in Hav. destruct (pmd_alloc_track_ok z T w _ (idx0 v) addr mask H Hav ltac:(lia) I0) as (a & z1 & T1 & w1 & mask1 & E & Hne & G1 & L1 & Hav1 & Ha). unfold ioremap_pmd_range. rewrite (bind_ok _ _ _ _ _ E). cbv beta iota. destruct (Z.eqb_spec (a + 8 * pmd_index addr) 0); [contradiction|]. rewrite E1. change (Z.to_nat PTRS_PER_PMD) with 512%nat.
  destruct (pmd_loop_ok prot Hprot 512 z1 T1 w1 c a addr n phys mask1) as (z2 & T2 & w2 & mask2 & E2 & G2 & M2 & Hav2); fold v; try assumption; try lia.
  - apply (gr_ok _ _ _ _ _ _ G1).
  - intros u Hu. rewrite L1. apply Hun, Hu.
  - fold v in E2, M2. exists z2, T2, w2, mask2. split; [exact E2|]. split; [eapply vm_grown_trans; eassumption|]. split; [exact (maps_same T w T1 w1 T2 w2 _ _ _ _ L1 M2)|exact Hav2].
Qed.

Lemma pgd_loop_ok prot : is_u64 prot -> forall f z T w c addr n phys mask, vm_ok z T w -> avail z (c + (chunks 9 (vpn addr) n + chunks 18 (vpn addr) n)) -> 0 <= c -> addr mod PAGE_SIZE = 0 -> 0 <= addr -> addr + PAGE_SIZE * n < 2 ^ 64 ->
  0 < n -> vpn addr + n <= 2 ^ 27 -> chunks 18 (vpn addr) n <= Z.of_nat f -> 0 <= phys -> phys mod PAGE_SIZE = 0 -> phys + PAGE_SIZE * n < 2 ^ 64 -> unmapped T w (vpn addr) n ->
  exists z' T' w', pgd_range_loop L f (R + 8 * idx0 (vpn addr)) addr (addr + PAGE_SIZE * n) phys prot mask w = Ok (0, w') /\ grown z T w z' T' w' /\ maps T w T' w' (vpn addr) n (phys / PAGE_SIZE) prot /\ avail z' c.
Proof.
  intros Hprot. induction f as [|f IH]; intros z T w c addr n phys mask H Hav Hc Hal H0 Hend Hn Hroom Hf P0 Pal P1 Hun; pose proof (vpn_range addr) as Hv; set (v := vpn addr) in *.
  { exfalso. unfold chunks in Hf. Z.div_mod_to_equations. lia. }
  cbn [pgd_range_loop]. rewrite pgd_end_min, (next_directory addr Hal), min_pages by (try assumption; change PAGE_SIZE with 4096 in *; lia). fold v. set (n1 := Z.min (2 ^ 18 - v mod 2 ^ 18) n). pose proof (Z.mod_pos_bound v (2 ^ 18) ltac:(lia)) as Hm. assert (0 < n1 <= n) as N1 by lia. assert (v mod 2 ^ 18 + n1 <= 2 ^ 18) as N2 by lia.
  assert (exists c1, c1 = c + (chunks 9 v n - chunks 9 v n1) + (chunks 18 v n - 1) /\ c <= c1) as (c1 & Ec1 & Hc1) by (eexists; split; [reflexivity|]; clear - N1; unfold chunks; Z.div_mod_to_equations; lia).
  destruct (pmd_range_ok z T w c1 addr n1 phys prot mask Hprot H) as (z1 & T1 & w1 & mask1 & E1 & G1 & M1 & Hav1); fold v; try assumption; try (change PAGE_SIZE with 4096 in *; lia).
  { replace (c1 + (chunks 9 v n1 + 1)) with (c + (chunks 9 v n + chunks 18 v n)) by lia. exact Hav. }
  { intros u Hu. apply Hun. lia. }
  fold v in E1, M1. rewrite (bind_ok _ _ _ _ _ E1). cbv beta iota. change (negb (0 =? 0)) with false. cbv iota. destruct (Z.eqb_spec (addr + PAGE_SIZE * n1) (addr + PAGE_SIZE * n)) as [En|En]; cbn [negb].
  - assert (n1 = n) as En' by (change PAGE_SIZE with 4096 in *; lia). rewrite En' in *. exists z1, T1, w1. split; [reflexivity|]. split; [exact G1|]. split; [exact M1|]. eapply avail_le; [exact Hav1|lia].
  - assert (n1 = 2 ^ 18 - v mod 2 ^ 18 /\ n1 < n) as [Q1 Q2] by (change PAGE_SIZE with 4096 in *; lia). assert ((v + n1) mod 2 ^ 18 = 0 /\ (v + n1) / 2 ^ 18 = v / 2 ^ 18 + 1) as [R1 R2] by (clear - Q1; Z.div_mod_to_equations; lia).
    assert (idx0 (v + n1) = idx0 v + 1) as V3 by exact R2. pose proof (vpn_next addr n1 Hal ltac:(lia) ltac:(lia)) as Ev. fold v in Ev.
    replace (u64 (phys + u64 (addr + PAGE_SIZE * n1 - addr))) with (phys + PAGE_SIZE * n1) by (change PAGE_SIZE with 4096 in *; rewrite (u64_small (addr + 4096 * n1 - addr)), u64_small by (unfold is_u64; lia); lia).
    pose proof (chunks_step 18 v n1 n ltac:(lia) ltac:(lia) Q2 R1 R2) as Ec. assert (chunks 9 (v + n1) (n - n1) = chunks 9 v n - chunks 9 v n1) as Ec9 by (clear - R1 N1 Q2; unfold chunks; Z.div_mod_to_equations; lia).
    destruct (IH z1 T1 w1 c (addr + PAGE_SIZE * n1) (n - n1) (phys + PAGE_SIZE * n1) mask1) as (z2 & T2 & w2 & E2 & G2 & M2 & Hav2); rewrite ?Ev, ?Ec, ?Ec9; try assumption; try (change PAGE_SIZE with 4096 in *; lia).
    + apply (gr_ok _ _ _ _ _ _ G1).
    + eapply avail_le; [exact Hav1|]. clear - Ec1 Hc N1. assert (chunks 9 v n1 <= chunks 9 v n /\ 1 <= chunks 18 v n) by (unfold chunks; Z.div_mod_to_equations; lia). lia.
    + change PAGE_SIZE with 4096 in *. Z.div_mod_to_equations. lia.
    + change PAGE_SIZE with 4096 in *. Z.div_mod_to_equations. lia.
    + eapply unmapped_after; try exact M1; try lia. replace (n1 + (n - n1)) with n by lia. exact Hun.
    + rewrite Ev, V3 in E2. rewrite Ev in M2. replace (R + 8 * (idx0 v + 1)) with (R + 8 * idx0 v + 8) in E2 by lia. replace (addr + PAGE_SIZE * n1 + PAGE_SIZE * (n - n1)) with (addr + PAGE_SIZE * n) in E2 by lia. exists z2, T2, w2. split; [exact E2|]. split; [eapply vm_grown_trans; eassumption|]. split; [|exact Hav2].
      replace n with (n1 + (n - n1)) at 1 by lia. eapply maps_app; [lia|lia|exact M1|]. replace (phys / PAGE_SIZE + n1) with ((phys + PAGE_SIZE * n1) / PAGE_SIZE); [exact M2|]. rewrite Z.mul_comm, Z.div_add by (change PAGE_SIZE with 4096; lia). reflexivity.
Qed.

(** Pages of tables that mapping [n] pages at [va] can take. *)
Definition tables_needed (va n : Z) : Z := chunks 9 (vpn va) n + chunks 18 (vpn va) n.


(** ** Page faults *)

(** An update of [struct page] that the page allocator does not see. *)
Definition keeps (f : page -> page) : Prop := forall pg, PageBuddy (f pg) = PageBuddy pg /\ pg_private (f pg) = pg_private pg /\ page_zonenum (f pg) = page_zonenum pg /\ _refcount (f pg) = _refcount pg.
Lemma keeps_table : keeps __SetPageTable.
Proof.
  intros pg. split; [|auto]. unfold PageBuddy. cbn [page_type __SetPageTable with_type]. f_equal. rewrite <- Z.land_assoc. f_equal.
Qed.
Lemma keeps_uptodate : keeps __SetPageUptodate.
Proof.
  intros pg. repeat split. unfold page_zonenum. cbn [pg_flags __SetPageUptodate with_flags]. change (Z.shiftl 1 PG_uptodate) with 4. rewrite Z.shiftr_lor. change (Z.shiftr 4 ZONES_PGSHIFT) with 0. rewrite Z.lor_0_r. reflexivity.
Qed.
Lemma buddy_inv_keeps s z p pg f : keeps f -> buddy_inv s z -> b_map s !! p = Some pg -> buddy_inv (with_map_zones s (<[p := f pg]> (b_map s)) (node_zones s)) z.
Proof.
  intros Hf [B1 B2 B3 B4 B5 B6] Hp. destruct (Hf pg) as (F1 & F2 & F3 & F4). split; auto; cbn [b_map with_map_zones].
  - destruct B2 as [I1 I2 I3 I4 I5 I6 I7 I8]. split; auto.
    + intros b Hb. destruct (decide (p = b.1)) as [->|]; [rewrite lookup_insert_eq; eauto|rewrite lookup_insert_ne by assumption; auto].
    + intros q r Hq Hqr. assert (is_Some (b_map s !! r)) as Hr. { apply (I7 q r); [|exact Hqr]. destruct (decide (p = q)) as [<-|Hne]; [eauto|]. rewrite lookup_insert_ne in Hq by exact Hne. exact Hq. } destruct (decide (p = r)) as [<-|]; [rewrite lookup_insert_eq; eauto|rewrite lookup_insert_ne by assumption; exact Hr].
    + intros q pg' Hq Hbd. apply lookup_insert_Some in Hq as [[<- <-]|[_ Hq]]; [|eauto]. unfold page_order. rewrite F2. rewrite F1 in Hbd. exact (I8 p pg Hp Hbd).
  - intros q pg' Hq. apply lookup_insert_Some in Hq as [[<- <-]|[_ Hq]]; [rewrite F3|]; eauto.
  - intros q pg' Hfr Hq. apply lookup_insert_Some in Hq as [[<- <-]|[_ Hq]]; [rewrite F4|]; eauto.
Qed.
Lemma on_page_ok z T w p z' w1 f : keeps f -> fresh z T w p z' w1 -> exists w2, on_page p f w1 = Ok (tt, w2) /\ fresh z T w p z' w2 /\ vm_mem w2 = vm_mem w1.
Proof.
  intros Hf F. destruct (fr_map _ _ _ _ _ _ F) as [pg Hpg]. destruct w1 as [s m]. cbn [vm_buddy] in Hpg. eexists. split; [unfold on_page; rewrite bind_get; cbn [vm_buddy vm_mem]; rewrite (upd_page_ok _ _ _ _ Hpg); reflexivity|]. split; [|reflexivity].
  apply (fresh_update z T w p z' (VM s m)); cbn [vm_buddy vm_mem]; [exact F| |cbn [b_map with_map_zones]; rewrite lookup_insert_eq; eauto|reflexivity|exact (fr_mem _ _ _ _ _ _ F)]. apply (buddy_inv_keeps s z' p pg f Hf (vk_buddy _ _ _ (gr_ok _ _ _ _ _ _ (fr_grown _ _ _ _ _ _ F))) Hpg).
Qed.

Lemma pte_alloc_one_ok z T w n : vm_ok z T w -> avail z (n + 1) -> 0 <= n -> exists p z' w', pte_alloc_one L w = Ok (p, w') /\ fresh z T w p z' w' /\ avail z' n /\ page_address L p = lin p /\ zeroed w' p.
Proof.
  intros H Hav Hn. destruct (fresh_page z T w GFP_PGTABLE_USER n H Hav Hn ltac:(vm_compute; congruence)) as (p & z' & w1 & E & F & Hav' & Ep & _ & Hz). destruct (on_page_ok z T w p z' w1 _ keeps_table F) as (w2 & E2 & F2 & Em). exists p, z', w2. split; [|split; [exact F2|split; [exact Hav'|split; [exact Ep|]]]].
  - unfold pte_alloc_one, __pte_alloc_one, alloc_page. rewrite (bind_ok _ _ _ _ _ E). rewrite (bind_ok _ _ _ true w2) by (unfold pgtable_pte_page_ctor; rewrite (bind_ok _ _ _ _ _ E2); reflexivity). reflexivity.
  - intros x Hx. rewrite Em. apply (Hz eq_refl), Hx.
Qed.
Lemma pte_alloc_ok z T w n i j a : vm_ok z T w -> avail z (n + 1) -> 0 <= n -> T !! [i] = Some a -> 0 <= j < 512 -> exists b z' T' w', pte_alloc L (a + 8 * j) w = Ok (false, w') /\ ensured z T w n [i; j] b z' T' w'.
Proof.
  intros H Hav Hn Ha Hj. unfold pte_alloc. rewrite (bind_ok _ _ _ _ _ (read_entry z T w [i] a j H Ha ltac:(cbn; lia) Hj)). unfold pmd_none. rewrite (enc_eqb z T w [i] a j H Ha). cbn [app]. destruct (T !! [i; j]) as [b|] eqn:Hb.
  - exists b, z, T, w. split; [reflexivity|]. exact (ensured_there z T w n [i; j] b H Hav Hn Hb).
  - destruct (pte_alloc_one_ok z T w n H Hav Hn) as (p & z' & w1 & E & F & Hav' & Ep & Hz). destruct (linked_ensured z T w p z' w1 [i] a j n F Hz Hav' Ha ltac:(cbn; lia) Hj Hb) as (T' & w' & E' & Hens). exists (lin p), z', T', w'. split; [|exact Hens]. pose proof (gr_ok _ _ _ _ _ _ (fr_grown _ _ _ _ _ _ F)) as H1.
    rewrite (bind_ok _ _ _ 0 w'); [reflexivity|]. unfold __pte_alloc. rewrite (bind_ok _ _ _ _ _ E). rewrite (bind_ok _ _ _ _ _ (read_entry z' T w1 [i] a j H1 Ha ltac:(cbn; lia) Hj)). cbn [app]. rewrite Hb. change (pmd_none (enc None)) with true. cbv iota. unfold pmd_populate. rewrite Ep. rewrite (bind_ok _ _ _ _ _ E'). reflexivity.
Qed.

(** A page of zeros for user space, from the free pages. *)
Lemma zeroed_page_ok z T w n : vm_ok z T w -> avail z (n + 1) -> 0 <= n -> exists p z' w', alloc_zeroed_user_highpage_movable L w = Ok (p, w') /\ fresh z T w p z' w' /\ avail z' n /\ zeroed w' p.
Proof.
  intros H Hav Hn. destruct (fresh_page z T w GFP_HIGHUSER_MOVABLE n H Hav Hn ltac:(vm_compute; congruence)) as (p & z' & w1 & E & F & Hav' & Ep & _ & _). destruct w1 as [s m]. destruct (memset_ok (Z.to_nat PAGE_SIZE) 0 m (lin p) (fr_mem _ _ _ _ _ _ F)) as (m' & E1 & Z1 & Z2). exists p, z', (VM s m').
  split; [unfold alloc_zeroed_user_highpage_movable, alloc_page; rewrite (bind_ok _ _ _ _ _ E); rewrite (bind_ok _ _ _ tt (VM s m')); [reflexivity|unfold clear_user_highpage; rewrite bind_get; cbn [vm_mem vm_buddy]; rewrite Ep; unfold memset; rewrite E1; reflexivity]|]. split; [|split; [exact Hav'|exact Z1]].
  apply (fresh_update z T w p z' (VM s m)); [exact F|exact (vk_buddy _ _ _ (gr_ok _ _ _ _ _ _ (fr_grown _ _ _ _ _ _ F)))|exact (fr_map _ _ _ _ _ _ F)|exact Z2|]. intros x Hx. cbn [vm_mem]. rewrite (Z1 x Hx). eauto.
Qed.
(** A table that exists keeps its place. *)
Lemma grown_ensured z T w z' T' w' k a : grown z T w z' T' w' -> (forall v, leaf T' w' v = leaf T w v) -> T !! k = Some a -> ensured z T w 0 k a z' T' w'.
Proof.
  intros G Hl Ha. split; [exact G|]. split; [exact Hl|]. split; [exists []; split; [constructor|split; [reflexivity|constructor]]|]. eapply lookup_weaken; [exact Ha|exact (gr_sub _ _ _ _ _ _ G)].
Qed.
Lemma read_leaf T w i j b va v : T !! [i; j] = Some b -> i = idx0 (vpn va) -> j = idx1 (vpn va) -> leaf T w (vpn va) = Ok v -> read64 (b + 8 * pte_index va) w = Ok (v, w).
Proof. intros Hb -> -> Hl. destruct (index_vpn va) as (_ & _ & ->). unfold leaf in Hl. rewrite Hb in Hl. unfold read64. rewrite bind_get. unfold st_lift. rewrite Hl. reflexivity. Qed.

(** The page [p] is mapped at page number [v] with entry [e], and nothing else changed. *)
Definition page_mapped (z : zone) (T : gmap (list Z) Z) (w : vm_state) (v p e : Z) (z' : zone) (T' : gmap (list Z) Z) (w' : vm_state) : Prop :=
  grown z T w z' T' w' /\ free_page_in z p /\ ~ free_page_in z' p /\ (forall k a, T' !! k = Some a -> a <> lin p) /\
  forall u, 0 <= u < 2 ^ 27 -> leaf T' w' u = if decide (u = v) then Ok e else leaf T w u.
Lemma map_fresh z T w z1 T1 w1 p z2 w2 b va e : grown z T w z1 T1 w1 -> (forall u, leaf T1 w1 u = leaf T w u) -> fresh z1 T1 w1 p z2 w2 -> T1 !! [idx0 (vpn va); idx1 (vpn va)] = Some b -> is_u64 e ->
  exists w', write64 (b + 8 * pte_index va) e w2 = Ok (tt, w') /\ page_mapped z T w (vpn va) p e z2 T1 w' /\ forall x, lin p <= x < lin p + PAGE_SIZE -> vm_mem w' !! x = vm_mem w2 !! x.
Proof.
  intros G1 L1 F Hb He. destruct (index_vpn va) as (_ & _ & ->). pose proof (fr_grown _ _ _ _ _ _ F) as G2. pose proof (gr_ok _ _ _ _ _ _ G2) as H2. destruct (set_leaf z2 T1 w2 _ _ b (idx2 (vpn va)) e H2 Hb (idx2_range _)) as (w' & E & G3 & M). exists w'. split; [exact E|]. rewrite (u64_small e He) in M. split; [split; [|split; [|split; [|split]]]|].
  - eapply vm_grown_trans; [exact G1|]. eapply vm_grown_trans; [exact G2|exact G3].
  - apply (gr_free _ _ _ _ _ _ G1), (fr_was _ _ _ _ _ _ F).
  - exact (fr_not _ _ _ _ _ _ F).
  - intros k a Hk Q. exact (fr_sep _ _ _ _ _ _ F k a Hk (eq_sym Q)).
  - intros u Hu. rewrite M. rewrite (fr_leaf _ _ _ _ _ _ F), L1. case_decide as D; case_decide as D'; try reflexivity; exfalso; [apply D'; apply idx_inj; apply D|apply D; subst u; auto].
  - destruct (write_entry z2 T1 w2 _ b (idx2 (vpn va)) e H2 Hb (idx2_range _)) as (w'' & E' & _ & _ & Hm & _). rewrite E in E'. injection E' as <-. intros x Hx. apply Hm. pose proof (idx2_range (vpn va)) as I2. intros Hin. exact (other_page z2 T1 w2 p _ b _ H2 (fr_sep _ _ _ _ _ _ F _ _ Hb) Hb I2 x Hin Hx).
Qed.

Lemma anonymous_page_ok z T w vma a va vmf : vm_ok z T w -> avail z 2 -> is_u64 (vm_page_prot vma) -> T !! [idx0 (vpn va)] = Some a -> vf_pmd vmf = a + 8 * pmd_index va -> vf_address vmf = va -> leaf T w (vpn va) = Ok 0 ->
  exists p z' T' w' vmf', do_anonymous_page L vma vmf w = Ok ((0, vmf'), w') /\ page_mapped z T w (vpn va) p (mk_pte p (vm_page_prot vma)) z' T' w' /\ zeroed w' p.
Proof.
  intros H Hav Hprot Ha Epmd Eva Hl. destruct (index_vpn va) as (_ & E1 & _). destruct (idx_range _ (vpn_range va)) as (_ & I1 & _). unfold do_anonymous_page. rewrite Epmd, Eva, E1. destruct (pte_alloc_ok z T w 1 _ _ a H Hav ltac:(lia) Ha I1) as (b & z1 & T1 & w1 & Ea & G1 & L1 & Hav1 & Hb).
  rewrite (bind_ok _ _ _ _ _ Ea). cbv iota. destruct (zeroed_page_ok z1 T1 w1 0 (gr_ok _ _ _ _ _ _ G1) Hav1 ltac:(lia)) as (p & z2 & w2 & Ep & F & _ & Hz). rewrite (bind_ok _ _ _ _ _ Ep). destruct (on_page_ok _ _ _ _ _ _ _ keeps_uptodate F) as (w3 & Eu & F3 & Em). rewrite (bind_ok _ _ _ _ _ Eu).
  pose proof (grown_ensured _ _ _ _ _ _ _ _ (fr_grown _ _ _ _ _ _ F3) (fr_leaf _ _ _ _ _ _ F3) Hb) as Hens. pose proof (lookup_weaken _ _ _ _ Ha (gr_sub _ _ _ _ _ _ G1)) as Ha1. destruct (pte_offset_ok _ _ _ _ _ _ _ _ _ _ _ va Hens Ha1) as [Eo _]. rewrite (bind_ok _ _ _ _ _ Eo).
  rewrite (bind_ok _ _ _ _ _ (read_leaf T1 w3 _ _ b va 0 Hb eq_refl eq_refl ltac:(rewrite (fr_leaf _ _ _ _ _ _ F3), L1; exact Hl))). change (negb (pte_none 0)) with false. cbv iota.
  destruct (map_fresh z T w z1 T1 w1 p z2 w3 b va (mk_pte p (vm_page_prot vma)) G1 L1 F3 Hb) as (w' & Ew & PM & Hsame); [apply is_u64_lor; [apply u64_range|exact Hprot]|]. eexists p, z2, T1, w', _. split; [unfold set_pte_at, set_pte, pte_sw_mkyoung; rewrite (bind_ok _ _ _ _ _ Ew); reflexivity|]. split; [exact PM|].
  intros x Hx. rewrite (Hsame x Hx), Em. apply Hz, Hx.
Qed.

(** A fault on a page that is not mapped goes to the handler of the area. *)
Lemma handle_pte_missing z T w vma ops vmf a va : vm_ok z T w -> T !! [idx0 (vpn va)] = Some a -> vf_pmd vmf = a + 8 * pmd_index va -> vf_address vmf = va -> leaf T w (vpn va) = Ok 0 ->
  handle_pte_fault L vma ops vmf w = match ops with None => do_anonymous_page L vma (set_vf_pte vmf 0) w | Some o => do_fault L vma o (set_vf_pte vmf 0) w end.
Proof.
  intros H Ha Epmd Eva Hl. destruct (index_vpn va) as (_ & E1 & _). destruct (idx_range _ (vpn_range va)) as (_ & I1 & _). unfold handle_pte_fault. rewrite Epmd, Eva, E1. rewrite (bind_ok _ _ _ _ _ (read_entry z T w _ a _ H Ha ltac:(cbn; lia) I1)). unfold pmd_none. rewrite (enc_eqb z T w _ a _ H Ha). cbn [app].
  rewrite (bind_ok _ _ _ (set_vf_pte vmf 0) w); [destruct ops; reflexivity|]. destruct (T !! [idx0 (vpn va); idx1 (vpn va)]) as [b|] eqn:Hb; [|reflexivity].
  destruct (pte_offset_ok _ _ _ _ _ _ _ _ _ _ _ va (grown_ensured z T w z T w _ b (vm_grown_refl z T w H) (fun _ => eq_refl) Hb) Ha) as [Eo _]. rewrite (bind_ok _ _ _ _ _ Eo). rewrite (bind_ok _ _ _ _ _ (read_leaf T w _ _ b va 0 Hb eq_refl eq_refl Hl)). reflexivity.
Qed.
Lemma vpn_page address : is_u64 address -> vpn (Z.land address (u64 (Z.lnot (PAGE_SIZE - 1)))) = vpn address.
Proof. intros H. change PAGE_SIZE with (2 ^ 12). rewrite land_not_ones by (assumption || lia). unfold vpn. change PAGE_SIZE with 4096. f_equal. Z.div_mod_to_equations. lia. Qed.
Lemma same_vpn_index a b : vpn a = vpn b -> pgd_index a = pgd_index b /\ pmd_index a = pmd_index b.
Proof. intros E. destruct (index_vpn a) as (-> & -> & _), (index_vpn b) as (-> & -> & _). rewrite E. auto. Qed.

(** The first step of a fault: the middle table exists, and the handler runs. *)
Lemma fault_entry z T w vma ops address flags n : vm_ok z T w -> avail z (n + 1) -> 0 <= n -> is_u64 address -> leaf T w (vpn address) = Ok 0 ->
  exists a z1 T1 w1 va, grown z T w z1 T1 w1 /\ (forall v, leaf T1 w1 v = leaf T w v) /\ avail z1 n /\ vpn va = vpn address /\ T1 !! [idx0 (vpn va)] = Some a /\
    let vmf := VmFault flags (linear_page_index vma address) va (a + 8 * pmd_index va) 0 None None None in
    _handle_mm_fault L vma ops R address flags w = match match ops with None => do_anonymous_page L vma vmf w1 | Some o => do_fault L vma o vmf w1 end with Ok ((r, _), w') => Ok (r, w') | Panic e => Panic e | Fault => Fault | NoFuel => NoFuel end.
Proof.
  intros H Hav Hn Hu Hl. set (va := Z.land address (u64 (Z.lnot (PAGE_SIZE - 1)))). pose proof (vpn_page address Hu) as Ev. fold va in Ev. destruct (same_vpn_index _ _ Ev) as (_ & Em). destruct (index_vpn address) as (E0 & _ & _). destruct (idx_range _ (vpn_range address)) as (I0 & _ & _).
  destruct (pmd_alloc_ok z T w n (idx0 (vpn address)) address false H Hav Hn I0) as (a & z1 & T1 & w1 & E & Hne & G & L1 & Hav1 & Ha). exists a, z1, T1, w1, va. repeat (split; [first [assumption|rewrite Ev; assumption]|]). cbv zeta.
  unfold _handle_mm_fault, __handle_mm_fault. cbn [vf_flags vf_pgoff vf_address]. fold va. unfold pgd_offset_pgd. rewrite E0. rewrite (bind_ok _ _ _ _ _ E). destruct (Z.eqb_spec (a + 8 * pmd_index address) 0); [contradiction|]. rewrite <- Em.
  unfold mbind at 1, st_bind at 1. rewrite (handle_pte_missing z1 T1 w1 vma ops _ a va (gr_ok _ _ _ _ _ _ G)); [|rewrite Ev; exact Ha|reflexivity|reflexivity|rewrite L1, Ev; exact Hl]. unfold set_vf_pte. cbn [vf_flags vf_pgoff vf_address vf_pmd vf_cow_page vf_page vf_prealloc].
  destruct (match ops with None => _ | Some _ => _ end) as [[[r v'] w']| | |]; reflexivity.
Qed.
Lemma page_mapped_trans z T w z1 T1 w1 v p e z2 T2 w2 : grown z T w z1 T1 w1 -> (forall v, leaf T1 w1 v = leaf T w v) -> page_mapped z1 T1 w1 v p e z2 T2 w2 -> page_mapped z T w v p e z2 T2 w2.
Proof.
  intros G L1 (G2 & P1 & P2 & P3 & P4). split; [eapply vm_grown_trans; eassumption|]. split; [apply (gr_free _ _ _ _ _ _ G), P1|]. split; [exact P2|]. split; [exact P3|]. intros u Hu. rewrite (P4 u Hu), L1. reflexivity.
Qed.

(** A page that was free is mapped where [address] lies; every other address translates as
    before, the tables are well formed, and only tables and free pages were written. *)
Definition mapped_fresh (z : zone) (T : gmap (list Z) Z) (w : vm_state) (address p e : Z) (w' : vm_state) : Prop :=
  exists z' T', vm_ok z' T' w' /\ free_page_in z p /\ ~ free_page_in z' p /\ (forall k a, T' !! k = Some a -> a <> lin p) /\
    (forall va, walk (vm_mem w') va = if decide (vpn va = vpn address) then Ok e else walk (vm_mem w) va) /\ forall x, ~ touched z T x -> vm_mem w' !! x = vm_mem w !! x.
Lemma page_mapped_walk z T w address p e z' T' w' : vm_ok z T w -> page_mapped z T w (vpn address) p e z' T' w' -> mapped_fresh z T w address p e w'.
Proof.
  intros H (G & P1 & P2 & P3 & P4). exists z', T'. split; [exact (gr_ok _ _ _ _ _ _ G)|]. repeat (split; [assumption|]). split; [|exact (gr_frame _ _ _ _ _ _ G)]. intros va. rewrite (walk_leaf z' T' w' va (gr_ok _ _ _ _ _ _ G)), (walk_leaf z T w va H). apply P4, vpn_range.
Qed.

End Spec.

(** ** New address spaces *)

Lemma bytes_of_region m p n : (forall x, p <= x < p + Z.of_nat n -> exists b, m !! x = Some b /\ byte_ok b) -> exists l, length l = n /\ Forall byte_ok l /\ bytes_at m p l.
Proof.
  revert p. induction n as [|n IH]; intros p H; [exists []; split; [reflexivity|split; [constructor|exact I]]|]. destruct (H p ltac:(lia)) as (b & Hb & Ob). destruct (IH (p + 1)) as (l & E & F & B); [intros x Hx; apply H; lia|]. exists (b :: l). split; [cbn; lia|]. split; [constructor; assumption|]. split; assumption.
Qed.
(** A copy of bytes to a place apart from them. *)
Lemma memcpy_region m d s n : 0 <= n -> (forall x, s <= x < s + n -> exists b, m !! x = Some b /\ byte_ok b) -> writable m d n -> s + n <= d \/ d + n <= s ->
  exists m', memcpy m d s n = Ok (d, m') /\ (forall i, 0 <= i < n -> m' !! (d + i) = m !! (s + i)) /\ eq_outside d n m m'.
Proof.
  intros Hn Hs Hd Hap. destruct (bytes_of_region m s (Z.to_nat n)) as (l & El & Fl & Bl); [intros x Hx; apply Hs; lia|]. assert (Z.of_nat (length l) = n) as Eln by lia. destruct (copy_up_ok l Fl m d s Bl) as (m' & E & B' & O); rewrite ?Eln; try assumption; [lia|]. exists m'. split; [unfold memcpy; rewrite <- El, E; reflexivity|]. rewrite Eln in O. split; [|exact O].
  intros i Hi. rewrite bytes_at_lookup in Bl, B'. destruct (lookup_lt_is_Some_2 l (Z.to_nat i) ltac:(lia)) as [b Hb]. rewrite <- (Z2Nat.id i) by lia. rewrite (Bl _ _ Hb), (B' _ _ Hb). reflexivity.
Qed.

Section NewSpace.
  Context (L : layout) (R : Z).

Lemma walk_below z T w r' va : vm_ok L R z T w -> load64 (vm_mem w) (r' + 8 * pgd_index va) = load64 (vm_mem w) (R + 8 * pgd_index va) -> walk L r' (vm_mem w) va = walk L R (vm_mem w) va.
Proof. intros H E. unfold walk. rewrite E. reflexivity. Qed.

(** With a free page, [pgd_alloc] makes the root of a new address space in which every user
    address is unmapped and every kernel address translates as in the kernel's space, whose
    own translations are unchanged. *)
Theorem pgd_alloc_shares z T w : vm_ok L R z T w -> avail z 1 -> (forall x, R <= x < R + PAGE_SIZE -> exists b, vm_mem w !! x = Some b /\ byte_ok b) ->
  exists p z' w', pgd_alloc L R w = Ok (lin L p, w') /\ free_page_in z p /\ ~ free_page_in z' p /\ vm_ok L R z' T w' /\
    forall va, walk L R (vm_mem w') va = walk L R (vm_mem w) va /\ walk L (lin L p) (vm_mem w') va = if decide (vpn va < 2 ^ 26) then Ok 0 else walk L R (vm_mem w) va.
Proof.
  intros H Hav Hbytes. destruct (fresh_page L R z T w (Z.land GFP_KERNEL (u32 (Z.lnot __GFP_HIGHMEM))) 0 H Hav ltac:(lia) ltac:(vm_compute; congruence)) as (p & z' & w1 & E & F & _ & Ep & P0 & _). destruct w1 as [s m].
  destruct (vk_off _ _ _ _ _ H) as [_ O2]. destruct (vk_table _ _ _ _ _ H [] R (vk_root _ _ _ _ _ H)) as (R0 & R1 & R2 & _). pose proof (pages_apart (lin L p) R (lin_aligned L p O2) R1 (fr_sep _ _ _ _ _ _ _ _ F [] R (vk_root _ _ _ _ _ H))) as Hap. pose proof (fr_mem _ _ _ _ _ _ _ _ F) as Hw. cbn [vm_mem] in Hw. change PAGE_SIZE with 4096 in Hap, Hw, Hbytes.
  destruct (memset_ok (Z.to_nat 2048) 0 m (lin L p)) as (m1 & E1 & Z1 & Z2); [intros x Hx; apply Hw; lia|]. change (Z.of_nat (Z.to_nat 2048)) with 2048 in Z1, Z2.
  assert (forall x, R <= x < R + 4096 -> m !! x = vm_mem w !! x) as HR. { intros x Hx. destruct (alloc_page_ok L R z T w (Z.land GFP_KERNEL (u32 (Z.lnot __GFP_HIGHMEM))) 0 H Hav ltac:(lia) ltac:(vm_compute; congruence)) as (p' & z'' & w'' & E'' & _ & _ & _ & _ & _ & Hm & _). rewrite E in E''. injection E'' as <- <-. apply Hm. change PAGE_SIZE with 4096. lia. }
  destruct (memcpy_region m1 (lin L p + 2048) (R + 2048) 2048) as (m2 & E2 & C1 & C2); [lia|intros x Hx; rewrite Z2, HR by lia; apply Hbytes; lia|intros x Hx; rewrite Z2 by lia; apply Hw; lia|lia|].
  assert (eq_outside (lin L p) PAGE_SIZE m m2) as Hm2 by (intros x Hx; change PAGE_SIZE with 4096 in Hx; rewrite C2, Z2 by lia; reflexivity).
  assert (fresh L R z T w p z' (VM s m2)) as F2. { apply (fresh_update L R z T w p z' (VM s m)); [exact F|exact (vk_buddy _ _ _ _ _ (gr_ok _ _ _ _ _ _ _ _ (fr_grown _ _ _ _ _ _ _ _ F)))|exact (fr_map _ _ _ _ _ _ _ _ F)|exact Hm2|]. intros x Hx. change PAGE_SIZE with 4096 in Hx. cbn [vm_mem]. destruct (decide (x < lin L p + 2048)); [rewrite C2, Z1 by lia; eauto|].
    replace x with (lin L p + 2048 + (x - lin L p - 2048)) by lia. rewrite C1 by lia. rewrite Z2, HR by lia. destruct (Hbytes (R + 2048 + (x - lin L p - 2048)) ltac:(lia)) as (b & -> & _). eauto. }
  pose proof (gr_ok _ _ _ _ _ _ _ _ (fr_grown _ _ _ _ _ _ _ _ F2)) as H2. exists p, z', (VM s m2). split; [|split; [exact (fr_was _ _ _ _ _ _ _ _ F)|split; [exact (fr_not _ _ _ _ _ _ _ _ F)|split; [exact H2|]]]].
  - unfold pgd_alloc. rewrite bind_get. unfold __get_free_pages. unfold alloc_pages in E. rewrite bind_get in E. destruct (__alloc_pages_nodemask _ _ _ _ _) as [[[q s'] m']| | |]; try discriminate E. cbn in E. injection E as -> -> ->. cbn [mbind outcome_bind]. rewrite (bind_lift _ _ _ _ eq_refl). cbv beta iota. rewrite Ep.
    rewrite (bind_ok _ _ _ tt (VM s m)) by reflexivity. destruct (Z.eqb_spec (lin L p) 0); [lia|]. cbn [negb]. change (USER_PTRS_PER_PGD * 8) with 2048. change (8 * USER_PTRS_PER_PGD) with 2048. change ((PTRS_PER_PGD - USER_PTRS_PER_PGD) * 8) with 2048. unfold memset. rewrite E1. cbn [mbind]. rewrite (bind_ok _ _ _ tt (VM s m2)); [reflexivity|]. rewrite (bind_lift _ _ _ _ eq_refl). rewrite E2. reflexivity.
  - intros va. assert (walk L R m2 va = walk L R (vm_mem w) va) as Esame. { change m2 with (vm_mem (VM s m2)). rewrite (walk_leaf _ _ _ _ _ va H2), (walk_leaf _ _ _ _ _ va H). apply (fr_leaf _ _ _ _ _ _ _ _ F2). }
    cbn [vm_mem]. split; [exact Esame|]. destruct (index_vpn va) as (E0 & _ & _). destruct (idx_range _ (vpn_range va)) as (I0 & _ & _). case_decide as D.
    + unfold walk. rewrite E0. assert (idx0 (vpn va) < 256) by (unfold idx0; apply Z.div_lt_upper_bound; lia). unfold load64. rewrite (load_le_zero 8) by (intros x Hx; cbn in Hx; rewrite C2, Z1 by lia; reflexivity). reflexivity.
    + rewrite <- Esame. apply (walk_below z' T (VM s m2) _ va H2). cbn [vm_mem]. rewrite E0. assert (256 <= idx0 (vpn va)) by (unfold idx0; apply Z.div_le_lower_bound; lia). set (i := idx0 (vpn va)) in *.
      apply load64_shift. intros o Ho. replace (lin L p + 8 * i + o) with (lin L p + 2048 + (8 * i + o - 2048)) by lia. rewrite C1 by lia. replace (R + 8 * i + o) with (R + 2048 + (8 * i + o - 2048)) by lia. rewrite C2 by lia. reflexivity.
Qed.
End NewSpace.
(** ** An empty address space *)

Definition ex_root : Z := 0x1000.
Definition ex_vm_mem : mem := map_seqZ ex_root (replicate (Z.to_nat 4096) 0) ∪ map_seqZ 0x80010000 (replicate (Z.to_nat 65536) 0).
Definition ex_linear : layout := Layout 0 0x80000 1024.
Definition ex_vm : vm_state := VM w_node ex_vm_mem.
Definition ex_tables : gmap (list Z) Z := {[ [] := ex_root ]}.

Lemma ex_zero x : ex_root <= x < ex_root + 4096 \/ 0x80010000 <= x < 0x80010000 + 65536 -> ex_vm_mem !! x = Some 0.
Proof.
  assert (forall s n y, s <= y < s + n -> (map_seqZ s (replicate (Z.to_nat n) 0) : mem) !! y = Some 0) as Hs by (intros s n y Hy; apply lookup_map_seqZ_Some; split; [lia|]; apply lookup_replicate; split; [reflexivity|lia]).
  intros [Hx|Hx]; unfold ex_vm_mem; [apply lookup_union_Some_l, Hs, Hx|]. rewrite lookup_union_r; [apply Hs, Hx|]. apply lookup_map_seqZ_None. right. rewrite length_replicate. unfold ex_root. lia.
Qed.
Lemma ex_free z p : blocks z = [(0x80010, 4)] -> free_page_in z p <-> 0x80010 <= p < 0x80020.
Proof. intros Hz. unfold free_page_in. rewrite Hz, Exists_cons, Exists_nil. unfold in_block. cbn [fst snd]. change (2 ^ 4) with 16. lia. Qed.
Lemma ex_vm_ok z : buddy_inv w_node z -> blocks z = [(0x80010, 4)] -> vm_ok ex_linear ex_root z ex_tables ex_vm.
Proof.
  intros Hb Hz. assert (forall k a, ex_tables !! k = Some a -> k = [] /\ a = ex_root) as HT by (intros k a Hk; unfold ex_tables in Hk; apply lookup_singleton_Some in Hk as [<- <-]; auto). split; try exact Hb; cbn [vm_mem ex_vm].
  - split; [cbn; lia|reflexivity].
  - intros p Hp. apply (ex_free z p Hz) in Hp. unfold frame_ok, lin. cbn [va_pa_offset ex_linear]. change PAGE_SIZE with 4096. split; [lia|]. intros x Hx. rewrite ex_zero by lia. eauto.
  - apply lookup_singleton_eq.
  - intros k a Hk. destruct (HT k a Hk) as [-> ->]. split; [reflexivity|]. split; [reflexivity|]. split; [intros x Hx; change PAGE_SIZE with 4096 in Hx; rewrite ex_zero by lia; eauto|]. intros p Hp. apply (ex_free z p Hz) in Hp. unfold lin, ex_root. cbn [va_pa_offset ex_linear]. change PAGE_SIZE with 4096. lia.
  - intros k a Hk Hne. destruct (HT k a Hk). contradiction.
  - intros k k' a Hk Hk'. destruct (HT k a Hk), (HT k' a Hk'). congruence.
  - intros k i a Hk. destruct (HT _ a Hk) as [Q _]. destruct k; discriminate Q.
  - intros k a i Hk _ Hi. destruct (HT k a Hk) as [-> ->]. rewrite (load_le_zero 8) by (intros x Hx; apply ex_zero; lia). unfold ex_tables. rewrite lookup_singleton_ne by discriminate. reflexivity.
Qed.
Lemma ex_avail z l : blocks z = [(0x80010, 4)] -> NoDup l -> Forall (fun p => 0x80010 <= p < 0x80020) l -> avail z (Z.of_nat (length l)).
Proof. intros Hz Hl HF. exists l. split; [exact Hl|]. split; [reflexivity|]. eapply Forall_impl; [exact HF|]. intros p Hp. apply (ex_free z p Hz), Hp. Qed.
Lemma ex_walk va : walk ex_linear ex_root ex_vm_mem va = Ok 0.
Proof.
  unfold walk. destruct (index_vpn va) as (-> & _ & _). destruct (idx_range _ (vpn_range va)) as (I0 & _ & _). unfold load64. rewrite (load_le_zero 8) by (intros x Hx; apply ex_zero; lia). reflexivity.
Qed.

Lemma pgd_alloc_shares_witness : exists p w', pgd_alloc ex_linear ex_root ex_vm = Ok (lin ex_linear p, w') /\ walk ex_linear (lin ex_linear p) (vm_mem w') 0x1234 = Ok 0.
Proof.
  destruct w_node_inv as (z & Bz & Hz). destruct (pgd_alloc_shares ex_linear ex_root z ex_tables ex_vm) as (p & z' & w' & E & _ & _ & _ & H).
  - exact (ex_vm_ok z Bz Hz).
  - apply (ex_avail z [0x80010] Hz); [apply (bool_decide_unpack _); reflexivity|repeat constructor; lia].
  - intros x Hx. exists 0. split; [apply ex_zero; left; exact Hx|split; [lia|reflexivity]].
  - exists p, w'. split; [exact E|]. apply H.
Defined.
