(* ===== verification/Ext2.v ===== *)
(** * ext2/*.c: the file system on disk

    Blocks of the device are read through the buffer cache: [sb_bread size b] is the address of
    the data of block [b], or none when it cannot be read, and [m] is memory with those buffers in
    it (nothing here writes them).  Pages of a directory come from the page
    cache in the same way ([read_mapping_page]).  A file of at most
    [12 + p + p^2 + p^3] blocks, [p] block numbers in a block, is reached through the 15 block numbers of its inode. *)

From Stdlib Require Import ZArith Lia Bool.
From stdpp Require Import base tactics numbers list gmap strings.
From S2P Require Import Prelude Words Mem LibString OfTree OpenFile.

Definition EIO : Z := 5.
Definition EAGAIN : Z := 11.
Definition ESTALE : Z := 116.
Definition S_ISREG (mode : Z) : bool := Z.land mode S_IFMT =? S_IFREG.
Definition S_ISDIR (mode : Z) : bool := Z.land mode S_IFMT =? S_IFDIR.
Definition BLOCK_SIZE : Z := Z.shiftl 1 10.

Definition EXT2_SUPER_MAGIC : Z := 0xEF53.
Definition EXT2_NAME_LEN : Z := 255.
Definition EXT2_ROOT_INO : Z := 2.
Definition EXT2_NDIR_BLOCKS : Z := 12.
Definition EXT2_IND_BLOCK : Z := EXT2_NDIR_BLOCKS.
Definition EXT2_DIND_BLOCK : Z := EXT2_IND_BLOCK + 1.
Definition EXT2_TIND_BLOCK : Z := EXT2_DIND_BLOCK + 1.
Definition EXT2_N_BLOCKS : Z := EXT2_TIND_BLOCK + 1.
Definition EXT2_GOOD_OLD_REV : Z := 0.
Definition EXT2_GOOD_OLD_INODE_SIZE : Z := 128.
Definition EXT2_DIR_ROUND : Z := 4 - 1.
Definition EXT2_DIR_REC_LEN (name_len : Z) : Z := Z.land (name_len + 8 + EXT2_DIR_ROUND) (Z.lnot EXT2_DIR_ROUND).

(** Fields of the structures on disk, at their offsets. *)
Definition load16 (m : mem) (p : Z) : outcome Z := load_le 2 m p.
Definition load32 (m : mem) (p : Z) : outcome Z := load_le 4 m p.
Definition de_inode (m : mem) (de : Z) : outcome Z := load32 m de.
Definition de_rec_len (m : mem) (de : Z) : outcome Z := load16 m (de + 4).
Definition de_name_len (m : mem) (de : Z) : outcome Z := load8 m (de + 6).
Definition de_name (de : Z) : Z := de + 8.
Definition s_blocks_count (m : mem) (es : Z) : outcome Z := load32 m (es + 4).
Definition s_first_data_block (m : mem) (es : Z) : outcome Z := load32 m (es + 20).
Definition s_log_block_size (m : mem) (es : Z) : outcome Z := load32 m (es + 24).
Definition es_blocks_per_group (m : mem) (es : Z) : outcome Z := load32 m (es + 32).
Definition es_inodes_per_group (m : mem) (es : Z) : outcome Z := load32 m (es + 40).
Definition s_magic (m : mem) (es : Z) : outcome Z := load16 m (es + 56).
Definition s_rev_level (m : mem) (es : Z) : outcome Z := load32 m (es + 76).
Definition es_inode_size (m : mem) (es : Z) : outcome Z := load16 m (es + 88).
Definition SIZEOF_GROUP_DESC : Z := 32.
Definition bg_inode_table (m : mem) (gdp : Z) : outcome Z := load32 m (gdp + 8).
Definition raw_i_mode (m : mem) (p : Z) : outcome Z := load16 m p.
Definition raw_i_size (m : mem) (p : Z) : outcome Z := load32 m (p + 4).
Definition raw_i_blocks (m : mem) (p : Z) : outcome Z := load32 m (p + 28).
Definition raw_i_block (m : mem) (p n : Z) : outcome Z := load32 m (p + 40 + 4 * n).

Record ext2_sb_info := SbInfo {
  s_sb_block : Z; s_inodes_per_group : Z; s_blocks_per_group : Z; s_desc_per_block : Z; s_groups_count : Z; s_es : Z;
  s_desc_per_block_bits : Z; s_inode_size : Z; s_group_desc : list Z; s_addr_per_block_bits : Z }.
(** [struct super_block] with [s_fs_info]. *)
Record super_block := SuperBlock { s_blocksize_bits : Z; s_blocksize : Z; EXT2_SB : ext2_sb_info }.
(** The tables of operations that [ext2_iget] installs. *)
Inductive i_ops := NoOps | FileOps | DirOps.
(** [struct ext2_inode_info] with the fields of [vfs_inode] that are used. *)
Record ext2_inode_info := InodeInfo {
  i_data : list Z; i_dir_start_lookup : Z; i_mode : Z; i_ino : Z; i_size : Z; i_blkbits : Z; i_blocks : Z; i_state : Z; i_op : i_ops }.
Definition I_NEW : Z := Z.shiftl 1 3.

Definition EXT2_BLOCK_SIZE (sb : super_block) : Z := s_blocksize sb.
Definition EXT2_BLOCK_SIZE_BITS (sb : super_block) : Z := s_blocksize_bits sb.
Definition EXT2_ADDR_PER_BLOCK (sb : super_block) : Z := s_blocksize sb / 4.
Definition EXT2_ADDR_PER_BLOCK_BITS (sb : super_block) : Z := s_addr_per_block_bits (EXT2_SB sb).
Definition EXT2_INODES_PER_GROUP (sb : super_block) : Z := s_inodes_per_group (EXT2_SB sb).
Definition EXT2_BLOCKS_PER_GROUP (sb : super_block) : Z := s_blocks_per_group (EXT2_SB sb).
Definition EXT2_DESC_PER_BLOCK (sb : super_block) : Z := s_desc_per_block (EXT2_SB sb).
Definition EXT2_DESC_PER_BLOCK_BITS (sb : super_block) : Z := s_desc_per_block_bits (EXT2_SB sb).
Definition EXT2_INODE_SIZE (sb : super_block) : Z := s_inode_size (EXT2_SB sb).

(** ** Which block of the tree *)

(** The offsets on the way and the number of further blocks in the last table. *)
Definition ext2_block_to_path (sb : super_block) (i_block : Z) : outcome (list Z * Z) :=
  let ptrs := EXT2_ADDR_PER_BLOCK sb in
  let ptrs_bits := EXT2_ADDR_PER_BLOCK_BITS sb in
  let direct_blocks := EXT2_NDIR_BLOCKS in
  let indirect_blocks := ptrs in
  let double_blocks := s32 (Z.shiftl 1 (ptrs_bits * 2)) in
  let ret i_block offsets final := Ok (offsets, final - 1 - Z.land i_block (ptrs - 1)) in
  if i_block <? 0 then Panic "i_block < 0"
  else if i_block <? direct_blocks then ret i_block [i_block] direct_blocks
  else
    let i_block := i_block - direct_blocks in
    if i_block <? indirect_blocks then ret i_block [EXT2_IND_BLOCK; i_block] ptrs
    else
      let i_block := i_block - indirect_blocks in
      if i_block <? double_blocks then ret i_block [EXT2_DIND_BLOCK; Z.shiftr i_block ptrs_bits; Z.land i_block (ptrs - 1)] ptrs
      else
        let i_block := i_block - double_blocks in
        if Z.shiftr i_block (ptrs_bits * 2) <? ptrs then
          ret i_block [EXT2_TIND_BLOCK; Z.shiftr i_block (ptrs_bits * 2); Z.land (Z.shiftr i_block ptrs_bits) (ptrs - 1); Z.land i_block (ptrs - 1)] ptrs
        else Panic "i_block(%lu) is too big".

(** [blksize_bits], a loop that ends after at most 24 rounds on 32 bits. *)
Fixpoint blksize_bits_loop (f : nat) (bits size : Z) : Z :=
  match f with
  | O => bits
  | S f => let bits := bits + 1 in let size := Z.shiftr size 1 in if 256 <? size then blksize_bits_loop f bits size else bits
  end.
Definition blksize_bits (size : Z) : Z := blksize_bits_loop 24 8 size.
Definition set_blocksize (logical_block_size size : Z) : Z :=
  if (PAGE_SIZE <? size) || (size <? 512) || negb (is_power_of_2 size) then - EINVAL
  else if size <? logical_block_size then - EINVAL
  else 0.
(** The block size and its bits that the super block has afterwards, with the result. *)
Definition sb_set_blocksize (lbs : Z) (old : Z * Z) (size : Z) : Z * (Z * Z) :=
  if negb (set_blocksize lbs size =? 0) then (0, old) else (size, (size, blksize_bits size)).
Definition sb_min_blocksize (lbs : Z) (old : Z * Z) (size : Z) : Z * (Z * Z) :=
  let minsize := lbs in
  let size := if size <? minsize then minsize else size in
  sb_set_blocksize lbs old size.

Section Ext2.
  Context (m : mem) (sb_bread : Z -> Z -> option Z).
  (** The address of page [n] of the data of an inode, or none for an error. *)
  Context (read_mapping_page : ext2_inode_info -> Z -> option Z).
  (** The inode of the cache, or a new one with [I_NEW]. *)
  Context (iget_locked : Z -> option ext2_inode_info).

(** A place that holds a block number: an entry of [i_data] or a word of a buffer. *)
Inductive place := InInode (n : Z) | InBuffer (p : Z).
Definition next_place (p : place) (k : Z) : place := match p with InInode n => InInode (n + k) | InBuffer a => InBuffer (a + 4 * k) end.
Definition read_place (inode : ext2_inode_info) (p : place) : outcome Z :=
  match p with InInode n => deref (i_data inode !! Z.to_nat n) | InBuffer a => load32 m a end.
Record Indirect := MkIndirect { ind_p : place; ind_key : Z }.
Definition add_chain (inode : ext2_inode_info) (v : place) : outcome Indirect := key ← read_place inode v; Ok (MkIndirect v key).
Fixpoint verify_chain (inode : ext2_inode_info) (chain : list Indirect) : outcome bool :=
  match chain with
  | [] => Ok true
  | c :: chain => v ← read_place inode (ind_p c); if v =? ind_key c then verify_chain inode chain else Ok false
  end.
(** The rest of the chain below [p], which is the last of [chain]. *)
Fixpoint branch_loop (sb : super_block) (inode : ext2_inode_info) (offsets : list Z) (p : Indirect) (chain : list Indirect) : outcome (list Indirect) :=
  match offsets with
  | [] => Ok chain
  | o :: offsets =>
      match sb_bread (s_blocksize sb) (ind_key p) with
      | None => Panic "bread error!"
      | Some b_data =>
          ok ← verify_chain inode chain;
          if negb ok then Panic "changed!"
          else
            p ← add_chain inode (InBuffer (b_data + 4 * o));
            if ind_key p =? 0 then Panic "no block!" else branch_loop sb inode offsets p (chain ++ [p])
      end
  end.
Definition ext2_get_branch (sb : super_block) (inode : ext2_inode_info) (offsets : list Z) : outcome (list Indirect) :=
  match offsets with
  | [] => Fault
  | o :: offsets =>
      p ← add_chain inode (InInode o);
      if ind_key p =? 0 then Panic "no block!" else branch_loop sb inode offsets p [p]
  end.

Fixpoint count_loop (f : nat) (inode : ext2_inode_info) (chain : list Indirect) (last : Indirect) (maxblocks blocks_to_boundary count : Z) : outcome (option Z) :=
  match f with
  | O => NoFuel
  | S f =>
      if (count <? maxblocks) && (count <=? blocks_to_boundary) then
        ok ← verify_chain inode chain;
        if negb ok then Ok None
        else
          blk ← read_place inode (next_place (ind_p last) count);
          if blk =? u64 (ind_key last + count) then count_loop f inode chain last maxblocks blocks_to_boundary (count + 1) else Ok (Some count)
      else Ok (Some count)
  end.
(** The number of blocks, the first of them, and whether the next one is in another table. *)
Definition ext2_get_blocks (sb : super_block) (inode : ext2_inode_info) (iblock maxblocks : Z) : outcome (Z * Z * bool) :=
  bug_on (maxblocks =? 0) "BUG_ON";;
  '(offsets, blocks_to_boundary) ← ext2_block_to_path sb (s64 iblock);
  chain ← ext2_get_branch sb inode offsets;
  last ← deref (list.last chain);
  r ← count_loop (S (Z.to_nat (EXT2_ADDR_PER_BLOCK sb + EXT2_NDIR_BLOCKS))) inode chain last maxblocks blocks_to_boundary 1;
  match r with
  | None => Panic "%s: !"
  | Some count => Ok (count, ind_key last, blocks_to_boundary <? count)
  end.
(** The fields of the buffer that the caller reads: the device block, the size and the flag. *)
Record bh_map := BhMap { b_blocknr : Z; b_size : Z; b_boundary : bool }.
Definition ext2_get_block (sb : super_block) (inode : ext2_inode_info) (iblock b_size : Z) : outcome bh_map :=
  let max_blocks := u32 (Z.shiftr b_size (i_blkbits inode)) in
  '(ret, bno, boundary) ← ext2_get_blocks sb inode iblock max_blocks;
  Ok (BhMap bno (u64 (s32 (Z.shiftl ret (i_blkbits inode)))) boundary).

(** ** Inodes *)

Definition ext2_get_group_desc (sb : super_block) (block_group : Z) : outcome Z :=
  let block_group := u32 block_group in
  if s_groups_count (EXT2_SB sb) <=? block_group then Panic "block_group = %d, groups_count = %lu"
  else
    let group_desc := Z.shiftr block_group (EXT2_DESC_PER_BLOCK_BITS sb) in
    let offset := Z.land block_group (u64 (EXT2_DESC_PER_BLOCK sb - 1)) in
    b_data ← deref (s_group_desc (EXT2_SB sb) !! Z.to_nat group_desc);
    Ok (b_data + SIZEOF_GROUP_DESC * offset).
(** The address of the inode in its buffer. *)
Definition ext2_get_inode (sb : super_block) (ino : Z) : outcome Z :=
  let ipg := EXT2_INODES_PER_GROUP sb in
  if ipg =? 0 then Fault
  else
    let block_group := u64 (ino - 1) / ipg in
    gdp ← ext2_get_group_desc sb block_group;
    let offset := u64 ((u64 (ino - 1) mod ipg) * EXT2_INODE_SIZE sb) in
    table ← bg_inode_table m gdp;
    let block := u64 (table + Z.shiftr offset (EXT2_BLOCK_SIZE_BITS sb)) in
    match sb_bread (s_blocksize sb) block with
    | None => Panic "bad io!"
    | Some b_data => Ok (b_data + Z.land offset (u64 (EXT2_BLOCK_SIZE sb - 1)))
    end.
Fixpoint read_blocks (n : nat) (raw i : Z) : outcome (list Z) :=
  match n with
  | O => Ok []
  | S n => b ← raw_i_block m raw i; l ← read_blocks n raw (i + 1); Ok (b :: l)
  end.
(** The inode, or an error number. *)
Definition ext2_iget (sb : super_block) (ino : Z) : outcome (Z + ext2_inode_info) :=
  match iget_locked ino with
  | None => Ok (inl (- ENOMEM))
  | Some inode =>
      if Z.land (i_state inode) I_NEW =? 0 then Ok (inr inode)
      else
        raw ← ext2_get_inode sb ino;
        mode ← raw_i_mode m raw;
        size ← raw_i_size m raw;
        blocks ← raw_i_blocks m raw;
        data ← read_blocks (Z.to_nat EXT2_N_BLOCKS) raw 0;
        op ← (if S_ISREG mode then Ok FileOps else if S_ISDIR mode then Ok DirOps else Panic "unknown file!");
        Ok (inr (InodeInfo data (i_dir_start_lookup inode) mode (i_ino inode) size (i_blkbits inode) blocks (i_state inode) op))
  end.

(** ** Directories *)

Definition dir_pages (inode : ext2_inode_info) : Z := Z.shiftr (u64 (i_size inode + PAGE_SIZE - 1)) PAGE_SHIFT.
Definition ext2_last_byte (inode : ext2_inode_info) (page_nr : Z) : Z :=
  let last_byte := u32 (i_size inode) in
  let last_byte := u32 (last_byte - u64 (Z.shiftl page_nr PAGE_SHIFT)) in
  if PAGE_SIZE <? last_byte then PAGE_SIZE else last_byte.
Definition ext2_match (len name de : Z) : outcome bool :=
  l ← de_name_len m de;
  if negb (len =? l) then Ok false
  else
    ino ← de_inode m de;
    if ino =? 0 then Ok false else r ← memcmp m name (de_name de) len; Ok (r =? 0).
Definition ext2_next_entry (p : Z) : outcome Z := r ← de_rec_len m p; Ok (p + r).
(** The entry of the page, if it has one up to [limit]; every step is at least one byte. *)
Fixpoint page_loop (f : nat) (namelen name de limit : Z) : outcome (option Z) :=
  match f with
  | O => NoFuel
  | S f =>
      if de <=? limit then
        r ← de_rec_len m de;
        if r =? 0 then Panic "zero-length directory entry"
        else
          found ← ext2_match namelen name de;
          if (found : bool) then Ok (Some de) else de ← ext2_next_entry de; page_loop f namelen name de limit
      else Ok None
  end.
(** The entry and its page, or none when every page was searched. *)
Fixpoint pages_loop (f : nat) (dir : ext2_inode_info) (namelen name reclen npages start n : Z) : outcome (option (Z * Z)) :=
  match f with
  | O => NoFuel
  | S f =>
      kaddr ← match read_mapping_page dir n with Some a => Ok a | None => Panic "bad page!" end;
      r ← page_loop (S (Z.to_nat PAGE_SIZE)) namelen name kaddr (kaddr + u32 (ext2_last_byte dir n - reclen));
      match r with
      | Some de => Ok (Some (de, n))
      | None =>
          let n := if npages <=? n + 1 then 0 else n + 1 in
          if Z.shiftr (i_blocks dir) (PAGE_SHIFT - 9) <? n then Panic "dir %lu size %ld exceeds block count %lu"
          else if negb (n =? start) then pages_loop f dir namelen name reclen npages start n else Ok None
      end
  end.
(** The entry or an error, and the directory with the page to start at next time. *)
Definition ext2_find_entry (dir : ext2_inode_info) (name namelen : Z) : outcome ((Z + Z) * ext2_inode_info) :=
  let npages := dir_pages dir in
  let reclen := EXT2_DIR_REC_LEN namelen in
  if npages =? 0 then Ok (inl (- ENOENT), dir)
  else
    let start := if npages <=? i_dir_start_lookup dir then 0 else i_dir_start_lookup dir in
    r ← pages_loop (S (Z.to_nat npages)) dir namelen name reclen npages start start;
    match r with
    | None => Ok (inl (- ENOENT), dir)
    | Some (de, n) => Ok (inr de, InodeInfo (i_data dir) (u32 n) (i_mode dir) (i_ino dir) (i_size dir) (i_blkbits dir) (i_blocks dir) (i_state dir) (i_op dir))
    end.
Definition ext2_inode_by_name (dir : ext2_inode_info) (name namelen : Z) : outcome ((Z + Z) * ext2_inode_info) :=
  '(r, dir) ← ext2_find_entry dir name namelen;
  match r with
  | inl e => Ok (inl e, dir)
  | inr de => ino ← de_inode m de; Ok (inr ino, dir)
  end.
(** The error, or the inode that is attached to the directory entry (none for a negative one). *)
Definition ext2_lookup (sb : super_block) (dir : ext2_inode_info) (name namelen : Z) : outcome ((Z + option ext2_inode_info) * ext2_inode_info) :=
  if EXT2_NAME_LEN <? namelen then Ok (inl (- ENAMETOOLONG), dir)
  else
    '(r, dir) ← ext2_inode_by_name dir name namelen;
    match r with
    | inl e => Ok (if negb (e =? - ENOENT) then inl e else inr None, dir)
    | inr ino =>
        i ← ext2_iget sb ino;
        match i with
        | inl e => if e =? - ESTALE then Panic "deleted inode referenced: %lu" else Ok (inl e, dir)
        | inr inode => Ok (inr (Some inode), dir)
        end
    end.

(** ** The super block *)

Definition descriptor_loc (logic_sb_block nr : Z) : Z := u64 (logic_sb_block + nr + 1).
Fixpoint read_descs (n : nat) (size logic_sb_block i : Z) : outcome (list Z) :=
  match n with
  | O => Ok []
  | S n =>
      match sb_bread size (descriptor_loc logic_sb_block i) with
      | None => Panic "unable to read group descriptors"
      | Some b => l ← read_descs n size logic_sb_block (i + 1); Ok (b :: l)
      end
  end.
(** A shift of [int] by at least its width is undefined. *)
Definition shl32 (x k : Z) : outcome Z := if 32 <=? k then Fault else Ok (s32 (Z.shiftl x k)).
(** The super block is read again when its block size is not that of the first read. *)
Definition reread_super (lbs : Z) (szs : Z * Z) (blocksize es logic_sb_block : Z) : outcome (Z * (Z * Z) * Z) :=
  let sb_block := 1 in
  if negb (szs.1 =? u64 blocksize) then
    let '(r, szs) := sb_set_blocksize lbs szs blocksize in
    if r =? 0 then Panic "bad blocksize %d"
    else
      let logic_sb_block := (sb_block * BLOCK_SIZE) / blocksize in
      let offset := (sb_block * BLOCK_SIZE) mod blocksize in
      match sb_bread szs.1 logic_sb_block with
      | None => Panic "couldn't readsuperblock on 2nd try"
      | Some b_data =>
          let es := b_data + offset in
          magic ← s_magic m es;
          if negb (magic =? EXT2_SUPER_MAGIC) then Panic "magic mismatch" else Ok (es, szs, logic_sb_block)
      end
  else Ok (es, szs, logic_sb_block).
(** [data] is null; [lbs] is the block size of the device and [old] the block size of the super
    block before.  The result is the super block and the inode of the root. *)
Definition ext2_fill_super (lbs : Z) (old : Z * Z) : outcome (super_block * ext2_inode_info) :=
  let sb_block := 1 in
  let '(blocksize, szs) := sb_min_blocksize lbs old BLOCK_SIZE in
  if blocksize =? 0 then Panic "error: unable to set blocksize"
  else
    let '(logic_sb_block, offset) := if negb (blocksize =? BLOCK_SIZE) then ((sb_block * BLOCK_SIZE) / blocksize, (sb_block * BLOCK_SIZE) mod blocksize) else (sb_block, 0) in
    match sb_bread szs.1 logic_sb_block with
    | None => Panic "error: unable to read superblock"
    | Some b_data =>
        let es := b_data + offset in
        lg ← s_log_block_size m es;
        blocksize ← shl32 BLOCK_SIZE lg;
        '(es, szs, logic_sb_block) ← reread_super lbs szs blocksize es logic_sb_block;
        rev ← s_rev_level m es;
        if rev =? EXT2_GOOD_OLD_REV then Panic "bad s_rev_level!"
        else
          isize ← es_inode_size m es;
          if (isize <? EXT2_GOOD_OLD_INODE_SIZE) || negb (is_power_of_2 isize) || (blocksize <? isize) then Panic "unsupported inode size: %d"
          else
            ipg ← es_inodes_per_group m es;
            bpg ← es_blocks_per_group m es;
            let dpb := szs.1 / SIZEOF_GROUP_DESC in
            if bpg =? 0 then Panic "can not find blocks per group!"
            else
              bc ← s_blocks_count m es; fd ← s_first_data_block m es;
              let groups := u64 (u32 (bc - fd - 1) / bpg + 1) in
              let db_count := s32 ((u64 (groups + dpb - 1)) / dpb) in
              descs ← read_descs (Z.to_nat db_count) szs.1 logic_sb_block 0;
              let sb := SuperBlock szs.2 szs.1 (SbInfo sb_block ipg bpg dpb groups es (__ilog2_u64 dpb) isize descs (__ilog2_u64 (szs.1 / 4))) in
              root ← ext2_iget sb EXT2_ROOT_INO;
              match root with
              | inl e => Panic "can not get root inode! (%d)!"
              | inr root =>
                  if negb (S_ISDIR (i_mode root)) || (i_blocks root =? 0) || (i_size root =? 0) then Panic "error: corrupt root inode, run e2fsck" else Ok (sb, root)
              end
    end.
End Ext2.
