(* ===== verification/Ext2Spec.v ===== *)
(** * The file system on disk: what the routines of ext2 find

    [tree_path] and [file_block] define where a block of a file lies, [dir_search] which
    entry a name has in a directory, [sb_ok] what mounting establishes.  The theorems say that
    the routines of [Ext2] compute these. *)

From Stdlib Require Import ZArith Lia Bool.
From stdpp Require Import base tactics numbers list gmap strings.
From S2P Require Import Prelude Words Mem LibString OfTree Ext2.

(** ** The super block in memory *)

Record sb_ok (sb : super_block) (k : Z) : Prop := {
  so_range : 7 <= k <= 10;
  so_size : s_blocksize sb = 4 * 2 ^ k;
  so_size_bits : s_blocksize_bits sb = k + 2;
  so_addr_bits : s_addr_per_block_bits (EXT2_SB sb) = k;
  so_desc : s_desc_per_block (EXT2_SB sb) = 2 ^ (k - 3);
  so_desc_bits : s_desc_per_block_bits (EXT2_SB sb) = k - 3;
  so_inode : exists j, 7 <= j <= k + 2 /\ s_inode_size (EXT2_SB sb) = 2 ^ j }.

Lemma addr_per_block sb k : sb_ok sb k -> EXT2_ADDR_PER_BLOCK sb = 2 ^ k.
Proof. intros H. unfold EXT2_ADDR_PER_BLOCK. rewrite (so_size _ _ H), Z.mul_comm, Z.div_mul by lia. reflexivity. Qed.

(** ** The tree of blocks of a file *)

Definition file_limit (p : Z) : Z := 12 + p + p * p + p * p * p.
(** The entries on the way to block [i], with [p] numbers in a block. *)
Definition tree_path (p i : Z) : list Z :=
  if decide (i < 12) then [i]
  else if decide (i < 12 + p) then [12; i - 12]
  else if decide (i < 12 + p + p * p) then let j := i - 12 - p in [13; j / p; j mod p]
  else let j := i - 12 - p - p * p in [14; j / (p * p); (j / p) mod p; j mod p].
(** Blocks after [i] in the same table. *)
Definition run_left (p i : Z) : Z := if decide (i < 12) then 11 - i else p - 1 - (i - 12) mod p.
(** The block that a path leads to. *)
Definition path_block (p : Z) (offs : list Z) : Z :=
  match offs with
  | [a] => a
  | [_; a] => 12 + a
  | [_; a; b] => 12 + p + (a * p + b)
  | [_; a; b; c] => 12 + p + p * p + ((a * p + b) * p + c)
  | _ => -1
  end.
Definition path_ok (p : Z) (offs : list Z) : Prop :=
  match offs with
  | [] => False
  | o :: os => (length os <= 3)%nat /\ Forall (fun x => 0 <= x < p) os /\ match os with [] => 0 <= o < 12 | _ => o = 11 + Z.of_nat (length os) end
  end.

Lemma low_bits x k : 0 <= k -> Z.land x (2 ^ k - 1) = x mod 2 ^ k.
Proof. apply land_ones_mod. Qed.
Lemma mod_sub_mul a b p : 0 < p -> (a - b * p) mod p = a mod p.
Proof. intros Hp. replace (a - b * p) with (a + (- b) * p) by lia. apply Z.mod_add. lia. Qed.

Lemma block_to_path_spec sb k i : sb_ok sb k -> 0 <= i < file_limit (2 ^ k) -> ext2_block_to_path sb i = Ok (tree_path (2 ^ k) i, run_left (2 ^ k) i).
Proof.
  intros H Hi. unfold ext2_block_to_path. rewrite (addr_per_block sb k H). unfold EXT2_ADDR_PER_BLOCK_BITS. rewrite (so_addr_bits _ _ H). pose proof (so_range _ _ H) as Hk. set (p := 2 ^ k) in *. assert (128 <= p <= 1024) as Hp by (unfold p; split; [apply (Z.pow_le_mono_r 2 7 k)|apply (Z.pow_le_mono_r 2 k 10)]; lia).
  assert (2 ^ (k * 2) = p * p) as Epp by (unfold p; rewrite <- Z.pow_add_r by lia; f_equal; lia). assert (p * p <= 1024 * 1024) as Hpp by nia. rewrite Z.shiftl_1_l, Epp. rewrite (s32_small (p * p)) by lia.
  unfold EXT2_NDIR_BLOCKS, EXT2_IND_BLOCK, EXT2_DIND_BLOCK, EXT2_TIND_BLOCK, EXT2_NDIR_BLOCKS. rewrite !Z.shiftr_div_pow2 by lia. rewrite Epp. fold p. assert (forall x, Z.land x (p - 1) = x mod p) as El by (intros x; apply land_ones_mod; lia). rewrite !El.
  unfold tree_path, run_left, file_limit in *. destruct (Z.ltb_spec i 0); [lia|]. destruct (Z.ltb_spec i 12); [rewrite !decide_True by lia; do 2 f_equal; rewrite Z.mod_small; lia|]. rewrite !(decide_False (P := i < 12)) by lia.
  destruct (Z.ltb_spec (i - 12) p); [rewrite decide_True by lia; reflexivity|]. rewrite (decide_False (P := i < 12 + p)) by lia. assert (forall y, (i - 12 - y * p) mod p = (i - 12) mod p) as Em by (intros y; apply mod_sub_mul; lia).
  destruct (Z.ltb_spec (i - 12 - p) (p * p)); [rewrite decide_True by lia; do 2 f_equal; rewrite <- (Em 1); do 2 f_equal; lia|]. rewrite decide_False by lia.
  destruct (Z.ltb_spec ((i - 12 - p - p * p) / (p * p)) p) as [_|Hbig]; [|exfalso; revert Hbig; apply Z.lt_nge, Z.div_lt_upper_bound; nia]. do 2 f_equal. rewrite <- (Em (1 + p)). do 2 f_equal. lia.
Qed.

Lemma path_in_range p i : 0 < p -> 0 <= i < file_limit p -> path_ok p (tree_path p i) /\ path_block p (tree_path p i) = i.
Proof.
  intros Hp Hi. unfold tree_path, file_limit in *. repeat case_decide; cbn [path_ok path_block length]; rewrite ?Forall_cons, ?Forall_nil; try (split; [repeat split; lia|lia]).
  - set (j := i - 12 - p). assert (0 <= j < p * p) as Hj by lia. pose proof (Z.mod_pos_bound j p Hp). pose proof (Z.div_mod j p ltac:(lia)). assert (0 <= j / p < p) by (split; [apply Z.div_pos; lia|apply Z.div_lt_upper_bound; lia]). split; [repeat split; lia|]. lia.
  - set (j := i - 12 - p - p * p). assert (0 <= j < p * p * p) as Hj by lia. pose proof (Z.mod_pos_bound j p Hp). pose proof (Z.mod_pos_bound (j / p) p Hp). pose proof (Z.div_mod j p ltac:(lia)). pose proof (Z.div_mod (j / p) p ltac:(lia)). rewrite <- (Z.div_div j p p) by lia.
    assert (0 <= j / p) by (apply Z.div_pos; lia). assert (0 <= j / p / p < p) by (split; [apply Z.div_pos; lia|rewrite Z.div_div by lia; apply Z.div_lt_upper_bound; lia]). split; [repeat split; lia|]. nia.
Qed.
(** Within the last table only the last entry of the path changes. *)
Lemma div_mod_within j p t : 0 < p -> 0 <= t -> j mod p + t < p -> (j + t) / p = j / p /\ (j + t) mod p = j mod p + t.
Proof. intros Hp Ht H. pose proof (Z.div_mod j p ltac:(lia)). pose proof (Z.mod_pos_bound j p Hp). split; symmetry; [apply (Z.div_unique _ _ _ (j mod p + t))|apply (Z.mod_unique _ _ (j / p))]; lia. Qed.
Lemma path_run p i : 0 < p -> 0 <= i < file_limit p -> exists pre o, 0 <= o /\ 0 <= run_left p i /\ o + run_left p i = (if decide (pre = []) then 11 else p - 1) /\ forall t, 0 <= t <= run_left p i -> tree_path p (i + t) = pre ++ [o + t].
Proof.
  intros Hp Hi. pose proof (Z.mod_pos_bound (i - 12) p Hp) as Hm. unfold run_left. destruct (decide (i < 12)) as [D|D].
  { exists [], i. split; [lia|]. split; [lia|]. split; [rewrite decide_True by reflexivity; lia|]. intros t Ht. unfold tree_path. rewrite decide_True by lia. reflexivity. }
  assert (forall j, j mod p = (i - 12) mod p -> 0 <= j mod p /\ j mod p + (p - 1 - (i - 12) mod p) = p - 1) as Hlast by lia. destruct (decide (i < 12 + p)) as [D1|D1].
  - exists [12], (i - 12). rewrite (Z.mod_small (i - 12)) by lia. split; [lia|]. split; [lia|]. split; [rewrite decide_False by discriminate; lia|]. intros t Ht. unfold tree_path. rewrite decide_False, decide_True by lia. cbn. f_equal. f_equal. lia.
  - destruct (decide (i < 12 + p + p * p)) as [D2|D2].
    + set (j := i - 12 - p). assert (j mod p = (i - 12) mod p) as Ej by (unfold j; rewrite <- (mod_sub_mul (i - 12) 1 p) by lia; f_equal; lia). exists [13; j / p], (j mod p). destruct (Hlast j Ej). split; [lia|]. split; [lia|]. split; [rewrite decide_False by discriminate; lia|]. intros t Ht.
      destruct (div_mod_within j p t ltac:(lia) ltac:(lia) ltac:(lia)) as [E1 E2]. pose proof (Z.div_mod j p ltac:(lia)). assert (j / p < p) by (apply Z.div_lt_upper_bound; lia). unfold tree_path. rewrite decide_False, decide_False, decide_True by nia. replace (i + t - 12 - p) with (j + t) by lia. rewrite E1, E2. reflexivity.
    + set (j := i - 12 - p - p * p). assert (j mod p = (i - 12) mod p) as Ej by (unfold j; rewrite <- (mod_sub_mul (i - 12) (1 + p) p) by lia; f_equal; lia). exists [14; j / (p * p); (j / p) mod p], (j mod p). destruct (Hlast j Ej). split; [lia|]. split; [lia|]. split; [rewrite decide_False by discriminate; lia|]. intros t Ht.
      destruct (div_mod_within j p t ltac:(lia) ltac:(lia) ltac:(lia)) as [E1 E2]. unfold tree_path. rewrite decide_False, decide_False, decide_False by lia. replace (i + t - 12 - p - p * p) with (j + t) by lia. rewrite E2. rewrite <- !(Z.div_div _ p p) by lia. rewrite E1. reflexivity.
Qed.

Lemma run_limit p i t : 0 < p -> 0 <= i < file_limit p -> 0 <= t <= run_left p i -> i + t < file_limit p /\ run_left p (i + t) = run_left p i - t.
Proof.
  intros Hp Hi Ht. unfold run_left, file_limit in *. destruct (decide (i < 12)); [split; [nia|rewrite decide_True by lia; lia]|]. rewrite (decide_False (P := i + t < 12)) by lia. destruct (div_mod_within (i - 12) p t Hp ltac:(lia) ltac:(lia)) as [E1 E2]. replace (i + t - 12) with (i - 12 + t) by lia. rewrite E2. split; [|lia].
  pose proof (Z.div_mod (i - 12) p ltac:(lia)). assert ((i - 12) / p < 1 + p + p * p) by (apply Z.div_lt_upper_bound; nia). nia.
Qed.

(** C39: [ext2_block_to_path] on the number of a block that a file can have gives a path whose
    entries are in range and that leads back to the number; the reported count of further blocks
    is how many numbers follow in the same table: for these only the last entry of the path grows.  Larger numbers halt. *)
Theorem block_path_roundtrip sb k i : sb_ok sb k -> 0 <= i ->
  (exists offs b, ext2_block_to_path sb i = Ok (offs, b) /\ i < file_limit (2 ^ k) /\ path_ok (2 ^ k) offs /\ path_block (2 ^ k) offs = i /\ 0 <= b /\
     exists pre o, offs = pre ++ [o] /\ o + b = (if decide (pre = []) then 11 else 2 ^ k - 1) /\ forall t, 0 <= t <= b -> ext2_block_to_path sb (i + t) = Ok (pre ++ [o + t], b - t)) \/
  (ext2_block_to_path sb i = Panic "i_block(%lu) is too big" /\ file_limit (2 ^ k) <= i).
Proof.
  intros H H0. pose proof (so_range _ _ H) as Hk. assert (0 < 2 ^ k) as Hp by (apply Z.pow_pos_nonneg; lia). destruct (Z.lt_ge_cases i (file_limit (2 ^ k))) as [Hi|Hi].
  - left. exists (tree_path (2 ^ k) i), (run_left (2 ^ k) i). destruct (path_in_range (2 ^ k) i Hp ltac:(lia)) as [P1 P2]. destruct (path_run (2 ^ k) i Hp ltac:(lia)) as (pre & o & O1 & O2 & O3 & O4). split; [apply block_to_path_spec; [exact H|lia]|]. split; [exact Hi|]. split; [exact P1|]. split; [exact P2|]. split; [exact O2|].
    exists pre, o. split; [rewrite <- (Z.add_0_r o), <- O4, Z.add_0_r by lia; reflexivity|]. split; [exact O3|]. intros t Ht. pose proof (run_limit (2 ^ k) i t Hp ltac:(lia) Ht) as [R1 R2]. rewrite (block_to_path_spec sb k (i + t) H) by lia. rewrite (O4 t Ht), R2. reflexivity.
  - right. split; [|exact Hi]. unfold ext2_block_to_path. rewrite (addr_per_block sb k H). unfold EXT2_ADDR_PER_BLOCK_BITS. rewrite (so_addr_bits _ _ H). set (p := 2 ^ k) in *. assert (p <= 1024) as Hp' by (apply (Z.pow_le_mono_r 2 k 10); lia). assert (2 ^ (k * 2) = p * p) as Epp by (unfold p; rewrite <- Z.pow_add_r by lia; f_equal; lia).
    rewrite Z.shiftl_1_l, Epp. rewrite (s32_small (p * p)) by nia. unfold file_limit, EXT2_NDIR_BLOCKS in *. rewrite !Z.shiftr_div_pow2 by lia. rewrite Epp. destruct (Z.ltb_spec i 0); [lia|]. destruct (Z.ltb_spec i 12); [nia|]. destruct (Z.ltb_spec (i - 12) p); [nia|]. destruct (Z.ltb_spec (i - 12 - p) (p * p)); [nia|].
    destruct (Z.ltb_spec ((i - 12 - p - p * p) / (p * p)) p) as [Hbig|_]; [|reflexivity]. exfalso. assert (p <= (i - 12 - p - p * p) / (p * p)) by (apply Z.div_le_lower_bound; nia). lia.
Qed.

(** ** Blocks of a file *)

Lemma s64_low x : 0 <= x < 2 ^ 63 -> s64 x = x.
Proof. intros Hx. unfold s64. rewrite Z.mod_small by lia. lia. Qed.
Lemma u32_low x : 0 <= x < 2 ^ 32 -> u32 x = x.
Proof. apply Z.mod_small. Qed.
Lemma load_le_bytes n m : forall p, (forall x, p <= x < p + Z.of_nat n -> exists c, m !! x = Some c /\ byte_ok c) -> exists v, load_le n m p = Ok v /\ 0 <= v < 2 ^ (8 * Z.of_nat n).
Proof.
  induction n as [|n IH]; intros p Hb; cbn [load_le]; [exists 0; split; [reflexivity|lia]|]. destruct (Hb p ltac:(lia)) as (c & Hc & Oc). destruct (IH (p + 1)) as (v & -> & Hv); [intros x Hx; apply Hb; lia|]. unfold load8. rewrite Hc. cbn [deref mbind outcome_bind]. eexists. split; [reflexivity|].
  replace (8 * Z.of_nat (S n)) with (8 + 8 * Z.of_nat n) by lia. rewrite Z.pow_add_r by lia. unfold byte_ok in Oc. nia.
Qed.

Section Blocks.
  Context (m : mem) (sb_bread : Z -> Z -> option Z) (sb : super_block) (k : Z).
  Context (H : sb_ok sb k).
  (** Every buffer holds a block of bytes. *)
  Context (Hread : forall b a, sb_bread (s_blocksize sb) b = Some a -> forall x, a <= x < a + s_blocksize sb -> exists c, m !! x = Some c /\ byte_ok c).
  Context (inode : ext2_inode_info) (Hdata : length (i_data inode) = 15%nat) (Hwords : Forall (fun v => 0 <= v < 2 ^ 32) (i_data inode)).

Definition nonzero (r : outcome Z) : option Z := match r with Ok v => if v =? 0 then None else Some v | _ => None end.
(** The block number reached from block [b] through the entries [offs]. *)
Fixpoint descend (b : Z) (offs : list Z) : option Z :=
  match offs with
  | [] => Some b
  | o :: offs => a ← sb_bread (s_blocksize sb) b; v ← nonzero (load32 m (a + 4 * o)); descend v offs
  end.
Definition lookup_block (offs : list Z) : option Z :=
  match offs with
  | [] => None
  | o :: offs => b ← nonzero (deref (i_data inode !! Z.to_nat o)); descend b offs
  end.
(** The block of the device that holds block [i] of the file. *)
Definition file_block (i : Z) : option Z := lookup_block (tree_path (2 ^ k) i).

Definition chain_ok (chain : list Indirect) : Prop := Forall (fun c => read_place m inode (ind_p c) = Ok (ind_key c)) chain.
Lemma verify_ok chain : chain_ok chain -> verify_chain m inode chain = Ok true.
Proof using Type. induction 1 as [|c chain Hc _ IH]; cbn [verify_chain]; [reflexivity|]. rewrite Hc. cbn [mbind outcome_bind]. rewrite Z.eqb_refl. exact IH. Qed.
Lemma nonzero_some r v : nonzero r = Some v -> r = Ok v /\ v <> 0.
Proof using Type. destruct r as [u| | |]; cbn; try discriminate. destruct (Z.eqb_spec u 0); [discriminate|]. intros [= <-]. auto. Qed.

(** The entry [o] of a table with the place [q] of its number: the neighbours of the place are
    the other entries of the table. *)
Definition last_entry (f : Z -> option Z) (q : Indirect) : Prop := forall t, f t = nonzero (read_place m inode (next_place (ind_p q) t)).

Definition readable (p : place) : Prop := exists v, read_place m inode p = Ok v /\ 0 <= v < 2 ^ 32.

Lemma branch_ok offs : forall o b p chain v, descend b (offs ++ [o]) = Some v -> ind_key p = b -> chain_ok chain ->
  exists q chain', branch_loop m sb_bread sb inode (offs ++ [o]) p chain = Ok (chain' ++ [q]) /\ chain_ok (chain' ++ [q]) /\ ind_key q = v /\ last_entry (fun t => descend b (offs ++ [o + t])) q /\
  forall t, 0 <= o + t < 2 ^ k -> readable (next_place (ind_p q) t).
Proof using H Hread.
  clear Hdata. induction offs as [|o' offs IH]; intros o b p chain v Hv Hp Hc; cbn [app descend branch_loop] in *; rewrite Hp.
  - destruct (sb_bread (s_blocksize sb) b) as [a|] eqn:Ea; [|cbn in Hv; discriminate]. cbn [mbind option_bind] in Hv. destruct (nonzero (load32 m (a + 4 * o))) as [u|] eqn:Eu; [|cbn in Hv; discriminate]. cbn [mbind option_bind] in Hv. injection Hv as ->. apply nonzero_some in Eu as [Eu Hu]. rewrite (verify_ok _ Hc). cbn [mbind outcome_bind negb]. unfold add_chain. cbn [read_place]. rewrite Eu. cbn [mbind outcome_bind ind_key].
    destruct (Z.eqb_spec v 0); [contradiction|]. exists (MkIndirect (InBuffer (a + 4 * o)) v), chain. split; [reflexivity|]. split; [apply Forall_app; split; [exact Hc|repeat constructor; exact Eu]|]. split; [reflexivity|]. split; [intros t; cbn; replace (a + 4 * o + 4 * t) with (a + 4 * (o + t)) by lia; destruct (nonzero _); reflexivity|].
    intros t Ht. unfold readable. cbn [ind_p next_place read_place]. apply load_le_bytes. intros x Hx. apply (Hread b a Ea). rewrite (so_size _ _ H). lia.
  - destruct (sb_bread (s_blocksize sb) b) as [a|] eqn:Ea; [|cbn in Hv; discriminate]. cbn [mbind option_bind] in Hv. destruct (nonzero (load32 m (a + 4 * o'))) as [u|] eqn:Eu; [|cbn in Hv; discriminate]. cbn [mbind option_bind] in Hv. pose proof (nonzero_some _ _ Eu) as [Eu' Hu]. rewrite (verify_ok _ Hc). cbn [mbind outcome_bind negb]. unfold add_chain. cbn [read_place]. rewrite Eu'. cbn [mbind outcome_bind ind_key].
    destruct (Z.eqb_spec u 0); [contradiction|]. destruct (IH o u (MkIndirect (InBuffer (a + 4 * o')) u) (chain ++ [MkIndirect (InBuffer (a + 4 * o')) u]) v Hv eq_refl) as (q & chain' & E & C & Kq & Lq & Rq). { apply Forall_app. split; [exact Hc|]. repeat constructor. exact Eu'. }
    exists q, chain'. split; [exact E|]. split; [exact C|]. split; [exact Kq|]. split; [|exact Rq]. intros t. rewrite <- Lq. cbn [mbind option_bind]. rewrite Eu. reflexivity.
Qed.
Lemma get_branch_ok pre o v : lookup_block (pre ++ [o]) = Some v -> 0 <= o ->
  exists q chain, ext2_get_branch m sb_bread sb inode (pre ++ [o]) = Ok (chain ++ [q]) /\ chain_ok (chain ++ [q]) /\ ind_key q = v /\ last_entry (fun t => lookup_block (pre ++ [o + t])) q /\
  forall t, 0 <= o + t < (if decide (pre = []) then 12 else 2 ^ k) -> readable (next_place (ind_p q) t).
Proof using H Hread Hdata Hwords.
  intros Hv Ho. destruct pre as [|o' pre]; cbn [app lookup_block ext2_get_branch] in *.
  - destruct (nonzero (deref (i_data inode !! Z.to_nat o))) as [u|] eqn:Eu; [|cbn in Hv; discriminate]. cbn [mbind option_bind] in Hv. injection Hv as ->. apply nonzero_some in Eu as [Eu Hu]. unfold add_chain. cbn [read_place]. rewrite Eu. cbn [mbind outcome_bind ind_key branch_loop]. destruct (Z.eqb_spec v 0); [contradiction|].
    exists (MkIndirect (InInode o) v), []. split; [reflexivity|]. split; [repeat constructor; exact Eu|]. split; [reflexivity|]. split; [intros t; cbn; destruct (nonzero _); reflexivity|].
    intros t Ht. rewrite decide_True in Ht by reflexivity. unfold readable. cbn [ind_p next_place read_place]. destruct (lookup_lt_is_Some_2 (i_data inode) (Z.to_nat (o + t)) ltac:(lia)) as [w Hw]. rewrite Hw. exists w. split; [reflexivity|]. rewrite Forall_lookup in Hwords. exact (Hwords _ _ Hw).
  - destruct (nonzero (deref (i_data inode !! Z.to_nat o'))) as [u|] eqn:Eu; [|cbn in Hv; discriminate]. cbn [mbind option_bind] in Hv. pose proof (nonzero_some _ _ Eu) as [Eu' Hu]. unfold add_chain. cbn [read_place]. rewrite Eu'. cbn [mbind outcome_bind ind_key]. destruct (Z.eqb_spec u 0); [contradiction|].
    destruct (branch_ok pre o u (MkIndirect (InInode o') u) [MkIndirect (InInode o') u] v Hv eq_refl) as (q & chain' & E & C & Kq & Lq & Rq); [repeat constructor; exact Eu'|]. exists q, chain'. split; [exact E|]. split; [exact C|]. split; [exact Kq|]. split; [intros t; rewrite <- Lq; reflexivity|]. intros t Ht. rewrite decide_False in Ht by discriminate. exact (Rq t Ht).
Qed.

(** [c] blocks from [i] on lie one after the other on the device from [b] on. *)
Definition contiguous (i b c : Z) : Prop := forall t, 0 <= t < c -> file_block (i + t) = Some (b + t).
Lemma count_ok i maxb q chain f : forall c, chain_ok (chain ++ [q]) -> 0 <= ind_key q < 2 ^ 32 -> 0 <= run_left (2 ^ k) i < 2 ^ 32 -> (forall t, 0 <= t <= run_left (2 ^ k) i -> file_block (i + t) = nonzero (read_place m inode (next_place (ind_p q) t)) /\ readable (next_place (ind_p q) t)) ->
  1 <= c <= maxb -> c <= run_left (2 ^ k) i + 1 -> run_left (2 ^ k) i + 1 - c < Z.of_nat f -> contiguous i (ind_key q) c ->
  exists c', count_loop m f inode (chain ++ [q]) q maxb (run_left (2 ^ k) i) c = Ok (Some c') /\ c <= c' <= maxb /\ c' <= run_left (2 ^ k) i + 1 /\ contiguous i (ind_key q) c' /\ (c' = maxb \/ c' = run_left (2 ^ k) i + 1 \/ file_block (i + c') <> Some (ind_key q + c')).
Proof using Type.
  clear H Hread Hdata Hwords. set (r := run_left (2 ^ k) i). induction f as [|f IH]; intros c Hc Hq Hr Hpl Hc1 Hc2 Hf Hcont; [lia|]. cbn [count_loop].
  destruct (Z.ltb_spec c maxb) as [H1|H1]; [|exists c; split; [reflexivity|]; repeat split; try lia; auto]. destruct (Z.leb_spec c r) as [H2|H2]; [|exists c; split; [reflexivity|]; repeat split; try lia; auto]. cbn [andb]. rewrite (verify_ok _ Hc). cbn [mbind outcome_bind negb].
  destruct (Hpl c ltac:(lia)) as [Ef (v & Ev & Hv)]. rewrite Ev in *. cbn [mbind outcome_bind nonzero] in *. rewrite u64_small by (unfold is_u64; lia). destruct (Z.eqb_spec v (ind_key q + c)) as [->|Hne].
  - destruct (IH (c + 1) Hc Hq Hr Hpl ltac:(lia) ltac:(lia) ltac:(lia)) as (c' & E & C1 & C2 & C3 & C4). { intros t Ht. destruct (Z.eq_dec t c) as [->|]; [|apply Hcont; lia]. rewrite Ef. destruct (Z.eqb_spec (ind_key q + c) 0); [lia|reflexivity]. } exists c'. split; [exact E|]. repeat split; try lia; assumption.
  - exists c. split; [reflexivity|]. repeat split; try lia; try assumption. right. right. rewrite Ef. destruct (v =? 0); [discriminate|congruence].
Qed.

(** C7: for a block of the file that is not a hole, [ext2_get_blocks] returns the block of the
    device that holds it, found through the tables of the inode, and a number of blocks, at
    least one and at most as many as asked for, that follow one another both in the file
    and on the device; it stops early only at the end of a table or where the device blocks are not adjacent. *)
Theorem get_blocks_exact iblock maxblocks b : 0 <= iblock < file_limit (2 ^ k) -> 0 < maxblocks -> file_block iblock = Some b ->
  exists count boundary, ext2_get_blocks m sb_bread sb inode iblock maxblocks = Ok (count, b, boundary) /\ 1 <= count <= maxblocks /\ contiguous iblock b count /\
    (count = maxblocks \/ boundary = true \/ file_block (iblock + count) <> Some (b + count)) /\ (boundary = true <-> count = run_left (2 ^ k) iblock + 1).
Proof using H Hread Hdata Hwords.
  intros Hi Hmax Hb. pose proof (so_range _ _ H) as Hk. assert (128 <= 2 ^ k <= 1024) as Hp by (split; [apply (Z.pow_le_mono_r 2 7 k)|apply (Z.pow_le_mono_r 2 k 10)]; lia). destruct (path_run (2 ^ k) iblock ltac:(lia) Hi) as (pre & o & O1 & O2 & O3 & O4). assert (iblock < 2 ^ 32) as Hi32 by (unfold file_limit in Hi; nia).
  assert (tree_path (2 ^ k) iblock = pre ++ [o]) as Et by (rewrite <- (Z.add_0_r o), <- O4, Z.add_0_r by lia; reflexivity). unfold file_block in Hb. rewrite Et in Hb. destruct (get_branch_ok pre o b Hb O1) as (q & chain & E & C & Kq & Lq & Rq).
  assert (0 <= run_left (2 ^ k) iblock < 2 ^ 32 /\ run_left (2 ^ k) iblock < 2 ^ k + 12) as [Hr Hr2] by (destruct (decide (pre = [])); lia).
  assert (forall t, 0 <= t <= run_left (2 ^ k) iblock -> file_block (iblock + t) = nonzero (read_place m inode (next_place (ind_p q) t)) /\ readable (next_place (ind_p q) t)) as Hpl. { intros t Ht. split; [unfold file_block; rewrite (O4 t Ht); apply Lq|]. apply Rq. destruct (decide (pre = [])); lia. }
  assert (0 <= ind_key q < 2 ^ 32) as Hq. { destruct (Hpl 0 ltac:(lia)) as [F0 (v & Ev & Hv)]. rewrite Z.add_0_r in F0. unfold file_block in F0. rewrite Et, Hb, Ev in F0. cbn in F0. destruct (v =? 0); [discriminate|]. injection F0 as ->. rewrite Kq. exact Hv. }
  destruct (count_ok iblock maxblocks q chain (S (Z.to_nat (EXT2_ADDR_PER_BLOCK sb + EXT2_NDIR_BLOCKS))) 1 C Hq Hr Hpl ltac:(lia) ltac:(lia)) as (c & Ec & C1 & C2 & C3 & C4). { rewrite (addr_per_block sb k H). unfold EXT2_NDIR_BLOCKS. lia. } { intros t Ht. replace t with 0 by lia. rewrite !Z.add_0_r. unfold file_block. rewrite Et, Hb, Kq. reflexivity. }
  rewrite Kq in *. exists c, (run_left (2 ^ k) iblock <? c). split.
  - unfold ext2_get_blocks. destruct (Z.eqb_spec maxblocks 0); [lia|]. cbn [bug_on mbind outcome_bind]. rewrite s64_low by lia. rewrite (block_to_path_spec sb k iblock H Hi). cbn [mbind outcome_bind]. rewrite Et, E. cbn [mbind outcome_bind]. rewrite last_snoc. cbn [deref mbind outcome_bind]. rewrite Ec. cbn [mbind outcome_bind]. rewrite Kq. reflexivity.
  - split; [lia|]. split; [exact C3|]. destruct (Z.ltb_spec (run_left (2 ^ k) iblock) c); (split; [|split; [lia|intros; lia || congruence]]); [auto|]. destruct C4 as [?|[?|?]]; [auto|lia|auto].
Qed.
End Blocks.

(** ** Directories *)

Record dirent := Dirent { d_ino : Z; d_rec : Z; d_name : list Z }.
Definition entry_at (m : mem) (a : Z) (e : dirent) : Prop :=
  load32 m a = Ok (d_ino e) /\ load16 m (a + 4) = Ok (d_rec e) /\ load8 m (a + 6) = Ok (Z.of_nat (length (d_name e))) /\ bytes_at m (a + 8) (d_name e) /\ EXT2_DIR_REC_LEN (Z.of_nat (length (d_name e))) <= d_rec e.
Fixpoint entries_at (m : mem) (a : Z) (es : list dirent) : Prop :=
  match es with [] => True | e :: es => entry_at m a e /\ entries_at m (a + d_rec e) es end.
Fixpoint span (es : list dirent) : Z := match es with [] => 0 | e :: es => d_rec e + span es end.
(** An entry in use with the name [nm]. *)
Definition names (nm : list Z) (e : dirent) : Prop := d_name e = nm /\ d_ino e <> 0.
#[local] Instance names_dec nm e : Decision (names nm e).
Proof. unfold names. apply _. Defined.
Fixpoint page_search (nm : list Z) (a : Z) (es : list dirent) : option (Z * dirent) :=
  match es with [] => None | e :: es => if decide (names nm e) then Some (a, e) else page_search nm (a + d_rec e) es end.

Lemma rec_len_bounds n : 0 <= n -> n + 8 <= EXT2_DIR_REC_LEN n <= n + 11 /\ EXT2_DIR_REC_LEN n mod 4 = 0.
Proof.
  intros Hn. unfold EXT2_DIR_REC_LEN, EXT2_DIR_ROUND. replace (n + 8 + (4 - 1)) with (n + 11) by lia. change (Z.lnot (4 - 1)) with (Z.lnot (Z.ones 2)). rewrite <- Z.ldiff_land, Z.ldiff_ones_r, Z.shiftr_div_pow2, Z.shiftl_mul_pow2 by lia. change (2 ^ 2) with 4. Z.div_mod_to_equations. lia.
Qed.
Lemma entry_rec m a e : entry_at m a e -> 8 <= d_rec e.
Proof. intros (_ & _ & _ & _ & Hr). pose proof (rec_len_bounds (Z.of_nat (length (d_name e))) ltac:(lia)). lia. Qed.
Lemma span_length m a es : entries_at m a es -> 8 * Z.of_nat (length es) <= span es.
Proof. revert a. induction es as [|e es IH]; intros a H; cbn [length span]; [lia|]. destruct H as [He H]. specialize (IH _ H). pose proof (entry_rec m a e He). lia. Qed.
Lemma page_search_in nm es : forall a, match page_search nm a es with Some (_, e) => e ∈ es /\ names nm e | None => forall e, e ∈ es -> ~ names nm e end.
Proof.
  induction es as [|e es IH]; intros a; cbn [page_search]; [intros e He; inversion He|]. case_decide as D; [split; [left|exact D]|]. specialize (IH (a + d_rec e)). destruct (page_search nm (a + d_rec e) es) as [[a' e']|]; [split; [right|]; apply IH|]. intros e' He. apply elem_of_cons in He as [->|He]; auto.
Qed.
(** A page has no entry of the name that starts too near to its end. *)
Lemma page_search_short m nm es : forall a, entries_at m a es -> a + span es < a + EXT2_DIR_REC_LEN (Z.of_nat (length nm)) -> page_search nm a es = None.
Proof.
  induction es as [|e es IH]; intros a H Hs; cbn [page_search span] in *; [reflexivity|]. destruct H as [He H]. pose proof (entry_rec m a e He). pose proof (span_length _ _ _ H). rewrite decide_False; [apply IH; [exact H|lia]|]. intros [<- _]. destruct He as (_ & _ & _ & _ & Hr). lia.
Qed.

Lemma match_ok m name nm a e : entry_at m a e -> bytes_at m name nm -> ext2_match m (Z.of_nat (length nm)) name a = Ok (bool_decide (names nm e)).
Proof.
  intros (H1 & _ & H3 & H4 & _) Hn. unfold ext2_match, de_name_len, de_inode, de_name. rewrite H3. cbn [mbind outcome_bind]. destruct (Z.eqb_spec (Z.of_nat (length nm)) (Z.of_nat (length (d_name e)))) as [El|El]; cbn [negb].
  - rewrite H1. cbn [mbind outcome_bind]. destruct (Z.eqb_spec (d_ino e) 0) as [Ez|Ez]; [rewrite bool_decide_false by (intros [_ ?]; contradiction); reflexivity|]. destruct (memcmp_ok m name (a + 8) nm (d_name e) Hn H4 ltac:(lia)) as (r & -> & Hr). cbn [mbind outcome_bind]. f_equal. destruct (Z.eqb_spec r 0) as [E|E].
    + symmetry. apply bool_decide_true. split; [symmetry; apply Hr, E|exact Ez].
    + symmetry. apply bool_decide_false. intros [<- _]. apply E, Hr. reflexivity.
  - rewrite bool_decide_false by (intros [<- _]; lia). reflexivity.
Qed.
Lemma page_loop_ok m name nm es : forall f a limit, entries_at m a es -> bytes_at m name nm -> limit = a + span es - EXT2_DIR_REC_LEN (Z.of_nat (length nm)) -> (length es < f)%nat -> page_loop m f (Z.of_nat (length nm)) name a limit = Ok (fst <$> page_search nm a es).
Proof.
  induction es as [|e es IH]; intros f a limit H Hn Hl Hf; (destruct f as [|f]; [cbn in Hf; lia|]); cbn [page_loop page_search span] in *.
  - pose proof (rec_len_bounds (Z.of_nat (length nm)) ltac:(lia)). destruct (Z.leb_spec a limit); [lia|reflexivity].
  - destruct H as [He H]. pose proof (entry_rec m a e He) as Hr8. destruct (Z.leb_spec a limit) as [Hle|Hgt].
    + pose proof He as (_ & Er & _). unfold de_rec_len. rewrite Er. cbn [mbind outcome_bind]. destruct (Z.eqb_spec (d_rec e) 0); [lia|]. rewrite (match_ok m name nm a e He Hn). cbn [mbind outcome_bind]. case_bool_decide as D; case_decide; try contradiction; [reflexivity|]. unfold ext2_next_entry, de_rec_len. rewrite Er. cbn [mbind outcome_bind]. apply IH; [exact H|exact Hn|lia|cbn in Hf; lia].
    + pose proof (page_search_short m nm (e :: es) a (conj He H)) as Hn'. cbn [page_search span] in Hn'. rewrite Hn' by lia. reflexivity.
Qed.

Lemma search_entry m nm es : forall a a' e, entries_at m a es -> page_search nm a es = Some (a', e) -> entry_at m a' e.
Proof.
  induction es as [|x es IH]; intros a a' e H Hs; cbn [page_search] in Hs; [discriminate|]. destruct H as [Hx H]. case_decide; [injection Hs as <- <-; exact Hx|]. exact (IH _ _ _ H Hs).
Qed.

Section Directory.
  Context (m : mem) (read_mapping_page : ext2_inode_info -> Z -> option Z) (dir : ext2_inode_info).
  Context (pa : Z -> Z) (ess : Z -> list dirent).

(** The pages of a directory, filled with entries. *)
Record dir_ok : Prop := {
  dk_size : 0 < i_size dir < 2 ^ 31 /\ i_size dir mod 512 = 0;
  dk_start : 0 <= i_dir_start_lookup dir < 2 ^ 32;
  dk_blocks : dir_pages dir <= Z.shiftr (i_blocks dir) 3 + 1;
  dk_page : forall n, 0 <= n < dir_pages dir -> read_mapping_page dir n = Some (pa n) /\ entries_at m (pa n) (ess n) /\ span (ess n) = Z.min PAGE_SIZE (i_size dir - n * PAGE_SIZE) }.
Context (D : dir_ok).

Lemma pages_count : dir_pages dir = (i_size dir + 4095) / 4096 /\ 0 < dir_pages dir.
Proof using D.
  destruct (dk_size D) as [Hs _]. unfold dir_pages. change PAGE_SIZE with 4096. change PAGE_SHIFT with 12. rewrite u64_small by (unfold is_u64; lia). rewrite Z.shiftr_div_pow2 by lia. change (2 ^ 12) with 4096. replace (i_size dir + 4096 - 1) with (i_size dir + 4095) by lia. split; [reflexivity|]. Z.div_mod_to_equations. lia.
Qed.
Lemma last_byte_ok n : 0 <= n < dir_pages dir -> ext2_last_byte dir n = span (ess n) /\ 512 <= span (ess n) <= PAGE_SIZE.
Proof using D.
  intros Hn. destruct (dk_size D) as [Hs Hm]. destruct (dk_page D n Hn) as (_ & _ & ->). destruct pages_count as [Ep _]. rewrite Ep in Hn. assert (n * 4096 < i_size dir) as Hlt by (Z.div_mod_to_equations; lia).
  unfold ext2_last_byte. change PAGE_SIZE with 4096. change PAGE_SHIFT with 12. rewrite Z.shiftl_mul_pow2 by lia. change (2 ^ 12) with 4096. rewrite (u64_small (n * 4096)) by (unfold is_u64; lia). rewrite (u32_low (i_size dir)) by lia. rewrite u32_low by lia. assert (512 <= i_size dir - n * 4096) by (Z.div_mod_to_equations; lia). destruct (Z.ltb_spec 4096 (i_size dir - n * 4096)); lia.
Qed.
Lemma search_page_ok name nm n : bytes_at m name nm -> (length nm <= 255)%nat -> 0 <= n < dir_pages dir -> page_loop m (S (Z.to_nat PAGE_SIZE)) (Z.of_nat (length nm)) name (pa n) (pa n + u32 (ext2_last_byte dir n - EXT2_DIR_REC_LEN (Z.of_nat (length nm)))) = Ok (fst <$> page_search nm (pa n) (ess n)).
Proof using D.
  intros Hnm Hl Hn. destruct (last_byte_ok n Hn) as [-> Hs]. destruct (dk_page D n Hn) as (_ & He & _). pose proof (rec_len_bounds (Z.of_nat (length nm)) ltac:(lia)) as [Hr _]. pose proof (span_length _ _ _ He). change PAGE_SIZE with 4096 in *. rewrite u32_low by lia. apply page_loop_ok; [exact He|exact Hnm|lia|lia].
Qed.

(** Going round the pages from [start]: after [j] of them none had the name. *)
Lemma pages_loop_ok name nm start : bytes_at m name nm -> (length nm <= 255)%nat -> 0 <= start < dir_pages dir -> forall f j, 0 <= j < dir_pages dir -> dir_pages dir - j <= Z.of_nat f ->
  exists r, pages_loop m read_mapping_page f dir (Z.of_nat (length nm)) name (EXT2_DIR_REC_LEN (Z.of_nat (length nm))) (dir_pages dir) start ((start + j) mod dir_pages dir) = Ok r /\
    match r with
    | Some (a, n) => 0 <= n < dir_pages dir /\ exists e, page_search nm (pa n) (ess n) = Some (a, e)
    | None => forall i, j <= i < dir_pages dir -> page_search nm (pa ((start + i) mod dir_pages dir)) (ess ((start + i) mod dir_pages dir)) = None
    end.
Proof using D.
  intros Hnm Hl Hst. set (np := dir_pages dir) in *. induction f as [|f IH]; intros j Hj Hf; [lia|]. cbn [pages_loop]. set (n := (start + j) mod np). assert (0 <= n < np) as Hn by (apply Z.mod_pos_bound; lia). destruct (dk_page D n Hn) as (-> & _ & _). cbn [mbind outcome_bind]. rewrite (search_page_ok name nm n Hnm Hl Hn). cbn [mbind outcome_bind].
  destruct (page_search nm (pa n) (ess n)) as [[a e]|] eqn:Es; cbn [fmap option_fmap option_map fst].
  - exists (Some (a, n)). split; [reflexivity|]. split; [exact Hn|]. exists e. exact Es.
  - assert ((if np <=? n + 1 then 0 else n + 1) = (start + (j + 1)) mod np) as En. { rewrite Z.add_assoc, <- Z.add_mod_idemp_l by lia. fold n. destruct (Z.leb_spec np (n + 1)); [replace (n + 1) with np by lia; rewrite Z.mod_same by lia; reflexivity|rewrite Z.mod_small by lia; reflexivity]. }
    rewrite En. pose proof (Z.mod_pos_bound (start + (j + 1)) np ltac:(lia)) as Hn'. pose proof (dk_blocks D) as Hb. fold np in Hb. change (PAGE_SHIFT - 9) with 3. destruct (Z.ltb_spec (Z.shiftr (i_blocks dir) 3) ((start + (j + 1)) mod np)); [lia|].
    destruct (Z.eq_dec (j + 1) np) as [Ej|Ej].
    + assert ((start + (j + 1)) mod np = start) as -> by (replace (start + (j + 1)) with (start + 1 * np) by lia; rewrite Z.mod_add, Z.mod_small by lia; reflexivity). rewrite Z.eqb_refl. cbn [negb]. exists None. split; [reflexivity|]. intros i Hi. replace i with j by lia. exact Es.
    + assert ((start + (j + 1)) mod np <> start) as Hne. { intros Q. pose proof (Z.div_mod (start + (j + 1)) np ltac:(lia)) as Q'. rewrite Q in Q'. assert (np * ((start + (j + 1)) / np) = j + 1) as Q2 by lia. assert (0 < (start + (j + 1)) / np < 1 \/ (start + (j + 1)) / np <= 0 \/ 1 <= (start + (j + 1)) / np) by lia. nia. }
      destruct (Z.eqb_spec ((start + (j + 1)) mod np) start); [contradiction|]. cbn [negb]. destruct (IH (j + 1) ltac:(lia) ltac:(lia)) as (r & E & Hr). exists r. split; [exact E|]. destruct r as [[a' n']|]; [exact Hr|]. intros i Hi. destruct (Z.eq_dec i j) as [->|]; [exact Es|apply Hr; lia].
Qed.

(** C25: on a directory whose pages are filled with entries, [ext2_inode_by_name] returns the inode number of
    an entry in use with that name, wherever the search starts, and remembers its page;
    it fails, with [-ENOENT], only if no page has such an entry. *)
Theorem dir_lookup_exact name nm : bytes_at m name nm -> (length nm <= 255)%nat ->
  (exists n e, 0 <= n < dir_pages dir /\ e ∈ ess n /\ names nm e /\ exists dir', ext2_inode_by_name m read_mapping_page dir name (Z.of_nat (length nm)) = Ok (inr (d_ino e), dir') /\ i_dir_start_lookup dir' = n) \/
  (ext2_inode_by_name m read_mapping_page dir name (Z.of_nat (length nm)) = Ok (inl (- ENOENT), dir) /\ forall n e, 0 <= n < dir_pages dir -> e ∈ ess n -> ~ names nm e).
Proof using D.
  intros Hnm Hl. destruct pages_count as [Ep Hp]. unfold ext2_inode_by_name, ext2_find_entry. destruct (Z.eqb_spec (dir_pages dir) 0) as [|_]; [lia|]. set (start := if dir_pages dir <=? i_dir_start_lookup dir then 0 else i_dir_start_lookup dir).
  assert (0 <= start < dir_pages dir) as Hst by (pose proof (dk_start D); unfold start; destruct (Z.leb_spec (dir_pages dir) (i_dir_start_lookup dir)); lia). destruct (pages_loop_ok name nm start Hnm Hl Hst (S (Z.to_nat (dir_pages dir))) 0 ltac:(lia) ltac:(lia)) as (r & E & Hr). rewrite Z.add_0_r, (Z.mod_small start) in E by lia. rewrite E. cbn [mbind outcome_bind].
  destruct r as [[a n]|].
  - left. destruct Hr as (Hn & e & Es). pose proof (page_search_in nm (ess n) (pa n)) as Hin. rewrite Es in Hin. destruct Hin as [Hin Hnm']. exists n, e. split; [exact Hn|]. split; [exact Hin|]. split; [exact Hnm'|]. cbn [mbind outcome_bind]. destruct (dk_page D n Hn) as (_ & He & _). pose proof (search_entry _ _ _ _ _ _ He Es) as (Ei & _). unfold de_inode. rewrite Ei. cbn [mbind outcome_bind]. eexists. split; [reflexivity|].
    cbn [i_dir_start_lookup]. apply u32_low. destruct (dk_size D) as [Hs _]. rewrite Ep in Hn. assert (n < 2 ^ 31) by (Z.div_mod_to_equations; lia). lia.
  - right. split; [reflexivity|]. intros n e Hn He. assert (exists i, 0 <= i < dir_pages dir /\ (start + i) mod dir_pages dir = n) as (i & Hi & Ei). { exists ((n - start) mod dir_pages dir). split; [apply Z.mod_pos_bound; lia|]. rewrite Z.add_mod_idemp_r by lia. replace (start + (n - start)) with n by lia. apply Z.mod_small. exact Hn. }
    specialize (Hr i Hi). rewrite Ei in Hr. pose proof (page_search_in nm (ess n) (pa n)) as Hin. rewrite Hr in Hin. exact (Hin e He).
Qed.
End Directory.

(** ** Inodes *)

Section Inodes.
  Context (m : mem) (sb_bread : Z -> Z -> option Z) (iget_locked : Z -> option ext2_inode_info) (sb : super_block) (k : Z).
  (** The bytes of the device, and the block where the group descriptors start. *)
  Context (dev : Z -> Z) (desc0 : Z).

Fixpoint dev_le (n : nat) (p : Z) : Z := match n with O => 0 | S n => dev p + 256 * dev_le n (p + 1) end.
(** Memory at [a] holds [n] bytes of the device from [p] on. *)
Definition holds_dev (a p n : Z) : Prop := forall x, 0 <= x < n -> m !! (a + x) = Some (dev (p + x)).
Record dev_ok : Prop := {
  do_sb : sb_ok sb k;
  do_byte : forall p, byte_ok (dev p);
  do_ipg : 0 < s_inodes_per_group (EXT2_SB sb) < 2 ^ 32;
  do_read : forall b a, sb_bread (s_blocksize sb) b = Some a -> holds_dev a (b * s_blocksize sb) (s_blocksize sb);
  do_descs : forall i, 0 <= i -> i * s_desc_per_block (EXT2_SB sb) < s_groups_count (EXT2_SB sb) -> exists a, s_group_desc (EXT2_SB sb) !! Z.to_nat i = Some a /\ holds_dev a ((desc0 + i) * s_blocksize sb) (s_blocksize sb) }.
Context (O : dev_ok).

Lemma dev_load n : forall a p, holds_dev a p (Z.of_nat n) -> load_le n m a = Ok (dev_le n p).
Proof using Type.
  clear O. induction n as [|n IH]; intros a p H; cbn [load_le dev_le]; [reflexivity|]. unfold load8. pose proof (H 0 ltac:(lia)) as H0. rewrite !Z.add_0_r in H0. rewrite H0. cbn [deref mbind outcome_bind]. rewrite (IH (a + 1) (p + 1)); [reflexivity|]. intros x Hx. replace (a + 1 + x) with (a + (1 + x)) by lia. rewrite H by lia. do 2 f_equal. lia.
Qed.
Lemma holds_part a p n d c : holds_dev a p n -> 0 <= d -> d + c <= n -> holds_dev (a + d) (p + d) c.
Proof using Type. clear O. intros H Hd Hc x Hx. replace (a + d + x) with (a + (d + x)) by lia. rewrite H by lia. do 2 f_equal. lia. Qed.
Lemma dev_le_range n : forall p, 0 <= dev_le n p < 2 ^ (8 * Z.of_nat n).
Proof using O.
  induction n as [|n IH]; intros p; cbn [dev_le]; [lia|]. specialize (IH (p + 1)). pose proof (do_byte O p) as Hb. unfold byte_ok in Hb. replace (8 * Z.of_nat (S n)) with (8 + 8 * Z.of_nat n) by lia. rewrite Z.pow_add_r by lia. nia.
Qed.

(** Where the device has the descriptor of group [g], and the inode [ino]. *)
Definition desc_pos (g : Z) : Z := desc0 * s_blocksize sb + SIZEOF_GROUP_DESC * g.
Definition inode_pos (ino : Z) : Z :=
  let ipg := s_inodes_per_group (EXT2_SB sb) in
  dev_le 4 (desc_pos ((ino - 1) / ipg) + 8) * s_blocksize sb + (ino - 1) mod ipg * s_inode_size (EXT2_SB sb).
Definition inode_block (ino : Z) : Z := inode_pos ino / s_blocksize sb.

Lemma group_desc_ok g : 0 <= g < s_groups_count (EXT2_SB sb) -> g < 2 ^ 32 -> exists a, ext2_get_group_desc sb g = Ok a /\ holds_dev a (desc_pos g) SIZEOF_GROUP_DESC.
Proof using O.
  intros Hg H32. pose proof (do_sb O) as S. pose proof (so_range _ _ S) as Hk. unfold ext2_get_group_desc. rewrite u32_low by lia. destruct (Z.leb_spec (s_groups_count (EXT2_SB sb)) g); [lia|]. unfold EXT2_DESC_PER_BLOCK_BITS, EXT2_DESC_PER_BLOCK. rewrite (so_desc_bits _ _ S), (so_desc _ _ S). set (d := 2 ^ (k - 3)). assert (0 < d <= 128) as Hd by (split; [apply Z.pow_pos_nonneg; lia|apply (Z.pow_le_mono_r 2 (k - 3) 7); lia]).
  rewrite u64_small by (unfold is_u64; lia). rewrite Z.shiftr_div_pow2 by lia. fold d. assert (Z.land g (d - 1) = g mod d) as -> by (apply land_ones_mod; lia). pose proof (Z.div_mod g d ltac:(lia)) as Dm. pose proof (Z.mod_pos_bound g d ltac:(lia)) as Hm. destruct (do_descs O (g / d)) as (a & Ea & Ha); [apply Z.div_pos; lia|rewrite (so_desc _ _ S); fold d; lia|]. rewrite Ea. cbn [deref mbind outcome_bind].
  eexists. split; [reflexivity|]. assert (s_blocksize sb = SIZEOF_GROUP_DESC * d) as Es by (rewrite (so_size _ _ S); unfold d, SIZEOF_GROUP_DESC; replace (2 ^ k) with (2 ^ 3 * 2 ^ (k - 3)) by (rewrite <- Z.pow_add_r by lia; f_equal; lia); lia).
  replace (desc_pos g) with ((desc0 + g / d) * s_blocksize sb + SIZEOF_GROUP_DESC * (g mod d)) by (unfold desc_pos; rewrite Es; nia). apply (holds_part _ _ (s_blocksize sb)); [exact Ha|unfold SIZEOF_GROUP_DESC; lia|rewrite Es; unfold SIZEOF_GROUP_DESC; nia].
Qed.

Lemma get_inode_ok ino a : 1 <= ino <= 2 ^ 32 -> (ino - 1) / s_inodes_per_group (EXT2_SB sb) < s_groups_count (EXT2_SB sb) -> sb_bread (s_blocksize sb) (inode_block ino) = Some a ->
  exists p, ext2_get_inode m sb_bread sb ino = Ok p /\ holds_dev p (inode_pos ino) (s_inode_size (EXT2_SB sb)).
Proof using O.
  intros Hino Hg Ha. pose proof (do_sb O) as S. pose proof (so_range _ _ S) as Hk. destruct (so_inode _ _ S) as (j & Hj & Ej). pose proof (do_ipg O) as Hi. unfold ext2_get_inode, EXT2_INODES_PER_GROUP, EXT2_INODE_SIZE, EXT2_BLOCK_SIZE_BITS, EXT2_BLOCK_SIZE. set (ipg := s_inodes_per_group (EXT2_SB sb)) in *. destruct (Z.eqb_spec ipg 0); [lia|]. rewrite (u64_small (ino - 1)) by (unfold is_u64; lia).
  assert (0 <= (ino - 1) / ipg < 2 ^ 32) as Hq by (split; [apply Z.div_pos; lia|apply Z.div_lt_upper_bound; nia]). destruct (group_desc_ok ((ino - 1) / ipg) ltac:(lia) ltac:(lia)) as (gd & -> & Hgd). cbn [mbind outcome_bind]. unfold bg_inode_table, load32. rewrite (dev_load 4 (gd + 8) (desc_pos ((ino - 1) / ipg) + 8)) by (apply (holds_part _ _ SIZEOF_GROUP_DESC); [exact Hgd|lia|reflexivity || (unfold SIZEOF_GROUP_DESC; lia)]). cbn [mbind outcome_bind].
  pose proof (dev_le_range 4 (desc_pos ((ino - 1) / ipg) + 8)) as Ht. change (8 * Z.of_nat 4) with 32 in Ht. unfold inode_pos, inode_block in *. fold ipg in Ha |- *. unfold inode_pos in Ha. fold ipg in Ha. set (t := dev_le 4 (desc_pos ((ino - 1) / ipg) + 8)) in *. rewrite Ej in *. rewrite (so_size _ _ S), (so_size_bits _ _ S) in *. pose proof (Z.mod_pos_bound (ino - 1) ipg ltac:(lia)) as Hm.
  set (bs := 4 * 2 ^ k) in *. assert (bs = 2 ^ (k + 2)) as Ebs by (unfold bs; rewrite Z.pow_add_r by lia; lia). assert (512 <= bs <= 4096) as Hbs by (rewrite Ebs; split; [apply (Z.pow_le_mono_r 2 9)|apply (Z.pow_le_mono_r 2 _ 12)]; lia). set (q := (ino - 1) mod ipg) in *. assert (128 <= 2 ^ j <= bs) as Hjs by (rewrite Ebs; split; [apply (Z.pow_le_mono_r 2 7)|apply (Z.pow_le_mono_r 2)]; lia).
  set (off := q * 2 ^ j) in *. assert (0 <= off < 2 ^ 44) as Hoff by (unfold off; nia). rewrite (u64_small off) by (unfold is_u64; lia). rewrite Z.shiftr_div_pow2 by lia. rewrite <- Ebs. assert ((t * bs + off) / bs = t + off / bs) as Ediv by (rewrite Z.div_add_l by lia; reflexivity). rewrite Ediv in Ha.
  assert (0 <= off / bs < 2 ^ 44) as Hob by (split; [apply Z.div_pos; lia|apply Z.div_lt_upper_bound; nia]). rewrite (u64_small (t + off / bs)) by (unfold is_u64; lia). rewrite Ha. eexists. split; [reflexivity|]. rewrite (u64_small (bs - 1)) by (unfold is_u64; lia). assert (Z.land off (bs - 1) = off mod bs) as -> by (rewrite Ebs; apply land_ones_mod; lia).
  pose proof (Z.div_mod off bs ltac:(lia)) as Dm. pose proof (Z.mod_pos_bound off bs ltac:(lia)) as Hmod. replace (t * bs + off) with ((t + off / bs) * bs + off mod bs) by lia. apply (holds_part _ _ bs); [pose proof (do_read O) as Hrd; rewrite (so_size _ _ S) in Hrd; exact (Hrd _ _ Ha)|lia|].
  assert (bs = 2 ^ (k + 2 - j) * 2 ^ j) as Ebj by (rewrite <- Z.pow_add_r, Ebs by lia; f_equal; lia). assert (off mod bs = (q mod 2 ^ (k + 2 - j)) * 2 ^ j) as -> by (unfold off; rewrite Ebj, Z.mul_mod_distr_r by lia; reflexivity). pose proof (Z.mod_pos_bound q (2 ^ (k + 2 - j)) ltac:(apply Z.pow_pos_nonneg; lia)). nia.
Qed.

Lemma read_blocks_ok n raw p : forall i, 0 <= i -> (forall t, i <= t < i + Z.of_nat n -> holds_dev (raw + 40 + 4 * t) (p + 40 + 4 * t) 4) -> read_blocks m n raw i = Ok ((fun t => dev_le 4 (p + 40 + 4 * t)) <$> seqZ i (Z.of_nat n)).
Proof using Type.
  clear O. induction n as [|n IH]; intros i Hi H; cbn [read_blocks]; [reflexivity|]. unfold raw_i_block, load32. rewrite (dev_load 4 _ (p + 40 + 4 * i)) by (apply H; lia). cbn [mbind outcome_bind]. rewrite (IH (i + 1)) by (try lia; intros t Ht; apply H; lia). cbn [mbind outcome_bind].
  rewrite (seqZ_cons i) by lia. rewrite fmap_cons. replace (Z.pred (Z.of_nat (S n))) with (Z.of_nat n) by lia. reflexivity.
Qed.

(** For an inode that is not in the cache yet and whose block can be read, [ext2_iget] fills in mode, size, number of sectors
    and the fifteen block numbers that the device has at the place of that inode: in the inode table of
    its group, which the group's descriptor names; an inode that is neither a file nor
    a directory halts. *)
Theorem iget_exact ino i0 a : 1 <= ino <= 2 ^ 32 -> (ino - 1) / s_inodes_per_group (EXT2_SB sb) < s_groups_count (EXT2_SB sb) -> sb_bread (s_blocksize sb) (inode_block ino) = Some a -> iget_locked ino = Some i0 -> Z.land (i_state i0) I_NEW <> 0 ->
  let pos := inode_pos ino in
  let mode := dev_le 2 pos in
  let filled op := Ok (inr (InodeInfo ((fun t => dev_le 4 (pos + 40 + 4 * t)) <$> seqZ 0 15) (i_dir_start_lookup i0) mode (i_ino i0) (dev_le 4 (pos + 4)) (i_blkbits i0) (dev_le 4 (pos + 28)) (i_state i0) op)) in
  ext2_iget m sb_bread iget_locked sb ino = if S_ISREG mode then filled FileOps else if S_ISDIR mode then filled DirOps else Panic "unknown file!".
Proof using O.
  intros Hino Hg Ha Hi Hnew. cbv zeta. destruct (get_inode_ok ino a Hino Hg Ha) as (p & Ep & Hp). destruct (so_inode _ _ (do_sb O)) as (j & Hj & Ej). assert (128 <= s_inode_size (EXT2_SB sb)) as Hs by (rewrite Ej; apply (Z.pow_le_mono_r 2 7); lia). unfold ext2_iget. rewrite Hi. destruct (Z.eqb_spec (Z.land (i_state i0) I_NEW) 0) as [|_]; [contradiction|].
  rewrite Ep. cbn [mbind outcome_bind]. set (pos := inode_pos ino) in *. assert (forall d n, 0 <= d -> d + Z.of_nat n <= 128 -> load_le n m (p + d) = Ok (dev_le n (pos + d))) as Hld by (intros d n' H1 H2; apply dev_load; apply (holds_part _ _ (s_inode_size (EXT2_SB sb))); [exact Hp|lia|lia]).
  unfold raw_i_mode, raw_i_size, raw_i_blocks, load16, load32. pose proof (Hld 0 2%nat ltac:(lia) ltac:(lia)) as H0. rewrite !Z.add_0_r in H0. rewrite H0. cbn [mbind outcome_bind]. rewrite (Hld 4 4%nat) by lia. cbn [mbind outcome_bind]. rewrite (Hld 28 4%nat) by lia. cbn [mbind outcome_bind]. change (Z.to_nat EXT2_N_BLOCKS) with 15%nat.
  rewrite (read_blocks_ok 15 p pos 0); [|lia|intros t Ht; replace (p + 40 + 4 * t) with (p + (40 + 4 * t)) by lia; replace (pos + 40 + 4 * t) with (pos + (40 + 4 * t)) by lia; apply (holds_part _ _ (s_inode_size (EXT2_SB sb))); [exact Hp|lia|lia]].
  change (Z.of_nat 15) with 15. cbn [mbind outcome_bind]. destruct (S_ISREG (dev_le 2 pos)); [reflexivity|]. destruct (S_ISDIR (dev_le 2 pos)); reflexivity.
Qed.
End Inodes.

(** ** Mounting *)

Lemma set_blocksize_zero lbs size : set_blocksize lbs size = 0 -> exists b, 9 <= b <= 12 /\ size = 2 ^ b /\ blksize_bits size = b.
Proof.
  unfold set_blocksize. change PAGE_SIZE with 4096. destruct (Z.ltb_spec 4096 size); [discriminate|]. destruct (Z.ltb_spec size 512); [discriminate|]. destruct (is_power_of_2 size) eqn:E; [|discriminate]. intros _. apply is_power_of_2_spec in E as (b & Hb & ->); [|unfold is_u64; lia]. exists b.
  assert (9 <= b) by (apply Z.le_ngt; intros Q; assert (2 ^ b <= 2 ^ 8) by (apply Z.pow_le_mono_r; lia); lia). assert (b <= 12) by (apply Z.le_ngt; intros Q; assert (2 ^ 13 <= 2 ^ b) by (apply Z.pow_le_mono_r; lia); lia).
  split; [lia|]. split; [reflexivity|]. assert (b = 9 \/ b = 10 \/ b = 11 \/ b = 12) as Q by lia; repeat (destruct Q as [Q|Q]); subst b; reflexivity.
Qed.
(** The block size and bits of a super block. *)
Definition size_ok (szs : Z * Z) : Prop := exists b, 9 <= b <= 12 /\ szs = (2 ^ b, b).
Lemma set_size_ok lbs old size r szs : sb_set_blocksize lbs old size = (r, szs) -> r <> 0 -> r = size /\ size = szs.1 /\ size_ok szs.
Proof.
  unfold sb_set_blocksize. destruct (Z.eqb_spec (set_blocksize lbs size) 0) as [E|E]; cbn [negb]; intros [= <- <-] Hr; [|contradiction]. destruct (set_blocksize_zero lbs size E) as (b & Hb & -> & Eb). split; [reflexivity|]. split; [reflexivity|]. exists b. rewrite Eb. auto.
Qed.

Section Mount.
  Context (m : mem) (sb_bread : Z -> Z -> option Z) (iget_locked : Z -> option ext2_inode_info) (dev : Z -> Z).
  Context (Hbyte : forall p, byte_ok (dev p)).
  Context (Hread : forall size b a, sb_bread size b = Some a -> holds_dev m dev a (b * size) size).

Lemma read_descs_ok size logic n : forall i l, 0 <= i -> 0 <= logic -> logic + i + Z.of_nat n + 1 < 2 ^ 64 -> read_descs sb_bread n size logic i = Ok l -> length l = n /\ forall j, (j < n)%nat -> exists a, l !! j = Some a /\ sb_bread size (logic + 1 + (i + Z.of_nat j)) = Some a.
Proof using Type.
  clear. induction n as [|n IH]; intros i l Hi Hlo Hb E; cbn [read_descs] in E; [injection E as <-; split; [reflexivity|lia]|]. destruct (sb_bread size (descriptor_loc logic i)) as [a|] eqn:Ea; [|discriminate E]. destruct (read_descs sb_bread n size logic (i + 1)) as [l'| | |] eqn:El; try discriminate E. injection E as <-.
  unfold descriptor_loc in Ea. rewrite u64_small in Ea by (unfold is_u64; lia). destruct (IH (i + 1) l' ltac:(lia) Hlo ltac:(lia) El) as [L1 L2]. split; [cbn; lia|]. intros [|j] Hj; [exists a; split; [reflexivity|]; rewrite <- Ea; f_equal; lia|]. destruct (L2 j ltac:(lia)) as (a' & E1 & E2). exists a'. split; [exact E1|]. rewrite <- E2. f_equal. lia.
Qed.
Lemma get_inode_ipg sb ino p : 1 <= ino <= 2 ^ 32 -> ext2_get_inode m sb_bread sb ino = Ok p -> s_inodes_per_group (EXT2_SB sb) <> 0.
Proof using Type. clear. intros _. unfold ext2_get_inode, EXT2_INODES_PER_GROUP. destruct (Z.eqb_spec (s_inodes_per_group (EXT2_SB sb)) 0); [discriminate|]. auto. Qed.
Lemma load_dev_range n a v : load_le n m a = Ok v -> (forall x, a <= x < a + Z.of_nat n -> exists c, m !! x = Some c /\ byte_ok c) -> 0 <= v < 2 ^ (8 * Z.of_nat n).
Proof using Type. clear. intros E Hb. destruct (load_le_bytes n m a Hb) as (w & Ew & Hw). congruence. Qed.
Lemma bread_bytes size b a d n : sb_bread size b = Some a -> 0 <= d -> d + n <= size -> forall x, a + d <= x < a + d + n -> exists c, m !! x = Some c /\ byte_ok c.
Proof using Hbyte Hread. intros Ha Hd Hn x Hx. pose proof (Hread size b a Ha (x - a) ltac:(lia)) as E. replace (a + (x - a)) with x in E by lia. eauto. Qed.

(** The super block that was read: block size, place and first block of the descriptors. *)
Record es_ok (size es logic : Z) : Prop := {
  eo_size : exists b, 10 <= b <= 12 /\ size = 2 ^ b;
  eo_logic : 0 <= logic <= 1;
  eo_bytes : forall x, es <= x < es + 256 -> exists c, m !! x = Some c /\ byte_ok c }.
Lemma es_place size a : (exists b, 10 <= b <= 12 /\ size = 2 ^ b) -> sb_bread size (BLOCK_SIZE / size) = Some a -> es_ok size (a + BLOCK_SIZE mod size) (BLOCK_SIZE / size).
Proof using Hbyte Hread.
  intros (b & Hb & ->) Ha. split; [eauto| |].
  - assert (b = 10 \/ b = 11 \/ b = 12) as Q by lia. repeat (destruct Q as [Q|Q]); subst b; vm_compute; split; congruence.
  - apply (bread_bytes _ _ _ _ 256 Ha); assert (b = 10 \/ b = 11 \/ b = 12) as Q by lia; repeat (destruct Q as [Q|Q]); subst b; vm_compute; congruence.
Qed.
Lemma es_load size es logic n d v : es_ok size es logic -> load_le n m (es + d) = Ok v -> 0 <= d -> d + Z.of_nat n <= 256 -> 0 <= v < 2 ^ (8 * Z.of_nat n).
Proof using Type. clear Hbyte Hread. intros E Hv Hd Hn. apply (load_dev_range n (es + d) v Hv). intros x Hx. apply (eo_bytes _ _ _ E). lia. Qed.

(** The rest of mounting, once the block size is set. *)
Lemma mount_sb b es logic isize ipg bpg groups descs : 10 <= b <= 12 -> 0 <= logic <= 1 -> 128 <= isize <= 2 ^ b -> is_power_of_2 isize = true -> 0 < ipg < 2 ^ 32 -> 0 < groups <= 2 ^ 32 ->
  read_descs sb_bread (Z.to_nat (s32 (u64 (groups + 2 ^ b / SIZEOF_GROUP_DESC - 1) / (2 ^ b / SIZEOF_GROUP_DESC)))) (2 ^ b) logic 0 = Ok descs ->
  dev_ok m sb_bread (SuperBlock b (2 ^ b) (SbInfo 1 ipg bpg (2 ^ b / SIZEOF_GROUP_DESC) groups es (__ilog2_u64 (2 ^ b / SIZEOF_GROUP_DESC)) isize descs (__ilog2_u64 (2 ^ b / 4)))) (b - 2) dev (logic + 1).
Proof using Hbyte Hread.
  intros Hb Hlo His Hpow Hipg Hgr Hde. assert (2 ^ b / SIZEOF_GROUP_DESC = 2 ^ (b - 5) /\ 2 ^ b / 4 = 2 ^ (b - 2) /\ __ilog2_u64 (2 ^ (b - 5)) = b - 5 /\ __ilog2_u64 (2 ^ (b - 2)) = b - 2 /\ 4 * 2 ^ (b - 2) = 2 ^ b) as (E1 & E2 & E3 & E4 & E5) by (assert (b = 10 \/ b = 11 \/ b = 12) as Q by lia; repeat (destruct Q as [Q|Q]); subst b; repeat split; reflexivity).
  rewrite E1, E2, E3, E4 in *. assert (32 <= 2 ^ (b - 5) <= 128) as Hd by (split; [apply (Z.pow_le_mono_r 2 5)|apply (Z.pow_le_mono_r 2 _ 7)]; lia). set (d := 2 ^ (b - 5)) in *. split; cbn [EXT2_SB s_inodes_per_group s_blocksize s_groups_count s_desc_per_block s_group_desc]; auto.
  - split; cbn [EXT2_SB s_blocksize s_blocksize_bits s_addr_per_block_bits s_desc_per_block s_desc_per_block_bits s_inode_size]; [lia|lia|lia|reflexivity|unfold d; f_equal; lia|lia|].
    apply is_power_of_2_spec in Hpow as (j & Hj & Ej); [|assert (2 ^ b <= 2 ^ 12) by (apply Z.pow_le_mono_r; lia); unfold is_u64; lia]. exists j. split; [|exact Ej]. subst isize. assert (7 <= j) by (apply Z.le_ngt; intros Q; assert (2 ^ j <= 2 ^ 6) by (apply Z.pow_le_mono_r; lia); lia). assert (j <= b) by (apply Z.le_ngt; intros Q; assert (2 ^ b < 2 ^ j) by (apply Z.pow_lt_mono_r; lia); lia). lia.
  - intros i Hi Hlt. rewrite (u64_small (groups + d - 1)) in Hde by (unfold is_u64; lia). assert (0 <= (groups + d - 1) / d <= 2 ^ 30) as Hq by (split; [apply Z.div_pos; lia|apply Z.div_le_upper_bound; lia]). rewrite s32_small in Hde by lia.
    destruct (read_descs_ok (2 ^ b) logic (Z.to_nat ((groups + d - 1) / d)) 0 descs ltac:(lia) ltac:(lia) ltac:(lia) Hde) as [_ Hl]. assert (i < (groups + d - 1) / d) as Hlt' by (apply Z.lt_le_trans with (i + 1); [lia|]; apply Z.div_le_lower_bound; lia). destruct (Hl (Z.to_nat i) ltac:(lia)) as (a & Ea & Eb). exists a. split; [exact Ea|]. rewrite Z2Nat.id in Eb by lia. apply Hread. rewrite <- Eb. f_equal.
Qed.

Lemma min_size_ok lbs old bs szs : sb_min_blocksize lbs old BLOCK_SIZE = (bs, szs) -> bs <> 0 -> exists b, 10 <= b <= 12 /\ bs = 2 ^ b /\ szs = (2 ^ b, b).
Proof using Type.
  clear. unfold sb_min_blocksize. intros E Hne. destruct (set_size_ok _ _ _ _ _ E Hne) as (E1 & E2 & b & Hb & Es). exists b. subst szs. cbn [fst] in E2. split; [|split; [congruence|reflexivity]]. assert (b <> 9); [|lia]. intros ->. change BLOCK_SIZE with 1024 in E2. destruct (Z.ltb_spec 1024 lbs); lia.
Qed.
Lemma shl32_block lg bs : shl32 BLOCK_SIZE lg = Ok bs -> 0 <= lg -> bs <> 512 /\ - 2 ^ 31 <= bs < 2 ^ 31.
Proof using Type.
  clear. unfold shl32. destruct (Z.leb_spec 32 lg); [discriminate|]. intros [= <-] H0. split; [|unfold s32; pose proof (Z.mod_pos_bound (Z.shiftl BLOCK_SIZE lg + 2 ^ 31) (2 ^ 32) ltac:(lia)); lia].
  change BLOCK_SIZE with (2 ^ 10). rewrite Z.shiftl_mul_pow2, <- Z.pow_add_r by lia. intros Q. destruct (Z.le_gt_cases (10 + lg) 30) as [Hle|Hgt].
  - assert (2 ^ 10 <= 2 ^ (10 + lg) <= 2 ^ 30) by (split; apply Z.pow_le_mono_r; lia). rewrite s32_small in Q by lia. lia.
  - assert (2 ^ (10 + lg) = 2 ^ 31 * 2 ^ (lg - 21)) as E by (rewrite <- Z.pow_add_r by lia; f_equal; lia). rewrite E in Q. unfold s32 in Q. set (y := 2 ^ (lg - 21)) in *. Z.div_mod_to_equations. lia.
Qed.
Lemma reread_ok lbs b lg bs es logic r : 10 <= b <= 12 -> es_ok (2 ^ b) es logic -> shl32 BLOCK_SIZE lg = Ok bs -> 0 <= lg -> reread_super m sb_bread lbs (2 ^ b, b) bs es logic = Ok r -> exists b' es' logic', r = (es', (2 ^ b', b'), logic') /\ 10 <= b' <= 12 /\ bs = 2 ^ b' /\ es_ok (2 ^ b') es' logic'.
Proof using Hbyte Hread.
  intros Hb Hes Hbs Hlg E. destruct (shl32_block lg bs Hbs Hlg) as [Hn Hr]. unfold reread_super in E. cbn [fst] in E. destruct (Z.eqb_spec (2 ^ b) (u64 bs)) as [Eq|Eq]; cbn [negb] in E.
  - injection E as <-. exists b, es, logic. split; [reflexivity|]. split; [exact Hb|]. split; [|exact Hes]. assert (2 ^ 10 <= 2 ^ b <= 2 ^ 12) by (split; apply Z.pow_le_mono_r; lia). assert (0 <= bs) as H0. { apply Z.le_ngt. intros Q. assert (u64 bs = bs + 2 ^ 64) as Q2 by (unfold u64; symmetry; apply (Z.mod_unique_pos _ _ (-1)); lia). lia. } rewrite u64_small in Eq by (unfold is_u64; lia). lia.
  - destruct (sb_set_blocksize lbs (2 ^ b, b) bs) as [r0 szs] eqn:Es. destruct (Z.eqb_spec r0 0) as [|Hne]; [discriminate E|]. destruct (set_size_ok _ _ _ _ _ Es Hne) as (_ & E2 & b' & Hb' & ->). cbn [fst] in *. rewrite !Z.mul_1_l in E. destruct (sb_bread (2 ^ b') (BLOCK_SIZE / bs)) as [a|] eqn:Ea; [|discriminate E].
    destruct (s_magic m (a + BLOCK_SIZE mod bs)) as [mg| | |]; cbn [mbind outcome_bind] in E; try discriminate E. destruct (mg =? EXT2_SUPER_MAGIC); cbn [negb] in E; [|discriminate E]. injection E as <-. assert (10 <= b' <= 12) as Hb2 by (assert (b' <> 9) by (intros ->; apply Hn; exact E2); lia). exists b', (a + BLOCK_SIZE mod bs), (BLOCK_SIZE / bs). split; [reflexivity|]. split; [exact Hb2|]. split; [exact E2|]. rewrite E2 in *. apply es_place; [eauto|exact Ea].
Qed.

(** What mounting leaves. *)
Definition mounted (sb : super_block) (root : ext2_inode_info) : Prop := exists k desc0, dev_ok m sb_bread sb k dev desc0 /\ 8 <= k /\ S_ISDIR (i_mode root) = true /\ i_size root <> 0.
Lemma mount_spec lbs old sb root i0 : iget_locked EXT2_ROOT_INO = Some i0 -> Z.land (i_state i0) I_NEW <> 0 -> ext2_fill_super m sb_bread iget_locked lbs old = Ok (sb, root) -> mounted sb root.
Proof using Hbyte Hread.
  intros Hi Hnew E. unfold ext2_fill_super in E. destruct (sb_min_blocksize lbs old BLOCK_SIZE) as [bs0 szs0] eqn:E0. destruct (Z.eqb_spec bs0 0) as [|Hne]; [discriminate E|]. destruct (min_size_ok _ _ _ _ E0 Hne) as (b0 & Hb0 & -> & ->). cbn [fst snd] in E.
  assert ((if negb (2 ^ b0 =? BLOCK_SIZE) then (1 * BLOCK_SIZE / 2 ^ b0, (1 * BLOCK_SIZE) mod 2 ^ b0) else (1, 0)) = (BLOCK_SIZE / 2 ^ b0, BLOCK_SIZE mod 2 ^ b0)) as El by (assert (b0 = 10 \/ b0 = 11 \/ b0 = 12) as Q by lia; repeat (destruct Q as [Q|Q]); subst b0; reflexivity). rewrite El in E. clear El.
  destruct (sb_bread (2 ^ b0) (BLOCK_SIZE / 2 ^ b0)) as [a|] eqn:Ea; [|discriminate E]. pose proof (es_place (2 ^ b0) a ltac:(eauto) Ea) as Hes. destruct (s_log_block_size m (a + BLOCK_SIZE mod 2 ^ b0)) as [lg| | |] eqn:Elg; cbn [mbind outcome_bind] in E; try discriminate E. pose proof (es_load _ _ _ 4 24 lg Hes Elg ltac:(lia) ltac:(lia)) as Hlg.
  destruct (shl32 BLOCK_SIZE lg) as [bs| | |] eqn:Ebs; cbn [mbind outcome_bind] in E; try discriminate E. destruct (reread_super _ _ _ _ _ _ _) as [r| | |] eqn:Er; cbn [mbind outcome_bind] in E; try discriminate E. destruct (reread_ok lbs b0 lg bs _ _ r Hb0 Hes Ebs ltac:(lia) Er) as (b & es & logic & -> & Hb & -> & Hes'). cbn [fst snd] in E. clear Er Hes Ea.
  destruct (s_rev_level m es) as [rev| | |]; cbn [mbind outcome_bind] in E; try discriminate E. destruct (rev =? EXT2_GOOD_OLD_REV); [discriminate E|]. destruct (es_inode_size m es) as [isize| | |]; cbn [mbind outcome_bind] in E; try discriminate E. destruct ((isize <? EXT2_GOOD_OLD_INODE_SIZE) || negb (is_power_of_2 isize) || (2 ^ b <? isize)) eqn:Eis; [discriminate E|].
  apply orb_false_iff in Eis as [Eis1 Eis3]. apply orb_false_iff in Eis1 as [Eis1 Eis2]. apply negb_false_iff in Eis2. apply Z.ltb_ge in Eis1, Eis3. destruct (es_inodes_per_group m es) as [ipg| | |] eqn:Eipg; cbn [mbind outcome_bind] in E; try discriminate E. pose proof (es_load _ _ _ 4 40 ipg Hes' Eipg ltac:(lia) ltac:(lia)) as Hipg. destruct (es_blocks_per_group m es) as [bpg| | |] eqn:Ebpg; cbn [mbind outcome_bind] in E; try discriminate E.
  pose proof (es_load _ _ _ 4 32 bpg Hes' Ebpg ltac:(lia) ltac:(lia)) as Hbpg. destruct (Z.eqb_spec bpg 0) as [|Hbpg0]; [discriminate E|]. destruct (s_blocks_count m es) as [bc| | |]; cbn [mbind outcome_bind] in E; try discriminate E. destruct (s_first_data_block m es) as [fd| | |]; cbn [mbind outcome_bind] in E; try discriminate E.
  pose proof (Z.mod_pos_bound (bc - fd - 1) (2 ^ 32) ltac:(lia)) as Hu. fold (u32 (bc - fd - 1)) in Hu. assert (0 <= u32 (bc - fd - 1) / bpg < 2 ^ 32) as Hq by (split; [apply Z.div_pos; lia|apply Z.div_lt_upper_bound; nia]). rewrite (u64_small (u32 (bc - fd - 1) / bpg + 1)) in E by (unfold is_u64; lia). set (groups := u32 (bc - fd - 1) / bpg + 1) in *.
  destruct (read_descs _ _ _ _ _) as [descs| | |] eqn:Ed; cbn [mbind outcome_bind] in E; try discriminate E. destruct (ext2_iget _ _ _ _ _) as [[e|rt]| | |] eqn:Ert; cbn [mbind outcome_bind] in E; try discriminate E. destruct (negb (S_ISDIR (i_mode rt)) || (i_blocks rt =? 0) || (i_size rt =? 0)) eqn:Ech; [discriminate E|]. injection E as <- <-.
  apply orb_false_iff in Ech as [Ech1 Ech3]. apply orb_false_iff in Ech1 as [Ech1 _]. apply negb_false_iff in Ech1. apply Z.eqb_neq in Ech3. assert (ipg <> 0) as Hi0. { unfold ext2_iget in Ert. rewrite Hi in Ert. destruct (Z.eqb_spec (Z.land (i_state i0) I_NEW) 0); [contradiction|]. destruct (ext2_get_inode _ _ _ _) as [p| | |] eqn:Eg; cbn [mbind outcome_bind] in Ert; try discriminate Ert. exact (get_inode_ipg _ 2 p ltac:(lia) Eg). }
  exists (b - 2), (logic + 1). split; [|split; [lia|auto]]. change (8 * Z.of_nat 4) with 32 in *. apply (mount_sb b es logic isize ipg bpg groups descs Hb (eo_logic _ _ _ Hes')); try assumption; unfold EXT2_GOOD_OLD_INODE_SIZE in *; lia.
Qed.
End Mount.
