(* ===== verification/Ext2Example.v ===== *)
(** * A small ext2 file system: the theorems of [Ext2Spec] on it

    Five blocks of 1024 bytes: the super block, one group descriptor, a block of
    inodes, and the root directory with the entries [.], [..] and [init]. *)

From Stdlib Require Import ZArith Lia Bool.
From stdpp Require Import base tactics numbers list gmap strings.
From S2P Require Import Prelude Words Mem LibString OfTree Ext2 Ext2Spec.

Definition le16 (v : Z) : list Z := [v mod 256; v / 256].
Definition le32 (v : Z) : list Z := le16 (v mod 65536) ++ le16 (v / 65536).
Definition put (off : nat) (bytes l : list Z) : list Z := take off l ++ bytes ++ drop (off + length bytes) l.
Definition dirent_bytes (ino rec : Z) (name : list Z) : list Z := le32 ino ++ le16 rec ++ [Z.of_nat (length name); 0] ++ name.
Definition ex_init : list Z := [105; 110; 105; 116].
Definition ex_image : list Z :=
  put 1028 (le32 5) (put 1044 (le32 1) (put 1056 (le32 8192) (put 1064 (le32 8) (put 1080 (le16 EXT2_SUPER_MAGIC) (put 1100 (le32 1) (put 1112 (le16 128)
  (put 2056 (le32 3)
  (put 3200 (le16 0x41ed) (put 3204 (le32 1024) (put 3228 (le32 2) (put 3240 (le32 4)
  (put 3328 (le16 0x81a4) (put 3332 (le32 3000) (put 3356 (le32 6) (put 3368 (le32 7 ++ le32 8 ++ le32 40)
  (put 4096 (dirent_bytes 2 12 [46] ++ [0; 0; 0]) (put 4108 (dirent_bytes 2 12 [46; 46]) (put 4120 (dirent_bytes 3 1000 ex_init)
  (replicate (Z.to_nat 5120) 0))))))))))))))))))).
Definition ex_base : Z := 0x100000.
Definition ex_name : Z := 0x100.
Definition ex_m : mem := map_seqZ ex_base ex_image ∪ map_seqZ ex_name ex_init.
Definition ex_dev (p : Z) : Z := default 0 (if p <? 0 then None else ex_image !! Z.to_nat p).
Definition ex_bread (size b : Z) : option Z := if (0 <=? b) && (0 <? size) && ((b + 1) * size <=? 5120) then Some (ex_base + b * size) else None.
Definition ex_new (ino : Z) : option ext2_inode_info := Some (InodeInfo (replicate 15 0) 0 0 ino 0 10 0 I_NEW NoOps).

Lemma ex_image_ok : Z.of_nat (length ex_image) = 5120 /\ Forall byte_ok ex_image.
Proof.
  split; [vm_compute; reflexivity|]. assert (forallb (fun x => (0 <=? x) && (x <? 256)) ex_image = true) as H by (vm_compute; reflexivity). apply Forall_forall. intros x Hx. rewrite forallb_forall in H. apply list_elem_of_In in Hx. apply H, andb_true_iff in Hx as [H1 H2]. unfold byte_ok. lia.
Qed.
Lemma ex_byte p : byte_ok (ex_dev p).
Proof.
  unfold ex_dev. destruct (Z.ltb_spec p 0); [split; cbn; lia|]. destruct (ex_image !! Z.to_nat p) as [c|] eqn:E; [|split; cbn; lia]. destruct ex_image_ok as [_ F]. rewrite Forall_lookup in F. exact (F _ _ E).
Qed.
Lemma ex_holds p : 0 <= p < 5120 -> ex_m !! (ex_base + p) = Some (ex_dev p).
Proof.
  intros Hp. destruct ex_image_ok as [El _]. unfold ex_m. destruct (lookup_lt_is_Some_2 ex_image (Z.to_nat p) ltac:(lia)) as [c Hc]. apply lookup_union_Some_l, lookup_map_seqZ_Some. split; [lia|]. replace (ex_base + p - ex_base) with p by lia. rewrite Hc. unfold ex_dev. destruct (Z.ltb_spec p 0); [lia|]. rewrite Hc. reflexivity.
Qed.
Lemma ex_read size b a : ex_bread size b = Some a -> holds_dev ex_m ex_dev a (b * size) size.
Proof.
  unfold ex_bread. destruct (Z.leb_spec 0 b), (Z.ltb_spec 0 size), (Z.leb_spec ((b + 1) * size) 5120); cbn [andb]; try discriminate. intros [= <-] x Hx. rewrite <- Z.add_assoc. apply ex_holds. nia.
Qed.
Definition ex_mounted : super_block * ext2_inode_info :=
  match ext2_fill_super ex_m ex_bread ex_new 512 (0, 0) with Ok r => r | _ => (SuperBlock 0 0 (SbInfo 0 0 0 0 0 0 0 0 [] 0), InodeInfo [] 0 0 0 0 0 0 0 NoOps) end.
Definition ex_sb : super_block := Eval vm_compute in ex_mounted.1.
Definition ex_rootdir : ext2_inode_info := Eval vm_compute in ex_mounted.2.
Lemma ex_mount : ext2_fill_super ex_m ex_bread ex_new 512 (0, 0) = Ok (ex_sb, ex_rootdir).
Proof. vm_compute. reflexivity. Qed.
Lemma ex_new_flag : Z.land (i_state (InodeInfo (replicate 15 0) 0 0 EXT2_ROOT_INO 0 10 0 I_NEW NoOps)) I_NEW <> 0.
Proof. vm_compute. congruence. Qed.
Lemma ex_sb_ok : sb_ok ex_sb 8.
Proof. split; try reflexivity; [lia|]. exists 7. split; [lia|reflexivity]. Qed.
Lemma ex_dev_ok : dev_ok ex_m ex_bread ex_sb 8 ex_dev 2.
Proof.
  split; [exact ex_sb_ok|exact ex_byte|split; reflexivity|intros b a; apply ex_read|]. intros i Hi Hlt. change (i * 32 < 1) in Hlt. assert (i = 0) as -> by lia. eexists. split; [reflexivity|]. apply (ex_read 1024 2). reflexivity.
Qed.
Lemma ex_buffer b a : ex_bread (s_blocksize ex_sb) b = Some a -> forall x, a <= x < a + s_blocksize ex_sb -> exists c, ex_m !! x = Some c /\ byte_ok c.
Proof. intros Ha x Hx. pose proof (ex_read _ _ _ Ha (x - a) ltac:(lia)) as E. replace (a + (x - a)) with x in E by lia. eauto using ex_byte. Qed.


(** The file [init]: two adjacent blocks and a third one elsewhere. *)
Definition ex_file : ext2_inode_info := InodeInfo ([7; 8; 40] ++ replicate 12 0) 0 0x81a4 3 3000 10 6 I_NEW FileOps.
Lemma iget_exact_witness : ext2_iget ex_m ex_bread ex_new ex_sb 3 = Ok (inr ex_file).
Proof.
  rewrite (iget_exact ex_m ex_bread ex_new ex_sb 8 ex_dev 2 ex_dev_ok 3 (InodeInfo (replicate 15 0) 0 0 3 0 10 0 I_NEW NoOps) (ex_base + 3072)); [vm_compute; reflexivity|lia|reflexivity|vm_compute; reflexivity|reflexivity|vm_compute; congruence].
Defined.
Lemma get_blocks_exact_witness : exists boundary, ext2_get_blocks ex_m ex_bread ex_sb ex_file 0 4 = Ok (2, 7, boundary).
Proof.
  destruct (get_blocks_exact ex_m ex_bread ex_sb 8 ex_sb_ok ex_buffer ex_file eq_refl ltac:(repeat constructor; lia) 0 4 7) as (count & boundary & E & _ & _ & _ & _); [split; [lia|reflexivity]|lia|vm_compute; reflexivity|].
  exists boundary. rewrite E. pose proof (f_equal (fun r => match r with Ok (c, _, _) => Some c | _ => None end) E) as Ec. vm_compute in Ec. congruence.
Defined.
Lemma block_path_roundtrip_witness : exists offs b, ext2_block_to_path ex_sb 1000 = Ok (offs, b) /\ path_block 256 offs = 1000.
Proof.
  destruct (block_path_roundtrip ex_sb 8 1000 ex_sb_ok ltac:(lia)) as [(offs & b & E & _ & _ & P & _)|[_ H]]; [exists offs, b; split; [exact E|exact P]|]. exfalso. revert H. vm_compute. congruence.
Defined.

Definition ex_page (dir : ext2_inode_info) (n : Z) : option Z := if n =? 0 then Some (ex_base + 4096) else None.
Definition ex_entries : list dirent := [Dirent 2 12 [46]; Dirent 2 12 [46; 46]; Dirent 3 1000 ex_init].
Lemma ex_dir_ok : dir_ok ex_m ex_page ex_rootdir (fun _ => ex_base + 4096) (fun _ => ex_entries).
Proof.
  split; [split; [split; reflexivity|reflexivity]|split; [vm_compute; congruence|reflexivity]|vm_compute; congruence|]. intros n Hn. change (0 <= n < 1) in Hn. assert (n = 0) as -> by lia. split; [reflexivity|]. split; [|vm_compute; reflexivity]. cbn [entries_at ex_entries]. unfold entry_at. cbn [d_ino d_rec d_name length bytes_at ex_init]. vm_compute. repeat split; congruence.
Qed.
Lemma dir_lookup_exact_witness : exists dir', ext2_inode_by_name ex_m ex_page ex_rootdir ex_name 4 = Ok (inr 3, dir').
Proof.
  assert (bytes_at ex_m ex_name ex_init) as Hn by (vm_compute; auto). destruct (dir_lookup_exact ex_m ex_page ex_rootdir _ _ ex_dir_ok ex_name ex_init Hn ltac:(vm_compute; lia)) as [(n & e & _ & He & [Hnm _] & dir' & E & _)|[_ H]].
  - exists dir'. cbn in He. repeat (apply elem_of_cons in He as [->|He]; [first [discriminate Hnm|exact E]|]). inversion He.
  - exfalso. apply (H 0 (Dirent 3 1000 ex_init)); [vm_compute; split; congruence|right; right; left|split; [reflexivity|cbn; lia]].
Defined.
