(* ===== verification/RbAugment.v ===== *)
(** * include/rbtree.h: trees augmented with a maximum over each subtree

    [RB_DECLARE_CALLBACKS_MAX] declares the callbacks of a tree whose nodes carry the largest
    value of their subtree.  A structure holds its node [off_node] bytes and the maximum [off_aug]
    bytes after its start; [RBCOMPUTE] is the value of one structure.  The callback
    of rotations discharges the interface [RotateSpec] of the tree code, for any value that
    the structures determine. *)

From Stdlib Require Import ZArith Lia.
From stdpp Require Import base tactics numbers list strings gmap functions.
From iris.proofmode Require Import proofmode.
From S2P Require Import Prelude HeapLogic RbTree RbTreeProofs RbTreeSpec.
#[local] Open Scope Z_scope.

(** ** The callbacks *)

Section Callbacks.
Context (off_node off_aug : Z) (RBCOMPUTE : Z -> prog Z).

Definition max_child (child max : Z) : prog Z :=
  if child =? 0 then mret max else a ← ld (child - off_node + off_aug); mret (if max <? a then a else max).
Definition compute_max (node : Z) (exit : bool) : prog bool :=
  max ← RBCOMPUTE node;
  l ← rb_left (node + off_node); max ← max_child l max;
  r ← rb_right (node + off_node); max ← max_child r max;
  same ← (if exit then a ← ld (node + off_aug); mret (a =? max) else mret false);
  if (same : bool) then mret true else st (node + off_aug) max;; mret false.
Fixpoint propagate (f : nat) (rb stop : Z) : prog unit :=
  match f with
  | O => no_fuel
  | S f =>
      if rb =? stop then mret tt
      else
        done ← compute_max (rb - off_node) true;
        if (done : bool) then mret tt else p ← rb_parent (rb - off_node + off_node); propagate f p stop
  end.
Definition augment_copy (rb_old rb_new : Z) : prog unit := x ← ld (rb_old - off_node + off_aug); st (rb_new - off_node + off_aug) x.
Definition augment_rotate (rb_old rb_new : Z) : prog unit := augment_copy rb_old rb_new;; compute_max (rb_old - off_node) false;; mret tt.
End Callbacks.
Definition rb_insert_augmented (rotate : Z -> Z -> prog unit) (f : nat) (node root : Z) : prog unit := __rb_insert rotate f node root.

(** ** Labelled trees *)

Section Labels.
Context (w : Z -> Z).
(** The largest value of some nodes. *)
Fixpoint wmax (l : list Z) : Z := match l with [] => 0 | n :: l => Z.max (w n) (wmax l) end.
Lemma wmax_app l1 l2 : wmax (l1 ++ l2) = Z.max (wmax l1) (wmax l2).
Proof. induction l1 as [|n l1 IH]; simpl; [|lia]. assert (0 <= wmax l2) by (clear; induction l2; simpl; lia). lia. Qed.
Lemma wmax_nonneg l : 0 <= wmax l.
Proof. induction l; simpl; lia. Qed.

(** Every label is the maximum of its subtree; [ctx_ok k v]: so they are around the hole [k]
    if the maximum of what fills it is [v]. *)
Fixpoint aug_ok (lab : Z -> Z) (t : tree) : Prop :=
  match t with Leaf => True | Node _ p l r => lab p = wmax (inorder t) /\ aug_ok lab l /\ aug_ok lab r end.
Fixpoint ctx_ok (lab : Z -> Z) (k : ctx) (v : Z) : Prop :=
  match k with [] => True | (_, _, p, s) :: k => lab p = Z.max (w p) (Z.max v (wmax (inorder s))) /\ aug_ok lab s /\ ctx_ok lab k (lab p) end.
Definition kids_ok (lab : Z -> Z) (t : tree) : Prop := match t with Leaf => True | Node _ _ l r => aug_ok lab l /\ aug_ok lab r end.

Lemma wmax_node d c p a b : wmax (inorder (node_of d c p a b)) = Z.max (w p) (Z.max (wmax (inorder a)) (wmax (inorder b))).
Proof. destruct d; simpl; rw wmax_app /=; lia. Qed.
Lemma aug_node lab d c p a b : aug_ok lab (node_of d c p a b) <-> lab p = wmax (inorder (node_of d c p a b)) /\ aug_ok lab a /\ aug_ok lab b.
Proof. destruct d; simpl; tauto. Qed.
Lemma aug_plug lab k : forall t, aug_ok lab (plug k t) <-> aug_ok lab t /\ ctx_ok lab k (wmax (inorder t)).
Proof.
  induction k as [|[[[d c] p] s] k IH]; intros t; cbn [plug ctx_ok]; [tauto|]. rw IH aug_node wmax_node. split.
  - intros ((E & H1 & H2) & Hk). rw E. tauto.
  - intros (H1 & E & H2 & Hk). rw E in Hk. tauto.
Qed.
Lemma aug_shape lab t : forall t', shape t = shape t' -> aug_ok lab t <-> aug_ok lab t'.
Proof.
  assert (forall u, inorder (shape u) = inorder u) as Hi by (induction u; simpl; congruence).
  induction t as [|c p l IHl r IHr]; intros [|c' p' l' r'] E; try done. simpl in E. injection E as -> El Er. simpl. rw (IHl _ El) (IHr _ Er). rw -(Hi l) -(Hi r) El Er !Hi. done.
Qed.
Lemma aug_agree lab lab' t : (forall p, p ∈ inorder t -> lab' p = lab p) -> aug_ok lab t -> aug_ok lab' t.
Proof.
  induction t as [|c p l IHl r IHr]; cbn [aug_ok]; [done|]. intros E (H & Hl & Hr). simpl in E. split; [|split].
  - rw E; [exact H|set_solver].
  - apply IHl; [|done]. intros q Hq. apply E. set_solver.
  - apply IHr; [|done]. intros q Hq. apply E. set_solver.
Qed.
Lemma aug_insert lab n x t : n ∉ inorder t -> aug_ok lab t -> aug_ok (<[n:=x]> lab) t.
Proof. intros Hn. apply aug_agree. intros p Hp. rw fn_lookup_insert_ne //. intros ->. done. Qed.
Lemma ctx_insert lab n x k : forall v, n ∉ ctx_before k ++ ctx_after k -> ctx_ok lab k v -> ctx_ok (<[n:=x]> lab) k v.
Proof.
  induction k as [|[[[d c] p] s] k IH]; intros v Hn; cbn [ctx_ok]; [done|]. intros (E & Hs & Hk). assert (n <> p /\ n ∉ inorder s /\ n ∉ ctx_before k ++ ctx_after k) as (H1 & H2 & H3) by (destruct d; simpl in Hn; set_solver).
  rw fn_lookup_insert_ne //. split; [exact E|]. split; [by apply aug_insert|by apply IH].
Qed.
End Labels.

(** The values matter only at the nodes of the tree. *)
Lemma wmax_agree w w' l : (forall n, n ∈ l -> w' n = w n) -> wmax w' l = wmax w l.
Proof. induction l as [|n l IH]; simpl; intros H; [done|]. rw H; [|left]. rw IH //. intros m Hm. apply H. by right. Qed.
Lemma aug_values w w' lab t : (forall n, n ∈ inorder t -> w' n = w n) -> aug_ok w lab t -> aug_ok w' lab t.
Proof.
  induction t as [|c p l IHl r IHr]; cbn [aug_ok]; [done|]. intros E (H & Hl & Hr). split; [rw H; symmetry; by apply wmax_agree|]. simpl in E.
  split; [apply IHl|apply IHr]; try done; intros n Hn; apply E; apply elem_of_app; [by left|by right; right].
Qed.
Lemma ctx_values w w' lab k : forall v, (forall n, n ∈ ctx_before k ++ ctx_after k -> w' n = w n) -> ctx_ok w lab k v -> ctx_ok w' lab k v.
Proof.
  induction k as [|[[[d c] p] s] k IH]; intros v H; cbn [ctx_ok]; [done|]. intros (E & Hs & Hk).
  assert (forall n, n = p \/ n ∈ inorder s \/ n ∈ ctx_before k ++ ctx_after k -> w' n = w n) as H' by (intros n Hn; apply H; destruct d; simpl; rewrite ?elem_of_app ?elem_of_cons; rewrite ?elem_of_app in Hn; rewrite ?elem_of_cons ?elem_of_app ?elem_of_nil; tauto).
  split; [|split; [apply (aug_values w); auto|apply IH; auto]]. rw E H'; [|auto]. rw (wmax_agree w w' (inorder s)); auto.
Qed.
Lemma sub_ctx N k t : inorder (plug k t) = N -> NoDup N -> inorder t ⊆ N /\ NoDup (inorder t) /\ forall n, n ∈ inorder t -> n ∉ ctx_before k ++ ctx_after k.
Proof.
  intros <-. rw inorder_ctx. intros HN. split; [set_solver|]. apply NoDup_app in HN as (_ & H1 & H2). apply NoDup_app in H2 as (H2 & H3 & _). split; [exact H2|]. intros n Hn Hin. apply elem_of_app in Hin as [Hin|Hin]; [apply (H1 n Hin); set_solver|by apply (H3 n)].
Qed.
Lemma NoDup_mid (x : Z) l1 l2 : NoDup (l1 ++ x :: l2) -> x ∉ l1 /\ x ∉ l2 /\ NoDup l1 /\ NoDup l2 /\ (forall y, y ∈ l1 -> y ∉ l2).
Proof. intros ND. apply NoDup_app in ND as (H0 & H1 & H2). apply NoDup_cons in H2 as [H2 H3]. repeat split; try done; [intros H; apply (H1 _ H); left|]. intros y Hy Hy2. apply (H1 _ Hy). by right.
Qed.
Lemma NoDup_node c n l r : NoDup (inorder (Node c n l r)) -> n ∉ inorder l /\ n ∉ inorder r.
Proof. intros (H1 & H2 & _)%NoDup_mid. done. Qed.
Lemma sub_node (X : list Z) c n l r : inorder (Node c n l r) ⊆ X -> n ∈ X /\ inorder l ⊆ X /\ inorder r ⊆ X.
Proof. simpl. intros H. repeat split; intros; try intros m Hm; apply H; apply elem_of_app; rw elem_of_cons; tauto. Qed.
Lemma NoDup_rotate d g p A B u : NoDup (inorder (node_of d Black g (node_of d Black p A B) u)) ->
  g <> p /\ g ∉ inorder A /\ g ∉ inorder B /\ g ∉ inorder u /\ p ∉ inorder A /\ p ∉ inorder B /\ p ∉ inorder u.
Proof.
  destruct d; simpl; intros (H1 & H2 & H3 & H4 & H5)%NoDup_mid; [apply NoDup_mid in H3 as (H6 & H7 & _)|apply NoDup_mid in H4 as (H6 & H7 & _)].
  - rw not_elem_of_app not_elem_of_cons in H1. specialize (H5 p). rw elem_of_app elem_of_cons in H5. tauto. 
  - rw not_elem_of_app not_elem_of_cons in H2. repeat split; try tauto. intros Hp. apply (H5 _ Hp). apply elem_of_app. right. left.
Qed.
Lemma sub_rotate N d g p A B u : inorder (node_of d Black g (node_of d Black p A B) u) ⊆ N -> g ∈ N /\ p ∈ N /\ inorder B ⊆ N /\ inorder u ⊆ N.
Proof. destruct d; simpl; intros H; repeat split; intros; try intros m Hm; apply H; repeat (rw elem_of_app || rw elem_of_cons); tauto.
Qed.
Lemma out_frame d c p s k n : n ∉ ctx_before ((d, c, p, s) :: k) ++ ctx_after ((d, c, p, s) :: k) -> n <> p /\ n ∉ inorder s /\ n ∉ ctx_before k ++ ctx_after k.
Proof. destruct d; simpl; set_solver. Qed.

(** ** The callbacks on memory *)

Section Memory.
Context (off_node off_aug : Z) (RBCOMPUTE : Z -> prog Z).
(** [F] is the memory that [RBCOMPUTE] reads, [w] the value of the structure around a node of [N]. *)
Context (F : hprop) (w : Z -> Z) (N : list Z).
Definition compute_spec : Prop := forall n Q, n ∈ N -> F -∗ (F -∗ Q (w n)) -∗ wp (RBCOMPUTE (n - off_node)) Q.
Definition label_at (n x : Z) : hprop := ((n - off_node + off_aug) ↦ x)%I.
Definition labels (lab : Z -> Z) (l : list Z) : hprop := ([∗ list] n ∈ l, label_at n (lab n))%I.
(** The augmented data of the tree [t] with the nodes [N]. *)
Definition aug_data (t : tree) : hprop := (∃ lab, ⌜aug_ok w lab t /\ inorder t = N /\ NoDup N⌝ ∗ labels lab N ∗ F)%I.

Lemma labels_agree lab lab' l : (forall n, n ∈ l -> lab n = lab' n) -> labels lab l ⊢ labels lab' l.
Proof. intros H. apply big_sepL_mono. intros i n Hn. rw H; [done|]. apply list_elem_of_lookup. eauto. Qed.
Lemma labels_acc lab l n : n ∈ l -> NoDup l -> labels lab l -∗ label_at n (lab n) ∗ (∀ x, label_at n x -∗ labels (<[n:=x]> lab) l).
Proof.
  intros Hin Hnd. apply list_elem_of_split in Hin as (l1 & l2 & ->). apply NoDup_app in Hnd as (_ & H1 & H2). apply NoDup_cons in H2 as [H2 _].
  unfold labels at 1. rw big_sepL_app big_sepL_cons. iIntros "(A & $ & B)". iIntros (x) "C". unfold labels. rw big_sepL_app big_sepL_cons fn_lookup_insert. iFrame "C". iSplitL "A".
  - iApply (labels_agree with "A"). intros m Hm. rw fn_lookup_insert_ne //. intros ->. apply (H1 _ Hm). left.
  - iApply (labels_agree with "B"). intros m Hm. rw fn_lookup_insert_ne //. by intros ->.
Qed.
Lemma labels_id lab l n : n ∈ l -> NoDup l -> labels (<[n:=lab n]> lab) l ⊢ labels lab l.
Proof. intros _ _. apply labels_agree. intros m _. destruct (decide (m = n)) as [->|Hne]; [by rw fn_lookup_insert|by rw fn_lookup_insert_ne]. Qed.

Context (HC : compute_spec) (HN : NoDup N) (HNZ : forall n, n ∈ N -> n <> 0).

(** [x] is what the root of a subtree says its largest value is. *)
Definition top (lab : Z -> Z) (t : tree) (x : Z) : Prop := match t with Leaf => x = 0 | Node _ p _ _ => p ∈ N /\ lab p = x end.
Lemma aug_top lab t : aug_ok w lab t -> inorder t ⊆ N -> top lab t (wmax w (inorder t)).
Proof using Type. clear HC HN HNZ RBCOMPUTE. destruct t as [|c p l r]; [done|]. intros (E & _) Hs. split; [apply Hs; simpl; set_solver|exact E]. Qed.
Lemma wp_max_child lab t x m Q : top lab t x -> 0 <= m ->
  labels lab N -∗ (labels lab N -∗ Q (Z.max m x)) -∗ wp (max_child off_node off_aug (ptr t) m) Q.
Proof using HN HNZ.
  clear HC RBCOMPUTE. iIntros (Ht Hm) "Hl HQ". unfold max_child. destruct t as [|c p l r]; cbn [ptr top] in *.
  - iApply wp_ret. simpl. subst x. rw Z.max_l //. by iApply "HQ".
  - destruct Ht as [Hp E]. destruct (Z.eqb_spec p 0) as [->|_]; [by destruct (HNZ 0)|].
    iDestruct (labels_acc _ _ p with "Hl") as "[H Hl]"; [done|done|]. unfold label_at. wp_ld "H". iSpecialize ("Hl" with "H"). iDestruct (labels_id with "Hl") as "Hl"; [done|done|]. iApply wp_ret.
    replace (if m <? lab p then lab p else m) with (Z.max m x) by (rw -E; destruct (Z.ltb_spec m (lab p)); lia). by iApply "HQ".
Qed.

Definition max_of (n : Z) (l r : tree) : Z := Z.max (w n) (Z.max (wmax w (inorder l)) (wmax w (inorder r))).
Lemma wp_compute_top lab n l r xl xr exit : n ∈ N -> 0 <= w n -> top lab l xl -> top lab r xr ->
  (n + off_left) ↦ ptr l -∗ (n + off_right) ↦ ptr r -∗ labels lab N -∗ F -∗
  wp (compute_max off_node off_aug RBCOMPUTE (n - off_node) exit) (fun b => (n + off_left) ↦ ptr l ∗ (n + off_right) ↦ ptr r ∗ F ∗
    if b then ⌜exit = true /\ lab n = Z.max (w n) (Z.max xl xr)⌝ ∗ labels lab N else ⌜exit = true -> lab n <> Z.max (w n) (Z.max xl xr)⌝ ∗ labels (<[n := Z.max (w n) (Z.max xl xr)]> lab) N)%I.
Proof using HC HN HNZ.
  iIntros (Hn Hw Hl Hr) "Cl Cr L HF". unfold compute_max. iApply wp_bind. iApply (HC with "HF"); [done|]. iIntros "HF". rw Z.sub_add. unfold rb_left, rb_right. wp_ld "Cl".
  iApply wp_bind. iApply (wp_max_child with "L"); [done|done|]. iIntros "L". wp_ld "Cr". iApply wp_bind. iApply (wp_max_child with "L"); [done|lia|]. iIntros "L".
  replace (Z.max (Z.max (w n) xl) xr) with (Z.max (w n) (Z.max xl xr)) by lia. iDestruct (labels_acc _ _ n with "L") as "[H L]"; [done|done|]. unfold label_at. iApply wp_bind. destruct exit.
  - wp_ld "H". iApply wp_ret. destruct (Z.eqb_spec (lab n) (Z.max (w n) (Z.max xl xr))) as [E|E].
    + iApply wp_ret. iFrame. iSplitR; [done|]. iSpecialize ("L" with "H"). by iApply labels_id.
    + wp_st "H". iApply wp_ret. iFrame. iSplitR; [done|]. by iApply "L".
  - iApply wp_ret. wp_st "H". iApply wp_ret. iFrame. iSplitR; [done|]. by iApply "L".
Qed.
Lemma wp_compute_max lab n l r exit : n ∈ N -> 0 <= w n -> aug_ok w lab l -> aug_ok w lab r -> inorder l ⊆ N -> inorder r ⊆ N ->
  (n + off_left) ↦ ptr l -∗ (n + off_right) ↦ ptr r -∗ labels lab N -∗ F -∗
  wp (compute_max off_node off_aug RBCOMPUTE (n - off_node) exit) (fun b => (n + off_left) ↦ ptr l ∗ (n + off_right) ↦ ptr r ∗ F ∗
    if b then ⌜exit = true /\ lab n = max_of n l r⌝ ∗ labels lab N else ⌜exit = true -> lab n <> max_of n l r⌝ ∗ labels (<[n := max_of n l r]> lab) N)%I.
Proof using HC HN HNZ. iIntros (Hn Hw Hl Hr Sl Sr) "Cl Cr L HF". iApply (wp_compute_top with "Cl Cr L HF"); auto using aug_top. Qed.

(** [propagate] from a node whose children are right, in a context that is right for the maximum [v], repairs the whole tree. *)
Lemma wp_propagate root (Hw : forall n, n ∈ N -> 0 <= w n) : forall k fuel lab c n l r v, inorder (plug k (Node c n l r)) = N -> (S (length k) < fuel)%nat ->
  aug_ok w lab l -> aug_ok w lab r -> ctx_ok w lab k v -> (lab n = max_of n l r -> v = lab n) ->
  ctx_at root k n -∗ tree_at (ctxp k) (Node c n l r) -∗ labels lab N -∗ F -∗
  wp (propagate off_node off_aug RBCOMPUTE fuel n 0) (fun _ => rbtree root (plug k (Node c n l r)) ∗ aug_data (plug k (Node c n l r)))%I.
Proof using HC HN HNZ.
  induction k as [|[[[d c'] p] s] k IH]; intros [|fuel] lab c n l r v EN Hf Hl Hr Hk Hv; simpl in Hf; try lia; iIntros "Hk Ht L HF"; destruct (sub_ctx _ _ _ EN HN) as (Sub & ND & Out); destruct (NoDup_node _ _ _ _ ND) as [Nl Nr].
  all: destruct (sub_node _ _ _ _ _ Sub) as (Hn & Sl & Sr).
  all: iDestruct (ctx_parent_ok with "Hk") as %Hpar; cbn [propagate]; destruct (Z.eqb_spec n 0) as [E0|_]; [by destruct (HNZ n Hn)|]; cbn [tree_at]; iDestruct "Ht" as "(%Hok & Hpc & Cl & Cr & Tl & Tr)"; iApply wp_bind; iApply (wp_wand with "[Cl Cr L HF]"); [iApply (wp_compute_max lab n l r with "Cl Cr L HF"); [done|by apply Hw|done|done|done|done]|].
  all: iIntros ([]) "(Cl & Cr & HF & %E & L)".
  all: assert (max_of n l r = wmax w (inorder (Node c n l r))) as Em by (simpl; rw wmax_app /=; unfold max_of; lia).
  - destruct E as [_ E]. iApply wp_ret. iFrame. iSplitR; [done|]. iPureIntro. split; [|done]. cbn [plug aug_ok]. by rw E Em.
  - rw Z.sub_add. iApply wp_bind. iApply (wp_rb_parent with "Hpc"); [done|]. iIntros "Hpc". cbn [ctxp]. destruct fuel as [|fuel]; [lia|]. cbn [propagate]. iApply wp_ret. iFrame. iSplitR; [done|]. iPureIntro. split; [|done]. cbn [plug aug_ok]. rw fn_lookup_insert Em. repeat split; [by apply aug_insert|by apply aug_insert].
  - destruct E as [_ E]. iApply wp_ret. rw -rbtree_plug. cbn [ptr tree_at]. iFrame. iSplitR; [done|]. iPureIntro. split; [|done]. apply aug_plug. split; [|rw -Em -E -(Hv E); exact Hk]. cbn [aug_ok]. by rw E Em.
  - rw Z.sub_add. iApply wp_bind. iApply (wp_rb_parent with "Hpc"); [done|]. iIntros "Hpc". cbn [ctxp ctx_at]. iDestruct "Hk" as "(%Hp & Kp & Kd & Ko & Ks & Hk)". destruct Hk as (Ep & Hs & Hk).
    destruct (out_frame d c' p s k n) as (Np & Ns & Nk); [apply Out; simpl; apply elem_of_app; right; left|].
    set (T := Node c n l r) in *. cbn [plug] in *. rewrite (node_of_eq d c' p T s) in EN |- *. assert (aug_ok w (<[n:=max_of n l r]> lab) T) as HT by (cbn [aug_ok T]; rw fn_lookup_insert Em; split; [done|]; split; by apply aug_insert).
    assert (aug_ok w (<[n:=max_of n l r]> lab) s) as Hs' by by apply aug_insert.
    iApply (IH fuel (<[n:=max_of n l r]> lab) c' p _ _ (lab p) EN with "Hk [Hpc Cl Cr Tl Tr Kp Kd Ko Ks] L HF").
    + lia.
    + destruct d; assumption.
    + destruct d; assumption.
    + by apply ctx_insert.
    + intros _. by rw fn_lookup_insert_ne.
    + rewrite -(node_of_eq d c' p T s). rw tree_at_node. cbn [tree_at ptr T]. by iFrame.
Qed.

Lemma aug_rotate lab k d g p A B u : NoDup (inorder (plug k (node_of d Black g (node_of d Black p A B) u))) -> aug_ok w lab (plug k (node_of d Black g (node_of d Black p A B) u)) ->
  let lab1 := <[p := lab g]> lab in aug_ok w lab1 B /\ aug_ok w lab1 u /\ aug_ok w (<[g := max_of g B u]> lab1) (plug k (node_of d Black p A (node_of d Black g B u))).
Proof using Type.
  clear HC RBCOMPUTE HN HNZ. intros HN HT lab1. destruct (sub_ctx _ _ _ eq_refl HN) as (Sub & ND & Out). destruct (NoDup_rotate _ _ _ _ _ _ ND) as (N1 & N2 & N3 & N4 & N5 & N6 & N7). destruct (sub_rotate _ _ _ _ _ _ _ (reflexivity _ : inorder (node_of d Black g (node_of d Black p A B) u) ⊆ _)) as (Hg & Hp & _).
  apply aug_plug in HT as [HT Hk]. apply aug_node in HT as (Eg & HP & Hu). apply aug_node in HP as (_ & HA & HB). split; [by apply aug_insert|]. split; [by apply aug_insert|]. apply aug_plug. rw -(inorder_rotate d Black Black). split; [|by apply ctx_insert; [apply Out|apply ctx_insert; [apply Out|]]].
  rw !aug_node. unfold lab1. rw fn_lookup_insert_ne // !fn_lookup_insert -(inorder_rotate d Black Black) (wmax_node _ _ _ _ B). repeat split; try done; by repeat apply aug_insert.
Qed.
(** The callback of rotations keeps the labels right. *)
Lemma augment_rotate_spec (Hw : forall n, n ∈ N -> 0 <= w n) : RotateSpec (augment_rotate off_node off_aug RBCOMPUTE) aug_data (fun _ => True).
Proof using HC HN HNZ.
  split.
  - iIntros (t t' E) "(%lab & (%H1 & %H2 & %H3) & L & HF)". iExists lab. iFrame. iPureIntro. split; [by apply (aug_shape _ _ t t')|]. split; [|done]. rewrite -H2. clear -E. revert t' E. induction t as [|c p l IHl r IHr]; intros [|c' p' l' r'] E; try done. simpl in E. injection E as -> El Er. simpl. by rw (IHl _ El) (IHr _ Er).
  - iIntros (d k g p A B u _ _ _) "(%lab & (%HT & %EN & _) & L & HF) Cd Co". destruct (sub_ctx _ _ _ EN HN) as (Sub & _). destruct (sub_rotate _ _ _ _ _ _ _ Sub) as (Hg & Hp & SB & Su).
    destruct (aug_rotate lab k d g p A B u) as (HB & Hu & HT'); [by rewrite EN|done|]. unfold augment_rotate, augment_copy. iApply wp_bind. iDestruct (labels_acc _ _ g with "L") as "[H L]"; [done|done|]. unfold label_at. wp_ld "H". iSpecialize ("L" with "H"). iDestruct (labels_id with "L") as "L"; [done|done|]. iDestruct (labels_acc _ _ p with "L") as "[H L]"; [done|done|]. iApply (wp_st with "H"). iIntros "H". iSpecialize ("L" with "H").
    iApply wp_bind. iApply (wp_wand with "[Cd Co L HF]").
    { instantiate (1 := fun b => ((g + off d) ↦ ptr B ∗ (g + off (opp d)) ↦ ptr u ∗ F ∗ labels (<[g := max_of g B u]> (<[p := lab g]> lab)) N)%I). destruct d; cbn [off opp].
      - iApply (wp_wand with "[Cd Co L HF]"); [iApply (wp_compute_max with "Cd Co L HF"); auto|]. iIntros ([]) "($ & $ & $ & %E & L)"; [by destruct E|done].
      - iApply (wp_wand with "[Cd Co L HF]"); [iApply (wp_compute_max with "Co Cd L HF"); auto|]. iIntros ([]) "($ & $ & $ & %E & L)"; [by destruct E|]. replace (max_of g B u) with (max_of g u B) by (unfold max_of; lia). done. }
    iIntros (_) "(Cd & Co & HF & L)". iApply wp_ret. iFrame "Cd Co". iExists _. iFrame "L HF". iPureIntro. split; [done|]. split; [|done]. rewrite -EN. apply inorder_plug. symmetry. apply inorder_rotate.
Qed.
End Memory.

(** Rebalancing after a node has been linked and its labels repaired. *)
Lemma wp_insert_augmented aug (I : tree -> hprop) P `{!RotateSpec aug I P} root k n h fuel : clean P k -> P 0 -> rb (plug k Leaf) Black h -> (rb_bound (size (plug k Leaf)) < fuel)%nat ->
  rbtree root (plug k (Node Red n Leaf Leaf)) -∗ I (plug k (Node Red n Leaf Leaf)) -∗
  wp (rb_insert_augmented aug fuel n root) (fun _ => insert_post_aug I root (ctx_before k ++ n :: ctx_after k)).
Proof.
  iIntros (Hc P0 Hrb Hf) "Ht HI". rw -rbtree_plug. iDestruct "Ht" as "[Hk Ht]". unfold rb_insert_augmented, __rb_insert, rb_red_parent, parent_color.
  cbn [tree_at ptr]. iDestruct "Ht" as "(%Hn & Hn & Ht)". wp_ld "Hn". rw pcval_red.
  destruct (rbk_of_plug _ _ _ Hrb) as (c & h' & Hk & Hl). inversion Hl; subst.
  change (n :: ctx_after k) with (inorder (Node Red n Leaf Leaf) ++ ctx_after k). rw -inorder_ctx.
  iApply (wp_insert_loop_aug aug I P with "Hk [Hn Ht] HI"); [exact Hk|constructor|constructor| |exact Hc|exact P0|exact P0|].
  - pose proof (rb_depth_log _ _ Hrb). pose proof (depth_plug k Leaf). lia.
  - cbn [tree_at ptr]. rw pcval_red. by iFrame.
Qed.
