(* ===== verification/RbAugErase.v ===== *)
(** * Removal from augmented trees

    The callbacks of [RbAugment] discharge the interface [EraseSpec] of the code that removes a node: afterwards every node
    carries the largest value of its subtree again. *)

From Stdlib Require Import ZArith Lia.
From stdpp Require Import base tactics numbers list strings gmap functions.
From iris.proofmode Require Import proofmode.
From S2P Require Import Prelude HeapLogic RbTree RbTreeProofs RbTreeSpec RbAugment.
#[local] Open Scope Z_scope.

Lemma split_unique (x : Z) a b l1 l2 : NoDup (a ++ x :: b) -> a ++ x :: b = l1 ++ x :: l2 -> l1 = a /\ l2 = b.
Proof.
  revert l1. induction a as [|y a IH]; intros [|z l1] ND E; simpl in *.
  - by injection E as ->.
  - injection E as <- ->. apply NoDup_cons in ND as [ND _]. destruct ND. apply elem_of_app. right. left.
  - injection E as -> <-. apply NoDup_cons in ND as [ND _]. destruct ND. apply elem_of_app. right. left.
  - injection E as -> E. apply NoDup_cons in ND as [_ ND]. destruct (IH _ ND E) as [-> ->]. done.
Qed.
Lemma left_path K : Forall (fun f : side * color * Z * tree => f.1.1.1 = L) K -> ctx_before K = [].
Proof. induction 1 as [|[[[d c] p] s] K Hd _ IH]; simpl in *; [done|]. subst d. by rw IH. Qed.

Section Erase.
Context (off_node off_aug : Z) (RBCOMPUTE : Z -> prog Z) (F : hprop) (w : Z -> Z).
(** [n] is removed from [l1 ++ n :: l2]. *)
Context (n : Z) (l1 l2 : list Z).
Notation N0 := (l1 ++ n :: l2).
Notation N1 := (l1 ++ l2).
Notation labs := (labels off_node off_aug).
Context (HC : compute_spec off_node RBCOMPUTE F w N0) (HN : NoDup N0) (HNZ : forall x, x ∈ N0 -> x <> 0) (Hw : forall x, x ∈ N0 -> 0 <= w x).

Lemma sub_N : N1 ⊆ N0.
Proof using Type. intros x. rw !elem_of_app elem_of_cons. tauto. Qed.
Lemma compute_N1 : compute_spec off_node RBCOMPUTE F w N1.
Proof using HC. intros x Q Hx. apply HC, sub_N, Hx. Qed.
Lemma nodup_N1 : NoDup N1.
Proof using HN. clear HNZ Hw HC. apply NoDup_app in HN as (H1 & H2 & H3). apply NoDup_cons in H3 as [H3 H4]. apply NoDup_app. split; [done|]. split; [|done]. intros x Hx Hy. apply (H2 x Hx). by right. Qed.
Lemma nonzero_N1 x : x ∈ N1 -> x <> 0.
Proof using HNZ. intros Hx. apply HNZ, sub_N, Hx. Qed.
Lemma nonneg_N1 x : x ∈ N1 -> 0 <= w x.
Proof using Hw. intros Hx. apply Hw, sub_N, Hx. Qed.
Lemma labels_drop lab : labs lab N0 ⊢ labs lab N1 ∗ label_at off_node off_aug n (lab n).
Proof using Type. unfold labels. rw !big_sepL_app big_sepL_cons. iIntros "($ & $ & $)". Qed.

(** The labels below and above the path are right; [lab s] is what is above of [s] relies on. *)
Definition copied (k K : ctx) (s : Z) (l sr : tree) : hprop :=
  (∃ lab v, ⌜inorder (plug k (Node Black s l (plug K sr))) = N1 /\ aug_ok w lab l /\ aug_ok w lab sr /\ ctx_ok w lab K v /\ ctx_ok w lab k (lab s)⌝ ∗ labs lab N1 ∗ F)%I.
Definition repaired (k K : ctx) (s : Z) (l sr : tree) : hprop :=
  (∃ lab, ⌜inorder (plug k (Node Black s l (plug K sr))) = N1 /\ aug_ok w lab l /\ aug_ok w lab (plug K sr) /\ ctx_ok w lab k (lab s)⌝ ∗ labs lab N1 ∗ F)%I.
Notation data0 := (aug_data off_node off_aug F w N0).
Notation data1 := (aug_data off_node off_aug F w N1).

(** The way from the hole of a path up to [s]. *)
Lemma wp_propagate_seg s : addr_ok s -> forall K fuel lab T v, (length K < fuel)%nat -> inorder (plug K T) ⊆ N1 -> NoDup (inorder (plug K T)) -> s ∉ inorder (plug K T) ->
  aug_ok w lab T -> ctx_ok w lab K v ->
  seg_at s K (ptr T) -∗ labs lab N1 -∗ F -∗
  wp (propagate off_node off_aug RBCOMPUTE fuel (segp s K) s) (fun _ => seg_at s K (ptr T) ∗ ∃ lab', ⌜aug_ok w lab' (plug K T) /\ forall x, x ∉ inorder (plug K T) -> lab' x = lab x⌝ ∗ labs lab' N1 ∗ F)%I.
Proof using HC HN HNZ Hw.
  intros Hs. induction K as [|[[[d c] p] sb] K IH]; intros [|fuel] lab T v Hf Sub ND Hns HT HK; simpl in Hf; try lia; iIntros "HS HL HF"; cbn [segp propagate].
  - destruct (Z.eqb_spec s s); [|done]. iApply wp_ret. iFrame. done.
  - cbn [plug] in *. set (T' := node_of d c p T sb) in *. destruct (sub_ctx _ K T' eq_refl ND) as (Sub' & ND' & Out). assert (p ∈ inorder T') as Hp by (unfold T'; destruct d; simpl; set_solver).
    assert (inorder T ⊆ N1 /\ inorder sb ⊆ N1 /\ p ∈ N1) as (ST & Ssb & HpN) by (clear -Sub Sub' T'; unfold T' in *; destruct d; simpl in *; set_solver).
    assert (p ∉ inorder T /\ p ∉ inorder sb) as [NT Nsb] by (unfold T' in ND'; destruct d; simpl in ND'; apply NoDup_mid in ND'; tauto).
    destruct (Z.eqb_spec p s) as [->|_]; [by destruct Hns; apply Sub'|]. cbn [seg_at ctx_ok] in *. iDestruct "HS" as "(%Hpk & Hpc & Hd & Ho & Hsb & HS)". destruct HK as (Ep & Hsbk & HK).
    pose proof (wmax_node w d c p T sb) as Em. iAssert (⌜parent_ok (segp s K)⌝)%I as %Hpar. { destruct K as [|[[[? ?] ?] ?] ?]; cbn [segp seg_at]; [iPureIntro; by right|]. iDestruct "HS" as "(%H & _)". iPureIntro. by right. }
    iApply wp_bind. iApply (wp_wand with "[Hd Ho HL HF]").
    { instantiate (1 := fun b => ((p + off d) ↦ ptr T ∗ (p + off (opp d)) ↦ ptr sb ∗ F ∗ if b then ⌜lab p = wmax w (inorder T')⌝ ∗ labs lab N1 else labs (<[p := wmax w (inorder T')]> lab) N1)%I).
      unfold T'. rw Em. destruct d; cbn [off opp].
      - iApply (wp_wand with "[Hd Ho HL HF]"); [iApply (wp_compute_max _ _ _ _ _ _ compute_N1 nodup_N1 nonzero_N1 with "Hd Ho HL HF"); auto using nonneg_N1|]. iIntros ([]) "($ & $ & $ & %E & L)"; [destruct E as [_ E]; iFrame; done|done].
      - iApply (wp_wand with "[Hd Ho HL HF]"); [iApply (wp_compute_max _ _ _ _ _ _ compute_N1 nodup_N1 nonzero_N1 with "Ho Hd HL HF"); auto using nonneg_N1|]. rw (Z.max_comm (wmax w (inorder T))). iIntros ([]) "($ & $ & $ & %E & L)"; [destruct E as [_ E]; iFrame; done|done]. }
    iIntros ([]) "(Hd & Ho & HF & HL)".
    + iDestruct "HL" as "[%E HL]". iApply wp_ret. iFrame. iSplitR; [done|]. iPureIntro. split; [|done]. apply aug_plug. rewrite -E. split; [|exact HK]. unfold T'. apply aug_node. done.
    + rw Z.sub_add. iApply wp_bind. iApply (wp_rb_parent with "Hpc"); [done|]. iIntros "Hpc".
      iApply (wp_wand with "[HS HL HF]"). { replace p with (ptr T') at 1 by (unfold T'; apply ptr_node). iApply (IH fuel (<[p := wmax w (inorder T')]> lab) T' (lab p) with "HS HL HF"); [lia|done|done|done| |].
        - unfold T' at 2. apply aug_node. rw fn_lookup_insert. split; [done|]. split; by apply aug_insert.
        - apply ctx_insert; [by apply Out|done]. }
      iIntros (_) "(HS & %lab' & [%H1 %H2] & HL & HF)". unfold T' at 1. rw ptr_node. iFrame. iSplitR; [done|]. iPureIntro. split; [done|]. intros x Hx. rw H2 // fn_lookup_insert_ne //. intros <-. by apply Hx, Sub'.
Qed.
Lemma nodes_one k d c t : inorder (plug k (node_of d c n Leaf t)) = N0 -> inorder (plug k t) = N1.
Proof using HN.
  clear HC HNZ Hw. rw !inorder_ctx. intros E. destruct d; simpl in E.
  - destruct (split_unique n l1 l2 (ctx_before k) (inorder t ++ ctx_after k) HN) as [-> ->]; [by rewrite -E|done].
  - rewrite -app_assoc /= in E. destruct (split_unique n l1 l2 (ctx_before k ++ inorder t) (ctx_after k) HN) as [<- <-]; [by rewrite -E -app_assoc|by rw app_assoc].
Qed.
Lemma nodes_two k K c l s cs sr : Forall (fun f => f.1.1.1 = L) K -> inorder (plug k (Node c n l (plug K (Node cs s Leaf sr)))) = N0 -> inorder (plug k (Node Black s l (plug K sr))) = N1.
Proof using HN.
  clear HC HNZ Hw. intros HK. rw !inorder_ctx /= !inorder_ctx /= (left_path K HK) /=. intros E. destruct (split_unique n l1 l2 (ctx_before k ++ inorder l) ((s :: inorder sr ++ ctx_after K) ++ ctx_after k) HN) as [<- <-]; [by rewrite -E -!app_assoc|by rw -!app_assoc].
Qed.
Lemma recolor_aug lab c t : aug_ok w lab t -> aug_ok w lab (recolor c t).
Proof using Type. by destruct t. Qed.

Lemma augment_one fuel root k d c t : (S (length k) < fuel)%nat -> data0 (plug k (node_of d c n Leaf t)) -∗ rbtree root (plug k (recolor c t)) -∗
  wp (propagate off_node off_aug RBCOMPUTE fuel (ctxp k) 0) (fun _ => rbtree root (plug k (recolor c t)) ∗ data1 (plug k (recolor c t)))%I.
Proof using HC HN HNZ Hw.
  iIntros (Hf) "(%lab & (%Ha & %EN & _) & HL & HF) Ht". rw labels_drop. iDestruct "HL" as "[HL _]". apply aug_plug in Ha as [Ha Hk]. apply aug_node in Ha as (_ & _ & Ht). apply nodes_one in EN. destruct k as [|[[[d' c'] p] s] k]; cbn [ctxp plug] in *.
  - destruct fuel as [|fuel]; [lia|]. cbn [propagate]. iApply wp_ret. iFrame. iPureIntro. split; [by apply recolor_aug|]. split; [by rw inorder_recolor|exact nodup_N1].
  - destruct Hk as (_ & Hs & Hk). rewrite (node_of_eq d' c' p (recolor c t) s). iDestruct (plug_open with "Ht") as "[Hk Ht]". cbn [ptr]. iApply (wp_wand with "[-]"); [iApply (wp_propagate _ _ _ _ _ _ compute_N1 nodup_N1 nonzero_N1 root nonneg_N1 k fuel lab c' p _ _ (lab p) with "Hk Ht HL HF")|].
    + rw -node_of_eq. rewrite -EN. apply inorder_plug, inorder_node; [apply inorder_recolor|done|done].
    + simpl in Hf. lia.
    + destruct d'; simpl; [by apply recolor_aug|done].
    + destruct d'; simpl; [done|by apply recolor_aug].
    + exact Hk.
    + done.
    + iIntros (_) "[$ $]".
Qed.
Lemma augment_erase_spec fuel D : (D < fuel)%nat -> EraseSpec n (augment_copy off_node off_aug) (propagate off_node off_aug RBCOMPUTE fuel) data0 data1 D copied repaired.
Proof using HC HN HNZ Hw.
  intros HD. split.
  - iIntros (root k d c t Hk) "HI Ht". iApply (augment_one with "HI Ht"). lia.
  - iIntros (k K c l s cs sr HK) "(%lab & (%Ha & %EN & _) & HL & HF)". assert (s ∈ N1 /\ s ∉ inorder l /\ s ∉ inorder sr /\ s ∉ ctx_before K ++ ctx_after K /\ s ∉ ctx_before k ++ ctx_after k) as (Hs & Sl & Ssr & SK & Sk).
    { pose proof nodup_N1 as ND. rewrite -(nodes_two _ _ _ _ _ _ _ HK EN) in ND |- *. clear -ND HK. destruct (sub_ctx _ k (Node Black s l (plug K sr)) eq_refl ND) as (Sub & ND' & Out). simpl in ND'. rewrite inorder_ctx in ND'. apply NoDup_mid in ND' as (A & B & _). rw inorder_ctx in Sub. simpl in *. rw inorder_ctx in Out. rw !inorder_ctx /= !inorder_ctx. clear ND. set_solver. }
    apply nodes_two in EN; [|exact HK]. rw labels_drop. iDestruct "HL" as "[HL Hn]". iDestruct (labels_acc _ _ _ _ s with "HL") as "[Hs HL]"; [done|exact nodup_N1|]. unfold augment_copy, label_at. wp_ld "Hn". iApply (wp_st with "Hs"). iIntros "Hs". iSpecialize ("HL" with "Hs").
    apply aug_plug in Ha as [Ha Hk]. cbn [aug_ok] in Ha. destruct Ha as (En & Hl & Hr). apply aug_plug in Hr as [(_ & _ & Hsr) HKs]. iExists _, _. iFrame. iPureIntro. split; [exact EN|]. rw fn_lookup_insert. split; [by apply aug_insert|]. split; [by apply aug_insert|]. split; [by apply ctx_insert|]. apply ctx_insert; [done|]. by rw En.
  - iIntros (k K s l sr HK _ Hs) "(%lab & %v & (%EN & %Hl & %Hsr & %HKs & %Hk) & HL & HF) HS". pose proof nodup_N1 as ND. rewrite -EN in ND. destruct (sub_ctx _ k (Node Black s l (plug K sr)) eq_refl ND) as (Sub & ND' & Out). rewrite EN in Sub. simpl in Sub, ND', Out. pose proof ND' as ND2. apply NoDup_mid in ND2 as (A & B & _ & C & Dj).
    iApply (wp_wand with "[-]"). { iApply (wp_propagate_seg s Hs K fuel lab sr v with "HS HL HF"); [lia| |done|done|done|done]. intros x Hx. apply Sub, elem_of_app. right. by right. }
    iIntros (_) "($ & %lab' & [%H1 %H2] & HL & HF)". iExists lab'. iFrame. iPureIntro. split; [done|]. split; [|split; [done|]].
    + eapply aug_agree; [|exact Hl]. intros x Hx. apply H2, Dj, Hx.
    + rewrite (H2 s B). clear -Hk H2 Out. assert (forall x, x ∈ ctx_before k ++ ctx_after k -> lab' x = lab x) as Hx by (intros x Hx; apply H2; intros Hin; apply (Out x); [apply elem_of_app; right; by right|exact Hx]). clear H2 Out. revert Hk Hx. generalize (lab s). induction k as [|[[[d c] p] t] k IH]; intros v Hk Hx; cbn [ctx_ok] in *; [done|]. destruct Hk as (E & Ht & Hk).
      assert (forall x, x = p \/ x ∈ inorder t \/ x ∈ ctx_before k ++ ctx_after k -> lab' x = lab x) as H by (intros x H; apply Hx; destruct d; simpl; rewrite ?elem_of_app ?elem_of_cons ?elem_of_app; rewrite elem_of_app in H; rewrite ?elem_of_nil; tauto). rw (H p (or_introl eq_refl)). split; [exact E|]. split; [eapply aug_agree; [|exact Ht]; auto|]. apply IH; [exact Hk|auto].
  - iIntros (k s l sr) "(%lab & %v & (%EN & %Hl & %Hsr & _ & %Hk) & HL & HF)". iExists lab. by iFrame.
  - iIntros (root k K c s l sr sr' Hk Esh) "(%lab & (%EN & %Hl & %Hsr & %Hks) & HL & HF) Ht". rw plug_app. cbn [plug node_of]. iDestruct (plug_open with "Ht") as "[Hk Ht]". cbn [ptr]. assert (shape (plug K sr') = shape (plug K sr)) as E2 by by apply shape_plug.
    iApply (wp_wand with "[-]"); [iApply (wp_propagate _ _ _ _ _ _ compute_N1 nodup_N1 nonzero_N1 root nonneg_N1 k fuel lab c s l (plug K sr') (lab s) with "Hk Ht HL HF")|].
    + rewrite -EN. apply inorder_plug. simpl. f_equal. f_equal. clear -E2. revert E2. generalize (plug K sr') (plug K sr). induction t as [|c p l IHl r IHr]; intros [|c' p' l' r'] E; try done. simpl in E. injection E as -> El Er. simpl. by rw (IHl _ El) (IHr _ Er).
    + lia.
    + done.
    + by apply (aug_shape _ _ _ (plug K sr)).
    + done.
    + done.
    + iIntros (_) "[$ $]".
Qed.
End Erase.

(** ** Insertion of a node whose label is set later *)

Section Unlabelled.
Context (off_node off_aug : Z) (RBCOMPUTE : Z -> prog Z) (F : hprop) (w : Z -> Z) (N : list Z) (v : Z).
Notation w0 := (<[v := 0]> w).
Notation labs := (labels off_node off_aug).
Context (HC : compute_spec off_node RBCOMPUTE F w N) (HN : NoDup N) (HNZ : forall x, x ∈ N -> x <> 0) (Hw : forall x, x ∈ N -> 0 <= w x) (Hv : v ∈ N).

(** Every label is right as if [v] had the value 0; that of [v] itself is anything. *)
Definition data_but (t : tree) : hprop := (∃ lab x, ⌜aug_ok w0 lab t /\ inorder t = N⌝ ∗ labs (<[v := x]> lab) N ∗ F)%I.

Lemma top_but lab x t : aug_ok w0 lab t -> inorder t ⊆ N -> ptr t <> v -> top N (<[v := x]> lab) t (wmax w0 (inorder t)).
Proof using Type. clear. destruct t as [|c p l r]; [done|]. intros (E & _) Hs Hp. split; [apply Hs; simpl; set_solver|]. by rw fn_lookup_insert_ne. Qed.
Lemma rotate_but : RotateSpec (augment_rotate off_node off_aug RBCOMPUTE) data_but (fun x => x <> v).
Proof using HC HN HNZ Hw.
  split.
  - iIntros (t t' E) "(%lab & %x & [%H1 %H2] & L & HF)". iExists lab, x. iFrame. iPureIntro. split; [by apply (aug_shape _ _ t t')|]. rewrite -H2. clear -E. revert t' E. induction t as [|c p l IHl r IHr]; intros [|c' p' l' r'] E; try done. simpl in E. injection E as -> El Er. simpl. by rw (IHl _ El) (IHr _ Er).
  - iIntros (d k g p A B u Hg HB Hu) "(%lab & %x & [%HT %EN] & L & HF) Cd Co". destruct (sub_ctx _ _ _ EN HN) as (Sub & _). destruct (sub_rotate _ _ _ _ _ _ _ Sub) as (Hgn & Hpn & SB & Su).
    destruct (aug_rotate w0 lab k d g p A B u) as (HB' & Hu' & HT'); [by rewrite EN|done|]. cbv zeta in HT'. set (lab1 := <[p := lab g]> lab) in *. unfold augment_rotate, augment_copy. iApply wp_bind. iDestruct (labels_acc _ _ _ _ g with "L") as "[H L]"; [done|done|]. unfold label_at. wp_ld "H". iSpecialize ("L" with "H"). iDestruct (labels_id with "L") as "L"; [done|done|]. iDestruct (labels_acc _ _ _ _ p with "L") as "[H L]"; [done|done|]. iApply (wp_st with "H"). iIntros "H". iSpecialize ("L" with "H").
    set (y := if decide (p = v) then lab g else x). iDestruct (labels_agree _ _ _ (<[v := y]> lab1) with "L") as "L".
    { intros q _. unfold lab1, y. rewrite (fn_lookup_insert_ne lab v g x) //. destruct (decide (p = v)) as [->|Hpv]; [by destruct (decide (q = v)) as [->|]; [rw !fn_lookup_insert|rewrite !fn_lookup_insert_ne]|].
      destruct (decide (q = p)) as [->|Hqp]; [rw fn_lookup_insert fn_lookup_insert_ne // fn_lookup_insert //|]. rewrite (fn_lookup_insert_ne _ p q) //. destruct (decide (q = v)) as [->|Hqv]; [by rw !fn_lookup_insert|by rewrite !fn_lookup_insert_ne]. }
    assert (w g = w0 g) as Eg by (rw fn_lookup_insert_ne //). pose proof (top_but lab1 y B HB' SB HB) as TB. pose proof (top_but lab1 y u Hu' Su Hu) as Tu.
    iApply wp_bind. iApply (wp_wand with "[Cd Co L HF]").
    { instantiate (1 := fun b => ((g + off d) ↦ ptr B ∗ (g + off (opp d)) ↦ ptr u ∗ F ∗ labs (<[g := max_of w0 g B u]> (<[v := y]> lab1)) N)%I). unfold max_of. rewrite -Eg. destruct d; cbn [off opp].
      - iApply (wp_wand with "[Cd Co L HF]"); [iApply (wp_compute_top _ _ _ _ _ _ HC HN HNZ with "Cd Co L HF"); eauto|]. iIntros ([]) "($ & $ & $ & %E & L)"; [by destruct E|done].
      - iApply (wp_wand with "[Cd Co L HF]"); [iApply (wp_compute_top _ _ _ _ _ _ HC HN HNZ with "Co Cd L HF"); eauto|]. rw (Z.max_comm (wmax w0 (inorder B))). iIntros ([]) "($ & $ & $ & %E & L)"; [by destruct E|done]. }
    iIntros (_) "(Cd & Co & HF & L)". iApply wp_ret. iFrame "Cd Co". iExists _, y. iFrame "HF". iSplitR; [iPureIntro; split; [exact HT'|rewrite -EN; apply inorder_plug; symmetry; apply inorder_rotate]|].
    iApply (labels_agree with "L"). intros q _. destruct (decide (q = g)) as [->|Hq]; [rw fn_lookup_insert fn_lookup_insert_ne // fn_lookup_insert //|]. rewrite (fn_lookup_insert_ne _ g q) //. destruct (decide (q = v)) as [->|Hqv]; [by rw !fn_lookup_insert|]. by rewrite !fn_lookup_insert_ne.
Qed.

(** The same with the label set to 0. *)
Definition data_zero (t : tree) : hprop := (∃ lab, ⌜aug_ok w0 lab t /\ inorder t = N⌝ ∗ labs (<[v := 0]> lab) N ∗ F)%I.
Lemma wp_label_zero t Q : data_but t -∗ (data_zero t -∗ Q tt) -∗ wp (st (v - off_node + off_aug) 0) Q.
Proof using HN Hv.
  clear HC HNZ Hw RBCOMPUTE. iIntros "(%lab & %x & [%Ha %E] & L & HF) HQ". iDestruct (labels_acc _ _ _ _ v with "L") as "[H L]"; [done|done|]. unfold label_at. iApply (wp_st with "H"). iIntros "H". iSpecialize ("L" with "H"). iDestruct (labels_agree _ _ _ (<[v := 0]> lab) with "L") as "L".
  { intros q _. destruct (decide (q = v)) as [->|]; [by rw !fn_lookup_insert|by rewrite !fn_lookup_insert_ne]. }
  iApply "HQ". iExists lab. by iFrame.
Qed.
(** Going up from the node repairs the whole tree. *)
Lemma wp_label_new fuel root k c l r : (S (length k) < fuel)%nat -> 0 < w v -> inorder (plug k (Node c v l r)) = N ->
  rbtree root (plug k (Node c v l r)) -∗ data_zero (plug k (Node c v l r)) -∗
  wp (propagate off_node off_aug RBCOMPUTE fuel v 0)
    (fun _ => rbtree root (plug k (Node c v l r)) ∗ aug_data off_node off_aug F w N (plug k (Node c v l r)))%I.
Proof using HC HN HNZ Hw.
  iIntros (Hf Hwv EN) "Ht (%lab & [%Ha _] & L & HF)".
  destruct (sub_ctx _ _ _ EN HN) as (Sub & ND & Out). destruct (NoDup_node _ _ _ _ ND) as [Nl Nr]. assert (v ∉ ctx_before k ++ ctx_after k) as Nk by (apply Out; simpl; apply elem_of_app; right; left).
  apply aug_plug in Ha as [(_ & Hl & Hr) Hk]. assert (forall q, q <> v -> w q = w0 q) as Ew by (intros q Hq; rw fn_lookup_insert_ne //; by intros ->).
  iDestruct (plug_open with "Ht") as "[Hk Ht]". cbn [ptr]. iApply (wp_wand with "[-]"); [iApply (wp_propagate _ _ _ _ _ _ HC HN HNZ root Hw k fuel (<[v := 0]> lab) c v l r with "Hk Ht L HF"); [exact EN|lia| | | |]|iIntros (_) "[$ $]"].
  - apply aug_insert; [done|]. eapply aug_values; [|exact Hl]. intros q Hq. apply Ew. by intros ->.
  - apply aug_insert; [done|]. eapply aug_values; [|exact Hr]. intros q Hq. apply Ew. by intros ->.
  - apply ctx_insert; [done|]. eapply ctx_values; [|exact Hk]. intros q Hq. apply Ew. by intros ->.
  - rw fn_lookup_insert. unfold max_of. pose proof (wmax_nonneg w (inorder l)). intros E. lia.
Qed.
End Unlabelled.
