(* ===== verification/VmArea.v ===== *)
(** * mm/mmap.c: the areas of an address space

    The areas are in a red-black tree and in a list, both ordered by address.  Areas and
    tree nodes are structures in memory ([HeapLogic]); an area is named by its address, its node
    [vm_rb] lies [off_rb] bytes further.  The tree functions are those of [RbTree], with the callbacks of
    [RbAugment] for the field [rb_subtree_gap], the largest gap before an area of the subtree. *)

From Stdlib Require Import ZArith Lia.
From stdpp Require Import base tactics numbers list strings gmap.
From iris.proofmode Require Import proofmode.
From S2P Require Import Prelude Words HeapLogic RbTree RbAugment.
#[local] Open Scope Z_scope.

(** ** Structures *)

Definition off_vm_end : Z := 8.
Definition off_vm_next : Z := 16.
Definition off_vm_prev : Z := 24.
Definition off_rb : Z := 32.
Definition off_subtree_gap : Z := 56.
Definition off_vm_mm : Z := 64.
Definition off_vm_page_prot : Z := 72.
Definition off_vm_flags : Z := 80.
Definition off_vm_pgoff : Z := 88.
Definition off_vm_file : Z := 96.
Definition off_vm_ops : Z := 104.
Definition off_mm_rb : Z := 8.
Definition off_total_vm : Z := 360.
Definition off_data_vm : Z := 376.
Definition off_def_flags : Z := 496.
Definition off_highest : Z := 512.

Definition VM_READ : Z := 0x1.
Definition VM_EXEC : Z := 0x4.
Definition VM_NONE : Z := 0x0.
Definition VM_GROWSDOWN : Z := 0x100.
Definition VM_GROWSUP : Z := VM_NONE.
Definition PAGE_MASK : Z := u64 (Z.lnot (PAGE_SIZE - 1)).
Definition stack_guard_gap : Z := Z.shiftl 256 PAGE_SHIFT.

Definition rb_entry (node : Z) : Z := node - off_rb.
Definition vm_start_gap (vma : Z) : prog Z :=
  start ← ld vma;
  flags ← ld (vma + off_vm_flags);
  if negb (Z.land flags VM_GROWSDOWN =? 0) then
    let vm_start := u64 (start - stack_guard_gap) in mret (if start <? vm_start then 0 else vm_start)
  else mret start.
Definition vm_end_gap (vma : Z) : prog Z :=
  vm_end ← ld (vma + off_vm_end);
  flags ← ld (vma + off_vm_flags);
  if negb (Z.land flags VM_GROWSUP =? 0) then
    let g := u64 (vm_end + stack_guard_gap) in mret (if g <? vm_end then u64 (- PAGE_SIZE) else g)
  else mret vm_end.

Definition vma_compute_gap (vma : Z) : prog Z :=
  gap ← vm_start_gap vma;
  prev ← ld (vma + off_vm_prev);
  if negb (prev =? 0) then
    prev_end ← vm_end_gap prev;
    mret (if prev_end <? gap then u64 (gap - prev_end) else 0)
  else mret gap.
(** The callbacks that the tree of areas is declared with. *)
Definition vma_gap_callbacks_propagate (f : nat) (rb stop : Z) : prog unit := propagate off_rb off_subtree_gap vma_compute_gap f rb stop.
Definition vma_gap_callbacks_rotate (old new : Z) : prog unit := augment_rotate off_rb off_subtree_gap vma_compute_gap old new.
Definition vma_gap_update (f : nat) (vma : Z) : prog unit := vma_gap_callbacks_propagate f (vma + off_rb) 0.
Definition vma_rb_insert (f : nat) (vma root : Z) : prog unit := rb_insert_augmented vma_gap_callbacks_rotate f (vma + off_rb) root.

(** ** Search *)

(** The first area that ends after [addr]; [vma] is the local variable. *)
Fixpoint find_vma_loop (f : nat) (rb_node addr vma : Z) : prog Z :=
  match f with
  | O => no_fuel
  | S f =>
      if rb_node =? 0 then mret vma
      else
        let tmp := rb_entry rb_node in
        vm_end ← ld (tmp + off_vm_end);
        if addr <? vm_end then
          let vma := tmp in
          vm_start ← ld tmp;
          if vm_start <=? addr then mret vma else l ← rb_left rb_node; find_vma_loop f l addr vma
        else r ← rb_right rb_node; find_vma_loop f r addr vma
  end.
(** [undef] is what the uninitialised variable holds. *)
Definition find_vma (f : nat) (undef mm addr : Z) : prog Z :=
  rb_node ← ld (mm + off_mm_rb); find_vma_loop f rb_node addr undef.

(** An error, or the area before, the link to set and the parent. *)
Fixpoint links_loop (f : nat) (addr end_ link parent rb_prev : Z) : prog (Z + Z * Z * Z) :=
  match f with
  | O => no_fuel
  | S f =>
      node ← ld link;
      if node =? 0 then mret (inr (if rb_prev =? 0 then 0 else rb_entry rb_prev, link, parent))
      else
        let vma_tmp := rb_entry node in
        vm_end ← ld (vma_tmp + off_vm_end);
        if addr <? vm_end then
          vm_start ← ld vma_tmp;
          if vm_start <? end_ then mret (inl (- ENOMEM)) else links_loop f addr end_ (node + off_left) node rb_prev
        else links_loop f addr end_ (node + off_right) node node
  end.
Definition find_vma_links (f : nat) (mm addr end_ : Z) : prog (Z + Z * Z * Z) := links_loop f addr end_ (mm + off_mm_rb) 0 0.

(** ** Insertion *)

Definition __vma_link_list (mm vma prev : Z) : prog unit :=
  st (vma + off_vm_prev) prev;;
  next ← (if negb (prev =? 0) then next ← ld (prev + off_vm_next); st (prev + off_vm_next) vma;; mret next
          else next ← ld mm; st mm vma;; mret next);
  st (vma + off_vm_next) next;;
  if negb (next =? 0) then st (next + off_vm_prev) vma else mret tt.
Definition __vma_link_rb (f : nat) (mm vma rb_link rb_parent : Z) : prog unit :=
  next ← ld (vma + off_vm_next);
  (if negb (next =? 0) then vma_gap_update f next else e ← vm_end_gap vma; st (mm + off_highest) e);;
  rb_link_node (vma + off_rb) rb_parent rb_link;;
  st (vma + off_subtree_gap) 0;;
  vma_gap_update f vma;;
  vma_rb_insert f vma (mm + off_mm_rb).
Definition vma_link (f : nat) (mm vma prev rb_link rb_parent : Z) : prog unit :=
  __vma_link_list mm vma prev;; __vma_link_rb f mm vma rb_link rb_parent.
Definition insert_vm_struct (f : nat) (mm vma : Z) : prog Z :=
  s ← ld vma; e ← ld (vma + off_vm_end);
  r ← find_vma_links f mm s e;
  match r with
  | inl _ => mret (- ENOMEM)
  | inr (prev, rb_link, rb_parent) =>
      ops ← ld (vma + off_vm_ops);
      (if ops =? 0 then st (vma + off_vm_pgoff) (Z.shiftr s PAGE_SHIFT) else mret tt);;
      vma_link f mm vma prev rb_link rb_parent;;
      mret 0
  end.

(** ** Growth of a stack *)

Definition find_extend_vma (f : nat) (undef mm addr : Z) : prog Z :=
  let addr := Z.land addr PAGE_MASK in
  vma ← find_vma f undef mm addr;
  if vma =? 0 then mret 0
  else
    start ← ld vma;
    if start <=? addr then mret vma else st_panic "find_extend_vma".
Definition expand_downwards (f : nat) (vma address : Z) : prog Z :=
  start ← ld vma;
  if address <? start then
    let grow := Z.shiftr (u64 (start - address)) PAGE_SHIFT in
    pgoff ← ld (vma + off_vm_pgoff);
    (if grow <=? pgoff then
       st vma address;;
       st (vma + off_vm_pgoff) (u64 (pgoff - grow));;
       vma_gap_update f vma
     else mret tt);;
    mret 0
  else mret 0.
Definition expand_stack (f : nat) (vma address : Z) : prog Z := expand_downwards f vma address.
