(* ===== verification/VmAreaSpec.v ===== *)
(** * The areas of an address space: search and insertion

    [space mm l] says that memory holds an address space with the areas [l]: a red-black tree
    and a list that both have them in that order, and in every node of the tree the largest gap of its subtree.  The theorems are proved
    in the logic of [HeapLogic] on top of the contract of the trees. *)

From Stdlib Require Import ZArith Lia.
From stdpp Require Import base tactics numbers list strings gmap sorting functions.
From iris.proofmode Require Import proofmode.
From S2P Require Import Prelude Words HeapLogic RbTree RbTreeProofs RbTreeSpec RbAugment VmArea.
#[local] Open Scope Z_scope.

(** ** Areas in memory *)

Record varea := VArea { a_v : Z; a_s : Z; a_e : Z; a_fl : Z; a_pg : Z; a_op : Z }.
Definition node_at (a : varea) : Z := a_v a + off_rb.
Definition nodes (l : list varea) : list Z := node_at <$> l.
Definition area_at (a : varea) : hprop :=
  (a_v a ↦ a_s a ∗ (a_v a + off_vm_end) ↦ a_e a ∗ (a_v a + off_vm_flags) ↦ a_fl a ∗ (a_v a + off_vm_pgoff) ↦ a_pg a ∗ (a_v a + off_vm_ops) ↦ a_op a)%I.
Definition areas (l : list varea) : hprop := ([∗ list] a ∈ l, area_at a)%I.

(** A stretch of the list: [p] is before it and [nxt] after it. *)
Fixpoint dll (p : Z) (l : list varea) (nxt : Z) : hprop :=
  match l with
  | [] => emp
  | a :: l => (a_v a + off_vm_prev) ↦ p ∗ (a_v a + off_vm_next) ↦ match l with [] => nxt | b :: _ => a_v b end ∗ dll (a_v a) l nxt
  end%I.
Definition head_v (l : list varea) (nxt : Z) : Z := match l with [] => nxt | b :: _ => a_v b end.
Definition last_v (p : Z) (l : list varea) : Z := match list.last l with Some a => a_v a | None => p end.

(** The gap before an area, from the end of the area [p] before it. *)
Definition start_gap (a : varea) : Z :=
  if negb (Z.land (a_fl a) VM_GROWSDOWN =? 0) then let s := u64 (a_s a - stack_guard_gap) in if a_s a <? s then 0 else s else a_s a.
Definition area_gap (p : option varea) (a : varea) : Z :=
  match p with None => start_gap a | Some b => if a_e b <? start_gap a then u64 (start_gap a - a_e b) else 0 end.
Fixpoint gap_at (p : option varea) (l : list varea) (n : Z) : Z :=
  match l with [] => 0 | a :: l => if node_at a =? n then area_gap p a else gap_at (Some a) l n end.
Definition frame (l : list varea) : hprop := (areas l ∗ dll 0 l 0)%I.
Definition gaps (l : list varea) (N : list Z) (t : tree) : hprop := aug_data off_rb off_subtree_gap (frame l) (gap_at None l) N t.
Definition highest_ok (l : list varea) (x : Z) : Prop := match list.last l with Some a => x = a_e a | None => True end.
Definition space (mm : Z) (l : list varea) : hprop :=
  (∃ t x, ⌜is_rbtree t /\ highest_ok l x⌝ ∗ rbtree (mm + off_mm_rb) t ∗ gaps l (nodes l) t ∗ mm ↦ head_v l 0 ∗ (mm + off_highest) ↦ x)%I.
(** Areas that are not empty, in order of address and without overlap. *)
Definition before (a b : varea) : Prop := a_e a <= a_s b.
Definition ordered (l : list varea) : Prop := Forall (fun a => 0 < a_v a /\ 0 <= a_s a < a_e a) l /\ StronglySorted before l.

(** The first area that ends after [addr]. *)
Fixpoint first_after (addr : Z) (l : list varea) (u : Z) : Z :=
  match l with [] => u | a :: l => if addr <? a_e a then a_v a else first_after addr l u end.
Lemma first_after_app addr l1 l2 u : first_after addr (l1 ++ l2) u = first_after addr l1 (first_after addr l2 u).
Proof. induction l1 as [|a l1 IH]; simpl; [done|]. by destruct (addr <? a_e a). Qed.
Lemma first_after_none addr l u : Forall (fun a => a_e a <= addr) l -> first_after addr l u = u.
Proof. induction 1 as [|a l Ha _ IH]; simpl; [done|]. by destruct (Z.ltb_spec addr (a_e a)); [lia|]. Qed.

Lemma ordered_app l1 a l2 : ordered (l1 ++ a :: l2) -> ordered l1 /\ ordered l2 /\ 0 < a_v a /\ 0 <= a_s a < a_e a /\ Forall (fun b => a_e b <= a_s a) l1 /\ Forall (fun b => a_e a <= a_s b) l2.
Proof.
  intros [HF HS]. apply Forall_app in HF as [F1 F2]. apply Forall_cons in F2 as [Fa F2]. induction l1 as [|b l1 IH]; simpl in HS.
  - apply StronglySorted_inv in HS as [HS Hb]. repeat split; try tauto; try constructor; exact F2 || exact HS || exact Hb.
  - apply Forall_cons in F1 as [Fb F1]. apply StronglySorted_inv in HS as [HS Hb]. destruct (IH F1 HS) as ([G1 G2] & I2 & I3 & I4 & I5 & I6). apply Forall_app in Hb as [Hb1 Hb2]. apply Forall_cons in Hb2 as [Hb2 _]. split; [split; [constructor; assumption|constructor; assumption]|]. split; [exact I2|]. split; [exact I3|]. split; [exact I4|]. split; [constructor; assumption|exact I6].
Qed.
Lemma nodes_split l a n b : nodes l = a ++ n :: b -> exists l1 x l2, l = l1 ++ x :: l2 /\ nodes l1 = a /\ node_at x = n /\ nodes l2 = b.
Proof. intros E. apply fmap_app_inv in E as (l1 & l2' & -> & E & ->). destruct l2' as [|x l2]; [done|]. simpl in E. injection E as -> ->. by exists l1, x, l2. Qed.
Lemma areas_mid l1 a l2 : areas (l1 ++ a :: l2) ⊣⊢ areas l1 ∗ area_at a ∗ areas l2.
Proof. unfold areas. by rw big_sepL_app big_sepL_cons. Qed.

(** ** Search *)

Lemma wp_find_loop addr t : forall fuel par la u, (depth t < fuel)%nat -> nodes la = inorder t -> ordered la ->
  tree_at par t -∗ areas la -∗ wp (find_vma_loop fuel (ptr t) addr u) (fun r => ⌜r = first_after addr la u⌝%I).
Proof.
  induction t as [|c p lt IHl rt IHr]; intros [|fuel] par la u Hf El Ho; simpl in Hf; try lia; iIntros "Ht Ha".
  - destruct la; [|done]. cbn [find_vma_loop ptr]. iApply wp_ret. done.
  - simpl in El. destruct (nodes_split _ _ _ _ El) as (al & a & ar & -> & E1 & <- & E2). rw areas_mid. iDestruct "Ha" as "(Hal & (Hs & He & _) & Har)". cbn [tree_at]. iDestruct "Ht" as "(%Hp & _ & Hlt & Hrt & Tl & Tr)".
    destruct (ordered_app _ _ _ Ho) as (O1 & O2 & Hv & Hse & B1 & B2). cbn [find_vma_loop ptr]. rw addr_ok_ne //. unfold rb_entry. replace (node_at a - off_rb) with (a_v a) by (unfold node_at; lia). wp_ld "He". rw first_after_app /=. destruct (Z.ltb_spec addr (a_e a)) as [H1|H1].
    + wp_ld "Hs". destruct (Z.leb_spec (a_s a) addr) as [H2|H2].
      * iApply wp_ret. iPureIntro. rw first_after_none //. eapply Forall_impl; [exact B1|]. simpl. lia.
      * unfold rb_left. wp_ld "Hlt". iApply (IHl with "Tl Hal"); [lia|done|done].
    + unfold rb_right. wp_ld "Hrt". iApply (wp_wand with "[Tr Har]"); [iApply (IHr with "Tr Har"); [lia|done|done]|]. iIntros (r ->). iPureIntro. rw (first_after_none addr al) //. eapply Forall_impl; [exact B1|]. simpl. lia.
Qed.
Lemma find_loop_read_only f : forall n addr u, read_only (find_vma_loop f n addr u).
Proof. induction f as [|f IH]; intros n addr u; cbn [find_vma_loop]; [apply read_only_no_fuel|]. unfold rb_left, rb_right. solve_read_only. Qed.
Lemma find_read_only f u mm addr : read_only (find_vma f u mm addr).
Proof. unfold find_vma. apply read_only_bind; [apply read_only_ld|]. intros n. apply find_loop_read_only. Qed.

Lemma space_depth t l : is_rbtree t -> inorder t = nodes l -> (depth t <= rb_bound (length l))%nat.
Proof. intros [h H] E. pose proof (rb_depth_log _ _ H) as Hd. unfold size in Hd. rw E length_fmap in Hd. exact Hd. Qed.

(** On an address space with ordered areas, [find_vma] returns the first area that ends
    after the address, within twice the logarithm of the number of areas steps, and changes nothing; when there is
    none it returns what its variable held at the start. *)
Theorem find_vma_first mm l fuel undef addr m hf : ordered l -> (rb_bound (length l) < fuel)%nat -> hprop_holds (space mm l) m -> m ##ₘ hf ->
  find_vma fuel undef mm addr (m ∪ hf) = Ok (first_after addr l undef, m ∪ hf).
Proof.
  intros Ho Hf HP Hd. destruct (wp_adequate (space mm l) (find_vma fuel undef mm addr) (fun r => ⌜r = first_after addr l undef⌝%I)) with (h := m) (hf := hf) as (r & m' & E & _ & Hr); [|exact HP|exact Hd|].
  - iIntros "(%t & %x & (%Ht & _) & [Hr Ht] & (%lab & (_ & %E & _) & _ & Ha & _) & _)". unfold find_vma. wp_ld "Hr". iApply (wp_find_loop with "Ht Ha"); [|done|done]. pose proof (space_depth t l Ht E). lia.
  - pose proof (find_read_only _ _ _ _ _ _ _ E) as Es. rw E Es. by rw Hr.
Qed.

(** ** Where a new area goes *)

Definition overlaps (s e : Z) (b : varea) : Prop := s < a_e b /\ a_s b < e.
Lemma ctx_link root k c : ctx_at root k c -∗ link_of root k ↦ c ∗ (link_of root k ↦ c -∗ ctx_at root k c).
Proof.
  destruct k as [|[[[d col] p] s] k]; cbn [ctx_at link_of]; iIntros "H"; [by iFrame; iIntros|]. iDestruct "H" as "(%Hp & H1 & $ & H3)". iIntros "H2". by iFrame.
Qed.
(** The hole [k] of the tree is between the areas [l1] and [l2]. *)
Record hole (l : list varea) (addr end_ : Z) (k : ctx) (l1 l2 : list varea) : Prop := {
  ho_before : nodes l1 = ctx_before k;
  ho_after : nodes l2 = ctx_after k;
  ho_ends : Forall (fun b => a_e b <= addr) l1;
  ho_starts : Forall (fun b => end_ <= a_s b) l2 }.
Definition rb_last (l : list varea) : Z := match list.last l with Some a => node_at a | None => 0 end.
Definition links_post (mm : Z) (T : tree) (l : list varea) (addr end_ : Z) (r : Z + Z * Z * Z) : Prop :=
  match r with
  | inl e => e = - ENOMEM /\ Exists (overlaps addr end_) l
  | inr (prev, link, parent) => exists k l1 l2, plug k Leaf = T /\ link = link_of (mm + off_mm_rb) k /\ parent = ctxp k /\ l = l1 ++ l2 /\ hole l addr end_ k l1 l2 /\ prev = last_v 0 l1
  end.

Lemma wp_links_loop mm l addr end_ t : forall fuel k l1 la l2, (depth t < fuel)%nat -> l = l1 ++ la ++ l2 -> nodes la = inorder t -> ordered l -> hole l addr end_ k l1 l2 ->
  ctx_at (mm + off_mm_rb) k (ptr t) -∗ tree_at (ctxp k) t -∗ areas la -∗ wp (links_loop fuel addr end_ (link_of (mm + off_mm_rb) k) (ctxp k) (rb_last l1)) (fun r => ⌜links_post mm (plug k t) l addr end_ r⌝%I).
Proof.
  induction t as [|c p lt IHl rt IHr]; intros [|fuel] k l1 la l2 Hf El En Ho Hk; simpl in Hf; try lia; iIntros "Hc Ht Ha"; cbn [links_loop]; iDestruct (ctx_link with "Hc") as "[Hl Hc]"; wp_ld "Hl"; iSpecialize ("Hc" with "Hl").
  - cbn [ptr]. iApply wp_ret. iPureIntro. destruct la; [|done]. simpl in El. exists k, l1, l2. repeat (split; [done|]). unfold rb_last, last_v. destruct (list.last l1) as [a|] eqn:E; [|done].
    assert (0 < a_v a) as Hv by (destruct Ho as [HF _]; rw El Forall_app in HF; destruct HF as [HF _]; apply last_Some_elem_of in E; rewrite Forall_forall in HF; apply (HF a E)). unfold node_at, rb_entry, off_rb. destruct (Z.eqb_spec (a_v a + 32) 0); lia.
  - simpl in En. destruct (nodes_split _ _ _ _ En) as (al & a & ar & -> & E1 & <- & E2). rw areas_mid. iDestruct "Ha" as "(Hal & (Hs & He & _) & Har)". cbn [tree_at]. iDestruct "Ht" as "(%Hp & Hpc & Hlt & Hrt & Tl & Tr)". cbn [ptr]. rw addr_ok_ne //. unfold rb_entry. replace (node_at a - off_rb) with (a_v a) by (unfold node_at; lia). wp_ld "He".
    assert (l = (l1 ++ al) ++ a :: (ar ++ l2)) as El' by (rw El -!app_assoc /=; done). pose proof Ho as Ho'. rw El' in Ho'. destruct (ordered_app _ _ _ Ho') as (_ & _ & Hv & Hse & B1 & B2). destruct Hk as [K1 K2 K3 K4].
    destruct (Z.ltb_spec addr (a_e a)) as [H1|H1].
    + wp_ld "Hs". destruct (Z.ltb_spec (a_s a) end_) as [H2|H2].
      * iApply wp_ret. iPureIntro. split; [done|]. rw El' Exists_app. right. left. split; [exact H1|exact H2].
      * change (node_at a + off_left) with (link_of (mm + off_mm_rb) ((L, c, node_at a, rt) :: k)). iApply (IHl fuel ((L, c, node_at a, rt) :: k) l1 al (a :: ar ++ l2) with "[Hc Hpc Hlt Hrt Tr] Tl Hal"); [lia|rw El -!app_assoc /=; done|done|done| |].
        -- split; simpl; [by rw app_nil_r|unfold nodes in *; rw fmap_app E2 K2; done|done|]. constructor; [lia|]. eapply Forall_impl; [exact B2|]. simpl. lia.
        -- cbn [ctx_at off opp]. by iFrame.
    + pose proof (IHr fuel ((R, c, node_at a, lt) :: k) (l1 ++ al ++ [a]) ar l2) as IH. assert (rb_last (l1 ++ al ++ [a]) = node_at a) as Ea by (unfold rb_last; rw app_assoc last_snoc; done). rw Ea in IH.
      iApply (IH with "[Hc Hpc Hlt Hrt Tl] Tr Har"); [lia|rw El -!app_assoc /=; done|done|done| |].
      -- split; simpl; [unfold nodes in *; rw !fmap_app E1 K1 /=; done|done| |done]. rw app_assoc. apply Forall_app. split; [|repeat constructor; exact H1]. apply Forall_app. split; [exact K3|]. apply Forall_app in B1 as [_ B1]. eapply Forall_impl; [exact B1|]. simpl. lia.
      -- cbn [ctx_at off opp]. by iFrame.
Qed.
Lemma links_read_only f : forall addr end_ link parent prev, read_only (links_loop f addr end_ link parent prev).
Proof. induction f as [|f IH]; intros; cbn [links_loop]; [apply read_only_no_fuel|]. solve_read_only. Qed.

(** ** The list *)

Lemma dll_app p l1 l2 nxt : dll p (l1 ++ l2) nxt ⊣⊢ dll p l1 (head_v l2 nxt) ∗ dll (last_v p l1) l2 nxt.
Proof.
  revert p. induction l1 as [|a l1 IH]; intros p; cbn [app dll].
  - unfold last_v. simpl. iSplit; [iIntros "$"|iIntros "[_ $]"].
  - rw IH. replace (last_v p (a :: l1)) with (last_v (a_v a) l1) by (unfold last_v; destruct l1; simpl; [done|by destruct (list.last (v :: l1)) eqn:E; [|apply last_None in E]]). destruct l1; iSplit; [iIntros "($ & $ & _ & $)"|iIntros "(($ & $ & _) & $)"|iIntros "($ & $ & $ & $)"|iIntros "(($ & $ & $) & $)"]. done.
Qed.
Lemma dll_last p l u nxt : dll p (l ++ [u]) nxt ⊣⊢ dll p l (a_v u) ∗ (a_v u + off_vm_prev) ↦ last_v p l ∗ (a_v u + off_vm_next) ↦ nxt.
Proof. rw dll_app. cbn [dll head_v]. iSplit; [iIntros "($ & $ & $ & _)"|iIntros "($ & $ & $)"]. Qed.
Lemma last_v_snoc p l u : last_v p (l ++ [u]) = a_v u.
Proof. unfold last_v. by rw last_snoc. Qed.
Lemma head_v_snoc l u l2 nxt : head_v ((l ++ [u]) ++ l2) nxt = head_v (l ++ [u]) nxt.
Proof. by destruct l. Qed.
Definition vs_ok (l : list varea) : Prop := Forall (fun a => 0 < a_v a) l.
Lemma vs_ne a : 0 < a_v a -> (a_v a =? 0) = false.
Proof. intros H. apply Z.eqb_neq. lia. Qed.

Lemma wp_link_list mm l1 a l2 p0 n0 : vs_ok l1 -> vs_ok l2 ->
  mm ↦ head_v (l1 ++ l2) 0 -∗ dll 0 (l1 ++ l2) 0 -∗ (a_v a + off_vm_prev) ↦ p0 -∗ (a_v a + off_vm_next) ↦ n0 -∗
  wp (__vma_link_list mm (a_v a) (last_v 0 l1)) (fun _ => mm ↦ head_v (l1 ++ a :: l2) 0 ∗ dll 0 (l1 ++ a :: l2) 0)%I.
Proof.
  iIntros (V1 V2) "Hm Hd Hp Hn". unfold __vma_link_list. wp_st "Hp". rw !dll_app. iDestruct "Hd" as "[D1 D2]". iApply wp_bind.
  iAssert (wp (if negb (last_v 0 l1 =? 0) then next ← ld (last_v 0 l1 + off_vm_next); st (last_v 0 l1 + off_vm_next) (a_v a);; mret next else next ← ld mm; st mm (a_v a);; mret next)
     (fun next => ⌜next = head_v l2 0⌝ ∗ mm ↦ head_v (l1 ++ a :: l2) 0 ∗ dll 0 l1 (a_v a))%I) with "[Hm D1]" as "W".
  { destruct l1 as [ | u l1 _] using rev_ind.
    - cbn [last_v list.last]. simpl negb. cbn iota. cbn [app]. wp_ld "Hm". wp_st "Hm". iApply wp_ret. by iFrame.
    - rw last_v_snoc head_v_snoc. apply Forall_app in V1 as [_ V1]. apply Forall_cons in V1 as [V1 _]. rw vs_ne //. cbn [negb]. cbn iota. rw dll_last. iDestruct "D1" as "(D2 & D3 & D1)". wp_ld "D1". wp_st "D1". iApply wp_ret. rw dll_last head_v_snoc. by iFrame. }
  iApply (wp_wand with "W"). iIntros (next) "(-> & Hm & D1)". wp_st "Hn". destruct l2 as [|b l2]; cbn [head_v dll].
  - cbn [Z.eqb negb]. iApply wp_ret. rw dll_app. cbn [dll head_v]. by iFrame.
  - apply Forall_cons in V2 as [V2 _]. rw vs_ne //. cbn [negb]. cbn iota. iDestruct "D2" as "[Hb D2]". iApply (wp_st with "Hb"). iIntros "Hb". rw dll_app. cbn [dll head_v]. by iFrame.
Qed.

(** ** Gaps *)

Lemma gap_at_mid l1 a l2 : forall p, node_at a ∉ nodes l1 -> gap_at p (l1 ++ a :: l2) (node_at a) = area_gap (match list.last l1 with None => p | Some b => Some b end) a.
Proof.
  induction l1 as [|b l1 IH]; intros p Hn; cbn [app gap_at list.last]; [by rw Z.eqb_refl|]. unfold nodes in Hn. rw fmap_cons not_elem_of_cons in Hn. destruct Hn as [Hb Hn].
  destruct (Z.eqb_spec (node_at b) (node_at a)) as [E|_]; [congruence|]. rw IH // last_cons. by destruct (list.last l1).
Qed.
Lemma gap_at_app l1 l2 : forall p n, n ∉ nodes l1 -> gap_at p (l1 ++ l2) n = gap_at (match list.last l1 with None => p | Some b => Some b end) l2 n.
Proof.
  induction l1 as [|b l1 IH]; intros p n Hn; cbn [app gap_at list.last]; [done|]. unfold nodes in Hn. rw fmap_cons not_elem_of_cons in Hn. destruct Hn as [Hb Hn].
  destruct (Z.eqb_spec (node_at b) n) as [E|_]; [congruence|]. rw IH // last_cons. by destruct (list.last l1).
Qed.
Lemma gap_at_left l1 l2 l2' : forall p n, n ∈ nodes l1 -> gap_at p (l1 ++ l2) n = gap_at p (l1 ++ l2') n.
Proof.
  induction l1 as [|b l1 IH]; intros p n Hn; [by apply elem_of_nil in Hn|]. cbn [app gap_at]. destruct (Z.eqb_spec (node_at b) n) as [E|E]; [done|]. apply IH. unfold nodes in Hn. rw fmap_cons elem_of_cons in Hn. by destruct Hn as [->|].
Qed.
Lemma start_gap_nonneg a : 0 <= a_s a -> 0 <= start_gap a.
Proof. intros H. unfold start_gap. destruct (negb _); [|done]. case_match; [lia|]. unfold u64. apply Z.mod_pos_bound. lia. Qed.
Lemma gap_nonneg l : Forall (fun a => 0 <= a_s a) l -> forall p n, 0 <= gap_at p l n.
Proof.
  induction 1 as [|a l Ha Hl IH]; intros p n; cbn [gap_at]; [done|]. destruct (node_at a =? n); [|apply IH]. unfold area_gap. destruct p as [b|]; [|by apply start_gap_nonneg]. case_match; [|lia]. unfold u64. apply Z.mod_pos_bound. lia.
Qed.

Lemma wp_start_gap a Q : area_at a -∗ (area_at a -∗ Q (start_gap a)) -∗ wp (vm_start_gap (a_v a)) Q.
Proof.
  iIntros "(Hs & He & Hf & Hp & Ho) HQ". unfold vm_start_gap, start_gap. wp_ld "Hs". wp_ld "Hf". destruct (negb _); iApply wp_ret; iApply "HQ"; iFrame.
Qed.
Lemma wp_end_gap a Q : area_at a -∗ (area_at a -∗ Q (a_e a)) -∗ wp (vm_end_gap (a_v a)) Q.
Proof.
  iIntros "(Hs & He & Hf & Hp & Ho) HQ". unfold vm_end_gap. wp_ld "He". wp_ld "Hf". unfold VM_GROWSUP, VM_NONE. rw Z.land_0_r. cbn [Z.eqb negb]. cbn iota. iApply wp_ret. iApply "HQ". iFrame.
Qed.
Lemma areas_app l1 l2 : areas (l1 ++ l2) ⊣⊢ areas l1 ∗ areas l2.
Proof. apply big_sepL_app. Qed.
Lemma areas_one a : areas [a] ⊣⊢ area_at a.
Proof. apply big_sepL_singleton. Qed.
Lemma wp_compute_gap l1 a l2 Q : vs_ok l1 -> frame (l1 ++ a :: l2) -∗ (frame (l1 ++ a :: l2) -∗ Q (area_gap (list.last l1) a)) -∗ wp (vma_compute_gap (a_v a)) Q.
Proof.
  iIntros (V) "[Ha Hd] HQ". unfold vma_compute_gap, frame. rw areas_mid dll_app. cbn [dll]. iDestruct "Ha" as "(H1 & Ha & H2)". iDestruct "Hd" as "(D1 & Dp & D2)".
  iApply wp_bind. iApply (wp_start_gap with "Ha"). iIntros "Ha". wp_ld "Dp". destruct l1 as [ | u l1 _] using rev_ind.
  - cbn [last_v list.last Z.eqb negb]. cbn iota. iApply wp_ret. iApply "HQ". by iFrame.
  - apply Forall_app in V as [_ V]. apply Forall_cons in V as [V _]. rw last_v_snoc vs_ne // last_snoc. cbn [negb]. cbn iota. rw areas_app areas_one. iDestruct "H1" as "[H1 Hu]". iApply wp_bind. iApply (wp_end_gap with "Hu"). iIntros "Hu". iApply wp_ret. iApply "HQ". by iFrame.
Qed.
Lemma gap_compute l N : NoDup (nodes l) -> vs_ok l -> N ⊆ nodes l -> compute_spec off_rb vma_compute_gap (frame l) (gap_at None l) N.
Proof.
  intros HN V Sub n Q Hn. apply Sub, list_elem_of_fmap in Hn as (a & -> & Ha). apply list_elem_of_split in Ha as (l1 & l2 & ->). unfold nodes in HN. rw fmap_app fmap_cons in HN. apply NoDup_mid in HN as (Hn & _).
  rw gap_at_mid //. replace (node_at a - off_rb) with (a_v a) by (unfold node_at; lia). replace (match list.last l1 with Some b => Some b | None => None end) with (list.last l1) by by destruct (list.last l1). apply wp_compute_gap. by apply Forall_app in V as [V _].
Qed.

(** ** Linking a new area *)

Lemma fresh_node root t n v : addr_ok n -> rbtree root t -∗ n ↦ v -∗ ⌜NoDup (n :: inorder t)⌝.
Proof.
  iIntros (Hn) "[_ Ht] Hn". iDestruct (tree_cells with "Ht") as "Ht". iDestruct (cells_nodup (n :: inorder t) with "[Ht Hn]") as "[% _]"; [|done]. rw big_sepL_cons. iFrame "Ht". iExists v. by iFrame.
Qed.
Lemma nodes_app l1 l2 : nodes (l1 ++ l2) = nodes l1 ++ nodes l2.
Proof. apply fmap_app. Qed.
Lemma nodup_mid_inv (x : Z) l1 l2 : NoDup (x :: l1 ++ l2) -> NoDup (l1 ++ x :: l2).
Proof. by rewrite Permutation_middle. Qed.
Lemma nonzero_nodes l : vs_ok l -> forall n, n ∈ nodes l -> n <> 0.
Proof. intros V n Hn. apply list_elem_of_fmap in Hn as (a & -> & Ha). unfold vs_ok in V. rw Forall_forall in V. pose proof (V a Ha). unfold node_at, off_rb. lia. Qed.

(** Where the new area [a] goes: the hole [k] of a red-black tree, between the areas [l1] and [l2]. *)
Record link_site (a : varea) (l1 l2 : list varea) (k : ctx) (h fuel : nat) : Prop := {
  ls_rb : rb (plug k Leaf) Black h;
  ls_before : nodes l1 = ctx_before k;
  ls_after : nodes l2 = ctx_after k;
  ls_vs : vs_ok (l1 ++ a :: l2);
  ls_starts : Forall (fun b => 0 <= a_s b) (l1 ++ a :: l2);
  ls_nodup : NoDup (nodes (l1 ++ a :: l2));
  ls_fuel : (S (rb_bound (length (l1 ++ l2))) < fuel)%nat }.

Lemma site_nodes a l1 l2 k h fuel : link_site a l1 l2 k h fuel -> inorder (plug k Leaf) = nodes (l1 ++ l2).
Proof. intros H. rw inorder_ctx nodes_app (ls_before _ _ _ _ _ _ H) (ls_after _ _ _ _ _ _ H). done. Qed.
Lemma sub_nodes a l1 l2 : nodes (l1 ++ l2) ⊆ nodes (l1 ++ a :: l2).
Proof. rw !nodes_app. intros n. rw !elem_of_app. unfold nodes. rw fmap_cons elem_of_cons. tauto. Qed.
Lemma site_depth a l1 l2 k h fuel : link_site a l1 l2 k h fuel -> (S (depth (plug k Leaf)) < fuel)%nat.
Proof. intros H. pose proof (rb_depth_log _ _ (ls_rb _ _ _ _ _ _ H)) as Hd. unfold size in Hd. rw (site_nodes _ _ _ _ _ _ H) length_fmap in Hd. pose proof (ls_fuel _ _ _ _ _ _ H). lia. Qed.
Lemma nodes_mid a l1 l2 : nodes (l1 ++ a :: l2) = nodes l1 ++ node_at a :: nodes l2.
Proof. by rw nodes_app. Qed.
Lemma site_nodup a l1 l2 k h fuel : link_site a l1 l2 k h fuel -> NoDup (nodes (l1 ++ l2)) /\ node_at a ∉ nodes (l1 ++ l2).
Proof. intros H. pose proof (ls_nodup _ _ _ _ _ _ H) as ND. rewrite nodes_mid -Permutation_middle -nodes_app in ND. apply NoDup_cons in ND. tauto. Qed.
Lemma gap_moved a l1 b l3 n : n ∈ nodes (l1 ++ b :: l3) -> n <> node_at b -> n <> node_at a -> gap_at None (l1 ++ a :: b :: l3) n = gap_at None (l1 ++ b :: l3) n.
Proof.
  intros Hn Hb Ha. destruct (decide (n ∈ nodes l1)) as [Hn1|Hn1]; [by apply gap_at_left|]. rw !gap_at_app //. cbn [gap_at]. destruct (Z.eqb_spec (node_at b) n); [congruence|]. destruct (Z.eqb_spec (node_at a) n); [congruence|done].
Qed.

(** [vma_gap_update] when only the gap of the area [b] has changed. *)
Lemma wp_gap_update root T w lab b l N fuel : inorder T = N -> is_rbtree T -> vs_ok l -> Forall (fun c => 0 <= a_s c) l -> NoDup (nodes l) -> NoDup N -> N ⊆ nodes l -> node_at b ∈ N -> aug_ok w lab T ->
  (forall n, n ∈ N -> n <> node_at b -> gap_at None l n = w n) -> (S (depth T) < fuel)%nat ->
  rbtree root T -∗ labels off_rb off_subtree_gap lab N -∗ frame l -∗ wp (vma_gap_update fuel (a_v b)) (fun _ => rbtree root T ∗ gaps l N T)%I.
Proof.
  iIntros (EN Hrb V SS ND NDN SubN Hb Ha G Hd) "Ht L F". unfold vma_gap_update, vma_gap_callbacks_propagate. fold (node_at b). pose proof Hb as Hin. apply list_elem_of_split in Hin as (n1 & n2 & E2). rewrite E2 in EN.
  destruct (inorder_split T n1 (node_at b) n2 EN) as (kb & cb & lb & rt & ET & E1 & E3). rewrite -E2 in EN. rewrite ET in Hd, Ha, EN |- *. apply aug_plug in Ha as [(Eb & Hl & Hr) Hk]. destruct (sub_ctx _ _ _ EN NDN) as (Sub & NDb & Out). destruct (NoDup_node _ _ _ _ NDb) as [Nl Nr]. destruct (sub_node _ _ _ _ _ Sub) as (_ & Sl & Sr). iDestruct (plug_open with "Ht") as "[Hk Ht]". cbn [ptr].
  iApply (wp_propagate _ _ _ (frame l) (gap_at None l) N with "Hk Ht L F").
  - by apply gap_compute.
  - done.
  - intros n Hn. apply (nonzero_nodes _ V). by apply SubN.
  - intros n _. by apply gap_nonneg.
  - done.
  - pose proof (depth_plug kb (Node cb (node_at b) lb rt)) as Hd'. simpl in Hd'. lia.
  - apply (aug_values w); [|done]. intros n Hn. apply G; [by apply Sl|]. intros ->. done.
  - apply (aug_values w); [|done]. intros n Hn. apply G; [by apply Sr|]. intros ->. done.
  - apply (ctx_values w); [|exact Hk]. intros n Hn. apply G; [rw -EN inorder_ctx !elem_of_app; rw elem_of_app in Hn; tauto|]. intros ->. apply (Out (node_at b)); [|done]. simpl. apply elem_of_app. right. left.
  - intros _. by rw Eb.
Qed.

(** The gap of the area after the new one, or the end of the address space. *)
Lemma wp_update_next mm a l1 l2 k h fuel lab x : link_site a l1 l2 k h fuel -> aug_ok (gap_at None (l1 ++ l2)) lab (plug k Leaf) -> highest_ok (l1 ++ l2) x ->
  rbtree (mm + off_mm_rb) (plug k Leaf) -∗ labels off_rb off_subtree_gap lab (nodes (l1 ++ l2)) -∗ frame (l1 ++ a :: l2) -∗ (mm + off_highest) ↦ x -∗
  wp (if negb (head_v l2 0 =? 0) then vma_gap_update fuel (head_v l2 0) else e ← vm_end_gap (a_v a); st (mm + off_highest) e)
    (fun _ => ∃ x', ⌜highest_ok (l1 ++ a :: l2) x'⌝ ∗ rbtree (mm + off_mm_rb) (plug k Leaf) ∗ gaps (l1 ++ a :: l2) (nodes (l1 ++ l2)) (plug k Leaf) ∗ (mm + off_highest) ↦ x')%I.
Proof.
  iIntros (HS Ha Hx) "Ht L F Hx". pose proof (site_nodes _ _ _ _ _ _ HS) as EN. destruct (site_nodup _ _ _ _ _ _ HS) as [NDl Hna]. pose proof (ls_vs _ _ _ _ _ _ HS) as V. destruct l2 as [|b l3].
  - cbn [head_v Z.eqb negb]. cbn iota. unfold frame. rw areas_mid. iDestruct "F" as "[(F1 & Fa & F2) D]". iApply wp_bind. iApply (wp_end_gap with "Fa"). iIntros "Fa". iApply (wp_st with "Hx"). iIntros "Hx". iExists (a_e a). iFrame "Hx Ht". iSplitR; [iPureIntro; unfold highest_ok; by rw last_snoc|].
    iExists lab. iFrame "L". unfold frame. rw areas_mid. iFrame. iPureIntro. split; [|done]. apply (aug_values (gap_at None (l1 ++ []))); [|done]. intros n Hn. apply gap_at_left. rw EN app_nil_r in Hn. exact Hn.
  - assert (0 < a_v b) as Vb by (unfold vs_ok in V; rw Forall_app !Forall_cons in V; tauto). cbn [head_v]. rw vs_ne //. cbn [negb]. cbn iota.
    iApply (wp_wand with "[Ht L F]").
    { iApply (wp_gap_update _ (plug k Leaf) (gap_at None (l1 ++ b :: l3)) lab b (l1 ++ a :: b :: l3) with "Ht L F"); [done|by exists h; apply (ls_rb _ _ _ _ _ _ HS)|done|exact (ls_starts _ _ _ _ _ _ HS)|exact (ls_nodup _ _ _ _ _ _ HS)|exact NDl|apply sub_nodes|rw nodes_mid elem_of_app; right; left|done| |].
      - intros n Hn Hb. apply gap_moved; [done|done|intros ->; done].
      - pose proof (site_depth _ _ _ _ _ _ HS). lia. }
    iIntros (_) "[Ht HI]". iExists x. iFrame. iPureIntro. revert Hx. unfold highest_ok. rw !last_app !last_cons. by destruct (list.last l3).
Qed.

Lemma frame_next l1 a l2 : frame (l1 ++ a :: l2) -∗ (a_v a + off_vm_next) ↦ head_v l2 0 ∗ ((a_v a + off_vm_next) ↦ head_v l2 0 -∗ frame (l1 ++ a :: l2)).
Proof. unfold frame. rw dll_app. cbn [dll]. iIntros "($ & $ & $ & $ & $) $". Qed.
Lemma labels_add lab l1 n l2 x : n ∉ l1 ++ l2 -> labels off_rb off_subtree_gap lab (l1 ++ l2) -∗ label_at off_rb off_subtree_gap n x -∗ labels off_rb off_subtree_gap (<[n:=x]> lab) (l1 ++ n :: l2).
Proof.
  intros Hn. rw not_elem_of_app in Hn. destruct Hn as [N1 N2]. unfold labels at 1 2. rw !big_sepL_app big_sepL_cons fn_lookup_insert. iIntros "[A B] $". iSplitL "A".
  - iApply (labels_agree with "A"). intros m Hm. rw fn_lookup_insert_ne //. by intros ->.
  - iApply (labels_agree with "B"). intros m Hm. rw fn_lookup_insert_ne //. by intros ->.
Qed.

(** The label of the new node. *)
Lemma wp_update_new root a l1 l2 k h fuel : link_site a l1 l2 k h fuel ->
  ctx_at root k (node_at a) -∗ tree_at (ctxp k) (Node Red (node_at a) Leaf Leaf) -∗ gaps (l1 ++ a :: l2) (nodes (l1 ++ l2)) (plug k Leaf) -∗ (a_v a + off_subtree_gap) ↦ 0 -∗
  wp (vma_gap_update fuel (a_v a)) (fun _ => rbtree root (plug k (Node Red (node_at a) Leaf Leaf)) ∗ gaps (l1 ++ a :: l2) (nodes (l1 ++ a :: l2)) (plug k (Node Red (node_at a) Leaf Leaf)))%I.
Proof.
  iIntros (HS) "Hk Ht (%lab & (%Ha & %EN & _) & L & F) G". destruct (site_nodup _ _ _ _ _ _ HS) as [_ Hna]. pose proof (ls_nodup _ _ _ _ _ _ HS) as ND. pose proof (ls_vs _ _ _ _ _ _ HS) as V. apply aug_plug in Ha as [_ Hk]. simpl in Hk.
  rw nodes_app. iDestruct (labels_add _ _ (node_at a) with "L [G]") as "L"; [by rw -nodes_app|iEval (unfold label_at, node_at; replace (a_v a + off_rb - off_rb) with (a_v a) by lia); iExact "G"|]. rw -nodes_mid.
  iApply (wp_propagate _ _ _ (frame (l1 ++ a :: l2)) (gap_at None (l1 ++ a :: l2)) (nodes (l1 ++ a :: l2)) with "Hk Ht L F").
  - by apply gap_compute.
  - exact ND.
  - exact (nonzero_nodes _ V).
  - intros n _. apply gap_nonneg, (ls_starts _ _ _ _ _ _ HS).
  - rw inorder_ctx nodes_mid (ls_before _ _ _ _ _ _ HS) (ls_after _ _ _ _ _ _ HS). done.
  - pose proof (depth_plug k Leaf). pose proof (site_depth _ _ _ _ _ _ HS). lia.
  - done.
  - done.
  - apply ctx_insert; [|exact Hk]. rw -(ls_before _ _ _ _ _ _ HS) -(ls_after _ _ _ _ _ _ HS) -nodes_app. exact Hna.
  - by rw fn_lookup_insert.
Qed.

Lemma wp_link_rb mm a l1 l2 k h fuel lab x g0 : link_site a l1 l2 k h fuel -> addr_ok (node_at a) -> aug_ok (gap_at None (l1 ++ l2)) lab (plug k Leaf) -> highest_ok (l1 ++ l2) x ->
  rbtree (mm + off_mm_rb) (plug k Leaf) -∗ labels off_rb off_subtree_gap lab (nodes (l1 ++ l2)) -∗ frame (l1 ++ a :: l2) -∗ (mm + off_highest) ↦ x -∗ raw_node (node_at a) -∗ (a_v a + off_subtree_gap) ↦ g0 -∗
  wp (__vma_link_rb fuel mm (a_v a) (link_of (mm + off_mm_rb) k) (ctxp k))
    (fun _ => ∃ t x', ⌜is_rbtree t /\ highest_ok (l1 ++ a :: l2) x'⌝ ∗ rbtree (mm + off_mm_rb) t ∗ gaps (l1 ++ a :: l2) (nodes (l1 ++ a :: l2)) t ∗ (mm + off_highest) ↦ x')%I.
Proof.
  iIntros (HS Hok Ha Hx) "Ht L F Hx Hn G". unfold __vma_link_rb. iDestruct (frame_next with "F") as "[Fn F]". wp_ld "Fn". iSpecialize ("F" with "Fn"). iApply wp_bind. iApply (wp_wand with "[Ht L F Hx]"); [by iApply (wp_update_next with "Ht L F Hx")|].
  iIntros (_) "(%x' & %Hx' & Ht & HI & Hx)". iApply wp_bind. iApply (wp_wand with "[Ht Hn]"); [by iApply (wp_link_node with "Ht Hn")|]. iIntros (_) "[Hk Ht]". wp_st "G".
  iApply wp_bind. iApply (wp_wand with "[Hk Ht HI G]"); [by iApply (wp_update_new with "Hk Ht HI G")|]. iIntros (_) "[Ht HI]". pose proof (ls_vs _ _ _ _ _ _ HS) as V.
  assert (RotateSpec vma_gap_callbacks_rotate (gaps (l1 ++ a :: l2) (nodes (l1 ++ a :: l2))) (fun _ => True)) as HR.
  { apply augment_rotate_spec; [by apply gap_compute; [apply (ls_nodup _ _ _ _ _ _ HS)| |]|apply (ls_nodup _ _ _ _ _ _ HS)|exact (nonzero_nodes _ V)|]. intros n _. apply gap_nonneg, (ls_starts _ _ _ _ _ _ HS). }
  iApply (wp_wand with "[Ht HI]"). { iApply (wp_insert_augmented with "Ht HI"); [by apply Forall_true|done|exact (ls_rb _ _ _ _ _ _ HS)|]. unfold size. rw (site_nodes _ _ _ _ _ _ HS) length_fmap. pose proof (ls_fuel _ _ _ _ _ _ HS). lia. }
  iIntros (_) "(%t & %h' & [%Hrb _] & Ht & HI)". iExists t, x'. iFrame. iPureIntro. split; [by exists h'|exact Hx'].
Qed.

(** ** Insertion *)

Definition new_area (a : varea) : hprop :=
  (area_at a ∗ raw_node (node_at a) ∗ ∃ x y g, (a_v a + off_vm_prev) ↦ x ∗ (a_v a + off_vm_next) ↦ y ∗ (a_v a + off_subtree_gap) ↦ g)%I.
(** The address space [l], and what the search returned about the range from [s] to [e]. *)
Definition site_at (mm : Z) (l : list varea) (s e prev link parent : Z) : hprop :=
  (∃ k l1 l2 h lab x, ⌜l = l1 ++ l2 /\ hole l s e k l1 l2 /\ prev = last_v 0 l1 /\ link = link_of (mm + off_mm_rb) k /\ parent = ctxp k /\
       rb (plug k Leaf) Black h /\ aug_ok (gap_at None l) lab (plug k Leaf) /\ highest_ok l x⌝ ∗
     rbtree (mm + off_mm_rb) (plug k Leaf) ∗ labels off_rb off_subtree_gap lab (nodes l) ∗ frame l ∗ mm ↦ head_v l 0 ∗ (mm + off_highest) ↦ x)%I.
Definition links_found (mm : Z) (l : list varea) (s e : Z) (r : Z + Z * Z * Z) : hprop :=
  match r with
  | inl err => ⌜err = - ENOMEM /\ Exists (overlaps s e) l⌝ ∗ space mm l
  | inr (prev, link, parent) => site_at mm l s e prev link parent
  end%I.

Lemma wp_find_links mm l s e fuel : ordered l -> (rb_bound (length l) < fuel)%nat -> space mm l -∗ wp (find_vma_links fuel mm s e) (links_found mm l s e).
Proof.
  iIntros (Ho Hf) "(%t & %x & [%Ht %Hx] & Ht & (%lab & (%Ha & %EN & %ND) & L & F) & Hh & Hx)". pose proof Ht as [h Hrb].
  iApply (wp_wand with "[Ht F]").
  { iApply (wp_read_only _ (rbtree (mm + off_mm_rb) t ∗ frame l)%I (links_post mm t l s e)); [apply links_read_only| |iFrame].
    iIntros "[[Hr Ht] [Ha _]]". iApply (wp_links_loop mm l s e t fuel [] [] l [] with "Hr Ht Ha"); [pose proof (space_depth t l Ht EN); lia|by rw app_nil_r|done|done|by split]. }
  iIntros (r) "[%Hr [Ht F]]". destruct r as [err|[[prev link] parent]]; cbn [links_found].
  - destruct Hr as [-> Hr]. iSplitR; [done|]. iExists t, x. iFrame. done.
  - destruct Hr as (k & l1 & l2 & <- & -> & -> & El & Hk & ->). iExists k, l1, l2, h, lab, x. iFrame. done.
Qed.

Lemma ordered_vs l : ordered l -> vs_ok l /\ Forall (fun b => 0 <= a_s b) l.
Proof. intros [H _]. split; eapply Forall_impl; try exact H; simpl; lia. Qed.
Lemma ordered_join l1 a l2 : ordered (l1 ++ l2) -> 0 < a_v a -> 0 <= a_s a < a_e a -> Forall (fun b => a_e b <= a_s a) l1 -> Forall (fun b => a_e a <= a_s b) l2 -> ordered (l1 ++ a :: l2).
Proof.
  intros [HF HS] Hv Ha H1 H2. split; [rw Forall_app Forall_cons; rw Forall_app in HF; tauto|]. clear HF. induction l1 as [|b l1 IH]; simpl in *; [by constructor|].
  apply StronglySorted_inv in HS as [HS Hb]. apply Forall_cons in H1 as [Hab H1]. constructor; [by apply IH|]. rw Forall_app Forall_cons. rw Forall_app in Hb. tauto.
Qed.

Lemma wp_vma_link mm l a prev link parent fuel : ordered l -> 0 < a_v a -> 0 <= a_s a < a_e a -> addr_ok (node_at a) -> (S (rb_bound (length l)) < fuel)%nat ->
  site_at mm l (a_s a) (a_e a) prev link parent -∗ new_area a -∗
  wp (vma_link fuel mm (a_v a) prev link parent) (fun _ => ∃ l1 l2, ⌜l = l1 ++ l2 /\ ordered (l1 ++ a :: l2)⌝ ∗ space mm (l1 ++ a :: l2))%I.
Proof.
  iIntros (Ho Hv Hse Hok Hf) "(%k & %l1 & %l2 & %h & %lab & %x & (%El & %Hk & -> & -> & -> & %Hrb & %Ha & %Hx) & Ht & L & [F D] & Hh & Hx) (Na & (%p0 & %q0 & %q1 & Nn & Nr) & (%x0 & %y0 & %g0 & Np & Nx & Ng))".
  destruct Hk as [K1 K2 K3 K4]. subst l. pose proof (ordered_join l1 a l2 Ho Hv Hse K3 K4) as Ho'. destruct (ordered_vs _ Ho') as [V SS]. iDestruct (fresh_node with "Ht Nn") as %ND; [done|].
  assert (link_site a l1 l2 k h fuel) as HS. { split; try done. rw nodes_mid. apply nodup_mid_inv. rw -nodes_app. rw inorder_ctx -K1 -K2 in ND. by rw nodes_app. }
  unfold vma_link. iApply wp_bind. iApply (wp_wand with "[Hh D Np Nx]"). { iApply (wp_link_list with "Hh D Np Nx"); unfold vs_ok in *; rw Forall_app Forall_cons in V; tauto. }
  iIntros (_) "[Hh D]". iApply (wp_wand with "[-Hh]"). { iApply (wp_link_rb mm a l1 l2 k h fuel lab x g0 with "Ht L [F D Na] Hx [Nn Nr] Ng"); [done|done|done|done| |].
    - unfold frame. rw areas_mid areas_app. iDestruct "F" as "[$ $]". iFrame.
    - iExists p0, q0, q1. iFrame. }
  iIntros (_) "(%t & %x' & [%Ht %Hx'] & Ht & HI & Hx)". iExists l1, l2. iSplitR; [done|]. iExists t, x'. by iFrame.
Qed.

(** What [insert_vm_struct] puts in: an anonymous area gets the page offset of its address. *)
Definition linked (a : varea) : varea := if a_op a =? 0 then VArea (a_v a) (a_s a) (a_e a) (a_fl a) (Z.shiftr (a_s a) PAGE_SHIFT) (a_op a) else a.
Lemma linked_keeps a : a_v (linked a) = a_v a /\ a_s (linked a) = a_s a /\ a_e (linked a) = a_e a /\ node_at (linked a) = node_at a.
Proof. unfold linked, node_at. by destruct (a_op a =? 0). Qed.
Definition insert_done (mm : Z) (l : list varea) (a : varea) (r : Z) : hprop :=
  (⌜r = - ENOMEM /\ Exists (overlaps (a_s a) (a_e a)) l⌝ ∗ space mm l ∗ new_area a ∨
   ∃ l1 l2, ⌜r = 0 /\ l = l1 ++ l2 /\ ordered (l1 ++ linked a :: l2)⌝ ∗ space mm (l1 ++ linked a :: l2))%I.

Lemma wp_insert mm l a fuel : ordered l -> 0 < a_v a -> 0 <= a_s a < a_e a -> addr_ok (node_at a) -> (S (rb_bound (length l)) < fuel)%nat ->
  space mm l -∗ new_area a -∗ wp (insert_vm_struct fuel mm (a_v a)) (insert_done mm l a).
Proof.
  iIntros (Ho Hv Hse Hok Hf) "Hs ((As & Ae & Af & Ap & Ao) & Nr & N)". unfold insert_vm_struct. wp_ld "As". wp_ld "Ae". iApply wp_bind. iApply (wp_wand with "[Hs]"); [iApply (wp_find_links with "Hs"); [done|lia]|].
  iIntros ([err|[[prev link] parent]]) "H"; cbn [links_found].
  - iDestruct "H" as "[[_ %Hex] Hs]". iApply wp_ret. iLeft. by iFrame.
  - wp_ld "Ao". destruct (linked_keeps a) as (E1 & E2 & E3 & E4). iApply wp_bind. iApply (wp_wand _ (fun _ => area_at (linked a)) with "[As Ae Af Ap Ao]").
    { unfold linked, area_at. destruct (a_op a =? 0); [iApply (wp_st with "Ap"); iIntros "Ap"|iApply wp_ret]; iFrame. }
    iIntros (_) "A". iApply wp_bind. iApply (wp_wand with "[-]").
    { pose proof (wp_vma_link mm l (linked a) prev link parent fuel) as W. unfold new_area in W. rewrite E1 E2 E3 E4 in W. by iApply (W with "H [$A $Nr $N]"). }
    iIntros (_) "(%l1 & %l2 & [%El %Ho'] & Hs)". iApply wp_ret. iRight. iExists l1, l2. by iFrame.
Qed.

Lemma pure_sep_holds (φ : Prop) (P : hprop) m : hprop_holds (⌜φ⌝ ∗ P)%I m -> φ /\ hprop_holds P m.
Proof. intros (h1 & h2 & Hd & Hs & H1 & H2). split; [exact H1|]. eapply hprop_mono; [exact H2|]. etransitivity; [|exact Hs]. by apply map_union_subseteq_r. Qed.

(** C13: inserting an area into an address space with ordered areas fails with [-ENOMEM], the
    areas being as before, exactly when it overlaps one of them; otherwise the area is put
    between the areas before it and those after it, in the tree, in the list and in the largest
    gaps, within twice the logarithm of the number of areas steps. *)
Theorem insert_area_exact mm l a fuel m hf : ordered l -> 0 < a_v a -> 0 <= a_s a < a_e a -> addr_ok (node_at a) -> (S (rb_bound (length l)) < fuel)%nat ->
  hprop_holds (space mm l ∗ new_area a)%I m -> m ##ₘ hf ->
  exists r m', insert_vm_struct fuel mm (a_v a) (m ∪ hf) = Ok (r, m' ∪ hf) /\ m' ##ₘ hf /\
    ((r = - ENOMEM /\ Exists (overlaps (a_s a) (a_e a)) l /\ hprop_holds (space mm l ∗ new_area a)%I m') \/
     (exists l1 l2, r = 0 /\ l = l1 ++ l2 /\ ordered (l1 ++ linked a :: l2) /\ hprop_holds (space mm (l1 ++ linked a :: l2)) m')).
Proof.
  intros Ho Hv Hse Hok Hf HP Hd. destruct (wp_adequate (space mm l ∗ new_area a)%I (insert_vm_struct fuel mm (a_v a)) (insert_done mm l a)) with (h := m) (hf := hf) as (r & m' & E & D & HQ); [|exact HP|exact Hd|].
  - iIntros "[H1 H2]". by iApply (wp_insert with "H1 H2").
  - exists r, m'. split; [exact E|]. split; [exact D|]. destruct HQ as [HQ|(l1 & l2 & HQ)].
    + left. apply pure_sep_holds in HQ. tauto.
    + right. apply pure_sep_holds in HQ. exists l1, l2. tauto.
Qed.

(** ** Growth of a stack *)

Definition grow (a : varea) (address : Z) : Z := Z.shiftr (u64 (a_s a - address)) PAGE_SHIFT.
(** The area after [expand_downwards]. *)
Definition grown (a : varea) (address : Z) : varea :=
  if (address <? a_s a) && (grow a address <=? a_pg a) then VArea (a_v a) address (a_e a) (a_fl a) (u64 (a_pg a - grow a address)) (a_op a) else a.
Lemma gap_replaced l1 a a' l2 n : node_at a' = node_at a -> a_e a' = a_e a -> n <> node_at a -> forall p, gap_at p (l1 ++ a' :: l2) n = gap_at p (l1 ++ a :: l2) n.
Proof.
  intros En Ee Hn. induction l1 as [|b l1 IH]; intros p; cbn [app gap_at].
  - rw En. destruct (Z.eqb_spec (node_at a) n); [congruence|]. destruct l2 as [|b l2]; [done|]. cbn [gap_at area_gap]. by rw Ee.
  - destruct (node_at b =? n); [done|]. apply IH.
Qed.
Lemma dll_replaced l1 a a' l2 : a_v a' = a_v a -> forall p, dll p (l1 ++ a' :: l2) 0 = dll p (l1 ++ a :: l2) 0.
Proof. intros E. induction l1 as [|b l1 IH]; intros p; cbn [app dll]; rw ?E; [done|]. rw IH. destruct l1; simpl; by rw ?E. Qed.

Lemma wp_expand mm l1 a l2 fuel address : ordered (l1 ++ a :: l2) -> 0 <= address -> (S (rb_bound (length (l1 ++ a :: l2))) < fuel)%nat ->
  space mm (l1 ++ a :: l2) -∗ wp (expand_stack fuel (a_v a) address) (fun r => ⌜r = 0⌝ ∗ space mm (l1 ++ grown a address :: l2))%I.
Proof.
  iIntros (Ho Had Hf) "(%t & %x & [%Ht %Hx] & Ht & (%lab & (%Ha & %EN & %ND) & L & [F D]) & Hh & Hx)". destruct (ordered_vs _ Ho) as [V SS]. rw areas_mid. iDestruct "F" as "(F1 & (As & Ae & Af & Ap & Ao) & F2)".
  unfold expand_stack, expand_downwards. wp_ld "As". unfold grown. destruct (address <? a_s a) eqn:E1; cbn [andb].
  2:{ iApply wp_ret. iSplitR; [done|]. iExists t, x. iFrame "Ht Hh Hx". iSplitR; [done|]. iExists lab. iFrame "L D". rw areas_mid. by iFrame. }
  wp_ld "Ap". fold (grow a address). destruct (grow a address <=? a_pg a) eqn:E2.
  2:{ iApply wp_bind. iApply wp_ret. iApply wp_ret. iSplitR; [done|]. iExists t, x. iFrame "Ht Hh Hx". iSplitR; [done|]. iExists lab. iFrame "L D". rw areas_mid. by iFrame. }
  set (a' := VArea _ _ _ _ _ _). iApply wp_bind. wp_st "As". wp_st "Ap". assert (nodes (l1 ++ a' :: l2) = nodes (l1 ++ a :: l2)) as En by (rw !nodes_mid; done). pose proof (space_depth t _ Ht EN) as Hd.
  iApply (wp_wand with "[Ht L F1 F2 D As Ae Af Ap Ao]").
  { change (a_v a) with (a_v a'). iApply (wp_gap_update _ t (gap_at None (l1 ++ a :: l2)) lab a' (l1 ++ a' :: l2) (nodes (l1 ++ a :: l2)) with "Ht L [F1 F2 D As Ae Af Ap Ao]"); [done|done| | |by rw En|done|by rw En|rw nodes_mid elem_of_app; right; left|done| |lia|].
    - unfold vs_ok in *. rw Forall_app Forall_cons in V. rw Forall_app Forall_cons. exact V.
    - rw Forall_app Forall_cons in SS. rw Forall_app Forall_cons. simpl. tauto.
    - intros n _ Hn. by apply gap_replaced.
    - unfold frame. rw areas_mid (dll_replaced l1 a a' l2); [|done]. by iFrame. }
  iIntros (_) "[Ht HI]". iApply wp_ret. iSplitR; [done|]. iExists t, x. iFrame "Ht Hx". rw En. iFrame "HI". iSplitR; [iPureIntro; split; [done|]; revert Hx; unfold highest_ok; rw !last_app !last_cons; by destruct (list.last l2)|]. by destruct l1.
Qed.

(** [expand_stack] moves the start of an area of an address space down to the
    address asked for when the page offset of the area allows it, and repairs the largest gaps of the tree;
    the other areas are as before.  Nothing keeps the area from growing over the one before it. *)
Theorem expand_stack_exact mm l1 a l2 fuel address m hf : ordered (l1 ++ a :: l2) -> 0 <= address -> (S (rb_bound (length (l1 ++ a :: l2))) < fuel)%nat ->
  hprop_holds (space mm (l1 ++ a :: l2)) m -> m ##ₘ hf ->
  exists m', expand_stack fuel (a_v a) address (m ∪ hf) = Ok (0, m' ∪ hf) /\ m' ##ₘ hf /\ hprop_holds (space mm (l1 ++ grown a address :: l2)) m'.
Proof.
  intros Ho Had Hf HP Hd. destruct (wp_adequate (space mm (l1 ++ a :: l2)) (expand_stack fuel (a_v a) address) (fun r => ⌜r = 0⌝ ∗ space mm (l1 ++ grown a address :: l2))%I) with (h := m) (hf := hf) as (r & m' & E & D & HQ); [|exact HP|exact Hd|].
  - by iApply wp_expand.
  - apply pure_sep_holds in HQ as [-> HQ]. by exists m'.
Qed.

(** ** Witnesses *)

Definition area1 : varea := VArea 4096 0x10000 0x11000 3 5 0.
Definition area2 : varea := VArea 8192 0x20000 0x22000 3 32 0.
Definition area_new : varea := VArea 12288 0x14000 0x15000 3 7 0.
Definition tree_of_areas : tree := Node Black 4128 Leaf (Node Red 8224 Leaf Leaf).
Definition gap_labels (n : Z) : Z := if n =? 4128 then 0x10000 else 0xF000.
Definition space_cells : list (Z * Z) :=
  [(1032, 4128); (4128, pcval 0 Black); (4144, 0); (4136, 8224); (8224, pcval 4128 Red); (8240, 0); (8232, 0);
   (4152, 0x10000); (8248, 0xF000);
   (4096, 0x10000); (4104, 0x11000); (4176, 3); (4184, 5); (4200, 0); (8192, 0x20000); (8200, 0x22000); (8272, 3); (8280, 32); (8296, 0);
   (4120, 0); (4112, 8192); (8216, 4096); (8208, 0); (1024, 4096); (1536, 0x22000)].
Definition new_cells : list (Z * Z) :=
  [(12288, 0x14000); (12296, 0x15000); (12368, 3); (12376, 7); (12392, 0); (12320, 9); (12336, 9); (12328, 9); (12312, 9); (12304, 9); (12344, 9)].
Lemma areas_ordered : ordered [area1; area2].
Proof. split; [repeat constructor; simpl; lia|]. repeat constructor; unfold before; simpl; lia. Qed.
Lemma space_cells_hold : ([∗ list] x ∈ space_cells, x.1 ↦ x.2) ⊢ space 1024 [area1; area2].
Proof.
  iIntros "(T0 & T1 & T2 & T3 & T4 & T5 & T6 & L1 & L2 & A1 & A2 & A3 & A4 & A5 & B1 & B2 & B3 & B4 & B5 & D1 & D2 & D3 & D4 & Hm & Hh & _)". iExists tree_of_areas, 0x22000. iFrame "Hm Hh". iSplitR; [iPureIntro; split; [exists 1%nat; repeat econstructor|done]|].
  iSplitL "T0 T1 T2 T3 T4 T5 T6"; [iFrame "T0 T1 T2 T3 T4 T5 T6"; iPureIntro; repeat split; lia|]. iExists gap_labels. iSplitR.
  - iPureIntro. split; [|split; [done|solve_nodup]]. repeat split; vm_compute; reflexivity.
  - iFrame "L1 L2 A1 A2 A3 A4 A5 B1 B2 B3 B4 B5 D1 D2 D3 D4". by iSplit.
Qed.
Lemma new_cells_hold : ([∗ list] x ∈ new_cells, x.1 ↦ x.2) ⊢ new_area area_new.
Proof. iIntros "(A1 & A2 & A3 & A4 & A5 & N1 & N2 & N3 & P1 & P2 & P3 & _)". iFrame "A1 A2 A3 A4 A5". iSplitL "N1 N2 N3"; [iExists 9, 9, 9; iFrame "N1 N2 N3"|]. iExists 9, 9, 9. iFrame "P1 P2 P3". Qed.

Lemma find_vma_first_witness : find_vma 8 77 1024 0x11000 (cells space_cells ∪ ∅) = Ok (8192, cells space_cells ∪ ∅) /\ find_vma 8 77 1024 0x30000 (cells space_cells ∪ ∅) = Ok (77, cells space_cells ∪ ∅).
Proof.
  assert (hprop_holds (space 1024 [area1; area2]) (cells space_cells)) as HP by (apply cells_entail; [solve_nodup|exact space_cells_hold]).
  split.
  - exact (find_vma_first 1024 [area1; area2] 8 77 0x11000 (cells space_cells) ∅ areas_ordered ltac:(vm_compute; lia) HP (map_disjoint_empty_r _)).
  - exact (find_vma_first 1024 [area1; area2] 8 77 0x30000 (cells space_cells) ∅ areas_ordered ltac:(vm_compute; lia) HP (map_disjoint_empty_r _)).
Defined.
Lemma insert_area_exact_witness : exists m', insert_vm_struct 8 1024 12288 (cells (space_cells ++ new_cells) ∪ ∅) = Ok (0, m' ∪ ∅) /\ hprop_holds (space 1024 [area1; linked area_new; area2]) m'.
Proof.
  destruct (insert_area_exact 1024 [area1; area2] area_new 8 (cells (space_cells ++ new_cells)) ∅ areas_ordered) as (r & m' & E & _ & H).
  - simpl. lia.
  - simpl. lia.
  - split; [vm_compute; split; reflexivity|reflexivity].
  - vm_compute. lia.
  - apply cells_entail; [solve_nodup|]. rw big_sepL_app. iIntros "[H1 H2]". iSplitL "H1"; [by iApply space_cells_hold|by iApply new_cells_hold].
  - apply map_disjoint_empty_r.
  - destruct H as [(_ & H & _)|(l1 & l2 & -> & El & Ho & H)].
    + exfalso. rw !Exists_cons in H. unfold overlaps in H. simpl in H. destruct H as [H|[H|H]]; [lia|lia|by apply Exists_nil in H].
    + exists m'. split; [exact E|]. destruct l1 as [|b1 [|b2 [|b3 l1]]]; simpl in El.
      * subst l2. destruct Ho as [_ Ho]. apply StronglySorted_inv in Ho as [_ Ho]. apply Forall_cons in Ho as [Ho _]. unfold before in Ho. simpl in Ho. lia.
      * injection El as <- <-. exact H.
      * injection El as <- <- <-. destruct Ho as [_ Ho]. apply StronglySorted_inv in Ho as [Ho _]. apply StronglySorted_inv in Ho as [_ Ho]. apply Forall_cons in Ho as [Ho _]. unfold before in Ho. simpl in Ho. lia.
      * discriminate El.
Defined.
Lemma expand_stack_exact_witness : exists m', expand_stack 8 8192 0x1F000 (cells space_cells ∪ ∅) = Ok (0, m' ∪ ∅) /\ hprop_holds (space 1024 [area1; VArea 8192 0x1F000 0x22000 3 31 0]) m'.
Proof.
  destruct (expand_stack_exact 1024 [area1] area2 [] 8 0x1F000 (cells space_cells) ∅ areas_ordered) as (m' & E & _ & H).
  - lia.
  - vm_compute. lia.
  - apply cells_entail; [solve_nodup|exact space_cells_hold].
  - apply map_disjoint_empty_r.
  - exists m'. split; [exact E|exact H].
Defined.
