(* ===== verification/VmMap.v ===== *)
(** * mm/mmap.c, mm/util.c: mapping a range of addresses

    [do_mmap] and [do_brk_flags] choose a range, check it against the areas of the address space
    and link a new area.  The address space of the current task is at [mm]; [va] is the
    structure that the cache of areas hands out (zero when it has none), and a file is what the code reads of it. *)

From Stdlib Require Import ZArith Lia.
From stdpp Require Import base tactics numbers list strings gmap.
From iris.proofmode Require Import proofmode.
From S2P Require Import Prelude Words HeapLogic RbTree RbAugment Scatterlist OfTree PageTable VmArea.
#[local] Open Scope Z_scope.

(** ** Constants *)

Definition PROT_READ : Z := 0x1.
Definition PROT_WRITE : Z := 0x2.
Definition PROT_EXEC : Z := 0x4.
Definition MAP_SHARED : Z := 0x01.
Definition MAP_PRIVATE : Z := 0x02.
Definition MAP_SHARED_VALIDATE : Z := 0x03.
Definition MAP_TYPE : Z := 0x0f.
Definition MAP_FIXED : Z := 0x10.
Definition MAP_GROWSDOWN : Z := 0x0100.
Definition MAP_DENYWRITE : Z := 0x0800.
Definition MAP_LOCKED : Z := 0x2000.
Definition MAP_NORESERVE : Z := 0x4000.
Definition MAP_POPULATE : Z := 0x008000.
Definition MAP_NONBLOCK : Z := 0x010000.
Definition MAP_SYNC : Z := 0x080000.
Definition VM_MAYREAD : Z := 0x10.
Definition VM_MAYWRITE : Z := 0x20.
Definition VM_MAYEXEC : Z := 0x40.
Definition VM_DENYWRITE : Z := 0x800.
Definition VM_LOCKED : Z := 0x2000.
Definition VM_ACCOUNT : Z := 0x100000.
Definition VM_NORESERVE : Z := 0x200000.
Definition VM_SYNC : Z := 0x800000.
Definition VM_DATA_FLAGS_NON_EXEC : Z := Z.lor VM_READ (Z.lor VM_WRITE (Z.lor VM_MAYREAD (Z.lor VM_MAYWRITE VM_MAYEXEC))).
Definition VM_DATA_DEFAULT_FLAGS : Z := VM_DATA_FLAGS_NON_EXEC.
Definition EACCES : Z := 13.
Definition ENODEV : Z := 19.
Definition FMODE_READ : Z := 0x1.
Definition FMODE_UNSIGNED_OFFSET : Z := 0x2000.
Definition MAX_LFS_FILESIZE : Z := 2 ^ 63 - 1.

(** ** Protection of pages *)

Definition _PAGE_EXEC : Z := Z.shiftl 1 3.
Definition _PAGE_USER : Z := Z.shiftl 1 4.
Definition _PAGE_ACCESSED : Z := Z.shiftl 1 6.
Definition _PAGE_PROT_NONE : Z := _PAGE_READ.
Definition _PAGE_BASE : Z := Z.lor _PAGE_PRESENT (Z.lor _PAGE_ACCESSED _PAGE_USER).
Definition PAGE_NONE : Z := _PAGE_PROT_NONE.
Definition PAGE_READ : Z := Z.lor _PAGE_BASE _PAGE_READ.
Definition PAGE_WRITE : Z := Z.lor _PAGE_BASE (Z.lor _PAGE_READ _PAGE_WRITE).
Definition PAGE_EXEC : Z := Z.lor _PAGE_BASE _PAGE_EXEC.
Definition PAGE_READ_EXEC : Z := Z.lor _PAGE_BASE (Z.lor _PAGE_READ _PAGE_EXEC).
Definition PAGE_WRITE_EXEC : Z := Z.lor _PAGE_BASE (Z.lor _PAGE_READ (Z.lor _PAGE_EXEC _PAGE_WRITE)).
Definition PAGE_COPY : Z := PAGE_READ.
Definition PAGE_COPY_EXEC : Z := PAGE_EXEC.
Definition PAGE_COPY_READ_EXEC : Z := PAGE_READ_EXEC.
Definition PAGE_SHARED : Z := PAGE_WRITE.
Definition PAGE_SHARED_EXEC : Z := PAGE_WRITE_EXEC.
Definition protection_map : list Z :=
  [PAGE_NONE; PAGE_READ; PAGE_COPY; PAGE_COPY; PAGE_EXEC; PAGE_READ_EXEC; PAGE_COPY_EXEC; PAGE_COPY_READ_EXEC;
   PAGE_NONE; PAGE_READ; PAGE_SHARED; PAGE_SHARED; PAGE_EXEC; PAGE_READ_EXEC; PAGE_SHARED_EXEC; PAGE_SHARED_EXEC].
Definition arch_vm_get_page_prot (flags : Z) : Z := 0.
Definition vm_get_page_prot (flags : Z) : Z :=
  Z.lor (nth (Z.to_nat (Z.land flags (Z.lor VM_READ (Z.lor VM_WRITE (Z.lor VM_EXEC VM_SHARED))))) protection_map 0) (arch_vm_get_page_prot flags).

(** ** Flags *)

Definition _calc_vm_trans (x bit1 bit2 : Z) : Z :=
  if (bit1 =? 0) || (bit2 =? 0) then 0
  else if bit1 <=? bit2 then u64 (Z.land x bit1 * (bit2 / bit1)) else Z.land x bit1 / (bit1 / bit2).
Definition calc_vm_prot_bits (prot : Z) : Z :=
  Z.lor (_calc_vm_trans prot PROT_READ VM_READ) (Z.lor (_calc_vm_trans prot PROT_WRITE VM_WRITE) (_calc_vm_trans prot PROT_EXEC VM_EXEC)).
Definition calc_vm_flag_bits (flags : Z) : Z :=
  Z.lor (_calc_vm_trans flags MAP_GROWSDOWN VM_GROWSDOWN) (Z.lor (_calc_vm_trans flags MAP_DENYWRITE VM_DENYWRITE)
    (Z.lor (_calc_vm_trans flags MAP_LOCKED VM_LOCKED) (_calc_vm_trans flags MAP_SYNC VM_SYNC))).
Definition accountable_mapping (flags : Z) : bool := Z.land flags (Z.lor VM_NORESERVE (Z.lor VM_SHARED VM_WRITE)) =? VM_WRITE.

(** ** Files *)

(** The operation [f_mmap] of a file takes the new area. *)
Record mfile := MFile { f_addr : Z; f_mode : Z; f_imode : Z; f_mmap : option (Z -> prog Z) }.
Definition mode_is (mode fmt : Z) : bool := Z.land mode 0xf000 =? fmt.
Definition file_mmap_size_max (f : mfile) : Z :=
  if mode_is (f_imode f) 0x8000 || mode_is (f_imode f) 0x6000 || mode_is (f_imode f) 0xc000 then MAX_LFS_FILESIZE
  else if negb (Z.land (f_mode f) FMODE_UNSIGNED_OFFSET =? 0) then 0 else ULONG_MAX.
Definition file_mmap_ok (f : mfile) (pgoff len : Z) : bool :=
  let maxsize := file_mmap_size_max f in
  if negb (maxsize =? 0) && (maxsize <? len) then false
  else negb (Z.shiftr (u64 (maxsize - len)) PAGE_SHIFT <? pgoff).

(** ** New areas *)

Definition vm_area_words : nat := 14.
Fixpoint zero_words (p : Z) (n : nat) : prog unit := match n with O => mret tt | S n => st p 0;; zero_words (p + 8) n end.
(** [dummy_vm_ops] is the address of the empty table of operations. *)
Definition vma_init (dummy_vm_ops vma mm : Z) : prog unit :=
  zero_words vma vm_area_words;;
  st (vma + off_vm_mm) mm;;
  st (vma + off_vm_ops) dummy_vm_ops.
Definition _vm_area_alloc (dummy_vm_ops va mm : Z) : prog Z :=
  if va =? 0 then mret 0 else vma_init dummy_vm_ops va mm;; mret va.
Definition vma_set_anonymous (vma : Z) : prog unit := st (vma + off_vm_ops) 0.

(** The operation of regular files; [ops] is the address of [generic_file_vm_ops]. *)
Definition generic_file_mmap (readpage : bool) (ops vma : Z) : prog Z :=
  if negb readpage then st_panic "a_ops has no readpage!" else st (vma + off_vm_ops) ops;; mret 0.

(** ** The range *)

Definition arch_get_unmapped_area_topdown (addr len pgoff flags : Z) : prog Z :=
  if negb (Z.land flags MAP_FIXED =? 0) then mret addr else st_panic "arch_get_unmapped_area_topdown: !".
Definition get_unmapped_area (addr len pgoff flags : Z) : prog Z :=
  if TASK_SIZE <? len then mret (u64 (- ENOMEM))
  else
    addr ← arch_get_unmapped_area_topdown addr len pgoff flags;
    if IS_ERR_VALUE addr then st_panic "bad addr!"
    else if u64 (TASK_SIZE - len) <? addr then st_panic "out of memory!"
    else if negb (offset_in_page addr =? 0) then st_panic "bad arg addr!"
    else mret addr.

(** ** Mapping *)

Definition mmap_region (f : nat) (dummy va mm : Z) (file : option mfile) (addr len flags pgoff : Z) : prog Z :=
  r ← find_vma_links f mm addr (u64 (addr + len));
  match r with
  | inl _ => st_panic "can not find vma links!"
  | inr (prev, rb_link, rb_parent) =>
      let flags := if accountable_mapping flags then Z.lor flags VM_ACCOUNT else flags in
      vma ← _vm_area_alloc dummy va mm;
      if vma =? 0 then st_panic "out of memory!"
      else
        st vma addr;;
        st (vma + off_vm_end) (u64 (addr + len));;
        st (vma + off_vm_flags) flags;;
        st (vma + off_vm_page_prot) (vm_get_page_prot flags);;
        st (vma + off_vm_pgoff) pgoff;;
        match file with
        | Some fl =>
            if negb (Z.land flags VM_SHARED =? 0) then st_panic "VM_SHARED!"
            else
              st (vma + off_vm_file) (f_addr fl);;
              error ← match f_mmap fl with Some op => op vma | None => st_panic "null f_op->mmap" end;
              if negb (error =? 0) then st_panic "unmap and free vma!"
              else
                flags' ← ld (vma + off_vm_flags);
                if negb (flags =? flags') && negb (prev =? 0) then st_panic "vm_flags!"
                else
                  start ← ld vma;
                  if negb (addr =? start) then st_panic "BUG"
                  else
                    vma_link f mm vma prev rb_link rb_parent;;
                    mret start
        | None => if negb (Z.land flags VM_SHARED =? 0) then st_panic "vm shared!" else st_panic "bad arg!"
        end
  end.

(** The result, or an error as an [unsigned long]; [populate] stays zero. *)
Definition do_mmap (f : nat) (dummy va mm : Z) (file : option mfile) (addr len prot flags pgoff : Z) : prog Z :=
  if len =? 0 then mret (u64 (- EINVAL))
  else
    let len := PAGE_ALIGN len in
    if len =? 0 then mret (u64 (- ENOMEM))
    else if u64 (pgoff + Z.shiftr len PAGE_SHIFT) <? pgoff then mret (u64 (- EOVERFLOW))
    else
      addr ← get_unmapped_area addr len pgoff flags;
      if IS_ERR_VALUE addr then mret addr
      else
        def_flags ← ld (mm + off_def_flags);
        let vm_flags := Z.lor (calc_vm_prot_bits prot) (Z.lor (calc_vm_flag_bits flags) (Z.lor def_flags (Z.lor VM_MAYREAD (Z.lor VM_MAYWRITE VM_MAYEXEC)))) in
        match file with
        | None => st_panic "no file!"
        | Some fl =>
            if negb (file_mmap_ok fl pgoff len) then st_panic "overflow!"
            else if Z.land flags MAP_TYPE =? MAP_SHARED then st_panic "MAP_SHARED!"
            else if Z.land flags MAP_TYPE =? MAP_SHARED_VALIDATE then st_panic "MAP_SHARED_VALIDATE!"
            else if negb (Z.land flags MAP_TYPE =? MAP_PRIVATE) then st_panic "bad flags!"
            else if Z.land (f_mode fl) FMODE_READ =? 0 then mret (u64 (- EACCES))
            else if match f_mmap fl with None => true | Some _ => false end then mret (u64 (- ENODEV))
            else if negb (Z.land vm_flags (Z.lor VM_GROWSDOWN VM_GROWSUP) =? 0) then mret (u64 (- EINVAL))
            else if negb (Z.land flags MAP_NORESERVE =? 0) then st_panic "MAP_NORESERVE!"
            else
              addr ← mmap_region f dummy va mm (Some fl) addr len vm_flags pgoff;
              if negb (IS_ERR_VALUE addr) && (negb (Z.land vm_flags VM_LOCKED =? 0) || (Z.land flags (Z.lor MAP_POPULATE MAP_NONBLOCK) =? MAP_POPULATE)) then st_panic "set poplate!"
              else mret addr
        end.
Definition vm_mmap_pgoff (f : nat) (dummy va mm : Z) (file : option mfile) (addr len prot flag pgoff : Z) : prog Z :=
  do_mmap f dummy va mm file addr len prot flag pgoff.
Definition vm_mmap (f : nat) (dummy va mm : Z) (file : option mfile) (addr len prot flag offset : Z) : prog Z :=
  if u64 (offset + PAGE_ALIGN len) <? offset then st_panic "bad arg!"
  else if negb (offset_in_page offset =? 0) then st_panic "bad arg!"
  else vm_mmap_pgoff f dummy va mm file addr len prot flag (Z.shiftr offset PAGE_SHIFT).

(** ** The heap *)

Definition do_brk_flags (f : nat) (dummy va mm addr len flags : Z) : prog Z :=
  let pgoff := Z.shiftr addr PAGE_SHIFT in
  if negb (Z.land flags (u64 (Z.lnot VM_EXEC)) =? 0) then mret (- EINVAL)
  else
    def_flags ← ld (mm + off_def_flags);
    let flags := Z.lor flags (Z.lor VM_DATA_DEFAULT_FLAGS (Z.lor VM_ACCOUNT def_flags)) in
    mapped_addr ← get_unmapped_area addr len 0 MAP_FIXED;
    if IS_ERR_VALUE mapped_addr then mret (s32 mapped_addr)
    else
      r ← find_vma_links f mm addr (u64 (addr + len));
      match r with
      | inl _ => st_panic "find vma links error!"
      | inr (prev, rb_link, rb_parent) =>
          vma ← _vm_area_alloc dummy va mm;
          if vma =? 0 then st_panic "out of memory!"
          else
            vma_set_anonymous vma;;
            st vma addr;;
            st (vma + off_vm_end) (u64 (addr + len));;
            st (vma + off_vm_pgoff) pgoff;;
            st (vma + off_vm_flags) flags;;
            st (vma + off_vm_page_prot) (vm_get_page_prot flags);;
            vma_link f mm vma prev rb_link rb_parent;;
            total ← ld (mm + off_total_vm);
            st (mm + off_total_vm) (u64 (total + Z.shiftr len PAGE_SHIFT));;
            data ← ld (mm + off_data_vm);
            st (mm + off_data_vm) (u64 (data + Z.shiftr len PAGE_SHIFT));;
            mret 0
      end.
Definition vm_brk_flags (f : nat) (dummy va mm addr request flags : Z) : prog Z :=
  let len := PAGE_ALIGN request in
  if len <? request then mret (- ENOMEM)
  else if len =? 0 then mret 0
  else
    ret ← do_brk_flags f dummy va mm addr len flags;
    def_flags ← ld (mm + off_def_flags);
    if negb (Z.land def_flags VM_LOCKED =? 0) && (ret =? 0) then st_panic "can not populate!" else mret ret.
