(* ===== verification/VmMapSpec.v ===== *)
(** * Mapping a range of addresses

    [vm_brk_flags] and [vm_mmap] on an address space with ordered areas: the range that is asked for becomes an
    area of the address space, by the contracts of [VmAreaSpec]. *)

From Stdlib Require Import ZArith Lia.
From stdpp Require Import base tactics numbers list strings gmap sorting functions.
From iris.proofmode Require Import proofmode.
From S2P Require Import Prelude Words HeapLogic RbTree RbTreeProofs RbTreeSpec RbAugment Scatterlist OfTree PageTable VmArea VmAreaSpec VmMap.
#[local] Open Scope Z_scope.

(** ** A structure from the cache of areas *)

Fixpoint raw_words (p : Z) (n : nat) : hprop := match n with O => emp | S n => (∃ x, p ↦ x) ∗ raw_words (p + 8) n end%I.
Fixpoint zeros (p : Z) (n : nat) : hprop := match n with O => emp | S n => p ↦ 0 ∗ zeros (p + 8) n end%I.
Lemma wp_zero_words n : forall p, raw_words p n -∗ wp (zero_words p n) (fun _ => zeros p n).
Proof. induction n as [|n IH]; intros p; cbn [raw_words zero_words zeros]; iIntros "H"; [by iApply wp_ret|]. iDestruct "H" as "[[%x H] Hr]". wp_st "H". iApply (wp_wand with "[Hr]"); [by iApply IH|]. iIntros (_) "$". iFrame. Qed.

(** The fields of a new structure. *)
Definition fields (v s e fl pg op pr fi mm : Z) : hprop :=
  (new_area (VArea v s e fl pg op) ∗ (v + off_vm_page_prot) ↦ pr ∗ (v + off_vm_file) ↦ fi ∗ (v + off_vm_mm) ↦ mm)%I.
Lemma zeros_fields v : zeros v vm_area_words -∗ fields v 0 0 0 0 0 0 0 0.
Proof.
  cbn [zeros vm_area_words]. rewrite -!Z.add_assoc. simpl. iIntros "(W0 & W1 & W2 & W3 & W4 & W5 & W6 & W7 & W8 & W9 & W10 & W11 & W12 & W13 & _)".
  iFrame "W0 W1 W8 W9 W10 W11 W12 W13". iSplitL "W4 W5 W6".
  - unfold node_at. cbn [a_v]. iExists 0, 0, 0. iFrame "W4". replace (v + off_rb + off_left) with (v + 48) by (unfold off_rb, off_left; lia). replace (v + off_rb + off_right) with (v + 40) by (unfold off_rb, off_right; lia). iFrame.
  - iExists 0, 0, 0. iFrame "W2 W3 W7".
Qed.
Lemma wp_area_alloc dummy v mm Q : v <> 0 -> raw_words v vm_area_words -∗ (fields v 0 0 0 0 dummy 0 0 mm -∗ Q v) -∗ wp (_vm_area_alloc dummy v mm) Q.
Proof.
  iIntros (Hv) "Hr HQ". unfold _vm_area_alloc, vma_init. rewrite (proj2 (Z.eqb_neq _ _) Hv). iApply wp_bind. iApply wp_bind. iApply (wp_wand with "[Hr]"); [by iApply wp_zero_words|]. iIntros (_) "H". iDestruct (zeros_fields with "H") as "(((A1 & A2 & A3 & A4 & A5) & A6) & A7 & A8 & A9)".
  wp_st "A9". iApply (wp_st with "A5"). iIntros "A5". iApply wp_ret. iApply "HQ". iFrame.
Qed.

(** ** The range *)

(** A range that user space may map: it starts on a page and ends below [TASK_SIZE]. *)
Definition range_ok (addr len : Z) : Prop := 0 <= addr /\ 0 < len /\ addr + len <= TASK_SIZE /\ addr mod PAGE_SIZE = 0.
Lemma offset_in_page_mod p : offset_in_page p = p mod PAGE_SIZE.
Proof. unfold offset_in_page. change (PAGE_SIZE - 1) with (Z.ones 12). rewrite Z.land_ones; [reflexivity|lia]. Qed.
Lemma get_unmapped_fixed addr len pgoff flags : range_ok addr len -> Z.land flags MAP_FIXED <> 0 -> get_unmapped_area addr len pgoff flags = (mret addr : prog Z).
Proof.
  intros (H1 & H2 & H3 & H4) Hf. unfold get_unmapped_area, arch_get_unmapped_area_topdown. change TASK_SIZE with (2 ^ 38) in *. rewrite (proj2 (Z.ltb_ge _ _)); [|lia]. rewrite (proj2 (Z.eqb_neq _ _) Hf). cbn [negb]. cbn iota.
  assert (IS_ERR_VALUE addr = false) as E1 by (unfold IS_ERR_VALUE; apply Z.leb_gt; change (u64 (- MAX_ERRNO)) with (2 ^ 64 - 4095); lia).
  assert (u64 (2 ^ 38 - len) <? addr = false) as E2 by (unfold u64; rewrite Z.mod_small; [apply Z.ltb_ge; lia|lia]).
  assert (offset_in_page addr = 0) as E3 by (by rewrite offset_in_page_mod).
  change (addr0 ← mret addr; if IS_ERR_VALUE addr0 then st_panic "bad addr!" else if u64 (2 ^ 38 - len) <? addr0 then st_panic "out of memory!" else if negb (offset_in_page addr0 =? 0) then st_panic "bad arg addr!" else mret addr0) with
    (if IS_ERR_VALUE addr then (st_panic "bad addr!" : prog Z) else if u64 (2 ^ 38 - len) <? addr then st_panic "out of memory!" else if negb (offset_in_page addr =? 0) then st_panic "bad arg addr!" else mret addr).
  by rewrite E1 E2 E3.
Qed.
Lemma range_end addr len : range_ok addr len -> u64 (addr + len) = addr + len /\ IS_ERR_VALUE addr = false.
Proof. intros (H1 & H2 & H3 & _). change TASK_SIZE with (2 ^ 38) in *. split; [unfold u64; apply Z.mod_small; lia|]. unfold IS_ERR_VALUE. apply Z.leb_gt. change (u64 (- MAX_ERRNO)) with (2 ^ 64 - 4095). lia. Qed.

(** No area has a byte of the range. *)
Definition free_range (l : list varea) (s e : Z) : Prop := Forall (fun b => ~ overlaps s e b) l.
Lemma free_no_overlap l s e : free_range l s e -> ~ Exists (overlaps s e) l.
Proof. intros H Hex. apply Exists_exists in Hex as (b & Hb & Ho). unfold free_range in H. rewrite Forall_forall in H. exact (H b Hb Ho). Qed.

(** ** The heap *)

Definition counters (mm df total data : Z) : hprop := ((mm + off_def_flags) ↦ df ∗ (mm + off_total_vm) ↦ total ∗ (mm + off_data_vm) ↦ data)%I.
Definition brk_flags (flags df : Z) : Z := Z.lor flags (Z.lor VM_DATA_DEFAULT_FLAGS (Z.lor VM_ACCOUNT df)).
Definition brk_area (v addr len flags df : Z) : varea := VArea v addr (addr + len) (brk_flags flags df) (Z.shiftr addr PAGE_SHIFT) 0.
Definition mapped (mm : Z) (l : list varea) (a : varea) : hprop := (∃ l1 l2, ⌜l = l1 ++ l2 /\ ordered (l1 ++ a :: l2)⌝ ∗ space mm (l1 ++ a :: l2))%I.

Lemma wp_do_brk mm l v dummy addr len flags df total data fuel : ordered l -> 0 < v -> addr_ok (v + off_rb) -> (S (rb_bound (length l)) < fuel)%nat ->
  range_ok addr len -> free_range l addr (addr + len) -> Z.land flags (u64 (Z.lnot VM_EXEC)) = 0 ->
  space mm l -∗ counters mm df total data -∗ raw_words v vm_area_words -∗
  wp (do_brk_flags fuel dummy v mm addr len flags) (fun r => ⌜r = 0⌝ ∗ mapped mm l (brk_area v addr len flags df) ∗
    counters mm df (u64 (total + Z.shiftr len PAGE_SHIFT)) (u64 (data + Z.shiftr len PAGE_SHIFT)))%I.
Proof.
  iIntros (Ho Hv Hok Hf Hr Hfree Hfl) "Hs (Cd & Ct & Cv) Hw". destruct (range_end _ _ Hr) as [Ee Eerr]. pose proof Hr as (R1 & R2 & R3 & R4). unfold do_brk_flags. rewrite Hfl. cbn [Z.eqb negb]. cbn iota. wp_ld "Cd".
  rewrite get_unmapped_fixed //. iApply wp_bind. iApply wp_ret. rewrite Eerr Ee. iApply wp_bind. iApply (wp_wand with "[Hs]"); [iApply (wp_find_links with "Hs"); [done|lia]|].
  iIntros ([err|[[prev link] parent]]) "H"; cbn [links_found]; [iDestruct "H" as "[[_ %Hex] _]"; by destruct (free_no_overlap _ _ _ Hfree)|].
  iApply wp_bind. iApply (wp_area_alloc with "Hw"); [lia|]. iIntros "(((A1 & A2 & A3 & A4 & A5) & A6) & A7 & A8 & A9)". cbn [a_v a_s a_e a_fl a_pg a_op]. rewrite (proj2 (Z.eqb_neq v 0)); [|lia]. unfold vma_set_anonymous. wp_st "A5". wp_st "A1". wp_st "A2". wp_st "A4". wp_st "A3". wp_st "A7".
  iApply wp_bind. iApply (wp_wand with "[H A1 A2 A3 A4 A5 A6]"). { iApply (wp_vma_link mm l (brk_area v addr len flags df) with "H [A1 A2 A3 A4 A5 A6]"); [done|done|simpl; lia|done|done|]. iFrame. }
  iIntros (_) "Hs". wp_ld "Ct". wp_st "Ct". wp_ld "Cv". wp_st "Cv". iApply wp_ret. by iFrame.
Qed.

(** C15: extending the heap by a range of whole pages that no area overlaps adds an anonymous,
    writable area with that range to the address space, in order, and counts its pages. *)
Theorem brk_exact mm l v dummy addr request flags df total data fuel m hf :
  ordered l -> 0 < v -> addr_ok (v + off_rb) -> (S (rb_bound (length l)) < fuel)%nat -> 0 < request <= PAGE_ALIGN request ->
  range_ok addr (PAGE_ALIGN request) -> free_range l addr (addr + PAGE_ALIGN request) -> Z.land flags (u64 (Z.lnot VM_EXEC)) = 0 -> Z.land df VM_LOCKED = 0 ->
  hprop_holds (space mm l ∗ counters mm df total data ∗ raw_words v vm_area_words)%I m -> m ##ₘ hf ->
  exists m', vm_brk_flags fuel dummy v mm addr request flags (m ∪ hf) = Ok (0, m' ∪ hf) /\ m' ##ₘ hf /\
    hprop_holds (mapped mm l (brk_area v addr (PAGE_ALIGN request) flags df) ∗
                 counters mm df (u64 (total + Z.shiftr (PAGE_ALIGN request) PAGE_SHIFT)) (u64 (data + Z.shiftr (PAGE_ALIGN request) PAGE_SHIFT)))%I m'.
Proof.
  intros Ho Hv Hok Hf Hreq Hr Hfree Hfl Hlk HP Hd. set (Q := (mapped mm l _ ∗ counters mm df _ _)%I).
  destruct (wp_adequate (space mm l ∗ counters mm df total data ∗ raw_words v vm_area_words)%I (vm_brk_flags fuel dummy v mm addr request flags) (fun r => ⌜r = 0⌝ ∗ Q)%I) with (h := m) (hf := hf) as (r & m' & E & D & HQ); [|exact HP|exact Hd|].
  - iIntros "(H1 & H2 & H3)". unfold vm_brk_flags. rewrite (proj2 (Z.ltb_ge _ _)); [|lia]. rewrite (proj2 (Z.eqb_neq (PAGE_ALIGN request) 0)); [|lia]. iApply wp_bind. iApply (wp_wand with "[H1 H2 H3]"); [by iApply (wp_do_brk with "H1 H2 H3")|]. iIntros (r) "(-> & H1 & (H2 & H3))". wp_ld "H2". rewrite Hlk. cbn [Z.eqb negb andb]. cbn iota. iApply wp_ret. by iFrame.
  - apply pure_sep_holds in HQ as [-> HQ]. by exists m'.
Qed.

(** ** Files *)

Definition map_flags (prot flag df : Z) : Z := Z.lor (calc_vm_prot_bits prot) (Z.lor (calc_vm_flag_bits flag) (Z.lor df (Z.lor VM_MAYREAD (Z.lor VM_MAYWRITE VM_MAYEXEC)))).
Definition charged (flags : Z) : Z := if accountable_mapping flags then Z.lor flags VM_ACCOUNT else flags.
Definition map_area (v addr len flags pgoff ops : Z) : varea := VArea v addr (addr + len) (charged flags) pgoff ops.

Lemma wp_mmap_region mm l v dummy fp fm im ops addr len flags pgoff fuel : ordered l -> 0 < v -> addr_ok (v + off_rb) -> (S (rb_bound (length l)) < fuel)%nat ->
  range_ok addr len -> free_range l addr (addr + len) -> Z.land (charged flags) VM_SHARED = 0 ->
  space mm l -∗ raw_words v vm_area_words -∗
  wp (mmap_region fuel dummy v mm (Some (MFile fp fm im (Some (generic_file_mmap true ops)))) addr len flags pgoff) (fun r => ⌜r = addr⌝ ∗ mapped mm l (map_area v addr len flags pgoff ops) ∗ (v + off_vm_file) ↦ fp)%I.
Proof.
  iIntros (Ho Hv Hok Hf Hr Hfree Hsh) "Hs Hw". destruct (range_end _ _ Hr) as [Ee _]. pose proof Hr as (R1 & R2 & R3 & R4). unfold mmap_region. rewrite Ee. iApply wp_bind. iApply (wp_wand with "[Hs]"); [iApply (wp_find_links with "Hs"); [done|lia]|].
  iIntros ([err|[[prev link] parent]]) "H"; cbn [links_found]; [iDestruct "H" as "[[_ %Hex] _]"; by destruct (free_no_overlap _ _ _ Hfree)|]. fold (charged flags).
  iApply wp_bind. iApply (wp_area_alloc with "Hw"); [lia|]. iIntros "(((A1 & A2 & A3 & A4 & A5) & A6) & A7 & A8 & A9)". cbn [a_v a_s a_e a_fl a_pg a_op]. rewrite (proj2 (Z.eqb_neq v 0)); [|lia]. wp_st "A1". wp_st "A2". wp_st "A3". wp_st "A7". wp_st "A4". rewrite Hsh. cbn [Z.eqb negb f_addr f_mmap]. cbn iota. wp_st "A8".
  iApply wp_bind. unfold generic_file_mmap. cbn [negb]. cbn iota. wp_st "A5". iApply wp_ret. cbn [Z.eqb negb]. cbn iota. wp_ld "A3". rewrite Z.eqb_refl. cbn [negb andb]. cbn iota. wp_ld "A1". rewrite Z.eqb_refl. cbn [negb]. cbn iota.
  iApply wp_bind. iApply (wp_wand with "[H A1 A2 A3 A4 A5 A6]"). { iApply (wp_vma_link mm l (map_area v addr len flags pgoff ops) with "H [A1 A2 A3 A4 A5 A6]"); [done|done|simpl; lia|done|done|]. iFrame. }
  iIntros (_) "Hs". iApply wp_ret. by iFrame.
Qed.

(** What [do_mmap] accepts of a private mapping at a fixed address. *)
Record request_ok (fm im : Z) (addr len prot flag df pgoff : Z) : Prop := {
  rq_range : range_ok addr len;
  rq_pgoff : 0 <= pgoff /\ pgoff + Z.shiftr len PAGE_SHIFT < 2 ^ 64;
  rq_private : Z.land flag MAP_TYPE = MAP_PRIVATE;
  rq_fixed : Z.land flag MAP_FIXED <> 0;
  rq_reserve : Z.land flag MAP_NORESERVE = 0;
  rq_populate : Z.land flag (Z.lor MAP_POPULATE MAP_NONBLOCK) <> MAP_POPULATE;
  rq_readable : Z.land fm FMODE_READ <> 0;
  rq_size : file_mmap_ok (MFile 0 fm im None) pgoff len = true;
  rq_grows : Z.land (map_flags prot flag df) (Z.lor VM_GROWSDOWN VM_GROWSUP) = 0;
  rq_locked : Z.land (map_flags prot flag df) VM_LOCKED = 0;
  rq_shared : Z.land (charged (map_flags prot flag df)) VM_SHARED = 0 }.

Lemma wp_do_mmap mm l v dummy fp fm im ops addr len prot flag pgoff df fuel : ordered l -> 0 < v -> addr_ok (v + off_rb) -> (S (rb_bound (length l)) < fuel)%nat ->
  0 < len -> request_ok fm im addr (PAGE_ALIGN len) prot flag df pgoff -> free_range l addr (addr + PAGE_ALIGN len) ->
  space mm l -∗ (mm + off_def_flags) ↦ df -∗ raw_words v vm_area_words -∗
  wp (do_mmap fuel dummy v mm (Some (MFile fp fm im (Some (generic_file_mmap true ops)))) addr len prot flag pgoff)
    (fun r => ⌜r = addr⌝ ∗ mapped mm l (map_area v addr (PAGE_ALIGN len) (map_flags prot flag df) pgoff ops) ∗ (mm + off_def_flags) ↦ df)%I.
Proof.
  iIntros (Ho Hv Hok Hf Hlen [H1 H2 H3 H4 H5 H6 H7 H8 H9 H10 H11] Hfree) "Hs Cd Hw". destruct (range_end _ _ H1) as [_ Eerr]. pose proof H1 as (R1 & R2 & R3 & R4). set (len' := PAGE_ALIGN len) in *. unfold do_mmap. rewrite (proj2 (Z.eqb_neq len 0)); [|lia]. fold len'. rewrite (proj2 (Z.eqb_neq len' 0)); [|lia].
  assert (0 <= Z.shiftr len' PAGE_SHIFT) as Hsh by (apply Z.shiftr_nonneg; lia). assert (u64 (pgoff + Z.shiftr len' PAGE_SHIFT) <? pgoff = false) as -> by (unfold u64; rewrite Z.mod_small; [apply Z.ltb_ge; lia|lia]).
  rewrite get_unmapped_fixed //. iApply wp_bind. iApply wp_ret. rewrite Eerr. wp_ld "Cd". change (Z.lor (calc_vm_prot_bits prot) _) with (map_flags prot flag df). change (file_mmap_ok (MFile fp fm im (Some (generic_file_mmap true ops))) pgoff len') with (file_mmap_ok (MFile 0 fm im None) pgoff len'). rewrite H8 H3. cbn [f_mode f_mmap negb]. cbn iota. change (MAP_PRIVATE =? MAP_SHARED) with false. change (MAP_PRIVATE =? MAP_SHARED_VALIDATE) with false. change (MAP_PRIVATE =? MAP_PRIVATE) with true. cbn [negb]. cbn iota.
  rewrite (proj2 (Z.eqb_neq _ _) H7) H9 H5. cbn [Z.eqb negb]. cbn iota. iApply wp_bind. iApply (wp_wand with "[Hs Hw]"); [by iApply (wp_mmap_region with "Hs Hw")|]. iIntros (r) "(-> & Hs & _)". rewrite H10 (proj2 (Z.eqb_neq _ _) H6). cbn [Z.eqb negb orb]. rewrite andb_false_r. iApply wp_ret. by iFrame.
Qed.

(** C14: a private mapping of a regular file at a fixed range of pages that no area overlaps adds an area with
    that range, the flags of the protection asked for, the page offset and the operations
    of the file to the address space, and returns the address. *)
Theorem mmap_exact mm l v dummy fp fm im ops addr len prot flag offset df fuel m hf :
  ordered l -> 0 < v -> addr_ok (v + off_rb) -> (S (rb_bound (length l)) < fuel)%nat ->
  0 < len -> offset mod PAGE_SIZE = 0 -> 0 <= offset /\ offset + PAGE_ALIGN len < 2 ^ 64 ->
  request_ok fm im addr (PAGE_ALIGN len) prot flag df (Z.shiftr offset PAGE_SHIFT) -> free_range l addr (addr + PAGE_ALIGN len) ->
  hprop_holds (space mm l ∗ (mm + off_def_flags) ↦ df ∗ raw_words v vm_area_words)%I m -> m ##ₘ hf ->
  exists m', vm_mmap fuel dummy v mm (Some (MFile fp fm im (Some (generic_file_mmap true ops)))) addr len prot flag offset (m ∪ hf) = Ok (addr, m' ∪ hf) /\ m' ##ₘ hf /\
    hprop_holds (mapped mm l (map_area v addr (PAGE_ALIGN len) (map_flags prot flag df) (Z.shiftr offset PAGE_SHIFT) ops) ∗ (mm + off_def_flags) ↦ df)%I m'.
Proof.
  intros Ho Hv Hok Hf Hlen Hof Hno Hrq Hfree HP Hd. pose proof (rq_range _ _ _ _ _ _ _ _ Hrq) as (R1 & R2 & _). set (Q := (mapped mm l _ ∗ _)%I).
  destruct (wp_adequate (space mm l ∗ (mm + off_def_flags) ↦ df ∗ raw_words v vm_area_words)%I (vm_mmap fuel dummy v mm (Some (MFile fp fm im (Some (generic_file_mmap true ops)))) addr len prot flag offset) (fun r => ⌜r = addr⌝ ∗ Q)%I) with (h := m) (hf := hf) as (r & m' & E & D & HQ); [|exact HP|exact Hd|].
  - iIntros "(H1 & H2 & H3)". unfold vm_mmap, vm_mmap_pgoff. assert (u64 (offset + PAGE_ALIGN len) <? offset = false) as -> by (unfold u64; rewrite Z.mod_small; [apply Z.ltb_ge; lia|lia]). rewrite offset_in_page_mod Hof. cbn [Z.eqb negb]. cbn iota. by iApply (wp_do_mmap with "H1 H2 H3").
  - apply pure_sep_holds in HQ as [-> HQ]. by exists m'.
Qed.

(** ** Witnesses *)

Definition count_cells : list (Z * Z) := [(1520, 0); (1384, 3); (1400, 1)].
Definition raw_cells : list (Z * Z) :=
  [(12288, 9); (12296, 9); (12304, 9); (12312, 9); (12320, 9); (12328, 9); (12336, 9); (12344, 9); (12352, 9); (12360, 9); (12368, 9); (12376, 9); (12384, 9); (12392, 9)].
Lemma raw_cells_hold : ([∗ list] x ∈ raw_cells, x.1 ↦ x.2) ⊢ raw_words 12288 vm_area_words.
Proof. iIntros "(W0 & W1 & W2 & W3 & W4 & W5 & W6 & W7 & W8 & W9 & W10 & W11 & W12 & W13 & _)". cbn [raw_words vm_area_words]. simpl. iFrame "W0 W1 W2 W3 W4 W5 W6 W7 W8 W9 W10 W11 W12 W13". Qed.
Ltac solve_range := split; [vm_compute; discriminate|split; [vm_compute; reflexivity|split; [vm_compute; discriminate|vm_compute; reflexivity]]].
Lemma free_14000 : free_range [area1; area2] 0x14000 0x16000.
Proof. repeat constructor; unfold overlaps; simpl; lia. Qed.

Lemma brk_exact_witness : exists m', vm_brk_flags 8 640 12288 1024 0x14000 0x1234 0 (cells (space_cells ++ count_cells ++ raw_cells) ∪ ∅) = Ok (0, m' ∪ ∅) /\
  hprop_holds (mapped 1024 [area1; area2] (VArea 12288 0x14000 0x16000 0x100073 0x14 0) ∗ counters 1024 0 5 3)%I m'.
Proof.
  destruct (brk_exact 1024 [area1; area2] 12288 640 0x14000 0x1234 0 0 3 1 8 (cells (space_cells ++ count_cells ++ raw_cells)) ∅ areas_ordered) as (m' & E & _ & H).
  - lia.
  - split; [vm_compute; split; reflexivity|reflexivity].
  - vm_compute. lia.
  - split; vm_compute; [reflexivity|discriminate].
  - solve_range.
  - exact free_14000.
  - reflexivity.
  - reflexivity.
  - apply cells_entail; [solve_nodup|]. rewrite !big_sepL_app. iIntros "(H1 & (C1 & C2 & C3 & _) & H2)". iSplitL "H1"; [by iApply space_cells_hold|]. iSplitL "C1 C2 C3"; [iFrame "C1 C2 C3"|by iApply raw_cells_hold].
  - apply map_disjoint_empty_r.
  - exists m'. split; [exact E|exact H].
Defined.
Lemma mmap_exact_witness : exists m', vm_mmap 8 640 12288 1024 (Some (MFile 777 1 0x8000 (Some (generic_file_mmap true 648)))) 0x14000 0x1234 5 0x12 0x3000 (cells (space_cells ++ count_cells ++ raw_cells) ∪ ∅) = Ok (0x14000, m' ∪ ∅) /\
  hprop_holds (mapped 1024 [area1; area2] (VArea 12288 0x14000 0x16000 0x75 3 648) ∗ (1024 + off_def_flags) ↦ 0)%I m'.
Proof.
  destruct (mmap_exact 1024 [area1; area2] 12288 640 777 1 0x8000 648 0x14000 0x1234 5 0x12 0x3000 0 8 (cells (space_cells ++ count_cells ++ raw_cells)) ∅ areas_ordered) as (m' & E & _ & H).
  - lia.
  - split; [vm_compute; split; reflexivity|reflexivity].
  - vm_compute. lia.
  - lia.
  - reflexivity.
  - split; vm_compute; [discriminate|reflexivity].
  - split; [solve_range|split; vm_compute; [discriminate|reflexivity]|reflexivity|vm_compute; discriminate|reflexivity|vm_compute; discriminate|vm_compute; discriminate|reflexivity|reflexivity|reflexivity|reflexivity].
  - exact free_14000.
  - apply cells_entail; [solve_nodup|]. rewrite !big_sepL_app. iIntros "(H1 & (C1 & C2 & C3 & _) & H2)". iSplitL "H1"; [by iApply space_cells_hold|]. iFrame "C1". by iApply raw_cells_hold.
  - apply map_disjoint_empty_r.
  - exists m'. split; [exact E|exact H].
Defined.
