(* ===== verification/ModLoad.v ===== *)
(** * startup/module.c: loading the modules of the kernel

    The kernel is a small core and modules, relocatable ELF files one after another in flash memory.  At start each is laid
    out, copied behind the kernel, relocated against the exported symbols of what is
    already loaded, and entered into the list of modules.  ELF files, code and symbol tables are bytes of
    memory ([Mem]); the list of modules is the list of the addresses of its structures. *)

From Stdlib Require Import ZArith Lia.
From stdpp Require Import base tactics numbers list strings gmap.
From S2P Require Import Prelude Words Mem LibString.
#[local] Open Scope Z_scope.

(** ** ELF files *)

Definition SHF_WRITE : Z := 0x1.
Definition SHF_ALLOC : Z := 0x2.
Definition SHF_EXECINSTR : Z := 0x4.
Definition SHT_SYMTAB : Z := 2.
Definition SHT_RELA : Z := 4.
Definition SHT_NOBITS : Z := 8.
Definition SHN_UNDEF : Z := 0x0.
Definition SHN_LIVEPATCH : Z := 0xff20.
Definition SHN_ABS : Z := 0xfff1.
Definition SHN_COMMON : Z := 0xfff2.
Definition ELF64_R_SYM (i : Z) : Z := Z.shiftr i 32.
Definition ELF64_R_TYPE (i : Z) : Z := Z.land i 0xffffffff.
Definition ELFMAG : list Z := [127; 69; 76; 70].
Definition SELFMAG : Z := 4.
Definition R_RISCV_64 : Z := 2.
Definition R_RISCV_BRANCH : Z := 16.
Definition R_RISCV_JAL : Z := 17.
Definition R_RISCV_CALL : Z := 18.
Definition R_RISCV_PCREL_HI20 : Z := 23.
Definition R_RISCV_PCREL_LO12_I : Z := 24.
Definition R_RISCV_PCREL_LO12_S : Z := 25.
Definition R_RISCV_ADD32 : Z := 35.
Definition R_RISCV_SUB32 : Z := 39.
Definition R_RISCV_RVC_BRANCH : Z := 44.
Definition R_RISCV_RVC_JUMP : Z := 45.
Definition R_RISCV_RELAX : Z := 51.

(** Fields as offset and width. *)
Definition field : Type := Z * nat.
Definition get (m : mem) (p : Z) (f : field) : outcome Z := load_le f.2 m (p + f.1).
Definition put (m : mem) (p : Z) (f : field) (v : Z) : outcome mem := store_le f.2 m (p + f.1) v.
Definition e_phoff : field := (32, 8%nat).
Definition e_shoff : field := (40, 8%nat).
Definition e_shnum : field := (60, 2%nat).
Definition e_shstrndx : field := (62, 2%nat).
Definition sh_type : field := (4, 4%nat).
Definition sh_flags : field := (8, 8%nat).
Definition sh_addr : field := (16, 8%nat).
Definition sh_offset : field := (24, 8%nat).
Definition sh_size : field := (32, 8%nat).
Definition sh_link : field := (40, 4%nat).
Definition sh_info : field := (44, 4%nat).
Definition sh_addralign : field := (48, 8%nat).
Definition sh_entsize : field := (56, 8%nat).
Definition SIZEOF_SHDR : Z := 64.
Definition st_name : field := (0, 4%nat).
Definition st_shndx : field := (6, 2%nat).
Definition st_value : field := (8, 8%nat).
Definition SIZEOF_SYM : Z := 24.
Definition r_offset : field := (0, 8%nat).
Definition r_info : field := (8, 8%nat).
Definition r_addend : field := (16, 8%nat).
Definition SIZEOF_RELA : Z := 24.
Definition ks_value : field := (0, 8%nat).
Definition ks_name : field := (8, 8%nat).
Definition SIZEOF_KSYM : Z := 16.
Definition mod_syms : field := (16, 8%nat).
Definition mod_num_syms : field := (24, 4%nat).
Definition mod_init : field := (32, 8%nat).
Definition mod_exit : field := (40, 8%nat).
Definition SIZEOF_MODULE : Z := 48.
Definition image_size : field := (16, 8%nat).

Record load_info := LoadInfo {
  li_len : Z; li_hdr : Z; li_sechdrs : Z; li_secstrings : Z; li_strtab : Z;
  li_sym : Z; li_str : Z;
  li_size : Z; li_text_size : Z; li_ro_size : Z }.
Definition set_layout (i : load_info) (size text ro : Z) : load_info :=
  LoadInfo (li_len i) (li_hdr i) (li_sechdrs i) (li_secstrings i) (li_strtab i) (li_sym i) (li_str i) size text ro.
Definition sechdr (i : load_info) (k : Z) : Z := li_sechdrs i + SIZEOF_SHDR * k.

(** A loop over the indices from [k] on. *)
Fixpoint over {A} (n : nat) (k : Z) (body : Z -> A -> outcome A) (a : A) : outcome A :=
  match n with O => Ok a | S n => a ← body k a; over n (k + 1) body a end.

(** ** Layout *)

Definition ROUND_UP (x n : Z) : Z := Z.land (u64 (u64 (x + n) - 1)) (u64 (Z.lnot (n - 1))).
(** The same for an [unsigned int], and [_ALIGN] at that type. *)
Definition ROUND_UP_u32 (x n : Z) : Z := Z.land (u64 (u32 (x + n) - 1)) (u64 (Z.lnot (n - 1))).
Definition ALIGN_u32 (x a : Z) : Z := let mask := u32 (u32 a - 1) in Z.land (u32 (x + mask)) (u32 (Z.lnot mask)).
(** The offset and the new size. *)
Definition get_offset (m : mem) (size s : Z) : outcome (Z * Z) :=
  align ← get m s sh_addralign;
  let ret := ALIGN_u32 size (if align =? 0 then 1 else align) in
  n ← get m s sh_size;
  Ok (ret, u32 (ret + n)).
(** The masks of the four passes are flags that must be set and flags that must not. *)
Definition layout_section (mask : Z * Z) (s : Z) (st : mem * Z) : outcome (mem * Z) :=
  let '(m, size) := st in
  flags ← get m s sh_flags;
  entsize ← get m s sh_entsize;
  if negb (Z.land flags mask.1 =? mask.1) || negb (Z.land flags mask.2 =? 0) || negb (entsize =? ULONG_MAX) then Ok (m, size)
  else
    '(off, size) ← get_offset m size s;
    m ← put m s sh_entsize off;
    Ok (m, size).
Definition layout_pass (i : load_info) (n : Z) (mask : Z * Z) (st : mem * Z) : outcome (mem * Z) :=
  over (Z.to_nat n) 0 (fun k => layout_section mask (sechdr i k)) st.
Definition layout_sections (m : mem) (i : load_info) : outcome (mem * load_info) :=
  n ← get m (li_hdr i) e_shnum;
  m ← over (Z.to_nat n) 0 (fun k m => put m (sechdr i k) sh_entsize ULONG_MAX) m;
  '(m, text) ← layout_pass i n (Z.lor SHF_EXECINSTR SHF_ALLOC, 0) (m, li_size i);
  '(m, ro) ← layout_pass i n (SHF_ALLOC, SHF_WRITE) (m, text);
  '(m, rw) ← layout_pass i n (Z.lor SHF_WRITE SHF_ALLOC, 0) (m, ro);
  '(m, size) ← layout_pass i n (SHF_ALLOC, 0) (m, rw);
  Ok (m, set_layout i size text ro).

(** ** Headers *)

Definition rewrite_section_headers (m : mem) (i : load_info) : outcome mem :=
  n ← get m (li_hdr i) e_shnum;
  over (Z.to_nat (n - 1)) 1 (fun k m => off ← get m (sechdr i k) sh_offset; put m (sechdr i k) sh_addr (u64 (li_hdr i + off))) m.
(** The first symbol table and its names. *)
Fixpoint find_symtab (n : nat) (m : mem) (i : load_info) (k : Z) : outcome load_info :=
  match n with
  | O => Ok i
  | S n =>
      ty ← get m (sechdr i k) sh_type;
      if ty =? SHT_SYMTAB then
        str ← get m (sechdr i k) sh_link;
        off ← get m (sechdr i str) sh_offset;
        Ok (LoadInfo (li_len i) (li_hdr i) (li_sechdrs i) (li_secstrings i) (u64 (li_hdr i + off)) k str (li_size i) (li_text_size i) (li_ro_size i))
      else find_symtab n m i (k + 1)
  end.
Definition setup_load_info (m : mem) (base : Z) : outcome load_info :=
  len ← get m base e_phoff;
  shoff ← get m base e_shoff;
  ndx ← get m base e_shstrndx;
  let sechdrs := u64 (base + shoff) in
  stroff ← get m (sechdrs + SIZEOF_SHDR * ndx) sh_offset;
  n ← get m base e_shnum;
  find_symtab (Z.to_nat (n - 1)) m (LoadInfo len base sechdrs (u64 (base + stroff)) 0 0 0 0 0 0) 1.

(** ** Copy *)

Definition move_section (addr s : Z) (m : mem) : outcome mem :=
  flags ← get m s sh_flags;
  if Z.land flags SHF_ALLOC =? 0 then Ok m
  else
    entsize ← get m s sh_entsize;
    let p := u64 (addr + entsize) in
    ty ← get m s sh_type;
    m ← (if negb (ty =? SHT_NOBITS) then
           src ← get m s sh_addr; n ← get m s sh_size;
           '(_, m) ← memcpy m p src n; Ok m
         else Ok m);
    put m s sh_addr p.
Definition move_module (m : mem) (addr : Z) (i : load_info) : outcome mem :=
  m ← memset m addr 0 (li_size i);
  n ← get m (li_hdr i) e_shnum;
  over (Z.to_nat n) 0 (fun k => move_section addr (sechdr i k)) m.

(** ** Symbols *)

(** The first entry of a table of exported symbols with the name. *)
Fixpoint find_ksym (n fuel : nat) (m : mem) (ksym name : Z) : outcome (option Z) :=
  match n with
  | O => Ok None
  | S n =>
      kn ← get m ksym ks_name;
      c ← strcmp fuel m kn name;
      if c =? 0 then Ok (Some ksym) else find_ksym n fuel m (ksym + SIZEOF_KSYM) name
  end.
Fixpoint resolve_symbol (mods : list Z) (fuel : nat) (m : mem) (name : Z) : outcome Z :=
  match mods with
  | [] => Ok 0
  | md :: mods =>
      syms ← get m md mod_syms;
      num ← get m md mod_num_syms;
      r ← find_ksym (Z.to_nat num) fuel m syms name;
      match r with Some k => Ok k | None => resolve_symbol mods fuel m name end
  end.
(** One symbol; messages are not modelled. *)
Definition simplify_symbol (mods : list Z) (fuel : nat) (i : load_info) (sym : Z) (m : mem) : outcome mem :=
  nm ← get m sym st_name;
  shndx ← get m sym st_shndx;
  if shndx =? SHN_COMMON then Ok m
  else if (shndx =? SHN_ABS) || (shndx =? SHN_LIVEPATCH) then Ok m
  else if shndx =? SHN_UNDEF then
    ksym ← resolve_symbol mods fuel m (u64 (li_strtab i + nm));
    if negb (ksym =? 0) && negb (IS_ERR_VALUE ksym) then v ← get m ksym ks_value; put m sym st_value v
    else Ok m
  else
    v ← get m sym st_value;
    a ← get m (sechdr i shndx) sh_addr;
    put m sym st_value (u64 (v + a)).
Definition simplify_symbols (mods : list Z) (fuel : nat) (m : mem) (i : load_info) : outcome mem :=
  sym ← get m (sechdr i (li_sym i)) sh_addr;
  size ← get m (sechdr i (li_sym i)) sh_size;
  over (Z.to_nat (size / SIZEOF_SYM - 1)) 1 (fun k => simplify_symbol mods fuel i (sym + SIZEOF_SYM * k)) m.

(** ** Relocation of instructions *)

Definition hi20 (offset : Z) : Z := Z.land (s64 (offset + 0x800)) 0xfffff000.
Definition rel_hi20 (w offset : Z) : Z := Z.lor (Z.land w 0xfff) (u32 (hi20 offset)).
Definition rel_jal (w offset : Z) : Z :=
  let imm20 := u32 (Z.shiftl (Z.land offset 0x100000) (31 - 20)) in
  let imm19_12 := u32 (Z.land offset 0xff000) in
  let imm11 := u32 (Z.shiftl (Z.land offset 0x800) (20 - 11)) in
  let imm10_1 := u32 (Z.shiftl (Z.land offset 0x7fe) (30 - 10)) in
  Z.lor (Z.lor (Z.lor (Z.lor (Z.land w 0xfff) imm20) imm19_12) imm11) imm10_1.
Definition call_lo12 (offset : Z) : Z := Z.land (s64 (offset - u32 (hi20 offset))) 0xfff.
Definition rel_call_lo (w offset : Z) : Z := Z.lor (Z.land w 0xfffff) (u32 (Z.shiftl (call_lo12 offset) 20)).
Definition rel_branch (w offset : Z) : Z :=
  let imm12 := u32 (Z.shiftl (Z.land offset 0x1000) (31 - 12)) in
  let imm11 := u32 (Z.shiftr (Z.land offset 0x800) (11 - 7)) in
  let imm10_5 := u32 (Z.shiftl (Z.land offset 0x7e0) (30 - 10)) in
  let imm4_1 := u32 (Z.shiftl (Z.land offset 0x1e) (11 - 4)) in
  Z.lor (Z.lor (Z.lor (Z.lor (Z.land w 0x1fff07f) imm12) imm11) imm10_5) imm4_1.
Definition rel_rvc_jump (w offset : Z) : Z :=
  let imm11 := u16 (Z.shiftl (Z.land offset 0x800) (12 - 11)) in
  let imm10 := u16 (Z.shiftr (Z.land offset 0x400) (10 - 8)) in
  let imm9_8 := u16 (Z.shiftl (Z.land offset 0x300) (12 - 11)) in
  let imm7 := u16 (Z.shiftr (Z.land offset 0x80) (7 - 6)) in
  let imm6 := u16 (Z.shiftl (Z.land offset 0x40) (12 - 11)) in
  let imm5 := u16 (Z.shiftr (Z.land offset 0x20) (5 - 2)) in
  let imm4 := u16 (Z.shiftl (Z.land offset 0x10) (12 - 5)) in
  let imm3_1 := u16 (Z.shiftl (Z.land offset 0xe) (12 - 10)) in
  Z.lor (Z.lor (Z.lor (Z.lor (Z.lor (Z.lor (Z.lor (Z.lor (Z.land w 0xe003) imm11) imm10) imm9_8) imm7) imm6) imm5) imm4) imm3_1.
Definition rel_rvc_branch (w offset : Z) : Z :=
  let imm8 := u16 (Z.shiftl (Z.land offset 0x100) (12 - 8)) in
  let imm7_6 := u16 (Z.shiftr (Z.land offset 0xc0) (6 - 5)) in
  let imm5 := u16 (Z.shiftr (Z.land offset 0x20) (5 - 2)) in
  let imm4_3 := u16 (Z.shiftl (Z.land offset 0x18) (12 - 5)) in
  let imm2_1 := u16 (Z.shiftl (Z.land offset 0x6) (12 - 10)) in
  Z.lor (Z.lor (Z.lor (Z.lor (Z.lor (Z.land w 0xe383) imm8) imm7_6) imm5) imm4_3) imm2_1.
(** The low part belongs to the high part [hi20], a signed 32-bit value. *)
Definition pcrel_lo12 (offset : Z) : Z := s32 (u64 (offset - s32 (Z.land (u64 (offset + 0x800)) 0xfffff000))).
Definition rel_lo12_i (w lo12 : Z) : Z := Z.lor (Z.land w 0xfffff) (u32 (Z.shiftl (Z.land lo12 0xfff) 20)).
Definition rel_lo12_s (w lo12 : Z) : Z :=
  let imm11_5 := u32 (Z.shiftl (Z.land lo12 0xfe0) (31 - 11)) in
  let imm4_0 := u32 (Z.shiftl (Z.land lo12 0x1f) (11 - 4)) in
  Z.lor (Z.lor (Z.land w 0x1fff07f) imm11_5) imm4_0.

Definition patch (n : nat) (m : mem) (location : Z) (f : Z -> Z) : outcome mem :=
  w ← load_le n m location; store_le n m location (f w).
Section Relocate.
Context (m : mem) (i : load_info) (symindex relsec : Z).
(** The address of entry [j], of what it changes and of its symbol. *)
Definition rela_entry (rel j : Z) : Z := rel + SIZEOF_RELA * j.
Definition rela_location (rel j : Z) : outcome Z :=
  info ← get m (sechdr i relsec) sh_info;
  a ← get m (sechdr i info) sh_addr;
  off ← get m (rela_entry rel j) r_offset;
  Ok (u64 (a + off)).
Definition rela_symbol (rel j : Z) : outcome Z :=
  a ← get m (sechdr i symindex) sh_addr;
  info ← get m (rela_entry rel j) r_info;
  Ok (a + SIZEOF_SYM * ELF64_R_SYM info).
Definition rela_value (rel j : Z) : outcome Z :=
  sym ← rela_symbol rel j;
  v ← get m sym st_value;
  add ← get m (rela_entry rel j) r_addend;
  Ok (u64 (v + add)).
(** The high part that a low part refers to: the first entry of the section that changes the address. *)
Fixpoint find_hi20 (n : nat) (rel j target : Z) : outcome (option Z) :=
  match n with
  | O => Ok None
  | S n =>
      info ← get m (rela_entry rel j) r_info;
      loc ← rela_location rel j;
      if (loc =? target) && (ELF64_R_TYPE info =? R_RISCV_PCREL_HI20) then
        v ← rela_value rel j; Ok (Some (u64 (v - loc)))
      else find_hi20 n rel (j + 1) target
  end.
Definition apply_rela (n rel j : Z) : outcome mem :=
  location ← rela_location rel j;
  sym ← rela_symbol rel j;
  v ← rela_value rel j;
  info ← get m (rela_entry rel j) r_info;
  let type := ELF64_R_TYPE info in
  let offset := s64 (v - location) in
  if type =? R_RISCV_64 then store_le 8 m location v
  else if type =? R_RISCV_PCREL_HI20 then patch 4 m location (fun w => rel_hi20 w offset)
  else if type =? R_RISCV_JAL then patch 4 m location (fun w => rel_jal w offset)
  else if type =? R_RISCV_CALL then
    m ← patch 4 m location (fun w => rel_hi20 w offset);
    patch 4 m (location + 4) (fun w => rel_call_lo w offset)
  else if type =? R_RISCV_BRANCH then patch 4 m location (fun w => rel_branch w offset)
  else if type =? R_RISCV_RVC_JUMP then patch 2 m location (fun w => rel_rvc_jump w offset)
  else if type =? R_RISCV_RVC_BRANCH then patch 2 m location (fun w => rel_rvc_branch w offset)
  else if type =? R_RISCV_RELAX then Ok m
  else if type =? R_RISCV_ADD32 then patch 4 m location (fun w => u32 (w + u32 v))
  else if type =? R_RISCV_SUB32 then patch 4 m location (fun w => u32 (w - u32 v))
  else if (type =? R_RISCV_PCREL_LO12_I) || (type =? R_RISCV_PCREL_LO12_S) then
    target ← get m sym st_value;
    r ← find_hi20 (Z.to_nat n) rel 0 target;
    match r with
    | None => Ok m
    | Some off => patch 4 m location (fun w => if type =? R_RISCV_PCREL_LO12_I then rel_lo12_i w (pcrel_lo12 off) else rel_lo12_s w (pcrel_lo12 off))
    end
  else Ok m.
End Relocate.
Definition apply_relocate_add (m : mem) (i : load_info) (symindex relsec : Z) : outcome mem :=
  rel ← get m (sechdr i relsec) sh_addr;
  size ← get m (sechdr i relsec) sh_size;
  let n := size / SIZEOF_RELA in
  over (Z.to_nat n) 0 (fun j m => apply_rela m i symindex relsec n rel j) m.
Definition relocate_section (i : load_info) (n k : Z) (m : mem) : outcome mem :=
  infosec ← get m (sechdr i k) sh_info;
  if n <=? infosec then Ok m
  else
    flags ← get m (sechdr i infosec) sh_flags;
    if Z.land flags SHF_ALLOC =? 0 then Ok m
    else
      ty ← get m (sechdr i k) sh_type;
      if ty =? SHT_RELA then apply_relocate_add m i (li_sym i) k else Ok m.
Definition apply_relocations (m : mem) (i : load_info) : outcome mem :=
  n ← get m (li_hdr i) e_shnum;
  over (Z.to_nat (n - 1)) 1 (relocate_section i n) m.

(** ** The list of modules *)

(** The value of the first symbol with the name, a string in memory. *)
Fixpoint query_loop (n fuel : nat) (m : mem) (i : load_info) (sym target : Z) : outcome Z :=
  match n with
  | O => Ok 0
  | S n =>
      nm ← get m sym st_name;
      c ← strcmp fuel m (u64 (li_strtab i + nm)) target;
      if c =? 0 then get m sym st_value else query_loop n fuel m i (sym + SIZEOF_SYM) target
  end.
Definition query_sym (fuel : nat) (m : mem) (target : Z) (i : load_info) : outcome Z :=
  sym ← get m (sechdr i (li_sym i)) sh_addr;
  size ← get m (sechdr i (li_sym i)) sh_size;
  query_loop (Z.to_nat (size / SIZEOF_SYM - 1)) fuel m i (sym + SIZEOF_SYM) target.
(** The addresses of the four names the loader looks for. *)
Record names := Names { n_start : Z; n_end : Z; n_init : Z; n_exit : Z }.
Definition finalize_module (nm : names) (fuel : nat) (m : mem) (mods : list Z) (addr : Z) (i : load_info) : outcome (mem * list Z * load_info) :=
  let md := u64 (addr + li_size i) in
  let i := set_layout i (u32 (li_size i + SIZEOF_MODULE)) (li_text_size i) (li_ro_size i) in
  m ← memset m md 0 SIZEOF_MODULE;
  start ← query_sym fuel m (n_start nm) i;
  end_ ← query_sym fuel m (n_end nm) i;
  m ← put m md mod_syms start;
  m ← put m md mod_num_syms (u32 (Z.quot (s64 (end_ - start)) SIZEOF_KSYM));
  init ← query_sym fuel m (n_init nm) i;
  m ← put m md mod_init init;
  exit ← query_sym fuel m (n_exit nm) i;
  m ← put m md mod_exit exit;
  Ok (m, mods ++ [md], i).

(** One module, from the flash memory at [src] to [dst]. *)
Definition load_module (nm : names) (fuel : nat) (m : mem) (mods : list Z) (src dst : Z) : outcome (mem * list Z * load_info) :=
  i ← setup_load_info m src;
  m ← rewrite_section_headers m i;
  '(m, i) ← layout_sections m i;
  m ← move_module m dst i;
  m ← simplify_symbols mods fuel m i;
  m ← apply_relocations m i;
  finalize_module nm fuel m mods dst i.
(** [magic] is the address of the string [ELFMAG]. *)
Fixpoint load_loop (n fuel : nat) (nm : names) (magic : Z) (m : mem) (mods : list Z) (src dst : Z) : outcome (mem * list Z * Z) :=
  match n with
  | O => NoFuel
  | S n =>
      c ← memcmp m src magic SELFMAG;
      if negb (c =? 0) then Ok (m, mods, dst)
      else
        '(m, mods, i) ← load_module nm fuel m mods src dst;
        load_loop n fuel nm magic m mods (u64 (src + ROUND_UP (li_len i) 8)) (u64 (dst + ROUND_UP_u32 (li_size i) 8))
  end.
Definition modules_source_base (m : mem) (flash : Z) : outcome Z := sz ← get m flash image_size; Ok (ROUND_UP (u64 (flash + sz)) 8).
(** The table of the kernel itself comes first. *)
Definition init_kernel_module (m : mem) (kernel_module start_ksymtab num : Z) : outcome (mem * list Z) :=
  m ← put m kernel_module mod_syms start_ksymtab;
  m ← put m kernel_module mod_num_syms (u32 num);
  Ok (m, [kernel_module]).
(** [end_] is the end of the kernel and [flash] the image in flash memory; the result is the memory, the modules and the end of what was loaded. *)
Definition init_other_modules (n fuel : nat) (nm : names) (magic : Z) (m : mem) (mods : list Z) (flash end_ : Z) : outcome (mem * list Z * Z) :=
  src ← modules_source_base m flash;
  load_loop n fuel nm magic m mods src (ROUND_UP end_ 8).
