(* ===== verification/ModReloc.v ===== *)
(** * Relocated instructions refer to their targets

    The immediate operands of the instruction formats of RISC-V, as the unprivileged specification defines them, and the proof
    that a relocation changes exactly the operand, so that the instruction refers to the symbol. *)

From Stdlib Require Import ZArith Lia Bool Btauto.
From stdpp Require Import base tactics numbers list strings gmap.
From S2P Require Import Prelude Words Mem LibString PageTableSpec ModLoad.
#[local] Open Scope Z_scope.

(** ** Operands of instructions *)

Definition slice (w lo n : Z) : Z := Z.land (Z.shiftr w lo) (Z.ones n).
(** The low [n] bits as a signed number. *)
Definition sext (n x : Z) : Z := (x + 2 ^ (n - 1)) mod 2 ^ n - 2 ^ (n - 1).
Definition imm_u (w : Z) : Z := sext 32 (Z.shiftl (slice w 12 20) 12).
Definition imm_i (w : Z) : Z := sext 12 (slice w 20 12).
Definition imm_s (w : Z) : Z := sext 12 (Z.lor (Z.shiftl (slice w 25 7) 5) (slice w 7 5)).
Definition raw_j (w : Z) : Z :=
  Z.lor (Z.lor (Z.shiftl (slice w 31 1) 20) (Z.shiftl (slice w 12 8) 12)) (Z.lor (Z.shiftl (slice w 20 1) 11) (Z.shiftl (slice w 21 10) 1)).
Definition imm_j (w : Z) : Z := sext 21 (raw_j w).
Definition raw_b (w : Z) : Z :=
  Z.lor (Z.lor (Z.shiftl (slice w 31 1) 12) (Z.shiftl (slice w 7 1) 11)) (Z.lor (Z.shiftl (slice w 25 6) 5) (Z.shiftl (slice w 8 4) 1)).
Definition imm_b (w : Z) : Z := sext 13 (raw_b w).
Definition raw_cj (w : Z) : Z :=
  Z.lor (Z.lor (Z.lor (Z.shiftl (slice w 12 1) 11) (Z.shiftl (slice w 11 1) 4)) (Z.lor (Z.shiftl (slice w 9 2) 8) (Z.shiftl (slice w 8 1) 10)))
        (Z.lor (Z.lor (Z.shiftl (slice w 7 1) 6) (Z.shiftl (slice w 6 1) 7)) (Z.lor (Z.shiftl (slice w 3 3) 1) (Z.shiftl (slice w 2 1) 5))).
Definition imm_cj (w : Z) : Z := sext 12 (raw_cj w).
Definition raw_cb (w : Z) : Z :=
  Z.lor (Z.lor (Z.shiftl (slice w 12 1) 8) (Z.shiftl (slice w 10 2) 3)) (Z.lor (Z.shiftl (slice w 5 2) 6) (Z.lor (Z.shiftl (slice w 3 2) 1) (Z.shiftl (slice w 2 1) 5))).
Definition imm_cb (w : Z) : Z := sext 9 (raw_cb w).

Lemma sext_small n x : 0 < n -> - 2 ^ (n - 1) <= x < 2 ^ (n - 1) -> sext n (x mod 2 ^ n) = x.
Proof.
  intros Hn H. unfold sext. rewrite Z.add_mod_idemp_l by (apply Z.pow_nonzero; lia). assert (2 ^ n = 2 * 2 ^ (n - 1)) as E by (rewrite <- Z.pow_succ_r by lia; f_equal; lia).
  rewrite Z.mod_small by lia. lia.
Qed.

(** Bits at a given place: one step computes an index, goes through an operation or computes a bit of a number. *)
Ltac is_num i := lazymatch i with Z0 => idtac | Zpos _ => idtac | Zneg _ => idtac end.
Ltac bit_step :=
  match goal with
  | |- context [Z.testbit ?a ?i] => tryif is_num i then fail else (let j := eval vm_compute in i in is_num j; change (Z.testbit a i) with (Z.testbit a j))
  | |- context [Z.testbit ?a (Zneg ?p)] => rewrite (Z.testbit_neg_r a (Zneg p)) by reflexivity
  | |- context [Z.testbit (Zpos ?c) ?i] => let b := eval vm_compute in (Z.testbit (Zpos c) i) in change (Z.testbit (Zpos c) i) with b
  | |- context [Z.testbit (Z.ones ?n) ?i] => let b := eval vm_compute in (Z.testbit (Z.ones n) i) in change (Z.testbit (Z.ones n) i) with b
  | |- context [Z.testbit (Z.lor ?a ?b) ?i] => rewrite (Z.lor_spec a b i)
  | |- context [Z.testbit (Z.land ?a ?b) ?i] => rewrite (Z.land_spec a b i)
  | |- context [Z.testbit (Z.shiftl ?a ?n) ?i] => rewrite (Z.shiftl_spec a n i) by lia
  | |- context [Z.testbit (Z.shiftr ?a ?n) ?i] => rewrite (Z.shiftr_spec a n i) by lia
  | |- context [Z.testbit (?a mod 2 ^ ?n) ?i] => rewrite (Z.mod_pow2_bits_low a n i) by lia
  | |- context [Z.testbit (?a mod 2 ^ ?n) ?i] => rewrite (Z.mod_pow2_bits_high a n i) by lia
  end.
Ltac bit_at := repeat bit_step; cbn [andb orb]; rewrite ?andb_false_r, ?andb_true_r, ?orb_false_r, ?orb_true_r; cbn [andb orb]; try reflexivity; try congruence; try btauto.
Lemma ones_bit n k : 0 <= n -> 0 <= k -> Z.testbit (Z.ones n) k = (k <? n).
Proof. intros Hn Hk. rewrite Z.testbit_ones by lia. destruct (Z.leb_spec 0 k); [reflexivity|lia]. Qed.
Lemma even_bit off : off mod 2 = 0 -> Z.testbit off 0 = false.
Proof. intros He. rewrite Z.bit0_odd. rewrite Zmod_odd in He. destruct (Z.odd off); [discriminate He|reflexivity]. Qed.
(** Every [k] below a number is one of finitely many. *)
Fixpoint all_below (n : nat) (P : Z -> Prop) : Prop := match n with O => True | S n => P (Z.of_nat n) /\ all_below n P end.
Lemma all_below_ok n P : all_below n P -> forall k, 0 <= k < Z.of_nat n -> P k.
Proof. induction n as [|n IH]; intros H k Hk; [lia|]. destruct H as [H1 H2]. destruct (Z.eq_dec k (Z.of_nat n)) as [->|]; [exact H1|]. apply IH; [exact H2|lia]. Qed.
(** Numbers whose low bits agree are read as the same signed number. *)
Lemma sext_bits (n : nat) x off : (0 < n)%nat -> - 2 ^ (Z.of_nat n - 1) <= off < 2 ^ (Z.of_nat n - 1) -> all_below n (fun k => Z.testbit x k = Z.testbit off k) -> sext (Z.of_nat n) x = off.
Proof.
  intros Hn Hr H. rewrite <- (sext_small (Z.of_nat n) off) by lia. unfold sext. f_equal. rewrite Z.add_mod_idemp_l by (apply Z.pow_nonzero; lia). rewrite <- (Z.add_mod_idemp_l x), <- (Z.add_mod_idemp_l off) by (apply Z.pow_nonzero; lia). do 2 f_equal.
  apply Z.bits_inj'. intros k Hk. destruct (Z.lt_ge_cases k (Z.of_nat n)) as [Hlt|Hge]; [|by rewrite !Z.mod_pow2_bits_high by lia]. rewrite !Z.mod_pow2_bits_low by lia. exact (all_below_ok n _ H k (conj Hk Hlt)).
Qed.
Lemma land_bits (n : nat) x y mask : 0 <= mask < 2 ^ Z.of_nat n -> all_below n (fun k => Z.testbit (Z.land x mask) k = Z.testbit (Z.land y mask) k) -> Z.land x mask = Z.land y mask.
Proof.
  intros Hm H. apply Z.bits_inj'. intros k Hk. destruct (Z.lt_ge_cases k (Z.of_nat n)) as [Hlt|Hge]; [exact (all_below_ok n _ H k (conj Hk Hlt))|].
  rewrite !Z.land_spec. assert (Z.testbit mask k = false) as -> by (rewrite <- (Z.mod_small mask (2 ^ Z.of_nat n)) by lia; apply Z.mod_pow2_bits_high; lia). by rewrite !andb_false_r.
Qed.
Ltac all_bits := cbn [all_below Z.of_nat Pos.of_succ_nat Pos.succ]; repeat split; bit_at.

(** ** Operands after relocation *)

Lemma jal_imm w off : off mod 2 = 0 -> - 2 ^ 20 <= off < 2 ^ 20 -> imm_j (rel_jal w off) = off.
Proof. intros H%even_bit Hr. apply (sext_bits 21); [lia|exact Hr|]. unfold raw_j, slice, rel_jal, u32. all_bits. Qed.
Lemma jal_keeps w off : Z.land (rel_jal w off) 0xfff = Z.land w 0xfff.
Proof. apply (land_bits 12); [lia|]. unfold rel_jal, u32. all_bits. Qed.
Lemma branch_imm w off : off mod 2 = 0 -> - 2 ^ 12 <= off < 2 ^ 12 -> imm_b (rel_branch w off) = off.
Proof. intros H%even_bit Hr. apply (sext_bits 13); [lia|exact Hr|]. unfold raw_b, slice, rel_branch, u32. all_bits. Qed.
Lemma branch_keeps w off : Z.land (rel_branch w off) 0x1fff07f = Z.land w 0x1fff07f.
Proof. apply (land_bits 25); [lia|]. unfold rel_branch, u32. all_bits. Qed.
Lemma rvc_jump_imm w off : off mod 2 = 0 -> - 2 ^ 11 <= off < 2 ^ 11 -> imm_cj (rel_rvc_jump w off) = off.
Proof. intros H%even_bit Hr. apply (sext_bits 12); [lia|exact Hr|]. unfold raw_cj, slice, rel_rvc_jump, u16. all_bits. Qed.
Lemma rvc_jump_keeps w off : Z.land (rel_rvc_jump w off) 0xe003 = Z.land w 0xe003.
Proof. apply (land_bits 16); [lia|]. unfold rel_rvc_jump, u16. all_bits. Qed.
Lemma rvc_branch_imm w off : off mod 2 = 0 -> - 2 ^ 8 <= off < 2 ^ 8 -> imm_cb (rel_rvc_branch w off) = off.
Proof. intros H%even_bit Hr. apply (sext_bits 9); [lia|exact Hr|]. unfold raw_cb, slice, rel_rvc_branch, u16. all_bits. Qed.
Lemma rvc_branch_keeps w off : Z.land (rel_rvc_branch w off) 0xe383 = Z.land w 0xe383.
Proof. apply (land_bits 16); [lia|]. unfold rel_rvc_branch, u16. all_bits. Qed.

(** The high part of an offset, a multiple of a page; the rest fits twelve bits. *)
Definition hi_part (off : Z) : Z := off + 0x800 - (off + 0x800) mod 4096.
Definition word_off (off : Z) : Prop := - 2 ^ 31 <= off < 2 ^ 31 - 0x800.
Lemma hi_part_range off : word_off off -> - 2 ^ 31 <= hi_part off < 2 ^ 31 /\ - 2 ^ 11 <= off - hi_part off < 2 ^ 11 /\ hi_part off mod 4096 = 0.
Proof.
  unfold word_off, hi_part. intros H. pose proof (Z.mod_pos_bound (off + 0x800) 4096 ltac:(lia)) as Hm. assert ((off + 0x800 - (off + 0x800) mod 4096) mod 4096 = 0) as E by (rewrite Zminus_mod, Z.mod_mod, Z.sub_diag by lia; reflexivity).
  split; [|split; [lia|exact E]]. split; [|lia]. pose proof (Z.div_mod (off + 0x800) 4096 ltac:(lia)). nia.
Qed.
Lemma hi_part_bits off k : 0 <= k -> Z.testbit (hi_part off) k = (12 <=? k) && Z.testbit (off + 0x800) k.
Proof.
  intros Hk. unfold hi_part. set (a := off + 2048). assert (a - a mod 4096 = Z.shiftl (Z.shiftr a 12) 12) as ->. { rewrite Z.shiftl_mul_pow2, Z.shiftr_div_pow2 by lia. change (2 ^ 12) with 4096. pose proof (Z.div_mod a 4096 ltac:(lia)). lia. }
  rewrite Z.shiftl_spec by lia. destruct (Z.leb_spec 12 k) as [H|H]; [rewrite Z.shiftr_spec by lia; cbn [andb]; f_equal; lia|]. rewrite Z.testbit_neg_r by lia. reflexivity.
Qed.
Lemma hi20_imm w off : word_off off -> imm_u (rel_hi20 w off) = hi_part off.
Proof.
  intros H. destruct (hi_part_range off H) as (Hr & _). unfold word_off in H. apply (sext_bits 32); [lia|exact Hr|]. unfold slice, rel_hi20, hi20, u32. rewrite s64_small by lia. cbn [all_below Z.of_nat Pos.of_succ_nat Pos.succ]. rewrite !hi_part_bits by lia. cbn [Z.leb Z.compare Pos.compare Pos.compare_cont andb]. set (a := off + 2048). repeat split; bit_at.
Qed.
Lemma hi20_keeps w off : Z.land (rel_hi20 w off) 0xfff = Z.land w 0xfff.
Proof. apply (land_bits 12); [lia|]. unfold rel_hi20, hi20, u32. all_bits. Qed.
Lemma land_fff x : Z.land x 0xfff = x mod 4096.
Proof. change 0xfff with (Z.ones 12). rewrite Z.land_ones by lia. reflexivity. Qed.
Lemma hi20_eq off : word_off off -> u32 (hi20 off) = hi_part off mod 2 ^ 32.
Proof.
  intros H. unfold word_off in H. unfold u32, hi20. rewrite s64_small by lia. apply Z.bits_inj'. intros k Hk. destruct (Z.lt_ge_cases k 32) as [Hlt|Hge]; [|by rewrite !Z.mod_pow2_bits_high by lia]. rewrite !Z.mod_pow2_bits_low by lia. rewrite hi_part_bits by lia. rewrite Z.land_spec, andb_comm. f_equal.
  assert (all_below 32 (fun k => Z.testbit 0xfffff000 k = (12 <=? k))) as A by (cbn [all_below]; repeat split; reflexivity). exact (all_below_ok 32 _ A k (conj Hk Hlt)).
Qed.
Lemma lo12_rest off : word_off off -> call_lo12 off = (off - hi_part off) mod 4096.
Proof.
  intros H. destruct (hi_part_range off H) as (_ & _ & E). pose proof H as H'. unfold word_off in H'. unfold call_lo12. rewrite hi20_eq by exact H. pose proof (Z.mod_pos_bound (hi_part off) (2 ^ 32) ltac:(lia)). rewrite s64_small by lia. rewrite land_fff.
  rewrite (Zminus_mod off (hi_part off)), E. rewrite (Zminus_mod off (hi_part off mod 2 ^ 32)). f_equal. f_equal. change (2 ^ 32) with (4096 * 2 ^ 20). rewrite Z.rem_mul_r by lia. rewrite E. replace (0 + 4096 * ((hi_part off / 4096) mod 2 ^ 20)) with ((hi_part off / 4096) mod 2 ^ 20 * 4096) by lia. apply Z.mod_mul. lia.
Qed.
Lemma lo12_i_imm w lo : - 2 ^ 11 <= lo < 2 ^ 11 -> imm_i (rel_lo12_i w lo) = lo.
Proof. intros Hr. apply (sext_bits 12); [lia|exact Hr|]. unfold slice, rel_lo12_i, u32. all_bits. Qed.
Lemma lo12_i_keeps w lo : Z.land (rel_lo12_i w lo) 0xfffff = Z.land w 0xfffff.
Proof. apply (land_bits 20); [lia|]. unfold rel_lo12_i, u32. all_bits. Qed.
Lemma lo12_s_imm w lo : - 2 ^ 11 <= lo < 2 ^ 11 -> imm_s (rel_lo12_s w lo) = lo.
Proof. intros Hr. apply (sext_bits 12); [lia|exact Hr|]. unfold slice, rel_lo12_s, u32. all_bits. Qed.
Lemma lo12_s_keeps w lo : Z.land (rel_lo12_s w lo) 0x1fff07f = Z.land w 0x1fff07f.
Proof. apply (land_bits 25); [lia|]. unfold rel_lo12_s, u32. all_bits. Qed.
Lemma call_lo_imm w off : word_off off -> imm_i (rel_call_lo w off) = off - hi_part off.
Proof.
  intros H. destruct (hi_part_range off H) as (_ & Hr & _). rewrite <- (lo12_i_imm w (off - hi_part off) Hr). unfold rel_call_lo, rel_lo12_i. by rewrite lo12_rest, land_fff by exact H.
Qed.
Lemma pcrel_rest off : word_off off -> pcrel_lo12 (u64 off) = off - hi_part off.
Proof.
  intros H. destruct (hi_part_range off H) as (Hh & Hr & _). pose proof H as H'. unfold word_off in H'. unfold pcrel_lo12.
  assert (s32 (Z.land (u64 (u64 off + 2048)) 0xfffff000) = hi_part off) as ->.
  { rewrite <- (s32_small (hi_part off)) by exact Hh. unfold s32. f_equal. rewrite <- (Z.add_mod_idemp_l (Z.land _ _)), <- (Z.add_mod_idemp_l (hi_part off)) by lia. do 2 f_equal. rewrite <- hi20_eq by exact H. unfold u32, hi20. rewrite s64_small by lia. apply Z.bits_inj'. intros k Hk. destruct (Z.lt_ge_cases k 32) as [Hlt|Hge]; [|by rewrite !Z.mod_pow2_bits_high by lia]. rewrite !Z.mod_pow2_bits_low by lia. rewrite !Z.land_spec. f_equal. unfold u64. rewrite Z.add_mod_idemp_l by lia. apply Z.mod_pow2_bits_low. lia. }
  rewrite <- (s32_small (off - hi_part off)) by lia. unfold s32, u64. f_equal. rewrite Zminus_mod_idemp_l. rewrite <- (Z.add_mod_idemp_l (_ mod 2 ^ 64)) by lia. change (2 ^ 64) with (2 ^ 32 * 2 ^ 32). rewrite Z.rem_mul_r by lia. rewrite <- Z.add_mod_idemp_l with (a := off - hi_part off) by lia. f_equal. f_equal. rewrite Z.mul_comm, Z.mod_add by lia. apply Z.mod_mod. lia.
Qed.

(** ** Words *)

Lemma lor_lt n a b : 0 <= n -> 0 <= a < 2 ^ n -> 0 <= b < 2 ^ n -> 0 <= Z.lor a b < 2 ^ n.
Proof.
  intros Hn Ha Hb. split; [apply Z.lor_nonneg; lia|]. assert (Z.lor a b = Z.lor a b mod 2 ^ n) as ->; [|apply Z.mod_pos_bound; apply Z.pow_pos_nonneg; lia]. rewrite <- Z.land_ones, Z.land_lor_distr_l, !Z.land_ones, !Z.mod_small by lia. reflexivity.
Qed.
Lemma land_lt n w mask : 0 <= mask < 2 ^ n -> 0 <= Z.land w mask < 2 ^ n.
Proof.
  intros Hm. split; [apply Z.land_nonneg; lia|]. destruct (Z.eq_dec mask 0) as [->|]; [rewrite Z.land_0_r; lia|]. assert (0 <= n) by (destruct (Z.lt_ge_cases n 0); [rewrite Z.pow_neg_r in Hm by lia; lia|lia]). assert (Z.land w mask = Z.land w mask mod 2 ^ n) as ->; [|apply Z.mod_pos_bound; apply Z.pow_pos_nonneg; lia]. rewrite <- Z.land_ones, <- Z.land_assoc by lia. f_equal. rewrite Z.land_ones, Z.mod_small by lia. reflexivity.
Qed.
Ltac word_range := repeat first [apply lor_lt; [lia| |] | apply land_lt; lia | apply Z.mod_pos_bound; lia].
Lemma jal_word w off : 0 <= rel_jal w off < 2 ^ 32.
Proof. unfold rel_jal, u32. word_range. Qed.
Lemma branch_word w off : 0 <= rel_branch w off < 2 ^ 32.
Proof. unfold rel_branch, u32. word_range. Qed.
Lemma rvc_jump_word w off : 0 <= rel_rvc_jump w off < 2 ^ 16.
Proof. unfold rel_rvc_jump, u16. word_range. Qed.
Lemma rvc_branch_word w off : 0 <= rel_rvc_branch w off < 2 ^ 16.
Proof. unfold rel_rvc_branch, u16. word_range. Qed.
Lemma hi20_word w off : 0 <= rel_hi20 w off < 2 ^ 32.
Proof. unfold rel_hi20, u32. word_range. Qed.
Lemma call_lo_word w off : 0 <= rel_call_lo w off < 2 ^ 32.
Proof. unfold rel_call_lo, u32. word_range. Qed.
Lemma lo12_i_word w lo : 0 <= rel_lo12_i w lo < 2 ^ 32.
Proof. unfold rel_lo12_i, u32. word_range. Qed.
Lemma lo12_s_word w lo : 0 <= rel_lo12_s w lo < 2 ^ 32.
Proof. unfold rel_lo12_s, u32. word_range. Qed.

(** ** Relocation of memory *)

(** The address that the instruction at [loc] refers to, by the type of the relocation. *)
Definition refers (type : Z) (m : mem) (loc : Z) : outcome Z :=
  if type =? R_RISCV_64 then load_le 8 m loc
  else if type =? R_RISCV_JAL then w ← load_le 4 m loc; Ok (loc + imm_j w)
  else if type =? R_RISCV_BRANCH then w ← load_le 4 m loc; Ok (loc + imm_b w)
  else if type =? R_RISCV_RVC_JUMP then w ← load_le 2 m loc; Ok (loc + imm_cj w)
  else if type =? R_RISCV_RVC_BRANCH then w ← load_le 2 m loc; Ok (loc + imm_cb w)
  else if type =? R_RISCV_CALL then w ← load_le 4 m loc; w' ← load_le 4 m (loc + 4); Ok (loc + imm_u w + imm_i w')
  else Fault.
(** The bits of the instruction that are not its operand. *)
Definition opcode (type : Z) (m : mem) (loc : Z) : outcome (Z * Z) :=
  if type =? R_RISCV_64 then Ok (0, 0)
  else if type =? R_RISCV_JAL then w ← load_le 4 m loc; Ok (Z.land w 0xfff, 0)
  else if type =? R_RISCV_BRANCH then w ← load_le 4 m loc; Ok (Z.land w 0x1fff07f, 0)
  else if type =? R_RISCV_RVC_JUMP then w ← load_le 2 m loc; Ok (Z.land w 0xe003, 0)
  else if type =? R_RISCV_RVC_BRANCH then w ← load_le 2 m loc; Ok (Z.land w 0xe383, 0)
  else if type =? R_RISCV_CALL then w ← load_le 4 m loc; w' ← load_le 4 m (loc + 4); Ok (Z.land w 0xfff, Z.land w' 0xfffff)
  else Fault.
Definition span (type : Z) : Z :=
  if (type =? R_RISCV_64) || (type =? R_RISCV_CALL) then 8 else if (type =? R_RISCV_RVC_JUMP) || (type =? R_RISCV_RVC_BRANCH) then 2 else 4.
(** What the operand of the instruction can hold. *)
Inductive reach : Z -> Z -> Prop :=
  | reach_64 off : reach R_RISCV_64 off
  | reach_jal off : off mod 2 = 0 -> - 2 ^ 20 <= off < 2 ^ 20 -> reach R_RISCV_JAL off
  | reach_branch off : off mod 2 = 0 -> - 2 ^ 12 <= off < 2 ^ 12 -> reach R_RISCV_BRANCH off
  | reach_rvc_jump off : off mod 2 = 0 -> - 2 ^ 11 <= off < 2 ^ 11 -> reach R_RISCV_RVC_JUMP off
  | reach_rvc_branch off : off mod 2 = 0 -> - 2 ^ 8 <= off < 2 ^ 8 -> reach R_RISCV_RVC_BRANCH off
  | reach_call off : word_off off -> reach R_RISCV_CALL off.

Lemma load_mapped n m : forall p, writable m p (Z.of_nat n) -> exists w, load_le n m p = Ok w.
Proof.
  induction n as [|n IH]; intros p H; cbn [load_le]; [eauto|]. destruct (H p ltac:(lia)) as [c Hc]. destruct (IH (p + 1)) as [w ->]; [intros x Hx; apply H; lia|]. unfold load8. rewrite Hc. cbn [deref mbind outcome_bind]. eauto.
Qed.
Lemma patch_ok n m loc f : writable m loc (Z.of_nat n) -> (forall w, 0 <= f w < 256 ^ Z.of_nat n) ->
  exists w m', load_le n m loc = Ok w /\ patch n m loc f = Ok m' /\ load_le n m' loc = Ok (f w) /\ eq_outside loc (Z.of_nat n) m m' /\ writable m' loc (Z.of_nat n).
Proof.
  intros Hw Hf. destruct (load_mapped n m loc Hw) as [w Ew]. destruct (store_le_word n m loc (f w) Hw) as (m' & E & El & Ho & Hw'). exists w, m'. unfold patch. rewrite Ew. cbn [mbind outcome_bind]. rewrite Z.mod_small in El by apply Hf. auto.
Qed.
Lemma back_to v loc : is_u64 v -> u64 (loc + s64 (v - loc)) = v.
Proof. intros H. unfold u64, s64. rewrite <- (Z.mod_small v (2 ^ 64)) at 2 by exact H. replace (loc + ((v - loc + 2 ^ 63) mod 2 ^ 64 - 2 ^ 63)) with ((v - loc + 2 ^ 63) mod 2 ^ 64 + (loc - 2 ^ 63)) by lia. rewrite Z.add_mod_idemp_l by lia. f_equal. lia. Qed.

Section Entry.
Context (m : mem) (i : load_info) (symindex relsec n rel j loc sym v info : Z).
Context (Hloc : rela_location m i relsec rel j = Ok loc) (Hsym : rela_symbol m i symindex rel j = Ok sym)
        (Hv : rela_value m i symindex rel j = Ok v) (Hinfo : get m (rela_entry rel j) r_info = Ok info).
Notation type := (ELF64_R_TYPE info).
#[local] Lemma apply_unfold : apply_rela m i symindex relsec n rel j =
  let offset := s64 (v - loc) in
  if type =? R_RISCV_64 then store_le 8 m loc v
  else if type =? R_RISCV_PCREL_HI20 then patch 4 m loc (fun w => rel_hi20 w offset)
  else if type =? R_RISCV_JAL then patch 4 m loc (fun w => rel_jal w offset)
  else if type =? R_RISCV_CALL then m ← patch 4 m loc (fun w => rel_hi20 w offset); patch 4 m (loc + 4) (fun w => rel_call_lo w offset)
  else if type =? R_RISCV_BRANCH then patch 4 m loc (fun w => rel_branch w offset)
  else if type =? R_RISCV_RVC_JUMP then patch 2 m loc (fun w => rel_rvc_jump w offset)
  else if type =? R_RISCV_RVC_BRANCH then patch 2 m loc (fun w => rel_rvc_branch w offset)
  else if type =? R_RISCV_RELAX then Ok m
  else if type =? R_RISCV_ADD32 then patch 4 m loc (fun w => u32 (w + u32 v))
  else if type =? R_RISCV_SUB32 then patch 4 m loc (fun w => u32 (w - u32 v))
  else if (type =? R_RISCV_PCREL_LO12_I) || (type =? R_RISCV_PCREL_LO12_S) then
    target ← get m sym st_value; r ← find_hi20 m i symindex relsec (Z.to_nat n) rel 0 target;
    match r with None => Ok m | Some off => patch 4 m loc (fun w => if type =? R_RISCV_PCREL_LO12_I then rel_lo12_i w (pcrel_lo12 off) else rel_lo12_s w (pcrel_lo12 off)) end
  else Ok m.
Proof using Hloc Hsym Hv Hinfo. unfold apply_rela. rewrite Hloc, Hsym, Hv, Hinfo. reflexivity. Qed.

Lemma one_word (k : nat) type' (f : Z -> Z -> Z) imm mask : type = type' ->
  apply_rela m i symindex relsec n rel j = patch k m loc (fun w => f w (s64 (v - loc))) ->
  (forall m', refers type' m' loc = (w ← load_le k m' loc; Ok (loc + imm w))) -> (forall m', opcode type' m' loc = (w ← load_le k m' loc; Ok (Z.land w mask, 0))) -> span type' = Z.of_nat k ->
  (forall w, 0 <= f w (s64 (v - loc)) < 256 ^ Z.of_nat k) -> (forall w, imm (f w (s64 (v - loc))) = s64 (v - loc)) -> (forall w, Z.land (f w (s64 (v - loc))) mask = Z.land w mask) ->
  is_u64 v -> writable m loc (span type') ->
  exists m' t, apply_rela m i symindex relsec n rel j = Ok m' /\ eq_outside loc (span type') m m' /\ refers type' m' loc = Ok t /\ u64 t = v /\ opcode type' m' loc = opcode type' m loc.
Proof using Type.
  clear. intros _ E Hr Ho Es Hf Hi Hk Hv Hw. rewrite Es in *. destruct (patch_ok k m loc _ Hw Hf) as (w & m' & E1 & E2 & E3 & E4 & _). exists m', (loc + s64 (v - loc)). rewrite E. split; [exact E2|]. split; [exact E4|]. rewrite Hr, !Ho, E1, E3. cbn [mbind outcome_bind]. rewrite Hi, Hk. split; [reflexivity|]. split; [by apply back_to|reflexivity].
Qed.
Lemma relocation_spec : is_u64 v -> reach type (s64 (v - loc)) -> writable m loc (span type) ->
  exists m' t, apply_rela m i symindex relsec n rel j = Ok m' /\ eq_outside loc (span type) m m' /\ refers type m' loc = Ok t /\ u64 t = v /\ opcode type m' loc = opcode type m loc.
Proof using Hloc Hsym Hv Hinfo.
  intros Hu Hr Hw. pose proof apply_unfold as A. inversion Hr as [off Et|off H1 H2 Et|off H1 H2 Et|off H1 H2 Et|off H1 H2 Et|off H Et]; subst off; rewrite <- Et in *; cbn zeta in A.
  - change (span R_RISCV_64) with 8 in *. destruct (store_le_word 8 m loc v Hw) as (m' & E & El & Ho & _). exists m', v. rewrite A. split; [exact E|]. split; [exact Ho|]. unfold refers, opcode. cbn [Z.eqb Pos.eqb R_RISCV_64]. rewrite El. split; [f_equal; apply Z.mod_small; exact Hu|]. split; [by apply u64_small|reflexivity].
  - apply (one_word 4 R_RISCV_JAL rel_jal imm_j 0xfff); try done; intros w; [apply jal_word|by apply jal_imm|apply jal_keeps].
  - apply (one_word 4 R_RISCV_BRANCH rel_branch imm_b 0x1fff07f); try done; intros w; [apply branch_word|by apply branch_imm|apply branch_keeps].
  - apply (one_word 2 R_RISCV_RVC_JUMP rel_rvc_jump imm_cj 0xe003); try done; intros w; [apply rvc_jump_word|by apply rvc_jump_imm|apply rvc_jump_keeps].
  - apply (one_word 2 R_RISCV_RVC_BRANCH rel_rvc_branch imm_cb 0xe383); try done; intros w; [apply rvc_branch_word|by apply rvc_branch_imm|apply rvc_branch_keeps].
  - change (span R_RISCV_CALL) with 8 in *. set (off := s64 (v - loc)) in *. destruct (patch_ok 4 m loc (fun w => rel_hi20 w off)) as (w & m1 & E1 & E2 & E3 & E4 & _); [intros x Hx; apply Hw; lia|intros w; apply hi20_word|].
    destruct (patch_ok 4 m1 (loc + 4) (fun w => rel_call_lo w off)) as (w' & m2 & F1 & F2 & F3 & F4 & _); [intros x Hx; rewrite E4 by lia; apply Hw; lia|intros w'; apply call_lo_word|].
    assert (load_le 4 m2 loc = Ok (rel_hi20 w off)) as G1 by (rewrite <- E3; apply load_le_ext; intros x Hx; apply F4; lia). assert (load_le 4 m (loc + 4) = Ok w') as G2 by (rewrite <- F1; symmetry; apply load_le_ext; intros x Hx; apply E4; lia).
    exists m2, (loc + imm_u (rel_hi20 w off) + imm_i (rel_call_lo w' off)). rewrite A. change (R_RISCV_CALL =? R_RISCV_64) with false. change (R_RISCV_CALL =? R_RISCV_PCREL_HI20) with false. change (R_RISCV_CALL =? R_RISCV_JAL) with false. change (R_RISCV_CALL =? R_RISCV_CALL) with true. cbn iota. rewrite E2. cbn [mbind outcome_bind]. split; [exact F2|]. split; [intros x Hx; rewrite F4, E4 by lia; reflexivity|].
    change (refers R_RISCV_CALL m2 loc) with (w ← load_le 4 m2 loc; w' ← load_le 4 m2 (loc + 4); Ok (loc + imm_u w + imm_i w')). split; [rewrite G1, F3; reflexivity|]. split; [rewrite hi20_imm, call_lo_imm by exact H; replace (loc + hi_part off + (off - hi_part off)) with (loc + off) by lia; by apply back_to|].
    change (opcode R_RISCV_CALL m2 loc) with (w ← load_le 4 m2 loc; w' ← load_le 4 m2 (loc + 4); Ok (Z.land w 0xfff, Z.land w' 0xfffff)). change (opcode R_RISCV_CALL m loc) with (w ← load_le 4 m loc; w' ← load_le 4 m (loc + 4); Ok (Z.land w 0xfff, Z.land w' 0xfffff)). rewrite G1, F3, E1, G2. cbn [mbind outcome_bind]. rewrite hi20_keeps. do 2 f_equal. apply lo12_i_keeps.
Qed.
End Entry.

(** C16: applying a relocation whose target is in reach changes only the bytes of the instruction (or
    address) it is for, and of these only the operand: afterwards the instruction refers to the value of the symbol plus
    the addend.  This holds for addresses, jumps, calls and branches, the compressed ones too. *)
Theorem relocation_exact m i symindex relsec n rel j loc sym v info :
  rela_location m i relsec rel j = Ok loc -> rela_symbol m i symindex rel j = Ok sym -> rela_value m i symindex rel j = Ok v -> get m (rela_entry rel j) r_info = Ok info ->
  is_u64 v -> reach (ELF64_R_TYPE info) (s64 (v - loc)) -> writable m loc (span (ELF64_R_TYPE info)) ->
  exists m' t, apply_rela m i symindex relsec n rel j = Ok m' /\ eq_outside loc (span (ELF64_R_TYPE info)) m m' /\
    refers (ELF64_R_TYPE info) m' loc = Ok t /\ u64 t = v /\ opcode (ELF64_R_TYPE info) m' loc = opcode (ELF64_R_TYPE info) m loc.
Proof. intros. by apply (relocation_spec m i symindex relsec n rel j loc sym v info). Qed.

(** The search of the high part finds the first entry for the address. *)
Lemma find_hi20_first m i symindex relsec rel target loc v : forall n j jh, (Z.to_nat (jh - j) < n)%nat -> j <= jh ->
  (forall q, j <= q < jh -> exists info l, get m (rela_entry rel q) r_info = Ok info /\ rela_location m i relsec rel q = Ok l /\ (l <> target \/ ELF64_R_TYPE info <> R_RISCV_PCREL_HI20)) ->
  (exists info, get m (rela_entry rel jh) r_info = Ok info /\ ELF64_R_TYPE info = R_RISCV_PCREL_HI20) -> rela_location m i relsec rel jh = Ok loc -> loc = target -> rela_value m i symindex rel jh = Ok v ->
  find_hi20 m i symindex relsec n rel j target = Ok (Some (u64 (v - loc))).
Proof.
  induction n as [|n IH]; intros j jh Hn Hj Hq (info & E1 & E2) E3 E4 E5; [lia|]. cbn [find_hi20]. destruct (Z.eq_dec j jh) as [->|Hne].
  - rewrite E1, E3. cbn [mbind outcome_bind]. rewrite E2, (proj2 (Z.eqb_eq loc target) E4). cbn [Z.eqb Pos.eqb R_RISCV_PCREL_HI20 andb]. rewrite E5. reflexivity.
  - destruct (Hq j ltac:(lia)) as (info' & l & F1 & F2 & F3). rewrite F1, F2. cbn [mbind outcome_bind]. replace ((l =? target) && (ELF64_R_TYPE info' =? R_RISCV_PCREL_HI20)) with false by (destruct F3 as [F3|F3]; [rewrite (proj2 (Z.eqb_neq _ _) F3); reflexivity|rewrite (proj2 (Z.eqb_neq _ _) F3), andb_false_r; reflexivity]).
    apply (IH _ jh); try assumption; [lia|lia|intros q Hq'; apply Hq; lia|eauto].
Qed.

(** C40: the two halves of a PC-relative address fit together: the instruction relocated for the high part and the load, address or store
    instruction relocated for the low part that names it add up to the symbol, although the two relocations
    are applied apart from each other. *)
Theorem pcrel_pair_exact m1 m2 i symindex relsec n rel jh jl lh ll symh syml v infoh infol :
  rela_location m1 i relsec rel jh = Ok lh -> rela_symbol m1 i symindex rel jh = Ok symh -> rela_value m1 i symindex rel jh = Ok v -> get m1 (rela_entry rel jh) r_info = Ok infoh ->
  ELF64_R_TYPE infoh = R_RISCV_PCREL_HI20 -> writable m1 lh 4 -> is_u64 v -> word_off (s64 (v - lh)) ->
  rela_location m2 i relsec rel jl = Ok ll -> rela_symbol m2 i symindex rel jl = Ok syml -> (exists vl, rela_value m2 i symindex rel jl = Ok vl) -> get m2 (rela_entry rel jl) r_info = Ok infol ->
  ELF64_R_TYPE infol = R_RISCV_PCREL_LO12_I \/ ELF64_R_TYPE infol = R_RISCV_PCREL_LO12_S -> get m2 syml st_value = Ok lh -> writable m2 ll 4 ->
  0 <= jh < n -> rela_location m2 i relsec rel jh = Ok lh -> rela_value m2 i symindex rel jh = Ok v -> get m2 (rela_entry rel jh) r_info = Ok infoh ->
  (forall q, 0 <= q < jh -> exists info l, get m2 (rela_entry rel q) r_info = Ok info /\ rela_location m2 i relsec rel q = Ok l /\ (l <> lh \/ ELF64_R_TYPE info <> R_RISCV_PCREL_HI20)) ->
  exists m1' m2' wh wl, apply_rela m1 i symindex relsec n rel jh = Ok m1' /\ eq_outside lh 4 m1 m1' /\ load_le 4 m1' lh = Ok wh /\
    apply_rela m2 i symindex relsec n rel jl = Ok m2' /\ eq_outside ll 4 m2 m2' /\ load_le 4 m2' ll = Ok wl /\
    u64 (lh + imm_u wh + (if ELF64_R_TYPE infol =? R_RISCV_PCREL_LO12_I then imm_i wl else imm_s wl)) = v.
Proof.
  intros A1 A2 A3 A4 A5 A6 Hu Hr B1 B2 (vl & B3) B4 B5 B6 B7 C1 C2 C3 C4 C5.
  assert (find_hi20 m2 i symindex relsec (Z.to_nat n) rel 0 lh = Ok (Some (u64 (v - lh)))) as B8 by (apply (find_hi20_first m2 i symindex relsec rel lh lh v _ 0 jh); eauto; lia).
  set (off := s64 (v - lh)) in *. pose proof (hi_part_range off Hr) as (_ & Hlo & _). assert (u64 (v - lh) = u64 off) as Eo. { unfold off, u64, s64. rewrite Zminus_mod_idemp_l. f_equal. lia. }
  destruct (patch_ok 4 m1 lh (fun w => rel_hi20 w off) A6 (fun w => hi20_word w off)) as (w & m1' & _ & E2 & E3 & E4 & _).
  destruct (patch_ok 4 m2 ll (fun w => if ELF64_R_TYPE infol =? R_RISCV_PCREL_LO12_I then rel_lo12_i w (off - hi_part off) else rel_lo12_s w (off - hi_part off)) B7) as (w2 & m2' & _ & F2 & F3 & F4 & _); [intros w2; destruct (_ =? _); [apply lo12_i_word|apply lo12_s_word]|].
  eexists m1', m2', _, _. rewrite (apply_unfold _ _ _ _ _ _ _ _ _ _ _ A1 A2 A3 A4), A5. split; [exact E2|]. split; [exact E4|]. split; [exact E3|]. rewrite (apply_unfold _ _ _ _ _ _ _ _ _ _ _ B1 B2 B3 B4). cbn zeta. rewrite B6. cbn [mbind outcome_bind]. rewrite B8. cbn [mbind outcome_bind]. rewrite Eo, (pcrel_rest off Hr). split; [destruct B5 as [B5|B5]; rewrite B5 in *; exact F2|]. split; [exact F4|]. split; [exact F3|].
  rewrite hi20_imm by exact Hr. replace (if ELF64_R_TYPE infol =? R_RISCV_PCREL_LO12_I then imm_i _ else imm_s _) with (off - hi_part off) by (destruct (_ =? _); [rewrite lo12_i_imm by exact Hlo|rewrite lo12_s_imm by exact Hlo]; reflexivity). replace (lh + hi_part off + (off - hi_part off)) with (lh + off) by lia. by apply back_to.
Qed.

(** ** Witnesses *)

Fixpoint le_bytes (n : nat) (v : Z) : list Z := match n with O => [] | S n => v mod 256 :: le_bytes n (v / 256) end.
Definition bytes_map (l : list (Z * list Z)) : mem := list_to_map (concat (map (fun x => imap (fun k b => (x.1 + Z.of_nat k, b)) x.2) l)).
(** Code at 4096; sections 1 (code), 2 (symbols, at 8192) and 3 (relocations, at 12288); a call, a high and a low part. *)
Definition demo_info : load_info := LoadInfo 0 0 1024 0 0 2 0 0 0 0.
Definition demo_code : list Z := concat (map (le_bytes 4) [0x00000097; 0x000080e7; 0x00000517; 0x00053503]).
Definition demo_syms : list Z := le_bytes 24 0 ++ le_bytes 8 0 ++ le_bytes 8 0x12345678 ++ le_bytes 8 0 ++ le_bytes 8 0 ++ le_bytes 8 4104 ++ le_bytes 8 0.
Definition demo_relas : list Z :=
  le_bytes 8 0 ++ le_bytes 8 (2 ^ 32 + 18) ++ le_bytes 8 0 ++
  le_bytes 8 8 ++ le_bytes 8 (2 ^ 32 + 23) ++ le_bytes 8 16 ++
  le_bytes 8 12 ++ le_bytes 8 (2 * 2 ^ 32 + 24) ++ le_bytes 8 0.
Definition demo_mem : mem := bytes_map
  [(4096, demo_code); (8192, demo_syms); (12288, demo_relas); (1024 + 64 + 16, le_bytes 8 4096); (1024 + 128 + 16, le_bytes 8 8192); (1024 + 192 + 44, le_bytes 4 1)].
Lemma relocation_exact_witness : exists m' t, apply_rela demo_mem demo_info 2 3 3 12288 0 = Ok m' /\ refers 18 m' 4096 = Ok t /\ u64 t = 0x12345678.
Proof.
  destruct (relocation_exact demo_mem demo_info 2 3 3 12288 0 4096 8216 0x12345678 (2 ^ 32 + 18)) as (m' & t & E & _ & H & Hu & _).
  - vm_compute. reflexivity.
  - vm_compute. reflexivity.
  - vm_compute. reflexivity.
  - vm_compute. reflexivity.
  - split; vm_compute; [discriminate|reflexivity].
  - apply reach_call. split; vm_compute; [discriminate|reflexivity].
  - change (span _) with 8. intros x Hx. assert (x = 4096 \/ x = 4097 \/ x = 4098 \/ x = 4099 \/ x = 4100 \/ x = 4101 \/ x = 4102 \/ x = 4103) as D by lia. repeat destruct D as [->|D]; [..|subst x]; eexists; vm_compute; reflexivity.
  - exists m', t. auto.
Defined.
Lemma pcrel_pair_exact_witness : exists m1' m2' wh wl, apply_rela demo_mem demo_info 2 3 3 12288 1 = Ok m1' /\ load_le 4 m1' 4104 = Ok wh /\
  apply_rela demo_mem demo_info 2 3 3 12288 2 = Ok m2' /\ load_le 4 m2' 4108 = Ok wl /\ u64 (4104 + imm_u wh + imm_i wl) = 0x12345688.
Proof.
  destruct (pcrel_pair_exact demo_mem demo_mem demo_info 2 3 3 12288 1 2 4104 4108 8216 8240 0x12345688 (2 ^ 32 + 23) (2 * 2 ^ 32 + 24)) as (m1' & m2' & wh & wl & E1 & _ & E2 & E3 & _ & E4 & E5).
  - vm_compute. reflexivity.
  - vm_compute. reflexivity.
  - vm_compute. reflexivity.
  - vm_compute. reflexivity.
  - reflexivity.
  - intros x Hx. assert (x = 4104 \/ x = 4105 \/ x = 4106 \/ x = 4107) as D by lia. repeat destruct D as [->|D]; [..|subst x]; eexists; vm_compute; reflexivity.
  - split; vm_compute; [discriminate|reflexivity].
  - split; vm_compute; [discriminate|reflexivity].
  - vm_compute. reflexivity.
  - vm_compute. reflexivity.
  - eexists. vm_compute. reflexivity.
  - vm_compute. reflexivity.
  - left. reflexivity.
  - vm_compute. reflexivity.
  - intros x Hx. assert (x = 4108 \/ x = 4109 \/ x = 4110 \/ x = 4111) as D by lia. repeat destruct D as [->|D]; [..|subst x]; eexists; vm_compute; reflexivity.
  - lia.
  - vm_compute. reflexivity.
  - vm_compute. reflexivity.
  - vm_compute. reflexivity.
  - intros q Hq. assert (q = 0) as -> by lia. exists (2 ^ 32 + 18), 4096. split; [vm_compute; reflexivity|]. split; [vm_compute; reflexivity|]. right. discriminate.
  - exists m1', m2', wh, wl. auto.
Defined.
