(* ===== verification/ModLayout.v ===== *)
(** * The layout of a module

    [layout_sections] gives every section that takes memory an aligned place of its own: code first, then
    constants, then data. *)

From Stdlib Require Import ZArith Lia Bool.
From stdpp Require Import base tactics numbers list strings gmap functions.
From S2P Require Import Prelude Words Mem LibString PageTableSpec ModLoad ModReloc.
#[local] Open Scope Z_scope.

Lemma align_u32_eq x k : 0 <= x -> 0 <= k < 32 -> x + 2 ^ k - 1 < 2 ^ 32 -> ALIGN_u32 x (2 ^ k) = _ALIGN x (2 ^ k).
Proof.
  intros Hx Hk Hov. assert (2 ^ k <= 2 ^ 31) as Hp by (apply Z.pow_le_mono_r; lia). pose proof (pow2_pos k). unfold ALIGN_u32, _ALIGN, _ALIGN_MASK, u32, u64. rewrite (Z.mod_small (2 ^ k) (2 ^ 32)) by lia. rewrite (Z.mod_small (2 ^ k - 1) (2 ^ 32)), (Z.mod_small (2 ^ k - 1) (2 ^ 64)) by lia. rewrite (Z.mod_small _ (2 ^ 32)), (Z.mod_small (x + _) (2 ^ 64)) by lia.
  apply Z.bits_inj'. intros b Hb. rewrite !Z.land_spec. destruct (Z.lt_ge_cases b 32) as [Hlt|Hge]; [rewrite !Z.mod_pow2_bits_low by lia; reflexivity|].
  rewrite <- (Z.mod_small (x + (2 ^ k - 1)) (2 ^ 32)) by lia. rewrite Z.mod_pow2_bits_high by lia. reflexivity.
Qed.
Lemma align_u32_least x k : 0 <= x -> 0 <= k < 32 -> x + 2 ^ k - 1 < 2 ^ 32 -> ALIGN_u32 x (2 ^ k) mod 2 ^ k = 0 /\ x <= ALIGN_u32 x (2 ^ k) < x + 2 ^ k.
Proof. intros Hx Hk Hov. rewrite align_u32_eq by lia. apply _ALIGN_least; unfold is_u64; lia. Qed.

(** ** Sums *)

Fixpoint sum_to (n : nat) (f : Z -> Z) : Z := match n with O => 0 | S n => sum_to n f + f (Z.of_nat n) end.
Lemma sum_to_ext n f g : (forall k, 0 <= k < Z.of_nat n -> f k = g k) -> sum_to n f = sum_to n g.
Proof. induction n as [|n IH]; intros H; simpl; [done|]. rewrite IH by (intros; apply H; lia). rewrite H by lia. done. Qed.
Lemma sum_to_change n f g k : 0 <= k < Z.of_nat n -> (forall q, q <> k -> g q = f q) -> sum_to n g = sum_to n f + (g k - f k).
Proof.
  intros Hk H. induction n as [|n IH]; [lia|]. simpl. destruct (Z.eq_dec k (Z.of_nat n)) as [->|Hne]; [rewrite (sum_to_ext n g f) by (intros; apply H; lia); lia|]. rewrite IH by lia. rewrite (H (Z.of_nat n)) by lia. lia.
Qed.
Lemma sum_to_le n f g : (forall k, 0 <= k < Z.of_nat n -> f k <= g k) -> sum_to n f <= sum_to n g.
Proof. induction n as [|n IH]; intros H; simpl; [lia|]. pose proof (H (Z.of_nat n) ltac:(lia)). assert (sum_to n f <= sum_to n g) by (apply IH; intros; apply H; lia). lia. Qed.

(** ** The sections of a module *)

(** What the loader reads of a section. *)
Record section_desc := Section_ { s_flags : Z; s_size : Z; s_align : Z }.
Section Layout.
Context (n : nat) (sec : Z -> section_desc).
Definition align_of (k : Z) : Z := if s_align (sec k) =? 0 then 1 else s_align (sec k).
Definition cost (k : Z) : Z := s_size (sec k) + align_of k.
(** Alignments are powers of two and everything fits an [unsigned int]. *)
Definition sections_ok : Prop :=
  (forall k, 0 <= k < Z.of_nat n -> 0 <= s_size (sec k) /\ exists e, 0 <= e < 32 /\ align_of k = 2 ^ e) /\ sum_to n cost < 2 ^ 32.
Definition wanted (mask : Z * Z) (k : Z) : bool := (Z.land (s_flags (sec k)) mask.1 =? mask.1) && (Z.land (s_flags (sec k)) mask.2 =? 0).
Definition placed (ent : Z -> Z) (k : Z) : Prop := ent k <> ULONG_MAX.
Definition range_in (ent : Z -> Z) (lo hi k : Z) : Prop := lo <= ent k /\ ent k + s_size (sec k) <= hi /\ ent k mod align_of k = 0.
Definition apart (ent : Z -> Z) (k q : Z) : Prop := ent k + s_size (sec k) <= ent q \/ ent q + s_size (sec q) <= ent k.
Definition used (ent : Z -> Z) : Z := sum_to n (fun k => if ent k =? ULONG_MAX then 0 else cost k).
Record laid_out (ent : Z -> Z) (size : Z) : Prop := {
  lo_size : 0 <= size <= used ent;
  lo_range : forall k, 0 <= k < Z.of_nat n -> placed ent k -> range_in ent 0 size k;
  lo_apart : forall k q, 0 <= k < Z.of_nat n -> 0 <= q < Z.of_nat n -> k <> q -> placed ent k -> placed ent q -> apart ent k q }.

(** One step of a pass, without memory. *)
Definition place (mask : Z * Z) (k : Z) (st : (Z -> Z) * Z) : (Z -> Z) * Z :=
  let '(ent, size) := st in
  if wanted mask k && (ent k =? ULONG_MAX) then let off := ALIGN_u32 size (align_of k) in (<[k := off]> ent, u32 (off + s_size (sec k))) else (ent, size).
Fixpoint pass (c : nat) (k : Z) (mask : Z * Z) (st : (Z -> Z) * Z) : (Z -> Z) * Z :=
  match c with O => st | S c => pass c (k + 1) mask (place mask k st) end.

Context (HS : sections_ok).
Lemma cost_nonneg k : 0 <= k < Z.of_nat n -> 0 <= cost k.
Proof using HS. intros Hk. destruct HS as [H _]. destruct (H k Hk) as (H1 & e & He & E). unfold cost. rewrite E. pose proof (pow2_pos e). lia. Qed.
Lemma used_bound ent k : 0 <= k < Z.of_nat n -> ent k = ULONG_MAX -> used ent + cost k < 2 ^ 32.
Proof using HS.
  intros Hk Ek. destruct HS as [_ H]. unfold used. pose proof (sum_to_change n (fun q => if ent q =? ULONG_MAX then 0 else cost q) (fun q => if q =? k then cost k else if ent q =? ULONG_MAX then 0 else cost q) k Hk) as E. cbn beta in E. rewrite Ek, !Z.eqb_refl in E.
  assert (sum_to n (fun q => if q =? k then cost k else if ent q =? ULONG_MAX then 0 else cost q) <= sum_to n cost) as Hle. { apply sum_to_le. intros q Hq. pose proof (cost_nonneg q Hq). destruct (Z.eqb_spec q k) as [->|]; [lia|]. destruct (ent q =? ULONG_MAX); lia. }
  rewrite E in Hle by (intros q Hq; destruct (Z.eqb_spec q k); [contradiction|reflexivity]). lia.
Qed.

(** What a step gives: the old places are kept and the new one is behind them. *)
Record extends (mask : Z * Z) (ent : Z -> Z) (size : Z) (ent' : Z -> Z) (size' : Z) : Prop := {
  ex_laid : laid_out ent' size';
  ex_size : size <= size';
  ex_old : forall k, placed ent k -> ent' k = ent k;
  ex_new : forall k, 0 <= k < Z.of_nat n -> ~ placed ent k -> placed ent' k -> wanted mask k = true /\ size <= ent' k }.
Lemma place_extends mask k ent size : 0 <= k < Z.of_nat n -> laid_out ent size ->
  let '(ent', size') := place mask k (ent, size) in extends mask ent size ent' size' /\ (wanted mask k = true -> placed ent' k).
Proof using HS.
  intros Hk [H1 H2 H3]. unfold place. destruct (wanted mask k) eqn:Ew; cbn [andb]; [|split; [split; [by split|lia|done|intros q _ A B; contradiction]|discriminate]]. destruct (Z.eqb_spec (ent k) ULONG_MAX) as [Ek|Ek]; [|split; [split; [by split|lia|done|intros q _ A B; contradiction]|by intros _]].
  pose proof (used_bound ent k Hk Ek) as Hb. destruct HS as [HA _]. destruct (HA k Hk) as (Hs & e & He & Ea). unfold cost in Hb. rewrite Ea in *. pose proof (pow2_pos e). destruct (align_u32_least size e ltac:(lia) He ltac:(lia)) as [Hm Hr]. set (off := ALIGN_u32 size (2 ^ e)) in *. clearbody off.
  assert (u32 (off + s_size (sec k)) = off + s_size (sec k)) as Eu by (apply Z.mod_small; lia). rewrite Eu. assert (off <> ULONG_MAX) as Hne by (unfold ULONG_MAX; lia).
  assert (forall q, q <> k -> (<[k := off]> ent) q = ent q) as Eo by (intros q Hq; apply fn_lookup_insert_ne; congruence). assert ((<[k := off]> ent) k = off) as En by apply fn_lookup_insert.
  split; [|intros _; unfold placed; rewrite En; exact Hne]. split; [split| | |].
  - split; [lia|]. unfold used. rewrite (sum_to_change n (fun q => if ent q =? ULONG_MAX then 0 else cost q) (fun q => if (<[k := off]> ent) q =? ULONG_MAX then 0 else cost q) k Hk) by (intros q Hq; rewrite Eo by exact Hq; reflexivity). rewrite En, Ek, Z.eqb_refl, (proj2 (Z.eqb_neq _ _) Hne). unfold used in H1. unfold cost at 2. rewrite Ea. lia.
  - intros q Hq Hp. unfold range_in, placed in *. destruct (Z.eq_dec q k) as [->|Hqk]; [rewrite En, Ea; split; [lia|split; [lia|exact Hm]]|]. rewrite Eo in * by exact Hqk. destruct (H2 q Hq Hp) as (A & B & C). split; [lia|]. split; [lia|exact C].
  - intros p q Hp Hq Hpq Pp Pq. unfold apart, placed in *. destruct (Z.eq_dec p k) as [->|Hpk].
    + rewrite En. rewrite Eo in * by congruence. destruct (H2 q Hq Pq) as (A & B & _). right. lia.
    + rewrite (Eo p) in * by exact Hpk. destruct (Z.eq_dec q k) as [->|Hqk]; [rewrite En; destruct (H2 p Hp Pp) as (A & B & _); left; lia|]. rewrite Eo in * by exact Hqk. by apply H3.
  - lia.
  - intros q Hp. apply Eo. intros ->. contradiction.
  - intros q Hq Hn Hp. unfold placed in *. destruct (Z.eq_dec q k) as [->|Hqk]; [rewrite En; split; [exact Ew|lia]|]. rewrite Eo in Hp by exact Hqk. contradiction.
Qed.
Lemma extends_trans mask e0 s0 e1 s1 e2 s2 : extends mask e0 s0 e1 s1 -> extends mask e1 s1 e2 s2 -> extends mask e0 s0 e2 s2.
Proof using Type.
  intros A B. destruct A as [_ A2 A3 A4]. destruct B as [B1 B2 B3 B4]. split; [exact B1|lia| |].
  - intros k Hp. rewrite B3; [by apply A3|]. unfold placed in *. rewrite A3 by exact Hp. exact Hp.
  - intros k Hk Hn Hp. destruct (Z.eq_dec (e1 k) ULONG_MAX) as [E|E]; [destruct (B4 k Hk (fun H => H E) Hp) as [H1 H2]; split; [exact H1|lia]|]. destruct (A4 k Hk Hn E) as [H1 H2]. rewrite B3 by exact E. auto.
Qed.
Lemma pass_extends mask c : forall k ent size, 0 <= k -> k + Z.of_nat c = Z.of_nat n -> laid_out ent size ->
  let '(ent', size') := pass c k mask (ent, size) in extends mask ent size ent' size' /\ forall q, k <= q < Z.of_nat n -> wanted mask q = true -> placed ent' q.
Proof using HS.
  induction c as [|c IH]; intros k ent size Hk Hc HL; cbn [pass].
  - split; [split; [exact HL|lia|done|intros q _ A B; contradiction]|intros; lia].
  - pose proof (place_extends mask k ent size ltac:(lia) HL) as Hp. destruct (place mask k (ent, size)) as [e1 s1]. destruct Hp as [E1 W1]. specialize (IH (k + 1) e1 s1 ltac:(lia) ltac:(lia) (ex_laid _ _ _ _ _ E1)). destruct (pass c (k + 1) mask (e1, s1)) as [e2 s2]. destruct IH as [E2 W2].
    split; [exact (extends_trans _ _ _ _ _ _ _ E1 E2)|]. intros q Hq Hw. destruct (Z.eq_dec q k) as [->|]; [|apply W2; [lia|exact Hw]]. unfold placed. rewrite (ex_old _ _ _ _ _ E2) by (by apply W1). by apply W1.
Qed.
End Layout.

(** ** The headers in memory *)

Record header (m : mem) (s : Z) (d : section_desc) : Prop := {
  h_map : writable m s SIZEOF_SHDR;
  h_flags : get m s sh_flags = Ok (s_flags d);
  h_size : get m s sh_size = Ok (s_size d);
  h_align : get m s sh_addralign = Ok (s_align d) }.
Definition headers (m : mem) (i : load_info) (n : nat) (sec : Z -> section_desc) : Prop := forall k, 0 <= k < Z.of_nat n -> header m (sechdr i k) (sec k).
Definition table (m : mem) (i : load_info) (n : nat) (sec : Z -> section_desc) (ent : Z -> Z) : Prop :=
  headers m i n sec /\ forall k, 0 <= k < Z.of_nat n -> get m (sechdr i k) sh_entsize = Ok (ent k).

Lemma get_ext m m' p (f : field) : (forall x, p + f.1 <= x < p + f.1 + Z.of_nat f.2 -> m' !! x = m !! x) -> get m' p f = get m p f.
Proof. intros H. apply load_le_ext. exact H. Qed.
Lemma header_ext m m' s d : (forall x, s <= x < s + 56 -> m' !! x = m !! x) -> writable m' s SIZEOF_SHDR -> header m s d -> header m' s d.
Proof. intros E Hw [_ H1 H2 H3]. split; [exact Hw| | |]; [rewrite <- H1|rewrite <- H2|rewrite <- H3]; apply get_ext; intros x Hx; apply E; cbn in Hx; lia. Qed.
Lemma put_entsize m i n sec ent k v : table m i n sec ent -> 0 <= k < Z.of_nat n -> 0 <= v < 2 ^ 64 ->
  exists m', put m (sechdr i k) sh_entsize v = Ok m' /\ table m' i n sec (<[k := v]> ent) /\ eq_outside (li_sechdrs i) (SIZEOF_SHDR * Z.of_nat n) m m'.
Proof.
  intros [HH HE] Hk Hv. pose proof (HH k Hk) as Hh. destruct (store_le_word 8 m (sechdr i k + 56) v) as (m' & E & El & Ho & Hw). { intros x Hx. apply (h_map _ _ _ Hh). unfold SIZEOF_SHDR. lia. }
  exists m'. split; [exact E|]. assert (forall x, is_Some (m !! x) -> is_Some (m' !! x)) as Hk'. { intros x Hx. destruct (decide (sechdr i k + 56 <= x < sechdr i k + 56 + Z.of_nat 8)) as [D|D]; [by apply Hw|by rewrite Ho]. }
  unfold sechdr, SIZEOF_SHDR in *. split; [split|].
  - intros q Hq. apply (header_ext m); [|intros x Hx; apply Hk', (h_map _ _ _ (HH q Hq)); exact Hx|by apply HH]. intros x Hx. apply Ho. intros D. change (Z.of_nat 8) with 8 in D. unfold sechdr, SIZEOF_SHDR in *. assert (q = k \/ q < k \/ k < q) as [->|[L|L]] by lia; lia.
  - intros q Hq. destruct (Z.eq_dec q k) as [->|Hne]; [rewrite fn_lookup_insert; change (load_le 8 m' (li_sechdrs i + 64 * k + 56) = Ok v); rewrite El; f_equal; by apply Z.mod_small|]. rewrite fn_lookup_insert_ne by congruence. rewrite <- (HE q Hq). apply get_ext. intros x Hx. apply Ho. cbn [sh_entsize fst snd] in Hx. change (Z.of_nat 8) with 8 in *. unfold sechdr, SIZEOF_SHDR in *. lia.
  - intros x Hx. apply Ho. change (Z.of_nat 8) with 8. lia.
Qed.

Section Refine.
Context (i : load_info) (n : nat) (sec : Z -> section_desc).
Notation region := (eq_outside (li_sechdrs i) (SIZEOF_SHDR * Z.of_nat n)).
Lemma u32_land_range a b : 0 <= Z.land (u32 a) b < 2 ^ 64.
Proof using Type. pose proof (Z.mod_pos_bound a (2 ^ 32) ltac:(lia)) as H. fold (u32 a) in H. assert (0 <= Z.land (u32 a) b) by (apply Z.land_nonneg; lia). split; [lia|]. assert (Z.land (u32 a) b = Z.land (u32 a) b mod 2 ^ 32) as ->; [|pose proof (Z.mod_pos_bound (Z.land (u32 a) b) (2 ^ 32) ltac:(lia)); lia]. rewrite <- Z.land_ones by lia. rewrite <- Z.land_assoc, (Z.land_comm b), Z.land_assoc, Z.land_ones by lia. f_equal. symmetry. apply Z.mod_small. exact H. Qed.
Lemma layout_section_place mask k m ent size : 0 <= k < Z.of_nat n -> table m i n sec ent ->
  exists m', layout_section mask (sechdr i k) (m, size) = Ok (m', (place sec mask k (ent, size)).2) /\ table m' i n sec (place sec mask k (ent, size)).1 /\ region m m'.
Proof using Type.
  intros Hk HT. pose proof HT as [HH HE]. destruct (HH k Hk) as [_ H1 H2 H3]. unfold layout_section, place, wanted. rewrite H1, (HE k Hk). cbn [mbind outcome_bind].
  destruct (Z.land (s_flags (sec k)) mask.1 =? mask.1); cbn [negb orb andb]; [|exists m; split; [reflexivity|split; [exact HT|reflexivity]]]. destruct (Z.land (s_flags (sec k)) mask.2 =? 0); cbn [negb orb andb]; [|exists m; split; [reflexivity|split; [exact HT|reflexivity]]]. destruct (ent k =? ULONG_MAX); cbn [negb]; [|exists m; split; [reflexivity|split; [exact HT|reflexivity]]].
  unfold get_offset. rewrite H3. cbn [mbind outcome_bind]. rewrite H2. cbn [mbind outcome_bind]. fold (align_of sec k). destruct (put_entsize m i n sec ent k (ALIGN_u32 size (align_of sec k)) HT Hk (u32_land_range _ _)) as (m' & E & HT' & Ho). rewrite E. cbn [mbind outcome_bind]. exists m'. auto.
Qed.
Lemma layout_pass_pass mask c : forall k m ent size, 0 <= k -> k + Z.of_nat c = Z.of_nat n -> table m i n sec ent ->
  exists m', over c k (fun k => layout_section mask (sechdr i k)) (m, size) = Ok (m', (pass sec c k mask (ent, size)).2) /\ table m' i n sec (pass sec c k mask (ent, size)).1 /\ region m m'.
Proof using Type.
  induction c as [|c IH]; intros k m ent size Hk Hc HT; cbn [over pass]; [exists m; split; [reflexivity|split; [exact HT|reflexivity]]|].
  destruct (layout_section_place mask k m ent size ltac:(lia) HT) as (m1 & E & HT1 & R1). rewrite E. cbn [mbind outcome_bind]. destruct (place sec mask k (ent, size)) as [e1 s1]. destruct (IH (k + 1) m1 e1 s1 ltac:(lia) ltac:(lia) HT1) as (m2 & E2 & HT2 & R2). exists m2. split; [exact E2|]. split; [exact HT2|]. etransitivity; eassumption.
Qed.
Lemma clear_entsize c : forall k m ent, 0 <= k -> k + Z.of_nat c = Z.of_nat n -> table m i n sec ent -> (forall q, 0 <= q < k -> ent q = ULONG_MAX) ->
  exists m' ent', over c k (fun k m => put m (sechdr i k) sh_entsize ULONG_MAX) m = Ok m' /\ table m' i n sec ent' /\ (forall q, 0 <= q < Z.of_nat n -> ent' q = ULONG_MAX) /\ region m m'.
Proof using Type.
  induction c as [|c IH]; intros k m ent Hk Hc HT Hq; cbn [over]; [exists m, ent; split; [reflexivity|]; split; [exact HT|]; split; [intros q H; apply Hq; lia|reflexivity]|].
  destruct (put_entsize m i n sec ent k ULONG_MAX HT ltac:(lia) ltac:(unfold ULONG_MAX; lia)) as (m1 & E & HT1 & R1). rewrite E. cbn [mbind outcome_bind]. destruct (IH (k + 1) m1 _ ltac:(lia) ltac:(lia) HT1) as (m2 & e2 & E2 & HT2 & H2 & R2).
  - intros q H. destruct (Z.eq_dec q k) as [->|]; [apply fn_lookup_insert|]. rewrite fn_lookup_insert_ne by congruence. apply Hq. lia.
  - exists m2, e2. split; [exact E2|]. split; [exact HT2|]. split; [exact H2|]. etransitivity; eassumption.
Qed.
End Refine.

(** ** The result *)

Definition has (d : section_desc) (f : Z) : bool := negb (Z.land (s_flags d) f =? 0).
Lemma bit_has x b : 0 <= b -> negb (Z.land x (2 ^ b) =? 0) = Z.testbit x b.
Proof.
  intros Hb. destruct (Z.testbit x b) eqn:E.
  - apply negb_true_iff, Z.eqb_neq. intros H. assert (Z.testbit (Z.land x (2 ^ b)) b = false) as F by (rewrite H; apply Z.bits_0). rewrite Z.land_spec, Z.pow2_bits_true, E in F by lia. discriminate F.
  - apply negb_false_iff, Z.eqb_eq. apply Z.bits_inj'. intros k Hk. rewrite Z.land_spec, Z.bits_0. destruct (Z.eq_dec k b) as [->|]; [rewrite E; reflexivity|]. rewrite Z.pow2_bits_false by congruence. apply andb_false_r.
Qed.
Lemma has_alloc d : has d SHF_ALLOC = Z.testbit (s_flags d) 1.
Proof. apply (bit_has _ 1). lia. Qed.
Lemma has_write d : has d SHF_WRITE = Z.testbit (s_flags d) 0.
Proof. apply (bit_has _ 0). lia. Qed.
Lemma has_exec d : has d SHF_EXECINSTR = Z.testbit (s_flags d) 2.
Proof. apply (bit_has _ 2). lia. Qed.
Lemma land_full x m : (Z.land x m =? m) = true <-> forall k, 0 <= k -> Z.testbit m k = true -> Z.testbit x k = true.
Proof.
  rewrite Z.eqb_eq. split.
  - intros E k Hk Hm. rewrite <- E, Z.land_spec in Hm. apply andb_prop in Hm. tauto.
  - intros H. apply Z.bits_inj'. intros k Hk. rewrite Z.land_spec. destruct (Z.testbit m k) eqn:E; [|apply andb_false_r]. rewrite (H k Hk E). reflexivity.
Qed.
Lemma wanted_text sec k : wanted sec (Z.lor SHF_EXECINSTR SHF_ALLOC, 0) k = has (sec k) SHF_EXECINSTR && has (sec k) SHF_ALLOC.
Proof.
  unfold wanted. cbn [fst snd]. rewrite Z.land_0_r, Z.eqb_refl, andb_true_r, has_exec, has_alloc. apply eq_true_iff_eq. rewrite land_full, andb_true_iff. split.
  - intros H. split; apply H; reflexivity || lia.
  - intros [H2 H1] b Hb Hm. assert (b = 1 \/ b = 2) as [->| ->]; [|assumption|assumption]. destruct (Z.lt_ge_cases b 3) as [L|L]; [assert (b = 0 \/ b = 1 \/ b = 2) as [->|[->| ->]] by lia; [discriminate Hm|auto|auto]|]. exfalso. change (Z.lor SHF_EXECINSTR SHF_ALLOC) with (6 mod 2 ^ 3) in Hm. rewrite Z.mod_pow2_bits_high in Hm by lia. discriminate Hm.
Qed.
Lemma wanted_ro sec k : wanted sec (SHF_ALLOC, SHF_WRITE) k = has (sec k) SHF_ALLOC && negb (has (sec k) SHF_WRITE).
Proof.
  unfold wanted, has. cbn [fst snd]. rewrite negb_involutive. f_equal. apply eq_true_iff_eq. rewrite land_full. change (negb (Z.land (s_flags (sec k)) SHF_ALLOC =? 0)) with (has (sec k) SHF_ALLOC). rewrite has_alloc. split; [intros H; apply H; [lia|reflexivity]|].
  intros H b Hb Hm. assert (b = 1) as ->; [|exact H]. destruct (Z.lt_ge_cases b 2) as [L|L]; [assert (b = 0 \/ b = 1) as [->| ->] by lia; [discriminate Hm|reflexivity]|]. exfalso. change SHF_ALLOC with (2 mod 2 ^ 2) in Hm. rewrite Z.mod_pow2_bits_high in Hm by lia. discriminate Hm.
Qed.
Lemma wanted_rw sec k : wanted sec (Z.lor SHF_WRITE SHF_ALLOC, 0) k = has (sec k) SHF_WRITE && has (sec k) SHF_ALLOC.
Proof.
  unfold wanted. cbn [fst snd]. rewrite Z.land_0_r, Z.eqb_refl, andb_true_r, has_write, has_alloc. apply eq_true_iff_eq. rewrite land_full, andb_true_iff. split.
  - intros H. split; apply H; reflexivity || lia.
  - intros [H2 H1] b Hb Hm. destruct (Z.lt_ge_cases b 2) as [L|L]; [assert (b = 0 \/ b = 1) as [->| ->] by lia; assumption|]. exfalso. change (Z.lor SHF_WRITE SHF_ALLOC) with (3 mod 2 ^ 2) in Hm. rewrite Z.mod_pow2_bits_high in Hm by lia. discriminate Hm.
Qed.
Lemma wanted_all sec k : wanted sec (SHF_ALLOC, 0) k = true -> has (sec k) SHF_ALLOC = true.
Proof. unfold wanted. cbn [fst snd]. rewrite andb_true_iff, land_full, has_alloc. intros [H _]. apply H; [lia|reflexivity]. Qed.

(** Where the sections are: [ent] gives the offsets. *)
Record layout_ok (n : nat) (sec : Z -> section_desc) (ent : Z -> Z) (text ro size : Z) : Prop := {
  ly_order : 0 <= text <= ro /\ ro <= size < 2 ^ 32;
  ly_none : forall k, 0 <= k < Z.of_nat n -> has (sec k) SHF_ALLOC = false -> ent k = ULONG_MAX;
  ly_range : forall k, 0 <= k < Z.of_nat n -> has (sec k) SHF_ALLOC = true -> range_in sec ent 0 size k;
  ly_apart : forall k q, 0 <= k < Z.of_nat n -> 0 <= q < Z.of_nat n -> k <> q -> has (sec k) SHF_ALLOC = true -> has (sec q) SHF_ALLOC = true -> apart sec ent k q;
  ly_text : forall k, 0 <= k < Z.of_nat n -> has (sec k) SHF_ALLOC = true ->
    if has (sec k) SHF_EXECINSTR then range_in sec ent 0 text k else if has (sec k) SHF_WRITE then range_in sec ent ro size k else range_in sec ent text ro k }.

Lemma used_all n sec ent : sections_ok n sec -> used n sec ent < 2 ^ 32.
Proof. intros HS. pose proof (cost_nonneg n sec HS) as Hc. destruct HS as [_ H]. unfold used. assert (sum_to n (fun k => if ent k =? ULONG_MAX then 0 else cost sec k) <= sum_to n (cost sec)); [|lia]. apply sum_to_le. intros k Hk. pose proof (Hc k Hk). destruct (ent k =? ULONG_MAX); lia. Qed.
Lemma laid_out_none n sec ent : (forall q, 0 <= q < Z.of_nat n -> ent q = ULONG_MAX) -> laid_out n sec ent 0.
Proof. intros H. assert (used n sec ent = sum_to n (fun _ => 0)) as E by (apply sum_to_ext; intros k Hk; rewrite H, Z.eqb_refl by lia; reflexivity). assert (sum_to n (fun _ => 0) = 0) as E0 by (clear; induction n; simpl; lia). split; [lia| |]; intros k; [intros Hk Hp|intros q Hk _ _ Hp]; exfalso; apply Hp, H, Hk. Qed.
Lemma range_keep sec e e' lo lo' hi hi' k : range_in sec e lo hi k -> e' k = e k -> lo' <= e k -> hi <= hi' -> range_in sec e' lo' hi' k.
Proof. unfold range_in. intros (A & B & C) -> H1 H2. split; [lia|]. split; [lia|exact C]. Qed.

(** The four passes one after another. *)
Lemma passes_ok n sec e0 : sections_ok n sec -> (forall q, 0 <= q < Z.of_nat n -> e0 q = ULONG_MAX) ->
  let '(e1, text) := pass sec n 0 (Z.lor SHF_EXECINSTR SHF_ALLOC, 0) (e0, 0) in
  let '(e2, ro) := pass sec n 0 (SHF_ALLOC, SHF_WRITE) (e1, text) in
  let '(e3, rw) := pass sec n 0 (Z.lor SHF_WRITE SHF_ALLOC, 0) (e2, ro) in
  let '(e4, size) := pass sec n 0 (SHF_ALLOC, 0) (e3, rw) in
  layout_ok n sec e4 text ro size.
Proof.
  intros HS H0. pose proof (pass_extends n sec HS (Z.lor SHF_EXECINSTR SHF_ALLOC, 0) n 0 e0 0 ltac:(lia) ltac:(lia) (laid_out_none n sec e0 H0)) as P1. destruct (pass sec n 0 _ (e0, 0)) as [e1 text]. destruct P1 as [X1 W1].
  pose proof (pass_extends n sec HS (SHF_ALLOC, SHF_WRITE) n 0 e1 text ltac:(lia) ltac:(lia) (ex_laid _ _ _ _ _ _ _ X1)) as P2. destruct (pass sec n 0 _ (e1, text)) as [e2 ro]. destruct P2 as [X2 W2].
  pose proof (pass_extends n sec HS (Z.lor SHF_WRITE SHF_ALLOC, 0) n 0 e2 ro ltac:(lia) ltac:(lia) (ex_laid _ _ _ _ _ _ _ X2)) as P3. destruct (pass sec n 0 _ (e2, ro)) as [e3 rw]. destruct P3 as [X3 W3].
  pose proof (pass_extends n sec HS (SHF_ALLOC, 0) n 0 e3 rw ltac:(lia) ltac:(lia) (ex_laid _ _ _ _ _ _ _ X3)) as P4. destruct (pass sec n 0 _ (e3, rw)) as [e4 size]. destruct P4 as [X4 _].
  destruct X1 as [L1 S1 O1 N1], X2 as [L2 S2 O2 N2], X3 as [L3 S3 O3 N3], X4 as [L4 S4 O4 N4]. setoid_rewrite wanted_text in W1. setoid_rewrite wanted_text in N1. setoid_rewrite wanted_ro in W2. setoid_rewrite wanted_ro in N2. setoid_rewrite wanted_rw in W3. setoid_rewrite wanted_rw in N3.
  assert (forall k, placed e1 k -> e4 k = e1 k) as K1. { intros k Hp. unfold placed in *. rewrite O4, O3, O2; try done; rewrite ?O3, ?O2; try done; rewrite ?O2; done. }
  assert (forall k, placed e2 k -> e4 k = e2 k) as K2. { intros k Hp. unfold placed in *. rewrite O4, O3; try done; rewrite ?O3; done. }
  assert (forall k, placed e3 k -> e4 k = e3 k) as K3 by exact O4.
  assert (forall k, 0 <= k < Z.of_nat n -> has (sec k) SHF_ALLOC = true -> if has (sec k) SHF_EXECINSTR then placed e1 k else if has (sec k) SHF_WRITE then ~ placed e1 k /\ ~ placed e2 k /\ placed e3 k else ~ placed e1 k /\ placed e2 k) as Cl.
  { intros k Hk Ha. destruct (has (sec k) SHF_EXECINSTR) eqn:Ex; [apply W1; [exact Hk|by rewrite Ex, Ha]|]. assert (~ placed e1 k) as U1 by (intros Hp; destruct (N1 k Hk (fun H => H (H0 k Hk)) Hp) as [B _]; rewrite Ex in B; discriminate B).
    destruct (has (sec k) SHF_WRITE) eqn:Ew; [|split; [exact U1|]; apply W2; [exact Hk|by rewrite Ha, Ew]]. split; [exact U1|]. split; [intros Hp; destruct (N2 k Hk U1 Hp) as [B _]; rewrite Ew, andb_false_r in B; discriminate B|]. apply W3; [exact Hk|by rewrite Ew, Ha]. }
  assert (forall k, 0 <= k < Z.of_nat n -> has (sec k) SHF_ALLOC = true -> placed e4 k) as A4. { intros k Hk Ha. specialize (Cl k Hk Ha). unfold placed in *. destruct (has (sec k) SHF_EXECINSTR); [by rewrite K1|]. destruct (has (sec k) SHF_WRITE); [destruct Cl as (_ & _ & Cl); by rewrite K3|destruct Cl as [_ Cl]; by rewrite K2]. }
  split.
  - pose proof (lo_size _ _ _ _ L4). pose proof (used_all n sec e4 HS). lia.
  - intros k Hk Ha. destruct (Z.eq_dec (e4 k) ULONG_MAX) as [E|E]; [exact E|]. exfalso. destruct (Z.eq_dec (e3 k) ULONG_MAX) as [E3|E3]; [destruct (N4 k Hk (fun H => H E3) E) as [B _]; apply wanted_all in B; congruence|]. destruct (Z.eq_dec (e2 k) ULONG_MAX) as [E2|E2]; [destruct (N3 k Hk (fun H => H E2) E3) as [B _]; rewrite Ha, andb_false_r in B; discriminate B|]. destruct (Z.eq_dec (e1 k) ULONG_MAX) as [E1|E1]; [destruct (N2 k Hk (fun H => H E1) E2) as [B _]; rewrite Ha in B; discriminate B|]. destruct (N1 k Hk (fun H => H (H0 k Hk)) E1) as [B _]. rewrite Ha, andb_false_r in B. discriminate B.
  - intros k Hk Ha. by apply (lo_range _ _ _ _ L4), A4.
  - intros k q Hk Hq Hkq Ha Hb. apply (lo_apart _ _ _ _ L4); auto.
  - intros k Hk Ha. specialize (Cl k Hk Ha). destruct (has (sec k) SHF_EXECINSTR).
    + apply (range_keep sec e1 e4 0 0 text text k); [by apply (lo_range _ _ _ _ L1)|by apply K1| |lia]. by apply (lo_range _ _ _ _ L1).
    + destruct (has (sec k) SHF_WRITE).
      * destruct Cl as (_ & U2 & P3). apply (range_keep sec e3 e4 0 ro rw size k); [by apply (lo_range _ _ _ _ L3)|by apply K3|by apply (N3 k Hk U2 P3)|lia].
      * destruct Cl as (U1 & P2). apply (range_keep sec e2 e4 0 text ro ro k); [by apply (lo_range _ _ _ _ L2)|by apply K2|by apply (N2 k Hk U1 P2)|lia].
Qed.

(** C17: [layout_sections] gives every section of a module that takes memory an offset that is a multiple of its
    alignment, no two of them overlapping: code first, up to [text_size], then what is not written, up to [ro_size], then the
    rest, up to [size]; sections that take no memory are left out, and only the headers change. *)
Theorem layout_exact m i n sec : get m (li_hdr i) e_shnum = Ok (Z.of_nat n) -> li_size i = 0 -> headers m i n sec -> sections_ok n sec ->
  exists m' ent text ro size, layout_sections m i = Ok (m', set_layout i size text ro) /\ layout_ok n sec ent text ro size /\
    table m' i n sec ent /\ eq_outside (li_sechdrs i) (SIZEOF_SHDR * Z.of_nat n) m m'.
Proof.
  intros En Es HH HS. assert (exists ent, table m i n sec ent) as [ent HT].
  { exists (fun k => match get m (sechdr i k) sh_entsize with Ok v => v | _ => 0 end). split; [exact HH|]. intros k Hk. destruct (load_mapped 8 m (sechdr i k + 56)) as [v Ev]; [intros x Hx; apply (h_map _ _ _ (HH k Hk)); unfold SIZEOF_SHDR; lia|]. change (get m (sechdr i k) sh_entsize) with (load_le 8 m (sechdr i k + 56)). rewrite Ev. reflexivity. }
  unfold layout_sections, layout_pass. rewrite En. cbn [mbind outcome_bind]. rewrite Nat2Z.id, Es. destruct (clear_entsize i n sec n 0 m ent ltac:(lia) ltac:(lia) HT ltac:(lia)) as (m0 & e0 & -> & T0 & Z0 & R0). cbn [mbind outcome_bind].
  pose proof (passes_ok n sec e0 HS Z0) as PK. destruct (layout_pass_pass i n sec (Z.lor SHF_EXECINSTR SHF_ALLOC, 0) n 0 m0 e0 0 ltac:(lia) ltac:(lia) T0) as (m1 & -> & T1 & R1). destruct (pass sec n 0 _ (e0, 0)) as [e1 text]. cbn [mbind outcome_bind fst snd] in *.
  destruct (layout_pass_pass i n sec (SHF_ALLOC, SHF_WRITE) n 0 m1 e1 text ltac:(lia) ltac:(lia) T1) as (m2 & -> & T2 & R2). destruct (pass sec n 0 _ (e1, text)) as [e2 ro]. cbn [mbind outcome_bind fst snd] in *.
  destruct (layout_pass_pass i n sec (Z.lor SHF_WRITE SHF_ALLOC, 0) n 0 m2 e2 ro ltac:(lia) ltac:(lia) T2) as (m3 & -> & T3 & R3). destruct (pass sec n 0 _ (e2, ro)) as [e3 rw]. cbn [mbind outcome_bind fst snd] in *.
  destruct (layout_pass_pass i n sec (SHF_ALLOC, 0) n 0 m3 e3 rw ltac:(lia) ltac:(lia) T3) as (m4 & -> & T4 & R4). destruct (pass sec n 0 _ (e3, rw)) as [e4 size]. cbn [mbind outcome_bind fst snd] in *.
  exists m4, e4, text, ro, size. split; [reflexivity|]. split; [exact PK|]. split; [exact T4|]. etransitivity; [exact R0|]. etransitivity; [exact R1|]. etransitivity; [exact R2|]. etransitivity; [exact R3|exact R4].
Qed.

(** ** A witness *)

(** Four sections: nothing, data, code and constants. *)
Definition demo_sec (k : Z) : section_desc :=
  if k =? 1 then Section_ 3 10 8 else if k =? 2 then Section_ 6 100 4 else if k =? 3 then Section_ 2 7 16 else Section_ 0 0 0.
Definition demo_header (k : Z) : list Z :=
  le_bytes 8 0 ++ le_bytes 8 (s_flags (demo_sec k)) ++ le_bytes 16 0 ++ le_bytes 8 (s_size (demo_sec k)) ++ le_bytes 8 0 ++ le_bytes 8 (s_align (demo_sec k)) ++ le_bytes 8 0.
Definition layout_mem : mem := bytes_map [(60, le_bytes 2 4); (1024, demo_header 0 ++ demo_header 1 ++ demo_header 2 ++ demo_header 3)].
Lemma layout_exact_witness : exists m' ent text ro size, layout_sections layout_mem demo_info = Ok (m', set_layout demo_info size text ro) /\ layout_ok 4 demo_sec ent text ro size.
Proof.
  destruct (layout_exact layout_mem demo_info 4 demo_sec) as (m' & ent & text & ro & size & E & H & _).
  - vm_compute. reflexivity.
  - reflexivity.
  - intros k Hk. assert (k = 0 \/ k = 1 \/ k = 2 \/ k = 3) as D by lia. assert (writable layout_mem 1024 256) as W.
    { intros x Hx. assert (Forall (fun y => is_Some (layout_mem !! (1024 + y))) (seqZ 0 256)) as F by (apply (bool_decide_eq_true_1 _); vm_compute; reflexivity). rewrite Forall_forall in F. replace x with (1024 + (x - 1024)) by lia. apply F, list_elem_of_In, elem_of_seqZ. lia. }
    split; [intros x Hx; apply W; unfold sechdr, SIZEOF_SHDR in Hx; cbn [li_sechdrs demo_info] in Hx; lia| | |]; repeat destruct D as [->|D]; try subst k; vm_compute; reflexivity.
  - split; [|vm_compute; reflexivity]. intros k Hk. assert (k = 0 \/ k = 1 \/ k = 2 \/ k = 3) as D by lia. repeat destruct D as [->|D]; try subst k; (split; [vm_compute; discriminate|]); [exists 0|exists 3|exists 2|exists 4]; split; try reflexivity; lia.
  - exists m', ent, text, ro, size. auto.
Defined.
