(* ===== verification/ModImage.v ===== *)
(** * The image of a module

    [move_module] copies the sections of a module to the places the layout gave them: the memory of the module holds
    the bytes of the file, and zeros where a section has none. *)

From Stdlib Require Import ZArith Lia Bool.
From stdpp Require Import base tactics numbers list strings gmap functions.
From S2P Require Import Prelude Words Mem LibString OfBuild PageTableSpec ModLoad ModReloc ModLayout.
#[local] Open Scope Z_scope.

Section Image.
Context (i : load_info) (n : nat) (sec : Z -> section_desc) (ent : Z -> Z) (text ro size addr : Z) (ty src : Z -> Z) (m0 : mem).
Notation alloc k := (has (sec k) SHF_ALLOC).
Notation len k := (s_size (sec k)).
Definition in_table (x : Z) : Prop := li_sechdrs i <= x < li_sechdrs i + SIZEOF_SHDR * Z.of_nat n.
Definition in_image (x : Z) : Prop := addr <= x < addr + size.
(** What the loader relies on: headers, sources and target are mapped and apart from each other. *)
Record source_ok : Prop := {
  so_layout : layout_ok n sec ent text ro size;
  so_sizes : sections_ok n sec;
  so_table : table m0 i n sec ent;
  so_type : forall k, 0 <= k < Z.of_nat n -> get m0 (sechdr i k) sh_type = Ok (ty k);
  so_src : forall k, 0 <= k < Z.of_nat n -> get m0 (sechdr i k) sh_addr = Ok (src k);
  so_count : get m0 (li_hdr i) e_shnum = Ok (Z.of_nat n);
  so_count_apart : forall x, li_hdr i + 60 <= x < li_hdr i + 62 -> ~ in_image x;
  so_addr : 0 <= addr /\ addr + size < 2 ^ 64;
  so_image : writable m0 addr size;
  so_apart : forall x, in_table x -> ~ in_image x;
  so_bytes : forall k x, 0 <= k < Z.of_nat n -> alloc k = true -> ty k <> SHT_NOBITS -> src k <= x < src k + len k ->
    (exists b, m0 !! x = Some b /\ byte_ok b) /\ ~ in_table x /\ ~ in_image x }.
(** Byte [x] of section [k]. *)
Definition content (k x : Z) : option Z := if ty k =? SHT_NOBITS then Some 0 else m0 !! (src k + x).
Record moved (k : Z) (m : mem) : Prop := {
  mv_frame : forall x, ~ in_table x -> ~ in_image x -> m !! x = m0 !! x;
  mv_header : forall q x, 0 <= q < Z.of_nat n -> sechdr i q <= x < sechdr i q + SIZEOF_SHDR -> ~ (sechdr i q + 16 <= x < sechdr i q + 24) \/ k <= q -> m !! x = m0 !! x;
  mv_addr : forall q, 0 <= q < Z.of_nat n -> q < k -> alloc q = true -> get m (sechdr i q) sh_addr = Ok (addr + ent q);
  mv_done : forall q x, 0 <= q < Z.of_nat n -> q < k -> alloc q = true -> 0 <= x < len q -> m !! (addr + ent q + x) = content q x;
  mv_zero : forall q x, 0 <= q < Z.of_nat n -> k <= q -> alloc q = true -> 0 <= x < len q -> m !! (addr + ent q + x) = Some 0;
  mv_map : forall x, in_table x \/ in_image x -> is_Some (m !! x) }.
Context (H : source_ok).

Lemma sechdr_table q x : 0 <= q < Z.of_nat n -> sechdr i q <= x < sechdr i q + SIZEOF_SHDR -> in_table x.
Proof using Type. unfold in_table, sechdr, SIZEOF_SHDR. lia. Qed.
Lemma section_image q x : 0 <= q < Z.of_nat n -> alloc q = true -> 0 <= x < len q -> in_image (addr + ent q + x).
Proof using H. intros Hq Ha Hx. destruct (ly_range _ _ _ _ _ _ (so_layout H) q Hq Ha) as (A & B & _). unfold in_image. lia. Qed.
Lemma get_moved m k q (f : field) : moved k m -> 0 <= q < Z.of_nat n -> 0 <= f.1 -> f.1 + Z.of_nat f.2 <= 64 -> (f.1 + Z.of_nat f.2 <= 16 \/ 24 <= f.1) \/ k <= q -> get m (sechdr i q) f = get m0 (sechdr i q) f.
Proof using Type. intros M Hq H1 H2 Hd. apply get_ext. intros x Hx. apply (mv_header _ _ M q); [exact Hq|unfold SIZEOF_SHDR; lia|]. destruct Hd as [Hd|Hd]; [left; lia|right; exact Hd]. Qed.

(** The header gets the new address. *)
Lemma put_addr k m m1 : 0 <= k < Z.of_nat n -> alloc k = true -> moved k m -> eq_outside (addr + ent k) (len k) m m1 ->
  (forall x, 0 <= x < len k -> m1 !! (addr + ent k + x) = content k x) -> (forall x, is_Some (m !! x) -> is_Some (m1 !! x)) ->
  exists m2, put m1 (sechdr i k) sh_addr (addr + ent k) = Ok m2 /\ moved (k + 1) m2.
Proof using H.
  intros Hk Ha M Ho Hc Hs. destruct (ly_range _ _ _ _ _ _ (so_layout H) k Hk Ha) as (A & B & _). pose proof (so_addr H) as Had. pose proof (ly_order _ _ _ _ _ _ (so_layout H)) as Hord. destruct (so_sizes H) as [Hsz _]. pose proof (proj1 (Hsz k Hk)) as Hlen.
  assert (forall x, in_table x -> m1 !! x = m !! x) as T1. { intros x Hx. apply Ho. intros Hin. apply (so_apart H x Hx). unfold in_image. lia. }
  destruct (store_le_word 8 m1 (sechdr i k + 16) (addr + ent k)) as (m2 & E & El & Ho2 & Hw2). { intros x Hx. apply Hs, (mv_map _ _ M). left. apply (sechdr_table k); [exact Hk|unfold SIZEOF_SHDR; lia]. }
  change (Z.of_nat 8) with 8 in *. exists m2. split; [exact E|]. assert (forall x, ~ in_table x -> m2 !! x = m1 !! x) as N2. { intros x Hx. apply Ho2. intros Hin. apply Hx, (sechdr_table k); [exact Hk|unfold SIZEOF_SHDR; lia]. }
  assert (forall q x, 0 <= q < Z.of_nat n -> alloc q = true -> 0 <= x < len q -> m2 !! (addr + ent q + x) = m1 !! (addr + ent q + x)) as I2. { intros q x Hq Hqa Hx. apply N2. intros Ht. by apply (so_apart H _ Ht), section_image. }
  split.
  - intros x H1 H2. rewrite N2 by exact H1. rewrite Ho; [by apply (mv_frame _ _ M)|]. intros Hin. apply H2. unfold in_image. lia.
  - intros q x Hq Hx Hd. rewrite <- (mv_header _ _ M q x Hq Hx); [|destruct Hd; [left; assumption|right; lia]]. rewrite <- T1 by (by apply (sechdr_table q)). apply Ho2. unfold sechdr, SIZEOF_SHDR in *. intros Hin. destruct Hd as [Hd|Hd]; [|lia]. apply Hd. assert (q = k) as -> by lia. lia.
  - intros q Hq Hqk Hqa. destruct (Z.eq_dec q k) as [->|Hne]; [change (load_le 8 m2 (sechdr i k + 16) = Ok (addr + ent k)); rewrite El; f_equal; apply Z.mod_small; lia|]. rewrite <- (mv_addr _ _ M q Hq ltac:(lia) Hqa). apply get_ext. intros x Hx. cbn [sh_addr fst snd] in Hx. change (Z.of_nat 8) with 8 in Hx. rewrite <- (T1 x) by (apply (sechdr_table q); [exact Hq|unfold SIZEOF_SHDR; lia]). apply Ho2. unfold sechdr, SIZEOF_SHDR in *. lia.
  - intros q x Hq Hqk Hqa Hx. rewrite I2 by assumption. destruct (Z.eq_dec q k) as [->|Hne]; [by apply Hc|]. rewrite <- (mv_done _ _ M q x Hq ltac:(lia) Hqa Hx). apply Ho. destruct (ly_apart _ _ _ _ _ _ (so_layout H) q k Hq Hk Hne Hqa Ha); lia.
  - intros q x Hq Hqk Hqa Hx. rewrite I2 by assumption. rewrite <- (mv_zero _ _ M q x Hq ltac:(lia) Hqa Hx). apply Ho. destruct (ly_apart _ _ _ _ _ _ (so_layout H) q k Hq Hk ltac:(lia) Hqa Ha); lia.
  - intros x Hx. destruct (decide (sechdr i k + 16 <= x < sechdr i k + 16 + 8)) as [D|D]; [by apply Hw2|]. rewrite Ho2 by exact D. apply Hs, (mv_map _ _ M), Hx.
Qed.
Lemma moved_skip k m : 0 <= k < Z.of_nat n -> alloc k = false -> moved k m -> moved (k + 1) m.
Proof using Type.
  intros Hk Ha [M1 M2 M3 M4 M5 M6]. split; [exact M1| | | | |exact M6].
  - intros q x Hq Hx Hd. apply (M2 q x Hq Hx). destruct Hd; [left; assumption|right; lia].
  - intros q Hq Hqk Hqa. destruct (Z.eq_dec q k) as [->|]; [congruence|]. apply M3; [exact Hq|lia|exact Hqa].
  - intros q x Hq Hqk Hqa. destruct (Z.eq_dec q k) as [->|]; [congruence|]. apply M4; [exact Hq|lia|exact Hqa].
  - intros q x Hq Hqk Hqa. apply M5; [exact Hq|lia|exact Hqa].
Qed.
Lemma move_section_ok k m : 0 <= k < Z.of_nat n -> moved k m -> exists m', move_section addr (sechdr i k) m = Ok m' /\ moved (k + 1) m'.
Proof using H.
  intros Hk M. destruct (so_table H) as [HH HE]. destruct (HH k Hk) as [_ H1 H2 _]. unfold move_section. rewrite (get_moved m k k sh_flags M Hk ltac:(cbn; lia) ltac:(cbn; lia) ltac:(right; lia)), H1. cbn [mbind outcome_bind].
  destruct (alloc k) eqn:Ha.
  2:{ pose proof Ha as Hf. unfold has in Hf. apply negb_false_iff in Hf. rewrite Hf. exists m. split; [reflexivity|by apply moved_skip]. }
  pose proof Ha as Ha'. unfold has in Ha'. apply negb_true_iff in Ha'. rewrite Ha'. rewrite (get_moved m k k sh_entsize M Hk ltac:(cbn; lia) ltac:(cbn; lia) ltac:(right; lia)), (HE k Hk). cbn [mbind outcome_bind]. rewrite (get_moved m k k sh_type M Hk ltac:(cbn; lia) ltac:(cbn; lia) ltac:(right; lia)), (so_type H k Hk). cbn [mbind outcome_bind].
  destruct (ly_range _ _ _ _ _ _ (so_layout H) k Hk Ha) as (A & B & _). pose proof (so_addr H) as Had. pose proof (ly_order _ _ _ _ _ _ (so_layout H)) as Hord. destruct (so_sizes H) as [Hsz _]. pose proof (proj1 (Hsz k Hk)) as Hlen. assert (u64 (addr + ent k) = addr + ent k) as -> by (apply Z.mod_small; lia).
  destruct (Z.eqb_spec (ty k) SHT_NOBITS) as [Et|Et]; cbn [negb].
  - cbn [mbind outcome_bind]. apply (put_addr k m m); try assumption; [reflexivity|intros x Hx; unfold content; rewrite (proj2 (Z.eqb_eq _ _) Et); apply (mv_zero _ _ M k x Hk ltac:(lia) Ha Hx)|done].
  - rewrite (get_moved m k k sh_addr M Hk ltac:(cbn; lia) ltac:(cbn; lia) ltac:(right; lia)), (so_src H k Hk). cbn [mbind outcome_bind]. rewrite (get_moved m k k sh_size M Hk ltac:(cbn; lia) ltac:(cbn; lia) ltac:(right; lia)), H2. cbn [mbind outcome_bind].
    assert (forall x, src k <= x < src k + len k -> m !! x = m0 !! x) as Es. { intros x Hx. destruct (so_bytes H k x Hk Ha Et Hx) as (_ & N1 & N2). by apply (mv_frame _ _ M). }
    destruct (Z.eq_dec (len k) 0) as [E0|E0].
    { rewrite E0. cbn [mbind outcome_bind memcpy Z.to_nat]. change (copy_up (Z.to_nat 0) m (addr + ent k) (src k)) with (Ok m : outcome mem). cbn [mbind outcome_bind]. apply (put_addr k m m); try assumption; [intros x _; reflexivity|intros x Hx; lia|done]. }
    destruct (memcpy_region m (addr + ent k) (src k) (len k)) as (m1 & E & Hc & Ho); [lia|intros x Hx; rewrite Es by exact Hx; apply (so_bytes H k x Hk Ha Et Hx)|intros x Hx; apply (mv_map _ _ M); right; unfold in_image; lia| |].
    { destruct (Z.le_gt_cases (src k + len k) (addr + ent k)) as [L|L]; [left; exact L|]. destruct (Z.le_gt_cases (addr + ent k + len k) (src k)) as [L2|L2]; [right; exact L2|]. exfalso. destruct (so_bytes H k (Z.max (src k) (addr + ent k)) Hk Ha Et ltac:(lia)) as (_ & _ & N). apply N. unfold in_image. lia. }
    rewrite E. cbn [mbind outcome_bind]. apply (put_addr k m m1); try assumption.
    + intros x Hx. unfold content. rewrite (proj2 (Z.eqb_neq _ _) Et), Hc, Es by lia. reflexivity.
    + intros x Hx. destruct (decide (addr + ent k <= x < addr + ent k + len k)) as [D|D]; [|by rewrite Ho]. replace x with (addr + ent k + (x - (addr + ent k))) by lia. rewrite Hc, Es by lia. destruct (so_bytes H k (src k + (x - (addr + ent k))) Hk Ha Et ltac:(lia)) as ((b & Eb & _) & _). rewrite Eb. eauto.
Qed.
Lemma move_loop c : forall k m, 0 <= k -> k + Z.of_nat c = Z.of_nat n -> moved k m -> exists m', over c k (fun k => move_section addr (sechdr i k)) m = Ok m' /\ moved (Z.of_nat n) m'.
Proof using H.
  induction c as [|c IH]; intros k m Hk Hc M; cbn [over]; [exists m; split; [reflexivity|]; replace (Z.of_nat n) with k by lia; exact M|]. destruct (move_section_ok k m ltac:(lia) M) as (m1 & E & M1). rewrite E. cbn [mbind outcome_bind]. apply IH; [lia|lia|exact M1].
Qed.
End Image.

(** C18: [move_module] builds the image of a laid-out module: every section that takes memory is at its offset from the start and
    holds the bytes of the file, or zeros when the file has none for it; its header has its new
    address, and nothing but the headers and the image changes. *)
Theorem image_exact i n sec ent text ro size addr ty src m : source_ok i n sec ent text ro size addr ty src m -> li_size i = size ->
  exists m', move_module m addr i = Ok m' /\
    (forall k, 0 <= k < Z.of_nat n -> has (sec k) SHF_ALLOC = true -> get m' (sechdr i k) sh_addr = Ok (addr + ent k)) /\
    (forall k x, 0 <= k < Z.of_nat n -> has (sec k) SHF_ALLOC = true -> 0 <= x < s_size (sec k) -> m' !! (addr + ent k + x) = content ty src m k x) /\
    (forall x, ~ in_table i n x -> ~ in_image size addr x -> m' !! x = m !! x).
Proof.
  intros H Es. destruct (so_layout _ _ _ _ _ _ _ _ _ _ _ H) as [Hord _ Hr _ _]. unfold move_module. rewrite Es. unfold memset. assert (Z.of_nat (Z.to_nat size) = size) as Ez by lia.
  destruct (memset_ok (Z.to_nat size) 0 m addr) as (m1 & -> & Hz & Ho); [rewrite Ez; apply (so_image _ _ _ _ _ _ _ _ _ _ _ H)|]. rewrite Ez in Hz, Ho. cbn [mbind outcome_bind].
  rewrite (get_ext m m1 (li_hdr i) e_shnum), (so_count _ _ _ _ _ _ _ _ _ _ _ H) by (intros x Hx; apply Ho, (so_count_apart _ _ _ _ _ _ _ _ _ _ _ H); cbn in Hx; lia). cbn [mbind outcome_bind]. rewrite Nat2Z.id.
  destruct (move_loop i n sec ent text ro size addr ty src m H n 0 m1) as (m' & E & M); [lia|lia| |exists m'; split; [exact E|]; split; [|split]].
  - split; [intros x _ Hx; apply Ho, Hx| |lia|lia| |].
    + intros q x Hq Hx _. apply Ho, (so_apart _ _ _ _ _ _ _ _ _ _ _ H), (sechdr_table i n q x Hq Hx).
    + intros q x Hq _ Ha Hx. apply Hz. destruct (Hr q Hq Ha) as (A & B & _). lia.
    + intros x Hx. destruct (decide (addr <= x < addr + size)) as [D|D]; [rewrite Hz by exact D; eauto|]. rewrite Ho by exact D. destruct Hx as [Hx|Hx]; [|elim D; exact Hx]. destruct (so_table _ _ _ _ _ _ _ _ _ _ _ H) as [HH _]. unfold in_table, SIZEOF_SHDR in Hx. pose proof (Z.div_mod (x - li_sechdrs i) 64 ltac:(lia)). pose proof (Z.mod_pos_bound (x - li_sechdrs i) 64 ltac:(lia)).
      apply (h_map _ _ _ (HH ((x - li_sechdrs i) / 64) ltac:(lia))). unfold sechdr, SIZEOF_SHDR. lia.
  - intros k Hk Ha. apply (mv_addr _ _ _ _ _ _ _ _ _ _ _ M k Hk ltac:(lia) Ha).
  - intros k x Hk Ha Hx. apply (mv_done _ _ _ _ _ _ _ _ _ _ _ M k x Hk ltac:(lia) Ha Hx).
  - apply (mv_frame _ _ _ _ _ _ _ _ _ _ _ M).
Qed.

(** ** A witness *)

(** The sections of [demo_sec] laid out: data without bytes in the file, code at 2048 and constants at 3072. *)
Definition image_ty (k : Z) : Z := if k =? 1 then SHT_NOBITS else if k =? 0 then 0 else 1.
Definition image_src (k : Z) : Z := if k =? 2 then 2048 else if k =? 3 then 3072 else 0.
Definition image_ent (k : Z) : Z := if k =? 1 then 120 else if k =? 2 then 0 else if k =? 3 then 112 else ULONG_MAX.
Definition image_header (k : Z) : list Z :=
  le_bytes 4 0 ++ le_bytes 4 (image_ty k) ++ le_bytes 8 (s_flags (demo_sec k)) ++ le_bytes 8 (image_src k) ++ le_bytes 8 0 ++ le_bytes 8 (s_size (demo_sec k)) ++ le_bytes 8 0 ++ le_bytes 8 (s_align (demo_sec k)) ++ le_bytes 8 (image_ent k).
Definition image_mem : mem := bytes_map
  [(60, le_bytes 2 4); (1024, image_header 0 ++ image_header 1 ++ image_header 2 ++ image_header 3); (2048, seqZ 1 100); (3072, seqZ 101 7); (8192, replicate 130 255)].
Definition image_info : load_info := set_layout demo_info 130 100 119.
Ltac four k Hk := let D := fresh in assert (k = 0 \/ k = 1 \/ k = 2 \/ k = 3) as D by lia; clear Hk; destruct D as [->|[->|[->| ->]]].
Lemma mapped_range (m : mem) p n : forallb (fun y => match m !! (p + y) with Some b => (0 <=? b) && (b <? 256) | None => false end) (seqZ 0 n) = true -> forall x, p <= x < p + n -> exists b, m !! x = Some b /\ byte_ok b.
Proof. intros F x Hx. rewrite forallb_forall in F. specialize (F (x - p)). replace (p + (x - p)) with x in F by lia. destruct (m !! x) as [b|]; [exists b; split; [reflexivity|]; unfold byte_ok; specialize (F ltac:(apply list_elem_of_In, elem_of_seqZ; lia)); lia|]. specialize (F ltac:(apply list_elem_of_In, elem_of_seqZ; lia)). discriminate F. Qed.
Lemma image_layout : layout_ok 4 demo_sec image_ent 100 119 130.
Proof.
  split; [lia| | | |].
  - intros k Hk; four k Hk; vm_compute; congruence.
  - intros k Hk; four k Hk; intros Ha; vm_compute in Ha; try discriminate Ha; (split; [|split]; vm_compute; [discriminate|discriminate|reflexivity]).
  - intros k q Hk Hq; four k Hk; four q Hq; intros Hkq Ha Hb; vm_compute in Ha, Hb; try discriminate; try (elim Hkq; reflexivity); vm_compute; first [left; discriminate|right; discriminate].
  - intros k Hk; four k Hk; intros Ha; vm_compute in Ha; try discriminate Ha; (split; [|split]; vm_compute; [discriminate|discriminate|reflexivity]).
Qed.
Lemma image_source : source_ok image_info 4 demo_sec image_ent 100 119 130 8192 image_ty image_src image_mem.
Proof.
  assert (forall x, 1024 <= x < 1024 + 256 -> exists b, image_mem !! x = Some b /\ byte_ok b) as W by (apply mapped_range; vm_compute; reflexivity).
  split.
  - exact image_layout.
  - split; [|vm_compute; reflexivity]. intros k Hk; four k Hk; (split; [vm_compute; discriminate|]); [exists 0|exists 3|exists 2|exists 4]; split; try reflexivity; lia.
  - split; [|intros k Hk; four k Hk; vm_compute; reflexivity]. intros k Hk. split; [intros x Hx; unfold sechdr, SIZEOF_SHDR in Hx; cbn [li_sechdrs image_info demo_info set_layout] in Hx; destruct (W x ltac:(lia)) as (b & E & _); eauto| | |]; four k Hk; vm_compute; reflexivity.
  - intros k Hk; four k Hk; vm_compute; reflexivity.
  - intros k Hk; four k Hk; vm_compute; reflexivity.
  - vm_compute. reflexivity.
  - intros x Hx. cbn in Hx. unfold in_image. lia.
  - lia.
  - intros x Hx. destruct (mapped_range image_mem 8192 130 ltac:(vm_compute; reflexivity) x Hx) as (b & E & _). eauto.
  - intros x. unfold in_table, in_image. cbn [li_sechdrs image_info demo_info set_layout]. unfold SIZEOF_SHDR. lia.
  - intros k x Hk; four k Hk; intros Ha Ht Hx; vm_compute in Ha; try discriminate Ha; [elim Ht; reflexivity| |];
      (change (image_src _) with 2048 in Hx || change (image_src _) with 3072 in Hx); (change (s_size _) with 100 in Hx || change (s_size _) with 7 in Hx);
      (split; [|unfold in_table, in_image, SIZEOF_SHDR; cbn [li_sechdrs image_info demo_info set_layout]; lia]); revert x Hx; apply mapped_range; vm_compute; reflexivity.
Qed.
Lemma image_exact_witness : exists m', move_module image_mem 8192 image_info = Ok m' /\ get m' (sechdr image_info 2) sh_addr = Ok 8192 /\ m' !! 8304 = Some 101 /\ m' !! 8312 = Some 0.
Proof.
  destruct (image_exact image_info 4 demo_sec image_ent 100 119 130 8192 image_ty image_src image_mem image_source eq_refl) as (m' & E & Ha & Hc & _).
  exists m'. split; [exact E|]. split; [apply (Ha 2); [lia|reflexivity]|]. split; [etransitivity; [apply (Hc 3 0); [lia|reflexivity|change (0 <= 0 < 7); lia]|]|etransitivity; [apply (Hc 1 0); [lia|reflexivity|change (0 <= 0 < 10); lia]|]]; vm_compute; reflexivity.
Defined.
