(* ===== verification/Vmap.v ===== *)
(** * vma/vma.c: virtual memory areas of the kernel

    Free and used ranges of kernel addresses are areas in memory ([HeapLogic]), each kind in a red-black tree and a
    list ordered by address.  An area is named by its address; its tree node and its list node lie [off_va_rb] and
    [off_va_list] bytes further.  The nodes of the free tree carry the size of the largest area of their subtree, kept by the callbacks of
    [RbAugment].  The structures that the slab caches hand out are arguments, 0 when there is none. *)

From Stdlib Require Import ZArith Lia.
From stdpp Require Import base tactics numbers list strings gmap.
From iris.proofmode Require Import proofmode.
From S2P Require Import Prelude Words HeapLogic KList RbTree RbAugment.
#[local] Open Scope Z_scope.

(** ** Structures *)

Definition off_va_end : Z := 8.
Definition off_va_rb : Z := 16.
Definition off_va_list : Z := 40.
(** The union of [subtree_max_size] and [vm]. *)
Definition off_max_size : Z := 56.
Definition off_va_vm : Z := 56.
Definition off_area_size : Z := 8.
Definition off_area_flags : Z := 16.
Definition VM_IOREMAP : Z := 0x1.
Definition IOREMAP_MAX_ORDER : Z := 7 + PAGE_SHIFT.
Definition PAGE_OFFSET : Z := 0xffffffe000000000.
Definition KERN_VIRT_SIZE : Z := u64 (- PAGE_OFFSET).
Definition VMALLOC_SIZE : Z := Z.shiftr KERN_VIRT_SIZE 1.
Definition VMALLOC_END : Z := u64 (PAGE_OFFSET - 1).
Definition VMALLOC_START : Z := u64 (PAGE_OFFSET - VMALLOC_SIZE).

(** The addresses of the variables of the file. *)
Record vmap_vars := VmapVars { free_vmap_area_root : Z; free_vmap_area_list : Z; vmap_area_root : Z; vmap_area_list : Z }.

Definition va_entry (node : Z) : Z := node - off_va_rb.
Definition va_size (va : Z) : prog Z := e ← ld (va + off_va_end); s ← ld va; mret (u64 (e - s)).
Definition augment_cb_rotate (old new : Z) : prog unit := augment_rotate off_va_rb off_max_size va_size old new.
Definition augment_cb_copy (old new : Z) : prog unit := augment_copy off_va_rb off_max_size old new.
Definition augment_cb_propagate (f : nat) (rb stop : Z) : prog unit := propagate off_va_rb off_max_size va_size f rb stop.
Definition get_subtree_max_size (node : Z) : prog Z := if node =? 0 then mret 0 else ld (va_entry node + off_max_size).

(** ** Search *)

Definition start_in (s align vstart : Z) : Z := if vstart <? s then _ALIGN s align else _ALIGN vstart align.
Definition is_within_this_va (va size align vstart : Z) : prog bool :=
  s ← ld va;
  let nva_start_addr := start_in s align vstart in
  if (u64 (nva_start_addr + size) <? nva_start_addr) || (nva_start_addr <? vstart) then mret false
  else e ← ld (va + off_va_end); mret (u64 (nva_start_addr + size) <=? e).
(** The way back up: an area, or the node to go on with. *)
Fixpoint lowest_up (f : nat) (size align vstart length node : Z) : prog (Z + Z) :=
  match f with
  | O => no_fuel
  | S f =>
      node ← rb_parent node;
      if node =? 0 then mret (inr 0)
      else
        let va := va_entry node in
        b ← is_within_this_va va size align vstart;
        if (b : bool) then mret (inl va)
        else
          r ← rb_right node;
          max ← get_subtree_max_size r;
          s ← (if length <=? max then ld va else mret 0);
          if (length <=? max) && (vstart <=? s) then mret (inr r) else lowest_up f size align vstart length node
  end.
Fixpoint lowest_loop (f : nat) (size align vstart length node : Z) : prog Z :=
  match f with
  | O => no_fuel
  | S f =>
      let va := va_entry node in
      l ← rb_left node;
      max ← get_subtree_max_size l;
      s ← (if length <=? max then ld va else mret 0);
      if (length <=? max) && (vstart <? s) then lowest_loop f size align vstart length l
      else
        b ← is_within_this_va va size align vstart;
        if (b : bool) then mret va
        else
          r ← rb_right node;
          max ← get_subtree_max_size r;
          if length <=? max then lowest_loop f size align vstart length r
          else
            u ← lowest_up f size align vstart length node;
            match u with inl va => mret va | inr node => lowest_loop f size align vstart length node end
  end.
Definition find_vmap_lowest_match (f : nat) (V : vmap_vars) (size align vstart : Z) : prog Z :=
  node ← ld (free_vmap_area_root V);
  lowest_loop f size align vstart (u64 (u64 (size + align) - 1)) node.

(** ** Insertion and removal *)

Definition RB_EMPTY_NODE (node : Z) : prog bool := pc ← parent_color node; mret (pc =? node).
Definition RB_CLEAR_NODE (node : Z) : prog unit := st node node.
Definition unlink_va (f : nat) (V : vmap_vars) (va root : Z) : prog unit :=
  b ← RB_EMPTY_NODE (va + off_va_rb);
  (if (b : bool) then st_panic "BUG" else mret tt);;
  (if root =? free_vmap_area_root V
   then rb_erase_augmented augment_cb_rotate augment_cb_copy (augment_cb_propagate f) f (va + off_va_rb) root
   else rb_erase f (va + off_va_rb) root);;
  list_del (va + off_va_list);;
  RB_CLEAR_NODE (va + off_va_rb).
Definition augment_tree_propagate_from (f : nat) (va : Z) : prog unit := augment_cb_propagate f (va + off_va_rb) 0.

(** The link to set and the parent; [node] is what the link holds, which is not empty. *)
Fixpoint va_links_loop (f : nat) (s e node : Z) : prog (Z * Z) :=
  match f with
  | O => no_fuel
  | S f =>
      let tmp_va := va_entry node in
      ts ← ld tmp_va;
      te ← ld (tmp_va + off_va_end);
      if (s <? te) && (e <=? ts) then
        n ← rb_left node; if n =? 0 then mret (node + off_left, node) else va_links_loop f s e n
      else if (ts <? e) && (te <=? s) then
        n ← rb_right node; if n =? 0 then mret (node + off_right, node) else va_links_loop f s e n
      else st_panic "vmalloc bug"
  end.
Definition find_va_links (f : nat) (va root from : Z) : prog (Z * Z) :=
  s ← ld va;
  e ← ld (va + off_va_end);
  if negb (root =? 0) then
    n ← ld root;
    if n =? 0 then mret (root, 0) else va_links_loop f s e n
  else va_links_loop f s e from.
Definition link_va (f : nat) (V : vmap_vars) (va root parent link head : Z) : prog unit :=
  head ← (if negb (parent =? 0) then
            let head := va_entry parent + off_va_list in
            if negb (parent + off_right =? link) then ld (list_prev head) else mret head
          else mret head);
  rb_link_node (va + off_va_rb) parent link;;
  (if root =? free_vmap_area_root V then
     rb_insert_augmented augment_cb_rotate f (va + off_va_rb) root;;
     st (va + off_max_size) 0
   else rb_insert_color f (va + off_va_rb) root);;
  list_add (va + off_va_list) head.
Definition insert_vmap_area_augment (f : nat) (V : vmap_vars) (va from root head : Z) : prog unit :=
  '(link, parent) ← (if negb (from =? 0) then find_va_links f va 0 from else find_va_links f va root 0);
  link_va f V va root parent link head;;
  augment_tree_propagate_from f va.
Definition insert_vmap_area (f : nat) (V : vmap_vars) (va root head : Z) : prog unit :=
  '(link, parent) ← find_va_links f va root 0;
  link_va f V va root parent link head.

(** ** Allocation *)

Inductive fit_type := NOTHING_FIT | FL_FIT_TYPE | LE_FIT_TYPE | RE_FIT_TYPE | NE_FIT_TYPE.
Definition classify_va_fit_type (va nva_start_addr size : Z) : prog fit_type :=
  s ← ld va;
  e ← ld (va + off_va_end);
  if (nva_start_addr <? s) || (e <? u64 (nva_start_addr + size)) then mret NOTHING_FIT
  else if s =? nva_start_addr then mret (if e =? u64 (nva_start_addr + size) then FL_FIT_TYPE else LE_FIT_TYPE)
  else if e =? u64 (nva_start_addr + size) then mret RE_FIT_TYPE
  else mret NE_FIT_TYPE.
(** [fresh] is the area the cache hands out for the remainder. *)
Definition adjust_va_to_fit_type (f : nat) (V : vmap_vars) (fresh va nva_start_addr size : Z) (type : fit_type) : prog Z :=
  match type with
  | FL_FIT_TYPE => unlink_va f V va (free_vmap_area_root V);; mret 0
  | LE_FIT_TYPE =>
      s ← ld va; st va (u64 (s + size));;
      augment_tree_propagate_from f va;; mret 0
  | RE_FIT_TYPE =>
      st (va + off_va_end) nva_start_addr;;
      augment_tree_propagate_from f va;; mret 0
  | NE_FIT_TYPE =>
      if fresh =? 0 then mret (- 1)
      else
        s ← ld va;
        st fresh s;;
        st (fresh + off_va_end) nva_start_addr;;
        st va (u64 (nva_start_addr + size));;
        augment_tree_propagate_from f va;;
        insert_vmap_area_augment f V fresh (va + off_va_rb) (free_vmap_area_root V) (free_vmap_area_list V);;
        mret 0
  | NOTHING_FIT => mret (- 1)
  end.
Definition __alloc_vmap_area (f : nat) (V : vmap_vars) (fresh size align vstart vend : Z) : prog Z :=
  va ← find_vmap_lowest_match f V size align vstart;
  if va =? 0 then mret vend
  else
    s ← ld va;
    let nva_start_addr := start_in s align vstart in
    if vend <? u64 (nva_start_addr + size) then mret vend
    else
      type ← classify_va_fit_type va nva_start_addr size;
      match type with
      | NOTHING_FIT => st_panic "BUG"
      | _ =>
          r ← adjust_va_to_fit_type f V fresh va nva_start_addr size type;
          mret (if negb (r =? 0) then vend else nva_start_addr)
      end.
(** [va] is the area for the new range, [fresh] one for a remainder. *)
Definition alloc_vmap_area (f : nat) (V : vmap_vars) (vmap_initialized : bool) (va fresh size align vstart vend : Z) : prog Z :=
  if negb vmap_initialized then mret (u64 (- EBUSY))
  else if va =? 0 then mret (u64 (- ENOMEM))
  else
    addr ← __alloc_vmap_area f V fresh size align vstart vend;
    if addr =? vend then st_panic "overflow!"
    else
      st va addr;;
      st (va + off_va_end) (u64 (addr + size));;
      st (va + off_va_vm) 0;;
      insert_vmap_area f V va (vmap_area_root V) (vmap_area_list V);;
      s ← ld va;
      e ← ld (va + off_va_end);
      if negb (IS_ALIGNED s align) || (s <? vstart) || (vend <? e) then st_panic "BUG"
      else mret va.

Definition setup_vmalloc_vm_locked (vm va flags : Z) : prog unit :=
  st (vm + off_area_flags) flags;;
  s ← ld va; st vm s;;
  e ← ld (va + off_va_end); s ← ld va; st (vm + off_area_size) (u64 (e - s));;
  st (va + off_va_vm) vm.
Definition setup_vmalloc_vm (vm va flags : Z) : prog unit := setup_vmalloc_vm_locked vm va flags.
Definition ioremap_align (size : Z) : Z :=
  (1 <<u Z.min (Z.max (get_count_order_long size) PAGE_SHIFT) IOREMAP_MAX_ORDER)%W.
(** [area] is the zeroed structure for the description. *)
Definition __get_vm_area_node (f : nat) (V : vmap_vars) (vmap_initialized : bool) (area va fresh size align flags start end_ : Z) : prog Z :=
  let size := PAGE_ALIGN size in
  if size =? 0 then mret 0
  else
    let align := if negb (Z.land flags VM_IOREMAP =? 0) then ioremap_align size else align in
    if area =? 0 then mret 0
    else
      va ← alloc_vmap_area f V vmap_initialized va fresh size align start end_;
      if IS_ERR_VALUE va then mret 0
      else setup_vmalloc_vm area va flags;; mret area.
Definition get_vm_area (f : nat) (V : vmap_vars) (vmap_initialized : bool) (area va fresh size flags : Z) : prog Z :=
  __get_vm_area_node f V vmap_initialized area va fresh size 1 flags VMALLOC_START VMALLOC_END.

(** [free] is the area for the whole space. *)
Definition vmap_init_free_space (f : nat) (V : vmap_vars) (free : Z) : prog unit :=
  if free =? 0 then st_panic "bad cache for vmap_area!"
  else
    st free 1;;
    st (free + off_va_end) ULONG_MAX;;
    insert_vmap_area_augment f V free 0 (free_vmap_area_root V) (free_vmap_area_list V).
