(* ===== verification/VmapSpec.v ===== *)
(** * Virtual memory areas of the kernel: search and allocation

    [free_space V l] says that memory holds the free areas [l] in order of address: a red-black tree whose nodes
    carry the largest size of their subtree, and a list.  [busy_space V l] says the same of the areas in use.  The theorems are
    proved in the logic of [HeapLogic] on top of the contracts of trees and lists. *)

From Stdlib Require Import ZArith Lia.
From stdpp Require Import base tactics numbers list strings gmap sorting functions.
From iris.proofmode Require Import proofmode.
From S2P Require Import Prelude Words HeapLogic KList RbTree RbTreeProofs RbTreeSpec RbAugment RbAugErase Vmap.
#[local] Open Scope Z_scope.

(** ** Areas in memory *)

Record area := Area { v_a : Z; v_s : Z; v_e : Z }.
Definition vnode (a : area) : Z := v_a a + off_va_rb.
Definition vlist (a : area) : Z := v_a a + off_va_list.
Definition vnodes (l : list area) : list Z := vnode <$> l.
Definition vlists (l : list area) : list Z := vlist <$> l.
Definition range_at (a : area) : hprop := (v_a a ↦ v_s a ∗ (v_a a + off_va_end) ↦ v_e a)%I.
Definition ranges (l : list area) : hprop := ([∗ list] a ∈ l, range_at a)%I.
Definition sz (a : area) : Z := v_e a - v_s a.
Fixpoint size_at (l : list area) (n : Z) : Z := match l with [] => 0 | a :: l => if vnode a =? n then sz a else size_at l n end.
Definition maxima (l : list area) (t : tree) : hprop := aug_data off_va_rb off_max_size (ranges l) (size_at l) (vnodes l) t.
Definition free_space (V : vmap_vars) (l : list area) : hprop :=
  (∃ t, ⌜is_rbtree t⌝ ∗ rbtree (free_vmap_area_root V) t ∗ maxima l t ∗ dlist (free_vmap_area_list V) (vlists l))%I.
(** Areas that are not empty, in order of address and without overlap. *)
Definition before (a b : area) : Prop := v_e a <= v_s b.
Definition area_ok (a : area) : Prop := 0 < v_a a /\ 0 <= v_s a < v_e a /\ v_e a < 2 ^ 64.
Definition ordered (l : list area) : Prop := Forall area_ok l /\ StronglySorted before l.

Lemma areas_split l1 a l2 : ordered (l1 ++ a :: l2) -> ordered l1 /\ ordered l2 /\ area_ok a /\ Forall (fun b => v_e b <= v_s a) l1 /\ Forall (fun b => v_e a <= v_s b) l2.
Proof.
  intros [HF HS]. apply Forall_app in HF as [F1 F2]. apply Forall_cons in F2 as [Fa F2]. induction l1 as [|b l1 IH]; simpl in HS.
  - apply StronglySorted_inv in HS as [HS Hb]. split; [split; constructor|]. split; [split; assumption|]. auto.
  - apply Forall_cons in F1 as [Fb F1]. apply StronglySorted_inv in HS as [HS Hb]. destruct (IH F1 HS) as ([G1 G2] & I2 & I3 & I5 & I6). apply Forall_app in Hb as [Hb1 Hb2]. apply Forall_cons in Hb2 as [Hb2 _]. split; [split; constructor; assumption|]. split; [exact I2|]. split; [exact I3|]. split; [constructor; assumption|exact I6].
Qed.
Lemma vnodes_split l a n b : vnodes l = a ++ n :: b -> exists l1 x l2, l = l1 ++ x :: l2 /\ vnodes l1 = a /\ vnode x = n /\ vnodes l2 = b.
Proof. intros E. apply fmap_app_inv in E as (l1 & l2' & -> & E & ->). destruct l2' as [|x l2]; [done|]. simpl in E. injection E as -> ->. by exists l1, x, l2. Qed.
Lemma vnodes_app l1 l2 : vnodes (l1 ++ l2) = vnodes l1 ++ vnodes l2.
Proof. apply fmap_app. Qed.
Lemma size_at_in l a : NoDup (vnodes l) -> a ∈ l -> size_at l (vnode a) = sz a.
Proof.
  induction l as [|b l IH]; intros ND Ha; [by apply elem_of_nil in Ha|]. simpl in *. apply NoDup_cons in ND as [Nb ND]. apply elem_of_cons in Ha as [->|Ha]; [by rewrite Z.eqb_refl|].
  destruct (Z.eqb_spec (vnode b) (vnode a)) as [E|_]; [|by apply IH]. destruct Nb. rewrite E. by apply list_elem_of_fmap_2.
Qed.
Lemma range_acc l a : a ∈ l -> ranges l -∗ range_at a ∗ (range_at a -∗ ranges l).
Proof. intros Ha. apply list_elem_of_split in Ha as (l1 & l2 & ->). unfold ranges. rw big_sepL_app big_sepL_cons. iIntros "($ & $ & $) $". Qed.

(** ** Search *)

Section Search.
Context (l : list area) (lab : Z -> Z) (size align vstart : Z).
Notation len := (size + align - 1).
Notation labs := (labels off_va_rb off_max_size lab (vnodes l)).
Notation w := (size_at l).
(** The test of the code, and that an area has room however its start is aligned. *)
Definition fits (a : area) : bool :=
  let n := start_in (v_s a) align vstart in
  if (u64 (n + size) <? n) || (n <? vstart) then false else u64 (n + size) <=? v_e a.
Definition good (a : area) : Prop := Z.max (v_s a) vstart + len <= v_e a.
Definition found (r : Z) : Prop := exists l1 a l2, l = l1 ++ a :: l2 /\ r = v_a a /\ fits a = true /\ Forall (fun b => ~ good b) l1.
Record search_ok : Prop := {
  sr_ordered : ordered l;
  sr_nodup : NoDup (vnodes l);
  sr_align : exists k, 0 <= k < 64 /\ align = 2 ^ k;
  sr_size : 0 < size;
  sr_length : size + align <= 2 ^ 64;
  sr_start : 0 <= vstart < 2 ^ 64 }.

Lemma start_bounds s : (exists k, 0 <= k < 64 /\ align = 2 ^ k) -> 0 <= s < 2 ^ 64 -> 0 <= vstart < 2 ^ 64 -> Z.max s vstart + align - 1 < 2 ^ 64 ->
  start_in s align vstart mod align = 0 /\ Z.max s vstart <= start_in s align vstart < Z.max s vstart + align.
Proof using Type.
  clear lab size l. intros (k & Hk & ->) Hs Hv Hov. pose proof (pow2_pos k). assert (start_in s (2 ^ k) vstart = _ALIGN (Z.max s vstart) (2 ^ k)) as -> by (unfold start_in; destruct (Z.ltb_spec vstart s); f_equal; lia). apply _ALIGN_least; unfold is_u64; lia.
Qed.

Context (HS : search_ok).
Lemma good_fits a : area_ok a -> good a -> fits a = true.
Proof using HS.
  clear lab. intros (_ & Hse & He) Hg. unfold good in Hg. destruct HS as [_ _ HA Hsz Hl Hv]. destruct (start_bounds (v_s a) HA ltac:(lia) Hv ltac:(lia)) as [_ Hn]. unfold fits. set (n := start_in (v_s a) align vstart) in *. assert (u64 (n + size) = n + size) as -> by (apply Z.mod_small; lia).
  destruct (Z.ltb_spec (n + size) n); [lia|]. destruct (Z.ltb_spec n vstart); [lia|]. simpl. lia.
Qed.
Lemma fits_good a : area_ok a -> fits a = false -> ~ good a.
Proof using HS. intros Ha Hf Hg. by rewrite (good_fits a Ha Hg) in Hf. Qed.
Lemma wp_within a Q : a ∈ l -> ranges l -∗ (ranges l -∗ Q (fits a)) -∗ wp (is_within_this_va (v_a a) size align vstart) Q.
Proof using Type.
  iIntros (Ha) "HR HQ". iDestruct (range_acc _ a with "HR") as "[[Hs He] HR]"; [done|]. unfold is_within_this_va, fits. wp_ld "Hs". cbv zeta. destruct ((u64 (start_in (v_s a) align vstart + size) <? start_in (v_s a) align vstart) || (start_in (v_s a) align vstart <? vstart)).
  - iApply wp_ret. iApply "HQ". iApply "HR". iFrame.
  - wp_ld "He". iApply wp_ret. iApply "HQ". iApply "HR". iFrame.
Qed.
(** What the root of a subtree says is the largest size of its areas. *)
Lemma wp_subtree_max t x Q : top (vnodes l) lab t x -> labs -∗ (labs -∗ Q x) -∗ wp (get_subtree_max_size (ptr t)) Q.
Proof using HS.
  iIntros (Ht) "HL HQ". unfold get_subtree_max_size. destruct t as [|c p lt rt]; cbn [ptr top] in *; [subst; iApply wp_ret; by iApply "HQ"|]. destruct Ht as [Hp <-].
  assert (p <> 0) as Hp0. { apply list_elem_of_fmap in Hp as (a & -> & Ha). destruct (sr_ordered HS) as [HF _]. rewrite Forall_forall in HF. destruct (HF a Ha) as (Hv & _). unfold vnode, off_va_rb. lia. }
  destruct (Z.eqb_spec p 0); [done|]. iDestruct (labels_acc _ _ _ _ p with "HL") as "[H HL]"; [done|exact (sr_nodup HS)|]. unfold label_at, va_entry. iApply (wp_ld with "H"). iIntros "H". iApply "HQ". iSpecialize ("HL" with "H"). by iApply (labels_id with "HL"); [|exact (sr_nodup HS)].
Qed.
Lemma small_bad la t : vnodes la = inorder t -> la ⊆ l -> wmax w (inorder t) < len -> Forall (fun a => ~ good a) la.
Proof using HS.
  clear lab. intros <- Hs Hm. apply Forall_forall. intros a Ha Hg. assert (sz a <= wmax w (vnodes la)) as Hle; [|unfold good, sz in *; lia]. clear -Ha Hs HS. induction la as [|b la IH]; [by apply elem_of_nil in Ha|]. simpl. apply elem_of_cons in Ha as [->|Ha].
  - rewrite (size_at_in l b (sr_nodup HS)); [lia|apply Hs; left].
  - pose proof (IH (fun x Hx => Hs x (list_elem_of_further _ _ _ Hx)) Ha). lia.
Qed.

(** The facts about a node of a subtree whose areas are [la]. *)
Lemma node_facts la c p lt rt : vnodes la = inorder (Node c p lt rt) -> la ⊆ l -> ordered la -> aug_ok w lab (Node c p lt rt) ->
  exists al a ar, la = al ++ a :: ar /\ vnode a = p /\ vnodes al = inorder lt /\ vnodes ar = inorder rt /\ a ∈ l /\ al ⊆ l /\ ar ⊆ l /\ area_ok a /\ w p = sz a /\
    top (vnodes l) lab lt (wmax w (inorder lt)) /\ top (vnodes l) lab rt (wmax w (inorder rt)).
Proof using HS.
  intros En Hs Ho (_ & Hl & Hr). simpl in En. destruct (vnodes_split _ _ _ _ En) as (al & a & ar & -> & E1 & <- & E2). destruct (areas_split _ _ _ Ho) as (_ & _ & Ha & _). assert (a ∈ l) as Hin by (apply Hs, elem_of_app; right; left). assert (al ⊆ l /\ ar ⊆ l) as [S1 S2] by (split; intros x Hx; apply Hs, elem_of_app; [by left|right; by right]).
  exists al, a, ar. do 8 (split; [done|]). split; [by apply size_at_in; [apply (sr_nodup HS)|]|]. rewrite -E1 in Hl |- *. rewrite -E2 in Hr |- *. rewrite E1 E2. split; apply aug_top; try done; [rewrite -E1|rewrite -E2]; intros x Hx; apply list_elem_of_fmap in Hx as (b & -> & Hb); apply list_elem_of_fmap_2; [by apply S1|by apply S2].
Qed.

(** Where every start is allowed the search goes straight down. *)
Lemma wp_sure t : forall fuel par la, (depth t <= fuel)%nat -> vnodes la = inorder t -> la ⊆ l -> ordered la -> aug_ok w lab t -> len <= wmax w (inorder t) -> Forall (fun a => vstart < v_s a) la ->
  tree_at par t -∗ ranges l -∗ labs -∗ wp (lowest_loop fuel size align vstart len (ptr t)) (fun r => ⌜exists l1 a l2, la = l1 ++ a :: l2 /\ r = v_a a /\ fits a = true /\ Forall (fun b => ~ good b) l1⌝)%I.
Proof using HS.
  induction t as [|c p lt IHl rt IHr]; intros fuel par la Hf En Hs Ho Hlab Hmax Hst; [simpl in Hmax; pose proof (sr_size HS); destruct (sr_align HS) as (k & Hk & Ea); pose proof (pow2_pos k); lia|]. destruct fuel as [|fuel]; simpl in Hf; [lia|]. iIntros "Ht HR HL".
  destruct (node_facts _ _ _ _ _ En Hs Ho Hlab) as (al & a & ar & -> & <- & E1 & E2 & Hin & S1 & S2 & Ha & Ew & Tl & Tr). destruct (areas_split _ _ _ Ho) as (O1 & O2 & _ & B1 & B2). apply Forall_app in Hst as [St1 Sta]. apply Forall_cons in Sta as [Sa St2]. pose proof Hlab as (_ & Hll & Hlr). pose proof (wmax_node w L c (vnode a) lt rt) as Ewm. simpl node_of in Ewm. rewrite Ewm Ew in Hmax.
  cbn [lowest_loop tree_at ptr]. iDestruct "Ht" as "(%Hp & _ & Hlt & Hrt & Tlt & Trt)". unfold rb_left, rb_right, va_entry. replace (vnode a - off_va_rb) with (v_a a) by (unfold vnode; lia). cbv zeta. wp_ld "Hlt". iApply wp_bind. iApply (wp_subtree_max with "HL"); [done|]. iIntros "HL". iApply wp_bind.
  iDestruct (range_acc _ a with "HR") as "[[Rs Re] HR]"; [done|]. destruct (Z.leb_spec len (wmax w (inorder lt))) as [H1|H1].
  - iApply (wp_ld with "Rs"). iIntros "Rs". iDestruct ("HR" with "[Rs Re]") as "HR"; [iFrame|]. destruct (Z.ltb_spec vstart (v_s a)); [|lia]. simpl andb. cbn iota. iApply (wp_wand with "[-]"); [iApply (IHl fuel _ al with "Tlt HR HL"); [lia|done..]|]. iIntros (r (x & b & y & -> & ? & ? & ?)). iPureIntro. exists x, b, (y ++ a :: ar). by rw -app_assoc.
  - iApply wp_ret. iDestruct ("HR" with "[Rs Re]") as "HR"; [iFrame|]. simpl andb. cbn iota. iApply wp_bind. iApply (wp_within a with "HR"); [done|]. iIntros "HR". assert (Forall (fun b => ~ good b) al) as Bl by by apply (small_bad al lt). destruct (fits a) eqn:Ef.
    + iApply wp_ret. iPureIntro. by exists al, a, ar.
    + pose proof (fits_good a Ha Ef) as Bad. wp_ld "Hrt". iApply wp_bind. iApply (wp_subtree_max with "HL"); [done|]. iIntros "HL". assert (len <= wmax w (inorder rt)) as H2 by (unfold good, sz in *; lia). destruct (Z.leb_spec len (wmax w (inorder rt))); [|lia].
      iApply (wp_wand with "[-]"); [iApply (IHr fuel _ ar with "Trt HR HL"); [lia|done..]|]. iIntros (r (x & b & y & -> & ? & ? & ?)). iPureIntro. exists (al ++ a :: x), b, y. rw -app_assoc /=. do 3 (split; [done|]). apply Forall_app. split; [done|]. by constructor.
Qed.

(** What is known of the nodes above: the search went left only at areas behind [vstart], and right only at areas that do not fit. *)
Fixpoint path_ok (k : ctx) : Prop :=
  match k with
  | [] => True
  | (d, _, p, _) :: k => (forall a, a ∈ l -> vnode a = p -> match d with L => vstart < v_s a | R => fits a = false end) /\ path_ok k
  end.
(** The areas before the subtree, in it and behind it. *)
Record place (k : ctx) (t : tree) (l1 la l2 : list area) : Prop := {
  pl_list : l = l1 ++ la ++ l2;
  pl_before : vnodes l1 = ctx_before k;
  pl_in : vnodes la = inorder t;
  pl_after : vnodes l2 = ctx_after k;
  pl_labels : aug_ok w lab (plug k t);
  pl_bad : Forall (fun a => ~ good a) l1;
  pl_path : path_ok k }.
Definition up_post (D : nat) (u : Z + Z) : hprop :=
  match u with
  | inl r => ⌜found r⌝
  | inr x => ∃ par rt lb la le, ⌜x = ptr rt /\ l = lb ++ la ++ le /\ vnodes la = inorder rt /\ aug_ok w lab rt /\ len <= wmax w (inorder rt) /\
      Forall (fun a => vstart < v_s a) la /\ Forall (fun a => ~ good a) lb /\ (depth rt <= D)%nat⌝ ∗ tree_at par rt ∗ ranges l ∗ labs
  end%I.
Lemma place_ordered k t l1 la l2 : place k t l1 la l2 -> ordered la /\ la ⊆ l /\ aug_ok w lab t.
Proof using HS.
  intros [E _ _ _ Hlab _ _]. pose proof (sr_ordered HS) as [HF HO]. split; [|split; [intros x Hx; rewrite E !elem_of_app; auto|by apply aug_plug in Hlab as [? _]]]. rewrite E in HF HO. apply Forall_app in HF as [_ HF]. apply Forall_app in HF as [HF _]. split; [exact HF|]. apply StronglySorted_app in HO as (_ & _ & HO). apply StronglySorted_app in HO as (_ & HO & _). exact HO.
Qed.
(** One level up. *)
Lemma place_up d c p s k t l1 la l2 : place ((d, c, p, s) :: k) t l1 la l2 -> Forall (fun a => ~ good a) la ->
  exists a ls l1' l2', vnode a = p /\ a ∈ l /\ vnodes ls = inorder s /\ path_ok k /\
    match d with
    | L => l2 = a :: ls ++ l2' /\ l1' = l1 /\ (fits a = false -> Forall (fun b => ~ good b) ls -> place k (node_of d c p t s) l1 (la ++ a :: ls) l2')
    | R => l1 = l1' ++ ls ++ [a] /\ l2' = l2 /\ place k (node_of d c p t s) l1' (ls ++ a :: la) l2
    end.
Proof using HS.
  intros [E E1 E2 E3 Hlab Hb [Hp Hpath]] Hla. destruct d; cbn [ctx_before ctx_after node_of plug] in *.
  - destruct (vnodes_split l2 [] p (inorder s ++ ctx_after k) E3) as (z & a & r & -> & Ez & <- & Er). destruct z; [|done]. apply fmap_app_inv in Er as (ls & l2' & Es & E2' & ->). simpl app in *. exists a, ls, l1, l2'. rw app_nil_r in E1.
    assert (a ∈ l) by (rewrite E; set_solver). do 4 (split; [done|]). do 2 (split; [done|]). intros Ef Hbs. split; try done; [rw E -!app_assoc //|simpl; rw vnodes_app E2 /= Es //].
  - apply fmap_app_inv in E1 as (l1' & r & E1 & Er & ->). 
    symmetry in Er. destruct (vnodes_split r (inorder s) p [] Er) as (ls & a & z & -> & Es & <- & Ez). destruct z; [|done]. exists a, ls, l1', l2. assert (a ∈ l) by (rewrite E; set_solver). do 4 (split; [done|]). do 2 (split; [done|]). apply Forall_app in Hb as [Hb _]. split; try done; [rw E -!app_assoc //|simpl; rw vnodes_app /= Es E2 //].
Qed.

Lemma ordered_behind l1 a l2 : l = l1 ++ a :: l2 -> Forall (fun b => v_s a < v_s b) l2.
Proof using HS. intros E. pose proof (sr_ordered HS) as HO. rewrite E in HO. destruct (areas_split _ _ _ HO) as (_ & _ & (_ & Ha & _) & _ & B). eapply Forall_impl; [exact B|]. simpl. lia. Qed.
Lemma wp_up root D k : forall fuel c n lt rt l1 la l2, (length k < fuel)%nat -> (depth (plug k (Node c n lt rt)) <= D)%nat -> place k (Node c n lt rt) l1 la l2 ->
  Forall (fun a => ~ good a) la -> Exists good l2 ->
  ctx_at root k n -∗ tree_at (ctxp k) (Node c n lt rt) -∗ ranges l -∗ labs -∗
  wp (lowest_up fuel size align vstart len n) (up_post D).
Proof using HS.
  induction k as [|[[[d c'] p] s] k IH]; intros [|fuel] c n lt rt l1 la l2 Hf HD HP Hla Hex; simpl in Hf; try lia; iIntros "Hk Ht HR HL".
  { exfalso. pose proof (pl_after _ _ _ _ _ HP) as E. destruct l2; [by apply Exists_nil in Hex|done]. }
  destruct (place_up _ _ _ _ _ _ _ _ _ HP Hla) as (a & ls & l1' & l2' & <- & Hin & Es & Hpk & Hd). destruct (place_ordered _ _ _ _ _ HP) as (Ho & Hsub & Hlt). pose proof (pl_list _ _ _ _ _ HP) as El. pose proof (pl_labels _ _ _ _ _ HP) as Hlab. apply aug_plug in Hlab as [_ (_ & Hsl & _)].
  assert (area_ok a) as Ha by (destruct (sr_ordered HS) as [HF _]; rewrite Forall_forall in HF; by apply HF). destruct (pl_path _ _ _ _ _ HP) as [Hpa _]. specialize (Hpa a Hin eq_refl).
  cbn [lowest_up ctx_at ctxp tree_at]. iDestruct (ctx_parent_ok root ((d, c', vnode a, s) :: k) with "[Hk]") as %Hpar; [iExact "Hk"|]. iDestruct "Ht" as "(%Hn & Hpc & Cl & Cr & Tl & Tr)". iApply wp_bind. iApply (wp_rb_parent with "Hpc"); [exact Hpar|]. iIntros "Hpc". iDestruct "Hk" as "(%Hp & Hp & Kd & Ko & Ks & Hk)". rw addr_ok_ne //. unfold va_entry. replace (vnode a - off_va_rb) with (v_a a) by (unfold vnode; lia).
  iApply wp_bind. iApply (wp_within a with "HR"); [done|]. iIntros "HR". set (T := Node c n lt rt) in *.
  iAssert (tree_at (vnode a) T) with "[Hpc Cl Cr Tl Tr]" as "Ht"; [cbn [tree_at T ctxp]; by iFrame|]. destruct d; cbn [off opp].
  - (* from the left *)
    destruct Hd as (-> & -> & Hd). destruct (fits a) eqn:Ef.
    { iApply wp_ret. iPureIntro. exists (l1 ++ la), a, (ls ++ l2'). rw El -!app_assoc. do 3 (split; [done|]). apply Forall_app. split; [apply (pl_bad _ _ _ _ _ HP)|exact Hla]. }
    pose proof (fits_good a Ha Ef) as Bad. assert (ls ⊆ l) as Sls by (rewrite El; set_solver). assert (top (vnodes l) lab s (wmax w (inorder s))) as Ts. { apply aug_top; [exact Hsl|]. rewrite -Es. intros x Hx. apply list_elem_of_fmap in Hx as (b & -> & Hb). by apply list_elem_of_fmap_2, Sls. }
    unfold rb_right. wp_ld "Ko". iApply wp_bind. iApply (wp_subtree_max with "HL"); [exact Ts|]. iIntros "HL". iApply wp_bind. iDestruct (range_acc _ a with "HR") as "[[Rs Re] HR]"; [done|]. destruct (Z.leb_spec len (wmax w (inorder s))) as [H1|H1].
    + iApply (wp_ld with "Rs"). iIntros "Rs". iDestruct ("HR" with "[Rs Re]") as "HR"; [iFrame|]. destruct (Z.leb_spec vstart (v_s a)); [|lia]. simpl andb. cbn iota. iApply wp_ret. iExists (vnode a), s, (l1 ++ la ++ [a]), ls, l2'. iFrame. iPureIntro. split; [done|]. split; [rw El -!app_assoc //|]. do 3 (split; [done|]). split; [|split].
      * pose proof (ordered_behind (l1 ++ la) a (ls ++ l2')) as HB. rewrite El -app_assoc in HB. specialize (HB eq_refl). apply Forall_app in HB as [HB _]. eapply Forall_impl; [exact HB|]. simpl. lia.
      * rewrite !Forall_app. split; [apply (pl_bad _ _ _ _ _ HP)|]. split; [exact Hla|by constructor].
      * pose proof (depth_plug k (node_of L c' (vnode a) T s)) as Hdp. cbn [plug node_of] in *. simpl depth in Hdp. lia.
    + iApply wp_ret. iDestruct ("HR" with "[Rs Re]") as "HR"; [iFrame|]. simpl andb. cbn iota. assert (Forall (fun b => ~ good b) ls) as Bls by by apply (small_bad ls s).
      iApply (IH fuel c' (vnode a) T s l1 (la ++ a :: ls) l2' with "Hk [Hp Kd Ko Ks Ht] HR HL"); [lia|exact HD|by apply Hd| | |].
      * apply Forall_app. split; [exact Hla|by constructor].
      * apply Exists_cons in Hex as [Hex|Hex]; [done|]. apply Exists_app in Hex as [Hex|Hex]; [|exact Hex]. exfalso. apply Exists_exists in Hex as (b & Hb & Gb). rewrite Forall_forall in Bls. by apply (Bls b).
      * cbn [tree_at]. iFrame. done.
  - (* from the right *)
    destruct Hd as (-> & -> & HP'). rewrite Hpa. assert (top (vnodes l) lab T (wmax w (inorder T))) as TT. { apply aug_top; [exact Hlt|]. rewrite -(pl_in _ _ _ _ _ HP). intros x Hx. apply list_elem_of_fmap in Hx as (b & -> & Hb). by apply list_elem_of_fmap_2, Hsub. }
    unfold rb_right. wp_ld "Kd". change n with (ptr T). iApply wp_bind. iApply (wp_subtree_max with "HL"); [exact TT|]. iIntros "HL". iApply wp_bind. iDestruct (range_acc _ a with "HR") as "[[Rs Re] HR]"; [done|].
    iApply (wp_wand _ (fun x => ⌜len <= wmax w (inorder T) -> x = v_s a⌝ ∗ range_at a)%I with "[Rs Re]"). { destruct (Z.leb_spec len (wmax w (inorder T))); [iApply (wp_ld with "Rs"); iIntros "Rs"; by iFrame|iApply wp_ret; iFrame; iPureIntro; lia]. }
    iIntros (x) "[%Hx Ra]". iDestruct ("HR" with "Ra") as "HR". assert ((len <=? wmax w (inorder T)) && (vstart <=? x) = false) as ->.
    { destruct (Z.leb_spec len (wmax w (inorder T))) as [H1|H1]; [|done]. rewrite (Hx H1). destruct (Z.leb_spec vstart (v_s a)) as [H2|]; [|done]. exfalso. pose proof (ordered_behind (l1' ++ ls) a (la ++ l2)) as HB. rewrite El -!app_assoc /= in HB. specialize (HB eq_refl). apply Forall_app in HB as [HB _].
      pose proof (pl_in _ _ _ _ _ HP) as Ein. rewrite -Ein in H1. clear -H1 HB Hla Hsub H2 HS. assert (exists b, b ∈ la /\ len <= sz b) as (b & Hb & Hsz).
      { clear HB Hla. induction la as [|b la IH]; simpl in H1; [destruct (sr_align HS) as (k & Hk & Ea); pose proof (pow2_pos k); pose proof (sr_size HS); lia|]. rewrite (size_at_in l b (sr_nodup HS)) in H1; [|apply Hsub; left]. destruct (Z.le_gt_cases len (sz b)); [exists b; split; [left|done]|]. destruct IH as (b' & Hb' & ?); [intros y Hy; apply Hsub; by right|lia|]. exists b'. split; [by right|done]. }
      rewrite Forall_forall in HB. rewrite Forall_forall in Hla. apply (Hla b Hb). pose proof (HB b Hb) as HBb. simpl in HBb. unfold good, sz in *. lia. }
    iApply (IH fuel c' (vnode a) s T l1' (ls ++ a :: la) l2 with "Hk [Hp Kd Ko Ks Ht] HR HL"); [lia|exact HD|exact HP'| |exact Hex|].
    + pose proof (pl_bad _ _ _ _ _ HP) as HB. rewrite !Forall_app in HB. destruct HB as (_ & HB & _). apply Forall_app. split; [exact HB|]. constructor; [by apply fits_good|exact Hla].
    + cbn [tree_at]. iFrame. done.
Qed.

Lemma wp_down root D t : forall fuel k l1 la l2, t <> Leaf -> (depth t + D < fuel)%nat -> (depth (plug k t) <= D)%nat -> place k t l1 la l2 -> Exists good (la ++ l2) ->
  ctx_at root k (ptr t) -∗ tree_at (ctxp k) t -∗ ranges l -∗ labs -∗
  wp (lowest_loop fuel size align vstart len (ptr t)) (fun r => ⌜found r⌝%I).
Proof using HS.
  assert (0 < len) as Hlen by (destruct (sr_align HS) as (? & ? & Ea); pose proof (pow2_pos x); pose proof (sr_size HS); lia).
  induction t as [|c p lt IHl rt IHr]; intros [|fuel] k l1 la l2 Hne Hf HD HP Hex; try done; simpl in Hf; try lia; iIntros "Hk Ht HR HL".
  destruct (place_ordered _ _ _ _ _ HP) as (Ho & Hs & Hlab). destruct (node_facts _ _ _ _ _ (pl_in _ _ _ _ _ HP) Hs Ho Hlab) as (al & a & ar & -> & <- & E1 & E2 & Hin & S1 & S2 & Ha & Ew & Tl & Tr). destruct (areas_split _ _ _ Ho) as (O1 & O2 & _ & B1 & B2).
  destruct HP as [El P1 P2 P3 Plab Pbad Ppath]. assert (forall a', a' ∈ l -> vnode a' = vnode a -> a' = a) as Uniq.
  { intros a' Hin' E. apply list_elem_of_lookup in Hin' as [i Hi], Hin as [j Hj]. assert (i = j) as ->; [|congruence]. eapply (NoDup_lookup (vnodes l) i j (vnode a) (sr_nodup HS)); unfold vnodes; rewrite list_lookup_fmap ?Hi ?Hj /=; congruence. }
  cbn [lowest_loop tree_at ptr]. iDestruct "Ht" as "(%Hp & Hpc & Hlt & Hrt & Tlt & Trt)". unfold rb_left, rb_right, va_entry. replace (vnode a - off_va_rb) with (v_a a) by (unfold vnode; lia). cbv zeta. wp_ld "Hlt". iApply wp_bind. iApply (wp_subtree_max with "HL"); [done|]. iIntros "HL". iApply wp_bind.
  iDestruct (range_acc _ a with "HR") as "[[Rs Re] HR]"; [done|]. iApply (wp_wand _ (fun x => ⌜len <= wmax w (inorder lt) -> x = v_s a⌝ ∗ range_at a)%I with "[Rs Re]"). { destruct (Z.leb_spec len (wmax w (inorder lt))); [iApply (wp_ld with "Rs"); iIntros "Rs"; by iFrame|iApply wp_ret; iFrame; iPureIntro; lia]. }
  iIntros (x) "[%Hx Ra]". iDestruct ("HR" with "Ra") as "HR". destruct ((len <=? wmax w (inorder lt)) && (vstart <? x)) eqn:Eb.
  - (* left *)
    apply andb_true_iff in Eb as [H1 H2]. apply Z.leb_le in H1. rewrite (Hx H1) in H2. apply Z.ltb_lt in H2. iApply (IHl fuel ((L, c, vnode a, rt) :: k) l1 al (a :: ar ++ l2) with "[Hk Hpc Hlt Hrt Trt] Tlt HR HL"); [by intros ->; simpl in H1; lia|lia|exact HD| | |].
    + split; try done; [rw El -!app_assoc //|cbn [ctx_before]; by rw app_nil_r|cbn [ctx_after]; simpl; rw vnodes_app E2 P3 //|]. split; [|exact Ppath]. intros a' Ha' E. by rewrite (Uniq a' Ha' E).
    + by rewrite -app_assoc /= in Hex.
    + cbn [ctx_at off opp]. by iFrame.
  - assert (Forall (fun b => ~ good b) al) as Bl.
    { destruct (Z.leb_spec len (wmax w (inorder lt))) as [H1|H1]; [|by apply (small_bad al lt)]. rewrite (Hx H1) in Eb. simpl in Eb. apply Z.ltb_ge in Eb. eapply Forall_impl; [exact B1|]. simpl. intros b Hb Hg. unfold good in Hg. lia. }
    iApply wp_bind. iApply (wp_within a with "HR"); [done|]. iIntros "HR". destruct (fits a) eqn:Ef.
    { iApply wp_ret. iPureIntro. exists (l1 ++ al), a, (ar ++ l2). rw El -!app_assoc. do 3 (split; [done|]). by apply Forall_app. }
    pose proof (fits_good a Ha Ef) as Bad. wp_ld "Hrt". iApply wp_bind. iApply (wp_subtree_max with "HL"); [done|]. iIntros "HL". destruct (Z.leb_spec len (wmax w (inorder rt))) as [H1|H1].
    + (* right *)
      iApply (IHr fuel ((R, c, vnode a, lt) :: k) (l1 ++ al ++ [a]) ar l2 with "[Hk Hpc Hlt Hrt Tlt] Trt HR HL"); [by intros ->; simpl in H1; lia|lia|exact HD| | |].
      * split; try done; [rw El -!app_assoc //|cbn [ctx_before]; rw !vnodes_app P1 E1 //|rewrite !Forall_app; split; [done|]; split; [done|by constructor]|]. split; [|exact Ppath]. intros a' Ha' E. by rewrite (Uniq a' Ha' E).
      * rewrite -app_assoc /= in Hex. apply Exists_app in Hex as [Hex|Hex]; [exfalso; apply Exists_exists in Hex as (b & Hb & Gb); rewrite Forall_forall in Bl; by apply (Bl b)|]. apply Exists_cons in Hex as [Hex|Hex]; [done|exact Hex].
      * cbn [ctx_at off opp]. by iFrame.
    + (* back up *)
      assert (Forall (fun b => ~ good b) (al ++ a :: ar)) as Ball by (apply Forall_app; split; [exact Bl|]; constructor; [exact Bad|by apply (small_bad ar rt)]).
      iApply wp_bind. iApply (wp_wand with "[-]"). { pose proof (depth_plug k (Node c (vnode a) lt rt)) as Hdp. iApply (wp_up root D k fuel c (vnode a) lt rt l1 (al ++ a :: ar) l2 with "Hk [Hpc Hlt Hrt Tlt Trt] HR HL"); [simpl in Hdp; lia|exact HD|by split|exact Ball| |by cbn [tree_at]; iFrame].
        apply Exists_app in Hex as [Hex|Hex]; [|exact Hex]. exfalso. apply Exists_exists in Hex as (b & Hb & Gb). rewrite Forall_forall in Ball. by apply (Ball b). }
      iIntros ([r|y]) "H"; cbn [up_post]; [iApply wp_ret; done|]. iDestruct "H" as (par rt' lb la' le (-> & El' & En' & Hl' & Hm' & Hst' & Hb' & Hd')) "(Ht & HR & HL)". assert (ordered la' /\ la' ⊆ l) as [Ho' Hs'].
      { pose proof (sr_ordered HS) as [HF HO]. rewrite El' in HF HO. apply Forall_app in HF as [_ HF]. apply Forall_app in HF as [HF _]. apply StronglySorted_app in HO as (_ & _ & HO). apply StronglySorted_app in HO as (_ & HO & _). split; [by split|]. rewrite El'. intros z Hz. rewrite !elem_of_app. auto. }
      iApply (wp_wand with "[-]"); [iApply (wp_sure rt' fuel par la' with "Ht HR HL"); [lia|done..]|]. iIntros (r (x1 & b & x2 & -> & ? & ? & ?)). iPureIntro. exists (lb ++ x1), b, (x2 ++ le). rw El' -!app_assoc /=. do 3 (split; [done|]). by apply Forall_app.
Qed.
End Search.

Lemma within_read_only va size align vstart : read_only (is_within_this_va va size align vstart).
Proof. unfold is_within_this_va. solve_read_only. Qed.
Lemma subtree_max_read_only n : read_only (get_subtree_max_size n).
Proof. unfold get_subtree_max_size. solve_read_only. Qed.
Lemma rb_parent_read_only n : read_only (rb_parent n).
Proof. unfold rb_parent, parent_color. solve_read_only. Qed.
#[export] Hint Resolve within_read_only subtree_max_read_only rb_parent_read_only : read_only.
Lemma lowest_up_read_only f : forall size align vstart len n, read_only (lowest_up f size align vstart len n).
Proof. induction f as [|f IH]; intros; cbn [lowest_up]; [apply read_only_no_fuel|]. unfold rb_right. solve_read_only. Qed.
#[export] Hint Resolve lowest_up_read_only : read_only.
Lemma lowest_loop_read_only f : forall size align vstart len n, read_only (lowest_loop f size align vstart len n).
Proof.
  induction f as [|f IH]; intros; cbn [lowest_loop]; [apply read_only_no_fuel|]. unfold rb_left, rb_right. solve_read_only. match goal with |- read_only (match ?u with _ => _ end) => destruct u end; [apply read_only_ret|apply IH].
Qed.
Lemma find_lowest_read_only f V size align vstart : read_only (find_vmap_lowest_match f V size align vstart).
Proof. unfold find_vmap_lowest_match. apply read_only_bind; [apply read_only_ld|]. intros n. apply lowest_loop_read_only. Qed.

Lemma free_depth t l : is_rbtree t -> inorder t = vnodes l -> (depth t <= rb_bound (length l))%nat.
Proof. intros [h H] E. pose proof (rb_depth_log _ _ H) as Hd. unfold RbTreeSpec.size in Hd. rw E length_fmap in Hd. exact Hd. Qed.
Lemma wp_find_lowest V l size align vstart fuel : search_ok l size align vstart -> Exists (good size align vstart) l -> (2 * rb_bound (length l) < fuel)%nat ->
  free_space V l ⊢ wp (find_vmap_lowest_match fuel V size align vstart) (fun r => ⌜found l size align vstart r⌝ ∗ free_space V l)%I.
Proof.
  intros HS Hex Hf. apply wp_read_only; [apply find_lowest_read_only|]. iIntros "(%t & %Ht & [Hr Ht] & (%lab & (%Hlab & %En & _) & HL & HR) & _)". pose proof (free_depth t l Ht En) as Hd. unfold find_vmap_lowest_match. wp_ld "Hr".
  pose proof (sr_size _ _ _ _ HS) as Hsz. pose proof (sr_length _ _ _ _ HS) as Hl. assert (0 < align) as Ha by (destruct (sr_align _ _ _ _ HS) as (k & Hk & ->); apply pow2_pos; lia).
  assert (u64 (u64 (size + align) - 1) = size + align - 1) as ->. { unfold u64. destruct (Z.eq_dec (size + align) (2 ^ 64)) as [E|E]; [rewrite E Z_mod_same_full; done|]. rewrite (Z.mod_small (size + align)); [|lia]. apply Z.mod_small. lia. }
  iApply (wp_down l lab size align vstart HS (free_vmap_area_root V) (depth t) t fuel [] [] l [] with "Hr Ht HR HL"); [|lia|done| |by rw app_nil_r].
  - intros ->. destruct l; [by apply Exists_nil in Hex|done].
  - split; try done. by rw app_nil_r.
Qed.

(** ** The tree of free areas *)

Record areas_ok (l : list area) : Prop := {
  ao_ordered : ordered l;
  ao_nodup : NoDup (vnodes l);
  ao_addr : Forall (fun a => addr_ok (vnode a)) l }.
Lemma size_nonneg l n : ordered l -> 0 <= size_at l n.
Proof. intros [HF _]. induction HF as [|a l Ha _ IH]; simpl; [lia|]. destruct (vnode a =? n); [|exact IH]. destruct Ha as (_ & H & _). unfold sz. lia. Qed.
Lemma ordered_in l a : ordered l -> a ∈ l -> area_ok a.
Proof. intros [HF _]. rewrite Forall_forall in HF. apply HF. Qed.
Lemma va_compute l : ordered l -> NoDup (vnodes l) -> compute_spec off_va_rb va_size (ranges l) (size_at l) (vnodes l).
Proof.
  intros Ho ND n Q Hn. apply list_elem_of_fmap in Hn as (a & -> & Ha). iIntros "HR HQ". iDestruct (range_acc _ a with "HR") as "[[Hs He] HR]"; [done|]. unfold va_size. replace (vnode a - off_va_rb) with (v_a a) by (unfold vnode; lia). wp_ld "He". wp_ld "Hs". iApply wp_ret. rewrite (size_at_in l a ND Ha). destruct (ordered_in _ _ Ho Ha) as (_ & Hse & He').
  assert (u64 (v_e a - v_s a) = sz a) as -> by (unfold u64, sz; apply Z.mod_small; lia). iApply "HQ". iApply "HR". iFrame.
Qed.
Lemma vnodes_nonzero l : ordered l -> forall n, n ∈ vnodes l -> n <> 0.
Proof. intros Ho n Hn. apply list_elem_of_fmap in Hn as (a & -> & Ha). destruct (ordered_in _ _ Ho Ha) as (Hv & _). unfold vnode, off_va_rb. lia. Qed.

(** The range of one area changes and its ancestors are repaired. *)
Lemma wp_resize root fuel t l1 a a' l2 lab : v_a a' = v_a a -> ordered (l1 ++ a' :: l2) -> NoDup (vnodes (l1 ++ a :: l2)) -> (S (depth t) < fuel)%nat ->
  aug_ok (size_at (l1 ++ a :: l2)) lab t -> inorder t = vnodes (l1 ++ a :: l2) ->
  rbtree root t -∗ labels off_va_rb off_max_size lab (vnodes (l1 ++ a :: l2)) -∗ ranges (l1 ++ a' :: l2) -∗
  wp (augment_tree_propagate_from fuel (v_a a)) (fun _ => rbtree root t ∗ maxima (l1 ++ a' :: l2) t)%I.
Proof.
  iIntros (Ea Ho ND Hf Hlab En) "Ht HL HR". assert (vnode a' = vnode a) as Ev by (unfold vnode; congruence). assert (vnodes (l1 ++ a' :: l2) = vnodes (l1 ++ a :: l2)) as EV by (rw !vnodes_app /= Ev //).
  assert (inorder t = vnodes l1 ++ vnode a :: vnodes l2) as En' by (rewrite En vnodes_app //). destruct (inorder_split t _ _ _ En') as (k & c & lt & rt & -> & E1 & E2). pose proof (depth_plug k (Node c (vnode a) lt rt)) as Hdp. simpl in Hdp.
  assert (forall b, b ∈ l1 ++ l2 -> size_at (l1 ++ a' :: l2) (vnode b) = size_at (l1 ++ a :: l2) (vnode b)) as Es.
  { intros b Hb. rewrite -EV in ND. rewrite (size_at_in _ b ND); [|set_solver]. rewrite EV in ND. rewrite (size_at_in _ b ND) //. set_solver. }
  destruct (sub_ctx _ k _ En ND) as (Sub & ND' & Out). destruct (NoDup_node _ _ _ _ ND') as [Nl Nr]. assert (vnode a ∉ ctx_before k ++ ctx_after k) as Nk by (apply Out; simpl; set_solver).
  assert (forall n, n ∈ inorder (plug k (Node c (vnode a) lt rt)) -> n <> vnode a -> size_at (l1 ++ a' :: l2) n = size_at (l1 ++ a :: l2) n) as Ew.
  { rewrite En. intros n Hn Hne. apply list_elem_of_fmap in Hn as (b & -> & Hb). apply Es, elem_of_app. rewrite elem_of_app elem_of_cons in Hb. destruct Hb as [?|[->|?]]; [by left|by destruct Hne|by right]. }
  rewrite inorder_ctx in Ew. simpl in Ew. apply aug_plug in Hlab as [(El & Hl & Hr) Hk]. rewrite -El in Hk. unfold augment_tree_propagate_from, augment_cb_propagate. rewrite -EV. iDestruct (plug_open with "Ht") as "[Hk Ht]". cbn [ptr]. change (v_a a + off_va_rb) with (vnode a).
  iApply (wp_wand with "[-]"); [iApply (wp_propagate _ _ _ _ _ (vnodes (l1 ++ a' :: l2)) (va_compute _ Ho ltac:(by rewrite EV)) ltac:(by rewrite EV) (vnodes_nonzero _ Ho) root (fun n _ => size_nonneg _ n Ho) k fuel lab c (vnode a) lt rt (lab (vnode a)) with "Hk Ht HL HR")|iIntros (_) "[$ $]"].
  - by rewrite En EV.
  - lia.
  - eapply aug_values; [|exact Hl]. intros n Hn. apply Ew; [set_solver|by intros ->].
  - eapply aug_values; [|exact Hr]. intros n Hn. apply Ew; [set_solver|by intros ->].
  - eapply ctx_values; [|exact Hk]. intros n Hn. apply Ew; [set_solver|by intros ->].
  - done.
Qed.

(** ** Where a new area goes *)

(** The range from [s] to [e] is between the areas [l1] and [l2], the hole of the tree between their nodes. *)
Record site (l : list area) (s e : Z) (k : ctx) (l1 l2 : list area) : Prop := {
  si_list : l = l1 ++ l2;
  si_before : vnodes l1 = ctx_before k;
  si_after : vnodes l2 = ctx_after k;
  si_ends : Forall (fun b => v_e b <= s) l1;
  si_starts : Forall (fun b => e <= v_s b) l2 }.
Definition apart (s e : Z) (b : area) : Prop := v_e b <= s \/ e <= v_s b.
Definition links_post (l : list area) (s e root : Z) (T : tree) (r : Z * Z) : Prop :=
  exists k l1 l2, plug k Leaf = T /\ r = (link_of root k, ctxp k) /\ site l s e k l1 l2.

Lemma wp_va_links l s e root t : s < e -> ordered l -> forall fuel k par l1 la l2, t <> Leaf -> (depth t <= fuel)%nat -> l = l1 ++ la ++ l2 -> vnodes l1 = ctx_before k -> vnodes la = inorder t -> vnodes l2 = ctx_after k ->
  Forall (fun b => v_e b <= s) l1 -> Forall (fun b => e <= v_s b) l2 -> Forall (apart s e) la ->
  tree_at par t -∗ ranges l -∗ wp (va_links_loop fuel s e (ptr t)) (fun r => ⌜links_post l s e root (plug k t) r⌝%I).
Proof.
  intros Hse Ho. induction t as [|c p lt IHl rt IHr]; intros [|fuel] k par l1 la l2 Hne Hf El E1 E2 E3 B1 B2 Hap; try done; simpl in Hf; try lia; iIntros "Ht HR". simpl in E2.
  destruct (vnodes_split _ _ _ _ E2) as (al & a & ar & -> & Eal & <- & Ear). assert (l = (l1 ++ al) ++ a :: (ar ++ l2)) as El' by (rewrite El -!app_assoc //). assert (a ∈ l) as Hin by (rewrite El'; set_solver). pose proof Ho as Ho'. rewrite El' in Ho'. destruct (areas_split _ _ _ Ho') as (_ & _ & (_ & Ha & _) & O1 & O2). apply Forall_app in O1 as [_ O1]. apply Forall_app in O2 as [O2 _]. apply Forall_app in Hap as [Ap1 Ap]. apply Forall_cons in Ap as [Apa Ap2].
  cbn [va_links_loop tree_at ptr]. iDestruct "Ht" as "(%Hp & _ & Cl & Cr & Tl & Tr)". unfold va_entry. replace (vnode a - off_va_rb) with (v_a a) by (unfold vnode; lia). cbv zeta. iDestruct (range_acc _ a with "HR") as "[[Rs Re] HR]"; [done|]. wp_ld "Rs". wp_ld "Re". iDestruct ("HR" with "[Rs Re]") as "HR"; [iFrame|].
  destruct Apa as [Hd|Hd].
  - destruct (Z.ltb_spec s (v_e a)); [lia|]. destruct (Z.ltb_spec (v_s a) e); [|lia]. destruct (Z.leb_spec (v_e a) s); [|lia]. simpl andb. cbn iota. unfold rb_right. wp_ld "Cr". destruct rt as [|cr pr rl rr].
    + cbn [ptr]. iApply wp_ret. iPureIntro. destruct ar; [|done]. exists ((R, c, vnode a, lt) :: k), (l1 ++ al ++ [a]), l2. split; [done|]. split; [done|]. split; [rewrite El -!app_assoc //|cbn [ctx_before]; rw !vnodes_app E1 Eal //|done| |done].
      rewrite !Forall_app. split; [done|]. split; [|by repeat constructor]. eapply Forall_impl; [exact O1|]. simpl. lia.
    + iAssert (⌜addr_ok pr⌝)%I as %Hpr; [iDestruct "Tr" as "($ & _)"|]. cbn [ptr]. rw addr_ok_ne //. iApply (IHr fuel ((R, c, vnode a, lt) :: k) _ (l1 ++ al ++ [a]) ar l2 with "Tr HR"); [done|lia|rewrite El -!app_assoc //|cbn [ctx_before]; rw !vnodes_app E1 Eal //|done|done| |done|done].
      rewrite !Forall_app. split; [done|]. split; [|by repeat constructor]. eapply Forall_impl; [exact O1|]. simpl. lia.
  - destruct (Z.ltb_spec s (v_e a)); [|lia]. destruct (Z.leb_spec e (v_s a)); [|lia]. simpl andb. cbn iota. unfold rb_left. wp_ld "Cl". destruct lt as [|cl pl ll lr].
    + cbn [ptr]. iApply wp_ret. iPureIntro. destruct al; [|done]. exists ((L, c, vnode a, rt) :: k), l1, (a :: ar ++ l2). split; [done|]. split; [done|]. split; [done|cbn [ctx_before]; by rw app_nil_r|cbn [ctx_after]; simpl; rw vnodes_app Ear E3 //|done|].
      constructor; [done|]. apply Forall_app. split; [|done]. eapply Forall_impl; [exact O2|]. simpl. lia.
    + iAssert (⌜addr_ok pl⌝)%I as %Hpl; [iDestruct "Tl" as "($ & _)"|]. cbn [ptr]. rw addr_ok_ne //. iApply (IHl fuel ((L, c, vnode a, rt) :: k) _ l1 al (a :: ar ++ l2) with "Tl HR"); [done|lia|rewrite El -!app_assoc //|cbn [ctx_before]; by rw app_nil_r|done|cbn [ctx_after]; simpl; rw vnodes_app Ear E3 //|done| |done].
      constructor; [done|]. apply Forall_app. split; [|done]. eapply Forall_impl; [exact O2|]. simpl. lia.
Qed.
Lemma va_links_read_only f : forall s e n, read_only (va_links_loop f s e n).
Proof. induction f as [|f IH]; intros; cbn [va_links_loop]; [apply read_only_no_fuel|]. unfold rb_left, rb_right. solve_read_only. Qed.

(** ** The list *)

(** A node behind [x], and one before [p]. *)
Lemma wp_add_behind head A x B new : dlist head (A ++ x :: B) -∗ raw_list new -∗ wp (list_add new x) (fun _ => dlist head (A ++ x :: new :: B)).
Proof.
  iIntros "H Hn". unfold dlist. iEval (rw lseg_app) in "H". iDestruct "H" as "[HA HB]". iDestruct (lseg_first with "HB") as (n) "[[Hx Hn'] HB]". unfold list_add. wp_ld "Hx". iApply (wp___list_add with "[$Hx $Hn'] Hn"). iIntros "E1 E2". iApply (lseg_join with "HA"). simpl. iFrame "E1". by iApply "HB".
Qed.
Lemma dlist_prev head A p B : dlist head (A ++ p :: B) -∗ ∃ y, list_prev p ↦ y ∗ (list_prev p ↦ y -∗ dlist head (A ++ p :: B) ∧ ∀ new, raw_list new -∗ wp (list_add new y) (fun _ => dlist head (A ++ new :: p :: B))).
Proof.
  iIntros "H". unfold dlist. iEval (rw lseg_app) in "H". iDestruct "H" as "[HA HB]". iDestruct (lseg_last with "HA") as (y) "[[Hy Hp] HA]". iExists y. iFrame "Hp". iIntros "Hp". iSplit.
  - iDestruct ("HA" $! [] p with "[$Hy $Hp]") as "HA". rw app_nil_r. iApply (lseg_join with "HA HB").
  - iIntros (new) "Hn". unfold list_add. wp_ld "Hy". iApply (wp___list_add with "[$Hy $Hp] Hn"). iIntros "E1 E2". iDestruct ("HA" $! [] new with "E1") as "HA". rw app_nil_r. iApply (lseg_join with "HA"). simpl. iFrame.
Qed.
