(* ===== verification/VmapAlloc.v ===== *)
(** * Virtual memory areas of the kernel: allocation

    An allocation takes its range out of the free areas and enters it among the areas in use; nothing is free and in use at
    once, and no address is lost. *)

From Stdlib Require Import ZArith Lia.
From stdpp Require Import base tactics numbers list strings gmap sorting functions.
From iris.proofmode Require Import proofmode.
From S2P Require Import Prelude Words HeapLogic KList RbTree RbTreeProofs RbTreeSpec RbAugment RbAugErase Vmap VmapSpec.
#[local] Open Scope Z_scope.

(** ** Linking a new area *)

(** The memory of an area that is in no tree and no list. *)
Definition loose (a : area) : hprop := (raw_node (vnode a) ∗ raw_list (vlist a) ∗ ∃ g, (v_a a + off_max_size) ↦ g)%I.
Lemma ctx_clean root k c n x : n <> 0 -> ctx_at root k c -∗ n ↦ x -∗ ⌜clean (fun y => y <> n) k⌝.
Proof.
  iIntros (Hn) "Hk Hx". iInduction k as [|[[[d cl] p] s] k] "IH" forall (c); [iPureIntro; constructor|]. cbn [ctx_at]. iDestruct "Hk" as "(%Hp & Hp & _ & _ & Hs & Hk)". iDestruct ("IH" with "Hk Hx") as %HK. iDestruct (cell_ne with "Hp Hx") as %H1.
  iAssert (⌜ptr s <> n⌝)%I as %H2; [|iPureIntro; constructor; [split; [exact H1|exact H2]|exact HK]]. destruct s as [|c' q sl sr]; cbn [ptr tree_at]; [iPureIntro; congruence|]. iDestruct "Hs" as "(_ & Hs & _)". iApply (cell_ne with "Hs Hx").
Qed.
Lemma range_fresh l a : range_at a -∗ ranges l -∗ ⌜vnode a ∉ vnodes l⌝.
Proof.
  iIntros "Ha HR" (Hin). apply list_elem_of_fmap in Hin as (b & E & Hb). iDestruct (range_acc _ b with "HR") as "[[Hs _] _]"; [done|]. iDestruct "Ha" as "[Ha _]". assert (v_a b = v_a a) as -> by (unfold vnode in E; lia). iApply (cell_excl with "Ha Hs").
Qed.
Lemma NoDup_middle (x : Z) l1 l2 : NoDup (l1 ++ l2) -> x ∉ l1 ++ l2 -> NoDup (l1 ++ x :: l2).
Proof.
  rewrite !NoDup_app NoDup_cons elem_of_app. intros (H1 & H2 & H3) Hx. split; [done|]. split; [|split; [tauto|done]]. intros y Hy. rewrite elem_of_cons. intros [->|Hy2]; [tauto|]. by apply (H2 y).
Qed.

(** The list node behind which a new area goes. *)
Lemma wp_list_head l root k l1 l2 head Q : Forall area_ok l -> l = l1 ++ l2 -> vnodes l1 = ctx_before k -> vnodes l2 = ctx_after k ->
  dlist head (vlists l) -∗ (∀ h, (∀ new, raw_list new -∗ wp (list_add new h) (fun _ => dlist head (vlists l1 ++ new :: vlists l2))) -∗ Q h) -∗
  wp (if negb (ctxp k =? 0) then
        let head := va_entry (ctxp k) + off_va_list in
        if negb (ctxp k + off_right =? link_of root k) then ld (list_prev head) else mret head
      else mret head) Q.
Proof.
  iIntros (HF -> E1 E2) "HD HQ". destruct k as [|[[[d c] p] s] k]; cbn [ctxp link_of].
  - destruct l1; [|done]. destruct l2; [|done]. iApply wp_ret. iApply "HQ". iIntros (new) "Hn". iApply (wp_list_add with "HD Hn").
  - destruct d; cbn [ctx_before ctx_after off] in *.
    + destruct (vnodes_split l2 [] p (inorder s ++ ctx_after k) E2) as (z & a & r & -> & Ez & <- & _). destruct z; [|done]. simpl app in *. apply Forall_app in HF as [_ HF]. apply Forall_cons in HF as [(Hv & _) _]. unfold vnode, off_va_rb, off_right, off_left. destruct (Z.eqb_spec (v_a a + 16) 0); [lia|]. destruct (Z.eqb_spec (v_a a + 16 + 8) (v_a a + 16 + 16)); [lia|]. cbn [negb]. cbv zeta. replace (va_entry (v_a a + 16) + off_va_list) with (vlist a) by (unfold va_entry, vlist, off_va_rb; lia).
      unfold vlists. rw fmap_app fmap_cons. iDestruct (dlist_prev with "HD") as (y) "[Hy HD]". iApply (wp_ld with "Hy"). iIntros "Hy". iApply "HQ". iIntros (new) "Hn". iDestruct ("HD" with "Hy") as "[_ HD]". iApply ("HD" with "Hn").
    + rewrite app_assoc in E1. destruct (vnodes_split l1 _ p [] E1) as (l1' & a & z & -> & _ & <- & Ez). destruct z; [|done]. rewrite -app_assoc in HF. apply Forall_app in HF as [_ HF]. apply Forall_cons in HF as [(Hv & _) _]. unfold vnode, off_va_rb. destruct (Z.eqb_spec (v_a a + 16) 0); [lia|]. rewrite Z.eqb_refl. cbn [negb]. cbv zeta. replace (va_entry (v_a a + 16) + off_va_list) with (vlist a) by (unfold va_entry, vlist, off_va_rb; lia).
      iApply wp_ret. iApply "HQ". iIntros (new) "Hn". unfold vlists. rewrite !fmap_app -!app_assoc. simpl. iApply (wp_add_behind with "HD Hn").
Qed.

Lemma ordered_insert l1 a l2 : ordered (l1 ++ l2) -> area_ok a -> Forall (fun b => v_e b <= v_s a) l1 -> Forall (fun b => v_e a <= v_s b) l2 -> ordered (l1 ++ a :: l2).
Proof.
  intros [HF HS] Ha H1 H2. apply Forall_app in HF as [F1 F2]. split; [apply Forall_app; split; [done|by constructor]|]. clear F1 F2 Ha. induction l1 as [|b l1 IH]; simpl in *; [by constructor|]. apply Forall_cons in H1 as [Hb H1]. apply StronglySorted_inv in HS as [HS Hall]. constructor; [by apply IH|]. apply Forall_app in Hall as [Ha1 Ha2]. apply Forall_app. split; [done|]. by constructor.
Qed.
Lemma size_at_insert l1 a l2 n : vnode a <> n -> size_at (l1 ++ a :: l2) n = size_at (l1 ++ l2) n.
Proof. intros Hn. induction l1 as [|b l1 IH]; simpl; [by destruct (Z.eqb_spec (vnode a) n)|]. by rewrite IH. Qed.
Lemma ranges_insert l1 a l2 : ranges (l1 ++ a :: l2) ⊣⊢ range_at a ∗ ranges (l1 ++ l2).
Proof. unfold ranges. rw !big_sepL_app big_sepL_cons. iSplit; iIntros "($ & $ & $)". Qed.
Lemma labels_insert lab l1 n l2 x : n ∉ l1 ++ l2 -> labels off_va_rb off_max_size lab (l1 ++ l2) -∗ label_at off_va_rb off_max_size n x -∗ labels off_va_rb off_max_size (<[n := x]> lab) (l1 ++ n :: l2).
Proof.
  iIntros (Hn) "HL Hx". iDestruct (labels_agree _ _ lab (<[n := x]> lab) with "HL") as "HL"; [intros m Hm; rw fn_lookup_insert_ne //; by intros ->|]. unfold labels. rw !big_sepL_app big_sepL_cons fn_lookup_insert. iDestruct "HL" as "[$ $]". iFrame.
Qed.

Section LinkFree.
Context (V : vmap_vars) (l1 l2 : list area) (a : area).
Notation l' := (l1 ++ a :: l2).
Notation root := (free_vmap_area_root V).
Notation but := (data_but off_va_rb off_max_size (ranges l') (size_at l') (vnodes l') (vnode a)).
Context (Ho : ordered l') (ND : NoDup (vnodes l')) (Hok : addr_ok (vnode a)).
Lemma node_in : vnode a ∈ vnodes l'.
Proof using Type. apply list_elem_of_fmap_2, elem_of_app. right. left. Qed.
(** The labels of the tree with the new node, the label of the node itself apart. *)
Lemma linked_data k : inorder (plug k Leaf) = vnodes (l1 ++ l2) -> ctx_before k = vnodes l1 -> maxima (l1 ++ l2) (plug k Leaf) -∗ range_at a -∗ (∃ g, (v_a a + off_max_size) ↦ g) -∗ but (plug k (Node Red (vnode a) Leaf Leaf)).
Proof using ND.
  iIntros (En E1) "(%lab & (%Hlab & _ & _) & HL & HR) Ha (%g & Hg)". assert (vnode a ∉ vnodes l1 ++ vnodes l2) as Hn by (pose proof ND as ND2; rewrite vnodes_app /= in ND2; apply NoDup_mid in ND2 as (H1 & H2 & _); rewrite elem_of_app; tauto).
  assert (ctx_after k = vnodes l2) as E2 by (rewrite inorder_ctx /= vnodes_app E1 in En; by apply app_inv_head in En). iExists (<[vnode a := 0]> lab), g. iSplitR.
  - iPureIntro. split; [|rewrite inorder_ctx /= E1 E2 vnodes_app //]. apply aug_plug in Hlab as [_ Hk]. apply aug_plug. cbn [aug_ok inorder app wmax]. rewrite !fn_lookup_insert. split; [done|]. replace (Z.max 0 0) with 0 by lia. apply ctx_insert; [by rewrite E1 E2|]. eapply ctx_values; [|exact Hk]. rewrite E1 E2. intros n Hin. assert (vnode a <> n) by (intros E; apply Hn; by rewrite E). rw fn_lookup_insert_ne //. by apply size_at_insert.
  - rw ranges_insert. iFrame. rewrite !vnodes_app. iApply (labels_agree with "[HL Hg]"); [|iApply (labels_insert with "HL [Hg]"); [done|]].
    + intros n _. destruct (decide (n = vnode a)) as [->|]; [by rewrite !fn_lookup_insert|by rewrite !fn_lookup_insert_ne].
    + unfold label_at. replace (vnode a - off_va_rb + off_max_size) with (v_a a + off_max_size) by (unfold vnode; lia). iExact "Hg".
Qed.
Lemma wp_link_free fuel k h : rb (plug k Leaf) Black h -> (S (rb_bound (S (length (l1 ++ l2)))) < fuel)%nat -> site (l1 ++ l2) (v_s a) (v_e a) k l1 l2 ->
  rbtree root (plug k Leaf) -∗ maxima (l1 ++ l2) (plug k Leaf) -∗ dlist (free_vmap_area_list V) (vlists (l1 ++ l2)) -∗ range_at a -∗ loose a -∗
  wp (link_va fuel V (v_a a) root (ctxp k) (link_of root k) (free_vmap_area_list V);; augment_tree_propagate_from fuel (v_a a)) (fun _ => free_space V l').
Proof using Ho ND Hok.
  iIntros (Hrb Hf [_ E1 E2 _ _]) "Ht HM HD Ha (Hn & Hl & Hg)". assert (inorder (plug k Leaf) = vnodes (l1 ++ l2)) as En by (rewrite inorder_ctx /= vnodes_app E1 E2 //). assert (Forall area_ok (l1 ++ l2)) as HF by (pose proof (proj1 Ho) as HF; rewrite !Forall_app Forall_cons in HF |- *; tauto).
  pose proof (rb_bound_mono (length (l1 ++ l2)) (S (length (l1 ++ l2))) ltac:(lia)) as Hmono. iApply wp_bind. unfold link_va. iApply wp_bind. iApply (wp_list_head (l1 ++ l2) root k l1 l2 with "HD"); [done..|]. iIntros (h') "Hadd".
  iApply wp_bind. iApply (wp_wand with "[Ht Hn]"); [by iApply (wp_link_node with "Ht Hn")|]. iIntros (_) "[Hk Ht]". iAssert (⌜clean (fun y => y <> vnode a) k⌝)%I as %Hc. { cbn [tree_at]. iDestruct "Ht" as "(_ & Hx & _)". iApply (ctx_clean with "Hk Hx"). pose proof (proj1 Hok). lia. }
  iDestruct (linked_data k with "HM Ha Hg") as "HI"; [done|done|]. rewrite Z.eqb_refl. iApply wp_bind. iApply wp_bind.
  pose proof (rotate_but off_va_rb off_max_size va_size (ranges l') (size_at l') (vnodes l') (vnode a) (va_compute _ Ho ND) ND (vnodes_nonzero _ Ho) (fun n _ => size_nonneg _ n Ho)) as HRot.
  iApply (wp_wand with "[Hk Ht HI]"). { iApply (wp_insert_augmented with "[Hk Ht] HI"); [exact Hc|pose proof (proj1 Hok); lia|exact Hrb| |by iApply (plug_close _ _ (Node Red (vnode a) Leaf Leaf) with "Hk Ht")]. unfold RbTreeSpec.size. rewrite En length_fmap. lia. }
  iIntros (_) "(%t' & %h2 & (%Hrb' & %En') & Ht & HI)". replace (v_a a + off_max_size) with (vnode a - off_va_rb + off_max_size) by (unfold vnode; lia). iApply (wp_label_zero _ _ _ _ _ _ ND node_in with "HI"). iIntros "HI". iApply (wp_wand with "[Hl Hadd]"); [iApply ("Hadd" with "Hl")|]. iIntros (_) "HD".
  assert (inorder t' = vnodes l1 ++ vnode a :: vnodes l2) as En2 by (rewrite En' E1 E2 //). destruct (inorder_split t' _ _ _ En2) as (k' & c' & lt & rt & -> & _). unfold augment_tree_propagate_from, augment_cb_propagate. change (v_a a + off_va_rb) with (vnode a).
  iApply (wp_wand with "[Ht HI]"). { iApply (wp_label_new _ _ _ _ _ _ _ (va_compute _ Ho ND) ND (vnodes_nonzero _ Ho) (fun n _ => size_nonneg _ n Ho) with "Ht HI").
    - pose proof (rb_depth_log _ _ Hrb') as Hd. pose proof (depth_plug k' (Node c' (vnode a) lt rt)) as Hdp. simpl in Hdp. unfold RbTreeSpec.size in Hd. rewrite En2 length_app /= !length_fmap in Hd. rewrite length_app in Hf. replace (length l1 + S (length l2))%nat with (S (length l1 + length l2)) in Hd by lia. lia.
    - rewrite (size_at_in _ a ND); [|apply elem_of_app; right; left]. destruct (areas_split _ _ _ Ho) as (_ & _ & (_ & Hse & _) & _). unfold sz. lia.
    - by rewrite En2 vnodes_app. }
  iIntros (_) "[Ht HM]". iExists _. iFrame. iSplitR; [iPureIntro; by exists h2|]. unfold vlists. rewrite fmap_app. done.
Qed.
End LinkFree.

(** ** The place of a new area *)

Lemma split_once s e x1 x2 y1 y2 : s < e -> Forall area_ok (x1 ++ x2) -> x1 ++ x2 = y1 ++ y2 -> Forall (fun b => v_e b <= s) x1 -> Forall (fun b => v_e b <= s) y1 ->
  Forall (fun b => e <= v_s b) x2 -> Forall (fun b => e <= v_s b) y2 -> x1 = y1 /\ x2 = y2.
Proof.
  intros Hse HF. revert y1. induction x1 as [|b x1 IH]; intros [|c y1] E H1 H2 H3 H4; simpl in *; subst.
  - done.
  - exfalso. apply Forall_cons in H2 as [H2 _]. apply Forall_cons in H3 as [H3 _]. apply Forall_cons in HF as [(_ & HF & _) _]. lia.
  - exfalso. apply Forall_cons in H1 as [H1 _]. apply Forall_cons in H4 as [H4 _]. apply Forall_cons in HF as [(_ & HF & _) _]. lia.
  - injection E as <- E. apply Forall_cons in H1 as [_ H1]. apply Forall_cons in H2 as [_ H2]. apply Forall_cons in HF as [_ HF]. destruct (IH HF y1 E H1 H2 H3 H4) as [-> ->]. done.
Qed.
Lemma find_links_read_only f va root from : read_only (find_va_links f va root from).
Proof. unfold find_va_links. pose proof (va_links_read_only f). solve_read_only. Qed.
Lemma wp_find_root root t l a fuel : root <> 0 -> inorder t = vnodes l -> ordered l -> area_ok a -> Forall (apart (v_s a) (v_e a)) l -> (depth t <= fuel)%nat ->
  rbtree root t ∗ ranges l ∗ range_at a ⊢ wp (find_va_links fuel (v_a a) root 0) (fun r => ⌜links_post l (v_s a) (v_e a) root t r⌝ ∗ rbtree root t ∗ ranges l ∗ range_at a)%I.
Proof.
  intros Hr En Ho (_ & Hse & _) Hap Hf. apply wp_read_only; [apply find_links_read_only|]. iIntros "([Hr Ht] & HR & [Hs He])". unfold find_va_links. wp_ld "Hs". wp_ld "He". destruct (Z.eqb_spec root 0); [done|]. simpl negb. cbn iota. wp_ld "Hr". destruct t as [|c p lt rt].
  - iApply wp_ret. iPureIntro. destruct l; [|done]. exists [], [], []. split; [done|]. split; [done|]. by split.
  - iAssert (⌜addr_ok p⌝)%I as %Hp; [iDestruct "Ht" as "($ & _)"|]. cbn [ptr]. rw addr_ok_ne //. change p with (ptr (Node c p lt rt)) at 1. iApply (wp_va_links l (v_s a) (v_e a) root _ ltac:(lia) Ho fuel [] 0 [] l [] with "Ht HR"); try done. by rewrite app_nil_r.
Qed.
Lemma wp_find_from root t l1 a l2 b fuel : inorder t = vnodes (l1 ++ a :: l2) -> ordered (l1 ++ a :: l2) -> area_ok b -> Forall (fun c => v_e c <= v_s b) l1 -> v_e b <= v_s a -> (depth t <= fuel)%nat ->
  rbtree root t ∗ ranges (l1 ++ a :: l2) ∗ range_at b ⊢ wp (find_va_links fuel (v_a b) 0 (vnode a)) (fun r => ⌜links_post (l1 ++ a :: l2) (v_s b) (v_e b) root t r⌝ ∗ rbtree root t ∗ ranges (l1 ++ a :: l2) ∗ range_at b)%I.
Proof.
  intros En Ho (_ & Hse & _) B1 Ba Hf. apply wp_read_only; [apply find_links_read_only|]. iIntros "(Ht & HR & [Hs He])". unfold find_va_links. wp_ld "Hs". wp_ld "He". simpl negb. cbn iota.
  assert (inorder t = vnodes l1 ++ vnode a :: vnodes l2) as En' by (rewrite En vnodes_app //). destruct (inorder_split t _ _ _ En') as (k & c & lt & rt & -> & E1 & E2). apply fmap_app_inv in E1 as (x1 & x2 & E1 & Ex2 & ->). apply fmap_app_inv in E2 as (y1 & y2 & Ey1 & E2 & ->).
  iDestruct (plug_open with "Ht") as "[_ Ht]". pose proof (depth_plug k (Node c (vnode a) lt rt)) as Hdp. destruct (areas_split _ _ _ Ho) as (_ & _ & _ & _ & O2). apply Forall_app in B1 as [B1 B1']. apply Forall_app in O2 as [O2 O2'].
  assert (forall c, v_e a <= v_s c -> v_e b <= v_s c) as Hle. { intros x Hx. destruct (areas_split _ _ _ Ho) as (_ & _ & (_ & Ha & _) & _). lia. }
  iApply (wp_va_links _ (v_s b) (v_e b) root (Node c (vnode a) lt rt) ltac:(lia) Ho fuel k _ x1 (x2 ++ a :: y1) y2 with "Ht HR"); [done|lia|rewrite -!app_assoc //|by symmetry|simpl; rewrite vnodes_app /= Ex2 Ey1 //|by symmetry|done| |].
  - eapply Forall_impl; [exact O2'|]. exact Hle.
  - apply Forall_app. split; [eapply Forall_impl; [exact B1'|]; intros x Hx; by left|]. constructor; [by right|]. eapply Forall_impl; [exact O2|]. intros x Hx. right. by apply Hle.
Qed.
Lemma wp_insert_from V l1 a l2 b fuel : ordered (l1 ++ a :: l2) -> area_ok b -> addr_ok (vnode b) -> addr_ok (vnode a) -> Forall (fun c => v_e c <= v_s b) l1 -> v_e b <= v_s a -> (S (rb_bound (S (length (l1 ++ a :: l2)))) < fuel)%nat ->
  free_space V (l1 ++ a :: l2) -∗ range_at b -∗ loose b -∗
  wp (insert_vmap_area_augment fuel V (v_a b) (vnode a) (free_vmap_area_root V) (free_vmap_area_list V)) (fun _ => free_space V (l1 ++ b :: a :: l2)).
Proof.
  iIntros (Ho Hb Hbok Haok B1 Ba Hf) "(%t & %Ht & Ht & (%lab & (%Hlab & %En & %ND) & HL & HR) & HD) Hr Hlo". pose proof (free_depth t _ Ht En) as Hd. pose proof (rb_bound_mono (length (l1 ++ a :: l2)) (S (length (l1 ++ a :: l2))) ltac:(lia)) as Hmono.
  assert (ordered (l1 ++ b :: a :: l2)) as Ho'. { apply ordered_insert; [done..|]. destruct (areas_split _ _ _ Ho) as (_ & _ & (_ & Ha & _) & _ & O2). constructor; [done|]. eapply Forall_impl; [exact O2|]. simpl. lia. }
  iDestruct (range_fresh with "Hr HR") as %Hfr. assert (NoDup (vnodes (l1 ++ b :: a :: l2))) as ND' by (rewrite vnodes_app /= in ND Hfr; rewrite vnodes_app /=; by apply NoDup_middle).
  unfold insert_vmap_area_augment. rw addr_ok_ne //. simpl negb. cbn iota. iApply wp_bind. iApply (wp_wand with "[Ht HR Hr]"); [iApply (wp_find_from (free_vmap_area_root V) t l1 a l2 b fuel with "[$Ht $HR $Hr]"); [done..|lia]|]. iIntros (r) "((%k & %x1 & %x2 & <- & -> & %HSi) & Ht & HR & Hr)".
  destruct (split_once (v_s b) (v_e b) l1 (a :: l2) x1 x2) as [<- <-]; [destruct Hb; lia|apply Ho|apply (si_list _ _ _ _ _ _ HSi)|done|apply (si_ends _ _ _ _ _ _ HSi)| |apply (si_starts _ _ _ _ _ _ HSi)|].
  { destruct (areas_split _ _ _ Ho) as (_ & _ & (_ & Ha & _) & _ & O2). constructor; [done|]. eapply Forall_impl; [exact O2|]. simpl. lia. }
  destruct Ht as [h Hrb]. iApply (wp_link_free V l1 (a :: l2) b Ho' ND' Hbok fuel k h Hrb Hf HSi with "Ht [HL HR] HD Hr Hlo"). iExists lab. by iFrame.
Qed.

(** ** Taking an area out *)

Lemma pc_not_self par c n : parent_ok par -> addr_ok n -> par <> n -> (pcval par c =? n) = false.
Proof. intros Hp Hn Hne. apply Z.eqb_neq. intros E. apply Hne. rewrite -(pcval_parent par c Hp) E -{1}(pcval_red n). apply pcval_parent. by right. Qed.
Lemma maxima_drop l1 a l2 t : NoDup (vnodes (l1 ++ a :: l2)) -> aug_data off_va_rb off_max_size (ranges (l1 ++ a :: l2)) (size_at (l1 ++ a :: l2)) (vnodes l1 ++ vnodes l2) t ⊢ maxima (l1 ++ l2) t.
Proof.
  iIntros (ND) "(%lab & (%Hlab & %En & %ND') & HL & HR)". rw ranges_insert. iDestruct "HR" as "[_ HR]". unfold maxima. rewrite vnodes_app. iExists lab. iFrame. iPureIntro. split; [|done]. eapply aug_values; [|exact Hlab]. rewrite En. intros n Hn. symmetry. apply size_at_insert. intros E. rewrite vnodes_app /= in ND. apply NoDup_mid in ND as (H1 & H2 & _). rewrite E in H1 H2. apply elem_of_app in Hn. tauto.
Qed.
Lemma wp_unlink_free V l1 a l2 fuel : ordered (l1 ++ a :: l2) -> (S (rb_bound (length (l1 ++ a :: l2))) < fuel)%nat ->
  free_space V (l1 ++ a :: l2) -∗ wp (unlink_va fuel V (v_a a) (free_vmap_area_root V)) (fun _ => free_space V (l1 ++ l2)).
Proof.
  iIntros (Ho Hf) "(%t & [%h %Hrb] & Ht & HM & HD)". iAssert (⌜inorder t = vnodes (l1 ++ a :: l2) /\ NoDup (vnodes (l1 ++ a :: l2))⌝)%I as %[En ND]; [iDestruct "HM" as (lab (_ & ? & ?)) "_"; done|].
  assert (inorder t = vnodes l1 ++ vnode a :: vnodes l2) as En' by (rewrite En vnodes_app //). destruct (inorder_split t _ _ _ En') as (k & c & lt & rt & -> & E1 & E2).
  unfold unlink_va, RB_EMPTY_NODE, RB_CLEAR_NODE. change (v_a a + off_va_rb) with (vnode a). iApply wp_bind. iDestruct (plug_open with "Ht") as "[Hk Ht]". cbn [ptr]. iDestruct (ctx_parent_ok with "Hk") as %Hpar. iDestruct (tree_ctx_ne with "Hk Ht") as %Hne. cbn [tree_at]. iDestruct "Ht" as "(%Hok & Hpc & Ht)". unfold parent_color. wp_ld "Hpc". iApply wp_ret. rewrite pc_not_self //. cbn iota. iApply wp_bind. iApply wp_ret.
  iAssert (rbtree (free_vmap_area_root V) (plug k (Node c (vnode a) lt rt))) with "[Hk Hpc Ht]" as "Ht"; [iApply (plug_close _ _ (Node c (vnode a) lt rt) with "Hk"); cbn [tree_at]; by iFrame|]. rewrite Z.eqb_refl. iApply wp_bind.
  pose proof (va_compute _ Ho ND) as HC. assert (vnodes (l1 ++ a :: l2) = vnodes l1 ++ vnode a :: vnodes l2) as EV by apply vnodes_app. pose proof ND as ND1. rewrite EV in HC ND1. assert (forall n, n ∈ vnodes l1 ++ vnode a :: vnodes l2 -> n <> 0) as HZ by (rewrite -EV; by apply vnodes_nonzero).
  pose proof (augment_erase_spec off_va_rb off_max_size va_size (ranges (l1 ++ a :: l2)) (size_at (l1 ++ a :: l2)) (vnode a) (vnodes l1) (vnodes l2) HC ND1 HZ (fun n _ => size_nonneg _ n Ho) fuel (rb_bound (length (l1 ++ a :: l2))) ltac:(lia)) as HE.
  pose proof (augment_rotate_spec off_va_rb off_max_size va_size (ranges (l1 ++ a :: l2)) (size_at (l1 ++ a :: l2)) (vnodes l1 ++ vnodes l2) (compute_N1 _ _ _ _ _ _ _ HC) (nodup_N1 _ _ _ ND1) (nonzero_N1 _ _ _ HZ) (fun n _ => size_nonneg _ n Ho)) as HR.
  assert (RbTreeSpec.size (plug k (Node c (vnode a) lt rt)) = length (l1 ++ a :: l2)) as ES by (unfold RbTreeSpec.size; rewrite En length_fmap //). unfold maxima. rewrite EV.
  iApply (wp_wand with "[Ht HM]"). { iApply (wp_rb_erase_aug (vnode a) augment_cb_rotate augment_cb_copy (augment_cb_propagate fuel) _ _ _ _ _ _ k c lt rt h fuel Hrb with "Ht HM"); rewrite ES; lia. }
  iIntros (_) "[(%t' & %h' & (%Hrb' & %En2) & Ht & HM) (%x & %y & %z & Hn & _)]". iDestruct (maxima_drop with "HM") as "HM"; [exact ND|]. unfold vlists. rewrite fmap_app /=. iApply wp_bind. iApply (wp_wand with "[HD]"); [iApply (wp_list_del with "HD")|]. iIntros (_) "[HD _]". iApply (wp_st with "Hn"). iIntros "_". iExists t'. iFrame. iSplitR; [iPureIntro; by exists h'|]. unfold vlists. by rewrite fmap_app.
Qed.

(** ** Taking a range out of an area *)

(** The memory of a structure that the cache hands out. *)
Definition blank (p : Z) : hprop := (∃ x y, range_at (Area p x y) ∗ loose (Area p x y))%I.
(** What is left of the area when [size] bytes from [n] on are taken out; [fresh] is the structure for a second part. *)
Definition remains (fresh : Z) (a : area) (n size : Z) : list area :=
  match v_s a <? n, n + size <? v_e a with
  | false, false => []
  | false, true => [Area (v_a a) (n + size) (v_e a)]
  | true, false => [Area (v_a a) (v_s a) n]
  | true, true => [Area fresh (v_s a) n; Area (v_a a) (n + size) (v_e a)]
  end.
Lemma ordered_del l1 a l2 : ordered (l1 ++ a :: l2) -> ordered (l1 ++ l2).
Proof.
  intros [HF HS]. split; [rewrite !Forall_app Forall_cons in HF |- *; tauto|]. clear HF. induction l1 as [|b l1 IH]; simpl in *; apply StronglySorted_inv in HS as [HS H]; [done|]. constructor; [by apply IH|]. rewrite !Forall_app Forall_cons in H |- *. tauto.
Qed.
Lemma ordered_change l1 a a' l2 : ordered (l1 ++ a :: l2) -> area_ok a' -> v_s a <= v_s a' -> v_e a' <= v_e a -> ordered (l1 ++ a' :: l2).
Proof.
  intros Ho Ha H1 H2. destruct (areas_split _ _ _ Ho) as (_ & _ & _ & O1 & O2). apply ordered_insert; [by apply (ordered_del _ a)|done| |].
  - eapply Forall_impl; [exact O1|]. simpl. lia.
  - eapply Forall_impl; [exact O2|]. simpl. lia.
Qed.
(** The state of the free areas with the range of one of them taken apart. *)
Lemma wp_change V l1 a a' l2 fuel : v_a a' = v_a a -> ordered (l1 ++ a :: l2) -> area_ok a' -> v_s a <= v_s a' -> v_e a' <= v_e a -> (S (rb_bound (length (l1 ++ a :: l2))) < fuel)%nat ->
  free_space V (l1 ++ a :: l2) -∗ range_at a ∗ (range_at a' -∗ wp (augment_tree_propagate_from fuel (v_a a)) (fun _ => free_space V (l1 ++ a' :: l2))).
Proof.
  iIntros (Ea Ho Ha' H1 H2 Hf) "(%t & %Ht & Ht & (%lab & (%Hlab & %En & %ND) & HL & HR) & HD)". rw ranges_insert. iDestruct "HR" as "[$ HR]". iIntros "Ha'". pose proof (free_depth t _ Ht En) as Hd.
  iApply (wp_wand with "[Ht HL HR Ha']"). { iApply (wp_resize _ fuel t l1 a a' l2 lab with "Ht HL"); [done|by apply (ordered_change _ a)|done|lia|done|done|]. rw ranges_insert. iFrame. }
  iIntros (_) "[Ht HM]". iExists t. iFrame. iSplitR; [done|]. unfold vlists. rewrite !fmap_app /=. assert (vlist a' = vlist a) as -> by (unfold vlist; congruence). done.
Qed.

Lemma wp_carve V l1 a l2 fresh n size vend fuel : ordered (l1 ++ a :: l2) -> addr_ok (vnode a) -> addr_ok (fresh + off_va_rb) -> 0 < fresh -> 0 < size -> v_s a <= n -> n + size <= v_e a -> (S (rb_bound (S (length (l1 ++ a :: l2)))) < fuel)%nat ->
  free_space V (l1 ++ a :: l2) -∗ blank fresh -∗
  wp (type ← classify_va_fit_type (v_a a) n size;
      match type with
      | NOTHING_FIT => st_panic "BUG"
      | _ =>
          r ← adjust_va_to_fit_type fuel V fresh (v_a a) n size type;
          mret (if negb (r =? 0) then vend else n)
      end) (fun r => ⌜r = n⌝ ∗ free_space V (l1 ++ remains fresh a n size ++ l2))%I.
Proof.
  iIntros (Ho Hok Hfok Hfr Hsz Hn He Hf) "HS HB". destruct (areas_split _ _ _ Ho) as (_ & _ & (Hva & Hse & Hee) & O1 & O2). pose proof (rb_bound_mono (length (l1 ++ a :: l2)) (S (length (l1 ++ a :: l2))) ltac:(lia)) as Hmono. assert (u64 (n + size) = n + size) as Eu by (apply Z.mod_small; lia).
  iAssert (range_at a ∗ (range_at a -∗ free_space V (l1 ++ a :: l2)))%I with "[HS]" as "[[Rs Re] HS]". { iDestruct "HS" as "(%t & %Ht & Ht & (%lab & %HL & HL & HR) & HD)". iDestruct (range_acc _ a with "HR") as "[$ HR]"; [apply elem_of_app; right; left|]. iIntros "Ha". iDestruct ("HR" with "Ha") as "HR". iExists t. iFrame. by iFrame "%". }
  iApply wp_bind. unfold classify_va_fit_type. wp_ld "Rs". wp_ld "Re". iDestruct ("HS" with "[$Rs $Re]") as "HS". rewrite Eu. destruct (Z.ltb_spec n (v_s a)); [lia|]. destruct (Z.ltb_spec (v_e a) (n + size)); [lia|]. cbn [orb]. unfold remains. destruct (Z.eqb_spec (v_s a) n) as [E1|E1]; destruct (Z.eqb_spec (v_e a) (n + size)) as [E2|E2]; iApply wp_ret; unfold adjust_va_to_fit_type.
  - (* the whole area *)
    destruct (Z.ltb_spec (v_s a) n); [lia|]. destruct (Z.ltb_spec (n + size) (v_e a)); [lia|]. iApply wp_bind. iApply wp_bind. iApply (wp_wand with "[HS]"); [iApply (wp_unlink_free with "HS"); [done|lia]|]. iIntros (_) "HS". iApply wp_ret. iApply wp_ret. by iFrame.
  - (* its start *)
    destruct (Z.ltb_spec (v_s a) n); [lia|]. destruct (Z.ltb_spec (n + size) (v_e a)); [|lia]. iApply wp_bind. iDestruct (wp_change V l1 a (Area (v_a a) (n + size) (v_e a)) l2 fuel with "HS") as "[[Rs Re] HS]"; [done|done|split; simpl; lia|simpl; lia|simpl; lia|lia|]. wp_ld "Rs". wp_st "Rs". rewrite E1 Eu. iApply wp_bind. iApply (wp_wand with "[-]"); [iApply ("HS" with "[$Rs $Re]")|]. iIntros (_) "HS". iApply wp_ret. iApply wp_ret. by iFrame.
  - (* its end *)
    destruct (Z.ltb_spec (v_s a) n); [|lia]. destruct (Z.ltb_spec (n + size) (v_e a)); [lia|]. iApply wp_bind. iDestruct (wp_change V l1 a (Area (v_a a) (v_s a) n) l2 fuel with "HS") as "[[Rs Re] HS]"; [done|done|split; simpl; lia|simpl; lia|simpl; lia|lia|]. wp_st "Re". iApply wp_bind. iApply (wp_wand with "[-]"); [iApply ("HS" with "[$Rs $Re]")|]. iIntros (_) "HS". iApply wp_ret. iApply wp_ret. by iFrame.
  - (* the middle *)
    destruct (Z.ltb_spec (v_s a) n); [|lia]. destruct (Z.ltb_spec (n + size) (v_e a)); [|lia]. iApply wp_bind. destruct (Z.eqb_spec fresh 0); [lia|]. set (a' := Area (v_a a) (n + size) (v_e a)). assert (area_ok a') as Ha' by (split; simpl; lia). iDestruct (wp_change V l1 a a' l2 fuel with "HS") as "[[Rs Re] HS]"; [done|done|done|simpl; lia|simpl; lia|lia|]. iDestruct "HB" as (x y) "[[Fs Fe] Hlo]". cbn [v_a v_s v_e].
    wp_ld "Rs". wp_st "Fs". wp_st "Fe". wp_st "Rs". rewrite Eu. iApply wp_bind. iApply (wp_wand with "[HS Rs Re]"); [iApply ("HS" with "[$Rs $Re]")|]. iIntros (_) "HS". iApply wp_bind. iApply (wp_wand with "[-]").
    { change (v_a a + off_va_rb) with (vnode a'). change fresh with (v_a (Area fresh (v_s a) n)) at 3. iApply (wp_insert_from V l1 a' l2 (Area fresh (v_s a) n) fuel with "HS [$Fs $Fe] [Hlo]"); [by apply (ordered_change _ a); [..|simpl; lia|simpl; lia]|split; simpl; lia|done|done|done|simpl; lia| |iExact "Hlo"]. rewrite length_app /= in Hf. rewrite length_app /=. exact Hf. }
    iIntros (_) "HS". iApply wp_ret. iApply wp_ret. by iFrame.
Qed.

(** ** Areas in use *)

Definition vms (l : list area) : hprop := ([∗ list] a ∈ l, ∃ x, (v_a a + off_va_vm) ↦ x)%I.
Definition busy_space (V : vmap_vars) (l : list area) : hprop :=
  (∃ t, ⌜is_rbtree t /\ inorder t = vnodes l⌝ ∗ rbtree (vmap_area_root V) t ∗ ranges l ∗ vms l ∗ dlist (vmap_area_list V) (vlists l))%I.
Lemma vms_insert l1 a l2 : vms (l1 ++ a :: l2) ⊣⊢ (∃ x, (v_a a + off_va_vm) ↦ x) ∗ vms (l1 ++ l2).
Proof. unfold vms. rw !big_sepL_app big_sepL_cons. iSplit; iIntros "($ & $ & $)". Qed.
Lemma wp_insert_busy V l a fuel : vmap_area_root V <> 0 -> vmap_area_root V <> free_vmap_area_root V -> ordered l -> area_ok a -> addr_ok (vnode a) -> Forall (apart (v_s a) (v_e a)) l -> (rb_bound (length l) < fuel)%nat ->
  busy_space V l -∗ range_at a -∗ loose a -∗
  wp (insert_vmap_area fuel V (v_a a) (vmap_area_root V) (vmap_area_list V)) (fun _ => ∃ l1 l2, ⌜l = l1 ++ l2 /\ ordered (l1 ++ a :: l2)⌝ ∗ busy_space V (l1 ++ a :: l2))%I.
Proof.
  iIntros (Hr0 Hrf Ho Ha Hok Hap Hf) "(%t & (%Ht & %En) & Ht & HR & HV & HD) Hr (Hn & Hl & Hg)". pose proof (free_depth t l Ht En) as Hd. unfold insert_vmap_area. iApply wp_bind. iApply (wp_wand with "[Ht HR Hr]"); [iApply (wp_find_root with "[$Ht $HR $Hr]"); [done..|lia]|].
  iIntros (r) "((%k & %l1 & %l2 & <- & -> & %HSi) & Ht & HR & Hr)". destruct HSi as [-> E1 E2 B1 B2]. destruct Ht as [h Hrb]. unfold link_va. iApply wp_bind. iApply (wp_list_head (l1 ++ l2) (vmap_area_root V) k l1 l2 with "HD"); [apply Ho|done..|]. iIntros (h') "Hadd".
  iApply wp_bind. iApply (wp_wand with "[Ht Hn]"); [by iApply (wp_link_node with "Ht Hn")|]. iIntros (_) "[Hk Ht]". destruct (Z.eqb_spec (vmap_area_root V) (free_vmap_area_root V)); [done|]. iApply wp_bind. iApply (wp_wand with "[Hk Ht]").
  { iApply (wp_insert_color with "Hk Ht"); [exact Hrb|]. unfold RbTreeSpec.size. rewrite En length_fmap. lia. }
  iIntros (_) "(%t' & %h2 & (%Hrb' & %En') & Ht)". iApply (wp_wand with "[Hl Hadd]"); [iApply ("Hadd" with "Hl")|]. iIntros (_) "HD". iExists l1, l2. iSplitR; [iPureIntro; split; [done|by apply ordered_insert]|]. iExists t'. iFrame "Ht". iSplitR; [iPureIntro; split; [by exists h2|rewrite En' -E1 -E2 vnodes_app //]|]. rw ranges_insert vms_insert. unfold vlists. rewrite fmap_app. iFrame "Hr HR HV HD". iExact "Hg".
Qed.

(** ** Allocation *)

Definition disjoint (F B : list area) : Prop := forall a b, a ∈ F -> b ∈ B -> v_e a <= v_s b \/ v_e b <= v_s a.
Record vmap_ok (F B : list area) : Prop := { vo_free : ordered F; vo_busy : ordered B; vo_apart : disjoint F B }.
Definition covered (l : list area) (x : Z) : Prop := exists a, a ∈ l /\ v_s a <= x < v_e a.
(** The variables are apart, the structures have addresses, and the loops have enough steps. *)
Record vars_ok (V : vmap_vars) (F B : list area) (va fresh : Z) (fuel : nat) : Prop := {
  vr_root : vmap_area_root V <> 0;
  vr_roots : vmap_area_root V <> free_vmap_area_root V;
  vr_va : 0 < va /\ addr_ok (va + off_va_rb);
  vr_fresh : 0 < fresh /\ addr_ok (fresh + off_va_rb);
  vr_fuel : (2 * rb_bound (S (length F)) + 2 < fuel)%nat;
  vr_fuel_busy : (rb_bound (length B) < fuel)%nat }.
(** The request, and that some free area has room for it however its start is aligned. *)
Record request_ok (F : list area) (size align vstart vend : Z) : Prop := {
  rq_align : exists k, 0 <= k < 64 /\ align = 2 ^ k;
  rq_size : 0 < size;
  rq_length : size + align <= 2 ^ 64;
  rq_start : 0 <= vstart < 2 ^ 64;
  rq_room : Exists (fun g => Z.max (v_s g) vstart + (size + align - 1) <= Z.min (v_e g) vend) F }.
(** The range from [n] on is taken out of the area [a] of [F1 ++ a :: F2] and given to the structure [va]. *)
Record taken (F1 : list area) (a : area) (F2 : list area) (size align vstart vend n : Z) : Prop := {
  tk_start : n = start_in (v_s a) align vstart;
  tk_inside : v_s a <= n /\ n + size <= v_e a;
  tk_limits : vstart <= n /\ n + size <= vend;
  tk_aligned : n mod align = 0;
  tk_close : n < Z.max (v_s a) vstart + align;
  tk_lowest : Forall (fun b => ~ good size align vstart b) F1 }.

Lemma found_taken F size align vstart vend r : ordered F -> request_ok F size align vstart vend -> found F size align vstart r ->
  exists F1 a F2, F = F1 ++ a :: F2 /\ r = v_a a /\ taken F1 a F2 size align vstart vend (start_in (v_s a) align vstart).
Proof.
  intros Ho [HA Hsz Hl Hv Hroom] (F1 & a & F2 & -> & -> & Hfit & Hlow). exists F1, a, F2. split; [done|]. split; [done|]. destruct (areas_split _ _ _ Ho) as (_ & O2 & (_ & Ha & Hae) & _ & B2).
  assert (exists g, v_s a <= v_s g /\ v_e g < 2 ^ 64 /\ Z.max (v_s g) vstart + (size + align - 1) <= Z.min (v_e g) vend) as (g & Hg & Hge & Hr).
  { apply Exists_app in Hroom as [Hroom|Hroom]; [exfalso; apply Exists_exists in Hroom as (g & Hg & Hr); rewrite Forall_forall in Hlow; apply (Hlow g Hg); unfold good; lia|]. apply Exists_cons in Hroom as [Hr|Hroom]; [exists a; split; [lia|]; split; [lia|exact Hr]|]. apply Exists_exists in Hroom as (g & Hg & Hr). exists g. rewrite Forall_forall in B2. pose proof (B2 g Hg). destruct (ordered_in _ _ O2 Hg) as (_ & ? & ?). simpl in *. split; [lia|]. split; [lia|exact Hr]. }
  assert (0 < align) as Hal by (destruct HA as (k & Hk & ->); apply pow2_pos; lia). destruct (start_bounds align vstart (v_s a) HA ltac:(lia) Hv ltac:(lia)) as [Hm Hn]. unfold fits in Hfit. set (n := start_in (v_s a) align vstart) in *. assert (u64 (n + size) = n + size) as Eu by (apply Z.mod_small; lia). rewrite Eu in Hfit. destruct ((n + size <? n) || (n <? vstart)); [done|]. apply Z.leb_le in Hfit. split; [done|lia|lia|done|lia|done].
Qed.

(** What is left covers the area without the range. *)
Lemma remains_in fresh a n size b : area_ok a -> 0 < size -> v_s a <= n -> n + size <= v_e a -> b ∈ remains fresh a n size -> v_s a <= v_s b /\ v_e b <= v_e a /\ (v_e b <= n \/ n + size <= v_s b).
Proof. intros (_ & Ha & _) Hs Hn He. unfold remains. destruct (Z.ltb_spec (v_s a) n), (Z.ltb_spec (n + size) (v_e a)); rewrite ?elem_of_cons ?elem_of_nil; intros Hb; repeat destruct Hb as [->|Hb]; try done; simpl; lia. Qed.
Lemma remains_ordered l1 a l2 fresh n size : ordered (l1 ++ a :: l2) -> 0 < fresh -> 0 < size -> v_s a <= n -> n + size <= v_e a -> ordered (l1 ++ remains fresh a n size ++ l2).
Proof.
  intros Ho Hf Hs Hn He. destruct (areas_split _ _ _ Ho) as (_ & _ & (Hva & Ha & Hae) & O1 & O2). unfold remains. destruct (Z.ltb_spec (v_s a) n), (Z.ltb_spec (n + size) (v_e a)); simpl.
  - apply ordered_insert; [apply (ordered_change _ a); [done|split; simpl; lia|simpl; lia|simpl; lia]|split; simpl; lia|done|]. simpl. constructor; [simpl; lia|]. eapply Forall_impl; [exact O2|]. simpl. lia.
  - apply (ordered_change _ a); [done|split; simpl; lia|simpl; lia|simpl; lia].
  - apply (ordered_change _ a); [done|split; simpl; lia|simpl; lia|simpl; lia].
  - by apply (ordered_del _ a).
Qed.
Lemma covered_mid l1 m l2 x : covered (l1 ++ m ++ l2) x <-> covered (l1 ++ l2) x \/ covered m x.
Proof. unfold covered. setoid_rewrite elem_of_app. setoid_rewrite elem_of_app. split; [intros (a & [?|[?|?]] & ?); eauto 6|intros [(a & [?|?] & ?)|(a & ? & ?)]; eauto 6]. Qed.
Lemma remains_covered l1 a l2 fresh n size x : ordered (l1 ++ a :: l2) -> 0 < size -> v_s a <= n -> n + size <= v_e a ->
  covered (l1 ++ remains fresh a n size ++ l2) x <-> covered (l1 ++ a :: l2) x /\ ~ n <= x < n + size.
Proof.
  intros Ho Hs Hn He. destruct (areas_split _ _ _ Ho) as (_ & _ & (_ & Ha & _) & O1 & O2). change (a :: l2) with ([a] ++ l2). rewrite !covered_mid. assert (covered (l1 ++ l2) x -> ~ n <= x < n + size) as Hout.
  { intros (b & Hb & Hx). rewrite Forall_forall in O1. rewrite Forall_forall in O2. apply elem_of_app in Hb as [Hb|Hb]; [pose proof (O1 b Hb)|pose proof (O2 b Hb)]; simpl in *; lia. }
  assert (covered (remains fresh a n size) x <-> v_s a <= x < v_e a /\ ~ n <= x < n + size) as ->.
  { unfold covered, remains. destruct (Z.ltb_spec (v_s a) n), (Z.ltb_spec (n + size) (v_e a)); split; try (intros (b & Hb & Hx); rewrite ?elem_of_cons ?elem_of_nil in Hb; repeat destruct Hb as [->|Hb]; try done; simpl in *; lia); intros Hx.
    - destruct (Z.lt_ge_cases x n); [exists (Area fresh (v_s a) n)|exists (Area (v_a a) (n + size) (v_e a))]; (split; [set_solver|simpl; lia]).
    - eexists. split; [left|simpl; lia].
    - eexists. split; [left|simpl; lia].
    - lia. }
  assert (covered [a] x <-> v_s a <= x < v_e a) as ->; [|tauto]. split; [intros (b & Hb & Hx); apply list_elem_of_singleton in Hb as ->; done|intros Hx; exists a; split; [left|done]].
Qed.
Lemma vmap_ok_alloc F1 a F2 B1 B2 va fresh n size : vmap_ok (F1 ++ a :: F2) (B1 ++ B2) -> 0 < fresh -> 0 < size -> v_s a <= n -> n + size <= v_e a -> ordered (B1 ++ Area va n (n + size) :: B2) ->
  vmap_ok (F1 ++ remains fresh a n size ++ F2) (B1 ++ Area va n (n + size) :: B2).
Proof.
  intros [Ho Hb Hd] Hf Hs Hn He HoB. split; [by apply remains_ordered|done|]. destruct (areas_split _ _ _ Ho) as (_ & _ & Ha & O1 & O2). rewrite Forall_forall in O1. rewrite Forall_forall in O2. intros x y Hx Hy.
  assert (x ∈ F1 ++ F2 \/ x ∈ remains fresh a n size) as [Hx'|Hx'] by (rewrite !elem_of_app in Hx |- *; tauto); (assert (y ∈ B1 ++ B2 \/ y = Area va n (n + size)) as [Hy'|Hy'] by (rewrite elem_of_app elem_of_cons in Hy; rewrite elem_of_app; tauto)).
  - apply Hd; [rewrite elem_of_app elem_of_cons; rewrite elem_of_app in Hx'; tauto|done].
  - subst y. simpl. apply elem_of_app in Hx' as [Hx'|Hx']; [pose proof (O1 x Hx')|pose proof (O2 x Hx')]; simpl in *; lia.
  - destruct (remains_in _ _ _ _ _ Ha Hs Hn He Hx') as (H1 & H2 & _). destruct (Hd a y ltac:(rewrite elem_of_app elem_of_cons; auto) Hy'); lia.
  - subst y. simpl. destruct (remains_in _ _ _ _ _ Ha Hs Hn He Hx') as (_ & _ & H3). lia.
Qed.
Lemma is_aligned k x : 0 <= k < 64 -> 0 <= x < 2 ^ 64 -> x mod 2 ^ k = 0 -> IS_ALIGNED x (2 ^ k) = true.
Proof.
  intros Hk Hx Hm. unfold IS_ALIGNED. pose proof (pow2_pos k). assert (2 ^ k < 2 ^ 64) by (apply Z.pow_lt_mono_r; lia). apply Z.eqb_eq. assert (u64 (2 ^ k - 1) = Z.ones k) as E by (rewrite Z.ones_equiv; unfold u64; rewrite Z.mod_small; lia). cbn. rewrite E Z.land_ones; lia.
Qed.
Lemma free_addr V l1 a l2 : free_space V (l1 ++ a :: l2) -∗ ⌜addr_ok (vnode a)⌝.
Proof.
  iIntros "(%t & _ & Ht & (%lab & (_ & %En & _) & _) & _)". rewrite vnodes_app in En. destruct (inorder_split t _ _ _ En) as (k & c & lt & rt & -> & _). iDestruct (plug_open with "Ht") as "[_ Ht]". cbn [tree_at]. iDestruct "Ht" as "($ & _)".
Qed.
Lemma free_nodup V l : free_space V l -∗ ⌜NoDup (vnodes l)⌝.
Proof. iIntros "(%t & _ & _ & (%lab & (_ & _ & %ND) & _) & _)". done. Qed.
Definition alloc_post (V : vmap_vars) (F B : list area) (va fresh size align vstart vend r : Z) : hprop :=
  (∃ F1 a F2 B1 B2 n, ⌜r = va /\ F = F1 ++ a :: F2 /\ B = B1 ++ B2 /\ taken F1 a F2 size align vstart vend n /\ vmap_ok (F1 ++ remains fresh a n size ++ F2) (B1 ++ Area va n (n + size) :: B2)⌝ ∗
    free_space V (F1 ++ remains fresh a n size ++ F2) ∗ busy_space V (B1 ++ Area va n (n + size) :: B2))%I.
Lemma wp_alloc V F B va fresh size align vstart vend fuel : vmap_ok F B -> vars_ok V F B va fresh fuel -> request_ok F size align vstart vend ->
  free_space V F ∗ busy_space V B ∗ blank va ∗ blank fresh ⊢ wp (alloc_vmap_area fuel V true va fresh size align vstart vend) (alloc_post V F B va fresh size align vstart vend).
Proof.
  iIntros (HV HR HQ) "(HF & HB & (%x & %y & [Vs Ve] & Vn & Vl & %g & Vg) & HX)". destruct HV as [HoF HoB Hd]. destruct HR as [R1 R2 [R3 R3'] [R4 R4'] R5 R6]. pose proof HQ as [Q1 Q2 Q3 Q4 Q5]. iDestruct (free_nodup with "HF") as %ND. pose proof (rb_bound_mono (length F) (S (length F)) ltac:(lia)) as Hmono.
  unfold alloc_vmap_area. simpl negb. cbn iota. destruct (Z.eqb_spec va 0) as [|_]; [lia|]. iApply wp_bind. unfold __alloc_vmap_area. iApply wp_bind. iApply (wp_wand with "[HF]").
  { iApply (wp_find_lowest with "HF"); [by split| |lia]. eapply Exists_impl; [exact Q5|]. simpl. unfold good. lia. }
  iIntros (r) "[%Hr HF]". destruct (found_taken _ _ _ _ _ _ HoF HQ Hr) as (F1 & a & F2 & -> & -> & HT). destruct HT as [_ [T1 T1'] [T2 T2'] T3 T4 T5]. set (n := start_in (v_s a) align vstart) in *. destruct (areas_split _ _ _ HoF) as (_ & _ & (Ha1 & Ha2 & Ha3) & _). destruct (Z.eqb_spec (v_a a) 0) as [|_]; [lia|]. iDestruct (free_addr with "HF") as %Hok.
  iAssert (range_at a ∗ (range_at a -∗ free_space V (F1 ++ a :: F2)))%I with "[HF]" as "[[Rs Re] HF]". { iDestruct "HF" as "(%t & %Ht & Ht & (%lab & %HL & HL & HR) & HD)". iDestruct (range_acc _ a with "HR") as "[$ HR]"; [apply elem_of_app; right; left|]. iIntros "Ha". iDestruct ("HR" with "Ha") as "HR". iExists t. iFrame. by iFrame "%". }
  wp_ld "Rs". iDestruct ("HF" with "[$Rs $Re]") as "HF". fold n. assert (u64 (n + size) = n + size) as Eu by (apply Z.mod_small; lia). cbv zeta. rewrite Eu. destruct (Z.ltb_spec vend (n + size)); [lia|]. iApply (wp_wand with "[HF HX]"); [iApply (wp_carve V F1 a F2 fresh n size vend fuel with "HF HX"); [done|done|done|lia|lia|lia|lia|lia]|]. iIntros (r') "[-> HF]".
  destruct (Z.eqb_spec n vend) as [|_]; [lia|]. cbn [v_a v_s v_e]. wp_st "Vs". rewrite Eu. wp_st "Ve". change (va + off_va_vm) with (va + off_max_size). wp_st "Vg". set (b := Area va n (n + size)). assert (area_ok b) as Hb by (split; simpl; lia). iApply wp_bind. iApply (wp_wand with "[HB Vs Ve Vn Vl Vg]").
  { change va with (v_a b) at 4. iApply (wp_insert_busy V B b fuel with "HB [$Vs $Ve] [$Vn $Vl Vg]"); [done|done|done|done|done| |done|iExists 0; iExact "Vg"]. apply Forall_forall. intros c Hc. unfold apart. simpl. destruct (Hd a c ltac:(rewrite elem_of_app elem_of_cons; auto) Hc); lia. }
  iIntros (_) "(%B1 & %B2 & (-> & %HoB') & (%t & %Ht & Ht & HR & HV & HD))". iDestruct (range_acc _ b with "HR") as "[[Bs Be] HR]"; [apply elem_of_app; right; left|]. cbn [v_a v_s v_e b]. wp_ld "Bs". wp_ld "Be". iDestruct ("HR" with "[$Bs $Be]") as "HR".
  assert (IS_ALIGNED n align = true) as -> by (destruct Q1 as (k & Hk & ->); apply is_aligned; [lia|lia|done]). destruct (Z.ltb_spec n vstart); [lia|]. destruct (Z.ltb_spec vend (n + size)); [lia|]. cbn [negb orb]. iApply wp_ret. iExists F1, a, F2, B1, B2, n. iFrame "HF". iSplitR; [|iExists t; by iFrame].
  iPureIntro. split; [done|]. split; [done|]. split; [done|]. split; [by split|]. by apply vmap_ok_alloc.
Qed.

(** C12: an allocation of kernel addresses for which some free area has room returns the structure given to it: its range is aligned, within the limits and
    inside one free area, as low in it as the alignment allows, and no lower area surely had room.  Exactly this range is taken from the free
    addresses and added to the areas in use; afterwards both trees, both lists and the largest sizes in the nodes are right
    again, nothing overlaps, and no other memory has changed. *)
Theorem alloc_vmap_exact V F B va fresh size align vstart vend fuel m hf : vmap_ok F B -> vars_ok V F B va fresh fuel -> request_ok F size align vstart vend ->
  hprop_holds (free_space V F ∗ busy_space V B ∗ blank va ∗ blank fresh)%I m -> m ##ₘ hf ->
  exists F1 a F2 B1 B2 n m', F = F1 ++ a :: F2 /\ B = B1 ++ B2 /\
    alloc_vmap_area fuel V true va fresh size align vstart vend (m ∪ hf) = Ok (va, m' ∪ hf) /\ m' ##ₘ hf /\
    taken F1 a F2 size align vstart vend n /\ vmap_ok (F1 ++ remains fresh a n size ++ F2) (B1 ++ Area va n (n + size) :: B2) /\
    (forall x, covered (F1 ++ remains fresh a n size ++ F2) x <-> covered F x /\ ~ n <= x < n + size) /\
    hprop_holds (free_space V (F1 ++ remains fresh a n size ++ F2) ∗ busy_space V (B1 ++ Area va n (n + size) :: B2))%I m'.
Proof.
  intros HV HR HQ HP Hd. destruct (wp_adequate _ _ _ (wp_alloc V F B va fresh size align vstart vend fuel HV HR HQ) m hf HP Hd) as (r & m' & E & Hd' & (F1 & a & F2 & B1 & B2 & n & h1 & h2 & D & Hs & (-> & -> & -> & HT & HV') & H2)).
  exists F1, a, F2, B1, B2, n, m'. split; [done|]. split; [done|]. split; [exact E|]. split; [exact Hd'|]. split; [exact HT|]. split; [exact HV'|]. split.
  - intros x. destruct HT as [_ [T1 T2] _ _ _ _]. apply remains_covered; [apply (vo_free _ _ HV)|apply (rq_size _ _ _ _ _ HQ)|done|done].
  - eapply hprop_mono; [exact H2|]. etransitivity; [|exact Hs]. apply map_union_subseteq_r. exact D.
Qed.

(** ** Witness: the first allocation from the addresses that [vmap_init_free_space] hands over *)

Definition vars0 : vmap_vars := VmapVars 64 128 192 256.
Definition free0 : area := Area 1024 1 (2 ^ 64 - 1).
Definition free_cells : list (Z * Z) :=
  [(64, 1040); (1040, pcval 0 Black); (1056, 0); (1048, 0); (1080, 2 ^ 64 - 2); (1024, 1); (1032, 2 ^ 64 - 1); (136, 1064); (1064, 128); (1072, 128); (128, 1064)].
Definition busy_cells : list (Z * Z) := [(192, 0); (264, 256); (256, 256)].
Definition blank_cells (p : Z) : list (Z * Z) := [(p, 7); (p + 8, 7); (p + 16, 7); (p + 32, 7); (p + 24, 7); (p + 40, 7); (p + 48, 7); (p + 56, 7)].
Lemma free_cells_hold : ([∗ list] x ∈ free_cells, x.1 ↦ x.2) ⊢ free_space vars0 [free0].
Proof.
  iIntros "(T0 & T1 & T2 & T3 & L & A1 & A2 & D1 & D2 & D3 & D4 & _)". iExists (Node Black 1040 Leaf Leaf). iSplitR; [iPureIntro; exists 1%nat; repeat econstructor|].
  iSplitL "T0 T1 T2 T3"; [iFrame "T0 T1 T2 T3"; iPureIntro; repeat split; lia|]. iSplitR "D1 D2 D3 D4"; [|iFrame "D1 D2 D3 D4"]. iExists (fun _ => 2 ^ 64 - 2). iSplitR.
  - iPureIntro. split; [repeat split; vm_compute; reflexivity|split; [done|solve_nodup]].
  - iFrame "L A1 A2". by iSplit.
Qed.
Lemma busy_cells_hold : ([∗ list] x ∈ busy_cells, x.1 ↦ x.2) ⊢ busy_space vars0 [].
Proof. iIntros "(T & D1 & D2 & _)". iExists Leaf. iSplitR; [iPureIntro; split; [exists 0%nat; repeat econstructor|done]|]. iSplitL "T"; [by iFrame "T"|]. iSplitR; [by iApply big_sepL_nil|]. iSplitR; [by iApply big_sepL_nil|]. iFrame "D1 D2". Qed.
Lemma blank_cells_hold p : ([∗ list] x ∈ blank_cells p, x.1 ↦ x.2) ⊢ blank p.
Proof. iIntros "(A & B & N1 & N2 & N3 & L1 & L2 & G & _)". iExists 7, 7. iFrame "A B". iSplitL "N1 N2 N3"; [iExists 7, 7, 7; rewrite /vnode -!Z.add_assoc; iFrame|]. iSplitL "L1 L2"; [iExists 7, 7; rewrite /vlist /list_next /list_prev -?Z.add_assoc; iFrame|]. iExists 7. iFrame. Qed.

Lemma alloc_vmap_exact_witness : exists n m', n mod 4096 = 0 /\ VMALLOC_START <= n /\ n + 8192 <= VMALLOC_END /\
  alloc_vmap_area 32 vars0 true 2048 4096 8192 4096 VMALLOC_START VMALLOC_END (cells (free_cells ++ busy_cells ++ blank_cells 2048 ++ blank_cells 4096) ∪ ∅) = Ok (2048, m' ∪ ∅) /\
  hprop_holds (free_space vars0 (remains 4096 free0 n 8192) ∗ busy_space vars0 [Area 2048 n (n + 8192)])%I m'.
Proof.
  destruct (alloc_vmap_exact vars0 [free0] [] 2048 4096 8192 4096 VMALLOC_START VMALLOC_END 32 (cells (free_cells ++ busy_cells ++ blank_cells 2048 ++ blank_cells 4096)) ∅) as (F1 & a & F2 & B1 & B2 & n & m' & EF & EB & E & _ & HT & _ & _ & H).
  - split; [split; [repeat constructor; simpl; lia|repeat constructor]|split; constructor|intros x y _ Hy; by apply not_elem_of_nil in Hy].
  - split; try (vm_compute; lia); try done.
  - split; [exists 12; lia|lia|lia|vm_compute; split; [discriminate|reflexivity]|]. constructor. vm_compute. discriminate.
  - apply cells_entail; [solve_nodup|]. rw !big_sepL_app. iIntros "(H1 & H2 & H3 & H4)". iSplitL "H1"; [by iApply free_cells_hold|]. iSplitL "H2"; [by iApply busy_cells_hold|]. iSplitL "H3"; by iApply blank_cells_hold.
  - apply map_disjoint_empty_r.
  - symmetry in EB. apply app_eq_nil in EB as [-> ->]. destruct F1 as [|? F1]; [|by destruct F1]. injection EF as <- <-. destruct HT as [_ _ [T1 T2] T3 _ _]. exists n, m'. split; [exact T3|]. split; [exact T1|]. split; [exact T2|]. split; [exact E|]. rewrite app_nil_r in H. exact H.
Defined.
