(* ===== verification/VmapBoot.v ===== *)
(** * Virtual memory areas of the kernel: from the start of the system on

    The initial free space, the descriptions that [get_vm_area] hands out, and any sequence of requests for them. *)

From Stdlib Require Import ZArith Lia.
From stdpp Require Import base tactics numbers list strings gmap sorting functions.
From iris.proofmode Require Import proofmode.
From S2P Require Import Prelude Words HeapLogic KList RbTree RbTreeProofs RbTreeSpec RbAugment RbAugErase Vmap VmapSpec VmapAlloc.
#[local] Open Scope Z_scope.

(** ** The initial free space *)

(** The variables as they are initialised in the file. *)
Definition static_vars (V : vmap_vars) : hprop :=
  (free_vmap_area_root V ↦ 0 ∗ dlist (free_vmap_area_list V) [] ∗ vmap_area_root V ↦ 0 ∗ dlist (vmap_area_list V) [])%I.
Definition whole (free : Z) : area := Area free 1 ULONG_MAX.

Lemma whole_ok free : 0 < free -> ordered [whole free].
Proof. intros H. split; [|repeat constructor]. constructor; [|constructor]. unfold area_ok, whole, ULONG_MAX. simpl. lia. Qed.
Lemma no_free V : free_vmap_area_root V ↦ 0 -∗ dlist (free_vmap_area_list V) [] -∗ ∃ t, ⌜is_rbtree t /\ inorder t = vnodes []⌝ ∗ rbtree (free_vmap_area_root V) t ∗ maxima [] t ∗ dlist (free_vmap_area_list V) (vlists []).
Proof.
  iIntros "Hr Hd". iExists Leaf. iSplitR; [iPureIntro; split; [exists 0%nat; repeat econstructor|done]|]. iFrame "Hd". iSplitL; [by iFrame "Hr"|]. iExists (fun _ => 0). iSplitR; [iPureIntro; split; [done|split; [done|constructor]]|]. iSplitL; by iApply big_sepL_nil.
Qed.
Lemma no_busy V : vmap_area_root V ↦ 0 -∗ dlist (vmap_area_list V) [] -∗ busy_space V [].
Proof. iIntros "Hr Hd". iExists Leaf. iSplitR; [iPureIntro; split; [exists 0%nat; repeat econstructor|done]|]. iFrame "Hd". iSplitL; [by iFrame "Hr"|]. iSplitL; by iApply big_sepL_nil. Qed.

Lemma wp_init V free fuel : free_vmap_area_root V <> 0 -> 0 < free -> addr_ok (free + off_va_rb) -> (S (rb_bound 1) < fuel)%nat ->
  free_vmap_area_root V ↦ 0 -∗ dlist (free_vmap_area_list V) [] -∗ blank free -∗ wp (vmap_init_free_space fuel V free) (fun _ => free_space V [whole free]).
Proof.
  iIntros (HV Hf Hok Hfu) "Hr Hd (%x & %y & [Hs He] & Hlo)". iDestruct (no_free with "Hr Hd") as (t [[h Hrb] En]) "(Ht & HM & HD)". unfold vmap_init_free_space. destruct (Z.eqb_spec free 0); [lia|]. cbn [v_a v_s v_e]. wp_st "Hs". wp_st "He".
  unfold insert_vmap_area_augment. simpl negb. cbn iota. iApply wp_bind. pose proof (whole_ok free Hf) as Ho. iApply (wp_wand with "[Ht Hs He]").
  { iApply (wp_find_root (free_vmap_area_root V) t [] (whole free) fuel with "[$Ht $Hs $He]"); [done|done|split; constructor|apply (ordered_in _ _ Ho); left|constructor| |by iApply big_sepL_nil]. destruct t as [|c p lt rt]; [simpl; lia|]. simpl in En. by destruct (inorder lt). }
  iIntros (r) "((%k & %l1 & %l2 & <- & -> & %HSi) & Ht & _ & Hr)". destruct (app_eq_nil l1 l2) as [-> ->]; [symmetry; apply (si_list _ _ _ _ _ _ HSi)|].
  iApply (wp_link_free V [] [] (whole free) Ho (NoDup_singleton _) Hok fuel k h Hrb Hfu HSi with "Ht HM HD Hr Hlo").
Qed.

(** ** Descriptions *)

(** A request: the structures that the caches hand out for it, the size and the flags. *)
Record vm_req := VmReq { q_area : Z; q_va : Z; q_fresh : Z; q_size : Z; q_flags : Z }.
Definition q_len (q : vm_req) : Z := PAGE_ALIGN (q_size q).
Definition q_align (q : vm_req) : Z := if negb (Z.land (q_flags q) VM_IOREMAP =? 0) then ioremap_align (q_len q) else 1.
Definition granted (q : vm_req) (n : Z) : area := Area (q_va q) n (n + q_len q).
Definition raw_descr (q : vm_req) : hprop := (∃ x y z, q_area q ↦ x ∗ (q_area q + off_area_size) ↦ y ∗ (q_area q + off_area_flags) ↦ z)%I.
Definition descr (q : vm_req) (n : Z) : hprop := (q_area q ↦ n ∗ (q_area q + off_area_size) ↦ q_len q ∗ (q_area q + off_area_flags) ↦ q_flags q)%I.
Definition parts (q : vm_req) : hprop := (raw_descr q ∗ blank (q_va q) ∗ blank (q_fresh q))%I.
Record vreq_ok (q : vm_req) : Prop := {
  vq_area : q_area q <> 0;
  vq_va : 0 < q_va q /\ addr_ok (q_va q + off_va_rb) /\ IS_ERR_VALUE (q_va q) = false;
  vq_fresh : 0 < q_fresh q /\ addr_ok (q_fresh q + off_va_rb);
  vq_len : 0 < q_len q }.

Lemma q_align_pow q : exists k, 0 <= k < 64 /\ q_align q = 2 ^ k.
Proof.
  unfold q_align, ioremap_align. destruct (negb _); [|exists 0; split; [lia|done]]. set (k := Z.min _ _). assert (12 <= k <= 19) as Hk by (unfold k, IOREMAP_MAX_ORDER, PAGE_SHIFT; lia). exists k. split; [lia|].
  rewrite Z.shiftl_1_l. unfold u64. apply Z.mod_small. split; [apply Z.pow_nonneg; lia|apply Z.pow_lt_mono_r; lia].
Qed.
Lemma q_align_pos q : 0 < q_align q.
Proof. destruct (q_align_pow q) as (k & Hk & ->). apply pow2_pos. lia. Qed.
Lemma vm_acc l a : a ∈ l -> vms l -∗ ∃ x, (v_a a + off_va_vm) ↦ x ∗ (∀ y, (v_a a + off_va_vm) ↦ y -∗ vms l).
Proof.
  intros Ha. apply list_elem_of_split in Ha as (l1 & l2 & ->). iIntros "H". iEval (rw vms_insert) in "H". iDestruct "H" as "[(%x & Hx) H]". iExists x. iFrame "Hx". iIntros (y) "Hy". iEval (rw vms_insert). iFrame "H". by iExists y.
Qed.

Definition get_post (V : vmap_vars) (F B : list area) (q : vm_req) (r : Z) : hprop :=
  (∃ F1 a F2 B1 B2 n, ⌜r = q_area q /\ F = F1 ++ a :: F2 /\ B = B1 ++ B2 /\ taken F1 a F2 (q_len q) (q_align q) VMALLOC_START VMALLOC_END n /\
      vmap_ok (F1 ++ remains (q_fresh q) a n (q_len q) ++ F2) (B1 ++ granted q n :: B2)⌝ ∗
    free_space V (F1 ++ remains (q_fresh q) a n (q_len q) ++ F2) ∗ busy_space V (B1 ++ granted q n :: B2) ∗ descr q n)%I.
Lemma wp_get V F B q fuel : vmap_ok F B -> vars_ok V F B (q_va q) (q_fresh q) fuel -> vreq_ok q -> request_ok F (q_len q) (q_align q) VMALLOC_START VMALLOC_END ->
  free_space V F -∗ busy_space V B -∗ parts q -∗ wp (get_vm_area fuel V true (q_area q) (q_va q) (q_fresh q) (q_size q) (q_flags q)) (get_post V F B q).
Proof.
  iIntros (HV HR [A1 (A2 & A3 & A4) A5 A6] HQ) "HF HB ((%x & %y & %z & D1 & D2 & D3) & Hv & Hx)". unfold get_vm_area, __get_vm_area_node. fold (q_len q). cbv zeta. fold (q_align q). destruct (Z.eqb_spec (q_len q) 0) as [|_]; [lia|]. destruct (Z.eqb_spec (q_area q) 0) as [|_]; [done|].
  iApply wp_bind. iApply (wp_wand with "[HF HB Hv Hx]"); [iApply (wp_alloc V F B with "[$HF $HB $Hv $Hx]"); done|]. iIntros (r) "(%F1 & %a & %F2 & %B1 & %B2 & %n & (-> & -> & -> & %HT & %HV') & HF & (%t & %Ht & Ht & HR & HM & HD))". rewrite A4. iApply wp_bind. unfold setup_vmalloc_vm, setup_vmalloc_vm_locked. fold (granted q n).
  iDestruct (range_acc _ (granted q n) with "HR") as "[[Rs Re] HR]"; [apply elem_of_app; right; left|]. iDestruct (vm_acc _ (granted q n) with "HM") as (u) "[Hm HM]"; [apply elem_of_app; right; left|]. cbn [v_a v_s v_e granted]. wp_st "D3". wp_ld "Rs". wp_st "D1". wp_ld "Re". wp_ld "Rs". wp_st "D2".
  iApply (wp_st with "Hm"). iIntros "Hm". iApply wp_ret. iDestruct ("HR" with "[$Rs $Re]") as "HR". iDestruct ("HM" with "Hm") as "HM". iExists F1, a, F2, B1, B2, n. iSplitR; [done|]. iFrame "HF". iSplitL "Ht HR HM HD"; [iExists t; by iFrame|].
  destruct (areas_split _ _ _ (vo_free _ _ HV)) as (_ & _ & (_ & Ha & Hae) & _). destruct HT as [_ [T1 T2] _ _ _ _]. replace (u64 (n + q_len q - n)) with (q_len q) by (unfold u64; rewrite Z.mod_small; lia). iFrame.
Qed.

(** ** Sequences of requests *)

Fixpoint get_areas (fuel : nat) (V : vmap_vars) (qs : list vm_req) : prog (list Z) :=
  match qs with
  | [] => mret []
  | q :: qs =>
      r ← get_vm_area fuel V true (q_area q) (q_va q) (q_fresh q) (q_size q) (q_flags q);
      rs ← get_areas fuel V qs;
      mret (r :: rs)
  end.
(** What the requests may take of the addresses at most. *)
Definition needs (qs : list vm_req) : Z := foldr (fun q s => q_len q + q_align q + s) 0 qs.
Definition placed (q : vm_req) (n : Z) : Prop := n mod q_align q = 0 /\ VMALLOC_START <= n /\ n + q_len q <= VMALLOC_END.
Definition grants (qs : list vm_req) (ns : list Z) : list area := zip_with granted qs ns.
(** Free addresses from a bound on, to the end. *)
Definition open_end (F : list area) (used : Z) : Prop := exists F0 g, F = F0 ++ [g] /\ v_e g = ULONG_MAX /\ v_s g <= VMALLOC_START + used.

Lemma vmalloc_limits : VMALLOC_END = VMALLOC_START + VMALLOC_SIZE - 1 /\ 0 < VMALLOC_START /\ VMALLOC_END < ULONG_MAX /\ 0 < VMALLOC_SIZE < 2 ^ 63.
Proof. vm_compute. repeat split; try discriminate; reflexivity. Qed.
Lemma open_request F used q : open_end F used -> 0 <= used -> 0 < q_len q -> used + q_len q + q_align q <= VMALLOC_SIZE -> request_ok F (q_len q) (q_align q) VMALLOC_START VMALLOC_END.
Proof.
  intros (F0 & g & -> & Eg & Hg) Hu Hl Hs. destruct vmalloc_limits as (E1 & E2 & E3 & E4). unfold ULONG_MAX in *. pose proof (q_align_pos q). split; [apply q_align_pow|done|lia|lia|]. apply Exists_app. right. constructor. rewrite Eg. lia.
Qed.
Lemma open_taken F1 a F2 used q n : ordered (F1 ++ a :: F2) -> open_end (F1 ++ a :: F2) used -> 0 <= used -> 0 < q_len q -> taken F1 a F2 (q_len q) (q_align q) VMALLOC_START VMALLOC_END n ->
  open_end (F1 ++ remains (q_fresh q) a n (q_len q) ++ F2) (used + q_len q + q_align q).
Proof.
  intros Ho (F0 & g & E & Eg & Hg) Hu Hl HT. destruct vmalloc_limits as (E1 & E2 & E3 & E4). pose proof (q_align_pos q). destruct HT as [_ [T1 T2] [T3 T4] _ T5 _]. destruct F2 as [|b F2].
  - apply app_inj_tail in E as [-> ->]. exists (F0 ++ if v_s g <? n then [Area (q_fresh q) (v_s g) n] else []), (Area (v_a g) (n + q_len q) (v_e g)). split; [|simpl; split; [done|lia]].
    unfold remains. destruct (Z.ltb_spec (n + q_len q) (v_e g)); [|lia]. destruct (v_s g <? n); simpl; rewrite -app_assoc //.
  - destruct (exists_last (l := b :: F2)) as (F3 & g' & E'); [done|]. rewrite E' in E |- *. change (a :: F3 ++ [g']) with ((a :: F3) ++ [g']) in E. rewrite app_assoc in E. apply app_inj_tail in E as [_ ->]. exists (F1 ++ remains (q_fresh q) a n (q_len q) ++ F3), g. split; [by rewrite -!app_assoc|]. split; [done|lia].
Qed.
Lemma needs_pos qs : Forall vreq_ok qs -> 0 <= needs qs.
Proof. induction 1 as [|q qs Hq _ IH]; simpl; [lia|]. pose proof (q_align_pos q). pose proof (vq_len _ Hq). lia. Qed.
Lemma remains_length fresh a n size : (length (remains fresh a n size) <= 2)%nat.
Proof. unfold remains. destruct (_ <? _), (_ <? _); simpl; lia. Qed.
Lemma covered_perm l l' x : l ≡ₚ l' -> covered l x <-> covered l' x.
Proof. intros E. unfold covered. by setoid_rewrite E. Qed.

Definition run_post (V : vmap_vars) (F B : list area) (qs : list vm_req) (rs : list Z) : hprop :=
  (∃ ns F' B', ⌜rs = q_area <$> qs /\ Forall2 placed qs ns /\ B' ≡ₚ grants qs ns ++ B /\ vmap_ok F' B' /\ (forall x, covered F' x <-> covered F x /\ ~ covered (grants qs ns) x)⌝ ∗
    free_space V F' ∗ busy_space V B' ∗ [∗ list] q;n ∈ qs;ns, descr q n)%I.
Lemma wp_get_areas V fuel : vmap_area_root V <> 0 -> vmap_area_root V <> free_vmap_area_root V -> forall qs F B used, Forall vreq_ok qs -> vmap_ok F B -> open_end F used -> 0 <= used -> used + needs qs <= VMALLOC_SIZE ->
  (2 * rb_bound (S (length F + length qs)) + 2 < fuel)%nat -> (rb_bound (length B + length qs) < fuel)%nat ->
  free_space V F -∗ busy_space V B -∗ ([∗ list] q ∈ qs, parts q) -∗ wp (get_areas fuel V qs) (run_post V F B qs).
Proof.
  intros V1 V2. induction qs as [|q qs IH]; intros F B used Hqs HV HO Hu Hn Hf1 Hf2; iIntros "HF HB HP"; cbn [get_areas].
  { iApply wp_ret. iExists [], F, B. iFrame "HF HB". iSplit; [|done]. iPureIntro. split; [done|]. split; [constructor|]. split; [done|]. split; [done|]. intros x. split; [|by intros [? _]]. intros Hx. split; [done|]. intros (b & Hb & _). by apply not_elem_of_nil in Hb. }
  apply Forall_cons in Hqs as [Hq Hqs]. simpl in Hn, Hf1, Hf2. pose proof (needs_pos _ Hqs) as Hnp. pose proof (q_align_pos q) as Hal. pose proof (vq_len _ Hq) as Hlen. iDestruct "HP" as "[Hp HP]". pose proof (rb_bound_mono (S (length F)) (S (length F + S (length qs))) ltac:(lia)) as M1. pose proof (rb_bound_mono (length B) (length B + S (length qs)) ltac:(lia)) as M2.
  iApply wp_bind. iApply (wp_wand with "[HF HB Hp]"); [iApply (wp_get V F B q fuel with "HF HB Hp"); [done| |done|by apply (open_request F used); [..|lia]]|].
  { destruct (vq_va _ Hq) as (A1 & A2 & _). split; [done|done|by split|apply (vq_fresh _ Hq)|lia|lia]. }
  iIntros (r) "(%F1 & %a & %F2 & %B1 & %B2 & %n & (-> & -> & -> & %HT & %HV') & HF & HB & HD)". pose proof (remains_length (q_fresh q) a n (q_len q)) as Hrl. rewrite !length_app /= in Hf1, Hf2. iApply wp_bind. iApply (wp_wand with "[HF HB HP]").
  { iApply (IH _ _ (used + q_len q + q_align q) with "HF HB HP"); [done|done|by apply open_taken; [apply HV|..]|lia|lia| |].
    - pose proof (rb_bound_mono (S (length (F1 ++ remains (q_fresh q) a n (q_len q) ++ F2) + length qs)) (S (length F1 + S (length F2) + S (length qs))) ltac:(rewrite !length_app; lia)). lia.
    - pose proof (rb_bound_mono (length (B1 ++ granted q n :: B2) + length qs) (length B1 + length B2 + S (length qs)) ltac:(rewrite length_app /=; lia)). lia. }
  iIntros (rs) "(%ns & %F' & %B' & (-> & %HP2 & %HB & %HV2 & %HC) & HF & HB & HDs)". iApply wp_ret. iExists (n :: ns), F', B'. iFrame "HF HB". iSplitR "HD HDs"; [|by iFrame]. iPureIntro. destruct HT as [_ [T1 T2] [T3 T4] T5 _ _]. split; [done|]. split; [by constructor|]. split; [|split; [done|]].
  - rewrite HB. simpl. rewrite -Permutation_middle. by rewrite -Permutation_middle.
  - intros x. rewrite HC. rewrite remains_covered; [|apply HV|done..]. simpl. rewrite (covered_mid [] [granted q n] (grants qs ns)). simpl. assert (covered [granted q n] x <-> n <= x < n + q_len q) as ->; [|tauto]. split; [intros (b & Hb & Hx); apply list_elem_of_singleton in Hb as ->; done|intros Hx; exists (granted q n); split; [left|done]].
Qed.

(** What a run starts from, and that the loops have enough steps for it. *)
Record boot_ok (V : vmap_vars) (free : Z) (qs : list vm_req) (fuel : nat) : Prop := {
  bo_roots : free_vmap_area_root V <> 0 /\ vmap_area_root V <> 0 /\ vmap_area_root V <> free_vmap_area_root V;
  bo_free : 0 < free /\ addr_ok (free + off_va_rb);
  bo_requests : Forall vreq_ok qs;
  bo_room : needs qs <= VMALLOC_SIZE;
  bo_fuel : (2 * rb_bound (S (S (length qs))) + 2 < fuel)%nat }.
Definition boot_and_get (fuel : nat) (V : vmap_vars) (free : Z) (qs : list vm_req) : prog (list Z) :=
  vmap_init_free_space fuel V free;; get_areas fuel V qs.

Lemma wp_boot V free qs fuel : boot_ok V free qs fuel ->
  static_vars V ∗ blank free ∗ ([∗ list] q ∈ qs, parts q) ⊢ wp (boot_and_get fuel V free qs) (run_post V [whole free] [] qs).
Proof.
  iIntros ([(R1 & R2 & R3) (A1 & A2) Hqs Hn Hf]) "((Hf & Hfd & Hb & Hbd) & Hw & HP)". pose proof (rb_bound_mono 1 (S (S (length qs))) ltac:(lia)) as M1. pose proof (rb_bound_mono (length qs) (S (S (length qs))) ltac:(lia)) as M2. iApply wp_bind. iApply (wp_wand with "[Hf Hfd Hw]"); [iApply (wp_init with "Hf Hfd Hw"); [done..|lia]|]. iIntros (_) "HF". iDestruct (no_busy with "Hb Hbd") as "HB".
  iApply (wp_get_areas V fuel R2 R3 qs [whole free] [] 0 with "HF HB HP"); [done| | |lia|lia|simpl; lia|simpl; lia].
  - split; [by apply whole_ok|split; constructor|]. intros x y _ Hy. by apply not_elem_of_nil in Hy.
  - exists [], (whole free). split; [done|]. split; [done|]. destruct vmalloc_limits as (_ & ? & _). simpl. lia.
Qed.

(** C11: after the free space has been set up, every sequence of requests for kernel addresses that needs no more than the range
    for them succeeds: each gets a description with its size and flags and an aligned place within the limits, the areas in use
    are exactly these places, in order and without overlap, and the free ones are exactly the other addresses. *)
Theorem kernel_areas_exact V free qs fuel m hf : boot_ok V free qs fuel ->
  hprop_holds (static_vars V ∗ blank free ∗ [∗ list] q ∈ qs, parts q)%I m -> m ##ₘ hf ->
  exists ns F B m', boot_and_get fuel V free qs (m ∪ hf) = Ok (q_area <$> qs, m' ∪ hf) /\ m' ##ₘ hf /\
    Forall2 placed qs ns /\ B ≡ₚ grants qs ns /\ ordered B /\ ordered F /\
    (forall x, covered F x <-> 1 <= x < ULONG_MAX /\ ~ covered B x) /\
    hprop_holds (free_space V F ∗ busy_space V B ∗ [∗ list] q;n ∈ qs;ns, descr q n)%I m'.
Proof.
  intros HB HP Hd. destruct (wp_adequate _ _ _ (wp_boot V free qs fuel HB) m hf HP Hd) as (r & m' & E & Hd' & (ns & F & B & h1 & h2 & D & Hs & (-> & H1 & H2 & HV & HC) & H3)).
  rewrite app_nil_r in H2. exists ns, F, B, m'. split; [exact E|]. split; [exact Hd'|]. split; [exact H1|]. split; [exact H2|]. split; [apply HV|]. split; [apply HV|]. split.
  - intros x. rewrite HC (covered_perm _ _ x H2). assert (covered [whole free] x <-> 1 <= x < ULONG_MAX) as ->; [|done]. split; [intros (b & Hb & Hx); apply list_elem_of_singleton in Hb as ->; exact Hx|intros Hx; exists (whole free); split; [left|exact Hx]].
  - eapply hprop_mono; [exact H3|]. etransitivity; [|exact Hs]. apply map_union_subseteq_r. exact D.
Qed.

(** ** Witness: an I/O mapping of five pages and a plain area of one byte *)

Definition requests0 : list vm_req := [VmReq 8192 2048 4096 20000 VM_IOREMAP; VmReq 8256 2304 4352 1 2].
Definition static_cells : list (Z * Z) := [(64, 0); (136, 128); (128, 128); (192, 0); (264, 256); (256, 256)].
Definition request_cells (q : vm_req) : list (Z * Z) := [(q_area q, 0); (q_area q + 8, 0); (q_area q + 16, 0)] ++ blank_cells (q_va q) ++ blank_cells (q_fresh q).
Definition boot_cells : list (Z * Z) := static_cells ++ blank_cells 1024 ++ request_cells (VmReq 8192 2048 4096 20000 VM_IOREMAP) ++ request_cells (VmReq 8256 2304 4352 1 2).
Lemma request_cells_hold q : ([∗ list] x ∈ request_cells q, x.1 ↦ x.2) ⊢ parts q.
Proof. unfold request_cells. rw !big_sepL_app. iIntros "((A & B & C & _) & H1 & H2)". iSplitL "A B C"; [iExists 0, 0, 0; iFrame "A B C"|]. iSplitL "H1"; by iApply blank_cells_hold. Qed.
Lemma kernel_areas_exact_witness : exists n1 n2 m', boot_and_get 32 vars0 1024 requests0 (cells boot_cells ∪ ∅) = Ok ([8192; 8256], m' ∪ ∅) /\
  n1 mod 2 ^ 15 = 0 /\ (n1 + 20480 <= n2 \/ n2 + 4096 <= n1).
Proof.
  destruct (kernel_areas_exact vars0 1024 requests0 32 (cells boot_cells) ∅) as (ns & F & B & m' & E & _ & H1 & H2 & H3 & _).
  - split; [vm_compute; repeat split; discriminate|split; [lia|split; [vm_compute; split; reflexivity|reflexivity]]| |vm_compute; discriminate|vm_compute; lia].
    repeat constructor; try (vm_compute; congruence).
  - apply cells_entail; [solve_nodup|]. unfold boot_cells, requests0. iEval (rw big_sepL_app; rw (big_sepL_app _ (blank_cells 1024)); rw (big_sepL_app _ (request_cells _) (request_cells _))). iIntros "((T1 & T2 & T3 & T4 & T5 & T6 & _) & H2 & H3 & H4)". iSplitL "T1 T2 T3 T4 T5 T6"; [iFrame "T1 T2 T3 T4 T5 T6"|]. iSplitL "H2"; [by iApply blank_cells_hold|]. iEval (rw !big_sepL_cons). iSplitL "H3"; [by iApply request_cells_hold|]. iSplitL; [by iApply request_cells_hold|done].
  - apply map_disjoint_empty_r.
  - inversion H1 as [|q1 n1 ? ns1 P1 H1']; subst. inversion H1' as [|q2 n2 ? ns2 P2 H1'']; subst. inversion H1''; subst. exists n1, n2, m'. split; [exact E|]. split; [exact (proj1 P1)|]. destruct H3 as [_ H3]. assert (B = [granted (VmReq 8192 2048 4096 20000 VM_IOREMAP) n1; granted (VmReq 8256 2304 4352 1 2) n2] \/ B = [granted (VmReq 8256 2304 4352 1 2) n2; granted (VmReq 8192 2048 4096 20000 VM_IOREMAP) n1]) as [->| ->].
    + apply Permutation_length_2_inv. symmetry. exact H2.
    + left. apply StronglySorted_inv in H3 as [_ H3]. apply Forall_cons in H3 as [H3 _]. exact H3.
    + right. apply StronglySorted_inv in H3 as [_ H3]. apply Forall_cons in H3 as [H3 _]. exact H3.
Defined.
