(* ===== verification/Dcache.v ===== *)
(** * dcache/dcache.c: the cache of directory entries

    Entries, inodes, mounts and mount points are records in tables, named by their addresses; a hash table is the table of its
    chains, each the sequence of the addresses in it.  A name is the sequence of its bytes up to the terminating zero, a pointer
    into it the rest of the sequence from there on.  The object caches hand out the structures of a supply, with what the memory
    held before in the fields that are not initialised; when the supply is used up they return NULL. *)

From Stdlib Require Import ZArith Lia.
From stdpp Require Import base tactics numbers list strings gmap.
From S2P Require Import Prelude Words.
#[local] Open Scope Z_scope.

(** ** Names and their hashes *)

Notation name := (list Z).
(** The byte a pointer into a name points to. *)
Definition char_at (s : name) : Z := match s with [] => 0 | c :: _ => c end.
Definition SLASH : Z := 47.
Definition DOT : Z := 46.

Definition init_name_hash (salt : Z) : Z := salt.
Definition partial_name_hash (c prevhash : Z) : Z := u64 (u64 (prevhash + u64 (Z.shiftl c 4) + Z.shiftr c 4) * 11).
Definition end_name_hash (hash : Z) : Z := hash_64 hash 32.
Definition hashlen_hash (hashlen : Z) : Z := u32 hashlen.
Definition hashlen_len (hashlen : Z) : Z := u32 (Z.shiftr hashlen 32).
Definition hashlen_create (hash len : Z) : Z := Z.lor (u64 (Z.shiftl (u64 len) 32)) (u32 hash).

(** [hash_len] is the union of [hash] and [len]. *)
Record qstr := Qstr { hash_len : Z; q_name : name }.
Definition q_hash (q : qstr) : Z := hashlen_hash (hash_len q).
Definition q_strlen (q : qstr) : Z := hashlen_len (hash_len q).
Definition slash_name : qstr := Qstr (hashlen_create 0 1) [SLASH].

(** ** State *)

Record path := Path { p_mnt : Z; p_dentry : Z }.
#[export] Instance path_eq_dec : EqDecision path.
Proof. solve_decision. Defined.

(** [d_hashed]: the node is in a chain of the table.  The list of children is by their addresses. *)
Record dentry := Dentry { d_flags : Z; d_hashed : bool; d_parent : Z; d_name : qstr; d_inode : Z; d_sb : Z; d_subdirs : list Z }.
(** The operation tables of ramfs and, by number, those of other file systems. *)
Inductive inode_operations := no_iops | ramfs_dir_inode_operations | other_iops (fs : Z).
Record inode := Inode { i_mode : Z; i_rdev : Z; i_sb : Z; i_op : inode_operations; i_dentry : list Z }.
Record mount := Mount { mnt_parent : Z; mnt_mountpoint : Z; mnt_mounts : list Z; mnt_root : Z; mnt_sb : Z; mnt_mp : Z }.
Record mountpoint := Mountpoint { m_dentry : Z; m_list : list Z; m_count : Z }.

(** What the allocators hand out next: an entry with the old contents of [d_flags] and [d_inode], an inode, a mount, a mount
    point, and the results of [kmalloc] and of [__getname], 0 when they fail. *)
Record supply := Supply { fresh_dentries : list (Z * Z * Z); fresh_inodes : list (Z * inode); fresh_mounts : list Z; fresh_mountpoints : list Z; kmallocs : list Z; getnames : list Z }.
Record vfs := Vfs {
  dentries : gmap Z dentry; inodes : gmap Z inode; mounts : gmap Z mount; mountpoints : gmap Z mountpoint;
  dentry_hashtable : gmap Z (list Z); in_lookup_hashtable : gmap Z (list Z); mount_hashtable : gmap Z (list Z); mountpoint_hashtable : gmap Z (list Z);
  s_flags : gmap Z Z; fs_root : path; fs_pwd : path; supplies : supply }.

Definition set_dentries f (v : vfs) := Vfs (f (dentries v)) (inodes v) (mounts v) (mountpoints v) (dentry_hashtable v) (in_lookup_hashtable v) (mount_hashtable v) (mountpoint_hashtable v) (s_flags v) (fs_root v) (fs_pwd v) (supplies v).
Definition set_inodes f (v : vfs) := Vfs (dentries v) (f (inodes v)) (mounts v) (mountpoints v) (dentry_hashtable v) (in_lookup_hashtable v) (mount_hashtable v) (mountpoint_hashtable v) (s_flags v) (fs_root v) (fs_pwd v) (supplies v).
Definition set_hashtable f (v : vfs) := Vfs (dentries v) (inodes v) (mounts v) (mountpoints v) (f (dentry_hashtable v)) (in_lookup_hashtable v) (mount_hashtable v) (mountpoint_hashtable v) (s_flags v) (fs_root v) (fs_pwd v) (supplies v).
Definition set_in_lookup f (v : vfs) := Vfs (dentries v) (inodes v) (mounts v) (mountpoints v) (dentry_hashtable v) (f (in_lookup_hashtable v)) (mount_hashtable v) (mountpoint_hashtable v) (s_flags v) (fs_root v) (fs_pwd v) (supplies v).
Definition set_supplies f (v : vfs) := Vfs (dentries v) (inodes v) (mounts v) (mountpoints v) (dentry_hashtable v) (in_lookup_hashtable v) (mount_hashtable v) (mountpoint_hashtable v) (s_flags v) (fs_root v) (fs_pwd v) (f (supplies v)).

Notation vprog := (ST vfs).
Definition vfault {A} : vprog A := fun _ => Fault.
Definition vnofuel {A} : vprog A := fun _ => NoFuel.
Definition upd (f : vfs -> vfs) : vprog unit := fun s => Ok (tt, f s).
Definition dent (d : Z) : vprog dentry := s ← st_get; st_lift (deref (dentries s !! d)).
Definition inod (i : Z) : vprog inode := s ← st_get; st_lift (deref (inodes s !! i)).
Definition set_dent (d : Z) (x : dentry) : vprog unit := upd (set_dentries <[d := x]>).
Definition set_inod (i : Z) (x : inode) : vprog unit := upd (set_inodes <[i := x]>).
Definition with_flags (x : dentry) (flags : Z) : dentry := Dentry flags (d_hashed x) (d_parent x) (d_name x) (d_inode x) (d_sb x) (d_subdirs x).
Definition with_inode (x : dentry) (i : Z) : dentry := Dentry (d_flags x) (d_hashed x) (d_parent x) (d_name x) i (d_sb x) (d_subdirs x).
Definition with_parent (x : dentry) (p : Z) : dentry := Dentry (d_flags x) (d_hashed x) p (d_name x) (d_inode x) (d_sb x) (d_subdirs x).
Definition with_subdirs (x : dentry) (l : list Z) : dentry := Dentry (d_flags x) (d_hashed x) (d_parent x) (d_name x) (d_inode x) (d_sb x) l.
Definition with_hashed (x : dentry) : dentry := Dentry (d_flags x) true (d_parent x) (d_name x) (d_inode x) (d_sb x) (d_subdirs x).

(** The allocators. *)
Definition take_dentry : vprog (option (Z * Z * Z)) := fun s =>
  match fresh_dentries (supplies s) with
  | [] => Ok (None, s)
  | x :: l => Ok (Some x, set_supplies (fun u => Supply l (fresh_inodes u) (fresh_mounts u) (fresh_mountpoints u) (kmallocs u) (getnames u)) s)
  end.
Definition take_inode : vprog (option (Z * inode)) := fun s =>
  match fresh_inodes (supplies s) with
  | [] => Ok (None, s)
  | x :: l => Ok (Some x, set_supplies (fun u => Supply (fresh_dentries u) l (fresh_mounts u) (fresh_mountpoints u) (kmallocs u) (getnames u)) s)
  end.
Definition take_kmalloc : vprog Z := fun s =>
  match kmallocs (supplies s) with
  | [] => Ok (0, s)
  | x :: l => Ok (x, set_supplies (fun u => Supply (fresh_dentries u) (fresh_inodes u) (fresh_mounts u) (fresh_mountpoints u) l (getnames u)) s)
  end.
Definition take_getname : vprog Z := fun s =>
  match getnames (supplies s) with
  | [] => Ok (0, s)
  | x :: l => Ok (x, set_supplies (fun u => Supply (fresh_dentries u) (fresh_inodes u) (fresh_mounts u) (fresh_mountpoints u) (kmallocs u) l) s)
  end.

(** ** Flags *)

Definition DNAME_INLINE_LEN : Z := 32.
Definition DCACHE_OP_COMPARE : Z := 0x2.
Definition DCACHE_MOUNTED : Z := 0x10000.
Definition DCACHE_NEED_AUTOMOUNT : Z := 0x20000.
Definition DCACHE_MANAGE_TRANSIT : Z := 0x40000.
Definition DCACHE_MISS_TYPE : Z := 0.
Definition DCACHE_DIRECTORY_TYPE : Z := 0x200000.
Definition DCACHE_REGULAR_TYPE : Z := 0x400000.
Definition DCACHE_SPECIAL_TYPE : Z := 0x500000.
Definition DCACHE_ENTRY_TYPE : Z := 0x700000.
Definition DCACHE_FALLTHRU : Z := 0x1000000.
Definition DCACHE_PAR_LOOKUP : Z := 0x10000000.
Definition DCACHE_MANAGED_DENTRY : Z := Z.lor (Z.lor DCACHE_MOUNTED DCACHE_NEED_AUTOMOUNT) DCACHE_MANAGE_TRANSIT.
(** [x & bits] as a condition. *)
Definition any_bit (x bits : Z) : bool := negb (Z.land x bits =? 0).
Definition clear_bits (x bits : Z) : Z := Z.land x (u32 (Z.lnot bits)).

Definition IS_ROOT (d : Z) (x : dentry) : bool := d =? d_parent x.
Definition d_mountpoint (x : dentry) : bool := any_bit (d_flags x) DCACHE_MOUNTED.
Definition d_unhashed (x : dentry) : bool := negb (d_hashed x).
Definition d_unlinked (d : Z) (x : dentry) : bool := d_unhashed x && negb (IS_ROOT d x).
Definition d_in_lookup (x : dentry) : bool := any_bit (d_flags x) DCACHE_PAR_LOOKUP.
Definition __d_entry_type (x : dentry) : Z := Z.land (d_flags x) DCACHE_ENTRY_TYPE.
Definition d_can_lookup (x : dentry) : bool := __d_entry_type x =? DCACHE_DIRECTORY_TYPE.
Definition d_backing_inode (x : dentry) : Z := d_inode x.

(** ** Chains *)

Definition chain (t : gmap Z (list Z)) (b : Z) : list Z := default [] (t !! b).
Definition hlist_bl_add_head (n b : Z) (t : gmap Z (list Z)) : gmap Z (list Z) := <[b := n :: chain t b]> t.
(** A node knows its place by [pprev]; it is taken out of whatever chain it is in. *)
Definition __hlist_bl_del (n : Z) (t : gmap Z (list Z)) : gmap Z (list Z) := filter (fun x => x <> n) <$> t.

Section Dcache.
(** The size of the table, fixed when it is allocated. *)
Context (d_hash_shift : Z).

Definition d_hash (hash : Z) : Z := Z.shiftr hash d_hash_shift.

(** ** Entries *)

(** The bytes that [memcpy] takes from a name: at most up to its terminating zero. *)
Definition copy_name (s : name) (len : Z) : outcome name :=
  if len <=? Z.of_nat (length s) + 1 then Ok (take (Z.to_nat len) (s ++ [0])) else Fault.
Definition __d_alloc (sb : Z) (nm : option qstr) : vprog Z :=
  o ← take_dentry;
  match o with
  | None => mret 0
  | Some (dentry, flags, inode) =>
      let fill (nm : qstr) :=
        bytes ← st_lift (copy_name (q_name nm) (q_strlen nm));
        set_dent dentry (Dentry flags false dentry (Qstr (hashlen_create (q_hash nm) (q_strlen nm)) bytes) inode sb []);;
        mret dentry in
      match nm with
      | None => fill slash_name
      | Some nm =>
          if DNAME_INLINE_LEN - 1 <? q_strlen nm then
            p ← take_kmalloc;
            if p =? 0 then mret 0 else fill nm
          else fill nm
      end
  end.
Definition d_alloc_anon (sb : Z) : vprog Z := __d_alloc sb None.
Definition __d_set_inode_and_type (dentry inode type_flags : Z) : vprog unit :=
  x ← dent dentry;
  set_dent dentry (with_inode x inode);;
  x ← dent dentry;
  set_dent dentry (with_flags x (Z.lor (clear_bits (d_flags x) (Z.lor DCACHE_ENTRY_TYPE DCACHE_FALLTHRU)) type_flags)).
Definition d_flags_for_inode (inode : Z) : vprog Z :=
  if inode =? 0 then mret DCACHE_MISS_TYPE
  else
    i ← inod inode;
    mret (if Z.land (i_mode i) S_IFMT =? S_IFDIR then DCACHE_DIRECTORY_TYPE
          else if negb (Z.land (i_mode i) S_IFMT =? S_IFREG) then DCACHE_SPECIAL_TYPE else DCACHE_REGULAR_TYPE).
Definition __d_instantiate (dentry inode : Z) : vprog unit := add_flags ← d_flags_for_inode inode; __d_set_inode_and_type dentry inode add_flags.
Definition d_instantiate (entry inode : Z) : vprog unit := if negb (inode =? 0) then __d_instantiate entry inode else mret tt.
Definition d_make_root (root_inode : Z) : vprog Z :=
  if root_inode =? 0 then mret 0
  else
    i ← inod root_inode;
    res ← d_alloc_anon (i_sb i);
    if res =? 0 then mret 0 else d_instantiate res root_inode;; mret res.

(** ** Lookup *)

Fixpoint dentry_string_cmp (fuel : nat) (cs ct : name) (tcount : Z) : outcome Z :=
  match fuel with
  | O => NoFuel
  | S fuel =>
      if negb (char_at cs =? char_at ct) then Ok 1
      else
        let tcount := u32 (tcount - 1) in
        if tcount =? 0 then Ok 0
        else match cs, ct with _ :: cs, _ :: ct => dentry_string_cmp fuel cs ct tcount | _, _ => Fault end
  end.
Definition dentry_cmp (x : dentry) (ct : name) (tcount : Z) : outcome Z := dentry_string_cmp (S (length ct)) (q_name (d_name x)) ct tcount.
Fixpoint d_lookup_loop (parent : Z) (nm : qstr) (l : list Z) : vprog Z :=
  match l with
  | [] => mret 0
  | dentry :: l =>
      x ← dent dentry;
      if negb (d_parent x =? parent) then d_lookup_loop parent nm l
      else if d_unhashed x then d_lookup_loop parent nm l
      else if negb (hash_len (d_name x) =? hash_len nm) then d_lookup_loop parent nm l
      else
        c ← st_lift (dentry_cmp x (q_name nm) (hashlen_len (hash_len nm)));
        if negb (c =? 0) then d_lookup_loop parent nm l else mret dentry
  end.
Definition __d_lookup (parent : Z) (nm : qstr) : vprog Z :=
  s ← st_get;
  d_lookup_loop parent nm (chain (dentry_hashtable s) (d_hash (hashlen_hash (hash_len nm)))).
Definition __d_lookup_rcu (parent : Z) (nm : qstr) : vprog Z := __d_lookup parent nm.
Definition d_lookup (parent : Z) (nm : qstr) : vprog Z := __d_lookup parent nm.

(** ** New entries *)

Definition d_alloc (parent : Z) (nm : qstr) : vprog Z :=
  p ← dent parent;
  dentry ← __d_alloc (d_sb p) (Some nm);
  if dentry =? 0 then mret 0
  else
    x ← dent dentry;
    set_dent dentry (with_parent x parent);;
    p ← dent parent;
    set_dent parent (with_subdirs p (dentry :: d_subdirs p));;
    mret dentry.
Definition __d_rehash (entry : Z) : vprog unit :=
  x ← dent entry;
  upd (set_hashtable (hlist_bl_add_head entry (d_hash (q_hash (d_name x)))));;
  set_dent entry (with_hashed x).
Definition __d_lookup_done (dentry : Z) : vprog unit :=
  x ← dent dentry;
  set_dent dentry (with_flags x (clear_bits (d_flags x) DCACHE_PAR_LOOKUP));;
  upd (set_in_lookup (__hlist_bl_del dentry)).
Definition d_lookup_done (dentry : Z) : vprog unit := x ← dent dentry; if d_in_lookup x then __d_lookup_done dentry else mret tt.
Definition __d_add (dentry inode : Z) : vprog unit :=
  x ← dent dentry;
  (if d_in_lookup x then __d_lookup_done dentry else mret tt);;
  (if negb (inode =? 0) then
     add_flags ← d_flags_for_inode inode;
     i ← inod inode;
     set_inod inode (Inode (i_mode i) (i_rdev i) (i_sb i) (i_op i) (dentry :: i_dentry i));;
     __d_set_inode_and_type dentry inode add_flags
   else mret tt);;
  __d_rehash dentry.
Definition d_add (entry inode : Z) : vprog unit := __d_add entry inode.

Definition IN_LOOKUP_SHIFT : Z := 10.
Definition L1_CACHE_BYTES : Z := 64.
Definition in_lookup_hash (parent hash : Z) : Z := hash_32 (u32 (hash + parent / L1_CACHE_BYTES)) IN_LOOKUP_SHIFT.
Definition d_same_name (x p : dentry) (nm : qstr) : outcome bool :=
  if any_bit (d_flags p) DCACHE_OP_COMPARE then Panic "with DCACHE_OP_COMPARE!"
  else if negb (q_strlen (d_name x) =? q_strlen nm) then Ok false
  else c ← dentry_cmp x (q_name nm) (q_strlen nm); Ok (c =? 0).
Fixpoint in_lookup_loop (parent : Z) (nm : qstr) (l : list Z) : vprog Z :=
  match l with
  | [] => mret 0
  | dentry :: l =>
      x ← dent dentry;
      if negb (q_hash (d_name x) =? q_hash nm) then in_lookup_loop parent nm l
      else if negb (d_parent x =? parent) then in_lookup_loop parent nm l
      else
        p ← dent parent;
        b ← st_lift (d_same_name x p nm);
        if negb (b : bool) then in_lookup_loop parent nm l else mret dentry
  end.
Definition d_alloc_parallel (parent : Z) (nm : qstr) : vprog Z :=
  let b := in_lookup_hash parent (q_hash nm) in
  new ← d_alloc parent nm;
  s ← st_get;
  dentry ← in_lookup_loop parent nm (chain (in_lookup_hashtable s) b);
  if negb (dentry =? 0) then mret dentry
  else
    x ← dent new;
    set_dent new (with_flags x (Z.lor (d_flags x) DCACHE_PAR_LOOKUP));;
    upd (set_in_lookup (hlist_bl_add_head new b));;
    mret new.

(** ** Mount points and aliases *)

(** The result of the walk to the root: whether an ancestor is not in the table. *)
Fixpoint unhashed_above (fuel : nat) (p : Z) : vprog bool :=
  match fuel with
  | O => vnofuel
  | S fuel =>
      x ← dent p;
      if IS_ROOT p x then mret false
      else if d_unhashed x then mret true
      else unhashed_above fuel (d_parent x)
  end.
Definition d_set_mounted (fuel : nat) (dentry : Z) : vprog Z :=
  x ← dent dentry;
  b ← unhashed_above fuel (d_parent x);
  if (b : bool) then mret (- ENOENT)
  else if negb (d_unlinked dentry x) then
    if negb (d_mountpoint x) then set_dent dentry (with_flags x (Z.lor (d_flags x) DCACHE_MOUNTED));; mret 0
    else mret (- EBUSY)
  else mret (- ENOENT).
Definition __d_find_any_alias (i : inode) : Z := hd 0 (i_dentry i).
(** [inode] is an address, 0 or an error. *)
Definition d_splice_alias (inode dentry : Z) : vprog Z :=
  if IS_ERR_VALUE inode then mret inode
  else
    x ← dent dentry;
    if negb (d_unhashed x) then st_panic "BUG"
    else
      (if inode =? 0 then mret tt
       else
         i ← inod inode;
         if (Z.land (i_mode i) S_IFMT =? S_IFDIR) && negb (__d_find_any_alias i =? 0) then st_panic "It has alias!" else mret tt);;
      __d_add dentry inode;;
      mret 0.
End Dcache.
