(* ===== verification/Namei.v ===== *)
(** * fs/namei.c: path lookup

    The walk along a path, from the root or the working directory, one component after the other: in the cache of entries, or
    by the operations of the file system when the cache does not have it, across mounted file systems.  [ramfs_lookup] and the
    like are the operations of the inodes: those of ramfs are modelled, those of other file systems an argument.  Local
    variables that are read before they are written hold [stack] and [junk]. *)

From Stdlib Require Import ZArith Lia.
From stdpp Require Import base tactics numbers list strings gmap.
From S2P Require Import Prelude Words OpenFile Dcache.
#[local] Open Scope Z_scope.

(** ** Data *)

Inductive last_types := LAST_NORM | LAST_ROOT | LAST_DOT | LAST_DOTDOT.
#[export] Instance last_types_eq_dec : EqDecision last_types.
Proof. solve_decision. Defined.
Record nameidata := Nameidata { nd_path : path; nd_last : qstr; nd_root : path; nd_inode : Z; nd_flags : Z; nd_last_type : last_types; nd_name : name; nd_dfd : Z }.
Definition set_nd_path (nd : nameidata) x := Nameidata x (nd_last nd) (nd_root nd) (nd_inode nd) (nd_flags nd) (nd_last_type nd) (nd_name nd) (nd_dfd nd).
Definition set_nd_last (nd : nameidata) x := Nameidata (nd_path nd) x (nd_root nd) (nd_inode nd) (nd_flags nd) (nd_last_type nd) (nd_name nd) (nd_dfd nd).
Definition set_nd_root (nd : nameidata) x := Nameidata (nd_path nd) (nd_last nd) x (nd_inode nd) (nd_flags nd) (nd_last_type nd) (nd_name nd) (nd_dfd nd).
Definition set_nd_inode (nd : nameidata) x := Nameidata (nd_path nd) (nd_last nd) (nd_root nd) x (nd_flags nd) (nd_last_type nd) (nd_name nd) (nd_dfd nd).
Definition set_nd_flags (nd : nameidata) x := Nameidata (nd_path nd) (nd_last nd) (nd_root nd) (nd_inode nd) x (nd_last_type nd) (nd_name nd) (nd_dfd nd).
Definition set_nd_type (nd : nameidata) x := Nameidata (nd_path nd) (nd_last nd) (nd_root nd) (nd_inode nd) (nd_flags nd) x (nd_name nd) (nd_dfd nd).
Definition add_flags (nd : nameidata) (bits : Z) : nameidata := set_nd_flags nd (Z.lor (nd_flags nd) bits).
Definition drop_flags (nd : nameidata) (bits : Z) : nameidata := set_nd_flags nd (clear_bits (nd_flags nd) bits).

Definition LOOKUP_ROOT_GRABBED : Z := 0x8.
Definition LOOKUP_PARENT : Z := 0x10.
Definition LOOKUP_REVAL : Z := 0x20.
Definition LOOKUP_RCU : Z := 0x40.
Definition LOOKUP_JUMPED : Z := 0x1000.
Definition LOOKUP_ROOT : Z := 0x2000.
Definition LOOKUP_EMPTY : Z := 0x4000.
Definition PATH_MAX : Z := 4096.
Definition NAME_MAX : Z := 255.
(** [iname] lies behind a pointer. *)
Definition EMBEDDED_NAME_MAX : Z := PATH_MAX - 8.
Definition ENOTDIR : Z := 20.
Definition ECHILD : Z := 10.
Definition EPERM : Z := 1.
Definition ENOSPC : Z := 28.

(** ** Names *)

Fixpoint hash_name_loop (rest : name) (c hash len : Z) : Z * Z :=
  let len := u64 (len + 1) in
  let hash := partial_name_hash c hash in
  match rest with
  | [] => (hash, len)
  | c :: rest => if negb (c =? 0) && negb (c =? SLASH) then hash_name_loop rest c hash len else (hash, len)
  end.
Definition hash_name (salt : Z) (nm : name) : outcome Z :=
  match nm with
  | [] => Fault
  | c :: rest => let '(hash, len) := hash_name_loop rest c (init_name_hash salt) 0 in Ok (hashlen_create (end_name_hash hash) len)
  end.
(** The name is copied into a buffer of [__getname] or, when it is long, of [kmalloc]: the error, or the name. *)
Definition getname_kernel (filename : name) : vprog (Z + name) :=
  let len := Z.of_nat (length filename) + 1 in
  result ← take_getname;
  if result =? 0 then mret (inl (- ENOMEM))
  else if len <=? EMBEDDED_NAME_MAX then mret (inr filename)
  else if len <=? PATH_MAX then
    tmp ← take_kmalloc;
    if tmp =? 0 then mret (inl (- ENOMEM)) else mret (inr filename)
  else mret (inl (- ENAMETOOLONG)).

Section Namei.
Context (d_hash_shift m_hash_shift m_hash_mask : Z).
(** The lookup operations of the file systems that are not ramfs. *)
Context (fs_lookup : Z -> Z -> Z -> Z -> vprog Z).
Context (stack : nameidata) (junk : Z).
#[local] Notation __d_lookup := (__d_lookup d_hash_shift).
#[local] Notation __d_lookup_rcu := (__d_lookup_rcu d_hash_shift).
#[local] Notation d_add := (d_add d_hash_shift).

(** ** Operations of inodes *)

Definition simple_lookup (dir dentry flags : Z) : vprog Z :=
  x ← dent dentry;
  if NAME_MAX <? q_strlen (d_name x) then mret (ERR_PTR (- ENAMETOOLONG))
  else d_add dentry 0;; mret 0.
Definition i_op_lookup (inode dentry flags : Z) : vprog Z :=
  i ← inod inode;
  match i_op i with
  | no_iops => vfault
  | ramfs_dir_inode_operations => simple_lookup inode dentry flags
  | other_iops fs => fs_lookup fs inode dentry flags
  end.

(** ** The start *)

Definition set_root (nd : nameidata) : vprog (Z * nameidata) :=
  s ← st_get;
  if has (nd_flags nd) LOOKUP_RCU then mret (0, set_nd_root nd (fs_root s))
  else mret (0, add_flags (set_nd_root nd (fs_root s)) LOOKUP_ROOT_GRABBED).
Definition nd_jump_root (nd : nameidata) : vprog (Z * nameidata) :=
  '(error, nd) ← (if p_mnt (nd_root nd) =? 0 then set_root nd else mret (0, nd));
  if negb (error =? 0) then mret (error, nd)
  else
    let nd := set_nd_path nd (nd_root nd) in
    x ← dent (p_dentry (nd_path nd));
    let nd := set_nd_inode nd (d_inode x) in
    mret (0, add_flags nd LOOKUP_JUMPED).
(** The error, or the name to walk. *)
Definition path_init (nd : nameidata) (flags : Z) : vprog ((Z + name) * nameidata) :=
  let s := nd_name nd in
  let flags := if char_at s =? 0 then clear_bits flags LOOKUP_RCU else flags in
  if has flags LOOKUP_ROOT then st_panic "no LOOKUP_ROOT!"
  else
    let nd := set_nd_flags nd (Z.lor flags LOOKUP_JUMPED) in
    let nd := set_nd_root nd (Path 0 (p_dentry (nd_root nd))) in
    let nd := set_nd_path nd (Path 0 0) in
    if (char_at s =? SLASH) && negb (has flags LOOKUP_IN_ROOT) then
      '(error, nd) ← nd_jump_root nd;
      if negb (error =? 0) then mret (inl error, nd) else mret (inr s, nd)
    else if nd_dfd nd =? AT_FDCWD then
      if has flags LOOKUP_RCU then
        v ← st_get;
        let nd := set_nd_path nd (fs_pwd v) in
        x ← dent (p_dentry (nd_path nd));
        mret (inr s, set_nd_inode nd (d_inode x))
      else st_panic "no LOOKUP_RCU!"
    else st_panic "no AT_FDCMD!".

(** ** One component *)

Definition unlazy_walk (nd : nameidata) : vprog (Z * nameidata) :=
  if negb (has (nd_flags nd) LOOKUP_RCU) then st_panic "BUG"
  else
    let nd := drop_flags nd LOOKUP_RCU in
    x ← dent (p_dentry (nd_path nd));
    if negb (nd_inode nd =? d_inode x) then st_panic "BUG" else mret (0, nd).
(** The entry, its inode when it was found, and the state of the walk. *)
Definition lookup_fast (nd : nameidata) (inode : Z) : vprog (Z * Z * nameidata) :=
  let parent := p_dentry (nd_path nd) in
  if has (nd_flags nd) LOOKUP_RCU then
    dentry ← __d_lookup_rcu parent (nd_last nd);
    if dentry =? 0 then
      '(error, nd) ← unlazy_walk nd;
      mret (if negb (error =? 0) then ERR_PTR (- ECHILD) else 0, inode, nd)
    else x ← dent dentry; mret (dentry, d_backing_inode x, nd)
  else
    dentry ← __d_lookup parent (nd_last nd);
    if dentry =? 0 then mret (0, inode, nd)
    else x ← dent dentry; mret (dentry, d_backing_inode x, nd).

Definition m_hash (mnt dentry : Z) : Z :=
  let tmp := u64 (mnt / L1_CACHE_BYTES + dentry / L1_CACHE_BYTES) in
  let tmp := u64 (tmp + Z.shiftr tmp m_hash_shift) in
  Z.land tmp m_hash_mask.
Definition mnt_of (m : Z) : vprog mount := s ← st_get; st_lift (deref (mounts s !! m)).
Fixpoint lookup_mnt_loop (mnt dentry : Z) (l : list Z) : vprog Z :=
  match l with
  | [] => mret 0
  | p :: l => x ← mnt_of p; if (mnt_parent x =? mnt) && (mnt_mountpoint x =? dentry) then mret p else lookup_mnt_loop mnt dentry l
  end.
Definition __lookup_mnt (mnt dentry : Z) : vprog Z := s ← st_get; lookup_mnt_loop mnt dentry (chain (mount_hashtable s) (m_hash mnt dentry)).

(** From here on the loops take [fuel]. *)
Fixpoint follow_mount_loop (fuel : nat) (nd : nameidata) (p : path) (inode flags : Z) : vprog (bool * path * Z * nameidata) :=
  match fuel with
  | O => vnofuel
  | S fuel =>
      if any_bit flags DCACHE_MOUNTED then
        mounted ← __lookup_mnt (p_mnt p) (p_dentry p);
        if negb (mounted =? 0) then
          m ← mnt_of mounted;
          let p := Path mounted (mnt_root m) in
          x ← dent (p_dentry p);
          follow_mount_loop fuel (add_flags nd LOOKUP_JUMPED) p (d_inode x) (d_flags x)
        else mret (negb (any_bit flags DCACHE_NEED_AUTOMOUNT), p, inode, nd)
      else st_panic "no DCACHE_MOUNTED!"
  end.
Definition __follow_mount_rcu (fuel : nat) (nd : nameidata) (p : path) (inode : Z) : vprog (bool * path * Z * nameidata) :=
  x ← dent (p_dentry p);
  if negb (any_bit (d_flags x) DCACHE_MANAGED_DENTRY) then mret (true, p, inode, nd)
  else if has (nd_flags nd) LOOKUP_NO_XDEV then mret (false, p, inode, nd)
  else follow_mount_loop fuel nd p inode (d_flags x).
Definition handle_mounts (fuel : nat) (nd : nameidata) (dentry inode : Z) : vprog (Z * path * Z * nameidata) :=
  let p := Path (p_mnt (nd_path nd)) dentry in
  let out p nd := x ← dent (p_dentry p); mret (0, p, d_backing_inode x, nd) in
  if has (nd_flags nd) LOOKUP_RCU then
    if inode =? 0 then mret (- ENOENT, p, inode, nd)
    else
      '(done, p, inode, nd) ← __follow_mount_rcu fuel nd p inode;
      if (done : bool) then mret (0, p, inode, nd) else out p nd
  else out p nd.
(** The error of [handle_mounts] is not looked at. *)
Definition step_into (fuel : nat) (nd : nameidata) (dentry inode : Z) : vprog nameidata :=
  '(_, p, inode, nd) ← handle_mounts fuel nd dentry inode;
  mret (set_nd_inode (set_nd_path nd p) inode).
Definition handle_dots (nd : nameidata) (type : last_types) : vprog nameidata :=
  if decide (type = LAST_DOTDOT) then st_panic "no support for dotdot!" else mret nd.
Definition __lookup_slow (nm : qstr) (dir flags : Z) : vprog Z :=
  p ← dent dir;
  let inode := d_inode p in
  dentry ← d_alloc_parallel dir nm;
  if IS_ERR dentry then mret dentry
  else
    x ← dent dentry;
    if negb (d_in_lookup x) then st_panic "not in lookup!"
    else
      old ← i_op_lookup inode dentry flags;
      d_lookup_done dentry;;
      mret (if negb (old =? 0) then old else dentry).
Definition lookup_slow (nm : qstr) (dir flags : Z) : vprog Z := __lookup_slow nm dir flags.
(** The error (0 for none). *)
Definition walk_component (fuel : nat) (nd : nameidata) : vprog (Z * nameidata) :=
  if decide (nd_last_type nd <> LAST_NORM) then nd ← handle_dots nd (nd_last_type nd); mret (0, nd)
  else
    '(dentry, inode, nd) ← lookup_fast nd junk;
    if IS_ERR dentry then mret (PTR_ERR dentry, nd)
    else
      dentry ← (if dentry =? 0 then lookup_slow (nd_last nd) (p_dentry (nd_path nd)) (nd_flags nd) else mret dentry);
      if IS_ERR dentry then mret (PTR_ERR dentry, nd)
      else nd ← step_into fuel nd dentry inode; mret (0, nd).

(** ** The walk *)

Fixpoint skip_slashes (s : name) : name := match s with c :: r => if c =? SLASH then skip_slashes r else s | [] => [] end.
Definition component_type (nm : name) (hash_len : Z) : last_types :=
  if char_at nm =? DOT then
    if hashlen_len hash_len =? 2 then if char_at (tail nm) =? DOT then LAST_DOTDOT else LAST_NORM
    else if hashlen_len hash_len =? 1 then LAST_DOT else LAST_NORM
  else LAST_NORM.
Fixpoint walk_loop (fuel : nat) (nm : name) (nd : nameidata) : vprog (Z * nameidata) :=
  match fuel with
  | O => vnofuel
  | S fuel =>
      hl ← st_lift (hash_name (p_dentry (nd_path nd)) nm);
      let type := component_type nm hl in
      let nd := if decide (type = LAST_DOTDOT) then add_flags nd LOOKUP_JUMPED else nd in
      let nd := set_nd_type (set_nd_last nd (Qstr hl nm)) type in
      let nm := drop (Z.to_nat (hashlen_len hl)) nm in
      if char_at nm =? 0 then mret (0, drop_flags nd LOOKUP_PARENT)
      else
        let nm := skip_slashes (tail nm) in
        if char_at nm =? 0 then st_panic "bad name!"
        else
          '(link, nd) ← walk_component fuel nd;
          if negb (link =? 0) then mret (link, nd)
          else
            x ← dent (p_dentry (nd_path nd));
            if negb (d_can_lookup x) then
              if has (nd_flags nd) LOOKUP_RCU then
                '(error, nd) ← unlazy_walk nd;
                mret (if negb (error =? 0) then - ECHILD else - ENOTDIR, nd)
              else mret (- ENOTDIR, nd)
            else walk_loop fuel nm nd
  end.
Definition link_path_walk (fuel : nat) (nm : Z + name) (nd : nameidata) : vprog (Z * nameidata) :=
  let nd := add_flags (set_nd_type nd LAST_ROOT) LOOKUP_PARENT in
  match nm with
  | inl e => mret (e, nd)
  | inr nm => let nm := skip_slashes nm in if char_at nm =? 0 then mret (0, nd) else walk_loop fuel nm nd
  end.

(** ** Lookup of a path *)

Definition set_nameidata (nd : nameidata) (dfd : Z) (nm : name) : nameidata := Nameidata (nd_path nd) (nd_last nd) (nd_root nd) (nd_inode nd) (nd_flags nd) (nd_last_type nd) nm dfd.
Definition lookup_last (fuel : nat) (nd : nameidata) : vprog (Z * nameidata) :=
  let nd := if decide (nd_last_type nd = LAST_NORM) then if negb (char_at (drop (Z.to_nat (q_strlen (nd_last nd))) (q_name (nd_last nd))) =? 0) then add_flags nd (Z.lor LOOKUP_FOLLOW LOOKUP_DIRECTORY) else nd else nd in
  walk_component fuel nd.
(** The result is the error and the path.  When the last step fails, its error is the name of the next walk, which returns it. *)
Definition path_lookupat (fuel : nat) (nd : nameidata) (flags : Z) (out : path) : vprog (Z * path) :=
  '(s, nd) ← path_init nd flags;
  '(err, nd) ← link_path_walk fuel s nd;
  if negb (err =? 0) then mret (err, out)
  else
    '(e, nd) ← lookup_last fuel nd;
    if e =? 0 then mret (0, nd_path nd)
    else
      '(err, nd) ← link_path_walk fuel (inl e) nd;
      mret (err, if err =? 0 then nd_path nd else out).
Definition filename_lookup (fuel : nat) (dfd : Z) (nm : Z + name) (flags : Z) (out : path) (root : option path) : vprog (Z * path) :=
  match nm with
  | inl e => mret (e, out)
  | inr nm =>
      let '(nd, flags) := match root with Some r => (set_nd_root stack r, Z.lor flags LOOKUP_ROOT) | None => (stack, flags) end in
      path_lookupat fuel (set_nameidata nd dfd nm) (Z.lor flags LOOKUP_RCU) out
  end.
Definition kern_path (fuel : nat) (nm : name) (flags : Z) (out : path) : vprog (Z * path) :=
  n ← getname_kernel nm;
  filename_lookup fuel AT_FDCWD n flags out None.

(** ** Creation *)

Definition path_parentat (fuel : nat) (nd : nameidata) (flags : Z) (parent : path) : vprog (Z * path * nameidata) :=
  '(s, nd) ← path_init nd flags;
  '(err, nd) ← link_path_walk fuel s nd;
  mret (if err =? 0 then (err, nd_path nd, set_nd_path nd (Path 0 0)) else (err, parent, nd)).
(** The error, or the parent, the last component and its type. *)
Definition filename_parentat (fuel : nat) (dfd : Z) (nm : Z + name) (flags : Z) (parent : path) : vprog (Z + path * qstr * last_types) :=
  match nm with
  | inl e => mret (inl e)
  | inr nm =>
      '(retval, parent, nd) ← path_parentat fuel (set_nameidata stack dfd nm) (Z.lor flags LOOKUP_RCU) parent;
      mret (if retval =? 0 then inr (parent, nd_last nd, nd_last_type nd) else inl retval)
  end.
Definition lookup_dcache (nm : qstr) (dir flags : Z) : vprog Z := d_lookup d_hash_shift dir nm.
Definition __lookup_hash (nm : qstr) (base flags : Z) : vprog Z :=
  b ← dent base;
  dentry ← lookup_dcache nm base flags;
  if negb (dentry =? 0) then mret dentry
  else
    dentry ← d_alloc base nm;
    if dentry =? 0 then mret (ERR_PTR (- ENOMEM))
    else
      old ← i_op_lookup (d_inode b) dentry flags;
      if negb (old =? 0) then st_panic "BUG" else mret dentry.
(** The error, or the entry and the path of its parent. *)
Definition filename_create (fuel : nat) (dfd : Z) (nm : Z + name) (p : path) (lookup_flags : Z) : vprog (Z + Z * path) :=
  let lookup_flags := Z.land lookup_flags LOOKUP_REVAL in
  r ← filename_parentat fuel dfd nm lookup_flags p;
  match r with
  | inl e => mret (inl e)
  | inr (p, last, type) =>
      dentry ← __lookup_hash last (p_dentry p) lookup_flags;
      if IS_ERR dentry then st_panic "cannot lookup hash!" else mret (inr (dentry, p))
  end.
Definition kern_path_create (fuel : nat) (dfd : Z) (pathname : name) (p : path) (lookup_flags : Z) : vprog (Z + Z * path) :=
  n ← getname_kernel pathname;
  filename_create fuel dfd n p lookup_flags.
End Namei.
