(* ===== verification/VfsMount.v ===== *)
(** * fs/mount.c, ramfs/ramfs.c, rootfs/rootfs.c and fs/init.c: files in memory and mounts

    Directories and special files of ramfs, which exist only as entries of the cache; mounted file systems and their
    moves; the calls the kernel prepares its name space with.  What a file system does to get its tree is an argument. *)

From Stdlib Require Import ZArith Lia.
From stdpp Require Import base tactics numbers list strings gmap.
From S2P Require Import Prelude Words OpenFile Dcache Namei.
#[local] Open Scope Z_scope.

(** ** State *)

Definition set_mounts f (v : vfs) := Vfs (dentries v) (inodes v) (f (mounts v)) (mountpoints v) (dentry_hashtable v) (in_lookup_hashtable v) (mount_hashtable v) (mountpoint_hashtable v) (s_flags v) (fs_root v) (fs_pwd v) (supplies v).
Definition set_mountpoints f (v : vfs) := Vfs (dentries v) (inodes v) (mounts v) (f (mountpoints v)) (dentry_hashtable v) (in_lookup_hashtable v) (mount_hashtable v) (mountpoint_hashtable v) (s_flags v) (fs_root v) (fs_pwd v) (supplies v).
Definition set_mount_hash f (v : vfs) := Vfs (dentries v) (inodes v) (mounts v) (mountpoints v) (dentry_hashtable v) (in_lookup_hashtable v) (f (mount_hashtable v)) (mountpoint_hashtable v) (s_flags v) (fs_root v) (fs_pwd v) (supplies v).
Definition set_mp_hash f (v : vfs) := Vfs (dentries v) (inodes v) (mounts v) (mountpoints v) (dentry_hashtable v) (in_lookup_hashtable v) (mount_hashtable v) (f (mountpoint_hashtable v)) (s_flags v) (fs_root v) (fs_pwd v) (supplies v).
Definition set_fs_root (p : path) : vprog unit := upd (fun v => Vfs (dentries v) (inodes v) (mounts v) (mountpoints v) (dentry_hashtable v) (in_lookup_hashtable v) (mount_hashtable v) (mountpoint_hashtable v) (s_flags v) p (fs_pwd v) (supplies v)).
Definition set_fs_pwd (p : path) : vprog unit := upd (fun v => Vfs (dentries v) (inodes v) (mounts v) (mountpoints v) (dentry_hashtable v) (in_lookup_hashtable v) (mount_hashtable v) (mountpoint_hashtable v) (s_flags v) (fs_root v) p (supplies v)).
Definition set_mnt (m : Z) (x : mount) : vprog unit := upd (set_mounts <[m := x]>).
Definition set_mpt (m : Z) (x : mountpoint) : vprog unit := upd (set_mountpoints <[m := x]>).
Definition mpt_of (m : Z) : vprog mountpoint := s ← st_get; st_lift (deref (mountpoints s !! m)).
Definition take_mount : vprog Z := fun s =>
  match fresh_mounts (supplies s) with
  | [] => Ok (0, s)
  | x :: l => Ok (x, set_supplies (fun u => Supply (fresh_dentries u) (fresh_inodes u) l (fresh_mountpoints u) (kmallocs u) (getnames u)) s)
  end.
Definition take_mountpoint : vprog Z := fun s =>
  match fresh_mountpoints (supplies s) with
  | [] => Ok (0, s)
  | x :: l => Ok (x, set_supplies (fun u => Supply (fresh_dentries u) (fresh_inodes u) (fresh_mounts u) l (kmallocs u) (getnames u)) s)
  end.

Definition S_IFCHR : Z := 0x2000.
Definition S_IFBLK : Z := 0x6000.
Definition S_IFIFO : Z := 0x1000.
Definition S_IFSOCK : Z := 0xc000.
Definition S_IRWXUGO : Z := 0x1ff.
Definition S_ISVTX : Z := 0x200.
Definition SB_NOUSER : Z := 2 ^ 31.
Definition MS_RDONLY : Z := 1.
Definition MS_MOVE : Z := 8192.
Definition MNT_READONLY : Z := 0x40.
Definition SB_FLAGS : Z := any_of [1; 16; 64; 128; 32768; 2 ^ 16; 2 ^ 25; 2 ^ 23].

Section Mount.
Context (d_hash_shift m_hash_shift m_hash_mask mp_hash_shift mp_hash_mask : Z).
Context (fs_lookup : Z -> Z -> Z -> Z -> vprog Z).
Context (stack : nameidata) (junk : Z) (junk_path : path).
#[local] Notation kern_path := (kern_path d_hash_shift m_hash_shift m_hash_mask fs_lookup stack junk).
#[local] Notation kern_path_create := (kern_path_create d_hash_shift m_hash_shift m_hash_mask fs_lookup stack junk).
#[local] Notation __lookup_mnt := (__lookup_mnt m_hash_shift m_hash_mask).
#[local] Notation m_hash := (m_hash m_hash_shift m_hash_mask).

(** ** ramfs *)

(** The inode as the cache hands it out, with the fields that are set. *)
Definition new_inode (sb : Z) : vprog Z :=
  o ← take_inode;
  match o with
  | None => mret 0
  | Some (i, x) => set_inod i (Inode (i_mode x) (i_rdev x) sb (i_op x) []);; mret i
  end.
Definition inode_init_owner (inode mode : Z) : vprog unit := i ← inod inode; set_inod inode (Inode mode (i_rdev i) (i_sb i) (i_op i) (i_dentry i)).
Definition init_special_inode (inode mode rdev : Z) : vprog unit :=
  i ← inod inode;
  set_inod inode (Inode mode (i_rdev i) (i_sb i) (i_op i) (i_dentry i));;
  i ← inod inode;
  let fmt := Z.land mode S_IFMT in
  if (fmt =? S_IFCHR) || (fmt =? S_IFBLK) then set_inod inode (Inode (i_mode i) rdev (i_sb i) (i_op i) (i_dentry i))
  else if fmt =? S_IFIFO then st_panic "no fifo dev!"
  else if fmt =? S_IFSOCK then mret tt
  else st_panic "init_special_inode: bogus i_mode (%x) for inode %lu".
Definition ramfs_get_inode (sb mode dev : Z) : vprog Z :=
  inode ← new_inode sb;
  if inode =? 0 then mret 0
  else
    inode_init_owner inode mode;;
    (if Z.land mode S_IFMT =? S_IFDIR then
       i ← inod inode; set_inod inode (Inode (i_mode i) (i_rdev i) (i_sb i) ramfs_dir_inode_operations (i_dentry i))
     else init_special_inode inode mode dev);;
    mret inode.
Definition ramfs_mknod (dir dentry mode dev : Z) : vprog Z :=
  d ← inod dir;
  inode ← ramfs_get_inode (i_sb d) mode dev;
  if negb (inode =? 0) then d_instantiate dentry inode;; mret 0 else mret (- ENOSPC).
Definition ramfs_mkdir (dir dentry mode : Z) : vprog Z := ramfs_mknod dir dentry (u16 (Z.lor mode S_IFDIR)) 0.

(** The operations of other file systems do not create entries here. *)
Definition vfs_mkdir (dir dentry mode : Z) : vprog Z :=
  d ← inod dir;
  match i_op d with
  | ramfs_dir_inode_operations => ramfs_mkdir dir dentry (Z.land mode (Z.lor S_IRWXUGO S_ISVTX))
  | other_iops _ => mret (- EPERM)
  | no_iops => vfault
  end.
Definition vfs_mknod (dir dentry mode dev : Z) : vprog Z :=
  d ← inod dir;
  match i_op d with
  | ramfs_dir_inode_operations => ramfs_mknod dir dentry mode dev
  | other_iops _ => mret (- EPERM)
  | no_iops => vfault
  end.

(** ** The calls of rootfs *)

Definition new_decode_dev (dev : Z) : Z :=
  let major := Z.shiftr (Z.land dev 0xfff00) 8 in
  let minor := Z.lor (Z.land dev 0xff) (Z.land (Z.shiftr dev 12) 0xfff00) in
  Z.lor (u32 (Z.shiftl major 20)) minor.
Definition init_mkdir (fuel : nat) (pathname : name) (mode : Z) : vprog Z :=
  r ← kern_path_create fuel AT_FDCWD pathname junk_path LOOKUP_DIRECTORY;
  match r with
  | inl e => mret e
  | inr (dentry, p) => x ← dent (p_dentry p); vfs_mkdir (d_inode x) dentry mode
  end.
Definition init_mknod (fuel : nat) (filename : name) (mode dev : Z) : vprog Z :=
  let fmt := Z.land mode S_IFMT in
  if negb ((fmt =? S_IFBLK) || (fmt =? S_IFCHR)) then mret (- EINVAL)
  else
    r ← kern_path_create fuel AT_FDCWD filename junk_path 0;
    match r with
    | inl e => mret e
    | inr (dentry, p) => x ← dent (p_dentry p); vfs_mknod (d_inode x) dentry mode (new_decode_dev dev)
    end.
Definition init_chdir (fuel : nat) (filename : name) : vprog Z :=
  '(error, p) ← kern_path fuel filename (Z.lor LOOKUP_FOLLOW LOOKUP_DIRECTORY) junk_path;
  if negb (error =? 0) then mret error else set_fs_pwd p;; mret error.
Definition init_chroot (fuel : nat) (filename : name) : vprog Z :=
  '(error, p) ← kern_path fuel filename (Z.lor LOOKUP_FOLLOW LOOKUP_DIRECTORY) junk_path;
  if negb (error =? 0) then mret error else set_fs_root p;; mret error.

(** ** Mount points *)

Definition mp_hash (dentry : Z) : Z :=
  let tmp := dentry / L1_CACHE_BYTES in
  let tmp := u64 (tmp + Z.shiftr tmp mp_hash_shift) in
  Z.land tmp mp_hash_mask.
Definition lookup_mnt (p : path) : vprog Z := __lookup_mnt (p_mnt p) (p_dentry p).
Fixpoint lookup_mountpoint_loop (dentry : Z) (l : list Z) : vprog Z :=
  match l with
  | [] => mret 0
  | mp :: l =>
      x ← mpt_of mp;
      if m_dentry x =? dentry then set_mpt mp (Mountpoint (m_dentry x) (m_list x) (s32 (m_count x + 1)));; mret mp
      else lookup_mountpoint_loop dentry l
  end.
Definition lookup_mountpoint (dentry : Z) : vprog Z := s ← st_get; lookup_mountpoint_loop dentry (chain (mountpoint_hashtable s) (mp_hash dentry)).
Definition get_mountpoint (fuel : nat) (dentry : Z) : vprog Z :=
  x ← dent dentry;
  let make :=
    new ← take_mountpoint;
    if new =? 0 then mret (ERR_PTR (- ENOMEM))
    else
      d_set_mounted fuel dentry;;
      upd (set_mp_hash (fun t => <[mp_hash dentry := new :: chain t (mp_hash dentry)]> t));;
      set_mpt new (Mountpoint dentry [] 1);;
      mret new in
  if d_mountpoint x then
    if d_unlinked dentry x then mret (ERR_PTR (- ENOENT))
    else mp ← lookup_mountpoint dentry; if negb (mp =? 0) then mret mp else make
  else make.
Definition lock_mount (fuel : nat) (p : path) : vprog Z :=
  mnt ← lookup_mnt p;
  if mnt =? 0 then mp ← get_mountpoint fuel (p_dentry p); if IS_ERR mp then st_panic "bad mount point!" else mret mp
  else st_panic "%s: !".

(** ** Attaching *)

Definition mnt_set_mountpoint (mnt mp child : Z) : vprog unit :=
  x ← mpt_of mp;
  set_mpt mp (Mountpoint (m_dentry x) (m_list x) (s32 (m_count x + 1)));;
  c ← mnt_of child;
  set_mnt child (Mount mnt (m_dentry x) (mnt_mounts c) (mnt_root c) (mnt_sb c) mp);;
  x ← mpt_of mp;
  set_mpt mp (Mountpoint (m_dentry x) (child :: m_list x) (m_count x)).
Definition __attach_mnt (mnt parent : Z) : vprog unit :=
  x ← mnt_of mnt;
  upd (set_mount_hash (fun t => <[m_hash parent (mnt_mountpoint x) := mnt :: chain t (m_hash parent (mnt_mountpoint x))]> t));;
  p ← mnt_of parent;
  set_mnt parent (Mount (mnt_parent p) (mnt_mountpoint p) (mnt_mounts p ++ [mnt]) (mnt_root p) (mnt_sb p) (mnt_mp p)).
Definition commit_tree (mnt : Z) : vprog unit :=
  x ← mnt_of mnt;
  if mnt_parent x =? mnt then st_panic "BUG" else __attach_mnt mnt (mnt_parent x).
(** The node leaves the list of its parent, its chain and the list of its mount point, whichever they are. *)
Definition unhash_mnt (mnt : Z) : vprog Z :=
  x ← mnt_of mnt;
  set_mnt mnt (Mount mnt (mnt_root x) (mnt_mounts x) (mnt_root x) (mnt_sb x) (mnt_mp x));;
  upd (set_mounts (fmap (fun y => Mount (mnt_parent y) (mnt_mountpoint y) (filter (fun z => z <> mnt) (mnt_mounts y)) (mnt_root y) (mnt_sb y) (mnt_mp y))));;
  upd (set_mount_hash (__hlist_bl_del mnt));;
  upd (set_mountpoints (fmap (fun y => Mountpoint (m_dentry y) (filter (fun z => z <> mnt) (m_list y)) (m_count y))));;
  x ← mnt_of mnt;
  set_mnt mnt (Mount (mnt_parent x) (mnt_mountpoint x) (mnt_mounts x) (mnt_root x) (mnt_sb x) 0);;
  mret (mnt_mp x).
Definition attach_mnt (mnt parent mp : Z) : vprog unit := mnt_set_mountpoint parent mp mnt;; __attach_mnt mnt parent.
Definition attach_recursive_mnt (fuel : nat) (source_mnt dest_mnt dest_mp : Z) (moving : bool) : vprog Z :=
  x ← mnt_of source_mnt;
  smp ← get_mountpoint fuel (mnt_root x);
  if IS_ERR smp then mret (PTR_ERR smp)
  else
    (if moving then unhash_mnt source_mnt;; attach_mnt source_mnt dest_mnt dest_mp
     else mnt_set_mountpoint dest_mnt dest_mp source_mnt;; commit_tree source_mnt);;
    mret 0.
Definition graft_tree (fuel : nat) (mnt p mp : Z) : vprog Z :=
  x ← mnt_of mnt;
  s ← st_get;
  f ← st_lift (deref (s_flags s !! mnt_sb x));
  if any_bit f SB_NOUSER then mret (- EINVAL) else attach_recursive_mnt fuel mnt p mp false.
Definition do_add_mount (fuel : nat) (newmnt mp : Z) (p : path) : vprog Z :=
  pm ← mnt_of (p_mnt p);
  nm ← mnt_of newmnt;
  if (mnt_sb pm =? mnt_sb nm) && (mnt_root pm =? p_dentry p) then mret (- EBUSY)
  else graft_tree fuel newmnt (p_mnt p) mp.
Definition alloc_vfsmnt : vprog Z :=
  mnt ← take_mount;
  (if mnt =? 0 then mret tt else set_mnt mnt (Mount 0 0 [] 0 0 0));;
  mret mnt.
(** [root] is the root of the tree that the context has got. *)
Definition vfs_create_mount (root : Z) : vprog Z :=
  if root =? 0 then mret (ERR_PTR (- EINVAL))
  else
    mnt ← alloc_vfsmnt;
    if mnt =? 0 then mret (ERR_PTR (- ENOMEM))
    else
      r ← dent root;
      m ← mnt_of mnt;
      set_mnt mnt (Mount (mnt_parent m) (mnt_mountpoint m) (mnt_mounts m) root (d_sb r) (mnt_mp m));;
      mret mnt.
Definition do_new_mount_fc (fuel : nat) (root : Z) (mountpoint : path) : vprog Z :=
  mnt ← vfs_create_mount root;
  if IS_ERR mnt then mret (PTR_ERR mnt)
  else
    mp ← lock_mount fuel mountpoint;
    if IS_ERR mp then mret (PTR_ERR mp) else do_add_mount fuel mnt mp mountpoint.
Definition mnt_has_parent (m : Z) (x : mount) : bool := negb (m =? mnt_parent x).
Definition do_move_mount (fuel : nat) (old_path new_path : path) : vprog Z :=
  mp ← lock_mount fuel new_path;
  if IS_ERR mp then mret (PTR_ERR mp)
  else
    let old := p_mnt old_path in
    x ← mnt_of old;
    attach_recursive_mnt fuel old (p_mnt new_path) mp (mnt_has_parent old x).
Definition do_move_mount_old (fuel : nat) (p : path) (old_name : option name) : vprog Z :=
  match old_name with
  | Some (c :: n) =>
      '(err, old_path) ← kern_path fuel (c :: n) LOOKUP_FOLLOW junk_path;
      if negb (err =? 0) then mret err else do_move_mount fuel old_path p
  | _ => mret (- EINVAL)
  end.

(** ** The calls *)

(** Getting the tree of a file system of this type from this source: the error, and the root. *)
Context (get_tree : name -> Z -> option name -> vprog (Z * Z)).
Definition do_new_mount (fuel : nat) (p : path) (fstype : option name) (sb_flags : Z) (nm : option name) : vprog Z :=
  match fstype with
  | None => mret (- EINVAL)
  | Some type =>
      '(err, root) ← get_tree type sb_flags nm;
      if err =? 0 then do_new_mount_fc fuel root p else mret err
  end.
Definition path_mount (fuel : nat) (dev_name : option name) (p : path) (type_page : option name) (flags : Z) : vprog Z :=
  let sb_flags := Z.land flags SB_FLAGS in
  if any_bit flags MS_MOVE then do_move_mount_old fuel p dev_name else do_new_mount fuel p type_page sb_flags dev_name.
Definition init_mount (fuel : nat) (dev_name : option name) (dir_name : name) (type_page : option name) (flags : Z) : vprog Z :=
  '(ret, p) ← kern_path fuel dir_name LOOKUP_FOLLOW junk_path;
  if negb (ret =? 0) then mret ret else path_mount fuel dev_name p type_page flags.
End Mount.
